(* ===== verification/_CoqProject ===== *)
-Q . S2P
Prelude.v
WireFormat.v
Memory.v
Descriptor.v
Iter.v
OStream.v
Encode.v
IStream.v
Storage.v
DecodeFields.v
Decode.v
Cct.v
CoreConfig.v
Base64.v
Wire.v
EncodeSize.v
IterFacts.v
Messages.v
Codec.v
StaticCodec.v
FlatEncode.v
FlatDecode.v
FlatRoundtrip.v
FlatSafety.v
FlatMessages.v
Allocation.v
Edges.v
Termination.v
LdbBase.v
Coding.v
Crc32c.v
LogWriter.v
LogReader.v
LogRecovery.v
LogSafety.v
Comparator.v
DbFormat.v
VersionEdit.v
WriteBatch.v
Arena.v
SkipList.v
SkipListFacts.v
MemTable.v
MemTableFacts.v
Recover.v
Iterator.v
Block.v
BlockBuild.v
Merger.v
DbIter.v
DbIterFacts.v
BlockSafety.v
TwoLevel.v
TwoLevelFacts.v
Format.v
Filter.v
FilterFacts.v
FormatFacts.v
TableBuilder.v
Table.v
TableBuild.v
TableFacts.v
Cache.v
CacheSpec.v
CacheFacts.v
CacheHistory.v
BlockCaches.v
TableRoundtrip.v
Version.v
VersionFacts.v
Filename.v
VersionSet.v
VersionSetFacts.v
Compaction.v
LevelIter.v
TableCache.v
DbImpl.v
DbImplFacts.v
DbStorage.v
Snapshots.v
