(* ===== verification/Prelude.v ===== *)
(** * nanopb, base64 and LevelDB of the iOS application, modelled and verified

    The C and C++ code of the repository is the code of the iOS pods: the nanopb
    protocol-buffer library ([src/ios/Pods/nanopb]: pb.h, pb_common.c,
    pb_encode.c, pb_decode.c), the messages nanopb generated for the event
    transport ([cct.nanopb.h/.c] of GoogleDataTransportCCTSupport) and for the
    core diagnostics ([firebasecore.nanopb.h/.c] of
    FirebaseCoreDiagnostics), and the base64 routines of the web socket
    handshake ([fbase64.c] of FirebaseDatabase), and LevelDB
    ([src/ios/Pods/leveldb-library]), the key-value store under the Firebase
    realtime database.  nanopb encodes C structures described by tables of
    [pb_field_t] into bytes, and decodes bytes sent by a server into such
    structures.  LevelDB keeps recent writes in a memtable (a skip list of
    internal keys) and, for crashes, in a log of write batches.

    ** The model

    - [Prelude]: the outcomes of C code ([res]: a value, undefined behaviour
      [UB], or [NoFuel]); the monad [M S A] of functions that return a [bool]
      and change a state ([None] is [return false], and the state survives
      it); loops ([while], [whileM], [for_loop]); machine integers ([wrap],
      [sext], little-endian bytes); the lemmas and tactics all files share.
    - [Memory]: a flat 64-bit byte memory with mapped, indeterminate and
      unmapped cells, and the C allocator as the class [Allocator]
      ([pb_realloc], [pb_free] of pb.h are libc's): it may fail, and [realloc]
      may move the block or leave it in place.  [mapped], [updated] and
      [disjoint_ranges] are the vocabulary of the safety theorems.
    - [Descriptor]: pb.h.  The type bits, [pb_field_t], and the [PB_FIELD]
      macros over an explicit layout of C structures ([offsetof],
      [pb_membersize]); the class [Tables] holds the constant objects that
      pointers in descriptors lead to.
    - [Iter]: pb_common.c, statement by statement; [iter_each] is the loop over
      the fields of a message, [iter_search] that of [pb_field_iter_find].
    - [OStream], [Encode]: pb_encode.c.  [OStream] has the streams and the wire
      encoders, [Encode] the field encoders, arrays, submessages, proto3
      defaults, extensions, callbacks and the entry points.
    - [IStream], [Storage], [DecodeFields], [Decode]: pb_decode.c.  Streams and
      wire decoders; defaults and release; the field decoders and
      [allocate_field] on the state [dstate] (stream, memory, the local
      [fixed_count_size] that [pSize] may point to); messages.
    - [Cct], [CoreConfig]: the generated headers and tables.
    - [Base64]: fbase64.c.
    - LevelDB.  [LdbBase]: slices, statuses, assertions, and the file
      interfaces of env.h as classes with their contracts.  [Coding]: coding.cc
      and coding.h.  [Crc32c]: crc32c.cc, with the address of the data, on which
      its alignment steps depend.  [LogWriter], [LogReader]: log_writer.cc and
      log_reader.cc over those classes.  [Comparator]: the comparator interface
      as a record, its contract as the class [ComparatorOk], the bytewise
      comparator.  [DbFormat]: internal keys and lookup keys.  [WriteBatch]:
      write_batch.cc, with the class [Handler].  [Arena]: arena.cc on
      addresses.  [SkipList]: random.h and skiplist.h, with the nodes as an
      array of explicit links.  [MemTable]: memtable.cc and the inserter of
      write_batch.cc.  [Recover]: [RecoverLogFile] of db_impl.cc, which joins
      the log reader, write batches and memtables; writing a table is its
      parameter.  Tables are bottom up: [Iterator] has the abstract class of
      iterator.h as the class [Iterator], with its contract [IteratorOk], and
      the wrapper; [Block]: block_builder.cc and block.cc; [TwoLevel]:
      two_level_iterator.cc over any two iterators; [Merger]: merger.cc over any
      number of children; [DbIter]: db_iter.cc over any iterator on internal
      keys; [Format]: format.cc;
      [Filter]: hash.cc, bloom.cc, the policy for internal keys and
      filter_block.cc; [TableBuilder] and [Table]:
      table_builder.cc and table.cc, the block cache behind the class
      [BlockCache]; [Cache]: cache.cc, with its entries at addresses, explicit
      links and buckets, and a record of the deleters that were called.
      Which tables there are: [Filename]: logging.cc and filename.cc;
      [VersionEdit]: version_edit.cc; version_set.cc in three files, in which
      versions and files are objects in heaps with the reference counts of the
      code.  [Version]: the class Version, over the class [TableCache];
      [VersionSet]: the version set, its builder, the manifest and CURRENT,
      over the class [Env]; [Compaction]: the inputs of compactions and the
      class Compaction.  [TableCache]: table_cache.cc over [Cache] and [Table];
      [LevelIter]: the iterators over the files of a level and over the inputs
      of a compaction, over the class [TableCacheIterators].  [DbImpl]:
      db_impl.cc and db_impl.h, snapshot.h and builder.cc: snapshots, flushes,
      compactions, obsolete files and background work, as one thread runs
      them, over the environment and the table cache.

    The recursion of [pb_encode], [pb_decode] and [pb_release] through
    submessages is bounded by [fuel]: one unit for each level of nesting, so
    one more than the depth of the message type is enough, and the theorems
    about flat messages hold for every positive fuel.  A loop runs at most
    2^64 times, which no loop driven by a [size_t] exceeds; that it ends
    before is proved ([while_ind], [runs_while]).  User callbacks are the
    classes [EncodeCallbacks] and [DecodeCallbacks].  The configuration is
    that of the pods: [PB_FIELD_32BIT], [PB_ENABLE_MALLOC],
    [PB_NO_PACKED_STRUCTS], 64-bit little-endian (arm64), 8-bit
    [uint_fast8_t].

    ** The theorems

    - The wire format ([WireFormat] is the specification; [Wire]):
      what the stream functions write ([emits], of [OStream]) and read
      ([decodes] for expected input, [reads] for any input, of [IStream]).
      [pb_decode_varint] refines a parser of varints; varints, tags, signed
      and fixed-width values survive the wire; substreams stay in their
      window.
    - Encoded sizes ([EncodeSize]): everything the encoder does is [uniform],
      so the sizing pass predicts the bytes of the real pass, and the frames
      of submessages and of the delimited and null-terminated formats are
      right.  A sizing pass does not read strings and packed arrays, so these
      theorems suppose that the message can be encoded at all ([encodable]);
      and they suppose that callbacks write the same in both passes
      ([UniformCallbacks], which pb.h does not demand and
      [pb_encode_submessage] checks at run time).
    - The iterator ([IterFacts]) visits the fields in order and finds a tag
      from anywhere; the generated tables describe the generated structures
      ([Messages]).
    - Messages: a codec per field type ([Codec], the class [FieldCodec];
      instances in [StaticCodec]), and on top of the class the
      theorems about messages whose fields are optional and static
      ([FlatEncode], [FlatDecode], [FlatRoundtrip]): encoding writes exactly
      the present fields, decoding any sequence of known and unknown fields
      leaves the last value of each, so messages survive the round trip.
      [FlatMessages] applies this to the messages of the program and proves
      the size macros of the generated header.
    - Hostile input ([FlatSafety]): [pb_decode] of a flat message
      terminates on every input without undefined behaviour and writes only
      the structure it is given.
    - [Allocation]: the bit field of required fields; [allocate_field] refuses
      exactly the sizes that overflow, and otherwise gives the field a block of
      the right size, whether or not [realloc] moves it.  [Edges]: the
      integer decoders store what fits and refuse the rest.
    - [Base64]: [f_b64_ntop] is base64, [f_b64_pton] inverts it, and on any
      ASCII text stays in its buffer and returns three quarters of the digits
      or -1.  Other characters are negative when they reach [isspace], which
      is undefined ([isspace_negative]).
    - [Termination]: the encoder returns on every memory as soon as the fuel is
      the nesting depth of the message type (4 for a LogRequest).
    - LevelDB.  [Coding]: the pointer decoders refine the parser of varints
      that nanopb's decoder refines, and the codings round-trip.
      [Crc32c]: [Extend] is the bitwise CRC-32C at every alignment.
      [LogRecovery]: what the writer lays out the
      reader reads back, also when the machine stops inside a record;
      [LogSafety]: the reader on any file.  [Comparator], [DbFormat]: the
      comparators meet their contract.  [WriteBatch]: batches replay
      their operations, and any bytes replay some operations.
      [SkipListFacts]: the invariant of the skip list, under insertion, and
      what searches and iterators do on it.  [Arena]: what it hands out never
      overlaps.  [MemTableFacts]: a memtable answers lookups from the history
      of the batches it was given.  [Recover]: what was logged before a
      crash is in the memtables that recovery builds; [TableSink] is what it
      needs of the writer of tables.  [BlockBuild]: a block that
      was built is read back by an iterator that keeps the contract;
      [BlockSafety]: the iterator on any bytes.  [TwoLevelFacts]: a two-level
      iterator keeps the contract over the entries of all blocks.
      [Merger]: merging iterators keep it over the sorted union of their
      children.  [DbIterFacts]: the iterator of a database shows, for each user
      key, the newest value at a sequence number, unless it was deleted, in both
      directions; entries are up to 2^62 bytes, and at most 2^63 of them.
      [FilterFacts]: filters have no false negatives.
      [FormatFacts]: handles, footers and blocks with their trailers are read
      back.  [TableBuild], [TableFacts], [TableRoundtrip]: the builder writes a
      file with the layout of a table, and on such a file the reader opens,
      iterates and looks up; together, a table yields the entries it was built
      from, whatever the comparator, the filter policy and the block cache, if
      they keep their contracts.  [CacheSpec], [CacheFacts],
      [CacheHistory]: the LRU cache refines a cache that is a map with an
      eviction order, and deletes every value once; it is proved for up to
      2^31 entries, where its 32-bit counters do not wrap.  [BlockCaches]: it is
      a block cache for tables.
      [Filename]: the names of files parse, and numbers parse up to 2^64 - 1.
      [VersionEdit]: edits survive the manifest, and any bytes decode safely.
      [VersionFacts]: a lookup in a version answers from the history of the
      key over all its files.  [VersionSetFacts]: the builder keeps what a
      specification on lists of files says ([spec_edit]), and a manifest, also
      one with a torn end, gives back the version that its edits describe.
      [Compaction]: which files a compaction reads, at every level.  Levels
      have up to 2^30 files, of up to 2^31 bytes where sizes are added up.
      [TableCache]: lookups and iterators answer from the files, whatever was
      cached or evicted before.  [LevelIter]: the iterator over the inputs of
      a compaction keeps the contract over their sorted union.  [DbImplFacts]:
      what a compaction writes ([survivors]) gives every snapshot that is not
      older than the smallest one the values it had; the class [DbStorageOk]
      is what it needs of the files, and [DbStorage] has it for the table
      cache over an environment that does not fail.  [Snapshots]: the ring of
      snapshots is the list of the live ones, and the smallest one is right.
    - The [Example]s of [Edges], [BlockSafety] and [FormatFacts]: single executions
      on which the code does not do what it means to.
    - The [_witness] lemmas: the theorems at concrete inputs.

    ** What is not modelled

    User callbacks beyond their interface, [pb_callback_t]s that change the
    iterator, alignment of accesses, big-endian and 32-bit targets, and the
    options of pb.h the pods do not set.  The theorems about whole messages do
    not cover repeated, required, pointer, oneof, callback, extension and
    submessage fields yet; their code is modelled.  Of LevelDB: threads
    (operations do not interleave), system calls, the running out of memory,
    who frees what (cleanup functions), the capacities of
    strings, Snappy (the pods do not compile it in), env_posix.cc, the text of
    DebugString and LevelSummary, and of db_impl.cc the queue of writers
    (Write, BuildBatchGroup, MakeRoomForWrite), reads (Get, the iterators over
    the whole database) and opening (NewDB, Recover's choice of the logs).
    An iterator over a table gives its handle in the table cache back when it
    is made, not when it is deleted; the theorems on the table cache are for
    one without a block cache.  A mutex that is released around a write or a
    compaction is left out, as only one thread runs.  The Objective-C
    pods and the Dart application are outside. *)
From Stdlib Require Export ZArith Lia.
From stdpp Require Export base option list list_numbers gmap strings numbers.

#[global] Open Scope Z_scope.

(** ** Outcomes of C code

    [Ret a] is a normal return, [UB] is undefined behaviour (an access to
    unmapped or indeterminate memory, a call through a null function pointer,
    an index outside a constant table), [NoFuel] says that the bound of the
    model was exhausted. *)
Inductive res (A : Type) : Type :=
| Ret (a : A)
| UB
| NoFuel.
Arguments Ret {A} a.
Arguments UB {A}.
Arguments NoFuel {A}.

#[export] Instance res_eq_dec {A} `{EqDecision A} : EqDecision (res A).
Proof. solve_decision. Defined.

Definition res_bind {A B} (r : res A) (k : A -> res B) : res B :=
  match r with Ret a => k a | UB => UB | NoFuel => NoFuel end.

Definition of_option {A} (o : option A) : res A :=
  match o with Some a => Ret a | None => UB end.

(** ** The monad of the C functions

    A function of the library returns a [bool] and updates a state through
    pointers.  [M S A] is such a function: [None] is [return false], [Some a]
    is [return true] with the out-parameter [a].  The state survives a
    [return false], as it does in C. *)
Definition M (S A : Type) : Type := S -> res (option A * S).

Section monad.
Context {S : Type}.

Definition ret {A} (a : A) : M S A := fun s => Ret (Some a, s).
Definition return_false {A} : M S A := fun s => Ret (None, s).
Definition undefined {A} : M S A := fun _ => UB.
Definition no_fuel {A} : M S A := fun _ => NoFuel.
Definition bind {A B} (c : M S A) (k : A -> M S B) : M S B := fun s =>
  match c s with
  | Ret (Some a, s') => k a s'
  | Ret (None, s') => Ret (None, s')
  | UB => UB
  | NoFuel => NoFuel
  end.
Definition get : M S S := fun s => Ret (Some s, s).
Definition put (s : S) : M S unit := fun _ => Ret (Some tt, s).
Definition modify (f : S -> S) : M S unit := fun s => Ret (Some tt, f s).
(** [status = f(...);]: the boolean is stored, not returned. *)
Definition attempt {A} (c : M S A) : M S (option A) := fun s =>
  match c s with
  | Ret (o, s') => Ret (Some o, s')
  | UB => UB
  | NoFuel => NoFuel
  end.
(** A value whose computation may be undefined behaviour. *)
Definition lift_res {A} (r : res A) : M S A := fun s =>
  match r with Ret a => Ret (Some a, s) | UB => UB | NoFuel => NoFuel end.
Definition need {A} (o : option A) : M S A := lift_res (of_option o).
End monad.

(** Run [c] on a local object; the caller's state is untouched. *)
Definition on_local {S T A} (t : T) (c : M T A) : M S (option A * T) := fun s =>
  match c t with Ret r => Ret (Some r, s) | UB => UB | NoFuel => NoFuel end.

Declare Scope pb_scope.
Delimit Scope pb_scope with pb.
Notation "x <- c ;; k" := (bind c (fun x => k))
  (at level 100, c at next level, right associativity) : pb_scope.
Notation "'let*' ' p := c 'in' k" := (bind c (fun x => match x with p => k end))
  (at level 100, p pattern, c at next level, k at level 200, right associativity) : pb_scope.
Notation "c ;; k" := (bind c (fun _ => k))
  (at level 100, right associativity) : pb_scope.
#[global] Open Scope pb_scope.

(** Both kinds of stream carry an [errmsg] field (pb.h). *)
Class HasErrmsg (S : Type) := {
  errmsg_of : S -> option string;
  set_errmsg : option string -> S -> S;
}.

(** [PB_SET_ERROR]: keep the first message. *)
Definition pb_set_error {S} `{HasErrmsg S} (msg : string) (s : S) : S :=
  set_errmsg (match errmsg_of s with Some e => Some e | None => Some msg end) s.

(** [PB_RETURN_ERROR]. *)
Definition pb_return_error {S A} `{HasErrmsg S} (msg : string) : M S A :=
  fun s => Ret (None, pb_set_error msg s).

(** ** Loops

    [loop_pow n] runs at most [2^n] iterations but stops, and computes, as
    soon as the body leaves the loop. *)
Fixpoint loop_pow {X R} (n : nat) (body : X -> res (X + R)) (x : X) : res (X + R) :=
  match n with
  | O => body x
  | S n' =>
      match loop_pow n' body x with
      | Ret (inl x') => loop_pow n' body x'
      | r => r
      end
  end.

(** A [while] loop: 2^64 iterations, more than any counter of type [size_t]
    can drive. *)
Definition while {X R} (body : X -> res (X + R)) (x : X) : res R :=
  match loop_pow 64 body x with
  | Ret (inr r) => Ret r
  | Ret (inl _) => NoFuel
  | UB => UB
  | NoFuel => NoFuel
  end.

Definition while_body {S X A} (body : X -> M S (X + A)) (xs : X * S)
  : res ((X * S) + (option A * S)) :=
  match body xs.1 xs.2 with
  | Ret (Some (inl x), s) => Ret (inl (x, s))
  | Ret (Some (inr a), s) => Ret (inr (Some a, s))
  | Ret (None, s) => Ret (inr (None, s))
  | UB => UB
  | NoFuel => NoFuel
  end.

(** A loop inside a function: the body continues with [inl], leaves the loop
    with [inr], or returns [false] from the whole function. *)
Definition whileM {S X A} (body : X -> M S (X + A)) (x : X) : M S A :=
  fun s => while (while_body body) (x, s).

(** A [for (i = 0; i < n; i++)] loop. *)
Fixpoint for_loop {S X} (n : nat) (body : X -> M S X) (x : X) : M S X :=
  match n with
  | O => ret x
  | S n' => x' <- body x;; for_loop n' body x'
  end.

(** ** Machine integers *)
Definition wrap (w z : Z) : Z := z mod 2 ^ w.
Definition sext (w z : Z) : Z := (z + 2 ^ (w - 1)) mod 2 ^ w - 2 ^ (w - 1).
Abbreviation u8 := (wrap 8).
Abbreviation u32 := (wrap 32).
Abbreviation u64 := (wrap 64).
Abbreviation s32 := (sext 32).
Abbreviation s64 := (sext 64).
Notation "x .& y" := (Z.land x y) (at level 40, left associativity) : pb_scope.
Notation "x .| y" := (Z.lor x y) (at level 50, left associativity) : pb_scope.

Definition is_byte (b : Z) : Prop := 0 <= b < 256.
Definition bytes_ok (bs : list Z) : Prop := Forall is_byte bs.

(** Little-endian representation of [n]-byte objects (arm64). *)
Fixpoint le_bytes (n : nat) (v : Z) : list Z :=
  match n with
  | O => []
  | S n' => v mod 256 :: le_bytes n' (v / 256)
  end.

Fixpoint le_val (bs : list Z) : Z :=
  match bs with
  | [] => 0
  | b :: bs' => b + 256 * le_val bs'
  end.

Definition zlength {A} (l : list A) : Z := Z.of_nat (length l).
Definition ztake {A} (n : Z) (l : list A) : list A := take (Z.to_nat n) l.
Definition zdrop {A} (n : Z) (l : list A) : list A := drop (Z.to_nat n) l.

(** * Lemmas shared by the components *)

(** ** The monad: one rewriting step per C statement *)
Section monad_lemmas.
Context {S A B : Type}.
Implicit Types (c : M S A) (k : A -> M S B) (s : S).

Lemma bind_some c k s a s' : c s = Ret (Some a, s') -> bind c k s = k a s'.
Proof. unfold bind. by intros ->. Qed.
Lemma bind_false c k s s' : c s = Ret (None, s') -> bind c k s = Ret (None, s').
Proof. unfold bind. by intros ->. Qed.
Lemma bind_inv c k s b s' :
  bind c k s = Ret (Some b, s') ->
  exists a s1, c s = Ret (Some a, s1) /\ k a s1 = Ret (Some b, s').
Proof.
  unfold bind. destruct (c s) as [[[a|] s1]| |]; intros E; try done. eauto.
Qed.
Lemma bind_false_inv c k s s' :
  bind c k s = Ret (None, s') ->
  c s = Ret (None, s') \/ exists a s1, c s = Ret (Some a, s1) /\ k a s1 = Ret (None, s').
Proof.
  unfold bind. destruct (c s) as [[[a|] s1]| |]; intros E; [right; eauto|left|..]; congruence.
Qed.
Lemma bind_ret (a : A) k s : bind (ret a) k s = k a s.
Proof. done. Qed.
Lemma bind_return_false k s : bind return_false k s = Ret (None, s).
Proof. done. Qed.
Lemma bind_get (k : S -> M S B) s : bind get k s = k s s.
Proof. done. Qed.
Lemma bind_modify f (k : unit -> M S B) s : bind (modify f) k s = k tt (f s).
Proof. done. Qed.
Lemma bind_put s0 (k : unit -> M S B) s : bind (put s0) k s = k tt s0.
Proof. done. Qed.
Lemma bind_error `{HasErrmsg S} msg k s :
  bind (pb_return_error msg) k s = Ret (None, pb_set_error msg s).
Proof. done. Qed.
Lemma bind_attempt c (k : option A -> M S B) s o s' :
  c s = Ret (o, s') -> bind (attempt c) k s = k o s'.
Proof. unfold bind, attempt. by intros ->. Qed.
Lemma bind_lift r (k : A -> M S B) s a : r = Ret a -> bind (lift_res r) k s = k a s.
Proof. by intros ->. Qed.
Lemma bind_need o (k : A -> M S B) s a : o = Some a -> bind (need o) k s = k a s.
Proof. by intros ->. Qed.
Lemma bind_on_local {T} (t : T) (c : M T A) (k : option A * T -> M S B) s r :
  c t = Ret r -> bind (on_local t c) k s = k r s.
Proof. unfold bind, on_local. by intros ->. Qed.
Lemma bind_assoc {C} c k (h : B -> M S C) s :
  bind (bind c k) h s = bind c (fun a => bind (k a) h) s.
Proof. unfold bind. by destruct (c s) as [[[a|] s1]| |]. Qed.
End monad_lemmas.

Create HintDb pb.
#[export] Hint Rewrite @bind_ret @bind_return_false @bind_get @bind_modify @bind_put
  @bind_error : pb.

(** ** Loops *)

(** [runs body x k r]: the loop leaves with [r] at its [k]-th iteration. *)
Inductive runs {X R} (body : X -> res (X + R)) : X -> Z -> res R -> Prop :=
| runs_stop x r : body x = Ret (inr r) -> runs body x 1 (Ret r)
| runs_ub x : body x = UB -> runs body x 1 UB
| runs_step x x' k r : body x = Ret (inl x') -> runs body x' k r -> runs body x (1 + k) r.

Fixpoint loop_nat {X R} (n : nat) (body : X -> res (X + R)) (x : X) : res (X + R) :=
  match n with
  | O => Ret (inl x)
  | S n' =>
      match body x with
      | Ret (inl x') => loop_nat n' body x'
      | r => r
      end
  end.

Lemma loop_nat_add {X R} a b (body : X -> res (X + R)) x :
  loop_nat (a + b) body x =
  match loop_nat a body x with Ret (inl x') => loop_nat b body x' | r => r end.
Proof.
  revert x. induction a as [|a IH]; intros x; [done|]. simpl.
  destruct (body x) as [[x'|r]| |]; auto.
Qed.

Lemma loop_pow_nat {X R} n (body : X -> res (X + R)) x :
  loop_pow n body x = loop_nat (2 ^ n) body x.
Proof.
  revert x. induction n as [|n IH]; intros x.
  - simpl. by destruct (body x) as [[x'|r]| |].
  - change (2 ^ S n)%nat with (2 * 2 ^ n)%nat.
    replace (2 * 2 ^ n)%nat with (2 ^ n + 2 ^ n)%nat by lia.
    rewrite loop_nat_add. simpl loop_pow. rewrite IH.
    destruct (loop_nat (2 ^ n) body x) as [[x'|r]| |]; auto.
Qed.

Lemma runs_pos {X R} (body : X -> res (X + R)) x k r : runs body x k r -> 1 <= k.
Proof. induction 1; lia. Qed.

Lemma runs_loop_nat {X R} (body : X -> res (X + R)) x k r n :
  runs body x k r -> k <= Z.of_nat n ->
  loop_nat n body x = match r with Ret a => Ret (inr a) | UB => UB | NoFuel => NoFuel end.
Proof.
  intros H. revert n. induction H as [x r E|x E|x x' k r E H IH]; intros n Hn;
    (destruct n as [|n]; [|]); simpl; rewrite ?E; try done; try lia.
  - apply runs_pos in H. lia.
  - apply IH. lia.
Qed.

Lemma pow2_64_nat : Z.of_nat (2 ^ 64) = 2 ^ 64.
Proof. by rewrite Nat2Z.inj_pow. Qed.

(** A loop that ends within 2^64 iterations ends in the model. *)
Lemma runs_while {X R} (body : X -> res (X + R)) x k r :
  runs body x k r -> k <= 2 ^ 64 -> while body x = r.
Proof.
  intros H Hk. unfold while. rewrite loop_pow_nat.
  rewrite (runs_loop_nat _ _ _ _ (2 ^ 64) H) by (by rewrite pow2_64_nat).
  destruct r; try done.
Qed.

(** The rule for loops with an invariant and a decreasing measure. *)
Lemma while_ind {X R} (body : X -> res (X + R)) (I : X -> Prop) (m : X -> Z)
    (Q : res R -> Prop) x :
  (forall x, I x ->
    match body x with
    | Ret (inl x') => I x' /\ 0 <= m x' < m x
    | Ret (inr r) => Q (Ret r)
    | UB => Q UB
    | NoFuel => Q NoFuel
    end) ->
  I x -> 0 <= m x < 2 ^ 64 -> Q (while body x).
Proof.
  intros Hbody HI Hm. unfold while. rewrite loop_pow_nat.
  assert (forall n x, I x -> 0 <= m x < Z.of_nat n ->
    match loop_nat n body x with
    | Ret (inl _) => False | Ret (inr r) => Q (Ret r) | UB => Q UB | NoFuel => Q NoFuel
    end) as Hloop.
  { clear x HI Hm. induction n as [|n IH]; intros x HI Hm; [lia|]. simpl.
    specialize (Hbody x HI). destruct (body x) as [[x'|r]| |]; try done.
    apply IH; [tauto|lia]. }
  specialize (Hloop (2 ^ 64)%nat x HI). rewrite pow2_64_nat in Hloop.
  specialize (Hloop Hm). by destruct (loop_nat (2 ^ 64) body x) as [[x'|r]| |].
Qed.

(** A loop that is over after [k] iterations, whatever its outcome. *)
Definition loop_end {R X} (r : res R) : res (X + R) :=
  match r with Ret a => Ret (inr a) | UB => UB | NoFuel => NoFuel end.

Lemma while_loop_nat {X R} (body : X -> res (X + R)) x k r :
  loop_nat k body x = loop_end r -> Z.of_nat k <= 2 ^ 64 -> while body x = r.
Proof.
  intros E Hk. unfold while. rewrite loop_pow_nat.
  replace (2 ^ 64)%nat with (k + (2 ^ 64 - k))%nat by (pose proof pow2_64_nat; lia).
  rewrite loop_nat_add, E. by destruct r.
Qed.

Lemma runs_while_body {S X A} (body : X -> M S (X + A)) x s k o s' :
  runs (while_body body) (x, s) k (Ret (o, s')) -> k <= 2 ^ 64 ->
  whileM body x s = Ret (o, s').
Proof. apply runs_while. Qed.

(** The same, for the three ways a turn of the loop can end. *)
Lemma runs_M_step {S X A} (body : X -> M S (X + A)) x s x' s' k r :
  body x s = Ret (Some (inl x'), s') -> runs (while_body body) (x', s') k r ->
  runs (while_body body) (x, s) (1 + k) r.
Proof. intros E. apply runs_step. unfold while_body. cbn [fst snd]. by rewrite E. Qed.

Lemma runs_M_stop {S X A} (body : X -> M S (X + A)) x s a s' :
  body x s = Ret (Some (inr a), s') -> runs (while_body body) (x, s) 1 (Ret (Some a, s')).
Proof. intros E. apply runs_stop. unfold while_body. cbn [fst snd]. by rewrite E. Qed.

Lemma runs_M_false {S X A} (body : X -> M S (X + A)) x s s' :
  body x s = Ret (None, s') -> runs (while_body body) (x, s) 1 (Ret (None, s')).
Proof. intros E. apply runs_stop. unfold while_body. cbn [fst snd]. by rewrite E. Qed.

Lemma whileM_ind {S X A} (body : X -> M S (X + A)) (I : X -> S -> Prop) (m : X -> S -> Z)
    (Q : res (option A * S) -> Prop) x s :
  (forall x s, I x s ->
    match body x s with
    | Ret (Some (inl x'), s') => I x' s' /\ 0 <= m x' s' < m x s
    | Ret (Some (inr a), s') => Q (Ret (Some a, s'))
    | Ret (None, s') => Q (Ret (None, s'))
    | UB => Q UB
    | NoFuel => Q NoFuel
    end) ->
  I x s -> 0 <= m x s < 2 ^ 64 -> Q (whileM body x s).
Proof.
  intros Hbody HI Hm. unfold whileM.
  apply (while_ind _ (fun xs => I xs.1 xs.2) (fun xs => m xs.1 xs.2)); [|done|done].
  intros [x' s'] HI'. specialize (Hbody x' s' HI'). unfold while_body. simpl in *.
  by destruct (body x' s') as [[[[y|a]|] s1]| |].
Qed.

(** ** Bytes *)
Lemma length_le_bytes n v : length (le_bytes n v) = n.
Proof. revert v. induction n; intros; simpl; auto. Qed.

Lemma le_bytes_ok n v : bytes_ok (le_bytes n v).
Proof.
  revert v. induction n; intros v; constructor; [|apply IHn].
  apply Z.mod_pos_bound. lia.
Qed.

Lemma le_val_bytes n v : le_val (le_bytes n v) = v mod 2 ^ (8 * Z.of_nat n).
Proof.
  revert v. induction n as [|n IH]; intros v; [by rewrite Z.mod_1_r|].
  cbn [le_bytes le_val]. rewrite IH.
  replace (8 * Z.of_nat (S n)) with (8 + 8 * Z.of_nat n) by lia.
  rewrite Z.pow_add_r by lia. change (2 ^ 8) with 256.
  rewrite Z.rem_mul_r; [done|lia|]. apply Z.pow_pos_nonneg; lia.
Qed.

Lemma le_val_bound bs : bytes_ok bs -> 0 <= le_val bs < 2 ^ (8 * zlength bs).
Proof.
  unfold zlength. induction 1 as [|b bs Hb _ IH]; [simpl; lia|].
  cbn [le_val length]. unfold is_byte in Hb.
  replace (8 * Z.of_nat (S (length bs))) with (8 + 8 * Z.of_nat (length bs)) by lia.
  rewrite Z.pow_add_r by lia. change (2 ^ 8) with 256. lia.
Qed.

Lemma le_bytes_val bs : bytes_ok bs -> le_bytes (length bs) (le_val bs) = bs.
Proof.
  induction 1 as [|b bs Hb _ IH]; [done|]. cbn [length le_bytes le_val].
  unfold is_byte in Hb. f_equal.
  - rewrite Z.mul_comm, Z.mod_add by lia. apply Z.mod_small. lia.
  - rewrite Z.mul_comm, Z.div_add, Z.div_small by lia. done.
Qed.

Lemma wrap_small w z : 0 <= z < 2 ^ w -> wrap w z = z.
Proof. intros. by apply Z.mod_small. Qed.

Lemma wrap_bound w z : 0 <= w -> 0 <= wrap w z < 2 ^ w.
Proof. intros. apply Z.mod_pos_bound. apply Z.pow_pos_nonneg; lia. Qed.

Lemma sext_small w z : 0 < w -> - 2 ^ (w - 1) <= z < 2 ^ (w - 1) -> sext w z = z.
Proof.
  intros Hw Hz. unfold sext. rewrite Z.mod_small; [lia|].
  assert (2 ^ w = 2 * 2 ^ (w - 1)) as ->; [|lia].
  rewrite <- Z.pow_succ_r by lia. f_equal. lia.
Qed.

Lemma sext_wrap w z : 0 < w -> sext w (z mod 2 ^ w) = sext w z.
Proof. intros. unfold sext. by rewrite Zplus_mod_idemp_l. Qed.

Lemma sext_bound w z : 0 < w -> - 2 ^ (w - 1) <= sext w z < 2 ^ (w - 1).
Proof.
  intros Hw. unfold sext.
  assert (2 ^ w = 2 * 2 ^ (w - 1)) as E.
  { rewrite <- Z.pow_succ_r by lia. f_equal. lia. }
  pose proof (Z.mod_pos_bound (z + 2 ^ (w - 1)) (2 ^ w)). lia.
Qed.

Lemma zlength_app {A} (l k : list A) : zlength (l ++ k) = zlength l + zlength k.
Proof. unfold zlength. rewrite length_app. lia. Qed.
Lemma zlength_cons {A} (x : A) l : zlength (x :: l) = 1 + zlength l.
Proof. unfold zlength. cbn [length]. lia. Qed.
Lemma zlength_nonneg {A} (l : list A) : 0 <= zlength l.
Proof. unfold zlength. lia. Qed.
Lemma ztake_all {A} (l : list A) : ztake (zlength l) l = l.
Proof. unfold ztake, zlength. rewrite Nat2Z.id. apply take_ge. lia. Qed.
Lemma ztake_app {A} (l k : list A) : ztake (zlength l) (l ++ k) = l.
Proof. unfold ztake, zlength. rewrite Nat2Z.id. by rewrite take_app_length. Qed.
Lemma zdrop_app {A} (l k : list A) : zdrop (zlength l) (l ++ k) = k.
Proof. unfold zdrop, zlength. rewrite Nat2Z.id. by rewrite drop_app_length. Qed.
Lemma zdrop_app_le {A} n (l k : list A) :
  0 <= n <= zlength l -> zdrop n (l ++ k) = zdrop n l ++ k.
Proof. unfold zdrop, zlength. intros. apply drop_app_le. lia. Qed.
Lemma zlength_ztake {A} n (l : list A) : 0 <= n <= zlength l -> zlength (ztake n l) = n.
Proof. unfold zlength, ztake. rewrite length_take. lia. Qed.
Lemma zlength_zdrop {A} n (l : list A) : 0 <= n <= zlength l -> zlength (zdrop n l) = zlength l - n.
Proof. unfold zlength, zdrop. rewrite length_drop. lia. Qed.
Lemma ztake_zdrop {A} n (l : list A) : ztake n l ++ zdrop n l = l.
Proof. apply take_drop. Qed.

Lemma Forall_elem {A} (P : A -> Prop) l x : Forall P l -> x ∈ l -> P x.
Proof. intros H Hx. by eapply List.Forall_forall, list_elem_of_In. Qed.

#[export] Hint Rewrite @zlength_app @ztake_all @ztake_app @zdrop_app length_le_bytes : pb.
#[export] Hint Resolve le_bytes_ok zlength_nonneg wrap_bound : pb.

(** ** Tactics *)

(** Simplify the statements the C code executes unconditionally. *)
Ltac pb_simpl := autorewrite with pb; cbn [fst snd].

(** Case analysis on the boolean tests of the goal, with their meaning. *)
Ltac pb_case :=
  match goal with
  | |- context [if ?b then _ else _] =>
      lazymatch b with
      | context [if _ then _ else _] => fail
      | _ => let E := fresh "E" in destruct b eqn:E
      end
  end.

Ltac pb_bool :=
  repeat match goal with
  | H : (_ && _) = true |- _ => apply andb_true_iff in H; destruct H
  | H : (_ || _) = false |- _ => apply orb_false_iff in H; destruct H
  | H : negb _ = true |- _ => apply negb_true_iff in H
  | H : negb _ = false |- _ => apply negb_false_iff in H
  | H : (_ =? _) = true |- _ => apply Z.eqb_eq in H
  | H : (_ =? _) = false |- _ => apply Z.eqb_neq in H
  | H : (_ <? _) = true |- _ => apply Z.ltb_lt in H
  | H : (_ <? _) = false |- _ => apply Z.ltb_ge in H
  | H : (_ <=? _) = true |- _ => apply Z.leb_le in H
  | H : (_ <=? _) = false |- _ => apply Z.leb_gt in H
  end.

(** ** Bits *)

(** A boolean property of bytes holds if it holds of all 256. *)
Lemma byte_forall (P : Z -> bool) :
  forallb P (seqZ 0 256) = true -> forall b, is_byte b -> P b = true.
Proof.
  intros H b Hb. rewrite forallb_forall in H. apply H.
  apply list_elem_of_In, elem_of_seqZ. unfold is_byte in Hb. lia.
Qed.

Ltac byte_cases b Hb :=
  apply Z.eqb_eq; revert b Hb; apply byte_forall; vm_compute; reflexivity.

Lemma land_0x7F v : v .& 0x7F = v mod 128.
Proof. change 0x7F with (Z.ones 7). by rewrite Z.land_ones. Qed.

Lemma land_0xFF v : v .& 0xFF = v mod 256.
Proof. change 0xFF with (Z.ones 8). by rewrite Z.land_ones. Qed.

Lemma lor_0x80 d : 0 <= d < 128 -> d .| 0x80 = d + 128.
Proof.
  intros Hd. assert (is_byte d) as Hb by (unfold is_byte; lia).
  assert (forall b, is_byte b -> (128 <=? b) || ((b .| 0x80) =? b + 128) = true) as H.
  { apply byte_forall. vm_compute. reflexivity. }
  specialize (H d Hb). apply orb_true_iff in H as [H|H]; apply Z.leb_le in H || apply Z.eqb_eq in H; lia.
Qed.

Lemma land_0x80 b : is_byte b -> (b .& 0x80 =? 0) = (b <? 128).
Proof.
  intros Hb. apply eqb_true_iff. revert b Hb. apply byte_forall. vm_compute. reflexivity.
Qed.

(** Or-ing a shifted value above the bits in use is addition. *)
Lemma lor_shiftl_add a b n :
  0 <= n -> 0 <= a < 2 ^ n -> a .| Z.shiftl b n = a + b * 2 ^ n.
Proof.
  intros Hn Ha. rewrite <- Z.shiftl_mul_pow2 by done.
  assert (Z.land a (Z.shiftl b n) = 0) as Hdisj.
  { apply Z.bits_inj'. intros i Hi. rewrite Z.land_spec, Z.bits_0.
    destruct (Z.lt_ge_cases i n).
    - rewrite Z.shiftl_spec_low by done. apply andb_false_r.
    - replace (Z.testbit a i) with false; [done|]. symmetry.
      rewrite <- (Z.mod_small a (2 ^ n)) by done. by apply Z.mod_pow2_bits_high. }
  by rewrite <- Z.lxor_lor, Z.add_nocarry_lxor.
Qed.

(** The same, with the shifted value cut to [w] bits. *)
Lemma lor_wrap_shiftl w a b n :
  0 <= n < w -> 0 <= a < 2 ^ n ->
  a .| wrap w (Z.shiftl b n) = (a + b * 2 ^ n) mod 2 ^ w.
Proof.
  intros Hn Ha. unfold wrap. rewrite Z.shiftl_mul_pow2 by lia.
  replace (2 ^ w) with (2 ^ (w - n) * 2 ^ n) by (rewrite <- Z.pow_add_r by lia; f_equal; lia).
  rewrite Z.mul_mod_distr_r by (apply Z.pow_nonzero; lia).
  rewrite <- Z.shiftl_mul_pow2, lor_shiftl_add by lia.
  assert (0 < 2 ^ n) by (apply Z.pow_pos_nonneg; lia).
  rewrite (Z.mul_comm (2 ^ (w - n))), Z.rem_mul_r; [|lia|apply Z.pow_pos_nonneg; lia].
  rewrite Z.mod_add, Z.div_add, (Z.mod_small a), (Z.div_small a), Z.add_0_l by lia. ring.
Qed.

Lemma lor_bound a b n : 0 <= n -> 0 <= a < 2 ^ n -> 0 <= b < 2 ^ n -> 0 <= a .| b < 2 ^ n.
Proof.
  intros Hn Ha Hb. split; [apply Z.lor_nonneg; lia|].
  destruct (Z.eq_dec (a .| b) 0) as [->|Hne]; [lia|].
  assert (0 < a .| b) by (pose proof (proj2 (Z.lor_nonneg a b)); lia).
  apply Z.log2_lt_pow2; [lia|]. rewrite Z.log2_lor by lia. apply Z.max_lub_lt.
  - destruct (Z.eq_dec a 0) as [->|]; [|apply Z.log2_lt_pow2; lia].
    destruct (Z.eq_dec n 0) as [->|]; [|simpl; lia]. exfalso. apply Hne.
    assert (b = 0) as -> by lia. done.
  - destruct (Z.eq_dec b 0) as [->|]; [|apply Z.log2_lt_pow2; lia].
    destruct (Z.eq_dec n 0) as [->|]; [|simpl; lia]. exfalso. apply Hne.
    assert (a = 0) as -> by lia. done.
Qed.
