(* ===== verification/WireFormat.v ===== *)
(** * The wire format, as a reference

    What the encoder and the decoder must agree on, written independently of
    both. *)
From S2P Require Import Prelude.

(** The reference encoding: base-128 digits, least significant first, with
    the top bit set on all but the last. *)
Fixpoint varint_digits (n : nat) (v : Z) : list Z :=
  match n with
  | O => []
  | S n' => if v <? 128 then [v] else (v mod 128 + 128) :: varint_digits n' (v / 128)
  end.
Definition varint_bytes (v : Z) : list Z := varint_digits 10 v.
Arguments varint_bytes : simpl never.

Lemma length_varint_digits n v : (length (varint_digits n v) <= n)%nat.
Proof.
  revert v. induction n as [|n IH]; intros v; simpl; [lia|].
  destruct (v <? 128); simpl; [lia|]. specialize (IH (v / 128)). lia.
Qed.

Lemma zlength_varint_bytes v : zlength (varint_bytes v) <= 10.
Proof. unfold zlength, varint_bytes. pose proof (length_varint_digits 10 v). lia. Qed.

Lemma zlength_varint_bytes_pos v : 1 <= zlength (varint_bytes v).
Proof.
  unfold varint_bytes. cbn [varint_digits]. destruct (v <? 128); rewrite zlength_cons;
    [unfold zlength; simpl; lia|]. apply Z.le_sub_le_add_l. apply zlength_nonneg.
Qed.

Lemma varint_digits_ok n v : 0 <= v -> bytes_ok (varint_digits n v).
Proof.
  revert v. induction n as [|n IH]; intros v Hv; simpl; [constructor|].
  destruct (Z.ltb_spec v 128).
  - constructor; [unfold is_byte; lia|constructor].
  - constructor; [|apply IH; apply Z.div_pos; lia].
    pose proof (Z.mod_pos_bound v 128). unfold is_byte. lia.
Qed.

(** ** Parsing

    The specification reads the base-128 number at the front of [bs], of at
    most [n] bytes. *)
Inductive parsed : Type :=
| Parsed (v : Z) (len : Z)      (* value and number of bytes *)
| Truncated                     (* the input ends inside the number *)
| Overlong.                     (* more than [n] bytes *)

Fixpoint parse_varint (n : nat) (bs : list Z) : parsed :=
  match n, bs with
  | O, _ => Overlong
  | S _, [] => Truncated
  | S n', b :: bs' =>
      if b <? 128 then Parsed b 1
      else
        match parse_varint n' bs' with
        | Parsed v len => Parsed (b - 128 + 128 * v) (1 + len)
        | r => r
        end
  end.

Lemma parse_varint_len n bs v len :
  bytes_ok bs -> parse_varint n bs = Parsed v len ->
  0 <= v /\ 1 <= len <= Z.of_nat n /\ len <= zlength bs.
Proof.
  intros Hbs. revert n v len. induction Hbs as [|b bs Hb _ IH]; intros [|n] v len; simpl; try done.
  rewrite zlength_cons. pose proof (zlength_nonneg bs). unfold is_byte in Hb.
  destruct (Z.ltb_spec b 128); [intros [= <- <-]; lia|].
  destruct (parse_varint n bs) as [v' len'| |] eqn:E; try done.
  intros [= <- <-]. destruct (IH _ _ _ E) as (? & ? & ?). lia.
Qed.

Lemma parse_varint_overlong n bs :
  parse_varint n bs = Overlong -> Z.of_nat n <= zlength bs.
Proof.
  revert bs. induction n as [|n IH]; intros bs; [intros; apply zlength_nonneg|].
  destruct bs as [|b bs]; simpl; [done|]. rewrite zlength_cons.
  destruct (b <? 128); [done|]. destruct (parse_varint n bs) eqn:E; try done.
  intros _. specialize (IH _ E). lia.
Qed.

(** The parser inverts the reference encoding, whatever follows it. *)
Lemma parse_varint_digits n m v rest :
  0 <= v < 128 ^ Z.of_nat n -> v < 128 ^ Z.of_nat m -> (0 < n)%nat -> (0 < m)%nat ->
  parse_varint n (varint_digits m v ++ rest) = Parsed v (zlength (varint_digits m v)).
Proof.
  revert m v. induction n as [|n IH]; intros m v Hn Hm Hn0 Hm0; [lia|].
  destruct m as [|m]; [lia|]. cbn [varint_digits].
  destruct (Z.ltb_spec v 128) as [Hlt|Hge].
  - cbn [app parse_varint]. rewrite (proj2 (Z.ltb_lt _ _)) by lia. done.
  - rewrite Nat2Z.inj_succ, Z.pow_succ_r in Hn, Hm by lia.
    assert (0 < v / 128) by (apply Z.div_str_pos; lia).
    cbn [app parse_varint]. pose proof (Z.mod_pos_bound v 128 ltac:(lia)).
    rewrite (proj2 (Z.ltb_ge _ _)) by lia.
    rewrite IH.
    + rewrite zlength_cons. f_equal. pose proof (Z.div_mod v 128). lia.
    + split; [lia|]. apply Z.div_lt_upper_bound; lia.
    + apply Z.div_lt_upper_bound; lia.
    + destruct n; [|lia]. change (Z.of_nat 0) with 0 in Hn. rewrite Z.pow_0_r in Hn. lia.
    + destruct m; [|lia]. change (Z.of_nat 0) with 0 in Hm. rewrite Z.pow_0_r in Hm. lia.
Qed.

Lemma parse_varint_bytes n v rest :
  0 <= v < 2 ^ 64 -> v < 128 ^ Z.of_nat n -> (0 < n)%nat ->
  parse_varint n (varint_bytes v ++ rest) = Parsed v (zlength (varint_bytes v)).
Proof.
  intros Hv Hn Hn0. apply parse_varint_digits; [lia| |done|lia].
  apply Z.lt_le_trans with (2 ^ 64); [lia|]. vm_compute. discriminate.
Qed.
