(* ===== verification/Memory.v ===== *)
(** * Memory of the message structures and the C allocator

    One flat, little-endian, 64-bit address space, byte by byte: the code
    reaches every field by [char*] arithmetic, so the model does too. *)
From S2P Require Import Prelude.

(** A mapped cell holds a byte, or [None] when it was allocated and never
    written (indeterminate).  An unmapped address has no cell. *)
Record mem := Mem {
  cells : gmap Z (option Z);
  heap : gmap Z Z;  (* base address and size of each live malloc block *)
}.

Definition load_byte (m : mem) (a : Z) : option Z := mjoin (cells m !! a).

Fixpoint load_bytes (m : mem) (a : Z) (n : nat) : option (list Z) :=
  match n with
  | O => Some []
  | S n' => b ← load_byte m a; bs ← load_bytes m (a + 1) n'; Some (b :: bs)
  end.

Definition store_byte (m : mem) (a b : Z) : option mem :=
  match cells m !! a with
  | Some _ => Some (Mem (<[a := Some b]> (cells m)) (heap m))
  | None => None
  end.

Fixpoint store_bytes (m : mem) (a : Z) (bs : list Z) : option mem :=
  match bs with
  | [] => Some m
  | b :: bs' => m' ← store_byte m a b; store_bytes m' (a + 1) bs'
  end.

(** [*(uintN_t* )a] and [*(intN_t* )a]. *)
Definition load_u (n : nat) (m : mem) (a : Z) : option Z :=
  bs ← load_bytes m a n; Some (le_val bs).
Definition load_s (n : nat) (m : mem) (a : Z) : option Z :=
  v ← load_u n m a; Some (sext (8 * Z.of_nat n) v).
(** [*(uintN_t* )a = v]; the value is reduced to the width of the object. *)
Definition store_u (n : nat) (m : mem) (a v : Z) : option mem :=
  store_bytes m a (le_bytes n v).
Definition load_ptr : mem -> Z -> option Z := load_u 8.
Definition store_ptr : mem -> Z -> Z -> option mem := store_u 8.
(** [memset(a, 0, n)]. *)
Definition memset0 (m : mem) (a : Z) (n : Z) : option mem :=
  store_bytes m a (repeat 0 (Z.to_nat n)).

(** ** malloc, realloc, free *)

Fixpoint map_range (a : Z) (n : nat) (c : gmap Z (option Z)) : gmap Z (option Z) :=
  match n with
  | O => c
  | S n' => <[a := None]> (map_range (a + 1) n' c)
  end.

Fixpoint unmap_range (a : Z) (n : nat) (c : gmap Z (option Z)) : gmap Z (option Z) :=
  match n with
  | O => c
  | S n' => delete a (unmap_range (a + 1) n' c)
  end.

(** The allocator of the C library: it may fail, and a block it returns lies
    at a non-null address and overlaps nothing that is mapped.  [realloc] of
    the block at [p] may also leave the block where it is and change its size,
    over the cells that were the block's and cells that were free. *)
Class Allocator := {
  alloc_choose : mem -> Z -> option Z;
  alloc_choose_fresh : forall m n p, alloc_choose m n = Some p ->
    0 < p /\ p + n <= 2 ^ 64 /\ (forall a, p <= a < p + n -> cells m !! a = None);
  realloc_choose : mem -> Z -> Z -> option Z;
  realloc_choose_fresh : forall m p old n q, heap m !! p = Some old -> realloc_choose m p n = Some q ->
    0 < q /\ q + n <= 2 ^ 64 /\
    ((forall a, q <= a < q + n -> cells m !! a = None) \/
     (q = p /\ forall a, p + old <= a < p + n -> cells m !! a = None));
}.

Definition dom_top (c : gmap Z (option Z)) : Z :=
  map_fold (fun k _ acc => Z.max (k + 1) acc) 4096 c.

(** A bump allocator with a limit on the addresses it gives out. *)
Definition bump_choose (limit : Z) (m : mem) (n : Z) : option Z :=
  let p := 16 * ((dom_top (cells m) + 15) / 16) in
  if p + n <=? Z.min limit (2 ^ 64) then Some p else None.

Definition malloc `{Allocator} (m : mem) (n : Z) : option (Z * mem) :=
  p ← alloc_choose m n;
  Some (p, Mem (map_range p (Z.to_nat n) (cells m)) (<[p := n]> (heap m))).

(** [free(p)]: undefined unless [p] is null or the base of a live block. *)
Definition pb_free (m : mem) (p : Z) : option mem :=
  if p =? 0 then Some m
  else
    n ← heap m !! p;
    Some (Mem (unmap_range p (Z.to_nat n) (cells m)) (delete p (heap m))).

Fixpoint copy_cells (src dst : Z) (n : nat) (from c : gmap Z (option Z)) : gmap Z (option Z) :=
  match n with
  | O => c
  | S n' =>
      match from !! src with
      | Some v => <[dst := v]> (copy_cells (src + 1) (dst + 1) n' from c)
      | None => copy_cells (src + 1) (dst + 1) n' from c
      end
  end.

(** [realloc(p, n)]: [UB] on a pointer that is not a live block; otherwise the
    new address, 0 when there is no memory.  The old block is freed, the new
    one allocated, at the same address or another, and keeps the contents as
    far as they fit; what it has beyond them is indeterminate. *)
Definition pb_realloc `{Allocator} (m : mem) (p n : Z) : res (Z * mem) :=
  if p =? 0 then
    match malloc m n with Some r => Ret r | None => Ret (0, m) end
  else
    match heap m !! p with
    | None => UB
    | Some old =>
        match realloc_choose m p n with
        | None => Ret (0, m)
        | Some q =>
            let freed := unmap_range p (Z.to_nat old) (cells m) in
            Ret (q, Mem (copy_cells p q (Z.to_nat (Z.min old n)) (cells m)
                           (map_range q (Z.to_nat n) freed))
                        (<[q := n]> (delete p (heap m))))
        end
    end.

(** ** The bump allocator meets the interface *)
Lemma dom_top_spec c :
  4096 <= dom_top c /\ forall k, is_Some (c !! k) -> k < dom_top c.
Proof.
  unfold dom_top.
  apply (map_fold_weak_ind (fun r c => 4096 <= r /\ forall k, is_Some (c !! k) -> k < r)).
  - split; [lia|]. intros k [? Hk]. by rewrite lookup_empty in Hk.
  - intros i x c' r Hi [Hr Hk]. split; [lia|]. intros k Hs.
    destruct (decide (i = k)) as [->|Hne]; [lia|].
    rewrite lookup_insert_ne in Hs by done. specialize (Hk k Hs). lia.
Qed.

Lemma bump_choose_fresh limit m n p :
  bump_choose limit m n = Some p ->
  0 < p /\ p + n <= 2 ^ 64 /\ (forall a, p <= a < p + n -> cells m !! a = None).
Proof.
  unfold bump_choose. destruct (dom_top_spec (cells m)) as [Htop Hdom].
  case_match eqn:E; [|done]. intros [= <-]. apply Z.leb_le in E.
  pose proof (Z.div_mod (dom_top (cells m) + 15) 16).
  pose proof (Z.mod_pos_bound (dom_top (cells m) + 15) 16).
  split_and!; [lia|lia|]. intros a Ha.
  destruct (cells m !! a) eqn:Ea; [|done].
  specialize (Hdom a ltac:(eauto)). lia.
Qed.

(** Its [realloc] moves a block, *)
Lemma bump_realloc_fresh limit m p old n q :
  heap m !! p = Some old -> bump_choose limit m n = Some q ->
  0 < q /\ q + n <= 2 ^ 64 /\
  ((forall a, q <= a < q + n -> cells m !! a = None) \/
   (q = p /\ forall a, p + old <= a < p + n -> cells m !! a = None)).
Proof. intros _ Hq. apply bump_choose_fresh in Hq as (? & ? & ?). auto. Qed.

(** An allocator that gives out addresses below [limit]. *)
Definition bump_allocator (limit : Z) : Allocator := {|
  alloc_choose := bump_choose limit;
  alloc_choose_fresh := bump_choose_fresh limit;
  realloc_choose m p n := bump_choose limit m n;
  realloc_choose_fresh := bump_realloc_fresh limit;
|}.

(** or leaves it in place when it shrinks or is the last block. *)
Definition in_place_choose (limit : Z) (m : mem) (p n : Z) : option Z :=
  match heap m !! p with
  | Some old =>
      let fits := (n <=? old) || (dom_top (cells m) <=? p + old) in
      if (0 <? p) && (p + n <=? Z.min limit (2 ^ 64)) && fits then Some p else bump_choose limit m n
  | None => None
  end.

Lemma in_place_choose_fresh limit m p old n q :
  heap m !! p = Some old -> in_place_choose limit m p n = Some q ->
  0 < q /\ q + n <= 2 ^ 64 /\
  ((forall a, q <= a < q + n -> cells m !! a = None) \/
   (q = p /\ forall a, p + old <= a < p + n -> cells m !! a = None)).
Proof.
  unfold in_place_choose. intros ->. case_match eqn:E.
  - intros [= <-]. apply andb_true_iff in E as [E E3]. apply andb_true_iff in E as [E1 E2].
    apply Z.ltb_lt in E1. apply Z.leb_le in E2. split_and!; [done|lia|right]. split; [done|].
    intros a Ha. apply orb_true_iff in E3 as [E3|E3]; apply Z.leb_le in E3; [lia|].
    destruct (cells m !! a) eqn:Ea; [|done].
    pose proof (proj2 (dom_top_spec (cells m)) a ltac:(eauto)). lia.
  - intros Hq. apply bump_choose_fresh in Hq as (? & ? & ?). auto.
Qed.

Definition in_place_allocator (limit : Z) : Allocator := {|
  alloc_choose := bump_choose limit;
  alloc_choose_fresh := bump_choose_fresh limit;
  realloc_choose := in_place_choose limit;
  realloc_choose_fresh := in_place_choose_fresh limit;
|}.

(** ** Loads *)

(** Every initialised cell holds a byte. *)
Definition mem_ok (m : mem) : Prop := forall a b, cells m !! a = Some (Some b) -> is_byte b.

Lemma load_bytes_length m a n bs : load_bytes m a n = Some bs -> length bs = n.
Proof.
  revert a bs. induction n as [|n IH]; intros a bs; simpl; [by intros [= <-]|].
  destruct (load_byte m a); simpl; [|done].
  destruct (load_bytes m (a + 1) n) eqn:E; simpl; [|done].
  intros [= <-]. simpl. f_equal. by eapply IH.
Qed.

Lemma load_bytes_ok m a n bs : mem_ok m -> load_bytes m a n = Some bs -> bytes_ok bs.
Proof.
  intros Hm. revert a bs. induction n as [|n IH]; intros a bs; simpl; [intros [= <-]; constructor|].
  destruct (load_byte m a) as [b|] eqn:Eb; simpl; [|done].
  destruct (load_bytes m (a + 1) n) eqn:E; simpl; [|done].
  intros [= <-]. constructor; [|by eapply IH].
  unfold load_byte in Eb. destruct (cells m !! a) as [[x|]|] eqn:Ec; simpl in Eb; try done.
  injection Eb as <-. by eapply Hm.
Qed.

Lemma load_u_bound n m a v : mem_ok m -> load_u n m a = Some v -> 0 <= v < 2 ^ (8 * Z.of_nat n).
Proof.
  intros Hm. unfold load_u. destruct (load_bytes m a n) as [bs|] eqn:E; simpl; [|done].
  intros [= <-]. pose proof (le_val_bound bs (load_bytes_ok _ _ _ _ Hm E)) as Hb.
  unfold zlength in Hb. by rewrite (load_bytes_length _ _ _ _ E) in Hb.
Qed.

Lemma load_s_bound n m a v :
  (0 < n)%nat -> load_s n m a = Some v ->
  - 2 ^ (8 * Z.of_nat n - 1) <= v < 2 ^ (8 * Z.of_nat n - 1).
Proof.
  intros Hn. unfold load_s. destruct (load_u n m a); simpl; [|done].
  intros [= <-]. apply sext_bound. lia.
Qed.

(** A memory that holds the bytes [bs] from address [a] on. *)
Fixpoint bytes_at (a : Z) (bs : list Z) : gmap Z (option Z) :=
  match bs with
  | [] => ∅
  | b :: bs' => <[a := Some b]> (bytes_at (a + 1) bs')
  end.
Definition mem_of (a : Z) (bs : list Z) : mem := Mem (bytes_at a bs) ∅.

Lemma mem_of_ok a bs : bytes_ok bs -> mem_ok (mem_of a bs).
Proof.
  unfold mem_ok, mem_of. cbn [cells]. intros Hbs. revert a.
  induction Hbs as [|b bs Hb _ IH]; intros a x y; simpl; [by rewrite lookup_empty|].
  rewrite lookup_insert_Some. intros [[_ [= ->]]|[_ Hl]]; [done|]. by eapply IH.
Qed.

(** ** Stores *)

(** The [n] cells from [a] on exist. *)
Definition mapped (m : mem) (a n : Z) : Prop :=
  forall x, a <= x < a + n -> is_Some (cells m !! x).

(** [m'] is [m] with the [n] cells from [a] on rewritten. *)
Definition updated (a n : Z) (m m' : mem) : Prop :=
  heap m' = heap m /\ (forall x, ~ (a <= x < a + n) -> cells m' !! x = cells m !! x) /\
  (forall x, is_Some (cells m' !! x) <-> is_Some (cells m !! x)).

Definition disjoint_ranges (a n b k : Z) : Prop := a + n <= b \/ b + k <= a.

Lemma updated_refl a n m : updated a n m m.
Proof. by split_and!. Qed.

Lemma updated_trans a n m1 m2 m3 : updated a n m1 m2 -> updated a n m2 m3 -> updated a n m1 m3.
Proof.
  intros (Hh1 & Hc1 & Hd1) (Hh2 & Hc2 & Hd2). split_and!; [congruence| |].
  - intros x Hx. by rewrite Hc2, Hc1.
  - intros x. by rewrite Hd2.
Qed.

Lemma updated_weaken a n b k m m' :
  updated a n m m' -> b <= a -> a + n <= b + k -> updated b k m m'.
Proof.
  intros (Hh & Hc & Hd) Hb Hn. split_and!; [done| |done]. intros x Hx. apply Hc. lia.
Qed.

Lemma updated_mapped a n m m' b k : updated a n m m' -> mapped m b k -> mapped m' b k.
Proof. intros (_ & _ & Hd) Hm x Hx. by apply Hd, Hm. Qed.

Lemma mapped_sub m a n b k : mapped m a n -> a <= b -> b + k <= a + n -> mapped m b k.
Proof. intros Hm Hb Hk x Hx. apply Hm. lia. Qed.

Lemma load_bytes_cells m m' a n :
  (forall x, a <= x < a + Z.of_nat n -> cells m' !! x = cells m !! x) ->
  load_bytes m' a n = load_bytes m a n.
Proof.
  revert a. induction n as [|n IH]; intros a H; [done|]. simpl.
  unfold load_byte. rewrite H by lia. destruct (mjoin (cells m !! a)); [|done]. simpl.
  rewrite IH; [done|]. intros x Hx. apply H. lia.
Qed.

Lemma load_bytes_updated a n m m' b k :
  updated a n m m' -> disjoint_ranges a n b (Z.of_nat k) -> load_bytes m' b k = load_bytes m b k.
Proof.
  intros (_ & Hc & _) Hd. apply load_bytes_cells. intros x Hx. apply Hc. unfold disjoint_ranges in Hd. lia.
Qed.

Lemma load_u_updated a n m m' b k :
  updated a n m m' -> disjoint_ranges a n b (Z.of_nat k) -> load_u k m' b = load_u k m b.
Proof. intros Hu Hd. unfold load_u. by rewrite (load_bytes_updated _ _ _ _ _ _ Hu Hd). Qed.

Lemma load_s_updated a n m m' b k :
  updated a n m m' -> disjoint_ranges a n b (Z.of_nat k) -> load_s k m' b = load_s k m b.
Proof. intros Hu Hd. unfold load_s. by rewrite (load_u_updated _ _ _ _ _ _ Hu Hd). Qed.

Lemma store_bytes_spec m a bs :
  mapped m a (zlength bs) ->
  exists m', store_bytes m a bs = Some m' /\ updated a (zlength bs) m m' /\
             load_bytes m' a (length bs) = Some bs.
Proof.
  revert m a. induction bs as [|b bs IH]; intros m a Hm.
  - exists m. split_and!; [done|apply updated_refl|done].
  - rewrite zlength_cons in *. pose proof (zlength_nonneg bs). simpl. unfold store_byte.
    destruct (Hm a) as [c Ec]; [lia|]. rewrite Ec. simpl.
    set (m1 := Mem (<[a:=Some b]> (cells m)) (heap m)).
    assert (forall x, is_Some (cells m1 !! x) <-> is_Some (cells m !! x)) as Hd1.
    { intros x. unfold m1. cbn [cells]. destruct (decide (a = x)) as [->|Hne].
      - rewrite lookup_insert_eq, Ec. split; eauto.
      - by rewrite lookup_insert_ne. }
    destruct (IH m1 (a + 1)) as (m' & -> & (Hh & Hc & Hd) & Hl).
    { intros x Hx. apply Hd1, Hm. lia. }
    exists m'. split; [done|]. split; [split; [exact Hh|split]|].
    + intros x Hx. rewrite Hc by lia. unfold m1. cbn [cells]. apply lookup_insert_ne. lia.
    + intros x. by rewrite Hd, Hd1.
    + rewrite Hl. unfold load_byte. rewrite Hc by lia. unfold m1. cbn [cells].
      by rewrite lookup_insert_eq.
Qed.

Lemma store_bytes_ok m a bs m' : mem_ok m -> bytes_ok bs -> store_bytes m a bs = Some m' -> mem_ok m'.
Proof.
  intros Hm Hbs. revert m a Hm. induction Hbs as [|b bs Hb _ IH]; intros m a Hm; simpl; [by intros [= <-]|].
  unfold store_byte. destruct (cells m !! a) eqn:E; simpl; [|done]. intros Hs.
  eapply IH; [|exact Hs]. intros x y. cbn [cells]. rewrite lookup_insert_Some.
  intros [[_ [= ->]]|[_ Hl]]; [done|]. by eapply Hm.
Qed.

(** Storing an [n]-byte integer: the value read back is reduced to [n] bytes. *)
Lemma store_u_spec n m a v :
  mapped m a (Z.of_nat n) ->
  exists m', store_u n m a v = Some m' /\ updated a (Z.of_nat n) m m' /\
             load_u n m' a = Some (v mod 2 ^ (8 * Z.of_nat n)).
Proof.
  intros Hm. assert (zlength (le_bytes n v) = Z.of_nat n) as El
    by (unfold zlength; by rewrite length_le_bytes).
  destruct (store_bytes_spec m a (le_bytes n v)) as (m' & Es & Hu & Hl); [by rewrite El|].
  rewrite El, length_le_bytes in *. exists m'. split_and!; [done|done|].
  unfold load_u. rewrite Hl. simpl. by rewrite le_val_bytes.
Qed.

Lemma load_s_of_u n m a v :
  load_u n m a = Some v -> load_s n m a = Some (sext (8 * Z.of_nat n) v).
Proof. unfold load_s. by intros ->. Qed.
