(* ===== verification/Descriptor.v ===== *)
(** * Field descriptors (pb.h)

    The constants, the [pb_field_t] descriptor, the macros that build
    descriptors from C structures, and the tables the library reaches through
    pointers stored in them. Configuration of the Pods build:
    [PB_FIELD_32BIT], [PB_NO_PACKED_STRUCTS], [PB_ENABLE_MALLOC], 64-bit. *)
From S2P Require Import Prelude Memory.

Definition PB_MAX_REQUIRED_FIELDS : Z := 64.

(** ** Field types: low four bits *)
Definition PB_LTYPE_VARINT : Z := 0x00.
Definition PB_LTYPE_UVARINT : Z := 0x01.
Definition PB_LTYPE_SVARINT : Z := 0x02.
Definition PB_LTYPE_FIXED32 : Z := 0x03.
Definition PB_LTYPE_FIXED64 : Z := 0x04.
Definition PB_LTYPE_LAST_PACKABLE : Z := 0x04.
Definition PB_LTYPE_BYTES : Z := 0x05.
Definition PB_LTYPE_STRING : Z := 0x06.
Definition PB_LTYPE_SUBMESSAGE : Z := 0x07.
Definition PB_LTYPE_EXTENSION : Z := 0x08.
Definition PB_LTYPE_FIXED_LENGTH_BYTES : Z := 0x09.
Definition PB_LTYPES_COUNT : Z := 0x0A.
Definition PB_LTYPE_MASK : Z := 0x0F.

(** ** Repetition rules and allocation types: high four bits *)
Definition PB_HTYPE_REQUIRED : Z := 0x00.
Definition PB_HTYPE_OPTIONAL : Z := 0x10.
Definition PB_HTYPE_REPEATED : Z := 0x20.
Definition PB_HTYPE_ONEOF : Z := 0x30.
Definition PB_HTYPE_MASK : Z := 0x30.
Definition PB_ATYPE_STATIC : Z := 0x00.
Definition PB_ATYPE_POINTER : Z := 0x80.
Definition PB_ATYPE_CALLBACK : Z := 0x40.
Definition PB_ATYPE_MASK : Z := 0xC0.

Definition PB_ATYPE (x : Z) : Z := x .& PB_ATYPE_MASK.
Definition PB_HTYPE (x : Z) : Z := x .& PB_HTYPE_MASK.
Definition PB_LTYPE (x : Z) : Z := x .& PB_LTYPE_MASK.

(** [pb_size_t] is [uint32_t]; [(pb_size_t)-1]. *)
Definition PB_SIZE_MAX : Z := u32 (-1).

(** The [ptr] member: null, an array of descriptors (named by its address,
    so that recursive message types are possible), or a default value. *)
Inductive field_ptr : Type :=
| PNull
| PFields (table : Z)
| PDefault (bytes : list Z).

Record pb_field_t : Type := Field {
  tag : Z;
  type : Z;
  data_offset : Z;
  size_offset : Z;
  data_size : Z;
  array_size : Z;
  ptr : field_ptr;
}.

#[export] Instance field_ptr_eq_dec : EqDecision field_ptr.
Proof. solve_decision. Defined.
#[export] Instance pb_field_t_eq_dec : EqDecision pb_field_t.
Proof. solve_decision. Defined.

Definition PB_LAST_FIELD : pb_field_t := Field 0 0 0 0 0 0 PNull.


(** ** Wire types *)
Definition PB_WT_VARINT : Z := 0.
Definition PB_WT_64BIT : Z := 1.
Definition PB_WT_STRING : Z := 2.
Definition PB_WT_32BIT : Z := 5.

(** ** Objects behind pointers *)

(** [pb_callback_t]: the function pointer, then [arg]. *)
Definition callback_funcs (m : mem) (p : Z) : option Z := load_ptr m p.
Definition callback_arg_addr (p : Z) : Z := p + 8.

(** [pb_extension_t]: [type], [dest], [next] pointers and the [found] flag. *)
Definition ext_type (m : mem) (p : Z) : option Z := load_ptr m p.
Definition ext_dest_addr (p : Z) : Z := p + 8.
Definition ext_dest (m : mem) (p : Z) : option Z := load_ptr m (p + 8).
Definition ext_next (m : mem) (p : Z) : option Z := load_ptr m (p + 16).
Definition ext_found_addr (p : Z) : Z := p + 24.

(** [pb_extension_type_t]: function pointers (0 for null) and the field. *)
Record pb_extension_type_t : Type := ExtType {
  et_decode : Z;
  et_encode : Z;
  et_arg : pb_field_t;
}.

(** The constant objects of the program, by address. *)
Class Tables := {
  fields_of : Z -> option (list pb_field_t);
  ext_types : Z -> option pb_extension_type_t;
}.

(** The ranges of the C types of a descriptor. *)
Definition field_ok (f : pb_field_t) : Prop :=
  0 <= tag f < 2 ^ 32 /\ 0 <= type f < 256 /\ 0 <= data_offset f < 2 ^ 32 /\
  - 2 ^ 31 <= size_offset f < 2 ^ 31 /\ 0 <= data_size f < 2 ^ 32 /\ 0 <= array_size f < 2 ^ 32.

#[export] Instance field_ok_dec f : Decision (field_ok f).
Proof. unfold field_ok. apply _. Defined.

Class TablesOk `{Tables} : Prop := {
  fields_of_ok : forall t fields, fields_of t = Some fields -> Forall field_ok fields;
  ext_types_ok : forall t e, ext_types t = Some e -> field_ok (et_arg e);
}.

(** ** C structures and the descriptor macros *)

(** A member: its name, [sizeof], alignment, and [sizeof] of [m[0]]. *)
Record member : Type := Member {
  m_name : string;
  m_size : Z;
  m_align : Z;
  m_elem : Z;
}.

(** A structure: its members in order; a slot with several alternatives is a
    union, whose alternatives share one offset. *)
Abbreviation struct_t := (list (list member)).

Definition align_up (a n : Z) : Z := (n + a - 1) / a * a.
Definition slot_size (s : list member) : Z := foldr (fun m acc => Z.max (m_size m) acc) 0 s.
Definition slot_align (s : list member) : Z := foldr (fun m acc => Z.max (m_align m) acc) 1 s.

Definition find_member (name : string) (s : list member) : option member :=
  snd <$> list_find (fun m => m_name m = name) s.

Fixpoint offsetof_from (st : struct_t) (pos : Z) (name : string) : option (Z * member) :=
  match st with
  | [] => None
  | s :: st' =>
      let off := align_up (slot_align s) pos in
      match find_member name s with
      | Some m => Some (off, m)
      | None => offsetof_from st' (off + align_up (slot_align s) (slot_size s)) name
      end
  end.

(** [offsetof] and [sizeof] of a member; a name that is not a member does
    not compile in C, the model gives it offset and size 0. *)
Definition offsetof (st : struct_t) (name : string) : Z :=
  default 0 (fst <$> offsetof_from st 0 name).
Definition pb_membersize (st : struct_t) (name : string) : Z :=
  default 0 (m_size ∘ snd <$> offsetof_from st 0 name).
Definition pb_elemsize (st : struct_t) (name : string) : Z :=
  default 0 (m_elem ∘ snd <$> offsetof_from st 0 name).
Definition pb_arraysize (st : struct_t) (name : string) : Z :=
  pb_membersize st name / pb_elemsize st name.
Definition pb_delta (st : struct_t) (m1 m2 : string) : Z := offsetof st m1 - offsetof st m2.

Definition struct_align (st : struct_t) : Z :=
  foldr (fun s acc => Z.max (slot_align s) acc) 1 st.
Fixpoint struct_end (st : struct_t) (pos : Z) : Z :=
  match st with
  | [] => pos
  | s :: st' =>
      struct_end st' (align_up (slot_align s) pos + align_up (slot_align s) (slot_size s))
  end.
Definition sizeof (st : struct_t) : Z := align_up (struct_align st) (struct_end st 0).

(** Members of the usual kinds: scalars and enums, pointers (with the size of
    what they point to), and nested structures. *)
Definition scalar_member (name : string) (n : Z) : member := Member name n n n.
Definition ptr_member (name : string) (elem : Z) : member := Member name 8 8 elem.
Definition struct_member (name : string) (st : struct_t) : member :=
  Member name (sizeof st) (struct_align st) (sizeof st).

(** [struct pb_bytes_array_s { pb_size_t size; pb_byte_t bytes[1]; }]. *)
Definition pb_bytes_array_t : struct_t :=
  [[scalar_member "size" 4]; [scalar_member "bytes" 1]].

(** [PB_BYTES_ARRAY_T_ALLOCSIZE(n)]: [(size_t)n + offsetof(pb_bytes_array_t, bytes)]. *)
Definition PB_BYTES_ARRAY_T_ALLOCSIZE (n : Z) : Z := u64 (n + offsetof pb_bytes_array_t "bytes").

(** The value of a member in a C initialiser. *)
Inductive init_value : Type :=
| IVal (v : Z)
| IStruct (members : list (string * init_value)).

Inductive placement : Type := FIRST | OTHER | UNION.
Definition PB_DATAOFFSET_FIRST (st : struct_t) (m1 m2 : string) : Z := u32 (offsetof st m1).
Definition PB_DATAOFFSET_OTHER (st : struct_t) (m1 m2 : string) : Z :=
  u32 (offsetof st m1 - offsetof st m2 - pb_membersize st m2).
Definition PB_DATAOFFSET_UNION (st : struct_t) (m1 m2 : string) : Z := PB_SIZE_MAX.
Definition PB_DATAOFFSET (p : placement) : struct_t -> string -> string -> Z :=
  match p with
  | FIRST => PB_DATAOFFSET_FIRST
  | OTHER => PB_DATAOFFSET_OTHER
  | UNION => PB_DATAOFFSET_UNION
  end.

Section macros.
Variables (tag : Z) (st : struct_t) (m : string) (fd : Z) (ltype : Z) (ptr : field_ptr).
Definition PB_REQUIRED_STATIC : pb_field_t :=
  Field tag (PB_ATYPE_STATIC .| PB_HTYPE_REQUIRED .| ltype)
        fd 0 (pb_membersize st m) 0 ptr.
Definition PB_OPTIONAL_STATIC : pb_field_t :=
  Field tag (PB_ATYPE_STATIC .| PB_HTYPE_OPTIONAL .| ltype)
        fd (pb_delta st ("has_" +:+ m) m) (pb_membersize st m) 0 ptr.
Definition PB_SINGULAR_STATIC : pb_field_t :=
  Field tag (PB_ATYPE_STATIC .| PB_HTYPE_OPTIONAL .| ltype)
        fd 0 (pb_membersize st m) 0 ptr.
Definition PB_REPEATED_STATIC : pb_field_t :=
  Field tag (PB_ATYPE_STATIC .| PB_HTYPE_REPEATED .| ltype)
        fd (pb_delta st (m +:+ "_count") m) (pb_elemsize st m) (pb_arraysize st m) ptr.
Definition PB_REQUIRED_POINTER : pb_field_t :=
  Field tag (PB_ATYPE_POINTER .| PB_HTYPE_REQUIRED .| ltype)
        fd 0 (pb_elemsize st m) 0 ptr.
Definition PB_OPTIONAL_POINTER : pb_field_t :=
  Field tag (PB_ATYPE_POINTER .| PB_HTYPE_OPTIONAL .| ltype)
        fd 0 (pb_elemsize st m) 0 ptr.
Definition PB_SINGULAR_POINTER : pb_field_t :=
  Field tag (PB_ATYPE_POINTER .| PB_HTYPE_OPTIONAL .| ltype)
        fd 0 (pb_elemsize st m) 0 ptr.
Definition PB_REPEATED_POINTER : pb_field_t :=
  Field tag (PB_ATYPE_POINTER .| PB_HTYPE_REPEATED .| ltype)
        fd (pb_delta st (m +:+ "_count") m) (pb_elemsize st m) 0 ptr.
Definition PB_REQUIRED_CALLBACK : pb_field_t :=
  Field tag (PB_ATYPE_CALLBACK .| PB_HTYPE_REQUIRED .| ltype)
        fd 0 (pb_membersize st m) 0 ptr.
Definition PB_OPTIONAL_CALLBACK : pb_field_t :=
  Field tag (PB_ATYPE_CALLBACK .| PB_HTYPE_OPTIONAL .| ltype)
        fd 0 (pb_membersize st m) 0 ptr.
Definition PB_SINGULAR_CALLBACK : pb_field_t :=
  Field tag (PB_ATYPE_CALLBACK .| PB_HTYPE_OPTIONAL .| ltype)
        fd 0 (pb_membersize st m) 0 ptr.
Definition PB_REPEATED_CALLBACK : pb_field_t :=
  Field tag (PB_ATYPE_CALLBACK .| PB_HTYPE_REPEATED .| ltype)
        fd 0 (pb_membersize st m) 0 ptr.
Definition PB_OPTEXT_STATIC : pb_field_t :=
  Field tag (PB_ATYPE_STATIC .| PB_HTYPE_REQUIRED .| ltype)
        0 0 (pb_membersize st m) 0 ptr.
Definition PB_OPTEXT_POINTER : pb_field_t := PB_OPTIONAL_POINTER.
Definition PB_OPTEXT_CALLBACK : pb_field_t := PB_OPTIONAL_CALLBACK.
Definition PB_REPEATED_FIXED_COUNT_FIELD : pb_field_t :=
  Field tag (PB_ATYPE_STATIC .| PB_HTYPE_REPEATED .| ltype)
        fd 0 (pb_elemsize st m) (pb_arraysize st m) ptr.
(** Members of a union [u]: the member is [u.m], the tag is [which_u]. *)
Variable u : string.
Definition PB_ONEOF_STATIC : pb_field_t :=
  Field tag (PB_ATYPE_STATIC .| PB_HTYPE_ONEOF .| ltype)
        fd (pb_delta st ("which_" +:+ u) (u +:+ "." +:+ m))
        (pb_membersize st (u +:+ "." +:+ m)) 0 ptr.
Definition PB_ONEOF_POINTER : pb_field_t :=
  Field tag (PB_ATYPE_POINTER .| PB_HTYPE_ONEOF .| ltype)
        fd (pb_delta st ("which_" +:+ u) (u +:+ "." +:+ m))
        (pb_elemsize st (u +:+ "." +:+ m)) 0 ptr.
Definition PB_ANONYMOUS_ONEOF_STATIC : pb_field_t :=
  Field tag (PB_ATYPE_STATIC .| PB_HTYPE_ONEOF .| ltype)
        fd (pb_delta st ("which_" +:+ u) m) (pb_membersize st m) 0 ptr.
Definition PB_ANONYMOUS_ONEOF_POINTER : pb_field_t :=
  Field tag (PB_ATYPE_POINTER .| PB_HTYPE_ONEOF .| ltype)
        fd (pb_delta st ("which_" +:+ u) m) (pb_elemsize st m) 0 ptr.
End macros.

(** The protobuf types and the [PB_LTYPE_MAP_*] macros. *)
Inductive proto_type : Type :=
| BOOL | BYTES | DOUBLE | ENUM | UENUM | FIXED32 | FIXED64 | FLOAT | INT32
| INT64 | MESSAGE | SFIXED32 | SFIXED64 | SINT32 | SINT64 | STRING | UINT32
| UINT64 | EXTENSION | FIXED_LENGTH_BYTES.

Definition PB_LTYPE_MAP (t : proto_type) : Z :=
  match t with
  | BOOL => PB_LTYPE_VARINT
  | BYTES => PB_LTYPE_BYTES
  | DOUBLE => PB_LTYPE_FIXED64
  | ENUM => PB_LTYPE_VARINT
  | UENUM => PB_LTYPE_UVARINT
  | FIXED32 => PB_LTYPE_FIXED32
  | FIXED64 => PB_LTYPE_FIXED64
  | FLOAT => PB_LTYPE_FIXED32
  | INT32 => PB_LTYPE_VARINT
  | INT64 => PB_LTYPE_VARINT
  | MESSAGE => PB_LTYPE_SUBMESSAGE
  | SFIXED32 => PB_LTYPE_FIXED32
  | SFIXED64 => PB_LTYPE_FIXED64
  | SINT32 => PB_LTYPE_SVARINT
  | SINT64 => PB_LTYPE_SVARINT
  | STRING => PB_LTYPE_STRING
  | UINT32 => PB_LTYPE_UVARINT
  | UINT64 => PB_LTYPE_UVARINT
  | EXTENSION => PB_LTYPE_EXTENSION
  | FIXED_LENGTH_BYTES => PB_LTYPE_FIXED_LENGTH_BYTES
  end.

Inductive rules_t : Type := REQUIRED | OPTIONAL | SINGULAR | REPEATED | OPTEXT.
Inductive allocation_t : Type := STATIC | POINTER | CALLBACK.

(** [PB_FIELD]: the token-pasting of the rules and the allocation. *)
Definition PB_FIELD (tag : Z) (t : proto_type) (rules : rules_t) (alloc : allocation_t)
    (pl : placement) (message : struct_t) (field prevfield : string) (ptr : field_ptr)
    : pb_field_t :=
  let fd := PB_DATAOFFSET pl message field prevfield in
  let macro := match rules, alloc with
    | REQUIRED, STATIC => PB_REQUIRED_STATIC
    | OPTIONAL, STATIC => PB_OPTIONAL_STATIC
    | SINGULAR, STATIC => PB_SINGULAR_STATIC
    | REPEATED, STATIC => PB_REPEATED_STATIC
    | OPTEXT, STATIC => fun tag st m _ => PB_OPTEXT_STATIC tag st m
    | REQUIRED, POINTER => PB_REQUIRED_POINTER
    | OPTIONAL, POINTER => PB_OPTIONAL_POINTER
    | SINGULAR, POINTER => PB_SINGULAR_POINTER
    | REPEATED, POINTER => PB_REPEATED_POINTER
    | OPTEXT, POINTER => PB_OPTEXT_POINTER
    | REQUIRED, CALLBACK => PB_REQUIRED_CALLBACK
    | OPTIONAL, CALLBACK => PB_OPTIONAL_CALLBACK
    | SINGULAR, CALLBACK => PB_SINGULAR_CALLBACK
    | REPEATED, CALLBACK => PB_REPEATED_CALLBACK
    | OPTEXT, CALLBACK => PB_OPTEXT_CALLBACK
    end in
  macro tag message field fd (PB_LTYPE_MAP t) ptr.
