(* ===== verification/Iter.v ===== *)
(** * The field iterator (pb_common.c) *)
From S2P Require Import Prelude Memory Descriptor.

(** Where [pSize] points: into the structure, or to the local variable
    [fixed_count_size] of [pb_decode_noinit]. *)
Inductive size_ref : Type := AtAddr (a : Z) | AtLocal.

#[export] Instance size_ref_eq_dec : EqDecision size_ref.
Proof. solve_decision. Defined.

(** [pb_field_iter_t]; [pos] is the index of [iter->pos] in the array. *)
Record pb_field_iter_t : Type := FieldIter {
  start : list pb_field_t;
  pos : nat;
  required_field_index : Z;
  dest_struct : Z;
  pData : Z;
  pSize : size_ref;
}.

(** [*iter->pos]; reading past the array is undefined behaviour. *)
Definition cur (it : pb_field_iter_t) : res pb_field_t := of_option (start it !! pos it).

Definition pb_field_iter_begin (fields : list pb_field_t) (dest : Z)
  : res (bool * pb_field_iter_t) :=
  match fields !! 0%nat with
  | None => UB
  | Some f =>
      let data := dest + data_offset f in
      Ret (negb (tag f =? 0),
           FieldIter fields 0 0 dest data (AtAddr (data + size_offset f)))
  end.

(** The size the previous field occupies in the structure. *)
Definition prev_field_size (prev : pb_field_t) : Z :=
  if (PB_ATYPE (type prev) =? PB_ATYPE_STATIC)
     && (PB_HTYPE (type prev) =? PB_HTYPE_REPEATED)
  then u64 (data_size prev * array_size prev)
  else if PB_ATYPE (type prev) =? PB_ATYPE_POINTER then 8
  else data_size prev.

(** Both fields are members of one union. *)
Definition same_union (prev next : pb_field_t) : bool :=
  (PB_HTYPE (type prev) =? PB_HTYPE_ONEOF)
  && (PB_HTYPE (type next) =? PB_HTYPE_ONEOF)
  && (data_offset next =? PB_SIZE_MAX).

Definition pb_field_iter_next (it : pb_field_iter_t) : res (bool * pb_field_iter_t) :=
  match start it !! pos it with
  | None => UB
  | Some prev =>
      if tag prev =? 0 then Ret (false, it)
      else
        match start it !! S (pos it) with
        | None => UB
        | Some next =>
            if tag next =? 0 then
              res_bind (pb_field_iter_begin (start it) (dest_struct it))
                       (fun r => Ret (false, r.2))
            else if same_union prev next then
              Ret (true, FieldIter (start it) (S (pos it)) (required_field_index it)
                           (dest_struct it) (pData it) (pSize it))
            else
              let index :=
                if PB_HTYPE (type prev) =? PB_HTYPE_REQUIRED
                then u32 (required_field_index it + 1) else required_field_index it in
              let data := pData it + prev_field_size prev + data_offset next in
              Ret (true, FieldIter (start it) (S (pos it)) index (dest_struct it)
                           data (AtAddr (data + size_offset next)))
        end
  end.

(** [do { if (found(iter->pos)) return true; next(iter) } while (iter->pos != start)],
    the loop of [pb_field_iter_find] and of [find_extension_field]. *)
Definition iter_search (found : pb_field_t -> bool) (it : pb_field_iter_t)
  : res (bool * pb_field_iter_t) :=
  let first := pos it in
  while (fun it =>
    match cur it with
    | Ret f =>
        if found f then Ret (inr (true, it))
        else
          match pb_field_iter_next it with
          | Ret (_, it') =>
              if decide (pos it' = first) then Ret (inr (false, it')) else Ret (inl it')
          | UB => UB
          | NoFuel => NoFuel
          end
    | UB => UB
    | NoFuel => NoFuel
    end) it.

Definition pb_field_iter_find (it : pb_field_iter_t) (t : Z) : res (bool * pb_field_iter_t) :=
  iter_search (fun f => (tag f =? t) && negb (PB_LTYPE (type f) =? PB_LTYPE_EXTENSION)) it.

(** [find_extension_field] of pb_decode.c. *)
Definition find_extension_field (it : pb_field_iter_t) : res (bool * pb_field_iter_t) :=
  iter_search (fun f => PB_LTYPE (type f) =? PB_LTYPE_EXTENSION) it.

(** [do { body(iter) } while (pb_field_iter_next(&iter))], the loop that
    visits every field of a message. *)
Definition iter_each {S} (body : pb_field_iter_t -> M S unit) : pb_field_iter_t -> M S unit :=
  whileM (fun it =>
    body it;;
    r <- lift_res (pb_field_iter_next it);;
    if r.1 : bool then ret (inl r.2) else ret (inr tt)).

(** ** Facts about the iterator *)
Lemma cur_elem it f : cur it = Ret f -> f ∈ start it.
Proof.
  unfold cur. destruct (start it !! pos it) eqn:E; simpl; [|done].
  intros [= <-]. by eapply list_elem_of_lookup_2.
Qed.

Lemma iter_begin_start fields dest b it :
  pb_field_iter_begin fields dest = Ret (b, it) ->
  start it = fields /\ pos it = 0%nat /\ dest_struct it = dest.
Proof. unfold pb_field_iter_begin. destruct (fields !! 0%nat); [|done]. by intros [= <- <-]. Qed.

Lemma iter_next_start it b it' :
  pb_field_iter_next it = Ret (b, it') -> start it' = start it /\ dest_struct it' = dest_struct it.
Proof.
  unfold pb_field_iter_next. destruct (start it !! pos it) as [prev|]; [|done].
  destruct (tag prev =? 0); [by intros [= <- <-]|].
  destruct (start it !! S (pos it)) as [next|]; [|done].
  destruct (tag next =? 0).
  - destruct (pb_field_iter_begin (start it) (dest_struct it)) as [[b0 it0]| |] eqn:E; [|done..].
    apply iter_begin_start in E as (? & ? & ?). by intros [= <- <-].
  - destruct (same_union prev next); by intros [= <- <-].
Qed.
