(* ===== verification/OStream.v ===== *)
(** * Output streams and the basic encoders (pb_encode.h, pb_encode.c) *)
From S2P Require Import Prelude WireFormat Memory Descriptor.

(** What [state] leads to: for [buf_write], the bytes stored so far and the
    memory from the pointer to the end of the buffer; a custom callback may
    keep its own data in the same two lists. *)
Record ostate : Type := OState { written : list Z; room : list Z }.

(** [callback]: null (a sizing stream), [buf_write], or a custom function,
    which sees and may change the state, the counters and the message. *)
Inductive ocallback : Type :=
| OCNull
| OCBufWrite
| OCUser (f : list Z -> ostate * Z * Z * option string ->
              bool * (ostate * Z * Z * option string)).

Record pb_ostream_t : Type := OStream {
  o_callback : ocallback;
  o_state : ostate;
  max_size : Z;
  bytes_written : Z;
  o_errmsg : option string;
}.

#[export] Instance ostream_errmsg : HasErrmsg pb_ostream_t := {|
  errmsg_of := o_errmsg;
  set_errmsg e s := OStream (o_callback s) (o_state s) (max_size s) (bytes_written s) e;
|}.

Definition set_bytes_written (n : Z) (s : pb_ostream_t) : pb_ostream_t :=
  OStream (o_callback s) (o_state s) (max_size s) n (o_errmsg s).
Definition set_ostate (st : ostate) (s : pb_ostream_t) : pb_ostream_t :=
  OStream (o_callback s) st (max_size s) (bytes_written s) (o_errmsg s).

Definition PB_OSTREAM_SIZING : pb_ostream_t := OStream OCNull (OState [] []) 0 0 None.

Definition pb_ostream_from_buffer (buf : list Z) (bufsize : Z) : pb_ostream_t :=
  OStream OCBufWrite (OState [] buf) bufsize 0 None.

Definition is_sizing (s : pb_ostream_t) : bool :=
  match o_callback s with OCNull => true | _ => false end.

(** [buf_write]: copies [count] bytes to the buffer and advances the pointer;
    [UB] when the copy leaves the buffer or the source. *)
Definition buf_write (buf : list Z) (count : Z) : M pb_ostream_t unit := fun s =>
  let st := o_state s in
  if (count <=? zlength buf) && (count <=? zlength (room st)) then
    Ret (Some tt, set_ostate (OState (written st ++ ztake count buf) (zdrop count (room st))) s)
  else UB.

Definition call_ocallback (buf : list Z) (count : Z) : M pb_ostream_t unit := fun s =>
  match o_callback s with
  | OCNull => Ret (Some tt, s)
  | OCBufWrite => buf_write buf count s
  | OCUser f =>
      if count <=? zlength buf then
        match f (ztake count buf) (o_state s, max_size s, bytes_written s, o_errmsg s) with
        | (ok, (st, mx, bw, e)) =>
            Ret (if ok : bool then Some tt else None, OStream (o_callback s) st mx bw e)
        end
      else UB
  end.

(** [buf] is [None] for a null pointer: a sizing stream does not look at it,
    and a write of no bytes does not either. *)
Definition pb_write (buf : option (list Z)) (count : Z) : M pb_ostream_t unit :=
  s <- get;;
  (if is_sizing s then ret tt
   else if max_size s <? u64 (bytes_written s + count) then pb_return_error "stream full"
   else
     ok <- attempt (call_ocallback (default [] buf) count);;
     match ok with
     | Some _ => ret tt
     | None => pb_return_error "io error"
     end);;
  modify (fun s => set_bytes_written (u64 (bytes_written s + count)) s).

(** ** Varints *)

(** The loop of [pb_encode_varint]: [buffer[i] = (value & 0x7F) | 0x80],
    [value >>= 7]. The buffer has ten bytes; storing an eleventh is [UB]. *)
Definition varint_body (st : Z * list Z) : res ((Z * list Z) + list Z) :=
  let '(value, buffer) := st in
  if value =? 0 then Ret (inr buffer)
  else if 10 <=? zlength buffer then UB
  else Ret (inl (Z.shiftr value 7, buffer ++ [u8 (value .& 0x7F .| 0x80)])).

(** [buffer[i-1] &= 0x7F]. *)
Definition unset_top_bit (buffer : list Z) : res (list Z) :=
  match list.last buffer with
  | Some b => Ret (take (length buffer - 1) buffer ++ [b .& 0x7F])
  | None => UB
  end.

Definition pb_encode_varint (value : Z) : M pb_ostream_t unit :=
  if value <=? 0x7F then pb_write (Some [u8 value]) 1
  else
    buffer <- lift_res (while varint_body (value, []));;
    buffer <- lift_res (unset_top_bit buffer);;
    pb_write (Some buffer) (zlength buffer).

(** [~((uint64_t)value << 1)] for negative values, [(uint64_t)value << 1] otherwise. *)
Definition zigzag_encode (value : Z) : Z :=
  let v := u64 (Z.shiftl (u64 value) 1) in
  if value <? 0 then u64 (Z.lnot v) else v.

Definition pb_encode_svarint (value : Z) : M pb_ostream_t unit :=
  pb_encode_varint (zigzag_encode value).

(** ** Fixed-width values; [val] is the object read through [value]. *)
Definition fixed32_bytes (val : Z) : list Z :=
  [u8 (val .& 0xFF);
   u8 (Z.shiftr val 8 .& 0xFF);
   u8 (Z.shiftr val 16 .& 0xFF);
   u8 (Z.shiftr val 24 .& 0xFF)].

Definition fixed64_bytes (val : Z) : list Z :=
  fixed32_bytes val ++
  [u8 (Z.shiftr val 32 .& 0xFF);
   u8 (Z.shiftr val 40 .& 0xFF);
   u8 (Z.shiftr val 48 .& 0xFF);
   u8 (Z.shiftr val 56 .& 0xFF)].

Definition pb_encode_fixed32 (m : mem) (value : Z) : M pb_ostream_t unit :=
  val <- need (load_u 4 m value);;
  pb_write (Some (fixed32_bytes val)) 4.

Definition pb_encode_fixed64 (m : mem) (value : Z) : M pb_ostream_t unit :=
  val <- need (load_u 8 m value);;
  pb_write (Some (fixed64_bytes val)) 8.

(** ** Tags and length-delimited values *)
Definition pb_encode_tag (wiretype field_number : Z) : M pb_ostream_t unit :=
  pb_encode_varint (u64 (Z.shiftl field_number 3) .| wiretype).

(** The wire type of a field type, [None] in the default branch. *)
Definition wire_type_of (ltype : Z) : option Z :=
  if (ltype =? PB_LTYPE_VARINT) || (ltype =? PB_LTYPE_UVARINT) || (ltype =? PB_LTYPE_SVARINT)
  then Some PB_WT_VARINT
  else if ltype =? PB_LTYPE_FIXED32 then Some PB_WT_32BIT
  else if ltype =? PB_LTYPE_FIXED64 then Some PB_WT_64BIT
  else if (ltype =? PB_LTYPE_BYTES) || (ltype =? PB_LTYPE_STRING)
       || (ltype =? PB_LTYPE_SUBMESSAGE) || (ltype =? PB_LTYPE_FIXED_LENGTH_BYTES)
  then Some PB_WT_STRING
  else None.

Definition pb_encode_tag_for_field (field : pb_field_t) : M pb_ostream_t unit :=
  match wire_type_of (PB_LTYPE (type field)) with
  | Some wiretype => pb_encode_tag wiretype (tag field)
  | None => pb_return_error "invalid field type"
  end.

Definition pb_encode_string (buffer : option (list Z)) (size : Z) : M pb_ostream_t unit :=
  pb_encode_varint (u64 size);;
  pb_write buffer size.

(** * What a function writes

    [emits c a bs]: on every ready stream that has room, [c] appends exactly
    [bs] and returns [a]; on a buffer without room it returns [false].  In
    neither case does it touch memory outside the buffer (that would be [UB]). *)

(** Appending [bs]: the whole effect of a successful write. *)
Definition push (bs : list Z) (s : pb_ostream_t) : pb_ostream_t :=
  OStream (o_callback s)
    (if is_sizing s then o_state s
     else OState (written (o_state s) ++ bs) (zdrop (zlength bs) (room (o_state s))))
    (max_size s) (u64 (bytes_written s + zlength bs)) (o_errmsg s).

(** A stream without an error that is a sizing stream, or a buffer stream
    whose limit lies within its buffer. *)
Definition ready (s : pb_ostream_t) : Prop :=
  o_errmsg s = None /\ 0 <= bytes_written s < 2 ^ 64 /\
  match o_callback s with
  | OCNull => True
  | OCBufWrite =>
      bytes_written s <= max_size s < 2 ^ 63 /\
      max_size s - bytes_written s <= zlength (room (o_state s))
  | OCUser _ => False
  end.

Definition fits (bs : list Z) (s : pb_ostream_t) : Prop :=
  is_sizing s = true \/ bytes_written s + zlength bs <= max_size s.

Definition emits {A} (c : M pb_ostream_t A) (a : A) (bs : list Z) : Prop :=
  zlength bs < 2 ^ 63 ->
  forall s, ready s ->
    (fits bs s -> c s = Ret (Some a, push bs s)) /\
    (~ fits bs s -> exists s', c s = Ret (None, s')).

(** The same for code that may also run into memory it cannot read.  If it does
    so on one stream, it does on every buffer that is large enough for [bs]: a
    smaller one may end the function before the access, and a sizing stream
    may skip it. *)
Definition emits_or_ub {A} (c : M pb_ostream_t A) (a : A) (bs : list Z) : Prop :=
  zlength bs < 2 ^ 63 ->
  (forall s, ready s ->
    c s = UB \/
    (fits bs s /\ c s = Ret (Some a, push bs s)) \/
    (~ fits bs s /\ exists s', c s = Ret (None, s'))) /\
  (forall s t, ready s -> c s = UB -> ready t -> is_sizing t = false -> fits bs t -> c t = UB).

(** One large buffer that is written without undefined behaviour shows that
    there is none on any stream. *)
Lemma emits_or_ub_defined {A} (c : M pb_ostream_t A) a bs t :
  emits_or_ub c a bs -> ready t -> is_sizing t = false -> fits bs t -> c t <> UB -> emits c a bs.
Proof.
  intros He Ht Hz Hf Hdef Hlen s Hs. destruct (He Hlen) as [H1 H2].
  destruct (H1 s Hs) as [E|[[Hfs E]|[Hfs [s' E]]]].
  - exfalso. exact (Hdef (H2 s t Hs E Ht Hz Hf)).
  - by split.
  - split; [done|eauto].
Qed.

(** [uniform c]: what [c] writes does not depend on the stream, so that a
    sizing pass predicts the real one.  A sizing pass does not read the data
    it counts, so the real one may find it unreadable. *)
Definition uniform {A} (c : M pb_ostream_t A) : Prop :=
  forall s a s', ready s -> is_sizing s = true -> c s = Ret (Some a, s') ->
    exists bs, s' = push bs s /\ emits_or_ub c a bs.

Lemma ready_sizing : ready PB_OSTREAM_SIZING.
Proof. split_and!; simpl; done. Qed.

Lemma ready_from_buffer buf n :
  0 <= n <= zlength buf -> n < 2 ^ 63 -> ready (pb_ostream_from_buffer buf n).
Proof. intros. split_and!; simpl; try done; lia. Qed.

Lemma push_nil s : ready s -> push [] s = s.
Proof.
  intros (He & Hb & _). destruct s as [cb [w r] mx bw e]. unfold push. simpl in *.
  unfold zdrop, zlength. simpl. rewrite Z.add_0_r, wrap_small, app_nil_r by done.
  by destruct cb.
Qed.

Lemma push_push a b s : push b (push a s) = push (a ++ b) s.
Proof.
  destruct s as [cb [w r] mx bw e]. unfold push, is_sizing. cbn. f_equal.
  - destruct cb; cbn; [done|..]; rewrite <- app_assoc; f_equal;
      unfold zdrop, zlength; rewrite drop_drop, length_app, !Nat2Z.id; done.
  - unfold wrap. rewrite Zplus_mod_idemp_l, zlength_app. f_equal. lia.
Qed.

Lemma is_sizing_push bs s : is_sizing (push bs s) = is_sizing s.
Proof. done. Qed.

Lemma ready_push bs s :
  ready s -> zlength bs < 2 ^ 63 -> fits bs s -> ready (push bs s).
Proof.
  intros (He & Hb & Hcb) Hlen Hfit. pose proof (zlength_nonneg bs).
  split_and!; [done|apply wrap_bound; lia|apply wrap_bound; lia|].
  unfold fits, is_sizing, push in *. destruct s as [[| |f] st mx bw e]; simpl in *; [done| |done].
  destruct Hfit as [?|Hfit]; [done|]. rewrite wrap_small by lia. split; [lia|].
  rewrite zlength_zdrop by lia. lia.
Qed.

Lemma fits_app a b s :
  ready s -> zlength (a ++ b) < 2 ^ 63 ->
  fits (a ++ b) s <-> fits a s /\ fits b (push a s).
Proof.
  intros (He & Hb & Hcb). rewrite zlength_app.
  pose proof (zlength_nonneg a). pose proof (zlength_nonneg b).
  unfold fits. rewrite is_sizing_push. intros Hlen.
  destruct (is_sizing s) eqn:Es; [tauto|].
  unfold is_sizing, push in *. destruct s as [[| |f] st mx bw e]; simpl in *; [done| |done].
  rewrite zlength_app. split.
  - intros [?|Hfit]; [done|]. rewrite wrap_small by lia. split; right; lia.
  - intros [[?|Ha] [?|Hfit]]; try done. rewrite wrap_small in Hfit by lia. right; lia.
Qed.

Lemma fits_dec bs s : fits bs s \/ ~ fits bs s.
Proof.
  unfold fits. destruct (is_sizing s); [auto|].
  destruct (decide (bytes_written s + zlength bs <= max_size s)); [auto|].
  right. intros [?|?]; done.
Qed.

(** ** Composition *)
Lemma emits_ret {A} (a : A) : emits (ret a) a [].
Proof.
  intros _ s Hs. split; [by rewrite push_nil|]. intros Hfit. exfalso. apply Hfit.
  unfold fits. destruct Hs as (_ & _ & Hcb).
  unfold is_sizing. destruct (o_callback s); try tauto.
  right. unfold zlength. simpl. lia.
Qed.

Lemma emits_bind {A B} (c : M pb_ostream_t A) (k : A -> M pb_ostream_t B) a b bs1 bs2 :
  emits c a bs1 -> emits (k a) b bs2 -> emits (bind c k) b (bs1 ++ bs2).
Proof.
  intros Hc Hk Hlen s Hs. pose proof Hlen as Hlen'. rewrite zlength_app in Hlen'.
  pose proof (zlength_nonneg bs1). pose proof (zlength_nonneg bs2).
  destruct (Hc ltac:(lia) s Hs) as [Hc1 Hc2]. rewrite fits_app by done.
  destruct (fits_dec bs1 s) as [Hf|Hf].
  - destruct (Hk ltac:(lia) (push bs1 s)) as [Hk1 Hk2]; [apply ready_push; auto; lia|].
    rewrite (bind_some _ _ _ _ _ (Hc1 Hf)). split.
    + intros [_ Hf2]. by rewrite Hk1, push_push.
    + intros Hn. apply Hk2. tauto.
  - split; [tauto|]. intros _. destruct (Hc2 Hf) as [s' E].
    exists s'. by apply bind_false.
Qed.

Lemma emits_seq {A B} (c : M pb_ostream_t A) (k : A -> M pb_ostream_t B) a b bs1 bs2 bs :
  emits c a bs1 -> emits (k a) b bs2 -> bs = bs1 ++ bs2 -> emits (bind c k) b bs.
Proof. intros ? ? ->. by eapply emits_bind. Qed.

Lemma emits_lift {A B} (r : res A) (k : A -> M pb_ostream_t B) a b bs :
  r = Ret a -> emits (k a) b bs -> emits (bind (lift_res r) k) b bs.
Proof. intros -> Hk Hlen s Hs. apply (Hk Hlen s Hs). Qed.

Lemma emits_weaken {A} (c : M pb_ostream_t A) a bs : emits c a bs -> emits_or_ub c a bs.
Proof.
  intros Hc Hlen. split.
  - intros s Hs. destruct (Hc Hlen s Hs) as [H1 H2].
    destruct (fits_dec bs s); right; [left|right]; auto.
  - intros s t Hs E. exfalso. destruct (Hc Hlen s Hs) as [H1 H2].
    destruct (fits_dec bs s) as [Hf|Hf]; [by rewrite (H1 Hf) in E|]. destruct (H2 Hf) as [s' E']. congruence.
Qed.

Lemma emits_or_ub_bind {A B} (c : M pb_ostream_t A) (k : A -> M pb_ostream_t B) a b bs1 bs2 :
  emits_or_ub c a bs1 -> emits_or_ub (k a) b bs2 -> emits_or_ub (bind c k) b (bs1 ++ bs2).
Proof.
  intros Hc Hk Hlen. pose proof Hlen as Hlen'. rewrite zlength_app in Hlen'.
  pose proof (zlength_nonneg bs1). pose proof (zlength_nonneg bs2).
  destruct (Hc ltac:(lia)) as [Hc1 Hc2], (Hk ltac:(lia)) as [Hk1 Hk2].
  assert (forall s, ready s -> fits bs1 s -> ready (push bs1 s)) as Hpush
    by (intros; apply ready_push; auto; lia).
  split.
  - intros s Hs. rewrite fits_app by done. destruct (Hc1 s Hs) as [E|[[Hf E]|[Hf [s' E]]]].
    + left. unfold bind. by rewrite E.
    + rewrite (bind_some _ _ _ _ _ E).
      destruct (Hk1 (push bs1 s)) as [E2|[[Hf2 E2]|[Hf2 [s' E2]]]]; [by auto|by left|..].
      * right; left. split; [done|]. by rewrite E2, push_push.
      * right; right. split; [tauto|eauto].
    + right; right. split; [tauto|]. exists s'. by apply bind_false.
  - intros s t Hs E Ht Hz Hf. apply fits_app in Hf as [Hf1 Hf2]; [|done..].
    destruct (Hc1 s Hs) as [Es|[[Hfs Es]|[Hfs [s' Es]]]].
    + unfold bind. by rewrite (Hc2 s t Hs Es Ht Hz Hf1).
    + rewrite (bind_some _ _ _ _ _ Es) in E.
      destruct (Hc1 t Ht) as [Et|[[_ Et]|[? _]]]; [unfold bind; by rewrite Et| |done].
      rewrite (bind_some _ _ _ _ _ Et). apply (Hk2 (push bs1 s)); auto.
    + rewrite (bind_false _ _ _ _ Es) in E. done.
Qed.

(** A function that agrees with [c] behaves like it. *)
Lemma emits_ext {A} (c c' : M pb_ostream_t A) a bs : (forall s, c s = c' s) -> emits c' a bs -> emits c a bs.
Proof. intros E H Hbs s Hs. rewrite E. by apply H. Qed.

Lemma emits_or_ub_ext {A} (c d : M pb_ostream_t A) a bs :
  (forall s, c s = d s) -> emits_or_ub d a bs -> emits_or_ub c a bs.
Proof.
  intros Eq Hd Hlen. destruct (Hd Hlen) as [H1 H2].
  split; [intros s; rewrite Eq; auto|intros s t; rewrite !Eq; eauto].
Qed.

Lemma uniform_ret {A} (a : A) : uniform (ret a).
Proof.
  intros s a' s' Hs Hz [= <- <-]. exists []. split; [by rewrite push_nil|].
  apply emits_weaken, emits_ret.
Qed.

Lemma uniform_bind_post {A B} (c : M pb_ostream_t A) (k : A -> M pb_ostream_t B) :
  uniform c -> (forall a s s', c s = Ret (Some a, s') -> uniform (k a)) -> uniform (bind c k).
Proof.
  intros Hc Hk s b s' Hs Hz E. apply bind_inv in E as (a & s1 & E1 & E2).
  destruct (Hc _ _ _ Hs Hz E1) as (bs1 & -> & Hc1).
  assert (ready (push bs1 s)) as Hs1.
  { destruct Hs as (He & Hb & Hcb). unfold is_sizing in Hz.
    split_and!; [done|apply wrap_bound; lia|apply wrap_bound; lia|].
    simpl. by destruct (o_callback s). }
  destruct (Hk a _ _ E1 _ _ _ Hs1 Hz E2) as (bs2 & -> & Hk2).
  exists (bs1 ++ bs2). rewrite push_push. split; [done|]. by eapply emits_or_ub_bind.
Qed.

Lemma uniform_bind {A B} (c : M pb_ostream_t A) (k : A -> M pb_ostream_t B) :
  uniform c -> (forall a, uniform (k a)) -> uniform (bind c k).
Proof. intros Hc Hk. apply uniform_bind_post; auto. Qed.

Lemma uniform_lift {A B} (r : res A) (k : A -> M pb_ostream_t B) :
  (forall a, r = Ret a -> uniform (k a)) -> uniform (bind (lift_res r) k).
Proof.
  intros Hk s b s' Hs Hz E. destruct r as [a| |]; [|done|done].
  destruct (Hk a eq_refl _ _ _ Hs Hz E) as (bs & -> & He). by exists bs.
Qed.

Lemma uniform_need {A B} (o : option A) (k : A -> M pb_ostream_t B) :
  (forall a, o = Some a -> uniform (k a)) -> uniform (bind (need o) k).
Proof. intros Hk. apply uniform_lift. intros a. destruct o; [intros [= ->]; auto|done]. Qed.

Lemma uniform_error {A} msg : uniform (@pb_return_error _ A _ msg).
Proof. intros s a s' _ _ E. discriminate E. Qed.
Lemma uniform_undefined {A} : uniform (@undefined _ A).
Proof. intros s a s' _ _ E. discriminate E. Qed.
Lemma uniform_return_false {A} : uniform (@return_false _ A).
Proof. intros s a s' _ _ E. discriminate E. Qed.
Lemma uniform_no_fuel {A} : uniform (@no_fuel _ A).
Proof. intros s a s' _ _ E. discriminate E. Qed.

(** A pass over a local stream writes nothing to the caller's. *)
Lemma uniform_on_local {T A B} (t : T) (c : M T A) (k : option A * T -> M pb_ostream_t B) :
  (forall r, c t = Ret r -> uniform (k r)) -> uniform (bind (on_local t c) k).
Proof.
  intros Hk. replace (bind (on_local t c) k) with (bind (lift_res (c t)) k).
  - by apply uniform_lift.
  - unfold bind, on_local, lift_res. by destruct (c t) as [[[]]| |].
Qed.

Lemma uniform_for_loop {X} n (body : X -> M pb_ostream_t X) x :
  (forall x, uniform (body x)) -> uniform (for_loop n body x).
Proof.
  intros Hb. revert x. induction n as [|n IH]; intros x; [apply uniform_ret|].
  simpl. apply uniform_bind; auto.
Qed.

(** A loop is uniform when its body is: the real pass repeats the iterations
    of the sizing pass. *)
Lemma uniform_whileM_inv {X A} (body : X -> M pb_ostream_t (X + A)) (I : X -> Prop) x :
  (forall x, I x -> uniform (body x)) ->
  (forall x s x' s', I x -> body x s = Ret (Some (inl x'), s') -> I x') ->
  I x -> uniform (whileM body x).
Proof.
  intros Hb Hpost HI.
  assert (forall n x, I x -> uniform (fun s =>
    match loop_nat n (while_body body) (x, s) with
    | Ret (inr r) => Ret r | Ret (inl _) => NoFuel | UB => UB | NoFuel => NoFuel end)) as Hloop.
  { clear x HI. induction n as [|n IH]; intros x HI s a s' Hs Hz E; [done|].
    set (rest := fun r : X + A => match r with
      | inl x' => fun s => match loop_nat n (while_body body) (x', s) with
          | Ret (inr r) => Ret r | Ret (inl _) => NoFuel | UB => UB | NoFuel => NoFuel end
      | inr a => ret a end).
    assert (forall s0, match loop_nat (S n) (while_body body) (x, s0) with
        | Ret (inr r) => Ret r | Ret (inl _) => NoFuel | UB => UB | NoFuel => NoFuel end
        = bind (body x) rest s0) as Eq.
    { intros s0. simpl. unfold while_body at 1. cbn [fst snd]. unfold bind.
      by destruct (body x s0) as [[[[y|b]|] s1]| |]. }
    rewrite Eq in E.
    assert (forall r s1 s2, body x s1 = Ret (Some r, s2) -> uniform (rest r)) as Hrest.
    { intros [y|b] s1 s2 Er; [by eapply IH, Hpost|apply uniform_ret]. }
    destruct (uniform_bind_post (body x) rest (Hb x HI) Hrest s a s' Hs Hz E) as (bs & -> & Hem).
    exists bs. split; [done|]. exact (emits_or_ub_ext _ _ _ _ Eq Hem). }
  intros s a s' Hs Hz E.
  assert (forall s0, whileM body x s0 =
    match loop_nat (2 ^ 64) (while_body body) (x, s0) with
    | Ret (inr r) => Ret r | Ret (inl _) => NoFuel | UB => UB | NoFuel => NoFuel end) as Eq.
  { intros s0. unfold whileM, while. by rewrite loop_pow_nat. }
  rewrite Eq in E. destruct (Hloop (2 ^ 64)%nat x HI s a s' Hs Hz E) as (bs & -> & Hem).
  exists bs. split; [done|]. exact (emits_or_ub_ext _ _ _ _ Eq Hem).
Qed.

Lemma uniform_whileM {X A} (body : X -> M pb_ostream_t (X + A)) x :
  (forall x, uniform (body x)) -> uniform (whileM body x).
Proof. intros Hb. by apply (uniform_whileM_inv body (fun _ => True)); auto. Qed.

(** ** pb_write *)
Lemma pb_write_sizing o n s :
  is_sizing s = true -> pb_write o n s = Ret (Some tt, set_bytes_written (u64 (bytes_written s + n)) s).
Proof. intros Hz. unfold pb_write. rewrite bind_get, Hz, bind_ret. done. Qed.

Lemma push_sizing bs s :
  is_sizing s = true -> push bs s = set_bytes_written (u64 (bytes_written s + zlength bs)) s.
Proof. intros Hz. unfold push, set_bytes_written. by rewrite Hz. Qed.

Lemma pb_write_emits bs n : n = zlength bs -> emits (pb_write (Some bs) n) tt bs.
Proof.
  intros -> Hlen s Hs. destruct (is_sizing s) eqn:Hz.
  { rewrite pb_write_sizing, push_sizing by done. split; [done|]. intros Hf. exfalso. apply Hf. by left. }
  destruct Hs as (He & Hb & Hcb). pose proof (zlength_nonneg bs).
  destruct s as [[| |f] [w r] mx bw e]; simpl in *; [done| |done]. subst e.
  unfold pb_write, fits. rewrite bind_get. cbn [is_sizing o_callback max_size bytes_written].
  rewrite wrap_small by lia. destruct (Z.ltb_spec mx (bw + zlength bs)) as [Hlt|Hge]; split.
  - intros [?|?]; [done|lia].
  - intros _. rewrite bind_error. eauto.
  - intros _. unfold bind, attempt, call_ocallback, buf_write. simpl.
    rewrite Z.leb_refl, (proj2 (Z.leb_le _ _)) by lia. simpl.
    unfold push, modify, set_bytes_written. simpl. by rewrite ztake_all.
  - intros Hf. exfalso. apply Hf. right. done.
Qed.


Lemma emits_uniform {A} (c : M pb_ostream_t A) a bs :
  (forall s, ready s -> is_sizing s = true -> c s = Ret (Some a, push bs s)) ->
  emits c a bs -> uniform c.
Proof.
  intros Hz He s a' s' Hs Hsz E. rewrite Hz in E by done. injection E as <- <-.
  eauto using emits_weaken.
Qed.

Lemma pb_write_uniform bs n : n = zlength bs -> uniform (pb_write (Some bs) n).
Proof.
  intros ->. apply (emits_uniform _ tt bs); [|by apply pb_write_emits].
  intros s _ Hz. by rewrite pb_write_sizing, push_sizing.
Qed.

(** A source that cannot be read is only noticed when it is copied. *)
Lemma pb_write_unreadable n bs :
  0 < n -> zlength bs = n -> emits_or_ub (pb_write None n) tt bs.
Proof.
  intros Hn Hb Hlen. subst n.
  assert (forall s, ready s -> is_sizing s = false ->
    (fits bs s /\ pb_write None (zlength bs) s = UB) \/
    (~ fits bs s /\ exists s', pb_write None (zlength bs) s = Ret (None, s'))) as Hreal.
  { intros s (He & Hb & Hcb) Hz.
    destruct s as [[| |f] [w r] mx bw e]; simpl in *; [done| |done]. subst e.
    unfold pb_write, fits. rewrite bind_get. cbn [is_sizing o_callback max_size bytes_written].
    rewrite wrap_small by lia. destruct (Z.ltb_spec mx (bw + zlength bs)) as [Hlt|Hge].
    - right. split; [intros [?|?]; [done|lia]|]. rewrite bind_error. eauto.
    - left. split; [by right|]. unfold bind, attempt, call_ocallback, buf_write. simpl.
      rewrite (proj2 (Z.leb_gt _ _)) by (change (zlength (@nil Z)) with 0; lia). done. }
  split.
  - intros s Hs. destruct (is_sizing s) eqn:Hz.
    + rewrite pb_write_sizing, push_sizing by done. right; left. split; [by left|done].
    + destruct (Hreal s Hs Hz) as [[_ ?]|?]; auto.
  - intros s t _ _ Ht Hz Hf. destruct (Hreal t Ht Hz) as [[_ ?]|[? _]]; done.
Qed.

(** The general case: the source is [n] bytes or unreadable. *)
Lemma pb_write_any o n :
  0 <= n -> (forall bs, o = Some bs -> n = zlength bs) -> uniform (pb_write o n).
Proof.
  intros Hn Ho. destruct o as [bs|]; [by apply pb_write_uniform, Ho|].
  destruct (decide (n = 0)) as [->|Hne]; [by apply (pb_write_uniform [])|].
  intros s a s' Hs Hz E. rewrite pb_write_sizing in E by done. injection E as <- <-.
  exists (repeat 0 (Z.to_nat n)).
  assert (zlength (repeat 0 (Z.to_nat n)) = n) as El
    by (unfold zlength; rewrite repeat_length; lia).
  split; [by rewrite push_sizing, El|]. apply pb_write_unreadable; lia.
Qed.

(** ** Varints *)

(** The loop of [pb_encode_varint] collects the digits, all with the top bit
    set; clearing the last one gives the reference encoding. *)
Lemma varint_loop n v acc :
  0 < v < 128 ^ Z.of_nat n -> zlength acc + Z.of_nat n <= 10 ->
  exists ds last k,
    runs varint_body (v, acc) k (Ret (acc ++ ds ++ [last + 128])) /\
    k <= Z.of_nat n + 1 /\ 0 <= last < 128 /\ varint_digits n v = ds ++ [last].
Proof.
  revert v acc. induction n as [|n IH]; intros v acc Hv Hacc; [simpl in Hv; lia|].
  pose proof (zlength_nonneg acc).
  assert (varint_body (v, acc) = Ret (inl (v / 128, acc ++ [v mod 128 + 128]))) as Eb.
  { unfold varint_body. rewrite (proj2 (Z.eqb_neq _ _)), (proj2 (Z.leb_gt _ _)) by lia.
    rewrite land_0x7F, lor_0x80, Z.shiftr_div_pow2 by (try lia; apply Z.mod_pos_bound; lia).
    rewrite wrap_small; [done|]. pose proof (Z.mod_pos_bound v 128). lia. }
  simpl varint_digits. destruct (Z.ltb_spec v 128) as [Hlt|Hge].
  - exists [], v, 2. split_and!; [|lia|lia|lia|done].
    replace 2 with (1 + 1) by lia. eapply runs_step; [exact Eb|].
    rewrite Z.div_small, Z.mod_small by lia. by apply runs_stop.
  - destruct (IH (v / 128) (acc ++ [v mod 128 + 128])) as (ds & last & k & Hr & Hk & Hl & Ed).
    { split; [apply Z.div_str_pos; lia|]. apply Z.div_lt_upper_bound; [lia|].
      rewrite Nat2Z.inj_succ, Z.pow_succ_r in Hv by lia. lia. }
    { rewrite zlength_app. unfold zlength at 2. simpl. lia. }
    exists ((v mod 128 + 128) :: ds), last, (1 + k). split_and!; [|lia|lia|lia|by rewrite Ed].
    eapply runs_step; [exact Eb|]. by rewrite <- app_assoc in Hr.
Qed.

Lemma unset_top_bit_app ds last :
  0 <= last < 128 -> unset_top_bit (ds ++ [last + 128]) = Ret (ds ++ [last]).
Proof.
  intros Hl. unfold unset_top_bit. rewrite last_snoc, length_app. simpl.
  replace (length ds + 1 - 1)%nat with (length ds) by lia. rewrite take_app_length.
  rewrite land_0x7F. replace (last + 128) with (last + 1 * 128) by lia.
  rewrite Z.mod_add, Z.mod_small by lia. done.
Qed.

(** [pb_encode_varint] is a write of the reference encoding. *)
Lemma pb_encode_varint_write v s :
  0 <= v < 2 ^ 64 ->
  pb_encode_varint v s = pb_write (Some (varint_bytes v)) (zlength (varint_bytes v)) s.
Proof.
  intros Hv. unfold pb_encode_varint. destruct (Z.leb_spec v 127) as [Hle|Hgt].
  - rewrite wrap_small by lia. unfold varint_bytes. simpl.
    by rewrite (proj2 (Z.ltb_lt v 128)) by lia.
  - destruct (varint_loop 10 v []) as (ds & last & k & Hr & Hk & Hl & Ed);
      [split; [lia|]; change (128 ^ Z.of_nat 10) with (2 ^ 70); lia|done|].
    rewrite (bind_lift _ _ _ (ds ++ [last + 128])).
    2: { eapply runs_while; [exact Hr|]. lia. }
    rewrite (bind_lift _ _ _ (ds ++ [last])) by by apply unset_top_bit_app.
    unfold varint_bytes. by rewrite Ed.
Qed.

Lemma pb_encode_varint_emits v :
  0 <= v < 2 ^ 64 -> emits (pb_encode_varint v) tt (varint_bytes v).
Proof.
  intros Hv Hlen s Hs. rewrite pb_encode_varint_write by done. by apply pb_write_emits.
Qed.

Lemma pb_encode_varint_uniform v : 0 <= v < 2 ^ 64 -> uniform (pb_encode_varint v).
Proof.
  intros Hv s a s' Hs Hz E. rewrite pb_encode_varint_write in E by done.
  destruct (pb_write_uniform _ _ eq_refl _ _ _ Hs Hz E) as (bs & -> & He). exists bs.
  split; [done|]. eapply emits_or_ub_ext; [|exact He]. intros t. by apply pb_encode_varint_write.
Qed.
