(* ===== verification/Encode.v ===== *)
(** * The message encoder (pb_encode.c)

    The recursion of the C code, [pb_encode] to [pb_enc_submessage] to
    [pb_encode_submessage] to [pb_encode], is opened: every function takes
    the encoder of submessages as [enc], and [pb_encode] ties the knot. *)
From S2P Require Import Prelude Memory Descriptor Iter OStream.

(** User code reached through function pointers. A callback gets the memory,
    the field or extension, and the address of [arg]. *)
Class EncodeCallbacks := {
  field_encode_cb : Z -> mem -> pb_field_t -> Z -> M pb_ostream_t unit;
  ext_encode_cb : Z -> mem -> Z -> M pb_ostream_t unit;
}.

(** [pb_encoder_t]: the field and the address of the data, 0 for null. *)
Abbreviation pb_encoder_t := (pb_field_t -> Z -> M pb_ostream_t unit).
(** [pb_encode], as the other functions call it. *)
Abbreviation encode_fun := (list pb_field_t -> Z -> M pb_ostream_t unit).

Section encoders.
Context `{Tables}.
Variable m : mem.

(** ** Scalar fields *)
Definition pb_enc_varint : pb_encoder_t := fun field src =>
  value <- (if data_size field =? 1 then need (load_s 1 m src)
            else if data_size field =? 2 then need (load_s 2 m src)
            else if data_size field =? 4 then need (load_s 4 m src)
            else if data_size field =? 8 then need (load_s 8 m src)
            else pb_return_error "invalid data_size");;
  pb_encode_varint (u64 value).

Definition pb_enc_uvarint : pb_encoder_t := fun field src =>
  value <- (if data_size field =? 1 then need (load_u 1 m src)
            else if data_size field =? 2 then need (load_u 2 m src)
            else if data_size field =? 4 then need (load_u 4 m src)
            else if data_size field =? 8 then need (load_u 8 m src)
            else pb_return_error "invalid data_size");;
  pb_encode_varint value.

Definition pb_enc_svarint : pb_encoder_t := fun field src =>
  value <- (if data_size field =? 1 then need (load_s 1 m src)
            else if data_size field =? 2 then need (load_s 2 m src)
            else if data_size field =? 4 then need (load_s 4 m src)
            else if data_size field =? 8 then need (load_s 8 m src)
            else pb_return_error "invalid data_size");;
  pb_encode_svarint value.

Definition pb_enc_fixed64 : pb_encoder_t := fun field src => pb_encode_fixed64 m src.
Definition pb_enc_fixed32 : pb_encoder_t := fun field src => pb_encode_fixed32 m src.

(** ** Bytes and strings

    The bytes [pb_write] may copy: an unreadable source is undefined
    behaviour only when it is copied, so not on a sizing stream. *)
Definition pb_enc_bytes : pb_encoder_t := fun field src =>
  if src =? 0 then pb_encode_string None 0
  else
    size <- need (load_u 4 m src);;
    if (PB_ATYPE (type field) =? PB_ATYPE_STATIC)
       && (data_size field <? PB_BYTES_ARRAY_T_ALLOCSIZE size)
    then pb_return_error "bytes size exceeded"
    else
      pb_encode_string (load_bytes m (src + 4) (Z.to_nat size)) size.

(** [while (size < max_size && *p != '\0') size++, p++]. *)
Definition strnlen (src max_size : Z) : res Z :=
  while (fun size =>
    if size <? max_size then
      match load_byte m (src + size) with
      | None => UB
      | Some c => if c =? 0 then Ret (inr size) else Ret (inl (size + 1))
      end
    else Ret (inr size)) 0.

Definition pb_enc_string : pb_encoder_t := fun field src =>
  let max_size :=
    if PB_ATYPE (type field) =? PB_ATYPE_POINTER then u64 (-1) else data_size field in
  if src =? 0 then pb_encode_string None 0
  else
    size <- lift_res (strnlen src max_size);;
    pb_encode_string (load_bytes m src (Z.to_nat size)) size.

Definition pb_enc_fixed_length_bytes : pb_encoder_t := fun field src =>
  pb_encode_string (load_bytes m src (Z.to_nat (data_size field))) (data_size field).

(** ** Submessages *)
Section with_encoder.
Variable enc : encode_fun.

(** What follows the length: a second substream verifies that a callback
    does not write more than it did the first time. *)
Definition submessage_body (enc : M pb_ostream_t unit) (size : Z) : M pb_ostream_t unit :=
  stream <- get;;
  if is_sizing stream then pb_write None size
  else if max_size stream <? u64 (bytes_written stream + size)
  then pb_return_error "stream full"
  else
    let sub := OStream (o_callback stream) (o_state stream) size 0 None in
    let* '(status, substream) := on_local sub enc in
    modify (fun s => set_bytes_written (u64 (bytes_written s + bytes_written substream)) s);;
    modify (set_ostate (o_state substream));;
    modify (set_errmsg (o_errmsg substream));;
    if negb (bytes_written substream =? size)
    then pb_return_error "submsg size changed"
    else match status with Some _ => ret tt | None => return_false end.

Definition pb_encode_submessage (fields : list pb_field_t) (src_struct : Z)
  : M pb_ostream_t unit :=
  (* first calculate the message size using a non-writing substream *)
  let* '(status, substream) := on_local PB_OSTREAM_SIZING (enc fields src_struct) in
  match status with
  | None => modify (set_errmsg (o_errmsg substream));; return_false
  | Some _ =>
      let size := bytes_written substream in
      pb_encode_varint (u64 size);;
      submessage_body (enc fields src_struct) size
  end.

Definition pb_enc_submessage : pb_encoder_t := fun field src =>
  match ptr field with
  | PFields t =>
      match fields_of t with
      | Some fields => pb_encode_submessage fields src
      | None => undefined
      end
  | PNull => pb_return_error "invalid field descriptor"
  | PDefault _ => undefined
  end.

(** The table of encoders; [UB] beyond its end, [None] for the null entry. *)
Definition PB_ENCODERS (ltype : Z) : res (option pb_encoder_t) :=
  if ltype =? PB_LTYPE_VARINT then Ret (Some pb_enc_varint)
  else if ltype =? PB_LTYPE_UVARINT then Ret (Some pb_enc_uvarint)
  else if ltype =? PB_LTYPE_SVARINT then Ret (Some pb_enc_svarint)
  else if ltype =? PB_LTYPE_FIXED32 then Ret (Some pb_enc_fixed32)
  else if ltype =? PB_LTYPE_FIXED64 then Ret (Some pb_enc_fixed64)
  else if ltype =? PB_LTYPE_BYTES then Ret (Some pb_enc_bytes)
  else if ltype =? PB_LTYPE_STRING then Ret (Some pb_enc_string)
  else if ltype =? PB_LTYPE_SUBMESSAGE then Ret (Some pb_enc_submessage)
  else if ltype =? PB_LTYPE_EXTENSION then Ret None
  else if ltype =? PB_LTYPE_FIXED_LENGTH_BYTES then Ret (Some pb_enc_fixed_length_bytes)
  else UB.
End with_encoder.

(** A call through a pointer of the table. *)
Definition call_encoder (func : option pb_encoder_t) : pb_encoder_t := fun field src =>
  match func with Some f => f field src | None => undefined end.

(** ** Arrays *)
Definition encode_array (field : pb_field_t) (data count : Z) (func : pb_encoder_t)
  : M pb_ostream_t unit :=
  if count =? 0 then ret tt
  else if negb (PB_ATYPE (type field) =? PB_ATYPE_POINTER) && (array_size field <? count)
  then pb_return_error "array max size exceeded"
  else if PB_LTYPE (type field) <=? PB_LTYPE_LAST_PACKABLE then
    pb_encode_tag PB_WT_STRING (tag field);;
    let items := for_loop (Z.to_nat count)
      (fun p => func field p;; ret (p + data_size field)) data in
    size <- (if PB_LTYPE (type field) =? PB_LTYPE_FIXED32 then ret (u64 (4 * count))
             else if PB_LTYPE (type field) =? PB_LTYPE_FIXED64 then ret (u64 (8 * count))
             else
               let* '(status, sizestream) := on_local PB_OSTREAM_SIZING items in
               match status with
               | None => return_false
               | Some _ => ret (bytes_written sizestream)
               end);;
    pb_encode_varint (u64 size);;
    stream <- get;;
    if is_sizing stream then pb_write None size
    else items;; ret tt
  else
    for_loop (Z.to_nat count) (fun p =>
      pb_encode_tag_for_field field;;
      (if (PB_ATYPE (type field) =? PB_ATYPE_POINTER)
          && ((PB_LTYPE (type field) =? PB_LTYPE_STRING)
              || (PB_LTYPE (type field) =? PB_LTYPE_BYTES))
       then item <- need (load_ptr m p);; func field item
       else func field p);;
      ret (p + data_size field)) data;;
    ret tt.

(** ** Proto3 defaults *)

(** [do { if (!p(iter)) return false; } while (pb_field_iter_next(&iter)); return true]. *)
Definition iter_forall (p : pb_field_iter_t -> res bool) : pb_field_iter_t -> res bool :=
  while (fun it =>
    res_bind (p it) (fun b =>
      if b : bool then
        res_bind (pb_field_iter_next it) (fun r =>
          if r.1 : bool then Ret (inl r.2) else Ret (inr true))
      else Ret (inr false))).

Definition all_zero (data n : Z) : res bool :=
  while (fun i =>
    if i <? n then
      match load_byte m (data + i) with
      | None => UB
      | Some b => if b =? 0 then Ret (inl (i + 1)) else Ret (inr false)
      end
    else Ret (inr true)) 0.

Fixpoint pb_check_proto3_default_value (fuel : nat) (field : pb_field_t) (data : Z)
  : res bool :=
  let size := data + size_offset field in
  let htype := PB_HTYPE (type field) in
  let ltype := PB_LTYPE (type field) in
  if htype =? PB_HTYPE_REQUIRED then Ret false
  else if htype =? PB_HTYPE_REPEATED then
    res_bind (of_option (load_u 4 m size)) (fun n => Ret (n =? 0))
  else if htype =? PB_HTYPE_ONEOF then
    res_bind (of_option (load_u 4 m size)) (fun n => Ret (n =? 0))
  else if (htype =? PB_HTYPE_OPTIONAL) && negb (size_offset field =? 0) then
    res_bind (of_option (load_u 1 m size)) (fun n => Ret (n =? 0))
  else
    let static := PB_ATYPE (type field) =? PB_ATYPE_STATIC in
    if static && (ltype =? PB_LTYPE_BYTES) then
      res_bind (of_option (load_u 4 m data)) (fun n => Ret (n =? 0))
    else if static && (ltype =? PB_LTYPE_STRING) then
      res_bind (of_option (load_byte m data)) (fun c => Ret (c =? 0))
    else if static && (ltype =? PB_LTYPE_FIXED_LENGTH_BYTES) then
      Ret (data_size field =? 0)
    else if static && (ltype =? PB_LTYPE_SUBMESSAGE) then
      match fuel, ptr field with
      | O, _ => NoFuel
      | S fuel', PFields t =>
          res_bind (of_option (fields_of t)) (fun fields =>
          res_bind (pb_field_iter_begin fields data) (fun r =>
            if r.1 : bool then
              iter_forall (fun it => res_bind (cur it) (fun f =>
                pb_check_proto3_default_value fuel' f (pData it))) r.2
            else Ret true))
      | S _, _ => UB
      end
    else all_zero data (data_size field).

(** ** Fields *)
Section with_encoder_and_callbacks.
Context `{EncodeCallbacks}.
Variable fuel : nat.
Variable enc : encode_fun.

(** [pSize] points to the local [implicit_has] when [size_offset] is 0. *)
Definition encode_basic_field (field : pb_field_t) (data0 : Z) : M pb_ostream_t unit :=
  func <- lift_res (PB_ENCODERS enc (PB_LTYPE (type field)));;
  let htype := PB_HTYPE (type field) in
  implicit_has <-
    (if negb (size_offset field =? 0) then ret true
     else if htype =? PB_HTYPE_OPTIONAL then
       b <- lift_res (pb_check_proto3_default_value fuel field data0);; ret (negb b)
     else ret true);;
  let* '(data, implicit_has) :=
    (if PB_ATYPE (type field) =? PB_ATYPE_POINTER then
       p <- need (load_ptr m data0);; ret (p, negb (p =? 0))
     else ret (data0, implicit_has)) in
  let size := data0 + size_offset field in
  if htype =? PB_HTYPE_REQUIRED then
    if data =? 0 then pb_return_error "missing required field"
    else
      pb_encode_tag_for_field field;;
      call_encoder func field data
  else if htype =? PB_HTYPE_OPTIONAL then
    has <- (if negb (size_offset field =? 0)
            then b <- need (load_u 1 m size);; ret (negb (b =? 0))
            else ret implicit_has);;
    if has : bool then
      pb_encode_tag_for_field field;;
      call_encoder func field data
    else ret tt
  else if htype =? PB_HTYPE_REPEATED then
    count <- (if negb (size_offset field =? 0) then need (load_u 4 m size)
              else ret (array_size field));;
    encode_array field data count (call_encoder func)
  else if htype =? PB_HTYPE_ONEOF then
    which <- (if negb (size_offset field =? 0) then need (load_u 4 m size)
              else undefined);;
    if which =? tag field then
      pb_encode_tag_for_field field;;
      call_encoder func field data
    else ret tt
  else pb_return_error "invalid field type".

Definition encode_callback_field (field : pb_field_t) (data : Z) : M pb_ostream_t unit :=
  f <- need (callback_funcs m data);;
  if negb (f =? 0) then
    ok <- attempt (field_encode_cb f m field (callback_arg_addr data));;
    match ok with
    | Some _ => ret tt
    | None => pb_return_error "callback error"
    end
  else ret tt.

Definition encode_field (field : pb_field_t) (data : Z) : M pb_ostream_t unit :=
  let atype := PB_ATYPE (type field) in
  if (atype =? PB_ATYPE_STATIC) || (atype =? PB_ATYPE_POINTER)
  then encode_basic_field field data
  else if atype =? PB_ATYPE_CALLBACK then encode_callback_field field data
  else pb_return_error "invalid field type".

(** ** Extensions *)
Definition default_extension_encoder (extension : Z) : M pb_ostream_t unit :=
  t <- need (ext_type m extension);;
  et <- need (ext_types t);;
  let field := et_arg et in
  if PB_ATYPE (type field) =? PB_ATYPE_POINTER
  then encode_field field (ext_dest_addr extension)
  else dest <- need (ext_dest m extension);; encode_field field dest.

Definition encode_extension_field (field : pb_field_t) (data : Z) : M pb_ostream_t unit :=
  first <- need (load_ptr m data);;
  whileM (fun extension =>
    if extension =? 0 then ret (inr tt)
    else
      t <- need (ext_type m extension);;
      et <- need (ext_types t);;
      (if negb (et_encode et =? 0) then ext_encode_cb (et_encode et) m extension
       else default_extension_encoder extension);;
      next <- need (ext_next m extension);;
      ret (inl next)) first.

(** The body of [pb_encode]. *)
Definition pb_encode_body (fields : list pb_field_t) (src_struct : Z)
  : M pb_ostream_t unit :=
  let* '(nonempty, iter) := lift_res (pb_field_iter_begin fields src_struct) in
  if negb nonempty then ret tt (* Empty message type *)
  else
    iter_each (fun it =>
      f <- lift_res (cur it);;
      if PB_LTYPE (type f) =? PB_LTYPE_EXTENSION
      then encode_extension_field f (pData it)
      else encode_field f (pData it)) iter.
End with_encoder_and_callbacks.

(** ** Messages; [fuel] bounds the nesting of submessages. *)
Context `{EncodeCallbacks}.

Fixpoint pb_encode (fuel : nat) (fields : list pb_field_t) (src_struct : Z)
  : M pb_ostream_t unit :=
  match fuel with
  | O => no_fuel
  | S fuel' => pb_encode_body fuel' (pb_encode fuel') fields src_struct
  end.

Definition pb_encode_delimited (fuel : nat) (fields : list pb_field_t) (src_struct : Z)
  : M pb_ostream_t unit :=
  pb_encode_submessage (pb_encode fuel) fields src_struct.

Definition pb_encode_nullterminated (fuel : nat) (fields : list pb_field_t) (src_struct : Z)
  : M pb_ostream_t unit :=
  pb_encode fuel fields src_struct;;
  pb_write (Some [0]) 1.

(** [None] is [return false], [Some n] is [*size = n; return true]. *)
Definition pb_get_encoded_size (fuel : nat) (fields : list pb_field_t) (src_struct : Z)
  : res (option Z) :=
  match pb_encode fuel fields src_struct PB_OSTREAM_SIZING with
  | Ret (Some _, stream) => Ret (Some (bytes_written stream))
  | Ret (None, _) => Ret None
  | UB => UB
  | NoFuel => NoFuel
  end.
End encoders.
