(* ===== verification/IStream.v ===== *)
(** * Input streams and the basic decoders (pb_decode.h, pb_decode.c) *)
From S2P Require Import Prelude WireFormat Memory Descriptor.

(** [callback]: [buf_read], or a custom function.  A custom function gets the
    number of bytes asked for and may change the state, [bytes_left] and the
    message; on [return false] it leaves the destination alone. *)
Inductive icallback : Type :=
| ICBufRead
| ICUser (f : Z -> list Z * Z * option string ->
              option (list Z) * (list Z * Z * option string)).

(** [state]: for [buf_read], the bytes from the pointer to the end of the
    source buffer; a custom callback keeps its own data there. *)
Record pb_istream_t : Type := IStream {
  i_callback : icallback;
  i_state : list Z;
  bytes_left : Z;
  i_errmsg : option string;
}.

#[export] Instance istream_errmsg : HasErrmsg pb_istream_t := {|
  errmsg_of := i_errmsg;
  set_errmsg e s := IStream (i_callback s) (i_state s) (bytes_left s) e;
|}.

Definition set_bytes_left (n : Z) (s : pb_istream_t) : pb_istream_t :=
  IStream (i_callback s) (i_state s) n (i_errmsg s).
Definition set_istate (st : list Z) (s : pb_istream_t) : pb_istream_t :=
  IStream (i_callback s) st (bytes_left s) (i_errmsg s).

Definition pb_istream_from_buffer (buf : list Z) (bufsize : Z) : pb_istream_t :=
  IStream ICBufRead buf bufsize None.

Definition is_buf_read (s : pb_istream_t) : bool :=
  match i_callback s with ICBufRead => true | _ => false end.

(** [buf_read]: the bytes copied; [UB] past the end of the source. *)
Definition buf_read (count : Z) : M pb_istream_t (list Z) := fun s =>
  if count <=? zlength (i_state s) then
    Ret (Some (ztake count (i_state s)), set_istate (zdrop count (i_state s)) s)
  else UB.

Definition call_icallback (count : Z) : M pb_istream_t (list Z) := fun s =>
  match i_callback s with
  | ICBufRead => buf_read count s
  | ICUser f =>
      match f count (i_state s, bytes_left s, i_errmsg s) with
      | (bs, (st, bl, e)) => Ret (bs, IStream (i_callback s) st bl e)
      end
  end.

(** The part of [pb_read] after the skipping of input. *)
Definition pb_read_buf (count : Z) : M pb_istream_t (list Z) :=
  s <- get;;
  if bytes_left s <? count then pb_return_error "end-of-stream"
  else
    r <- attempt (call_icallback count);;
    match r with
    | None => pb_return_error "io error"
    | Some bs => modify (fun s => set_bytes_left (u64 (bytes_left s - count)) s);; ret bs
    end.

(** [while (count > 16) { pb_read(stream, tmp, 16); count -= 16; }]. *)
Definition skip_input (count : Z) : M pb_istream_t (list Z) :=
  count <- whileM (fun count =>
    if 16 <? count then pb_read_buf 16;; ret (inl (count - 16)) else ret (inr count)) count;;
  pb_read_buf count.

(** [null] tells whether [buf] is the null pointer; the bytes read are the
    result. *)
Definition pb_read (null : bool) (count : Z) : M pb_istream_t (list Z) :=
  s <- get;;
  if null && negb (is_buf_read s) then skip_input count else pb_read_buf count.

(** The byte of a one-byte read. *)
Definition the_byte (bs : list Z) : res Z :=
  match bs with b :: _ => Ret b | [] => UB end.

Definition pb_readbyte : M pb_istream_t Z :=
  s <- get;;
  if bytes_left s =? 0 then pb_return_error "end-of-stream"
  else
    r <- attempt (call_icallback 1);;
    match r with
    | None => pb_return_error "io error"
    | Some bs =>
        modify (fun s => set_bytes_left (u64 (bytes_left s - 1)) s);;
        lift_res (the_byte bs)
    end.

(** ** Varints *)

(** The multibyte loop of [pb_decode_varint32_eof]; the state is [bitpos],
    [result]; it is left with the last byte read. [bitpos] is a
    [uint_fast8_t], eight bits wide. *)
Definition varint32_body (st : Z * Z) : M pb_istream_t ((Z * Z) + (Z * Z * Z)) :=
  let '(bitpos, result) := st in
  byte <- pb_readbyte;;
  result <-
    (if 32 <=? bitpos then
       let sign_extension := if bitpos <? 63 then 0xFF else 0x01 in
       if negb (byte .& 0x7F =? 0)
          && ((Z.shiftr result 31 =? 0) || negb (byte =? sign_extension))
       then pb_return_error "varint overflow"
       else ret result
     else ret (result .| u32 (Z.shiftl (byte .& 0x7F) bitpos)));;
  let bitpos := u8 (bitpos + 7) in
  if negb (byte .& 0x80 =? 0) then ret (inl (bitpos, result))
  else ret (inr (bitpos, result, byte)).

Definition varint32_rest (byte : Z) : M pb_istream_t Z :=
  if byte .& 0x80 =? 0 then ret byte (* Quick case, 1 byte value *)
  else
    let* '(bitpos, result, byte) := whileM varint32_body (7, byte .& 0x7F) in
    (* The last byte was at bitpos=28, so only bottom 4 bits fit. *)
    if (bitpos =? 35) && negb (byte .& 0x70 =? 0)
    then pb_return_error "varint overflow"
    else ret result.

(** The out-parameters [*dest] ([None] with [return false]) and [*eof]. *)
Definition pb_decode_varint32_eof : M pb_istream_t (option Z * bool) :=
  r <- attempt pb_readbyte;;
  match r with
  | None => s <- get;; ret (None, bytes_left s =? 0)
  | Some byte => r <- attempt (varint32_rest byte);; ret (r, false)
  end.

Definition pb_decode_varint32 : M pb_istream_t Z :=
  r <- pb_decode_varint32_eof;;
  match r.1 with Some v => ret v | None => return_false end.

Definition varint64_body (st : Z * Z) : M pb_istream_t ((Z * Z) + Z) :=
  let '(bitpos, result) := st in
  if 64 <=? bitpos then pb_return_error "varint overflow"
  else
    byte <- pb_readbyte;;
    let result := result .| u64 (Z.shiftl (byte .& 0x7F) bitpos) in
    let bitpos := u8 (bitpos + 7) in
    if negb (byte .& 0x80 =? 0) then ret (inl (bitpos, result)) else ret (inr result).

Definition pb_decode_varint : M pb_istream_t Z := whileM varint64_body (0, 0).

(** ** Skipping *)
Definition pb_skip_varint : M pb_istream_t unit :=
  whileM (fun _ : unit =>
    bs <- pb_read false 1;;
    byte <- lift_res (the_byte bs);;
    if negb (byte .& 0x80 =? 0) then ret (inl tt) else ret (inr tt)) tt.

Definition pb_skip_string : M pb_istream_t unit :=
  length <- pb_decode_varint32;;
  pb_read true length;;
  ret tt.

(** The return value and the out-parameters of [pb_decode_tag]. *)
Record tag_result : Type := TagResult {
  tr_ok : bool;
  tr_wire_type : Z;
  tr_tag : Z;
  tr_eof : bool;
}.

Definition pb_decode_tag : M pb_istream_t tag_result :=
  let* '(temp, eof) := pb_decode_varint32_eof in
  match temp with
  | None => ret (TagResult false 0 0 eof)
  | Some temp =>
      if temp =? 0 then ret (TagResult false 0 0 true)
      else ret (TagResult true (temp .& 7) (Z.shiftr temp 3) eof)
  end.

Definition pb_skip_field (wire_type : Z) : M pb_istream_t unit :=
  if wire_type =? PB_WT_VARINT then pb_skip_varint
  else if wire_type =? PB_WT_64BIT then pb_read true 8;; ret tt
  else if wire_type =? PB_WT_STRING then pb_skip_string
  else if wire_type =? PB_WT_32BIT then pb_read true 4;; ret tt
  else pb_return_error "invalid wire_type".

(** [read_raw_value]: the value of a scalar field, at most [max_size] bytes. *)
Definition raw_varint_body (max_size : Z) (buf : list Z)
  : M pb_istream_t (list Z + list Z) :=
  if max_size <? zlength buf + 1 then return_false
  else
    bs <- pb_read false 1;;
    byte <- lift_res (the_byte bs);;
    if negb (byte .& 0x80 =? 0) then ret (inl (buf ++ [byte])) else ret (inr (buf ++ [byte])).

Definition read_raw_value (wire_type max_size : Z) : M pb_istream_t (list Z) :=
  if wire_type =? PB_WT_VARINT then whileM (raw_varint_body max_size) []
  else if wire_type =? PB_WT_64BIT then pb_read false 8
  else if wire_type =? PB_WT_32BIT then pb_read false 4
  else pb_return_error "invalid wire_type".

(** ** Substreams *)
Definition pb_make_string_substream : M pb_istream_t pb_istream_t :=
  size <- pb_decode_varint32;;
  s <- get;;
  if bytes_left s <? size then pb_return_error "parent stream too short"
  else
    modify (fun s => set_bytes_left (u64 (bytes_left s - size)) s);;
    ret (set_bytes_left size s).

Definition pb_close_string_substream (substream : pb_istream_t) : M pb_istream_t unit :=
  let* '(status, sub) := on_local substream
    (if bytes_left substream =? 0 then ret []
     else pb_read true (bytes_left substream)) in
  match status with
  | None => return_false
  | Some _ => modify (set_istate (i_state sub));; modify (set_errmsg (i_errmsg sub))
  end.

(** ** Signed and fixed-width values *)
Definition zigzag_decode (value : Z) : Z :=
  if negb (value .& 1 =? 0) then s64 (Z.lnot (Z.shiftr value 1)) else s64 (Z.shiftr value 1).

Definition pb_decode_svarint : M pb_istream_t Z :=
  value <- pb_decode_varint;;
  ret (zigzag_decode value).

(** [bytes[0] << 0 | bytes[1] << 8 | ...]. *)
Fixpoint or_bytes (bs : list Z) (shift : Z) : Z :=
  match bs with
  | [] => 0
  | [b] => Z.shiftl b shift
  | b :: bs' => Z.shiftl b shift .| or_bytes bs' (shift + 8)
  end.

Definition pb_decode_fixed32 : M pb_istream_t Z :=
  bs <- pb_read false 4;;
  ret (or_bytes bs 0).

Definition pb_decode_fixed64 : M pb_istream_t Z :=
  bs <- pb_read false 8;;
  ret (or_bytes bs 0).

(** * What a function reads *)

(** [decodes c bs a]: at the front of any buffer stream that has them, [c]
    consumes exactly the bytes [bs] and returns [a]. *)
Definition decodes {A} (c : M pb_istream_t A) (bs : list Z) (a : A) : Prop :=
  forall rest n e, zlength bs <= n < 2 ^ 64 ->
    c (IStream ICBufRead (bs ++ rest) n e) =
    Ret (Some a, IStream ICBufRead rest (n - zlength bs) e).

(** A buffer stream whose limit lies within its buffer. *)
Definition istream_ok (s : pb_istream_t) : Prop :=
  i_callback s = ICBufRead /\ bytes_ok (i_state s) /\
  0 <= bytes_left s <= zlength (i_state s) /\ bytes_left s < 2 ^ 64.

(** [s'] is [s] after [k] bytes, up to the error message. *)
Definition consumed (k : Z) (s s' : pb_istream_t) : Prop :=
  0 <= k <= bytes_left s /\ i_callback s' = i_callback s /\
  i_state s' = zdrop k (i_state s) /\ bytes_left s' = bytes_left s - k.

(** [reads c P]: on every well-formed buffer stream and whatever the bytes
    are, [c] returns, reads nothing outside the first [bytes_left] bytes, and
    a result [a] obtained from [k] bytes satisfies [P k a]. *)
Definition reads {A} (c : M pb_istream_t A) (P : Z -> A -> Prop) : Prop :=
  forall s, istream_ok s ->
    exists o s' k, c s = Ret (o, s') /\ consumed k s s' /\
                   (forall a, o = Some a -> P k a).

Lemma decodes_ret {A} (a : A) : decodes (ret a) [] a.
Proof. intros rest n e _. unfold ret. simpl. by rewrite Z.sub_0_r. Qed.

Lemma decodes_bind {A B} (c : M pb_istream_t A) (k : A -> M pb_istream_t B) a b bs1 bs2 :
  decodes c bs1 a -> decodes (k a) bs2 b -> decodes (bind c k) (bs1 ++ bs2) b.
Proof.
  intros Hc Hk rest n e Hn. rewrite zlength_app in Hn |- *.
  pose proof (zlength_nonneg bs1). pose proof (zlength_nonneg bs2).
  rewrite <- app_assoc. erewrite bind_some by (apply Hc; lia).
  rewrite Hk by lia. do 3 f_equal. lia.
Qed.

Lemma decodes_seq {A B} (c : M pb_istream_t A) (k : A -> M pb_istream_t B) a b bs1 bs2 bs :
  decodes c bs1 a -> decodes (k a) bs2 b -> bs = bs1 ++ bs2 -> decodes (bind c k) bs b.
Proof. intros ? ? ->. by eapply decodes_bind. Qed.

Lemma decodes_map {A B} (c : M pb_istream_t A) (f : A -> B) a bs :
  decodes c bs a -> decodes (bind c (fun x => ret (f x))) bs (f a).
Proof. intros H. eapply decodes_seq; [exact H|apply decodes_ret|by rewrite app_nil_r]. Qed.

Lemma consumed_refl s : 0 <= bytes_left s -> consumed 0 s s.
Proof. intros. split_and!; try done; lia. Qed.

Lemma consumed_trans j k s1 s2 s3 :
  consumed j s1 s2 -> consumed k s2 s3 -> consumed (j + k) s1 s3.
Proof.
  intros (? & Hc1 & Hs1 & Hb1) (? & Hc2 & Hs2 & Hb2). split_and!; try lia; [congruence|].
  rewrite Hs2, Hs1. unfold zdrop. rewrite drop_drop. f_equal. lia.
Qed.

Lemma consumed_ok k s s' : istream_ok s -> consumed k s s' -> istream_ok s'.
Proof.
  intros (Hc & Hok & Hb & Hb2) (Hk & Hc' & Hs & Hl). split_and!; try lia; [congruence| |].
  - rewrite Hs. unfold zdrop. by apply Forall_drop.
  - rewrite Hs, zlength_zdrop by lia. lia.
Qed.

Lemma consumed_error k s s' msg : consumed k s s' -> consumed k s (pb_set_error msg s').
Proof. done. Qed.

Lemma reads_bind {A B} (c : M pb_istream_t A) (f : A -> M pb_istream_t B) P Q :
  reads c P -> (forall j a, P j a -> reads (f a) (fun k b => Q (j + k) b)) ->
  reads (bind c f) Q.
Proof.
  intros Hc Hf s Hs. destruct (Hc s Hs) as ([a|] & s1 & j & E & Hj & HP).
  - destruct (Hf j a (HP a eq_refl) s1 (consumed_ok _ _ _ Hs Hj)) as (o & s2 & k & E2 & Hk & HQ).
    exists o, s2, (j + k). split_and!; [by rewrite (bind_some _ _ _ _ _ E)| |done].
    by eapply consumed_trans.
  - exists None, s1, j. split_and!; [by apply bind_false|done|done].
Qed.

Lemma reads_ret {A} (a : A) (P : Z -> A -> Prop) : P 0 a -> reads (ret a) P.
Proof.
  intros HP s Hs. exists (Some a), s, 0. split_and!; [done|apply consumed_refl|by intros ? [= <-]].
  destruct Hs as (_ & _ & ? & _). lia.
Qed.

Lemma reads_error {A} msg (P : Z -> A -> Prop) : reads (pb_return_error msg) P.
Proof.
  intros s Hs. exists None, (pb_set_error msg s), 0. split_and!; [done| |done].
  apply consumed_error, consumed_refl. destruct Hs as (_ & _ & ? & _). lia.
Qed.

Lemma reads_weaken {A} (c : M pb_istream_t A) (P Q : Z -> A -> Prop) :
  reads c P -> (forall k a, 0 <= k -> P k a -> Q k a) -> reads c Q.
Proof.
  intros Hc HPQ s Hs. destruct (Hc s Hs) as (o & s' & k & E & Hk & HP).
  exists o, s', k. split_and!; [done|done|]. intros a ->. apply HPQ; [apply Hk|auto].
Qed.

Lemma reads_if {A} (b : bool) (c1 c2 : M pb_istream_t A) P :
  reads c1 P -> reads c2 P -> reads (if b then c1 else c2) P.
Proof. by destruct b. Qed.

Lemma reads_attempt {A} (c : M pb_istream_t A) P :
  reads c P -> reads (attempt c) (fun k o => forall a, o = Some a -> P k a).
Proof.
  intros Hc s Hs. destruct (Hc s Hs) as (o & s' & k & E & Hk & HP).
  exists (Some o), s', k. unfold attempt. rewrite E. split_and!; [done|done|].
  by intros o' [= <-].
Qed.

(** A loop that reads at least a byte per iteration ends before the stream
    does. *)
Lemma reads_whileM {X A} (body : X -> M pb_istream_t (X + A)) (I : Z -> X -> Prop)
    (P : Z -> A -> Prop) x :
  (forall j x, 0 <= j -> I j x ->
    reads (body x) (fun k r =>
      match r with inl x' => 1 <= k /\ I (j + k) x' | inr a => P (j + k) a end)) ->
  I 0 x -> reads (whileM body x) P.
Proof.
  intros Hbody HI s Hs.
  apply (whileM_ind body (fun x t => exists j, consumed j s t /\ I j x) (fun _ t => bytes_left t)).
  - intros y t (j & Hj & Hy). pose proof (consumed_ok _ _ _ Hs Hj) as Ht.
    destruct (Hbody j y ltac:(apply Hj) Hy t Ht) as ([[y'|a]|] & t' & k & -> & Hk & HP).
    + destruct (HP _ eq_refl) as [Hk1 HI']. split.
      * exists (j + k). split; [by eapply consumed_trans|done].
      * destruct Hj as (? & _ & _ & ?), Hk as (? & _ & _ & ?). lia.
    + exists (Some a), t', (j + k). split_and!; [done|by eapply consumed_trans|].
      intros a' [= <-]. by apply (HP (inr a)).
    + exists None, t', (j + k). split_and!; [done|by eapply consumed_trans|done].
  - exists 0. split; [|done]. apply consumed_refl. destruct Hs as (_ & _ & ? & _). lia.
  - destruct Hs as (_ & _ & ? & ?). lia.
Qed.

Lemma decodes_attempt {A} (c : M pb_istream_t A) bs a :
  decodes c bs a -> decodes (attempt c) bs (Some a).
Proof. intros Hc rest n e Hn. unfold attempt. by rewrite Hc. Qed.

(** ** Reading bytes *)
Lemma pb_readbyte_cons b l n e :
  0 < n < 2 ^ 64 ->
  pb_readbyte (IStream ICBufRead (b :: l) n e) = Ret (Some b, IStream ICBufRead l (n - 1) e).
Proof.
  intros Hn. unfold pb_readbyte. rewrite bind_get. simpl.
  rewrite (proj2 (Z.eqb_neq _ _)) by lia.
  unfold bind, attempt, call_icallback, buf_read. simpl.
  rewrite (proj2 (Z.leb_le _ _)) by (unfold zlength; simpl; lia). simpl.
  unfold modify, set_bytes_left, lift_res. simpl. rewrite wrap_small by lia. done.
Qed.

Lemma pb_readbyte_reads : reads pb_readbyte (fun k b => k = 1 /\ is_byte b).
Proof.
  intros s (Hc & Hok & Hb & Hb2). destruct s as [cb [|b l] n e]; simpl in *; subst cb.
  - unfold zlength in Hb. simpl in Hb. assert (n = 0) as -> by lia.
    eexists None, _, 0. split_and!; [reflexivity| |done]. by apply consumed_error, consumed_refl.
  - destruct (decide (n = 0)) as [->|Hn].
    + eexists None, _, 0. split_and!; [reflexivity| |done]. by apply consumed_error, consumed_refl.
    + rewrite pb_readbyte_cons by lia. eexists (Some b), _, 1. split_and!; [done| |].
      * split_and!; simpl; try done; lia.
      * intros ? [= <-]. inversion Hok; subst. auto.
Qed.

Lemma pb_read_buf_cases n s :
  i_callback s = ICBufRead -> 0 <= n -> Z.min n (bytes_left s) <= zlength (i_state s) ->
  bytes_left s < 2 ^ 64 ->
  pb_read_buf n s =
    if bytes_left s <? n then Ret (None, pb_set_error "end-of-stream" s)
    else Ret (Some (ztake n (i_state s)),
              IStream ICBufRead (zdrop n (i_state s)) (bytes_left s - n) (i_errmsg s)).
Proof.
  destruct s as [cb l m e]. simpl. intros -> Hn Hm Hm2. unfold pb_read_buf. rewrite bind_get. simpl.
  destruct (Z.ltb_spec m n); [done|].
  unfold bind, attempt, call_icallback, buf_read. simpl.
  rewrite (proj2 (Z.leb_le _ _)) by lia. simpl. unfold modify, set_bytes_left. simpl.
  by rewrite wrap_small by lia.
Qed.

Lemma pb_read_buffer null n s :
  is_buf_read s = true -> pb_read null n s = pb_read_buf n s.
Proof. intros Hs. unfold pb_read. rewrite bind_get, Hs, andb_false_r. done. Qed.

Lemma pb_read_decodes null bs n : n = zlength bs -> decodes (pb_read null n) bs bs.
Proof.
  intros -> rest m e Hm. pose proof (zlength_nonneg bs).
  pose proof (zlength_nonneg rest).
  rewrite pb_read_buffer by done.
  rewrite pb_read_buf_cases by (simpl; rewrite ?zlength_app; done || lia). simpl.
  rewrite (proj2 (Z.ltb_ge _ _)) by lia. by rewrite ztake_app, zdrop_app.
Qed.

Lemma pb_read_reads null n :
  0 <= n -> reads (pb_read null n) (fun k bs => k = n /\ zlength bs = n /\ bytes_ok bs).
Proof.
  intros Hn s (Hc & Hok & Hb & Hb2).
  rewrite pb_read_buffer by (unfold is_buf_read; by rewrite Hc).
  rewrite pb_read_buf_cases by (done || lia). destruct (Z.ltb_spec (bytes_left s) n).
  - eexists None, _, 0. split_and!; [done| |done]. apply consumed_error, consumed_refl. lia.
  - eexists (Some _), _, n. split_and!; [done| |].
    + split_and!; simpl; try done; lia.
    + intros bs [= <-]. split_and!; [done|apply zlength_ztake; lia|]. by apply Forall_take.
Qed.

(** ** Varints *)
Lemma varint64_loop n v bitpos result rest m e :
  0 <= v < 128 ^ Z.of_nat n -> 0 <= bitpos < 64 -> 0 <= result < 2 ^ bitpos ->
  v * 2 ^ bitpos < 2 ^ 64 -> (0 < n)%nat ->
  zlength (varint_digits n v) <= m < 2 ^ 64 ->
  exists k,
    runs (while_body varint64_body)
      ((bitpos, result), IStream ICBufRead (varint_digits n v ++ rest) m e) k
      (Ret (Some (result + v * 2 ^ bitpos),
            IStream ICBufRead rest (m - zlength (varint_digits n v)) e)) /\
    k <= Z.of_nat n.
Proof.
  revert v bitpos result m. induction n as [|n IH]; intros v bitpos result m Hv Hp Hr Hvp Hn Hm;
    [lia|].
  assert (0 < 2 ^ bitpos) by (apply Z.pow_pos_nonneg; lia).
  set (b := if v <? 128 then v else v mod 128 + 128).
  set (l := if v <? 128 then [] else varint_digits n (v / 128)).
  assert (varint_digits (S n) v = b :: l) as El by (unfold b, l; simpl; by destruct (v <? 128)).
  assert (is_byte b /\ b mod 128 = v mod 128 /\ (b <? 128) = (v <? 128)) as (Hb & Hmod & Hlt).
  { pose proof (Z.mod_pos_bound v 128). unfold b, is_byte. destruct (Z.ltb_spec v 128).
    - split_and!; try lia; by apply Z.ltb_lt.
    - assert ((v mod 128 + 128) mod 128 = v mod 128).
      { replace (v mod 128 + 128) with (v mod 128 + 1 * 128) by lia.
        by rewrite Z.mod_add, Z.mod_mod by lia. }
      split_and!; try lia; by apply Z.ltb_ge; lia. }
  assert ((v < 128 -> l = []) /\ (128 <= v -> l = varint_digits n (v / 128))) as [Hl1 Hl2].
  { unfold l. by destruct (Z.ltb_spec v 128); split; intros; try lia. }
  clearbody b l. rewrite El in *. rewrite zlength_cons in *.
  pose proof (zlength_nonneg l).
  assert (v mod 128 * 2 ^ bitpos <= v * 2 ^ bitpos) as Hle.
  { apply Z.mul_le_mono_nonneg_r; [lia|]. apply Z.mod_le; lia. }
  assert (0 <= v mod 128 * 2 ^ bitpos) by (pose proof (Z.mod_pos_bound v 128); nia).
  assert (varint64_body (bitpos, result) (IStream ICBufRead ((b :: l) ++ rest) m e) =
    Ret (Some (if v <? 128 then inr (result + v mod 128 * 2 ^ bitpos)
               else inl (bitpos + 7, result + v mod 128 * 2 ^ bitpos)),
         IStream ICBufRead (l ++ rest) (m - 1) e)) as Eb.
  { unfold varint64_body. rewrite (proj2 (Z.leb_gt _ _)) by lia. cbn [app].
    erewrite bind_some by (apply pb_readbyte_cons; lia).
    rewrite land_0x7F, land_0x80, Hmod, Hlt by done.
    rewrite (wrap_small 64) by (rewrite Z.shiftl_mul_pow2 by lia; lia).
    rewrite (wrap_small 8), lor_shiftl_add by lia. by destruct (v <? 128). }
  destruct (Z.ltb_spec v 128) as [Hsmall|Hbig].
  - exists 1. split; [|lia]. rewrite Z.mod_small in Eb by lia.
    rewrite Hl1 in * by done. change (zlength []) with 0. rewrite Z.add_0_r.
    apply runs_stop. unfold while_body. cbn [fst snd]. rewrite Eb. done.
  - rewrite Hl2 in * by lia. assert (1 <= v / 128) by (apply Z.div_le_lower_bound; lia).
    pose proof (Z.div_mod v 128 ltac:(lia)) as Edm.
    assert (2 ^ (bitpos + 7) = 128 * 2 ^ bitpos) as Epow by (rewrite Z.pow_add_r by lia; lia).
    assert (v / 128 * 2 ^ (bitpos + 7) <= v * 2 ^ bitpos) as Hle2.
    { rewrite Epow, Z.mul_assoc. apply Z.mul_le_mono_nonneg_r; lia. }
    assert (bitpos + 7 < 64).
    { apply (Z.pow_lt_mono_r_iff 2); [lia|lia|]. nia. }
    destruct (IH (v / 128) (bitpos + 7) (result + v mod 128 * 2 ^ bitpos) (m - 1)) as (k & Hk & Hkn);
      try lia.
    + split; [lia|]. apply Z.div_lt_upper_bound; [lia|].
      rewrite Nat2Z.inj_succ, Z.pow_succ_r in Hv by lia. lia.
    + pose proof (Z.mod_pos_bound v 128). rewrite Epow. nia.
    + destruct n; [|lia]. simpl in Hv. lia.
    + exists (1 + k). split; [|lia]. eapply runs_step.
      * unfold while_body. cbn [fst snd]. rewrite Eb. reflexivity.
      * replace (result + v * 2 ^ bitpos)
          with (result + v mod 128 * 2 ^ bitpos + v / 128 * 2 ^ (bitpos + 7))
          by (rewrite Epow; nia).
        by rewrite Z.sub_add_distr.
Qed.

Lemma pb_decode_varint_decodes v :
  0 <= v < 2 ^ 64 -> decodes pb_decode_varint (varint_bytes v) v.
Proof.
  intros Hv rest m e Hm. unfold varint_bytes in *.
  destruct (varint64_loop 10 v 0 0 rest m e) as (k & Hr & Hk);
    [change (128 ^ Z.of_nat 10) with (2 ^ 70); lia|lia|simpl; lia|simpl; lia|lia|lia|].
  - unfold pb_decode_varint. rewrite (runs_while_body _ _ _ _ _ _ Hr) by lia.
    do 3 f_equal. lia.
Qed.
