(* ===== verification/Storage.v ===== *)
(** * Initialising and releasing message structures (pb_decode.c)

    These functions work on the memory only. *)
From S2P Require Import Prelude Memory Descriptor Iter.

(** Loads and stores on the memory as the state. *)
Definition mload (n : nat) (a : Z) : M mem Z := m <- get;; need (load_u n m a).
Definition mstore (n : nat) (a v : Z) : M mem unit :=
  m <- get;; m' <- need (store_u n m a v);; put m'.
Definition mstore_bytes (a : Z) (bs : list Z) : M mem unit :=
  m <- get;; m' <- need (store_bytes m a bs);; put m'.
Definition mmemset0 (a n : Z) : M mem unit :=
  m <- get;; m' <- need (memset0 m a n);; put m'.
Definition mfree (p : Z) : M mem unit := m <- get;; m' <- need (pb_free m p);; put m'.

(** The address [pSize] holds; the local variable has none here. *)
Definition size_addr (r : size_ref) : res Z :=
  match r with AtAddr a => Ret a | AtLocal => UB end.

(** [pSize != pData]. *)
Definition has_size_field (it : pb_field_iter_t) : bool :=
  negb (bool_decide (pSize it = AtAddr (pData it))).

Section storage.
Context `{Tables}.

(** [(const pb_field_t* )field->ptr], dereferenced. *)
Definition submsg_fields (f : pb_field_t) : res (list pb_field_t) :=
  match ptr f with PFields t => of_option (fields_of t) | _ => UB end.

Definition iter_from_extension (m : mem) (extension : Z) : res pb_field_iter_t :=
  res_bind (of_option (ext_type m extension)) (fun t =>
  res_bind (of_option (ext_types t)) (fun et =>
  res_bind (of_option (ext_dest m extension)) (fun dest =>
  let field := et_arg et in
  res_bind (pb_field_iter_begin [field] dest) (fun r =>
  let data := if PB_ATYPE (type field) =? PB_ATYPE_POINTER
              then ext_dest_addr extension else dest in
  Ret (FieldIter (start r.2) (pos r.2) (required_field_index r.2) (dest_struct r.2)
         data (AtAddr (ext_found_addr extension))))))).

Definition miter_from_extension (extension : Z) : M mem pb_field_iter_t :=
  m <- get;; lift_res (iter_from_extension m extension).

(** Walk the linked list of extensions: [while (ext != NULL) { ...; ext = ext->next; }]. *)
Definition each_extension (body : Z -> M mem unit) (first : Z) : M mem unit :=
  whileM (fun ext =>
    if ext =? 0 then ret (inr tt)
    else body ext;; next <- mload 8 (ext + 16);; ret (inl next)) first.

(** Every field of a message: [iter_begin], then [do ... while (iter_next)]. *)
Definition each_field (body : pb_field_iter_t -> M mem unit) (fields : list pb_field_t)
  (dest : Z) : M mem unit :=
  let* '(nonempty, iter) := lift_res (pb_field_iter_begin fields dest) in
  if negb nonempty then ret tt else iter_each body iter.

(** ** Default values *)

(** [pb_field_set_to_default], for the recursive calls on the fields of a
    submessage and on an extension given as [set_field]. *)
Definition field_set_to_default (set_field : pb_field_iter_t -> M mem unit)
  (it : pb_field_iter_t) : M mem unit :=
  f <- lift_res (cur it);;
  let atype := PB_ATYPE (type f) in
  let htype := PB_HTYPE (type f) in
  let ltype := PB_LTYPE (type f) in
  if ltype =? PB_LTYPE_EXTENSION then
    ext <- mload 8 (pData it);;
    each_extension (fun ext =>
      mstore 1 (ext_found_addr ext) 0;;
      ext_iter <- miter_from_extension ext;;
      set_field ext_iter) ext
  else if atype =? PB_ATYPE_STATIC then
    init_data <-
      (if (htype =? PB_HTYPE_OPTIONAL) && has_size_field it then
         a <- lift_res (size_addr (pSize it));; mstore 1 a 0;; ret true
       else if (htype =? PB_HTYPE_REPEATED) || (htype =? PB_HTYPE_ONEOF) then
         a <- lift_res (size_addr (pSize it));; mstore 4 a 0;; ret false
       else ret true);;
    if init_data : bool then
      if ltype =? PB_LTYPE_SUBMESSAGE then
        fields <- lift_res (submsg_fields f);; each_field set_field fields (pData it)
      else
        match ptr f with
        | PNull => mmemset0 (pData it) (data_size f)
        | PDefault bs =>
            if data_size f <=? zlength bs then mstore_bytes (pData it) (ztake (data_size f) bs)
            else undefined
        | PFields _ => undefined
        end
    else ret tt
  else if atype =? PB_ATYPE_POINTER then
    mstore 8 (pData it) 0;;
    if (htype =? PB_HTYPE_REPEATED) || (htype =? PB_HTYPE_ONEOF) then
      a <- lift_res (size_addr (pSize it));; mstore 4 a 0
    else ret tt
  else ret tt (* Don't overwrite callback *).

Fixpoint pb_field_set_to_default (fuel : nat) (it : pb_field_iter_t) : M mem unit :=
  match fuel with
  | O => no_fuel
  | S fuel' => field_set_to_default (pb_field_set_to_default fuel') it
  end.

Definition pb_message_set_to_defaults (fuel : nat) (fields : list pb_field_t) (dest : Z)
  : M mem unit :=
  each_field (pb_field_set_to_default fuel) fields dest.

(** ** Releasing *)

(** [while (count--) { pb_free( *pItem); *pItem++ = NULL; }]. *)
Definition release_entries (item : Z) (count : nat) : M mem unit :=
  for_loop count (fun item =>
    p <- mload 8 item;; mfree p;; mstore 8 item 0;; ret (item + 8)) item;;
  ret tt.

(** The number of submessages a field holds. *)
Definition submsg_count (f : pb_field_t) (it : pb_field_iter_t) : M mem Z :=
  let static := PB_ATYPE (type f) =? PB_ATYPE_STATIC in
  if PB_HTYPE (type f) =? PB_HTYPE_REPEATED then
    count <- (if static && negb (has_size_field it) then ret (array_size f)
              else a <- lift_res (size_addr (pSize it));; mload 4 a);;
    if static && (array_size f <? count)
    then ret (array_size f) (* Protect against corrupted _count fields *)
    else ret count
  else ret 1.

(** [pb_release]: every field of the message, unless the pointer is null. *)
Definition release_with (release_field : pb_field_iter_t -> M mem unit)
  (fields : list pb_field_t) (dest : Z) : M mem unit :=
  if dest =? 0 then ret tt else each_field release_field fields dest.

(** The part of [pb_release_single_field] for what the field contains. *)
Definition release_contents (release_field : pb_field_iter_t -> M mem unit)
  (f : pb_field_t) (it : pb_field_iter_t) : M mem unit :=
  if PB_LTYPE (type f) =? PB_LTYPE_EXTENSION then
    ext <- mload 8 (pData it);;
    each_extension (fun ext =>
      ext_iter <- miter_from_extension ext;; release_field ext_iter) ext
  else if PB_LTYPE (type f) =? PB_LTYPE_SUBMESSAGE then
    item <- (if PB_ATYPE (type f) =? PB_ATYPE_POINTER then mload 8 (pData it)
             else ret (pData it));;
    count <- submsg_count f it;;
    if negb (item =? 0) then
      for_loop (Z.to_nat count) (fun item =>
        fields <- lift_res (submsg_fields f);;
        release_with release_field fields item;;
        ret (item + data_size f)) item;;
      ret tt
    else ret tt
  else ret tt.

(** The part for the allocation of a pointer field itself. *)
Definition release_pointer (f : pb_field_t) (it : pb_field_iter_t) : M mem unit :=
  if PB_ATYPE (type f) =? PB_ATYPE_POINTER then
    (if (PB_HTYPE (type f) =? PB_HTYPE_REPEATED)
        && ((PB_LTYPE (type f) =? PB_LTYPE_STRING) || (PB_LTYPE (type f) =? PB_LTYPE_BYTES))
     then
       item <- mload 8 (pData it);;
       a <- lift_res (size_addr (pSize it));;
       count <- mload 4 a;;
       release_entries item (Z.to_nat count)
     else ret tt);;
    (if PB_HTYPE (type f) =? PB_HTYPE_REPEATED
     then a <- lift_res (size_addr (pSize it));; mstore 4 a 0
     else ret tt);;
    p <- mload 8 (pData it);;
    mfree p;;
    mstore 8 (pData it) 0
  else ret tt.

Definition release_single_field (release_field : pb_field_iter_t -> M mem unit)
  (it : pb_field_iter_t) : M mem unit :=
  f <- lift_res (cur it);;
  current <- (if PB_HTYPE (type f) =? PB_HTYPE_ONEOF then
                a <- lift_res (size_addr (pSize it));;
                which <- mload 4 a;; ret (which =? tag f)
              else ret true);;
  if current : bool then
    release_contents release_field f it;;
    release_pointer f it
  else ret tt (* This is not the current field in the union *).

Fixpoint pb_release_single_field (fuel : nat) (it : pb_field_iter_t) : M mem unit :=
  match fuel with
  | O => no_fuel
  | S fuel' => release_single_field (pb_release_single_field fuel') it
  end.

Definition pb_release (fuel : nat) (fields : list pb_field_t) (dest : Z) : M mem unit :=
  release_with (pb_release_single_field fuel) fields dest.
End storage.
