(* ===== verification/DecodeFields.v ===== *)
(** * The field decoders and the allocation of fields (pb_decode.c) *)
From S2P Require Import Prelude Memory Descriptor Iter IStream Storage.

(** The state of the decoder: the current stream, the memory, and the local
    variable [fixed_count_size] of the innermost [pb_decode_noinit]. *)
Record dstate : Type := DState {
  stream : pb_istream_t;
  memory : mem;
  fixed_count_size : Z;
}.

#[export] Instance dstate_errmsg : HasErrmsg dstate := {|
  errmsg_of d := i_errmsg (stream d);
  set_errmsg e d := DState (set_errmsg e (stream d)) (memory d) (fixed_count_size d);
|}.

Definition on_stream {A} (c : M pb_istream_t A) : M dstate A := fun d =>
  match c (stream d) with
  | Ret (o, s) => Ret (o, DState s (memory d) (fixed_count_size d))
  | UB => UB
  | NoFuel => NoFuel
  end.

Definition on_memory {A} (c : M mem A) : M dstate A := fun d =>
  match c (memory d) with
  | Ret (o, m) => Ret (o, DState (stream d) m (fixed_count_size d))
  | UB => UB
  | NoFuel => NoFuel
  end.

(** Run [c] with the local stream [sub] in place of the current one. *)
Definition with_substream {A} (sub : pb_istream_t) (c : M dstate A)
  : M dstate (option A * pb_istream_t) := fun d =>
  match c (DState sub (memory d) (fixed_count_size d)) with
  | Ret (o, d') => Ret (Some (o, stream d'), DState (stream d) (memory d') (fixed_count_size d'))
  | UB => UB
  | NoFuel => NoFuel
  end.

Definition get_bytes_left : M dstate Z := fun d => Ret (Some (bytes_left (stream d)), d).
Definition set_fixed_count (n : Z) : M dstate unit := fun d =>
  Ret (Some tt, DState (stream d) (memory d) n).

(** [*(pb_size_t* )pSize]. *)
Definition read_size (r : size_ref) : M dstate Z :=
  match r with
  | AtAddr a => on_memory (mload 4 a)
  | AtLocal => fun d => Ret (Some (fixed_count_size d), d)
  end.
Definition write_size (r : size_ref) (v : Z) : M dstate unit :=
  match r with
  | AtAddr a => on_memory (mstore 4 a v)
  | AtLocal => set_fixed_count (u32 v)
  end.

(** [pb_read(stream, (pb_byte_t* )dest, count)]. *)
Definition read_into (dest count : Z) : M dstate unit :=
  bs <- on_stream (pb_read false count);; on_memory (mstore_bytes dest bs).

(** [pb_decoder_t]: the field and the address of the data. *)
Abbreviation pb_decoder_t := (pb_field_t -> Z -> M dstate unit).
(** [pb_decode] and [pb_decode_noinit], as the other functions call them. *)
Abbreviation decode_fun := (list pb_field_t -> Z -> M dstate unit).

(** ** Scalar fields *)

(** [clamped = *(intN_t* )dest = (intN_t)value], [N] from [data_size]. *)
Definition store_clamped (conv : Z -> Z -> Z) (field : pb_field_t) (dest value : Z)
  : M dstate Z :=
  let store n :=
    let clamped := conv (8 * Z.of_nat n) value in
    on_memory (mstore n dest clamped);; ret clamped in
  if data_size field =? 8 then store 8%nat
  else if data_size field =? 4 then store 4%nat
  else if data_size field =? 2 then store 2%nat
  else if data_size field =? 1 then store 1%nat
  else pb_return_error "invalid data_size".

Definition pb_dec_varint : pb_decoder_t := fun field dest =>
  value <- on_stream pb_decode_varint;;
  (* <=32 bit fields are cast to int32_t first to get the sign correct *)
  let svalue := if data_size field =? 8 then s64 value else s32 value in
  clamped <- store_clamped sext field dest svalue;;
  if negb (clamped =? svalue) then pb_return_error "integer too large" else ret tt.

Definition pb_dec_uvarint : pb_decoder_t := fun field dest =>
  value <- on_stream pb_decode_varint;;
  clamped <- store_clamped wrap field dest value;;
  if negb (clamped =? value) then pb_return_error "integer too large" else ret tt.

Definition pb_dec_svarint : pb_decoder_t := fun field dest =>
  value <- on_stream pb_decode_svarint;;
  clamped <- store_clamped sext field dest value;;
  if negb (clamped =? value) then pb_return_error "integer too large" else ret tt.

Definition pb_dec_fixed32 : pb_decoder_t := fun field dest =>
  v <- on_stream pb_decode_fixed32;; on_memory (mstore 4 dest v).

Definition pb_dec_fixed64 : pb_decoder_t := fun field dest =>
  v <- on_stream pb_decode_fixed64;; on_memory (mstore 8 dest v).

(** [pb_dec_fixed_length_bytes]. *)
Definition pb_dec_fixed_length_bytes : pb_decoder_t := fun field dest =>
  size <- on_stream pb_decode_varint32;;
  if PB_SIZE_MAX <? size then pb_return_error "bytes overflow"
  else if size =? 0 then on_memory (mmemset0 dest (data_size field))
  else if negb (size =? data_size field)
  then pb_return_error "incorrect fixed length bytes size"
  else read_into dest (data_size field).

(** ** Dynamic allocation *)
Section allocation.
Context `{Allocator}.

(** The size test of [allocate_field]: does [data_size * array_size] fit? *)
Definition size_too_large (data_size array_size : Z) : bool :=
  let check_limit := 2 ^ 32 in
  ((check_limit <=? data_size) || (check_limit <=? array_size))
  && (u64 (-1) / array_size <? data_size).

Definition allocate_field (pdata data_size array_size : Z) : M dstate unit :=
  old <- on_memory (mload 8 pdata);;
  if (data_size =? 0) || (array_size =? 0) then pb_return_error "invalid size"
  else if size_too_large data_size array_size then pb_return_error "size too large"
  else
    p <- on_memory (fun m =>
      match pb_realloc m old (u64 (array_size * data_size)) with
      | Ret (p, m') => Ret (Some p, m')
      | UB => UB
      | NoFuel => NoFuel
      end);;
    if p =? 0 then pb_return_error "realloc failed"
    else on_memory (mstore 8 pdata p).

(** ** Bytes and strings *)
Definition pb_dec_bytes : pb_decoder_t := fun field dest =>
  size <- on_stream pb_decode_varint32;;
  if PB_SIZE_MAX <? size then pb_return_error "bytes overflow"
  else
    let alloc_size := PB_BYTES_ARRAY_T_ALLOCSIZE size in
    if alloc_size <? size then pb_return_error "size too large"
    else
      bdest <-
        (if PB_ATYPE (type field) =? PB_ATYPE_POINTER then
           allocate_field dest alloc_size 1;; on_memory (mload 8 dest)
         else if data_size field <? alloc_size then pb_return_error "bytes overflow"
         else ret dest);;
      on_memory (mstore 4 bdest size);;
      read_into (bdest + 4) size.

Definition pb_dec_string : pb_decoder_t := fun field dest =>
  size <- on_stream pb_decode_varint32;;
  let alloc_size := u32 (size + 1) in (* Space for null terminator *)
  if alloc_size <? size then pb_return_error "size too large"
  else
    dest <-
      (if PB_ATYPE (type field) =? PB_ATYPE_POINTER then
         allocate_field dest alloc_size 1;; on_memory (mload 8 dest)
       else if data_size field <? alloc_size then pb_return_error "string overflow"
       else ret dest);;
    status <- attempt (read_into dest size);;
    on_memory (mstore 1 (dest + size) 0);;
    match status with Some _ => ret tt | None => return_false end.
End allocation.

(** ** Submessages *)
Section submessages.
Context `{Tables}.

Definition pb_dec_submessage (decode decode_noinit : decode_fun) : pb_decoder_t :=
  fun field dest =>
  substream <- on_stream pb_make_string_substream;;
  match ptr field with
  | PNull => pb_return_error "invalid field descriptor"
  | PDefault _ => undefined
  | PFields t =>
      fields <- need (fields_of t);;
      let* '(status, substream) := with_substream substream
        (if PB_HTYPE (type field) =? PB_HTYPE_REPEATED
         then decode fields dest else decode_noinit fields dest) in
      on_stream (pb_close_string_substream substream);;
      match status with Some _ => ret tt | None => return_false end
  end.

Context `{Allocator}.

(** The table of decoders; [UB] beyond its end, [None] for the null entry. *)
Definition PB_DECODERS (decode decode_noinit : decode_fun) (ltype : Z)
  : res (option pb_decoder_t) :=
  if ltype =? PB_LTYPE_VARINT then Ret (Some pb_dec_varint)
  else if ltype =? PB_LTYPE_UVARINT then Ret (Some pb_dec_uvarint)
  else if ltype =? PB_LTYPE_SVARINT then Ret (Some pb_dec_svarint)
  else if ltype =? PB_LTYPE_FIXED32 then Ret (Some pb_dec_fixed32)
  else if ltype =? PB_LTYPE_FIXED64 then Ret (Some pb_dec_fixed64)
  else if ltype =? PB_LTYPE_BYTES then Ret (Some pb_dec_bytes)
  else if ltype =? PB_LTYPE_STRING then Ret (Some pb_dec_string)
  else if ltype =? PB_LTYPE_SUBMESSAGE then Ret (Some (pb_dec_submessage decode decode_noinit))
  else if ltype =? PB_LTYPE_EXTENSION then Ret None
  else if ltype =? PB_LTYPE_FIXED_LENGTH_BYTES then Ret (Some pb_dec_fixed_length_bytes)
  else UB.
End submessages.

Definition call_decoder (func : option pb_decoder_t) : pb_decoder_t := fun field dest =>
  match func with Some f => f field dest | None => undefined end.
