(* ===== verification/Decode.v ===== *)
(** * The message decoder (pb_decode.c)

    As in the encoder the recursion is opened: [decode] and [decode_noinit]
    stand for [pb_decode] and [pb_decode_noinit] on submessages. *)
From S2P Require Import Prelude Memory Descriptor Iter IStream Storage DecodeFields.

(** User code reached through function pointers. *)
Class DecodeCallbacks := {
  field_decode_cb : Z -> pb_field_t -> Z -> M dstate unit;
  ext_decode_cb : Z -> Z -> Z -> Z -> M dstate unit;
}.

Section decoder.
Context `{Tables} `{Allocator} `{DecodeCallbacks}.

Section fields.
Variable fuel : nat.
Variables decode decode_noinit : decode_fun.

Definition is_packable (f : pb_field_t) : bool := PB_LTYPE (type f) <=? PB_LTYPE_LAST_PACKABLE.

(** ** Static fields *)

(** [while (substream.bytes_left > 0 && *size < array_size)]: the result is
    [status]. *)
Definition packed_body (func : option pb_decoder_t) (f : pb_field_t)
  (it : pb_field_iter_t) (sub : pb_istream_t)
  : M dstate (pb_istream_t + (bool * pb_istream_t)) :=
  size <- read_size (pSize it);;
  if (0 <? bytes_left sub) && (size <? array_size f) then
    let item := pData it + u32 (data_size f * size) in
    let* '(ok, sub) := with_substream sub (call_decoder func f item) in
    match ok with
    | None => ret (inr (false, sub))
    | Some _ =>
        size <- read_size (pSize it);;
        write_size (pSize it) (size + 1);;
        ret (inl sub)
    end
  else ret (inr (true, sub)).

Definition decode_static_field (wire_type : Z) (it : pb_field_iter_t) : M dstate unit :=
  f <- lift_res (cur it);;
  func <- lift_res (PB_DECODERS decode decode_noinit (PB_LTYPE (type f)));;
  let htype := PB_HTYPE (type f) in
  if htype =? PB_HTYPE_REQUIRED then call_decoder func f (pData it)
  else if htype =? PB_HTYPE_OPTIONAL then
    (if has_size_field it
     then a <- lift_res (size_addr (pSize it));; on_memory (mstore 1 a 1)
     else ret tt);;
    call_decoder func f (pData it)
  else if htype =? PB_HTYPE_REPEATED then
    if (wire_type =? PB_WT_STRING) && is_packable f then
      (* Packed array *)
      substream <- on_stream pb_make_string_substream;;
      let* '(status, substream) := whileM (packed_body func f it) substream in
      if negb (bytes_left substream =? 0) then pb_return_error "array overflow"
      else
        on_stream (pb_close_string_substream substream);;
        if status : bool then ret tt else return_false
    else
      (* Repeated field *)
      size <- read_size (pSize it);;
      let item := pData it + u32 (data_size f * size) in
      write_size (pSize it) (size + 1);;
      if array_size f <=? size then pb_return_error "array overflow"
      else call_decoder func f item
  else if htype =? PB_HTYPE_ONEOF then
    write_size (pSize it) (tag f);;
    (if PB_LTYPE (type f) =? PB_LTYPE_SUBMESSAGE then
       (* memset to zero so that any callbacks are set to NULL, then set defaults *)
       on_memory (mmemset0 (pData it) (data_size f));;
       fields <- lift_res (submsg_fields f);;
       on_memory (pb_message_set_to_defaults fuel fields (pData it))
     else ret tt);;
    call_decoder func f (pData it)
  else pb_return_error "invalid field type".

(** ** Pointer fields *)
Definition initialize_pointer_field (f : pb_field_t) (item : Z) : M dstate unit :=
  if (PB_LTYPE (type f) =? PB_LTYPE_STRING) || (PB_LTYPE (type f) =? PB_LTYPE_BYTES)
  then on_memory (mstore 8 item 0)
  else if PB_LTYPE (type f) =? PB_LTYPE_SUBMESSAGE then
    on_memory (mmemset0 item (data_size f));;
    fields <- lift_res (submsg_fields f);;
    on_memory (pb_message_set_to_defaults fuel fields item)
  else ret tt.

(** One iteration over a packed array of a pointer field; the loop state
    is [allocated_size] and the substream. *)
Definition packed_pointer_body (func : option pb_decoder_t) (f : pb_field_t)
  (it : pb_field_iter_t) (st : Z * pb_istream_t)
  : M dstate ((Z * pb_istream_t) + (bool * pb_istream_t)) :=
  let '(allocated_size, sub) := st in
  if bytes_left sub =? 0 then ret (inr (true, sub))
  else
    size <- read_size (pSize it);;
    let* '(ok, sub, allocated_size) :=
      (if allocated_size <? u64 (size + 1) then
         (if data_size f =? 0 then undefined else ret tt);; (* division by zero *)
         (* guess the number of remaining entries, rounding upwards *)
         let allocated_size :=
           u64 (allocated_size + ((bytes_left sub - 1) / data_size f + 1)) in
         let* '(ok, sub) := with_substream sub
           (allocate_field (pData it) (data_size f) allocated_size) in
         ret (ok, sub, allocated_size)
       else ret (Some tt, sub, allocated_size)) in
    match ok with
    | None => ret (inr (false, sub))
    | Some _ =>
        base <- on_memory (mload 8 (pData it));;
        size <- read_size (pSize it);;
        let item := base + u32 (data_size f * size) in
        initialize_pointer_field f item;;
        let* '(ok, sub) := with_substream sub (call_decoder func f item) in
        match ok with
        | None => ret (inr (false, sub))
        | Some _ =>
            size <- read_size (pSize it);;
            if size =? PB_SIZE_MAX then
              modify (set_errmsg (Some "too many array entries"));;
              ret (inr (false, sub))
            else write_size (pSize it) (size + 1);; ret (inl (allocated_size, sub))
        end
    end.

Definition decode_pointer_field (wire_type : Z) (it : pb_field_iter_t) : M dstate unit :=
  f <- lift_res (cur it);;
  func <- lift_res (PB_DECODERS decode decode_noinit (PB_LTYPE (type f)));;
  let htype := PB_HTYPE (type f) in
  let ltype := PB_LTYPE (type f) in
  if (htype =? PB_HTYPE_REQUIRED) || (htype =? PB_HTYPE_OPTIONAL)
     || (htype =? PB_HTYPE_ONEOF) then
    (if ltype =? PB_LTYPE_SUBMESSAGE then
       p <- on_memory (mload 8 (pData it));;
       if negb (p =? 0) then
         (* Duplicate field, have to release the old allocation first. *)
         on_memory (pb_release_single_field fuel it)
       else ret tt
     else ret tt);;
    (if htype =? PB_HTYPE_ONEOF then write_size (pSize it) (tag f) else ret tt);;
    if (ltype =? PB_LTYPE_STRING) || (ltype =? PB_LTYPE_BYTES)
    then call_decoder func f (pData it)
    else
      allocate_field (pData it) (data_size f) 1;;
      p <- on_memory (mload 8 (pData it));;
      initialize_pointer_field f p;;
      call_decoder func f p
  else if htype =? PB_HTYPE_REPEATED then
    if (wire_type =? PB_WT_STRING) && is_packable f then
      (* Packed array, multiple items come in at once. *)
      allocated_size <- read_size (pSize it);;
      substream <- on_stream pb_make_string_substream;;
      let* '(status, substream) :=
        whileM (packed_pointer_body func f it) (allocated_size, substream) in
      on_stream (pb_close_string_substream substream);;
      if status : bool then ret tt else return_false
    else
      (* Normal repeated field, i.e. only one item at a time. *)
      size <- read_size (pSize it);;
      if size =? PB_SIZE_MAX then pb_return_error "too many array entries"
      else
        write_size (pSize it) (size + 1);;
        size <- read_size (pSize it);;
        allocate_field (pData it) (data_size f) size;;
        base <- on_memory (mload 8 (pData it));;
        size <- read_size (pSize it);;
        let item := base + u32 (data_size f * u32 (size - 1)) in
        initialize_pointer_field f item;;
        call_decoder func f item
  else pb_return_error "invalid field type".

(** ** Callback fields *)
Definition decode_callback_field (wire_type : Z) (it : pb_field_iter_t) : M dstate unit :=
  f <- lift_res (cur it);;
  decode_cb <- (if pData it =? 0 then ret 0 else on_memory (mload 8 (pData it)));;
  if decode_cb =? 0 then on_stream (pb_skip_field wire_type)
  else
    (* The pointer is loaded for every call: the callback may change it. *)
    let call cb :=
      if cb =? 0 then undefined else field_decode_cb cb f (callback_arg_addr (pData it)) in
    if wire_type =? PB_WT_STRING then
      substream <- on_stream pb_make_string_substream;;
      substream <- whileM (fun sub =>
        decode_cb <- on_memory (mload 8 (pData it));;
        let* '(ok, sub) := with_substream sub (call decode_cb) in
        match ok with
        | None => pb_return_error "callback failed"
        | Some _ => if bytes_left sub =? 0 then ret (inr sub) else ret (inl sub)
        end) substream;;
      on_stream (pb_close_string_substream substream)
    else
      (* Copy the single scalar value to stack, to limit the stream length. *)
      buffer <- on_stream (read_raw_value wire_type 10);;
      let substream := pb_istream_from_buffer buffer (zlength buffer) in
      let* '(ok, _) := with_substream substream (call decode_cb) in
      match ok with Some _ => ret tt | None => return_false end.

(** ** Any field *)

(** [pb_release_union_field]; the result is the updated iterator. *)
Definition pb_release_union_field (it : pb_field_iter_t) : M dstate pb_field_iter_t :=
  f <- lift_res (cur it);;
  old_tag <- read_size (pSize it);;
  let new_tag := tag f in
  if old_tag =? 0 then ret it
  else if old_tag =? new_tag then ret it
  else
    let* '(found, it) := lift_res (pb_field_iter_find it old_tag) in
    if negb found then pb_return_error "invalid union tag"
    else
      on_memory (pb_release_single_field fuel it);;
      let* '(found, it) := lift_res (pb_field_iter_find it new_tag) in
      if negb found then pb_return_error "iterator error" else ret it.

(** The iterator is an in-out parameter: it comes back with the result. *)
Definition decode_field (wire_type : Z) (it : pb_field_iter_t)
  : M dstate pb_field_iter_t :=
  f <- lift_res (cur it);;
  it <- (if PB_HTYPE (type f) =? PB_HTYPE_ONEOF then pb_release_union_field it else ret it);;
  f <- lift_res (cur it);;
  let atype := PB_ATYPE (type f) in
  (if atype =? PB_ATYPE_STATIC then decode_static_field wire_type it
   else if atype =? PB_ATYPE_POINTER then decode_pointer_field wire_type it
   else if atype =? PB_ATYPE_CALLBACK then decode_callback_field wire_type it
   else pb_return_error "invalid field type");;
  ret it.

(** ** Extensions *)
Definition default_extension_decoder (extension t wire_type : Z) : M dstate unit :=
  ty <- on_memory (mload 8 extension);;
  et <- need (ext_types ty);;
  if negb (tag (et_arg et) =? t) then ret tt
  else
    iter <- on_memory (miter_from_extension extension);;
    on_memory (mstore 1 (ext_found_addr extension) 1);;
    decode_field wire_type iter;;
    ret tt.

Definition decode_extension (t wire_type : Z) (it : pb_field_iter_t) : M dstate unit :=
  first <- on_memory (mload 8 (pData it));;
  position <- get_bytes_left;;
  whileM (fun extension =>
    left <- get_bytes_left;;
    if negb (extension =? 0) && (position =? left) then
      ty <- on_memory (mload 8 extension);;
      et <- need (ext_types ty);;
      (if negb (et_decode et =? 0) then ext_decode_cb (et_decode et) extension t wire_type
       else default_extension_decoder extension t wire_type);;
      next <- on_memory (mload 8 (extension + 16));;
      ret (inl next)
    else ret (inr tt)) first.

(** ** Messages *)

(** The local variables of [pb_decode_noinit] ([fixed_count_size] is in
    the state, because [pSize] may point to it). *)
Record locals : Type := Locals {
  fields_seen : list Z;
  extension_range_start : Z;
  iter : pb_field_iter_t;
  fixed_count_field : option nat;
}.

Definition set_iter (it : pb_field_iter_t) (l : locals) : locals :=
  Locals (fields_seen l) (extension_range_start l) it (fixed_count_field l).

(** [fixed_count_field->array_size], for the field at an index. *)
Definition fixed_count_expected (it : pb_field_iter_t) (i : nat) : res Z :=
  res_bind (of_option (start it !! i)) (fun f => Ret (array_size f)).

(** Did the last fixed count field receive all its elements? *)
Definition check_fixed_count (l : locals) : M dstate unit :=
  match fixed_count_field l with
  | None => ret tt
  | Some i =>
      n <- lift_res (fixed_count_expected (iter l) i);;
      size <- read_size AtLocal;;
      if negb (size =? n) then pb_return_error "wrong size for fixed count field" else ret tt
  end.

(** [iter->pSize = &fixed_count_size], with the bookkeeping before it. *)
Definition enter_fixed_count (l : locals) : M dstate locals :=
  let it := iter l in
  let it' := FieldIter (start it) (pos it) (required_field_index it) (dest_struct it)
                       (pData it) AtLocal in
  if decide (fixed_count_field l = Some (pos it)) then ret (set_iter it' l)
  else
    check_fixed_count l;;
    set_fixed_count 0;;
    ret (Locals (fields_seen l) (extension_range_start l) it' (Some (pos it))).

(** [fields_seen[index >> 5] |= 1 << (index & 31)]. *)
Definition mark_seen (index : Z) (seen : list Z) : list Z :=
  let tmp := u32 (Z.shiftl 1 (index .& 31)) in
  let word := Z.to_nat (Z.shiftr index 5) in
  alter (fun w => w .| tmp) word seen.

(** A field whose tag is not in the descriptor: try the extensions, else
    skip it. *)
Definition decode_unknown_field (t wire_type : Z) (l : locals) : M dstate locals :=
  let skip l := on_stream (pb_skip_field wire_type);; ret l in
  if t <? extension_range_start l then skip l
  else
    let* '(found, it) := lift_res (find_extension_field (iter l)) in
    f <- lift_res (cur it);;
    let range := if found then tag f else u32 (-1) in
    let l := Locals (fields_seen l) range it (fixed_count_field l) in
    if t <? range then skip l
    else
      position <- get_bytes_left;;
      decode_extension t wire_type it;;
      left <- get_bytes_left;;
      if negb (position =? left) then ret l (* The field was handled *)
      else skip l.

(** A field of the descriptor, found by [pb_field_iter_find]. *)
Definition decode_known_field (wire_type : Z) (l : locals) : M dstate locals :=
  f <- lift_res (cur (iter l));;
  let htype := PB_HTYPE (type f) in
  l <- (if (htype =? PB_HTYPE_REPEATED) && negb (has_size_field (iter l))
        then enter_fixed_count l else ret l);;
  let index := required_field_index (iter l) in
  let seen := if (htype =? PB_HTYPE_REQUIRED) && (index <? PB_MAX_REQUIRED_FIELDS)
              then mark_seen index (fields_seen l) else fields_seen l in
  it <- decode_field wire_type (iter l);;
  ret (Locals seen (extension_range_start l) it (fixed_count_field l)).

Definition noinit_loop_body (l : locals) : M dstate (locals + locals) :=
  left <- get_bytes_left;;
  if left =? 0 then ret (inr l)
  else
    r <- on_stream pb_decode_tag;;
    if negb (tr_ok r) then
      if tr_eof r then ret (inr l) else return_false
    else
      let* '(found, it) := lift_res (pb_field_iter_find (iter l) (tr_tag r)) in
      let l := set_iter it l in
      l <- (if negb found then decode_unknown_field (tr_tag r) (tr_wire_type r) l
            else decode_known_field (tr_wire_type r) l);;
      ret (inl l).

(** ** Required fields *)

(** Seek to the end of the field array; then the number of required fields. *)
Definition count_required (it : pb_field_iter_t) : res Z :=
  res_bind
    (while (fun it =>
      res_bind (cur it) (fun f =>
      res_bind (pb_field_iter_next it) (fun r =>
        if r.1 : bool then Ret (inl r.2)
        else Ret (inr (required_field_index it, type f, r.2))))) it)
    (fun '(req_field_count, last_type, it) =>
      res_bind (cur it) (fun first =>
      let n := if (PB_HTYPE last_type =? PB_HTYPE_REQUIRED) && negb (tag first =? 0)
               then u32 (req_field_count + 1) else req_field_count in
      Ret (if PB_MAX_REQUIRED_FIELDS <? n then PB_MAX_REQUIRED_FIELDS else n))).

(** The whole words, then the remaining bits. *)
Definition all_seen (n : Z) (seen : list Z) : bool :=
  let allbits := u32 (Z.lnot 0) in
  forallb (fun w => w =? allbits) (ztake (Z.shiftr n 5) seen)
  && (if negb (n .& 31 =? 0) then
        default 0 (seen !! Z.to_nat (Z.shiftr n 5)) =? Z.shiftr allbits (32 - (n .& 31))
      else true).

Definition check_required (l : locals) : M dstate unit :=
  n <- lift_res (count_required (iter l));;
  if (0 <? n) && negb (all_seen n (fields_seen l))
  then pb_return_error "missing required field" else ret tt.

(** [pb_decode_noinit]; its local [fixed_count_size] is new and dies with it. *)
Definition decode_noinit_body (fields : list pb_field_t) (dest : Z) : M dstate unit :=
  outer <- read_size AtLocal;;
  set_fixed_count 0;;
  status <- attempt (
    let* '(_, it) := lift_res (pb_field_iter_begin fields dest) in
    l <- whileM noinit_loop_body (Locals [0; 0] 0 it None);;
    check_fixed_count l;;
    check_required l);;
  set_fixed_count outer;;
  match status with Some _ => ret tt | None => return_false end.
End fields.

(** [pb_decode], on top of a given [pb_decode_noinit]. *)
Definition pb_decode_with (fuel : nat) (decode_noinit : decode_fun) : decode_fun :=
  fun fields dest =>
  on_memory (pb_message_set_to_defaults fuel fields dest);;
  status <- attempt (decode_noinit fields dest);;
  match status with
  | Some _ => ret tt
  | None => on_memory (pb_release fuel fields dest);; return_false
  end.

(** [fuel] bounds the nesting of submessages. *)
Fixpoint pb_decode_noinit (fuel : nat) (fields : list pb_field_t) (dest : Z) : M dstate unit :=
  match fuel with
  | O => no_fuel
  | S fuel' =>
      decode_noinit_body fuel' (pb_decode_with fuel' (pb_decode_noinit fuel'))
        (pb_decode_noinit fuel') fields dest
  end.

Definition pb_decode (fuel : nat) : decode_fun := pb_decode_with fuel (pb_decode_noinit fuel).

Definition pb_decode_delimited_noinit (fuel : nat) : decode_fun := fun fields dest =>
  substream <- on_stream pb_make_string_substream;;
  let* '(status, substream) := with_substream substream (pb_decode_noinit fuel fields dest) in
  on_stream (pb_close_string_substream substream);;
  match status with Some _ => ret tt | None => return_false end.

Definition pb_decode_delimited (fuel : nat) : decode_fun := fun fields dest =>
  substream <- on_stream pb_make_string_substream;;
  let* '(status, substream) := with_substream substream (pb_decode fuel fields dest) in
  on_stream (pb_close_string_substream substream);;
  match status with Some _ => ret tt | None => return_false end.

Definition pb_decode_nullterminated (fuel : nat) : decode_fun := pb_decode fuel.
End decoder.
