(* ===== verification/Cct.v ===== *)
(** * The messages of the event transport
    (cct.nanopb.h and cct.nanopb.c of GoogleDataTransportCCTSupport)

    The enums, the C structures, the field tags, the initialisers and the
    descriptor arrays of the generated code. *)
From S2P Require Import Prelude Memory Descriptor.

Inductive gdt_cct_NetworkConnectionInfo_NetworkType : Type :=
| gdt_cct_NetworkConnectionInfo_NetworkType_NONE
| gdt_cct_NetworkConnectionInfo_NetworkType_MOBILE
| gdt_cct_NetworkConnectionInfo_NetworkType_WIFI
| gdt_cct_NetworkConnectionInfo_NetworkType_MOBILE_MMS
| gdt_cct_NetworkConnectionInfo_NetworkType_MOBILE_SUPL
| gdt_cct_NetworkConnectionInfo_NetworkType_MOBILE_DUN
| gdt_cct_NetworkConnectionInfo_NetworkType_MOBILE_HIPRI
| gdt_cct_NetworkConnectionInfo_NetworkType_WIMAX
| gdt_cct_NetworkConnectionInfo_NetworkType_BLUETOOTH
| gdt_cct_NetworkConnectionInfo_NetworkType_DUMMY
| gdt_cct_NetworkConnectionInfo_NetworkType_ETHERNET
| gdt_cct_NetworkConnectionInfo_NetworkType_MOBILE_FOTA
| gdt_cct_NetworkConnectionInfo_NetworkType_MOBILE_IMS
| gdt_cct_NetworkConnectionInfo_NetworkType_MOBILE_CBS
| gdt_cct_NetworkConnectionInfo_NetworkType_WIFI_P2P
| gdt_cct_NetworkConnectionInfo_NetworkType_MOBILE_IA
| gdt_cct_NetworkConnectionInfo_NetworkType_MOBILE_EMERGENCY
| gdt_cct_NetworkConnectionInfo_NetworkType_PROXY
| gdt_cct_NetworkConnectionInfo_NetworkType_VPN.

Definition gdt_cct_NetworkConnectionInfo_NetworkType_value (e : gdt_cct_NetworkConnectionInfo_NetworkType) : Z :=
  match e with
  | gdt_cct_NetworkConnectionInfo_NetworkType_NONE => (-1)
  | gdt_cct_NetworkConnectionInfo_NetworkType_MOBILE => 0
  | gdt_cct_NetworkConnectionInfo_NetworkType_WIFI => 1
  | gdt_cct_NetworkConnectionInfo_NetworkType_MOBILE_MMS => 2
  | gdt_cct_NetworkConnectionInfo_NetworkType_MOBILE_SUPL => 3
  | gdt_cct_NetworkConnectionInfo_NetworkType_MOBILE_DUN => 4
  | gdt_cct_NetworkConnectionInfo_NetworkType_MOBILE_HIPRI => 5
  | gdt_cct_NetworkConnectionInfo_NetworkType_WIMAX => 6
  | gdt_cct_NetworkConnectionInfo_NetworkType_BLUETOOTH => 7
  | gdt_cct_NetworkConnectionInfo_NetworkType_DUMMY => 8
  | gdt_cct_NetworkConnectionInfo_NetworkType_ETHERNET => 9
  | gdt_cct_NetworkConnectionInfo_NetworkType_MOBILE_FOTA => 10
  | gdt_cct_NetworkConnectionInfo_NetworkType_MOBILE_IMS => 11
  | gdt_cct_NetworkConnectionInfo_NetworkType_MOBILE_CBS => 12
  | gdt_cct_NetworkConnectionInfo_NetworkType_WIFI_P2P => 13
  | gdt_cct_NetworkConnectionInfo_NetworkType_MOBILE_IA => 14
  | gdt_cct_NetworkConnectionInfo_NetworkType_MOBILE_EMERGENCY => 15
  | gdt_cct_NetworkConnectionInfo_NetworkType_PROXY => 16
  | gdt_cct_NetworkConnectionInfo_NetworkType_VPN => 17
  end.

Definition gdt_cct_NetworkConnectionInfo_NetworkType_MIN : gdt_cct_NetworkConnectionInfo_NetworkType := gdt_cct_NetworkConnectionInfo_NetworkType_NONE.
Definition gdt_cct_NetworkConnectionInfo_NetworkType_MAX : gdt_cct_NetworkConnectionInfo_NetworkType := gdt_cct_NetworkConnectionInfo_NetworkType_VPN.
Definition gdt_cct_NetworkConnectionInfo_NetworkType_ARRAYSIZE : Z := gdt_cct_NetworkConnectionInfo_NetworkType_value gdt_cct_NetworkConnectionInfo_NetworkType_VPN + 1.

Inductive gdt_cct_NetworkConnectionInfo_MobileSubtype : Type :=
| gdt_cct_NetworkConnectionInfo_MobileSubtype_UNKNOWN_MOBILE_SUBTYPE
| gdt_cct_NetworkConnectionInfo_MobileSubtype_GPRS
| gdt_cct_NetworkConnectionInfo_MobileSubtype_EDGE
| gdt_cct_NetworkConnectionInfo_MobileSubtype_UMTS
| gdt_cct_NetworkConnectionInfo_MobileSubtype_CDMA
| gdt_cct_NetworkConnectionInfo_MobileSubtype_EVDO_0
| gdt_cct_NetworkConnectionInfo_MobileSubtype_EVDO_A
| gdt_cct_NetworkConnectionInfo_MobileSubtype_RTT
| gdt_cct_NetworkConnectionInfo_MobileSubtype_HSDPA
| gdt_cct_NetworkConnectionInfo_MobileSubtype_HSUPA
| gdt_cct_NetworkConnectionInfo_MobileSubtype_HSPA
| gdt_cct_NetworkConnectionInfo_MobileSubtype_IDEN
| gdt_cct_NetworkConnectionInfo_MobileSubtype_EVDO_B
| gdt_cct_NetworkConnectionInfo_MobileSubtype_LTE
| gdt_cct_NetworkConnectionInfo_MobileSubtype_EHRPD
| gdt_cct_NetworkConnectionInfo_MobileSubtype_HSPAP
| gdt_cct_NetworkConnectionInfo_MobileSubtype_GSM
| gdt_cct_NetworkConnectionInfo_MobileSubtype_TD_SCDMA
| gdt_cct_NetworkConnectionInfo_MobileSubtype_IWLAN
| gdt_cct_NetworkConnectionInfo_MobileSubtype_LTE_CA
| gdt_cct_NetworkConnectionInfo_MobileSubtype_COMBINED.

Definition gdt_cct_NetworkConnectionInfo_MobileSubtype_value (e : gdt_cct_NetworkConnectionInfo_MobileSubtype) : Z :=
  match e with
  | gdt_cct_NetworkConnectionInfo_MobileSubtype_UNKNOWN_MOBILE_SUBTYPE => 0
  | gdt_cct_NetworkConnectionInfo_MobileSubtype_GPRS => 1
  | gdt_cct_NetworkConnectionInfo_MobileSubtype_EDGE => 2
  | gdt_cct_NetworkConnectionInfo_MobileSubtype_UMTS => 3
  | gdt_cct_NetworkConnectionInfo_MobileSubtype_CDMA => 4
  | gdt_cct_NetworkConnectionInfo_MobileSubtype_EVDO_0 => 5
  | gdt_cct_NetworkConnectionInfo_MobileSubtype_EVDO_A => 6
  | gdt_cct_NetworkConnectionInfo_MobileSubtype_RTT => 7
  | gdt_cct_NetworkConnectionInfo_MobileSubtype_HSDPA => 8
  | gdt_cct_NetworkConnectionInfo_MobileSubtype_HSUPA => 9
  | gdt_cct_NetworkConnectionInfo_MobileSubtype_HSPA => 10
  | gdt_cct_NetworkConnectionInfo_MobileSubtype_IDEN => 11
  | gdt_cct_NetworkConnectionInfo_MobileSubtype_EVDO_B => 12
  | gdt_cct_NetworkConnectionInfo_MobileSubtype_LTE => 13
  | gdt_cct_NetworkConnectionInfo_MobileSubtype_EHRPD => 14
  | gdt_cct_NetworkConnectionInfo_MobileSubtype_HSPAP => 15
  | gdt_cct_NetworkConnectionInfo_MobileSubtype_GSM => 16
  | gdt_cct_NetworkConnectionInfo_MobileSubtype_TD_SCDMA => 17
  | gdt_cct_NetworkConnectionInfo_MobileSubtype_IWLAN => 18
  | gdt_cct_NetworkConnectionInfo_MobileSubtype_LTE_CA => 19
  | gdt_cct_NetworkConnectionInfo_MobileSubtype_COMBINED => 100
  end.

Definition gdt_cct_NetworkConnectionInfo_MobileSubtype_MIN : gdt_cct_NetworkConnectionInfo_MobileSubtype := gdt_cct_NetworkConnectionInfo_MobileSubtype_UNKNOWN_MOBILE_SUBTYPE.
Definition gdt_cct_NetworkConnectionInfo_MobileSubtype_MAX : gdt_cct_NetworkConnectionInfo_MobileSubtype := gdt_cct_NetworkConnectionInfo_MobileSubtype_COMBINED.
Definition gdt_cct_NetworkConnectionInfo_MobileSubtype_ARRAYSIZE : Z := gdt_cct_NetworkConnectionInfo_MobileSubtype_value gdt_cct_NetworkConnectionInfo_MobileSubtype_COMBINED + 1.

Inductive gdt_cct_ClientInfo_ClientType : Type :=
| gdt_cct_ClientInfo_ClientType_CLIENT_UNKNOWN
| gdt_cct_ClientInfo_ClientType_IOS_FIREBASE.

Definition gdt_cct_ClientInfo_ClientType_value (e : gdt_cct_ClientInfo_ClientType) : Z :=
  match e with
  | gdt_cct_ClientInfo_ClientType_CLIENT_UNKNOWN => 0
  | gdt_cct_ClientInfo_ClientType_IOS_FIREBASE => 15
  end.

Definition gdt_cct_ClientInfo_ClientType_MIN : gdt_cct_ClientInfo_ClientType := gdt_cct_ClientInfo_ClientType_CLIENT_UNKNOWN.
Definition gdt_cct_ClientInfo_ClientType_MAX : gdt_cct_ClientInfo_ClientType := gdt_cct_ClientInfo_ClientType_IOS_FIREBASE.
Definition gdt_cct_ClientInfo_ClientType_ARRAYSIZE : Z := gdt_cct_ClientInfo_ClientType_value gdt_cct_ClientInfo_ClientType_IOS_FIREBASE + 1.

Inductive gdt_cct_QosTierConfiguration_QosTier : Type :=
| gdt_cct_QosTierConfiguration_QosTier_DEFAULT
| gdt_cct_QosTierConfiguration_QosTier_UNMETERED_ONLY
| gdt_cct_QosTierConfiguration_QosTier_UNMETERED_OR_DAILY
| gdt_cct_QosTierConfiguration_QosTier_FAST_IF_RADIO_AWAKE
| gdt_cct_QosTierConfiguration_QosTier_NEVER.

Definition gdt_cct_QosTierConfiguration_QosTier_value (e : gdt_cct_QosTierConfiguration_QosTier) : Z :=
  match e with
  | gdt_cct_QosTierConfiguration_QosTier_DEFAULT => 0
  | gdt_cct_QosTierConfiguration_QosTier_UNMETERED_ONLY => 1
  | gdt_cct_QosTierConfiguration_QosTier_UNMETERED_OR_DAILY => 2
  | gdt_cct_QosTierConfiguration_QosTier_FAST_IF_RADIO_AWAKE => 3
  | gdt_cct_QosTierConfiguration_QosTier_NEVER => 4
  end.

Definition gdt_cct_QosTierConfiguration_QosTier_MIN : gdt_cct_QosTierConfiguration_QosTier := gdt_cct_QosTierConfiguration_QosTier_DEFAULT.
Definition gdt_cct_QosTierConfiguration_QosTier_MAX : gdt_cct_QosTierConfiguration_QosTier := gdt_cct_QosTierConfiguration_QosTier_NEVER.
Definition gdt_cct_QosTierConfiguration_QosTier_ARRAYSIZE : Z := gdt_cct_QosTierConfiguration_QosTier_value gdt_cct_QosTierConfiguration_QosTier_NEVER + 1.

Definition gdt_cct_IosClientInfo : struct_t :=
  [[ptr_member "os_major_version" (sizeof pb_bytes_array_t)];
   [ptr_member "os_full_version" (sizeof pb_bytes_array_t)];
   [ptr_member "application_build" (sizeof pb_bytes_array_t)];
   [ptr_member "country" (sizeof pb_bytes_array_t)];
   [ptr_member "model" (sizeof pb_bytes_array_t)];
   [ptr_member "language_code" (sizeof pb_bytes_array_t)];
   [ptr_member "application_bundle_id" (sizeof pb_bytes_array_t)]].

Definition gdt_cct_ClientInfo : struct_t :=
  [[scalar_member "has_client_type" 1];
   [scalar_member "client_type" 4];
   [scalar_member "has_ios_client_info" 1];
   [struct_member "ios_client_info" gdt_cct_IosClientInfo]].

Definition gdt_cct_NetworkConnectionInfo : struct_t :=
  [[scalar_member "has_network_type" 1];
   [scalar_member "network_type" 4];
   [scalar_member "has_mobile_subtype" 1];
   [scalar_member "mobile_subtype" 4]].

Definition gdt_cct_LogEvent : struct_t :=
  [[scalar_member "has_event_time_ms" 1];
   [scalar_member "event_time_ms" 8];
   [ptr_member "source_extension" (sizeof pb_bytes_array_t)];
   [scalar_member "has_event_code" 1];
   [scalar_member "event_code" 4];
   [scalar_member "has_timezone_offset_seconds" 1];
   [scalar_member "timezone_offset_seconds" 8];
   [scalar_member "has_event_uptime_ms" 1];
   [scalar_member "event_uptime_ms" 8];
   [scalar_member "has_network_connection_info" 1];
   [struct_member "network_connection_info" gdt_cct_NetworkConnectionInfo]].

Definition gdt_cct_LogRequest : struct_t :=
  [[scalar_member "has_client_info" 1];
   [struct_member "client_info" gdt_cct_ClientInfo];
   [scalar_member "has_log_source" 1];
   [scalar_member "log_source" 4];
   [scalar_member "log_event_count" 4];
   [ptr_member "log_event" (sizeof gdt_cct_LogEvent)];
   [scalar_member "has_request_time_ms" 1];
   [scalar_member "request_time_ms" 8];
   [scalar_member "has_request_uptime_ms" 1];
   [scalar_member "request_uptime_ms" 8];
   [scalar_member "has_qos_tier" 1];
   [scalar_member "qos_tier" 4]].

Definition gdt_cct_BatchedLogRequest : struct_t :=
  [[scalar_member "log_request_count" 4];
   [ptr_member "log_request" (sizeof gdt_cct_LogRequest)]].

Definition gdt_cct_QosTierConfiguration : struct_t :=
  [[scalar_member "has_qos_tier" 1];
   [scalar_member "qos_tier" 4];
   [scalar_member "has_log_source" 1];
   [scalar_member "log_source" 4]].

Definition gdt_cct_QosTiersOverride : struct_t :=
  [[scalar_member "qos_tier_configuration_count" 4];
   [ptr_member "qos_tier_configuration" (sizeof gdt_cct_QosTierConfiguration)];
   [scalar_member "has_qos_tier_fingerprint" 1];
   [scalar_member "qos_tier_fingerprint" 8]].

Definition gdt_cct_LogResponse : struct_t :=
  [[scalar_member "has_next_request_wait_millis" 1];
   [scalar_member "next_request_wait_millis" 8];
   [scalar_member "has_qos_tier" 1];
   [struct_member "qos_tier" gdt_cct_QosTiersOverride]].

(** The field tags, by message and member. *)
Definition gdt_cct_tags : list (string * string * Z) :=
  [("gdt_cct_BatchedLogRequest", "log_request", 1);
   ("gdt_cct_IosClientInfo", "os_major_version", 3);
   ("gdt_cct_IosClientInfo", "os_full_version", 4);
   ("gdt_cct_IosClientInfo", "application_build", 5);
   ("gdt_cct_IosClientInfo", "country", 6);
   ("gdt_cct_IosClientInfo", "model", 7);
   ("gdt_cct_IosClientInfo", "language_code", 8);
   ("gdt_cct_IosClientInfo", "application_bundle_id", 11);
   ("gdt_cct_ClientInfo", "client_type", 1);
   ("gdt_cct_ClientInfo", "ios_client_info", 4);
   ("gdt_cct_NetworkConnectionInfo", "network_type", 1);
   ("gdt_cct_NetworkConnectionInfo", "mobile_subtype", 2);
   ("gdt_cct_QosTierConfiguration", "qos_tier", 2);
   ("gdt_cct_QosTierConfiguration", "log_source", 3);
   ("gdt_cct_QosTiersOverride", "qos_tier_configuration", 1);
   ("gdt_cct_QosTiersOverride", "qos_tier_fingerprint", 2);
   ("gdt_cct_LogEvent", "event_time_ms", 1);
   ("gdt_cct_LogEvent", "event_code", 11);
   ("gdt_cct_LogEvent", "event_uptime_ms", 17);
   ("gdt_cct_LogEvent", "source_extension", 6);
   ("gdt_cct_LogEvent", "timezone_offset_seconds", 15);
   ("gdt_cct_LogEvent", "network_connection_info", 23);
   ("gdt_cct_LogRequest", "request_time_ms", 4);
   ("gdt_cct_LogRequest", "request_uptime_ms", 8);
   ("gdt_cct_LogRequest", "client_info", 1);
   ("gdt_cct_LogRequest", "log_source", 2);
   ("gdt_cct_LogRequest", "log_event", 3);
   ("gdt_cct_LogRequest", "qos_tier", 9);
   ("gdt_cct_LogResponse", "next_request_wait_millis", 1);
   ("gdt_cct_LogResponse", "qos_tier", 3)].

Definition gdt_cct_NetworkConnectionInfo_size : Z := 13.
Definition gdt_cct_QosTierConfiguration_size : Z := 13.

Definition gdt_cct_NetworkConnectionInfo_network_type_default : list Z := le_bytes 4 (gdt_cct_NetworkConnectionInfo_NetworkType_value gdt_cct_NetworkConnectionInfo_NetworkType_NONE).
Definition gdt_cct_NetworkConnectionInfo_mobile_subtype_default : list Z := le_bytes 4 (gdt_cct_NetworkConnectionInfo_MobileSubtype_value gdt_cct_NetworkConnectionInfo_MobileSubtype_UNKNOWN_MOBILE_SUBTYPE).
Definition gdt_cct_LogRequest_qos_tier_default : list Z := le_bytes 4 (gdt_cct_QosTierConfiguration_QosTier_value gdt_cct_QosTierConfiguration_QosTier_DEFAULT).
Definition gdt_cct_QosTierConfiguration_log_source_default : list Z := le_bytes 4 (0).

Definition gdt_cct_LogEvent_fields_id : Z := 1.
Definition gdt_cct_NetworkConnectionInfo_fields_id : Z := 2.
Definition gdt_cct_IosClientInfo_fields_id : Z := 3.
Definition gdt_cct_ClientInfo_fields_id : Z := 4.
Definition gdt_cct_BatchedLogRequest_fields_id : Z := 5.
Definition gdt_cct_LogRequest_fields_id : Z := 6.
Definition gdt_cct_QosTierConfiguration_fields_id : Z := 7.
Definition gdt_cct_QosTiersOverride_fields_id : Z := 8.
Definition gdt_cct_LogResponse_fields_id : Z := 9.

Definition gdt_cct_LogEvent_fields : list pb_field_t :=
  [PB_FIELD 1 INT64 OPTIONAL STATIC FIRST gdt_cct_LogEvent "event_time_ms" "event_time_ms" PNull;
   PB_FIELD 6 BYTES OPTIONAL POINTER OTHER gdt_cct_LogEvent "source_extension" "event_time_ms" PNull;
   PB_FIELD 11 INT32 OPTIONAL STATIC OTHER gdt_cct_LogEvent "event_code" "source_extension" PNull;
   PB_FIELD 15 SINT64 OPTIONAL STATIC OTHER gdt_cct_LogEvent "timezone_offset_seconds" "event_code" PNull;
   PB_FIELD 17 INT64 OPTIONAL STATIC OTHER gdt_cct_LogEvent "event_uptime_ms" "timezone_offset_seconds" PNull;
   PB_FIELD 23 MESSAGE OPTIONAL STATIC OTHER gdt_cct_LogEvent "network_connection_info" "event_uptime_ms" (PFields gdt_cct_NetworkConnectionInfo_fields_id);
   PB_LAST_FIELD].

Definition gdt_cct_NetworkConnectionInfo_fields : list pb_field_t :=
  [PB_FIELD 1 ENUM OPTIONAL STATIC FIRST gdt_cct_NetworkConnectionInfo "network_type" "network_type" (PDefault gdt_cct_NetworkConnectionInfo_network_type_default);
   PB_FIELD 2 UENUM OPTIONAL STATIC OTHER gdt_cct_NetworkConnectionInfo "mobile_subtype" "network_type" (PDefault gdt_cct_NetworkConnectionInfo_mobile_subtype_default);
   PB_LAST_FIELD].

Definition gdt_cct_IosClientInfo_fields : list pb_field_t :=
  [PB_FIELD 3 BYTES OPTIONAL POINTER FIRST gdt_cct_IosClientInfo "os_major_version" "os_major_version" PNull;
   PB_FIELD 4 BYTES OPTIONAL POINTER OTHER gdt_cct_IosClientInfo "os_full_version" "os_major_version" PNull;
   PB_FIELD 5 BYTES OPTIONAL POINTER OTHER gdt_cct_IosClientInfo "application_build" "os_full_version" PNull;
   PB_FIELD 6 BYTES OPTIONAL POINTER OTHER gdt_cct_IosClientInfo "country" "application_build" PNull;
   PB_FIELD 7 BYTES OPTIONAL POINTER OTHER gdt_cct_IosClientInfo "model" "country" PNull;
   PB_FIELD 8 BYTES OPTIONAL POINTER OTHER gdt_cct_IosClientInfo "language_code" "model" PNull;
   PB_FIELD 11 BYTES OPTIONAL POINTER OTHER gdt_cct_IosClientInfo "application_bundle_id" "language_code" PNull;
   PB_LAST_FIELD].

Definition gdt_cct_ClientInfo_fields : list pb_field_t :=
  [PB_FIELD 1 UENUM OPTIONAL STATIC FIRST gdt_cct_ClientInfo "client_type" "client_type" PNull;
   PB_FIELD 4 MESSAGE OPTIONAL STATIC OTHER gdt_cct_ClientInfo "ios_client_info" "client_type" (PFields gdt_cct_IosClientInfo_fields_id);
   PB_LAST_FIELD].

Definition gdt_cct_BatchedLogRequest_fields : list pb_field_t :=
  [PB_FIELD 1 MESSAGE REPEATED POINTER FIRST gdt_cct_BatchedLogRequest "log_request" "log_request" (PFields gdt_cct_LogRequest_fields_id);
   PB_LAST_FIELD].

Definition gdt_cct_LogRequest_fields : list pb_field_t :=
  [PB_FIELD 1 MESSAGE OPTIONAL STATIC FIRST gdt_cct_LogRequest "client_info" "client_info" (PFields gdt_cct_ClientInfo_fields_id);
   PB_FIELD 2 INT32 OPTIONAL STATIC OTHER gdt_cct_LogRequest "log_source" "client_info" PNull;
   PB_FIELD 3 MESSAGE REPEATED POINTER OTHER gdt_cct_LogRequest "log_event" "log_source" (PFields gdt_cct_LogEvent_fields_id);
   PB_FIELD 4 INT64 OPTIONAL STATIC OTHER gdt_cct_LogRequest "request_time_ms" "log_event" PNull;
   PB_FIELD 8 INT64 OPTIONAL STATIC OTHER gdt_cct_LogRequest "request_uptime_ms" "request_time_ms" PNull;
   PB_FIELD 9 UENUM OPTIONAL STATIC OTHER gdt_cct_LogRequest "qos_tier" "request_uptime_ms" (PDefault gdt_cct_LogRequest_qos_tier_default);
   PB_LAST_FIELD].

Definition gdt_cct_QosTierConfiguration_fields : list pb_field_t :=
  [PB_FIELD 2 UENUM OPTIONAL STATIC FIRST gdt_cct_QosTierConfiguration "qos_tier" "qos_tier" PNull;
   PB_FIELD 3 INT32 OPTIONAL STATIC OTHER gdt_cct_QosTierConfiguration "log_source" "qos_tier" (PDefault gdt_cct_QosTierConfiguration_log_source_default);
   PB_LAST_FIELD].

Definition gdt_cct_QosTiersOverride_fields : list pb_field_t :=
  [PB_FIELD 1 MESSAGE REPEATED POINTER FIRST gdt_cct_QosTiersOverride "qos_tier_configuration" "qos_tier_configuration" (PFields gdt_cct_QosTierConfiguration_fields_id);
   PB_FIELD 2 INT64 OPTIONAL STATIC OTHER gdt_cct_QosTiersOverride "qos_tier_fingerprint" "qos_tier_configuration" PNull;
   PB_LAST_FIELD].

Definition gdt_cct_LogResponse_fields : list pb_field_t :=
  [PB_FIELD 1 INT64 OPTIONAL STATIC FIRST gdt_cct_LogResponse "next_request_wait_millis" "next_request_wait_millis" PNull;
   PB_FIELD 3 MESSAGE OPTIONAL STATIC OTHER gdt_cct_LogResponse "qos_tier" "next_request_wait_millis" (PFields gdt_cct_QosTiersOverride_fields_id);
   PB_LAST_FIELD].

(** The descriptor arrays by address. *)
Definition gdt_cct_fields_of (t : Z) : option (list pb_field_t) :=
  if t =? gdt_cct_LogEvent_fields_id then Some gdt_cct_LogEvent_fields else
  if t =? gdt_cct_NetworkConnectionInfo_fields_id then Some gdt_cct_NetworkConnectionInfo_fields else
  if t =? gdt_cct_IosClientInfo_fields_id then Some gdt_cct_IosClientInfo_fields else
  if t =? gdt_cct_ClientInfo_fields_id then Some gdt_cct_ClientInfo_fields else
  if t =? gdt_cct_BatchedLogRequest_fields_id then Some gdt_cct_BatchedLogRequest_fields else
  if t =? gdt_cct_LogRequest_fields_id then Some gdt_cct_LogRequest_fields else
  if t =? gdt_cct_QosTierConfiguration_fields_id then Some gdt_cct_QosTierConfiguration_fields else
  if t =? gdt_cct_QosTiersOverride_fields_id then Some gdt_cct_QosTiersOverride_fields else
  if t =? gdt_cct_LogResponse_fields_id then Some gdt_cct_LogResponse_fields else
  None.

(** The initialisers, member by member. *)
Definition gdt_cct_IosClientInfo_init_default : list (string * init_value) :=
  [("os_major_version", IVal 0);
   ("os_full_version", IVal 0);
   ("application_build", IVal 0);
   ("country", IVal 0);
   ("model", IVal 0);
   ("language_code", IVal 0);
   ("application_bundle_id", IVal 0)].

Definition gdt_cct_IosClientInfo_init_zero : list (string * init_value) :=
  [("os_major_version", IVal 0);
   ("os_full_version", IVal 0);
   ("application_build", IVal 0);
   ("country", IVal 0);
   ("model", IVal 0);
   ("language_code", IVal 0);
   ("application_bundle_id", IVal 0)].

Definition gdt_cct_ClientInfo_init_default : list (string * init_value) :=
  [("has_client_type", IVal 0);
   ("client_type", IVal (gdt_cct_ClientInfo_ClientType_value gdt_cct_ClientInfo_ClientType_MIN));
   ("has_ios_client_info", IVal 0);
   ("ios_client_info", IStruct gdt_cct_IosClientInfo_init_default)].

Definition gdt_cct_ClientInfo_init_zero : list (string * init_value) :=
  [("has_client_type", IVal 0);
   ("client_type", IVal (gdt_cct_ClientInfo_ClientType_value gdt_cct_ClientInfo_ClientType_MIN));
   ("has_ios_client_info", IVal 0);
   ("ios_client_info", IStruct gdt_cct_IosClientInfo_init_zero)].

Definition gdt_cct_NetworkConnectionInfo_init_default : list (string * init_value) :=
  [("has_network_type", IVal 0);
   ("network_type", IVal (gdt_cct_NetworkConnectionInfo_NetworkType_value gdt_cct_NetworkConnectionInfo_NetworkType_NONE));
   ("has_mobile_subtype", IVal 0);
   ("mobile_subtype", IVal (gdt_cct_NetworkConnectionInfo_MobileSubtype_value gdt_cct_NetworkConnectionInfo_MobileSubtype_UNKNOWN_MOBILE_SUBTYPE))].

Definition gdt_cct_NetworkConnectionInfo_init_zero : list (string * init_value) :=
  [("has_network_type", IVal 0);
   ("network_type", IVal (gdt_cct_NetworkConnectionInfo_NetworkType_value gdt_cct_NetworkConnectionInfo_NetworkType_MIN));
   ("has_mobile_subtype", IVal 0);
   ("mobile_subtype", IVal (gdt_cct_NetworkConnectionInfo_MobileSubtype_value gdt_cct_NetworkConnectionInfo_MobileSubtype_MIN))].

Definition gdt_cct_LogEvent_init_default : list (string * init_value) :=
  [("has_event_time_ms", IVal 0);
   ("event_time_ms", IVal 0);
   ("source_extension", IVal 0);
   ("has_event_code", IVal 0);
   ("event_code", IVal 0);
   ("has_timezone_offset_seconds", IVal 0);
   ("timezone_offset_seconds", IVal 0);
   ("has_event_uptime_ms", IVal 0);
   ("event_uptime_ms", IVal 0);
   ("has_network_connection_info", IVal 0);
   ("network_connection_info", IStruct gdt_cct_NetworkConnectionInfo_init_default)].

Definition gdt_cct_LogEvent_init_zero : list (string * init_value) :=
  [("has_event_time_ms", IVal 0);
   ("event_time_ms", IVal 0);
   ("source_extension", IVal 0);
   ("has_event_code", IVal 0);
   ("event_code", IVal 0);
   ("has_timezone_offset_seconds", IVal 0);
   ("timezone_offset_seconds", IVal 0);
   ("has_event_uptime_ms", IVal 0);
   ("event_uptime_ms", IVal 0);
   ("has_network_connection_info", IVal 0);
   ("network_connection_info", IStruct gdt_cct_NetworkConnectionInfo_init_zero)].

Definition gdt_cct_LogRequest_init_default : list (string * init_value) :=
  [("has_client_info", IVal 0);
   ("client_info", IStruct gdt_cct_ClientInfo_init_default);
   ("has_log_source", IVal 0);
   ("log_source", IVal 0);
   ("log_event_count", IVal 0);
   ("log_event", IVal 0);
   ("has_request_time_ms", IVal 0);
   ("request_time_ms", IVal 0);
   ("has_request_uptime_ms", IVal 0);
   ("request_uptime_ms", IVal 0);
   ("has_qos_tier", IVal 0);
   ("qos_tier", IVal (gdt_cct_QosTierConfiguration_QosTier_value gdt_cct_QosTierConfiguration_QosTier_DEFAULT))].

Definition gdt_cct_LogRequest_init_zero : list (string * init_value) :=
  [("has_client_info", IVal 0);
   ("client_info", IStruct gdt_cct_ClientInfo_init_zero);
   ("has_log_source", IVal 0);
   ("log_source", IVal 0);
   ("log_event_count", IVal 0);
   ("log_event", IVal 0);
   ("has_request_time_ms", IVal 0);
   ("request_time_ms", IVal 0);
   ("has_request_uptime_ms", IVal 0);
   ("request_uptime_ms", IVal 0);
   ("has_qos_tier", IVal 0);
   ("qos_tier", IVal (gdt_cct_QosTierConfiguration_QosTier_value gdt_cct_QosTierConfiguration_QosTier_MIN))].

Definition gdt_cct_BatchedLogRequest_init_default : list (string * init_value) :=
  [("log_request_count", IVal 0);
   ("log_request", IVal 0)].

Definition gdt_cct_BatchedLogRequest_init_zero : list (string * init_value) :=
  [("log_request_count", IVal 0);
   ("log_request", IVal 0)].

Definition gdt_cct_QosTierConfiguration_init_default : list (string * init_value) :=
  [("has_qos_tier", IVal 0);
   ("qos_tier", IVal (gdt_cct_QosTierConfiguration_QosTier_value gdt_cct_QosTierConfiguration_QosTier_MIN));
   ("has_log_source", IVal 0);
   ("log_source", IVal 0)].

Definition gdt_cct_QosTierConfiguration_init_zero : list (string * init_value) :=
  [("has_qos_tier", IVal 0);
   ("qos_tier", IVal (gdt_cct_QosTierConfiguration_QosTier_value gdt_cct_QosTierConfiguration_QosTier_MIN));
   ("has_log_source", IVal 0);
   ("log_source", IVal 0)].

Definition gdt_cct_QosTiersOverride_init_default : list (string * init_value) :=
  [("qos_tier_configuration_count", IVal 0);
   ("qos_tier_configuration", IVal 0);
   ("has_qos_tier_fingerprint", IVal 0);
   ("qos_tier_fingerprint", IVal 0)].

Definition gdt_cct_QosTiersOverride_init_zero : list (string * init_value) :=
  [("qos_tier_configuration_count", IVal 0);
   ("qos_tier_configuration", IVal 0);
   ("has_qos_tier_fingerprint", IVal 0);
   ("qos_tier_fingerprint", IVal 0)].

Definition gdt_cct_LogResponse_init_default : list (string * init_value) :=
  [("has_next_request_wait_millis", IVal 0);
   ("next_request_wait_millis", IVal 0);
   ("has_qos_tier", IVal 0);
   ("qos_tier", IStruct gdt_cct_QosTiersOverride_init_default)].

Definition gdt_cct_LogResponse_init_zero : list (string * init_value) :=
  [("has_next_request_wait_millis", IVal 0);
   ("next_request_wait_millis", IVal 0);
   ("has_qos_tier", IVal 0);
   ("qos_tier", IStruct gdt_cct_QosTiersOverride_init_zero)].

