(* ===== verification/CoreConfig.v ===== *)
(** * The message of the core diagnostics
    (firebasecore.nanopb.h and firebasecore.nanopb.c of FirebaseCoreDiagnostics) *)
From S2P Require Import Prelude Memory Descriptor.

Inductive logs_proto_mobilesdk_ios_ICoreConfiguration_ConfigurationType : Type :=
| logs_proto_mobilesdk_ios_ICoreConfiguration_ConfigurationType_UNKNOWN_CONFIGURATION_TYPE
| logs_proto_mobilesdk_ios_ICoreConfiguration_ConfigurationType_CORE
| logs_proto_mobilesdk_ios_ICoreConfiguration_ConfigurationType_SDK.

Definition logs_proto_mobilesdk_ios_ICoreConfiguration_ConfigurationType_value (e : logs_proto_mobilesdk_ios_ICoreConfiguration_ConfigurationType) : Z :=
  match e with
  | logs_proto_mobilesdk_ios_ICoreConfiguration_ConfigurationType_UNKNOWN_CONFIGURATION_TYPE => 0
  | logs_proto_mobilesdk_ios_ICoreConfiguration_ConfigurationType_CORE => 1
  | logs_proto_mobilesdk_ios_ICoreConfiguration_ConfigurationType_SDK => 2
  end.

Definition logs_proto_mobilesdk_ios_ICoreConfiguration_ConfigurationType_MIN : logs_proto_mobilesdk_ios_ICoreConfiguration_ConfigurationType := logs_proto_mobilesdk_ios_ICoreConfiguration_ConfigurationType_UNKNOWN_CONFIGURATION_TYPE.
Definition logs_proto_mobilesdk_ios_ICoreConfiguration_ConfigurationType_MAX : logs_proto_mobilesdk_ios_ICoreConfiguration_ConfigurationType := logs_proto_mobilesdk_ios_ICoreConfiguration_ConfigurationType_SDK.
Definition logs_proto_mobilesdk_ios_ICoreConfiguration_ConfigurationType_ARRAYSIZE : Z := logs_proto_mobilesdk_ios_ICoreConfiguration_ConfigurationType_value logs_proto_mobilesdk_ios_ICoreConfiguration_ConfigurationType_SDK + 1.

Inductive logs_proto_mobilesdk_ios_ICoreConfiguration_BuildType : Type :=
| logs_proto_mobilesdk_ios_ICoreConfiguration_BuildType_UNKNOWN_BUILD_TYPE
| logs_proto_mobilesdk_ios_ICoreConfiguration_BuildType_INTERNAL
| logs_proto_mobilesdk_ios_ICoreConfiguration_BuildType_EAP
| logs_proto_mobilesdk_ios_ICoreConfiguration_BuildType_PROD.

Definition logs_proto_mobilesdk_ios_ICoreConfiguration_BuildType_value (e : logs_proto_mobilesdk_ios_ICoreConfiguration_BuildType) : Z :=
  match e with
  | logs_proto_mobilesdk_ios_ICoreConfiguration_BuildType_UNKNOWN_BUILD_TYPE => 0
  | logs_proto_mobilesdk_ios_ICoreConfiguration_BuildType_INTERNAL => 1
  | logs_proto_mobilesdk_ios_ICoreConfiguration_BuildType_EAP => 2
  | logs_proto_mobilesdk_ios_ICoreConfiguration_BuildType_PROD => 3
  end.

Definition logs_proto_mobilesdk_ios_ICoreConfiguration_BuildType_MIN : logs_proto_mobilesdk_ios_ICoreConfiguration_BuildType := logs_proto_mobilesdk_ios_ICoreConfiguration_BuildType_UNKNOWN_BUILD_TYPE.
Definition logs_proto_mobilesdk_ios_ICoreConfiguration_BuildType_MAX : logs_proto_mobilesdk_ios_ICoreConfiguration_BuildType := logs_proto_mobilesdk_ios_ICoreConfiguration_BuildType_PROD.
Definition logs_proto_mobilesdk_ios_ICoreConfiguration_BuildType_ARRAYSIZE : Z := logs_proto_mobilesdk_ios_ICoreConfiguration_BuildType_value logs_proto_mobilesdk_ios_ICoreConfiguration_BuildType_PROD + 1.

Inductive logs_proto_mobilesdk_ios_ICoreConfiguration_ServiceType : Type :=
| logs_proto_mobilesdk_ios_ICoreConfiguration_ServiceType_UNKNOWN_SDK_SERVICE
| logs_proto_mobilesdk_ios_ICoreConfiguration_ServiceType_ICORE
| logs_proto_mobilesdk_ios_ICoreConfiguration_ServiceType_ADMOB
| logs_proto_mobilesdk_ios_ICoreConfiguration_ServiceType_APP_INVITE
| logs_proto_mobilesdk_ios_ICoreConfiguration_ServiceType_SIGN_IN
| logs_proto_mobilesdk_ios_ICoreConfiguration_ServiceType_GCM
| logs_proto_mobilesdk_ios_ICoreConfiguration_ServiceType_MAPS
| logs_proto_mobilesdk_ios_ICoreConfiguration_ServiceType_SCION
| logs_proto_mobilesdk_ios_ICoreConfiguration_ServiceType_ANALYTICS
| logs_proto_mobilesdk_ios_ICoreConfiguration_ServiceType_APP_INDEXING
| logs_proto_mobilesdk_ios_ICoreConfiguration_ServiceType_CONFIG
| logs_proto_mobilesdk_ios_ICoreConfiguration_ServiceType_DURABLE_DEEP_LINKS
| logs_proto_mobilesdk_ios_ICoreConfiguration_ServiceType_CRASH
| logs_proto_mobilesdk_ios_ICoreConfiguration_ServiceType_AUTH
| logs_proto_mobilesdk_ios_ICoreConfiguration_ServiceType_DATABASE
| logs_proto_mobilesdk_ios_ICoreConfiguration_ServiceType_STORAGE
| logs_proto_mobilesdk_ios_ICoreConfiguration_ServiceType_MESSAGING
| logs_proto_mobilesdk_ios_ICoreConfiguration_ServiceType_MEASUREMENT
| logs_proto_mobilesdk_ios_ICoreConfiguration_ServiceType_REMOTE_CONFIG
| logs_proto_mobilesdk_ios_ICoreConfiguration_ServiceType_DYNAMIC_LINKS
| logs_proto_mobilesdk_ios_ICoreConfiguration_ServiceType_INVITES
| logs_proto_mobilesdk_ios_ICoreConfiguration_ServiceType_AUTH_UI
| logs_proto_mobilesdk_ios_ICoreConfiguration_ServiceType_FIRESTORE
| logs_proto_mobilesdk_ios_ICoreConfiguration_ServiceType_PERFORMANCE
| logs_proto_mobilesdk_ios_ICoreConfiguration_ServiceType_ML_VISION_ON_DEVICE_FACE
| logs_proto_mobilesdk_ios_ICoreConfiguration_ServiceType_ML_VISION_ON_DEVICE_BARCODE
| logs_proto_mobilesdk_ios_ICoreConfiguration_ServiceType_ML_VISION_ON_DEVICE_TEXT
| logs_proto_mobilesdk_ios_ICoreConfiguration_ServiceType_ML_VISION_ON_DEVICE_LABEL
| logs_proto_mobilesdk_ios_ICoreConfiguration_ServiceType_ML_MODEL_INTERPRETER
| logs_proto_mobilesdk_ios_ICoreConfiguration_ServiceType_IN_APP_MESSAGING
| logs_proto_mobilesdk_ios_ICoreConfiguration_ServiceType_FUNCTIONS
| logs_proto_mobilesdk_ios_ICoreConfiguration_ServiceType_ML_NATURAL_LANGUAGE
| logs_proto_mobilesdk_ios_ICoreConfiguration_ServiceType_ML_VISION_ON_DEVICE_AUTOML
| logs_proto_mobilesdk_ios_ICoreConfiguration_ServiceType_ML_VISION_ON_DEVICE_OBJECT_DETECTION.

Definition logs_proto_mobilesdk_ios_ICoreConfiguration_ServiceType_value (e : logs_proto_mobilesdk_ios_ICoreConfiguration_ServiceType) : Z :=
  match e with
  | logs_proto_mobilesdk_ios_ICoreConfiguration_ServiceType_UNKNOWN_SDK_SERVICE => 0
  | logs_proto_mobilesdk_ios_ICoreConfiguration_ServiceType_ICORE => 1
  | logs_proto_mobilesdk_ios_ICoreConfiguration_ServiceType_ADMOB => 2
  | logs_proto_mobilesdk_ios_ICoreConfiguration_ServiceType_APP_INVITE => 3
  | logs_proto_mobilesdk_ios_ICoreConfiguration_ServiceType_SIGN_IN => 5
  | logs_proto_mobilesdk_ios_ICoreConfiguration_ServiceType_GCM => 6
  | logs_proto_mobilesdk_ios_ICoreConfiguration_ServiceType_MAPS => 7
  | logs_proto_mobilesdk_ios_ICoreConfiguration_ServiceType_SCION => 8
  | logs_proto_mobilesdk_ios_ICoreConfiguration_ServiceType_ANALYTICS => 9
  | logs_proto_mobilesdk_ios_ICoreConfiguration_ServiceType_APP_INDEXING => 10
  | logs_proto_mobilesdk_ios_ICoreConfiguration_ServiceType_CONFIG => 11
  | logs_proto_mobilesdk_ios_ICoreConfiguration_ServiceType_DURABLE_DEEP_LINKS => 12
  | logs_proto_mobilesdk_ios_ICoreConfiguration_ServiceType_CRASH => 13
  | logs_proto_mobilesdk_ios_ICoreConfiguration_ServiceType_AUTH => 14
  | logs_proto_mobilesdk_ios_ICoreConfiguration_ServiceType_DATABASE => 15
  | logs_proto_mobilesdk_ios_ICoreConfiguration_ServiceType_STORAGE => 16
  | logs_proto_mobilesdk_ios_ICoreConfiguration_ServiceType_MESSAGING => 17
  | logs_proto_mobilesdk_ios_ICoreConfiguration_ServiceType_MEASUREMENT => 18
  | logs_proto_mobilesdk_ios_ICoreConfiguration_ServiceType_REMOTE_CONFIG => 19
  | logs_proto_mobilesdk_ios_ICoreConfiguration_ServiceType_DYNAMIC_LINKS => 20
  | logs_proto_mobilesdk_ios_ICoreConfiguration_ServiceType_INVITES => 21
  | logs_proto_mobilesdk_ios_ICoreConfiguration_ServiceType_AUTH_UI => 22
  | logs_proto_mobilesdk_ios_ICoreConfiguration_ServiceType_FIRESTORE => 23
  | logs_proto_mobilesdk_ios_ICoreConfiguration_ServiceType_PERFORMANCE => 24
  | logs_proto_mobilesdk_ios_ICoreConfiguration_ServiceType_ML_VISION_ON_DEVICE_FACE => 26
  | logs_proto_mobilesdk_ios_ICoreConfiguration_ServiceType_ML_VISION_ON_DEVICE_BARCODE => 27
  | logs_proto_mobilesdk_ios_ICoreConfiguration_ServiceType_ML_VISION_ON_DEVICE_TEXT => 28
  | logs_proto_mobilesdk_ios_ICoreConfiguration_ServiceType_ML_VISION_ON_DEVICE_LABEL => 29
  | logs_proto_mobilesdk_ios_ICoreConfiguration_ServiceType_ML_MODEL_INTERPRETER => 30
  | logs_proto_mobilesdk_ios_ICoreConfiguration_ServiceType_IN_APP_MESSAGING => 31
  | logs_proto_mobilesdk_ios_ICoreConfiguration_ServiceType_FUNCTIONS => 32
  | logs_proto_mobilesdk_ios_ICoreConfiguration_ServiceType_ML_NATURAL_LANGUAGE => 33
  | logs_proto_mobilesdk_ios_ICoreConfiguration_ServiceType_ML_VISION_ON_DEVICE_AUTOML => 34
  | logs_proto_mobilesdk_ios_ICoreConfiguration_ServiceType_ML_VISION_ON_DEVICE_OBJECT_DETECTION => 35
  end.

Definition logs_proto_mobilesdk_ios_ICoreConfiguration_ServiceType_MIN : logs_proto_mobilesdk_ios_ICoreConfiguration_ServiceType := logs_proto_mobilesdk_ios_ICoreConfiguration_ServiceType_UNKNOWN_SDK_SERVICE.
Definition logs_proto_mobilesdk_ios_ICoreConfiguration_ServiceType_MAX : logs_proto_mobilesdk_ios_ICoreConfiguration_ServiceType := logs_proto_mobilesdk_ios_ICoreConfiguration_ServiceType_ML_VISION_ON_DEVICE_OBJECT_DETECTION.
Definition logs_proto_mobilesdk_ios_ICoreConfiguration_ServiceType_ARRAYSIZE : Z := logs_proto_mobilesdk_ios_ICoreConfiguration_ServiceType_value logs_proto_mobilesdk_ios_ICoreConfiguration_ServiceType_ML_VISION_ON_DEVICE_OBJECT_DETECTION + 1.

Inductive logs_proto_mobilesdk_ios_ICoreConfiguration_PodName : Type :=
| logs_proto_mobilesdk_ios_ICoreConfiguration_PodName_UNKNOWN_POD_NAME
| logs_proto_mobilesdk_ios_ICoreConfiguration_PodName_GOOGLE
| logs_proto_mobilesdk_ios_ICoreConfiguration_PodName_FIREBASE.

Definition logs_proto_mobilesdk_ios_ICoreConfiguration_PodName_value (e : logs_proto_mobilesdk_ios_ICoreConfiguration_PodName) : Z :=
  match e with
  | logs_proto_mobilesdk_ios_ICoreConfiguration_PodName_UNKNOWN_POD_NAME => 0
  | logs_proto_mobilesdk_ios_ICoreConfiguration_PodName_GOOGLE => 1
  | logs_proto_mobilesdk_ios_ICoreConfiguration_PodName_FIREBASE => 2
  end.

Definition logs_proto_mobilesdk_ios_ICoreConfiguration_PodName_MIN : logs_proto_mobilesdk_ios_ICoreConfiguration_PodName := logs_proto_mobilesdk_ios_ICoreConfiguration_PodName_UNKNOWN_POD_NAME.
Definition logs_proto_mobilesdk_ios_ICoreConfiguration_PodName_MAX : logs_proto_mobilesdk_ios_ICoreConfiguration_PodName := logs_proto_mobilesdk_ios_ICoreConfiguration_PodName_FIREBASE.
Definition logs_proto_mobilesdk_ios_ICoreConfiguration_PodName_ARRAYSIZE : Z := logs_proto_mobilesdk_ios_ICoreConfiguration_PodName_value logs_proto_mobilesdk_ios_ICoreConfiguration_PodName_FIREBASE + 1.

Inductive logs_proto_mobilesdk_ios_ICoreConfiguration_DeploymentType : Type :=
| logs_proto_mobilesdk_ios_ICoreConfiguration_DeploymentType_UNKNOWN
| logs_proto_mobilesdk_ios_ICoreConfiguration_DeploymentType_COCOAPODS
| logs_proto_mobilesdk_ios_ICoreConfiguration_DeploymentType_ZIP_FILE
| logs_proto_mobilesdk_ios_ICoreConfiguration_DeploymentType_CARTHAGE
| logs_proto_mobilesdk_ios_ICoreConfiguration_DeploymentType_SPM.

Definition logs_proto_mobilesdk_ios_ICoreConfiguration_DeploymentType_value (e : logs_proto_mobilesdk_ios_ICoreConfiguration_DeploymentType) : Z :=
  match e with
  | logs_proto_mobilesdk_ios_ICoreConfiguration_DeploymentType_UNKNOWN => 0
  | logs_proto_mobilesdk_ios_ICoreConfiguration_DeploymentType_COCOAPODS => 1
  | logs_proto_mobilesdk_ios_ICoreConfiguration_DeploymentType_ZIP_FILE => 2
  | logs_proto_mobilesdk_ios_ICoreConfiguration_DeploymentType_CARTHAGE => 3
  | logs_proto_mobilesdk_ios_ICoreConfiguration_DeploymentType_SPM => 4
  end.

Definition logs_proto_mobilesdk_ios_ICoreConfiguration_DeploymentType_MIN : logs_proto_mobilesdk_ios_ICoreConfiguration_DeploymentType := logs_proto_mobilesdk_ios_ICoreConfiguration_DeploymentType_UNKNOWN.
Definition logs_proto_mobilesdk_ios_ICoreConfiguration_DeploymentType_MAX : logs_proto_mobilesdk_ios_ICoreConfiguration_DeploymentType := logs_proto_mobilesdk_ios_ICoreConfiguration_DeploymentType_SPM.
Definition logs_proto_mobilesdk_ios_ICoreConfiguration_DeploymentType_ARRAYSIZE : Z := logs_proto_mobilesdk_ios_ICoreConfiguration_DeploymentType_value logs_proto_mobilesdk_ios_ICoreConfiguration_DeploymentType_SPM + 1.

Definition logs_proto_mobilesdk_ios_ICoreConfiguration : struct_t :=
  [[scalar_member "has_configuration_type" 1];
   [scalar_member "configuration_type" 4];
   [scalar_member "sdk_service_installed_count" 4];
   [ptr_member "sdk_service_installed" 4];
   [ptr_member "device_model" (sizeof pb_bytes_array_t)];
   [ptr_member "app_id" (sizeof pb_bytes_array_t)];
   [ptr_member "bundle_id" (sizeof pb_bytes_array_t)];
   [scalar_member "has_pod_name" 1];
   [scalar_member "pod_name" 4];
   [ptr_member "icore_version" (sizeof pb_bytes_array_t)];
   [ptr_member "sdk_version" (sizeof pb_bytes_array_t)];
   [scalar_member "has_sdk_name" 1];
   [scalar_member "sdk_name" 4];
   [scalar_member "has_app_count" 1];
   [scalar_member "app_count" 4];
   [ptr_member "os_version" (sizeof pb_bytes_array_t)];
   [ptr_member "min_supported_ios_version" (sizeof pb_bytes_array_t)];
   [scalar_member "has_use_default_app" 1];
   [scalar_member "use_default_app" 1];
   [scalar_member "has_deployed_in_app_store" 1];
   [scalar_member "deployed_in_app_store" 1];
   [scalar_member "has_dynamic_framework_count" 1];
   [scalar_member "dynamic_framework_count" 4];
   [ptr_member "apple_framework_version" (sizeof pb_bytes_array_t)];
   [scalar_member "has_using_zip_file" 1];
   [scalar_member "using_zip_file" 1];
   [scalar_member "has_deployment_type" 1];
   [scalar_member "deployment_type" 4];
   [ptr_member "platform_info" (sizeof pb_bytes_array_t)];
   [scalar_member "has_swizzling_enabled" 1];
   [scalar_member "swizzling_enabled" 1];
   [scalar_member "has_using_gdt" 1];
   [scalar_member "using_gdt" 1]].

(** The field tags, by message and member. *)
Definition logs_proto_mobilesdk_ios_tags : list (string * string * Z) :=
  [("logs_proto_mobilesdk_ios_ICoreConfiguration", "pod_name", 16);
   ("logs_proto_mobilesdk_ios_ICoreConfiguration", "configuration_type", 1);
   ("logs_proto_mobilesdk_ios_ICoreConfiguration", "icore_version", 18);
   ("logs_proto_mobilesdk_ios_ICoreConfiguration", "sdk_version", 19);
   ("logs_proto_mobilesdk_ios_ICoreConfiguration", "sdk_service_installed", 7);
   ("logs_proto_mobilesdk_ios_ICoreConfiguration", "sdk_name", 20);
   ("logs_proto_mobilesdk_ios_ICoreConfiguration", "device_model", 9);
   ("logs_proto_mobilesdk_ios_ICoreConfiguration", "os_version", 22);
   ("logs_proto_mobilesdk_ios_ICoreConfiguration", "app_id", 10);
   ("logs_proto_mobilesdk_ios_ICoreConfiguration", "bundle_id", 12);
   ("logs_proto_mobilesdk_ios_ICoreConfiguration", "min_supported_ios_version", 24);
   ("logs_proto_mobilesdk_ios_ICoreConfiguration", "use_default_app", 25);
   ("logs_proto_mobilesdk_ios_ICoreConfiguration", "app_count", 21);
   ("logs_proto_mobilesdk_ios_ICoreConfiguration", "deployed_in_app_store", 26);
   ("logs_proto_mobilesdk_ios_ICoreConfiguration", "dynamic_framework_count", 27);
   ("logs_proto_mobilesdk_ios_ICoreConfiguration", "apple_framework_version", 28);
   ("logs_proto_mobilesdk_ios_ICoreConfiguration", "using_zip_file", 29);
   ("logs_proto_mobilesdk_ios_ICoreConfiguration", "deployment_type", 30);
   ("logs_proto_mobilesdk_ios_ICoreConfiguration", "platform_info", 31);
   ("logs_proto_mobilesdk_ios_ICoreConfiguration", "swizzling_enabled", 33);
   ("logs_proto_mobilesdk_ios_ICoreConfiguration", "using_gdt", 36)].



Definition logs_proto_mobilesdk_ios_ICoreConfiguration_fields_id : Z := 1.

Definition logs_proto_mobilesdk_ios_ICoreConfiguration_fields : list pb_field_t :=
  [PB_FIELD 1 UENUM OPTIONAL STATIC FIRST logs_proto_mobilesdk_ios_ICoreConfiguration "configuration_type" "configuration_type" PNull;
   PB_FIELD 7 UENUM REPEATED POINTER OTHER logs_proto_mobilesdk_ios_ICoreConfiguration "sdk_service_installed" "configuration_type" PNull;
   PB_FIELD 9 BYTES OPTIONAL POINTER OTHER logs_proto_mobilesdk_ios_ICoreConfiguration "device_model" "sdk_service_installed" PNull;
   PB_FIELD 10 BYTES OPTIONAL POINTER OTHER logs_proto_mobilesdk_ios_ICoreConfiguration "app_id" "device_model" PNull;
   PB_FIELD 12 BYTES OPTIONAL POINTER OTHER logs_proto_mobilesdk_ios_ICoreConfiguration "bundle_id" "app_id" PNull;
   PB_FIELD 16 UENUM OPTIONAL STATIC OTHER logs_proto_mobilesdk_ios_ICoreConfiguration "pod_name" "bundle_id" PNull;
   PB_FIELD 18 BYTES OPTIONAL POINTER OTHER logs_proto_mobilesdk_ios_ICoreConfiguration "icore_version" "pod_name" PNull;
   PB_FIELD 19 BYTES OPTIONAL POINTER OTHER logs_proto_mobilesdk_ios_ICoreConfiguration "sdk_version" "icore_version" PNull;
   PB_FIELD 20 UENUM OPTIONAL STATIC OTHER logs_proto_mobilesdk_ios_ICoreConfiguration "sdk_name" "sdk_version" PNull;
   PB_FIELD 21 INT32 OPTIONAL STATIC OTHER logs_proto_mobilesdk_ios_ICoreConfiguration "app_count" "sdk_name" PNull;
   PB_FIELD 22 BYTES OPTIONAL POINTER OTHER logs_proto_mobilesdk_ios_ICoreConfiguration "os_version" "app_count" PNull;
   PB_FIELD 24 BYTES OPTIONAL POINTER OTHER logs_proto_mobilesdk_ios_ICoreConfiguration "min_supported_ios_version" "os_version" PNull;
   PB_FIELD 25 BOOL OPTIONAL STATIC OTHER logs_proto_mobilesdk_ios_ICoreConfiguration "use_default_app" "min_supported_ios_version" PNull;
   PB_FIELD 26 BOOL OPTIONAL STATIC OTHER logs_proto_mobilesdk_ios_ICoreConfiguration "deployed_in_app_store" "use_default_app" PNull;
   PB_FIELD 27 INT32 OPTIONAL STATIC OTHER logs_proto_mobilesdk_ios_ICoreConfiguration "dynamic_framework_count" "deployed_in_app_store" PNull;
   PB_FIELD 28 BYTES OPTIONAL POINTER OTHER logs_proto_mobilesdk_ios_ICoreConfiguration "apple_framework_version" "dynamic_framework_count" PNull;
   PB_FIELD 29 BOOL OPTIONAL STATIC OTHER logs_proto_mobilesdk_ios_ICoreConfiguration "using_zip_file" "apple_framework_version" PNull;
   PB_FIELD 30 UENUM OPTIONAL STATIC OTHER logs_proto_mobilesdk_ios_ICoreConfiguration "deployment_type" "using_zip_file" PNull;
   PB_FIELD 31 BYTES OPTIONAL POINTER OTHER logs_proto_mobilesdk_ios_ICoreConfiguration "platform_info" "deployment_type" PNull;
   PB_FIELD 33 BOOL OPTIONAL STATIC OTHER logs_proto_mobilesdk_ios_ICoreConfiguration "swizzling_enabled" "platform_info" PNull;
   PB_FIELD 36 BOOL OPTIONAL STATIC OTHER logs_proto_mobilesdk_ios_ICoreConfiguration "using_gdt" "swizzling_enabled" PNull;
   PB_LAST_FIELD].

(** The descriptor arrays by address. *)
Definition logs_proto_mobilesdk_ios_fields_of (t : Z) : option (list pb_field_t) :=
  if t =? logs_proto_mobilesdk_ios_ICoreConfiguration_fields_id then Some logs_proto_mobilesdk_ios_ICoreConfiguration_fields else
  None.

(** The initialisers, member by member. *)
Definition logs_proto_mobilesdk_ios_ICoreConfiguration_init_default : list (string * init_value) :=
  [("has_configuration_type", IVal 0);
   ("configuration_type", IVal (logs_proto_mobilesdk_ios_ICoreConfiguration_ConfigurationType_value logs_proto_mobilesdk_ios_ICoreConfiguration_ConfigurationType_MIN));
   ("sdk_service_installed_count", IVal 0);
   ("sdk_service_installed", IVal 0);
   ("device_model", IVal 0);
   ("app_id", IVal 0);
   ("bundle_id", IVal 0);
   ("has_pod_name", IVal 0);
   ("pod_name", IVal (logs_proto_mobilesdk_ios_ICoreConfiguration_PodName_value logs_proto_mobilesdk_ios_ICoreConfiguration_PodName_MIN));
   ("icore_version", IVal 0);
   ("sdk_version", IVal 0);
   ("has_sdk_name", IVal 0);
   ("sdk_name", IVal (logs_proto_mobilesdk_ios_ICoreConfiguration_ServiceType_value logs_proto_mobilesdk_ios_ICoreConfiguration_ServiceType_MIN));
   ("has_app_count", IVal 0);
   ("app_count", IVal 0);
   ("os_version", IVal 0);
   ("min_supported_ios_version", IVal 0);
   ("has_use_default_app", IVal 0);
   ("use_default_app", IVal 0);
   ("has_deployed_in_app_store", IVal 0);
   ("deployed_in_app_store", IVal 0);
   ("has_dynamic_framework_count", IVal 0);
   ("dynamic_framework_count", IVal 0);
   ("apple_framework_version", IVal 0);
   ("has_using_zip_file", IVal 0);
   ("using_zip_file", IVal 0);
   ("has_deployment_type", IVal 0);
   ("deployment_type", IVal (logs_proto_mobilesdk_ios_ICoreConfiguration_DeploymentType_value logs_proto_mobilesdk_ios_ICoreConfiguration_DeploymentType_MIN));
   ("platform_info", IVal 0);
   ("has_swizzling_enabled", IVal 0);
   ("swizzling_enabled", IVal 0);
   ("has_using_gdt", IVal 0);
   ("using_gdt", IVal 0)].

Definition logs_proto_mobilesdk_ios_ICoreConfiguration_init_zero : list (string * init_value) :=
  [("has_configuration_type", IVal 0);
   ("configuration_type", IVal (logs_proto_mobilesdk_ios_ICoreConfiguration_ConfigurationType_value logs_proto_mobilesdk_ios_ICoreConfiguration_ConfigurationType_MIN));
   ("sdk_service_installed_count", IVal 0);
   ("sdk_service_installed", IVal 0);
   ("device_model", IVal 0);
   ("app_id", IVal 0);
   ("bundle_id", IVal 0);
   ("has_pod_name", IVal 0);
   ("pod_name", IVal (logs_proto_mobilesdk_ios_ICoreConfiguration_PodName_value logs_proto_mobilesdk_ios_ICoreConfiguration_PodName_MIN));
   ("icore_version", IVal 0);
   ("sdk_version", IVal 0);
   ("has_sdk_name", IVal 0);
   ("sdk_name", IVal (logs_proto_mobilesdk_ios_ICoreConfiguration_ServiceType_value logs_proto_mobilesdk_ios_ICoreConfiguration_ServiceType_MIN));
   ("has_app_count", IVal 0);
   ("app_count", IVal 0);
   ("os_version", IVal 0);
   ("min_supported_ios_version", IVal 0);
   ("has_use_default_app", IVal 0);
   ("use_default_app", IVal 0);
   ("has_deployed_in_app_store", IVal 0);
   ("deployed_in_app_store", IVal 0);
   ("has_dynamic_framework_count", IVal 0);
   ("dynamic_framework_count", IVal 0);
   ("apple_framework_version", IVal 0);
   ("has_using_zip_file", IVal 0);
   ("using_zip_file", IVal 0);
   ("has_deployment_type", IVal 0);
   ("deployment_type", IVal (logs_proto_mobilesdk_ios_ICoreConfiguration_DeploymentType_value logs_proto_mobilesdk_ios_ICoreConfiguration_DeploymentType_MIN));
   ("platform_info", IVal 0);
   ("has_swizzling_enabled", IVal 0);
   ("swizzling_enabled", IVal 0);
   ("has_using_gdt", IVal 0);
   ("using_gdt", IVal 0)].

