(* ===== verification/Base64.v ===== *)
(** * Base64 (fbase64.c of SocketRocket)

    The code, then its proof against the encoding of RFC 1521. *)
From S2P Require Import Prelude.

(** ** Encoding

    [f_b64_ntop] and [f_b64_pton] on explicit buffers: a list is the memory a
    pointer leads to, and an access past its end is [UB]. *)

(** [Base64[]], with its terminating zero, and [Pad64]. *)
Definition Base64 : list Z :=
  ((fun a => Z.of_nat (Ascii.nat_of_ascii a)) <$> String.list_ascii_of_string
    "ABCDEFGHIJKLMNOPQRSTUVWXYZabcdefghijklmnopqrstuvwxyz0123456789+/") ++ [0].
Definition Pad64 : Z := 61.

Definition base64_char (i : Z) : res Z := of_option (Base64 !! Z.to_nat i).

(** [target[i] = c] and [target[i]]. *)
Definition put_at (target : list Z) (i c : Z) : res (list Z) :=
  if (0 <=? i) && (i <? zlength target) then Ret (<[Z.to_nat i := c]> target) else UB.
Definition get_at (target : list Z) (i : Z) : res Z :=
  if 0 <=? i then of_option (target !! Z.to_nat i) else UB.

(** The values [target[datalength++] = c] for a list of characters. *)
Fixpoint put_all (target : list Z) (i : Z) (cs : list Z) : res (list Z) :=
  match cs with
  | [] => Ret target
  | c :: cs' => res_bind (put_at target i c) (fun target => put_all target (i + 1) cs')
  end.

(** The four [output] values of a group of three input bytes. *)
Definition output0 (i0 : Z) : Z := Z.shiftr i0 2.
Definition output1 (i0 i1 : Z) : Z := u8 (Z.shiftl (i0 .& 0x03) 4 + Z.shiftr i1 4).
Definition output2 (i1 i2 : Z) : Z := u8 (Z.shiftl (i1 .& 0x0f) 2 + Z.shiftr i2 6).
Definition output3 (i2 : Z) : Z := i2 .& 0x3f.

(** The state of the loops: the source from [src] on, [srclength], the target
    buffer and [datalength]. *)
Record ntop_state : Type := NtopState {
  n_src : list Z;
  n_srclength : Z;
  n_target : list Z;
  n_datalength : Z;
}.

Definition ntop_chars (outs : list Z) : res (list Z) :=
  foldr (fun o acc => res_bind (base64_char o) (fun c =>
    res_bind acc (fun cs => Ret (c :: cs)))) (Ret []) outs.

(** One iteration of [while (2 < srclength)]; leaving it with [inl r] is
    [return r], with [inr] the end of the loop. *)
Definition ntop_body (targsize : Z) (st : ntop_state)
  : res (ntop_state + ((Z * list Z) + ntop_state)) :=
  if 2 <? n_srclength st then
    match n_src st with
    | i0 :: i1 :: i2 :: src =>
        if targsize <? u64 (n_datalength st + 4) then Ret (inr (inl (-1, n_target st)))
        else
          res_bind (ntop_chars [output0 i0; output1 i0 i1; output2 i1 i2; output3 i2]) (fun cs =>
          res_bind (put_all (n_target st) (n_datalength st) cs) (fun target =>
          Ret (inl (NtopState src (u64 (n_srclength st - 3)) target (n_datalength st + 4)))))
    | _ => UB
    end
  else Ret (inr (inr st)).

(** The last one or two bytes, with padding. *)
Definition ntop_tail (targsize : Z) (st : ntop_state) : res ((Z * list Z) + ntop_state) :=
  if n_srclength st =? 0 then Ret (inr st)
  else
    match (if n_srclength st =? 1
           then match n_src st with i0 :: src => Some (i0, 0, src) | _ => None end
           else match n_src st with i0 :: i1 :: src => Some (i0, i1, src) | _ => None end) with
    | None => UB
    | Some (i0, i1, src) =>
        if targsize <? u64 (n_datalength st + 4) then Ret (inl (-1, n_target st))
        else
          res_bind (ntop_chars [output0 i0; output1 i0 i1]) (fun cs =>
          res_bind (if n_srclength st =? 1 then Ret Pad64 else base64_char (output2 i1 0)) (fun c2 =>
          res_bind (put_all (n_target st) (n_datalength st) (cs ++ [c2; Pad64])) (fun target =>
          Ret (inr (NtopState src (n_srclength st) target (n_datalength st + 4))))))
    end.

(** What follows the loop: the tail and the terminating zero. *)
Definition ntop_end (targsize : Z) (r : (Z * list Z) + ntop_state) : res (Z * list Z) :=
  match r with
  | inl out => Ret out
  | inr st =>
      res_bind (ntop_tail targsize st) (fun r =>
      match r with
      | inl out => Ret out
      | inr st =>
          if targsize <=? n_datalength st then Ret (-1, n_target st)
          else
            (* Returned value doesn't count \0. *)
            res_bind (put_at (n_target st) (n_datalength st) 0) (fun target =>
            Ret (s32 (n_datalength st), target))
      end)
  end.

(** The return value and the target buffer. *)
Definition f_b64_ntop (src : list Z) (srclength : Z) (target : list Z) (targsize : Z)
  : res (Z * list Z) :=
  res_bind (while (ntop_body targsize) (NtopState src srclength target 0)) (ntop_end targsize).

(** ** Decoding *)

Abbreviation s8 := (sext 8).

(** [isspace] of the C locale. Its argument must be [EOF], which is -1, or the
    value of an [unsigned char]; anything else is undefined. *)
Definition is_white (ch : Z) : bool := ((9 <=? ch) && (ch <=? 13)) || (ch =? 32).
Definition isspace (ch : Z) : res bool :=
  if (-1 <=? ch) && (ch <=? 255) then Ret (is_white ch) else UB.

(** [strchr(Base64, ch) - Base64], for a non-zero [ch]. *)
Definition base64_index (ch : Z) : option Z :=
  (fun p : nat * Z => Z.of_nat p.1) <$> list_find (fun c => c = ch) (take 64 Base64).

(** [ch = *src++]: a [char], which is signed on the platforms of the library
    (iOS on arm64 and x86-64), is converted to [int]. *)
Definition next_char (src : list Z) : res (Z * list Z) :=
  match src with ch :: src' => Ret (s8 ch, src') | [] => UB end.

(** [tarindex] and [state]; the target is [None] for a null pointer. *)
Record pton_state : Type := PtonState {
  p_src : list Z;
  p_target : option (list Z);
  p_tarindex : Z;
  p_state : Z;
}.

(** [target[i] = v], [target[i] |= v], when there is a target. *)
Definition target_set (target : option (list Z)) (i v : Z) : res (option (list Z)) :=
  match target with
  | None => Ret None
  | Some t => res_bind (put_at t i (u8 v)) (fun t => Ret (Some t))
  end.
Definition target_or (target : option (list Z)) (i v : Z) : res (option (list Z)) :=
  match target with
  | None => Ret None
  | Some t => res_bind (get_at t i) (fun old =>
      res_bind (put_at t i (u8 (old .| v))) (fun t => Ret (Some t)))
  end.

(** The switch on [state] for the value [v] of one character; [None] is
    [return -1]. *)
Definition pton_switch (targsize v : Z) (st : pton_state) : res (option pton_state) :=
  let i := p_tarindex st in
  let full n := match p_target st with Some _ => targsize <=? u64 n | None => false end in
  if p_state st =? 0 then
    if full i then Ret None
    else res_bind (target_set (p_target st) i (Z.shiftl v 2)) (fun t =>
      Ret (Some (PtonState (p_src st) t i 1)))
  else if p_state st =? 1 then
    if full (u32 (i + 1)) then Ret None
    else res_bind (target_or (p_target st) i (Z.shiftr v 4)) (fun t =>
      res_bind (target_set t (u32 (i + 1)) (Z.shiftl (v .& 0x0f) 4)) (fun t =>
      Ret (Some (PtonState (p_src st) t (u32 (i + 1)) 2))))
  else if p_state st =? 2 then
    if full (u32 (i + 1)) then Ret None
    else res_bind (target_or (p_target st) i (Z.shiftr v 2)) (fun t =>
      res_bind (target_set t (u32 (i + 1)) (Z.shiftl (v .& 0x03) 6)) (fun t =>
      Ret (Some (PtonState (p_src st) t (u32 (i + 1)) 3))))
  else if p_state st =? 3 then
    if full i then Ret None
    else res_bind (target_or (p_target st) i v) (fun t =>
      Ret (Some (PtonState (p_src st) t (u32 (i + 1)) 0)))
  else Ret (Some st).

(** One iteration of [while ((ch = *src++) != '\0')]: left with the last
    character read, or with the target buffer for [return -1]. *)
Definition pton_body (targsize : Z) (st : pton_state)
  : res (pton_state + (option (list Z) + (Z * pton_state))) :=
  res_bind (next_char (p_src st)) (fun '(ch, src) =>
  let st := PtonState src (p_target st) (p_tarindex st) (p_state st) in
  if ch =? 0 then Ret (inr (inr (ch, st)))
  else res_bind (isspace ch) (fun space =>
  if space then Ret (inl st)
  else if ch =? Pad64 then Ret (inr (inr (ch, st)))
  else
    match base64_index ch with
    | None => Ret (inr (inl (p_target st))) (* A non-base64 character. *)
    | Some v =>
        res_bind (pton_switch targsize v st) (fun r =>
        match r with Some st => Ret (inl st) | None => Ret (inr (inl (p_target st))) end)
    end)).

(** [for (; ch != '\0'; ch = *src++) if (!isspace(ch)) break;]. *)
Definition skip_spaces (ch : Z) (src : list Z) : res (Z * list Z) :=
  while (fun '(ch, src) =>
    if ch =? 0 then Ret (inr (ch, src))
    else res_bind (isspace ch) (fun space =>
      if negb space then Ret (inr (ch, src))
      else res_bind (next_char src) (fun r => Ret (inl r)))) (ch, src).

(** After the first pad character: [true] when the end is well formed. *)
Definition pton_padding (st : pton_state) : res bool :=
  res_bind (next_char (p_src st)) (fun '(ch, src) =>
  if (p_state st =? 0) || (p_state st =? 1) then Ret false
  else
    res_bind
      (if p_state st =? 2 then
         res_bind (skip_spaces ch src) (fun '(ch, src) =>
         if negb (ch =? Pad64) then Ret None
         else res_bind (next_char src) (fun r => Ret (Some r)))
       else Ret (Some (ch, src)))
      (fun r =>
      match r with
      | None => Ret false
      | Some (ch, src) =>
          res_bind (skip_spaces ch src) (fun '(ch, _) =>
          if negb (ch =? 0) then Ret false
          else
            (* the "extra" bits that slopped past the last full byte *)
            match p_target st with
            | None => Ret true
            | Some t => res_bind (get_at t (p_tarindex st)) (fun b => Ret (b =? 0))
            end)
      end)).

(** What follows the loop. *)
Definition pton_end (r : option (list Z) + (Z * pton_state)) : res (Z * option (list Z)) :=
  match r with
  | inl t => Ret (-1, t)
  | inr (ch, st) =>
      res_bind (if ch =? Pad64 then pton_padding st else Ret (p_state st =? 0)) (fun ok =>
      Ret (if ok then s32 (p_tarindex st) else -1, p_target st))
  end.

Definition f_b64_pton (src : list Z) (target : option (list Z)) (targsize : Z)
  : res (Z * option (list Z)) :=
  res_bind (while (pton_body targsize) (PtonState src target 0 0)) pton_end.

(** ** Base64: the code against the encoding of RFC 1521 *)

(** ** The encoding *)
Definition alphabet (i : Z) : Z := default 0 (Base64 !! Z.to_nat i).

Fixpoint base64 (bs : list Z) : list Z :=
  match bs with
  | [] => []
  | [a] => [alphabet (a / 4); alphabet (a mod 4 * 16); Pad64; Pad64]
  | [a; b] => [alphabet (a / 4); alphabet (a mod 4 * 16 + b / 16); alphabet (b mod 16 * 4); Pad64]
  | a :: b :: c :: bs' =>
      alphabet (a / 4) :: alphabet (a mod 4 * 16 + b / 16) ::
      alphabet (b mod 16 * 4 + c / 64) :: alphabet (c mod 64) :: base64 bs'
  end.

(** Lists of bytes in groups of three. *)
Lemma groups_ind (P : list Z -> Prop) :
  P [] -> (forall a, P [a]) -> (forall a b, P [a; b]) ->
  (forall a b c bs, P bs -> P (a :: b :: c :: bs)) -> forall bs, P bs.
Proof.
  intros H0 H1 H2 H3.
  assert (forall n bs, (length bs <= n)%nat -> P bs) as H; [|intros bs; by eapply H].
  induction n as [|n IH]; intros [|a [|b [|c bs]]]; simpl; intros Hn; auto; try lia.
  apply H3, IH. lia.
Qed.

Lemma zlength_base64 bs : zlength (base64 bs) = 4 * ((zlength bs + 2) / 3).
Proof.
  induction bs as [| | |a b c bs IH] using groups_ind; [done|done|done|].
  cbn [base64]. rewrite !zlength_cons, IH.
  replace (1 + (1 + (1 + zlength bs)) + 2) with (zlength bs + 2 + 1 * 3) by lia.
  rewrite Z.div_add by lia. lia.
Qed.

Lemma output_values a b c :
  is_byte a -> is_byte b -> is_byte c ->
  output0 a = a / 4 /\ output1 a b = a mod 4 * 16 + b / 16 /\
  output2 b c = b mod 16 * 4 + c / 64 /\ output3 c = c mod 64.
Proof.
  unfold is_byte, output0, output1, output2, output3, wrap. intros Ha Hb Hc.
  change 0x03 with (Z.ones 2). change 0x0f with (Z.ones 4). change 0x3f with (Z.ones 6).
  rewrite !Z.land_ones, !Z.shiftl_mul_pow2, !Z.shiftr_div_pow2 by lia.
  change (2 ^ 2) with 4. change (2 ^ 4) with 16. change (2 ^ 6) with 64. change (2 ^ 8) with 256.
  pose proof (Z.mod_pos_bound a 4). pose proof (Z.mod_pos_bound b 16).
  assert (0 <= b / 16 < 16) by (split; [apply Z.div_pos|apply Z.div_lt_upper_bound]; lia).
  assert (0 <= c / 64 < 4) by (split; [apply Z.div_pos|apply Z.div_lt_upper_bound]; lia).
  rewrite !(Z.mod_small (_ + _) 256) by lia. done.
Qed.

Lemma output_bounds a b c :
  is_byte a -> is_byte b -> is_byte c ->
  0 <= a / 4 < 64 /\ 0 <= a mod 4 * 16 + b / 16 < 64 /\
  0 <= b mod 16 * 4 + c / 64 < 64 /\ 0 <= c mod 64 < 64.
Proof.
  unfold is_byte. intros Ha Hb Hc.
  pose proof (Z.mod_pos_bound a 4). pose proof (Z.mod_pos_bound b 16). pose proof (Z.mod_pos_bound c 64).
  assert (0 <= a / 4 < 64) by (split; [apply Z.div_pos|apply Z.div_lt_upper_bound]; lia).
  assert (0 <= b / 16 < 16) by (split; [apply Z.div_pos|apply Z.div_lt_upper_bound]; lia).
  assert (0 <= c / 64 < 4) by (split; [apply Z.div_pos|apply Z.div_lt_upper_bound]; lia).
  lia.
Qed.

Lemma base64_char_alphabet i : 0 <= i < 64 -> base64_char i = Ret (alphabet i).
Proof.
  intros Hi. unfold base64_char, alphabet.
  destruct (Base64 !! Z.to_nat i) eqn:E; [done|]. apply lookup_ge_None_1 in E.
  change (length Base64) with 65%nat in E. lia.
Qed.

(** ** Buffers *)
Lemma put_all_app done cs rest :
  zlength cs <= zlength rest ->
  put_all (done ++ rest) (zlength done) cs = Ret ((done ++ cs) ++ zdrop (zlength cs) rest).
Proof.
  revert done rest. induction cs as [|c cs IH]; intros done rest Hlen.
  - cbn [put_all]. by rewrite app_nil_r.
  - rewrite zlength_cons in Hlen. pose proof (zlength_nonneg cs). pose proof (zlength_nonneg done).
    destruct rest as [|r rest]; [change (zlength (@nil Z)) with 0 in Hlen; lia|].
    rewrite zlength_cons in Hlen. cbn [put_all]. unfold put_at.
    rewrite (proj2 (Z.leb_le _ _)), (proj2 (Z.ltb_lt _ _)) by (rewrite ?zlength_app, ?zlength_cons; lia).
    cbn [andb res_bind]. unfold zlength at 1. rewrite Nat2Z.id.
    rewrite insert_app_r_alt, Nat.sub_diag by lia. cbn [list_insert].
    change (<[0%nat:=c]> (r :: rest)) with (c :: rest).
    replace (done ++ c :: rest) with ((done ++ [c]) ++ rest) by (by rewrite <- app_assoc).
    replace (zlength done + 1) with (zlength (done ++ [c])) by (rewrite zlength_app; done).
    rewrite IH by lia. rewrite <- !app_assoc. cbn [app]. do 3 f_equal. f_equal.
    rewrite zlength_cons. unfold zdrop.
    by replace (Z.to_nat (1 + zlength cs)) with (S (Z.to_nat (zlength cs))) by lia.
Qed.

Lemma ntop_chars_alphabet outs :
  Forall (fun o => 0 <= o < 64) outs -> ntop_chars outs = Ret (alphabet <$> outs).
Proof.
  induction 1 as [|o outs Ho _ IH]; [done|]. cbn [ntop_chars foldr].
  rewrite base64_char_alphabet by done. cbn [res_bind]. unfold ntop_chars in IH. by rewrite IH.
Qed.

(** ** f_b64_ntop *)

(** The outcome for the source bytes [bs], when the characters [done] are
    already in the target and [rest] follows them. *)
Definition ntop_result (targsize : Z) (done rest bs : list Z) (r : res (Z * list Z)) : Prop :=
  let n := zlength done + zlength (base64 bs) in
  if n <? targsize
  then r = Ret (s32 n, (done ++ base64 bs) ++ 0 :: zdrop (zlength (base64 bs) + 1) rest)
  else exists target, zlength target = zlength (done ++ rest) /\ r = Ret (-1, target).

Lemma ntop_zero targsize done rest :
  targsize = zlength (done ++ rest) -> 
  (if targsize <=? zlength done then Ret (-1, done ++ rest)
   else res_bind (put_at (done ++ rest) (zlength done) 0) (fun target => Ret (s32 (zlength done), target)))
  = if zlength done <? targsize then Ret (s32 (zlength done), done ++ 0 :: zdrop 1 rest)
    else Ret (-1, done ++ rest).
Proof.
  intros Ht. rewrite zlength_app in Ht. pose proof (zlength_nonneg done).
  destruct (Z.leb_spec targsize (zlength done)), (Z.ltb_spec (zlength done) targsize); try lia; [done|].
  pose proof (put_all_app done [0] rest ltac:(change (zlength [0]) with 1; lia)) as E.
  cbn [put_all] in E. destruct (put_at (done ++ rest) (zlength done) 0) as [t| |]; [|done..].
  cbn [res_bind] in *. injection E as ->. by rewrite <- app_assoc.
Qed.

(** A last group of four characters. *)
Lemma ntop_last targsize done rest bs src n :
  targsize = zlength (done ++ rest) -> targsize < 2 ^ 63 -> zlength (base64 bs) = 4 ->
  ntop_tail targsize (NtopState (bs ++ src) n (done ++ rest) (zlength done)) =
    (if targsize <? zlength done + 4 then Ret (inl (-1, done ++ rest))
     else res_bind (put_all (done ++ rest) (zlength done) (base64 bs)) (fun target =>
       Ret (inr (NtopState src n target (zlength done + 4))))) ->
  ntop_result targsize done rest bs
    (ntop_end targsize (inr (NtopState (bs ++ src) n (done ++ rest) (zlength done)))).
Proof.
  intros Ht H63 El E. pose proof Ht as Ht'. rewrite zlength_app in Ht'.
  pose proof (zlength_nonneg done). pose proof (zlength_nonneg rest).
  unfold ntop_result, ntop_end. rewrite E, El.
  destruct (Z.ltb_spec targsize (zlength done + 4)) as [Hs|Hs].
  { cbn [res_bind]. rewrite (proj2 (Z.ltb_ge _ _)) by lia. eauto. }
  rewrite put_all_app, El by lia. cbn [res_bind n_datalength n_target].
  replace (zlength done + 4) with (zlength (done ++ base64 bs)) by (rewrite zlength_app, El; done).
  rewrite ntop_zero by (rewrite !zlength_app, El, zlength_zdrop by lia; lia).
  destruct (Z.ltb_spec (zlength (done ++ base64 bs)) targsize).
  - do 4 f_equal. unfold zdrop. by rewrite drop_drop.
  - eexists. split; [|reflexivity]. rewrite !zlength_app, El, zlength_zdrop by lia. lia.
Qed.

Lemma ntop_tail_result targsize done rest bs src :
  targsize = zlength (done ++ rest) -> targsize < 2 ^ 63 -> bytes_ok bs -> zlength bs < 3 ->
  ntop_result targsize done rest bs
    (ntop_end targsize (inr (NtopState (bs ++ src) (zlength bs) (done ++ rest) (zlength done)))).
Proof.
  intros Ht H63 Hbs Hlen. pose proof Ht as Ht'. rewrite zlength_app in Ht'.
  pose proof (zlength_nonneg done). pose proof (zlength_nonneg rest).
  destruct bs as [|a [|b [|c bs]]].
  - unfold ntop_result, ntop_end, ntop_tail. cbn [n_srclength n_src n_target n_datalength base64].
    change (zlength (@nil Z)) with 0. cbn [Z.eqb res_bind n_datalength n_target].
    rewrite ntop_zero, Z.add_0_r, app_nil_r by done. destruct (zlength done <? targsize); eauto.
  - apply ntop_last; [done|done|done|]. apply Forall_cons_1 in Hbs as [Ha _].
    unfold ntop_tail. change (zlength [a]) with 1. cbn [n_srclength n_src n_target n_datalength Z.eqb Pos.eqb app].
    rewrite wrap_small by lia.
    destruct (output_values a 0 0 Ha) as (E0 & E1 & _); [done|done|].
    destruct (output_bounds a 0 0 Ha) as (B0 & B1 & _); [done|done|].
    rewrite E0, E1 in *. change (0 / 16) with 0 in *. rewrite Z.add_0_r in *.
    by rewrite ntop_chars_alphabet by (repeat constructor; lia).
  - apply ntop_last; [done|done|done|].
    apply Forall_cons_1 in Hbs as [Ha Hbs]. apply Forall_cons_1 in Hbs as [Hb _].
    unfold ntop_tail. change (zlength [a; b]) with 2. cbn [n_srclength n_src n_target n_datalength Z.eqb Pos.eqb app].
    rewrite wrap_small by lia.
    destruct (output_values a b 0 Ha Hb) as (E0 & E1 & E2 & _); [done|].
    destruct (output_bounds a b 0 Ha Hb) as (B0 & B1 & B2 & _); [done|].
    rewrite E0, E1, E2 in *. change (0 / 64) with 0 in *. rewrite Z.add_0_r in *.
    rewrite ntop_chars_alphabet by (repeat constructor; lia).
    cbn [res_bind]. rewrite base64_char_alphabet by lia. done.
  - exfalso. rewrite !zlength_cons in Hlen. pose proof (zlength_nonneg bs). lia.
Qed.

(** The loop and what follows it. *)
Lemma ntop_loop targsize bs done rest src :
  targsize = zlength (done ++ rest) -> targsize < 2 ^ 63 -> bytes_ok bs -> zlength bs < 2 ^ 63 ->
  exists k r,
    runs (ntop_body targsize) (NtopState (bs ++ src) (zlength bs) (done ++ rest) (zlength done)) k (Ret r) /\
    k <= zlength bs + 1 /\ ntop_result targsize done rest bs (ntop_end targsize r).
Proof.
  revert done rest. induction bs as [| | |a b c bs IH] using groups_ind; intros done rest Ht H63 Hbs Hlen.
  1-3: eexists 1, _; (split; [by apply runs_stop|split; [by vm_compute|by apply ntop_tail_result]]).
  pose proof Ht as Ht'. rewrite zlength_app in Ht'. rewrite !zlength_cons in Hlen.
  pose proof (zlength_nonneg done). pose proof (zlength_nonneg rest). pose proof (zlength_nonneg bs).
  apply Forall_cons_1 in Hbs as [Ha Hbs]. apply Forall_cons_1 in Hbs as [Hb Hbs].
  apply Forall_cons_1 in Hbs as [Hc Hbs].
  destruct (output_values a b c Ha Hb Hc) as (E0 & E1 & E2 & E3).
  destruct (output_bounds a b c Ha Hb Hc) as (B0 & B1 & B2 & B3).
  set (cs := [alphabet (a / 4); alphabet (a mod 4 * 16 + b / 16);
              alphabet (b mod 16 * 4 + c / 64); alphabet (c mod 64)]).
  assert (base64 (a :: b :: c :: bs) = cs ++ base64 bs) as Eb by done.
  assert (ntop_body targsize (NtopState ((a :: b :: c :: bs) ++ src) (zlength (a :: b :: c :: bs)) (done ++ rest) (zlength done))
    = if targsize <? zlength done + 4 then Ret (inr (inl (-1, done ++ rest)))
      else Ret (inl (NtopState (bs ++ src) (zlength bs) ((done ++ cs) ++ zdrop 4 rest) (zlength (done ++ cs))))) as Estep.
  { unfold ntop_body. cbn [n_srclength n_src n_target n_datalength app]. rewrite !zlength_cons.
    rewrite (proj2 (Z.ltb_lt _ _)), (wrap_small 64 (zlength done + 4)) by lia.
    destruct (Z.ltb_spec targsize (zlength done + 4)); [done|].
    rewrite E0, E1, E2, E3, ntop_chars_alphabet by (repeat constructor; lia).
    cbn [res_bind fmap list_fmap]. fold cs. rewrite put_all_app by (change (zlength cs) with 4; lia).
    change (zlength cs) with 4. cbn [res_bind]. rewrite wrap_small by lia.
    rewrite zlength_app. change (zlength cs) with 4. do 4 f_equal. lia. }
  destruct (Z.ltb_spec targsize (zlength done + 4)) as [Hs|Hs].
  - exists 1, (inl (-1, done ++ rest)). split_and!; [by apply runs_stop|rewrite !zlength_cons; lia|].
    unfold ntop_result. rewrite Eb, zlength_app. change (zlength cs) with 4.
    pose proof (zlength_nonneg (base64 bs)). rewrite (proj2 (Z.ltb_ge _ _)) by lia. eauto.
  - destruct (IH (done ++ cs) (zdrop 4 rest)) as (k & r & Hk & Hkn & Hr); [|done|done|lia|].
    { rewrite !zlength_app, zlength_zdrop by lia. change (zlength cs) with 4. lia. }
    exists (1 + k), r. split_and!; [by eapply runs_step|rewrite !zlength_cons; lia|].
    unfold ntop_result in *. rewrite Eb, !zlength_app in *. change (zlength cs) with 4 in *.
    rewrite <- Z.add_assoc in Hr. rewrite <- (app_assoc done cs) in Hr.
    replace (zdrop (zlength (base64 bs) + 1) (zdrop 4 rest)) with (zdrop (4 + zlength (base64 bs) + 1) rest) in Hr.
    + destruct (zlength done + (4 + zlength (base64 bs)) <? targsize); [done|]. destruct Hr as (t & Hlt & Er). exists t. split; [|done].
      rewrite Hlt, zlength_zdrop by lia. lia.
    + pose proof (zlength_nonneg (base64 bs)). unfold zdrop. rewrite drop_drop. f_equal. lia.
Qed.

(** C37: Encoding fails exactly when the characters and the terminating zero do not
    fit; otherwise the target starts with the encoding and a zero, and keeps
    the rest.  No access leaves the source or the target. *)
Theorem f_b64_ntop_spec src rest target :
  bytes_ok src -> zlength src < 2 ^ 63 -> zlength target < 2 ^ 63 ->
  let n := 4 * ((zlength src + 2) / 3) in
  if n <? zlength target
  then f_b64_ntop (src ++ rest) (zlength src) target (zlength target)
       = Ret (s32 n, base64 src ++ 0 :: zdrop (n + 1) target)
  else exists target', zlength target' = zlength target /\
       f_b64_ntop (src ++ rest) (zlength src) target (zlength target) = Ret (-1, target').
Proof.
  intros Hsrc Hlen Htar n. unfold f_b64_ntop.
  destruct (ntop_loop (zlength target) src [] target rest eq_refl Htar Hsrc Hlen) as (k & r & Hk & Hkn & Hr).
  change (zlength (@nil Z)) with 0 in *. cbn [app] in Hk.
  rewrite (runs_while _ _ _ _ Hk) by lia. cbn [res_bind].
  unfold ntop_result in Hr. cbn [app] in Hr. change (zlength (@nil Z)) with 0 in Hr.
  rewrite zlength_base64, Z.add_0_l in Hr. done.
Qed.

Lemma f_b64_ntop_spec_witness :
  f_b64_ntop [77; 97] 2 [9; 9; 9; 9; 9; 9] 6 = Ret (4, [84; 87; 69; 61; 0; 9]) /\
  exists t, zlength t = 4 /\ f_b64_ntop [77; 97] 2 [9; 9; 9; 9] 4 = Ret (-1, t).
Proof.
  assert (bytes_ok [77; 97]) as Hok by (repeat constructor; done). split.
  - exact (f_b64_ntop_spec [77; 97] [] [9; 9; 9; 9; 9; 9] Hok eq_refl eq_refl).
  - exact (f_b64_ntop_spec [77; 97] [] [9; 9; 9; 9] Hok eq_refl eq_refl).
Defined.

(** ** f_b64_pton *)
Lemma alphabet_index i :
  0 <= i < 64 ->
  s8 (alphabet i) = alphabet i /\ (alphabet i =? 0) = false /\ isspace (alphabet i) = Ret false /\
  (alphabet i =? Pad64) = false /\ base64_index (alphabet i) = Some i.
Proof.
  intros Hi. apply (Forall_elem (fun i => s8 (alphabet i) = alphabet i /\ (alphabet i =? 0) = false /\
    isspace (alphabet i) = Ret false /\ (alphabet i =? Pad64) = false /\
    base64_index (alphabet i) = Some i) (seqZ 0 64)).
  - repeat constructor.
  - apply elem_of_seqZ. lia.
Qed.

(** One character of the alphabet. *)
Lemma pton_char targsize v src t i st :
  0 <= v < 64 ->
  pton_body targsize (PtonState (alphabet v :: src) t i st) =
    res_bind (pton_switch targsize v (PtonState src t i st)) (fun r =>
      match r with Some st => Ret (inl st) | None => Ret (inr (inl t)) end).
Proof.
  intros Hv. destruct (alphabet_index v Hv) as (E8 & E0 & Es & Ep & Ei).
  unfold pton_body. cbn [p_src next_char res_bind]. rewrite E8, E0, Es. cbn [res_bind]. by rewrite Ep, Ei.
Qed.

Lemma put_at_app done r rest v : put_at (done ++ r :: rest) (zlength done) v = Ret (done ++ v :: rest).
Proof.
  unfold put_at. pose proof (zlength_nonneg done). pose proof (zlength_nonneg rest).
  rewrite (proj2 (Z.leb_le _ _)), (proj2 (Z.ltb_lt _ _)) by (rewrite ?zlength_app, ?zlength_cons; lia).
  cbn [andb]. unfold zlength. rewrite Nat2Z.id. by rewrite insert_app_r_alt, Nat.sub_diag by lia.
Qed.

Lemma get_at_app done r rest : get_at (done ++ r :: rest) (zlength done) = Ret r.
Proof.
  unfold get_at. pose proof (zlength_nonneg done). rewrite (proj2 (Z.leb_le _ _)) by lia.
  unfold zlength. rewrite Nat2Z.id. by rewrite lookup_app_r, Nat.sub_diag by lia.
Qed.

Lemma lor_high_low h l n : 0 <= n -> 0 <= l < 2 ^ n -> (h * 2 ^ n) .| l = h * 2 ^ n + l.
Proof. intros. rewrite Z.lor_comm, <- Z.shiftl_mul_pow2, lor_shiftl_add by done. rewrite Z.shiftl_mul_pow2 by done. lia. Qed.

(** The four states, with a target that has the bytes [done] and the byte
    under construction. *)
Section switch.
Context (targsize : Z) (src done rest : list Z) (Hdone : zlength done < 2 ^ 31).
Abbreviation i := (zlength done).

Lemma switch0 v r :
  0 <= v < 64 -> i < targsize ->
  pton_switch targsize v (PtonState src (Some (done ++ r :: rest)) i 0) =
    Ret (Some (PtonState src (Some (done ++ v * 4 :: rest)) i 1)).
Proof using Hdone.
  intros Hv Ht. pose proof (zlength_nonneg done). unfold pton_switch. cbn [p_state p_target p_tarindex p_src Z.eqb].
  rewrite wrap_small, (proj2 (Z.leb_gt _ _)) by lia. cbn [target_set].
  rewrite put_at_app. cbn [res_bind]. rewrite Z.shiftl_mul_pow2, wrap_small by lia. done.
Qed.

Lemma switch1 h v r :
  0 <= h < 64 -> 0 <= v < 64 -> i + 1 < targsize ->
  pton_switch targsize v (PtonState src (Some (done ++ h * 4 :: r :: rest)) i 1) =
    Ret (Some (PtonState src (Some ((done ++ [h * 4 + v / 16]) ++ v mod 16 * 16 :: rest)) (i + 1) 2)).
Proof using Hdone.
  intros Hh Hv Ht. pose proof (zlength_nonneg done). unfold pton_switch. cbn [p_state p_target p_tarindex p_src Z.eqb Pos.eqb].
  rewrite !wrap_small, (proj2 (Z.leb_gt _ _)) by (rewrite ?wrap_small; lia). cbn [target_or].
  rewrite get_at_app. cbn [res_bind]. rewrite put_at_app. cbn [res_bind target_set].
  assert (0 <= v / 16 < 4) by (split; [apply Z.div_pos|apply Z.div_lt_upper_bound]; lia).
  pose proof (Z.mod_pos_bound v 16 ltac:(lia)).
  change 0x0f with (Z.ones 4). rewrite Z.land_ones, Z.shiftl_mul_pow2, Z.shiftr_div_pow2 by lia.
  change (2 ^ 4) with 16. rewrite (lor_high_low h _ 2), !wrap_small by (change (2 ^ 2) with 4; lia).
  change (2 ^ 2) with 4. replace (done ++ h * 4 + v / 16 :: r :: rest)
    with ((done ++ [h * 4 + v / 16]) ++ r :: rest) by (by rewrite <- app_assoc).
  replace (i + 1) with (zlength (done ++ [h * 4 + v / 16])) by (rewrite zlength_app; done).
  by rewrite put_at_app.
Qed.

Lemma switch2 h v r :
  0 <= h < 16 -> 0 <= v < 64 -> i + 1 < targsize ->
  pton_switch targsize v (PtonState src (Some (done ++ h * 16 :: r :: rest)) i 2) =
    Ret (Some (PtonState src (Some ((done ++ [h * 16 + v / 4]) ++ v mod 4 * 64 :: rest)) (i + 1) 3)).
Proof using Hdone.
  intros Hh Hv Ht. pose proof (zlength_nonneg done). unfold pton_switch. cbn [p_state p_target p_tarindex p_src Z.eqb Pos.eqb].
  rewrite !wrap_small, (proj2 (Z.leb_gt _ _)) by (rewrite ?wrap_small; lia). cbn [target_or].
  rewrite get_at_app. cbn [res_bind]. rewrite put_at_app. cbn [res_bind target_set].
  assert (0 <= v / 4 < 16) by (split; [apply Z.div_pos|apply Z.div_lt_upper_bound]; lia).
  pose proof (Z.mod_pos_bound v 4 ltac:(lia)).
  change 0x03 with (Z.ones 2). rewrite Z.land_ones, Z.shiftl_mul_pow2, Z.shiftr_div_pow2 by lia.
  change (2 ^ 2) with 4. rewrite (lor_high_low h _ 4), !wrap_small by (change (2 ^ 4) with 16; lia).
  change (2 ^ 4) with 16. replace (done ++ h * 16 + v / 4 :: r :: rest)
    with ((done ++ [h * 16 + v / 4]) ++ r :: rest) by (by rewrite <- app_assoc).
  replace (i + 1) with (zlength (done ++ [h * 16 + v / 4])) by (rewrite zlength_app; done).
  by rewrite put_at_app.
Qed.

Lemma switch3 h v :
  0 <= h < 4 -> 0 <= v < 64 -> i < targsize ->
  pton_switch targsize v (PtonState src (Some (done ++ h * 64 :: rest)) i 3) =
    Ret (Some (PtonState src (Some ((done ++ [h * 64 + v]) ++ rest)) (i + 1) 0)).
Proof using Hdone.
  intros Hh Hv Ht. pose proof (zlength_nonneg done). unfold pton_switch. cbn [p_state p_target p_tarindex p_src Z.eqb Pos.eqb].
  rewrite !wrap_small, (proj2 (Z.leb_gt _ _)) by (rewrite ?wrap_small; lia). cbn [target_or].
  rewrite get_at_app. cbn [res_bind]. rewrite put_at_app. cbn [res_bind].
  rewrite (lor_high_low h _ 6), wrap_small by (change (2 ^ 6) with 64; lia).
  by rewrite <- app_assoc.
Qed.
End switch.

Lemma skip_spaces_stop ch src : ch = 0 \/ isspace ch = Ret false -> skip_spaces ch src = Ret (ch, src).
Proof.
  intros E. unfold skip_spaces. eapply (runs_while _ _ 1); [|lia]. apply runs_stop.
  destruct E as [->|E]; [done|]. destruct (ch =? 0); [done|]. by rewrite E.
Qed.

Lemma list_cons {A} (l : list A) : 0 < zlength l -> exists x l', l = x :: l'.
Proof. destruct l as [|x l]; [done|]. by exists x, l. Qed.

(** The bytes of a group from its characters. *)
Lemma group_values a b c :
  is_byte a -> is_byte b -> is_byte c ->
  a / 4 * 4 + (a mod 4 * 16 + b / 16) / 16 = a /\
  (a mod 4 * 16 + b / 16) mod 16 * 16 + (b mod 16 * 4 + c / 64) / 4 = b /\
  (b mod 16 * 4 + c / 64) mod 4 * 64 + c mod 64 = c.
Proof.
  unfold is_byte. intros Ha Hb Hc.
  assert (0 <= b / 16 < 16) by (split; [apply Z.div_pos|apply Z.div_lt_upper_bound]; lia).
  assert (0 <= c / 64 < 4) by (split; [apply Z.div_pos|apply Z.div_lt_upper_bound]; lia).
  rewrite !Z.div_add_l, (Z.div_small (b / 16) 16), (Z.div_small (c / 64) 4) by lia.
  rewrite (Z.add_comm (a mod 4 * 16)), (Z.add_comm (b mod 16 * 4)).
  rewrite !Z.mod_add, (Z.mod_small (b / 16) 16), (Z.mod_small (c / 64) 4) by lia.
  pose proof (Z.div_mod a 4). pose proof (Z.div_mod b 16). pose proof (Z.div_mod c 64). lia.
Qed.

(** Decoding the encoding of [bs] behind the bytes [done]. *)
Definition pton_result (done rest bs : list Z) (r : res (Z * option (list Z))) : Prop :=
  exists rest', zlength rest' = zlength rest - zlength bs /\
    r = Ret (s32 (zlength done + zlength bs), Some (done ++ bs ++ rest')).

(** The bytes a target needs for [n] decoded bytes: one more than [n] while a
    group is incomplete. *)
Definition pton_room (n : Z) : Z := n + (if n mod 3 =? 0 then 0 else 1).

Lemma pton_loop targsize bs done rest junk :
  targsize = zlength (done ++ rest) -> bytes_ok bs -> zlength done + zlength bs < 2 ^ 31 - 1 ->
  pton_room (zlength bs) <= zlength rest ->
  exists k r,
    runs (pton_body targsize)
      (PtonState (base64 bs ++ 0 :: junk) (Some (done ++ rest)) (zlength done) 0) k (Ret r) /\
    k <= 2 * zlength bs + 2 /\ pton_result done rest bs (pton_end r).
Proof.
  unfold pton_room. revert done rest.
  induction bs as [|a|a b|a b c bs IH] using groups_ind; intros done rest Ht Hbs Hlen Hroom;
    rewrite zlength_app in Ht; pose proof (zlength_nonneg done).
  - exists 1, (inr (0, PtonState junk (Some (done ++ rest)) (zlength done) 0)). split_and!; [by apply runs_stop|done|].
    exists rest. change (zlength (@nil Z)) with 0. split; [lia|]. rewrite Z.add_0_r. done.
  - change (zlength [a]) with 1 in *. change (2 <= zlength rest) in Hroom. apply Forall_cons_1 in Hbs as [Ha _].
    destruct (list_cons rest) as (r0 & rest1 & ->); [lia|]. rewrite zlength_cons in *.
    destruct (list_cons rest1) as (r1 & rest2 & ->); [lia|]. rewrite zlength_cons in *.
    pose proof (zlength_nonneg rest2).
    destruct (output_bounds a 0 0 Ha) as (B0 & B1 & _); [done|done|].
    destruct (group_values a 0 0 Ha) as (G0 & G1 & _); [done|done|].
    change (0 / 16) with 0 in *. rewrite Z.add_0_r in *. change (base64 [a] ++ 0 :: junk)
      with (alphabet (a / 4) :: alphabet (a mod 4 * 16) :: Pad64 :: Pad64 :: 0 :: junk).
    exists (1 + (1 + 1)). eexists (inr (Pad64, _)). split_and!; [|done|].
    + eapply runs_step; [rewrite pton_char by done; rewrite switch0 by lia; reflexivity|].
      eapply runs_step; [rewrite pton_char by done; rewrite switch1 by lia; reflexivity|].
      by apply runs_stop.
    + rewrite G0. rewrite (Z.mod_mul (a mod 4) 16) by lia. unfold pton_end, pton_padding.
      cbn [p_src p_state p_target p_tarindex next_char res_bind Z.eqb Pos.eqb orb Pad64]. change (s8 Pad64) with 61. change (s8 61) with 61. change Pad64 with 61. change (s8 0) with 0.
      rewrite skip_spaces_stop by auto. cbn [res_bind negb Z.eqb Pos.eqb Pad64 next_char]. change (s8 0) with 0.
      rewrite skip_spaces_stop by auto. cbn [res_bind negb Z.eqb].
      replace (zlength done + 1) with (zlength (done ++ [a])) at 1 by (rewrite zlength_app; done).
      rewrite get_at_app. exists (0 :: rest2). split; [rewrite !zlength_cons; change (zlength (@nil Z)) with 0; lia|].
      cbn. by rewrite <- app_assoc.
  - change (zlength [a; b]) with 2 in *. change (3 <= zlength rest) in Hroom.
    apply Forall_cons_1 in Hbs as [Ha Hbs]. apply Forall_cons_1 in Hbs as [Hb _].
    destruct (list_cons rest) as (r0 & rest1 & ->); [lia|]. rewrite zlength_cons in *.
    destruct (list_cons rest1) as (r1 & rest2 & ->); [lia|]. rewrite zlength_cons in *.
    destruct (list_cons rest2) as (r2 & rest3 & ->); [lia|]. rewrite zlength_cons in *.
    pose proof (zlength_nonneg rest3).
    destruct (output_bounds a b 0 Ha Hb) as (B0 & B1 & B2 & _); [done|].
    destruct (group_values a b 0 Ha Hb) as (G0 & G1 & _); [done|].
    change (0 / 64) with 0 in *. rewrite !(Z.add_0_r (b mod 16 * 4)) in *. change (base64 [a; b] ++ 0 :: junk)
      with (alphabet (a / 4) :: alphabet (a mod 4 * 16 + b / 16) :: alphabet (b mod 16 * 4) :: Pad64 :: 0 :: junk).
    exists (1 + (1 + (1 + 1))). eexists (inr (Pad64, _)). split_and!; [|done|].
    + eapply runs_step; [rewrite pton_char by done; rewrite switch0 by lia; reflexivity|].
      eapply runs_step; [rewrite pton_char by done; rewrite switch1 by lia; reflexivity|]. rewrite G0.
      replace (zlength done + 1) with (zlength (done ++ [a])) by (rewrite zlength_app; done).
      eapply runs_step; [rewrite pton_char by done; rewrite switch2;
        [reflexivity|rewrite zlength_app; change (zlength [a]) with 1; lia|apply Z.mod_pos_bound; lia|lia
        |rewrite zlength_app; change (zlength [a]) with 1; lia]|].
      by apply runs_stop.
    + rewrite G1. rewrite (Z.mod_mul (b mod 16) 4) by lia. unfold pton_end, pton_padding.
      cbn [p_src p_state p_target p_tarindex next_char res_bind Z.eqb Pos.eqb orb Pad64]. change (s8 Pad64) with 61. change (s8 61) with 61. change Pad64 with 61. change (s8 0) with 0.
      rewrite skip_spaces_stop by auto. cbn [res_bind negb Z.eqb].
      replace (zlength (done ++ [a]) + 1) with (zlength ((done ++ [a]) ++ [b])) by (rewrite !zlength_app; done).
      rewrite get_at_app. exists (0 :: rest3). split; [rewrite !zlength_cons; change (zlength (@nil Z)) with 0; lia|].
      rewrite !zlength_app, <- !app_assoc, <- Z.add_assoc. done.
  - apply Forall_cons_1 in Hbs as [Ha Hbs]. apply Forall_cons_1 in Hbs as [Hb Hbs].
    apply Forall_cons_1 in Hbs as [Hc Hbs]. rewrite !zlength_cons in *.
    replace (1 + (1 + (1 + zlength bs))) with (zlength bs + 1 * 3) in * by lia.
    rewrite Z.mod_add in Hroom by lia. pose proof (zlength_nonneg bs).
    assert (0 <= (if zlength bs mod 3 =? 0 then 0 else 1)) by (destruct (_ =? _); lia).
    destruct (list_cons rest) as (r0 & rest1 & ->); [lia|]. rewrite zlength_cons in *.
    destruct (list_cons rest1) as (r1 & rest2 & ->); [lia|]. rewrite zlength_cons in *.
    destruct (list_cons rest2) as (r2 & rest3 & ->); [lia|]. rewrite zlength_cons in *.
    pose proof (zlength_nonneg rest3).
    destruct (output_bounds a b c Ha Hb Hc) as (B0 & B1 & B2 & B3).
    destruct (group_values a b c Ha Hb Hc) as (G0 & G1 & G2).
    destruct (IH (done ++ [a; b; c]) rest3) as (k & r & Hk & Hkn & rest' & Hrest & Er);
      [rewrite !zlength_app; change (zlength [a; b; c]) with 3; lia|done
      |rewrite zlength_app; change (zlength [a; b; c]) with 3; lia|lia|].
    exists (1 + (1 + (1 + (1 + k)))), r. split_and!; [|lia|].
    + cbn [base64 app].
      eapply runs_step; [rewrite pton_char by done; rewrite switch0 by lia; reflexivity|].
      eapply runs_step; [rewrite pton_char by done; rewrite switch1 by lia; reflexivity|]. rewrite G0.
      replace (zlength done + 1) with (zlength (done ++ [a])) by (rewrite zlength_app; done).
      eapply runs_step; [rewrite pton_char by done; rewrite switch2;
        [reflexivity|rewrite zlength_app; change (zlength [a]) with 1; lia|apply Z.mod_pos_bound; lia|lia
        |rewrite zlength_app; change (zlength [a]) with 1; lia]|]. rewrite G1.
      replace (zlength (done ++ [a]) + 1) with (zlength ((done ++ [a]) ++ [b])) by (rewrite !zlength_app; done).
      eapply runs_step; [rewrite pton_char by done; rewrite switch3;
        [reflexivity|rewrite !zlength_app; change (zlength [_]) with 1; lia|apply Z.mod_pos_bound; lia|lia
        |rewrite !zlength_app; change (zlength [_]) with 1; lia]|]. rewrite G2.
      replace (zlength ((done ++ [a]) ++ [b]) + 1) with (zlength (done ++ [a; b; c]))
        by (rewrite !zlength_app; change (zlength [a; b; c]) with 3; change (zlength [_]) with 1; lia).
      replace (((done ++ [a]) ++ [b]) ++ [c]) with (done ++ [a; b; c]) by (by rewrite <- !app_assoc).
      exact Hk.
    + exists rest'. split; [rewrite !zlength_cons; lia|]. rewrite Er, zlength_app, <- app_assoc.
      change (zlength [a; b; c]) with 3. cbn [app]. do 3 f_equal. rewrite !zlength_cons. lia.
Qed.

(** C35: Decoding undoes encoding, for sources below 2^31 - 1 bytes, when the buffer
    between them has room for the encoding and its zero: [f_b64_ntop] succeeds,
    and [f_b64_pton] returns the length of the source and gives its bytes. The
    target needs the bytes of the source, and one more when the last group is
    incomplete. *)
Theorem f_b64_roundtrip src junk out target :
  bytes_ok src -> zlength src < 2 ^ 31 - 1 -> zlength out < 2 ^ 63 ->
  4 * ((zlength src + 2) / 3) < zlength out -> pton_room (zlength src) <= zlength target ->
  exists n chars rest,
    f_b64_ntop (src ++ junk) (zlength src) out (zlength out) = Ret (n, chars) /\
    f_b64_pton chars (Some target) (zlength target) = Ret (zlength src, Some (src ++ rest)) /\
    zlength (src ++ rest) = zlength target.
Proof.
  intros Hsrc Hlen Hout Hfit Hroom. pose proof (zlength_nonneg src).
  destruct (ntop_loop (zlength out) src [] out junk eq_refl Hout Hsrc ltac:(lia)) as (k & r & Hk & Hkn & Hr).
  unfold ntop_result in Hr. cbn [app] in Hr. change (zlength (@nil Z)) with 0 in *.
  rewrite zlength_base64, Z.add_0_l, (proj2 (Z.ltb_lt _ _) Hfit) in Hr.
  destruct (pton_loop (zlength target) src [] target
    (zdrop (4 * ((zlength src + 2) / 3) + 1) out) eq_refl Hsrc) as (k' & r' & Hk' & Hkn' & rest & Hrest & Er);
    [change (zlength (@nil Z)) with 0; lia|done|].
  change (zlength (@nil Z)) with 0 in *. cbn [app] in *.
  eexists _, _, rest. split_and!.
  - unfold f_b64_ntop. rewrite (runs_while _ _ _ _ Hk) by lia. cbn [res_bind]. exact Hr.
  - unfold f_b64_pton. rewrite (runs_while _ _ _ _ Hk') by lia. cbn [res_bind]. rewrite Er.
    by rewrite Z.add_0_l, sext_small by lia.
  - rewrite zlength_app. lia.
Qed.

Lemma f_b64_roundtrip_witness :
  exists n chars rest,
    f_b64_ntop [1; 2; 3; 250] 4 (repeat 0 9) 9 = Ret (n, chars) /\
    f_b64_pton chars (Some (repeat 7 5)) 5 = Ret (4, Some ([1; 2; 3; 250] ++ rest)) /\
    zlength ([1; 2; 3; 250] ++ rest) = 5.
Proof.
  apply (f_b64_roundtrip [1; 2; 3; 250] [] (repeat 0 9) (repeat 7 5)); try done.
  repeat constructor; done.
Defined.

(** ** Any input *)

Lemma put_at_ok t i v :
  0 <= i < zlength t -> exists t', put_at t i v = Ret t' /\ zlength t' = zlength t.
Proof.
  intros Hi. unfold put_at. rewrite (proj2 (Z.leb_le _ _)), (proj2 (Z.ltb_lt _ _)) by lia.
  eexists. split; [reflexivity|]. unfold zlength. by rewrite length_insert.
Qed.

Lemma get_at_ok t i : 0 <= i < zlength t -> exists v, get_at t i = Ret v.
Proof.
  intros Hi. unfold get_at. rewrite (proj2 (Z.leb_le _ _)) by lia. unfold zlength in Hi.
  destruct (lookup_lt_is_Some_2 t (Z.to_nat i)) as [v E]; [lia|]. rewrite E. by exists v.
Qed.

(** The state of the loop after [k] characters of the alphabet, while the
    target has [size] bytes: [tarindex] is inside the target as soon as a byte
    is under construction, and every four characters make three bytes. *)
Definition pton_ok (size k : Z) (st : pton_state) : Prop :=
  0 <= p_tarindex st <= size /\ p_state st ∈ [0; 1; 2; 3] /\
  (exists t, p_target st = Some t /\ zlength t = size /\ (p_state st <> 0 -> p_tarindex st < size)) /\
  exists j, k = 4 * j + p_state st /\
    p_tarindex st = 3 * j + (if p_state st =? 0 then 0 else p_state st - 1).

Lemma pton_switch_ok size k v st :
  size < 2 ^ 31 -> pton_ok size k st ->
  pton_switch size v st = Ret None \/
  exists st', pton_switch size v st = Ret (Some st') /\ pton_ok size (k + 1) st' /\ p_src st' = p_src st.
Proof.
  intros Hsize (Hi & Hst & (t & Et & Ht & Hlt) & j & Hk & Hj). destruct st as [src tgt i s]. cbn in *. subst tgt size.
  unfold pton_switch. cbn [p_state p_target p_tarindex p_src].
  assert (s = 0 \/ s = 1 \/ s = 2 \/ s = 3) as Hs by set_solver.
  assert (forall P : Z, 0 <= P < 2 ^ 32 -> u64 P = P) as Hw by (intros; apply wrap_small; lia).
  destruct Hs as [->|[->|[->| ->]]]; cbn [Z.eqb Pos.eqb] in *;
    rewrite ?(wrap_small 32 (i + 1)), ?(wrap_small 64) by (rewrite ?wrap_small; lia);
    (match goal with |- context [zlength t <=? ?n] => destruct (Z.leb_spec (zlength t) n) end; [by left|right]).
  - cbn [target_set]. destruct (put_at_ok t i (u8 (Z.shiftl v 2))) as (t' & -> & El); [lia|].
    eexists. split; [reflexivity|]. split; [|done]. split_and!; cbn; [lia|lia|set_solver| |].
    { exists t'. split_and!; [done|lia|lia]. } exists j. lia.
  - specialize (Hlt ltac:(done)). cbn [target_or]. destruct (get_at_ok t i) as (o & ->); [lia|]. cbn [res_bind].
    destruct (put_at_ok t i (u8 (o .| Z.shiftr v 4))) as (t1 & -> & El1); [lia|]. cbn [res_bind target_set].
    destruct (put_at_ok t1 (i + 1) (u8 (Z.shiftl (v .& 0x0f) 4))) as (t2 & -> & El2); [lia|].
    eexists. split; [reflexivity|]. split; [|done]. split_and!; cbn; [lia|lia|set_solver| |].
    { exists t2. split_and!; [done|lia|lia]. } exists j. lia.
  - specialize (Hlt ltac:(done)). cbn [target_or]. destruct (get_at_ok t i) as (o & ->); [lia|]. cbn [res_bind].
    destruct (put_at_ok t i (u8 (o .| Z.shiftr v 2))) as (t1 & -> & El1); [lia|]. cbn [res_bind target_set].
    destruct (put_at_ok t1 (i + 1) (u8 (Z.shiftl (v .& 0x03) 6))) as (t2 & -> & El2); [lia|].
    eexists. split; [reflexivity|]. split; [|done]. split_and!; cbn; [lia|lia|set_solver| |].
    { exists t2. split_and!; [done|lia|lia]. } exists j. lia.
  - specialize (Hlt ltac:(done)). cbn [target_or]. destruct (get_at_ok t i) as (o & ->); [lia|]. cbn [res_bind].
    destruct (put_at_ok t i (u8 (o .| v))) as (t1 & -> & El1); [lia|]. cbn [res_bind].
    eexists. split; [reflexivity|]. split; [|done]. split_and!; cbn; [lia|lia|set_solver| |].
    { exists t1. split_and!; [done|lia|done]. } exists (j + 1). lia.
Qed.

(** A zero-terminated string of ASCII characters. *)
Fixpoint ascii_string (src : list Z) : Prop :=
  match src with
  | [] => False
  | c :: src' => c = 0 \/ (0 < c < 128 /\ ascii_string src')
  end.

(** The characters of the alphabet in front of the first pad character. *)
Fixpoint digit_count (src : list Z) : Z :=
  match src with
  | [] => 0
  | c :: src' =>
      if (c =? 0) || (c =? Pad64) then 0
      else if is_white c then digit_count src' else 1 + digit_count src'
  end.

Lemma isspace_ascii c : 0 <= c < 128 -> isspace c = Ret (is_white c).
Proof. intros Hc. unfold isspace. by rewrite (proj2 (Z.leb_le _ _)), (proj2 (Z.leb_le _ _)) by lia. Qed.

Lemma next_char_ok src :
  ascii_string src -> exists ch src', src = ch :: src' /\ next_char src = Ret (ch, src') /\
    0 <= ch < 128 /\ (ch = 0 \/ ascii_string src').
Proof.
  destruct src as [|ch src]; [done|]. intros Hin. exists ch, src.
  assert (0 <= ch < 128) by (destruct Hin as [->|[? _]]; lia).
  split_and!; [done|cbn; rewrite sext_small by lia; done|lia|lia|]. cbn in Hin. tauto.
Qed.

Lemma skip_spaces_ok ch src :
  0 <= ch < 128 -> ch = 0 \/ ascii_string src -> zlength src < 2 ^ 63 ->
  exists ch' src', skip_spaces ch src = Ret (ch', src') /\ (ch' = 0 \/ ascii_string src') /\
    zlength src' <= zlength src.
Proof.
  intros Hch Hin Hlen. unfold skip_spaces. pose proof (zlength_nonneg src).
  apply (while_ind _ (fun '(c, s) => (0 <= c < 128 /\ (c = 0 \/ ascii_string s)) /\ zlength s <= zlength src) (fun '(c, s) => zlength s)
    (fun r => exists ch' src', r = Ret (ch', src') /\ (ch' = 0 \/ ascii_string src') /\ zlength src' <= zlength src));
    [|done|lia].
  intros [c s] [[Hc Hs] Hle]. destruct (Z.eqb_spec c 0) as [->|Hc0]; [cbn; eauto|].
  rewrite (isspace_ascii c Hc). cbn [res_bind]. destruct (negb (is_white c)); [eauto|].
  destruct Hs as [?|Hs]; [done|].
  destruct (next_char_ok s Hs) as (c' & s' & -> & -> & Hc' & Hs'). cbn. rewrite zlength_cons in *.
  pose proof (zlength_nonneg s'). split; [split; [done|lia]|lia].
Qed.

Lemma pton_padding_ok size k st :
  pton_ok size k st -> ascii_string (p_src st) -> zlength (p_src st) < 2 ^ 63 -> exists b, pton_padding st = Ret b.
Proof.
  intros (Hi & Hst & (t & Et & Ht & Hlt) & _) Hin Hlen. unfold pton_padding.
  destruct (next_char_ok _ Hin) as (ch & src & Es & -> & Hch & Hsrc). rewrite Es, zlength_cons in Hlen. cbn [res_bind].
  destruct ((p_state st =? 0) || (p_state st =? 1)) eqn:E01; [eauto|]. pb_bool.
  assert (forall ch src, 0 <= ch < 128 -> (ch = 0 \/ ascii_string src) -> zlength src < 2 ^ 63 -> exists b,
    res_bind (skip_spaces ch src) (fun '(ch, _) =>
      if negb (ch =? 0) then Ret false
      else match p_target st with
           | None => Ret true
           | Some t => res_bind (get_at t (p_tarindex st)) (fun b => Ret (b =? 0))
           end) = Ret b) as Hend.
  { intros c s Hc Hs Hl. destruct (skip_spaces_ok c s Hc Hs Hl) as (c' & s' & -> & _ & _). cbn [res_bind].
    destruct (negb (c' =? 0)); [eauto|]. rewrite Et.
    destruct (get_at_ok t (p_tarindex st)) as (v & ->); [specialize (Hlt ltac:(lia)); lia|]. cbn. eauto. }
  destruct (p_state st =? 2); [|cbn [res_bind]; apply Hend; [done|done|lia]].
  destruct (skip_spaces_ok ch src Hch Hsrc ltac:(lia)) as (c & s & E & Hs & Hle). rewrite E. cbn [res_bind].
  destruct (Z.eqb_spec c Pad64) as [->|]; [|cbn; eauto]. cbn [negb].
  destruct Hs as [?|Hs]; [done|]. destruct (next_char_ok s Hs) as (c' & s' & -> & -> & Hc' & Hs').
  cbn [res_bind]. rewrite zlength_cons in Hle. apply Hend; [done|done|lia].
Qed.

(** C36: Decoding any zero-terminated ASCII string into a target of the stated size,
    below 2 GB: it ends, writes only inside the target and reads nothing behind
    the zero; the result is -1 or three quarters, rounded down, of the number
    of digits in front of the padding.  (For other characters the call of
    [isspace] on a negative number is undefined.) *)
Theorem f_b64_pton_safe src target :
  ascii_string src -> zlength src < 2 ^ 63 -> zlength target < 2 ^ 31 ->
  exists n target', f_b64_pton src (Some target) (zlength target) = Ret (n, Some target') /\
    zlength target' = zlength target /\
    (n = -1 \/ 0 <= n <= zlength target /\ n = 3 * digit_count src / 4).
Proof.
  intros Hsrc Hlen Hsize. pose proof (zlength_nonneg src). pose proof (zlength_nonneg target).
  unfold f_b64_pton.
  apply (while_ind _ (fun st => exists k, pton_ok (zlength target) k st /\ ascii_string (p_src st) /\
      zlength (p_src st) < 2 ^ 63 /\ k + digit_count (p_src st) = digit_count src)
    (fun st => zlength (p_src st)) (fun r => exists n target',
      res_bind r pton_end = Ret (n, Some target') /\
      zlength target' = zlength target /\
      (n = -1 \/ 0 <= n <= zlength target /\ n = 3 * digit_count src / 4))).
  - intros st (k & Hok & Hin & Hl & Hk). destruct (next_char_ok _ Hin) as (ch & s & Es & En & Hch & Hs).
    unfold pton_body. rewrite En. cbn [res_bind]. rewrite Es, zlength_cons in Hl |- *.
    rewrite Es in Hk. cbn [digit_count] in Hk.
    set (st' := PtonState s (p_target st) (p_tarindex st) (p_state st)).
    assert (pton_ok (zlength target) k st') as Hok' by (exact Hok).
    assert (p_src st' = s) as Es' by done. clearbody st'. clear Hok.
    pose proof (zlength_nonneg s). pose proof Hok' as (Hi & Hst & (t & Et & Ht & _) & j & Hkj & Hj).
    assert (s32 (p_tarindex st') = p_tarindex st') as Esx by (apply sext_small; lia).
    assert (p_tarindex st' = 3 * k / 4) as Htar.
    { assert (p_state st' = 0 \/ p_state st' = 1 \/ p_state st' = 2 \/ p_state st' = 3) as Hcase by set_solver.
      destruct Hcase as [E|[E|[E|E]]]; rewrite E in *; cbn in Hj;
        [apply (Z.div_unique _ _ _ 0)|apply (Z.div_unique _ _ _ 3)|apply (Z.div_unique _ _ _ 2)|apply (Z.div_unique _ _ _ 1)]; lia. }
    destruct (Z.eqb_spec ch 0) as [->|Hch0].
    { cbn [pton_end res_bind Z.eqb Pad64 orb] in *. rewrite Et, Esx.
      exists (if p_state st' =? 0 then p_tarindex st' else -1), t. split_and!; [done|done|].
      destruct (_ =? _); [right; split; [lia|]; rewrite Htar; f_equal; lia|by left]. }
    destruct Hs as [?|Hs]; [done|]. rewrite (isspace_ascii ch Hch). cbn [res_bind orb] in *.
    destruct (Z.eqb_spec ch Pad64) as [->|Hpad].
    { change (is_white Pad64) with false. cbn [pton_end res_bind].
      destruct (pton_padding_ok (zlength target) k st') as [b Eb];
        [done|by rewrite Es'|rewrite Es'; lia|]. rewrite Z.eqb_refl, Eb, Et, Esx. cbn [res_bind].
      exists (if b then p_tarindex st' else -1), t. split_and!; [done|done|].
      destruct b; [right; split; [lia|]; rewrite Htar; f_equal; lia|by left]. }
    destruct (is_white ch); [split; [|rewrite Es'; lia]; exists k; rewrite Es'; split_and!; done || lia|].
    destruct (base64_index ch) as [v|].
    + destruct (pton_switch_ok (zlength target) k v st' Hsize Hok') as [->|(st2 & -> & Hok2 & Es2)].
      * cbn [res_bind pton_end]. rewrite Et. exists (-1), t. auto.
      * cbn [res_bind]. rewrite Es2, Es'. split; [|lia]. exists (k + 1). split_and!; done || lia.
    + cbn [pton_end res_bind]. rewrite Et. exists (-1), t. auto.
  - exists 0. split_and!; [|done|done|done]. split_and!; cbn; [lia|lia|set_solver| |].
    + exists target. split_and!; done.
    + exists 0. done.
  - cbn. lia.
Qed.

Lemma f_b64_pton_safe_witness :
  exists n target', f_b64_pton [84; 87; 0] (Some [1; 2; 3]) 3 = Ret (n, Some target') /\
    zlength target' = 3 /\ (n = -1 \/ 0 <= n <= 3 /\ n = 3 * 2 / 4).
Proof. apply (f_b64_pton_safe [84; 87; 0] [1; 2; 3]); [cbn; lia|done|done]. Defined.

(** A character above 127 is negative as a [char], and no argument of
    [isspace]; only 255, which becomes [EOF], is. *)
Lemma isspace_negative c src targsize t :
  128 <= c < 255 -> f_b64_pton (c :: src) t targsize = UB.
Proof.
  intros Hc. unfold f_b64_pton. rewrite (runs_while _ _ 1 UB); [done| |lia]. apply runs_ub.
  unfold pton_body. cbn [p_src next_char res_bind].
  assert (s8 c = c - 256) as ->.
  { unfold sext. change (8 - 1) with 7. change (2 ^ 7) with 128. change (2 ^ 8) with 256.
    replace (c + 128) with (c - 128 + 1 * 256) by lia. rewrite Z.mod_add, Z.mod_small by lia. lia. }
  rewrite (proj2 (Z.eqb_neq _ _)) by lia. unfold isspace. by rewrite (proj2 (Z.leb_gt _ _)) by lia.
Qed.
