(* ===== verification/Wire.v ===== *)
(** * Tags, lengths, strings and skipped fields *)
From S2P Require Import Prelude WireFormat Memory Descriptor OStream IStream.

(** ** Varints: the two decoders against the wire format *)

(** ** pb_decode_varint on any input *)

(** One iteration of the loop. *)
Lemma varint64_step bitpos result b l m e :
  0 <= bitpos < 64 -> 0 <= result < 2 ^ bitpos -> is_byte b -> 0 < m < 2 ^ 64 ->
  varint64_body (bitpos, result) (IStream ICBufRead (b :: l) m e) =
    Ret (Some (if b <? 128 then inr ((result + b mod 128 * 2 ^ bitpos) mod 2 ^ 64)
               else inl (bitpos + 7, (result + b mod 128 * 2 ^ bitpos) mod 2 ^ 64)),
         IStream ICBufRead l (m - 1) e).
Proof.
  intros Hp Hr Hb Hm. unfold varint64_body. rewrite (proj2 (Z.leb_gt _ _)) by lia.
  erewrite bind_some by (apply pb_readbyte_cons; lia).
  rewrite land_0x7F, land_0x80 by done. rewrite (wrap_small 8) by lia.
  rewrite lor_wrap_shiftl by lia. by destruct (b <? 128).
Qed.

(** The loop agrees with the specification. *)
Lemma varint64_parse n bitpos result bs rest e :
  bitpos = 7 * (10 - Z.of_nat n) -> 0 <= bitpos -> 0 <= result < 2 ^ Z.min 64 bitpos ->
  bytes_ok bs -> zlength bs < 2 ^ 64 ->
  exists k,
    runs (while_body varint64_body)
      ((bitpos, result), IStream ICBufRead (bs ++ rest) (zlength bs) e) k
      (Ret (match parse_varint n bs with
            | Parsed v len =>
                (Some ((result + v * 2 ^ bitpos) mod 2 ^ 64),
                 IStream ICBufRead (zdrop len bs ++ rest) (zlength bs - len) e)
            | Truncated =>
                (None, pb_set_error "end-of-stream" (IStream ICBufRead rest 0 e))
            | Overlong =>
                (None, pb_set_error "varint overflow"
                  (IStream ICBufRead (zdrop (Z.of_nat n) bs ++ rest) (zlength bs - Z.of_nat n) e))
            end)) /\
    k <= Z.of_nat n + 1.
Proof.
  revert bitpos result bs. induction n as [|n IH]; intros bitpos result bs Hp Hp0 Hr Hbs Hlen.
  - exists 1. split; [|lia]. apply runs_stop. subst bitpos. cbn [parse_varint].
    change (zdrop (Z.of_nat 0) bs) with bs. change (Z.of_nat 0) with 0. rewrite !Z.sub_0_r. reflexivity.
  - destruct bs as [|b bs].
    { exists 1. split; [|lia]. apply runs_stop. unfold while_body, varint64_body. cbn [fst snd].
      rewrite (proj2 (Z.leb_gt _ _)) by lia. reflexivity. }
    apply Forall_cons_1 in Hbs as [Hb Hbs']. rewrite zlength_cons in *.
    pose proof (zlength_nonneg bs). rewrite Z.min_r in Hr by lia.
    pose proof (varint64_step bitpos result b (bs ++ rest) (1 + zlength bs) e
      ltac:(lia) Hr Hb ltac:(lia)) as Eb.
    change ((b :: bs) ++ rest) with (b :: bs ++ rest).
    cbn [parse_varint]. revert Eb. destruct (Z.ltb_spec b 128) as [Hlt|Hge]; intros Eb.
    + exists 1. split; [|lia]. apply runs_stop. unfold while_body. cbn [fst snd]. rewrite Eb.
      unfold is_byte in Hb. rewrite (Z.mod_small b 128) by lia.
      by replace (1 + zlength bs - 1) with (zlength bs + 1 - 1) by lia.
    + destruct (IH (bitpos + 7) ((result + b mod 128 * 2 ^ bitpos) mod 2 ^ 64) bs)
        as (k & Hk & Hkn); try lia; [|done|].
      { assert (0 <= b mod 128 < 128) by (apply Z.mod_pos_bound; lia).
        assert (2 ^ (bitpos + 7) = 128 * 2 ^ bitpos) as Ep by (rewrite Z.pow_add_r by lia; lia).
        assert (0 < 2 ^ bitpos) by (apply Z.pow_pos_nonneg; lia).
        destruct (Z.le_ge_cases (bitpos + 7) 64).
        - rewrite Z.min_r, Ep by lia. rewrite Z.mod_small; [nia|].
          split; [nia|]. apply Z.lt_le_trans with (2 ^ (bitpos + 7)); [nia|].
          apply Z.pow_le_mono_r; lia.
        - rewrite Z.min_l by lia. apply Z.mod_pos_bound. lia. }
      exists (1 + k). split; [|lia]. eapply runs_step.
      { unfold while_body. cbn [fst snd]. rewrite Eb. reflexivity. }
      replace (1 + zlength bs - 1) with (zlength bs) by lia.
      destruct (parse_varint n bs) as [v len| |] eqn:Ev.
      * destruct (parse_varint_len _ _ _ _ Hbs' Ev) as (? & ? & ?).
        assert (b mod 128 = b - 128) as Eb128.
        { unfold is_byte in Hb. symmetry. apply (Z.mod_unique b 128 1); lia. }
        match goal with |- runs _ _ _ (Ret (Some ?x, ?s)) =>
          replace x with (((result + b mod 128 * 2 ^ bitpos) mod 2 ^ 64 + v * 2 ^ (bitpos + 7)) mod 2 ^ 64);
          [replace s with (IStream ICBufRead (zdrop len bs ++ rest) (zlength bs - len) e); [exact Hk|]|]
        end.
        -- f_equal; [|lia]. unfold zdrop. by replace (Z.to_nat (1 + len)) with (S (Z.to_nat len)) by lia.
        -- rewrite Zplus_mod_idemp_l, Eb128, Z.pow_add_r by lia. f_equal. lia.
      * exact Hk.
      * match type of Hk with runs _ _ _ (Ret (None, ?s)) =>
          match goal with |- runs _ _ _ (Ret (None, ?t)) => replace t with s; [exact Hk|] end end.
        do 2 f_equal; [|lia]. unfold zdrop. rewrite Nat2Z.inj_succ, !Nat2Z.id.
        by replace (Z.to_nat (Z.succ (Z.of_nat n))) with (S n) by lia.
Qed.

(** The front of a well-formed stream, and what is behind its limit. *)
Lemma istream_split s :
  istream_ok s ->
  exists bs rest, s = IStream ICBufRead (bs ++ rest) (zlength bs) (i_errmsg s) /\
                  bytes_ok bs /\ zlength bs < 2 ^ 64 /\ ztake (bytes_left s) (i_state s) = bs /\
                  zdrop (bytes_left s) (i_state s) = rest.
Proof.
  intros (Hc & Hok & Hb & Hb2). destruct s as [cb l n e]. simpl in *. subst cb.
  exists (ztake n l), (zdrop n l). rewrite ztake_zdrop, zlength_ztake by lia.
  split_and!; try done. by apply Forall_take.
Qed.

(** C27: Every outcome of [pb_decode_varint] on a buffer stream, against an
    independent parser of the bytes up to the limit: the value and the bytes it
    takes, the end of the stream inside a number, and a number of more than ten
    bytes. (Streams with a callback of the application are not covered.) *)
Theorem pb_decode_varint_spec s :
  istream_ok s ->
  pb_decode_varint s =
    match parse_varint 10 (ztake (bytes_left s) (i_state s)) with
    | Parsed v len =>
        Ret (Some (v mod 2 ^ 64),
             IStream ICBufRead (zdrop len (i_state s)) (bytes_left s - len) (i_errmsg s))
    | Truncated =>
        Ret (None, pb_set_error "end-of-stream"
                     (IStream ICBufRead (zdrop (bytes_left s) (i_state s)) 0 (i_errmsg s)))
    | Overlong =>
        Ret (None, pb_set_error "varint overflow"
                     (IStream ICBufRead (zdrop 10 (i_state s)) (bytes_left s - 10) (i_errmsg s)))
    end.
Proof.
  intros Hs. destruct (istream_split s Hs) as (bs & rest & E & Hbs & Hlen & Et & Ed).
  rewrite Et, Ed. rewrite E at 1. destruct (varint64_parse 10 0 0 bs rest (i_errmsg s)) as (k & Hk & Hkn);
    try done; try lia.
  assert (i_state s = bs ++ rest /\ bytes_left s = zlength bs) as [Est Ebl] by by rewrite E.
  rewrite Est, Ebl. unfold pb_decode_varint, whileM. rewrite (runs_while _ _ _ _ Hk) by lia.
  destruct (parse_varint 10 bs) as [v len| |] eqn:Ep.
  - destruct (parse_varint_len _ _ _ _ Hbs Ep) as (? & ? & ?). rewrite Z.mul_1_r, Z.add_0_l.
    by rewrite zdrop_app_le by lia.
  - done.
  - apply parse_varint_overlong in Ep. by rewrite (zdrop_app_le 10) by lia.
Qed.

(** C28: Encoding and decoding are inverse, wherever the number stands in a message. *)
Theorem varint_roundtrip v :
  0 <= v < 2 ^ 64 ->
  1 <= zlength (varint_bytes v) <= 10 /\
  emits (pb_encode_varint v) tt (varint_bytes v) /\
  decodes pb_decode_varint (varint_bytes v) v.
Proof.
  intros Hv. split_and!; [apply zlength_varint_bytes_pos|apply zlength_varint_bytes| |].
  - by apply pb_encode_varint_emits.
  - by apply pb_decode_varint_decodes.
Qed.

Lemma varint_roundtrip_witness :
  0 <= 300 < 2 ^ 64 /\ decodes pb_decode_varint [172; 2] 300.
Proof. split; [lia|]. apply (varint_roundtrip 300). lia. Defined.

(** ** pb_decode_varint32 *)

(** A byte below bit 32. *)
Lemma varint32_step_low bitpos result b l m e :
  0 <= bitpos < 32 -> 0 <= result < 2 ^ bitpos -> is_byte b -> 0 < m < 2 ^ 64 ->
  varint32_body (bitpos, result) (IStream ICBufRead (b :: l) m e) =
    let result' := (result + b mod 128 * 2 ^ bitpos) mod 2 ^ 32 in
    Ret (Some (if b <? 128 then inr (bitpos + 7, result', b) else inl (bitpos + 7, result')),
         IStream ICBufRead l (m - 1) e).
Proof.
  intros Hp Hr Hb Hm. unfold varint32_body. erewrite bind_some by (apply pb_readbyte_cons; lia).
  rewrite (proj2 (Z.leb_gt _ _)), bind_ret by lia.
  rewrite land_0x7F, land_0x80, (wrap_small 8), lor_wrap_shiftl by (lia || done).
  by destruct (b <? 128).
Qed.

(** A byte at bit 32 or above: part of the sign extension of a negative int32. *)
Lemma varint32_step_high bitpos result b l m e :
  32 <= bitpos < 249 -> Z.shiftr result 31 <> 0 -> is_byte b -> 0 < m < 2 ^ 64 ->
  b = (if bitpos <? 63 then 0xFF else 0x01) ->
  varint32_body (bitpos, result) (IStream ICBufRead (b :: l) m e) =
    Ret (Some (if b <? 128 then inr (bitpos + 7, result, b) else inl (bitpos + 7, result)),
         IStream ICBufRead l (m - 1) e).
Proof.
  intros Hp Hr Hb Hm Eb. unfold varint32_body. erewrite bind_some by (apply pb_readbyte_cons; lia).
  rewrite (proj2 (Z.leb_le _ _)), (proj2 (Z.eqb_neq _ _) Hr), <- Eb, Z.eqb_refl by lia.
  rewrite andb_false_r, bind_ret, land_0x80, (wrap_small 8) by (lia || done).
  by destruct (b <? 128).
Qed.

(** Four bytes carry the bits up to 28; the next state holds [v mod 2^bitpos]. *)
Lemma varint32_low v n bitpos rest m e :
  0 <= v -> 0 <= bitpos <= 28 -> zlength (varint_digits (S n) (v / 2 ^ bitpos)) <= m < 2 ^ 64 ->
  let s := IStream ICBufRead (varint_digits (S n) (v / 2 ^ bitpos) ++ rest) m e in
  let next l := IStream ICBufRead (l ++ rest) (m - 1) e in
  varint32_body (bitpos, v mod 2 ^ bitpos) s =
    let result' := (v mod 2 ^ (bitpos + 7)) mod 2 ^ 32 in
    if v / 2 ^ bitpos <? 128
    then Ret (Some (inr (bitpos + 7, result', v / 2 ^ bitpos)), next [])
    else Ret (Some (inl (bitpos + 7, result')), next (varint_digits n (v / 2 ^ (bitpos + 7)))).
Proof.
  intros Hv Hp Hm s next. set (d := v / 2 ^ bitpos) in *.
  assert (0 < 2 ^ bitpos) by (apply Z.pow_pos_nonneg; lia).
  assert (0 <= d) by (apply Z.div_pos; lia).
  assert (v / 2 ^ (bitpos + 7) = d / 128) as Ed.
  { unfold d. rewrite Z.pow_add_r, Z.div_div by lia. done. }
  assert (v mod 2 ^ (bitpos + 7) = v mod 2 ^ bitpos + d mod 128 * 2 ^ bitpos) as Em.
  { rewrite Z.pow_add_r, Z.rem_mul_r by lia. unfold d. change (2 ^ 7) with 128. lia. }
  rewrite Ed, Em. subst s next. cbn [varint_digits] in *. pose proof (Z.mod_pos_bound d 128 ltac:(lia)).
  assert (0 <= v mod 2 ^ bitpos < 2 ^ bitpos) by (apply Z.mod_pos_bound; lia).
  destruct (Z.ltb_spec d 128) as [Hlt|Hge]; rewrite zlength_cons in Hm.
  - cbn [app]. rewrite varint32_step_low; [|lia|done|unfold is_byte; lia|].
    2: { change (zlength (@nil Z)) with 0 in Hm. lia. }
    rewrite (proj2 (Z.ltb_lt _ _)) by lia. rewrite (Z.mod_small d 128) by lia. done.
  - cbn [app]. pose proof (zlength_nonneg (varint_digits n (d / 128))).
    rewrite varint32_step_low; [|lia|done|unfold is_byte; lia|lia].
    rewrite (proj2 (Z.ltb_ge _ _)) by lia.
    replace ((d mod 128 + 128) mod 128) with (d mod 128); [done|].
    replace (d mod 128 + 128) with (d mod 128 + 1 * 128) by lia.
    by rewrite Z.mod_add, Z.mod_mod by lia.
Qed.

(** The numbers [pb_decode_varint32] accepts: 32 bits, or a negative [int32]
    in its ten-byte form. *)
Definition varint32_value (v : Z) : Prop :=
  0 <= v < 2 ^ 32 \/ 2 ^ 64 - 2 ^ 31 <= v < 2 ^ 64.

(** The loop, from [bitpos] on, ends at the last digit; a last digit at bit 28
    has four bits. *)
Definition varint32_ends (v bitpos : Z) (n : nat) : Prop :=
  forall rest m e, zlength (varint_digits n (v / 2 ^ bitpos)) <= m < 2 ^ 64 ->
    exists k p last,
      runs (while_body varint32_body)
        ((bitpos, v mod 2 ^ bitpos),
         IStream ICBufRead (varint_digits n (v / 2 ^ bitpos) ++ rest) m e) k
        (Ret (Some (p, v mod 2 ^ 32, last),
              IStream ICBufRead rest (m - zlength (varint_digits n (v / 2 ^ bitpos))) e)) /\
      k <= 10 - bitpos / 7 /\ (p = 35 -> last .& 0x70 = 0).

(** The last five bytes of a negative number are fixed. *)
Lemma varint32_sign_bytes result rest m e :
  2 ^ 31 <= result < 2 ^ 32 -> 5 <= m < 2 ^ 64 ->
  runs (while_body varint32_body)
    ((35, result), IStream ICBufRead ([255; 255; 255; 255; 1] ++ rest) m e) 5
    (Ret (Some (70, result, 1), IStream ICBufRead rest (m - 5) e)).
Proof.
  intros Hr Hm.
  assert (Z.shiftr result 31 <> 0).
  { rewrite Z.shiftr_div_pow2 by lia. assert (1 <= result / 2 ^ 31); [|lia].
    apply Z.div_le_lower_bound; lia. }
  change 5 with (1 + (1 + (1 + (1 + 1)))) at 1. replace (m - 5) with (m - 1 - 1 - 1 - 1 - 1) by lia.
  cbn [app]. do 4 (eapply runs_step;
    [unfold while_body; cbn [fst snd]; rewrite varint32_step_high; try done; lia|];
    cbn [Z.ltb Z.compare Pos.compare Pos.compare_cont Z.add Pos.add Pos.succ]).
  apply runs_stop. unfold while_body. cbn [fst snd]. by rewrite varint32_step_high by (done || lia).
Qed.

Lemma land_0x70 b : 0 <= b < 16 -> b .& 0x70 = 0.
Proof.
  intros Hb. assert (b .& 0x70 = 0 \/ 16 <= b) as [?|?]; [|done|lia].
  assert (is_byte b) as Hb' by (unfold is_byte; lia).
  assert ((b .& 0x70 =? 0) || (16 <=? b) = true) as H.
  { clear Hb. revert b Hb'. apply byte_forall. vm_compute. reflexivity. }
  apply orb_true_iff in H as [H|H]; pb_bool; auto.
Qed.

(** A last digit before bit 28. *)
Lemma varint32_ends_stop v bitpos n :
  0 <= v -> 0 <= bitpos <= 28 -> v / 2 ^ bitpos < 128 -> varint32_value v ->
  varint32_ends v bitpos (S n).
Proof.
  intros Hv Hp Hd Hval rest m e Hm. assert (0 < 2 ^ bitpos) by (apply Z.pow_pos_nonneg; lia).
  assert (v < 2 ^ (bitpos + 7)) as Hlt.
  { rewrite Z.pow_add_r by lia. change (2 ^ 7) with 128.
    pose proof (Z.div_mod v (2 ^ bitpos)). pose proof (Z.mod_pos_bound v (2 ^ bitpos)). nia. }
  exists 1, (bitpos + 7), (v / 2 ^ bitpos). split_and!.
  - pose proof (varint32_low v n bitpos rest m e Hv Hp Hm) as E. cbn zeta in E.
    revert Hm E. cbn [varint_digits]. rewrite (proj2 (Z.ltb_lt _ _)) by done. intros Hm E.
    apply runs_stop. unfold while_body. cbn [fst snd]. rewrite E.
    by rewrite (Z.mod_small v (2 ^ (bitpos + 7))) by lia.
  - assert (bitpos / 7 <= 28 / 7) as Hdiv by (apply Z.div_le_mono; lia).
    change (28 / 7) with 4 in Hdiv. lia.
  - intros Hp35. assert (bitpos = 28) as -> by lia. apply land_0x70. split; [apply Z.div_pos; lia|].
    apply Z.div_lt_upper_bound; [lia|]. unfold varint32_value in Hval. lia.
Qed.

(** A continued digit. *)
Lemma varint32_ends_step v bitpos n :
  0 <= v -> 0 <= bitpos <= 21 -> 128 <= v / 2 ^ bitpos ->
  varint32_ends v (bitpos + 7) n -> varint32_ends v bitpos (S n).
Proof.
  intros Hv Hp Hd Hrest rest m e Hm.
  assert (v / 2 ^ (bitpos + 7) = v / 2 ^ bitpos / 128) as Ed.
  { rewrite Z.pow_add_r, Z.div_div by (try apply Z.pow_pos_nonneg; lia). done. }
  pose proof (varint32_low v n bitpos rest m e Hv ltac:(lia) Hm) as E. cbn zeta in E.
  rewrite Ed in E. revert Hm E. cbn [varint_digits]. rewrite (proj2 (Z.ltb_ge _ _)) by done.
  intros Hm E. rewrite zlength_cons in *.
  destruct (Hrest rest (m - 1) e) as (k & p & last & Hk & Hkn & Hlast).
  { rewrite Ed. pose proof (zlength_nonneg (varint_digits n (v / 2 ^ bitpos / 128))). lia. }
  exists (1 + k), p, last. replace (bitpos + 7) with (bitpos + 1 * 7) in Hkn by lia.
  rewrite Z.div_add in Hkn by lia. split_and!; [|lia|done].
  eapply runs_step; [unfold while_body; cbn [fst snd]; rewrite E; reflexivity|].
  assert (0 <= v mod 2 ^ (bitpos + 7) < 2 ^ (bitpos + 7))
    by (apply Z.mod_pos_bound, Z.pow_pos_nonneg; lia).
  assert (2 ^ (bitpos + 7) <= 2 ^ 32) by (apply Z.pow_le_mono_r; lia).
  rewrite Z.mod_small by lia. rewrite Ed in Hk. by rewrite Z.sub_add_distr.
Qed.

(** Bit 28: a 32-bit number ends here, a negative one goes on. *)
Lemma varint32_ends_28 v : varint32_value v -> varint32_ends v 28 6.
Proof.
  intros Hval. assert (0 <= v) by (unfold varint32_value in Hval; lia).
  destruct (Z.lt_ge_cases (v / 2 ^ 28) 128) as [Hlt|Hge].
  { apply varint32_ends_stop; lia || done. }
  assert (2 ^ 64 - 2 ^ 31 <= v < 2 ^ 64) as Hneg.
  { destruct Hval as [Hv|]; [|done]. exfalso.
    assert (v / 2 ^ 28 < 16) by (apply Z.div_lt_upper_bound; lia). lia. }
  assert (v / 2 ^ 35 = 2 ^ 29 - 1) as Ed.
  { symmetry. apply (Z.div_unique v (2 ^ 35) _ (v - 2 ^ 35 * (2 ^ 29 - 1))); lia. }
  intros rest m e Hm. pose proof (varint32_low v 5 28 rest m e ltac:(lia) ltac:(lia) Hm) as E.
  cbn zeta in E. change (28 + 7) with 35 in E. rewrite Ed in E. revert Hm E.
  assert (v / 2 ^ 28 / 128 = 2 ^ 29 - 1) as Ed2 by (rewrite Z.div_div by lia; exact Ed).
  replace (varint_digits 6 (v / 2 ^ 28))
    with (((v / 2 ^ 28) mod 128 + 128) :: [255; 255; 255; 255; 1]).
  2: { change (varint_digits 6 (v / 2 ^ 28)) with (if v / 2 ^ 28 <? 128 then [v / 2 ^ 28]
         else ((v / 2 ^ 28) mod 128 + 128) :: varint_digits 5 (v / 2 ^ 28 / 128)).
       by rewrite (proj2 (Z.ltb_ge _ _)), Ed2 by done. }
  rewrite (proj2 (Z.ltb_ge _ _)) by done. intros Hm E.
  change (zlength (_ :: _)) with 6 in *. exists (1 + 5), 70, 1. split_and!; [|by vm_compute|lia].
  assert ((v mod 2 ^ 35) mod 2 ^ 32 = v mod 2 ^ 32) as Em.
  { change (2 ^ 35) with (2 ^ 32 * 8). rewrite Z.rem_mul_r by lia. rewrite Z.mul_comm, Z.mod_add by lia.
    by apply Z.mod_mod. }
  eapply runs_step; [unfold while_body; cbn [fst snd]; rewrite E; reflexivity|].
  rewrite Em. replace (m - 6) with (m - 1 - 5) by lia. apply varint32_sign_bytes; [|lia].
  replace (v mod 2 ^ 32) with (v - (2 ^ 32 - 1) * 2 ^ 32); [lia|].
  apply (Z.mod_unique v (2 ^ 32) (2 ^ 32 - 1)); lia.
Qed.

Lemma varint32_ends_7 v : varint32_value v -> 128 <= v -> varint32_ends v 7 9.
Proof.
  intros Hval Hv.
  assert (forall bitpos n, 0 <= bitpos <= 21 -> varint32_ends v (bitpos + 7) n ->
    varint32_ends v bitpos (S n)) as Hstep.
  { intros bitpos n Hp Hn. destruct (Z.lt_ge_cases (v / 2 ^ bitpos) 128).
    - apply varint32_ends_stop; lia || done.
    - apply varint32_ends_step; lia || done. }
  do 3 (apply Hstep; [lia|]). by apply varint32_ends_28.
Qed.

Lemma varint32_rest_decodes v :
  varint32_value v -> 128 <= v ->
  decodes (varint32_rest (v mod 128 + 128)) (varint_digits 9 (v / 128)) (v mod 2 ^ 32).
Proof.
  intros Hval Hv rest m e Hm. pose proof (Z.mod_pos_bound v 128 ltac:(lia)).
  unfold varint32_rest. rewrite land_0x80 by (unfold is_byte; lia).
  rewrite (proj2 (Z.ltb_ge _ _)) by lia. rewrite land_0x7F.
  replace (v mod 128 + 128) with (v mod 128 + 1 * 128) by lia.
  rewrite Z.mod_add, Z.mod_mod by lia.
  destruct (varint32_ends_7 v Hval Hv rest m e Hm) as (k & p & last & Hk & Hkn & Hlast).
  erewrite bind_some.
  2: { eapply runs_while_body; [exact Hk|]. change (7 / 7) with 1 in Hkn. lia. }
  cbn beta iota. destruct (Z.eqb_spec p 35) as [->|]; [|done]. by rewrite Hlast.
Qed.

Lemma pb_decode_varint32_eof_decodes v :
  varint32_value v -> decodes pb_decode_varint32_eof (varint_bytes v) (Some (v mod 2 ^ 32), false).
Proof.
  intros Hval. unfold varint_bytes, pb_decode_varint32_eof.
  assert (0 <= v) by (unfold varint32_value in Hval; lia).
  set (b := if v <? 128 then v else v mod 128 + 128).
  assert (decodes (varint32_rest b) (if v <? 128 then [] else varint_digits 9 (v / 128)) (v mod 2 ^ 32))
    as Hrest.
  { unfold b. destruct (Z.ltb_spec v 128) as [Hlt|Hge]; [|by apply varint32_rest_decodes].
    unfold varint32_rest. rewrite land_0x80, (proj2 (Z.ltb_lt _ _)) by (unfold is_byte; lia).
    rewrite Z.mod_small by lia. apply decodes_ret. }
  eapply (decodes_seq _ _ (Some b) _ [b]).
  - apply decodes_attempt. intros rest n e Hn. change (zlength [b]) with 1 in *.
    apply pb_readbyte_cons. lia.
  - apply (decodes_map (attempt (varint32_rest b)) (fun r => (r, false)) (Some (v mod 2 ^ 32))).
    by apply decodes_attempt.
  - unfold b. cbn [varint_digits]. by destruct (v <? 128).
Qed.

Lemma pb_decode_varint32_decodes v :
  varint32_value v -> decodes pb_decode_varint32 (varint_bytes v) (v mod 2 ^ 32).
Proof.
  intros Hval. unfold pb_decode_varint32. eapply decodes_seq.
  - by apply pb_decode_varint32_eof_decodes.
  - apply decodes_ret.
  - by rewrite app_nil_r.
Qed.

(** A 32-bit number, and a negative [int32] in its ten-byte form, come back
    from [pb_decode_varint32] reduced to 32 bits. *)
Lemma varint32_roundtrip v :
  0 <= v < 2 ^ 32 \/ (exists x, - 2 ^ 31 <= x < 0 /\ v = u64 x) ->
  emits (pb_encode_varint v) tt (varint_bytes v) /\
  decodes pb_decode_varint32 (varint_bytes v) (u32 v).
Proof.
  intros Hv. assert (varint32_value v) as Hval.
  { destruct Hv as [Hv|(x & Hx & ->)]; [by left|right].
    replace (u64 x) with (x + 2 ^ 64) by (unfold wrap; apply (Z.mod_unique _ _ (-1)); lia). lia. }
  split; [|by apply pb_decode_varint32_decodes].
  apply pb_encode_varint_emits. unfold varint32_value in Hval. lia.
Qed.

Lemma varint32_roundtrip_witness :
  decodes pb_decode_varint32 [214; 255; 255; 255; 255; 255; 255; 255; 255; 1] (2 ^ 32 - 42).
Proof. apply (varint32_roundtrip (u64 (-42))). right. exists (-42). split; [lia|reflexivity]. Defined.

Lemma pb_decode_varint_spec_witness :
  pb_decode_varint (pb_istream_from_buffer [172; 2; 7] 3) =
    Ret (Some 300, IStream ICBufRead [7] 1 None).
Proof.
  rewrite (pb_decode_varint_spec (pb_istream_from_buffer [172; 2; 7] 3)); [reflexivity|].
  split_and!; [done| |done|done|done]. repeat constructor; done.
Defined.

(** ** Tags, lengths, strings and skipped fields *)

(** ** Any input

    On every well-formed buffer stream the decoders return, stay within the
    limit of the stream and give values in range. *)

Lemma reads_lift {A} (r : res A) (P : Z -> A -> Prop) a :
  r = Ret a -> P 0 a -> reads (lift_res r) P.
Proof. intros -> HP. exact (reads_ret a P HP). Qed.

Lemma varint32_body_reads st :
  0 <= st.2 < 2 ^ 32 ->
  reads (varint32_body st) (fun k r =>
    k = 1 /\ match r with inl st' => 0 <= st'.2 < 2 ^ 32 | inr (_, v, _) => 0 <= v < 2 ^ 32 end).
Proof.
  destruct st as [bitpos result]. cbn [snd]. intros Hr. unfold varint32_body.
  eapply reads_bind; [apply pb_readbyte_reads|]. intros j b [-> Hb].
  eapply (reads_bind _ _ (fun k v => k = 0 /\ 0 <= v < 2 ^ 32)).
  - apply reads_if.
    + apply reads_if; [apply reads_error|by apply reads_ret].
    + apply reads_ret. split; [done|]. apply lor_bound; [lia|done|]. by apply wrap_bound.
  - intros k v [-> Hv]. apply reads_if; apply reads_ret; by split.
Qed.

Lemma varint32_rest_reads b :
  is_byte b -> reads (varint32_rest b) (fun k v => 0 <= v < 2 ^ 32).
Proof.
  intros Hb. unfold is_byte in Hb. unfold varint32_rest. apply reads_if; [apply reads_ret; lia|].
  eapply (reads_bind _ _ (fun _ '(_, v, _) => 0 <= v < 2 ^ 32)).
  - apply (reads_whileM _ (fun _ st => 0 <= st.2 < 2 ^ 32)).
    + intros j st _ Hst. eapply reads_weaken; [by apply varint32_body_reads|].
      intros k [st'|[[p v] last]] _ [-> Hv]; [by split|done].
    + cbn [snd]. rewrite land_0x7F. pose proof (Z.mod_pos_bound b 128). lia.
  - intros j [[p v] last] Hv. apply reads_if; [apply reads_error|by apply reads_ret].
Qed.

Lemma reads_get (P : Z -> pb_istream_t -> Prop) :
  (forall s, P 0 s) -> reads get P.
Proof.
  intros HP s Hs. exists (Some s), s, 0. split_and!; [done| |by intros ? [= <-]].
  apply consumed_refl. destruct Hs as (_ & _ & ? & _). lia.
Qed.

Lemma pb_decode_varint32_eof_reads :
  reads pb_decode_varint32_eof (fun k r => forall v, r.1 = Some v -> 1 <= k /\ 0 <= v < 2 ^ 32).
Proof.
  unfold pb_decode_varint32_eof.
  eapply reads_bind; [apply reads_attempt, pb_readbyte_reads|]. intros j [b|] Hb.
  - destruct (Hb b eq_refl) as [-> Hbyte].
    intros s Hs. destruct (varint32_rest_reads b Hbyte s Hs) as (o & s' & k & E & Hk & Ho).
    exists (Some (o, false)), s', k. split_and!; [|done|].
    + by rewrite (bind_attempt _ _ _ _ _ E).
    + intros a [= <-] v Hv. destruct Hk as ([? _] & _). split; [lia|]. by apply Ho.
  - apply (reads_bind _ _ (fun _ _ => True)); [by apply reads_get|]. intros k s _. by apply reads_ret.
Qed.

Lemma pb_decode_varint32_reads :
  reads pb_decode_varint32 (fun _ v => 0 <= v < 2 ^ 32).
Proof.
  unfold pb_decode_varint32. eapply reads_bind; [apply pb_decode_varint32_eof_reads|].
  intros j [[v|] eof] Hv; simpl in *; [by apply reads_ret, (Hv v)|].
  intros s Hs. exists None, s, 0. split_and!; [done| |done].
  apply consumed_refl. destruct Hs as (_ & _ & ? & _). lia.
Qed.

Lemma pb_decode_tag_reads :
  reads pb_decode_tag (fun k r =>
    tr_ok r = true -> 1 <= k /\ 0 <= tr_wire_type r < 8 /\ 0 <= tr_tag r < 2 ^ 29).
Proof.
  unfold pb_decode_tag. eapply reads_bind; [apply pb_decode_varint32_eof_reads|].
  intros j [[v|] eof] Hv; [|by apply reads_ret].
  destruct (Hv v eq_refl) as [Hj Hv2]. apply reads_if; apply reads_ret; [done|]. simpl. intros _.
  change 7 with (Z.ones 3). rewrite Z.land_ones, Z.shiftr_div_pow2 by lia. split; [lia|split].
  - by apply Z.mod_pos_bound.
  - split; [apply Z.div_pos; lia|apply Z.div_lt_upper_bound; lia].
Qed.

Lemma read_byte_reads : reads (bs <- pb_read false 1;; lift_res (the_byte bs))
  (fun k b => k = 1 /\ is_byte b).
Proof.
  eapply reads_bind; [by apply pb_read_reads|]. intros j bs (-> & Hlen & Hbs).
  destruct bs as [|b bs]; [done|]. apply (reads_lift _ _ b); [done|].
  apply Forall_cons_1 in Hbs as [Hb _]. by split.
Qed.

(** The loops of [pb_skip_varint] and [read_raw_value] read byte by byte. *)
Lemma byte_loop_reads {A} (k : Z -> M pb_istream_t A) P :
  (forall b, is_byte b -> reads (k b) (fun n a => P (1 + n) a)) ->
  reads (bs <- pb_read false 1;; byte <- lift_res (the_byte bs);; k byte) P.
Proof.
  intros Hk s Hs.
  assert (reads (bind (bs <- pb_read false 1;; lift_res (the_byte bs)) k) P) as H.
  { eapply reads_bind; [apply read_byte_reads|]. intros j b [-> Hb]. by apply Hk. }
  destruct (H s Hs) as (o & s' & n & E & Hc & HP). exists o, s', n.
  split_and!; [|done|done]. by rewrite bind_assoc in E.
Qed.

Lemma pb_skip_varint_reads : reads pb_skip_varint (fun k _ => 1 <= k).
Proof.
  apply (reads_whileM _ (fun _ _ => True)); [|done]. intros j [] Hj _.
  apply byte_loop_reads. intros b Hb.
  apply reads_if; apply reads_ret; [by split|lia].
Qed.

Lemma pb_skip_string_reads : reads pb_skip_string (fun _ _ => True).
Proof.
  eapply reads_bind; [apply pb_decode_varint32_reads|]. intros j n Hn. cbn beta in Hn.
  eapply reads_bind; [apply pb_read_reads; lia|]. intros. by apply reads_ret.
Qed.

Lemma read_raw_value_reads wt max :
  0 <= max ->
  reads (read_raw_value wt max) (fun k bs =>
    k = zlength bs /\ bytes_ok bs /\ (wt = PB_WT_VARINT -> zlength bs <= max)).
Proof.
  intros Hmax. unfold read_raw_value. destruct (Z.eqb_spec wt PB_WT_VARINT) as [->|Hv].
  - apply (reads_whileM _ (fun j bs => j = zlength bs /\ bytes_ok bs /\ zlength bs <= max)).
    + intros j bs Hj (Ej & Hbs & Hlen). unfold raw_varint_body. destruct (Z.ltb_spec max (zlength bs + 1)).
      { intros s Hs. exists None, s, 0. split_and!; [done| |done].
        apply consumed_refl. destruct Hs as (_ & _ & ? & _). lia. }
      apply byte_loop_reads. intros b Hb.
      assert (bytes_ok (bs ++ [b])) by (apply Forall_app; split; [done|by constructor]).
      assert (zlength (bs ++ [b]) = zlength bs + 1) as El by (rewrite zlength_app; done).
      apply reads_if; apply reads_ret; rewrite El; [split; [lia|]|]; split_and!; try done; try lia.
    + split_and!; [done|constructor|]. unfold zlength. simpl. lia.
  - apply reads_if; [|apply reads_if; [|apply reads_error]];
      (eapply reads_weaken; [by apply pb_read_reads|]);
      intros k bs _ (-> & Hlen & Hbs); split_and!; try done; lia.
Qed.

(** [pb_skip_field] on hostile input: it returns, it stays in the stream, and
    it refuses the wire types of groups and the unassigned ones. *)
Theorem pb_skip_field_reads wt :
  reads (pb_skip_field wt) (fun _ _ =>
    wt = PB_WT_VARINT \/ wt = PB_WT_64BIT \/ wt = PB_WT_STRING \/ wt = PB_WT_32BIT).
Proof.
  unfold pb_skip_field. destruct (Z.eqb_spec wt PB_WT_VARINT); [|destruct (Z.eqb_spec wt PB_WT_64BIT);
    [|destruct (Z.eqb_spec wt PB_WT_STRING); [|destruct (Z.eqb_spec wt PB_WT_32BIT)]]].
  - eapply reads_weaken; [apply pb_skip_varint_reads|auto].
  - eapply reads_bind; [by apply pb_read_reads|]. intros. apply reads_ret. auto.
  - eapply reads_weaken; [apply pb_skip_string_reads|auto].
  - eapply reads_bind; [by apply pb_read_reads|]. intros. apply reads_ret. auto.
  - apply reads_error.
Qed.

(** ** Tags *)
(** The number in front of a field, as the protocol defines it. *)
Definition tag_number (field_number wiretype : Z) : Z := field_number * 8 + wiretype.

Lemma tag_bits wt tag :
  0 <= wt < 8 -> 0 <= tag < 2 ^ 61 -> u64 (Z.shiftl tag 3) .| wt = tag_number tag wt.
Proof.
  intros Hw Ht. unfold tag_number. rewrite Z.shiftl_mul_pow2, wrap_small by lia.
  rewrite Z.lor_comm, <- Z.shiftl_mul_pow2, lor_shiftl_add by lia. lia.
Qed.

Lemma pb_encode_tag_emits wt tag :
  0 <= wt < 8 -> 0 <= tag < 2 ^ 61 ->
  emits (pb_encode_tag wt tag) tt (varint_bytes (tag_number tag wt)).
Proof.
  intros Hw Ht. unfold pb_encode_tag. rewrite tag_bits by done.
  apply pb_encode_varint_emits. unfold tag_number. lia.
Qed.

Lemma pb_decode_tag_decodes wt tag :
  0 <= wt < 8 -> 1 <= tag < 2 ^ 29 ->
  decodes pb_decode_tag (varint_bytes (tag_number tag wt)) (TagResult true wt tag false).
Proof.
  intros Hw Ht. assert (0 <= tag_number tag wt < 2 ^ 32) by (unfold tag_number; lia).
  unfold pb_decode_tag. eapply decodes_seq.
  - apply pb_decode_varint32_eof_decodes. by left.
  - cbn beta iota. rewrite Z.mod_small by done. rewrite (proj2 (Z.eqb_neq _ _)) by (unfold tag_number; lia).
    change 7 with (Z.ones 3). rewrite Z.land_ones, Z.shiftr_div_pow2 by lia.
    replace (tag_number tag wt mod 2 ^ 3) with wt.
    2: { unfold tag_number. rewrite Z.add_comm, Z.mod_add, Z.mod_small by lia. done. }
    replace (tag_number tag wt / 2 ^ 3) with tag; [apply decodes_ret|].
    unfold tag_number. rewrite Z.div_add_l by lia. rewrite Z.div_small by lia. lia.
  - by rewrite app_nil_r.
Qed.

(** ** Strings *)
Definition string_bytes (bs : list Z) : list Z := varint_bytes (zlength bs) ++ bs.

Lemma pb_encode_string_emits bs n :
  n = zlength bs -> n < 2 ^ 63 -> emits (pb_encode_string (Some bs) n) tt (string_bytes bs).
Proof.
  intros -> Hn. pose proof (zlength_nonneg bs). unfold pb_encode_string, string_bytes.
  rewrite wrap_small by lia. eapply emits_bind; [apply pb_encode_varint_emits; lia|].
  by apply pb_write_emits.
Qed.

Lemma pb_skip_string_decodes bs :
  zlength bs < 2 ^ 32 -> decodes pb_skip_string (string_bytes bs) tt.
Proof.
  intros Hn. pose proof (zlength_nonneg bs). unfold pb_skip_string, string_bytes.
  eapply decodes_bind; [apply pb_decode_varint32_decodes; left; lia|].
  rewrite Z.mod_small by lia. apply (decodes_map _ (fun _ => tt) bs). by apply pb_read_decodes.
Qed.

(** ** Fixed-width values *)
Lemma fixed32_le v : fixed32_bytes v = le_bytes 4 v.
Proof.
  unfold fixed32_bytes, le_bytes, wrap.
  rewrite !land_0xFF, !Z.shiftr_div_pow2, !Zdiv.Zmod_mod, !Z.div_div by lia. done.
Qed.

Lemma fixed64_le v : fixed64_bytes v = le_bytes 8 v.
Proof.
  unfold fixed64_bytes. rewrite fixed32_le. unfold le_bytes, wrap.
  rewrite !land_0xFF, !Z.shiftr_div_pow2, !Zdiv.Zmod_mod, !Z.div_div by lia. done.
Qed.

Lemma or_bytes_val bs shift :
  bytes_ok bs -> 0 <= shift -> or_bytes bs shift = le_val bs * 2 ^ shift.
Proof.
  intros Hbs. revert shift. induction Hbs as [|b bs Hb Hbs IH]; intros shift Hs; [done|].
  assert (0 < 2 ^ shift) by (apply Z.pow_pos_nonneg; lia).
  cbn [or_bytes le_val]. destruct bs as [|b' bs].
  { cbn [le_val]. rewrite Z.shiftl_mul_pow2 by done. lia. }
  rewrite IH by lia. rewrite Z.pow_add_r by lia. change (2 ^ 8) with 256.
  replace (le_val (b' :: bs) * (2 ^ shift * 256)) with ((256 * le_val (b' :: bs)) * 2 ^ shift) by lia.
  rewrite <- !Z.shiftl_mul_pow2 by lia. rewrite <- Z.shiftl_lor. f_equal.
  replace (256 * le_val (b' :: bs)) with (Z.shiftl (le_val (b' :: bs)) 8)
    by (rewrite Z.shiftl_mul_pow2 by lia; change (2 ^ 8) with 256; lia).
  rewrite lor_shiftl_add by (unfold is_byte in Hb; lia). by rewrite Z.shiftl_mul_pow2 by lia.
Qed.

Lemma pb_decode_fixed_decodes n v :
  0 <= v < 2 ^ (8 * Z.of_nat n) ->
  decodes (bs <- pb_read false (Z.of_nat n);; ret (or_bytes bs 0)) (le_bytes n v) v.
Proof.
  intros Hv. eapply decodes_seq.
  - apply pb_read_decodes. unfold zlength. by rewrite length_le_bytes.
  - cbn beta. rewrite or_bytes_val, le_val_bytes by (lia || auto with pb).
    rewrite Z.mod_small, Z.mul_1_r by done. apply decodes_ret.
  - by rewrite app_nil_r.
Qed.

Lemma pb_encode_fixed32_emits m p v :
  load_u 4 m p = Some v -> emits (pb_encode_fixed32 m p) tt (le_bytes 4 v).
Proof.
  intros Hl. unfold pb_encode_fixed32. rewrite Hl. apply (emits_lift _ _ v); [done|].
  rewrite fixed32_le. by apply pb_write_emits.
Qed.

Lemma pb_encode_fixed64_emits m p v :
  load_u 8 m p = Some v -> emits (pb_encode_fixed64 m p) tt (le_bytes 8 v).
Proof.
  intros Hl. unfold pb_encode_fixed64. rewrite Hl. apply (emits_lift _ _ v); [done|].
  rewrite fixed64_le. by apply pb_write_emits.
Qed.

(** ** Signed numbers *)
Definition zigzag (v : Z) : Z := if v <? 0 then -2 * v - 1 else 2 * v.

Lemma zigzag_encode_spec v : - 2 ^ 63 <= v < 2 ^ 63 -> zigzag_encode v = zigzag v.
Proof.
  intros Hv. unfold zigzag_encode, zigzag, wrap. rewrite Z.shiftl_mul_pow2 by lia.
  rewrite Zmult_mod_idemp_l. change (2 ^ 1) with 2. destruct (Z.ltb_spec v 0).
  - unfold Z.lnot.
    rewrite <- (Z.mod_unique (v * 2) (2 ^ 64) (-1) (v * 2 + 2 ^ 64)) by lia.
    symmetry. apply (Z.mod_unique _ (2 ^ 64) (-1)); lia.
  - rewrite Z.mod_small by lia. lia.
Qed.

Lemma zigzag_decode_spec v : - 2 ^ 63 <= v < 2 ^ 63 -> zigzag_decode (zigzag v) = v.
Proof.
  intros Hv. unfold zigzag_decode, zigzag.
  assert (forall x, x .& 1 = x mod 2) as Hland by (intros; by apply (Z.land_ones _ 1)).
  rewrite Hland, Z.shiftr_div_pow2 by lia. change (2 ^ 1) with 2. destruct (Z.ltb_spec v 0).
  - replace (-2 * v - 1) with (1 + (- v - 1) * 2) by lia.
    rewrite Z.mod_add, Z.div_add by lia. change (1 / 2) with 0. change (1 mod 2) with 1.
    cbn [negb Z.eqb Pos.eqb]. unfold Z.lnot. rewrite sext_small; lia.
  - rewrite (Z.mul_comm 2), Z.mod_mul, Z.div_mul by lia. cbn. apply sext_small; lia.
Qed.

Lemma zigzag_bound v : - 2 ^ 63 <= v < 2 ^ 63 -> 0 <= zigzag v < 2 ^ 64.
Proof. intros Hv. unfold zigzag. destruct (Z.ltb_spec v 0); lia. Qed.

Lemma pb_decode_svarint_decodes v :
  - 2 ^ 63 <= v < 2 ^ 63 -> decodes pb_decode_svarint (varint_bytes (zigzag v)) v.
Proof.
  intros Hv. rewrite <- (zigzag_decode_spec v) at 2 by done.
  apply (decodes_map pb_decode_varint zigzag_decode). by apply pb_decode_varint_decodes, zigzag_bound.
Qed.

(** Every value of an [sint64] survives, in the number of bytes of its magnitude. *)
Lemma svarint_roundtrip v :
  - 2 ^ 63 <= v < 2 ^ 63 ->
  0 <= zigzag v < 2 ^ 64 /\
  emits (pb_encode_svarint v) tt (varint_bytes (zigzag v)) /\
  decodes pb_decode_svarint (varint_bytes (zigzag v)) v.
Proof.
  intros Hv. split_and!; [by apply zigzag_bound|by apply zigzag_bound| |by apply pb_decode_svarint_decodes].
  unfold pb_encode_svarint. rewrite zigzag_encode_spec by done.
  by apply pb_encode_varint_emits, zigzag_bound.
Qed.

(** ** Values of unknown fields *)

(** A varint of any length. *)
Inductive varint_shape : list Z -> Prop :=
| shape_last b : 0 <= b < 128 -> varint_shape [b]
| shape_more b bs : 128 <= b < 256 -> varint_shape bs -> varint_shape (b :: bs).

(** The values a wire type announces. *)
Inductive field_value : Z -> list Z -> Prop :=
| value_varint bs : varint_shape bs -> zlength bs < 2 ^ 64 -> field_value PB_WT_VARINT bs
| value_64bit bs : zlength bs = 8 -> field_value PB_WT_64BIT bs
| value_string bs : zlength bs < 2 ^ 32 -> field_value PB_WT_STRING (string_bytes bs)
| value_32bit bs : zlength bs = 4 -> field_value PB_WT_32BIT bs.

Lemma varint_digits_shape n v :
  0 <= v < 128 ^ Z.of_nat n -> (0 < n)%nat -> varint_shape (varint_digits n v).
Proof.
  revert v. induction n as [|n IH]; intros v Hv Hn; [lia|]. cbn [varint_digits].
  destruct (Z.ltb_spec v 128); [by constructor; lia|].
  pose proof (Z.mod_pos_bound v 128 ltac:(lia)). constructor; [lia|].
  rewrite Nat2Z.inj_succ, Z.pow_succ_r in Hv by lia. apply IH.
  - split; [apply Z.div_pos; lia|apply Z.div_lt_upper_bound; lia].
  - destruct n; [|lia]. simpl in Hv. lia.
Qed.

Lemma pb_skip_varint_decodes bs :
  varint_shape bs -> zlength bs < 2 ^ 64 -> decodes pb_skip_varint bs tt.
Proof.
  intros Hbs Hlen rest m e Hm. unfold pb_skip_varint.
  eapply (runs_while_body _ _ _ (zlength bs)); [|lia].
  set (body := fun _ : unit => _).
  assert (forall b l m, 0 <= b < 256 -> 1 <= m < 2 ^ 64 ->
    body tt (IStream ICBufRead (b :: l) m e) =
      Ret (Some (if b <? 128 then inr tt else inl tt), IStream ICBufRead l (m - 1) e)) as Hbody.
  { intros b l m' Hb Hm'. unfold body. erewrite bind_some.
    2: { apply (pb_read_decodes false [b] 1 eq_refl l m' e). change (zlength [b]) with 1. lia. }
    change (zlength [b]) with 1. cbn [the_byte]. rewrite (bind_lift _ _ _ b), land_0x80 by done.
    by destruct (b <? 128). }
  clearbody body. revert m Hm Hlen. induction Hbs as [b Hb|b bs Hb Hbs IH]; intros m Hm Hlen.
  - change (zlength [b]) with 1 in *. apply runs_stop. unfold while_body. cbn [fst snd app].
    rewrite Hbody, (proj2 (Z.ltb_lt _ _)) by lia. done.
  - rewrite zlength_cons in *. pose proof (zlength_nonneg bs). eapply runs_step.
    + unfold while_body. cbn [fst snd app].
      rewrite Hbody, (proj2 (Z.ltb_ge _ _)) by lia. reflexivity.
    + rewrite Z.sub_add_distr. apply IH; lia.
Qed.

(** Skipping a field of any wire type consumes exactly its value. *)
Theorem pb_skip_field_decodes wt bs : field_value wt bs -> decodes (pb_skip_field wt) bs tt.
Proof.
  intros Hv. unfold pb_skip_field. destruct Hv as [bs Hbs Hlen|bs Hlen|bs Hlen|bs Hlen]; cbn.
  - by apply pb_skip_varint_decodes.
  - apply (decodes_map _ (fun _ => tt) bs). by apply pb_read_decodes.
  - by apply pb_skip_string_decodes.
  - apply (decodes_map _ (fun _ => tt) bs). by apply pb_read_decodes.
Qed.

Lemma svarint_roundtrip_witness : decodes pb_decode_svarint [5] (-3).
Proof. apply (svarint_roundtrip (-3)). lia. Defined.

Lemma pb_skip_field_decodes_witness :
  decodes (pb_skip_field PB_WT_STRING) [2; 104; 105] tt.
Proof. exact (pb_skip_field_decodes PB_WT_STRING _ (value_string [104; 105] eq_refl)). Defined.

(** ** Whole fields *)

(** The wire type and the tag number that [pb_encode_tag] writes are the ones
    [pb_decode_tag] reports, without the end-of-message flag. *)
Lemma tag_roundtrip wt tag :
  wt ∈ [PB_WT_VARINT; PB_WT_64BIT; PB_WT_STRING; PB_WT_32BIT] -> 1 <= tag < 2 ^ 29 ->
  emits (pb_encode_tag wt tag) tt (varint_bytes (tag * 8 + wt)) /\
  decodes pb_decode_tag (varint_bytes (tag * 8 + wt)) (TagResult true wt tag false).
Proof.
  intros Hwt Ht. assert (0 <= wt < 8) as Hw.
  { unfold PB_WT_VARINT, PB_WT_64BIT, PB_WT_STRING, PB_WT_32BIT in Hwt. set_unfold. lia. }
  split; [apply pb_encode_tag_emits; lia|by apply pb_decode_tag_decodes].
Qed.

Lemma tag_roundtrip_witness : decodes pb_decode_tag [186; 1] (TagResult true PB_WT_STRING 23 false).
Proof. apply (tag_roundtrip PB_WT_STRING 23); [set_solver|lia]. Defined.

(** At the end of the stream, and at a byte 0, [pb_decode_tag] asks the caller
    to stop.  (It also does for longer encodings of the number 0.) *)
Lemma pb_decode_tag_end rest n e :
  pb_decode_tag (IStream ICBufRead rest 0 e) =
    Ret (Some (TagResult false 0 0 true),
         pb_set_error "end-of-stream" (IStream ICBufRead rest 0 e)) /\
  (0 < n < 2 ^ 64 ->
   pb_decode_tag (IStream ICBufRead (0 :: rest) n e) =
     Ret (Some (TagResult false 0 0 true), IStream ICBufRead rest (n - 1) e)).
Proof.
  split; [reflexivity|]. intros Hn. unfold pb_decode_tag, pb_decode_varint32_eof.
  rewrite bind_assoc. erewrite bind_attempt by (apply pb_readbyte_cons; lia). reflexivity.
Qed.

Lemma pb_decode_tag_end_witness :
  pb_decode_tag (IStream ICBufRead [0; 9] 2 None) =
    Ret (Some (TagResult false 0 0 true), IStream ICBufRead [9] 1 None).
Proof. apply (pb_decode_tag_end [9] 2 None). lia. Defined.

(** The four or eight bytes of an object in memory come back as its value. *)
Lemma fixed32_roundtrip m p v :
  mem_ok m -> load_u 4 m p = Some v ->
  emits (pb_encode_fixed32 m p) tt (le_bytes 4 v) /\ decodes pb_decode_fixed32 (le_bytes 4 v) v.
Proof.
  intros Hm Hv. split; [by apply pb_encode_fixed32_emits|].
  apply (pb_decode_fixed_decodes 4). by eapply (load_u_bound 4).
Qed.

Lemma fixed64_roundtrip m p v :
  mem_ok m -> load_u 8 m p = Some v ->
  emits (pb_encode_fixed64 m p) tt (le_bytes 8 v) /\ decodes pb_decode_fixed64 (le_bytes 8 v) v.
Proof.
  intros Hm Hv. split; [by apply pb_encode_fixed64_emits|].
  apply (pb_decode_fixed_decodes 8). by eapply (load_u_bound 8).
Qed.

(** C38: The scalars of the wire format survive the wire.  Every [sint64] does, in
    the number of bytes of its magnitude (zigzag).  The wire type and the tag
    number that [pb_encode_tag] writes, for any valid ones, are those
    [pb_decode_tag] reports, without the end-of-message flag.  A 32-bit number,
    and a negative [int32] in its ten-byte form, come back from
    [pb_decode_varint32] reduced to 32 bits.  The four or eight bytes of an
    object in memory come back from the fixed-width decoders as its value. *)
Theorem scalar_roundtrips :
  (forall v, - 2 ^ 63 <= v < 2 ^ 63 ->
     0 <= zigzag v < 2 ^ 64 /\
     emits (pb_encode_svarint v) tt (varint_bytes (zigzag v)) /\
     decodes pb_decode_svarint (varint_bytes (zigzag v)) v) /\
  (forall wt tag, wt ∈ [PB_WT_VARINT; PB_WT_64BIT; PB_WT_STRING; PB_WT_32BIT] -> 1 <= tag < 2 ^ 29 ->
     emits (pb_encode_tag wt tag) tt (varint_bytes (tag * 8 + wt)) /\
     decodes pb_decode_tag (varint_bytes (tag * 8 + wt)) (TagResult true wt tag false)) /\
  (forall v, 0 <= v < 2 ^ 32 \/ (exists x, - 2 ^ 31 <= x < 0 /\ v = u64 x) ->
     emits (pb_encode_varint v) tt (varint_bytes v) /\
     decodes pb_decode_varint32 (varint_bytes v) (u32 v)) /\
  (forall m p v, mem_ok m -> load_u 4 m p = Some v ->
     emits (pb_encode_fixed32 m p) tt (le_bytes 4 v) /\ decodes pb_decode_fixed32 (le_bytes 4 v) v) /\
  (forall m p v, mem_ok m -> load_u 8 m p = Some v ->
     emits (pb_encode_fixed64 m p) tt (le_bytes 8 v) /\ decodes pb_decode_fixed64 (le_bytes 8 v) v).
Proof.
  split_and!; [exact svarint_roundtrip|exact tag_roundtrip|exact varint32_roundtrip
              |exact fixed32_roundtrip|exact fixed64_roundtrip].
Qed.

(** The number -42, field 23 of type string, and four bytes at address 0. *)
Lemma scalar_roundtrips_witness :
  decodes pb_decode_svarint [83] (-42) /\
  decodes pb_decode_tag [186; 1] (TagResult true PB_WT_STRING 23 false) /\
  decodes pb_decode_varint32 [214; 255; 255; 255; 255; 255; 255; 255; 255; 1] (2 ^ 32 - 42) /\
  decodes pb_decode_fixed32 [1; 2; 3; 4] 0x04030201.
Proof.
  destruct scalar_roundtrips as (Hs & Ht & Hv & H32 & _). split_and!.
  - apply (Hs (-42)). lia.
  - apply (Ht PB_WT_STRING 23); [set_solver|lia].
  - apply (Hv (u64 (-42))). right. exists (-42). split; [lia|reflexivity].
  - apply (H32 (mem_of 0 [1; 2; 3; 4]) 0 0x04030201); [|reflexivity].
    apply mem_of_ok. repeat constructor; done.
Defined.

(** ** Substreams *)

(** C39: [pb_make_string_substream] limits the substream to the announced bytes,
    takes them from the parent, and after any reading in the substream
    [pb_close_string_substream] puts the parent behind all of them. *)
Theorem substream_window bs rest n e :
  zlength bs < 2 ^ 32 -> zlength (string_bytes bs) <= n < 2 ^ 64 -> bytes_ok (bs ++ rest) ->
  let sub := IStream ICBufRead (bs ++ rest) (zlength bs) e in
  let after l e := IStream ICBufRead l (n - zlength (string_bytes bs)) e in
  pb_make_string_substream (IStream ICBufRead (string_bytes bs ++ rest) n e) =
    Ret (Some sub, after (bs ++ rest) e) /\
  istream_ok sub /\
  forall k sub', consumed k sub sub' ->
    pb_close_string_substream sub' (after (bs ++ rest) e) = Ret (Some tt, after rest (i_errmsg sub')).
Proof.
  intros Hbs Hn Hok sub after. unfold string_bytes in *. rewrite zlength_app in Hn.
  pose proof (zlength_nonneg bs). pose proof (zlength_nonneg rest).
  pose proof (zlength_nonneg (varint_bytes (zlength bs))). split; [|split].
  - unfold pb_make_string_substream. rewrite <- app_assoc.
    erewrite bind_some by (apply pb_decode_varint32_decodes; [left; lia|lia]).
    rewrite Z.mod_small, bind_get by lia. cbn [bytes_left].
    rewrite (proj2 (Z.ltb_ge _ _)) by lia. rewrite bind_modify. unfold set_bytes_left, ret. cbn.
    rewrite wrap_small by lia. unfold sub, after. rewrite zlength_app. do 3 f_equal. lia.
  - unfold istream_ok, sub. cbn [i_callback i_state bytes_left]. rewrite zlength_app.
    split_and!; done || lia.
  - intros k sub' (Hk & Hcb & Hst & Hbl). destruct sub' as [cb l m e']. simpl in *. subst cb l m.
    unfold pb_close_string_substream. cbn [bytes_left].
    destruct (Z.eqb_spec (zlength bs - k) 0) as [Ek|Ek].
    + rewrite (bind_on_local _ _ _ _ _ eq_refl). cbn.
      replace k with (zlength bs) by lia. by rewrite zdrop_app.
    + rewrite zdrop_app_le by lia. erewrite bind_on_local.
      2: { apply (pb_read_decodes true (zdrop k bs)); [rewrite zlength_zdrop; lia|].
           rewrite zlength_zdrop by lia. lia. }
      done.
Qed.

Lemma substream_window_witness :
  pb_make_string_substream (pb_istream_from_buffer [2; 104; 105; 33] 4) =
    Ret (Some (IStream ICBufRead [104; 105; 33] 2 None), IStream ICBufRead [104; 105; 33] 1 None).
Proof.
  apply (substream_window [104; 105] [33] 4 None); [done|done|]. repeat constructor; done.
Defined.
