(* ===== verification/EncodeSize.v ===== *)
(** * The sizing pass of the encoder

    [pb_encode_submessage] and [pb_get_encoded_size] run the encoder on a
    stream without a callback and trust its count.  Here: everything the
    encoder does is [uniform], so the count is what the real pass writes. *)
From S2P Require Import Prelude WireFormat Memory Descriptor Iter OStream IStream Wire Encode.

(** A hypothesis on the application's encoder callbacks, which pb.h does not
    demand: they write the same bytes in every pass.  [pb_encode_submessage]
    checks the length of the second pass at run time and reports "submsg size
    changed"; a callback that changes its mind makes the encoding fail, so
    nothing can be said about the size of such a message. *)
Class UniformCallbacks `{EncodeCallbacks} : Prop := {
  field_cb_uniform : forall f m field arg, uniform (field_encode_cb f m field arg);
  ext_cb_uniform : forall f m extension, uniform (ext_encode_cb f m extension);
}.

Ltac uniform_step :=
  lazymatch goal with
  | |- uniform (if ?b then _ else _) => destruct b eqn:?
  | |- uniform (match ?x with _ => _ end) => destruct x eqn:?
  | |- uniform (bind (lift_res _) _) => apply uniform_lift; intros ? ?
  | |- uniform (bind (need _) _) => apply uniform_need; intros ? ?
  | |- uniform (bind (on_local _ _) _) => apply uniform_on_local; intros ? ?
  | |- uniform (bind _ _) => apply uniform_bind; [|intros ?]
  | |- uniform (ret _) => apply uniform_ret
  | |- uniform (pb_return_error _) => apply uniform_error
  | |- uniform undefined => apply uniform_undefined
  | |- uniform return_false => apply uniform_return_false
  | |- uniform no_fuel => apply uniform_no_fuel
  end.

Lemma uniform_need_ret {A} (o : option A) : uniform (need o).
Proof.
  intros s a s' Hs Hz E. destruct o as [x|]; [|done]. exact (uniform_ret x s a s' Hs Hz E).
Qed.

Lemma uniform_ext {A} (c d : M pb_ostream_t A) : (forall s, c s = d s) -> uniform d -> uniform c.
Proof.
  intros Heq Hd s a s' Hs Hz E. rewrite Heq in E. destruct (Hd _ _ _ Hs Hz E) as (bs & -> & He).
  exists bs. split; [done|]. exact (emits_or_ub_ext _ _ _ _ Heq He).
Qed.

Lemma pb_encode_svarint_uniform v : uniform (pb_encode_svarint v).
Proof.
  apply pb_encode_varint_uniform. unfold zigzag_encode.
  destruct (v <? 0); by apply wrap_bound.
Qed.

Lemma pb_encode_string_uniform o n :
  0 <= n -> (forall bs, o = Some bs -> n = zlength bs) -> uniform (pb_encode_string o n).
Proof.
  intros. apply uniform_bind; [by apply pb_encode_varint_uniform, wrap_bound|].
  intros _. by apply pb_write_any.
Qed.

Lemma load_bytes_source m p n bs :
  0 <= n -> load_bytes m p (Z.to_nat n) = Some bs -> n = zlength bs.
Proof. intros Hn E. unfold zlength. rewrite (load_bytes_length _ _ _ _ E). lia. Qed.

Section sizing.
Context `{Tables} (m : mem) (Hm : mem_ok m).

(** ** Scalars *)
Lemma pb_enc_varint_uniform f p : uniform (pb_enc_varint m f p).
Proof.
  unfold pb_enc_varint. apply uniform_bind.
  - repeat uniform_step; apply uniform_need_ret.
  - intros v. by apply pb_encode_varint_uniform, wrap_bound.
Qed.

Lemma pb_enc_svarint_uniform f p : uniform (pb_enc_svarint m f p).
Proof.
  unfold pb_enc_svarint. apply uniform_bind.
  - repeat uniform_step; apply uniform_need_ret.
  - intros v. apply pb_encode_svarint_uniform.
Qed.

Lemma load_uvarint_uniform n p :
  (n <= 8)%nat -> uniform (bind (need (load_u n m p)) pb_encode_varint).
Proof.
  intros Hn. apply uniform_need. intros v Hv. apply pb_encode_varint_uniform.
  pose proof (load_u_bound _ _ _ _ Hm Hv) as Hb. split; [lia|].
  eapply Z.lt_le_trans; [apply Hb|]. apply Z.pow_le_mono_r; lia.
Qed.

Lemma pb_enc_uvarint_uniform f p : uniform (pb_enc_uvarint m f p).
Proof.
  unfold pb_enc_uvarint.
  destruct (data_size f =? 1); [by apply load_uvarint_uniform; lia|].
  destruct (data_size f =? 2); [by apply load_uvarint_uniform; lia|].
  destruct (data_size f =? 4); [by apply load_uvarint_uniform; lia|].
  destruct (data_size f =? 8); [by apply load_uvarint_uniform; lia|].
  intros s a s' _ _ E. discriminate E.
Qed.

Lemma pb_enc_fixed32_uniform f p : uniform (pb_enc_fixed32 m f p).
Proof. repeat uniform_step. apply uniform_need. intros v _. by apply pb_write_uniform. Qed.
Lemma pb_enc_fixed64_uniform f p : uniform (pb_enc_fixed64 m f p).
Proof. repeat uniform_step. apply uniform_need. intros v _. by apply pb_write_uniform. Qed.

(** ** Bytes and strings *)
Lemma pb_enc_bytes_uniform f p : uniform (pb_enc_bytes m f p).
Proof.
  unfold pb_enc_bytes. uniform_step; [by apply pb_encode_string_uniform|].
  apply uniform_need. intros n Hn. uniform_step; [uniform_step|].
  pose proof (load_u_bound _ _ _ _ Hm Hn).
  apply pb_encode_string_uniform; [lia|]. intros bs. apply load_bytes_source. lia.
Qed.

(** [strnlen] stops at the limit. *)
Lemma strnlen_bound p max n : 0 <= max < 2 ^ 64 -> strnlen m p max = Ret n -> 0 <= n <= max.
Proof.
  intros Hmax. unfold strnlen.
  apply (while_ind _ (fun n => 0 <= n <= max) (fun n => max - n)
    (fun r => r = Ret n -> 0 <= n <= max)); [|lia|lia].
  intros i Hi. destruct (Z.ltb_spec i max); [|intros [= ->]; lia].
  destruct (load_byte m (p + i)) as [c|]; [|done].
  destruct (c =? 0); [intros [= ->]; lia|lia].
Qed.

Lemma pb_enc_string_uniform f p : field_ok f -> uniform (pb_enc_string m f p).
Proof.
  intros Hf. unfold pb_enc_string. cbv zeta. set (max := if _ =? PB_ATYPE_POINTER then _ else _).
  assert (0 <= max < 2 ^ 64) as Hmax.
  { unfold max. destruct (_ =? _); [by apply wrap_bound|]. destruct Hf as (_&_&_&_&?&_). lia. }
  clearbody max. uniform_step; [by apply pb_encode_string_uniform|].
  apply uniform_lift. intros n Hn. apply strnlen_bound in Hn; [|done].
  apply pb_encode_string_uniform; [lia|]. intros bs. apply load_bytes_source. lia.
Qed.

Lemma pb_enc_fixed_length_bytes_uniform f p :
  field_ok f -> uniform (pb_enc_fixed_length_bytes m f p).
Proof.
  intros (_&_&_&_&Hf&_). apply pb_encode_string_uniform; [lia|]. intros bs. apply load_bytes_source. lia.
Qed.

(** ** Submessages *)

(** The stream on which the body is encoded. *)
Definition substream (bs : list Z) (t : pb_ostream_t) : pb_ostream_t :=
  OStream (o_callback t) (o_state t) (zlength bs) 0 None.

Lemma substream_ready bs t :
  zlength bs < 2 ^ 63 -> ready t -> is_sizing t = false -> fits bs t ->
  ready (substream bs t) /\ is_sizing (substream bs t) = false /\ fits bs (substream bs t).
Proof.
  intros Hlen (He & Hb & Hcb) Hz Hf. pose proof (zlength_nonneg bs).
  destruct t as [[| |g] [w r] mx bw e]; [done| |done]. unfold fits in Hf. simpl in He, Hb, Hcb, Hf.
  destruct Hf as [?|Hf]; [done|]. split; [split_and!; simpl; done || lia|]. split; [done|]. right. simpl. lia.
Qed.

(** What happens on a buffer with room is what the encoder does there. *)
Lemma submessage_body_real enc bs t :
  emits_or_ub enc tt bs -> zlength bs < 2 ^ 63 -> ready t -> is_sizing t = false -> fits bs t ->
  (enc (substream bs t) = UB <-> submessage_body enc (zlength bs) t = UB) /\
  (enc (substream bs t) <> UB -> submessage_body enc (zlength bs) t = Ret (Some tt, push bs t)).
Proof.
  intros Henc Hlen Ht Hz Hf. destruct (substream_ready bs t Hlen Ht Hz Hf) as (Hsub & _ & Hfs).
  destruct Ht as (He & Hb & Hcb). pose proof (zlength_nonneg bs).
  destruct t as [[| |g] [w r] mx bw e]; [done| |done]. unfold fits in Hf. simpl in He, Hb, Hcb, Hf. subst e.
  destruct Hf as [?|Hf]; [done|]. unfold submessage_body. rewrite bind_get.
  cbn [is_sizing o_callback max_size bytes_written o_state].
  rewrite wrap_small, (proj2 (Z.ltb_ge _ _)) by lia.
  unfold substream in *. cbn [o_callback o_state] in *.
  set (sub := OStream OCBufWrite (OState w r) (zlength bs) 0 None) in *.
  destruct (proj1 (Henc Hlen) sub Hsub) as [E|[[_ E]|[Hn _]]]; [| |done].
  - unfold bind at 1, on_local. rewrite E. done.
  - rewrite (bind_on_local _ _ _ _ _ E), !bind_modify, E. cbn -[wrap zdrop].
    by rewrite ?Z.add_0_l, (wrap_small 64 (zlength bs)), Z.eqb_refl by lia.
Qed.

Lemma submessage_body_emits enc bs :
  emits_or_ub enc tt bs -> emits_or_ub (submessage_body enc (u64 (zlength bs))) tt bs.
Proof.
  intros Henc Hlen. pose proof (zlength_nonneg bs). rewrite wrap_small by lia.
  assert (forall t, is_sizing t = true -> submessage_body enc (zlength bs) t = Ret (Some tt, push bs t)) as Hsizing.
  { intros t Hz. unfold submessage_body. by rewrite bind_get, Hz, pb_write_sizing, push_sizing. }
  assert (forall t, ready t -> ~ fits bs t -> exists t', submessage_body enc (zlength bs) t = Ret (None, t')) as Hfull.
  { intros t (He & Hb & Hcb) Hf. assert (is_sizing t = false) as Hz.
    { destruct (is_sizing t) eqn:E; [|done]. exfalso. apply Hf. by left. }
    unfold submessage_body. rewrite bind_get, Hz. destruct t as [[| |g] st mx bw e]; [done| |done].
    unfold fits in Hf. simpl in *. rewrite wrap_small, (proj2 (Z.ltb_lt _ _)) by lia. eauto. }
  assert (forall t, enc (substream bs t) = UB \/ enc (substream bs t) <> UB) as Hdec
    by (intros t; destruct (enc (substream bs t)); auto).
  split.
  - intros t Ht. destruct (is_sizing t) eqn:Hzt; [right; left; split; [by left|auto]|].
    destruct (fits_dec bs t) as [Hf|Hf]; [|right; right; auto].
    destruct (submessage_body_real enc bs t) as [Hub Hret]; [done..|].
    destruct (Hdec t); [left; tauto|right; left; auto].
  - intros s t Hs E Ht Hz Hf. destruct (is_sizing s) eqn:Hzs; [by rewrite Hsizing in E|].
    destruct (fits_dec bs s) as [Hfs|Hfs]; [|destruct (Hfull s Hs Hfs); congruence].
    apply (submessage_body_real enc bs s) in E; [|done..].
    apply (submessage_body_real enc bs t); [done..|].
    destruct (substream_ready bs s) as (Hr1 & _ & _); [done..|].
    destruct (substream_ready bs t) as (Hr2 & Hz2 & Hf2); [done..|].
    exact (proj2 (Henc Hlen) _ _ Hr1 E Hr2 Hz2 Hf2).
Qed.

Lemma submessage_body_defined enc bs :
  emits enc tt bs -> emits (submessage_body enc (u64 (zlength bs))) tt bs.
Proof.
  intros Henc Hlen. pose proof (zlength_nonneg bs). set (t := pb_ostream_from_buffer bs (zlength bs)).
  assert (ready t) as Ht by (apply ready_from_buffer; lia).
  assert (fits bs t) as Hf by (right; cbn; lia).
  destruct (substream_ready bs t Hlen Ht eq_refl Hf) as (Hr & _ & Hfs).
  refine (emits_or_ub_defined _ _ _ t (submessage_body_emits enc bs (emits_weaken _ _ _ Henc)) Ht eq_refl Hf _ Hlen).
  rewrite wrap_small by lia.
  destruct (submessage_body_real enc bs t (emits_weaken _ _ _ Henc) Hlen Ht eq_refl Hf) as [_ E].
  rewrite E; [done|]. by rewrite (proj1 (Henc Hlen _ Hr) Hfs).
Qed.

Lemma submessage_body_uniform enc bs :
  emits_or_ub enc tt bs -> uniform (submessage_body enc (u64 (zlength bs))).
Proof.
  intros Henc s a s' Hs Hz E. unfold submessage_body in E. rewrite bind_get, Hz in E.
  rewrite pb_write_sizing in E by done. injection E as <- <-. exists bs.
  split; [|by apply submessage_body_emits].
  rewrite push_sizing by done. unfold wrap. by rewrite Zplus_mod_idemp_r.
Qed.

Lemma pb_encode_submessage_eq (enc : encode_fun) fields p bs s :
  enc fields p PB_OSTREAM_SIZING = Ret (Some tt, push bs PB_OSTREAM_SIZING) -> zlength bs < 2 ^ 63 ->
  pb_encode_submessage enc fields p s =
  (pb_encode_varint (zlength bs);; submessage_body (enc fields p) (u64 (zlength bs))) s.
Proof.
  intros E Hlen. pose proof (zlength_nonneg bs).
  unfold pb_encode_submessage. rewrite (bind_on_local _ _ _ _ _ E).
  cbn [push PB_OSTREAM_SIZING bytes_written].
  by rewrite Z.add_0_l, !(wrap_small 64 (zlength bs)) by lia.
Qed.

(** A body that is written without undefined behaviour makes a submessage
    that is: the second pass sees the same bytes on its substream. *)
Lemma pb_encode_submessage_emits (enc : encode_fun) fields p bs :
  enc fields p PB_OSTREAM_SIZING = Ret (Some tt, push bs PB_OSTREAM_SIZING) ->
  emits (enc fields p) tt bs -> zlength bs < 2 ^ 63 ->
  emits (pb_encode_submessage enc fields p) tt (string_bytes bs).
Proof.
  intros E He Hlen. pose proof (zlength_nonneg bs).
  eapply emits_ext; [intros s; by apply pb_encode_submessage_eq|].
  apply (emits_bind _ _ tt); [apply pb_encode_varint_emits; lia|by apply submessage_body_defined].
Qed.

Variable enc : encode_fun.
Hypothesis Henc : forall fields p, Forall field_ok fields -> uniform (enc fields p).

Lemma pb_encode_submessage_uniform fields p :
  Forall field_ok fields -> uniform (pb_encode_submessage enc fields p).
Proof.
  intros Hfields. unfold pb_encode_submessage. apply uniform_on_local.
  intros [[[]|] sub] E.
  - destruct (Henc fields p Hfields _ _ _ ready_sizing eq_refl E) as (bs & -> & He).
    cbn [push PB_OSTREAM_SIZING bytes_written]. rewrite Z.add_0_l.
    assert (u64 (u64 (zlength bs)) = u64 (zlength bs)) as -> by (unfold wrap; by rewrite Z.mod_mod).
    apply uniform_bind; [by apply pb_encode_varint_uniform, wrap_bound|].
    intros []. by apply (submessage_body_uniform (enc fields p)).
  - intros s a s' _ _ E'. discriminate E'.
Qed.

(** ** The table of encoders *)
Lemma pb_enc_submessage_uniform `{!TablesOk} f p : uniform (pb_enc_submessage enc f p).
Proof.
  unfold pb_enc_submessage. repeat uniform_step.
  eapply pb_encode_submessage_uniform, fields_of_ok. eassumption.
Qed.

Lemma call_encoder_uniform `{!TablesOk} ltype func f p :
  PB_ENCODERS m enc ltype = Ret func -> field_ok f -> uniform (call_encoder func f p).
Proof.
  intros E Hf. unfold PB_ENCODERS in E.
  repeat (destruct (_ =? _) in E;
    [injection E as <-; cbn [call_encoder];
     first [apply pb_enc_varint_uniform | apply pb_enc_uvarint_uniform | apply pb_enc_svarint_uniform
           | apply pb_enc_fixed32_uniform | apply pb_enc_fixed64_uniform | apply pb_enc_bytes_uniform
           | by apply pb_enc_string_uniform | apply pb_enc_submessage_uniform
           | apply uniform_undefined | by apply pb_enc_fixed_length_bytes_uniform]|]).
  discriminate E.
Qed.

Lemma pb_encode_tag_uniform wt tag : 0 <= wt < 2 ^ 64 -> uniform (pb_encode_tag wt tag).
Proof. intros Hw. apply pb_encode_varint_uniform, lor_bound; [lia|by apply wrap_bound|done]. Qed.

Lemma wire_type_of_bound ltype wt : wire_type_of ltype = Some wt -> 0 <= wt < 8.
Proof.
  unfold wire_type_of, PB_WT_VARINT, PB_WT_32BIT, PB_WT_64BIT, PB_WT_STRING.
  repeat (destruct (_ : bool); [intros [= <-]; lia|]). done.
Qed.

Lemma pb_encode_tag_for_field_uniform f : uniform (pb_encode_tag_for_field f).
Proof.
  unfold pb_encode_tag_for_field. uniform_step; [|apply uniform_error].
  apply pb_encode_tag_uniform. apply wire_type_of_bound in Heqo. lia.
Qed.

(** ** Packed arrays *)

(** The data of a packed array, counted but not visited when sizing. *)
Lemma packed_data_uniform {A} (items : M pb_ostream_t A) a bs size :
  emits_or_ub items a bs -> size = u64 (zlength bs) ->
  uniform (stream <- get;; if is_sizing stream then pb_write None size else items;; ret tt).
Proof.
  intros Hi -> s x s' Hs Hz E. rewrite bind_get, Hz, pb_write_sizing in E by done.
  injection E as <- <-. exists bs. split.
  { rewrite push_sizing by done. unfold wrap. by rewrite Zplus_mod_idemp_r. }
  intros Hlen. pose proof (zlength_nonneg bs). rewrite wrap_small by lia.
  pose proof (emits_or_ub_bind items (fun _ => ret tt) a tt bs [] Hi (emits_weaken _ _ _ (emits_ret tt))) as Hb.
  rewrite app_nil_r in Hb. destruct (Hb Hlen) as [Hb1 Hb2]. split.
  - intros t Ht. rewrite bind_get. destruct (is_sizing t) eqn:Hzt; [|by apply Hb1].
    right; left. split; [by left|]. by rewrite pb_write_sizing, push_sizing.
  - intros t1 t2 Ht1 Et1 Ht2 Hz2 Hf2. rewrite bind_get in *. rewrite Hz2.
    destruct (is_sizing t1) eqn:Hz1; [by rewrite (pb_write_sizing _ _ _ Hz1) in Et1|by apply (Hb2 t1)].
Qed.

(** Items of a fixed width [w], or unreadable. *)
Definition fixed_item (w : Z) (c : M pb_ostream_t unit) : Prop :=
  (exists bs, zlength bs = w /\ emits c tt bs) \/ (forall s, c s = UB).

Lemma fixed_items w step (g : Z -> M pb_ostream_t unit) n p :
  0 <= w -> (forall p, fixed_item w (g p)) ->
  exists bs, zlength bs = w * Z.of_nat n /\
    emits_or_ub (for_loop n (fun p => g p;; ret (p + step)) p) (p + step * Z.of_nat n) bs.
Proof.
  intros Hw Hg. revert p. induction n as [|n IH]; intros p.
  - exists []. split; [unfold zlength; simpl; lia|]. rewrite Z.mul_0_r, Z.add_0_r.
    apply emits_weaken, emits_ret.
  - destruct (IH (p + step)) as (bs2 & Hl2 & He2).
    replace (p + step + step * Z.of_nat n) with (p + step * Z.of_nat (S n)) in He2 by lia.
    destruct (Hg p) as [(bs1 & Hl1 & He1)|Hub].
    + exists (bs1 ++ bs2). split; [rewrite zlength_app; lia|].
      apply (emits_or_ub_bind _ _ (p + step)); [|done]. apply emits_weaken.
      eapply emits_seq; [exact He1|apply emits_ret|by rewrite app_nil_r].
    + exists (repeat 0 (Z.to_nat (w * Z.of_nat (S n)))). split.
      { unfold zlength. rewrite repeat_length. lia. }
      intros _. assert (forall s, for_loop (S n) (fun p => g p;; ret (p + step)) p s = UB) as Eub
        by (intros s; cbn [for_loop]; unfold bind; by rewrite Hub).
      split; [intros s _; left; apply Eub|intros s t _ _ _ _ _; apply Eub].
Qed.

Lemma fixed_item_load n (k : Z -> list Z) p :
  (forall v, zlength (k v) = Z.of_nat n) ->
  fixed_item (Z.of_nat n) (v <- need (load_u n m p);; pb_write (Some (k v)) (Z.of_nat n)).
Proof.
  intros Hk. destruct (load_u n m p) as [v|]; [left|by right].
  exists (k v). split; [done|]. apply (emits_lift _ _ v); [done|]. by apply pb_write_emits.
Qed.

(** What [encode_array] does after the size of a packed array is known. *)
Lemma packed_array_uniform `{!TablesOk} f data count func :
  PB_ENCODERS m enc (PB_LTYPE (type f)) = Ret func -> field_ok f -> 0 <= count < 2 ^ 32 ->
  let items := for_loop (Z.to_nat count)
    (fun p => call_encoder func f p;; ret (p + data_size f)) data in
  uniform (
    size <- (if PB_LTYPE (type f) =? PB_LTYPE_FIXED32 then ret (u64 (4 * count))
             else if PB_LTYPE (type f) =? PB_LTYPE_FIXED64 then ret (u64 (8 * count))
             else
               let* '(status, sizestream) := on_local PB_OSTREAM_SIZING items in
               match status with
               | None => return_false
               | Some _ => ret (bytes_written sizestream)
               end);;
    pb_encode_varint (u64 size);;
    stream <- get;;
    if is_sizing stream then pb_write None size else items;; ret tt).
Proof.
  intros Hfunc Hf Hcount items.
  assert (forall bs a size, emits_or_ub items a bs -> size = u64 (zlength bs) ->
    uniform (pb_encode_varint (u64 size);; stream <- get;;
             if is_sizing stream then pb_write None size else items;; ret tt)) as Hrest.
  { intros bs a size He Esize. apply uniform_bind; [by apply pb_encode_varint_uniform, wrap_bound|].
    intros []. by eapply packed_data_uniform. }
  destruct (Z.eqb_spec (PB_LTYPE (type f)) PB_LTYPE_FIXED32) as [E32|_];
    [|destruct (Z.eqb_spec (PB_LTYPE (type f)) PB_LTYPE_FIXED64) as [E64|_]].
  - rewrite E32 in Hfunc. injection Hfunc as <-.
    destruct (fixed_items 4 (data_size f) (pb_encode_fixed32 m) (Z.to_nat count) data)
      as (bs & Hl & He); [lia|by intros; apply (fixed_item_load 4)|].
    apply (uniform_ext _ _ (fun s => bind_ret _ _ s)). eapply Hrest; [exact He|]. rewrite Hl. f_equal. lia.
  - rewrite E64 in Hfunc. injection Hfunc as <-.
    destruct (fixed_items 8 (data_size f) (pb_encode_fixed64 m) (Z.to_nat count) data)
      as (bs & Hl & He); [lia|by intros; apply (fixed_item_load 8)|].
    apply (uniform_ext _ _ (fun s => bind_ret _ _ s)). eapply Hrest; [exact He|]. rewrite Hl. f_equal. lia.
  - eapply uniform_ext; [intros s; apply bind_assoc|]. apply uniform_on_local.
    intros [[x|] sub] E; [|intros s a s' _ _ E'; discriminate E'].
    assert (uniform items) as Hitems.
    { apply uniform_for_loop. intros p. apply uniform_bind; [by eapply call_encoder_uniform|].
      intros. apply uniform_ret. }
    destruct (Hitems _ _ _ ready_sizing eq_refl E) as (bs & -> & He).
    apply (uniform_ext _ _ (fun s => bind_ret _ _ s)). eapply Hrest; [exact He|].
    cbn [push PB_OSTREAM_SIZING bytes_written]. by rewrite Z.add_0_l.
Qed.

Lemma encode_array_uniform `{!TablesOk} f data count func :
  PB_ENCODERS m enc (PB_LTYPE (type f)) = Ret func -> field_ok f -> 0 <= count < 2 ^ 32 ->
  uniform (encode_array m f data count (call_encoder func)).
Proof.
  intros Hfunc Hf Hcount. unfold encode_array. cbv zeta. do 2 (uniform_step; [uniform_step|]).
  uniform_step.
  - apply uniform_bind; [by apply pb_encode_tag_uniform|]. intros []. by apply packed_array_uniform.
  - apply uniform_bind; [|intros; apply uniform_ret]. apply uniform_for_loop. intros p.
    apply uniform_bind; [apply pb_encode_tag_for_field_uniform|]. intros [].
    apply uniform_bind; [|intros; apply uniform_ret]. uniform_step; [apply uniform_need; intros|];
      by eapply call_encoder_uniform.
Qed.

(** ** Fields, extensions, messages *)
Context `{!TablesOk} `{UniformCallbacks}.

Lemma encode_basic_field_uniform fuel f p :
  field_ok f -> uniform (encode_basic_field m fuel enc f p).
Proof.
  intros Hf. unfold encode_basic_field. uniform_step. cbv zeta.
  apply uniform_bind.
  { repeat uniform_step. }
  intros b. apply uniform_bind; [repeat uniform_step|]. intros [data has].
  destruct (_ =? PB_HTYPE_REQUIRED).
  { repeat uniform_step; [apply pb_encode_tag_for_field_uniform|by eapply call_encoder_uniform]. }
  destruct (_ =? PB_HTYPE_OPTIONAL).
  { apply uniform_bind; [repeat uniform_step|]. intros b'. repeat uniform_step;
      [apply pb_encode_tag_for_field_uniform|by eapply call_encoder_uniform]. }
  destruct (_ =? PB_HTYPE_REPEATED).
  { destruct (negb _).
    - apply uniform_need. intros count Hc. apply encode_array_uniform; [done|done|].
      exact (load_u_bound 4 m _ _ Hm Hc).
    - apply (uniform_ext _ _ (fun s => bind_ret _ _ s)). apply encode_array_uniform; [done|done|apply Hf]. }
  destruct (_ =? PB_HTYPE_ONEOF); [|apply uniform_error].
  apply uniform_bind; [destruct (negb _); [apply uniform_need_ret|apply uniform_undefined]|].
  intros which. repeat uniform_step; [apply pb_encode_tag_for_field_uniform|by eapply call_encoder_uniform].
Qed.

Lemma uniform_get_attempt {A} (c : M pb_ostream_t A) (k : A -> M pb_ostream_t unit) msg :
  uniform c -> (forall a, uniform (k a)) ->
  uniform (ok <- attempt c;; match ok with Some a => k a | None => pb_return_error msg end).
Proof.
  intros Hc Hk s a s' Hs Hz E. unfold bind, attempt in E.
  destruct (c s) as [[[x|] s1]| |] eqn:Ec; [|discriminate E..].
  assert (bind c k s = Ret (Some a, s')) as E' by (by rewrite (bind_some _ _ _ _ _ Ec)).
  destruct (uniform_bind c k Hc Hk s a s' Hs Hz E') as (bs & -> & He). exists bs. split; [done|].
  intros Hlen. destruct (He Hlen) as [He1 He2]. split.
  - intros t Ht. destruct (He1 t Ht) as [Et|[[Hf Et]|[Hf [t' Et]]]]; unfold bind, attempt in *;
      destruct (c t) as [[[y|] t1]| |]; try done; eauto.
  - intros u t Hu Eu Ht Hzt Hf. specialize (He2 u t Hu). unfold bind, attempt in *.
    destruct (c u) as [[[y|] u1]| |]; try done; specialize (He2 Eu Ht Hzt Hf);
      by destruct (c t) as [[[y'|] t2]| |].
Qed.

Lemma encode_field_uniform fuel f p : field_ok f -> uniform (encode_field m fuel enc f p).
Proof.
  intros Hf. unfold encode_field. cbv zeta.
  uniform_step; [by apply encode_basic_field_uniform|]. uniform_step; [|apply uniform_error].
  unfold encode_callback_field. uniform_step. uniform_step; [|uniform_step].
  apply (uniform_get_attempt _ (fun _ => ret tt)); [apply field_cb_uniform|].
  intros. apply uniform_ret.
Qed.

Lemma encode_extension_field_uniform fuel f p :
  uniform (encode_extension_field m fuel enc f p).
Proof.
  unfold encode_extension_field. uniform_step. apply uniform_whileM. intros ext.
  uniform_step; [uniform_step|]. do 2 uniform_step.
  apply uniform_bind; [|intros []; repeat uniform_step].
  uniform_step; [apply ext_cb_uniform|]. unfold default_extension_encoder.
  apply uniform_need. intros t _. apply uniform_need. intros et Het.
  assert (field_ok (et_arg et)) by (by eapply ext_types_ok).
  cbv zeta. uniform_step; [by apply encode_field_uniform|]. uniform_step. by apply encode_field_uniform.
Qed.

Lemma pb_encode_body_uniform fuel fields p :
  Forall field_ok fields -> uniform (pb_encode_body m fuel enc fields p).
Proof.
  intros Hf. unfold pb_encode_body. apply uniform_lift. intros [nonempty it] Hit.
  apply iter_begin_start in Hit as (Hst & _). uniform_step; [uniform_step|].
  apply (uniform_whileM_inv _ (fun it => start it = fields)); [..|done].
  - intros it' Hst'. apply uniform_bind; [|intros []; repeat uniform_step].
    apply uniform_lift. intros f Hcur. assert (field_ok f).
    { apply cur_elem in Hcur. rewrite Hst' in Hcur.
      exact (Forall_elem _ _ _ Hf Hcur). }
    uniform_step; [apply encode_extension_field_uniform|by apply encode_field_uniform].
  - intros it' s it2 s' Hst' E. apply bind_inv in E as ([] & s1 & _ & E).
    apply bind_inv in E as ([b it3] & s2 & E2 & E3). unfold lift_res in E2.
    destruct (pb_field_iter_next it') as [[b' it4]| |] eqn:En; [|done..].
    injection E2 as <- <- <-. apply iter_next_start in En as [Hs4 _].
    simpl in E3. destruct b'; [|done]. injection E3 as <- _. congruence.
Qed.
End sizing.

(** ** The whole encoder *)
Lemma pb_encode_uniform `{TablesOk} `{UniformCallbacks} m fuel fields p :
  mem_ok m -> Forall field_ok fields -> uniform (pb_encode m fuel fields p).
Proof.
  intros Hm. revert fields p. induction fuel as [|fuel IH]; intros fields p Hf; simpl.
  - apply uniform_no_fuel.
  - by apply pb_encode_body_uniform.
Qed.

(** [written] and [room] after [bs] went to a buffer. *)
Definition wrote (bs buf : list Z) (s : pb_ostream_t) : Prop :=
  o_state s = OState bs (zdrop (zlength bs) buf) /\ bytes_written s = zlength bs /\ o_errmsg s = None.

Lemma emits_buffer {A} (c : M pb_ostream_t A) a bs buf size :
  emits c a bs -> zlength bs < 2 ^ 63 -> 0 <= size <= zlength buf -> size < 2 ^ 63 ->
  let r := c (pb_ostream_from_buffer buf size) in
  if zlength bs <=? size then exists s, r = Ret (Some a, s) /\ wrote bs buf s
  else exists s, r = Ret (None, s).
Proof.
  intros He Hlen Hsize Hs63. pose proof (zlength_nonneg bs). cbn zeta.
  destruct (He Hlen _ (ready_from_buffer buf size Hsize Hs63)) as [Hfit Hfull].
  destruct (Z.leb_spec (zlength bs) size) as [Hle|Hgt].
  - eexists. split; [apply Hfit; right; cbn; lia|].
    unfold wrote, push. cbn [o_state bytes_written o_errmsg is_sizing o_callback
      pb_ostream_from_buffer written room app]. split_and!; try done. by rewrite wrap_small by lia.
  - apply Hfull. unfold fits. cbn. lia.
Qed.

Lemma emits_or_ub_buffer {A} (c : M pb_ostream_t A) a bs buf size :
  emits_or_ub c a bs -> zlength bs <= size <= zlength buf -> size < 2 ^ 63 ->
  c (pb_ostream_from_buffer buf size) <> UB -> emits c a bs.
Proof.
  intros He Hs Hs63. pose proof (zlength_nonneg bs).
  apply (emits_or_ub_defined _ _ _ _ He); [apply ready_from_buffer; lia|done|]. right. cbn. lia.
Qed.

Lemma pb_get_encoded_size_uniform `{Tables} `{EncodeCallbacks} m fuel fields p n :
  uniform (pb_encode m fuel fields p) ->
  pb_get_encoded_size m fuel fields p = Ret (Some n) ->
  exists bs, n = zlength bs mod 2 ^ 64 /\ emits_or_ub (pb_encode m fuel fields p) tt bs /\
    pb_encode m fuel fields p PB_OSTREAM_SIZING = Ret (Some tt, push bs PB_OSTREAM_SIZING).
Proof.
  unfold pb_get_encoded_size. intros Hu E.
  destruct (pb_encode m fuel fields p PB_OSTREAM_SIZING) as [[[[]|] s]| |] eqn:Ee; try done.
  injection E as <-. destruct (Hu _ _ _ ready_sizing eq_refl Ee) as (bs & -> & He).
  by exists bs.
Qed.

(** The message at [p] can be encoded: on some buffer of at least [n] bytes the
    encoder meets no undefined behaviour.  (The sizing pass alone does not show
    it: it counts strings and packed arrays without reading them.) *)
Definition encodable `{Tables} `{EncodeCallbacks} (m : mem) (fuel : nat) (fields : list pb_field_t) (p n : Z) : Prop :=
  exists buf size, n <= size <= zlength buf /\ size < 2 ^ 63 /\
    pb_encode m fuel fields p (pb_ostream_from_buffer buf size) <> UB.

(** C4: The size [pb_get_encoded_size] reports is the size of the message.  If the
    message can be encoded at all, then into every buffer: one of at least
    that size receives exactly the bytes of the message, and nothing behind
    them changes; for a smaller one [pb_encode] returns false.  In neither case
    does it write outside the buffer, or do anything else that is undefined.
    The callbacks of the application are assumed to write the same bytes in
    every pass ([UniformCallbacks]). *)
Theorem pb_get_encoded_size_exact `{TablesOk} `{UniformCallbacks} m fuel fields p n :
  mem_ok m -> Forall field_ok fields -> pb_get_encoded_size m fuel fields p = Ret (Some n) ->
  exists bs, n = zlength bs mod 2 ^ 64 /\
    (zlength bs < 2 ^ 63 -> encodable m fuel fields p n ->
     forall buf size, 0 <= size <= zlength buf -> size < 2 ^ 63 ->
       let r := pb_encode m fuel fields p (pb_ostream_from_buffer buf size) in
       if n <=? size then exists s, r = Ret (Some tt, s) /\ wrote bs buf s
       else exists s, r = Ret (None, s)).
Proof.
  intros Hm Hf E. destruct (pb_get_encoded_size_uniform m fuel fields p n) as (bs & -> & He & Ez).
  { by apply pb_encode_uniform. } { done. }
  exists bs. split; [done|]. intros Hlen (big & bigsize & Hbig & Hb63 & Hdef) buf size Hs Hs63.
  pose proof (zlength_nonneg bs). rewrite Z.mod_small in * by lia.
  apply emits_buffer; [|done..]. by eapply emits_or_ub_buffer.
Qed.

(** C5: A delimited message is the length of what [pb_encode] writes, as a varint,
    and then what [pb_encode] writes.  If the message can be encoded at all,
    [pb_encode_delimited] writes exactly these bytes into every buffer that has
    room for both, and returns false for every smaller one, without undefined
    behaviour: the second pass over the message, on a stream limited to the
    length, does what the first one counted.  The callbacks of the application
    are assumed to write the same bytes in every pass ([UniformCallbacks]). *)
Theorem pb_encode_delimited_frame `{TablesOk} `{UniformCallbacks} m fuel fields p n :
  mem_ok m -> Forall field_ok fields -> pb_get_encoded_size m fuel fields p = Ret (Some n) ->
  encodable m fuel fields p n ->
  exists bs, n = zlength bs mod 2 ^ 64 /\
    (zlength bs < 2 ^ 62 ->
     (forall buf, n <= zlength buf < 2 ^ 63 -> exists s,
        pb_encode m fuel fields p (pb_ostream_from_buffer buf (zlength buf)) = Ret (Some tt, s) /\
        wrote bs buf s) /\
     forall buf size, 0 <= size <= zlength buf -> size < 2 ^ 63 ->
       let frame := varint_bytes n ++ bs in
       let r := pb_encode_delimited m fuel fields p (pb_ostream_from_buffer buf size) in
       if zlength frame <=? size then exists s, r = Ret (Some tt, s) /\ wrote frame buf s
       else exists s, r = Ret (None, s)).
Proof.
  intros Hm Hf E (big & bigsize & Hbig & Hb63 & Hdef).
  destruct (pb_get_encoded_size_uniform m fuel fields p n) as (bs & -> & He & Ez).
  { by apply pb_encode_uniform. } { done. }
  exists bs. split; [done|]. intros Hlen. pose proof (zlength_nonneg bs). rewrite Z.mod_small in * by lia.
  assert (emits (pb_encode m fuel fields p) tt bs) as He' by (by eapply emits_or_ub_buffer).
  split.
  - intros buf Hbuf. pose proof (emits_buffer _ _ _ buf (zlength buf) He' ltac:(lia)) as Hb.
    cbn zeta in Hb. rewrite (proj2 (Z.leb_le _ _)) in Hb by lia. apply Hb; lia.
  - intros buf size Hs Hs63. apply emits_buffer; [|rewrite zlength_app; pose proof (zlength_varint_bytes (zlength bs)); lia|done..].
    unfold pb_encode_delimited. apply pb_encode_submessage_emits; [done|done|lia].
Qed.

(** A null-terminated message is the message and a byte 0. *)
Lemma pb_encode_nullterminated_frame `{TablesOk} `{UniformCallbacks} m fuel fields p n :
  mem_ok m -> Forall field_ok fields -> pb_get_encoded_size m fuel fields p = Ret (Some n) ->
  exists bs, n = zlength bs mod 2 ^ 64 /\
    emits_or_ub (pb_encode m fuel fields p) tt bs /\
    emits_or_ub (pb_encode_nullterminated m fuel fields p) tt (bs ++ [0]).
Proof.
  intros Hm Hf E. destruct (pb_get_encoded_size_uniform m fuel fields p n) as (bs & -> & He & Ez).
  { by apply pb_encode_uniform. } { done. }
  exists bs. split_and!; [done|done|]. apply (emits_or_ub_bind _ _ tt); [done|].
  by apply emits_weaken, pb_write_emits.
Qed.
