(* ===== verification/IterFacts.v ===== *)
(** * The iterator visits the fields of a message

    [iter_at fields dest i] is the state of the iterator at field [i]; the
    theorems say that [begin], [next] and [find] move between these states. *)
From S2P Require Import Prelude Memory Descriptor Iter.

(** A descriptor array: fields with non-zero tags, then a terminator. *)
Definition terminated (fields fs : list pb_field_t) : Prop :=
  (exists l, fields = fs ++ [l] /\ tag l = 0) /\ Forall (fun f => tag f <> 0) fs.

#[export] Instance pb_field_inhabited : Inhabited pb_field_t := populate PB_LAST_FIELD.

(** The field after [prev], at index [S (pos it)]. *)
Definition iter_step (prev next : pb_field_t) (it : pb_field_iter_t) : pb_field_iter_t :=
  if same_union prev next then
    FieldIter (start it) (S (pos it)) (required_field_index it) (dest_struct it) (pData it) (pSize it)
  else
    let index := if PB_HTYPE (type prev) =? PB_HTYPE_REQUIRED
                 then u32 (required_field_index it + 1) else required_field_index it in
    let data := pData it + prev_field_size prev + data_offset next in
    FieldIter (start it) (S (pos it)) index (dest_struct it) data (AtAddr (data + size_offset next)).

Fixpoint iter_at (fields : list pb_field_t) (dest : Z) (i : nat) : pb_field_iter_t :=
  match i with
  | O =>
      let f := fields !!! 0%nat in
      FieldIter fields 0 0 dest (dest + data_offset f) (AtAddr (dest + data_offset f + size_offset f))
  | S i' => iter_step (fields !!! i') (fields !!! i) (iter_at fields dest i')
  end.

Lemma iter_at_pos fields dest i : pos (iter_at fields dest i) = i.
Proof.
  induction i as [|i IH]; [done|]. cbn [iter_at]. unfold iter_step.
  destruct (same_union _ _); simpl; by rewrite IH.
Qed.

Lemma iter_at_start fields dest i : start (iter_at fields dest i) = fields.
Proof.
  induction i as [|i IH]; [done|]. cbn [iter_at]. unfold iter_step.
  destruct (same_union _ _); simpl; by rewrite IH.
Qed.

Lemma iter_at_dest fields dest i : dest_struct (iter_at fields dest i) = dest.
Proof.
  induction i as [|i IH]; [done|]. cbn [iter_at]. unfold iter_step.
  destruct (same_union _ _); simpl; by rewrite IH.
Qed.

Section walk.
Context (fields fs : list pb_field_t) (dest : Z) (Hf : terminated fields fs).
Abbreviation at_ := (iter_at fields dest).
Abbreviation n := (length fs).

Lemma terminated_lookup i : (i < n)%nat -> exists f, fields !! i = Some f /\ fs !! i = Some f /\ tag f <> 0.
Proof using Hf.
  destruct Hf as [(l & -> & _) Hall]. intros Hi. destruct (lookup_lt_is_Some_2 fs i Hi) as [f E].
  exists f. rewrite lookup_app_l by done. split_and!; [done|done|].
  by eapply (Forall_lookup_1 (fun f => tag f <> 0)).
Qed.

Lemma terminated_end : exists l, fields !! n = Some l /\ tag l = 0.
Proof using Hf.
  destruct Hf as [(l & -> & Hl) _]. exists l. split; [|done].
  by rewrite lookup_app_r, Nat.sub_diag by lia.
Qed.

Lemma cur_at i : (i < n)%nat -> cur (at_ i) = Ret (fields !!! i).
Proof using Hf.
  intros Hi. unfold cur. rewrite iter_at_start, iter_at_pos.
  destruct (terminated_lookup i Hi) as (f & E & _). rewrite E.
  by rewrite (list_lookup_total_correct _ _ _ E).
Qed.

Lemma iter_begin_at : (0 < n)%nat -> pb_field_iter_begin fields dest = Ret (true, at_ 0).
Proof using Hf.
  intros Hn. unfold pb_field_iter_begin. destruct (terminated_lookup 0 Hn) as (f & E & _ & Ht).
  cbn [iter_at]. rewrite E, (list_lookup_total_correct _ _ _ E).
  by rewrite (proj2 (Z.eqb_neq _ _) Ht).
Qed.

(** [pb_field_iter_next]: the next field, or back to the first one. *)
Lemma iter_next_at i :
  (i < n)%nat ->
  pb_field_iter_next (at_ i) =
    if (S i <? n)%nat then Ret (true, at_ (S i)) else Ret (false, at_ 0).
Proof using Hf.
  intros Hi. unfold pb_field_iter_next. rewrite iter_at_start, iter_at_pos, iter_at_dest.
  destruct (terminated_lookup i Hi) as (f & E & _ & Ht). rewrite E.
  rewrite (proj2 (Z.eqb_neq _ _) Ht). destruct (Nat.ltb_spec (S i) n) as [Hlt|Hge].
  - destruct (terminated_lookup (S i) Hlt) as (g & Eg & _ & Hg). rewrite Eg.
    rewrite (proj2 (Z.eqb_neq _ _) Hg). cbn [iter_at].
    rewrite (list_lookup_total_correct _ _ _ E), (list_lookup_total_correct _ _ _ Eg).
    unfold iter_step. rewrite iter_at_start, iter_at_pos, iter_at_dest.
    by destruct (same_union f g).
  - assert (S i = n) as En by lia. destruct terminated_end as (l & El & Hl).
    rewrite En, El, Hl. cbn [Z.eqb]. rewrite iter_begin_at by lia. done.
Qed.

(** The search visits every field once and stops at a match. *)
Lemma iter_search_at p i :
  (i < n)%nat -> Z.of_nat n < 2 ^ 63 ->
  (exists j, (j < n)%nat /\ p (fields !!! j) = true /\
             iter_search p (at_ i) = Ret (true, at_ j)) \/
  ((forall j, (j < n)%nat -> p (fields !!! j) = false) /\
   iter_search p (at_ i) = Ret (false, at_ i)).
Proof using Hf.
  intros Hi Hn. unfold iter_search. rewrite iter_at_pos.
  set (m it := Z.of_nat (if (pos it <? i)%nat then i - pos it else n + i - pos it)).
  set (seen j k := ((i <= k /\ (k < j \/ j < i)) \/ (k < j /\ j < i))%nat).
  apply (while_ind _ (fun it => exists j, (j < n)%nat /\ it = at_ j /\
    forall k, (k < n)%nat -> seen j k -> p (fields !!! k) = false) m).
  - intros it (j & Hj & -> & Hseen). rewrite (cur_at j Hj).
    destruct (p (fields !!! j)) eqn:Ep; [left; eauto|].
    rewrite (iter_next_at j Hj).
    assert (forall j', (j' < n)%nat -> (j' = S j \/ (S j = n /\ j' = 0%nat)) ->
      if decide (pos (at_ j') = i)
      then (forall k, (k < n)%nat -> p (fields !!! k) = false) /\ j' = i
      else (exists j0, (j0 < n)%nat /\ at_ j' = at_ j0 /\
             forall k, (k < n)%nat -> seen j0 k -> p (fields !!! k) = false) /\
           0 <= m (at_ j') < m (at_ j)) as Hnext.
    { intros j' Hj' Hor. rewrite iter_at_pos. case_decide as Hd.
      - split; [|done]. intros k Hk. destruct (decide (k = j)) as [->|]; [done|].
        apply Hseen; [done|]. unfold seen. lia.
      - split.
        + exists j'. split_and!; [done|done|]. intros k Hk Hs.
          destruct (decide (k = j)) as [->|]; [done|]. apply Hseen; [done|].
          unfold seen in *. lia.
        + unfold m. rewrite !iter_at_pos.
          destruct (Nat.ltb_spec j' i), (Nat.ltb_spec j i); lia. }
    destruct (Nat.ltb_spec (S j) n) as [Hlt|Hge].
    + specialize (Hnext (S j) Hlt ltac:(auto)). case_decide as Hd.
      * destruct Hnext as [Hall ->]. right. auto.
      * done.
    + specialize (Hnext 0%nat ltac:(lia) ltac:(lia)). case_decide as Hd.
      * destruct Hnext as [Hall ->]. right. auto.
      * done.
  - exists i. split_and!; [done|done|]. intros k Hk Hs. unfold seen in Hs. lia.
  - unfold m. rewrite iter_at_pos. destruct (i <? i)%nat; lia.
Qed.

(** [do { body } while (next)] is [body] on every field, in order. *)
Lemma iter_each_at {St} (body : pb_field_iter_t -> M St unit) i s :
  (i < n)%nat -> Z.of_nat n < 2 ^ 63 ->
  iter_each body (at_ i) s = foldr (fun j c => body (at_ j);; c) (ret tt) (seq i (n - i)) s.
Proof using Hf.
  intros Hi Hn. unfold iter_each, whileM. apply (while_loop_nat _ _ (n - i)); [|lia].
  remember (n - i)%nat as k eqn:Hk. revert i s Hi Hk.
  induction k as [|k IH]; intros i s Hi Hk; [lia|].
  cbn [loop_nat seq foldr]. unfold while_body at 1, bind. cbn [fst snd].
  destruct (body (at_ i) s) as [[[[]|] s1]| |]; [|done..].
  unfold lift_res. rewrite (iter_next_at i Hi). destruct (Nat.ltb_spec (S i) n) as [Hlt|Hge].
  - cbn. apply (IH (S i) s1); lia.
  - assert (k = 0%nat) as -> by lia. done.
Qed.
End walk.

(** C34: [pb_field_iter_find] terminates; it finds a field with the tag when there
    is one, from wherever the iterator stands, and otherwise comes back to
    where it was. *)
Theorem pb_field_iter_find_spec fields fs dest i t :
  terminated fields fs -> Z.of_nat (length fs) < 2 ^ 63 -> (i < length fs)%nat ->
  let matches j := (tag (fields !!! j) =? t)
                   && negb (PB_LTYPE (type (fields !!! j)) =? PB_LTYPE_EXTENSION) in
  (exists j, (j < length fs)%nat /\ matches j = true /\
     pb_field_iter_find (iter_at fields dest i) t = Ret (true, iter_at fields dest j)) \/
  ((forall j, (j < length fs)%nat -> matches j = false) /\
   pb_field_iter_find (iter_at fields dest i) t = Ret (false, iter_at fields dest i)).
Proof.
  intros Hf Hn Hi. unfold pb_field_iter_find.
  exact (iter_search_at fields fs dest Hf
    (fun f => (tag f =? t) && negb (PB_LTYPE (type f) =? PB_LTYPE_EXTENSION)) i Hi Hn).
Qed.

(** ** Moving the structure *)
Definition shift_size (d : Z) (r : size_ref) : size_ref :=
  match r with AtAddr a => AtAddr (d + a) | AtLocal => AtLocal end.

Lemma iter_at_shift fields dest i :
  pData (iter_at fields dest i) = dest + pData (iter_at fields 0 i) /\
  pSize (iter_at fields dest i) = shift_size dest (pSize (iter_at fields 0 i)).
Proof.
  induction i as [|i [IHd IHs]].
  - cbn. split; [lia|]. f_equal. lia.
  - cbn [iter_at]. unfold iter_step. destruct (same_union _ _); cbn [pData pSize]; [done|].
    rewrite IHd. split; [lia|]. cbn [shift_size]. f_equal. lia.
Qed.
