(* ===== verification/Messages.v ===== *)
(** * The generated descriptors, and the theorems so far at concrete inputs *)
From S2P Require Import Prelude WireFormat Memory Descriptor Iter OStream Encode IStream Cct CoreConfig Wire EncodeSize IterFacts.

(** ** The generated descriptors describe the generated structures

    The messages of cct.nanopb.c and firebasecore.nanopb.c, each with its
    descriptor array and its C structure. *)

Record message : Type := Message {
  msg_name : string;
  msg_fields : list pb_field_t;
  msg_struct : struct_t;
}.

Definition messages : list message :=
  [Message "gdt_cct_LogEvent" gdt_cct_LogEvent_fields gdt_cct_LogEvent;
   Message "gdt_cct_NetworkConnectionInfo" gdt_cct_NetworkConnectionInfo_fields
     gdt_cct_NetworkConnectionInfo;
   Message "gdt_cct_IosClientInfo" gdt_cct_IosClientInfo_fields gdt_cct_IosClientInfo;
   Message "gdt_cct_ClientInfo" gdt_cct_ClientInfo_fields gdt_cct_ClientInfo;
   Message "gdt_cct_BatchedLogRequest" gdt_cct_BatchedLogRequest_fields gdt_cct_BatchedLogRequest;
   Message "gdt_cct_LogRequest" gdt_cct_LogRequest_fields gdt_cct_LogRequest;
   Message "gdt_cct_QosTierConfiguration" gdt_cct_QosTierConfiguration_fields
     gdt_cct_QosTierConfiguration;
   Message "gdt_cct_QosTiersOverride" gdt_cct_QosTiersOverride_fields gdt_cct_QosTiersOverride;
   Message "gdt_cct_LogResponse" gdt_cct_LogResponse_fields gdt_cct_LogResponse;
   Message "logs_proto_mobilesdk_ios_ICoreConfiguration"
     logs_proto_mobilesdk_ios_ICoreConfiguration_fields logs_proto_mobilesdk_ios_ICoreConfiguration].

Definition message_fields (m : message) : list pb_field_t := take (length (msg_fields m) - 1) (msg_fields m).

(** The member [pSize] is meant to point to. *)
Definition size_member (f : pb_field_t) (field : string) : string :=
  if PB_HTYPE (type f) =? PB_HTYPE_REPEATED then field +:+ "_count"
  else if (PB_HTYPE (type f) =? PB_HTYPE_OPTIONAL) && (PB_ATYPE (type f) =? PB_ATYPE_STATIC)
  then "has_" +:+ field else field.

(** What a field with tag [t] and member [field] must satisfy at index [j]. *)
Definition field_described (m : message) (field : string) (t : Z) (j : nat) : Prop :=
  let f := msg_fields m !!! j in
  let it := iter_at (msg_fields m) 0 j in
  tag f = t /\ PB_LTYPE (type f) <> PB_LTYPE_EXTENSION /\
  Forall (fun k => tag (msg_fields m !!! k) = t -> k = j) (seq 0 (length (message_fields m))) /\
  is_Some (offsetof_from (msg_struct m) 0 field) /\
  is_Some (offsetof_from (msg_struct m) 0 (size_member f field)) /\
  pData it = offsetof (msg_struct m) field /\
  pSize it = AtAddr (offsetof (msg_struct m) (size_member f field)) /\
  0 <= offsetof (msg_struct m) field /\
  offsetof (msg_struct m) field + pb_membersize (msg_struct m) field <= sizeof (msg_struct m) /\
  data_size f = pb_elemsize (msg_struct m) field.

#[local] Instance field_described_dec m field t j : Decision (field_described m field t j).
Proof. unfold field_described. apply _. Defined.

Definition message_ok (m : message) : Prop :=
  Forall (fun f => tag f <> 0) (message_fields m) /\
  (tag <$> list.last (msg_fields m)) = Some 0 /\ Forall field_ok (msg_fields m).

#[export] Instance message_ok_dec m : Decision (message_ok m).
Proof. unfold message_ok. apply _. Defined.

Lemma messages_ok : Forall message_ok messages.
Proof. apply (bool_decide_unpack _). vm_compute. exact I. Qed.

Definition tag_described '((name, field, t) : string * string * Z) : Prop :=
  Exists (fun m => msg_name m = name /\
    Exists (field_described m field t) (seq 0 (length (message_fields m)))) messages.

#[local] Instance tag_described_dec e : Decision (tag_described e).
Proof. destruct e as [[name field] t]. unfold tag_described. apply _. Defined.

Lemma tags_described : Forall tag_described (gdt_cct_tags ++ logs_proto_mobilesdk_ios_tags).
Proof. apply (bool_decide_unpack _). vm_compute. exact I. Qed.

Lemma message_terminated m : message_ok m -> terminated (msg_fields m) (message_fields m).
Proof.
  intros (Hall & Hlast & _). split; [|done]. unfold message_fields.
  destruct (list.last (msg_fields m)) as [l|] eqn:El; simpl in Hlast; [|done].
  injection Hlast as Hl. apply last_Some in El as [fs E]. exists l. split; [|done].
  rewrite E, length_app. cbn [length]. replace (length fs + 1 - 1)%nat with (length fs) by lia.
  by rewrite take_app_length.
Qed.

Lemma message_short m : m ∈ messages -> Z.of_nat (length (message_fields m)) < 2 ^ 63.
Proof.
  intros Hm. apply (Forall_elem (fun m => Z.of_nat (length (message_fields m)) < 2 ^ 63) messages); [|done].
  apply (bool_decide_unpack _). vm_compute. exact I.
Qed.

(** C33: Every tag macro of the generated headers leads the iterator, from any
    field it stands at, to the C member of that name: [pData] is its address,
    [pSize] the address of its [has_] or [_count] member (or [pData] itself),
    and the member lies inside the structure. *)
Theorem generated_layout name field t :
  (name, field, t) ∈ gdt_cct_tags ++ logs_proto_mobilesdk_ios_tags ->
  exists m f, m ∈ messages /\ msg_name m = name /\
    forall dest i, (i < length (message_fields m))%nat ->
      exists it, pb_field_iter_find (iter_at (msg_fields m) dest i) t = Ret (true, it) /\
        cur it = Ret f /\ tag f = t /\
        pData it = dest + offsetof (msg_struct m) field /\
        pSize it = AtAddr (dest + offsetof (msg_struct m) (size_member f field)) /\
        data_size f = pb_elemsize (msg_struct m) field /\
        0 <= offsetof (msg_struct m) field /\
        offsetof (msg_struct m) field + pb_membersize (msg_struct m) field <= sizeof (msg_struct m).
Proof.
  intros Hin. pose proof (Forall_elem _ _ _ tags_described Hin) as Hd.
  unfold tag_described in Hd. apply Exists_exists in Hd as (m & Hm & Hname & Hj).
  apply Exists_exists in Hj as (j & Hjin & Hdesc). apply list_elem_of_In in Hm.
  exists m, (msg_fields m !!! j). split_and!; [done|done|]. intros dest i Hi.
  pose proof (Forall_elem _ _ _ messages_ok Hm) as Hok.
  pose proof (message_terminated m Hok) as Ht.
  destruct Hdesc as (Htag & Hext & Huniq & _ & _ & Hdata & Hsize & Hlo & Hhi & Hds).
  apply list_elem_of_In in Hjin. apply elem_of_seq in Hjin.
  assert (Z.of_nat (length (message_fields m)) < 2 ^ 63) as Hlen by (by apply message_short).
  exists (iter_at (msg_fields m) dest j).
  destruct (iter_at_shift (msg_fields m) dest j) as [Ed Es].
  rewrite Ed, Es, Hdata, Hsize, (cur_at _ _ dest Ht j) by lia. split_and!; try done.
  destruct (iter_search_at _ _ dest Ht
    (fun f => (tag f =? t) && negb (PB_LTYPE (type f) =? PB_LTYPE_EXTENSION)) i Hi Hlen)
    as [(k & Hk & Hp & E)|[Hnone _]].
  - unfold pb_field_iter_find. rewrite E. do 3 f_equal. pb_bool.
    apply (Forall_elem _ _ k Huniq); [apply elem_of_seq; lia|done].
  - specialize (Hnone j ltac:(lia)). rewrite (proj2 (Z.eqb_eq _ _) Htag) in Hnone.
    by rewrite (proj2 (Z.eqb_neq _ _) Hext) in Hnone.
Qed.

(** ** The program's tables *)
Definition gdt_cct_tables : Tables := {| fields_of := gdt_cct_fields_of; ext_types := fun _ => None |}.

Lemma gdt_cct_tables_ok : @TablesOk gdt_cct_tables.
Proof.
  split; [|done]. intros t fields. cbn [fields_of gdt_cct_tables]. unfold gdt_cct_fields_of.
  repeat (destruct (t =? _); [intros [= <-]; apply (bool_decide_unpack _); vm_compute; exact I|]).
  done.
Qed.

(** ** The hypotheses of the theorems at concrete inputs *)

(** Callbacks that write nothing. *)
Definition no_encode_callbacks : EncodeCallbacks := {|
  field_encode_cb := fun _ _ _ _ => ret tt;
  ext_encode_cb := fun _ _ _ => ret tt;
|}.

Lemma no_encode_callbacks_uniform : @UniformCallbacks no_encode_callbacks.
Proof. split; intros; apply uniform_ret. Qed.

(** A [NetworkConnectionInfo] at address 4096: network type -1 (none), mobile
    subtype 100 (combined). *)
Definition nci_memory : mem :=
  mem_of 4096 [1; 0; 0; 0; 255; 255; 255; 255; 1; 0; 0; 0; 100; 0; 0; 0].

Lemma nci_memory_ok : mem_ok nci_memory.
Proof. apply mem_of_ok. repeat constructor; done. Qed.

Section encoder_witnesses.
#[local] Existing Instances gdt_cct_tables gdt_cct_tables_ok no_encode_callbacks
  no_encode_callbacks_uniform.

Lemma nci_fields_ok : Forall field_ok gdt_cct_NetworkConnectionInfo_fields.
Proof. apply (bool_decide_unpack _). vm_compute. exact I. Qed.

(** It can be encoded: a buffer of 20 bytes shows it. *)
Lemma nci_encodable : encodable nci_memory 1 gdt_cct_NetworkConnectionInfo_fields 4096 13.
Proof.
  exists (repeat 0 20), 20. split; [vm_compute; split; congruence|]. split; [lia|]. vm_compute. discriminate.
Qed.

Lemma pb_get_encoded_size_exact_witness :
  exists bs, 13 = zlength bs mod 2 ^ 64 /\
    (zlength bs < 2 ^ 63 -> encodable nci_memory 1 gdt_cct_NetworkConnectionInfo_fields 4096 13 ->
     forall buf size, 0 <= size <= zlength buf -> size < 2 ^ 63 ->
      let r := pb_encode nci_memory 1 gdt_cct_NetworkConnectionInfo_fields 4096
                 (pb_ostream_from_buffer buf size) in
      if 13 <=? size then exists s, r = Ret (Some tt, s) /\ wrote bs buf s
      else exists s, r = Ret (None, s)) /\
  encodable nci_memory 1 gdt_cct_NetworkConnectionInfo_fields 4096 13.
Proof.
  destruct (pb_get_encoded_size_exact nci_memory 1 gdt_cct_NetworkConnectionInfo_fields 4096 13)
    as (bs & E & Hbs).
  - exact nci_memory_ok.
  - exact nci_fields_ok.
  - vm_compute. reflexivity.
  - exists bs. split; [exact E|]. split; [exact Hbs|exact nci_encodable].
Defined.

Lemma pb_encode_delimited_frame_witness :
  exists bs, 13 = zlength bs mod 2 ^ 64 /\
    (zlength bs < 2 ^ 62 ->
     (forall buf, 13 <= zlength buf < 2 ^ 63 -> exists s,
        pb_encode nci_memory 1 gdt_cct_NetworkConnectionInfo_fields 4096
          (pb_ostream_from_buffer buf (zlength buf)) = Ret (Some tt, s) /\ wrote bs buf s) /\
     forall buf size, 0 <= size <= zlength buf -> size < 2 ^ 63 ->
       let frame := varint_bytes 13 ++ bs in
       let r := pb_encode_delimited nci_memory 1 gdt_cct_NetworkConnectionInfo_fields 4096
                  (pb_ostream_from_buffer buf size) in
       if zlength frame <=? size then exists s, r = Ret (Some tt, s) /\ wrote frame buf s
       else exists s, r = Ret (None, s)).
Proof.
  apply (pb_encode_delimited_frame nci_memory 1 gdt_cct_NetworkConnectionInfo_fields 4096 13).
  - exact nci_memory_ok.
  - exact nci_fields_ok.
  - vm_compute. reflexivity.
  - exact nci_encodable.
Defined.
End encoder_witnesses.

Lemma pb_field_iter_find_spec_witness :
  let fields := gdt_cct_ClientInfo_fields in
  let matches j := (tag (fields !!! j) =? 4)
                   && negb (PB_LTYPE (type (fields !!! j)) =? PB_LTYPE_EXTENSION) in
  (exists j, (j < 2)%nat /\ matches j = true /\
     pb_field_iter_find (iter_at fields 64 1) 4 = Ret (true, iter_at fields 64 j)) \/
  ((forall j, (j < 2)%nat -> matches j = false) /\
   pb_field_iter_find (iter_at fields 64 1) 4 = Ret (false, iter_at fields 64 1)).
Proof.
  apply (pb_field_iter_find_spec gdt_cct_ClientInfo_fields (take 2 gdt_cct_ClientInfo_fields) 64 1 4).
  - apply (message_terminated (Message "gdt_cct_ClientInfo" gdt_cct_ClientInfo_fields gdt_cct_ClientInfo)).
    apply (bool_decide_unpack _). vm_compute. exact I.
  - reflexivity.
  - cbn. lia.
Defined.

Lemma generated_layout_witness :
  exists m f, m ∈ messages /\ msg_name m = "gdt_cct_LogEvent" /\
    forall dest i, (i < length (message_fields m))%nat ->
      exists it, pb_field_iter_find (iter_at (msg_fields m) dest i) 23 = Ret (true, it) /\
        cur it = Ret f /\ tag f = 23 /\
        pData it = dest + offsetof (msg_struct m) "network_connection_info" /\
        pSize it = AtAddr (dest + offsetof (msg_struct m) (size_member f "network_connection_info")) /\
        data_size f = pb_elemsize (msg_struct m) "network_connection_info" /\
        0 <= offsetof (msg_struct m) "network_connection_info" /\
        offsetof (msg_struct m) "network_connection_info"
          + pb_membersize (msg_struct m) "network_connection_info" <= sizeof (msg_struct m).
Proof.
  apply (generated_layout "gdt_cct_LogEvent" "network_connection_info" 23).
  apply (bool_decide_unpack _). vm_compute. exact I.
Defined.
