(* ===== verification/Codec.v ===== *)
(** * Field codecs

    The interface between the field encoders and decoders and the message
    level: a codec states how a field's value sits in the structure and what
    its bytes on the wire are; the encoder writes those bytes, and the decoder
    turns them back into the same object, touching nothing else. *)
From S2P Require Import Prelude WireFormat Memory Descriptor OStream IStream Wire Iter Storage Encode DecodeFields.

(** The value of a field: a number, or the contents of a string. *)
Inductive fvalue : Type :=
| VInt (v : Z)
| VBytes (bs : list Z).

(** [c], in front of a buffer stream that starts with [bs] and in memory [m],
    consumes [bs], returns [a] and leaves the memory [m']. *)
Definition decodes_at {A} (c : M dstate A) (bs : list Z) (m m' : mem) (a : A) : Prop :=
  forall rest n e fc, zlength bs <= n < 2 ^ 64 ->
    c (DState (IStream ICBufRead (bs ++ rest) n e) m fc) =
    Ret (Some a, DState (IStream ICBufRead rest (n - zlength bs) e) m' fc).

Lemma decodes_at_ret {A} (a : A) m : decodes_at (ret a) [] m m a.
Proof. intros rest n e fc _. unfold ret. change (zlength (@nil Z)) with 0. by rewrite Z.sub_0_r. Qed.

Lemma decodes_at_bind {A B} (c : M dstate A) (k : A -> M dstate B) bs1 bs2 m m1 m2 a b :
  decodes_at c bs1 m m1 a -> decodes_at (k a) bs2 m1 m2 b -> decodes_at (bind c k) (bs1 ++ bs2) m m2 b.
Proof.
  intros Hc Hk rest n e fc Hn. rewrite zlength_app in Hn |- *.
  pose proof (zlength_nonneg bs1). pose proof (zlength_nonneg bs2).
  rewrite <- app_assoc. erewrite bind_some by (apply Hc; lia).
  rewrite Hk by lia. do 4 f_equal. lia.
Qed.

(** The common shapes: bytes first, or memory only. *)
Lemma decodes_at_stream {A B} (c : M pb_istream_t A) (k : A -> M dstate B) bs m m' a b :
  decodes c bs a -> decodes_at (k a) [] m m' b -> decodes_at (bind (on_stream c) k) bs m m' b.
Proof.
  intros Hc Hk. rewrite <- (app_nil_r bs). eapply decodes_at_bind; [|exact Hk].
  intros rest n e fc Hn. unfold on_stream. cbn [stream memory fixed_count_size]. by rewrite Hc.
Qed.

Lemma decodes_at_memory {A B} (c : M mem A) (k : A -> M dstate B) bs m m1 m2 a b :
  c m = Ret (Some a, m1) -> decodes_at (k a) bs m1 m2 b -> decodes_at (bind (on_memory c) k) bs m m2 b.
Proof.
  intros Hc Hk. rewrite <- (app_nil_l bs). eapply decodes_at_bind; [|exact Hk].
  intros rest n e fc Hn. unfold on_memory. cbn [stream memory fixed_count_size]. rewrite Hc.
  change (zlength (@nil Z)) with 0. by rewrite Z.sub_0_r.
Qed.

Lemma decodes_at_last {A} (c : M dstate A) bs m m' a :
  decodes_at (x <- c;; ret x) bs m m' a -> decodes_at c bs m m' a.
Proof.
  intros H rest n e fc Hn. specialize (H rest n e fc Hn). revert H. unfold bind.
  by destruct (c _) as [[[x|] s]| |].
Qed.

Lemma mstore_bytes_run m a bs m' : store_bytes m a bs = Some m' -> mstore_bytes a bs m = Ret (Some tt, m').
Proof. intros E. unfold mstore_bytes. rewrite bind_get, E. done. Qed.

Lemma mstore_run n m a v m' : store_u n m a v = Some m' -> mstore n a v m = Ret (Some tt, m').
Proof. intros E. unfold mstore. rewrite bind_get, E. done. Qed.

Lemma mload_run n m a v : load_u n m a = Some v -> mload n a m = Ret (Some v, m).
Proof. intros E. unfold mload. rewrite bind_get, E. done. Qed.

(** ** The interface

    [holds m p v]: the object at [p] has the value [v]; [wire v]: its bytes. *)
Class FieldCodec `{Tables} `{Allocator} (f : pb_field_t)
    (holds : mem -> Z -> fvalue -> Prop) (wire : fvalue -> list Z) : Prop := {
  codec_wire_type : is_Some (wire_type_of (PB_LTYPE (type f)));
  (** The value depends on the object only. *)
  holds_updated : forall a n m m' p v,
    updated a n m m' -> disjoint_ranges a n p (data_size f) -> holds m p v -> holds m' p v;
  encode_wire : forall m enc, exists func,
    PB_ENCODERS m enc (PB_LTYPE (type f)) = Ret (Some func) /\
    forall p v, mem_ok m -> 0 < p -> holds m p v -> emits (func f p) tt (wire v);
  (** Decoding writes inside the object and restores the value. *)
  decode_wire : forall decode decode_noinit, exists func,
    PB_DECODERS decode decode_noinit (PB_LTYPE (type f)) = Ret (Some func) /\
    forall m0 p0 m p v, mem_ok m0 -> holds m0 p0 v -> mapped m p (data_size f) ->
    exists m', updated p (data_size f) m m' /\ holds m' p v /\ decodes_at (func f p) (wire v) m m' tt;
}.

(** ** Integers of 1, 2, 4 and 8 bytes *)
Definition int_size (n : nat) (f : pb_field_t) : Prop :=
  n ∈ [1; 2; 4; 8]%nat /\ data_size f = Z.of_nat n.

Lemma int_size_cases {A} n f (g : nat -> A) d :
  int_size n f ->
  (if data_size f =? 1 then g 1%nat
   else if data_size f =? 2 then g 2%nat
   else if data_size f =? 4 then g 4%nat
   else if data_size f =? 8 then g 8%nat else d) = g n.
Proof.
  intros [Hn ->]. assert (n = 1 \/ n = 2 \/ n = 4 \/ n = 8)%nat as Hc by set_solver.
  by destruct Hc as [->|[->|[->| ->]]].
Qed.

Lemma int_size_bounds n f : int_size n f -> (1 <= n <= 8)%nat.
Proof. intros [Hn _]. set_unfold. lia. Qed.

Lemma store_clamped_size conv n f dest v :
  int_size n f ->
  store_clamped conv f dest v =
    (on_memory (mstore n dest (conv (8 * Z.of_nat n) v));; ret (conv (8 * Z.of_nat n) v)).
Proof.
  intros [Hn E]. assert (n = 1 \/ n = 2 \/ n = 4 \/ n = 8)%nat as Hc by set_solver.
  unfold store_clamped. rewrite E. by destruct Hc as [->|[->|[->| ->]]].
Qed.

(** Storing a number that fits and reading it back. *)
Lemma store_s_spec n m p x :
  (0 < n)%nat -> mapped m p (Z.of_nat n) ->
  - 2 ^ (8 * Z.of_nat n - 1) <= x < 2 ^ (8 * Z.of_nat n - 1) ->
  exists m', store_u n m p x = Some m' /\ updated p (Z.of_nat n) m m' /\ load_s n m' p = Some x.
Proof.
  intros Hn Hm Hx. destruct (store_u_spec n m p x Hm) as (m' & Hs & Hu & Hl).
  exists m'. split_and!; [done|done|]. rewrite (load_s_of_u _ _ _ _ Hl), sext_wrap by lia.
  by rewrite sext_small by lia.
Qed.

(** A signed width is inside the 64-bit and, up to 4 bytes, the 32-bit one. *)
Lemma signed_range n x k :
  (1 <= n)%nat -> Z.of_nat n <= k ->
  - 2 ^ (8 * Z.of_nat n - 1) <= x < 2 ^ (8 * Z.of_nat n - 1) ->
  - 2 ^ (8 * k - 1) <= x < 2 ^ (8 * k - 1).
Proof.
  intros Hn Hk Hx. assert (2 ^ (8 * Z.of_nat n - 1) <= 2 ^ (8 * k - 1)) by (apply Z.pow_le_mono_r; lia). lia.
Qed.

(** What the decoder makes of a 64-bit value when the field is signed. *)
Lemma signed_value n f x :
  int_size n f -> - 2 ^ (8 * Z.of_nat n - 1) <= x < 2 ^ (8 * Z.of_nat n - 1) ->
  (if data_size f =? 8 then s64 (u64 x) else s32 (u64 x)) = x.
Proof.
  intros Hs Hx. pose proof (int_size_bounds _ _ Hs) as Hn. destruct Hs as [Hin ->].
  assert (s64 (u64 x) = x) as E64.
  { unfold wrap. rewrite sext_wrap by lia. apply sext_small; [lia|].
    exact (signed_range n x 8 ltac:(lia) ltac:(lia) Hx). }
  destruct (Z.eqb_spec (Z.of_nat n) 8); [done|].
  assert (n = 1 \/ n = 2 \/ n = 4)%nat as Hc by (set_unfold; lia).
  assert (- 2 ^ (8 * 4 - 1) <= x < 2 ^ (8 * 4 - 1)) by exact (signed_range n x 4 ltac:(lia) ltac:(lia) Hx).
  unfold wrap. rewrite <- (sext_wrap 32 (x mod 2 ^ 64)) by lia.
  rewrite Z.mod_mod_divide by (exists (2 ^ 32); done). rewrite sext_wrap by lia. apply sext_small; lia.
Qed.

(** Loads of the decoded object in the signed and unsigned codecs. *)
Definition holds_s (n : nat) (m : mem) (p : Z) (v : fvalue) : Prop :=
  exists x, v = VInt x /\ load_s n m p = Some x.
Definition holds_u (n : nat) (m : mem) (p : Z) (v : fvalue) : Prop :=
  exists x, v = VInt x /\ load_u n m p = Some x.
Definition int_wire (conv : Z -> list Z) (v : fvalue) : list Z :=
  match v with VInt x => conv x | VBytes _ => [] end.

Lemma holds_s_updated n f a k m m' p v :
  int_size n f -> updated a k m m' -> disjoint_ranges a k p (data_size f) -> holds_s n m p v -> holds_s n m' p v.
Proof.
  intros [_ Hd] Hu Hdis (x & -> & Hl). rewrite Hd in Hdis. exists x. split; [done|].
  by rewrite (load_s_updated _ _ _ _ _ _ Hu Hdis).
Qed.

Lemma holds_u_updated n f a k m m' p v :
  int_size n f -> updated a k m m' -> disjoint_ranges a k p (data_size f) -> holds_u n m p v -> holds_u n m' p v.
Proof.
  intros [_ Hd] Hu Hdis (x & -> & Hl). rewrite Hd in Hdis. exists x. split; [done|].
  by rewrite (load_u_updated _ _ _ _ _ _ Hu Hdis).
Qed.

(** Storing the value ends every integer decoder. *)
Lemma decodes_at_store_int conv n f p v m m' x msg :
  int_size n f -> store_u n m p (conv (8 * Z.of_nat n) v) = Some m' ->
  conv (8 * Z.of_nat n) v = x -> x = v ->
  decodes_at (clamped <- store_clamped conv f p v;;
              if negb (clamped =? v) then pb_return_error msg else ret tt) [] m m' tt.
Proof.
  intros Hs E Ex Exv. rewrite (store_clamped_size conv n) by done.
  intros rest k e fc Hk. rewrite bind_assoc. revert rest k e fc Hk.
  eapply decodes_at_memory; [by apply mstore_run|].
  intros rest k e fc Hk. rewrite bind_ret, Ex, Exv, Z.eqb_refl. by apply decodes_at_ret.
Qed.

Section int_codecs.
Context (n : nat) (f : pb_field_t) (Hn : int_size n f).

Lemma int_size_pos : (0 < n)%nat.
Proof using Hn. pose proof (int_size_bounds _ _ Hn). lia. Qed.

Lemma holds_s_bound m p v :
  holds_s n m p v -> exists x, v = VInt x /\ - 2 ^ (8 * Z.of_nat n - 1) <= x < 2 ^ (8 * Z.of_nat n - 1) /\
                              - 2 ^ 63 <= x < 2 ^ 63.
Proof using Hn.
  intros (x & -> & Hl). exists x. pose proof (int_size_bounds _ _ Hn).
  pose proof (load_s_bound _ _ _ _ int_size_pos Hl) as Hb. split_and!; try done; try lia.
  - apply (signed_range n x 8); lia.
  - apply (signed_range n x 8); lia.
Qed.

Lemma holds_u_bound m p v :
  mem_ok m -> holds_u n m p v -> exists x, v = VInt x /\ 0 <= x < 2 ^ (8 * Z.of_nat n) /\ 0 <= x < 2 ^ 64.
Proof using Hn.
  intros Hm (x & -> & Hl). exists x. pose proof (int_size_bounds _ _ Hn).
  pose proof (load_u_bound _ _ _ _ Hm Hl) as Hb.
  assert (2 ^ (8 * Z.of_nat n) <= 2 ^ 64) by (apply Z.pow_le_mono_r; lia). split_and!; done || lia.
Qed.

(** *** Signed varints (int32, int64, enums, bool) *)
Lemma varint_encode m p v :
  mem_ok m -> holds_s n m p v -> emits (pb_enc_varint m f p) tt (int_wire (fun x => varint_bytes (u64 x)) v).
Proof using Hn.
  intros _ (x & -> & Hl). unfold pb_enc_varint. rewrite (int_size_cases n f (fun n => need (load_s n m p))) by done.
  apply (emits_lift _ _ x); [by rewrite Hl|]. apply pb_encode_varint_emits. by apply wrap_bound.
Qed.

Lemma varint_decode m0 p0 m p v :
  mem_ok m0 -> holds_s n m0 p0 v -> mapped m p (data_size f) ->
  exists m', updated p (data_size f) m m' /\ holds_s n m' p v /\
    decodes_at (pb_dec_varint f p) (int_wire (fun x => varint_bytes (u64 x)) v) m m' tt.
Proof using Hn.
  intros _ H0 Hmap. destruct (holds_s_bound _ _ _ H0) as (x & -> & Hx & _).
  pose proof Hn as [_ Hd]. rewrite Hd in *.
  destruct (store_s_spec n m p x int_size_pos Hmap Hx) as (m' & Hs & Hu & Hl).
  exists m'. split_and!; [done|by exists x|].
  eapply decodes_at_stream; [by apply pb_decode_varint_decodes, wrap_bound|].
  rewrite (signed_value n f x) by done.
  eapply decodes_at_store_int; [done| |reflexivity|].
  - by rewrite sext_small by (lia || pose proof int_size_pos; lia).
  - by rewrite sext_small by (lia || pose proof int_size_pos; lia).
Qed.

(** *** Unsigned varints (uint32, uint64, unsigned enums) *)
Lemma uvarint_encode m p v :
  mem_ok m -> holds_u n m p v -> emits (pb_enc_uvarint m f p) tt (int_wire varint_bytes v).
Proof using Hn.
  intros Hm H. destruct (holds_u_bound m p v Hm H) as (x & -> & _ & Hx). destruct H as (? & [= <-] & Hl).
  unfold pb_enc_uvarint. rewrite (int_size_cases n f (fun n => need (load_u n m p))) by done.
  apply (emits_lift _ _ x); [by rewrite Hl|]. by apply pb_encode_varint_emits.
Qed.

Lemma uvarint_decode m0 p0 m p v :
  mem_ok m0 -> holds_u n m0 p0 v -> mapped m p (data_size f) ->
  exists m', updated p (data_size f) m m' /\ holds_u n m' p v /\
    decodes_at (pb_dec_uvarint f p) (int_wire varint_bytes v) m m' tt.
Proof using Hn.
  intros Hm0 H0 Hmap. destruct (holds_u_bound _ _ _ Hm0 H0) as (x & -> & Hx & Hx64).
  pose proof Hn as [_ Hd]. rewrite Hd in *.
  destruct (store_u_spec n m p x Hmap) as (m' & Hs & Hu & Hl). rewrite Z.mod_small in Hl by done.
  exists m'. split_and!; [done|by exists x|].
  eapply decodes_at_stream; [by apply pb_decode_varint_decodes|].
  eapply decodes_at_store_int; [done| |reflexivity|]; by rewrite wrap_small.
Qed.

(** *** Zigzag varints (sint32, sint64) *)
Lemma svarint_encode m p v :
  mem_ok m -> holds_s n m p v -> emits (pb_enc_svarint m f p) tt (int_wire (fun x => varint_bytes (zigzag x)) v).
Proof using Hn.
  intros _ H. destruct (holds_s_bound _ _ _ H) as (x & -> & _ & Hx). destruct H as (? & [= <-] & Hl).
  unfold pb_enc_svarint. rewrite (int_size_cases n f (fun n => need (load_s n m p))) by done.
  apply (emits_lift _ _ x); [by rewrite Hl|]. unfold pb_encode_svarint. rewrite zigzag_encode_spec by done.
  apply pb_encode_varint_emits. by apply zigzag_bound.
Qed.

Lemma svarint_decode m0 p0 m p v :
  mem_ok m0 -> holds_s n m0 p0 v -> mapped m p (data_size f) ->
  exists m', updated p (data_size f) m m' /\ holds_s n m' p v /\
    decodes_at (pb_dec_svarint f p) (int_wire (fun x => varint_bytes (zigzag x)) v) m m' tt.
Proof using Hn.
  intros _ H0 Hmap. destruct (holds_s_bound _ _ _ H0) as (x & -> & Hx & Hx64).
  pose proof Hn as [_ Hd]. rewrite Hd in *.
  destruct (store_s_spec n m p x int_size_pos Hmap Hx) as (m' & Hs & Hu & Hl).
  exists m'. split_and!; [done|by exists x|].
  eapply decodes_at_stream; [by apply pb_decode_svarint_decodes|].
  eapply decodes_at_store_int; [done| |reflexivity|];
    by rewrite sext_small by (lia || pose proof int_size_pos; lia).
Qed.

(** *** Fixed-width numbers *)
Lemma fixed_decode (dec : M pb_istream_t Z) m0 p0 m p v :
  (forall x, 0 <= x < 2 ^ (8 * Z.of_nat n) -> decodes dec (le_bytes n x) x) ->
  mem_ok m0 -> holds_u n m0 p0 v -> mapped m p (data_size f) ->
  exists m', updated p (data_size f) m m' /\ holds_u n m' p v /\
    decodes_at (v <- on_stream dec;; on_memory (mstore n p v)) (int_wire (le_bytes n) v) m m' tt.
Proof using Hn.
  intros Hdec Hm0 H0 Hmap. destruct (holds_u_bound _ _ _ Hm0 H0) as (x & -> & Hx & _).
  pose proof Hn as [_ Hd]. rewrite Hd in *.
  destruct (store_u_spec n m p x Hmap) as (m' & Hs & Hu & Hl). rewrite Z.mod_small in Hl by done.
  exists m'. split_and!; [done|by exists x|].
  eapply decodes_at_stream; [by apply Hdec|]. apply decodes_at_last.
  eapply decodes_at_memory; [by apply mstore_run|]. apply decodes_at_ret.
Qed.
End int_codecs.

Lemma fixed32_encode f m p v :
  mem_ok m -> holds_u 4 m p v -> emits (pb_enc_fixed32 m f p) tt (int_wire (le_bytes 4) v).
Proof. intros _ (x & -> & Hl). by apply pb_encode_fixed32_emits. Qed.

Lemma fixed64_encode f m p v :
  mem_ok m -> holds_u 8 m p v -> emits (pb_enc_fixed64 m f p) tt (int_wire (le_bytes 8) v).
Proof. intros _ (x & -> & Hl). by apply pb_encode_fixed64_emits. Qed.

Lemma fixed32_decode f m0 p0 m p v :
  int_size 4 f -> mem_ok m0 -> holds_u 4 m0 p0 v -> mapped m p (data_size f) ->
  exists m', updated p (data_size f) m m' /\ holds_u 4 m' p v /\
    decodes_at (pb_dec_fixed32 f p) (int_wire (le_bytes 4) v) m m' tt.
Proof. intros Hf. apply (fixed_decode 4 f Hf). apply (pb_decode_fixed_decodes 4). Qed.

Lemma fixed64_decode f m0 p0 m p v :
  int_size 8 f -> mem_ok m0 -> holds_u 8 m0 p0 v -> mapped m p (data_size f) ->
  exists m', updated p (data_size f) m m' /\ holds_u 8 m' p v /\
    decodes_at (pb_dec_fixed64 f p) (int_wire (le_bytes 8) v) m m' tt.
Proof. intros Hf. apply (fixed_decode 8 f Hf). apply (pb_decode_fixed_decodes 8). Qed.
