(* ===== verification/StaticCodec.v ===== *)
(** * Every static field without a submessage has a codec *)
From S2P Require Import Prelude WireFormat Memory Descriptor Iter OStream Encode IStream Storage DecodeFields Wire Codec.

(** ** Codecs of bytes and strings stored in the structure *)

(** ** Bytes in memory *)
Lemma load_bytes_app m a bs1 bs2 :
  load_bytes m a (length bs1) = Some bs1 -> load_bytes m (a + zlength bs1) (length bs2) = Some bs2 ->
  load_bytes m a (length bs1 + length bs2) = Some (bs1 ++ bs2).
Proof.
  revert a. induction bs1 as [|b bs1 IH]; intros a.
  { change (zlength (@nil Z)) with 0. by rewrite Z.add_0_r. }
  rewrite zlength_cons. cbn [length Nat.add load_bytes app].
  destruct (load_byte m a) as [c|]; cbn; [|done].
  destruct (load_bytes m (a + 1) (length bs1)) as [cs|] eqn:E; cbn; [|done].
  intros [= -> ->] H2. rewrite (IH (a + 1)); [done|done|]. rewrite <- H2. f_equal. lia.
Qed.

Lemma load_bytes_lookup m a n bs i b :
  load_bytes m a n = Some bs -> bs !! i = Some b -> load_byte m (a + Z.of_nat i) = Some b.
Proof.
  revert a bs i. induction n as [|n IH]; intros a bs i; cbn; [by intros [= <-]|].
  destruct (load_byte m a) as [c|] eqn:Ec; cbn; [|done].
  destruct (load_bytes m (a + 1) n) as [cs|] eqn:E; cbn; [|done].
  intros [= <-]. destruct i as [|i]; cbn.
  - intros [= ->]. by rewrite Z.add_0_r.
  - intros Hi. rewrite <- (IH _ _ _ E Hi). f_equal. lia.
Qed.

Lemma load_byte_u m a b : load_byte m a = Some b -> load_u 1 m a = Some b.
Proof. intros E. unfold load_u. cbn. rewrite E. cbn. f_equal. lia. Qed.

Lemma load_u_byte m a b : load_u 1 m a = Some b -> load_byte m a = Some b.
Proof.
  unfold load_u. cbn. destruct (load_byte m a) as [c|]; cbn; [|done]. intros [= <-]. f_equal. lia.
Qed.

(** Reading from the stream into memory. *)
Lemma read_into_decodes m p bs :
  mapped m p (zlength bs) ->
  exists m', updated p (zlength bs) m m' /\ load_bytes m' p (length bs) = Some bs /\
             decodes_at (read_into p (zlength bs)) bs m m' tt.
Proof.
  intros Hm. destruct (store_bytes_spec m p bs Hm) as (m' & Hs & Hu & Hl).
  exists m'. split_and!; [done|done|]. unfold read_into.
  eapply decodes_at_stream; [by apply pb_read_decodes|]. apply decodes_at_last.
  eapply decodes_at_memory; [by apply mstore_bytes_run|]. apply decodes_at_ret.
Qed.

(** ** [strnlen] *)
Lemma strnlen_spec m p bs n :
  load_bytes m p (length bs) = Some bs -> Forall (fun b => b <> 0) bs ->
  load_byte m (p + zlength bs) = Some 0 -> zlength bs < n < 2 ^ 64 ->
  strnlen m p n = Ret (zlength bs).
Proof.
  intros Hl Hz Hend Hn. unfold strnlen.
  apply (while_ind _ (fun k => 0 <= k <= zlength bs) (fun k => zlength bs - k)
           (fun r => r = Ret (zlength bs))); [|pose proof (zlength_nonneg bs); lia..].
  intros k Hk. rewrite (proj2 (Z.ltb_lt _ _)) by lia.
  destruct (Z.eq_dec k (zlength bs)) as [->|Hne]; [by rewrite Hend|].
  destruct (lookup_lt_is_Some_2 bs (Z.to_nat k)) as [b Hb]; [unfold zlength in *; lia|].
  pose proof (load_bytes_lookup _ _ _ _ _ _ Hl Hb) as E. rewrite Z2Nat.id in E by lia.
  rewrite E, (proj2 (Z.eqb_neq b 0)); [lia|]. by eapply (Forall_lookup_1 (fun b => b <> 0)).
Qed.

(** ** The codecs *)
Lemma size_decodes n :
  0 <= n < 2 ^ 32 -> decodes pb_decode_varint32 (varint_bytes n) n.
Proof.
  intros Hn. rewrite <- (Z.mod_small n (2 ^ 32)) at 2 by done.
  apply pb_decode_varint32_decodes. by left.
Qed.

(** The length first: every decoder of this file starts so. *)
Lemma decodes_at_string {B} (k : Z -> M dstate B) bs m m' b :
  zlength bs < 2 ^ 32 -> decodes_at (k (zlength bs)) bs m m' b ->
  decodes_at (size <- on_stream pb_decode_varint32;; k size) (string_bytes bs) m m' b.
Proof.
  intros Hn Hk. eapply decodes_at_bind; [|exact Hk]. apply decodes_at_last.
  eapply decodes_at_stream; [by apply size_decodes; pose proof (zlength_nonneg bs)|apply decodes_at_ret].
Qed.

Definition bytes_wire (v : fvalue) : list Z :=
  match v with VInt _ => [] | VBytes bs => string_bytes bs end.

(** [PB_BYTES_ARRAY_T]: the size, then the bytes. *)
Definition holds_bytes (n : Z) (m : mem) (p : Z) (v : fvalue) : Prop :=
  exists bs, v = VBytes bs /\ load_u 4 m p = Some (zlength bs) /\
    load_bytes m (p + 4) (length bs) = Some bs /\ 4 + zlength bs <= n.
(** A null-terminated string. *)
Definition holds_string (n : Z) (m : mem) (p : Z) (v : fvalue) : Prop :=
  exists bs, v = VBytes bs /\ load_bytes m p (length bs) = Some bs /\ Forall (fun b => b <> 0) bs /\
    load_byte m (p + zlength bs) = Some 0 /\ zlength bs < n.
Definition holds_fixed_bytes (n : Z) (m : mem) (p : Z) (v : fvalue) : Prop :=
  exists bs, v = VBytes bs /\ load_bytes m p (length bs) = Some bs /\ zlength bs = n.

Section bytes_codecs.
Context `{Allocator} (f : pb_field_t) (Hstatic : PB_ATYPE (type f) = PB_ATYPE_STATIC)
  (Hsize : 0 < data_size f < 2 ^ 32).
Abbreviation n := (data_size f).

(** Whether a range of the object is read or written outside it. *)
Ltac inside := unfold disjoint_ranges in *; unfold zlength in *; lia.

Lemma holds_bytes_updated a k m m' p v :
  updated a k m m' -> disjoint_ranges a k p n -> holds_bytes n m p v -> holds_bytes n m' p v.
Proof.
  intros Hu Hd (bs & -> & Hl & Hb & Hn). pose proof (zlength_nonneg bs).
  exists bs. split_and!; [done| | |done].
  - rewrite (load_u_updated _ _ _ _ _ _ Hu); [done|inside].
  - rewrite (load_bytes_updated _ _ _ _ _ _ Hu); [done|inside].
Qed.

Lemma holds_string_updated a k m m' p v :
  updated a k m m' -> disjoint_ranges a k p n -> holds_string n m p v -> holds_string n m' p v.
Proof.
  intros Hu Hd (bs & -> & Hl & Hz & Hend & Hn). pose proof (zlength_nonneg bs).
  exists bs. split_and!; [done| |done| |done].
  - rewrite (load_bytes_updated _ _ _ _ _ _ Hu); [done|inside].
  - apply load_u_byte. rewrite (load_u_updated _ _ _ _ _ _ Hu); [by apply load_byte_u|inside].
Qed.

Lemma holds_fixed_bytes_updated a k m m' p v :
  updated a k m m' -> disjoint_ranges a k p n -> holds_fixed_bytes n m p v -> holds_fixed_bytes n m' p v.
Proof.
  intros Hu Hd (bs & -> & Hl & Hn). exists bs. split_and!; [done| |done].
  rewrite (load_bytes_updated _ _ _ _ _ _ Hu); [done|inside].
Qed.

Lemma pb_enc_bytes_emits m p v :
  0 < p -> holds_bytes n m p v -> emits (pb_enc_bytes m f p) tt (bytes_wire v).
Proof using Hstatic Hsize.
  intros Hp (bs & -> & Hl & Hb & Hn). pose proof (zlength_nonneg bs). unfold pb_enc_bytes.
  rewrite (proj2 (Z.eqb_neq p 0)) by lia. apply (emits_lift _ _ (zlength bs)); [by rewrite Hl|].
  change (PB_BYTES_ARRAY_T_ALLOCSIZE (zlength bs)) with (u64 (zlength bs + 4)).
  rewrite wrap_small by lia. rewrite (proj2 (Z.ltb_ge _ _)), andb_false_r by lia.
  replace (Z.to_nat (zlength bs)) with (length bs) by inside.
  rewrite Hb. apply pb_encode_string_emits; [done|lia].
Qed.

Lemma pb_enc_string_emits m p v :
  0 < p -> holds_string n m p v -> emits (pb_enc_string m f p) tt (bytes_wire v).
Proof using Hstatic Hsize.
  intros Hp (bs & -> & Hl & Hz & Hend & Hn). unfold pb_enc_string. rewrite Hstatic.
  change (PB_ATYPE_STATIC =? PB_ATYPE_POINTER) with false. cbv beta iota zeta.
  rewrite (proj2 (Z.eqb_neq p 0)) by lia.
  apply (emits_lift _ _ (zlength bs)); [by apply strnlen_spec; try lia|].
  replace (Z.to_nat (zlength bs)) with (length bs) by inside.
  rewrite Hl. apply pb_encode_string_emits; [done|lia].
Qed.

Lemma pb_enc_fixed_length_bytes_emits m p v :
  holds_fixed_bytes n m p v -> emits (pb_enc_fixed_length_bytes m f p) tt (bytes_wire v).
Proof using Hstatic Hsize.
  intros (bs & -> & Hl & Hn). unfold pb_enc_fixed_length_bytes. rewrite <- Hn.
  replace (Z.to_nat (zlength bs)) with (length bs) by inside.
  rewrite Hl. apply pb_encode_string_emits; [done|lia].
Qed.

Lemma pb_dec_bytes_decodes m0 p0 m p v :
  holds_bytes n m0 p0 v -> mapped m p n ->
  exists m', updated p n m m' /\ holds_bytes n m' p v /\
    decodes_at (pb_dec_bytes f p) (bytes_wire v) m m' tt.
Proof using Hstatic Hsize.
  intros (bs & -> & _ & _ & Hn) Hm. pose proof (zlength_nonneg bs).
  destruct (store_u_spec 4 m p (zlength bs)) as (m1 & Hs & Hu1 & Hl1).
  { eapply mapped_sub; [exact Hm|lia..]. }
  destruct (read_into_decodes m1 (p + 4) bs) as (m2 & Hu2 & Hb2 & Hd2).
  { eapply mapped_sub; [by eapply updated_mapped|lia..]. }
  exists m2. split_and!.
  - eapply updated_trans; eapply updated_weaken; eauto; lia.
  - exists bs. split_and!; [done| |done|done].
    rewrite (load_u_updated _ _ _ _ _ _ Hu2) by inside. rewrite Hl1, Z.mod_small by lia. done.
  - apply decodes_at_string; [lia|].
    rewrite (proj2 (Z.ltb_ge PB_SIZE_MAX _)) by (change PB_SIZE_MAX with (2 ^ 32 - 1); lia).
    cbv zeta. change (PB_BYTES_ARRAY_T_ALLOCSIZE (zlength bs)) with (u64 (zlength bs + 4)).
    rewrite wrap_small by lia. rewrite (proj2 (Z.ltb_ge _ (zlength bs))) by lia. rewrite Hstatic.
    change (PB_ATYPE_STATIC =? PB_ATYPE_POINTER) with false. cbv iota.
    rewrite (proj2 (Z.ltb_ge _ (zlength bs + 4))) by lia.
    intros rest k e fc Hk. rewrite bind_ret. revert rest k e fc Hk.
    eapply decodes_at_memory; [by apply mstore_run|exact Hd2].
Qed.

Lemma pb_dec_string_decodes m0 p0 m p v :
  holds_string n m0 p0 v -> mapped m p n ->
  exists m', updated p n m m' /\ holds_string n m' p v /\
    decodes_at (pb_dec_string f p) (bytes_wire v) m m' tt.
Proof using Hstatic Hsize.
  intros (bs & -> & _ & Hz & _ & Hn) Hm. pose proof (zlength_nonneg bs).
  destruct (read_into_decodes m p bs) as (m1 & Hu1 & Hb1 & Hd1).
  { eapply mapped_sub; [exact Hm|lia..]. }
  destruct (store_u_spec 1 m1 (p + zlength bs) 0) as (m2 & Hs & Hu2 & Hl2).
  { eapply mapped_sub; [by eapply updated_mapped|lia..]. }
  exists m2. split_and!.
  - eapply updated_trans; eapply updated_weaken; eauto; lia.
  - exists bs. split_and!; [done| |done|by apply load_u_byte|done].
    rewrite (load_bytes_updated _ _ _ _ _ _ Hu2) by inside. done.
  - apply decodes_at_string; [lia|]. cbv zeta.
    rewrite wrap_small by lia. rewrite (proj2 (Z.ltb_ge _ (zlength bs))) by lia. rewrite Hstatic.
    change (PB_ATYPE_STATIC =? PB_ATYPE_POINTER) with false. cbv iota.
    rewrite (proj2 (Z.ltb_ge _ (zlength bs + 1))) by lia.
    intros rest k e fc Hk. rewrite bind_ret. erewrite bind_attempt by (by apply Hd1).
    erewrite bind_some; [reflexivity|]. unfold on_memory. cbn [stream memory fixed_count_size].
    by rewrite (mstore_run _ _ _ _ _ Hs).
Qed.

Lemma pb_dec_fixed_length_bytes_decodes m0 p0 m p v :
  holds_fixed_bytes n m0 p0 v -> mapped m p n ->
  exists m', updated p n m m' /\ holds_fixed_bytes n m' p v /\
    decodes_at (pb_dec_fixed_length_bytes f p) (bytes_wire v) m m' tt.
Proof using Hstatic Hsize.
  intros (bs & -> & _ & Hn) Hm. rewrite <- Hn in Hm.
  destruct (read_into_decodes m p bs Hm) as (m' & Hu & Hb & Hd).
  exists m'. split_and!; [by rewrite <- Hn|by exists bs|].
  apply decodes_at_string; [lia|].
  rewrite (proj2 (Z.ltb_ge PB_SIZE_MAX _)) by (change PB_SIZE_MAX with (2 ^ 32 - 1); lia).
  rewrite (proj2 (Z.eqb_neq (zlength bs) 0)) by lia. by rewrite <- Hn, Z.eqb_refl.
Qed.
End bytes_codecs.

(** ** Every static field without a submessage has a codec *)

Definition static_holds (f : pb_field_t) : mem -> Z -> fvalue -> Prop :=
  let ltype := PB_LTYPE (type f) in
  let n := Z.to_nat (data_size f) in
  if ltype =? PB_LTYPE_VARINT then holds_s n
  else if ltype =? PB_LTYPE_UVARINT then holds_u n
  else if ltype =? PB_LTYPE_SVARINT then holds_s n
  else if ltype =? PB_LTYPE_FIXED32 then holds_u 4
  else if ltype =? PB_LTYPE_FIXED64 then holds_u 8
  else if ltype =? PB_LTYPE_BYTES then holds_bytes (data_size f)
  else if ltype =? PB_LTYPE_STRING then holds_string (data_size f)
  else holds_fixed_bytes (data_size f).

(** The bytes of a value on the wire. *)
Definition static_wire (f : pb_field_t) : fvalue -> list Z :=
  let ltype := PB_LTYPE (type f) in
  if ltype =? PB_LTYPE_VARINT then int_wire (fun x => varint_bytes (u64 x))
  else if ltype =? PB_LTYPE_UVARINT then int_wire varint_bytes
  else if ltype =? PB_LTYPE_SVARINT then int_wire (fun x => varint_bytes (zigzag x))
  else if ltype =? PB_LTYPE_FIXED32 then int_wire (le_bytes 4)
  else if ltype =? PB_LTYPE_FIXED64 then int_wire (le_bytes 8)
  else bytes_wire.

(** The types with a codec, and the sizes the generator gives their members. *)
Definition static_codec_ok (f : pb_field_t) : Prop :=
  let ltype := PB_LTYPE (type f) in
  PB_ATYPE (type f) = PB_ATYPE_STATIC /\
  (ltype ∈ [PB_LTYPE_VARINT; PB_LTYPE_UVARINT; PB_LTYPE_SVARINT] /\ data_size f ∈ [1; 2; 4; 8] \/
   ltype = PB_LTYPE_FIXED32 /\ data_size f = 4 \/
   ltype = PB_LTYPE_FIXED64 /\ data_size f = 8 \/
   ltype ∈ [PB_LTYPE_BYTES; PB_LTYPE_STRING; PB_LTYPE_FIXED_LENGTH_BYTES] /\ 0 < data_size f < 2 ^ 32).

#[export] Instance static_codec_ok_dec f : Decision (static_codec_ok f).
Proof. unfold static_codec_ok. apply _. Defined.

Lemma int_size_of f : data_size f ∈ [1; 2; 4; 8] -> int_size (Z.to_nat (data_size f)) f.
Proof.
  intros Hn. split; [|set_unfold; lia].
  assert (data_size f = 1 \/ data_size f = 2 \/ data_size f = 4 \/ data_size f = 8) as Hc by set_solver.
  by destruct Hc as [->|[->|[->| ->]]]; vm_compute; repeat constructor.
Qed.

Lemma int_size_is k f : k ∈ [1; 2; 4; 8]%nat -> data_size f = Z.of_nat k -> int_size k f.
Proof. by split. Qed.

Section instances.
Context `{Tables} `{Allocator}.

(** The type of the field is known: choose the branch. *)
Ltac reduce :=
  cbn [Z.eqb Pos.eqb PB_LTYPE_VARINT PB_LTYPE_UVARINT PB_LTYPE_SVARINT PB_LTYPE_FIXED32 PB_LTYPE_FIXED64
       PB_LTYPE_BYTES PB_LTYPE_STRING PB_LTYPE_FIXED_LENGTH_BYTES].
(** One codec from the lemmas of its type. *)
Ltac codec E upd enc dec :=
  split; rewrite ?E;
  [ by eexists
  | intros; solve [eapply upd; eauto]
  | intros; eexists; split; [reflexivity|]; intros; solve [eapply enc; eauto]
  | intros; eexists; split; [reflexivity|]; intros; solve [eapply dec; eauto] ].

#[export] Instance static_codec f : static_codec_ok f -> FieldCodec f (static_holds f) (static_wire f).
Proof.
  intros (Hs & Hc). unfold static_holds, static_wire.
  destruct Hc as [[Hl Hn]|[[E Hn]|[[E Hn]|[Hl Hn]]]].
  - pose proof (int_size_of f Hn) as Hi.
    assert (PB_LTYPE (type f) = PB_LTYPE_VARINT \/ PB_LTYPE (type f) = PB_LTYPE_UVARINT \/
            PB_LTYPE (type f) = PB_LTYPE_SVARINT) as [E|[E|E]] by set_solver; rewrite E; reduce.
    + codec E holds_s_updated varint_encode varint_decode.
    + codec E holds_u_updated uvarint_encode uvarint_decode.
    + codec E holds_s_updated svarint_encode svarint_decode.
  - assert (int_size 4 f) as Hi by (apply int_size_is; [set_solver|done]). rewrite E. reduce.
    codec E holds_u_updated fixed32_encode fixed32_decode.
  - assert (int_size 8 f) as Hi by (apply int_size_is; [set_solver|done]). rewrite E. reduce.
    codec E holds_u_updated fixed64_encode fixed64_decode.
  - assert (PB_LTYPE (type f) = PB_LTYPE_BYTES \/ PB_LTYPE (type f) = PB_LTYPE_STRING \/
            PB_LTYPE (type f) = PB_LTYPE_FIXED_LENGTH_BYTES) as [E|[E|E]] by set_solver; rewrite E; reduce.
    + codec E holds_bytes_updated pb_enc_bytes_emits pb_dec_bytes_decodes.
    + codec E holds_string_updated pb_enc_string_emits pb_dec_string_decodes.
    + codec E holds_fixed_bytes_updated pb_enc_fixed_length_bytes_emits pb_dec_fixed_length_bytes_decodes.
Qed.
End instances.
