(* ===== verification/FlatEncode.v ===== *)
(** * Flat messages, and the encoder on them *)
From S2P Require Import Prelude WireFormat Memory Descriptor Iter OStream Encode IStream Storage DecodeFields Wire IterFacts Codec StaticCodec.

(** ** Flat messages: optional static fields, each with its [has_] flag

    The messages of the program that consist of numbers, such as
    [gdt_cct_NetworkConnectionInfo] and [gdt_cct_QosTierConfiguration].  This
    file says what it means that a structure in memory represents a message,
    and what the bytes of the message are. *)

#[export] Instance disjoint_ranges_dec a n b k : Decision (disjoint_ranges a n b k).
Proof. unfold disjoint_ranges. apply _. Defined.

(** ** The descriptor *)
Section layout.
Context (fields : list pb_field_t).

(** The number of fields before the terminator. *)
Definition field_count : nat := length fields - 1.

(** Offsets of the member and of its flag in the structure. *)
Definition data_off (j : nat) : Z := pData (iter_at fields 0 j).
Definition has_off (j : nat) : Z := data_off j + size_offset (fields !!! j).

(** The value a field gets before decoding. *)
Definition default_bytes (f : pb_field_t) : list Z :=
  match ptr f with
  | PDefault bs => ztake (data_size f) bs
  | _ => repeat 0 (Z.to_nat (data_size f))
  end.
Definition default_ok (f : pb_field_t) : Prop :=
  match ptr f with
  | PNull => True
  | PDefault bs => data_size f <= zlength bs
  | PFields _ => False
  end.

#[export] Instance default_ok_dec f : Decision (default_ok f).
Proof. unfold default_ok. destruct (ptr f); apply _. Defined.

Definition flat_field (size : Z) (j : nat) : Prop :=
  let f := fields !!! j in
  static_codec_ok f /\ PB_HTYPE (type f) = PB_HTYPE_OPTIONAL /\ size_offset f <> 0 /\
  1 <= tag f < 2 ^ 29 /\ default_ok f /\
  pSize (iter_at fields 0 j) = AtAddr (has_off j) /\
  disjoint_ranges (data_off j) (data_size f) (has_off j) 1 /\
  0 <= data_off j /\ data_off j + data_size f <= size /\ 0 <= has_off j /\ has_off j + 1 <= size.

(** Two fields overlap neither in their data nor in their flags. *)
Definition apart (i j : nat) : Prop :=
  let di := data_size (fields !!! i) in
  let dj := data_size (fields !!! j) in
  disjoint_ranges (data_off i) di (data_off j) dj /\ disjoint_ranges (data_off i) di (has_off j) 1 /\
  disjoint_ranges (has_off i) 1 (data_off j) dj /\ disjoint_ranges (has_off i) 1 (has_off j) 1.

Definition flat_message (size : Z) : Prop :=
  (0 < field_count)%nat /\ Z.of_nat field_count < 2 ^ 63 /\
  Forall (flat_field size) (seq 0 field_count) /\ tag (fields !!! field_count) = 0 /\
  NoDup (tag <$> take field_count fields) /\
  Forall (fun i => Forall (fun j => i = j \/ apart i j) (seq 0 field_count)) (seq 0 field_count).

#[export] Instance flat_message_dec size : Decision (flat_message size).
Proof. unfold flat_message, flat_field, apart. apply _. Defined.

(** ** Messages in memory *)

(** The field at index [j] of the structure at [dest] is absent, or present
    with a value. *)
Definition field_is (m : mem) (dest : Z) (j : nat) (ov : option fvalue) : Prop :=
  match ov with
  | None => load_u 1 m (dest + has_off j) = Some 0
  | Some v => (exists h, load_u 1 m (dest + has_off j) = Some h /\ h <> 0) /\
              static_holds (fields !!! j) m (dest + data_off j) v
  end.
Definition message_is (m : mem) (dest : Z) (vs : list (option fvalue)) : Prop :=
  length vs = field_count /\ forall j ov, vs !! j = Some ov -> field_is m dest j ov.

(** What decoding leaves: an absent field has its default value. *)
Definition field_decoded (m : mem) (dest : Z) (j : nat) (ov : option fvalue) : Prop :=
  field_is m dest j ov /\
  (ov = None -> load_bytes m (dest + data_off j) (Z.to_nat (data_size (fields !!! j)))
                = Some (default_bytes (fields !!! j))).
Definition message_decoded (m : mem) (dest : Z) (vs : list (option fvalue)) : Prop :=
  length vs = field_count /\ forall j ov, vs !! j = Some ov -> field_decoded m dest j ov.

(** ** Messages on the wire *)
Definition field_wire_type (j : nat) : Z :=
  default 0 (wire_type_of (PB_LTYPE (type (fields !!! j)))).

(** The tag and the value of a field. *)
Definition field_bytes (j : nat) (v : fvalue) : list Z :=
  varint_bytes (tag_number (tag (fields !!! j)) (field_wire_type j)) ++ static_wire (fields !!! j) v.

(** The present fields, in the order of the descriptor. *)
Definition message_bytes (vs : list (option fvalue)) : list Z :=
  concat (imap (fun j ov => from_option (field_bytes j) [] ov) vs).
End layout.

(** ** Facts about flat messages *)
Section facts.
Context `{HT : Tables} `{HA : Allocator}.
Context (fields : list pb_field_t) (size : Z) (Hflat : flat_message fields size).
Abbreviation n := (field_count fields).

Lemma flat_terminated : terminated fields (take n fields).
Proof using Hflat.
  destruct Hflat as (Hn & _ & Hall & Hlast & _). unfold field_count in *.
  assert (length fields = S (length fields - 1)) as El by lia.
  set (k := (length fields - 1)%nat) in *. split.
  - exists (fields !!! k). split; [|done].
    destruct (lookup_lt_is_Some_2 fields k ltac:(lia)) as [l E].
    rewrite (list_lookup_total_correct _ _ _ E). rewrite <- (take_drop k fields) at 1. f_equal.
    rewrite (drop_S _ _ _ E). f_equal. apply drop_ge. lia.
  - apply Forall_lookup. intros j f Hj. apply lookup_take_Some in Hj as [E Hj].
    assert (flat_field fields size j) as Hf by (apply (Forall_elem _ _ j Hall), elem_of_seq; lia).
    destruct Hf as (_ & _ & _ & Ht & _). rewrite (list_lookup_total_correct _ _ _ E) in Ht. lia.
Qed.

Lemma flat_length : length (take n fields) = n.
Proof using Hflat. destruct Hflat as (Hn & _). rewrite length_take. unfold field_count in *. lia. Qed.

Lemma flat_at j : (j < n)%nat -> flat_field fields size j.
Proof using Hflat.
  intros Hj. destruct Hflat as (_ & _ & Hall & _). apply (Forall_elem _ _ j Hall), elem_of_seq. lia.
Qed.

Lemma flat_apart i j : (i < n)%nat -> (j < n)%nat -> i <> j -> apart fields i j.
Proof using Hflat.
  intros Hi Hj Hne. destruct Hflat as (_ & _ & _ & _ & _ & Hall).
  pose proof (Forall_elem _ _ i Hall ltac:(apply elem_of_seq; lia)) as Hall'.
  by destruct (Forall_elem _ _ j Hall' ltac:(apply elem_of_seq; lia)).
Qed.

Lemma flat_tag_inj i j : (i < n)%nat -> (j < n)%nat -> tag (fields !!! i) = tag (fields !!! j) -> i = j.
Proof using Hflat.
  intros Hi Hj Ht. pose proof flat_length as Hl. destruct Hflat as (_ & _ & _ & _ & Hnd & _).
  eapply (NoDup_lookup _ i j _ Hnd); rewrite list_lookup_fmap, lookup_take_lt by lia.
  - rewrite (list_lookup_lookup_total_lt fields i) by (unfold field_count in *; lia). done.
  - rewrite (list_lookup_lookup_total_lt fields j) by (unfold field_count in *; lia). cbn. by f_equal.
Qed.

(** The iterator at a field. *)
Lemma flat_cur dest j : (j < n)%nat -> cur (iter_at fields dest j) = Ret (fields !!! j).
Proof using Hflat. intros Hj. apply (cur_at _ _ dest flat_terminated). by rewrite flat_length. Qed.

Lemma flat_data dest j : pData (iter_at fields dest j) = dest + data_off fields j.
Proof. apply (proj1 (iter_at_shift fields dest j)). Qed.

Lemma flat_size dest j : (j < n)%nat -> pSize (iter_at fields dest j) = AtAddr (dest + has_off fields j).
Proof using Hflat.
  intros Hj. rewrite (proj2 (iter_at_shift fields dest j)).
  destruct (flat_at j Hj) as (_ & _ & _ & _ & _ & E & _). by rewrite E.
Qed.

Lemma flat_has_size dest j : (j < n)%nat -> has_size_field (iter_at fields dest j) = true.
Proof using Hflat.
  intros Hj. unfold has_size_field. rewrite (flat_size dest j Hj), flat_data, bool_decide_false; [done|].
  destruct (flat_at j Hj) as (Hc & _ & Hs & _). intros [= E]. unfold has_off in E. lia.
Qed.

Lemma flat_wire_type j : (j < n)%nat ->
  wire_type_of (PB_LTYPE (type (fields !!! j))) = Some (field_wire_type fields j) /\
  0 <= field_wire_type fields j < 8.
Proof using Hflat.
  intros Hj. unfold field_wire_type. destruct (flat_at j Hj) as ((_ & Hc) & _).
  assert (PB_LTYPE (type (fields !!! j)) ∈
    [PB_LTYPE_VARINT; PB_LTYPE_UVARINT; PB_LTYPE_SVARINT; PB_LTYPE_FIXED32; PB_LTYPE_FIXED64;
     PB_LTYPE_BYTES; PB_LTYPE_STRING; PB_LTYPE_FIXED_LENGTH_BYTES]) as Hin by set_solver.
  eapply (Forall_elem (fun t => wire_type_of t = Some (default 0 (wire_type_of t)) /\
                                0 <= default 0 (wire_type_of t) < 8)); [|exact Hin].
  repeat constructor; vm_compute; congruence.
Qed.

Lemma flat_codec j : (j < n)%nat ->
  FieldCodec (fields !!! j) (static_holds (fields !!! j)) (static_wire (fields !!! j)).
Proof using Hflat HT HA. intros Hj. apply static_codec. by destruct (flat_at j Hj). Qed.

Lemma flat_data_size j : (j < n)%nat -> 0 < data_size (fields !!! j).
Proof using Hflat.
  intros Hj. destruct (flat_at j Hj) as ((_ & Hc) & _).
  destruct Hc as [[_ Hc]|[[_ Hc]|[[_ Hc]|[_ Hc]]]]; [set_unfold|..]; lia.
Qed.

Lemma flat_ltype j : (j < n)%nat ->
  PB_LTYPE (type (fields !!! j)) <> PB_LTYPE_EXTENSION /\ PB_LTYPE (type (fields !!! j)) <> PB_LTYPE_SUBMESSAGE.
Proof using Hflat.
  intros Hj. destruct (flat_at j Hj) as ((_ & Hc) & _).
  unfold PB_LTYPE_EXTENSION, PB_LTYPE_SUBMESSAGE, PB_LTYPE_VARINT, PB_LTYPE_UVARINT, PB_LTYPE_SVARINT,
    PB_LTYPE_FIXED32, PB_LTYPE_FIXED64, PB_LTYPE_BYTES, PB_LTYPE_STRING, PB_LTYPE_FIXED_LENGTH_BYTES in *.
  set_unfold. lia.
Qed.

(** ** What other writes leave alone *)

(** A range of the structure that meets no part of field [j]. *)
Definition away (dest a k : Z) (j : nat) : Prop :=
  disjoint_ranges a k (dest + data_off fields j) (data_size (fields !!! j)) /\
  disjoint_ranges a k (dest + has_off fields j) 1.

Lemma field_decoded_updated m m' dest a k j ov :
  (j < n)%nat -> updated a k m m' -> away dest a k j ->
  field_decoded fields m dest j ov -> field_decoded fields m' dest j ov.
Proof using Hflat HT HA.
  intros Hj Hu (Hd & Hh) [Hf Hdef]. pose proof (flat_codec j Hj) as Hc.
  destruct (flat_at j Hj) as (_ & _ & _ & _ & _ & _ & Hdis & _).
  assert (load_u 1 m' (dest + has_off fields j) = load_u 1 m (dest + has_off fields j)) as E
    by (by eapply load_u_updated). split.
  - destruct ov as [v|]; cbn [field_is] in *; rewrite E; [|done]. destruct Hf as [Hhas Hv].
    split; [done|]. by eapply (holds_updated (FieldCodec := Hc)).
  - intros Hn. rewrite <- (Hdef Hn). eapply load_bytes_updated; [exact Hu|].
    pose proof (flat_data_size j Hj). unfold disjoint_ranges in *. lia.
Qed.

Lemma apart_data dest i j : apart fields i j ->
  away dest (dest + data_off fields i) (data_size (fields !!! i)) j.
Proof. unfold apart, away, disjoint_ranges. lia. Qed.

Lemma apart_has dest i j : apart fields i j -> away dest (dest + has_off fields i) 1 j.
Proof. unfold apart, away, disjoint_ranges. lia. Qed.
End facts.

(** ** The encoder on flat messages *)

(** One after the other, each writing its own bytes. *)
Lemma emits_foldr {X} (body : X -> M pb_ostream_t unit) (bytes : X -> list Z) l :
  (forall x, x ∈ l -> emits (body x) tt (bytes x)) ->
  emits (foldr (fun x c => body x;; c) (ret tt) l) tt (concat (bytes <$> l)).
Proof.
  induction l as [|x l IH]; intros Hl; [apply emits_ret|].
  cbn [foldr fmap list_fmap concat]. eapply emits_seq; [apply Hl; left| |done].
  apply IH. intros y Hy. apply Hl. by right.
Qed.

Lemma concat_imap_seq `{Inhabited A} (g : nat -> A -> list Z) (l : list A) :
  concat (imap g l) = concat ((fun j => g j (l !!! j)) <$> seq 0 (length l)).
Proof.
  f_equal. apply list_eq. intros i. rewrite list_lookup_imap, list_lookup_fmap.
  destruct (l !! i) as [x|] eqn:E; cbn.
  - rewrite lookup_seq_lt by (by eapply lookup_lt_Some). cbn.
    by rewrite (list_lookup_total_correct _ _ _ E).
  - apply lookup_ge_None in E. by rewrite lookup_seq_ge.
Qed.

Section encode.
Context `{HT : Tables} `{HE : EncodeCallbacks}.
(** The codecs are stated for both directions; encoding needs no allocator. *)
#[local] Instance no_allocator : Allocator := bump_allocator 0.
Context (fields : list pb_field_t) (size : Z) (Hflat : flat_message fields size).
Context (m : mem) (Hm : mem_ok m) (fuel : nat) (enc : encode_fun).
Abbreviation n := (field_count fields).

Lemma pb_encode_tag_for_field_emits j : (j < n)%nat ->
  emits (pb_encode_tag_for_field (fields !!! j)) tt
    (varint_bytes (tag_number (tag (fields !!! j)) (field_wire_type fields j))).
Proof using Hflat.
  intros Hj. unfold pb_encode_tag_for_field. destruct (flat_wire_type fields size Hflat j Hj) as [-> Hw].
  apply pb_encode_tag_emits; [done|]. destruct (flat_at fields size Hflat j Hj) as (_ & _ & _ & Ht & _). lia.
Qed.

(** A field is written when its flag is set. *)
Lemma encode_field_emits src j ov :
  0 < src -> (j < n)%nat -> field_is fields m src j ov ->
  emits (encode_field m fuel enc (fields !!! j) (src + data_off fields j)) tt
    (from_option (field_bytes fields j) [] ov).
Proof using Hflat Hm.
  intros Hsrc Hj Hf.
  pose proof (flat_codec fields size Hflat j Hj) as Hc.
  destruct (flat_at fields size Hflat j Hj) as ((Hst & _) & Hopt & Hso & _ & _ & _ & _ & Hoff & _).
  destruct (encode_wire (FieldCodec := Hc) m enc) as (func & Ef & Hemit).
  unfold encode_field. rewrite Hst.
  change ((PB_ATYPE_STATIC =? PB_ATYPE_STATIC) || (PB_ATYPE_STATIC =? PB_ATYPE_POINTER)) with true.
  cbv beta iota. unfold encode_basic_field.
  apply (emits_lift _ _ (Some func)); [done|]. rewrite Hopt, Hst, (proj2 (Z.eqb_neq _ 0) Hso).
  change (PB_ATYPE_STATIC =? PB_ATYPE_POINTER) with false.
  change (PB_HTYPE_OPTIONAL =? PB_HTYPE_REQUIRED) with false.
  change (PB_HTYPE_OPTIONAL =? PB_HTYPE_OPTIONAL) with true. cbn [negb].
  eapply (emits_seq _ _ true tt [] _); [apply emits_ret| |done].
  eapply (emits_seq _ _ (_, true) tt [] _); [apply emits_ret| |done]. cbv beta iota zeta.
  rewrite <- Z.add_assoc. change (data_off fields j + size_offset (fields !!! j)) with (has_off fields j).
  destruct ov as [v|]; cbn [field_is from_option] in *.
  - destruct Hf as [(h & Eh & Hne) Hv].
    eapply (emits_seq _ _ true tt [] _); [|eapply emits_seq|reflexivity].
    + apply (emits_lift _ _ h); [by rewrite Eh|]. rewrite (proj2 (Z.eqb_neq h 0) Hne). apply emits_ret.
    + by apply pb_encode_tag_for_field_emits.
    + cbn [call_encoder]. apply Hemit; [done|lia|done].
    + done.
  - eapply (emits_seq _ _ false tt [] []); [|apply emits_ret|done].
    apply (emits_lift _ _ 0); [by rewrite Hf|]. apply emits_ret.
Qed.

Lemma pb_encode_body_emits src vs :
  0 < src -> message_is fields m src vs ->
  emits (pb_encode_body m fuel enc fields src) tt (message_bytes fields vs).
Proof using Hflat Hm.
  intros Hsrc [Hlen Hvs]. pose proof (flat_terminated fields size Hflat) as Ht.
  pose proof (flat_length fields size Hflat) as Hl.
  assert ((0 < n)%nat /\ Z.of_nat n < 2 ^ 63) as [Hn Hn63] by (destruct Hflat as (? & ? & _); done).
  unfold pb_encode_body, message_bytes.
  apply (emits_lift _ _ (true, iter_at fields src 0)).
  { apply (iter_begin_at _ _ src Ht). by rewrite Hl. }
  cbn [negb]. eapply emits_ext.
  { intros s. apply (iter_each_at _ _ src Ht); rewrite ?Hl; done || lia. }
  rewrite (concat_imap_seq (fun j ov => from_option (field_bytes fields j) [] ov)), Hlen, Hl, Nat.sub_0_r. apply emits_foldr. intros j Hj.
  apply elem_of_seq in Hj. assert (j < n)%nat as Hjn by lia.
  apply (emits_lift _ _ (fields !!! j)); [by apply (flat_cur fields size Hflat)|].
  rewrite (proj2 (Z.eqb_neq _ _)) by (by apply (flat_ltype fields size Hflat)).
  rewrite flat_data. apply encode_field_emits; [done|done|]. apply Hvs, list_lookup_lookup_total_lt. lia.
Qed.
End encode.
