(* ===== verification/FlatDecode.v ===== *)
(** * The decoder on flat messages

    A message on the wire is a sequence of items: fields of the descriptor,
    in any order and any number, and unknown fields. *)
From S2P Require Import Prelude WireFormat Memory Descriptor Iter IterFacts OStream IStream Wire Storage Encode DecodeFields Decode Codec StaticCodec FlatEncode.

(** ** Items *)
Inductive item : Type :=
| Known (j : nat) (v : fvalue)
| Unknown (t wt : Z) (payload : list Z).

Section items.
Context (fields : list pb_field_t).
Abbreviation n := (field_count fields).

(** A value the field can have: some object has it. *)
Definition value_ok (j : nat) (v : fvalue) : Prop :=
  exists m p, mem_ok m /\ static_holds (fields !!! j) m p v.

Definition item_ok (it : item) : Prop :=
  match it with
  | Known j v => (j < n)%nat /\ value_ok j v
  | Unknown t wt payload =>
      1 <= t < 2 ^ 29 /\ (forall j, (j < n)%nat -> tag (fields !!! j) <> t) /\ field_value wt payload
  end.

Definition item_bytes (it : item) : list Z :=
  match it with
  | Known j v => field_bytes fields j v
  | Unknown t wt payload => varint_bytes (tag_number t wt) ++ payload
  end.

(** The last value of a field counts; unknown fields do not. *)
Definition receive (vs : list (option fvalue)) (it : item) : list (option fvalue) :=
  match it with
  | Known j v => <[j := Some v]> vs
  | Unknown _ _ _ => vs
  end.
Definition received (items : list item) : list (option fvalue) :=
  foldl receive (replicate n None) items.
Definition items_bytes (items : list item) : list Z := concat (item_bytes <$> items).
End items.

Lemma receive_length vs it : length (receive vs it) = length vs.
Proof. destruct it; [apply length_insert|done]. Qed.

Section decode.
Context `{HT : Tables} `{HA : Allocator} `{HD : DecodeCallbacks}.
Context (fields : list pb_field_t) (size : Z) (Hflat : flat_message fields size).
Context (dest : Z) (fuel : nat).
Abbreviation n := (field_count fields).
Abbreviation at_ := (iter_at fields dest).

(** The ranges of a field lie in the structure. *)
Lemma flat_mapped m j : (j < n)%nat -> mapped m dest size ->
  mapped m (dest + data_off fields j) (data_size (fields !!! j)) /\ mapped m (dest + has_off fields j) 1.
Proof using Hflat.
  intros Hj Hm. destruct (flat_at fields size Hflat j Hj) as (_ & _ & _ & _ & _ & _ & _ & H).
  split; (eapply mapped_sub; [exact Hm|lia..]).
Qed.

Lemma flat_updated_data m m' j : (j < n)%nat ->
  updated (dest + data_off fields j) (data_size (fields !!! j)) m m' -> updated dest size m m'.
Proof using Hflat.
  intros Hj Hu. destruct (flat_at fields size Hflat j Hj) as (_ & _ & _ & _ & _ & _ & _ & H).
  eapply updated_weaken; [exact Hu|lia..].
Qed.

Lemma flat_updated_has m m' j : (j < n)%nat -> updated (dest + has_off fields j) 1 m m' -> updated dest size m m'.
Proof using Hflat.
  intros Hj Hu. destruct (flat_at fields size Hflat j Hj) as (_ & _ & _ & _ & _ & _ & _ & H).
  eapply updated_weaken; [exact Hu|lia..].
Qed.

(** ** Default values *)

Lemma default_bytes_length j : (j < n)%nat ->
  zlength (default_bytes (fields !!! j)) = data_size (fields !!! j).
Proof using Hflat.
  intros Hj. pose proof (flat_data_size fields size Hflat j Hj).
  destruct (flat_at fields size Hflat j Hj) as (_ & _ & _ & _ & Hd & _). unfold default_bytes, default_ok in *.
  destruct (ptr (fields !!! j)); [|done|by apply zlength_ztake; lia].
  unfold zlength. rewrite repeat_length. lia.
Qed.

(** Setting the field at [j] to its default. *)
Lemma field_default_run j m : (j < n)%nat -> mapped m dest size ->
  exists m', pb_field_set_to_default (S fuel) (at_ j) m = Ret (Some tt, m') /\
    updated dest size m m' /\ field_decoded fields m' dest j None /\
    (forall i ov, (i < n)%nat -> i <> j -> field_decoded fields m dest i ov -> field_decoded fields m' dest i ov).
Proof using Hflat HA.
  intros Hj Hmap. destruct (flat_mapped m j Hj Hmap) as [Hmd Hmh].
  pose proof (default_bytes_length j Hj) as Hlen.
  destruct (flat_at fields size Hflat j Hj) as ((Hst & Hcod) & Hopt & _ & _ & Hdef & _ & Hdis & _).
  destruct (store_u_spec 1 m (dest + has_off fields j) 0 Hmh) as (m1 & Es1 & Hu1 & Hl1).
  destruct (store_bytes_spec m1 (dest + data_off fields j) (default_bytes (fields !!! j)))
    as (m2 & Es2 & Hu2 & Hl2); [rewrite Hlen; by eapply updated_mapped|].
  rewrite Hlen in Hu2. exists m2. split_and!.
  - cbn [pb_field_set_to_default]. unfold field_set_to_default.
    rewrite (bind_lift _ _ _ _ (flat_cur fields size Hflat dest j Hj)), Hst, Hopt.
    rewrite (proj2 (Z.eqb_neq (PB_LTYPE _) PB_LTYPE_EXTENSION)), (proj2 (Z.eqb_neq (PB_LTYPE _) PB_LTYPE_SUBMESSAGE)).
    2,3: by apply (flat_ltype fields size Hflat).
    change (PB_ATYPE_STATIC =? PB_ATYPE_STATIC) with true. change (PB_HTYPE_OPTIONAL =? PB_HTYPE_OPTIONAL) with true.
    rewrite (flat_has_size fields size Hflat dest j Hj). cbn [andb]. rewrite bind_assoc.
    rewrite (bind_lift _ _ _ (dest + has_off fields j)) by (by rewrite (flat_size fields size Hflat dest j Hj)).
    rewrite bind_assoc, (bind_some _ _ _ _ _ (mstore_run _ _ _ _ _ Es1)), bind_ret, flat_data.
    unfold default_bytes, default_ok in *. destruct (ptr (fields !!! j)) as [| |bs]; [|done|].
    + unfold mmemset0, memset0. rewrite bind_get. by rewrite Es2.
    + rewrite (proj2 (Z.leb_le _ _) Hdef). by apply mstore_bytes_run.
  - eapply updated_trans; [by eapply flat_updated_has|by eapply flat_updated_data].
  - split; cbn [field_is].
    + rewrite (load_u_updated _ _ _ _ _ _ Hu2); [by rewrite Hl1|]. unfold disjoint_ranges in *. lia.
    + intros _. rewrite <- Hlen. unfold zlength. by rewrite Nat2Z.id.
  - intros i ov Hi Hij Hd. pose proof (flat_apart fields size Hflat j i Hj Hi ltac:(done)) as Ha.
    eapply (field_decoded_updated fields size Hflat); [done|exact Hu2|by apply apart_data|].
    eapply (field_decoded_updated fields size Hflat); [done|exact Hu1|by apply apart_has|done].
Qed.

Lemma set_to_defaults_from k i m : (i + k = n)%nat -> mapped m dest size ->
  (forall j, (j < i)%nat -> field_decoded fields m dest j None) ->
  exists m', foldr (fun j c => pb_field_set_to_default (S fuel) (at_ j);; c) (ret tt) (seq i k) m = Ret (Some tt, m') /\
    updated dest size m m' /\ forall j, (j < n)%nat -> field_decoded fields m' dest j None.
Proof using Hflat HA.
  revert i m. induction k as [|k IH]; intros i m Hik Hmap Hdone.
  - exists m. split_and!; [done|apply updated_refl|]. intros j Hj. apply Hdone. lia.
  - destruct (field_default_run i m ltac:(lia) Hmap) as (m1 & E1 & Hu1 & Hi & Hkeep).
    destruct (IH (S i) m1) as (m2 & E2 & Hu2 & Hall).
    + lia.
    + by eapply updated_mapped.
    + intros j Hj. destruct (decide (j = i)) as [->|]; [done|]. apply Hkeep; [lia|done|]. apply Hdone. lia.
    + exists m2. split_and!; [|by eapply updated_trans|done]. cbn [seq foldr]. by rewrite (bind_some _ _ _ _ _ E1).
Qed.

(** Every field becomes absent, with its default value. *)
Lemma set_to_defaults_run m : mapped m dest size ->
  exists m', pb_message_set_to_defaults (S fuel) fields dest m = Ret (Some tt, m') /\
    updated dest size m m' /\ message_decoded fields m' dest (replicate n None).
Proof using Hflat HA.
  intros Hmap. pose proof (flat_terminated fields size Hflat) as Ht.
  pose proof (flat_length fields size Hflat) as Hl.
  assert ((0 < n)%nat /\ Z.of_nat n < 2 ^ 63) as [Hn Hn63] by (destruct Hflat as (? & ? & _); done).
  destruct (set_to_defaults_from n 0 m ltac:(lia) Hmap ltac:(lia)) as (m' & E & Hu & Hall).
  exists m'. split_and!; [|done|].
  - unfold pb_message_set_to_defaults, each_field.
    rewrite (bind_lift _ _ _ _ (iter_begin_at _ _ dest Ht ltac:(by rewrite Hl))). cbn [negb].
    rewrite (iter_each_at _ _ dest Ht) by (rewrite Hl; done). by rewrite Hl, Nat.sub_0_r.
  - split; [apply length_replicate|]. intros j ov Hj. apply lookup_replicate in Hj as [-> Hj]. by apply Hall.
Qed.

(** ** One item *)

(** The local variables while a flat message is decoded. *)
Definition flat_locals (l : locals) : Prop :=
  fixed_count_field l = None /\ exists i, (i < n)%nat /\ iter l = at_ i.

Context (decode decode_noinit : decode_fun).

Lemma decode_static_field_decodes j v m wt :
  (j < n)%nat -> value_ok fields j v -> mapped m dest size ->
  exists m', decodes_at (decode_static_field fuel decode decode_noinit wt (at_ j)) (static_wire (fields !!! j) v) m m' tt /\
    updated dest size m m' /\ field_decoded fields m' dest j (Some v) /\
    (forall i ov, (i < n)%nat -> i <> j -> field_decoded fields m dest i ov -> field_decoded fields m' dest i ov).
Proof using Hflat.
  intros Hj (m0 & p0 & Hm0 & H0) Hmap. destruct (flat_mapped m j Hj Hmap) as [Hmd Hmh].
  destruct (flat_at fields size Hflat j Hj) as ((Hst & _) & Hopt & _ & _ & _ & _ & Hdis & _).
  destruct (decode_wire (FieldCodec := flat_codec fields size Hflat j Hj) decode decode_noinit)
    as (func & Ef & Hdec).
  destruct (store_u_spec 1 m (dest + has_off fields j) 1 Hmh) as (m1 & Es1 & Hu1 & Hl1).
  destruct (Hdec m0 p0 m1 (dest + data_off fields j) v Hm0 H0) as (m2 & Hu2 & Hh2 & Hd2);
    [by eapply updated_mapped|].
  exists m2. split_and!.
  - intros rest k e fc Hk. unfold decode_static_field.
    rewrite (bind_lift _ _ _ _ (flat_cur fields size Hflat dest j Hj)), (bind_lift _ _ _ _ Ef), Hopt.
    change (PB_HTYPE_OPTIONAL =? PB_HTYPE_REQUIRED) with false. change (PB_HTYPE_OPTIONAL =? PB_HTYPE_OPTIONAL) with true.
    cbv iota zeta. rewrite (flat_has_size fields size Hflat dest j Hj), bind_assoc.
    rewrite (bind_lift _ _ _ (dest + has_off fields j)) by (by rewrite (flat_size fields size Hflat dest j Hj)).
    rewrite flat_data. revert rest k e fc Hk. eapply decodes_at_memory; [by apply mstore_run|exact Hd2].
  - eapply updated_trans; [by eapply (flat_updated_has _ _ j Hj)|by eapply (flat_updated_data _ _ j Hj)].
  - split; [|done]. split; [|done]. exists 1. split; [|done].
    rewrite (load_u_updated _ _ _ _ _ _ Hu2); [by rewrite Hl1|]. unfold disjoint_ranges in *. lia.
  - intros i ov Hi Hij Hd. pose proof (flat_apart fields size Hflat j i Hj Hi ltac:(done)) as Ha.
    eapply (field_decoded_updated fields size Hflat); [done|exact Hu2|by apply apart_data|].
    eapply (field_decoded_updated fields size Hflat); [done|exact Hu1|by apply apart_has|done].
Qed.

(** The locals after a field: only [fields_seen] and the iterator change. *)
Lemma decode_known_decodes j v m wt l vs :
  (j < n)%nat -> value_ok fields j v -> iter l = at_ j -> fixed_count_field l = None -> mapped m dest size ->
  message_decoded fields m dest vs ->
  exists l' m', decodes_at (decode_known_field fuel decode decode_noinit wt l) (static_wire (fields !!! j) v) m m' l' /\
    flat_locals l' /\ updated dest size m m' /\ message_decoded fields m' dest (<[j := Some v]> vs).
Proof using Hflat.
  intros Hj Hv Hit Hfc Hmap [Hlen Hvs].
  destruct (flat_at fields size Hflat j Hj) as ((Hst & _) & Hopt & _).
  destruct (decode_static_field_decodes j v m wt Hj Hv Hmap) as (m' & Hd & Hu & Hjd & Hkeep).
  eexists (Locals _ _ _ _), m'.
  split; [|split; [split|split; [exact Hu|split; [by rewrite length_insert|]]]].
  - rewrite <- (app_nil_r (static_wire _ _)).
    unfold decode_known_field. intros rest k e fc Hk. rewrite Hit.
    rewrite (bind_lift _ _ _ _ (flat_cur fields size Hflat dest j Hj)), Hopt.
    change (PB_HTYPE_OPTIONAL =? PB_HTYPE_REPEATED) with false. change (PB_HTYPE_OPTIONAL =? PB_HTYPE_REQUIRED) with false.
    cbv beta iota zeta. cbn [andb]. rewrite bind_ret, Hit. revert rest k e fc Hk.
    eapply decodes_at_bind; [|apply decodes_at_ret].
    intros rest k e fc Hk. unfold decode_field.
    rewrite (bind_lift _ _ _ _ (flat_cur fields size Hflat dest j Hj)), Hopt.
    change (PB_HTYPE_OPTIONAL =? PB_HTYPE_ONEOF) with false. cbv iota. rewrite bind_ret.
    rewrite (bind_lift _ _ _ _ (flat_cur fields size Hflat dest j Hj)), Hst.
    change (PB_ATYPE_STATIC =? PB_ATYPE_STATIC) with true. cbv iota zeta. revert rest k e fc Hk.
    rewrite <- (app_nil_r (static_wire _ _)). eapply decodes_at_bind; [exact Hd|apply decodes_at_ret].
  - done.
  - by exists j.
  - intros i ov Hi. assert (i < n)%nat as Hin.
    { rewrite <- Hlen, <- (length_insert vs j (Some v)). by eapply lookup_lt_Some. }
    apply list_lookup_insert_Some in Hi as [(-> & <- & _)|(Hne & Hi)]; [done|].
    apply Hkeep; [done|done|]. by apply Hvs.
Qed.

(** There is no extension field. *)
Lemma flat_find_extension i : (i < n)%nat -> find_extension_field (at_ i) = Ret (false, at_ i).
Proof using Hflat.
  intros Hi. pose proof (flat_terminated fields size Hflat) as Hterm.
  pose proof (flat_length fields size Hflat) as Hl.
  assert (Z.of_nat n < 2 ^ 63) as Hn63 by (destruct Hflat as (? & ? & _); done).
  unfold find_extension_field.
  destruct (iter_search_at _ _ dest Hterm (fun f => PB_LTYPE (type f) =? PB_LTYPE_EXTENSION) i
    ltac:(by rewrite Hl) ltac:(by rewrite Hl)) as [(j & Hj & Hp & _)|[_ ->]]; [exfalso|done].
  rewrite Hl in Hj. apply Z.eqb_eq in Hp. destruct (flat_ltype fields size Hflat j Hj) as [Hne _]. by apply Hne.
Qed.

(** A field that is not in the descriptor is skipped. *)
Lemma decode_unknown_decodes t wt payload m l :
  t < 2 ^ 29 -> field_value wt payload -> flat_locals l ->
  exists l', decodes_at (decode_unknown_field fuel decode decode_noinit t wt l) payload m m l' /\ flat_locals l'.
Proof using Hflat.
  intros Ht Hv (Hfc & i & Hi & Hit).
  assert (forall l : locals, decodes_at (on_stream (pb_skip_field wt);; ret l) payload m m l) as Hskip.
  { intros l'. eapply decodes_at_stream; [by apply pb_skip_field_decodes|apply decodes_at_ret]. }
  unfold decode_unknown_field. destruct (t <? extension_range_start l).
  { exists l. split; [apply Hskip|]. split; [done|]. by exists i. }
  eexists (Locals _ _ _ _). split.
  - intros rest k e fc Hk. rewrite Hit, (bind_lift _ _ _ _ (flat_find_extension i Hi)).
    rewrite (bind_lift _ _ _ _ (flat_cur fields size Hflat dest i Hi)). cbv beta iota zeta.
    change (u32 (-1)) with (2 ^ 32 - 1). rewrite (proj2 (Z.ltb_lt _ _)) by lia. by apply Hskip.
  - split; [done|]. by exists i.
Qed.

(** The search for the tag of an item. *)
Lemma find_item i t : (i < n)%nat ->
  (exists j, (j < n)%nat /\ tag (fields !!! j) = t /\ pb_field_iter_find (at_ i) t = Ret (true, at_ j)) \/
  ((forall j, (j < n)%nat -> tag (fields !!! j) <> t) /\ pb_field_iter_find (at_ i) t = Ret (false, at_ i)).
Proof using Hflat.
  intros Hi. pose proof (flat_terminated fields size Hflat) as Hterm.
  pose proof (flat_length fields size Hflat) as Hl.
  assert (Z.of_nat n < 2 ^ 63) as Hn63 by (destruct Hflat as (? & ? & _); done).
  destruct (iter_search_at _ _ dest Hterm
    (fun f => (tag f =? t) && negb (PB_LTYPE (type f) =? PB_LTYPE_EXTENSION)) i
    ltac:(by rewrite Hl) ltac:(by rewrite Hl)) as [(j & Hj & Hp & E)|[Hnone E]]; rewrite Hl in *.
  - left. exists j. split_and!; [done| |done]. apply andb_true_iff in Hp as [Hp _]. by apply Z.eqb_eq.
  - right. split; [|done]. intros j Hj Ht. specialize (Hnone j Hj). rewrite (proj2 (Z.eqb_eq _ _) Ht) in Hnone.
    destruct (flat_ltype fields size Hflat j Hj) as [Hne _]. by rewrite (proj2 (Z.eqb_neq _ _) Hne) in Hnone.
Qed.

Lemma item_decodes it m l vs :
  item_ok fields it -> flat_locals l -> mapped m dest size -> message_decoded fields m dest vs ->
  exists l' m', decodes_at (noinit_loop_body fuel decode decode_noinit l) (item_bytes fields it) m m' (inl l') /\
    flat_locals l' /\ updated dest size m m' /\ message_decoded fields m' dest (receive vs it).
Proof using Hflat.
  intros Hit Hl Hmap Hvs. pose proof Hl as (Hfc & i & Hi & Hiter).
  (* The tag has been read: what is left of the body. *)
  assert (forall wt t payload m' l' l1 found it', 0 <= wt < 8 -> 1 <= t < 2 ^ 29 ->
    pb_field_iter_find (at_ i) t = Ret (found, it') -> l1 = set_iter it' l ->
    decodes_at (if negb found then decode_unknown_field fuel decode decode_noinit t wt l1
                else decode_known_field fuel decode decode_noinit wt l1) payload m m' l' ->
    decodes_at (noinit_loop_body fuel decode decode_noinit l) (varint_bytes (tag_number t wt) ++ payload) m m' (inl l')) as Hbody.
  { intros wt t payload m' l' l1 found it' Hwt Ht Ef -> Hd rest k e fc Hk. unfold noinit_loop_body.
    pose proof (zlength_varint_bytes_pos (tag_number t wt)) as Hlen. rewrite zlength_app in Hk. pose proof (zlength_nonneg payload).
    erewrite bind_some by reflexivity. cbn [stream bytes_left]. rewrite (proj2 (Z.eqb_neq k 0)) by lia.
    rewrite <- zlength_app in Hk. revert rest k e fc Hk.
    eapply decodes_at_bind.
    - apply decodes_at_last. eapply decodes_at_stream; [by apply pb_decode_tag_decodes|apply decodes_at_ret].
    - intros rest k e fc Hk. cbn [tr_ok tr_tag tr_wire_type negb]. rewrite Hiter, (bind_lift _ _ _ _ Ef). cbv zeta.
      revert rest k e fc Hk. rewrite <- (app_nil_r payload). eapply decodes_at_bind; [exact Hd|apply decodes_at_ret]. }
  destruct it as [j v|t wt payload]; cbn [item_ok item_bytes receive] in *.
  - destruct Hit as [Hj Hv]. destruct (flat_wire_type fields size Hflat j Hj) as [_ Hwt].
    destruct (flat_at fields size Hflat j Hj) as (_ & _ & _ & Ht & _).
    destruct (find_item i (tag (fields !!! j)) Hi) as [(j' & Hj' & Htag & Ef)|[Hnone _]]; [|by destruct (Hnone j Hj)].
    apply (flat_tag_inj fields size Hflat) in Htag as ->; [|done..].
    destruct (decode_known_decodes j v m (field_wire_type fields j) (set_iter (at_ j) l) vs Hj Hv)
      as (l' & m' & Hd & Hl' & Hu & Hdec); [done..|].
    exists l', m'. split; [|done]. eapply Hbody; [done|lia|exact Ef|done|exact Hd].
  - destruct Hit as (Ht & Hnot & Hv).
    destruct (find_item i t Hi) as [(j & Hj & Htag & _)|[_ Ef]]; [by destruct (Hnot j Hj)|].
    destruct (decode_unknown_decodes t wt payload m (set_iter (at_ i) l)) as (l' & Hd & Hl'); [lia|done|by split; [|exists i]|].
    exists l', m. split; [|split; [done|split; [apply updated_refl|done]]]. eapply Hbody; [|lia|exact Ef|done|exact Hd].
    by destruct Hv.
Qed.

(** ** The whole message *)
Lemma items_loop items l m vs rest e fc :
  Forall (item_ok fields) items -> flat_locals l -> mapped m dest size -> message_decoded fields m dest vs ->
  zlength (items_bytes fields items) < 2 ^ 64 ->
  exists l' m',
    loop_nat (S (length items)) (while_body (noinit_loop_body fuel decode decode_noinit))
      (l, DState (IStream ICBufRead (items_bytes fields items ++ rest) (zlength (items_bytes fields items)) e) m fc) =
    Ret (inr (Some l', DState (IStream ICBufRead rest 0 e) m' fc)) /\
    flat_locals l' /\ updated dest size m m' /\ message_decoded fields m' dest (foldl receive vs items).
Proof using Hflat.
  intros Hok. revert l m vs. induction Hok as [|it items Hit _ IH]; intros l m vs Hl Hmap Hvs Hlen.
  - exists l, m. split; [reflexivity|]. split; [done|]. split; [apply updated_refl|done].
  - destruct (item_decodes it m l vs Hit Hl Hmap Hvs) as (l1 & m1 & Hd & Hl1 & Hu1 & Hvs1).
    unfold items_bytes in *. cbn [fmap list_fmap concat] in *. rewrite zlength_app in *.
    pose proof (zlength_nonneg (item_bytes fields it)).
    pose proof (zlength_nonneg (concat (item_bytes fields <$> items))).
    destruct (IH l1 m1 (receive vs it) Hl1) as (l2 & m2 & E & Hl2 & Hu2 & Hvs2);
      [by eapply updated_mapped|done|lia|].
    exists l2, m2. split; [|split; [done|split; [by eapply updated_trans|done]]].
    rewrite <- E. cbn [length loop_nat]. unfold while_body at 1. cbn [fst snd].
    rewrite <- app_assoc, Hd by lia. by rewrite Z.add_simpl_l.
Qed.

(** Every item has a byte, so the loop ends in time. *)
Lemma items_length items :
  Forall (item_ok fields) items -> Z.of_nat (length items) <= zlength (items_bytes fields items).
Proof.
  induction 1 as [|it items _ _ IH]; [done|]. unfold items_bytes in *. cbn [fmap list_fmap concat length].
  rewrite zlength_app. assert (1 <= zlength (item_bytes fields it)); [|lia].
  assert (forall a (b : list Z), 1 <= zlength (varint_bytes a ++ b)) as Hpos.
  { intros a b. rewrite zlength_app. pose proof (zlength_varint_bytes_pos a). pose proof (zlength_nonneg b). lia. }
  destruct it; apply Hpos.
Qed.

Lemma flat_required_index j : (j < n)%nat -> required_field_index (at_ j) = 0.
Proof using Hflat.
  induction j as [|j IH]; intros Hj; [done|]. cbn [iter_at]. unfold iter_step.
  destruct (flat_at fields size Hflat j ltac:(lia)) as (_ & Hopt & _).
  destruct (same_union _ _); cbn [required_field_index]; [apply IH; lia|].
  rewrite Hopt. change (PB_HTYPE_OPTIONAL =? PB_HTYPE_REQUIRED) with false. cbv iota. apply IH. lia.
Qed.

(** No field is required. *)
Lemma flat_count_required i : (i < n)%nat -> count_required (at_ i) = Ret 0.
Proof using Hflat.
  intros Hi. pose proof (flat_terminated fields size Hflat) as Hterm.
  pose proof (flat_length fields size Hflat) as Hl.
  assert (Z.of_nat n < 2 ^ 63) as Hn63 by (destruct Hflat as (? & ? & _); done).
  unfold count_required. match goal with |- res_bind ?w _ = _ =>
    assert (exists t, PB_HTYPE t = PB_HTYPE_OPTIONAL /\ w = Ret (0, t, at_ 0)) as (t & Ht & ->) end.
  - apply (while_ind _ (fun it => exists j, (j < n)%nat /\ it = at_ j) (fun it => Z.of_nat n - Z.of_nat (pos it))
      (fun r => exists t, PB_HTYPE t = PB_HTYPE_OPTIONAL /\ r = Ret (0, t, at_ 0))).
    + intros it (j & Hj & ->). rewrite (flat_cur fields size Hflat dest j Hj). cbn [res_bind].
      rewrite (iter_next_at _ _ dest Hterm) by (by rewrite Hl). rewrite Hl.
      destruct (Nat.ltb_spec (S j) n); cbn [res_bind fst snd].
      * split; [eauto|]. rewrite !iter_at_pos. lia.
      * rewrite flat_required_index by done. eexists. split; [|reflexivity].
        by destruct (flat_at fields size Hflat j Hj) as (_ & Hopt & _).
    + eauto.
    + rewrite iter_at_pos. lia.
  - cbn [res_bind]. rewrite (flat_cur fields size Hflat dest 0) by lia. cbn [res_bind]. rewrite Ht. reflexivity.
Qed.

Lemma noinit_body_items items m vs rest e fc :
  Forall (item_ok fields) items -> mapped m dest size -> message_decoded fields m dest vs ->
  zlength (items_bytes fields items) < 2 ^ 64 ->
  exists m',
    decode_noinit_body fuel decode decode_noinit fields dest
      (DState (IStream ICBufRead (items_bytes fields items ++ rest) (zlength (items_bytes fields items)) e) m fc) =
    Ret (Some tt, DState (IStream ICBufRead rest 0 e) m' fc) /\
    updated dest size m m' /\ message_decoded fields m' dest (foldl receive vs items).
Proof using Hflat.
  intros Hok Hmap Hvs Hlen. pose proof (flat_terminated fields size Hflat) as Hterm.
  pose proof (flat_length fields size Hflat) as Hl.
  assert (0 < n)%nat as Hn by (destruct Hflat as (? & _); done).
  assert (flat_locals (Locals [0; 0] 0 (at_ 0) None)) as Hl0 by (split; [done|by exists 0%nat]).
  destruct (items_loop items _ m vs rest e 0 Hok Hl0 Hmap Hvs Hlen) as (l' & m' & E & (Hfc & i & Hi & Hit) & Hu & Hdec).
  exists m'. split; [|done]. unfold decode_noinit_body. erewrite bind_some by reflexivity.
  erewrite bind_some by reflexivity. cbn [stream memory fixed_count_size].
  rewrite (bind_attempt _ _ _ (Some tt) (DState (IStream ICBufRead rest 0 e) m' 0)); [reflexivity|].
  rewrite (bind_lift _ _ _ _ (iter_begin_at _ _ dest Hterm ltac:(by rewrite Hl))).
  erewrite bind_some.
  2: { unfold whileM. eapply while_loop_nat; [rewrite E; reflexivity|].
       pose proof (items_length items Hok). lia. }
  erewrite bind_some; [|unfold check_fixed_count; rewrite Hfc; reflexivity].
  unfold check_required. rewrite (bind_lift _ _ _ 0) by (by rewrite Hit, flat_count_required). reflexivity.
Qed.
End decode.
