(* ===== verification/FlatRoundtrip.v ===== *)
(** * Flat messages survive the wire *)
From S2P Require Import Prelude WireFormat Memory Descriptor Iter IterFacts OStream IStream Wire Storage Encode DecodeFields Decode Codec StaticCodec FlatEncode FlatDecode.

(** The items of an encoded message: its present fields. *)
Definition present (vs : list (option fvalue)) : list item :=
  concat (imap (fun j ov => from_option (fun v => [Known j v]) [] ov) vs).

Lemma items_bytes_present_from fields (g : nat -> nat) vs :
  items_bytes fields (concat (imap (fun j ov => from_option (fun v => [Known (g j) v]) [] ov) vs)) =
  concat (imap (fun j ov => from_option (field_bytes fields (g j)) [] ov) vs).
Proof.
  revert g. induction vs as [|[v|] vs IH]; intros g; [done|..]; cbn [imap concat from_option app].
  - unfold items_bytes in *. cbn [fmap list_fmap concat]. f_equal. apply (IH (g ∘ S)).
  - apply (IH (g ∘ S)).
Qed.

Lemma items_bytes_present fields vs : items_bytes fields (present vs) = message_bytes fields vs.
Proof. exact (items_bytes_present_from fields id vs). Qed.

Lemma received_present_from pre vs (g : nat -> nat) :
  (forall j, g j = length pre + j)%nat ->
  foldl receive (pre ++ replicate (length vs) None)
    (concat (imap (fun j ov => from_option (fun v => [Known (g j) v]) [] ov) vs)) = pre ++ vs.
Proof.
  revert pre g. induction vs as [|ov vs IH]; intros pre g Hg; [done|].
  assert (forall o : option fvalue,
    foldl receive (pre ++ o :: replicate (length vs) None)
      (concat (imap (fun j ov => from_option (fun v => [Known (g (S j)) v]) [] ov) vs)) = pre ++ o :: vs) as Hrest.
  { intros o. change (o :: replicate (length vs) None) with ([o] ++ replicate (length vs) None).
    change (o :: vs) with ([o] ++ vs). rewrite !app_assoc. apply (IH (pre ++ [o]) (g ∘ S)).
    intros j. cbn. rewrite Hg, length_app. cbn. lia. }
  cbn [imap concat length replicate]. destruct ov as [v|]; cbn [from_option app foldl]; [|apply Hrest].
  cbn [receive]. rewrite Hg, Nat.add_0_r, insert_app_r_alt, Nat.sub_diag by lia. apply Hrest.
Qed.

Lemma received_present fields vs : length vs = field_count fields -> received fields (present vs) = vs.
Proof. intros Hl. unfold received. rewrite <- Hl. exact (received_present_from [] vs id (fun j => eq_refl)). Qed.

Lemma present_ok fields m src vs :
  mem_ok m -> message_is fields m src vs -> Forall (item_ok fields) (present vs).
Proof.
  intros Hm [Hlen Hvs]. unfold present. apply Forall_concat, Forall_lookup. intros i l Hi.
  rewrite list_lookup_imap in Hi. destruct (vs !! i) as [[v|]|] eqn:E; cbn in Hi; [| |done].
  - injection Hi as <-. constructor; [|constructor]. split.
    + rewrite <- Hlen. by eapply lookup_lt_Some.
    + specialize (Hvs i _ E) as [_ Hv]. by exists m, (src + data_off fields i).
  - injection Hi as <-. constructor.
Qed.

Section roundtrip.
Context `{HT : Tables} `{HA : Allocator} `{HE : EncodeCallbacks} `{HD : DecodeCallbacks}.

Lemma pb_decode_items_run fields size fuel items m dest rest e fc :
  flat_message fields size -> mapped m dest size -> Forall (item_ok fields) items ->
  zlength (items_bytes fields items) < 2 ^ 64 ->
  exists m',
    pb_decode (S fuel) fields dest
      (DState (IStream ICBufRead (items_bytes fields items ++ rest) (zlength (items_bytes fields items)) e) m fc) =
    Ret (Some tt, DState (IStream ICBufRead rest 0 e) m' fc) /\
    updated dest size m m' /\ message_decoded fields m' dest (received fields items).
Proof.
  intros Hflat Hmap Hok Hlen. unfold pb_decode, pb_decode_with.
  destruct (set_to_defaults_run fields size Hflat dest fuel m Hmap) as (m1 & E1 & Hu1 & Hd1).
  destruct (noinit_body_items fields size Hflat dest fuel (pb_decode_with fuel (pb_decode_noinit fuel))
    (pb_decode_noinit fuel) items m1 _ rest e fc Hok ltac:(by eapply updated_mapped) Hd1 Hlen)
    as (m2 & E2 & Hu2 & Hd2).
  exists m2. split; [|split; [by eapply updated_trans|done]].
  erewrite bind_some by (unfold on_memory; cbn [stream memory fixed_count_size]; by rewrite E1).
  by erewrite bind_attempt by exact E2.
Qed.

(** C3: Decoding a flat message, one whose descriptor has only optional, static
    fields of scalar, bytes or string type, each with its own [has_] flag
    ([flat_message]; of the generated messages, NetworkConnectionInfo and
    QosTierConfiguration).  On any sequence of items, the fields of such a
    descriptor in any order and number, mixed with unknown fields, [pb_decode]
    returns true, consumes the items, changes nothing outside the structure,
    and leaves for every field the last value received, or absence and the
    default value. *)
Theorem pb_decode_items fields size fuel items m dest rest fc :
  flat_message fields size -> mapped m dest size -> Forall (item_ok fields) items ->
  zlength (items_bytes fields items) < 2 ^ 64 ->
  exists m',
    pb_decode (S fuel) fields dest
      (DState (pb_istream_from_buffer (items_bytes fields items ++ rest) (zlength (items_bytes fields items))) m fc) =
    Ret (Some tt, DState (IStream ICBufRead rest 0 None) m' fc) /\
    updated dest size m m' /\ message_decoded fields m' dest (received fields items).
Proof. apply pb_decode_items_run. Qed.

(** C1: The round trip of flat messages, those whose descriptor has only optional,
    static fields of scalar, bytes or string type, each with its own [has_]
    flag ([flat_message]; of the generated messages, NetworkConnectionInfo and
    QosTierConfiguration): [pb_encode] of a structure that represents a flat
    message writes the bytes of the message into every stream with room for
    them, without undefined behaviour, and returns false on a shorter buffer;
    [pb_decode] of these bytes into any mapped structure of the type gives the
    same message and changes nothing else. *)
Theorem message_roundtrip fields size fuel m src vs :
  flat_message fields size -> mem_ok m -> 0 < src -> message_is fields m src vs ->
  zlength (message_bytes fields vs) < 2 ^ 63 ->
  emits (pb_encode m (S fuel) fields src) tt (message_bytes fields vs) /\
  forall m0 dest rest fc, mapped m0 dest size ->
    exists m',
      pb_decode (S fuel) fields dest
        (DState (pb_istream_from_buffer (message_bytes fields vs ++ rest) (zlength (message_bytes fields vs))) m0 fc) =
      Ret (Some tt, DState (IStream ICBufRead rest 0 None) m' fc) /\
      updated dest size m0 m' /\ message_decoded fields m' dest vs.
Proof.
  intros Hflat Hm Hsrc Hvs Hlen. split.
  - cbn [pb_encode]. by eapply pb_encode_body_emits.
  - intros m0 dest rest fc Hmap. rewrite <- items_bytes_present in *.
    destruct (pb_decode_items_run fields size fuel (present vs) m0 dest rest None fc Hflat Hmap)
      as (m' & E & Hu & Hd); [by eapply present_ok|lia|].
    rewrite (received_present fields vs) in Hd by (by destruct Hvs). by exists m'.
Qed.
End roundtrip.
