(* ===== verification/FlatSafety.v ===== *)
(** * Decoding hostile input *)
From S2P Require Import Prelude WireFormat Memory Descriptor Iter OStream Encode IStream Storage DecodeFields Decode Wire IterFacts Codec StaticCodec FlatEncode FlatDecode.

(** ** Decoding hostile input: streams and memory

    [safe a n c]: on any input whatsoever, [c] returns, reads only the bytes
    its stream allows and writes only the [n] bytes from [a] on. *)

Definition safe {A} (a n : Z) (c : M dstate A) (P : Z -> A -> Prop) : Prop :=
  forall s m fc, istream_ok s -> mapped m a n ->
    exists o s' m' fc' k, c (DState s m fc) = Ret (o, DState s' m' fc') /\ consumed k s s' /\
      updated a n m m' /\ forall x, o = Some x -> P k x.

Abbreviation anything := (fun _ _ => True).

Section rules.
Context {A B : Type} (a n : Z).
Implicit Types (c : M dstate A) (k : A -> M dstate B).

Lemma istream_left s : istream_ok s -> 0 <= bytes_left s.
Proof. intros (_ & _ & ? & _). lia. Qed.

Lemma safe_ret (x : A) (P : Z -> A -> Prop) : P 0 x -> safe a n (ret x) P.
Proof.
  intros HP s m fc Hs _. exists (Some x), s, m, fc, 0.
  split_and!; [done|apply consumed_refl; by apply istream_left|..]; try done. by intros ? [= <-].
Qed.

Lemma safe_false (P : Z -> A -> Prop) : safe a n return_false P.
Proof.
  intros s m fc Hs _. exists None, s, m, fc, 0.
  split_and!; [done|apply consumed_refl; by apply istream_left|..]; done.
Qed.

Lemma safe_error msg (P : Z -> A -> Prop) : safe a n (pb_return_error msg) P.
Proof.
  intros s m fc Hs _. eexists None, _, m, fc, 0.
  split_and!; [reflexivity|by apply consumed_error, consumed_refl, istream_left|..]; done.
Qed.

Lemma safe_bind_pos c k P Q :
  safe a n c P -> (forall j x, 0 <= j -> P j x -> safe a n (k x) (fun i y => Q (j + i) y)) -> safe a n (bind c k) Q.
Proof.
  intros Hc Hk s m fc Hs Hm. destruct (Hc s m fc Hs Hm) as ([x|] & s1 & m1 & fc1 & j & E & Hj & Hu & HP).
  - destruct (Hk j x (proj1 (proj1 Hj)) (HP x eq_refl) s1 m1 fc1 (consumed_ok _ _ _ Hs Hj) (updated_mapped _ _ _ _ _ _ Hu Hm))
      as (o & s2 & m2 & fc2 & i & E2 & Hi & Hu2 & HQ).
    exists o, s2, m2, fc2, (j + i). split; [by rewrite (bind_some _ _ _ _ _ E)|].
    split; [by eapply consumed_trans|]. split; [by eapply updated_trans|done].
  - exists None, s1, m1, fc1, j. split; [by apply bind_false|done].
Qed.

Lemma safe_bind c k P Q :
  safe a n c P -> (forall j x, P j x -> safe a n (k x) (fun i y => Q (j + i) y)) -> safe a n (bind c k) Q.
Proof. intros Hc Hk. by eapply safe_bind_pos; [exact Hc|auto]. Qed.

Lemma safe_bind_error msg k Q : safe a n (bind (pb_return_error msg) k) Q.
Proof. eapply (safe_bind _ _ (fun _ _ => False)); [apply safe_error|done]. Qed.

Lemma safe_weaken c P Q : safe a n c P -> (forall j x, P j x -> Q j x) -> safe a n c Q.
Proof.
  intros Hc HPQ s m fc Hs Hm. destruct (Hc s m fc Hs Hm) as (o & s1 & m1 & fc1 & j & E & Hj & Hu & HP).
  exists o, s1, m1, fc1, j. split_and!; try done; try apply Hu. auto.
Qed.

Lemma safe_range b r c P : safe b r c P -> a <= b -> b + r <= a + n -> safe a n c P.
Proof.
  intros Hc Hb Hr s m fc Hs Hm.
  destruct (Hc s m fc Hs (mapped_sub _ _ _ _ _ Hm Hb Hr)) as (o & s1 & m1 & fc1 & j & E & Hj & Hu & HP).
  exists o, s1, m1, fc1, j. split; [done|]. split; [done|]. split; [by eapply updated_weaken|done].
Qed.

Lemma safe_stream (c : M pb_istream_t A) P : reads c P -> safe a n (on_stream c) P.
Proof.
  intros Hc s m fc Hs _. destruct (Hc s Hs) as (o & s' & k & E & Hk & HP).
  exists o, s', m, fc, k. unfold on_stream. cbn [stream memory fixed_count_size]. rewrite E.
  split; [done|]. split; [done|]. split; [apply updated_refl|done].
Qed.

Lemma safe_lift (r : res A) x (P : Z -> A -> Prop) : r = Ret x -> P 0 x -> safe a n (lift_res r) P.
Proof. intros -> HP. exact (safe_ret x P HP). Qed.

Lemma safe_if (b : bool) (c1 c2 : M dstate A) P : safe a n c1 P -> safe a n c2 P -> safe a n (if b then c1 else c2) P.
Proof. by destruct b. Qed.

Lemma safe_attempt c P : safe a n c P -> safe a n (attempt c) (fun j o => forall x, o = Some x -> P j x).
Proof.
  intros Hc s m fc Hs Hm. destruct (Hc s m fc Hs Hm) as (o & s1 & m1 & fc1 & j & E & Hj & Hu & HP).
  exists (Some o), s1, m1, fc1, j. unfold attempt. rewrite E. split; [done|]. split; [done|].
  split; [done|]. by intros ? [= <-].
Qed.

Lemma safe_memory (c : M mem A) x (P : Z -> A -> Prop) :
  (forall m, mapped m a n -> exists m', c m = Ret (Some x, m') /\ updated a n m m') -> P 0 x ->
  safe a n (on_memory c) P.
Proof.
  intros Hc HP s m fc Hs Hm. destruct (Hc m Hm) as (m' & E & Hu).
  exists (Some x), s, m', fc, 0. unfold on_memory. cbn [stream memory fixed_count_size]. rewrite E.
  split; [done|]. split; [apply consumed_refl; by apply istream_left|]. split; [done|]. by intros ? [= <-].
Qed.
End rules.

(** A loop that consumes input in every iteration. *)
Lemma safe_whileM {X A} a n (body : X -> M dstate (X + A)) (I : X -> Prop) P x :
  (forall x, I x -> safe a n (body x) (fun k r => match r with inl x' => 1 <= k /\ I x' | inr y => P y end)) ->
  I x -> safe a n (whileM body x) (fun _ y => P y).
Proof.
  intros Hbody HI s m fc Hs Hm.
  apply (whileM_ind body
    (fun x d => exists j, consumed j s (stream d) /\ updated a n m (memory d) /\ I x)
    (fun _ d => bytes_left (stream d))
    (fun r => exists o s' m' fc' k, r = Ret (o, DState s' m' fc') /\ consumed k s s' /\
                updated a n m m' /\ forall y, o = Some y -> P y)).
  - intros y [t m1 fc1] (j & Hj & Hu & Hy). cbn [stream memory] in *.
    destruct (Hbody y Hy t m1 fc1 (consumed_ok _ _ _ Hs Hj) (updated_mapped _ _ _ _ _ _ Hu Hm))
      as ([[y'|r]|] & t' & m2 & fc2 & k & -> & Hk & Hu2 & HP).
    + destruct (HP _ eq_refl) as [Hk1 HI']. cbn [stream memory]. split.
      * exists (j + k). split; [by eapply consumed_trans|]. split; [by eapply updated_trans|done].
      * destruct Hj as (? & _ & _ & ?), Hk as (? & _ & _ & ?). lia.
    + exists (Some r), t', m2, fc2, (j + k). split; [done|]. split; [by eapply consumed_trans|].
      split; [by eapply updated_trans|]. intros ? [= <-]. by apply (HP (inr r)).
    + exists None, t', m2, fc2, (j + k). split; [done|]. split; [by eapply consumed_trans|].
      split; [by eapply updated_trans|done].
  - exists 0. split; [by apply consumed_refl, istream_left|]. split; [apply updated_refl|done].
  - cbn [stream]. destruct Hs as (_ & _ & ? & ?). lia.
Qed.

(** ** Writing *)
Lemma safe_store (k : nat) b v a n : a <= b -> b + Z.of_nat k <= a + n -> safe a n (on_memory (mstore k b v)) anything.
Proof.
  intros Hb Hk. apply (safe_memory a n _ tt); [|done]. intros m Hm.
  destruct (store_u_spec k m b v) as (m' & E & Hu & _); [by eapply mapped_sub|].
  exists m'. split; [|by eapply updated_weaken]. unfold mstore. by rewrite bind_get, E.
Qed.

Lemma safe_store_bytes b bs a n :
  a <= b -> b + zlength bs <= a + n -> safe a n (on_memory (mstore_bytes b bs)) anything.
Proof.
  intros Hb Hk. apply (safe_memory a n _ tt); [|done]. intros m Hm.
  destruct (store_bytes_spec m b bs) as (m' & E & Hu & _); [by eapply mapped_sub|].
  exists m'. split; [|by eapply updated_weaken]. unfold mstore_bytes. by rewrite bind_get, E.
Qed.

Lemma safe_memset b k a n : 0 <= k -> a <= b -> b + k <= a + n -> safe a n (on_memory (mmemset0 b k)) anything.
Proof.
  intros Hk Hb Hn. apply (safe_store_bytes b (repeat 0 (Z.to_nat k))); [done|].
  unfold zlength. rewrite repeat_length. lia.
Qed.

Lemma safe_read_into b k a n : 0 <= k -> a <= b -> b + k <= a + n -> safe a n (read_into b k) anything.
Proof.
  intros Hk Hb Hn. unfold read_into. eapply safe_bind; [by apply safe_stream, pb_read_reads|].
  intros j bs (_ & Hbs & _). apply safe_store_bytes; lia.
Qed.

(** ** Varints and fixed numbers of any input *)
Lemma pb_decode_varint_reads : reads pb_decode_varint anything.
Proof.
  unfold pb_decode_varint. apply (reads_whileM _ (fun _ _ => True)); [|done].
  intros j [bitpos result] _ _. unfold varint64_body. apply reads_if; [apply reads_error|].
  eapply reads_bind; [apply pb_readbyte_reads|]. intros k b [-> _]. cbv zeta.
  apply reads_if; apply reads_ret; [split; [lia|done]|done].
Qed.

Lemma reads_map {A B} (c : M pb_istream_t A) (f : A -> B) P :
  reads c P -> reads (x <- c;; ret (f x)) anything.
Proof. intros Hc. eapply reads_bind; [exact Hc|]. intros. by apply reads_ret. Qed.

(** ** The decoders of static fields *)
Section decoders.
Context `{Tables} `{Allocator} (f : pb_field_t) (p : Z).
Abbreviation n := (data_size f).

Lemma store_clamped_safe conv v : safe p n (store_clamped conv f p v) anything.
Proof.
  unfold store_clamped. cbv zeta.
  destruct (Z.eqb_spec n 8) as [E|_]; [|destruct (Z.eqb_spec n 4) as [E|_]; [|destruct (Z.eqb_spec n 2) as [E|_];
    [|destruct (Z.eqb_spec n 1) as [E|_]]]];
    try apply safe_error; (eapply safe_bind; [apply safe_store; lia|]; intros; by apply safe_ret).
Qed.

Lemma pb_dec_varint_safe : safe p n (pb_dec_varint f p) anything.
Proof.
  unfold pb_dec_varint. eapply safe_bind; [apply safe_stream, pb_decode_varint_reads|]. intros j v _. cbv zeta.
  eapply safe_bind; [apply store_clamped_safe|]. intros. apply safe_if; [apply safe_error|by apply safe_ret].
Qed.

Lemma pb_dec_uvarint_safe : safe p n (pb_dec_uvarint f p) anything.
Proof.
  unfold pb_dec_uvarint. eapply safe_bind; [apply safe_stream, pb_decode_varint_reads|]. intros j v _.
  eapply safe_bind; [apply store_clamped_safe|]. intros. apply safe_if; [apply safe_error|by apply safe_ret].
Qed.

Lemma pb_dec_svarint_safe : safe p n (pb_dec_svarint f p) anything.
Proof.
  unfold pb_dec_svarint. eapply safe_bind.
  { apply safe_stream. unfold pb_decode_svarint. eapply reads_map, pb_decode_varint_reads. }
  intros j v _. eapply safe_bind; [apply store_clamped_safe|]. intros.
  apply safe_if; [apply safe_error|by apply safe_ret].
Qed.

Lemma pb_dec_fixed32_safe : n = 4 -> safe p n (pb_dec_fixed32 f p) anything.
Proof.
  intros Hn. unfold pb_dec_fixed32. eapply safe_bind.
  { apply safe_stream. unfold pb_decode_fixed32. by eapply reads_map, pb_read_reads. }
  intros j v _. apply safe_store; lia.
Qed.

Lemma pb_dec_fixed64_safe : n = 8 -> safe p n (pb_dec_fixed64 f p) anything.
Proof.
  intros Hn. unfold pb_dec_fixed64. eapply safe_bind.
  { apply safe_stream. unfold pb_decode_fixed64. by eapply reads_map, pb_read_reads. }
  intros j v _. apply safe_store; lia.
Qed.

Hypothesis static : PB_ATYPE (type f) = PB_ATYPE_STATIC.

Lemma pb_dec_bytes_safe : safe p n (pb_dec_bytes f p) anything.
Proof using static.
  unfold pb_dec_bytes. eapply safe_bind; [apply safe_stream, pb_decode_varint32_reads|]. intros j size Hs. cbv beta zeta in Hs |- *.
  change (PB_BYTES_ARRAY_T_ALLOCSIZE size) with (u64 (size + 4)). rewrite wrap_small, static by lia.
  change (PB_ATYPE_STATIC =? PB_ATYPE_POINTER) with false. cbv iota.
  apply safe_if; [apply safe_error|]. apply safe_if; [apply safe_error|].
  destruct (Z.ltb_spec n (size + 4)) as [_|Hn].
  { apply safe_bind_error. }
  eapply (safe_bind _ _ _ _ (fun _ b => b = p)); [by apply safe_ret|]. intros i b ->.
  eapply safe_bind; [apply safe_store; lia|]. intros. apply safe_read_into; lia.
Qed.

Lemma pb_dec_string_safe : safe p n (pb_dec_string f p) anything.
Proof using static.
  unfold pb_dec_string. eapply safe_bind; [apply safe_stream, pb_decode_varint32_reads|]. intros j size Hs. cbv beta zeta in Hs |- *.
  rewrite static. change (PB_ATYPE_STATIC =? PB_ATYPE_POINTER) with false. cbv iota.
  destruct (Z.ltb_spec (u32 (size + 1)) size) as [|Hw]; [apply safe_error|].
  assert (u32 (size + 1) = size + 1) as ->.
  { destruct (decide (size + 1 = 2 ^ 32)) as [E|]; [|apply wrap_small; lia].
    rewrite E in Hw. change (u32 (2 ^ 32)) with 0 in Hw. lia. }
  destruct (Z.ltb_spec n (size + 1)) as [_|Hn].
  { apply safe_bind_error. }
  eapply (safe_bind _ _ _ _ (fun _ b => b = p)); [by apply safe_ret|]. intros i b ->.
  eapply safe_bind; [apply safe_attempt, safe_read_into; lia|]. intros i2 o _.
  eapply safe_bind; [apply safe_store; lia|]. intros. destruct o; [by apply safe_ret|by apply safe_false].
Qed.

Lemma pb_dec_fixed_length_bytes_safe : 0 <= n -> safe p n (pb_dec_fixed_length_bytes f p) anything.
Proof.
  intros Hn. unfold pb_dec_fixed_length_bytes. eapply safe_bind; [apply safe_stream, pb_decode_varint32_reads|].
  intros j size Hs. apply safe_if; [apply safe_error|]. apply safe_if; [apply safe_memset; lia|].
  apply safe_if; [apply safe_error|]. apply safe_read_into; lia.
Qed.
End decoders.

(** ** [pb_decode] of hostile input into a flat message *)

(** What the message level needs of the decoder of a field: it writes the
    object and nothing else, whatever the input is. *)
Class SafeDecoder `{Tables} `{Allocator} (f : pb_field_t) : Prop := {
  decoder_safe : forall decode decode_noinit, exists func,
    PB_DECODERS decode decode_noinit (PB_LTYPE (type f)) = Ret (Some func) /\
    forall p, safe p (data_size f) (func f p) anything;
}.

#[export] Instance static_safe_decoder `{Tables} `{Allocator} f : static_codec_ok f -> SafeDecoder f.
Proof.
  intros (Hs & Hc). split. intros decode decode_noinit.
  destruct Hc as [[Hl Hn]|[[E Hn]|[[E Hn]|[Hl Hn]]]].
  - assert (PB_LTYPE (type f) = PB_LTYPE_VARINT \/ PB_LTYPE (type f) = PB_LTYPE_UVARINT \/
            PB_LTYPE (type f) = PB_LTYPE_SVARINT) as [E|[E|E]] by set_solver; rewrite E;
      eexists; (split; [reflexivity|]); intros p.
    + apply pb_dec_varint_safe.
    + apply pb_dec_uvarint_safe.
    + apply pb_dec_svarint_safe.
  - rewrite E. eexists. split; [reflexivity|]. intros p. by apply pb_dec_fixed32_safe.
  - rewrite E. eexists. split; [reflexivity|]. intros p. by apply pb_dec_fixed64_safe.
  - assert (PB_LTYPE (type f) = PB_LTYPE_BYTES \/ PB_LTYPE (type f) = PB_LTYPE_STRING \/
            PB_LTYPE (type f) = PB_LTYPE_FIXED_LENGTH_BYTES) as [E|[E|E]] by set_solver; rewrite E;
      eexists; (split; [reflexivity|]); intros p.
    + by apply pb_dec_bytes_safe.
    + by apply pb_dec_string_safe.
    + apply pb_dec_fixed_length_bytes_safe. lia.
Qed.

Section safety.
Context `{HT : Tables} `{HA : Allocator} `{HD : DecodeCallbacks}.
Context (fields : list pb_field_t) (size : Z) (Hflat : flat_message fields size).
Context (dest : Z) (fuel : nat) (decode decode_noinit : decode_fun).
Abbreviation n := (field_count fields).
Abbreviation at_ := (iter_at fields dest).
Abbreviation flat_locals := (flat_locals fields dest).

Lemma decode_static_field_safe j wt : (j < n)%nat ->
  safe dest size (decode_static_field fuel decode decode_noinit wt (at_ j)) anything.
Proof using Hflat.
  intros Hj. destruct (flat_at fields size Hflat j Hj) as (Hcod & Hopt & _ & _ & _ & _ & _ & Hr).
  destruct (decoder_safe (SafeDecoder := static_safe_decoder _ Hcod) decode decode_noinit) as (func & Ef & Hsafe).
  unfold decode_static_field.
  eapply safe_bind; [by apply (safe_lift _ _ _ _ (fun _ x => x = fields !!! j) (flat_cur fields size Hflat dest j Hj))|].
  intros i f ->. eapply safe_bind; [by apply (safe_lift _ _ _ _ (fun _ x => x = Some func) Ef)|]. intros i2 g ->.
  rewrite Hopt. change (PB_HTYPE_OPTIONAL =? PB_HTYPE_REQUIRED) with false.
  change (PB_HTYPE_OPTIONAL =? PB_HTYPE_OPTIONAL) with true. cbv iota zeta.
  rewrite (flat_has_size fields size Hflat dest j Hj). eapply (safe_bind _ _ _ _ anything).
  - eapply safe_bind.
    + rewrite (flat_size fields size Hflat dest j Hj).
      by apply (safe_lift _ _ _ _ (fun _ x => x = dest + has_off fields j) eq_refl).
    + intros i3 a ->. apply safe_store; lia.
  - intros _ _ _. rewrite flat_data. cbn [call_decoder].
    eapply safe_range; [apply Hsafe|lia|lia].
Qed.

Lemma decode_known_safe wt l j : (j < n)%nat -> iter l = at_ j -> fixed_count_field l = None ->
  safe dest size (decode_known_field fuel decode decode_noinit wt l) (fun _ l' => flat_locals l').
Proof using Hflat.
  intros Hj Hit Hfc. destruct (flat_at fields size Hflat j Hj) as ((Hst & _) & Hopt & _).
  pose proof (flat_cur fields size Hflat dest j Hj) as Hcur.
  unfold decode_known_field. rewrite Hit.
  eapply safe_bind; [by apply (safe_lift _ _ _ _ (fun _ x => x = fields !!! j) Hcur)|]. intros i f ->.
  rewrite Hopt. change (PB_HTYPE_OPTIONAL =? PB_HTYPE_REPEATED) with false.
  change (PB_HTYPE_OPTIONAL =? PB_HTYPE_REQUIRED) with false. cbv iota zeta. cbn [andb].
  eapply (safe_bind _ _ _ _ (fun _ l' => l' = l)); [by apply safe_ret|]. intros i2 l' ->. rewrite Hit.
  eapply (safe_bind _ _ _ _ (fun _ it => it = at_ j)).
  - unfold decode_field.
    eapply safe_bind; [by apply (safe_lift _ _ _ _ (fun _ x => x = fields !!! j) Hcur)|]. intros i3 f ->.
    rewrite Hopt. change (PB_HTYPE_OPTIONAL =? PB_HTYPE_ONEOF) with false. cbv iota.
    eapply (safe_bind _ _ _ _ (fun _ it => it = at_ j)); [by apply safe_ret|]. intros i4 it ->.
    eapply safe_bind; [by apply (safe_lift _ _ _ _ (fun _ x => x = fields !!! j) Hcur)|]. intros i5 f ->.
    rewrite Hst. change (PB_ATYPE_STATIC =? PB_ATYPE_STATIC) with true. cbv iota zeta.
    eapply safe_bind; [by apply decode_static_field_safe|]. intros. by apply safe_ret.
  - intros i3 it ->. apply safe_ret. split; [done|by exists j].
Qed.

Lemma decode_unknown_safe t wt l : t < 2 ^ 29 -> flat_locals l ->
  safe dest size (decode_unknown_field fuel decode decode_noinit t wt l) (fun _ l' => flat_locals l').
Proof using Hflat.
  intros Ht Hl. pose proof Hl as (Hfc & i & Hi & Hit).
  assert (forall l : locals, flat_locals l ->
    safe dest size (on_stream (pb_skip_field wt);; ret l) (fun _ l' => flat_locals l')) as Hskip.
  { intros l' Hl'. eapply safe_bind; [apply safe_stream, pb_skip_field_reads|]. intros. by apply safe_ret. }
  unfold decode_unknown_field. cbv zeta. apply safe_if; [by apply Hskip|].
  eapply safe_bind.
  - apply (safe_lift _ _ _ (false, at_ i) (fun _ r => r = (false, at_ i))); [|done].
    rewrite Hit. by apply (flat_find_extension fields size Hflat).
  - intros j r ->. cbv beta iota.
    eapply safe_bind; [by apply (safe_lift _ _ _ _ (fun _ _ => True) (flat_cur fields size Hflat dest i Hi))|].
    intros j2 f _. change (u32 (-1)) with (2 ^ 32 - 1). rewrite (proj2 (Z.ltb_lt _ _)) by lia.
    apply Hskip. split; [done|by exists i].
Qed.

Lemma noinit_loop_body_safe l : flat_locals l ->
  safe dest size (noinit_loop_body fuel decode decode_noinit l)
    (fun k r => match r with inl l' => 1 <= k /\ flat_locals l' | inr l' => flat_locals l' end).
Proof using Hflat.
  intros Hl. pose proof Hl as (Hfc & i & Hi & Hit). unfold noinit_loop_body.
  eapply (safe_bind_pos _ _ _ _ anything).
  { intros s m fc Hs _. exists (Some (bytes_left s)), s, m, fc, 0.
    split; [done|]. split; [apply consumed_refl; by apply istream_left|]. split; [apply updated_refl|done]. }
  intros j0 left Hj0 _. apply safe_if; [by apply safe_ret|].
  eapply safe_bind_pos; [apply safe_stream, pb_decode_tag_reads|]. intros j r Hj1 Hr. cbv beta in Hr.
  destruct (tr_ok r) eqn:Eok; cbn [negb]; [|apply safe_if; [by apply safe_ret|by apply safe_false]].
  destruct (Hr eq_refl) as (Hj & Hwt & Ht). rewrite Hit.
  assert (exists found it, pb_field_iter_find (at_ i) (tr_tag r) = Ret (found, it) /\
            exists k, (k < n)%nat /\ it = at_ k) as (found & it & Ef & k & Hk & ->).
  { destruct (find_item fields size Hflat dest i (tr_tag r) Hi) as [(k & Hk & _ & E)|[_ E]]; eauto 8. }
  eapply safe_bind_pos; [by apply (safe_lift _ _ _ _ (fun _ x => x = (found, at_ k)) Ef)|].
  intros j2 x Hj2 ->. cbv beta iota zeta. eapply (safe_bind_pos _ _ _ _ (fun _ l' => flat_locals l')).
  - destruct found; cbn [negb]; [by apply (decode_known_safe _ _ k)|].
    apply decode_unknown_safe; [lia|]. split; [done|by exists k].
  - intros j3 l' Hj3 Hl'. apply safe_ret. split; [lia|done].
Qed.

Lemma noinit_body_safe : safe dest size (decode_noinit_body fuel decode decode_noinit fields dest) anything.
Proof using Hflat.
  pose proof (flat_terminated fields size Hflat) as Hterm. pose proof (flat_length fields size Hflat) as Hl.
  assert (0 < n)%nat as Hn by (destruct Hflat as (? & _); done).
  assert (forall v, safe dest size (set_fixed_count v) anything) as Hset.
  { intros v s m fc Hs _. exists (Some tt), s, m, v, 0.
    split; [done|]. split; [apply consumed_refl; by apply istream_left|]. split; [apply updated_refl|done]. }
  unfold decode_noinit_body. eapply (safe_bind _ _ _ _ anything).
  { intros s m fc Hs _. exists (Some fc), s, m, fc, 0.
    split; [done|]. split; [apply consumed_refl; by apply istream_left|]. split; [apply updated_refl|done]. }
  intros j1 outer _. eapply safe_bind; [apply Hset|]. intros j2 [] _. eapply safe_bind.
  - apply (safe_attempt _ _ _ anything). eapply safe_bind.
    { apply (safe_lift _ _ _ (true, at_ 0) (fun _ r => r = (true, at_ 0))); [|done].
      apply (iter_begin_at _ _ dest Hterm). by rewrite Hl. }
    intros j3 r ->. eapply (safe_bind _ _ _ _ (fun _ l => flat_locals l)).
    { apply (safe_whileM _ _ _ flat_locals); [apply noinit_loop_body_safe|]. split; [done|by exists 0%nat]. }
    intros j4 l (Hfc & i & Hi & Hit). unfold check_fixed_count, check_required. rewrite Hfc, Hit.
    eapply (safe_bind _ _ _ _ anything); [by apply safe_ret|]. intros j5 [] _.
    eapply safe_bind.
    { by apply (safe_lift _ _ _ _ (fun _ x => x = 0) (flat_count_required fields size Hflat dest i Hi)). }
    intros j6 x ->. by apply (safe_ret _ _ tt).
  - intros j3 o _. eapply safe_bind; [apply Hset|]. intros j4 [] _. destruct o; [by apply safe_ret|by apply safe_false].
Qed.

(** A flat message owns no memory. *)
Lemma flat_release_field j m : (j < n)%nat -> pb_release_single_field (S fuel) (at_ j) m = Ret (Some tt, m).
Proof using Hflat.
  intros Hj. destruct (flat_at fields size Hflat j Hj) as ((Hst & _) & Hopt & _).
  destruct (flat_ltype fields size Hflat j Hj) as [He Hsub].
  cbn [pb_release_single_field]. unfold release_single_field.
  rewrite (bind_lift _ _ _ _ (flat_cur fields size Hflat dest j Hj)), Hopt.
  change (PB_HTYPE_OPTIONAL =? PB_HTYPE_ONEOF) with false. cbv iota. rewrite bind_ret.
  unfold release_contents, release_pointer.
  rewrite (proj2 (Z.eqb_neq _ _) He), (proj2 (Z.eqb_neq _ _) Hsub), Hst. reflexivity.
Qed.

Lemma flat_release_run m : pb_release (S fuel) fields dest m = Ret (Some tt, m).
Proof using Hflat.
  pose proof (flat_terminated fields size Hflat) as Hterm. pose proof (flat_length fields size Hflat) as Hl.
  assert ((0 < n)%nat /\ Z.of_nat n < 2 ^ 63) as [Hn Hn63] by (destruct Hflat as (? & ? & _); done).
  unfold pb_release, release_with. destruct (dest =? 0); [done|]. unfold each_field.
  rewrite (bind_lift _ _ _ _ (iter_begin_at _ _ dest Hterm ltac:(by rewrite Hl))). cbn [negb].
  rewrite (iter_each_at _ _ dest Hterm) by (rewrite Hl; done). rewrite Hl, Nat.sub_0_r.
  assert (forall k i, (i + k <= n)%nat ->
    foldr (fun j c => pb_release_single_field (S fuel) (at_ j);; c) (ret tt) (seq i k) m = Ret (Some tt, m)) as Hall.
  { induction k as [|k IH]; intros i Hi; [done|]. cbn [seq foldr].
    rewrite (bind_some _ _ _ _ _ (flat_release_field i m ltac:(lia))). apply IH. lia. }
  by apply Hall.
Qed.
End safety.

(** C2: [pb_decode] of a flat message is safe on every input: whatever the bytes
    of the buffer are, it terminates, returns true or false without undefined
    behaviour, reads nothing beyond the limit of the stream, and changes
    nothing outside the structure it decodes into. *)
Theorem pb_decode_safe `{HT : Tables} `{HA : Allocator} `{HD : DecodeCallbacks} fields size fuel dest s m fc :
  flat_message fields size -> istream_ok s -> mapped m dest size ->
  exists o s' m' fc' k,
    pb_decode (S fuel) fields dest (DState s m fc) = Ret (o, DState s' m' fc') /\
    consumed k s s' /\ updated dest size m m'.
Proof.
  intros Hflat Hs Hmap. assert (safe dest size (pb_decode (S fuel) fields dest) anything) as Hsafe.
  { unfold pb_decode, pb_decode_with. eapply (safe_bind _ _ _ _ anything).
    - apply (safe_memory _ _ _ tt); [|done]. intros m0 Hm0.
      destruct (set_to_defaults_run fields size Hflat dest fuel m0 Hm0) as (m1 & E & Hu & _). by exists m1.
    - intros j [] _. eapply safe_bind; [apply safe_attempt, (noinit_body_safe fields size Hflat)|].
      intros j2 [[]|] _; [by apply safe_ret|]. eapply (safe_bind _ _ _ _ anything); [|intros; by apply safe_false].
      apply (safe_memory _ _ _ tt); [|done]. intros m0 Hm0. exists m0.
      split; [by apply (flat_release_run fields size Hflat)|apply updated_refl]. }
  destruct (Hsafe s m fc Hs Hmap) as (o & s' & m' & fc' & k & E & Hk & Hu & _).
  by exists o, s', m', fc', k.
Qed.
