(* ===== verification/FlatMessages.v ===== *)
(** * The flat messages of the program

    [gdt_cct_NetworkConnectionInfo] and [gdt_cct_QosTierConfiguration]: the
    theorems about flat messages apply to them, and the sizes of the
    generated header are right. *)
From S2P Require Import Prelude WireFormat Memory Descriptor Iter IterFacts OStream IStream Wire Storage Encode DecodeFields Decode Codec StaticCodec FlatEncode FlatDecode FlatRoundtrip FlatSafety Cct Messages.

Abbreviation nci := gdt_cct_NetworkConnectionInfo_fields.
Abbreviation qtc := gdt_cct_QosTierConfiguration_fields.

Lemma nci_flat : flat_message nci (sizeof gdt_cct_NetworkConnectionInfo).
Proof. apply (bool_decide_unpack _). vm_compute. exact I. Qed.

Lemma qtc_flat : flat_message qtc (sizeof gdt_cct_QosTierConfiguration).
Proof. apply (bool_decide_unpack _). vm_compute. exact I. Qed.

(** ** Encoded sizes *)
Section sizes.
Context `{HT : Tables} `{HE : EncodeCallbacks}.

Lemma flat_encoded_size fields size fuel m src vs :
  flat_message fields size -> mem_ok m -> 0 < src -> message_is fields m src vs ->
  zlength (message_bytes fields vs) < 2 ^ 63 ->
  pb_get_encoded_size m (S fuel) fields src = Ret (Some (zlength (message_bytes fields vs))).
Proof.
  intros Hflat Hm Hsrc Hvs Hlen. pose proof (zlength_nonneg (message_bytes fields vs)).
  unfold pb_get_encoded_size. cbn [pb_encode].
  destruct (pb_encode_body_emits fields size Hflat m Hm fuel (pb_encode m fuel) src vs Hsrc Hvs Hlen
    PB_OSTREAM_SIZING ready_sizing) as [E _].
  rewrite E by (by left). do 2 f_equal. cbn. apply wrap_small. lia.
Qed.

Lemma two_fields_size fields o1 o2 a b :
  (forall v, o1 = Some v -> zlength (field_bytes fields 0 v) <= a) -> 0 <= a ->
  (forall v, o2 = Some v -> zlength (field_bytes fields 1 v) <= b) -> 0 <= b ->
  zlength (message_bytes fields [o1; o2]) <= a + b.
Proof.
  intros H1 Ha H2 Hb. unfold message_bytes. cbn [imap concat]. rewrite app_nil_r, zlength_app.
  assert (forall o c k, (forall v, o = Some v -> zlength (field_bytes fields k v) <= c) -> 0 <= c ->
    zlength (from_option (field_bytes fields k) [] o) <= c) as Hone.
  { intros [v|] c k Hv Hc; cbn [from_option]; [by apply Hv|done]. }
  specialize (Hone o1 a 0%nat H1 Ha) as E1. specialize (Hone o2 b 1%nat H2 Hb) as E2.
  cbn in E1, E2 |- *. lia.
Qed.

(** [gdt_cct_NetworkConnectionInfo_size] is enough for every combination of
    the declared network types and mobile subtypes, set or not: the encoder
    never needs more bytes. *)
Lemma network_connection_info_size fuel m src network_type mobile_subtype :
  mem_ok m -> 0 < src ->
  message_is nci m src
    [VInt ∘ gdt_cct_NetworkConnectionInfo_NetworkType_value <$> network_type;
     VInt ∘ gdt_cct_NetworkConnectionInfo_MobileSubtype_value <$> mobile_subtype] ->
  exists size, pb_get_encoded_size m (S fuel) nci src = Ret (Some size) /\
    0 <= size <= gdt_cct_NetworkConnectionInfo_size.
Proof.
  intros Hm Hsrc Hvs.
  assert (zlength (message_bytes nci
    [VInt ∘ gdt_cct_NetworkConnectionInfo_NetworkType_value <$> network_type;
     VInt ∘ gdt_cct_NetworkConnectionInfo_MobileSubtype_value <$> mobile_subtype]) <= 11 + 2) as Hlen.
  { apply two_fields_size; [|lia| |lia]; intros v Hv.
    - destruct network_type as [[]|]; [injection Hv as <-; vm_compute; congruence..|done].
    - destruct mobile_subtype as [[]|]; [injection Hv as <-; vm_compute; congruence..|done]. }
  eexists. split; [eapply flat_encoded_size; eauto using nci_flat; lia|].
  split; [apply zlength_nonneg|exact Hlen].
Qed.

(** [gdt_cct_QosTierConfiguration_size] is enough for every declared tier and
    every log source. *)
Lemma qos_tier_configuration_size fuel m src qos_tier log_source :
  mem_ok m -> 0 < src ->
  message_is qtc m src
    [VInt ∘ gdt_cct_QosTierConfiguration_QosTier_value <$> qos_tier; VInt <$> log_source] ->
  exists size, pb_get_encoded_size m (S fuel) qtc src = Ret (Some size) /\
    0 <= size <= gdt_cct_QosTierConfiguration_size.
Proof.
  intros Hm Hsrc Hvs.
  assert (zlength (message_bytes qtc
    [VInt ∘ gdt_cct_QosTierConfiguration_QosTier_value <$> qos_tier; VInt <$> log_source]) <= 2 + 11) as Hlen.
  { apply two_fields_size; [|lia| |lia]; intros v Hv.
    - destruct qos_tier as [[]|]; [injection Hv as <-; vm_compute; congruence..|done].
    - destruct log_source as [x|]; [|done]. injection Hv as <-.
      assert (field_bytes qtc 1 (VInt x) = [24] ++ varint_bytes (u64 x)) as ->.
      { reflexivity. }
      rewrite zlength_app. pose proof (zlength_varint_bytes (u64 x)). change (zlength [24]) with 1. lia. }
  eexists. split; [eapply flat_encoded_size; eauto using qtc_flat; lia|].
  split; [apply zlength_nonneg|exact Hlen].
Qed.

(** C40: The sizes of the generated header are enough.  [pb_get_encoded_size] of a
    NetworkConnectionInfo, for every combination of the declared network types
    and mobile subtypes, set or not, returns at most
    [gdt_cct_NetworkConnectionInfo_size]; of a QosTierConfiguration, for every
    declared tier and every log source, set or not, at most
    [gdt_cct_QosTierConfiguration_size]. *)
Theorem generated_sizes :
  (forall fuel m src network_type mobile_subtype, mem_ok m -> 0 < src ->
     message_is nci m src
       [VInt ∘ gdt_cct_NetworkConnectionInfo_NetworkType_value <$> network_type;
        VInt ∘ gdt_cct_NetworkConnectionInfo_MobileSubtype_value <$> mobile_subtype] ->
     exists size, pb_get_encoded_size m (S fuel) nci src = Ret (Some size) /\
       0 <= size <= gdt_cct_NetworkConnectionInfo_size) /\
  (forall fuel m src qos_tier log_source, mem_ok m -> 0 < src ->
     message_is qtc m src
       [VInt ∘ gdt_cct_QosTierConfiguration_QosTier_value <$> qos_tier; VInt <$> log_source] ->
     exists size, pb_get_encoded_size m (S fuel) qtc src = Ret (Some size) /\
       0 <= size <= gdt_cct_QosTierConfiguration_size).
Proof. split; [exact network_connection_info_size|exact qos_tier_configuration_size]. Qed.
End sizes.

(** ** The theorems at concrete inputs *)

(** No network, mobile subtype 100. *)
Definition nci_values : list (option fvalue) := [Some (VInt (-1)); Some (VInt 100)].

Lemma nci_memory_is : message_is nci nci_memory 4096 nci_values.
Proof.
  split; [reflexivity|]. intros j ov Hj. destruct j as [|[|j]]; cbn in Hj; [injection Hj as <-..|done].
  - split; [exists 1; split; [vm_compute; reflexivity|done]|]. exists (-1). split; [done|]. vm_compute. reflexivity.
  - split; [exists 1; split; [vm_compute; reflexivity|done]|]. exists 100. split; [done|]. vm_compute. reflexivity.
Qed.

(** A structure to decode into. *)
Definition blank_memory : mem := mem_of 8192 (repeat 0xAA 16).

Lemma blank_memory_mapped : mapped blank_memory 8192 (sizeof gdt_cct_NetworkConnectionInfo).
Proof.
  intros x Hx. change (sizeof gdt_cct_NetworkConnectionInfo) with 16 in Hx.
  assert (Forall (fun x => is_Some (cells blank_memory !! x)) (seqZ 8192 16)) as Hall
    by (apply (bool_decide_unpack _); vm_compute; exact I).
  apply (Forall_elem _ _ x Hall), elem_of_seqZ. lia.
Qed.

Section at_concrete_inputs.
#[local] Existing Instances gdt_cct_tables no_encode_callbacks.
#[local] Instance no_memory : Allocator := bump_allocator 0.
#[local] Instance no_decode_callbacks : DecodeCallbacks :=
  {| field_decode_cb := fun _ _ _ => ret tt; ext_decode_cb := fun _ _ _ _ => ret tt |}.

(** Both fields, an unknown field 7, then the first field again. *)
Definition some_items : list item :=
  [Known 0 (VInt 3); Unknown 7 PB_WT_STRING [2; 104; 105]; Known 1 (VInt 100); Known 0 (VInt (-1))].

(** A value of field [j], from an object that has it. *)
Lemma known_ok j v m p :
  (j < 2)%nat -> mem_ok m -> static_holds (nci !!! j) m p v -> item_ok nci (Known j v).
Proof. intros Hj Hm Hv. split; [exact Hj|by exists m, p]. Qed.

Lemma some_items_ok : Forall (item_ok nci) some_items.
Proof.
  assert (mem_ok (mem_of 64 [3; 0; 0; 0])) as H64 by (apply mem_of_ok; repeat constructor; done).
  apply Forall_cons; [|apply Forall_cons; [|apply Forall_cons; [|apply Forall_cons; [|constructor]]]].
  - apply (known_ok 0 _ _ 64 ltac:(lia) H64). exists 3. split; [done|]. vm_compute. reflexivity.
  - split; [lia|split].
    + intros j Hj. change (field_count nci) with 2%nat in Hj. destruct j as [|[|]]; [vm_compute; done..|lia].
    + exact (value_string [104; 105] eq_refl).
  - apply (known_ok 1 _ _ 4108 ltac:(lia) nci_memory_ok). exists 100. split; [done|]. vm_compute. reflexivity.
  - apply (known_ok 0 _ _ 4100 ltac:(lia) nci_memory_ok). exists (-1). split; [done|]. vm_compute. reflexivity.
Qed.

Lemma pb_decode_items_witness :
  exists m',
    pb_decode 1 nci 8192
      (DState (pb_istream_from_buffer (items_bytes nci some_items ++ [255]) (zlength (items_bytes nci some_items)))
         blank_memory 0) =
    Ret (Some tt, DState (IStream ICBufRead [255] 0 None) m' 0) /\
    updated 8192 16 blank_memory m' /\ message_decoded nci m' 8192 nci_values.
Proof.
  apply (pb_decode_items nci 16 0 some_items blank_memory 8192 [255] 0).
  - exact nci_flat.
  - exact blank_memory_mapped.
  - exact some_items_ok.
  - vm_compute. reflexivity.
Defined.

Lemma message_roundtrip_witness :
  message_bytes nci nci_values = [8; 255; 255; 255; 255; 255; 255; 255; 255; 255; 1; 16; 100] /\
  emits (pb_encode nci_memory 1 nci 4096) tt (message_bytes nci nci_values) /\
  forall m0 dest rest fc, mapped m0 dest 16 ->
    exists m',
      pb_decode 1 nci dest
        (DState (pb_istream_from_buffer (message_bytes nci nci_values ++ rest) (zlength (message_bytes nci nci_values))) m0 fc) =
      Ret (Some tt, DState (IStream ICBufRead rest 0 None) m' fc) /\
      updated dest 16 m0 m' /\ message_decoded nci m' dest nci_values.
Proof.
  split; [vm_compute; reflexivity|].
  apply (message_roundtrip nci 16 0 nci_memory 4096 nci_values).
  - exact nci_flat.
  - exact nci_memory_ok.
  - lia.
  - exact nci_memory_is.
  - vm_compute. reflexivity.
Defined.

(** Tier [NEVER], no log source. *)
Definition qtc_memory : mem := mem_of 4096 [1; 0; 0; 0; 4; 0; 0; 0; 0; 0; 0; 0; 0; 0; 0; 0].

Lemma generated_sizes_witness :
  (exists size, pb_get_encoded_size nci_memory 1 nci 4096 = Ret (Some size) /\ 0 <= size <= 13) /\
  (exists size, pb_get_encoded_size qtc_memory 1 qtc 4096 = Ret (Some size) /\ 0 <= size <= 13).
Proof.
  destruct generated_sizes as [Hn Hq]. split.
  - apply (Hn 0%nat nci_memory 4096 (Some gdt_cct_NetworkConnectionInfo_NetworkType_NONE)
      (Some gdt_cct_NetworkConnectionInfo_MobileSubtype_COMBINED)); [exact nci_memory_ok|lia|exact nci_memory_is].
  - apply (Hq 0%nat qtc_memory 4096 (Some gdt_cct_QosTierConfiguration_QosTier_NEVER) None).
    + apply mem_of_ok. repeat constructor; done.
    + lia.
    + split; [reflexivity|]. intros j ov Hj. destruct j as [|[|j]]; cbn in Hj; [injection Hj as <-..|done].
      * split; [exists 1; split; [vm_compute; reflexivity|done]|]. exists 4. split; [done|]. vm_compute. reflexivity.
      * vm_compute. reflexivity.
Defined.

(** A truncated tag, wrong wire types: any bytes at all. *)
Lemma pb_decode_safe_witness :
  exists o s' m' fc' k,
    pb_decode 1 nci 8192 (DState (pb_istream_from_buffer [13; 255; 255; 22; 128; 128] 6) blank_memory 0) =
      Ret (o, DState s' m' fc') /\
    consumed k (pb_istream_from_buffer [13; 255; 255; 22; 128; 128] 6) s' /\ updated 8192 16 blank_memory m'.
Proof.
  apply (pb_decode_safe nci 16 0 8192).
  - exact nci_flat.
  - split; [done|]. split; [repeat constructor; done|]. split; vm_compute; done.
  - exact blank_memory_mapped.
Defined.
End at_concrete_inputs.
