(* ===== verification/Allocation.v ===== *)
(** * Required fields, and the memory of pointer fields (pb_decode.c) *)
From S2P Require Import Prelude WireFormat Memory Descriptor Iter OStream Encode IStream Storage DecodeFields Decode Wire Codec.

(** ** The bit field of the required fields a decoder has seen *)

(** The words after marking the fields of a list. *)
Definition marks (indices : list Z) : list Z := foldr mark_seen [0; 0] indices.

(** Bit [b] of word [k] stands for the required field [32 * k + b]. *)
Definition seen_bits (w : Z) (k : Z) (indices : list Z) : Prop :=
  0 <= w < 2 ^ 32 /\ forall b, 0 <= b < 32 -> Z.testbit w b = bool_decide (32 * k + b ∈ indices).

Lemma index_split i : 0 <= i -> exists k b, i = 32 * k + b /\ 0 <= k /\ 0 <= b < 32 /\
  Z.shiftr i 5 = k /\ i .& 31 = b.
Proof.
  intros Hi. exists (i / 32), (i mod 32). pose proof (Z.mod_pos_bound i 32 ltac:(lia)).
  change 31 with (Z.ones 5). rewrite Z.land_ones, Z.shiftr_div_pow2 by lia. change (2 ^ 5) with 32.
  pose proof (Z.div_mod i 32 ltac:(lia)). pose proof (Z.div_pos i 32 Hi ltac:(lia)). split_and!; done || lia.
Qed.

Lemma mark_bit b : 0 <= b < 32 -> u32 (Z.shiftl 1 b) = Z.shiftl 1 b.
Proof.
  intros Hb. rewrite Z.shiftl_1_l. apply wrap_small. split; [apply Z.pow_nonneg; lia|].
  apply Z.pow_lt_mono_r; lia.
Qed.

Lemma seen_bits_same w k b indices :
  0 <= b < 32 -> seen_bits w k indices -> seen_bits (w .| Z.shiftl 1 b) k (32 * k + b :: indices).
Proof.
  intros Hb [Hw Hbits]. split.
  - apply lor_bound; [lia|done|]. rewrite Z.shiftl_1_l. split; [apply Z.pow_nonneg; lia|].
    apply Z.pow_lt_mono_r; lia.
  - intros c Hc. rewrite Z.lor_spec, Z.shiftl_1_l, Z.pow2_bits_eqb, Hbits by lia.
    destruct (Z.eqb_spec b c) as [->|Hne].
    + rewrite orb_true_r. symmetry. apply bool_decide_true. by left.
    + rewrite orb_false_r. apply bool_decide_ext. rewrite elem_of_cons. split; [auto|].
      intros [?|?]; [lia|done].
Qed.

Lemma seen_bits_other w k i indices :
  (forall b, 0 <= b < 32 -> i <> 32 * k + b) -> seen_bits w k indices -> seen_bits w k (i :: indices).
Proof.
  intros Hi [Hw Hbits]. split; [done|]. intros b Hb. rewrite Hbits by done.
  apply bool_decide_ext. rewrite elem_of_cons. split; [auto|]. intros [?|?]; [|done].
  by destruct (Hi b Hb).
Qed.

Lemma marks_bits indices : Forall (fun i => 0 <= i < 64) indices ->
  exists w0 w1, marks indices = [w0; w1] /\ seen_bits w0 0 indices /\ seen_bits w1 1 indices.
Proof.
  induction 1 as [|i indices Hi _ (w0 & w1 & E & H0 & H1)].
  - assert (forall k, seen_bits 0 k []) as Hnil.
    { intros k. split; [lia|]. intros b _. rewrite Z.testbit_0_l. symmetry. apply bool_decide_false. set_solver. }
    exists 0, 0. split_and!; try apply Hnil. done.
  - destruct (index_split i ltac:(lia)) as (k & b & Ei & Hk & Hb & Hsh & Hla).
    unfold marks in *. cbn [foldr]. rewrite E. unfold mark_seen. cbv zeta. rewrite Hsh, Hla, mark_bit by done.
    assert (k = 0 \/ k = 1) as [->| ->] by lia.
    + exists (w0 .| Z.shiftl 1 b), w1. split; [done|]. split.
      * rewrite Ei. by apply seen_bits_same.
      * apply seen_bits_other; [|done]. intros c Hc. lia.
    + exists w0, (w1 .| Z.shiftl 1 b). split; [done|]. split.
      * apply seen_bits_other; [|done]. intros c Hc. lia.
      * rewrite Ei. by apply seen_bits_same.
Qed.

(** A word has exactly its [r] low bits set. *)
Lemma ones_spec w r :
  0 <= w < 2 ^ 32 -> 0 <= r <= 32 ->
  w = Z.ones r <-> forall b, 0 <= b < 32 -> Z.testbit w b = bool_decide (b < r).
Proof.
  intros Hw Hr. split.
  - intros -> b Hb. case_bool_decide; [apply Z.ones_spec_low; lia|apply Z.ones_spec_high; lia].
  - intros Hbits. apply Z.bits_inj'. intros b Hb. destruct (Z.lt_ge_cases b 32).
    + rewrite Hbits by lia. case_bool_decide; symmetry; [apply Z.ones_spec_low; lia|apply Z.ones_spec_high; lia].
    + rewrite Z.ones_spec_high by lia. rewrite <- (Z.mod_small w (2 ^ 32)) by done.
      by apply Z.mod_pow2_bits_high; lia.
Qed.

Lemma ones_seen w k r indices :
  seen_bits w k indices -> 0 <= r <= 32 -> (forall i, i ∈ indices -> i < 32 * k + r \/ 32 * k + 32 <= i) ->
  w = Z.ones r <-> forall b, 0 <= b < r -> 32 * k + b ∈ indices.
Proof.
  intros [Hw Hbits] Hr Hin. rewrite ones_spec by done. split.
  - intros H b Hb. specialize (H b ltac:(lia)). rewrite Hbits in H by lia.
    rewrite (bool_decide_true (b < r)) in H by lia. by apply bool_decide_eq_true in H.
  - intros H b Hb. rewrite Hbits by done. apply bool_decide_ext. split; [|intros; apply H; lia].
    intros Hi. specialize (Hin _ Hi). lia.
Qed.

(** C31: Marking and testing together: with at most 64 required fields, and
    indices of required fields only, the final test of [pb_decode_noinit]
    passes exactly when every required field has been marked. *)
Theorem required_fields_seen n indices :
  0 <= n <= PB_MAX_REQUIRED_FIELDS -> Forall (fun i => 0 <= i < n) indices ->
  all_seen n (foldr mark_seen [0; 0] indices) = true <-> forall i, 0 <= i < n -> i ∈ indices.
Proof.
  intros Hn Hin. unfold PB_MAX_REQUIRED_FIELDS in Hn.
  destruct (marks_bits indices) as (w0 & w1 & E & H0 & H1).
  { eapply Forall_impl; [|exact Hin]. cbn. lia. }
  unfold marks in E. rewrite E. assert (forall i, i ∈ indices -> 0 <= i < n) as Hin'
    by (intros i Hi; exact (Forall_elem _ _ i Hin Hi)).
  destruct (index_split n ltac:(lia)) as (k & r & En & Hk & Hr & Hsh & Hla).
  unfold all_seen. rewrite Hsh, Hla. change (u32 (Z.lnot 0)) with (Z.ones 32).
  assert (Z.shiftr (Z.ones 32) (32 - r) = Z.ones r) as ->.
  { apply Z.bits_inj'. intros b Hb. rewrite Z.shiftr_spec by done.
    destruct (Z.lt_ge_cases b r); [rewrite !Z.ones_spec_low by lia; done|rewrite !Z.ones_spec_high by lia; done]. }
  assert (k = 0 \/ k = 1 \/ (k = 2 /\ r = 0)) as Hk3 by lia.
  assert (forall w q m, seen_bits w q indices -> 0 <= m <= 32 ->
    (forall i, i ∈ indices -> i < 32 * q + m \/ 32 * q + 32 <= i) ->
    (w =? Z.ones m) = true <-> forall b, 0 <= b < m -> 32 * q + b ∈ indices) as Hword.
  { intros w q m Hw Hm Hi. rewrite Z.eqb_eq. by apply ones_seen. }
  assert (forall m q, (forall b, 0 <= b < m -> 32 * q + b ∈ indices) <->
                      (forall i, 32 * q <= i < 32 * q + m -> i ∈ indices)) as Hshift.
  { intros m q. split; intros H; [|intros b Hb; apply H; lia].
    intros i Hi. replace i with (32 * q + (i - 32 * q)) by lia. apply H. lia. }
  assert (forall w q, seen_bits w q indices -> (r =? 0) = false -> k = q ->
    (w =? Z.ones r) = true <-> forall i, 32 * q <= i < n -> i ∈ indices) as Hpart.
  { intros w q Hw _ <-. rewrite (Hword w k r Hw), Hshift, <- En; [done|lia|].
    intros i Hi. specialize (Hin' i Hi). lia. }
  assert (forall w q, seen_bits w q indices -> q < k ->
    (w =? Z.ones 32) = true <-> forall i, 32 * q <= i < 32 * q + 32 -> i ∈ indices) as Hfull.
  { intros w q Hw _. rewrite (Hword w q 32 Hw), Hshift; [done|lia|]. intros i Hi. lia. }
  destruct Hk3 as [->|[->|[-> ->]]].
  - change (ztake 0 [w0; w1]) with (@nil Z). change (default 0 ([w0; w1] !! Z.to_nat 0)) with w0. cbn [forallb andb].
    destruct (Z.eqb_spec r 0) as [->|Hr0]; cbn [negb]; [split; [lia|done]|].
    rewrite (Hpart w0 0 H0) by (try apply Z.eqb_neq; done). done.
  - change (ztake 1 [w0; w1]) with [w0]. change (default 0 ([w0; w1] !! Z.to_nat 1)) with w1. cbn [forallb].
    rewrite andb_true_r, andb_true_iff, (Hfull w0 0 H0) by lia.
    destruct (Z.eqb_spec r 0) as [->|Hr0]; cbn [negb].
    + split; [intros [H _] i Hi; apply H; lia|]. intros H. split; [|done]. intros i Hi. apply H. lia.
    + rewrite (Hpart w1 1 H1) by (try apply Z.eqb_neq; done). split.
      * intros [Ha Hb] i Hi. destruct (Z.lt_ge_cases i 32); [apply Ha; lia|apply Hb; lia].
      * intros H. split; intros i Hi; apply H; lia.
  - change (ztake 2 [w0; w1]) with [w0; w1]. change (negb (0 =? 0)) with false. cbn [forallb].
    rewrite !andb_true_r, andb_true_iff, (Hfull w0 0 H0), (Hfull w1 1 H1) by lia. split.
    + intros [Ha Hb] i Hi. destruct (Z.lt_ge_cases i 32); [apply Ha; lia|apply Hb; lia].
    + intros H. split; intros i Hi; apply H; lia.
Qed.

(** Thirty-four required fields, the last one not seen. *)
Lemma required_fields_seen_witness : all_seen 34 (foldr mark_seen [0; 0] (seqZ 0 33)) = false.
Proof.
  apply not_true_is_false. intros H. apply (required_fields_seen 34 (seqZ 0 33)) with (i := 33) in H.
  - apply elem_of_seqZ in H. lia.
  - unfold PB_MAX_REQUIRED_FIELDS. lia.
  - apply Forall_seqZ. lia.
  - lia.
Defined.

(** ** Allocating the memory of pointer fields (allocate_field of pb_decode.c) *)

(** ** Cells of blocks *)
Lemma map_range_lookup a n c x :
  map_range a n c !! x = if decide (a <= x < a + Z.of_nat n) then Some None else c !! x.
Proof.
  revert a. induction n as [|n IH]; intros a; [cbn; case_decide; [lia|done]|]. cbn [map_range].
  destruct (decide (a = x)) as [->|Hne].
  - rewrite lookup_insert_eq. case_decide; [done|lia].
  - rewrite lookup_insert_ne, IH by done. repeat case_decide; lia || done.
Qed.

Lemma unmap_range_lookup a n c x :
  unmap_range a n c !! x = if decide (a <= x < a + Z.of_nat n) then None else c !! x.
Proof.
  revert a. induction n as [|n IH]; intros a; [cbn; case_decide; [lia|done]|]. cbn [unmap_range].
  destruct (decide (a = x)) as [->|Hne].
  - rewrite lookup_delete_eq. case_decide; [done|lia].
  - rewrite lookup_delete_ne, IH by done. repeat case_decide; lia || done.
Qed.

Lemma copy_cells_lookup src dst n from c x :
  copy_cells src dst n from c !! x =
  if decide (dst <= x < dst + Z.of_nat n)
  then match from !! (src + (x - dst)) with Some v => Some v | None => c !! x end
  else c !! x.
Proof.
  revert src dst. induction n as [|n IH]; intros src dst; [cbn; case_decide; [lia|done]|]. cbn [copy_cells].
  assert (copy_cells (src + 1) (dst + 1) n from c !! x =
          if decide (dst + 1 <= x < dst + 1 + Z.of_nat n)
          then match from !! (src + (x - dst)) with Some v => Some v | None => c !! x end else c !! x) as E.
  { rewrite IH. replace (src + 1 + (x - (dst + 1))) with (src + (x - dst)) by lia. done. }
  destruct (decide (dst = x)) as [->|Hne].
  - rewrite (decide_True (P := _ <= _ < _)) by lia. rewrite Z.sub_diag, Z.add_0_r.
    destruct (from !! src) as [v|] eqn:Es; [by rewrite lookup_insert_eq|]. rewrite IH. case_decide; [lia|done].
  - destruct (from !! src) as [v|]; [rewrite lookup_insert_ne by done|];
      rewrite E; repeat case_decide; lia || done.
Qed.

(** ** The overflow test *)

(** [size_too_large] is exact: it holds when the product does not fit a
    [size_t].  (The quick test against 2^32 only skips the division.) *)
Lemma size_too_large_spec data_size array_size :
  0 < data_size < 2 ^ 64 -> 0 < array_size < 2 ^ 64 ->
  size_too_large data_size array_size = true <-> 2 ^ 64 <= data_size * array_size.
Proof.
  intros Hd Ha. unfold size_too_large. change (u64 (-1)) with (2 ^ 64 - 1).
  rewrite andb_true_iff, orb_true_iff, !Z.leb_le, Z.ltb_lt.
  assert ((2 ^ 64 - 1) / array_size < data_size <-> 2 ^ 64 <= data_size * array_size) as ->.
  { pose proof (Z.div_mod (2 ^ 64 - 1) array_size ltac:(lia)).
    pose proof (Z.mod_pos_bound (2 ^ 64 - 1) array_size ltac:(lia)). split; intros ?; [nia|].
    apply Z.div_lt_upper_bound; [lia|]. lia. }
  split; [by intros [_ ?]|]. intros Hbig. split; [|done].
  destruct (Z.le_gt_cases (2 ^ 32) data_size); [by left|].
  destruct (Z.le_gt_cases (2 ^ 32) array_size); [by right|]. nia.
Qed.

(** ** [realloc] *)

(** The block a pointer field owns: none, or a live one of [n0] bytes. *)
Definition owns (m : mem) (old n0 : Z) : Prop :=
  (old = 0 /\ n0 = 0) \/ (old <> 0 /\ 0 < n0 /\ heap m !! old = Some n0 /\ mapped m old n0).

(** The address the allocator chooses for the new block: [malloc]'s for an
    empty field, else [realloc]'s, which may be the old one. *)
Definition new_block `{Allocator} (m : mem) (old n : Z) : option Z :=
  if old =? 0 then alloc_choose m n else realloc_choose m old n.

Definition heap_after (m : mem) (old p n : Z) : gmap Z Z := 
  <[p := n]> (if old =? 0 then heap m else delete old (heap m)).

Section allocate.
Context `{Allocator}.

Lemma new_block_fresh m old n0 n p :
  owns m old n0 -> new_block m old n = Some p ->
  0 < p /\ p + n <= 2 ^ 64 /\
  forall x, p <= x < p + n -> cells m !! x = None \/ old <= x < old + n0.
Proof.
  unfold new_block. intros [[-> ->]|(Hold & Hn0 & Hheap & Hmap)].
  - rewrite Z.eqb_refl. intros Hp. apply alloc_choose_fresh in Hp as (? & ? & ?). auto.
  - rewrite (proj2 (Z.eqb_neq old 0) Hold). intros Hp.
    destruct (realloc_choose_fresh _ _ _ _ _ Hheap Hp) as (? & ? & [?|[-> ?]]); [by auto|].
    split_and!; [done|done|]. intros x Hx. destruct (decide (x < old + n0)); [right; lia|left; auto with lia].
Qed.

(** The new block has the requested size and the old contents as far as they
    fit, the old block is gone, and nothing else has changed. *)
Lemma pb_realloc_spec m old n0 n p :
  owns m old n0 -> 0 < n -> new_block m old n = Some p ->
  exists m', pb_realloc m old n = Ret (p, m') /\ 0 < p /\ heap m' = heap_after m old p n /\
    mapped m' p n /\
    (forall i, 0 <= i < Z.min n0 n -> cells m' !! (p + i) = cells m !! (old + i)) /\
    (forall x, ~ (p <= x < p + n) -> ~ (old <= x < old + n0) -> cells m' !! x = cells m !! x).
Proof.
  intros Hown Hn Hp. destruct (new_block_fresh _ _ _ _ _ Hown Hp) as (Hp0 & _ & _).
  unfold pb_realloc, heap_after, malloc. unfold new_block in Hp.
  destruct Hown as [[-> ->]|(Hold & Hn0 & Hheap & Hmap)].
  - rewrite Z.eqb_refl in *. rewrite Hp. cbn [mbind option_bind].
    eexists. split; [reflexivity|]. cbn [cells heap].
    split; [done|]. split; [done|]. split; [|split].
    + intros x Hx. cbn [cells]. rewrite map_range_lookup, decide_True by lia. eauto.
    + intros i Hi. lia.
    + intros x Hx _. rewrite map_range_lookup, decide_False by lia. done.
  - rewrite (proj2 (Z.eqb_neq old 0) Hold) in *. rewrite Hheap, Hp.
    eexists. split; [reflexivity|]. cbn [cells heap]. split; [done|]. split; [done|]. split; [|split].
    + intros x Hx. cbn [cells]. rewrite copy_cells_lookup, map_range_lookup.
      rewrite (decide_True (P := p <= x < p + Z.of_nat (Z.to_nat n))) by lia.
      case_decide; [|eauto]. destruct (cells m !! (old + (x - p))); eauto.
    + intros i Hi. rewrite copy_cells_lookup, decide_True by lia. replace (old + (p + i - p)) with (old + i) by lia.
      destruct (Hmap (old + i) ltac:(lia)) as [c ->]. done.
    + intros x Hx Hx2. rewrite copy_cells_lookup, decide_False by lia.
      rewrite map_range_lookup, decide_False, unmap_range_lookup, decide_False by lia. done.
Qed.

Context (s : pb_istream_t) (m : mem) (fc : Z) (pdata old n0 data_size array_size : Z).
Context (Hptr : load_u 8 m pdata = Some old) (Hslot : mapped m pdata 8) (Hown : owns m old n0).
Context (Hapart : disjoint_ranges old n0 pdata 8).
Context (Hd : 0 < data_size < 2 ^ 64) (Ha : 0 < array_size < 2 ^ 64).

(** C29: [allocate_field] for a field that is empty or holds a block: a size that
    does not fit [size_t] is refused before the allocator is asked, a failed
    [malloc] or [realloc] is reported and leaves memory and pointer alone, and
    otherwise, whether or not the block moves, the pointer of the field holds a
    block of exactly [data_size * array_size] bytes with the old contents as far
    as they fit, and the rest of the memory is the same. *)
Theorem allocate_field_spec :
  let n := data_size * array_size in
  let call := allocate_field pdata data_size array_size (DState s m fc) in
  (2 ^ 64 <= n -> call = Ret (None, DState (pb_set_error "size too large" s) m fc)) /\
  (n < 2 ^ 64 -> new_block m old n = None -> call = Ret (None, DState (pb_set_error "realloc failed" s) m fc)) /\
  (forall p, n < 2 ^ 64 -> new_block m old n = Some p -> exists m', call = Ret (Some tt, DState s m' fc) /\
     load_u 8 m' pdata = Some p /\ heap m' = heap_after m old p n /\ mapped m' p n /\
     (forall i, 0 <= i < Z.min n0 n -> cells m' !! (p + i) = cells m !! (old + i)) /\
     (forall x, ~ (p <= x < p + n) -> ~ (old <= x < old + n0) -> ~ (pdata <= x < pdata + 8) ->
        cells m' !! x = cells m !! x)).
Proof using Ha Hapart Hd Hown Hptr Hslot.
  intros n call. subst n call. unfold allocate_field.
  pose proof (size_too_large_spec _ _ Hd Ha) as Hbig.
  assert (forall (k : Z -> M dstate unit), bind (on_memory (mload 8 pdata)) k (DState s m fc) = k old (DState s m fc)) as Hload.
  { intros k. eapply bind_some. unfold on_memory. cbn [stream memory fixed_count_size]. by rewrite (mload_run _ _ _ _ Hptr). }
  rewrite Hload, (proj2 (Z.eqb_neq data_size 0)), (proj2 (Z.eqb_neq array_size 0)) by lia. cbn [orb].
  split; [intros Hn; by rewrite (proj2 Hbig Hn)|].
  assert (data_size * array_size < 2 ^ 64 -> size_too_large data_size array_size = false) as Hfits.
  { intros Hn. destruct (size_too_large _ _); [|done]. pose proof (proj1 Hbig eq_refl). lia. }
  assert (data_size * array_size < 2 ^ 64 -> u64 (array_size * data_size) = data_size * array_size) as Hwrap.
  { intros Hn. rewrite Z.mul_comm. apply wrap_small. nia. }
  split.
  - intros Hn Hc. rewrite (Hfits Hn), (Hwrap Hn), (bind_some _ _ _ 0 (DState s m fc)).
    2: { unfold on_memory, pb_realloc, malloc. unfold new_block in Hc. cbn [stream memory fixed_count_size].
         destruct Hown as [[-> _]|(Hold & _ & Hh & _)].
         - rewrite Z.eqb_refl in *. by rewrite Hc.
         - rewrite (proj2 (Z.eqb_neq old 0) Hold) in *. by rewrite Hh, Hc. }
    reflexivity.
  - intros p Hn Hc. rewrite (Hfits Hn), (Hwrap Hn).
    destruct (pb_realloc_spec m old n0 (data_size * array_size) p Hown ltac:(nia) Hc)
      as (m1 & E & Hp0 & Hheap & Hmapped & Hcopy & Hrest).
    destruct (new_block_fresh _ _ _ _ _ Hown Hc) as (_ & Hp64 & Hfresh).
    assert (forall x, pdata <= x < pdata + 8 -> ~ (p <= x < p + data_size * array_size)) as Hnew.
    { intros x Hx Hx2. destruct (Hslot x Hx) as [c Hcell]. destruct (Hfresh x Hx2) as [E0|Hin]; [by rewrite E0 in Hcell|].
      unfold disjoint_ranges in Hapart. lia. }
    destruct (store_u_spec 8 m1 pdata p) as (m2 & Es & (Hh2 & Hc2 & Hd2) & Hl2).
    { intros x Hx. rewrite Hrest; [by apply Hslot|by apply Hnew|]. unfold disjoint_ranges in Hapart. lia. }
    exists m2. split.
    { erewrite bind_some by (unfold on_memory; cbn [stream memory fixed_count_size]; rewrite E; reflexivity).
      rewrite (proj2 (Z.eqb_neq p 0)) by lia. unfold on_memory. cbn [stream memory fixed_count_size].
      by rewrite (mstore_run _ _ _ _ _ Es). }
    split; [rewrite Hl2, Z.mod_small by (change (8 * Z.of_nat 8) with 64; nia); done|].
    split; [by rewrite Hh2|]. split; [intros x Hx; by apply Hd2, Hmapped|]. split.
    + intros i Hi. rewrite Hc2; [by apply Hcopy|]. intros Hx. apply (Hnew (p + i)); lia.
    + intros x Hx1 Hx2 Hx3. rewrite Hc2 by (change (Z.of_nat 8) with 8; done). by apply Hrest.
Qed.
End allocate.

(** Three items of four bytes for an empty pointer field at 64. *)
Lemma allocate_field_spec_witness :
  let s := pb_istream_from_buffer [] 0 in
  let m := mem_of 64 (repeat 0 8) in
  exists m', @allocate_field (bump_allocator (2 ^ 16)) 64 4 3 (DState s m 0) = Ret (Some tt, DState s m' 0) /\
    load_u 8 m' 64 = Some 4096 /\ mapped m' 4096 12.
Proof.
  intros s m.
  destruct (@allocate_field_spec (bump_allocator (2 ^ 16)) s m 0 64 0 0 4 3) as (_ & _ & Hok).
  - vm_compute. reflexivity.
  - intros x Hx. assert (Forall (fun x => is_Some (cells m !! x)) (seqZ 64 8)) as Hall
      by (apply (bool_decide_unpack _); vm_compute; exact I).
    apply (Forall_elem _ _ x Hall), elem_of_seqZ. lia.
  - by left.
  - left. lia.
  - lia.
  - lia.
  - destruct (Hok 4096) as (m' & E & Hl & _ & Hm & _).
    + lia.
    + vm_compute. reflexivity.
    + exists m'. split; [exact E|]. split; [exact Hl|exact Hm].
Defined.
