(* ===== verification/Edges.v ===== *)
(** * Range checks, and behaviours at the edges of the library

    The range checks are a theorem; the rest are executions of the model, on
    single inputs and descriptors on which the code does not do what it means
    to. *)
From S2P Require Import Prelude WireFormat Memory Descriptor Iter OStream Encode IStream Storage DecodeFields Decode Cct Wire Messages Codec.

(** ** The range checks of the integer decoders *)

(** [c] consumes [bs] and returns false with the message [msg]; the object may
    have been written. *)
Definition rejects {A} (c : M dstate A) (bs : list Z) (m m' : mem) (msg : string) : Prop :=
  forall rest k fc, zlength bs <= k < 2 ^ 64 ->
    c (DState (IStream ICBufRead (bs ++ rest) k None) m fc) =
    Ret (None, DState (IStream ICBufRead rest (k - zlength bs) (Some msg)) m' fc).

(** The [n]-byte integer [x] is stored, or refused as too large. *)
Definition stores_or_rejects (c : M dstate unit) (bs : list Z) (n : nat) (load : mem -> Z -> option Z)
  (p x : Z) (in_range : Prop) : Prop :=
  forall m, mapped m p (Z.of_nat n) -> exists m', updated p (Z.of_nat n) m m' /\
    ((in_range /\ decodes_at c bs m m' tt /\ load m' p = Some x) \/
     (~ in_range /\ rejects c bs m m' "integer too large")).

Section clamp.
Context (n : nat) (f : pb_field_t) (Hn : int_size n f) (p : Z).

(** What the three decoders have in common. *)
Definition decode_clamped (dec : M pb_istream_t Z) (g : Z -> Z) (conv : Z -> Z -> Z) : M dstate unit :=
  value <- on_stream dec;;
  clamped <- store_clamped conv f p (g value);;
  if negb (clamped =? g value) then pb_return_error "integer too large" else ret tt.

Lemma pb_dec_uvarint_clamped : pb_dec_uvarint f p = decode_clamped pb_decode_varint (fun x => x) wrap.
Proof. unfold pb_dec_uvarint, decode_clamped. reflexivity. Qed.
Lemma pb_dec_svarint_clamped : pb_dec_svarint f p = decode_clamped pb_decode_svarint (fun x => x) sext.
Proof. unfold pb_dec_svarint, decode_clamped. reflexivity. Qed.
Lemma pb_dec_varint_clamped :
  pb_dec_varint f p = decode_clamped pb_decode_varint (fun v => if data_size f =? 8 then s64 v else s32 v) sext.
Proof. unfold pb_dec_varint, decode_clamped. reflexivity. Qed.

Lemma decode_clamped_cases dec g conv bs v load (in_range : Prop) :
  decodes dec bs v ->
  (in_range <-> conv (8 * Z.of_nat n) (g v) = g v) ->
  (forall m m', in_range -> updated p (Z.of_nat n) m m' -> 
     load_u n m' p = Some (g v mod 2 ^ (8 * Z.of_nat n)) -> load m' p = Some (g v)) ->
  stores_or_rejects (decode_clamped dec g conv) bs n load p (g v) in_range.
Proof using Hn.
  intros Hdec Hrange Hload m Hm.
  destruct (store_u_spec n m p (conv (8 * Z.of_nat n) (g v)) Hm) as (m' & Es & Hu & Hl).
  exists m'. split; [done|]. destruct (decide (conv (8 * Z.of_nat n) (g v) = g v)) as [E|E].
  - left. split; [by apply Hrange|]. split; [|eapply Hload; [by apply Hrange|done|by rewrite Hl, E]].
    unfold decode_clamped. eapply decodes_at_stream; [exact Hdec|]. by eapply decodes_at_store_int.
  - right. split; [by rewrite Hrange|]. intros rest k fc Hk. unfold decode_clamped.
    assert (on_stream dec (DState (IStream ICBufRead (bs ++ rest) k None) m fc) =
      Ret (Some v, DState (IStream ICBufRead rest (k - zlength bs) None) m fc)) as Hd.
    { unfold on_stream. cbn [stream memory fixed_count_size]. by rewrite Hdec. }
    rewrite (bind_some _ _ _ _ _ Hd), (store_clamped_size conv n) by done. rewrite bind_assoc.
    rewrite (bind_some _ _ _ tt (DState (IStream ICBufRead rest (k - zlength bs) None) m' fc)).
    + rewrite bind_ret, (proj2 (Z.eqb_neq _ _) E). reflexivity.
    + unfold on_memory. cbn [stream memory fixed_count_size]. by rewrite (mstore_run _ _ _ _ _ Es).
Qed.

Lemma sext_range x : - 2 ^ (8 * Z.of_nat n - 1) <= x < 2 ^ (8 * Z.of_nat n - 1) <-> sext (8 * Z.of_nat n) x = x.
Proof using Hn.
  pose proof (int_size_bounds _ _ Hn). split; [apply sext_small; lia|]. intros <-. apply sext_bound. lia.
Qed.

Lemma wrap_range x : 0 <= x -> x < 2 ^ (8 * Z.of_nat n) <-> wrap (8 * Z.of_nat n) x = x.
Proof. intros Hx. split; [intros; by apply wrap_small|]. intros <-. apply wrap_bound. lia. Qed.

Lemma load_s_in_range m m' x :
  - 2 ^ (8 * Z.of_nat n - 1) <= x < 2 ^ (8 * Z.of_nat n - 1) -> updated p (Z.of_nat n) m m' ->
  load_u n m' p = Some (x mod 2 ^ (8 * Z.of_nat n)) -> load_s n m' p = Some x.
Proof using Hn.
  intros Hx _ Hl. pose proof (int_size_bounds _ _ Hn).
  rewrite (load_s_of_u _ _ _ _ Hl), sext_wrap by lia. f_equal. by apply sext_range.
Qed.

(** C30: Every varint into every integer field: [uint] and [sint] fields store the
    value when it fits the member of the structure and otherwise refuse it;
    [int], [bool] and enum fields of up to four bytes first reduce the value
    to 32 bits, as two's complement, and then do the same. *)
Theorem integer_ranges :
  (forall v, 0 <= v < 2 ^ 64 ->
     stores_or_rejects (pb_dec_uvarint f p) (varint_bytes v) n (load_u n) p v (v < 2 ^ (8 * Z.of_nat n))) /\
  (forall v, - 2 ^ 63 <= v < 2 ^ 63 ->
     stores_or_rejects (pb_dec_svarint f p) (varint_bytes (zigzag v)) n (load_s n) p v
       (- 2 ^ (8 * Z.of_nat n - 1) <= v < 2 ^ (8 * Z.of_nat n - 1))) /\
  (forall v, 0 <= v < 2 ^ 64 ->
     let x := if data_size f =? 8 then s64 v else s32 v in
     stores_or_rejects (pb_dec_varint f p) (varint_bytes v) n (load_s n) p x
       (- 2 ^ (8 * Z.of_nat n - 1) <= x < 2 ^ (8 * Z.of_nat n - 1))).
Proof using Hn.
  split; [|split].
  - intros v Hv. rewrite pb_dec_uvarint_clamped.
    apply (decode_clamped_cases _ (fun x => x)).
    + by apply pb_decode_varint_decodes.
    + apply wrap_range. lia.
    + intros m m' Hr _ ->. by rewrite Z.mod_small by lia.
  - intros v Hv. rewrite pb_dec_svarint_clamped.
    apply (decode_clamped_cases _ (fun x => x)).
    + by apply pb_decode_svarint_decodes.
    + apply sext_range.
    + intros m m' Hr Hu Hl. by eapply load_s_in_range.
  - intros v Hv x.
    rewrite pb_dec_varint_clamped.
    apply (decode_clamped_cases _ (fun v => if data_size f =? 8 then s64 v else s32 v)).
    + by apply pb_decode_varint_decodes.
    + apply sext_range.
    + intros m m' Hr Hu Hl. by eapply load_s_in_range.
Qed.
End clamp.

(** 300 does not fit one byte; 200 as a signed value neither. *)
Lemma integer_ranges_witness :
  let f := Field 1 (PB_ATYPE_STATIC .| PB_HTYPE_OPTIONAL .| PB_LTYPE_UVARINT) 0 0 1 0 PNull in
  stores_or_rejects (pb_dec_uvarint f 64) (varint_bytes 300) 1 (load_u 1) 64 300 (300 < 256) /\
  stores_or_rejects (pb_dec_varint f 64) (varint_bytes 200) 1 (load_s 1) 64 200 (- 128 <= 200 < 128).
Proof.
  intros f. assert (int_size 1 f) as Hf by (split; [set_solver|reflexivity]).
  destruct (integer_ranges 1 f Hf 64) as (Hu & _ & Hs).
  split; [apply (Hu 300)|apply (Hs 200)]; lia.
Defined.

(** ** Behaviours at the edges of the library *)

Section edges.
#[local] Existing Instances gdt_cct_tables no_encode_callbacks.
#[local] Instance no_decode_callbacks' : DecodeCallbacks :=
  {| field_decode_cb := fun _ _ _ => ret tt; ext_decode_cb := fun _ _ _ _ => ret tt |}.

(** [pb_decode_varint32] counts the bit position in eight bits. After 37
    continuation bytes the position has wrapped, and a varint of 38 bytes,
    far beyond the ten bytes of a varint, is accepted: its last seven bits
    land at bit 3. *)
Example varint32_position_wraps :
  pb_decode_varint32 (IStream ICBufRead (repeat 0x80 37 ++ [0x7F]) 38 None) =
  Ret (Some 1016, IStream ICBufRead [] 0 None).
Proof. vm_compute. reflexivity. Qed.

(** An event of a [LogRequest], with source extension "x". *)
Definition event : list Z := [26; 3; 50; 1; 120].
Definition request_memory : mem := mem_of 256 (repeat 0 (Z.to_nat (sizeof gdt_cct_LogRequest))).
Definition decode_request (limit : Z) (input : list Z) : res (option unit * dstate) :=
  @pb_decode gdt_cct_tables (bump_allocator limit) _ 4 gdt_cct_LogRequest_fields 256
    (DState (pb_istream_from_buffer input (zlength input)) request_memory 0).

(** A pointer array counts an element before it is allocated. When there is
    memory for the first event of a [LogRequest] but not for the second,
    [pb_release] follows the count beyond the array; one event decodes in this
    memory, and both do when there is enough. *)
Example release_after_failed_realloc :
  decode_request (4096 + sizeof gdt_cct_LogEvent + 64) (event ++ event) = UB /\
  (exists d, decode_request (4096 + sizeof gdt_cct_LogEvent + 64) event = Ret (Some tt, d)) /\
  exists d, decode_request (2 ^ 20) (event ++ event) = Ret (Some tt, d).
Proof. split; [vm_compute; reflexivity|]. split; eexists; vm_compute; reflexivity. Qed.

(** A union with a number (tag 1) and a pointer to a string (tag 2). *)
Definition union_struct : struct_t :=
  [[scalar_member "which_u" 4]; [scalar_member "u.number" 8; ptr_member "u.text" 1]].
Definition union_fields : list pb_field_t :=
  [PB_ONEOF_STATIC 1 union_struct "number" (PB_DATAOFFSET_FIRST union_struct "u.number" "u.number")
     PB_LTYPE_UVARINT PNull "u";
   PB_ONEOF_POINTER 2 union_struct "text" (PB_DATAOFFSET_UNION union_struct "u.text" "u.number")
     PB_LTYPE_STRING PNull "u";
   PB_LAST_FIELD].
Definition decode_union (input : list Z) : res (option unit * dstate) :=
  @pb_decode gdt_cct_tables (bump_allocator (2 ^ 20)) _ 2 union_fields 256
    (DState (pb_istream_from_buffer input (zlength input)) (mem_of 256 (repeat 0 16)) 0).

(** A static member of a union is not cleared when a pointer member replaces
    it: the number, chosen by the sender, is given to [realloc]. The pointer
    member alone decodes. *)
Example union_static_then_pointer :
  decode_union [8; 42; 18; 1; 120] = UB /\
  exists d, decode_union [18; 1; 120] = Ret (Some tt, d).
Proof. split; [vm_compute; reflexivity|]. eexists. vm_compute. reflexivity. Qed.

(** An optional pointer to a structure of 16 bytes, in a structure of 8. *)
Definition pointer_struct : struct_t := [[ptr_member "sub" 16]].
Definition pointer_fields : list pb_field_t :=
  [PB_OPTIONAL_POINTER 1 pointer_struct "sub" (PB_DATAOFFSET_FIRST pointer_struct "sub" "sub")
     PB_LTYPE_SUBMESSAGE (PFields gdt_cct_NetworkConnectionInfo_fields_id);
   PB_LAST_FIELD].

(** The proto3 test of [encode_basic_field] compares [data_size] bytes at the
    pointer itself: encoding a null pointer to 16 bytes reads 8 bytes beyond
    the structure. With 8 more zero bytes behind it nothing is written. *)
Example null_pointer_overread :
  pb_encode (mem_of 256 (repeat 0 8)) 2 pointer_fields 256 PB_OSTREAM_SIZING = UB /\
  pb_encode (mem_of 256 (repeat 0 16)) 2 pointer_fields 256 PB_OSTREAM_SIZING =
    Ret (Some tt, PB_OSTREAM_SIZING).
Proof. split; vm_compute; reflexivity. Qed.

(** Two booleans, a fixed-count array, and two bytes after them. *)
Definition fixed_count_struct : struct_t := [[Member "flags" 2 1 1]; [scalar_member "x" 1]; [scalar_member "y" 1]].
Definition fixed_count_fields : list pb_field_t :=
  [PB_REPEATED_FIXED_COUNT_FIELD 1 fixed_count_struct "flags"
     (PB_DATAOFFSET_FIRST fixed_count_struct "flags" "flags") PB_LTYPE_VARINT PNull;
   PB_LAST_FIELD].

(** A fixed-count array has no count member: setting the count to 0 writes
    four bytes at the array, here also [x] and [y], which are not fields of
    the message, or beyond the end of the structure. *)
Example fixed_count_default_overwrites :
  pb_message_set_to_defaults 1 fixed_count_fields 256 (mem_of 256 [1; 1; 7; 7]) =
    Ret (Some tt, mem_of 256 [0; 0; 0; 0]) /\
  pb_message_set_to_defaults 1 fixed_count_fields 256 (mem_of 256 [1; 1]) = UB.
Proof. split; vm_compute; reflexivity. Qed.
End edges.
