(* ===== verification/Termination.v ===== *)
(** * The encoder terminates

    [fuel] bounds the nesting of messages; a message type whose submessages
    nest at most [d] deep never exhausts a fuel of [d], and no loop of the
    encoder runs away, whatever the memory holds. *)
From S2P Require Import Prelude WireFormat Memory Descriptor Iter OStream Encode EncodeSize Cct CoreConfig Messages.

Definition total {S A} (c : M S A) : Prop := forall s, c s <> NoFuel.
Definition ends {A} (r : res A) : Prop := r <> NoFuel.

(** ** Rules *)
Section rules.
Context {S A B : Type}.

Lemma total_ret (a : A) : total (S := S) (ret a).
Proof. done. Qed.
Lemma total_false : total (S := S) (A := A) return_false.
Proof. done. Qed.
Lemma total_undefined : total (S := S) (A := A) undefined.
Proof. done. Qed.
Lemma total_error `{HasErrmsg S} msg : total (S := S) (A := A) (pb_return_error msg).
Proof. done. Qed.
Lemma total_get : total (S := S) get.
Proof. done. Qed.
Lemma total_modify (f : S -> S) : total (modify f).
Proof. done. Qed.

Lemma total_bind (c : M S A) (k : A -> M S B) : total c -> (forall a, total (k a)) -> total (bind c k).
Proof.
  intros Hc Hk s. unfold bind. specialize (Hc s). destruct (c s) as [[[a|] s1]| |]; try done. apply Hk.
Qed.

Lemma total_attempt (c : M S A) : total c -> total (attempt c).
Proof. intros Hc s. unfold attempt. specialize (Hc s). by destruct (c s) as [[o s1]| |]. Qed.

Lemma total_lift (r : res A) : ends r -> total (S := S) (lift_res r).
Proof. intros Hr s. unfold lift_res. by destruct r. Qed.

Lemma total_need (o : option A) : total (S := S) (need o).
Proof. apply total_lift. by destruct o. Qed.

Lemma total_on_local {T} (t : T) (c : M T A) : total c -> total (S := S) (on_local t c).
Proof. intros Hc s. unfold on_local. specialize (Hc t). by destruct (c t). Qed.

End rules.

Lemma total_for_loop {S A} n (body : A -> M S A) x : (forall x, total (body x)) -> total (for_loop n body x).
Proof. intros Hb. revert x. induction n as [|n IH]; intros x; [apply total_ret|]. cbn. by apply total_bind. Qed.

Lemma ends_bind {A B} (r : res A) (k : A -> res B) : ends r -> (forall a, r = Ret a -> ends (k a)) -> ends (res_bind r k).
Proof. intros Hr Hk. destruct r; try done. by apply Hk. Qed.

Lemma ends_option {A} (o : option A) : ends (of_option o).
Proof. by destruct o. Qed.

(** A loop with a counter. *)
Lemma ends_while {X R} (body : X -> res (X + R)) (I : X -> Prop) (m : X -> Z) x :
  (forall x, I x -> ends (body x) /\ forall x', body x = Ret (inl x') -> I x' /\ 0 <= m x' < m x) ->
  I x -> 0 <= m x < 2 ^ 64 -> ends (while body x).
Proof.
  intros Hb HI Hm. apply (while_ind body I m); [|done|done].
  intros y Hy. destruct (Hb y Hy) as [He Hstep]. destruct (body y) as [[y'|r]| |]; try done. by apply Hstep.
Qed.

Create HintDb total.
#[export] Hint Resolve total_ret total_false total_undefined total_error total_get total_modify total_need
  total_lift total_attempt ends_option : total.

(** One step through the structure of a function. *)
Ltac total_step :=
  match goal with
  | |- total (bind _ _) => apply total_bind; [|intros]
  | |- total (match ?x with _ => _ end) => destruct x
  | |- total (for_loop _ _ _) => apply total_for_loop; intros
  | |- total (on_local _ _) => apply total_on_local
  | |- total (attempt _) => apply total_attempt
  | |- total _ => solve [auto with total]
  end.

(** ** Streams *)
Lemma pb_write_total buf n : total (pb_write buf n).
Proof.
  unfold pb_write. repeat total_step. intros s'. unfold call_ocallback, buf_write.
  destruct (o_callback s'); [done|by case_match|]. case_match; [|done]. by destruct (f _ _) as [ok [[[st mx] bw] e]].
Qed.
#[export] Hint Resolve pb_write_total : total.

Lemma varint_loop_ends value : ends (while varint_body (value, [])).
Proof.
  apply (ends_while _ (fun st => zlength st.2 <= 10) (fun st => 11 - zlength st.2)); [|done|done].
  intros [v buffer] Hb. cbn [snd] in *. pose proof (zlength_nonneg buffer). unfold varint_body.
  destruct (v =? 0); [done|]. destruct (Z.leb_spec 10 (zlength buffer)); [done|]. split; [done|].
  intros st [= <-]. cbn [snd]. rewrite zlength_app. change (zlength [_]) with 1. lia.
Qed.

Lemma pb_encode_varint_total value : total (pb_encode_varint value).
Proof.
  unfold pb_encode_varint. repeat total_step.
  - apply total_lift, varint_loop_ends.
  - apply total_lift. unfold unset_top_bit. by case_match.
Qed.
#[export] Hint Resolve pb_encode_varint_total : total.

Lemma pb_encode_string_total b n : total (pb_encode_string b n).
Proof. unfold pb_encode_string. repeat total_step. Qed.
Lemma pb_encode_tag_for_field_total f : total (pb_encode_tag_for_field f).
Proof. unfold pb_encode_tag_for_field, pb_encode_tag. repeat total_step. Qed.
#[export] Hint Resolve pb_encode_string_total pb_encode_tag_for_field_total : total.

(** ** Message types of bounded depth *)
Section depth.
Context `{Tables}.

(** No extensions, and submessages that satisfy [P]. *)
Definition field_nests (P : list pb_field_t -> Prop) (f : pb_field_t) : Prop :=
  field_ok f /\ PB_LTYPE (type f) <> PB_LTYPE_EXTENSION /\
  (PB_LTYPE (type f) = PB_LTYPE_SUBMESSAGE ->
   match ptr f with PFields t => from_option P False (fields_of t) | _ => False end).

(** The descriptor arrays that nest less than [d] deep. *)
Fixpoint nests (d : nat) (fields : list pb_field_t) : Prop :=
  match d with
  | O => False
  | S d' => Forall (field_nests (nests d')) fields /\ Z.of_nat (length fields) < 2 ^ 63
  end.

#[export] Instance nests_dec d fields : Decision (nests d fields).
Proof.
  revert fields. induction d as [|d IH]; intros fields; cbn [nests]; [apply _|].
  unfold field_nests. apply and_dec; [|apply _]. apply Forall_dec. intros f.
  repeat apply and_dec; try apply _. apply impl_dec; [apply _|]. destruct (ptr f); try apply _.
  destruct (fields_of table); cbn; apply _.
Defined.
End depth.

(** ** Loops over fields *)
Lemma iter_next_more it it' :
  pb_field_iter_next it = Ret (true, it') ->
  start it' = start it /\ (pos it < pos it' < length (start it))%nat.
Proof.
  intros E. destruct (iter_next_start _ _ _ E) as [Es _]. split; [done|]. revert E.
  unfold pb_field_iter_next. destruct (start it !! pos it) as [prev|]; [|done].
  destruct (tag prev =? 0); [done|].
  destruct (start it !! S (pos it)) as [next|] eqn:En; [|done]. apply lookup_lt_Some in En.
  destruct (tag next =? 0).
  - by destruct (pb_field_iter_begin (start it) (dest_struct it)) as [[b0 it0]| |].
  - destruct (same_union prev next); intros [= <-]; cbn [pos]; lia.
Qed.

Lemma iter_next_ends it : ends (pb_field_iter_next it).
Proof.
  unfold pb_field_iter_next, pb_field_iter_begin. by repeat case_match.
Qed.

Definition in_fields (fields : list pb_field_t) (it : pb_field_iter_t) : Prop :=
  start it = fields /\ (pos it < length fields)%nat.

Lemma iter_each_total {S} fields (body : pb_field_iter_t -> M S unit) it :
  Z.of_nat (length fields) < 2 ^ 63 -> in_fields fields it ->
  (forall it, in_fields fields it -> total (body it)) -> total (iter_each body it).
Proof.
  intros Hlen Hit Hbody s. unfold iter_each.
  apply (whileM_ind _ (fun it _ => in_fields fields it)
    (fun it _ => Z.of_nat (length fields) - Z.of_nat (pos it)) (fun r => r <> NoFuel)); [|done|].
  - intros y t [Hs Hp]. unfold bind at 1. pose proof (Hbody y (conj Hs Hp) t) as Hb.
    destruct (body y t) as [[[[]|] t1]| |]; try done. unfold bind, lift_res.
    pose proof (iter_next_ends y) as He. destruct (pb_field_iter_next y) as [[[] it']| |] eqn:En; try done. cbn.
    destruct (iter_next_more _ _ En) as [Es [H1 H2]]. rewrite Hs in *. split; [by split|]. lia.
  - destruct Hit. lia.
Qed.

Lemma iter_forall_ends fields p it :
  Z.of_nat (length fields) < 2 ^ 63 -> in_fields fields it ->
  (forall it, in_fields fields it -> ends (p it)) -> ends (iter_forall p it).
Proof.
  intros Hlen Hit Hp. unfold iter_forall.
  apply (ends_while _ (in_fields fields) (fun it => Z.of_nat (length fields) - Z.of_nat (pos it))); [|done|destruct Hit; lia].
  intros y Hy. split.
  - apply ends_bind; [by apply Hp|]. intros [] _; [|done]. apply ends_bind; [apply iter_next_ends|]. by intros [[] ?] _.
  - intros it' E. destruct (p y) as [[]| |]; try done. cbn in E.
    destruct (pb_field_iter_next y) as [[[] it2]| |] eqn:En; try done. cbn in E. injection E as <-.
    destruct (iter_next_more _ _ En) as [Es [H1 H2]]. destruct Hy as [Hs Hpos]. rewrite Hs in *. split; [by split|]. lia.
Qed.

Lemma iter_begin_ends fields dest : ends (pb_field_iter_begin fields dest).
Proof. unfold pb_field_iter_begin. by destruct (fields !! 0%nat). Qed.

Lemma iter_begin_in fields dest b it : pb_field_iter_begin fields dest = Ret (b, it) -> in_fields fields it.
Proof.
  unfold pb_field_iter_begin. destruct (fields !! 0%nat) eqn:E; [|done]. intros [= _ <-].
  split; [done|]. cbn. by eapply lookup_lt_Some.
Qed.

Lemma cur_ends it : ends (cur it).
Proof. apply ends_option. Qed.

Lemma cur_in fields it f : in_fields fields it -> cur it = Ret f -> f ∈ fields.
Proof. intros [<- _]. apply cur_elem. Qed.

(** ** The encoder *)
Class TotalCallbacks `{EncodeCallbacks} : Prop := {
  field_encode_cb_total : forall cb m f arg, total (field_encode_cb cb m f arg);
}.

Section encoder.
Context `{HT : Tables} `{HC : TotalCallbacks}.
Variable m : mem.

Lemma strnlen_ends src n : 0 <= n < 2 ^ 64 -> ends (strnlen m src n).
Proof.
  intros Hn. unfold strnlen. apply (ends_while _ (fun k => 0 <= k <= n) (fun k => n - k)); [|lia|lia].
  intros k Hk. split; [repeat case_match; done|]. intros k' E.
  destruct (Z.ltb_spec k n); [|done]. destruct (load_byte m (src + k)) as [c|]; [|done].
  destruct (c =? 0); [done|]. injection E as <-. lia.
Qed.

Lemma all_zero_ends data n : n < 2 ^ 64 -> ends (all_zero m data n).
Proof.
  intros Hn. unfold all_zero.
  apply (ends_while _ (fun k => 0 <= k) (fun k => Z.max 0 (n - k))); [|lia|lia].
  intros k Hk. split; [repeat case_match; done|]. intros k' E.
  destruct (Z.ltb_spec k n); [|done]. destruct (load_byte m (data + k)) as [c|]; [|done].
  destruct (c =? 0); [|done]. injection E as <-. lia.
Qed.

(** The field is a submessage: [Hs] speaks of its descriptor. *)
Ltac submessage Hs :=
  match goal with
  | H : (_ && (PB_LTYPE _ =? PB_LTYPE_SUBMESSAGE)) = true |- _ =>
      apply andb_true_iff in H as [_ H]; apply Z.eqb_eq in H; specialize (Hs H)
  | H : (PB_LTYPE _ =? PB_LTYPE_SUBMESSAGE) = true |- _ => apply Z.eqb_eq in H; specialize (Hs H)
  end.

Lemma proto3_ends k f data : field_nests (nests k) f -> ends (pb_check_proto3_default_value m k f data).
Proof using HT.
  revert f data. induction k as [|k IH]; intros f data (Hf & He & Hs);
    assert (data_size f < 2 ^ 64) as Hsize by (unfold field_ok in Hf; lia);
    cbn [pb_check_proto3_default_value].
  all: repeat match goal with
    | |- ends (res_bind (of_option _) _) => apply ends_bind; [apply ends_option|done]
    | |- ends (all_zero _ _ _) => by apply all_zero_ends
    | |- ends (Ret _) => done
    | |- ends (if ?b then _ else _) => destruct b eqn:?
    end.
  - submessage Hs. destruct (ptr f); try done. by destruct (fields_of table).
  - submessage Hs. destruct (ptr f) as [|t|]; try done. destruct (fields_of t) as [fs|]; [|done]. destruct Hs as [Hall Hlen].
    cbn [of_option res_bind]. apply ends_bind; [apply iter_begin_ends|]. intros [b it] Ebegin. cbn [fst snd].
    destruct b; [|done]. apply (iter_forall_ends fs); [done|by eapply iter_begin_in|].
    intros it' Hit. apply ends_bind; [apply cur_ends|]. intros g Hg. apply IH.
    exact (Forall_elem _ _ g Hall (cur_in _ _ _ Hit Hg)).
Qed.

Section with_encoder.
Variable enc : encode_fun.

(** The encoder of submessages terminates on the submessages of [f]. *)
Abbreviation submessages_total := (field_nests (fun fields => forall src, total (enc fields src))).

Lemma pb_encode_submessage_total fields src :
  (forall src, total (enc fields src)) -> total (pb_encode_submessage enc fields src).
Proof.
  intros He. unfold pb_encode_submessage, submessage_body. repeat total_step; apply He.
Qed.

Lemma encoder_total f func src :
  submessages_total f -> PB_ENCODERS m enc (PB_LTYPE (type f)) = Ret func -> total (call_encoder func f src).
Proof.
  intros (Hf & He & Hs) E. unfold PB_ENCODERS in E.
  repeat match type of E with
  | (if ?b then _ else _) = _ => destruct b eqn:?; [injection E as <-; cbn [call_encoder]|]
  end; [..|done].
  all: try (unfold pb_enc_varint, pb_enc_uvarint, pb_enc_svarint, pb_enc_fixed32, pb_enc_fixed64, pb_enc_bytes,
    pb_enc_fixed_length_bytes, pb_encode_svarint, pb_encode_fixed32, pb_encode_fixed64; repeat total_step; done).
  - unfold pb_enc_string. repeat total_step. apply total_lift, strnlen_ends.
    unfold field_ok in Hf. destruct (PB_ATYPE (type f) =? PB_ATYPE_POINTER); [|lia].
    change (u64 (-1)) with (2 ^ 64 - 1). lia.
  - submessage Hs. unfold pb_enc_submessage.
    destruct (ptr f) as [|t|]; [done| |done]. destruct (fields_of t) as [fields|]; [|done].
    by apply pb_encode_submessage_total.
Qed.

Lemma encode_array_total f data count func :
  (forall src, total (func f src)) -> total (encode_array m f data count func).
Proof. intros Hf. unfold encode_array, pb_encode_tag. repeat total_step; apply Hf. Qed.

Lemma encode_field_total k f data :
  field_nests (nests k) f -> submessages_total f -> total (encode_field m k enc f data).
Proof using HC HT.
  intros Hk Hsub. unfold encode_field.
  assert (total (encode_basic_field m k enc f data)) as Hbasic.
  { unfold encode_basic_field. intros s.
    assert (ends (PB_ENCODERS m enc (PB_LTYPE (type f)))) as Hends by (unfold PB_ENCODERS; by repeat case_match).
    destruct (PB_ENCODERS m enc (PB_LTYPE (type f))) as [func| |] eqn:E; [|done|done].
    rewrite (bind_lift _ _ _ func) by done. revert s.
    assert (forall src, total (call_encoder func f src)) as Hfunc by (intros; by apply encoder_total).
    match goal with |- forall s, ?c s <> NoFuel => change (total c) end. cbv zeta.
    apply total_bind; [repeat total_step; by apply total_lift, proto3_ends|]. intros has.
    repeat total_step; try apply Hfunc. by apply encode_array_total. }
  unfold encode_callback_field. repeat total_step; try done. apply field_encode_cb_total.
Qed.
End with_encoder.

Lemma pb_encode_total d fields src : nests d fields -> total (pb_encode m d fields src).
Proof using HC HT.
  revert fields src. induction d as [|d IH]; intros fields src; [done|]. intros [Hall Hlen].
  cbn [pb_encode]. unfold pb_encode_body. intros s.
  pose proof (iter_begin_ends fields src) as Hb.
  destruct (pb_field_iter_begin fields src) as [[b it]| |] eqn:E; [|done|done].
  rewrite (bind_lift _ _ _ (b, it)) by done. revert s.
  match goal with |- forall s, ?c s <> NoFuel => change (total c) end. destruct b; cbn [negb]; [|apply total_ret].
  apply (iter_each_total fields); [done|by eapply iter_begin_in|].
  intros it' Hit s. destruct (cur it') as [f| |] eqn:Ec; [|done|by destruct (cur_ends it')].
  rewrite (bind_lift _ _ _ f) by done. revert s.
  match goal with |- forall s, ?c s <> NoFuel => change (total c) end.
  pose proof (Forall_elem _ _ f Hall (cur_in _ _ _ Hit Ec)) as Hf.
  destruct Hf as (Hok & He & Hs). rewrite (proj2 (Z.eqb_neq _ _) He).
  apply encode_field_total; [by split_and!|]. split_and!; [apply Hok..|done|].
  intros Hsub. specialize (Hs Hsub). destruct (ptr f); try done. destruct (fields_of table); [|done].
  cbn in *. intros. by apply IH.
Qed.

(** C32: The encoder returns, for every memory, structure and stream, if the
    callbacks of the application do: a message type that nests less than [d]
    deep needs no more fuel than [d], and the loops over fields, arrays, strings
    and zero bytes all end. (Extension fields are excluded: the list of
    extensions can be cyclic.) *)
Theorem pb_encode_terminates d fields src s :
  nests d fields ->
  pb_encode m d fields src s <> NoFuel /\ pb_encode_delimited m d fields src s <> NoFuel /\
  pb_encode_nullterminated m d fields src s <> NoFuel /\ pb_get_encoded_size m d fields src <> NoFuel.
Proof using HC HT.
  intros Hd. pose proof (fun src => pb_encode_total d fields src Hd) as Ht. split_and!.
  - apply Ht.
  - by apply pb_encode_submessage_total.
  - unfold pb_encode_nullterminated. apply total_bind; [apply Ht|]. intros. apply pb_write_total.
  - unfold pb_get_encoded_size. specialize (Ht src PB_OSTREAM_SIZING).
    by destruct (pb_encode m d fields src PB_OSTREAM_SIZING) as [[[|] ?]| |].
Qed.
End encoder.

(** The messages of the program nest at most four deep: [BatchedLogRequest],
    [LogRequest], [LogEvent], [NetworkConnectionInfo]. *)
Lemma generated_nests : Forall (fun msg => @nests gdt_cct_tables 4 (msg_fields msg)) messages.
Proof. apply (bool_decide_unpack _). vm_compute. exact I. Qed.

Section witness.
#[local] Existing Instances gdt_cct_tables no_encode_callbacks.
#[local] Instance no_encode_callbacks_total : TotalCallbacks := {| field_encode_cb_total := fun _ _ _ _ _ => total_ret tt _ |}.

(** An empty batch: no requests behind its pointer. *)
Lemma pb_encode_terminates_witness :
  let m := mem_of 64 (repeat 0 256) in
  let fields := gdt_cct_BatchedLogRequest_fields in
  nests 4 fields /\
  pb_encode m 4 fields 64 PB_OSTREAM_SIZING <> NoFuel /\
  pb_encode_delimited m 4 fields 64 PB_OSTREAM_SIZING <> NoFuel /\
  pb_encode_nullterminated m 4 fields 64 PB_OSTREAM_SIZING <> NoFuel /\
  pb_get_encoded_size m 4 fields 64 <> NoFuel.
Proof.
  intros m fields. assert (nests 4 fields) as Hn by (apply (bool_decide_unpack _); vm_compute; exact I).
  split; [exact Hn|]. apply (pb_encode_terminates m 4 fields 64 PB_OSTREAM_SIZING Hn).
Defined.
End witness.
