(* ===== verification/LdbBase.v ===== *)
(** * LevelDB: slices, statuses and files

    slice.h, status.h and status.cc, and the abstract classes of env.h through
    which LevelDB reads and writes files. *)
From stdpp Require Import pretty.
From S2P Require Import Prelude.

(** ** slices, statuses and assertions (slice.h, status.h, status.cc)

    The LevelDB components work on values: a [std::string] and the bytes a
    [Slice] refers to are lists of bytes (numbers below 256), because the code
    never changes bytes that a live slice refers to.  A function that returns
    a [bool] and updates a slice through a pointer is in the monad [M] of
    [Prelude]; a function that cannot fail but can misbehave is in [res]. *)

Notation "'let!' x := r 'in' k" := (res_bind r (fun x => k))
  (at level 200, x name, r at level 100, k at level 200, right associativity) : pb_scope.
Notation "'let!' ' p := r 'in' k" := (res_bind r (fun x => match x with p => k end))
  (at level 200, p pattern, r at level 100, k at level 200, right associativity) : pb_scope.

Abbreviation bytes := (list Z).

(** The bytes of a C string literal, without the terminating zero. *)
Definition str (s : string) : bytes :=
  (fun a => Z.of_nat (Ascii.nat_of_ascii a)) <$> String.list_ascii_of_string s.

(** [assert(b)]: a failure aborts, or is undefined once the assertion is
    compiled out; the theorems show that it does not happen. *)
Definition assert_ (b : bool) : res unit := if b then Ret tt else UB.

(** [buffer[i]] for a read inside an object. *)
Definition byte_at (bs : bytes) (i : Z) : res Z :=
  if 0 <=? i then of_option (bs !! Z.to_nat i) else UB.

(** ** Slice *)
Definition size (s : bytes) : Z := zlength s.
Definition empty_slice (s : bytes) : bool := size s =? 0.

Definition remove_prefix (s : bytes) (n : Z) : res bytes :=
  let! _ := assert_ (n <=? size s) in Ret (zdrop n s).

(** [memcmp] on the first [n] bytes of both objects. *)
Fixpoint memcmp (a b : bytes) (n : nat) : Z :=
  match n, a, b with
  | S n', x :: a', y :: b' => if x <? y then -1 else if y <? x then 1 else memcmp a' b' n'
  | _, _, _ => 0
  end.

Definition compare (a b : bytes) : Z :=
  let min_len := if size a <? size b then size a else size b in
  let r := memcmp a b (Z.to_nat min_len) in
  if r =? 0 then (if size a <? size b then -1 else if size b <? size a then 1 else r) else r.

Definition starts_with (s x : bytes) : bool :=
  (size x <=? size s) && (memcmp s x (Z.to_nat (size x)) =? 0).

Definition slice_eq (x y : bytes) : bool :=
  (size x =? size y) && (memcmp x y (Z.to_nat (size x)) =? 0).

(** ** Status

    [state_] is null for OK; otherwise it points to the length of the message,
    the code, and the message. *)
Inductive Code : Type := kOk | kNotFound | kCorruption | kNotSupported | kInvalidArgument | kIOError.

#[export] Instance Code_eq_dec : EqDecision Code.
Proof. solve_decision. Defined.

Definition Code_value (c : Code) : Z :=
  match c with
  | kOk => 0 | kNotFound => 1 | kCorruption => 2 | kNotSupported => 3
  | kInvalidArgument => 4 | kIOError => 5
  end.

Definition Status : Type := option bytes.

Definition Status_OK : Status := None.

(** [Status(Code, msg, msg2)]; the lengths are [uint32_t]. *)
Definition Status_make (c : Code) (msg msg2 : bytes) : Status :=
  let len1 := u32 (size msg) in
  let len2 := u32 (size msg2) in
  let sz := u32 (len1 + (if len2 =? 0 then 0 else u32 (2 + len2))) in
  Some (le_bytes 4 sz ++ [Code_value c] ++ ztake len1 msg ++
        (if len2 =? 0 then [] else str ": " ++ ztake len2 msg2)).

Definition NotFound (msg : bytes) : Status := Status_make kNotFound msg [].
Definition Corruption (msg : bytes) : Status := Status_make kCorruption msg [].
Definition Corruption2 (msg msg2 : bytes) : Status := Status_make kCorruption msg msg2.
Definition NotSupported (msg : bytes) : Status := Status_make kNotSupported msg [].
Definition InvalidArgument (msg : bytes) : Status := Status_make kInvalidArgument msg [].
Definition IOError (msg : bytes) : Status := Status_make kIOError msg [].

Definition ok (s : Status) : bool := match s with None => true | Some _ => false end.

(** [code()]: the value of [state_[4]]. *)
Definition code (s : Status) : Z :=
  match s with None => Code_value kOk | Some state => default 0 (state !! 4%nat) end.

Definition IsNotFound (s : Status) : bool := code s =? Code_value kNotFound.
Definition IsCorruption (s : Status) : bool := code s =? Code_value kCorruption.
Definition IsIOError (s : Status) : bool := code s =? Code_value kIOError.
Definition IsNotSupportedError (s : Status) : bool := code s =? Code_value kNotSupported.
Definition IsInvalidArgument (s : Status) : bool := code s =? Code_value kInvalidArgument.

(** The prefix [ToString] prints for a code. *)
Definition type_string (c : Z) : bytes :=
  if c =? 0 then str "OK"
  else if c =? 1 then str "NotFound: "
  else if c =? 2 then str "Corruption: "
  else if c =? 3 then str "Not implemented: "
  else if c =? 4 then str "Invalid argument: "
  else if c =? 5 then str "IO error: "
  else str "Unknown code(" ++ str (pretty c) ++ str "): ".

Definition ToString (s : Status) : bytes :=
  match s with
  | None => str "OK"
  | Some state =>
      type_string (code s) ++ ztake (le_val (ztake 4 state)) (zdrop 5 state)
  end.

(** ** Lemmas *)
Lemma assert_true b : b = true -> assert_ b = Ret tt.
Proof. by intros ->. Qed.

Lemma res_bind_ret {A B} (a : A) (k : A -> res B) : res_bind (Ret a) k = k a.
Proof. done. Qed.

Lemma res_bind_eq {A B} (r : res A) (a : A) (k : A -> res B) : r = Ret a -> res_bind r k = k a.
Proof. by intros ->. Qed.

Lemma remove_prefix_app p s : remove_prefix (p ++ s) (zlength p) = Ret s.
Proof.
  unfold remove_prefix, size. rewrite assert_true, res_bind_ret, zdrop_app; [done|].
  rewrite zlength_app. pose proof (zlength_nonneg s). lia.
Qed.

Lemma empty_slice_nil s : empty_slice s = true <-> s = [].
Proof.
  unfold empty_slice, size, zlength. rewrite Z.eqb_eq. destruct s; simpl; split; intros; try done; lia.
Qed.

Lemma empty_slice_cons b s : empty_slice (b :: s) = false.
Proof. unfold empty_slice, size. apply Z.eqb_neq. rewrite zlength_cons. pose proof (zlength_nonneg s). lia. Qed.

Lemma bytes_ok_app a b : bytes_ok (a ++ b) <-> bytes_ok a /\ bytes_ok b.
Proof. apply Forall_app. Qed.

Lemma bytes_ok_forallb bs : forallb (fun b => (0 <=? b) && (b <? 256)) bs = true -> bytes_ok bs.
Proof.
  intros H. rewrite forallb_forall in H. apply List.Forall_forall. intros b Hb.
  specialize (H b Hb). unfold is_byte. lia.
Qed.

Lemma slice_eq_refl a : slice_eq a a = true.
Proof.
  unfold slice_eq. rewrite Z.eqb_refl. apply Z.eqb_eq. generalize (Z.to_nat (size a)). induction a as [|x a IH]; intros [|n]; try done.
  cbn. by rewrite Z.ltb_irrefl, IH.
Qed.

Lemma ok_make c msg msg2 : ok (Status_make c msg msg2) = false.
Proof. done. Qed.

Lemma code_make c msg msg2 : code (Status_make c msg msg2) = Code_value c.
Proof. done. Qed.

(** The lexicographic order that [compare] decides. *)
Inductive bytes_lt : bytes -> bytes -> Prop :=
| lt_nil b bs : bytes_lt [] (b :: bs)
| lt_head x y a b : x < y -> bytes_lt (x :: a) (y :: b)
| lt_tail x a b : bytes_lt a b -> bytes_lt (x :: a) (x :: b).

(** ** the files of the environment (env.h) *)

(** [class WritableFile]: what the log writer calls. *)
Class WritableFile (F : Type) : Type := {
  wf_Append : bytes -> F -> Status * F;
  wf_Flush : F -> Status * F;
}.

(** A file on which nothing fails; [wf_contents] is what has been written. *)
Class ReliableFile (F : Type) `{WritableFile F} : Type := {
  wf_contents : F -> bytes;
  wf_Append_ok : forall data f,
    ok (wf_Append data f).1 = true /\ wf_contents (wf_Append data f).2 = wf_contents f ++ data;
  wf_Flush_ok : forall f,
    ok (wf_Flush f).1 = true /\ wf_contents (wf_Flush f).2 = wf_contents f;
}.

(** [class SequentialFile]. *)
Class SequentialFile (F : Type) : Type := {
  sf_Read : Z -> F -> Status * bytes * F;
  sf_Skip : Z -> F -> Status * F;
}.

(** "Read up to n bytes from the file": all of them, unless the file ends. *)
Class ReadableFile (F : Type) `{SequentialFile F} : Type := {
  sf_contents : F -> bytes;
  sf_Read_ok : forall n f,
    0 <= n ->
    ok (sf_Read n f).1.1 = true /\ (sf_Read n f).1.2 = ztake n (sf_contents f) /\
    sf_contents (sf_Read n f).2 = zdrop n (sf_contents f);
  sf_Skip_ok : forall n f,
    0 <= n -> ok (sf_Skip n f).1 = true /\ sf_contents (sf_Skip n f).2 = zdrop n (sf_contents f);
}.

(** [class RandomAccessFile]: the status, the data, and whether [*result]
    refers to [scratch]. *)
Class RandomAccessFile (F : Type) : Type := {
  raf_Read : Z -> Z -> F -> Status * bytes * bool;
}.

(** A file on which nothing fails. *)
Class RandomReadableFile (F : Type) `{RandomAccessFile F} : Type := {
  raf_contents : F -> bytes;
  raf_Read_ok : forall offset n f,
    0 <= offset -> 0 <= n ->
    ok (raf_Read offset n f).1.1 = true /\ (raf_Read offset n f).1.2 = ztake n (zdrop offset (raf_contents f));
}.

(** ** Files in memory *)
#[export] Instance MemFile_writable : WritableFile bytes := {
  wf_Append data f := (Status_OK, f ++ data);
  wf_Flush f := (Status_OK, f);
}.

#[export] Instance MemFile_reliable : ReliableFile bytes.
Proof. by exists (fun f => f). Defined.

#[export] Instance MemFile_sequential : SequentialFile bytes := {
  sf_Read n f := (Status_OK, ztake n f, zdrop n f);
  sf_Skip n f := (Status_OK, zdrop n f);
}.

#[export] Instance MemFile_readable : ReadableFile bytes.
Proof. by exists (fun f => f). Defined.

#[export] Instance MemFile_random : RandomAccessFile bytes := {
  raf_Read offset n f := (Status_OK, ztake n (zdrop offset f), true);
}.

#[export] Instance MemFile_random_readable : RandomReadableFile bytes.
Proof. by exists (fun f => f). Defined.
