(* ===== verification/Coding.v ===== *)
(** * LevelDB: integer codings (coding.h, coding.cc)

    The encoders and decoders of fixed-width integers, varints and
    length-prefixed slices, then the facts about them.  LevelDB's varints are
    the base-128 numbers of [WireFormat], the ones of the protocol buffers:
    the same parser specifies both decoders. *)
From S2P Require Import Prelude WireFormat LdbBase.

(** ** coding.h and coding.cc

    Fixed-width and variable-length integers, and length-prefixed slices.  The
    encoders that write through a [char*] return the bytes they write; the
    decoders that take a pointer and a limit take the bytes between them and
    return the bytes that are left, or [None] for a null pointer. *)

(** [port::kLittleEndian]: the pods define [LEVELDB_IS_BIG_ENDIAN=0]. *)
Definition kLittleEndian : bool := true.

Definition EncodeFixed32 (value : Z) : bytes :=
  if kLittleEndian then le_bytes 4 value
  else [u8 (value .& 0xff); u8 (Z.shiftr value 8 .& 0xff); u8 (Z.shiftr value 16 .& 0xff);
        u8 (Z.shiftr value 24 .& 0xff)].

Definition EncodeFixed64 (value : Z) : bytes :=
  if kLittleEndian then le_bytes 8 value
  else [u8 (value .& 0xff); u8 (Z.shiftr value 8 .& 0xff); u8 (Z.shiftr value 16 .& 0xff);
        u8 (Z.shiftr value 24 .& 0xff); u8 (Z.shiftr value 32 .& 0xff);
        u8 (Z.shiftr value 40 .& 0xff); u8 (Z.shiftr value 48 .& 0xff);
        u8 (Z.shiftr value 56 .& 0xff)].

Definition PutFixed32 (dst : bytes) (value : Z) : bytes := dst ++ EncodeFixed32 value.
Definition PutFixed64 (dst : bytes) (value : Z) : bytes := dst ++ EncodeFixed64 value.

Definition EncodeVarint32 (v : Z) : bytes :=
  let B := 128 in
  if v <? Z.shiftl 1 7 then [u8 v]
  else if v <? Z.shiftl 1 14 then [u8 (v .| B); u8 (Z.shiftr v 7)]
  else if v <? Z.shiftl 1 21 then [u8 (v .| B); u8 (Z.shiftr v 7 .| B); u8 (Z.shiftr v 14)]
  else if v <? Z.shiftl 1 28 then
    [u8 (v .| B); u8 (Z.shiftr v 7 .| B); u8 (Z.shiftr v 14 .| B); u8 (Z.shiftr v 21)]
  else
    [u8 (v .| B); u8 (Z.shiftr v 7 .| B); u8 (Z.shiftr v 14 .| B); u8 (Z.shiftr v 21 .| B);
     u8 (Z.shiftr v 28)].

Definition PutVarint32 (dst : bytes) (v : Z) : bytes := dst ++ EncodeVarint32 v.

(** One iteration of [while (v >= B)]; the bytes written so far and [v]. *)
Definition encode_varint64_body (st : bytes * Z) : res ((bytes * Z) + bytes) :=
  let '(out, v) := st in
  if 128 <=? v then Ret (inl (out ++ [u8 (v .| 128)], Z.shiftr v 7))
  else Ret (inr (out ++ [u8 v])).

Definition EncodeVarint64 (v : Z) : res bytes := while encode_varint64_body ([], v).

(** [char buf[10]]: more bytes would overflow the buffer. *)
Definition PutVarint64 (dst : bytes) (v : Z) : res bytes :=
  let! buf := EncodeVarint64 v in
  if zlength buf <=? 10 then Ret (dst ++ buf) else UB.

Definition PutLengthPrefixedSlice (dst value : bytes) : bytes :=
  PutVarint32 dst (u32 (size value)) ++ value.

Definition varint_length_body (st : Z * Z) : res ((Z * Z) + Z) :=
  let '(len, v) := st in
  if 128 <=? v then Ret (inl (len + 1, Z.shiftr v 7)) else Ret (inr len).

Definition VarintLength (v : Z) : res Z := while varint_length_body (1, v).

(** [memcpy] of four or eight bytes, or the shifts of the portable branch. *)
Definition DecodeFixed32 (ptr : bytes) : res Z :=
  if size ptr <? 4 then UB
  else if kLittleEndian then Ret (le_val (ztake 4 ptr))
  else
    match ptr with
    | b0 :: b1 :: b2 :: b3 :: _ =>
        Ret (b0 .| u32 (Z.shiftl b1 8) .| u32 (Z.shiftl b2 16) .| u32 (Z.shiftl b3 24))
    | _ => UB
    end.

Definition DecodeFixed64 (ptr : bytes) : res Z :=
  if size ptr <? 8 then UB
  else if kLittleEndian then Ret (le_val (ztake 8 ptr))
  else
    let! lo := DecodeFixed32 ptr in
    let! hi := DecodeFixed32 (zdrop 4 ptr) in
    Ret (u64 (Z.shiftl hi 32) .| lo).

(** The loop of [GetVarint32PtrFallback], from [shift] and [result] on. *)
Fixpoint varint32_ptr_loop (shift result : Z) (p : bytes) : option (Z * bytes) :=
  match p with
  | [] => None
  | byte :: p' =>
      if shift <=? 28 then
        if negb (byte .& 128 =? 0) then
          varint32_ptr_loop (u32 (shift + 7)) (result .| u32 (Z.shiftl (byte .& 127) shift)) p'
        else Some (result .| u32 (Z.shiftl byte shift), p')
      else None
  end.

Definition GetVarint32PtrFallback (p : bytes) : option (Z * bytes) := varint32_ptr_loop 0 0 p.

Definition GetVarint32Ptr (p : bytes) : option (Z * bytes) :=
  match p with
  | result :: p' => if result .& 128 =? 0 then Some (result, p') else GetVarint32PtrFallback p
  | [] => GetVarint32PtrFallback p
  end.

Definition GetVarint32 : M bytes Z :=
  input <- get;;
  match GetVarint32Ptr input with
  | None => return_false
  | Some (value, q) => put q;; ret value
  end.

Fixpoint varint64_ptr_loop (shift result : Z) (p : bytes) : option (Z * bytes) :=
  match p with
  | [] => None
  | byte :: p' =>
      if shift <=? 63 then
        if negb (byte .& 128 =? 0) then
          varint64_ptr_loop (u32 (shift + 7)) (result .| u64 (Z.shiftl (byte .& 127) shift)) p'
        else Some (result .| u64 (Z.shiftl byte shift), p')
      else None
  end.

Definition GetVarint64Ptr (p : bytes) : option (Z * bytes) := varint64_ptr_loop 0 0 p.

Definition GetVarint64 : M bytes Z :=
  input <- get;;
  match GetVarint64Ptr input with
  | None => return_false
  | Some (value, q) => put q;; ret value
  end.

(** The version on a pointer and a limit. *)
Definition GetLengthPrefixedSlicePtr (p : bytes) : option (bytes * bytes) :=
  match GetVarint32Ptr p with
  | None => None
  | Some (len, p) => if size p <? len then None else Some (ztake len p, zdrop len p)
  end.

(** The version on a slice: the length stays consumed when the test fails. *)
Definition GetLengthPrefixedSlice : M bytes bytes :=
  len <- GetVarint32;;
  input <- get;;
  if len <=? size input then
    input' <- lift_res (remove_prefix input len);;
    put input';;
    ret (ztake len input)
  else return_false.

(** ** LevelDB's integer codings against the wire format *)

(** ** Encoders *)
Lemma zdiv_128_128 v : v / 128 / 128 = v / 16384.
Proof. by rewrite Z.div_div by lia. Qed.

Lemma u8_lor_128 v : 0 <= v -> u8 (v .| 128) = v mod 128 + 128.
Proof.
  intros Hv. apply Z.bits_inj'. intros i Hi. unfold wrap.
  rewrite <- lor_0x80 by (apply Z.mod_pos_bound; lia).
  rewrite Z.lor_spec. change 128 with (2 ^ 7).
  destruct (Z.lt_ge_cases i 8).
  - rewrite Z.mod_pow2_bits_low, Z.lor_spec by lia.
    destruct (Z.lt_ge_cases i 7).
    + by rewrite Z.mod_pow2_bits_low by lia.
    + assert (i = 7) as -> by lia. rewrite Z.pow2_bits_true, !orb_true_r by lia. done.
  - rewrite !Z.mod_pow2_bits_high by lia. rewrite Z.pow2_bits_false by lia. done.
Qed.

Lemma u8_small v : 0 <= v < 256 -> u8 v = v.
Proof. intros. by apply wrap_small. Qed.

(** The comparisons and the shifts of the unrolled encoder, one digit at a time. *)
Lemma ltb_shift v k n : n = 7 + k -> 0 <= k -> 0 <= v -> (v <? 2 ^ n) = (v / 128 <? 2 ^ k).
Proof.
  intros -> Hk Hv. apply eqb_true_iff. rewrite Z.pow_add_r by lia. change (2 ^ 7) with 128.
  destruct (Z.ltb_spec (v / 128) (2 ^ k)) as [H|H]; destruct (Z.ltb_spec v (128 * 2 ^ k)) as [H'|H']; try done.
  - pose proof (Z.div_le_lower_bound v 128 (2 ^ k)). lia.
  - pose proof (Z.div_lt_upper_bound v 128 (2 ^ k)). lia.
Qed.

Lemma EncodeVarint32_spec v : 0 <= v < 2 ^ 32 -> EncodeVarint32 v = varint_bytes v.
Proof.
  intros Hv. unfold EncodeVarint32, varint_bytes. cbn [varint_digits].
  rewrite !Z.shiftl_mul_pow2, !Z.mul_1_l, !Z.shiftr_div_pow2 by lia.
  rewrite (ltb_shift v 7 14), (ltb_shift v 14 21),
    (ltb_shift v 21 28) by lia.
  assert (0 <= v / 128) by (apply Z.div_pos; lia).
  assert (0 <= v / 128 / 128) by (apply Z.div_pos; lia).
  assert (0 <= v / 128 / 128 / 128) by (apply Z.div_pos; lia).
  rewrite (ltb_shift (v / 128) 7 14), (ltb_shift (v / 128) 14 21),
    (ltb_shift (v / 128 / 128) 7 14) by lia.
  replace (v / 2 ^ 7) with (v / 128) by done.
  replace (v / 2 ^ 14) with (v / 128 / 128) by (by rewrite Z.div_div by lia).
  replace (v / 2 ^ 21) with (v / 128 / 128 / 128) by (by rewrite !Z.div_div by lia).
  replace (v / 2 ^ 28) with (v / 128 / 128 / 128 / 128) by (by rewrite !Z.div_div by lia).
  change (2 ^ 7) with 128. rewrite !u8_lor_128 by lia.
  assert (v / 128 / 128 / 128 / 128 < 16) by (rewrite !Z.div_div by lia; apply Z.div_lt_upper_bound; lia).
  assert (0 <= v / 128 / 128 / 128 / 128) by (apply Z.div_pos; lia).
  repeat (case_match; pb_bool); try (rewrite u8_small by lia; done); lia.
Qed.

(** The loop of the 64-bit encoder, with [n] digits to go. *)
Lemma encode_varint64_loop n v out :
  0 <= v < 128 ^ Z.of_nat n -> (0 < n)%nat ->
  loop_nat n encode_varint64_body (out, v) = Ret (inr (out ++ varint_digits n v)).
Proof.
  revert v out. induction n as [|n IH]; intros v out Hv Hn; [lia|].
  cbn [loop_nat varint_digits encode_varint64_body].
  rewrite Nat2Z.inj_succ, Z.pow_succ_r in Hv by lia.
  destruct (Z.leb_spec 128 v).
  - rewrite (proj2 (Z.ltb_ge _ _)) by lia. rewrite u8_lor_128, Z.shiftr_div_pow2 by lia.
    change (2 ^ 7) with 128. rewrite IH.
    + by rewrite <- app_assoc.
    + split; [apply Z.div_pos; lia|apply Z.div_lt_upper_bound; lia].
    + destruct n; [|lia]. change (Z.of_nat 0) with 0 in Hv. rewrite Z.pow_0_r in Hv. lia.
  - rewrite (proj2 (Z.ltb_lt _ _)), u8_small by lia. done.
Qed.

Lemma EncodeVarint64_spec v : 0 <= v < 2 ^ 64 -> EncodeVarint64 v = Ret (varint_bytes v).
Proof.
  intros Hv. unfold EncodeVarint64. apply (while_loop_nat _ _ 10); [|lia].
  apply (encode_varint64_loop 10 v []); [|lia]. split; [lia|].
  apply Z.lt_le_trans with (2 ^ 64); [lia|vm_compute; discriminate].
Qed.

Lemma PutVarint64_spec dst v : 0 <= v < 2 ^ 64 -> PutVarint64 dst v = Ret (dst ++ varint_bytes v).
Proof.
  intros Hv. unfold PutVarint64. rewrite EncodeVarint64_spec, res_bind_ret by done.
  by rewrite (proj2 (Z.leb_le _ _)) by apply zlength_varint_bytes.
Qed.

Lemma PutVarint32_spec dst v : 0 <= v < 2 ^ 32 -> PutVarint32 dst v = dst ++ varint_bytes v.
Proof. intros. unfold PutVarint32. by rewrite EncodeVarint32_spec. Qed.

Lemma varint_length_loop n v len :
  0 <= v < 128 ^ Z.of_nat n -> (0 < n)%nat ->
  loop_nat n varint_length_body (len, v) = Ret (inr (len - 1 + zlength (varint_digits n v))).
Proof.
  revert v len. induction n as [|n IH]; intros v len Hv Hn; [lia|].
  cbn [loop_nat varint_digits varint_length_body].
  rewrite Nat2Z.inj_succ, Z.pow_succ_r in Hv by lia.
  destruct (Z.leb_spec 128 v).
  - rewrite (proj2 (Z.ltb_ge _ _)) by lia. rewrite Z.shiftr_div_pow2 by lia.
    change (2 ^ 7) with 128. rewrite IH.
    + rewrite zlength_cons. do 2 f_equal. lia.
    + split; [apply Z.div_pos; lia|apply Z.div_lt_upper_bound; lia].
    + destruct n; [|lia]. change (Z.of_nat 0) with 0 in Hv. rewrite Z.pow_0_r in Hv. lia.
  - rewrite (proj2 (Z.ltb_lt _ _)) by lia. unfold zlength. cbn [length]. do 2 f_equal. lia.
Qed.

Lemma VarintLength_spec v : 0 <= v < 2 ^ 64 -> VarintLength v = Ret (zlength (varint_bytes v)).
Proof.
  intros Hv. unfold VarintLength. apply (while_loop_nat _ _ 10); [|lia].
  rewrite varint_length_loop; [|split; [lia|]|lia].
  - unfold varint_bytes. simpl loop_end. do 2 f_equal.
  - apply Z.lt_le_trans with (2 ^ 64); [lia|vm_compute; discriminate].
Qed.

(** ** Decoders *)

(** Both loops are this one, at width [w] with last shift [max]. *)
Fixpoint varint_ptr_loop (w max shift result : Z) (p : bytes) : option (Z * bytes) :=
  match p with
  | [] => None
  | byte :: p' =>
      if shift <=? max then
        if negb (byte .& 128 =? 0) then
          varint_ptr_loop w max (u32 (shift + 7)) (result .| wrap w (Z.shiftl (byte .& 127) shift)) p'
        else Some (result .| wrap w (Z.shiftl byte shift), p')
      else None
  end.

Lemma varint32_ptr_loop_eq shift result p :
  varint32_ptr_loop shift result p = varint_ptr_loop 32 28 shift result p.
Proof. revert shift result. induction p as [|b p IH]; intros; simpl; [done|]. by rewrite IH. Qed.

Lemma varint64_ptr_loop_eq shift result p :
  varint64_ptr_loop shift result p = varint_ptr_loop 64 63 shift result p.
Proof. revert shift result. induction p as [|b p IH]; intros; simpl; [done|]. by rewrite IH. Qed.

Definition parsed_ptr (w : Z) (n : nat) (p : bytes) : option (Z * bytes) :=
  match parse_varint n p with Parsed v len => Some (v mod 2 ^ w, zdrop len p) | _ => None end.

(** A shifted digit joins the result. *)
Lemma ptr_digit w shift result d :
  0 <= shift < w -> 0 <= result < 2 ^ shift ->
  result .| wrap w (Z.shiftl d shift) = (result + d * 2 ^ shift) mod 2 ^ w.
Proof. intros. by apply lor_wrap_shiftl. Qed.

Lemma ptr_digit_bound w shift result d :
  0 <= shift < w -> 0 <= result < 2 ^ shift -> 0 <= d < 128 ->
  0 <= (result + d * 2 ^ shift) mod 2 ^ w < 2 ^ Z.min w (shift + 7).
Proof.
  intros Hs Hr Hd.
  assert (2 ^ (shift + 7) = 128 * 2 ^ shift) as Ep by (rewrite Z.pow_add_r by lia; lia).
  assert (0 < 2 ^ w) by (apply Z.pow_pos_nonneg; lia).
  destruct (Z.le_ge_cases (shift + 7) w).
  - rewrite Z.min_r, Ep by lia. rewrite Z.mod_small; [nia|].
    split; [nia|]. apply Z.lt_le_trans with (2 ^ (shift + 7)); [nia|].
    apply Z.pow_le_mono_r; lia.
  - rewrite Z.min_l by lia. apply Z.mod_pos_bound. lia.
Qed.

Lemma varint_ptr_loop_spec w k n shift result p :
  shift = 7 * (k - Z.of_nat n) -> 0 <= shift -> k <= 10 -> 7 * (k - 1) < w ->
  0 <= result < 2 ^ Z.min w shift -> bytes_ok p ->
  varint_ptr_loop w (7 * (k - 1)) shift result p =
    match parse_varint n p with
    | Parsed v len => Some ((result + v * 2 ^ shift) mod 2 ^ w, zdrop len p)
    | _ => None
    end.
Proof.
  intros Hs Hs0 Hk Hw Hr Hp. revert shift result p Hs Hs0 Hr Hp. induction n as [|n IH]; intros shift result p Hs Hs0 Hr Hp.
  { destruct p; cbn [varint_ptr_loop parse_varint]; [done|]. by rewrite (proj2 (Z.leb_gt _ _)) by lia. }
  destruct p as [|b p]; [done|]. apply Forall_cons_1 in Hp as [Hb Hp].
  cbn [varint_ptr_loop parse_varint]. rewrite (proj2 (Z.leb_le _ _)) by lia.
  rewrite Z.min_r in Hr by lia. change 128 with 0x80. rewrite land_0x80 by done.
  change 127 with 0x7F. rewrite land_0x7F. unfold is_byte in Hb.
  rewrite !ptr_digit by lia.
  destruct (Z.ltb_spec b 0x80) as [Hlt|Hge]; simpl negb; cbn match; [done|].
  assert (b mod 128 = b - 128) as Eb by (symmetry; apply (Z.mod_unique b 128 1); lia).
  rewrite (wrap_small 32) by lia. rewrite IH; try done; try lia.
  - destruct (parse_varint n p) as [v len| |] eqn:Ev; try done.
    destruct (parse_varint_len _ _ _ _ Hp Ev) as (? & ? & ?). do 2 f_equal.
    + rewrite Zplus_mod_idemp_l, Eb, Z.pow_add_r by lia. f_equal. lia.
    + unfold zdrop. by replace (Z.to_nat (1 + len)) with (S (Z.to_nat len)) by lia.
  - apply ptr_digit_bound; lia.
Qed.

Lemma GetVarint64Ptr_spec p : bytes_ok p -> GetVarint64Ptr p = parsed_ptr 64 10 p.
Proof.
  intros Hp. unfold GetVarint64Ptr, parsed_ptr. rewrite varint64_ptr_loop_eq.
  rewrite (varint_ptr_loop_spec 64 10 10 0 0) by (done || lia).
  destruct (parse_varint 10 p); try done. by rewrite Z.mul_1_r.
Qed.

Lemma GetVarint32Ptr_spec p : bytes_ok p -> GetVarint32Ptr p = parsed_ptr 32 5 p.
Proof.
  intros Hp. assert (GetVarint32PtrFallback p = parsed_ptr 32 5 p) as Hf.
  { unfold GetVarint32PtrFallback, parsed_ptr. rewrite varint32_ptr_loop_eq.
    rewrite (varint_ptr_loop_spec 32 5 5 0 0) by (done || lia).
    destruct (parse_varint 5 p); try done. by rewrite Z.mul_1_r. }
  destruct p as [|b p]; [done|]. unfold GetVarint32Ptr. rewrite Hf.
  apply Forall_cons_1 in Hp as [Hb Hp]. change 128 with 0x80. rewrite land_0x80 by done.
  destruct (Z.ltb_spec b 0x80); [|done]. unfold parsed_ptr. cbn [parse_varint].
  rewrite (proj2 (Z.ltb_lt _ _)) by lia. unfold is_byte in Hb. by rewrite Z.mod_small by lia.
Qed.

(** ** Reading from a slice

    [gets c bs a]: in front of anything, [c] consumes [bs] and yields [a]. *)
Definition gets {A} (c : M bytes A) (bs : bytes) (a : A) : Prop :=
  forall rest, bytes_ok rest -> c (bs ++ rest) = Ret (Some a, rest).

(** [shrinks c P]: on any bytes, [c] returns, leaves no more than it got, and
    when it returns [true] the value satisfies [P] and input was consumed. *)
Definition shrinks {A} (c : M bytes A) (P : A -> Prop) : Prop := forall s, bytes_ok s ->
  exists o s', c s = Ret (o, s') /\ bytes_ok s' /\ zlength s' <= zlength s /\
               (forall a, o = Some a -> P a /\ zlength s' < zlength s).

Lemma gets_ret {A} (a : A) : gets (ret a) [] a.
Proof. by intros rest _. Qed.

Lemma gets_bind {A B} (c : M bytes A) (k : A -> M bytes B) bs1 bs2 a b :
  gets c bs1 a -> gets (k a) bs2 b -> bytes_ok bs2 -> gets (bind c k) (bs1 ++ bs2) b.
Proof.
  intros Hc Hk Hbs rest Hr. rewrite <- app_assoc.
  rewrite (bind_some _ _ _ a (bs2 ++ rest)) by (apply Hc; by apply bytes_ok_app). by apply Hk.
Qed.

Lemma gets_get_put {A} (f : bytes -> option (A * bytes)) bs a :
  (forall rest, bytes_ok rest -> f (bs ++ rest) = Some (a, rest)) ->
  gets (input <- get;; match f input with None => return_false | Some (v, q) => put q;; ret v end) bs a.
Proof. intros H rest Hr. rewrite bind_get, H, bind_put by done. done. Qed.

Lemma parsed_ptr_bytes w n v rest :
  0 <= v < 2 ^ w -> w <= 64 -> 2 ^ w <= 128 ^ Z.of_nat n -> (0 < n)%nat ->
  parsed_ptr w n (varint_bytes v ++ rest) = Some (v, rest).
Proof.
  intros Hv Hw Hwn Hn. unfold parsed_ptr. rewrite parse_varint_bytes; [|split; [lia|]|lia|done].
  - by rewrite Z.mod_small, zdrop_app by done.
  - apply Z.lt_le_trans with (2 ^ w); [lia|]. apply Z.pow_le_mono_r; lia.
Qed.

Lemma varint_bytes_ok v : 0 <= v -> bytes_ok (varint_bytes v).
Proof. apply varint_digits_ok. Qed.

Lemma GetVarint32_gets v : 0 <= v < 2 ^ 32 -> gets GetVarint32 (varint_bytes v) v.
Proof.
  intros Hv. apply gets_get_put. intros rest Hr.
  rewrite GetVarint32Ptr_spec by (apply bytes_ok_app; split; [apply varint_bytes_ok; lia|done]).
  apply parsed_ptr_bytes; [done|lia|vm_compute; discriminate|lia].
Qed.

Lemma GetVarint64_gets v : 0 <= v < 2 ^ 64 -> gets GetVarint64 (varint_bytes v) v.
Proof.
  intros Hv. apply gets_get_put. intros rest Hr.
  rewrite GetVarint64Ptr_spec by (apply bytes_ok_app; split; [apply varint_bytes_ok; lia|done]).
  apply parsed_ptr_bytes; [done|lia|vm_compute; discriminate|lia].
Qed.

Lemma GetLengthPrefixedSlice_gets s :
  zlength s < 2 ^ 32 -> bytes_ok s ->
  gets GetLengthPrefixedSlice (varint_bytes (zlength s) ++ s) s.
Proof.
  intros Hl Hs. apply (gets_bind _ _ _ _ (zlength s)); [| |done].
  { apply GetVarint32_gets. pose proof (zlength_nonneg s). lia. }
  intros rest Hr. rewrite bind_get. unfold size. rewrite zlength_app.
  rewrite (proj2 (Z.leb_le _ _)) by (pose proof (zlength_nonneg rest); lia).
  rewrite (bind_lift _ _ _ rest) by apply remove_prefix_app.
  by rewrite bind_put, ztake_app.
Qed.

(** ** Any input *)
Lemma parsed_ptr_shrinks w n p v q :
  bytes_ok p -> 0 <= w -> parsed_ptr w n p = Some (v, q) ->
  bytes_ok q /\ zlength q < zlength p /\ 0 <= v < 2 ^ w.
Proof.
  intros Hp Hw. unfold parsed_ptr. destruct (parse_varint n p) as [v' len| |] eqn:E; try done.
  intros [= <- <-]. destruct (parse_varint_len _ _ _ _ Hp E) as (? & ? & ?). split_and!.
  - by apply Forall_drop.
  - rewrite zlength_zdrop; lia.
  - apply Z.mod_pos_bound. apply Z.pow_pos_nonneg; lia.
  - apply Z.mod_pos_bound. apply Z.pow_pos_nonneg; lia.
Qed.

Lemma shrinks_get_put {A} (f : bytes -> option (A * bytes)) P :
  (forall p v q, bytes_ok p -> f p = Some (v, q) -> bytes_ok q /\ zlength q < zlength p /\ P v) ->
  shrinks (input <- get;; match f input with None => return_false | Some (v, q) => put q;; ret v end) P.
Proof.
  intros H s Hs. rewrite bind_get. destruct (f s) as [[v q]|] eqn:E.
  - destruct (H _ _ _ Hs E) as (? & ? & ?). exists (Some v), q.
    split_and!; [done|done|lia|]. by intros ? [= <-].
  - exists None, s. by split_and!.
Qed.

Lemma GetVarint32_shrinks : shrinks GetVarint32 (fun v => 0 <= v < 2 ^ 32).
Proof.
  apply shrinks_get_put. intros p v q Hp. rewrite GetVarint32Ptr_spec by done.
  by apply parsed_ptr_shrinks.
Qed.

Lemma GetVarint64_shrinks : shrinks GetVarint64 (fun v => 0 <= v < 2 ^ 64).
Proof.
  apply shrinks_get_put. intros p v q Hp. rewrite GetVarint64Ptr_spec by done.
  by apply parsed_ptr_shrinks.
Qed.

Lemma shrinks_bind {A B} (c : M bytes A) (k : A -> M bytes B) P Q :
  shrinks c P -> (forall a, P a -> shrinks (k a) Q) -> shrinks (bind c k) Q.
Proof.
  intros Hc Hk s Hs. destruct (Hc s Hs) as (o & s1 & E & Hs1 & Hl & Ho). unfold bind. rewrite E.
  destruct o as [a|]; [|by exists None, s1].
  destruct (Ho a eq_refl) as [HP Hlt]. destruct (Hk a HP s1 Hs1) as (o2 & s2 & E2 & Hs2 & Hl2 & Ho2).
  exists o2, s2. split_and!; [done|done|lia|]. intros b Hb. destruct (Ho2 b Hb). split; [done|lia].
Qed.

(** A continuation that consumes nothing. *)
Lemma shrinks_bind_ret {A B} (c : M bytes A) (f : A -> B) P (Q : B -> Prop) :
  shrinks c P -> (forall a, P a -> Q (f a)) -> shrinks (x <- c;; ret (f x)) Q.
Proof.
  intros Hc Hf s Hs. destruct (Hc s Hs) as (o & s1 & E & Hs1 & Hl & Ho). unfold bind. rewrite E.
  destruct o as [a|]; [|by exists None, s1].
  destruct (Ho a eq_refl) as [HP Hlt]. exists (Some (f a)), s1.
  split_and!; [done|done|lia|]. intros b [= <-]. auto.
Qed.

Lemma GetLengthPrefixedSlice_shrinks :
  shrinks GetLengthPrefixedSlice (fun a => bytes_ok a /\ zlength a < 2 ^ 32).
Proof.
  intros s Hs. destruct (GetVarint32_shrinks s Hs) as (o & s1 & E & Hs1 & Hl & Ho).
  unfold GetLengthPrefixedSlice, bind at 1. rewrite E.
  destruct o as [len|]; [|by exists None, s1]. destruct (Ho len eq_refl) as [HP Hlt].
  rewrite bind_get. unfold size. destruct (Z.leb_spec len (zlength s1)) as [Hle|Hgt].
  - rewrite (bind_lift _ _ _ (zdrop len s1)).
    2:{ unfold remove_prefix, size. by rewrite (proj2 (Z.leb_le _ _)). }
    exists (Some (ztake len s1)), (zdrop len s1). rewrite zlength_zdrop by lia.
    split_and!; [done|by apply Forall_drop|lia|]. intros a [= <-].
    split; [|lia]. split; [by apply Forall_take|]. rewrite zlength_ztake; lia.
  - exists None, s1. split_and!; [done|done|lia|done].
Qed.

#[export] Hint Resolve GetVarint32_shrinks GetVarint64_shrinks GetLengthPrefixedSlice_shrinks
  GetVarint32_gets GetVarint64_gets GetLengthPrefixedSlice_gets varint_bytes_ok : coding.

(** ** Fixed-width integers *)
Lemma EncodeFixed32_le v : EncodeFixed32 v = le_bytes 4 v.
Proof. done. Qed.
Lemma EncodeFixed64_le v : EncodeFixed64 v = le_bytes 8 v.
Proof. done. Qed.

Lemma DecodeFixed_le n v rest w :
  w = 8 * Z.of_nat n -> 0 <= v < 2 ^ w -> le_val (ztake (Z.of_nat n) (le_bytes n v ++ rest)) = v.
Proof.
  intros -> Hv. unfold ztake. rewrite Nat2Z.id, take_app_length' by (symmetry; apply length_le_bytes).
  by rewrite le_val_bytes, Z.mod_small.
Qed.

Lemma DecodeFixed32_Encode v rest : 0 <= v < 2 ^ 32 -> DecodeFixed32 (EncodeFixed32 v ++ rest) = Ret v.
Proof.
  intros Hv. unfold DecodeFixed32, size. rewrite EncodeFixed32_le.
  rewrite (proj2 (Z.ltb_ge _ _)).
  - unfold kLittleEndian. f_equal. by apply (DecodeFixed_le 4 v rest 32).
  - rewrite zlength_app. unfold zlength at 1. rewrite length_le_bytes. pose proof (zlength_nonneg rest). lia.
Qed.

Lemma DecodeFixed64_Encode v rest : 0 <= v < 2 ^ 64 -> DecodeFixed64 (EncodeFixed64 v ++ rest) = Ret v.
Proof.
  intros Hv. unfold DecodeFixed64, size. rewrite EncodeFixed64_le.
  rewrite (proj2 (Z.ltb_ge _ _)).
  - unfold kLittleEndian. f_equal. by apply (DecodeFixed_le 8 v rest 64).
  - rewrite zlength_app. unfold zlength at 1. rewrite length_le_bytes. pose proof (zlength_nonneg rest). lia.
Qed.

(** ** Arrays of fixed-width integers *)
Definition fixed32s (l : list Z) : bytes := concat (EncodeFixed32 <$> l).

Lemma zlength_fixed32 v : zlength (EncodeFixed32 v) = 4.
Proof. rewrite EncodeFixed32_le. unfold zlength. by rewrite length_le_bytes. Qed.

Lemma fixed32s_app l k : fixed32s (l ++ k) = fixed32s l ++ fixed32s k.
Proof. unfold fixed32s. by rewrite fmap_app, concat_app. Qed.

Lemma zlength_fixed32s l : zlength (fixed32s l) = 4 * zlength l.
Proof.
  induction l as [|v l IH]; [done|]. change (fixed32s (v :: l)) with (EncodeFixed32 v ++ fixed32s l).
  rewrite zlength_app, zlength_fixed32, zlength_cons, IH. lia.
Qed.

Lemma zdrop_add_app {A} n (l k : list A) : 0 <= n -> zdrop (zlength l + n) (l ++ k) = zdrop n k.
Proof.
  intros Hn. unfold zdrop, zlength. rewrite Z2Nat.inj_add, Nat2Z.id by lia. rewrite <- drop_drop. by rewrite drop_app_length.
Qed.

(** An element of an array. *)
Lemma fixed32s_at l j v tail :
  l !! j = Some v -> 0 <= v < 2 ^ 32 -> DecodeFixed32 (zdrop (Z.of_nat j * 4) (fixed32s l ++ tail)) = Ret v.
Proof.
  intros Hj Hv. rewrite <- (take_drop_middle _ _ _ Hj) at 1. rewrite fixed32s_app, <- app_assoc.
  assert (zlength (fixed32s (take j l)) = Z.of_nat j * 4) as <-.
  { rewrite zlength_fixed32s. unfold zlength. rewrite length_take. apply lookup_lt_Some in Hj. lia. }
  rewrite zdrop_app. change (fixed32s (v :: drop (S j) l)) with (EncodeFixed32 v ++ fixed32s (drop (S j) l)).
  rewrite <- app_assoc. by apply DecodeFixed32_Encode.
Qed.

Lemma foldl_PutFixed32 l b : foldl PutFixed32 b l = b ++ fixed32s l.
Proof.
  revert b. induction l as [|v l IH]; intros b; [by rewrite app_nil_r|]. change (foldl PutFixed32 b (v :: l)) with (foldl PutFixed32 (b ++ EncodeFixed32 v) l).
  change (fixed32s (v :: l)) with (EncodeFixed32 v ++ fixed32s l). by rewrite IH, app_assoc.
Qed.

(** ** The theorems *)

(** The pointer decoders compute, on any bytes, what the parser of the wire
    format says: the number modulo the width and the bytes behind it, or a null
    pointer for a truncated or overlong number.  [pb_decode_varint] of nanopb
    refines the same parser. *)
Theorem GetVarintPtr_spec p :
  bytes_ok p -> GetVarint32Ptr p = parsed_ptr 32 5 p /\ GetVarint64Ptr p = parsed_ptr 64 10 p.
Proof. intros. split; [by apply GetVarint32Ptr_spec|by apply GetVarint64Ptr_spec]. Qed.

Lemma GetVarintPtr_spec_witness :
  GetVarint32Ptr [255; 255; 255; 255; 127; 9] = Some (2 ^ 32 - 1, [9]) /\
  GetVarint64Ptr [172; 2; 9] = Some (300, [9]).
Proof.
  destruct (GetVarintPtr_spec [255; 255; 255; 255; 127; 9]) as [E1 _].
  { by apply bytes_ok_forallb. }
  destruct (GetVarintPtr_spec [172; 2; 9]) as [_ E2].
  { by apply bytes_ok_forallb. }
  rewrite E1, E2. split; vm_compute; reflexivity.
Defined.

(** What the [Put] functions append, the [Get] functions read back, whatever
    follows, and [VarintLength] is the length of what is appended. *)
Theorem coding_roundtrip dst v w s :
  0 <= v < 2 ^ 32 -> 0 <= w < 2 ^ 64 -> bytes_ok s -> zlength s < 2 ^ 32 ->
  (exists e, PutVarint32 dst v = dst ++ e /\ zlength e <= 5 /\ gets GetVarint32 e v) /\
  (exists e, PutVarint64 dst w = Ret (dst ++ e) /\ VarintLength w = Ret (zlength e) /\ gets GetVarint64 e w) /\
  (exists e, PutLengthPrefixedSlice dst s = dst ++ e /\ gets GetLengthPrefixedSlice e s) /\
  (exists e, PutFixed32 dst v = dst ++ e /\ forall rest, DecodeFixed32 (e ++ rest) = Ret v) /\
  (exists e, PutFixed64 dst w = dst ++ e /\ forall rest, DecodeFixed64 (e ++ rest) = Ret w).
Proof.
  intros Hv Hw Hs Hl. pose proof (zlength_nonneg s). split_and!.
  - exists (EncodeVarint32 v). split; [done|split].
    + unfold EncodeVarint32. repeat case_match; unfold zlength; cbn [length]; lia.
    + rewrite EncodeVarint32_spec by done. by apply GetVarint32_gets.
  - exists (varint_bytes w). rewrite PutVarint64_spec, VarintLength_spec by done.
    split_and!; [done|done|by apply GetVarint64_gets].
  - exists (varint_bytes (zlength s) ++ s). unfold PutLengthPrefixedSlice, size.
    rewrite wrap_small, PutVarint32_spec, <- app_assoc by lia. split; [done|by apply GetLengthPrefixedSlice_gets].
  - eexists. split; [done|]. intros. by apply DecodeFixed32_Encode.
  - eexists. split; [done|]. intros. by apply DecodeFixed64_Encode.
Qed.

Lemma coding_roundtrip_witness :
  (exists e, PutLengthPrefixedSlice [7] [1; 2; 3] = [7] ++ e /\ gets GetLengthPrefixedSlice e [1; 2; 3]) /\
  gets GetVarint64 [172; 2] 300.
Proof.
  destruct (coding_roundtrip [7] 300 300 [1; 2; 3]) as (_ & (e & E & _ & Hg) & H & _);
    [split; [discriminate|reflexivity]|split; [discriminate|reflexivity]|by apply bytes_ok_forallb|reflexivity|].
  split; [exact H|]. vm_compute in E. injection E as <-. exact Hg.
Defined.
