(* ===== verification/LogWriter.v ===== *)
(** * LevelDB: the log writer (log_format.h, log_writer.h, log_writer.cc)

    A log file is a sequence of blocks of 32 KiB; a record is cut into
    fragments so that none crosses the end of a block.  The writer's methods
    return the status and the writer after the call.  Checksums do not depend
    on the address of the data ([Extend_crc32c]), which is taken as 0. *)
From S2P Require Import Prelude LdbBase Coding Crc32c.

(** ** The format *)
Inductive RecordType : Type := kZeroType | kFullType | kFirstType | kMiddleType | kLastType.

#[export] Instance RecordType_eq_dec : EqDecision RecordType.
Proof. solve_decision. Defined.

Definition RecordType_value (t : RecordType) : Z :=
  match t with kZeroType => 0 | kFullType => 1 | kFirstType => 2 | kMiddleType => 3 | kLastType => 4 end.

Definition kMaxRecordType : Z := RecordType_value kLastType.
Definition kBlockSize : Z := 32768.
Definition kHeaderSize : Z := 4 + 2 + 1.

(** ** The writer *)
Record Writer (F : Type) : Type := MkWriter {
  dest_ : F;
  block_offset_ : Z;
  type_crc_ : list Z;
}.
Arguments MkWriter {F}. Arguments dest_ {F}. Arguments block_offset_ {F}. Arguments type_crc_ {F}.

(** One turn of the loop of [InitTypeCrc] for every type. *)
Fixpoint InitTypeCrc (n : nat) (i : Z) : res (list Z) :=
  match n with
  | O => Ret []
  | S n' =>
      let! crc := Value 0 [u8 i] in
      let! crcs := InitTypeCrc n' (i + 1) in
      Ret (crc :: crcs)
  end.

Section writer.
Context {F : Type} `{WritableFile F}.

Definition new_Writer (dest : F) : res (Writer F) :=
  let! type_crc := InitTypeCrc (Z.to_nat (kMaxRecordType + 1)) 0 in
  Ret (MkWriter dest 0 type_crc).

(** The constructor that continues a file of [dest_length] bytes. *)
Definition new_Writer_at (dest : F) (dest_length : Z) : res (Writer F) :=
  let! type_crc := InitTypeCrc (Z.to_nat (kMaxRecordType + 1)) 0 in
  Ret (MkWriter dest (dest_length mod kBlockSize) type_crc).

Definition EmitPhysicalRecord (t : RecordType) (ptr : bytes) (length : Z) (w : Writer F)
  : res (Status * Writer F) :=
  let! _ := assert_ (length <=? 0xffff) in
  let! _ := assert_ (block_offset_ w + kHeaderSize + length <=? kBlockSize) in
  let! type_crc := of_option (type_crc_ w !! Z.to_nat (RecordType_value t)) in
  let! crc := Extend 0 type_crc (ztake length ptr) in
  let crc := Mask crc in
  let buf := EncodeFixed32 crc ++
    [u8 (length .& 0xff); u8 (Z.shiftr length 8); u8 (RecordType_value t)] in
  let '(s, dest) := wf_Append buf (dest_ w) in
  let '(s, dest) :=
    if ok s then
      let '(s, dest) := wf_Append (ztake length ptr) dest in
      if ok s then wf_Flush dest else (s, dest)
    else (s, dest) in
  Ret (s, MkWriter dest (block_offset_ w + (kHeaderSize + length)) (type_crc_ w)).

(** [if (leftover < kHeaderSize)]: fill the trailer, whose status is ignored,
    and switch to a new block. *)
Definition switch_block (w : Writer F) : res (Writer F) :=
  let leftover := kBlockSize - block_offset_ w in
  let! _ := assert_ (0 <=? leftover) in
  if leftover <? kHeaderSize then
    let dest := if 0 <? leftover then (wf_Append (ztake leftover (replicate 6 0)) (dest_ w)).2
                else dest_ w in
    Ret (MkWriter dest 0 (type_crc_ w))
  else Ret w.

(** The type of a fragment. *)
Definition fragment_type (begin end_ : bool) : RecordType :=
  if begin && end_ then kFullType
  else if begin then kFirstType
  else if end_ then kLastType
  else kMiddleType.

(** One turn of the [do] loop: the bytes from [ptr] on, [left], [begin]. *)
Definition add_record_body (st : bytes * Z * bool * Writer F)
  : res ((bytes * Z * bool * Writer F) + (Status * Writer F)) :=
  let '(ptr, left_, begin, w) := st in
  let! w := switch_block w in
  let! _ := assert_ (0 <=? kBlockSize - block_offset_ w - kHeaderSize) in
  let avail := kBlockSize - block_offset_ w - kHeaderSize in
  let fragment_length := if left_ <? avail then left_ else avail in
  let end_ := left_ =? fragment_length in
  let! '(s, w) := EmitPhysicalRecord (fragment_type begin end_) ptr fragment_length w in
  let ptr := zdrop fragment_length ptr in
  let left_ := u64 (left_ - fragment_length) in
  if ok s && (0 <? left_) then Ret (inl (ptr, left_, false, w)) else Ret (inr (s, w)).

Definition AddRecord (slice : bytes) (w : Writer F) : res (Status * Writer F) :=
  while add_record_body (slice, size slice, true, w).
End writer.
