(* ===== verification/LogReader.v ===== *)
(** * LevelDB: the log reader (log_reader.h, log_reader.cc)

    The methods of the reader are in the monad [M] over the reader object;
    [return false] is [None].  The reporter is the list of what it was told. *)
From stdpp Require Import pretty.
From S2P Require Import Prelude LdbBase Coding Crc32c LogWriter.

Record Reader (F : Type) : Type := MkReader {
  file_ : F;
  reporter_ : option (list (Z * Status));
  checksum_ : bool;
  buffer_ : bytes;
  eof_ : bool;
  last_record_offset_ : Z;
  end_of_buffer_offset_ : Z;
  initial_offset_ : Z;
  resyncing_ : bool;
}.
Arguments MkReader {F}. Arguments file_ {F}. Arguments reporter_ {F}. Arguments checksum_ {F}.
Arguments buffer_ {F}. Arguments eof_ {F}. Arguments last_record_offset_ {F}.
Arguments end_of_buffer_offset_ {F}. Arguments initial_offset_ {F}. Arguments resyncing_ {F}.

Definition kEof : Z := kMaxRecordType + 1.
Definition kBadRecord : Z := kMaxRecordType + 2.

Section reader.
Context {F : Type} `{SequentialFile F}.

(** Assignments to the members. *)
Definition set_buffer (b : bytes) (r : Reader F) : Reader F :=
  MkReader (file_ r) (reporter_ r) (checksum_ r) b (eof_ r) (last_record_offset_ r)
    (end_of_buffer_offset_ r) (initial_offset_ r) (resyncing_ r).
Definition set_eof (e : bool) (r : Reader F) : Reader F :=
  MkReader (file_ r) (reporter_ r) (checksum_ r) (buffer_ r) e (last_record_offset_ r)
    (end_of_buffer_offset_ r) (initial_offset_ r) (resyncing_ r).
Definition set_last_record_offset (o : Z) (r : Reader F) : Reader F :=
  MkReader (file_ r) (reporter_ r) (checksum_ r) (buffer_ r) (eof_ r) o
    (end_of_buffer_offset_ r) (initial_offset_ r) (resyncing_ r).
Definition set_end_of_buffer_offset (o : Z) (r : Reader F) : Reader F :=
  MkReader (file_ r) (reporter_ r) (checksum_ r) (buffer_ r) (eof_ r) (last_record_offset_ r)
    o (initial_offset_ r) (resyncing_ r).
Definition set_resyncing (b : bool) (r : Reader F) : Reader F :=
  MkReader (file_ r) (reporter_ r) (checksum_ r) (buffer_ r) (eof_ r) (last_record_offset_ r)
    (end_of_buffer_offset_ r) (initial_offset_ r) b.
Definition set_file (f : F) (r : Reader F) : Reader F :=
  MkReader f (reporter_ r) (checksum_ r) (buffer_ r) (eof_ r) (last_record_offset_ r)
    (end_of_buffer_offset_ r) (initial_offset_ r) (resyncing_ r).
Definition set_reporter (l : option (list (Z * Status))) (r : Reader F) : Reader F :=
  MkReader (file_ r) l (checksum_ r) (buffer_ r) (eof_ r) (last_record_offset_ r)
    (end_of_buffer_offset_ r) (initial_offset_ r) (resyncing_ r).

Definition new_Reader (file : F) (reporter : bool) (checksum : bool) (initial_offset : Z) : Reader F :=
  MkReader file (if reporter then Some [] else None) checksum [] false 0 0 initial_offset
    (0 <? initial_offset).

Definition LastRecordOffset (r : Reader F) : Z := last_record_offset_ r.

Definition ReportDrop (n : Z) (reason : Status) : M (Reader F) unit :=
  modify (fun r =>
    match reporter_ r with
    | Some l =>
        if initial_offset_ r <=? u64 (end_of_buffer_offset_ r - size (buffer_ r) - n)
        then set_reporter (Some (l ++ [(n, reason)])) r else r
    | None => r
    end).

Definition ReportCorruption (n : Z) (reason : bytes) : M (Reader F) unit :=
  ReportDrop n (Corruption reason).

Definition SkipToInitialBlock : M (Reader F) unit :=
  r <- get;;
  let offset_in_block := initial_offset_ r mod kBlockSize in
  let block_start_location := u64 (initial_offset_ r - offset_in_block) in
  let block_start_location :=
    if kBlockSize - 6 <? offset_in_block then u64 (block_start_location + kBlockSize)
    else block_start_location in
  modify (set_end_of_buffer_offset block_start_location);;
  if 0 <? block_start_location then
    let '(skip_status, f) := sf_Skip block_start_location (file_ r) in
    modify (set_file f);;
    if ok skip_status then ret tt
    else ReportDrop block_start_location skip_status;; return_false
  else ret tt.

(** The branch that refills the buffer: [Some] leaves the function. *)
Definition refill : M (Reader F) (option Z) :=
  r <- get;;
  if negb (eof_ r) then
    let '(status, data, f) := sf_Read kBlockSize (file_ r) in
    modify (fun r => set_file f (set_buffer data r));;
    modify (fun r => set_end_of_buffer_offset (u64 (end_of_buffer_offset_ r + size (buffer_ r))) r);;
    if negb (ok status) then
      modify (set_buffer []);;
      ReportDrop kBlockSize status;;
      modify (set_eof true);;
      ret (Some kEof)
    else if size data <? kBlockSize then
      modify (set_eof true);;
      ret None
    else ret None
  else
    modify (set_buffer []);;
    ret (Some kEof).

(** One turn of the loop of [ReadPhysicalRecord]; [result] is [*result]. *)
Definition physical_body (result : bytes) : M (Reader F) (bytes + (Z * bytes)) :=
  r <- get;;
  if size (buffer_ r) <? kHeaderSize then
    o <- refill;;
    match o with
    | Some t => ret (inr (t, result))
    | None => ret (inl result)
    end
  else
    let header := buffer_ r in
    a <- lift_res (byte_at header 4);;
    b <- lift_res (byte_at header 5);;
    t <- lift_res (byte_at header 6);;
    let type := u32 (sext 8 t) in
    let length := a .| u32 (Z.shiftl b 8) in
    if size (buffer_ r) <? u32 (kHeaderSize + length) then
      let drop_size := size (buffer_ r) in
      modify (set_buffer []);;
      if negb (eof_ r) then
        ReportCorruption drop_size (str "bad record length");;
        ret (inr (kBadRecord, result))
      else ret (inr (kEof, result))
    else if (type =? RecordType_value kZeroType) && (length =? 0) then
      modify (set_buffer []);;
      ret (inr (kBadRecord, result))
    else
      bad <- (if checksum_ r then
                fixed <- lift_res (DecodeFixed32 header);;
                let expected_crc := Unmask fixed in
                actual_crc <- lift_res (Value 0 (ztake (1 + length) (zdrop 6 header)));;
                ret (negb (actual_crc =? expected_crc))
              else ret false);;
      if bad : bool then
        let drop_size := size (buffer_ r) in
        modify (set_buffer []);;
        ReportCorruption drop_size (str "checksum mismatch");;
        ret (inr (kBadRecord, result))
      else
        rest <- lift_res (remove_prefix (buffer_ r) (kHeaderSize + length));;
        modify (set_buffer rest);;
        if u64 (end_of_buffer_offset_ r - size rest - kHeaderSize - length) <? initial_offset_ r
        then ret (inr (kBadRecord, []))
        else ret (inr (type, ztake length (zdrop kHeaderSize header))).

Definition ReadPhysicalRecord (result : bytes) : M (Reader F) (Z * bytes) :=
  whileM physical_body result.

(** The locals of [ReadRecord]. *)
Record read_state : Type := MkReadState {
  scratch : bytes;
  in_fragmented_record : bool;
  prospective_record_offset : Z;
  fragment : bytes;
}.

(** One turn of the loop of [ReadRecord]: [inr] is the record, [return true]. *)
Definition read_record_body (st : read_state) : M (Reader F) (read_state + bytes) :=
  let* '(record_type, fragment) := ReadPhysicalRecord (fragment st) in
  r <- get;;
  let physical_record_offset :=
    u64 (end_of_buffer_offset_ r - size (buffer_ r) - kHeaderSize - size fragment) in
  let continue_ (scratch : bytes) (in_frag : bool) (off : Z) : M (Reader F) (read_state + bytes) :=
    ret (inl (MkReadState scratch in_frag off fragment)) in
  let same := ret (inl (MkReadState (scratch st) (in_fragmented_record st)
                          (prospective_record_offset st) fragment)) in
  if resyncing_ r && (record_type =? RecordType_value kMiddleType) then same
  else if resyncing_ r && (record_type =? RecordType_value kLastType) then
    modify (set_resyncing false);; same
  else
    modify (fun r => if resyncing_ r then set_resyncing false r else r);;
    if record_type =? RecordType_value kFullType then
      (if in_fragmented_record st && negb (empty_slice (scratch st))
       then ReportCorruption (size (scratch st)) (str "partial record without end(1)")
       else ret tt);;
      modify (set_last_record_offset physical_record_offset);;
      ret (inr fragment)
    else if record_type =? RecordType_value kFirstType then
      (if in_fragmented_record st && negb (empty_slice (scratch st))
       then ReportCorruption (size (scratch st)) (str "partial record without end(2)")
       else ret tt);;
      continue_ fragment true physical_record_offset
    else if record_type =? RecordType_value kMiddleType then
      if negb (in_fragmented_record st) then
        ReportCorruption (size fragment) (str "missing start of fragmented record(1)");; same
      else continue_ (scratch st ++ fragment) true (prospective_record_offset st)
    else if record_type =? RecordType_value kLastType then
      if negb (in_fragmented_record st) then
        ReportCorruption (size fragment) (str "missing start of fragmented record(2)");; same
      else
        modify (set_last_record_offset (prospective_record_offset st));;
        ret (inr (scratch st ++ fragment))
    else if record_type =? kEof then return_false
    else if record_type =? kBadRecord then
      if in_fragmented_record st then
        ReportCorruption (size (scratch st)) (str "error in middle of record");;
        continue_ [] false (prospective_record_offset st)
      else same
    else
      ReportCorruption (u64 (size fragment + (if in_fragmented_record st then size (scratch st) else 0)))
        (str "unknown record type " ++ str (pretty record_type));;
      continue_ [] false (prospective_record_offset st).

Definition ReadRecord : M (Reader F) bytes :=
  r <- get;;
  (if last_record_offset_ r <? initial_offset_ r then SkipToInitialBlock else ret tt);;
  whileM read_record_body (MkReadState [] false 0 []).

(** What the reporter was told while a record was read. *)
Definition new_reports (r r' : Reader F) : list Status :=
  match reporter_ r, reporter_ r' with
  | Some l, Some l' => drop (length l) l'.*2
  | _, _ => []
  end.
End reader.
