(* ===== verification/LogRecovery.v ===== *)
(** * Recovery: what a crash leaves of a log

    The database writes a record per batch and, when it is opened, reads the
    log to its end ([RecoverLogFile] of db_impl.cc).  If the file was cut at any
    point, the records that were complete come back, in order, and nothing is
    reported as corruption. *)
From S2P Require Import Prelude LdbBase Coding Crc32c LogWriter LogReader.

(** ** The layout of a log, and the log reader on a well-formed log *)

(** ** The layout of a log, and the writer

    [layout off begin data enc off']: [enc] is how [data] is stored from
    offset [off] of a block on, and [off'] is where it ends; [begin] says
    whether it starts a record.  On a file that does not fail, [AddRecord]
    appends exactly such bytes. *)

(** ** Physical records *)
Definition phys (t : RecordType) (payload : bytes) : bytes :=
  EncodeFixed32 (Mask (crc32c 0 (RecordType_value t :: payload))) ++
  [zlength payload mod 256; zlength payload / 256; RecordType_value t] ++ payload.

(** The trailer behind [off], and where the next header goes. *)
Definition pad (off : Z) : bytes :=
  if kBlockSize - off <? kHeaderSize then replicate (Z.to_nat (kBlockSize - off)) 0 else [].
Definition start (off : Z) : Z := if kBlockSize - off <? kHeaderSize then 0 else off.
Definition avail (off : Z) : Z := kBlockSize - start off - kHeaderSize.

Inductive layout : Z -> bool -> bytes -> bytes -> Z -> Prop :=
| layout_last off begin data :
    zlength data <= avail off ->
    layout off begin data (pad off ++ phys (fragment_type begin true) data)
      (start off + kHeaderSize + zlength data)
| layout_more off begin data enc off' :
    avail off < zlength data ->
    layout kBlockSize false (zdrop (avail off) data) enc off' ->
    layout off begin data (pad off ++ phys (fragment_type begin false) (ztake (avail off) data) ++ enc) off'.

Definition in_block (off : Z) : Prop := 0 <= off <= kBlockSize.

Lemma avail_bound off : in_block off -> 0 <= avail off <= kBlockSize - kHeaderSize.
Proof. unfold in_block, avail, start, kHeaderSize, kBlockSize. intros. case_match; pb_bool; lia. Qed.

Lemma start_in_block off : in_block off -> 0 <= start off /\ start off + kHeaderSize + avail off = kBlockSize.
Proof. unfold in_block, avail, start. intros. split; [case_match; lia|lia]. Qed.

Lemma layout_in_block off begin data enc off' : in_block off -> layout off begin data enc off' -> in_block off'.
Proof.
  intros Hoff H. revert Hoff. induction H as [off begin data Hl|off begin data enc off' Hl _ IH]; intros Hoff.
  - destruct (start_in_block off Hoff). pose proof (zlength_nonneg data).
    unfold in_block in *. unfold kHeaderSize in *. lia.
  - apply IH. unfold in_block, kBlockSize. lia.
Qed.

Lemma RecordType_value_byte t : is_byte (RecordType_value t).
Proof. by destruct t. Qed.

Lemma phys_ok t payload : bytes_ok payload -> zlength payload <= kBlockSize -> bytes_ok (phys t payload).
Proof.
  intros Hp Hl. pose proof (zlength_nonneg payload). unfold kBlockSize in Hl.
  apply bytes_ok_app. split; [apply le_bytes_ok|]. apply bytes_ok_app. split; [|done].
  repeat constructor; try apply RecordType_value_byte.
  - apply Z.mod_pos_bound. lia.
  - apply Z.mod_pos_bound. lia.
  - apply Z.div_pos; lia.
  - apply Z.div_lt_upper_bound; lia.
Qed.

Lemma pad_ok off : bytes_ok (pad off).
Proof. unfold pad. case_match; [|constructor]. apply Forall_replicate. by split. Qed.

Lemma zlength_pad off : in_block off -> zlength (pad off) = if kBlockSize - off <? kHeaderSize then kBlockSize - off else 0.
Proof. unfold pad, in_block, zlength. intros. case_match; [rewrite length_replicate; lia|done]. Qed.

Lemma zlength_phys t payload : zlength (phys t payload) = kHeaderSize + zlength payload.
Proof.
  unfold phys. rewrite !zlength_app. unfold zlength at 1. rewrite EncodeFixed32_le, length_le_bytes.
  change (zlength [zlength payload mod 256; zlength payload / 256; RecordType_value t]) with 3.
  unfold kHeaderSize. lia.
Qed.

Lemma layout_ok off begin data enc off' :
  in_block off -> bytes_ok data -> layout off begin data enc off' -> bytes_ok enc.
Proof.
  intros Hoff Hd H. revert Hoff Hd.
  induction H as [off begin data Hl|off begin data enc off' Hl _ IH]; intros Hoff Hd;
    pose proof (avail_bound off Hoff) as Ha; unfold kHeaderSize in Ha.
  - apply bytes_ok_app. split; [apply pad_ok|apply phys_ok; [done|lia]].
  - apply bytes_ok_app. split; [apply pad_ok|]. apply bytes_ok_app. split.
    + apply phys_ok; [by apply Forall_take|]. rewrite zlength_ztake; lia.
    + apply IH; [unfold in_block, kBlockSize; lia|by apply Forall_drop].
Qed.

(** ** The writer *)
Section writer.
Context {F : Type} `{ReliableFile F}.

(** The checksums of the types are those of one-byte strings. *)
Definition writer_ok (w : Writer F) : Prop :=
  in_block (block_offset_ w) /\
  type_crc_ w = (fun t => crc32c 0 [t]) <$> [0; 1; 2; 3; 4].

Lemma InitTypeCrc_ok : InitTypeCrc 5 0 = Ret ((fun t => crc32c 0 [t]) <$> [0; 1; 2; 3; 4]).
Proof. vm_compute. reflexivity. Qed.

Lemma new_Writer_ok f : exists w, new_Writer f = Ret w /\ writer_ok w /\ dest_ w = f /\ block_offset_ w = 0.
Proof.
  unfold new_Writer. change (Z.to_nat (kMaxRecordType + 1)) with 5%nat. rewrite InitTypeCrc_ok, res_bind_ret.
  eexists. split; [done|]. split; [|done]. split; [|done]. cbn [block_offset_]. unfold in_block, kBlockSize. lia.
Qed.

Lemma type_crc_lookup t :
  ((fun t => crc32c 0 [t]) <$> [0; 1; 2; 3; 4]) !! Z.to_nat (RecordType_value t) = Some (crc32c 0 [RecordType_value t]).
Proof. by destruct t. Qed.

Lemma EmitPhysicalRecord_ok t ptr n w :
  writer_ok w -> bytes_ok ptr -> 0 <= n <= zlength ptr -> block_offset_ w + kHeaderSize + n <= kBlockSize ->
  exists s w', EmitPhysicalRecord t ptr n w = Ret (s, w') /\ ok s = true /\ writer_ok w' /\
    block_offset_ w' = block_offset_ w + kHeaderSize + n /\
    wf_contents (dest_ w') = wf_contents (dest_ w) ++ phys t (ztake n ptr).
Proof.
  intros [Hb Hc] Hp Hn Hfit. unfold in_block in Hb. unfold kHeaderSize, kBlockSize in Hfit, Hb.
  unfold EmitPhysicalRecord. rewrite assert_true, res_bind_ret by (apply Z.leb_le; lia).
  rewrite assert_true, res_bind_ret by (apply Z.leb_le; unfold kHeaderSize, kBlockSize; lia).
  rewrite Hc, type_crc_lookup. cbn [of_option]. rewrite res_bind_ret.
  assert (bytes_ok (ztake n ptr)) as Hpl by by apply Forall_take.
  assert (zlength (ztake n ptr) = n) as Hzl by (apply zlength_ztake; lia).
  pose proof (RecordType_value_byte t) as Ht.
  assert (bytes_ok [RecordType_value t]) as Htv by (constructor; [done|constructor]).
  rewrite Extend_spec, res_bind_ret.
  2:{ split; [done|]. rewrite Hzl. lia. }
  2:{ apply crc32c_bound; [done|lia]. }
  rewrite <- crc32c_app. cbn [app].
  set (buf := EncodeFixed32 _ ++ _).
  destruct (wf_Append_ok buf (dest_ w)) as [Ho1 Hc1]. destruct (wf_Append buf (dest_ w)) as [s1 f1].
  cbn [fst snd] in *. rewrite Ho1.
  destruct (wf_Append_ok (ztake n ptr) f1) as [Ho2 Hc2]. destruct (wf_Append (ztake n ptr) f1) as [s2 f2].
  cbn [fst snd] in *. rewrite Ho2.
  destruct (wf_Flush_ok f2) as [Ho3 Hc3]. destruct (wf_Flush f2) as [s3 f3]. cbn [fst snd] in *.
  eexists s3, _. split; [done|]. split; [done|]. split.
  { split; [|reflexivity]. cbn [block_offset_]. unfold in_block, kHeaderSize, kBlockSize. lia. }
  split; [cbn [block_offset_]; lia|]. cbn [dest_]. rewrite Hc3, Hc2, Hc1, <- app_assoc. f_equal.
  subst buf. unfold phys. rewrite Hzl, <- app_assoc. do 2 f_equal.
  rewrite land_0xFF, Z.shiftr_div_pow2 by lia. change (2 ^ 8) with 256.
  rewrite !u8_small; [done|exact Ht| |apply Z.mod_pos_bound; lia].
  split; [apply Z.div_pos; lia|apply Z.div_lt_upper_bound; lia].
Qed.

Lemma switch_block_ok w :
  writer_ok w ->
  exists w', switch_block w = Ret w' /\ writer_ok w' /\ block_offset_ w' = start (block_offset_ w) /\
    wf_contents (dest_ w') = wf_contents (dest_ w) ++ pad (block_offset_ w).
Proof.
  intros [Hb Hc]. unfold switch_block, start, pad. unfold in_block in Hb.
  rewrite assert_true, res_bind_ret by (apply Z.leb_le; lia).
  destruct (Z.ltb_spec (kBlockSize - block_offset_ w) kHeaderSize) as [Hlt|Hge].
  - eexists. split; [done|]. split; [split; [|exact Hc]; cbn [block_offset_]; unfold in_block, kBlockSize; lia|].
    split; [done|]. cbn [dest_]. destruct (Z.ltb_spec 0 (kBlockSize - block_offset_ w)).
    + destruct (wf_Append_ok (ztake (kBlockSize - block_offset_ w) (replicate 6 0)) (dest_ w)) as [_ ->].
      f_equal. unfold kHeaderSize in Hlt. unfold ztake.
      rewrite take_replicate. f_equal. lia.
    + replace (Z.to_nat (kBlockSize - block_offset_ w)) with 0%nat by lia. by rewrite app_nil_r.
  - exists w. split; [done|]. split; [by split|]. by rewrite app_nil_r.
Qed.

(** One turn of the loop writes the next fragment. *)
Lemma add_record_body_ok data begin w :
  writer_ok w -> bytes_ok data -> zlength data < 2 ^ 63 ->
  let off := block_offset_ w in
  let n := Z.min (zlength data) (avail off) in
  let last := zlength data <=? avail off in
  exists s w', writer_ok w' /\ ok s = true /\ block_offset_ w' = start off + kHeaderSize + n /\
    wf_contents (dest_ w') = wf_contents (dest_ w) ++ pad off ++ phys (fragment_type begin last) (ztake n data) /\
    add_record_body (data, zlength data, begin, w) =
      Ret (if last then inr (s, w') else inl (zdrop n data, zlength data - n, false, w')).
Proof.
  intros Hw Hd Hl off n last. pose proof (zlength_nonneg data) as Hn0.
  pose proof (avail_bound off (proj1 Hw)) as Ha. pose proof (start_in_block off (proj1 Hw)) as [Hs0 Hs].
  destruct (switch_block_ok w Hw) as (w1 & E1 & Hw1 & Ho1 & Hc1). fold off in Ho1, Hc1.
  unfold add_record_body. rewrite E1, res_bind_ret, Ho1.
  rewrite assert_true, res_bind_ret by (apply Z.leb_le; unfold avail in Ha; lia).
  change (kBlockSize - start off - kHeaderSize) with (avail off).
  assert ((if zlength data <? avail off then zlength data else avail off) = n) as ->.
  { subst n. destruct (Z.ltb_spec (zlength data) (avail off)); lia. }
  assert ((zlength data =? n) = last) as ->.
  { subst n last. destruct (Z.leb_spec (zlength data) (avail off)); [apply Z.eqb_eq|apply Z.eqb_neq]; lia. }
  destruct (EmitPhysicalRecord_ok (fragment_type begin last) data n w1) as (s & w2 & E2 & Hs2 & Hw2 & Ho2 & Hc2);
    [done|done|lia|rewrite Ho1; lia|].
  rewrite E2, res_bind_ret. cbn beta match. exists s, w2. split; [exact Hw2|]. split; [exact Hs2|].
  split; [by rewrite Ho2, Ho1|]. split; [by rewrite Hc2, Hc1, <- app_assoc|].
  rewrite Hs2, wrap_small by lia. subst last n. cbn [andb].
  destruct (Z.leb_spec (zlength data) (avail off)).
  - by rewrite (proj2 (Z.ltb_ge _ _)) by lia.
  - by rewrite (proj2 (Z.ltb_lt _ _)) by lia.
Qed.

Lemma add_record_runs n data begin w :
  zlength data + (if avail (block_offset_ w) =? 0 then 1 else 0) < Z.of_nat n ->
  writer_ok w -> bytes_ok data -> zlength data < 2 ^ 63 ->
  exists s w' enc k,
    runs add_record_body (data, zlength data, begin, w) k (Ret (s, w')) /\ k <= Z.of_nat n /\
    ok s = true /\ writer_ok w' /\ layout (block_offset_ w) begin data enc (block_offset_ w') /\
    wf_contents (dest_ w') = wf_contents (dest_ w) ++ enc.
Proof.
  revert data begin w. induction n as [|n IH]; intros data begin w Hn Hw Hd Hl;
    pose proof (zlength_nonneg data) as Hn0; [case_match; lia|].
  pose proof (avail_bound _ (proj1 Hw)) as Ha. pose proof (start_in_block _ (proj1 Hw)) as [Hs0 Hs].
  destruct (add_record_body_ok data begin w Hw Hd Hl) as (s & w1 & Hw1 & Hs1 & Ho1 & Hc1 & E).
  set (off := block_offset_ w) in *. destruct (Z.leb_spec (zlength data) (avail off)) as [Hle|Hgt].
  - rewrite Z.min_l in Ho1, Hc1 by lia. rewrite ztake_all in Hc1.
    exists s, w1, (pad off ++ phys (fragment_type begin true) data), 1. split; [by apply runs_stop|]. split; [lia|]. split; [done|]. split; [done|].
    split; [|exact Hc1]. rewrite Ho1. by apply layout_last.
  - rewrite Z.min_r in Ho1, Hc1, E by lia.
    assert (block_offset_ w1 = kBlockSize) as Ho1' by lia.
    assert (zlength (zdrop (avail off) data) = zlength data - avail off) as Hz by (apply zlength_zdrop; lia).
    destruct (IH (zdrop (avail off) data) false w1) as (s2 & w2 & enc & k & Hr & Hk & Hs2 & Hw2 & Hlay & Hc2).
    + rewrite Hz, Ho1'. change (avail kBlockSize =? 0) with false. cbn match.
      destruct (Z.eqb_spec (avail off) 0); lia.
    + done.
    + by apply Forall_drop.
    + lia.
    + exists s2, w2, (pad off ++ phys (fragment_type begin false) (ztake (avail off) data) ++ enc), (1 + k).
      rewrite Hz in Hr. split; [by eapply runs_step|]. split; [lia|]. split; [done|]. split; [done|].
      rewrite Ho1' in Hlay. split; [by apply layout_more|]. rewrite Hc2, Hc1. by rewrite <- !app_assoc.
Qed.

(** [AddRecord] appends the layout of the record. *)
Lemma AddRecord_layout data w :
  writer_ok w -> bytes_ok data -> zlength data < 2 ^ 63 ->
  exists s w' enc, AddRecord data w = Ret (s, w') /\ ok s = true /\ writer_ok w' /\
    layout (block_offset_ w) true data enc (block_offset_ w') /\
    wf_contents (dest_ w') = wf_contents (dest_ w) ++ enc.
Proof.
  intros Hw Hd Hl. pose proof (zlength_nonneg data).
  destruct (add_record_runs (Z.to_nat (zlength data) + 2) data true w) as (s & w' & enc & k & Hr & Hk & ? & ? & ? & ?);
    [case_match; lia|done..|].
  exists s, w', enc. split; [|done]. unfold AddRecord, size. apply (runs_while _ _ _ _ Hr). lia.
Qed.
End writer.

(** ** The log reader on a well-formed log *)

Section reader.
Context {F : Type} `{ReadableFile F}.
Implicit Types r : Reader F.

Definition at_ (off : Z) (rest : bytes) (r : Reader F) : Prop :=
  (in_block off /\ bytes_ok rest /\ zlength rest < 2 ^ 63) /\
  (buffer_ r = ztake (kBlockSize - off) rest /\
   sf_contents (file_ r) = zdrop (kBlockSize - off) rest /\
   eof_ r = (zlength rest <? kBlockSize - off)) /\
  (initial_offset_ r = 0 /\ (resyncing_ r = false /\ 0 <= last_record_offset_ r)).

(** What the methods leave alone. *)
Definition same_config (r r' : Reader F) : Prop :=
  reporter_ r' = reporter_ r /\ checksum_ r' = checksum_ r.

Lemma same_config_refl r : same_config r r.
Proof. done. Qed.
Lemma same_config_trans r1 r2 r3 : same_config r1 r2 -> same_config r2 r3 -> same_config r1 r3.
Proof. intros [? ?] [? ?]. split; congruence. Qed.
Lemma new_reports_quiet (r r' : Reader F) : same_config r r' -> new_reports r r' = [].
Proof.
  intros [Hr _]. unfold new_reports. rewrite Hr. destruct (reporter_ r) as [l|]; [|done].
  by rewrite drop_ge by (by rewrite length_fmap).
Qed.

Lemma zlength_ztake_min {A} n (l : list A) : 0 <= n -> zlength (ztake n l) = Z.min n (zlength l).
Proof. intros. unfold zlength, ztake. rewrite length_take. lia. Qed.

Lemma ztake_ge {A} n (l : list A) : zlength l <= n -> ztake n l = l.
Proof. unfold zlength, ztake. intros. apply take_ge. lia. Qed.

Lemma zdrop_ge {A} n (l : list A) : zlength l <= n -> zdrop n l = [].
Proof. unfold zlength, zdrop. intros. apply drop_ge. lia. Qed.

(** Refilling at the end of a block that the file fills. *)
Lemma refill_at off rest r :
  at_ off rest r -> kBlockSize - off <= zlength rest ->
  exists r', refill r = Ret (Some None, r') /\ same_config r r' /\ at_ 0 (zdrop (kBlockSize - off) rest) r'.
Proof.
  intros ((Hoff & Hb & Hl) & (Eb & Ef & Ee) & (Ei & Er)) Hge. unfold in_block in Hoff.
  unfold refill. rewrite bind_get, Ee. rewrite (proj2 (Z.ltb_ge _ _)) by lia. cbn [negb].
  destruct (sf_Read_ok kBlockSize (file_ r)) as (Hs & Hd & Hc); [done|].
  destruct (sf_Read kBlockSize (file_ r)) as [[status data] f]. cbn [fst snd] in *.
  rewrite !bind_modify. rewrite Hs. cbn [negb].
  assert (zlength (zdrop (kBlockSize - off) rest) = zlength rest - (kBlockSize - off)) as Hz
    by (apply zlength_zdrop; lia).
  assert (at_ 0 (zdrop (kBlockSize - off) rest)
    (set_eof (size data <? kBlockSize)
       (set_end_of_buffer_offset (u64 (end_of_buffer_offset_ (set_file f (set_buffer data r)) +
          size (buffer_ (set_file f (set_buffer data r))))) (set_file f (set_buffer data r))))) as Hat.
  { split; [split; [|split]|split; [split; [|split]|split]];
      cbn [buffer_ file_ eof_ initial_offset_ resyncing_ set_eof set_end_of_buffer_offset set_file set_buffer];
      [| | | | | |exact Ei|exact Er].
    - unfold in_block, kBlockSize. lia.
    - by apply Forall_drop.
    - lia.
    - by rewrite Hd, Ef.
    - by rewrite Hc, Ef.
    - subst data. rewrite Ef. unfold size. rewrite zlength_ztake_min by (unfold kBlockSize; lia).
      apply eqb_true_iff. rewrite Z.sub_0_r.
      destruct (Z.ltb_spec (zlength (zdrop (kBlockSize - off) rest)) kBlockSize);
        destruct (Z.ltb_spec (Z.min kBlockSize (zlength (zdrop (kBlockSize - off) rest))) kBlockSize); done || lia. }
  destruct (size data <? kBlockSize) eqn:Es.
  - rewrite bind_modify. eexists. split; [reflexivity|]. split; [done|]. exact Hat.
  - eexists. split; [reflexivity|]. split; [done|].
    assert (set_eof false (set_end_of_buffer_offset (u64 (end_of_buffer_offset_ (set_file f (set_buffer data r)) +
          size (buffer_ (set_file f (set_buffer data r))))) (set_file f (set_buffer data r))) =
      set_end_of_buffer_offset (u64 (end_of_buffer_offset_ (set_file f (set_buffer data r)) +
          size (buffer_ (set_file f (set_buffer data r))))) (set_file f (set_buffer data r))) as <-; [|exact Hat].
    unfold set_eof, set_end_of_buffer_offset, set_file, set_buffer. cbn. rewrite Ee.
    by rewrite (proj2 (Z.ltb_ge _ _)) by lia.
Qed.

(** The end of the file: the buffer holds less than a header, or less than
    the header says. *)
Definition at_end r : Prop := buffer_ r = [] /\ eof_ r = true /\ initial_offset_ r = 0.

Lemma refill_end r : eof_ r = true -> refill r = Ret (Some (Some kEof), set_buffer [] r).
Proof. intros E. unfold refill. by rewrite bind_get, E. Qed.

(** The three bytes of the header behind the checksum. *)
Lemma header_bytes t n (l : bytes) crc a b :
  zlength crc = 4 -> l = crc ++ [a; b; t] ++ n ->
  byte_at l 4 = Ret a /\ byte_at l 5 = Ret b /\ byte_at l 6 = Ret t.
Proof.
  intros Hc ->. unfold zlength in Hc. unfold byte_at.
  assert (length crc = 4%nat) as Hl by lia. simpl (0 <=? _).
  split; [|split]; rewrite lookup_app_r, Hl by (rewrite Hl; simpl; lia); reflexivity.
Qed.

Lemma record_type_sext t : u32 (sext 8 (RecordType_value t)) = RecordType_value t.
Proof. by destruct t. Qed.

Lemma header_length n : 0 <= n < 65536 -> n mod 256 .| u32 (Z.shiftl (n / 256) 8) = n.
Proof.
  intros Hn. pose proof (Z.mod_pos_bound n 256 ltac:(lia)).
  rewrite lor_wrap_shiftl by lia. rewrite Z.mod_small.
  - rewrite (Z.div_mod n 256) at 3 by lia. lia.
  - assert (n / 256 < 256) by (apply Z.div_lt_upper_bound; lia).
    assert (0 <= n / 256) by (apply Z.div_pos; lia). lia.
Qed.

(** A whole physical record in the buffer. *)
Lemma physical_body_phys t payload tail result r off :
  at_ off (phys t payload ++ tail) r -> t <> kZeroType -> bytes_ok payload ->
  off + kHeaderSize + zlength payload <= kBlockSize ->
  exists r', physical_body result r = Ret (Some (inr (RecordType_value t, payload)), r') /\
    same_config r r' /\ at_ (off + kHeaderSize + zlength payload) tail r'.
Proof.
  intros ((Hoff & Hb & Hl) & (Eb & Ef & Ee) & (Ei & Er)) Ht Hp Hfit. unfold in_block in Hoff.
  pose proof (zlength_nonneg payload) as Hn0. pose proof (zlength_nonneg tail) as Ht0.
  pose proof (zlength_phys t payload) as Hz. rewrite zlength_app, Hz in Hl, Ee.
  unfold kBlockSize, kHeaderSize in Hfit.
  set (n := zlength payload) in *.
  (* the buffer starts with the record *)
  assert (exists more, buffer_ r = phys t payload ++ more /\
            more = ztake (kBlockSize - off - (kHeaderSize + n)) tail) as (more & Ebuf & Emore).
  { eexists. split; [|reflexivity]. rewrite Eb. unfold ztake.
    rewrite take_app. unfold zlength in Hz. rewrite take_ge by (unfold kBlockSize, kHeaderSize in *; lia).
    do 2 f_equal. unfold kBlockSize, kHeaderSize in *. lia. }
  pose proof (zlength_nonneg more) as Hm0.
  set (crc := EncodeFixed32 (Mask (crc32c 0 (RecordType_value t :: payload)))).
  assert (buffer_ r = crc ++ [n mod 256; n / 256; RecordType_value t] ++ payload ++ more) as Ebuf'.
  { rewrite Ebuf. unfold phys. fold n. by rewrite <- !app_assoc. }
  assert (zlength crc = 4) as Hcrc by (unfold zlength, crc; by rewrite EncodeFixed32_le, length_le_bytes).
  destruct (header_bytes _ _ _ crc _ _ Hcrc Ebuf') as (B4 & B5 & B6).
  assert (size (buffer_ r) = kHeaderSize + n + zlength more) as Hsize by (unfold size; by rewrite Ebuf, zlength_app, Hz).
  unfold physical_body. rewrite bind_get, Hsize. rewrite (proj2 (Z.ltb_ge _ _)) by (unfold kHeaderSize; lia).
  rewrite B4, B5, B6. rewrite !(bind_lift (Ret _) _ _ _ eq_refl). rewrite record_type_sext.
  rewrite header_length by lia. rewrite wrap_small by (unfold kHeaderSize; lia).
  rewrite (proj2 (Z.ltb_ge _ _)) by lia.
  assert ((RecordType_value t =? RecordType_value kZeroType) = false) as Htz by by destruct t.
  rewrite Htz. cbn [andb].
  assert (crc32c_ok : 0 <= crc32c 0 (RecordType_value t :: payload) < 2 ^ 32).
  { apply crc32c_bound; [|lia]. constructor; [apply RecordType_value_byte|done]. }
  destruct (Unmask_Mask _ crc32c_ok) as [Hmask Hunmask].
  assert (ztake (1 + n) (zdrop 6 (buffer_ r)) = RecordType_value t :: payload) as Echeck.
  { rewrite Ebuf'. unfold zdrop, zlength in Hcrc |- *.
    rewrite drop_app_ge by (simpl; lia). replace (Z.to_nat 6 - length crc)%nat with 2%nat by (simpl; lia).
    simpl drop. unfold ztake. replace (Z.to_nat (1 + n)) with (S (length payload)) by (unfold n, zlength; lia).
    simpl. by rewrite take_app_length. }
  rewrite (bind_some _ _ r false r).
  2:{ destruct (checksum_ r); [|done].
      rewrite (bind_lift _ _ _ (Mask (crc32c 0 (RecordType_value t :: payload)))).
      2:{ rewrite Ebuf'. by apply DecodeFixed32_Encode. }
      rewrite (bind_lift _ _ _ (crc32c 0 (RecordType_value t :: payload))).
      2:{ rewrite Echeck. apply Extend_spec; [|lia]. split; [constructor; [apply RecordType_value_byte|done]|].
          rewrite zlength_cons. fold n. lia. }
      by rewrite Hunmask, Z.eqb_refl. }
  assert (buffer_ r = phys t payload ++ more) as Eb2 by exact Ebuf.
  assert (remove_prefix (buffer_ r) (kHeaderSize + n) = Ret more) as Erm.
  { rewrite Eb2, <- Hz. apply remove_prefix_app. }
  rewrite (bind_lift _ _ _ more Erm), bind_modify.
  rewrite Ei. rewrite (proj2 (Z.ltb_ge _ _)) by (apply wrap_bound; lia).
  assert (ztake n (zdrop kHeaderSize (buffer_ r)) = payload) as Epay.
  { rewrite Ebuf'. unfold zdrop, zlength in Hcrc |- *. unfold kHeaderSize.
    rewrite drop_app_ge by (simpl; lia). replace (Z.to_nat (4 + 2 + 1) - length crc)%nat with 3%nat by (simpl; lia).
    simpl drop. apply ztake_app. }
  rewrite Epay. eexists. split; [reflexivity|]. split; [done|].
  split; [|split].
  - split; [|split].
    + unfold in_block, kHeaderSize, kBlockSize. lia.
    + by apply bytes_ok_app in Hb as [_ ?].
    + unfold kHeaderSize in Hl. lia.
  - cbn. split; [|split].
    + rewrite Emore. f_equal. lia.
    + rewrite Ef. unfold zdrop. rewrite drop_app. unfold zlength in Hz.
      rewrite drop_ge, app_nil_l by (unfold kBlockSize, kHeaderSize in *; lia). f_equal.
      unfold kBlockSize, kHeaderSize in *. lia.
    + rewrite Ee. apply eqb_true_iff.
      destruct (Z.ltb_spec (kHeaderSize + n + zlength tail) (kBlockSize - off));
        destruct (Z.ltb_spec (zlength tail) (kBlockSize - (off + kHeaderSize + n))); done || lia.
  - exact (conj Ei Er).
Qed.

Lemma physical_body_refill result r r' :
  size (buffer_ r) < kHeaderSize -> refill r = Ret (Some None, r') ->
  physical_body result r = Ret (Some (inl result), r').
Proof.
  intros Hs Hr. unfold physical_body. rewrite bind_get, (proj2 (Z.ltb_lt _ _)) by done.
  by rewrite (bind_some _ _ _ _ _ Hr).
Qed.

Lemma ReadPhysicalRecord_phys off t payload tail result r :
  at_ off (pad off ++ phys t payload ++ tail) r -> t <> kZeroType -> bytes_ok payload ->
  zlength payload <= avail off ->
  exists r', ReadPhysicalRecord result r = Ret (Some (RecordType_value t, payload), r') /\
    same_config r r' /\ at_ (start off + kHeaderSize + zlength payload) tail r'.
Proof.
  intros Hat Ht Hp Hfit. unfold pad, avail, start in *. unfold ReadPhysicalRecord.
  destruct (Z.ltb_spec (kBlockSize - off) kHeaderSize) as [Hlt|Hge].
  - assert (in_block off) as Hoff by apply Hat. unfold in_block in Hoff.
    assert (zlength (replicate (Z.to_nat (kBlockSize - off)) 0) = kBlockSize - off) as Hz
      by (unfold zlength; rewrite length_replicate; lia).
    destruct (refill_at _ _ _ Hat) as (r1 & E1 & Hc1 & Hat1).
    { rewrite zlength_app, Hz. pose proof (zlength_nonneg (phys t payload ++ tail)). lia. }
    rewrite <- Hz in Hat1 at 1. rewrite zdrop_app in Hat1.
    destruct (physical_body_phys t payload tail result r1 0 Hat1) as (r2 & E2 & Hc2 & Hat2); [done|done|lia|].
    exists r2. split; [|split; [by eapply same_config_trans|exact Hat2]].
    apply runs_while_body with (1 + 1); [|lia]. eapply runs_M_step; [|by apply runs_M_stop].
    apply physical_body_refill; [|done]. destruct Hat as (_ & (-> & _) & _). unfold size.
    rewrite zlength_ztake_min by lia. lia.
  - destruct (physical_body_phys t payload tail result r off Hat) as (r1 & E1 & Hc1 & Hat1); [done|done|lia|].
    exists r1. split; [|done]. apply runs_while_body with 1; [|lia]. by apply runs_M_stop.
Qed.

(** ** The end of the file *)
Lemma physical_body_short result r :
  size (buffer_ r) < kHeaderSize -> eof_ r = true -> initial_offset_ r = 0 ->
  physical_body result r = Ret (Some (inr (kEof, result)), set_buffer [] r) /\ at_end (set_buffer [] r).
Proof.
  intros Hs He Hi. split; [|done]. unfold physical_body.
  rewrite bind_get, (proj2 (Z.ltb_lt _ _)) by done.
  by rewrite (bind_some _ _ _ _ _ (refill_end _ He)).
Qed.

(** A proper prefix of a physical record, at the end of the file. *)
Lemma physical_body_truncated t payload rest more result r off :
  at_ off rest r -> rest ++ more = phys t payload -> more <> [] -> zlength payload <= kBlockSize ->
  zlength rest < kBlockSize - off ->
  physical_body result r = Ret (Some (inr (kEof, result)), set_buffer [] r) /\ at_end (set_buffer [] r).
Proof.
  intros ((Hoff & Hb & Hl) & (Eb & Ef & Ee) & (Ei & Er)) Heq Hmore Hn Hlt.
  rewrite (proj2 (Z.ltb_lt _ _)) in Ee by done. rewrite ztake_ge in Eb by lia.
  destruct (Z.lt_ge_cases (size (buffer_ r)) kHeaderSize) as [Hs|Hs]; [by apply physical_body_short|].
  split; [|done]. unfold size in Hs. rewrite Eb in Hs.
  assert (zlength rest < kHeaderSize + zlength payload) as Hshort.
  { rewrite <- (zlength_phys t), <- Heq, zlength_app. destruct more; [done|]. rewrite zlength_cons.
    pose proof (zlength_nonneg more). lia. }
  set (crc := EncodeFixed32 (Mask (crc32c 0 (RecordType_value t :: payload)))).
  set (n := zlength payload) in *. unfold kBlockSize in Hn.
  assert (zlength crc = 4) as Hcrc by (unfold zlength, crc; by rewrite EncodeFixed32_le, length_le_bytes).
  assert (rest = crc ++ [n mod 256; n / 256; RecordType_value t] ++ drop 7 rest) as Erest.
  { rewrite <- (take_drop 7 rest) at 1. rewrite (app_assoc crc). f_equal.
    assert (take 7 (rest ++ more) = take 7 rest) as <-.
    { apply take_app_le. unfold zlength, kHeaderSize in Hs. lia. }
    rewrite Heq. unfold phys. fold n. fold crc. rewrite (app_assoc crc). apply take_app_length'.
    rewrite length_app. unfold zlength in Hcrc. simpl. lia. }
  destruct (header_bytes _ _ _ crc _ _ Hcrc Erest) as (B4 & B5 & B6).
  pose proof (zlength_nonneg payload). fold n in H1.
  unfold physical_body. rewrite bind_get. unfold size. rewrite Eb. rewrite (proj2 (Z.ltb_ge _ _)) by lia.
  rewrite B4, B5, B6. rewrite !(bind_lift (Ret _) _ _ _ eq_refl). rewrite header_length by lia.
  rewrite wrap_small by (unfold kHeaderSize; lia). rewrite (proj2 (Z.ltb_lt _ _)) by lia.
  rewrite bind_modify, Ee. done.
Qed.

Lemma ReadPhysicalRecord_truncated off t payload rest more result r :
  at_ off rest r -> rest ++ more = pad off ++ phys t payload -> more <> [] -> zlength payload <= avail off ->
  exists r', ReadPhysicalRecord result r = Ret (Some (kEof, result), r') /\ same_config r r' /\ at_end r'.
Proof.
  intros Hat Heq Hmore Hfit. assert (in_block off) as Hoff by apply Hat.
  pose proof (avail_bound off Hoff) as Ha. unfold kHeaderSize in Ha.
  assert (zlength rest < zlength (pad off) + (kHeaderSize + zlength payload)) as Hshort.
  { rewrite <- zlength_phys with (t := t), <- zlength_app, <- Heq, zlength_app.
    destruct more; [done|]. rewrite zlength_cons. pose proof (zlength_nonneg more). lia. }
  rewrite zlength_pad in Hshort by done. unfold ReadPhysicalRecord.
  unfold pad in Heq. unfold avail, start in *. unfold in_block in Hoff.
  destruct (Z.ltb_spec (kBlockSize - off) kHeaderSize) as [Hlt|Hge].
  - destruct (Z.lt_ge_cases (zlength rest) (kBlockSize - off)) as [Hr|Hr].
    + destruct Hat as (_ & (Eb & _ & Ee) & (Ei & _)). rewrite (proj2 (Z.ltb_lt _ _)) in Ee by done.
      destruct (physical_body_short result r) as [E Hend]; [|done|done|].
      { unfold size. rewrite Eb, zlength_ztake_min by lia. lia. }
      eexists. split; [|split; [|exact Hend]; done].
      apply runs_while_body with 1; [|lia]. by apply runs_M_stop.
    + destruct (refill_at _ _ _ Hat Hr) as (r1 & E1 & Hc1 & Hat1).
      assert (zdrop (kBlockSize - off) rest ++ more = phys t payload) as Heq1.
      { rewrite <- zdrop_app_le by lia. rewrite Heq.
        replace (kBlockSize - off) with (zlength (replicate (Z.to_nat (kBlockSize - off)) 0)) at 1
          by (unfold zlength; rewrite length_replicate; lia).
        apply zdrop_app. }
      destruct (physical_body_truncated t payload _ more result r1 0 Hat1 Heq1 Hmore) as [E Hend]; [lia| |].
      { rewrite zlength_zdrop by lia. lia. }
      exists (set_buffer [] r1). split; [|split; [exact Hc1|exact Hend]].
      apply runs_while_body with (1 + 1); [|lia]. eapply runs_M_step; [|apply runs_M_stop; exact E].
      apply physical_body_refill; [|done]. destruct Hat as (_ & (-> & _) & _). unfold size.
      rewrite zlength_ztake_min by lia. lia.
  - destruct (physical_body_truncated t payload rest more result r off Hat Heq Hmore) as [E Hend]; [lia|lia|].
    exists (set_buffer [] r). split; [|split; [done|exact Hend]].
    apply runs_while_body with 1; [|lia]. by apply runs_M_stop.
Qed.

(** ** Records *)
Definition reading (begin : bool) (st : read_state) : Prop :=
  in_fragmented_record st = negb begin /\ (begin = true -> scratch st = []) /\
  0 <= prospective_record_offset st.

Lemma at_set_last off rest o r : at_ off rest r -> 0 <= o -> at_ off rest (set_last_record_offset o r).
Proof. by intros (? & ? & ? & ? & _) Ho. Qed.

Lemma read_record_body_phys off begin end_ payload tail st r :
  reading begin st -> at_ off (pad off ++ phys (fragment_type begin end_) payload ++ tail) r ->
  bytes_ok payload -> zlength payload <= avail off ->
  exists r' st', same_config r r' /\ at_ (start off + kHeaderSize + zlength payload) tail r' /\
    reading false st' /\ scratch st' = scratch st ++ payload /\
    read_record_body st r = Ret (Some (if end_ then inr (scratch st ++ payload) else inl st'), r').
Proof.
  intros (Hin & Hsc & Hpo) Hat Hp Hfit.
  destruct (ReadPhysicalRecord_phys off _ payload tail (fragment st) r Hat) as (r1 & E & Hc & Hat1); [|done|done|].
  { by destruct begin, end_. }
  assert (resyncing_ r1 = false) as Hre by apply Hat1.
  unfold read_record_body. rewrite (bind_some _ _ _ _ _ E). cbn beta match. rewrite bind_get, Hre.
  cbn [andb]. rewrite bind_modify, Hre. set (o := u64 _).
  assert (0 <= o) as Ho by (apply wrap_bound; lia).
  destruct begin, end_; cbn [fragment_type andb RecordType_value];
    repeat match goal with |- context [?a =? ?b] => let v := eval vm_compute in (a =? b) in change (a =? b) with v end;
    cbn match; rewrite Hin; cbn [negb andb].
  - rewrite bind_ret, bind_modify. rewrite (Hsc eq_refl). cbn [app].
    exists (set_last_record_offset o r1), (MkReadState payload true 0 []).
    split; [exact Hc|]. split; [by apply at_set_last|]. split; [done|]. by split.
  - rewrite bind_ret. rewrite (Hsc eq_refl). cbn [app]. exists r1. eexists. split; [exact Hc|].
    split; [exact Hat1|]. split; [|split; [|reflexivity]]; done.
  - rewrite bind_modify. exists (set_last_record_offset (prospective_record_offset st) r1), (MkReadState (scratch st ++ payload) true 0 []).
    split; [exact Hc|]. split; [by apply at_set_last|]. split; [done|]. by split.
  - exists r1. eexists. split; [exact Hc|]. split; [exact Hat1|]. split; [|split; [|reflexivity]]; done.
Qed.

Definition turns (off : Z) (data : bytes) : Z := zlength data + (if avail off =? 0 then 2 else 1).

Lemma turns_more off data :
  in_block off -> avail off < zlength data -> 1 + turns kBlockSize (zdrop (avail off) data) <= turns off data.
Proof.
  intros Hoff Hl. pose proof (avail_bound off Hoff). unfold turns.
  rewrite zlength_zdrop by lia. change (avail kBlockSize =? 0) with false. cbn match.
  destruct (Z.eqb_spec (avail off) 0); lia.
Qed.

Lemma read_record_layout off begin data enc off' tail st r :
  layout off begin data enc off' -> at_ off (enc ++ tail) r -> reading begin st -> bytes_ok data ->
  exists k r', runs (while_body read_record_body) (st, r) k (Ret (Some (scratch st ++ data), r')) /\
    k <= turns off data /\ same_config r r' /\ at_ off' tail r'.
Proof.
  intros Hlay. revert st r. induction Hlay as [off begin data Hl|off begin data enc off' Hl Hlay IH];
    intros st r Hat Hst Hd.
  - rewrite <- app_assoc in Hat.
    destruct (read_record_body_phys off begin true data tail st r Hst Hat Hd Hl) as (r1 & st1 & Hc & Hat1 & _ & _ & E).
    exists 1, r1. split; [by apply runs_M_stop|]. split; [|done]. unfold turns.
    pose proof (zlength_nonneg data). case_match; lia.
  - assert (in_block off) as Hoff by apply Hat. pose proof (avail_bound off Hoff).
    assert (zlength (ztake (avail off) data) = avail off) as Hz by (apply zlength_ztake; lia).
    rewrite <- !app_assoc in Hat.
    destruct (read_record_body_phys off begin false (ztake (avail off) data) (enc ++ tail) st r Hst Hat)
      as (r1 & st1 & Hc & Hat1 & Hst1 & Hsc & E); [by apply Forall_take|lia|].
    rewrite Hz in Hat1. destruct (start_in_block off Hoff) as [_ Hs]. rewrite Hs in Hat1.
    destruct (IH st1 r1 Hat1 Hst1) as (k & r' & Hr & Hk & Hc' & Hat'); [by apply Forall_drop|].
    exists (1 + k), r'. rewrite Hsc, <- app_assoc, ztake_zdrop in Hr.
    split; [by eapply runs_M_step|]. split; [|split; [by eapply same_config_trans|done]].
    pose proof (turns_more off data Hoff Hl). lia.
Qed.

Lemma read_record_body_eof st r r' :
  ReadPhysicalRecord (fragment st) r = Ret (Some (kEof, fragment st), r') ->
  exists r'', read_record_body st r = Ret (None, r'') /\ same_config r' r''.
Proof.
  intros E. unfold read_record_body. rewrite (bind_some _ _ _ _ _ E). cbn beta match. rewrite bind_get.
  rewrite !andb_false_r. rewrite bind_modify.
  repeat match goal with |- context [?a =? ?b] => let v := eval vm_compute in (a =? b) in change (a =? b) with v end.
  cbn match. eexists. split; [reflexivity|]. by destruct (resyncing_ r').
Qed.

(** A file that ends before the record does: no record, and no complaint. *)
Lemma read_record_truncated off begin data enc off' rest more st r :
  layout off begin data enc off' -> at_ off rest r -> rest ++ more = enc -> more <> [] ->
  reading begin st -> bytes_ok data ->
  exists k r', runs (while_body read_record_body) (st, r) k (Ret (None, r')) /\
    k <= turns off data /\ same_config r r'.
Proof.
  intros Hlay. revert rest st r. induction Hlay as [off begin data Hl|off begin data enc off' Hl Hlay IH];
    intros rest st r Hat Heq Hmore Hst Hd.
  - destruct (ReadPhysicalRecord_truncated off _ data rest more (fragment st) r Hat Heq Hmore Hl) as (r1 & E & Hc & _).
    destruct (read_record_body_eof _ _ _ E) as (r2 & E2 & Hc2).
    exists 1, r2. split; [by apply runs_M_false|]. split; [|by eapply same_config_trans].
    unfold turns. pose proof (zlength_nonneg data). case_match; lia.
  - assert (in_block off) as Hoff by apply Hat. pose proof (avail_bound off Hoff).
    assert (zlength (ztake (avail off) data) = avail off) as Hz by (apply zlength_ztake; lia).
    pose proof (turns_more off data Hoff Hl) as Hturns.
    set (front := pad off ++ phys (fragment_type begin false) (ztake (avail off) data)) in *.
    assert (rest ++ more = front ++ enc) as Heq' by (rewrite Heq; unfold front; by rewrite <- app_assoc).
    destruct (decide (length front <= length rest)%nat) as [Hge|Hlt].
    + assert (rest = front ++ drop (length front) rest) as Erest.
      { rewrite <- (take_drop (length front) rest) at 1. f_equal.
        assert (take (length front) (rest ++ more) = take (length front) rest) as <- by by apply take_app_le.
        rewrite Heq'. apply take_app_length. }
      set (rest' := drop (length front) rest) in *.
      assert (rest' ++ more = enc) as Heq2.
      { rewrite Erest, <- app_assoc in Heq'. by apply app_inv_head in Heq'. }
      rewrite Erest in Hat. unfold front in Hat. rewrite <- app_assoc in Hat.
      destruct (read_record_body_phys off begin false (ztake (avail off) data) rest' st r Hst Hat)
        as (r1 & st1 & Hc & Hat1 & Hst1 & _ & E); [by apply Forall_take|lia|].
      rewrite Hz in Hat1. destruct (start_in_block off Hoff) as [_ Hs]. rewrite Hs in Hat1.
      destruct (IH rest' st1 r1 Hat1 Heq2 Hmore Hst1) as (k & r' & Hr & Hk & Hc'); [by apply Forall_drop|].
      exists (1 + k), r'. split; [by eapply runs_M_step|]. split; [lia|by eapply same_config_trans].
    + assert (rest ++ drop (length rest) front = front) as Heq3.
      { rewrite <- (take_drop (length rest) front) at 2. f_equal.
        assert (take (length rest) (front ++ enc) = take (length rest) front) as <- by (apply take_app_le; lia).
        rewrite <- Heq'. symmetry. apply take_app_length. }
      destruct (ReadPhysicalRecord_truncated off _ (ztake (avail off) data) rest _ (fragment st) r Hat Heq3)
        as (r1 & E & Hc & _).
      { intros E0. apply (f_equal length) in E0. rewrite length_drop in E0. simpl in E0. lia. }
      { lia. }
      destruct (read_record_body_eof _ _ _ E) as (r2 & E2 & Hc2).
      exists 1, r2. split; [by apply runs_M_false|]. split; [|by eapply same_config_trans].
      unfold turns. pose proof (zlength_nonneg data). case_match; lia.
Qed.
End reader.

(** ** Recovery: what a crash leaves of a log *)

Section recovery.
Context {F G : Type} `{ReliableFile F} `{ReadableFile G}.

(** Adding records until one fails. *)
Fixpoint AddRecords (rs : list bytes) (w : Writer F) : res (Status * Writer F) :=
  match rs with
  | [] => Ret (Status_OK, w)
  | d :: rs =>
      let! '(s, w) := AddRecord d w in
      if ok s then AddRecords rs w else Ret (s, w)
  end.

(** [while (reader.ReadRecord(&record, &scratch))]: the records it yields. *)
Inductive recovers : Reader G -> list bytes -> Reader G -> Prop :=
| recovers_end r r' : ReadRecord r = Ret (None, r') -> recovers r [] r'
| recovers_more r d r1 ds r' : ReadRecord r = Ret (Some d, r1) -> recovers r1 ds r' -> recovers r (d :: ds) r'.

(** The same, and the reporter hears nothing. *)
Inductive recovers_quietly : Reader G -> list bytes -> Prop :=
| quiet_end r r' : ReadRecord r = Ret (None, r') -> same_config r r' -> recovers_quietly r []
| quiet_more r d r1 ds :
    ReadRecord r = Ret (Some d, r1) -> same_config r r1 -> recovers_quietly r1 ds -> recovers_quietly r (d :: ds).

Lemma quiet_recovers r ds : recovers_quietly r ds -> exists r', recovers r ds r' /\ same_config r r'.
Proof.
  induction 1 as [r r' E Hc|r d r1 ds E Hc _ (r' & Hr & Hc')].
  - exists r'. split; [by constructor|done].
  - exists r'. split; [by econstructor|by eapply same_config_trans].
Qed.

Definition record_ok (d : bytes) : Prop := bytes_ok d /\ zlength d < 2 ^ 63.

(** The layouts of a sequence of records. *)
Inductive layouts : Z -> list bytes -> bytes -> Z -> Prop :=
| layouts_nil off : layouts off [] [] off
| layouts_cons off d enc off1 ds encs off2 :
    layout off true d enc off1 -> layouts off1 ds encs off2 -> layouts off (d :: ds) (enc ++ encs) off2.

Lemma AddRecords_layouts rs w :
  writer_ok w -> Forall record_ok rs ->
  exists s w' enc, AddRecords rs w = Ret (s, w') /\ ok s = true /\ writer_ok w' /\
    layouts (block_offset_ w) rs enc (block_offset_ w') /\
    wf_contents (dest_ w') = wf_contents (dest_ w) ++ enc.
Proof.
  intros Hw Hrs. revert w Hw. induction Hrs as [|d rs [Hd Hl] _ IH]; intros w Hw.
  - exists Status_OK, w, []. rewrite app_nil_r. do 3 (split; [done|]). split; [constructor|done].
  - destruct (AddRecord_layout d w Hw Hd Hl) as (s & w1 & enc & E & Hs & Hw1 & Hlay & Hc).
    destruct (IH w1 Hw1) as (s2 & w2 & encs & E2 & Hs2 & Hw2 & Hlays & Hc2).
    exists s2, w2, (enc ++ encs). split; [cbn [AddRecords]; by rewrite E, res_bind_ret, Hs|].
    split; [done|]. split; [done|]. split; [by econstructor|]. by rewrite Hc2, Hc, <- app_assoc.
Qed.

Lemma ReadRecord_unfold off rest (r : Reader G) :
  at_ off rest r -> ReadRecord r = whileM read_record_body (MkReadState [] false 0 []) r.
Proof.
  intros (_ & _ & Hi & _ & Hl). unfold ReadRecord. rewrite bind_get, Hi.
  by rewrite (proj2 (Z.ltb_ge _ _)) by done.
Qed.

Lemma turns_bound off data : zlength data < 2 ^ 63 -> turns off data <= 2 ^ 64.
Proof. intros Hl. unfold turns. case_match; lia. Qed.

Lemma reading_start : reading true (MkReadState [] false 0 []).
Proof. done. Qed.

Lemma ReadRecord_layout off d enc off' tail (r : Reader G) :
  layout off true d enc off' -> at_ off (enc ++ tail) r -> record_ok d ->
  exists r', ReadRecord r = Ret (Some d, r') /\ same_config r r' /\ at_ off' tail r'.
Proof.
  intros Hlay Hat [Hd Hl].
  destruct (read_record_layout _ _ _ _ _ tail _ r Hlay Hat reading_start Hd) as (k & r' & Hr & Hk & Hc & Hat').
  exists r'. split; [|done]. rewrite (ReadRecord_unfold _ _ _ Hat).
  apply (runs_while_body _ _ _ _ _ _ Hr). pose proof (turns_bound off d Hl). lia.
Qed.

Lemma ReadRecord_truncated off d enc off' rest more (r : Reader G) :
  layout off true d enc off' -> at_ off rest r -> rest ++ more = enc -> more <> [] -> record_ok d ->
  exists r', ReadRecord r = Ret (None, r') /\ same_config r r'.
Proof.
  intros Hlay Hat Heq Hmore [Hd Hl].
  destruct (read_record_truncated _ _ _ _ _ rest more _ r Hlay Hat Heq Hmore reading_start Hd) as (k & r' & Hr & Hk & Hc).
  exists r'. split; [|done]. rewrite (ReadRecord_unfold _ _ _ Hat).
  apply (runs_while_body _ _ _ _ _ _ Hr). pose proof (turns_bound off d Hl). lia.
Qed.

(** A log of complete records and a part of one more. *)
Lemma recovers_layouts off ds encs off1 d enc off2 rest more (r : Reader G) :
  layouts off ds encs off1 -> Forall record_ok ds ->
  layout off1 true d enc off2 -> record_ok d -> rest ++ more = enc -> more <> [] ->
  at_ off (encs ++ rest) r ->
  recovers_quietly r ds.
Proof.
  intros Hlays Hds Hlay Hd Heq Hmore. revert r Hds.
  induction Hlays as [off|off d1 enc1 off1 ds encs off3 Hlay1 _ IH]; intros r Hds Hat.
  - destruct (ReadRecord_truncated _ _ _ _ rest more r Hlay Hat Heq Hmore Hd) as (r' & E & Hc).
    by econstructor.
  - apply Forall_cons_1 in Hds as [Hd1 Hds]. rewrite <- app_assoc in Hat.
    destruct (ReadRecord_layout _ _ _ _ _ r Hlay1 Hat Hd1) as (r1 & E & Hc & Hat1).
    econstructor; [exact E|exact Hc|]. by apply IH.
Qed.

Lemma layouts_ok off ds encs off' :
  in_block off -> Forall record_ok ds -> layouts off ds encs off' -> bytes_ok encs /\ in_block off'.
Proof.
  intros Hoff Hds Hlays. revert Hoff Hds. induction Hlays as [|off d enc off1 ds encs off2 Hlay _ IH];
    intros Hoff Hds; [by split; [constructor|]|]. apply Forall_cons_1 in Hds as [[Hd _] Hds].
  destruct (IH (layout_in_block _ _ _ _ _ Hoff Hlay) Hds). split; [|done].
  apply bytes_ok_app. split; [by eapply (layout_ok off true d)|done].
Qed.

(** A new reader stands before the file. *)
Lemma new_Reader_at (g : G) reporter checksum :
  bytes_ok (sf_contents g) -> zlength (sf_contents g) < 2 ^ 63 ->
  at_ kBlockSize (sf_contents g) (new_Reader g reporter checksum 0).
Proof.
  intros Hb Hl. pose proof (zlength_nonneg (sf_contents g)). split; [|split].
  - split; [unfold in_block, kBlockSize; lia|done].
  - rewrite Z.sub_diag. cbn. split; [done|]. split; [done|]. symmetry. apply Z.ltb_ge. lia.
  - done.
Qed.

(** The start of a file is the end of a block. *)
Lemma layout_start begin d enc off' : layout 0 begin d enc off' <-> layout kBlockSize begin d enc off'.
Proof.
  split; intros Hl; inversion Hl; subst.
  - by apply (layout_last kBlockSize).
  - by apply (layout_more kBlockSize).
  - by apply (layout_last 0).
  - by apply (layout_more 0).
Qed.

Lemma layouts_start ds encs off' :
  layouts 0 ds encs off' -> exists off'', layouts kBlockSize ds encs off'' /\
    forall begin d enc off2, layout off' begin d enc off2 -> layout off'' begin d enc off2.
Proof.
  intros Hl. inversion Hl; subst.
  - exists kBlockSize. split; [constructor|]. intros. by apply layout_start.
  - exists off'. split; [|done]. econstructor; [by apply layout_start|done].
Qed.

(** What any part of one more record leaves behind complete records. *)
Lemma log_crash (rs : list bytes) (d : bytes) (f : F) :
  wf_contents f = [] -> Forall record_ok rs -> record_ok d ->
  exists w0 s1 w1 s2 w2,
    new_Writer f = Ret w0 /\ AddRecords rs w0 = Ret (s1, w1) /\ ok s1 = true /\
    AddRecord d w1 = Ret (s2, w2) /\ ok s2 = true /\
    forall (g : G) c more,
      wf_contents (dest_ w2) = wf_contents (dest_ w1) ++ c ++ more -> more <> [] ->
      sf_contents g = wf_contents (dest_ w1) ++ c -> zlength (sf_contents g) < 2 ^ 63 ->
      recovers_quietly (new_Reader g true true 0) rs.
Proof.
  intros Hf Hrs Hd. destruct (new_Writer_ok f) as (w0 & E0 & Hw0 & Ef & Eo).
  destruct (AddRecords_layouts rs w0 Hw0 Hrs) as (s1 & w1 & encs & E1 & Hs1 & Hw1 & Hlays & Hc1).
  destruct (AddRecord_layout d w1 Hw1 (proj1 Hd) (proj2 Hd)) as (s2 & w2 & enc & E2 & Hs2 & Hw2 & Hlay & Hc2).
  exists w0, s1, w1, s2, w2. do 5 (split; [done|]). intros g c more Hcrash Hmore Hg Hlen.
  rewrite Hc2 in Hcrash. apply app_inv_head in Hcrash. rewrite Hc1, Ef, Hf in Hg. cbn [app] in Hg.
  rewrite Eo in Hlays.
  destruct (layouts_ok 0 rs encs _ ltac:(unfold in_block, kBlockSize; lia) Hrs Hlays) as [Hencs Hin].
  assert (bytes_ok enc) as Henc by (eapply layout_ok; [exact Hin|apply Hd|exact Hlay]).
  destruct (layouts_start _ _ _ Hlays) as (off'' & Hlays' & Hlay').
  apply (recovers_layouts _ rs encs off'' d enc _ c more (new_Reader g true true 0) Hlays' Hrs
    (Hlay' _ _ _ _ Hlay) Hd (eq_sym Hcrash) Hmore).
  rewrite <- Hg. apply new_Reader_at; [|done]. rewrite Hg. rewrite Hcrash in Henc.
  apply bytes_ok_app in Henc as [? _]. by apply bytes_ok_app.
Qed.
(** C7: A new writer on an empty file adds the records [rs] and is adding [d] when
    the machine stops. Whatever proper part [c] of what [d] appends has reached
    the file behind [rs], a reader with checksums returns exactly [rs], reports
    no corruption and comes to the end of the file. (With nothing of [d] written
    this is the round trip of the log.) The records are strings of bytes, and no
    call of the files fails ([ReliableFile], [ReadableFile]). *)
Theorem log_recovery (rs : list bytes) (d : bytes) (f : F) :
  wf_contents f = [] -> Forall record_ok rs -> record_ok d ->
  exists w0 s1 w1 s2 w2,
    new_Writer f = Ret w0 /\ AddRecords rs w0 = Ret (s1, w1) /\ ok s1 = true /\
    AddRecord d w1 = Ret (s2, w2) /\ ok s2 = true /\
    forall (g : G) c more,
      wf_contents (dest_ w2) = wf_contents (dest_ w1) ++ c ++ more -> more <> [] ->
      sf_contents g = wf_contents (dest_ w1) ++ c -> zlength (sf_contents g) < 2 ^ 63 ->
      exists r', recovers (new_Reader g true true 0) rs r' /\ reporter_ r' = Some [].
Proof.
  intros Hf Hrs Hd. destruct (log_crash rs d f Hf Hrs Hd) as (w0 & s1 & w1 & s2 & w2 & E0 & E1 & Hs1 & E2 & Hs2 & Hq).
  exists w0, s1, w1, s2, w2. do 5 (split; [done|]). intros g c more Hcrash Hmore Hg Hlen.
  destruct (quiet_recovers _ _ (Hq g c more Hcrash Hmore Hg Hlen)) as (r' & Hrec & Hc). exists r'. split; [done|].
  by destruct Hc as (-> & _).
Qed.
End recovery.

(** Two records and most of a third one, in memory. *)
Lemma log_recovery_witness :
  exists f : bytes, exists r',
    recovers (new_Reader (take 24 f) true true 0) [[1; 2; 3]; []] r' /\ reporter_ r' = Some [].
Proof.
  destruct (log_recovery (F := bytes) (G := bytes) [[1; 2; 3]; []] [5; 6; 7; 8] []) as
    (w0 & s1 & w1 & s2 & w2 & E0 & E1 & _ & E2 & _ & H).
  - reflexivity.
  - repeat (constructor; [split; [by apply bytes_ok_forallb|reflexivity]|]). constructor.
  - split; [by apply bytes_ok_forallb|reflexivity].
  - vm_compute in E0. injection E0 as <-. vm_compute in E1. injection E1 as <- <-.
    vm_compute in E2. injection E2 as <- <-. eexists. 
    match type of H with forall g c more, ?f2 = ?f1 ++ _ -> _ =>
      apply (H (take 24 f2) (drop 17 (take 24 f2)) (drop 24 f2)) end.
    + vm_compute. reflexivity.
    + vm_compute. discriminate.
    + vm_compute. reflexivity.
    + vm_compute. reflexivity.
Defined.
