(* ===== verification/LogSafety.v ===== *)
(** * The log reader on arbitrary files

    Whatever a file holds, reading it to its end terminates without undefined
    behaviour, and the records are no longer than the file. *)
From S2P Require Import Prelude LdbBase Coding Crc32c LogWriter LogReader LogRecovery.

Section safety.
Context {F : Type} `{ReadableFile F}.
Implicit Types r : Reader F.

Definition remaining r : Z := zlength (buffer_ r) + zlength (sf_contents (file_ r)).

Definition reader_ok r : Prop :=
  bytes_ok (buffer_ r) /\ bytes_ok (sf_contents (file_ r)) /\ remaining r < 2 ^ 62.

(** Statements that change neither the buffer nor the file. *)
Definition keeps {A} (c : M (Reader F) A) : Prop := forall r, exists o r',
  c r = Ret (o, r') /\ buffer_ r' = buffer_ r /\ file_ r' = file_ r /\ eof_ r' = eof_ r.

Lemma keeps_report n s : keeps (ReportDrop n s).
Proof.
  intros r. unfold ReportDrop. eexists (Some tt), _. split; [reflexivity|].
  destruct (reporter_ r); [case_match|]; done.
Qed.

Lemma bind_report {B} n s (k : unit -> M (Reader F) B) r :
  exists r', bind (ReportDrop n s) k r = k tt r' /\ buffer_ r' = buffer_ r /\ file_ r' = file_ r /\ eof_ r' = eof_ r.
Proof.
  unfold ReportDrop. rewrite bind_modify. eexists. split; [reflexivity|].
  destruct (reporter_ r); [case_match|]; done.
Qed.

Definition refill_measure r : Z := 2 * zlength (sf_contents (file_ r)) + (if eof_ r then 0 else 1).

Lemma refill_safe r :
  reader_ok r ->
  exists o r', refill r = Ret (Some o, r') /\ reader_ok r' /\ remaining r' <= remaining r /\
    (o = Some kEof \/ o = None /\ 0 <= refill_measure r' < refill_measure r).
Proof.
  intros (Hb & Hf & Hl). unfold refill. rewrite bind_get. pose proof (zlength_nonneg (buffer_ r)) as Hb0.
  unfold remaining in *. destruct (eof_ r) eqn:Ee; cbn [negb].
  - eexists _, _. split; [reflexivity|]. unfold reader_ok, remaining. cbn. split; [split; [constructor|]|].
    + split; [done|]. unfold zlength in *. simpl. lia.
    + split; [unfold zlength in *; simpl; lia|by left].
  - destruct (sf_Read_ok kBlockSize (file_ r)) as (Hs & Hd & Hc); [done|].
    destruct (sf_Read kBlockSize (file_ r)) as [[status data] f]. cbn [fst snd] in *.
    rewrite !bind_modify, Hs. cbn [negb].
    assert (zlength data + zlength (sf_contents f) = zlength (sf_contents (file_ r))) as Hsum.
    { rewrite Hc, Hd, <- zlength_app. by rewrite ztake_zdrop. }
    assert (bytes_ok data /\ bytes_ok (sf_contents f)) as [Hok1 Hok2].
    { rewrite Hc, Hd. split; [by apply Forall_take|by apply Forall_drop]. }
    assert (zlength data = 0 -> zlength (sf_contents (file_ r)) = 0) as Hempty.
    { rewrite Hd, zlength_ztake_min by done. unfold kBlockSize. lia. }
    pose proof (zlength_nonneg data). pose proof (zlength_nonneg (sf_contents f)).
    destruct (Z.ltb_spec (size data) kBlockSize) as [Hlt|Hge].
    + rewrite bind_modify. eexists _, _. split; [reflexivity|]. unfold reader_ok, remaining, refill_measure.
      cbn. rewrite Ee. split; [split; [done|split; [done|lia]]|]. split; [lia|]. right. split; [done|lia].
    + eexists _, _. split; [reflexivity|]. unfold reader_ok, remaining, refill_measure.
      cbn. rewrite Ee. split; [split; [done|split; [done|lia]]|]. split; [lia|]. right. split; [done|].
      unfold size, kBlockSize in Hge. lia.
Qed.

Lemma byte_at_ok l i : bytes_ok l -> 0 <= i < zlength l -> exists b, byte_at l i = Ret b /\ is_byte b.
Proof.
  intros Hl Hi. unfold byte_at. rewrite (proj2 (Z.leb_le _ _)) by lia.
  destruct (lookup_lt_is_Some_2 l (Z.to_nat i)) as [b Hb]; [unfold zlength in Hi; lia|].
  exists b. rewrite Hb. split; [done|]. by eapply Forall_lookup_1.
Qed.

(** What one physical record may do: consume at least a header, or end. *)
Definition phys_outcome (r : Reader F) (tf : Z * bytes) (r' : Reader F) : Prop :=
  bytes_ok tf.2 /\ reader_ok r' /\ remaining r' <= remaining r /\
  (tf.1 = kEof \/ remaining r' + kHeaderSize <= remaining r) /\
  (tf.1 <> kEof -> tf.1 <> kBadRecord -> remaining r' + kHeaderSize + zlength tf.2 <= remaining r).

Lemma reader_ok_buffer r r' b :
  reader_ok r -> buffer_ r' = b -> file_ r' = file_ r -> bytes_ok b -> zlength b <= zlength (buffer_ r) ->
  reader_ok r' /\ remaining r' = zlength b + zlength (sf_contents (file_ r)).
Proof.
  intros (Hb & Hf & Hl) Eb Ef Hok Hle. unfold reader_ok, remaining in *. rewrite Eb, Ef. split; [|done].
  split; [done|]. split; [done|lia].
Qed.

(** Dropping the buffer. *)
Lemma outcome_clear r r' t result :
  reader_ok r -> kHeaderSize <= zlength (buffer_ r) -> buffer_ r' = [] -> file_ r' = file_ r ->
  bytes_ok result -> t = kEof \/ t = kBadRecord -> phys_outcome r (t, result) r'.
Proof.
  intros Hr Hl Eb Ef Hres Ht.
  destruct (reader_ok_buffer r r' [] Hr Eb Ef) as [Hok Hrem]; [constructor|unfold kHeaderSize in Hl; unfold zlength in *; simpl; lia|].
  unfold phys_outcome, remaining at 2 4 6. cbn [fst snd]. unfold remaining in *. rewrite Hrem.
  change (zlength []) with 0. unfold kHeaderSize in *. pose proof (zlength_nonneg (sf_contents (file_ r))).
  split; [done|]. split; [done|]. split; [lia|]. split; [right; lia|]. by destruct Ht as [->| ->].
Qed.

Lemma physical_body_safe result r :
  reader_ok r -> bytes_ok result ->
  exists o r', physical_body result r = Ret (Some o, r') /\
    match o with
    | inl result' => result' = result /\ reader_ok r' /\ remaining r' <= remaining r /\
                     0 <= refill_measure r' < refill_measure r
    | inr tf => phys_outcome r tf r'
    end.
Proof.
  intros Hr Hres. unfold physical_body. rewrite bind_get.
  destruct (Z.ltb_spec (size (buffer_ r)) kHeaderSize) as [Hlt|Hge].
  { destruct (refill_safe r Hr) as (o & r' & E & Hr' & Hrem & Ho). rewrite (bind_some _ _ _ _ _ E).
    destruct Ho as [->|[-> Hm]].
    - eexists _, r'. split; [reflexivity|]. split; [done|]. split; [done|]. split; [done|]. split; [by left|done].
    - eexists _, r'. split; [reflexivity|]. done. }
  unfold size in Hge. pose proof Hr as (Hb & Hf & Hl). unfold kHeaderSize in Hge.
  destruct (byte_at_ok (buffer_ r) 4 Hb) as (a & Ea & Ha); [lia|].
  destruct (byte_at_ok (buffer_ r) 5 Hb) as (b & Eb & Hbb); [lia|].
  destruct (byte_at_ok (buffer_ r) 6 Hb) as (t & Et & Ht); [lia|].
  rewrite Ea, Eb, Et, !(bind_lift (Ret _) _ _ _ eq_refl).
  unfold is_byte in Ha, Hbb.
  assert (a .| u32 (Z.shiftl b 8) = a + b * 2 ^ 8) as En.
  { rewrite lor_wrap_shiftl by lia. apply Z.mod_small. lia. }
  rewrite En. set (n := a + b * 2 ^ 8). assert (0 <= n < 65536) as Hn by (unfold n; lia).
  rewrite wrap_small by (unfold kHeaderSize; lia). unfold size.
  destruct (Z.ltb_spec (zlength (buffer_ r)) (kHeaderSize + n)) as [Hshort|Hfit].
  { rewrite bind_modify. destruct (negb (eof_ r)).
    - unfold ReportCorruption.
      match goal with |- context [bind (ReportDrop ?x ?s) ?k ?r1] =>
        destruct (bind_report x s k r1) as (r2 & E & Eb2 & Ef2 & _) end.
      rewrite E. eexists _, r2. split; [reflexivity|].
      apply outcome_clear; [done|unfold kHeaderSize; lia|exact Eb2|exact Ef2|done|by right].
    - eexists _, _. split; [reflexivity|]. apply outcome_clear; [done|unfold kHeaderSize; lia|done|done|done|by left]. }
  destruct ((u32 (sext 8 t) =? RecordType_value kZeroType) && (n =? 0)).
  { rewrite bind_modify. eexists _, _. split; [reflexivity|].
    apply outcome_clear; [done|unfold kHeaderSize; lia|done|done|done|by right]. }
  match goal with |- context [bind (if checksum_ r then ?c else ret false) ?k r] =>
    assert (exists bad : bool, (if checksum_ r then c else ret false) r = Ret (Some bad, r)) as [bad Ebad] end.
  { destruct (checksum_ r); [|by exists false].
    rewrite (bind_lift _ _ _ (word_at (buffer_ r))) by (apply ReadUint32LE_word; lia).
    rewrite (bind_lift _ _ _ (crc32c 0 (ztake (1 + n) (zdrop 6 (buffer_ r))))).
    - by eexists.
    - apply Extend_spec; [|lia]. split; [by apply Forall_take, Forall_drop|].
      rewrite zlength_ztake_min, zlength_zdrop by lia. lia. }
  rewrite (bind_some _ _ _ _ _ Ebad). destruct bad.
  { rewrite bind_modify. unfold ReportCorruption.
    match goal with |- context [bind (ReportDrop ?x ?s) ?k ?r1] =>
      destruct (bind_report x s k r1) as (r2 & E & Eb2 & Ef2 & _) end.
    rewrite E. eexists _, r2. split; [reflexivity|].
    apply outcome_clear; [done|unfold kHeaderSize; lia|exact Eb2|exact Ef2|done|by right]. }
  rewrite (bind_lift _ _ _ (zdrop (kHeaderSize + n) (buffer_ r))).
  2:{ unfold remove_prefix, size. by rewrite (proj2 (Z.leb_le _ _)). }
  rewrite bind_modify. set (rest := zdrop (kHeaderSize + n) (buffer_ r)).
  assert (zlength rest = zlength (buffer_ r) - (kHeaderSize + n)) as Hz.
  { unfold rest. rewrite zlength_zdrop by (unfold kHeaderSize in *; lia). done. }
  destruct (reader_ok_buffer r (set_buffer rest r) rest Hr eq_refl eq_refl) as [Hok Hrem];
    [by apply Forall_drop|unfold kHeaderSize in Hz; lia|].
  assert (zlength (ztake n (zdrop kHeaderSize (buffer_ r))) = n) as Hzn.
  { apply zlength_ztake. rewrite zlength_zdrop by (unfold kHeaderSize in *; lia). unfold kHeaderSize in *. lia. }
  destruct (_ <? initial_offset_ r); (eexists _, _; split; [reflexivity|]).
  - unfold phys_outcome. cbn [fst snd]. rewrite Hrem, Hz. unfold remaining, kHeaderSize.
    split; [constructor|]. split; [done|]. split; [lia|]. split; [right; lia|done].
  - unfold phys_outcome. cbn [fst snd]. rewrite Hrem, Hz, Hzn. unfold remaining, kHeaderSize.
    split; [by apply Forall_take, Forall_drop|]. split; [done|]. split; [lia|]. split; [right; lia|lia].
Qed.

Lemma phys_outcome_weaken r0 r1 tf r' :
  remaining r1 <= remaining r0 -> phys_outcome r1 tf r' -> phys_outcome r0 tf r'.
Proof.
  intros Hle (? & ? & ? & Ho & Hp). split; [done|]. split; [done|]. split; [lia|].
  split; [destruct Ho; [by left|right; lia]|]. intros Ht1 Ht2. specialize (Hp Ht1 Ht2). lia.
Qed.

Lemma ReadPhysicalRecord_safe result r :
  reader_ok r -> bytes_ok result ->
  exists tf r', ReadPhysicalRecord result r = Ret (Some tf, r') /\ phys_outcome r tf r'.
Proof.
  intros Hr Hres. unfold ReadPhysicalRecord.
  apply (whileM_ind physical_body
    (fun x r1 => bytes_ok x /\ reader_ok r1 /\ remaining r1 <= remaining r)
    (fun _ r1 => refill_measure r1)
    (fun o => exists tf r', o = Ret (Some tf, r') /\ phys_outcome r tf r')); [|by split; [|split]|].
  - intros x r1 (Hx & Hr1 & Hle). destruct (physical_body_safe x r1 Hr1 Hx) as (o & r2 & E & Ho). rewrite E.
    destruct o as [x'|tf].
    + destruct Ho as (-> & Hr2 & Hle2 & Hm). split; [|exact Hm]. split; [done|]. split; [done|lia].
    + exists tf, r2. split; [done|]. by eapply phys_outcome_weaken.
  - destruct Hr as (_ & _ & Hl). unfold remaining, refill_measure in *.
    pose proof (zlength_nonneg (buffer_ r)). pose proof (zlength_nonneg (sf_contents (file_ r))).
    destruct (eof_ r); lia.
Qed.

(** ** Records *)
Definition state_ok (r0 : Reader F) (st : read_state) (r : Reader F) : Prop :=
  bytes_ok (scratch st) /\ bytes_ok (fragment st) /\ reader_ok r /\
  zlength (scratch st) + remaining r <= remaining r0.

Definition record_outcome (r0 : Reader F) (o : option bytes) (r : Reader F) : Prop :=
  reader_ok r /\ remaining r <= remaining r0 /\
  (forall d, o = Some d -> bytes_ok d /\ zlength d + remaining r + kHeaderSize <= remaining r0).

(** [keeps] for the statements around the switch. *)
Lemma bind_keeps {A B} (c : M (Reader F) A) (k : A -> M (Reader F) B) r (P : res (option B * Reader F) -> Prop) :
  (forall r, exists a r', c r = Ret (Some a, r') /\ buffer_ r' = buffer_ r /\ file_ r' = file_ r) ->
  (forall a r', buffer_ r' = buffer_ r -> file_ r' = file_ r -> P (k a r')) -> P (bind c k r).
Proof.
  intros Hc Hk. destruct (Hc r) as (a & r' & E & Eb & Ef). rewrite (bind_some _ _ _ _ _ E). by apply Hk.
Qed.

Lemma keeps_ReportCorruption n s r : exists a r',
  ReportCorruption n s r = Ret (Some a, r') /\ buffer_ r' = buffer_ r /\ file_ r' = file_ r.
Proof.
  unfold ReportCorruption, ReportDrop. eexists tt, _. split; [reflexivity|].
  destruct (reporter_ r); [case_match|]; done.
Qed.

Lemma keeps_if (b : bool) n s r : exists a r',
  (if b then ReportCorruption n s else ret tt) r = Ret (Some a, r') /\ buffer_ r' = buffer_ r /\ file_ r' = file_ r.
Proof. destruct b; [apply keeps_ReportCorruption|by eexists tt, r]. Qed.

Lemma keeps_modify (f : Reader F -> Reader F) r :
  (forall r, buffer_ (f r) = buffer_ r /\ file_ (f r) = file_ r) ->
  exists a r', modify f r = Ret (Some a, r') /\ buffer_ r' = buffer_ r /\ file_ r' = file_ r.
Proof. intros Hf. destruct (Hf r). by eexists tt, (f r). Qed.

Lemma reader_ok_eq r r' : buffer_ r' = buffer_ r -> file_ r' = file_ r -> reader_ok r -> reader_ok r' /\ remaining r' = remaining r.
Proof. intros Eb Ef Hr. unfold reader_ok, remaining in *. by rewrite Eb, Ef. Qed.

(** What a turn of the loop of [ReadRecord] may do. *)
Definition body_post (r0 r : Reader F) (x : res (option (read_state + bytes) * Reader F)) : Prop :=
  match x with
  | Ret (Some (inl st), r') => state_ok r0 st r' /\ remaining r' + kHeaderSize <= remaining r
  | Ret (Some (inr d), r') =>
      reader_ok r' /\ bytes_ok d /\ zlength d + remaining r' + kHeaderSize <= remaining r0
  | Ret (None, r') => reader_ok r' /\ remaining r' <= remaining r
  | _ => False
  end.

Lemma set_resyncing_keeps r :
  buffer_ (if resyncing_ r then set_resyncing false r else r) = buffer_ r /\
  file_ (if resyncing_ r then set_resyncing false r else r) = file_ r.
Proof. by destruct (resyncing_ r). Qed.

Ltac keep r :=
  apply bind_keeps;
  [intros; first [apply keeps_if|apply keeps_ReportCorruption
                 |apply keeps_modify; intros; first [apply set_resyncing_keeps|done]]
  |intros ? r ? ?].

(** The ends of the branches: the loop goes on with [st'], or is over. *)
Lemma post_continue r0 r r1 r2 st :
  reader_ok r1 -> buffer_ r2 = buffer_ r1 -> file_ r2 = file_ r1 ->
  bytes_ok (scratch st) -> bytes_ok (fragment st) -> remaining r1 + kHeaderSize <= remaining r ->
  zlength (scratch st) + remaining r1 <= remaining r0 -> body_post r0 r (ret (inl st) r2).
Proof.
  intros Hr Eb Ef Hs Hf Hdec Hsum. destruct (reader_ok_eq r1 r2 Eb Ef Hr) as [Hr2 E].
  cbn. unfold state_ok. rewrite E. split; [|done]. by split; [|split; [|split]].
Qed.

Lemma post_record r0 r r1 r2 d :
  reader_ok r1 -> buffer_ r2 = buffer_ r1 -> file_ r2 = file_ r1 -> bytes_ok d ->
  zlength d + remaining r1 + kHeaderSize <= remaining r0 -> body_post r0 r (ret (inr d) r2).
Proof.
  intros Hr Eb Ef Hd Hsum. destruct (reader_ok_eq r1 r2 Eb Ef Hr) as [Hr2 E]. cbn. by rewrite E.
Qed.

Lemma read_record_body_safe r0 st r : state_ok r0 st r -> body_post r0 r (read_record_body st r).
Proof.
  intros (Hs & Hf & Hr & Hsum). unfold read_record_body.
  destruct (ReadPhysicalRecord_safe (fragment st) r Hr Hf) as ([t frag] & r1 & E & Ho).
  rewrite (bind_some _ _ _ _ _ E). cbn beta match. rewrite bind_get.
  destruct Ho as (Hfrag & Hr1 & Hle & Hdec & Hlen). cbn [fst snd] in *.
  pose proof (zlength_nonneg (scratch st)) as Hs0. pose proof (zlength_nonneg frag) as Hf0.
  pose proof (zlength_nonneg (buffer_ r1)). pose proof (zlength_nonneg (sf_contents (file_ r1))).
  assert (kEof = 5) as Hk by done. assert (kBadRecord = 6) as Hkb by done.
  assert (t <> kEof -> remaining r1 + kHeaderSize <= remaining r) as Hdec' by (intros; by destruct Hdec).
  assert (bytes_ok (scratch st ++ frag)) by by apply bytes_ok_app.
  assert (0 <= remaining r1) by (unfold remaining; lia).
  set (off := u64 _). change (RecordType_value kMiddleType) with 3. change (RecordType_value kLastType) with 4.
  change (RecordType_value kFullType) with 1. change (RecordType_value kFirstType) with 2.
  destruct (resyncing_ r1 && (t =? 3)) eqn:E1; pb_bool.
  { apply (post_continue r0 r r1 r1); cbn [scratch fragment]; try done; [apply Hdec'; lia|lia]. }
  destruct (resyncing_ r1 && (t =? 4)) eqn:E2; pb_bool.
  { keep r2. apply (post_continue r0 r r1 r2); cbn [scratch fragment]; try done; [apply Hdec'; lia|lia]. }
  keep r2. destruct (Z.eqb_spec t 1) as [->|Ht1].
  { keep r3. keep r4. apply (post_record r0 r r1); [done|congruence|congruence|done|].
    specialize (Hlen ltac:(lia) ltac:(lia)). lia. }
  destruct (Z.eqb_spec t 2) as [->|Ht2].
  { keep r3. specialize (Hlen ltac:(lia) ltac:(lia)).
    apply (post_continue r0 r r1 r3); cbn [scratch fragment]; try done; try congruence; unfold kHeaderSize in *; lia. }
  destruct (Z.eqb_spec t 3) as [->|Ht3].
  { specialize (Hlen ltac:(lia) ltac:(lia)). unfold kHeaderSize in Hlen. destruct (negb _).
    - keep r3. apply (post_continue r0 r r1 r3); cbn [scratch fragment]; try done; try congruence; unfold kHeaderSize; lia.
    - apply (post_continue r0 r r1 r2); cbn [scratch fragment]; rewrite ?zlength_app; try done; unfold kHeaderSize; lia. }
  destruct (Z.eqb_spec t 4) as [->|Ht4].
  { specialize (Hlen ltac:(lia) ltac:(lia)). destruct (negb _).
    - keep r3. apply (post_continue r0 r r1 r3); cbn [scratch fragment]; try done; try congruence; unfold kHeaderSize in *; lia.
    - keep r3. apply (post_record r0 r r1); [done|congruence|congruence|done|]. rewrite zlength_app. lia. }
  destruct (Z.eqb_spec t kEof) as [->|Ht5].
  { destruct (reader_ok_eq r1 r2) as [Hr2 Erem]; [done..|]. cbn. by rewrite Erem. }
  specialize (Hdec' Ht5). assert (bytes_ok []) as Hnil by constructor.
  destruct (Z.eqb_spec t kBadRecord) as [->|Ht6].
  { destruct (in_fragmented_record st).
    - keep r3. apply (post_continue r0 r r1 r3); cbn [scratch fragment]; try done; try congruence.
      change (zlength []) with 0. unfold kHeaderSize in *; lia.
    - apply (post_continue r0 r r1 r2); cbn [scratch fragment]; try done. unfold kHeaderSize in *; lia. }
  keep r3. apply (post_continue r0 r r1 r3); cbn [scratch fragment]; try done; try congruence.
  change (zlength []) with 0. unfold kHeaderSize in *; lia.
Qed.

Lemma read_loop_safe r :
  reader_ok r ->
  exists o r', whileM read_record_body (MkReadState [] false 0 []) r = Ret (o, r') /\ record_outcome r o r'.
Proof.
  intros Hr. assert (bytes_ok []) as Hnil by constructor.
  apply (whileM_ind read_record_body (fun st r1 => state_ok r st r1) (fun _ r1 => remaining r1)
    (fun x => exists o r', x = Ret (o, r') /\ record_outcome r o r')).
  - intros st r1 Hst. pose proof (read_record_body_safe r st r1 Hst) as Hpost.
    destruct Hst as (Hs & _ & _ & Hsum). pose proof (zlength_nonneg (scratch st)).
    destruct (read_record_body st r1) as [[[[st'|d]|] r2]| |]; try done; cbn in Hpost.
    + destruct Hpost as (Hst' & Hdec). split; [done|]. unfold kHeaderSize in Hdec.
      pose proof (zlength_nonneg (buffer_ r2)). pose proof (zlength_nonneg (sf_contents (file_ r2))).
      unfold remaining in *. lia.
    + destruct Hpost as (Hr2 & Hd & Hl). exists (Some d), r2. split; [done|]. split; [done|].
      pose proof (zlength_nonneg d). unfold kHeaderSize in *. split; [lia|]. intros d' [= <-]. by split.
    + destruct Hpost as (Hr2 & Hle). exists None, r2. split; [done|]. split; [done|]. split; [lia|done].
  - split; [done|]. split; [done|]. split; [done|]. change (zlength (scratch _)) with 0. lia.
  - destruct Hr as (_ & _ & Hl). unfold remaining in *.
    pose proof (zlength_nonneg (buffer_ r)). pose proof (zlength_nonneg (sf_contents (file_ r))). lia.
Qed.

Lemma SkipToInitialBlock_safe r :
  reader_ok r -> exists r', SkipToInitialBlock r = Ret (Some tt, r') /\ reader_ok r' /\ remaining r' <= remaining r.
Proof.
  intros Hr. unfold SkipToInitialBlock. rewrite bind_get, bind_modify.
  set (b := if kBlockSize - 6 <? _ then _ else _). assert (0 <= b) as Hb.
  { unfold b. case_match; apply wrap_bound; lia. }
  destruct (Z.ltb_spec 0 b).
  - destruct (sf_Skip_ok b (file_ r) Hb) as [Hs Hc]. destruct (sf_Skip b (file_ r)) as [s f]. cbn [fst snd] in *.
    rewrite bind_modify, Hs. eexists. split; [reflexivity|].
    destruct Hr as (Hbuf & Hf & Hl). unfold reader_ok, remaining in *. cbn. rewrite Hc.
    assert (zlength (zdrop b (sf_contents (file_ r))) <= zlength (sf_contents (file_ r))) as Hz.
    { unfold zlength, zdrop. rewrite length_drop. lia. }
    split; [|lia]. split; [done|]. split; [by apply Forall_drop|lia].
  - eexists. split; [reflexivity|]. by split.
Qed.

Lemma ReadRecord_safe r :
  reader_ok r -> exists o r', ReadRecord r = Ret (o, r') /\ record_outcome r o r'.
Proof.
  intros Hr. unfold ReadRecord. rewrite bind_get.
  destruct (last_record_offset_ r <? initial_offset_ r).
  - destruct (SkipToInitialBlock_safe r Hr) as (r1 & E & Hr1 & Hle). rewrite (bind_some _ _ _ _ _ E).
    destruct (read_loop_safe r1 Hr1) as (o & r2 & E2 & Hr2 & Hle2 & Ho). exists o, r2.
    split; [done|]. split; [done|]. split; [lia|]. intros d Hd. destruct (Ho d Hd). split; [done|lia].
  - rewrite bind_ret. by apply read_loop_safe.
Qed.

(** C22: Reading a file to its end, whatever bytes it holds (below 2^62 of them),
    from any offset and with or without checksums: every call of [ReadRecord]
    returns, without undefined behaviour, the loop over the records ends, and
    the records and their headers together are no longer than the file. No read
    fails. *)
Theorem log_reader_safe (f : F) reporter checksum initial_offset :
  bytes_ok (sf_contents f) -> zlength (sf_contents f) < 2 ^ 62 ->
  exists ds r',
    recovers (new_Reader f reporter checksum initial_offset) ds r' /\
    Forall bytes_ok ds /\ zlength (mjoin ds) + kHeaderSize * zlength ds <= zlength (sf_contents f).
Proof.
  intros Hb Hl. set (r := new_Reader f reporter checksum initial_offset).
  assert (reader_ok r) as Hr by (split; [constructor|done]).
  assert (remaining r = zlength (sf_contents f)) as Erem by done. rewrite <- Erem. clearbody r. clear Erem.
  assert (0 <= remaining r) as H0r.
  { unfold remaining. pose proof (zlength_nonneg (buffer_ r)). pose proof (zlength_nonneg (sf_contents (file_ r))). lia. }
  revert Hr. remember (Z.to_nat (remaining r)) as n eqn:En. revert r En H0r.
  induction (lt_wf n) as [n _ IH]. intros r En H0r Hr.
  destruct (ReadRecord_safe r Hr) as (o & r1 & E & Hr1 & Hle & Ho).
  pose proof (zlength_nonneg (buffer_ r1)). pose proof (zlength_nonneg (sf_contents (file_ r1))).
  assert (0 <= remaining r1) as H0r1 by (unfold remaining; lia).
  destruct o as [d|].
  - destruct (Ho d eq_refl) as [Hd Hlen]. pose proof (zlength_nonneg d). unfold kHeaderSize in *.
    destruct (IH (Z.to_nat (remaining r1)) ltac:(lia) r1 eq_refl H0r1 Hr1) as (ds & r' & Hrec & Hds & Htotal).
    exists (d :: ds), r'. split; [by econstructor|]. split; [by constructor|].
    change (mjoin (d :: ds)) with (d ++ mjoin ds). rewrite zlength_app, zlength_cons. lia.
  - exists [], r1. split; [by constructor|]. split; [constructor|]. unfold zlength. simpl. lia.
Qed.
End safety.

(** Twelve bytes that are no log. *)
Lemma log_reader_safe_witness :
  exists ds r', recovers (new_Reader [9; 9; 9; 9; 2; 0; 200; 1; 1; 0; 0; 1] true true 5) ds r' /\
    Forall bytes_ok ds /\ zlength (mjoin ds) + kHeaderSize * zlength ds <= 12.
Proof.
  refine (log_reader_safe (F := bytes) [9; 9; 9; 9; 2; 0; 200; 1; 1; 0; 0; 1] true true 5 _ _).
  - by apply bytes_ok_forallb.
  - reflexivity.
Defined.
