(* ===== verification/Comparator.v ===== *)
(** * LevelDB: comparators (comparator.h, comparator.cc)

    [Comparator] is the abstract class, [ComparatorOk] its contract, and
    [BytewiseComparator] the default implementation, which the Firebase
    database uses. *)
From S2P Require Import Prelude LdbBase.

Record Comparator : Type := MkComparator {
  Compare : bytes -> bytes -> res Z;
  FindShortestSeparator : bytes -> bytes -> res bytes;
  FindShortSuccessor : bytes -> res bytes;
}.

(** What LevelDB relies on for the keys that satisfy [valid]: a total order,
    separators in [start, limit), successors at or above the key. *)
Class ComparatorOk (c : Comparator) (valid : bytes -> Prop) : Type := {
  key_lt : bytes -> bytes -> Prop;
  key_lt_strict : StrictOrder key_lt;
  Compare_ok : forall a b, valid a -> valid b ->
    exists z, Compare c a b = Ret z /\
      match z ?= 0 with Lt => key_lt a b | Eq => a = b | Gt => key_lt b a end;
  Separator_ok : forall start limit, valid start -> valid limit -> key_lt start limit ->
    exists s, FindShortestSeparator c start limit = Ret s /\ valid s /\ zlength s <= zlength start /\
      (s = start \/ key_lt start s) /\ key_lt s limit;
  Separator_same : forall s, valid s -> FindShortestSeparator c s s = Ret s;
  Successor_ok : forall key, valid key ->
    exists s, FindShortSuccessor c key = Ret s /\ valid s /\ zlength s <= zlength key /\
      (s = key \/ key_lt key s);
}.
Arguments key_lt c valid {_} _ _.
#[export] Existing Instance key_lt_strict.

Lemma key_lt_irrefl c valid `{!ComparatorOk c valid} a : ~ key_lt c valid a a.
Proof. exact (StrictOrder_Irreflexive (StrictOrder := key_lt_strict) a). Qed.

Lemma key_lt_asym c valid `{!ComparatorOk c valid} a b : key_lt c valid a b -> ~ key_lt c valid b a.
Proof. intros Hab Hba. apply (key_lt_irrefl c valid a). by transitivity b. Qed.

(** What the code tests of a comparison. *)
Record compared (lt : bytes -> bytes -> Prop) (a b : bytes) (z : Z) : Prop := {
  cmp_lt : z <? 0 = true <-> lt a b;
  cmp_le : z <=? 0 = true <-> ~ lt b a;
  cmp_gt : 0 <? z = true <-> lt b a;
  cmp_ge : 0 <=? z = true <-> ~ lt a b;
  cmp_eq : z =? 0 = true <-> a = b;
}.

Lemma Compare_tests c valid `{!ComparatorOk c valid} a b : valid a -> valid b -> exists z, Compare c a b = Ret z /\ compared (key_lt c valid) a b z.
Proof.
  intros Ha Hb. destruct (Compare_ok a b Ha Hb) as (z & E & Hz). exists z. split; [done|].
  destruct (Z.compare_spec z 0) as [->|Hlt|Hgt].
  - subst b. pose proof (key_lt_irrefl c valid a). by split; split.
  - pose proof (key_lt_asym c valid a b Hz). assert (a <> b) by (intros ->; by apply (key_lt_irrefl c valid b)).
    split; rewrite ?Z.ltb_lt, ?Z.leb_le, ?Z.eqb_eq; split; try done; lia.
  - pose proof (key_lt_asym c valid b a Hz). assert (a <> b) by (intros ->; by apply (key_lt_irrefl c valid b)).
    split; rewrite ?Z.ltb_lt, ?Z.leb_le, ?Z.eqb_eq; split; try done; lia.
Qed.

(** ** BytewiseComparatorImpl *)

(** [while (i < min_length && a[i] == b[i]) i++]. *)
Fixpoint common_prefix (a b : bytes) : Z :=
  match a, b with
  | x :: a', y :: b' => if x =? y then 1 + common_prefix a' b' else 0
  | _, _ => 0
  end.

Definition bytewise_Compare (a b : bytes) : res Z := Ret (compare a b).

Definition bytewise_FindShortestSeparator (start limit : bytes) : res bytes :=
  let min_length := Z.min (size start) (size limit) in
  let diff_index := common_prefix start limit in
  if min_length <=? diff_index then Ret start
  else
    let! diff_byte := byte_at start diff_index in
    let! limit_byte := byte_at limit diff_index in
    if (diff_byte <? 0xff) && (diff_byte + 1 <? limit_byte) then
      let start := ztake diff_index start ++ [u8 (diff_byte + 1)] in
      let! c := bytewise_Compare start limit in
      let! _ := assert_ (c <? 0) in
      Ret start
    else Ret start.

(** The loop over [i]: the bytes before it are kept. *)
Fixpoint short_successor (key : bytes) : option bytes :=
  match key with
  | [] => None
  | byte :: key' =>
      if negb (byte =? 0xff) then Some [u8 (byte + 1)]
      else option_map (cons byte) (short_successor key')
  end.

Definition bytewise_FindShortSuccessor (key : bytes) : res bytes :=
  Ret (match short_successor key with Some k => k | None => key end).

Definition BytewiseComparator : Comparator :=
  MkComparator bytewise_Compare bytewise_FindShortestSeparator bytewise_FindShortSuccessor.

(** ** The order *)
Lemma bytes_lt_irrefl a : ~ bytes_lt a a.
Proof. induction a as [|x a IH]; intros Hl; inversion Hl; subst; [lia|done]. Qed.

Lemma bytes_lt_trans a b c : bytes_lt a b -> bytes_lt b c -> bytes_lt a c.
Proof.
  intros Hab. revert c. induction Hab as [y b|x y a b Hxy|x a b Hab IH]; intros c Hbc;
    inversion Hbc; subst; first [constructor; lia|apply lt_nil|apply lt_tail; by apply IH].
Qed.

#[export] Instance bytes_lt_strict : StrictOrder bytes_lt.
Proof. split; [exact bytes_lt_irrefl|exact bytes_lt_trans]. Qed.

(** [memcmp] over the common length, then the lengths. *)
Lemma memcmp_compare a b :
  match (let r := memcmp a b (Nat.min (length a) (length b)) in
         if r =? 0 then (if zlength a <? zlength b then -1 else if zlength b <? zlength a then 1 else r) else r)
    ?= 0 with
  | Lt => bytes_lt a b | Eq => a = b | Gt => bytes_lt b a
  end.
Proof.
  revert b. induction a as [|x a IH]; intros [|y b]; cbn [memcmp length Nat.min]; cbn zeta;
    change (0 =? 0) with true; cbn match.
  - done.
  - change (zlength []) with 0. rewrite zlength_cons. pose proof (zlength_nonneg b).
    rewrite (proj2 (Z.ltb_lt _ _)) by lia. constructor.
  - change (zlength []) with 0. rewrite zlength_cons. pose proof (zlength_nonneg a).
    rewrite (proj2 (Z.ltb_ge _ _)), (proj2 (Z.ltb_lt 0 _)) by lia. constructor.
  - destruct (Z.ltb_spec x y); [by apply lt_head|]. destruct (Z.ltb_spec y x); [by apply lt_head|].
    assert (y = x) as -> by lia. rewrite !zlength_cons.
    specialize (IH b). cbn zeta in IH.
    replace (1 + zlength a <? 1 + zlength b) with (zlength a <? zlength b)
      by (apply eqb_true_iff; destruct (Z.ltb_spec (zlength a) (zlength b)), (Z.ltb_spec (1 + zlength a) (1 + zlength b)); done || lia).
    replace (1 + zlength b <? 1 + zlength a) with (zlength b <? zlength a)
      by (apply eqb_true_iff; destruct (Z.ltb_spec (zlength b) (zlength a)), (Z.ltb_spec (1 + zlength b) (1 + zlength a)); done || lia).
    match type of IH with match ?z ?= 0 with _ => _ end => destruct (z ?= 0) end; [by subst|by apply lt_tail..].
Qed.

Lemma compare_spec a b :
  match compare a b ?= 0 with Lt => bytes_lt a b | Eq => a = b | Gt => bytes_lt b a end.
Proof.
  pose proof (memcmp_compare a b) as Hm. unfold compare, size.
  replace (Z.to_nat (if zlength a <? zlength b then zlength a else zlength b))
    with (Nat.min (length a) (length b)); [exact Hm|].
  unfold zlength. destruct (Z.ltb_spec (Z.of_nat (length a)) (Z.of_nat (length b))); lia.
Qed.

Lemma compare_lt a b : bytes_lt a b -> compare a b < 0.
Proof.
  intros Hl. pose proof (compare_spec a b) as Hc. destruct (compare a b ?= 0) eqn:E.
  - subst. by apply bytes_lt_irrefl in Hl.
  - by apply Z.compare_lt_iff.
  - exfalso. apply (bytes_lt_irrefl a). by eapply bytes_lt_trans.
Qed.

Lemma bytes_lt_app p a b : bytes_lt a b -> bytes_lt (p ++ a) (p ++ b).
Proof. intros. induction p; [done|by constructor]. Qed.

(** Where the common prefix ends. *)
Lemma common_prefix_split a b :
  exists p a' b', a = p ++ a' /\ b = p ++ b' /\ zlength p = common_prefix a b /\
    match a', b' with x :: _, y :: _ => x <> y | _, _ => True end.
Proof.
  revert b. induction a as [|x a IH]; intros b; [by exists [], [], b|].
  destruct b as [|y b]; [by exists [], (x :: a), []|]. simpl.
  destruct (Z.eqb_spec x y) as [->|Hne]; [|by exists [], (x :: a), (y :: b)].
  destruct (IH b) as (p & a' & b' & -> & -> & Hz & Hd).
  exists (y :: p), a', b'. split; [done|]. split; [done|]. split; [by rewrite zlength_cons, Hz|done].
Qed.

Lemma byte_at_app p x l : byte_at (p ++ x :: l) (zlength p) = Ret x.
Proof.
  unfold byte_at, zlength. rewrite (proj2 (Z.leb_le _ _)) by lia.
  by rewrite Nat2Z.id, lookup_app_r, Nat.sub_diag by lia.
Qed.

Lemma bytewise_separator start limit :
  bytes_ok start -> bytes_ok limit ->
  exists s, bytewise_FindShortestSeparator start limit = Ret s /\ bytes_ok s /\ zlength s <= zlength start /\
    (s = start \/ bytes_lt start s) /\ (bytes_lt start limit -> bytes_lt s limit).
Proof.
  intros Hs Hl. unfold bytewise_FindShortestSeparator, size.
  destruct (common_prefix_split start limit) as (p & a & b & -> & -> & <- & Hd). rewrite !zlength_app.
  assert (forall s : bytes, s = p ++ a -> exists s', Ret s = Ret s' /\ bytes_ok s' /\ zlength s' <= zlength p + zlength a /\
    (s' = p ++ a \/ bytes_lt (p ++ a) s') /\ (bytes_lt (p ++ a) (p ++ b) -> bytes_lt s' (p ++ b))) as Hsame.
  { intros s ->. exists (p ++ a). rewrite zlength_app. split; [done|]. split; [done|]. split; [lia|]. by split; [left|]. }
  destruct (Z.leb_spec (Z.min (zlength p + zlength a) (zlength p + zlength b)) (zlength p)) as [Hle|Hgt]; [by apply Hsame|].
  destruct a as [|x a]; [change (zlength []) with 0 in Hgt; lia|].
  destruct b as [|y b]; [change (zlength []) with 0 in Hgt; lia|].
  rewrite !byte_at_app, !res_bind_ret.
  destruct ((x <? 0xff) && (x + 1 <? y)) eqn:E; [|by apply Hsame]. pb_bool.
  apply bytes_ok_app in Hs as [Hp Hx]. apply Forall_cons_1 in Hx as [Hx Ha]. unfold is_byte in Hx.
  rewrite ztake_app, wrap_small by lia. unfold bytewise_Compare. rewrite res_bind_ret.
  assert (bytes_lt (p ++ [x + 1]) (p ++ y :: b)) as Hlt by (apply bytes_lt_app; by constructor).
  rewrite (proj2 (Z.ltb_lt _ _)) by by apply compare_lt.
  exists (p ++ [x + 1]). split; [done|]. split.
  { apply bytes_ok_app. split; [done|]. constructor; [unfold is_byte; lia|constructor]. }
  rewrite zlength_app, !zlength_cons. pose proof (zlength_nonneg a). change (zlength []) with 0.
  split; [lia|]. split; [right; apply bytes_lt_app; constructor; lia|done].
Qed.

Lemma short_successor_spec key s :
  bytes_ok key -> short_successor key = Some s -> bytes_ok s /\ zlength s <= zlength key /\ bytes_lt key s.
Proof.
  intros Hk. revert s. induction Hk as [|x key Hx Hk IH]; intros s; simpl; [done|]. unfold is_byte in Hx.
  rewrite zlength_cons. pose proof (zlength_nonneg key). destruct (Z.eqb_spec x 0xff) as [->|Hne]; simpl.
  - destruct (short_successor key) as [s'|]; [|done]. intros [= <-]. destruct (IH s' eq_refl) as (? & ? & ?).
    rewrite zlength_cons. split; [by constructor|]. split; [lia|by constructor].
  - intros [= <-]. rewrite wrap_small by lia. split; [constructor; [unfold is_byte; lia|constructor]|].
    split; [change (zlength [x + 1]) with 1; lia|constructor; lia].
Qed.

(** The bytewise comparator keeps the contract on strings of bytes. *)
#[export] Instance BytewiseComparator_ok : ComparatorOk BytewiseComparator bytes_ok.
Proof.
  refine {| key_lt := bytes_lt |}.
  - intros a b _ _. exists (compare a b). split; [done|apply compare_spec].
  - intros start limit Hs Hl Hlt. destruct (bytewise_separator start limit Hs Hl) as (s & E & ? & ? & ? & Hsl).
    exists s. split; [exact E|]. split; [done|]. split; [done|]. split; [done|by apply Hsl].
  - intros s Hs. simpl. unfold bytewise_FindShortestSeparator, size.
    assert (common_prefix s s = zlength s) as ->.
    { clear Hs. induction s as [|x s IH]; [done|]. simpl. by rewrite Z.eqb_refl, IH, zlength_cons. }
    rewrite (proj2 (Z.leb_le _ _)) by lia. done.
  - intros key Hk. exists (match short_successor key with Some k => k | None => key end). split; [done|].
    destruct (short_successor key) as [s|] eqn:E; [|split; [done|split; [lia|by left]]].
    destruct (short_successor_spec key s Hk E) as (? & ? & ?). split; [done|]. split; [done|by right].
Defined.

(** Shortening index keys: between two keys in order, the bytewise separator is
    a string of at most the first key's length, at or above it and below the
    second; the short successor is at or above its key. *)
Theorem bytewise_separators start limit :
  bytes_ok start -> bytes_ok limit -> bytes_lt start limit ->
  (exists s, FindShortestSeparator BytewiseComparator start limit = Ret s /\
     zlength s <= zlength start /\ (s = start \/ bytes_lt start s) /\ bytes_lt s limit) /\
  (exists s, FindShortSuccessor BytewiseComparator start = Ret s /\
     zlength s <= zlength start /\ (s = start \/ bytes_lt start s)).
Proof.
  intros Hs Hl Hlt. split.
  - destruct (bytewise_separator start limit Hs Hl) as (s & E & _ & ? & ? & Hsl). exists s. auto.
  - destruct (Successor_ok (ComparatorOk := BytewiseComparator_ok) start Hs) as (s & E & _ & ? & ?). by exists s.
Qed.

Lemma bytewise_separators_witness :
  (exists s, FindShortestSeparator BytewiseComparator [1; 2; 3] [1; 9] = Ret s /\ s = [1; 3]) /\
  bytes_lt [1; 3] [1; 9].
Proof.
  destruct (bytewise_separators [1; 2; 3] [1; 9]) as [(s & E & _ & _ & Hlt) _].
  - by apply bytes_ok_forallb.
  - by apply bytes_ok_forallb.
  - apply lt_tail, lt_head. reflexivity.
  - vm_compute in E. injection E as <-. split; [by eexists|exact Hlt].
Defined.
