(* ===== verification/DbFormat.v ===== *)
(** * LevelDB: internal keys (dbformat.h, dbformat.cc)

    An internal key is a user key followed by eight bytes that hold a sequence
    number and a value type.  Internal keys are ordered by user key, then from
    new to old. *)
From S2P Require Import Prelude LdbBase Coding Comparator.

(** [namespace config]. *)
Definition kNumLevels : Z := 7.
Definition kL0_CompactionTrigger : Z := 4.
Definition kL0_SlowdownWritesTrigger : Z := 8.
Definition kL0_StopWritesTrigger : Z := 12.
Definition kMaxMemCompactLevel : Z := 2.
Definition kReadBytesPeriod : Z := 1048576.

Inductive ValueType : Type := kTypeDeletion | kTypeValue.

#[export] Instance ValueType_eq_dec : EqDecision ValueType.
Proof. solve_decision. Defined.

Definition ValueType_value (t : ValueType) : Z :=
  match t with kTypeDeletion => 0 | kTypeValue => 1 end.

Definition kValueTypeForSeek : ValueType := kTypeValue.

(** [static_cast<ValueType>(c)] for the values of the enumeration. *)
Definition ValueType_of (c : Z) : option ValueType :=
  if c =? 0 then Some kTypeDeletion else if c =? 1 then Some kTypeValue else None.

Definition SequenceNumber : Type := Z.
Definition kMaxSequenceNumber : SequenceNumber := Z.shiftl 1 56 - 1.

Record ParsedInternalKey : Type := MkParsedInternalKey {
  user_key : bytes;
  sequence : SequenceNumber;
  type : ValueType;
}.

Definition InternalKeyEncodingLength (key : ParsedInternalKey) : Z := size (user_key key) + 8.

Definition PackSequenceAndType (seq : Z) (t : ValueType) : res Z :=
  let! _ := assert_ (seq <=? kMaxSequenceNumber) in
  let! _ := assert_ (ValueType_value t <=? ValueType_value kValueTypeForSeek) in
  Ret (u64 (Z.shiftl seq 8) .| ValueType_value t).

Definition AppendInternalKey (result : bytes) (key : ParsedInternalKey) : res bytes :=
  let! packed := PackSequenceAndType (sequence key) (type key) in
  Ret (PutFixed64 (result ++ user_key key) packed).

(** [return false] is [None]. *)
Definition ParseInternalKey (internal_key : bytes) : res (option ParsedInternalKey) :=
  let n := size internal_key in
  if n <? 8 then Ret None
  else
    let! num := DecodeFixed64 (zdrop (n - 8) internal_key) in
    let c := u8 (num .& 0xff) in
    Ret (match ValueType_of c with
         | Some t => Some (MkParsedInternalKey (ztake (n - 8) internal_key) (Z.shiftr num 8) t)
         | None => None
         end).

Definition ExtractUserKey (internal_key : bytes) : res bytes :=
  let! _ := assert_ (8 <=? size internal_key) in
  Ret (ztake (size internal_key - 8) internal_key).

(** ** InternalKeyComparator *)
Section internal_comparator.
Variable user_comparator : Comparator.

Definition internal_Compare (akey bkey : bytes) : res Z :=
  let! a := ExtractUserKey akey in
  let! b := ExtractUserKey bkey in
  let! r := Compare user_comparator a b in
  if r =? 0 then
    let! anum := DecodeFixed64 (zdrop (size akey - 8) akey) in
    let! bnum := DecodeFixed64 (zdrop (size bkey - 8) bkey) in
    Ret (if bnum <? anum then -1 else if anum <? bnum then 1 else r)
  else Ret r.

(** The part the two shortening functions share: [tmp] replaces the user key
    when it is shorter and larger. *)
Definition tack_on (user_start tmp : bytes) : res (option bytes) :=
  if size tmp <? size user_start then
    let! c := Compare user_comparator user_start tmp in
    if c <? 0 then
      let! packed := PackSequenceAndType kMaxSequenceNumber kValueTypeForSeek in
      Ret (Some (PutFixed64 tmp packed))
    else Ret None
  else Ret None.

Definition internal_FindShortestSeparator (start limit : bytes) : res bytes :=
  let! user_start := ExtractUserKey start in
  let! user_limit := ExtractUserKey limit in
  let! tmp := FindShortestSeparator user_comparator user_start user_limit in
  let! o := tack_on user_start tmp in
  match o with
  | Some tmp =>
      let! c1 := internal_Compare start tmp in
      let! _ := assert_ (c1 <? 0) in
      let! c2 := internal_Compare tmp limit in
      let! _ := assert_ (c2 <? 0) in
      Ret tmp
  | None => Ret start
  end.

Definition internal_FindShortSuccessor (key : bytes) : res bytes :=
  let! user_key := ExtractUserKey key in
  let! tmp := FindShortSuccessor user_comparator user_key in
  let! o := tack_on user_key tmp in
  match o with
  | Some tmp =>
      let! c := internal_Compare key tmp in
      let! _ := assert_ (c <? 0) in
      Ret tmp
  | None => Ret key
  end.

Definition InternalKeyComparator : Comparator :=
  MkComparator internal_Compare internal_FindShortestSeparator internal_FindShortSuccessor.
End internal_comparator.

(** ** InternalKey *)
Definition InternalKey : Type := bytes.

Definition InternalKey_make (user_key : bytes) (s : SequenceNumber) (t : ValueType) : res InternalKey :=
  AppendInternalKey [] (MkParsedInternalKey user_key s t).

Definition InternalKey_DecodeFrom (s : bytes) : InternalKey := s.

Definition InternalKey_Encode (k : InternalKey) : res bytes :=
  let! _ := assert_ (negb (empty_slice k)) in Ret k.

Definition InternalKey_user_key (k : InternalKey) : res bytes := ExtractUserKey k.

Definition InternalKey_SetFrom (p : ParsedInternalKey) : res InternalKey := AppendInternalKey [] p.

(** ** LookupKey

    The bytes from [start_] to [end_], and the offset of [kstart_]. *)
Record LookupKey : Type := MkLookupKey {
  lk_bytes : bytes;
  lk_kstart : Z;
}.

(** [needed] is the size of the buffer. *)
Definition LookupKey_make (user_key : bytes) (s : SequenceNumber) : res LookupKey :=
  let usize := size user_key in
  let needed := usize + 13 in
  let prefix := EncodeVarint32 (u32 (usize + 8)) in
  let! packed := PackSequenceAndType s kValueTypeForSeek in
  let dst := prefix ++ user_key ++ EncodeFixed64 packed in
  if needed <? size dst then UB else Ret (MkLookupKey dst (size prefix)).

Definition memtable_key (k : LookupKey) : bytes := lk_bytes k.
Definition internal_key (k : LookupKey) : bytes := zdrop (lk_kstart k) (lk_bytes k).
Definition lookup_user_key (k : LookupKey) : bytes :=
  ztake (size (lk_bytes k) - lk_kstart k - 8) (zdrop (lk_kstart k) (lk_bytes k)).

(** ** Lemmas *)
Definition seq_ok (s : SequenceNumber) : Prop := 0 <= s <= kMaxSequenceNumber.

(** The number in the last eight bytes. *)
Definition tag (s : SequenceNumber) (t : ValueType) : Z := s * 256 + ValueType_value t.

Lemma tag_bound s t : seq_ok s -> 0 <= tag s t < 2 ^ 64.
Proof.
  unfold seq_ok, kMaxSequenceNumber, tag. rewrite Z.shiftl_mul_pow2 by lia. destruct t; simpl ValueType_value; lia.
Qed.

Lemma PackSequenceAndType_ok s t : seq_ok s -> PackSequenceAndType s t = Ret (tag s t).
Proof.
  intros Hs. unfold PackSequenceAndType. pose proof (tag_bound s t Hs) as Ht. unfold tag in *.
  rewrite assert_true, res_bind_ret by (apply Z.leb_le; apply Hs).
  rewrite assert_true, res_bind_ret by by destruct t. f_equal.
  unfold seq_ok in Hs. assert (Z.shiftl s 8 = s * 256) as Esh by (by rewrite Z.shiftl_mul_pow2 by lia).
  rewrite wrap_small by (rewrite Esh; destruct t; simpl ValueType_value in Ht; lia).
  rewrite Z.lor_comm, lor_shiftl_add; [lia|lia|by destruct t].
Qed.

(** Internal keys, by what they mean. *)
Definition ikey (u : bytes) (s : SequenceNumber) (t : ValueType) : bytes := u ++ EncodeFixed64 (tag s t).

Lemma zlength_fixed64 v : zlength (EncodeFixed64 v) = 8.
Proof. unfold zlength. by rewrite EncodeFixed64_le, length_le_bytes. Qed.

Lemma AppendInternalKey_ok result u s t :
  seq_ok s -> AppendInternalKey result (MkParsedInternalKey u s t) = Ret (result ++ ikey u s t).
Proof.
  intros Hs. unfold AppendInternalKey. cbn [sequence type user_key].
  rewrite PackSequenceAndType_ok, res_bind_ret by done. unfold PutFixed64, ikey. by rewrite <- app_assoc.
Qed.

Lemma ExtractUserKey_app u tl : zlength tl = 8 -> ExtractUserKey (u ++ tl) = Ret u.
Proof.
  intros Hl. unfold ExtractUserKey, size. rewrite zlength_app, Hl. pose proof (zlength_nonneg u).
  rewrite assert_true, res_bind_ret by (apply Z.leb_le; lia).
  replace (zlength u + 8 - 8) with (zlength u) by lia. by rewrite ztake_app.
Qed.

Lemma ValueType_of_value t : ValueType_of (ValueType_value t) = Some t.
Proof. by destruct t. Qed.

Lemma tag_parts s t : seq_ok s -> Z.shiftr (tag s t) 8 = s /\ u8 (tag s t .& 0xff) = ValueType_value t.
Proof.
  intros Hs. unfold tag. assert (0 <= ValueType_value t < 256) as Ht by by destruct t.
  rewrite Z.shiftr_div_pow2 by lia. change (2 ^ 8) with 256. rewrite land_0xFF.
  rewrite (Z.add_comm (s * 256)), Z.mod_add, Z.div_add, (Z.mod_small (ValueType_value t)),
    (Z.div_small (ValueType_value t)) by lia.
  split; [lia|]. by apply wrap_small.
Qed.

Lemma ParseInternalKey_ikey u s t :
  seq_ok s -> ParseInternalKey (ikey u s t) = Ret (Some (MkParsedInternalKey u s t)).
Proof.
  intros Hs. unfold ParseInternalKey, ikey, size. rewrite zlength_app, zlength_fixed64.
  pose proof (zlength_nonneg u). rewrite (proj2 (Z.ltb_ge _ _)) by lia.
  replace (zlength u + 8 - 8) with (zlength u) by lia. rewrite zdrop_app, ztake_app.
  rewrite <- (app_nil_r (EncodeFixed64 _)), DecodeFixed64_Encode, res_bind_ret by by apply tag_bound.
  destruct (tag_parts s t Hs) as [-> ->]. by rewrite ValueType_of_value.
Qed.

(** ** The comparator keeps the contract *)
Section internal_ok.
Context (uc : Comparator) (valid : bytes -> Prop) `{!ComparatorOk uc valid}.

(** What the comparator sees of an internal key: eight bytes are enough. *)
Definition ivalid (k : bytes) : Prop :=
  exists u n, k = u ++ EncodeFixed64 n /\ valid u /\ 0 <= n < 2 ^ 64.

Definition ikey_lt (a b : bytes) : Prop :=
  exists u n v m, a = u ++ EncodeFixed64 n /\ b = v ++ EncodeFixed64 m /\
    0 <= n < 2 ^ 64 /\ 0 <= m < 2 ^ 64 /\ (key_lt uc valid u v \/ u = v /\ m < n).

Lemma fixed64_app_inj u n v m :
  0 <= n < 2 ^ 64 -> 0 <= m < 2 ^ 64 -> u ++ EncodeFixed64 n = v ++ EncodeFixed64 m -> u = v /\ n = m.
Proof.
  intros Hn Hm E. apply app_inj_2 in E as [-> E].
  - split; [done|]. pose proof (DecodeFixed64_Encode n [] Hn) as D1. pose proof (DecodeFixed64_Encode m [] Hm) as D2.
    rewrite app_nil_r in D1, D2. congruence.
  - by rewrite !EncodeFixed64_le, !length_le_bytes.
Qed.

Lemma ikey_lt_intro u n v m :
  0 <= n < 2 ^ 64 -> 0 <= m < 2 ^ 64 ->
  ikey_lt (u ++ EncodeFixed64 n) (v ++ EncodeFixed64 m) <-> key_lt uc valid u v \/ u = v /\ m < n.
Proof.
  intros Hn Hm. split; [|intros Hl; by exists u, n, v, m].
  intros (u' & n' & v' & m' & Ea & Eb & Hn' & Hm' & Hl).
  apply fixed64_app_inj in Ea as [-> ->]; [|done|done]. by apply fixed64_app_inj in Eb as [-> ->].
Qed.

#[local] Instance ikey_lt_strict : StrictOrder ikey_lt.
Proof.
  split.
  - intros a (u & n & v & m & -> & E & Hn & Hm & Hl). apply fixed64_app_inj in E as [-> ->]; [|done|done].
    destruct Hl as [Hl|[_ Hl]]; [|lia]. by apply key_lt_irrefl in Hl.
  - intros a b c (u & n & v & m & -> & -> & Hn & Hm & Hl) (v' & m' & w & k & E & -> & Hm' & Hk & Hl').
    apply fixed64_app_inj in E as [<- <-]; [|done|done]. exists u, n, w, k.
    do 4 (split; [done|]). destruct Hl as [Hl|[-> Hl]], Hl' as [Hl'|[-> Hl']].
    + left. by transitivity v.
    + by left.
    + by left.
    + right. split; [done|lia].
Qed.

Lemma internal_Compare_ok u n v m :
  valid u -> valid v -> 0 <= n < 2 ^ 64 -> 0 <= m < 2 ^ 64 ->
  exists z, internal_Compare uc (u ++ EncodeFixed64 n) (v ++ EncodeFixed64 m) = Ret z /\
    match z ?= 0 with
    | Lt => key_lt uc valid u v \/ u = v /\ m < n
    | Eq => u = v /\ n = m
    | Gt => key_lt uc valid v u \/ u = v /\ n < m
    end.
Proof.
  intros Hu Hv Hn Hm. unfold internal_Compare.
  rewrite !ExtractUserKey_app, !res_bind_ret by apply zlength_fixed64.
  destruct (Compare_ok u v Hu Hv) as (r & E & Hr). rewrite E, res_bind_ret.
  destruct (Z.eqb_spec r 0) as [->|Hne].
  - cbn in Hr. subst v. unfold size. rewrite !zlength_app, !zlength_fixed64.
    replace (zlength u + 8 - 8) with (zlength u) by lia. rewrite !zdrop_app.
    pose proof (DecodeFixed64_Encode n [] Hn) as D1. pose proof (DecodeFixed64_Encode m [] Hm) as D2.
    rewrite app_nil_r in D1, D2. rewrite D1, D2, !res_bind_ret.
    destruct (Z.ltb_spec m n); [exists (-1); split; [done|by right]|].
    destruct (Z.ltb_spec n m); [exists 1; split; [done|by right]|].
    exists 0. split; [done|]. split; [done|lia].
  - exists r. split; [done|]. destruct (Z.compare_spec r 0); [done|by left..].
Qed.

Lemma tack_on_ok user_start tmp :
  valid user_start -> valid tmp ->
  exists o, tack_on uc user_start tmp = Ret o /\
    match o with
    | Some k => k = tmp ++ EncodeFixed64 (tag kMaxSequenceNumber kValueTypeForSeek) /\
                key_lt uc valid user_start tmp /\ zlength tmp < zlength user_start
    | None => True
    end.
Proof.
  intros Hs Ht. unfold tack_on, size. destruct (Z.ltb_spec (zlength tmp) (zlength user_start)); [|by exists None].
  destruct (Compare_ok user_start tmp Hs Ht) as (z & E & Hz). rewrite E, res_bind_ret.
  destruct (Z.ltb_spec z 0) as [Hlt|]; [|by exists None].
  rewrite PackSequenceAndType_ok, res_bind_ret by by split.
  eexists. split; [done|]. split; [done|]. rewrite (proj2 (Z.compare_lt_iff z 0)) in Hz by done. done.
Qed.

Lemma seek_tag_bound : 0 <= tag kMaxSequenceNumber kValueTypeForSeek < 2 ^ 64.
Proof. apply tag_bound. by split. Qed.

Lemma internal_Compare_lt u n v m :
  valid u -> valid v -> 0 <= n < 2 ^ 64 -> 0 <= m < 2 ^ 64 -> key_lt uc valid u v ->
  exists z, internal_Compare uc (u ++ EncodeFixed64 n) (v ++ EncodeFixed64 m) = Ret z /\ (z <? 0) = true.
Proof.
  intros Hu Hv Hn Hm Hl. destruct (internal_Compare_ok u n v m Hu Hv Hn Hm) as (z & E & Hz).
  exists z. split; [done|]. destruct (Z.compare_spec z 0) as [->|Hlt|Hgt].
  - destruct Hz as [-> _]. by apply key_lt_irrefl in Hl.
  - by apply Z.ltb_lt.
  - exfalso. destruct Hz as [Hvu|[-> _]]; [|by apply key_lt_irrefl in Hl].
    by apply (key_lt_asym uc valid u v).
Qed.

#[export] Instance InternalKeyComparator_ok : ComparatorOk (InternalKeyComparator uc) ivalid.
Proof.
  refine {| key_lt := ikey_lt |}.
  - intros a b (u & n & -> & Hu & Hn) (v & m & -> & Hv & Hm).
    destruct (internal_Compare_ok u n v m Hu Hv Hn Hm) as (z & E & Hz). exists z. split; [exact E|].
    destruct (z ?= 0).
    + by destruct Hz as [-> ->].
    + by apply ikey_lt_intro.
    + apply ikey_lt_intro; [done|done|]. destruct Hz as [?|[-> ?]]; [by left|by right].
  - intros start limit (u & n & -> & Hu & Hn) (v & m & -> & Hv & Hm) Hlt.
    apply ikey_lt_intro in Hlt; [|done|done]. cbn [FindShortestSeparator InternalKeyComparator].
    unfold internal_FindShortestSeparator. rewrite !ExtractUserKey_app, !res_bind_ret by apply zlength_fixed64.
    assert (exists s, Ret (u ++ EncodeFixed64 n) = Ret s /\ ivalid s /\ zlength s <= zlength (u ++ EncodeFixed64 n) /\
      (s = u ++ EncodeFixed64 n \/ ikey_lt (u ++ EncodeFixed64 n) s) /\ ikey_lt s (v ++ EncodeFixed64 m)) as Hsame.
    { eexists. split; [done|]. split; [by exists u, n|]. split; [lia|]. split; [by left|by apply ikey_lt_intro]. }
    assert (exists t, FindShortestSeparator uc u v = Ret t /\ valid t /\ (t = u \/ key_lt uc valid t v)) as (t & Et & Ht & Htv).
    { destruct Hlt as [Hlt|[-> _]].
      - destruct (Separator_ok u v Hu Hv Hlt) as (t & Et & Ht & _ & _ & Htv). exists t. auto.
      - exists v. split; [by apply Separator_same|]. auto. }
    rewrite Et, res_bind_ret. destruct (tack_on_ok u t Hu Ht) as (o & Eo & Ho). rewrite Eo, res_bind_ret.
    destruct o as [k|]; [|exact Hsame]. destruct Ho as (-> & Hut & Hlen).
    destruct Htv as [->|Htv]; [by apply key_lt_irrefl in Hut|]. pose proof seek_tag_bound as Hseek.
    destruct (internal_Compare_lt u n t _ Hu Ht Hn Hseek Hut) as (z1 & E1 & Hz1).
    destruct (internal_Compare_lt t _ v m Ht Hv Hseek Hm Htv) as (z2 & E2 & Hz2).
    rewrite E1, res_bind_ret, Hz1. cbn [assert_]. rewrite res_bind_ret, E2, res_bind_ret, Hz2. cbn [assert_].
    rewrite res_bind_ret. eexists. split; [done|]. split; [by eexists _, _|].
    rewrite !zlength_app, !zlength_fixed64. split; [lia|].
    split; [right|]; apply ikey_lt_intro; auto.
  - intros s (u & n & -> & Hu & Hn). cbn [FindShortestSeparator InternalKeyComparator].
    unfold internal_FindShortestSeparator. rewrite !ExtractUserKey_app, !res_bind_ret by apply zlength_fixed64.
    rewrite Separator_same, res_bind_ret by done. unfold tack_on. by rewrite Z.ltb_irrefl, res_bind_ret.
  - intros key (u & n & -> & Hu & Hn). cbn [FindShortSuccessor InternalKeyComparator].
    unfold internal_FindShortSuccessor. rewrite !ExtractUserKey_app, !res_bind_ret by apply zlength_fixed64.
    destruct (Successor_ok u Hu) as (t & Et & Ht & _ & _). rewrite Et, res_bind_ret.
    destruct (tack_on_ok u t Hu Ht) as (o & Eo & Ho). rewrite Eo, res_bind_ret. destruct o as [k|].
    + destruct Ho as (-> & Hut & Hlen). pose proof seek_tag_bound as Hseek.
      destruct (internal_Compare_lt u n t _ Hu Ht Hn Hseek Hut) as (z1 & E1 & Hz1).
      rewrite E1, res_bind_ret, Hz1. cbn [assert_]. rewrite res_bind_ret. eexists. split; [done|].
      split; [by eexists _, _|]. rewrite !zlength_app, !zlength_fixed64. split; [lia|].
      right. apply ikey_lt_intro; auto.
    + eexists. split; [done|]. split; [by exists u, n|]. split; [lia|by left].
Defined.
End internal_ok.

(** ** Lookup keys *)
Lemma LookupKey_make_ok u s :
  seq_ok s -> zlength u + 8 < 2 ^ 32 ->
  exists k, LookupKey_make u s = Ret k /\
    memtable_key k = EncodeVarint32 (zlength u + 8) ++ ikey u s kTypeValue /\
    internal_key k = ikey u s kTypeValue /\ lookup_user_key k = u.
Proof.
  intros Hs Hl. pose proof (zlength_nonneg u). unfold LookupKey_make, size. rewrite wrap_small by lia.
  rewrite PackSequenceAndType_ok, res_bind_ret by done. set (pre := EncodeVarint32 (zlength u + 8)).
  assert (zlength pre <= 5) as Hpre.
  { unfold pre, EncodeVarint32. repeat case_match; unfold zlength; cbn [length]; lia. }
  rewrite !zlength_app, zlength_fixed64. rewrite (proj2 (Z.ltb_ge _ _)) by lia.
  eexists. split; [done|]. unfold memtable_key, internal_key, lookup_user_key, size. cbn [lk_bytes lk_kstart].
  split; [done|]. rewrite zdrop_app. split; [done|]. rewrite !zlength_app, zlength_fixed64.
  replace (zlength pre + (zlength u + 8) - zlength pre - 8) with (zlength u) by lia. apply ztake_app.
Qed.

(** ** The theorems *)

(** Internal keys keep their parts, and the comparator orders them by user key,
    then from the newest sequence number to the oldest, a value before a
    deletion of the same number. *)
Theorem internal_key_order uc valid `{!ComparatorOk uc valid} u v s s' t t' :
  valid u -> valid v -> seq_ok s -> seq_ok s' ->
  exists a b z,
    InternalKey_make u s t = Ret a /\ InternalKey_make v s' t' = Ret b /\
    ParseInternalKey a = Ret (Some (MkParsedInternalKey u s t)) /\ ExtractUserKey a = Ret u /\
    Compare (InternalKeyComparator uc) a b = Ret z /\
    (z < 0 <-> key_lt uc valid u v \/
               u = v /\ (s' < s \/ s' = s /\ t = kTypeValue /\ t' = kTypeDeletion)) /\
    (z = 0 <-> u = v /\ s = s' /\ t = t').
Proof.
  intros Hu Hv Hs Hs'. pose proof (tag_bound s t Hs) as Hn. pose proof (tag_bound s' t' Hs') as Hm.
  destruct (internal_Compare_ok uc valid u _ v _ Hu Hv Hn Hm) as (z & E & Hz).
  exists (ikey u s t), (ikey v s' t'), z. unfold InternalKey_make. rewrite !AppendInternalKey_ok by done.
  split; [done|]. split; [done|]. split; [by apply ParseInternalKey_ikey|].
  split; [apply ExtractUserKey_app, zlength_fixed64|]. split; [exact E|].
  assert (tag s' t' < tag s t <-> s' < s \/ s' = s /\ t = kTypeValue /\ t' = kTypeDeletion) as Hlt.
  { unfold tag. destruct t, t'; simpl ValueType_value; split;
      try (intros [?|(? & ? & ?)]; done || lia); intros ?;
      (destruct (Z.eq_dec s' s); [right; split; [done|]; split; done || lia|left; lia]). }
  assert (tag s t = tag s' t' <-> s = s' /\ t = t') as Heq.
  { unfold tag. destruct t, t'; simpl ValueType_value; split; intros Ht; try lia;
      try (split; [lia|done]); destruct Ht as [-> ?]; done. }
  destruct (Z.compare_spec z 0) as [->|Hneg|Hpos].
  - destruct Hz as [-> Hz]. split.
    + split; [lia|]. intros [Hl|[_ Hl]]; [by apply key_lt_irrefl in Hl|]. apply Hlt in Hl. lia.
    + split; [|done]. intros _. by split; [|apply Heq].
  - rewrite Hlt in Hz. split; [tauto|]. split; [lia|]. intros (-> & Hst).
    apply Heq in Hst. destruct Hz as [Hl|[_ Hl]]; [by apply key_lt_irrefl in Hl|]. apply Hlt in Hl. lia.
  - split; split; try lia.
    + intros [Hl|[-> Hl]].
      * exfalso. destruct Hz as [Hl'|[-> _]]; [by apply (key_lt_asym uc valid u v)|by apply key_lt_irrefl in Hl].
      * apply Hlt in Hl. exfalso. destruct Hz as [Hl'|[_ Hl']]; [by apply key_lt_irrefl in Hl'|lia].
    + intros (-> & Hst). apply Heq in Hst. destruct Hz as [Hl|[_ Hl]]; [by apply key_lt_irrefl in Hl|lia].
Qed.

Lemma internal_key_order_witness :
  exists a b z,
    InternalKey_make [1] 7 kTypeValue = Ret a /\ InternalKey_make [1] 5 kTypeDeletion = Ret b /\
    Compare (InternalKeyComparator BytewiseComparator) a b = Ret z /\ z < 0.
Proof.
  destruct (internal_key_order BytewiseComparator bytes_ok [1] [1] 7 5 kTypeValue kTypeDeletion)
    as (a & b & z & Ea & Eb & _ & _ & Ez & Hz & _).
  - by apply bytes_ok_forallb.
  - by apply bytes_ok_forallb.
  - split; [discriminate|vm_compute; discriminate].
  - split; [discriminate|vm_compute; discriminate].
  - exists a, b, z. split; [exact Ea|]. split; [exact Eb|]. split; [exact Ez|]. apply Hz. right. split; [done|by left].
Defined.

(** Index blocks: between two internal keys in order, the separator is a valid
    internal key of at most the first one's length, at or above it and below
    the second; the short successor is at or above its key.  The assertions of
    the code hold. *)
Theorem internal_separators uc valid `{!ComparatorOk uc valid} start limit :
  let c := InternalKeyComparator uc in
  ivalid valid start -> ivalid valid limit -> ikey_lt uc valid start limit ->
  (exists s, FindShortestSeparator c start limit = Ret s /\ ivalid valid s /\ zlength s <= zlength start /\
     (s = start \/ ikey_lt uc valid start s) /\ ikey_lt uc valid s limit) /\
  (exists s, FindShortSuccessor c start = Ret s /\ ivalid valid s /\ zlength s <= zlength start /\
     (s = start \/ ikey_lt uc valid start s)).
Proof.
  intros c Hs Hl Hlt. split.
  - exact (Separator_ok (ComparatorOk := InternalKeyComparator_ok uc valid) start limit Hs Hl Hlt).
  - exact (Successor_ok (ComparatorOk := InternalKeyComparator_ok uc valid) start Hs).
Qed.

Lemma internal_separators_witness :
  exists s, FindShortestSeparator (InternalKeyComparator BytewiseComparator)
              (ikey [1; 2; 3] 4 kTypeValue) (ikey [1; 9] 2 kTypeValue) = Ret s /\
            s = ikey [1; 3] kMaxSequenceNumber kTypeValue.
Proof.
  destruct (internal_separators BytewiseComparator bytes_ok (ikey [1; 2; 3] 4 kTypeValue) (ikey [1; 9] 2 kTypeValue))
    as [(s & E & _) _].
  - exists [1; 2; 3], (tag 4 kTypeValue). split; [done|]. split; [by apply bytes_ok_forallb|]. by split.
  - exists [1; 9], (tag 2 kTypeValue). split; [done|]. split; [by apply bytes_ok_forallb|]. by split.
  - apply ikey_lt_intro; [by split|by split|]. left. apply lt_tail, lt_head. reflexivity.
  - exists s. split; [exact E|]. vm_compute in E. by injection E as <-.
Defined.
