(* ===== verification/VersionEdit.v ===== *)
(** * LevelDB: version edits (version_edit.h, version_edit.cc)

    The changes of a version that are written to the manifest, how they are
    encoded, and that decoding inverts it. *)
From S2P Require Import Prelude WireFormat LdbBase Coding DbFormat.

(** [refs] and [allowed_seeks] count only for files of a version. *)
Record FileMetaData : Type := MkFileMetaData {
  refs : Z;
  allowed_seeks : Z;
  number : Z;
  file_size : Z;
  smallest : InternalKey;
  largest : InternalKey;
}.

#[export] Instance FileMetaData_eq_dec : EqDecision FileMetaData.
Proof. solve_decision. Defined.

(** A constructed object to which a number, a size and keys are assigned; the
    constructor leaves [number] indeterminate. *)
Definition new_FileMetaData (number file_size : Z) (smallest largest : InternalKey) : FileMetaData :=
  MkFileMetaData 0 (Z.shiftl 1 30) number file_size smallest largest.

(** ** Sets

    A [std::set] is the sorted list of its elements. *)
Definition pair_lt (p q : Z * Z) : bool := (p.1 <? q.1) || (p.1 =? q.1) && (p.2 <? q.2).

Fixpoint set_insert (p : Z * Z) (s : list (Z * Z)) : list (Z * Z) :=
  match s with
  | [] => [p]
  | q :: s' => if pair_lt p q then p :: s else if pair_lt q p then q :: set_insert p s' else s
  end.

(** ** The edit *)
Record VersionEdit : Type := MkVersionEdit {
  comparator_ : bytes;
  log_number_ : Z;
  prev_log_number_ : Z;
  next_file_number_ : Z;
  last_sequence_ : SequenceNumber;
  has_comparator_ : bool;
  has_log_number_ : bool;
  has_prev_log_number_ : bool;
  has_next_file_number_ : bool;
  has_last_sequence_ : bool;
  compact_pointers_ : list (Z * InternalKey);
  deleted_files_ : list (Z * Z);
  new_files_ : list (Z * FileMetaData);
}.

#[export] Instance VersionEdit_eq_dec : EqDecision VersionEdit.
Proof. solve_decision. Defined.

(** [Clear] leaves [compact_pointers_] as they are. *)
Definition Clear (e : VersionEdit) : VersionEdit :=
  MkVersionEdit [] 0 0 0 0 false false false false false (compact_pointers_ e) [] [].

Definition new_VersionEdit : VersionEdit := Clear (MkVersionEdit [] 0 0 0 0 false false false false false [] [] []).

Definition SetComparatorName (name : bytes) (e : VersionEdit) : VersionEdit :=
  MkVersionEdit name (log_number_ e) (prev_log_number_ e) (next_file_number_ e) (last_sequence_ e)
    true (has_log_number_ e) (has_prev_log_number_ e) (has_next_file_number_ e) (has_last_sequence_ e)
    (compact_pointers_ e) (deleted_files_ e) (new_files_ e).

Definition SetLogNumber (num : Z) (e : VersionEdit) : VersionEdit :=
  MkVersionEdit (comparator_ e) num (prev_log_number_ e) (next_file_number_ e) (last_sequence_ e)
    (has_comparator_ e) true (has_prev_log_number_ e) (has_next_file_number_ e) (has_last_sequence_ e)
    (compact_pointers_ e) (deleted_files_ e) (new_files_ e).

Definition SetPrevLogNumber (num : Z) (e : VersionEdit) : VersionEdit :=
  MkVersionEdit (comparator_ e) (log_number_ e) num (next_file_number_ e) (last_sequence_ e)
    (has_comparator_ e) (has_log_number_ e) true (has_next_file_number_ e) (has_last_sequence_ e)
    (compact_pointers_ e) (deleted_files_ e) (new_files_ e).

Definition SetNextFile (num : Z) (e : VersionEdit) : VersionEdit :=
  MkVersionEdit (comparator_ e) (log_number_ e) (prev_log_number_ e) num (last_sequence_ e)
    (has_comparator_ e) (has_log_number_ e) (has_prev_log_number_ e) true (has_last_sequence_ e)
    (compact_pointers_ e) (deleted_files_ e) (new_files_ e).

Definition SetLastSequence (seq : SequenceNumber) (e : VersionEdit) : VersionEdit :=
  MkVersionEdit (comparator_ e) (log_number_ e) (prev_log_number_ e) (next_file_number_ e) seq
    (has_comparator_ e) (has_log_number_ e) (has_prev_log_number_ e) (has_next_file_number_ e) true
    (compact_pointers_ e) (deleted_files_ e) (new_files_ e).

(** The three collections. *)
Definition set_files (pointers : list (Z * InternalKey)) (deleted : list (Z * Z)) (new : list (Z * FileMetaData)) (e : VersionEdit) : VersionEdit :=
  MkVersionEdit (comparator_ e) (log_number_ e) (prev_log_number_ e) (next_file_number_ e) (last_sequence_ e)
    (has_comparator_ e) (has_log_number_ e) (has_prev_log_number_ e) (has_next_file_number_ e) (has_last_sequence_ e)
    pointers deleted new.

Definition SetCompactPointer (level : Z) (key : InternalKey) (e : VersionEdit) : VersionEdit :=
  set_files (compact_pointers_ e ++ [(level, key)]) (deleted_files_ e) (new_files_ e) e.

Definition AddFile (level file file_size : Z) (smallest largest : InternalKey) (e : VersionEdit) : VersionEdit :=
  set_files (compact_pointers_ e) (deleted_files_ e) (new_files_ e ++ [(level, new_FileMetaData file file_size smallest largest)]) e.

Definition DeleteFile (level file : Z) (e : VersionEdit) : VersionEdit :=
  set_files (compact_pointers_ e) (set_insert (level, file) (deleted_files_ e)) (new_files_ e) e.

(** ** Encoding *)
Definition kComparator : Z := 1.
Definition kLogNumber : Z := 2.
Definition kNextFileNumber : Z := 3.
Definition kLastSequence : Z := 4.
Definition kCompactPointer : Z := 5.
Definition kDeletedFile : Z := 6.
Definition kNewFile : Z := 7.
Definition kPrevLogNumber : Z := 9.

(** [if (has) { PutVarint32(dst, tag); PutVarint64(dst, v); }]. *)
Definition put_number (has : bool) (tag v : Z) (dst : bytes) : res bytes :=
  if has then PutVarint64 (PutVarint32 dst tag) v else Ret dst.

Definition put_pointer (dst : bytes) (p : Z * InternalKey) : res bytes :=
  let dst := PutVarint32 (PutVarint32 dst kCompactPointer) (u32 p.1) in
  let! k := InternalKey_Encode p.2 in
  Ret (PutLengthPrefixedSlice dst k).

Definition put_deleted (dst : bytes) (p : Z * Z) : res bytes :=
  PutVarint64 (PutVarint32 (PutVarint32 dst kDeletedFile) (u32 p.1)) p.2.

Definition put_new (dst : bytes) (p : Z * FileMetaData) : res bytes :=
  let f := p.2 in
  let! dst := PutVarint64 (PutVarint32 (PutVarint32 dst kNewFile) (u32 p.1)) (number f) in
  let! dst := PutVarint64 dst (file_size f) in
  let! s := InternalKey_Encode (smallest f) in
  let! l := InternalKey_Encode (largest f) in
  Ret (PutLengthPrefixedSlice (PutLengthPrefixedSlice dst s) l).

(** [for (i = 0; i < v.size(); i++) f(dst, v[i]);]. *)
Fixpoint put_each {A} (f : bytes -> A -> res bytes) (dst : bytes) (l : list A) : res bytes :=
  match l with
  | [] => Ret dst
  | x :: l => let! dst := f dst x in put_each f dst l
  end.

Definition EncodeTo (e : VersionEdit) (dst : bytes) : res bytes :=
  let dst := if has_comparator_ e then PutLengthPrefixedSlice (PutVarint32 dst kComparator) (comparator_ e) else dst in
  let! dst := put_number (has_log_number_ e) kLogNumber (log_number_ e) dst in
  let! dst := put_number (has_prev_log_number_ e) kPrevLogNumber (prev_log_number_ e) dst in
  let! dst := put_number (has_next_file_number_ e) kNextFileNumber (next_file_number_ e) dst in
  let! dst := put_number (has_last_sequence_ e) kLastSequence (last_sequence_ e) dst in
  let! dst := put_each put_pointer dst (compact_pointers_ e) in
  let! dst := put_each put_deleted dst (deleted_files_ e) in
  put_each put_new dst (new_files_ e).

(** ** Decoding *)
Definition GetInternalKey : M bytes InternalKey :=
  s <- GetLengthPrefixedSlice;; ret (InternalKey_DecodeFrom s).

Definition GetLevel : M bytes Z :=
  v <- GetVarint32;; if v <? kNumLevels then ret v else return_false.

(** A case of the [switch]: the edit changes when everything is read. *)
Definition decode_case (tag : Z) (e : VersionEdit) : M bytes VersionEdit :=
  if tag =? kComparator then s <- GetLengthPrefixedSlice;; ret (SetComparatorName s e)
  else if tag =? kLogNumber then v <- GetVarint64;; ret (SetLogNumber v e)
  else if tag =? kPrevLogNumber then v <- GetVarint64;; ret (SetPrevLogNumber v e)
  else if tag =? kNextFileNumber then v <- GetVarint64;; ret (SetNextFile v e)
  else if tag =? kLastSequence then v <- GetVarint64;; ret (SetLastSequence v e)
  else if tag =? kCompactPointer then level <- GetLevel;; key <- GetInternalKey;; ret (SetCompactPointer level key e)
  else if tag =? kDeletedFile then level <- GetLevel;; number <- GetVarint64;; ret (DeleteFile level number e)
  else if tag =? kNewFile then
    level <- GetLevel;; number <- GetVarint64;; size <- GetVarint64;; s <- GetInternalKey;; l <- GetInternalKey;;
    ret (AddFile level number size s l e)
  else return_false.

(** The message of a case that fails. *)
Definition case_message (tag : Z) : bytes :=
  if tag =? kComparator then str "comparator name"
  else if tag =? kLogNumber then str "log number"
  else if tag =? kPrevLogNumber then str "previous log number"
  else if tag =? kNextFileNumber then str "next file number"
  else if tag =? kLastSequence then str "last sequence number"
  else if tag =? kCompactPointer then str "compaction pointer"
  else if tag =? kDeletedFile then str "deleted file"
  else if tag =? kNewFile then str "new-file entry"
  else str "unknown tag".

Definition decode_body (st : bytes * VersionEdit) : res ((bytes * VersionEdit) + (option bytes * bytes * VersionEdit)) :=
  let '(input, e) := st in
  let! '(o, input) := GetVarint32 input in
  match o with
  | None => Ret (inr (None, input, e))
  | Some tag =>
      let! '(o, input) := decode_case tag e input in
      match o with
      | Some e => Ret (inl (input, e))
      | None => Ret (inr (Some (case_message tag), input, e))
      end
  end.

Definition DecodeFrom (src : bytes) (e : VersionEdit) : res (Status * VersionEdit) :=
  let! '(msg, input, e) := while decode_body (src, Clear e) in
  let msg := match msg with None => if negb (empty_slice input) then Some (str "invalid tag") else None | m => m end in
  Ret (match msg with Some m => Corruption2 (str "VersionEdit") m | None => Status_OK end, e).

(** ** The items of an edit

    What one turn of the loop reads. *)
Inductive item : Type :=
| ItemComparator (name : bytes)
| ItemLogNumber (num : Z)
| ItemPrevLogNumber (num : Z)
| ItemNextFile (num : Z)
| ItemLastSequence (seq : Z)
| ItemPointer (level : Z) (key : InternalKey)
| ItemDeleted (level num : Z)
| ItemNew (level num size : Z) (s l : InternalKey).

Definition item_tag (i : item) : Z :=
  match i with
  | ItemComparator _ => kComparator | ItemLogNumber _ => kLogNumber | ItemPrevLogNumber _ => kPrevLogNumber
  | ItemNextFile _ => kNextFileNumber | ItemLastSequence _ => kLastSequence | ItemPointer _ _ => kCompactPointer
  | ItemDeleted _ _ => kDeletedFile | ItemNew _ _ _ _ _ => kNewFile
  end.

Definition slice_field (s : bytes) : bytes := varint_bytes (zlength s) ++ s.

Definition item_body (i : item) : bytes :=
  match i with
  | ItemComparator s => slice_field s
  | ItemLogNumber v | ItemPrevLogNumber v | ItemNextFile v | ItemLastSequence v => varint_bytes v
  | ItemPointer level key => varint_bytes level ++ slice_field key
  | ItemDeleted level n => varint_bytes level ++ varint_bytes n
  | ItemNew level n sz s l => varint_bytes level ++ varint_bytes n ++ varint_bytes sz ++ slice_field s ++ slice_field l
  end.

Definition item_bytes (i : item) : bytes := varint_bytes (item_tag i) ++ item_body i.

Definition item_apply (i : item) : VersionEdit -> VersionEdit :=
  match i with
  | ItemComparator s => SetComparatorName s
  | ItemLogNumber v => SetLogNumber v
  | ItemPrevLogNumber v => SetPrevLogNumber v
  | ItemNextFile v => SetNextFile v
  | ItemLastSequence v => SetLastSequence v
  | ItemPointer level key => SetCompactPointer level key
  | ItemDeleted level n => DeleteFile level n
  | ItemNew level n sz s l => AddFile level n sz s l
  end.

Definition apply_items (l : list item) (e : VersionEdit) : VersionEdit := foldl (fun e i => item_apply i e) e l.

Definition slice_ok (s : bytes) : Prop := bytes_ok s /\ zlength s < 2 ^ 32.
Definition u64_ok (v : Z) : Prop := 0 <= v < 2 ^ 64.
Definition level_ok (l : Z) : Prop := 0 <= l < kNumLevels.

Definition item_ok (i : item) : Prop :=
  match i with
  | ItemComparator s => slice_ok s
  | ItemLogNumber v | ItemPrevLogNumber v | ItemNextFile v | ItemLastSequence v => u64_ok v
  | ItemPointer level key => level_ok level /\ slice_ok key
  | ItemDeleted level n => level_ok level /\ u64_ok n
  | ItemNew level n sz s l => level_ok level /\ u64_ok n /\ u64_ok sz /\ slice_ok s /\ slice_ok l
  end.

Definition items_of (e : VersionEdit) : list item :=
  (if has_comparator_ e then [ItemComparator (comparator_ e)] else []) ++
  (if has_log_number_ e then [ItemLogNumber (log_number_ e)] else []) ++
  (if has_prev_log_number_ e then [ItemPrevLogNumber (prev_log_number_ e)] else []) ++
  (if has_next_file_number_ e then [ItemNextFile (next_file_number_ e)] else []) ++
  (if has_last_sequence_ e then [ItemLastSequence (last_sequence_ e)] else []) ++
  ((fun p => ItemPointer p.1 p.2) <$> compact_pointers_ e) ++
  ((fun p => ItemDeleted p.1 p.2) <$> deleted_files_ e) ++
  ((fun p => ItemNew p.1 (number p.2) (file_size p.2) (smallest p.2) (largest p.2)) <$> new_files_ e).

(** Edits the program builds: a value that is absent is the initial one, the keys
    are not empty, and the set of deleted files is one. *)
Record edit_ok (e : VersionEdit) : Prop := {
  eo_items : Forall item_ok (items_of e);
  eo_comparator : has_comparator_ e = false -> comparator_ e = [];
  eo_log : has_log_number_ e = false -> log_number_ e = 0;
  eo_prev_log : has_prev_log_number_ e = false -> prev_log_number_ e = 0;
  eo_next : has_next_file_number_ e = false -> next_file_number_ e = 0;
  eo_last : has_last_sequence_ e = false -> last_sequence_ e = 0;
  eo_pointers : Forall (fun p => p.2 <> []) (compact_pointers_ e);
  eo_deleted : foldl (fun s p => set_insert p s) [] (deleted_files_ e) = deleted_files_ e;
  eo_new : Forall (fun p => p.2 = new_FileMetaData (number p.2) (file_size p.2) (smallest p.2) (largest p.2) /\ smallest p.2 <> [] /\ largest p.2 <> []) (new_files_ e);
}.

(** ** Encoding writes the items *)
Lemma PutLengthPrefixedSlice_spec dst s : zlength s < 2 ^ 32 -> PutLengthPrefixedSlice dst s = dst ++ slice_field s.
Proof.
  intros Hs. pose proof (zlength_nonneg s). unfold PutLengthPrefixedSlice, slice_field, size.
  by rewrite wrap_small, PutVarint32_spec, <- app_assoc by done.
Qed.

Lemma InternalKey_Encode_ok k : k <> [] -> InternalKey_Encode k = Ret k.
Proof. intros Hk. unfold InternalKey_Encode. destruct k as [|b k]; [done|]. by rewrite empty_slice_cons. Qed.

Lemma level_wraps l : level_ok l -> u32 l = l.
Proof. intros [H0 H7]. apply wrap_small. unfold kNumLevels in H7. lia. Qed.

Lemma PutVarint32_level dst l : level_ok l -> PutVarint32 dst (u32 l) = dst ++ varint_bytes l.
Proof. intros Hl. rewrite level_wraps by done. apply PutVarint32_spec. destruct Hl. unfold kNumLevels in *. lia. Qed.

Lemma put_number_spec (has : bool) tag v dst (i : item) : 0 <= tag < 2 ^ 32 -> (has = true -> u64_ok v) -> item_bytes i = varint_bytes tag ++ varint_bytes v ->
  put_number has tag v dst = Ret (dst ++ concat (item_bytes <$> if has then [i] else [])).
Proof.
  intros Ht Hv Ei. unfold put_number. destruct has; cbn; [|by rewrite app_nil_r].
  rewrite PutVarint32_spec, PutVarint64_spec by first [done|exact (Hv eq_refl)]. by rewrite Ei, app_nil_r, <- app_assoc.
Qed.

Lemma put_all_spec {A} (f : bytes -> A -> res bytes) (g : A -> item) (P : A -> Prop) dst l :
  (forall dst x, P x -> item_ok (g x) -> f dst x = Ret (dst ++ item_bytes (g x))) ->
  Forall P l -> Forall item_ok (g <$> l) -> put_each f dst l = Ret (dst ++ concat (item_bytes <$> (g <$> l))).
Proof.
  intros Hf HP Hok. revert dst. induction l as [|x l IH]; intros dst; cbn [put_each]; [by rewrite app_nil_r|].
  inversion HP; subst. inversion Hok; subst. rewrite Hf, res_bind_ret, IH by done. cbn. by rewrite <- app_assoc.
Qed.

Lemma put_pointer_spec dst p : p.2 <> [] -> item_ok (ItemPointer p.1 p.2) -> put_pointer dst p = Ret (dst ++ item_bytes (ItemPointer p.1 p.2)).
Proof.
  intros Hk [Hl [_ Hs]]. unfold put_pointer. rewrite PutVarint32_level, PutVarint32_spec, InternalKey_Encode_ok, res_bind_ret by done.
  rewrite PutLengthPrefixedSlice_spec by done. unfold item_bytes. cbn. by rewrite <- !app_assoc.
Qed.

Lemma put_deleted_spec dst p : item_ok (ItemDeleted p.1 p.2) -> put_deleted dst p = Ret (dst ++ item_bytes (ItemDeleted p.1 p.2)).
Proof.
  intros [Hl Hn]. unfold put_deleted. rewrite PutVarint32_level, PutVarint32_spec, PutVarint64_spec by done.
  unfold item_bytes. cbn. by rewrite <- !app_assoc.
Qed.

Lemma put_new_spec dst p : let f := p.2 in let i := ItemNew p.1 (number f) (file_size f) (smallest f) (largest f) in
  smallest f <> [] -> largest f <> [] -> item_ok i -> put_new dst p = Ret (dst ++ item_bytes i).
Proof.
  intros f i Hs Hl (Hlev & Hn & Hsz & [_ Hks] & [_ Hkl]). unfold put_new. fold f.
  rewrite PutVarint32_level, PutVarint32_spec, PutVarint64_spec, res_bind_ret, PutVarint64_spec, res_bind_ret by done.
  rewrite !InternalKey_Encode_ok, !res_bind_ret, !PutLengthPrefixedSlice_spec by done.
  unfold item_bytes, i. cbn. by rewrite <- !app_assoc.
Qed.

Lemma EncodeTo_items e dst : edit_ok e -> EncodeTo e dst = Ret (dst ++ concat (item_bytes <$> items_of e)).
Proof.
  intros He. pose proof (eo_items e He) as Hi. unfold items_of in *. rewrite !Forall_app in Hi.
  destruct Hi as (Hc & Hlog & Hprev & Hnext & Hseq & Hp & Hd & Hn). unfold EncodeTo.
  assert (forall (b : bool) i, Forall item_ok (if b then [i] else []) -> b = true -> item_ok i) as Hif by (intros [] i H; [by inversion H|done]).
  replace (if has_comparator_ e then PutLengthPrefixedSlice (PutVarint32 dst kComparator) (comparator_ e) else dst)
    with (dst ++ concat (item_bytes <$> if has_comparator_ e then [ItemComparator (comparator_ e)] else [])).
  2:{ destruct (has_comparator_ e); cbn; [|by rewrite app_nil_r]. destruct (Hif true _ Hc eq_refl) as [_ Hs].
      rewrite PutVarint32_spec, PutLengthPrefixedSlice_spec by done. by rewrite app_nil_r, <- app_assoc. }
  rewrite (put_number_spec _ _ _ _ (ItemLogNumber (log_number_ e))), res_bind_ret by first [done|exact (Hif _ _ Hlog)].
  rewrite (put_number_spec _ _ _ _ (ItemPrevLogNumber (prev_log_number_ e))), res_bind_ret by first [done|exact (Hif _ _ Hprev)].
  rewrite (put_number_spec _ _ _ _ (ItemNextFile (next_file_number_ e))), res_bind_ret by first [done|exact (Hif _ _ Hnext)].
  rewrite (put_number_spec _ _ _ _ (ItemLastSequence (last_sequence_ e))), res_bind_ret by first [done|exact (Hif _ _ Hseq)].
  rewrite (put_all_spec _ (fun p => ItemPointer p.1 p.2) (fun p => p.2 <> [])), res_bind_ret; [|intros; by apply put_pointer_spec|apply (eo_pointers e He)|done].
  rewrite (put_all_spec _ (fun p => ItemDeleted p.1 p.2) (fun _ => True)), res_bind_ret; [|intros; by apply put_deleted_spec|by apply Forall_true|done].
  rewrite (put_all_spec _ (fun p => ItemNew p.1 (number p.2) (file_size p.2) (smallest p.2) (largest p.2))
    (fun p => p.2 = new_FileMetaData (number p.2) (file_size p.2) (smallest p.2) (largest p.2) /\ smallest p.2 <> [] /\ largest p.2 <> []));
    [|intros ? ? (_ & ? & ?) ?; by apply put_new_spec|apply (eo_new e He)|done].
  by rewrite !fmap_app, !concat_app, <- !app_assoc.
Qed.

(** ** Decoding reads the items *)
Lemma GetLevel_gets l : level_ok l -> gets GetLevel (varint_bytes l) l.
Proof.
  intros Hl. rewrite <- (app_nil_r (varint_bytes l)). eapply gets_bind; [apply GetVarint32_gets; destruct Hl; unfold kNumLevels in *; lia| |constructor].
  cbn. rewrite (proj2 (Z.ltb_lt _ _)) by apply Hl. apply gets_ret.
Qed.

Lemma gets_ret_bind {A B} (c : M bytes A) (f : A -> B) bs a : gets c bs a -> gets (x <- c;; ret (f x)) bs (f a).
Proof. intros Hc. rewrite <- (app_nil_r bs). eapply gets_bind; [exact Hc|apply gets_ret|constructor]. Qed.

Lemma slice_gets s : slice_ok s -> gets GetLengthPrefixedSlice (slice_field s) s.
Proof. intros [Hb Hs]. by apply GetLengthPrefixedSlice_gets. Qed.

Lemma GetInternalKey_gets s : slice_ok s -> gets GetInternalKey (slice_field s) s.
Proof. intros Hs. apply (gets_ret_bind _ InternalKey_DecodeFrom). by apply slice_gets. Qed.

Lemma slice_field_ok s : slice_ok s -> bytes_ok (slice_field s).
Proof. intros [Hb _]. apply bytes_ok_app. split; [apply varint_bytes_ok, zlength_nonneg|done]. Qed.

Lemma item_body_ok i : item_ok i -> bytes_ok (item_body i).
Proof.
  destruct i; cbn; unfold level_ok, u64_ok; intros Hi; destruct_and?; rewrite ?bytes_ok_app; split_and?; try by apply slice_field_ok.
  all: apply varint_bytes_ok; lia.
Qed.

Lemma item_tag_bound i : 0 <= item_tag i < 128.
Proof. by destruct i. Qed.

Lemma items_bytes_ok l : Forall item_ok l -> bytes_ok (concat (item_bytes <$> l)).
Proof.
  induction 1 as [|i l Hi _ IH]; [constructor|]. apply bytes_ok_app. split; [|done]. apply bytes_ok_app.
  split; [apply varint_bytes_ok; pose proof (item_tag_bound i); lia|by apply item_body_ok].
Qed.

Ltac gets_step :=
  match goal with
  | |- gets (bind GetLevel _) (_ ++ _) _ => eapply gets_bind; [by apply GetLevel_gets| |]
  | |- gets (bind GetVarint64 _) (_ ++ _) _ => eapply gets_bind; [by apply GetVarint64_gets| |]
  | |- gets (bind GetInternalKey _) (_ ++ _) _ => eapply gets_bind; [by apply GetInternalKey_gets| |]
  end.

Lemma decode_case_gets i e : item_ok i -> gets (decode_case (item_tag i) e) (item_body i) (item_apply i e).
Proof.
  intros Hi. pose proof (item_body_ok i Hi) as Hb. destruct i; cbn in Hi, Hb |- *; destruct_and?; repeat (apply bytes_ok_app in Hb as [? Hb]).
  - apply (gets_ret_bind _ (fun s => SetComparatorName s e)). by apply slice_gets.
  - apply (gets_ret_bind _ (fun v => SetLogNumber v e)). by apply GetVarint64_gets.
  - apply (gets_ret_bind _ (fun v => SetPrevLogNumber v e)). by apply GetVarint64_gets.
  - apply (gets_ret_bind _ (fun v => SetNextFile v e)). by apply GetVarint64_gets.
  - apply (gets_ret_bind _ (fun v => SetLastSequence v e)). by apply GetVarint64_gets.
  - gets_step; [|by apply slice_field_ok]. apply (gets_ret_bind _ (fun k => SetCompactPointer level k e)). by apply GetInternalKey_gets.
  - gets_step; [|done]. apply (gets_ret_bind _ (fun n => DeleteFile level n e)). by apply GetVarint64_gets.
  - gets_step; [gets_step; [gets_step; [gets_step|]|]|].
    + apply (gets_ret_bind _ (fun k => AddFile level num size s k e)). by apply GetInternalKey_gets.
    + by apply slice_field_ok.
    + rewrite ?bytes_ok_app. by split_and!; try apply slice_field_ok.
    + rewrite ?bytes_ok_app. by split_and!; try apply slice_field_ok.
    + rewrite ?bytes_ok_app. by split_and!; try apply slice_field_ok.
Qed.

Lemma decode_runs l e : Forall item_ok l ->
  runs decode_body (concat (item_bytes <$> l), e) (1 + zlength l) (Ret (None, [], apply_items l e)).
Proof.
  intros Hl. revert e. induction Hl as [|i l Hi Hl IH]; intros e; [by apply runs_stop|].
  rewrite zlength_cons. eapply runs_step; [|exact (IH (item_apply i e))].
  cbn [fmap list_fmap concat]. unfold decode_body, item_bytes. rewrite <- app_assoc.
  pose proof (items_bytes_ok l Hl). pose proof (item_body_ok i Hi). pose proof (item_tag_bound i).
  rewrite GetVarint32_gets, res_bind_ret by (try lia; by apply bytes_ok_app). cbn [fst snd].
  by rewrite decode_case_gets by done.
Qed.

(** Applying the items of an edit. *)
Lemma apply_items_app l k e : apply_items (l ++ k) e = apply_items k (apply_items l e).
Proof. apply foldl_app. Qed.

Lemma apply_items_cons i l e : apply_items (i :: l) e = apply_items l (item_apply i e).
Proof. done. Qed.

Lemma apply_pointers l e : apply_items ((fun p => ItemPointer p.1 p.2) <$> l) e = set_files (compact_pointers_ e ++ l) (deleted_files_ e) (new_files_ e) e.
Proof.
  revert e. induction l as [|[level k] l IH]; intros e; [rewrite app_nil_r; by destruct e|].
  rewrite fmap_cons, apply_items_cons, IH. cbn. by rewrite <- app_assoc.
Qed.

Lemma apply_deleted l e :
  apply_items ((fun p => ItemDeleted p.1 p.2) <$> l) e = set_files (compact_pointers_ e) (foldl (fun s p => set_insert p s) (deleted_files_ e) l) (new_files_ e) e.
Proof. revert e. induction l as [|[level k] l IH]; intros e; [by destruct e|]. rewrite fmap_cons, apply_items_cons. by rewrite IH. Qed.

Lemma apply_new l e :
  apply_items ((fun p => ItemNew p.1 (number p.2) (file_size p.2) (smallest p.2) (largest p.2)) <$> l) e =
  set_files (compact_pointers_ e) (deleted_files_ e) (new_files_ e ++ ((fun p => (p.1, new_FileMetaData (number p.2) (file_size p.2) (smallest p.2) (largest p.2))) <$> l)) e.
Proof.
  revert e. induction l as [|[level f] l IH]; intros e; [cbn; rewrite app_nil_r; by destruct e|].
  rewrite fmap_cons, apply_items_cons, IH. cbn. by rewrite <- app_assoc.
Qed.

Lemma apply_items_of e e0 : edit_ok e ->
  apply_items (items_of e) (Clear e0) = set_files (compact_pointers_ e0 ++ compact_pointers_ e) (deleted_files_ e) (new_files_ e) e.
Proof.
  intros [_ Ec El Ep En Es _ Ed Ef]. unfold items_of. rewrite !apply_items_app, apply_new, apply_deleted, apply_pointers.
  assert ((fun p => (p.1, new_FileMetaData (number p.2) (file_size p.2) (smallest p.2) (largest p.2))) <$> new_files_ e = new_files_ e) as ->.
  { rewrite <- (list_fmap_id (new_files_ e)) at 2. apply list_fmap_ext. intros i [level f] Hi.
    rewrite Forall_lookup in Ef. destruct (Ef i _ Hi) as [Hf _]. cbn in *. by rewrite <- Hf. }
  destruct e as [c ln pl nf ls hc hl hp hn hs ptrs del new]. cbn in *.
  destruct hc, hl, hp, hn, hs; cbn; rewrite ?Ec, ?El, ?Ep, ?En, ?Es by done; unfold set_files; cbn; by rewrite Ed.
Qed.

(** Any bytes. *)
Definition reads_item (e e' : VersionEdit) : Prop := exists i, item_ok i /\ e' = item_apply i e.

Lemma GetLevel_shrinks : shrinks GetLevel level_ok.
Proof.
  intros s Hs. destruct (GetVarint32_shrinks s Hs) as (o & s' & E & Hs' & Hl & Ho). unfold GetLevel, bind. rewrite E.
  destruct o as [v|]; [|by exists None, s']. destruct (Ho v eq_refl) as [[Hv _] Hlt].
  destruct (Z.ltb_spec v kNumLevels) as [Hk|Hk]; [|by exists None, s'].
  exists (Some v), s'. split_and!; [done|done|done|]. intros a [= <-]. done.
Qed.

Lemma GetInternalKey_shrinks : shrinks GetInternalKey slice_ok.
Proof. by eapply shrinks_bind_ret; [apply GetLengthPrefixedSlice_shrinks|]. Qed.

Lemma return_false_shrinks {A} (P : A -> Prop) : shrinks return_false P.
Proof. intros s Hs. by exists None, s. Qed.

#[local] Hint Resolve GetLevel_shrinks GetInternalKey_shrinks : coding.

Lemma decode_case_shrinks tag e : shrinks (decode_case tag e) (reads_item e).
Proof.
  unfold decode_case. repeat match goal with |- context [if ?b then _ else _] => destruct b end; [..|apply return_false_shrinks].
  - eapply shrinks_bind_ret; [auto with coding|]. intros s Hs. by exists (ItemComparator s).
  - eapply shrinks_bind_ret; [auto with coding|]. intros v Hv. by exists (ItemLogNumber v).
  - eapply shrinks_bind_ret; [auto with coding|]. intros v Hv. by exists (ItemPrevLogNumber v).
  - eapply shrinks_bind_ret; [auto with coding|]. intros v Hv. by exists (ItemNextFile v).
  - eapply shrinks_bind_ret; [auto with coding|]. intros v Hv. by exists (ItemLastSequence v).
  - eapply shrinks_bind; [auto with coding|]. intros l Hl. eapply shrinks_bind_ret; [auto with coding|]. intros k Hk. by exists (ItemPointer l k).
  - eapply shrinks_bind; [auto with coding|]. intros l Hl. eapply shrinks_bind_ret; [auto with coding|]. intros n Hn. by exists (ItemDeleted l n).
  - eapply shrinks_bind; [auto with coding|]. intros level Hlev. eapply shrinks_bind; [auto with coding|]. intros n Hn.
    eapply shrinks_bind; [auto with coding|]. intros sz Hsz. eapply shrinks_bind; [auto with coding|]. intros s Hs.
    eapply shrinks_bind_ret; [auto with coding|]. intros l Hl. by exists (ItemNew level n sz s l).
Qed.

Definition decoded (e0 : VersionEdit) (r : res (option bytes * bytes * VersionEdit)) : Prop :=
  exists msg input l, r = Ret (msg, input, apply_items l e0) /\ Forall item_ok l.

Lemma decode_loop src e0 : bytes_ok src -> zlength src < 2 ^ 64 -> decoded e0 (while decode_body (src, e0)).
Proof.
  intros Hsrc Hlen. apply (while_ind decode_body (fun st => bytes_ok st.1 /\ exists l, st.2 = apply_items l e0 /\ Forall item_ok l)
    (fun st => zlength st.1) (decoded e0)); [|by split; [|exists []]|cbn; pose proof (zlength_nonneg src); lia].
  intros [input e] [Hi (l & He & Hl)]. cbn [fst snd] in *. subst e. unfold decode_body.
  destruct (GetVarint32_shrinks input Hi) as (o & input' & E & Hi' & Hle & Ho). rewrite E, res_bind_ret.
  destruct o as [tag|]; [|by exists None, input', l]. destruct (Ho tag eq_refl) as [_ Hlt].
  destruct (decode_case_shrinks tag (apply_items l e0) input' Hi') as (o & input2 & E2 & Hi2 & Hle2 & Ho2). rewrite E2, res_bind_ret.
  destruct o as [e|]; [|by exists (Some (case_message tag)), input2, l]. destruct (Ho2 e eq_refl) as [(i & Hok & ->) Hlt2]. cbn [fst snd].
  split; [|pose proof (zlength_nonneg input2); lia]. split; [done|]. exists (l ++ [i]). rewrite apply_items_app. split; [done|]. apply Forall_app_2; [done|by constructor].
Qed.

Lemma DecodeFrom_items e e0 : edit_ok e -> zlength (items_of e) < 2 ^ 64 ->
  DecodeFrom (concat (item_bytes <$> items_of e)) e0 = Ret (Status_OK, set_files (compact_pointers_ e0 ++ compact_pointers_ e) (deleted_files_ e) (new_files_ e) e).
Proof.
  intros He Hl. unfold DecodeFrom. rewrite (runs_while _ _ _ _ (decode_runs (items_of e) (Clear e0) (eo_items e He))) by lia.
  rewrite res_bind_ret. cbn. by rewrite apply_items_of.
Qed.

(** ** Properties *)

(** C25: Decoding an encoded edit, one as the program builds them ([edit_ok]),
    returns OK and gives the edit back, after the compaction pointers that the
    receiving edit had, which [Clear] keeps. *)
Theorem version_edit_roundtrip e e0 : edit_ok e -> zlength (items_of e) < 2 ^ 64 ->
  exists bs, EncodeTo e [] = Ret bs /\
    DecodeFrom bs e0 = Ret (Status_OK, set_files (compact_pointers_ e0 ++ compact_pointers_ e) (deleted_files_ e) (new_files_ e) e).
Proof. intros He Hl. exists (concat (item_bytes <$> items_of e)). split; [by rewrite EncodeTo_items|by apply DecodeFrom_items]. Qed.

(** On any bytes, decoding returns OK or Corruption, without undefined
    behaviour; the edit it leaves has only items whose levels, numbers and keys
    are in range. *)
Theorem version_edit_decode_safe src e0 : bytes_ok src -> zlength src < 2 ^ 64 ->
  exists s l, DecodeFrom src e0 = Ret (s, apply_items l (Clear e0)) /\ Forall item_ok l /\ (s = Status_OK \/ IsCorruption s = true).
Proof.
  intros Hs Hl. destruct (decode_loop src (Clear e0) Hs Hl) as (msg & input & l & E & Hi). unfold DecodeFrom. rewrite E, res_bind_ret.
  eexists _, l. split; [done|]. split; [done|]. destruct msg; [by right|]. destruct (empty_slice input); [by left|by right].
Qed.

(** An empty key is accepted, and the edit cannot be written again. *)
Theorem empty_key_accepted : exists src e, DecodeFrom src new_VersionEdit = Ret (Status_OK, e) /\ EncodeTo e [] = UB.
Proof. exists [5; 0; 0], (SetCompactPointer 0 [] new_VersionEdit). split; reflexivity. Qed.

(** ** At a concrete edit *)
Definition sample_edit : VersionEdit :=
  AddFile 1 6 2000 (str "a" ++ le_bytes 8 257) (str "m" ++ le_bytes 8 513)
    (DeleteFile 1 4 (DeleteFile 0 5 (SetCompactPointer 1 (str "k" ++ le_bytes 8 257)
      (SetLastSequence 300 (SetNextFile 7 (SetLogNumber 3 (SetComparatorName (str "leveldb.BytewiseComparator") new_VersionEdit))))))).

Lemma sample_edit_ok : edit_ok sample_edit.
Proof.
  split; try done.
  - repeat (constructor; [|]); try done; cbn; unfold slice_ok, level_ok, u64_ok; split_and?; try done; by apply bytes_ok_forallb.
  - by repeat constructor.
  - by repeat constructor.
Qed.

Lemma version_edit_roundtrip_witness : exists bs, EncodeTo sample_edit [] = Ret bs /\ DecodeFrom bs new_VersionEdit = Ret (Status_OK, sample_edit).
Proof. apply (version_edit_roundtrip sample_edit new_VersionEdit sample_edit_ok). reflexivity. Defined.

Lemma version_edit_decode_safe_witness : exists s l, DecodeFrom [2; 5; 6; 9] new_VersionEdit = Ret (s, apply_items l (Clear new_VersionEdit)) /\
  Forall item_ok l /\ (s = Status_OK \/ IsCorruption s = true).
Proof. apply version_edit_decode_safe; [by apply bytes_ok_forallb|reflexivity]. Defined.
