(* ===== verification/WriteBatch.v ===== *)
(** * LevelDB: write batches (write_batch.h, write_batch.cc)

    [Iterate] applies to its handler exactly the operations that were put into
    the batch; on bytes that are no batch, a prefix of operations and a
    corruption. *)
From S2P Require Import Prelude WireFormat LdbBase Coding DbFormat.

(** ** The code

    A batch is its serialized form [rep_]: a sequence number, a count and the
    operations.  [Iterate] replays them on a handler. *)

Definition kHeader : Z := 12.

(** [class WriteBatch::Handler]. *)
Class Handler (H : Type) : Type := {
  h_Put : bytes -> bytes -> H -> res H;
  h_Delete : bytes -> H -> res H;
}.

(** Addition of [int]s: overflow is undefined. *)
Definition int_add (a b : Z) : res Z :=
  if (- 2 ^ 31 <=? a + b) && (a + b <? 2 ^ 31) then Ret (a + b) else UB.

(** ** WriteBatchInternal *)
Definition Count (rep : bytes) : res Z :=
  let! n := DecodeFixed32 (zdrop 8 rep) in Ret (s32 n).

Definition SetCount (rep : bytes) (n : Z) : res bytes :=
  if size rep <? 12 then UB
  else Ret (ztake 8 rep ++ EncodeFixed32 (u32 n) ++ zdrop 12 rep).

Definition Sequence (rep : bytes) : res SequenceNumber := DecodeFixed64 rep.

Definition SetSequence (rep : bytes) (seq : SequenceNumber) : res bytes :=
  if size rep <? 8 then UB else Ret (EncodeFixed64 seq ++ zdrop 8 rep).

Definition Contents (rep : bytes) : bytes := rep.
Definition ByteSize (rep : bytes) : Z := size rep.

Definition SetContents (contents : bytes) : res bytes :=
  let! _ := assert_ (kHeader <=? size contents) in Ret contents.

Definition Batch_Append (dst src : bytes) : res bytes :=
  let! c1 := Count dst in
  let! c2 := Count src in
  let! c := int_add c1 c2 in
  let! dst := SetCount dst c in
  let! _ := assert_ (kHeader <=? size src) in
  Ret (dst ++ zdrop kHeader src).

(** ** WriteBatch *)
Definition Batch_Clear : bytes := replicate (Z.to_nat kHeader) 0.

Definition ApproximateSize (rep : bytes) : Z := size rep.

Definition Batch_Put (rep key value : bytes) : res bytes :=
  let! c := Count rep in
  let! c := int_add c 1 in
  let! rep := SetCount rep c in
  let rep := rep ++ [u8 (ValueType_value kTypeValue)] in
  let rep := PutLengthPrefixedSlice rep key in
  Ret (PutLengthPrefixedSlice rep value).

Definition Batch_Delete (rep key : bytes) : res bytes :=
  let! c := Count rep in
  let! c := int_add c 1 in
  let! rep := SetCount rep c in
  let rep := rep ++ [u8 (ValueType_value kTypeDeletion)] in
  Ret (PutLengthPrefixedSlice rep key).

Section iterate.
Context {H : Type} `{Handler H}.

(** One turn of [while (!input.empty())]; leaving it with [inl] is a return,
    with [inr] the end of the loop. *)
Definition iterate_body (st : bytes * Z * H) : res ((bytes * Z * H) + ((Status * H) + (Z * H))) :=
  let '(input, found, handler) := st in
  if empty_slice input then Ret (inr (inr (found, handler)))
  else
    let! found := int_add found 1 in
    let! b := byte_at input 0 in
    let tag := sext 8 b in
    let! input := remove_prefix input 1 in
    if tag =? ValueType_value kTypeValue then
      let! '(o, input) := (key <- GetLengthPrefixedSlice;; value <- GetLengthPrefixedSlice;; ret (key, value)) input in
      match o with
      | Some (key, value) =>
          let! handler := h_Put key value handler in
          Ret (inl (input, found, handler))
      | None => Ret (inr (inl (Corruption (str "bad WriteBatch Put"), handler)))
      end
    else if tag =? ValueType_value kTypeDeletion then
      let! '(o, input) := GetLengthPrefixedSlice input in
      match o with
      | Some key =>
          let! handler := h_Delete key handler in
          Ret (inl (input, found, handler))
      | None => Ret (inr (inl (Corruption (str "bad WriteBatch Delete"), handler)))
      end
    else Ret (inr (inl (Corruption (str "unknown WriteBatch tag"), handler))).

Definition Iterate (rep : bytes) (handler : H) : res (Status * H) :=
  if size rep <? kHeader then Ret (Corruption (str "malformed WriteBatch (too small)"), handler)
  else
    let! input := remove_prefix rep kHeader in
    let! r := while iterate_body (input, 0, handler) in
    match r with
    | inl result => Ret result
    | inr (found, handler) =>
        let! c := Count rep in
        Ret (if negb (found =? c) then Corruption (str "WriteBatch has wrong count") else Status_OK, handler)
    end.
End iterate.

(** ** The operations of a batch *)
Inductive op : Type :=
| OpPut (key value : bytes)
| OpDelete (key : bytes).

#[export] Instance op_eq_dec : EqDecision op.
Proof. solve_decision. Defined.

Definition apply_op {H} `{Handler H} (o : op) (h : H) : res H :=
  match o with OpPut key value => h_Put key value h | OpDelete key => h_Delete key h end.

Fixpoint apply_ops {H} `{Handler H} (ops : list op) (h : H) : res H :=
  match ops with [] => Ret h | o :: ops => let! h := apply_op o h in apply_ops ops h end.

(** Building a batch. *)
Definition batch_op (rep : bytes) (o : op) : res bytes :=
  match o with OpPut key value => Batch_Put rep key value | OpDelete key => Batch_Delete rep key end.

Fixpoint batch_ops (rep : bytes) (ops : list op) : res bytes :=
  match ops with [] => Ret rep | o :: ops => let! rep := batch_op rep o in batch_ops rep ops end.

Definition string_ok (s : bytes) : Prop := bytes_ok s /\ zlength s < 2 ^ 32.

Definition op_ok (o : op) : Prop :=
  match o with OpPut key value => string_ok key /\ string_ok value | OpDelete key => string_ok key end.

(** ** Serialization *)
Definition slice_bytes (s : bytes) : bytes := varint_bytes (zlength s) ++ s.

Definition op_bytes (o : op) : bytes :=
  match o with
  | OpPut key value => [1] ++ slice_bytes key ++ slice_bytes value
  | OpDelete key => [0] ++ slice_bytes key
  end.

Definition ops_bytes (ops : list op) : bytes := mjoin (op_bytes <$> ops).

(** [rep] holds the sequence number [seq] and the operations [ops]. *)
Definition holds (rep : bytes) (seq : Z) (ops : list op) : Prop :=
  rep = EncodeFixed64 seq ++ EncodeFixed32 (zlength ops) ++ ops_bytes ops.

Lemma PutLengthPrefixedSlice_ok dst s : string_ok s -> PutLengthPrefixedSlice dst s = dst ++ slice_bytes s.
Proof.
  intros [_ Hl]. pose proof (zlength_nonneg s). unfold PutLengthPrefixedSlice, size.
  rewrite wrap_small, PutVarint32_spec by lia. by rewrite <- app_assoc.
Qed.

Lemma slice_bytes_ok s : string_ok s -> bytes_ok (slice_bytes s).
Proof. intros [Hs _]. apply bytes_ok_app. split; [apply varint_bytes_ok, zlength_nonneg|done]. Qed.

Lemma slice_bytes_gets s : string_ok s -> gets GetLengthPrefixedSlice (slice_bytes s) s.
Proof. intros [Hs Hl]. by apply GetLengthPrefixedSlice_gets. Qed.

Lemma op_bytes_ok o : op_ok o -> bytes_ok (op_bytes o).
Proof.
  destruct o as [key value|key]; cbn [op_ok op_bytes]; intros Ho.
  - constructor; [by split|]. apply bytes_ok_app. split; apply slice_bytes_ok; apply Ho.
  - constructor; [by split|]. by apply slice_bytes_ok.
Qed.

Lemma ops_bytes_ok ops : Forall op_ok ops -> bytes_ok (ops_bytes ops).
Proof.
  induction 1 as [|o ops Ho _ IH]; [constructor|]. cbn. apply bytes_ok_app. split; [by apply op_bytes_ok|done].
Qed.

Section rep.
Context (seq : Z) (ops : list op) (Hn : zlength ops < 2 ^ 31).

Lemma holds_size rep : holds rep seq ops -> zlength rep = 12 + zlength (ops_bytes ops).
Proof using. intros ->. rewrite !zlength_app, zlength_fixed64, zlength_fixed32. lia. Qed.

Lemma holds_Count rep : holds rep seq ops -> Count rep = Ret (zlength ops).
Proof using Hn.
  intros ->. unfold Count. rewrite <- (zlength_fixed64 seq) at 1. rewrite zdrop_app.
  pose proof (zlength_nonneg ops). rewrite DecodeFixed32_Encode, res_bind_ret by lia.
  rewrite sext_small; [done|lia|]. change (32 - 1) with 31. lia.
Qed.

Lemma holds_SetCount rep (ops' : list op) :
  holds rep seq ops -> zlength ops' < 2 ^ 31 ->
  SetCount rep (zlength ops') = Ret (EncodeFixed64 seq ++ EncodeFixed32 (zlength ops') ++ ops_bytes ops).
Proof using.
  intros Hrep Hn'. pose proof (holds_size rep Hrep) as Hs. pose proof (zlength_nonneg (ops_bytes ops)).
  pose proof (zlength_nonneg ops'). unfold SetCount, size. rewrite (proj2 (Z.ltb_ge _ _)) by lia.
  assert (ztake 8 rep = EncodeFixed64 seq) as ->.
  { rewrite Hrep, <- (zlength_fixed64 seq). apply ztake_app. }
  assert (zdrop 12 rep = ops_bytes ops) as ->.
  { rewrite Hrep, app_assoc. replace 12 with (zlength (EncodeFixed64 seq ++ EncodeFixed32 (zlength ops)))
      by (by rewrite zlength_app, zlength_fixed64, zlength_fixed32).
    apply zdrop_app. }
  by rewrite wrap_small by lia.
Qed.
End rep.

Lemma ops_bytes_app ops ops' : ops_bytes (ops ++ ops') = ops_bytes ops ++ ops_bytes ops'.
Proof.
  induction ops as [|x ops IH]; [done|].
  change (op_bytes x ++ ops_bytes (ops ++ ops') = (op_bytes x ++ ops_bytes ops) ++ ops_bytes ops').
  by rewrite IH, app_assoc.
Qed.

Lemma ops_bytes_one o : ops_bytes [o] = op_bytes o.
Proof. cbn. apply app_nil_r. Qed.

Lemma Batch_Clear_holds : holds Batch_Clear 0 [].
Proof. vm_compute. reflexivity. Qed.

Lemma int_add_ok a b : - 2 ^ 31 <= a + b < 2 ^ 31 -> int_add a b = Ret (a + b).
Proof. intros. unfold int_add. by rewrite (proj2 (Z.leb_le _ _)), (proj2 (Z.ltb_lt _ _)) by lia. Qed.

Lemma batch_op_holds rep seq ops o :
  holds rep seq ops -> op_ok o -> zlength ops + 1 < 2 ^ 31 ->
  exists rep', batch_op rep o = Ret rep' /\ holds rep' seq (ops ++ [o]).
Proof.
  intros Hrep Ho Hn. pose proof (zlength_nonneg ops).
  assert (zlength (ops ++ [o]) = zlength ops + 1) as Hlen by by rewrite zlength_app.
  assert (exists rep1, (let! c := Count rep in let! c := int_add c 1 in SetCount rep c) = Ret rep1 /\
    forall tl, tl = op_bytes o -> holds (rep1 ++ tl) seq (ops ++ [o])) as (rep1 & E & Hh).
  { eexists. rewrite (holds_Count seq ops) by (done || lia). rewrite res_bind_ret, int_add_ok, res_bind_ret by lia.
    rewrite <- Hlen. split; [apply (holds_SetCount seq ops); [done|lia]|].
    intros tl ->. unfold holds. rewrite ops_bytes_app, ops_bytes_one. by rewrite <- !app_assoc. }
  destruct o as [key value|key]; cbn [batch_op op_ok] in *.
  - destruct Ho as [Hk Hv]. unfold Batch_Put. revert E.
    destruct (Count rep) as [c| |]; cbn [res_bind]; try done.
    destruct (int_add c 1) as [c'| |]; cbn [res_bind]; try done. intros ->. cbn [res_bind].
    rewrite !PutLengthPrefixedSlice_ok by done. eexists. split; [done|]. rewrite <- !app_assoc. by apply Hh.
  - unfold Batch_Delete. revert E.
    destruct (Count rep) as [c| |]; cbn [res_bind]; try done.
    destruct (int_add c 1) as [c'| |]; cbn [res_bind]; try done. intros ->. cbn [res_bind].
    rewrite !PutLengthPrefixedSlice_ok by done. eexists. split; [done|]. rewrite <- !app_assoc. by apply Hh.
Qed.

Lemma batch_ops_holds rep seq ops ops' :
  holds rep seq ops -> Forall op_ok ops' -> zlength ops + zlength ops' < 2 ^ 31 ->
  exists rep', batch_ops rep ops' = Ret rep' /\ holds rep' seq (ops ++ ops').
Proof.
  intros Hrep Hops. revert rep ops Hrep. induction Hops as [|o ops' Ho _ IH]; intros rep ops Hrep Hn.
  - exists rep. by rewrite app_nil_r.
  - rewrite zlength_cons in Hn. pose proof (zlength_nonneg ops').
    destruct (batch_op_holds rep seq ops o Hrep Ho) as (rep1 & E1 & H1); [lia|].
    destruct (IH rep1 _ H1) as (rep2 & E2 & H2); [rewrite zlength_app; change (zlength [o]) with 1; lia|].
    exists rep2. cbn [batch_ops]. rewrite E1, res_bind_ret. split; [done|].
    replace (ops ++ o :: ops') with ((ops ++ [o]) ++ ops') by (by rewrite <- app_assoc). done.
Qed.

Lemma SetSequence_holds rep seq ops seq' :
  holds rep seq ops -> exists rep', SetSequence rep seq' = Ret rep' /\ holds rep' seq' ops.
Proof.
  intros Hrep. pose proof (holds_size _ _ _ Hrep) as Hs. pose proof (zlength_nonneg (ops_bytes ops)).
  unfold SetSequence, size. rewrite (proj2 (Z.ltb_ge _ _)) by lia. eexists. split; [done|]. rewrite Hrep.
  rewrite <- (zlength_fixed64 seq) at 1. by rewrite zdrop_app.
Qed.

Lemma Sequence_holds rep seq ops : holds rep seq ops -> 0 <= seq < 2 ^ 64 -> Sequence rep = Ret seq.
Proof. intros -> Hs. by apply DecodeFixed64_Encode. Qed.

Lemma Batch_Append_holds dst seq ops src seq' ops' :
  holds dst seq ops -> holds src seq' ops' -> zlength ops + zlength ops' < 2 ^ 31 ->
  exists rep, Batch_Append dst src = Ret rep /\ holds rep seq (ops ++ ops').
Proof.
  intros Hd Hs Hn. pose proof (zlength_nonneg ops). pose proof (zlength_nonneg ops').
  unfold Batch_Append. rewrite (holds_Count seq ops) by (done || lia).
  rewrite res_bind_ret, (holds_Count seq' ops'), res_bind_ret by (done || lia).
  rewrite int_add_ok, res_bind_ret by lia. rewrite <- zlength_app.
  rewrite (holds_SetCount seq ops), res_bind_ret by (done || rewrite zlength_app; lia).
  pose proof (holds_size _ _ _ Hs) as Hsize. pose proof (zlength_nonneg (ops_bytes ops')).
  rewrite assert_true, res_bind_ret by (apply Z.leb_le; unfold size, kHeader; lia).
  eexists. split; [done|]. unfold holds. rewrite ops_bytes_app, <- !app_assoc. do 3 f_equal.
  rewrite Hs, app_assoc. replace kHeader with (zlength (EncodeFixed64 seq' ++ EncodeFixed32 (zlength ops')))
      by (by rewrite zlength_app, zlength_fixed64, zlength_fixed32).
  apply zdrop_app.
Qed.

(** ** Replaying write batches *)

Section iterate.
Context {H : Type} `{Handler H}.

Lemma byte_at_0 b l : byte_at (b :: l) 0 = Ret b.
Proof. done. Qed.

Lemma remove_prefix_1 b l : remove_prefix (b :: l) 1 = Ret l.
Proof. apply (remove_prefix_app [b] l). Qed.

Lemma iterate_body_op o rest found h :
  op_ok o -> bytes_ok rest -> 0 <= found -> found + 1 < 2 ^ 31 ->
  iterate_body (op_bytes o ++ rest, found, h) =
    let! h' := apply_op o h in Ret (inl (rest, found + 1, h')).
Proof.
  intros Ho Hr Hf Hn. unfold iterate_body. destruct o as [key value|key]; cbn [op_bytes op_ok] in *.
  - destruct Ho as [Hk Hv]. rewrite <- !app_assoc. cbn [app]. rewrite empty_slice_cons, int_add_ok, res_bind_ret by lia.
    rewrite byte_at_0, res_bind_ret, remove_prefix_1, res_bind_ret.
    change (sext 8 1 =? ValueType_value kTypeValue) with true. cbn match.
    assert (bytes_ok (slice_bytes value ++ rest)) by (apply bytes_ok_app; split; [by apply slice_bytes_ok|done]).
    rewrite (bind_some _ _ _ key (slice_bytes value ++ rest)) by by apply slice_bytes_gets.
    rewrite (bind_some _ _ _ value rest) by by apply slice_bytes_gets. cbn [ret res_bind]. done.
  - cbn [app]. rewrite empty_slice_cons, int_add_ok, res_bind_ret by lia.
    rewrite byte_at_0, res_bind_ret, remove_prefix_1, res_bind_ret.
    change (sext 8 0 =? ValueType_value kTypeValue) with false.
    change (sext 8 0 =? ValueType_value kTypeDeletion) with true. cbn match.
    rewrite slice_bytes_gets by done. cbn [res_bind]. done.
Qed.

Lemma iterate_ops ops found h :
  Forall op_ok ops -> 0 <= found -> found + zlength ops < 2 ^ 31 ->
  loop_nat (S (length ops)) iterate_body (ops_bytes ops, found, h) =
    loop_end (let! h' := apply_ops ops h in Ret (inr (found + zlength ops, h'))).
Proof.
  intros Hops. revert found h. induction Hops as [|o ops Ho Hops IH]; intros found h Hf Hn.
  - cbn. by rewrite Z.add_0_r.
  - rewrite zlength_cons in *. pose proof (zlength_nonneg ops).
    change (ops_bytes (o :: ops)) with (op_bytes o ++ ops_bytes ops).
    change (length (o :: ops)) with (S (length ops)). remember (S (length ops)) as n.
    cbn [loop_nat apply_ops]. rewrite iterate_body_op by (done || lia || by apply ops_bytes_ok).
    destruct (apply_op o h) as [h'| |]; cbn [res_bind]; try done. subst n.
    rewrite IH by lia. by replace (found + 1 + zlength ops) with (found + (1 + zlength ops)) by lia.
Qed.

Lemma while_loop_end {X R} (body : X -> res (X + R)) x k r :
  loop_nat k body x = loop_end r -> Z.of_nat k <= 2 ^ 64 -> while body x = r.
Proof. apply while_loop_nat. Qed.

Lemma Iterate_holds rep seq ops h :
  holds rep seq ops -> Forall op_ok ops -> zlength ops < 2 ^ 31 ->
  Iterate rep h = let! h' := apply_ops ops h in Ret (Status_OK, h').
Proof.
  intros Hrep Hops Hn. pose proof (holds_size _ _ _ Hrep) as Hs. pose proof (zlength_nonneg (ops_bytes ops)).
  unfold Iterate, size. rewrite (proj2 (Z.ltb_ge _ _)) by (unfold kHeader; lia).
  assert (remove_prefix rep kHeader = Ret (ops_bytes ops)) as ->.
  { rewrite Hrep, app_assoc. replace kHeader with (zlength (EncodeFixed64 seq ++ EncodeFixed32 (zlength ops)))
      by (by rewrite zlength_app, zlength_fixed64, zlength_fixed32).
    apply remove_prefix_app. }
  rewrite res_bind_ret.
  rewrite (while_loop_end _ _ _ _ (iterate_ops ops 0 h Hops ltac:(lia) ltac:(lia))) by (unfold zlength in Hn; lia).
  destruct (apply_ops ops h) as [h'| |]; cbn [res_bind]; try done.
  rewrite (holds_Count seq ops), res_bind_ret, Z.add_0_l, Z.eqb_refl by done. done.
Qed.

(** ** Any bytes *)

(** What one turn of the loop does on any input. *)
Lemma iterate_body_any input found h :
  bytes_ok input -> 0 <= found -> found + 1 < 2 ^ 31 ->
  (input = [] /\ iterate_body (input, found, h) = Ret (inr (inr (found, h)))) \/
  (exists s, ok s = false /\ iterate_body (input, found, h) = Ret (inr (inl (s, h)))) \/
  (exists o rest, op_ok o /\ bytes_ok rest /\ zlength rest < zlength input /\
     iterate_body (input, found, h) = let! h' := apply_op o h in Ret (inl (rest, found + 1, h'))).
Proof.
  intros Hb Hf Hn. unfold iterate_body. destruct input as [|b input]; [by left|]. right.
  apply Forall_cons_1 in Hb as [_ Hb].
  rewrite empty_slice_cons, int_add_ok, res_bind_ret, byte_at_0, res_bind_ret, remove_prefix_1, res_bind_ret by lia.
  destruct (sext 8 b =? ValueType_value kTypeValue).
  - assert (shrinks (key <- GetLengthPrefixedSlice;; value <- GetLengthPrefixedSlice;; ret (key, value))
      (fun kv => string_ok kv.1 /\ string_ok kv.2)) as Hget.
    { eapply shrinks_bind; [apply GetLengthPrefixedSlice_shrinks|]. intros key Hk.
      eapply shrinks_bind_ret; [apply GetLengthPrefixedSlice_shrinks|]. intros value Hv. by split. }
    destruct (Hget input Hb) as (o & s' & -> & Hs' & Hl & Ho). cbn [res_bind].
    destruct o as [[key value]|]; [|by left; eexists; split; [|reflexivity]].
    right. destruct (Ho _ eq_refl) as [Hkv Hlt]. exists (OpPut key value), s'.
    split; [exact Hkv|]. split; [done|]. split; [rewrite zlength_cons; lia|done].
  - destruct (sext 8 b =? ValueType_value kTypeDeletion).
    + destruct (GetLengthPrefixedSlice_shrinks input Hb) as (o & s' & -> & Hs' & Hl & Ho). cbn [res_bind].
      destruct o as [key|]; [|by left; eexists; split; [|reflexivity]].
      right. destruct (Ho _ eq_refl) as [Hk Hlt]. exists (OpDelete key), s'.
      split; [exact Hk|]. split; [done|]. split; [rewrite zlength_cons; lia|done].
    + left. by eexists; split; [|reflexivity].
Qed.

Lemma iterate_any n input found h :
  bytes_ok input -> 0 <= found -> zlength input <= Z.of_nat n -> found + zlength input + 1 < 2 ^ 31 ->
  exists ops (e : Status + Z) k,
    Z.of_nat k <= Z.of_nat n + 1 /\ Forall op_ok ops /\
    match e with inl s => ok s = false | inr f => f = found + zlength ops end /\
    loop_nat k iterate_body (input, found, h) =
      loop_end (let! h' := apply_ops ops h in
                Ret (match e with inl s => inl (s, h') | inr f => inr (f, h') end)).
Proof.
  revert input found h. induction n as [|n IH]; intros input found h Hb Hf Hl Hn; pose proof (zlength_nonneg input).
  - assert (input = []) as -> by (destruct input; [done|rewrite zlength_cons in Hl; pose proof (zlength_nonneg input); lia]).
    exists [], (inr found), 1%nat. split; [lia|]. split; [constructor|]. split; [change (zlength []) with 0; lia|done].
  - destruct (iterate_body_any input found h Hb Hf) as [[-> E]|[(s & Hs & E)|(o & rest & Ho & Hrest & Hlt & E)]]; [lia|..].
    + exists [], (inr found), 1%nat. split; [lia|]. split; [constructor|]. split; [change (zlength []) with 0; lia|].
      cbn [loop_nat]. by rewrite E.
    + exists [], (inl s), 1%nat. split; [lia|]. split; [constructor|]. split; [done|]. cbn [loop_nat]. by rewrite E.
    + destruct (apply_op o h) as [h'| |] eqn:Eo; cbn [res_bind] in E.
      * destruct (IH rest (found + 1) h') as (ops & e & k & Hk & Hops & He & El); [done|lia|lia|lia|].
        exists (o :: ops), e, (S k). split; [lia|]. split; [by constructor|]. split.
        { destruct e; [done|]. rewrite zlength_cons. lia. }
        cbn [loop_nat apply_ops]. by rewrite E, Eo, El.
      * exists [o], (inr (found + 1)), 1%nat. split; [lia|]. split; [by constructor|]. split; [done|].
        cbn [loop_nat apply_ops]. by rewrite E, Eo.
      * exists [o], (inr (found + 1)), 1%nat. split; [lia|]. split; [by constructor|]. split; [done|].
        cbn [loop_nat apply_ops]. by rewrite E, Eo.
Qed.

(** On any bytes, for instance a record of a log, [Iterate] does what a
    sequence of well-formed operations does to the handler and then returns;
    the status is OK only if their number is the count of the batch. *)
Theorem Iterate_any rep h :
  bytes_ok rep -> zlength rep < 2 ^ 31 ->
  exists ops s, Forall op_ok ops /\
    Iterate rep h = (let! h' := apply_ops ops h in Ret (s, h')) /\
    (ok s = true -> Count rep = Ret (zlength ops)).
Proof.
  intros Hb Hl. unfold Iterate, size. destruct (Z.ltb_spec (zlength rep) kHeader) as [|Hge].
  { exists [], (Corruption (str "malformed WriteBatch (too small)")). by split; [constructor|]. }
  unfold kHeader in *. unfold remove_prefix, size. rewrite assert_true, !res_bind_ret by by apply Z.leb_le.
  assert (bytes_ok (zdrop 12 rep)) as Hb' by by apply Forall_drop.
  assert (zlength (zdrop 12 rep) = zlength rep - 12) as Hz by (apply zlength_zdrop; lia).
  destruct (iterate_any (Z.to_nat (zlength rep)) (zdrop 12 rep) 0 h Hb')
    as (ops & e & k & Hk & Hops & He & El); [lia|lia|lia|].
  rewrite (while_loop_end _ _ _ _ El) by lia.
  assert (exists c, Count rep = Ret c) as [c Ec].
  { unfold Count, DecodeFixed32, size. rewrite zlength_zdrop by lia. rewrite (proj2 (Z.ltb_ge _ _)) by lia.
    unfold kLittleEndian. by eexists. }
  destruct e as [s|f].
  - exists ops, s. split; [done|]. split; [by destruct (apply_ops ops h)|]. by rewrite He.
  - exists ops, (if negb (f =? c) then Corruption (str "WriteBatch has wrong count") else Status_OK).
    split; [done|]. rewrite Ec. split.
    + by destruct (apply_ops ops h).
    + rewrite Z.add_0_l in He. subst f. destruct (Z.eqb_spec (zlength ops) c) as [->|]; done.
Qed.
End iterate.

(** ** The round trip *)

(** A handler that records what it is told. *)
#[export] Instance recorder : Handler (list op) := {|
  h_Put key value l := Ret (l ++ [OpPut key value]);
  h_Delete key l := Ret (l ++ [OpDelete key]);
|}.

(** Operations put into two cleared batches, of which the second is appended to
    the first and given a sequence number, are replayed in order, with status
    OK, on every handler. *)
Theorem write_batch_replay {H} `{Handler H} (ops1 ops2 : list op) (seq : Z) (h : H) :
  Forall op_ok (ops1 ++ ops2) -> zlength (ops1 ++ ops2) < 2 ^ 31 -> 0 <= seq < 2 ^ 64 ->
  exists rep1 rep2 rep3 rep,
    batch_ops Batch_Clear ops1 = Ret rep1 /\ batch_ops Batch_Clear ops2 = Ret rep2 /\
    Batch_Append rep1 rep2 = Ret rep3 /\ SetSequence rep3 seq = Ret rep /\
    Count rep = Ret (zlength (ops1 ++ ops2)) /\ Sequence rep = Ret seq /\
    Iterate rep h = let! h' := apply_ops (ops1 ++ ops2) h in Ret (Status_OK, h').
Proof.
  intros Hops Hn Hseq. pose proof Hops as Hops'. apply Forall_app in Hops' as [H1 H2].
  pose proof (zlength_app ops1 ops2) as Hl. pose proof (zlength_nonneg ops1). pose proof (zlength_nonneg ops2).
  destruct (batch_ops_holds Batch_Clear 0 [] ops1 Batch_Clear_holds H1) as (rep1 & E1 & Hh1);
    [change (zlength []) with 0; lia|].
  destruct (batch_ops_holds Batch_Clear 0 [] ops2 Batch_Clear_holds H2) as (rep2 & E2 & Hh2);
    [change (zlength []) with 0; lia|].
  cbn [app] in Hh1, Hh2.
  destruct (Batch_Append_holds _ _ _ _ _ _ Hh1 Hh2) as (rep3 & E3 & Hh3); [lia|].
  destruct (SetSequence_holds _ _ _ seq Hh3) as (rep & E4 & Hh4).
  exists rep1, rep2, rep3, rep. do 4 (split; [done|]).
  split; [by apply (holds_Count seq)|]. split; [by eapply Sequence_holds|]. by apply (Iterate_holds rep seq).
Qed.

Lemma write_batch_replay_witness :
  exists rep1 rep2 rep3 rep,
    batch_ops Batch_Clear [OpPut [1] [2; 3]] = Ret rep1 /\ batch_ops Batch_Clear [OpDelete [1]; OpPut [] []] = Ret rep2 /\
    Batch_Append rep1 rep2 = Ret rep3 /\ SetSequence rep3 100 = Ret rep /\
    Iterate rep [] = Ret (Status_OK, [OpPut [1] [2; 3]; OpDelete [1]; OpPut [] []]).
Proof.
  destruct (write_batch_replay [OpPut [1] [2; 3]] [OpDelete [1]; OpPut [] []] 100 ([] : list op))
    as (r1 & r2 & r3 & r & E1 & E2 & E3 & E4 & _ & _ & E).
  - repeat (constructor; [repeat split; first [reflexivity|by apply bytes_ok_forallb]|]). constructor.
  - reflexivity.
  - split; [discriminate|reflexivity].
  - exists r1, r2, r3, r. split; [exact E1|]. split; [exact E2|]. split; [exact E3|]. split; [exact E4|]. exact E.
Defined.

Lemma Iterate_any_witness :
  exists ops s, Forall op_ok ops /\
    Iterate [0; 0; 0; 0; 0; 0; 0; 0; 2; 0; 0; 0; 0; 1; 7; 1; 9] ([] : list op) =
      (let! h' := apply_ops ops [] in Ret (s, h')).
Proof.
  destruct (Iterate_any [0; 0; 0; 0; 0; 0; 0; 0; 2; 0; 0; 0; 0; 1; 7; 1; 9] ([] : list op)) as (ops & s & Hops & E & _).
  - by apply bytes_ok_forallb.
  - reflexivity.
  - exists ops, s. split; [exact Hops|exact E].
Defined.
