(* ===== verification/Arena.v ===== *)
(** * LevelDB: the arena (arena.h, arena.cc)

    The arena hands out addresses inside blocks that [new char[]] returns.
    What [new char[]] returns is the class [NewArray]; running out of memory
    is not modelled. *)
From S2P Require Import Prelude LdbBase.

(** [new char[n]] when the blocks [bs] (address and size) are live. *)
Class NewArray : Type := new_array : list (Z * Z) -> Z -> Z.

Definition disjoint_blocks (a b : Z * Z) : Prop := a.1 + a.2 <= b.1 \/ b.1 + b.2 <= a.1.

(** The contract of the allocator of the platform. *)
Class NewArrayOk `{NewArray} : Prop := {
  new_array_pos : forall bs n, 0 < new_array bs n;
  new_array_aligned : forall bs n, new_array bs n mod 16 = 0;
  new_array_disjoint : forall bs n b, 0 < n -> b ∈ bs -> disjoint_blocks (new_array bs n, n) b;
}.

Definition Arena_kBlockSize : Z := 4096.

Record Arena : Type := MkArena {
  alloc_ptr_ : Z;
  alloc_bytes_remaining_ : Z;
  blocks_ : list (Z * Z);
  memory_usage_ : Z;
}.

(** The constructor; the null pointer is 0. *)
Definition new_Arena : Arena := MkArena 0 0 [] 0.

Definition MemoryUsage (a : Arena) : Z := memory_usage_ a.

Section arena.
Context `{NewArray}.

Definition AllocateNewBlock (block_bytes : Z) (a : Arena) : Z * Arena :=
  let result := new_array (blocks_ a) block_bytes in
  (result, MkArena (alloc_ptr_ a) (alloc_bytes_remaining_ a) (blocks_ a ++ [(result, block_bytes)])
             (u64 (memory_usage_ a + (block_bytes + 8)))).

Definition AllocateFallback (n : Z) (a : Arena) : Z * Arena :=
  if Arena_kBlockSize / 4 <? n then AllocateNewBlock n a
  else
    let '(ptr, a) := AllocateNewBlock Arena_kBlockSize a in
    (ptr, MkArena (ptr + n) (u64 (Arena_kBlockSize - n)) (blocks_ a) (memory_usage_ a)).

Definition Allocate (n : Z) (a : Arena) : res (Z * Arena) :=
  let! _ := assert_ (0 <? n) in
  if n <=? alloc_bytes_remaining_ a then
    Ret (alloc_ptr_ a, MkArena (alloc_ptr_ a + n) (alloc_bytes_remaining_ a - n) (blocks_ a) (memory_usage_ a))
  else Ret (AllocateFallback n a).

Definition AllocateAligned (n : Z) (a : Arena) : res (Z * Arena) :=
  let align := 8 in
  let current_mod := alloc_ptr_ a .& (align - 1) in
  let slop := if current_mod =? 0 then 0 else align - current_mod in
  let needed := u64 (n + slop) in
  let '(result, a) :=
    if needed <=? alloc_bytes_remaining_ a then
      (alloc_ptr_ a + slop,
       MkArena (alloc_ptr_ a + needed) (alloc_bytes_remaining_ a - needed) (blocks_ a) (memory_usage_ a))
    else AllocateFallback n a in
  let! _ := assert_ (result .& (align - 1) =? 0) in
  Ret (result, a).
End arena.

(** ** Facts *)
Lemma land_7 z : z .& (8 - 1) = z mod 8.
Proof. change (8 - 1) with (Z.ones 3). by rewrite Z.land_ones. Qed.

Section facts.
Context `{NewArrayOk}.
Implicit Types (a : Arena).

Lemma AllocateFallback_aligned n a : (AllocateFallback n a).1 mod 8 = 0.
Proof.
  assert (forall bs n, new_array bs n mod 8 = 0) as Hal.
  { intros bs m. pose proof (new_array_aligned bs m). rewrite (Z.div_mod (new_array bs m) 16) by lia.
    replace (16 * (new_array bs m / 16) + new_array bs m mod 16) with (new_array bs m / 16 * 2 * 8) by lia.
    by apply Z.mod_mul. }
  unfold AllocateFallback. destruct (_ <? n); apply Hal.
Qed.

Lemma Allocate_ok n a : 0 < n -> exists p a', Allocate n a = Ret (p, a').
Proof.
  intros Hn. unfold Allocate. rewrite assert_true, res_bind_ret by by apply Z.ltb_lt.
  destruct (_ <=? _); [by eexists _, _|]. destruct (AllocateFallback n a) as [q a']. by exists q, a'.
Qed.

(** The assertion of [AllocateAligned] holds in every state. *)
Lemma AllocateAligned_ok n a : exists p a', AllocateAligned n a = Ret (p, a') /\ p mod 8 = 0.
Proof.
  unfold AllocateAligned. rewrite land_7. set (slop := if _ =? 0 then 0 else _).
  assert ((alloc_ptr_ a + slop) mod 8 = 0) as Hs.
  { unfold slop. destruct (Z.eqb_spec (alloc_ptr_ a mod 8) 0) as [E|E]; [by rewrite Z.add_0_r|].
    rewrite (Z.div_mod (alloc_ptr_ a) 8) at 1 by lia.
    replace (8 * (alloc_ptr_ a / 8) + alloc_ptr_ a mod 8 + (8 - alloc_ptr_ a mod 8)) with ((alloc_ptr_ a / 8 + 1) * 8) by lia.
    by apply Z.mod_mul. }
  destruct (_ <=? _).
  - rewrite land_7, Hs. by eexists _, _.
  - pose proof (AllocateFallback_aligned n a) as Hf. destruct (AllocateFallback n a) as [p a']. cbn in Hf.
    rewrite land_7, Hf. by eexists _, _.
Qed.

(** ** What has been handed out *)

(** The ranges [rs] are live parts of the blocks of [a], apart from each other
    and from the bytes that remain. *)
Definition inside (r b : Z * Z) : Prop := b.1 <= r.1 /\ r.1 + r.2 <= b.1 + b.2.

Record arena_inv a (rs : list (Z * Z)) : Prop := {
  ai_remaining : 0 <= alloc_bytes_remaining_ a < 2 ^ 63;
  ai_blocks : ForallOrdPairs disjoint_blocks (blocks_ a);
  ai_sizes : Forall (fun b => 0 < b.2) (blocks_ a);
  ai_inside : Forall (fun r => 0 < r.2 /\ Exists (inside r) (blocks_ a)) rs;
  ai_disjoint : ForallOrdPairs disjoint_blocks rs;
  ai_free : alloc_bytes_remaining_ a = 0 \/
    (Exists (inside (alloc_ptr_ a, alloc_bytes_remaining_ a)) (blocks_ a) /\
     Forall (disjoint_blocks (alloc_ptr_ a, alloc_bytes_remaining_ a)) rs);
}.

Lemma disjoint_inside r b c : inside r b -> disjoint_blocks c b -> disjoint_blocks c r.
Proof. unfold inside, disjoint_blocks. lia. Qed.

Lemma disjoint_sym b c : disjoint_blocks b c -> disjoint_blocks c b.
Proof. unfold disjoint_blocks. lia. Qed.

(** A new block is apart from everything. *)
Lemma new_block_disjoint bs n rs :
  0 < n -> Forall (fun r => 0 < r.2 /\ Exists (inside r) bs) rs -> Forall (disjoint_blocks (new_array bs n, n)) rs.
Proof.
  intros Hn Hr. eapply List.Forall_impl; [|exact Hr]. intros r [_ He]. apply List.Exists_exists in He as (b & Hb & Hi).
  eapply disjoint_inside; [exact Hi|]. apply new_array_disjoint; [done|]. by apply list_elem_of_In.
Qed.

Lemma blocks_snoc bs b : ForallOrdPairs disjoint_blocks bs -> Forall (disjoint_blocks b) bs -> ForallOrdPairs disjoint_blocks (bs ++ [b]).
Proof.
  induction bs as [|c bs IH]; intros Hbs Hb; cbn; [by repeat constructor|].
  inversion Hbs as [|? ? Hc Hbs']; subst. apply Forall_cons_1 in Hb as [Hbc Hb]. constructor; [|by apply IH].
  apply Forall_app. split; [done|]. constructor; [by apply disjoint_sym|constructor].
Qed.

Lemma disjoint_rev bs : ForallOrdPairs disjoint_blocks bs -> ForallOrdPairs disjoint_blocks (rev bs).
Proof.
  induction 1 as [|b bs Hb _ IH]; [constructor|]. cbn. apply blocks_snoc; [done|]. by apply List.Forall_rev.
Qed.

Lemma inside_snoc (rs : list (Z * Z)) bs b :
  Forall (fun r => 0 < r.2 /\ Exists (inside r) bs) rs -> Forall (fun r => 0 < r.2 /\ Exists (inside r) (bs ++ [b])) rs.
Proof. intros Hr. eapply List.Forall_impl; [|exact Hr]. intros r [Hp He]. split; [done|]. apply Exists_app. by left. Qed.

Lemma AllocateFallback_inv n a rs p a' :
  arena_inv a rs -> 0 < n < 2 ^ 62 -> AllocateFallback n a = (p, a') -> arena_inv a' ((p, n) :: rs).
Proof.
  intros [Hrem Hbs Hsz Hin Hdis Hfree] Hn E. unfold AllocateFallback, AllocateNewBlock, Arena_kBlockSize in E. cbn [blocks_ memory_usage_] in E.
  assert (forall m, 0 < m -> ForallOrdPairs disjoint_blocks (blocks_ a ++ [(new_array (blocks_ a) m, m)])) as Hnew.
  { intros m Hm. apply blocks_snoc; [done|]. apply List.Forall_forall. intros b Hb. apply new_array_disjoint; [done|].
    by apply list_elem_of_In. }
  assert (forall m, 0 < m -> Forall (fun b => 0 < b.2) (blocks_ a ++ [(new_array (blocks_ a) m, m)])) as Hsz'.
  { intros m Hm. apply Forall_app. split; [done|]. by repeat constructor. }
  pose proof (fun m Hm => new_block_disjoint (blocks_ a) m rs Hm Hin) as Hap.
  destruct (Z.ltb_spec (4096 / 4) n) as [Hbig|Hsmall]; injection E as <- <-.
  - split; cbn; [lia|apply Hnew; lia|apply Hsz'; lia| | |].
    + constructor; [|by apply inside_snoc]. split; [cbn; lia|]. apply Exists_app. right. constructor. unfold inside; cbn; lia.
    + constructor; [apply Hap; lia|done].
    + destruct Hfree as [|[Hex Hfree]]; [by left|]. right. split; [apply Exists_app; by left|]. constructor; [|done].
      apply disjoint_sym. apply List.Exists_exists in Hex as (b & Hb & Hi). eapply disjoint_inside; [exact Hi|].
      apply new_array_disjoint; [lia|]. by apply list_elem_of_In.
  - change (4096 / 4) with 1024 in Hsmall. rewrite wrap_small by lia. split; cbn; [lia|apply Hnew; lia|apply Hsz'; lia| | |].
    + constructor; [|by apply inside_snoc]. split; [cbn; lia|]. apply Exists_app. right. constructor. unfold inside; cbn; lia.
    + constructor; [|done]. eapply List.Forall_impl; [|exact (Hap 4096 ltac:(lia))].
      intros r. unfold disjoint_blocks; cbn; lia.
    + right. split; [apply Exists_app; right; constructor; unfold inside; cbn; lia|].
      constructor; [unfold disjoint_blocks; cbn; lia|]. eapply List.Forall_impl; [|exact (Hap 4096 ltac:(lia))].
      intros r. unfold disjoint_blocks; cbn; lia.
Qed.

(** A part of the free range is handed out; [slop] bytes are lost. *)
Lemma take_free_inv a rs slop n :
  arena_inv a rs -> 0 <= slop -> 0 < n -> slop + n <= alloc_bytes_remaining_ a ->
  arena_inv (MkArena (alloc_ptr_ a + (n + slop)) (alloc_bytes_remaining_ a - (n + slop)) (blocks_ a) (memory_usage_ a))
    ((alloc_ptr_ a + slop, n) :: rs).
Proof.
  intros [Hrem Hbs Hsz Hin Hdis Hfree] Hs Hn Hle. destruct Hfree as [|[Hex Hfree]]; [lia|].
  assert (forall r, inside r (alloc_ptr_ a, alloc_bytes_remaining_ a) -> Exists (inside r) (blocks_ a)) as Hsub.
  { intros r Hr. apply List.Exists_exists in Hex as (b & Hb & Hi). apply List.Exists_exists. exists b.
    split; [done|]. unfold inside in *; cbn in *; lia. }
  assert (forall r, inside r (alloc_ptr_ a, alloc_bytes_remaining_ a) -> Forall (disjoint_blocks r) rs) as Hdj.
  { intros r Hr. eapply List.Forall_impl; [|exact Hfree]. intros c. unfold inside, disjoint_blocks in *; cbn in *; lia. }
  split; cbn; [lia|done|done| | |].
  - constructor; [|done]. split; [done|]. apply Hsub. unfold inside; cbn; lia.
  - constructor; [|done]. apply Hdj. unfold inside; cbn; lia.
  - right. split; [apply Hsub; unfold inside; cbn; lia|]. constructor; [unfold disjoint_blocks; cbn; lia|].
    apply Hdj. unfold inside; cbn; lia.
Qed.

Lemma Allocate_inv n a rs : arena_inv a rs -> 0 < n < 2 ^ 62 ->
  exists p a', Allocate n a = Ret (p, a') /\ arena_inv a' ((p, n) :: rs).
Proof.
  intros Ha Hn. unfold Allocate. rewrite assert_true, res_bind_ret by (apply Z.ltb_lt; lia).
  destruct (Z.leb_spec n (alloc_bytes_remaining_ a)) as [Hle|Hgt].
  - eexists _, _. split; [done|]. pose proof (take_free_inv a rs 0 n Ha ltac:(lia) ltac:(lia) ltac:(lia)) as Ht.
    by rewrite !Z.add_0_r in Ht.
  - destruct (AllocateFallback n a) as [p a'] eqn:E. exists p, a'. split; [done|]. by eapply AllocateFallback_inv.
Qed.

Lemma AllocateAligned_inv n a rs : arena_inv a rs -> 0 < n < 2 ^ 62 ->
  exists p a', AllocateAligned n a = Ret (p, a') /\ p mod 8 = 0 /\ arena_inv a' ((p, n) :: rs).
Proof.
  intros Ha Hn. destruct (AllocateAligned_ok n a) as (p & a' & E & Hp). exists p, a'. split; [done|]. split; [done|].
  unfold AllocateAligned in E. rewrite land_7 in E. set (slop := if _ =? 0 then 0 else _) in E.
  assert (0 <= slop < 8) as Hs by (pose proof (Z.mod_pos_bound (alloc_ptr_ a) 8); unfold slop; destruct (Z.eqb_spec (alloc_ptr_ a mod 8) 0); lia).
  rewrite wrap_small in E by lia. destruct (Z.leb_spec (n + slop) (alloc_bytes_remaining_ a)) as [Hle|Hgt].
  - destruct (assert_ _); [|done..]. injection E as <- <-. apply take_free_inv; [done|lia..].
  - destruct (AllocateFallback n a) as [p1 a1] eqn:Ef. destruct (assert_ _); [|done..]. injection E as <- <-.
    by eapply AllocateFallback_inv.
Qed.
End facts.

(** ** Requests *)

(** [Allocate] or, with [true], [AllocateAligned], for each size in turn. *)
Fixpoint allocate_all `{NewArray} (reqs : list (bool * Z)) (a : Arena) : res (list (Z * Z) * Arena) :=
  match reqs with
  | [] => Ret ([], a)
  | (aligned, n) :: reqs =>
      let! '(p, a) := if aligned : bool then AllocateAligned n a else Allocate n a in
      let! '(rs, a) := allocate_all reqs a in
      Ret ((p, n) :: rs, a)
  end.

(** Whatever is requested from a new arena, the ranges that are returned have
    the requested sizes, lie in blocks the arena owns, never overlap, and are
    aligned to 8 bytes where that was asked for. *)
Theorem arena_ranges `{NewArrayOk} reqs :
  Forall (fun q => 0 < q.2 < 2 ^ 62) reqs ->
  exists rs a, allocate_all reqs new_Arena = Ret (rs, a) /\ rs.*2 = reqs.*2 /\
    ForallOrdPairs disjoint_blocks rs /\ Forall (fun r => Exists (inside r) (blocks_ a)) rs /\
    Forall2 (fun q r => q.1 = true -> r.1 mod 8 = 0) reqs rs.
Proof.
  intros Hq. assert (forall a rs0, arena_inv a rs0 ->
    exists rs a', allocate_all reqs a = Ret (rs, a') /\ rs.*2 = reqs.*2 /\ arena_inv a' (rev rs ++ rs0) /\
      Forall2 (fun (q : bool * Z) (r : Z * Z) => q.1 = true -> r.1 mod 8 = 0) reqs rs) as Hall.
  { induction Hq as [|[al n] reqs Hn _ IH]; intros a rs0 Ha; cbn [allocate_all].
    - exists [], a. split; [done|]. split; [done|]. split; [exact Ha|constructor].
    - assert (exists p a1, (if al then AllocateAligned n a else Allocate n a) = Ret (p, a1) /\
        (al = true -> p mod 8 = 0) /\ arena_inv a1 ((p, n) :: rs0)) as (p & a1 & E & Hp & Ha1).
      { destruct al; [destruct (AllocateAligned_inv n a rs0 Ha Hn) as (p & a1 & ? & ? & ?)|destruct (Allocate_inv n a rs0 Ha Hn) as (p & a1 & ? & ?)];
          by exists p, a1. }
      rewrite E, res_bind_ret. destruct (IH a1 _ Ha1) as (rs & a' & E' & Hs & Ha' & Hf). rewrite E', res_bind_ret.
      exists ((p, n) :: rs), a'. split; [done|]. split; [cbn; by f_equal|]. split; [|by constructor].
      cbn. by rewrite <- app_assoc. }
  destruct (Hall new_Arena []) as (rs & a & E & Hs & [_ _ _ Hin Hdis _] & Hf).
  { split; cbn; [lia|constructor..|by left]. }
  exists rs, a. rewrite app_nil_r in Hin, Hdis. split; [done|]. split; [done|]. split.
  - apply disjoint_rev in Hdis. by rewrite rev_involutive in Hdis.
  - split; [|done]. apply List.Forall_rev in Hin. rewrite rev_involutive in Hin.
    eapply List.Forall_impl; [|exact Hin]. by intros r [_ ?].
Qed.

(** An allocator that never reuses addresses. *)
#[export] Instance bump_new_array : NewArray := fun bs n => 16 * (1 + foldr (fun b m => Z.max (b.1 + b.2) m) 0 bs).

#[export] Instance bump_new_array_ok : NewArrayOk.
Proof.
  assert (forall bs : list (Z * Z), 0 <= foldr (fun b m => Z.max (b.1 + b.2) m) 0 bs) as Hpos
    by (intros bs; induction bs as [|b bs IH]; cbn; lia).
  split; unfold new_array, bump_new_array.
  - intros bs n. pose proof (Hpos bs). lia.
  - intros bs n. rewrite Z.mul_comm. by apply Z.mod_mul.
  - intros bs n b Hn Hb. assert (b.1 + b.2 <= foldr (fun b m => Z.max (b.1 + b.2) m) 0 bs) as Hle.
    { induction bs as [|c bs IH]; [set_solver|]. apply elem_of_cons in Hb as [->|Hb]; cbn; [lia|]. specialize (IH Hb). lia. }
    pose proof (Hpos bs). unfold disjoint_blocks. cbn [fst snd]. lia.
Qed.

Lemma arena_ranges_witness :
  exists rs a, allocate_all [(false, 3); (true, 40); (false, 2000); (true, 4000)] new_Arena = Ret (rs, a) /\
    ForallOrdPairs disjoint_blocks rs.
Proof.
  destruct (arena_ranges [(false, 3); (true, 40); (false, 2000); (true, 4000)]) as (rs & a & E & _ & Hd & _).
  - repeat constructor; vm_compute; done.
  - by exists rs, a.
Defined.
