(* ===== verification/SkipList.v ===== *)
(** * LevelDB: the skip list (skiplist.h) and its random numbers (random.h)

    Nodes are never freed: they are a list, and a [Node*] an index into it,
    with [None] for null; the arena accounts for their memory.  The key type
    and its comparator are the template's parameters. *)
From S2P Require Import Prelude LdbBase Arena.

(** ** class Random *)
Definition new_Random (s : Z) : Z :=
  let seed := s .& 0x7fffffff in
  if (seed =? 0) || (seed =? 2147483647) then 1 else seed.

(** [Next]: the number, which is also the new seed. *)
Definition Random_Next (seed : Z) : Z :=
  let M := 2147483647 in
  let A := 16807 in
  let product := u64 (seed * A) in
  let seed := u32 (Z.shiftr product 31 + (product .& M)) in
  if M <? seed then u32 (seed - M) else seed.

Definition Random_Uniform (seed n : Z) : Z * Z := let seed := Random_Next seed in (seed mod n, seed).
Definition Random_OneIn (seed n : Z) : bool * Z := let seed := Random_Next seed in (seed mod n =? 0, seed).

(** [Uniform(1 << Uniform(max_log + 1))]. *)
Definition Random_Skewed (seed max_log : Z) : Z * Z :=
  let '(base, seed) := Random_Uniform seed (max_log + 1) in Random_Uniform seed (Z.shiftl 1 base).

(** ** class SkipList *)
Definition kMaxHeight : Z := 12.
Definition kBranching : Z := 4.

Record Node (K : Type) : Type := MkNode {
  node_key : K;
  next_ : list (option nat);
}.
Arguments MkNode {K}. Arguments node_key {K}. Arguments next_ {K}.

(** [sizeof(Node)] for a key of the size of a pointer: the key and one link. *)
Definition sizeof_Node : Z := 16.

Record SkipList (K : Type) : Type := MkSkipList {
  nodes : list (Node K);
  arena_ : Arena;
  max_height_ : Z;
  rnd_ : Z;
}.
Arguments MkSkipList {K}. Arguments nodes {K}. Arguments arena_ {K}. Arguments max_height_ {K}. Arguments rnd_ {K}.

(** [head_] is the first node. *)
Definition head_ : nat := 0.

Section skiplist.
Context {K : Type} `{NewArray} (compare_ : K -> K -> res Z).
Implicit Types (l : SkipList K) (n : option nat) (x : nat).

(** The arena is shared with the owner of the list, which may use it. *)
Definition set_arena (a : Arena) l : SkipList K := MkSkipList (nodes l) a (max_height_ l) (rnd_ l).

Definition node_at l x : res (Node K) := of_option (nodes l !! x).

(** [x->Next(n)] and [x->SetNext(n, v)]. *)
Definition Next l x (level : Z) : res (option nat) :=
  let! nd := node_at l x in
  if 0 <=? level then of_option (next_ nd !! Z.to_nat level) else UB.

Definition SetNext l x (level : Z) (v : option nat) : res (SkipList K) :=
  let! nd := node_at l x in
  if (0 <=? level) && (level <? zlength (next_ nd)) then
    Ret (MkSkipList (<[x := MkNode (node_key nd) (<[Z.to_nat level := v]> (next_ nd))]> (nodes l))
           (arena_ l) (max_height_ l) (rnd_ l))
  else UB.

(** A node whose links are not initialised yet; [None] stands for them, and
    every link is set before it is read. *)
Definition NewNode l (key : K) (height : Z) : res (nat * SkipList K) :=
  let! '(_, arena) := AllocateAligned (sizeof_Node + 8 * (height - 1)) (arena_ l) in
  Ret (length (nodes l),
       MkSkipList (nodes l ++ [MkNode key (replicate (Z.to_nat height) None)]) arena (max_height_ l) (rnd_ l)).

(** [for (int i = 0; i < kMaxHeight; i++) head_->SetNext(i, nullptr);] *)
Fixpoint null_links (n : nat) (i : Z) l : res (SkipList K) :=
  match n with
  | O => Ret l
  | S n' => let! l := SetNext l head_ i None in null_links n' (i + 1) l
  end.

(** The constructor; [any_key] is the key of the head. *)
Definition new_SkipList (arena : Arena) (any_key : K) : res (SkipList K) :=
  let! '(_, l) := NewNode (MkSkipList [] arena 1 (new_Random 0xdeadbeef)) any_key kMaxHeight in
  null_links (Z.to_nat kMaxHeight) 0 l.

Definition GetMaxHeight l : Z := max_height_ l.

Definition Equal (a b : K) : res bool := let! c := compare_ a b in Ret (c =? 0).

(** [while (height < kMaxHeight && ((rnd_.Next() % kBranching) == 0)) height++;]
    with [n] heights below the maximum. *)
Fixpoint random_height_loop (n : nat) (height seed : Z) : Z * Z :=
  match n with
  | O => (height, seed)
  | S n' =>
      let seed := Random_Next seed in
      if seed mod kBranching =? 0 then random_height_loop n' (height + 1) seed else (height, seed)
  end.

Definition RandomHeight l : Z * SkipList K :=
  let '(height, seed) := random_height_loop (Z.to_nat (kMaxHeight - 1)) 1 (rnd_ l) in
  (height, MkSkipList (nodes l) (arena_ l) (max_height_ l) seed).

Definition KeyIsAfterNode l (key : K) n : res bool :=
  match n with
  | None => Ret false
  | Some x => let! nd := node_at l x in let! c := compare_ (node_key nd) key in Ret (c <? 0)
  end.

(** The array [prev], with [None] for what is not set; the null pointer is
    [None]. *)
Definition set_prev (prev : option (list (option nat))) (level : Z) x : res (option (list (option nat))) :=
  match prev with
  | None => Ret None
  | Some p => if (0 <=? level) && (level <? zlength p) then Ret (Some (<[Z.to_nat level := Some x]> p)) else UB
  end.

Definition find_ge_body l (key : K) (st : nat * Z * option (list (option nat)))
  : res ((nat * Z * option (list (option nat))) + (option nat * option (list (option nat)))) :=
  let '(x, level, prev) := st in
  let! next := Next l x level in
  let! after := KeyIsAfterNode l key next in
  if after : bool then
    match next with Some y => Ret (inl (y, level, prev)) | None => UB end
  else
    let! prev := set_prev prev level x in
    if level =? 0 then Ret (inr (next, prev)) else Ret (inl (x, level - 1, prev)).

Definition FindGreaterOrEqual l (key : K) (prev : option (list (option nat)))
  : res (option nat * option (list (option nat))) :=
  while (find_ge_body l key) (head_, GetMaxHeight l - 1, prev).

Definition find_lt_body l (key : K) (st : nat * Z) : res ((nat * Z) + nat) :=
  let '(x, level) := st in
  let! _ := (if Nat.eqb x head_ then Ret tt
             else let! nd := node_at l x in
                  let! c := compare_ (node_key nd) key in assert_ (c <? 0)) in
  let! next := Next l x level in
  let! stop := match next with
               | None => Ret true
               | Some y => let! nd := node_at l y in let! c := compare_ (node_key nd) key in Ret (0 <=? c)
               end in
  if stop : bool then
    if level =? 0 then Ret (inr x) else Ret (inl (x, level - 1))
  else match next with Some y => Ret (inl (y, level)) | None => UB end.

Definition FindLessThan l (key : K) : res nat := while (find_lt_body l key) (head_, GetMaxHeight l - 1).

Definition find_last_body l (st : nat * Z) : res ((nat * Z) + nat) :=
  let '(x, level) := st in
  let! next := Next l x level in
  match next with
  | None => if level =? 0 then Ret (inr x) else Ret (inl (x, level - 1))
  | Some y => Ret (inl (y, level))
  end.

Definition FindLast l : res nat := while (find_last_body l) (head_, GetMaxHeight l - 1).

(** [for (int i = GetMaxHeight(); i < height; i++) prev[i] = head_;] *)
Fixpoint fill_prev (n : nat) (i : Z) (prev : option (list (option nat))) : res (option (list (option nat))) :=
  match n with
  | O => Ret prev
  | S n' => let! prev := set_prev prev i head_ in fill_prev n' (i + 1) prev
  end.

(** [for (int i = 0; i < height; i++)]: link the new node [x] at level [i]. *)
Fixpoint link_levels (n : nat) (i : Z) x (prev : list (option nat)) l : res (SkipList K) :=
  match n with
  | O => Ret l
  | S n' =>
      let! p := of_option (mjoin (prev !! Z.to_nat i)) in
      let! next := Next l p i in
      let! l := SetNext l x i next in
      let! l := SetNext l p i (Some x) in
      link_levels n' (i + 1) x prev l
  end.

Definition Insert l (key : K) : res (SkipList K) :=
  let! '(x, prev) := FindGreaterOrEqual l key (Some (replicate (Z.to_nat kMaxHeight) None)) in
  let! _ := match x with
            | None => Ret tt
            | Some y => let! nd := node_at l y in let! e := Equal key (node_key nd) in assert_ (negb e)
            end in
  let '(height, l) := RandomHeight l in
  let! '(prev, l) :=
    (if GetMaxHeight l <? height then
       let! prev := fill_prev (Z.to_nat (height - GetMaxHeight l)) (GetMaxHeight l) prev in
       Ret (prev, MkSkipList (nodes l) (arena_ l) height (rnd_ l))
     else Ret (prev, l)) in
  let! '(x, l) := NewNode l key height in
  match prev with
  | Some prev => link_levels (Z.to_nat height) 0 x prev l
  | None => UB
  end.

Definition Contains l (key : K) : res bool :=
  let! '(x, _) := FindGreaterOrEqual l key None in
  match x with
  | None => Ret false
  | Some y => let! nd := node_at l y in Equal key (node_key nd)
  end.

(** ** class SkipList::Iterator: the pointer [node_]. *)
Definition Iter_Valid n : bool := match n with Some _ => true | None => false end.

Definition Iter_key l n : res K :=
  match n with Some x => let! nd := node_at l x in Ret (node_key nd) | None => UB end.

Definition Iter_Next l n : res (option nat) :=
  match n with Some x => Next l x 0 | None => UB end.

(** [if (node_ == list_->head_) node_ = nullptr;] *)
Definition unless_head x : option nat := if Nat.eqb x head_ then None else Some x.

Definition Iter_Prev l n : res (option nat) :=
  match n with
  | Some x => let! nd := node_at l x in let! y := FindLessThan l (node_key nd) in Ret (unless_head y)
  | None => UB
  end.

Definition Iter_Seek l (target : K) : res (option nat) :=
  let! '(x, _) := FindGreaterOrEqual l target None in Ret x.

Definition Iter_SeekToFirst l : res (option nat) := Next l head_ 0.

Definition Iter_SeekToLast l : res (option nat) := let! x := FindLast l in Ret (unless_head x).
End skiplist.
