(* ===== verification/SkipListFacts.v ===== *)
(** * The skip list is a sorted list with shortcuts

    [sl_inv st l]: the nodes of [st], in the order of the bottom level, are
    [l]; they are sorted, and at every level the links from the head run
    through the nodes of [l] that are high enough, in order. *)
From stdpp Require sorting.
From S2P Require Import Prelude LdbBase Arena SkipList.

(** The contract of the template's comparator. *)
Class KeyOrder {K : Type} (cmp : K -> K -> res Z) (valid : K -> Prop) : Type := {
  k_lt : K -> K -> Prop;
  k_lt_strict : StrictOrder k_lt;
  k_cmp_ok : forall a b, valid a -> valid b ->
    exists z, cmp a b = Ret z /\ (z < 0 <-> k_lt a b) /\ (z = 0 <-> ~ k_lt a b /\ ~ k_lt b a);
}.
Arguments k_lt {K} cmp valid {_} _ _.
#[export] Existing Instance k_lt_strict.

(** A node, as the invariant sees it. *)
Record elem (K : Type) : Type := MkElem {
  e_loc : nat;
  e_key : K;
  e_height : nat;
}.
Arguments MkElem {K}. Arguments e_loc {K}. Arguments e_key {K}. Arguments e_height {K}.

Section facts.
Context {K : Type} `{NewArrayOk} (cmp : K -> K -> res Z) (valid : K -> Prop) `{!KeyOrder cmp valid}.
Implicit Types (st : SkipList K) (l lo hi : list (elem K)) (e : elem K) (key : K).
Abbreviation lt := (k_lt cmp valid).

Lemma lt_irrefl a : ~ lt a a.
Proof. exact (StrictOrder_Irreflexive (StrictOrder := k_lt_strict) a). Qed.

(** The nodes of [l] that take part in level [i]. *)
Definition level (i : nat) l : list (elem K) := filter (fun e => i < e_height e)%nat l.

Definition next_of st (x i : nat) : option (option nat) := nodes st !! x ≫= fun nd => next_ nd !! i.

(** The nodes [p] follow each other at level [i], and the last one has a null
    link. *)
Fixpoint linked st (i : nat) (p : list nat) : Prop :=
  match p with
  | [] => True
  | a :: p' => next_of st a i = Some (head p') /\ linked st i p'
  end.

Definition elem_ok st e : Prop :=
  e_loc e <> head_ /\ valid (e_key e) /\ (0 < e_height e)%nat /\ Z.of_nat (e_height e) <= max_height_ st /\
  exists nd, nodes st !! e_loc e = Some nd /\ node_key nd = e_key e /\ length (next_ nd) = e_height e.

Definition sorted l : Prop := Sorted.StronglySorted (fun a b => lt (e_key a) (e_key b)) l.

Record sl_inv st l : Prop := {
  inv_head : exists nd, nodes st !! head_ = Some nd /\ length (next_ nd) = Z.to_nat kMaxHeight;
  inv_height : 1 <= max_height_ st <= kMaxHeight;
  inv_elems : Forall (elem_ok st) l;
  inv_sorted : sorted l;
  inv_linked : forall i, (i < Z.to_nat kMaxHeight)%nat -> linked st i (head_ :: (e_loc <$> level i l));
}.

(** ** Sorted lists *)
Lemma sorted_app l1 l2 :
  sorted (l1 ++ l2) <-> sorted l1 /\ sorted l2 /\ forall a b, a ∈ l1 -> b ∈ l2 -> lt (e_key a) (e_key b).
Proof. unfold sorted. rewrite sorting.StronglySorted_app. naive_solver. Qed.

Lemma level_app i l1 l2 : level i (l1 ++ l2) = level i l1 ++ level i l2.
Proof. apply list.filter_app. Qed.

Lemma elem_of_level i l e : e ∈ level i l <-> (i < e_height e)%nat /\ e ∈ l.
Proof. unfold level. by rewrite list_elem_of_filter. Qed.

Lemma level_0 l st : Forall (elem_ok st) l -> level 0 l = l.
Proof.
  intros Hl. unfold level. induction Hl as [|e l He _ IH]; [done|].
  rewrite filter_cons_True by (apply He). by rewrite IH.
Qed.

Lemma level_high i l st : Forall (elem_ok st) l -> max_height_ st <= Z.of_nat i -> level i l = [].
Proof.
  intros Hl Hi. unfold level. induction Hl as [|e l He _ IH]; [done|].
  rewrite filter_cons_False; [done|]. destruct He as (_ & _ & _ & He & _). lia.
Qed.

(** The elements before [key] and from [key] on. *)
Definition split_at key lo hi : Prop :=
  Forall (fun e => lt (e_key e) key) lo /\ Forall (fun e => ~ lt (e_key e) key) hi.

Lemma cmp_ok a b : valid a -> valid b ->
  exists z, cmp a b = Ret z /\ (z < 0 <-> lt a b) /\ (z = 0 <-> ~ lt a b /\ ~ lt b a) /\ (0 < z <-> lt b a).
Proof.
  intros Ha Hb. destruct (k_cmp_ok a b Ha Hb) as (z & E & Hn & Hz). exists z. do 3 (split; [done|]).
  destruct (k_cmp_ok b a Hb Ha) as (z' & _ & Hn' & Hz'). split.
  - intros Hpos. destruct (decide (z' < 0)) as [Hd|Hd]; [by apply Hn'|].
    assert (~ lt b a) by (intros Hl; apply Hn' in Hl; done).
    assert (~ lt a b) by (intros Hl; apply Hn in Hl; lia). assert (z = 0) by (by apply Hz). lia.
  - intros Hl. destruct (Z.lt_trichotomy z 0) as [Hd|[Hd|Hd]]; [| |done].
    + apply Hn in Hd. destruct (lt_irrefl a). by transitivity b.
    + apply Hz in Hd. naive_solver.
Qed.

Lemma split_exists key l :
  valid key -> Forall (fun e => valid (e_key e)) l -> sorted l -> exists lo hi, l = lo ++ hi /\ split_at key lo hi.
Proof.
  intros Hk Hv Hs. induction l as [|e l IH]; [exists [], []; by repeat constructor|].
  apply Forall_cons_1 in Hv as [He Hv]. apply sorting.StronglySorted_cons in Hs as [Hall Hs].
  destruct (IH Hv Hs) as (lo & hi & -> & Hlo & Hhi).
  destruct (cmp_ok (e_key e) key He Hk) as (z & _ & Hz & _). destruct (decide (z < 0)) as [Hneg|Hpos].
  - exists (e :: lo), hi. split; [done|]. split; [constructor; [by apply Hz|done]|done].
  - assert (~ lt (e_key e) key) as Hne by (intros Hlt; apply Hz in Hlt; done).
    exists [], (e :: lo ++ hi). split; [done|]. split; [constructor|]. constructor; [done|].
    eapply List.Forall_impl; [|exact Hall]. intros b Heb Hlt. apply Hne. by transitivity (e_key b).
Qed.

Lemma sl_valid st l : sl_inv st l -> Forall (fun e => valid (e_key e)) l.
Proof. intros Hi. eapply List.Forall_impl; [|exact (inv_elems _ _ Hi)]. by intros e (_ & ? & _). Qed.

(** ** Links *)

(** The location before a list of nodes: the last of [pre], or the head. *)
Definition before (pre : list (elem K)) : nat := default head_ (e_loc <$> list.last pre).

Lemma before_snoc pre e : before (pre ++ [e]) = e_loc e.
Proof. unfold before. by rewrite last_snoc. Qed.

Lemma linked_app st i p a q : linked st i (p ++ a :: q) -> next_of st a i = Some (head q).
Proof. induction p as [|b p IH]; cbn; [by intros []|intros [_ ?]; by apply IH]. Qed.

Lemma head_fmap (q : list (elem K)) : head (e_loc <$> q) = e_loc <$> head q.
Proof. by destruct q. Qed.

Lemma before_split pre : exists p, head_ :: (e_loc <$> pre) = p ++ [before pre].
Proof.
  destruct (decide (pre = [])) as [->|Hne]; [by exists []|].
  destruct (exists_last Hne) as (pre' & e & ->). exists (head_ :: (e_loc <$> pre')).
  rewrite before_snoc, fmap_app. done.
Qed.

Lemma next_before st i l pre post :
  linked st i (head_ :: (e_loc <$> level i l)) -> level i l = pre ++ post ->
  next_of st (before pre) i = Some (e_loc <$> head post).
Proof.
  intros Hl E. rewrite E, fmap_app in Hl. destruct (before_split pre) as [p Ep].
  change (head_ :: (e_loc <$> pre) ++ (e_loc <$> post)) with ((head_ :: (e_loc <$> pre)) ++ (e_loc <$> post)) in Hl.
  rewrite Ep, <- app_assoc in Hl. rewrite <- head_fmap. by eapply linked_app.
Qed.

Lemma Next_of st x i v : next_of st x i = Some v -> Next st x (Z.of_nat i) = Ret v.
Proof.
  unfold next_of, Next, node_at. destruct (nodes st !! x) as [nd|]; [|done]. cbn. intros Hv.
  rewrite (proj2 (Z.leb_le _ _)) by lia. by rewrite Nat2Z.id, Hv.
Qed.

Lemma node_at_ok st e : elem_ok st e -> exists nd, node_at st (e_loc e) = Ret nd /\ node_key nd = e_key e.
Proof. intros (_ & _ & _ & _ & nd & Hnd & Hk & _). exists nd. unfold node_at. by rewrite Hnd. Qed.

Lemma sl_elem st l e : sl_inv st l -> e ∈ l -> elem_ok st e.
Proof. intros Hi He. by apply (Forall_elem _ _ _ (inv_elems _ _ Hi)). Qed.

(** [Next] from the last node of [pre] at a level the list has. *)
Lemma Next_before st l i pre post :
  sl_inv st l -> Z.of_nat i < max_height_ st -> level i l = pre ++ post ->
  Next st (before pre) (Z.of_nat i) = Ret (e_loc <$> head post).
Proof.
  intros Hi Hm E. apply Next_of. eapply next_before; [|exact E].
  apply (inv_linked _ _ Hi). pose proof (inv_height _ _ Hi). unfold kMaxHeight in *. lia.
Qed.

(** One level down, the same node is still on the path. *)
Lemma level_down i l :
  exists pre post, level i l = pre ++ post /\ before pre = before (level (S i) l).
Proof.
  destruct (decide (level (S i) l = [])) as [E|Hne]; [exists [], (level i l); by rewrite E|].
  destruct (exists_last Hne) as (q & e & E). rewrite E, before_snoc.
  assert (e ∈ level i l) as He.
  { assert (e ∈ level (S i) l) as He by (rewrite E; set_solver).
    apply elem_of_level in He as [Hh He]. apply elem_of_level. split; [lia|done]. }
  apply list_elem_of_split in He as (pre & post & E'). exists (pre ++ [e]), post.
  rewrite before_snoc, <- app_assoc. done.
Qed.

(** ** The walk the three searches share

    A search stands on a node at a level and carries some data.  It goes right
    to the nodes of [lo], and down when the next node is not in [lo]. *)
Section walk.
Context {X R A : Type} (body : X -> res (X + R)) (mk : nat -> nat -> A -> X) (out : A -> R).
Context (down : nat -> A -> A) (ok : nat -> A -> Prop) (lo : list (elem K)).

Definition walk_right : Prop := forall pre e post i a,
  ok i a -> level i lo = pre ++ e :: post -> body (mk (before pre) i a) = Ret (inl (mk (e_loc e) i a)).
Definition walk_down : Prop := forall i a,
  ok (S i) a -> ok i (down (S i) a) /\
  body (mk (before (level (S i) lo)) (S i) a) = Ret (inl (mk (before (level (S i) lo)) i (down (S i) a))).
Definition walk_stop : Prop := forall a,
  ok O a -> body (mk (before (level O lo)) O a) = Ret (inr (out (down O a))).

Fixpoint descend (i : nat) (a : A) : A :=
  match i with O => down O a | S i' => descend i' (down i a) end.

Lemma walk_level i a pre post r k :
  walk_right -> ok i a -> level i lo = pre ++ post ->
  runs body (mk (before (level i lo)) i a) k r -> runs body (mk (before pre) i a) (zlength post + k) r.
Proof.
  intros Hr Ha E Hk. revert pre E. induction post as [|e post IH]; intros pre E.
  - rewrite app_nil_r in E. by rewrite <- E.
  - rewrite zlength_cons, <- Z.add_assoc. eapply runs_step; [exact (Hr _ _ _ _ _ Ha E)|].
    rewrite <- (before_snoc pre e). apply IH. by rewrite <- app_assoc.
Qed.

Lemma walk_runs i a pre post :
  walk_right -> walk_down -> walk_stop -> ok i a -> level i lo = pre ++ post ->
  exists k, runs body (mk (before pre) i a) k (Ret (out (descend i a))) /\
    k <= Z.of_nat (S i) * (zlength lo + 1).
Proof.
  intros Hr Hd Hs. revert a pre post. induction i as [|i IH]; intros a pre post Ha E.
  - exists (zlength post + 1). split.
    + eapply walk_level; [done..|]. apply runs_stop. by apply Hs.
    + assert (length (level 0 lo) <= length lo)%nat by apply length_filter.
      rewrite E, length_app in *. unfold zlength. lia.
  - destruct (Hd i a Ha) as [Ha' Hbody]. destruct (level_down i lo) as (pre' & post' & E' & Hb).
    destruct (IH _ _ _ Ha' E') as (k & Hk & Hkle). rewrite Hb in Hk.
    exists (zlength post + (1 + k)). split.
    + eapply walk_level; [done..|]. eapply runs_step; [exact Hbody|exact Hk].
    + assert (length (level (S i) lo) <= length lo)%nat by apply length_filter.
      rewrite E, length_app in *. unfold zlength in *. lia.
Qed.

(** The whole search, from the head at the top level. *)
Lemma walk_search i a :
  walk_right -> walk_down -> walk_stop -> ok i a -> (i < 12)%nat -> zlength lo < 2 ^ 60 ->
  while body (mk head_ i a) = Ret (out (descend i a)).
Proof.
  intros Hr Hd Hs Ha Hi Hl. destruct (walk_runs i a [] (level i lo) Hr Hd Hs Ha eq_refl) as (k & Hk & Hle).
  eapply runs_while; [exact Hk|]. pose proof (zlength_nonneg lo). nia.
Qed.
End walk.

(** ** The searches *)

(** The elements of [l] split into [lo] and [hi]: the level's next node. *)
Lemma next_right st l lo hi pre e post i :
  sl_inv st l -> l = lo ++ hi -> Z.of_nat i < max_height_ st -> level i lo = pre ++ e :: post ->
  Next st (before pre) (Z.of_nat i) = Ret (Some (e_loc e)) /\ e ∈ lo /\ e ∈ l.
Proof.
  intros Hi -> Hm E.
  assert (e ∈ lo) by (apply (elem_of_level i); rewrite E; set_solver).
  split; [|set_solver]. rewrite (Next_before st (lo ++ hi) i pre (e :: post ++ level i hi)); [done..|].
  by rewrite level_app, E, <- app_assoc.
Qed.

Lemma next_down st l lo hi i :
  sl_inv st l -> l = lo ++ hi -> Z.of_nat i < max_height_ st ->
  Next st (before (level i lo)) (Z.of_nat i) = Ret (e_loc <$> head (level i hi)).
Proof. intros Hi -> Hm. eapply Next_before; [done..|]. apply level_app. Qed.

Lemma head_level i hi e : head (level i hi) = Some e -> e ∈ hi.
Proof. intros He. apply list.head_Some_elem_of in He. by apply (elem_of_level i). Qed.

Definition sp_ok (top : nat) (i : nat) (p : option (list (option nat))) : Prop :=
  (i < top)%nat /\ match p with Some q => (top <= length q)%nat | None => True end.

Definition prev_down lo (i : nat) (p : option (list (option nat))) : option (list (option nat)) :=
  (fun q => <[i := Some (before (level i lo))]> q) <$> p.

Lemma set_prev_ok p i x top :
  sp_ok top i p -> set_prev p (Z.of_nat i) x = Ret ((fun q => <[i := Some x]> q) <$> p).
Proof.
  intros [Hi Hp]. unfold set_prev. destruct p as [q|]; [|done]. unfold zlength.
  rewrite (proj2 (Z.leb_le _ _)), (proj2 (Z.ltb_lt _ _)) by lia. by rewrite Nat2Z.id.
Qed.

Lemma after_ok st l e key : sl_inv st l -> e ∈ l -> valid key ->
  exists b : bool, KeyIsAfterNode cmp st key (Some (e_loc e)) = Ret b /\ (b = true <-> lt (e_key e) key).
Proof.
  intros Hi He Hk. pose proof (sl_elem _ _ _ Hi He) as Hok. destruct (node_at_ok _ _ Hok) as (nd & Hnd & Hkey).
  destruct (cmp_ok (e_key e) key (proj1 (proj2 Hok)) Hk) as (z & Hz & Hlt & _).
  exists (z <? 0). cbn. rewrite Hnd. cbn. rewrite Hkey, Hz. cbn. by rewrite Z.ltb_lt.
Qed.

Lemma FindGreaterOrEqual_eq st l lo hi key prev top :
  sl_inv st l -> zlength l < 2 ^ 60 -> valid key -> l = lo ++ hi -> split_at key lo hi ->
  max_height_ st = Z.of_nat (S top) -> sp_ok (S top) top prev ->
  FindGreaterOrEqual cmp st key prev = Ret (e_loc <$> head hi, descend (prev_down lo) top prev).
Proof.
  intros Hi Hl Hk E [Hlo Hhi] Htop Hp. unfold FindGreaterOrEqual, GetMaxHeight. rewrite Htop.
  replace (Z.of_nat (S top) - 1) with (Z.of_nat top) by lia.
  pose proof (inv_height _ _ Hi) as Hh. unfold kMaxHeight in Hh.
  assert (Forall (elem_ok st) hi) as Hhi_ok by (pose proof (inv_elems _ _ Hi) as Ho; rewrite E in Ho; by apply Forall_app in Ho as [_ ?]).
  assert (forall i, (i < S top)%nat -> KeyIsAfterNode cmp st key (e_loc <$> head (level i hi)) = Ret false) as Hstop.
  { intros i _. destruct (head (level i hi)) as [e|] eqn:He; [|done]. apply head_level in He. cbn [fmap option_fmap option_map].
    assert (e ∈ l) as Hel by (rewrite E; set_solver). destruct (after_ok st l e key Hi Hel Hk) as (b & Hb & Hlt).
    change (option_map e_loc (Some e)) with (Some (e_loc e)). rewrite Hb.
    destruct b; [|done]. exfalso. apply (Forall_elem _ _ _ Hhi He). by apply Hlt. }
  assert (forall i a, sp_ok (S top) i a -> find_ge_body cmp st key (before (level i lo), Z.of_nat i, a) =
    if decide (i = O) then Ret (inr (e_loc <$> head (level i hi), prev_down lo i a))
    else Ret (inl (before (level i lo), Z.of_nat i - 1, prev_down lo i a))) as Hbody.
  { intros i a Ha. unfold find_ge_body. erewrite next_down; [|done..|destruct Ha; lia]. cbn [res_bind].
    rewrite Hstop by apply Ha. cbn [res_bind]. erewrite set_prev_ok by done. cbn [res_bind].
    destruct (decide (i = O)) as [->|Hne]; [done|]. rewrite (proj2 (Z.eqb_neq _ _)) by lia. done. }
  rewrite (walk_search (find_ge_body cmp st key) (fun x i a => (x, Z.of_nat i, a))
    (fun a => (e_loc <$> head hi, a)) (prev_down lo) (sp_ok (S top)) lo top prev); [done| | | |done|lia|].
  - intros pre e post i a Ha E'. unfold find_ge_body.
    destruct (next_right st l lo hi pre e post i Hi E) as (-> & Hel & Hel'); [destruct Ha; lia|done|]. cbn [res_bind].
    destruct (after_ok st l e key Hi Hel' Hk) as (b & -> & Hlt). cbn [res_bind].
    destruct b; [done|]. pose proof (Forall_elem _ _ _ Hlo Hel) as Hc. by apply Hlt in Hc.
  - intros i a Ha. split.
    + destruct Ha as [? Ha]. split; [lia|]. destruct a as [q|]; [|done]. cbn. by rewrite length_insert.
    + rewrite Hbody by done. cbn [decide]. rewrite decide_False by lia. do 4 f_equal. lia.
  - intros a Ha. rewrite Hbody by done. rewrite decide_True by done. by rewrite (level_0 hi st).
  - rewrite E, zlength_app in Hl. pose proof (zlength_nonneg hi). lia.
Qed.

Lemma descend_None lo top : descend (prev_down lo) top None = None.
Proof. by induction top. Qed.

Lemma descend_Some lo top q : (top < length q)%nat ->
  exists q', descend (prev_down lo) top (Some q) = Some q' /\ length q' = length q /\
    (forall j, (j <= top)%nat -> q' !! j = Some (Some (before (level j lo)))) /\
    (forall j, (top < j)%nat -> q' !! j = q !! j).
Proof.
  revert q. induction top as [|top IH]; intros q Hq; cbn [descend].
  - exists (<[0%nat := Some (before (level 0 lo))]> q). split; [done|]. split; [apply length_insert|]. split.
    + intros j Hj. assert (j = 0%nat) as -> by lia. by apply list_lookup_insert_eq.
    + intros j Hj. apply list_lookup_insert_ne. lia.
  - destruct (IH (<[S top := Some (before (level (S top) lo))]> q)) as (q' & E & Hlen & Hle & Hgt);
      [rewrite length_insert; lia|].
    exists q'. split; [exact E|]. split; [by rewrite Hlen, length_insert|]. split.
    + intros j Hj. destruct (decide (j = S top)) as [->|Hne]; [|apply Hle; lia].
      rewrite Hgt by lia. by apply list_lookup_insert_eq.
    + intros j Hj. rewrite Hgt by lia. apply list_lookup_insert_ne. lia.
Qed.

(** A search without data. *)
Lemma descend_unit top : descend (fun _ (u : unit) => u) top tt = tt.
Proof. by destruct (descend _ top tt). Qed.

Lemma max_height_top st l : sl_inv st l -> exists top, max_height_ st = Z.of_nat (S top) /\ (top < 12)%nat.
Proof.
  intros Hi. pose proof (inv_height _ _ Hi) as Hh. unfold kMaxHeight in Hh.
  exists (Z.to_nat (max_height_ st - 1)). lia.
Qed.

Lemma FindLessThan_eq st l lo hi key :
  sl_inv st l -> zlength l < 2 ^ 60 -> valid key -> l = lo ++ hi -> split_at key lo hi ->
  FindLessThan cmp st key = Ret (before lo).
Proof.
  intros Hi Hl Hk E [Hlo Hhi]. destruct (max_height_top _ _ Hi) as (top & Htop & Ht12).
  unfold FindLessThan, GetMaxHeight. rewrite Htop. replace (Z.of_nat (S top) - 1) with (Z.of_nat top) by lia.
  assert (Forall (elem_ok st) lo) as Hlo_ok by (pose proof (inv_elems _ _ Hi) as Ho; rewrite E in Ho; by apply Forall_app in Ho as [? _]).
  assert (forall e, e ∈ l -> exists nd z, node_at st (e_loc e) = Ret nd /\ cmp (node_key nd) key = Ret z /\ (z < 0 <-> lt (e_key e) key)) as Hcmp.
  { intros e He. pose proof (sl_elem _ _ _ Hi He) as Hok. destruct (node_at_ok _ _ Hok) as (nd & Hnd & Hkey).
    destruct (cmp_ok (e_key e) key (proj1 (proj2 Hok)) Hk) as (z & Hz & Hlt & _). exists nd, z. by rewrite Hkey. }
  assert (forall i pre post, level i lo = pre ++ post ->
    (if Nat.eqb (before pre) head_ then Ret tt
     else let! nd := node_at st (before pre) in let! c := cmp (node_key nd) key in assert_ (c <? 0)) = Ret tt) as Hassert.
  { intros i pre post El. destruct (decide (pre = [])) as [->|Hne]; [done|].
    destruct (exists_last Hne) as (pre' & e & ->). rewrite before_snoc.
    destruct (Nat.eqb _ _); [done|].
    assert (e ∈ lo) as Hel by (apply (elem_of_level i); rewrite El; set_solver).
    destruct (Hcmp e) as (nd & z & -> & Hz & Hlt); [set_solver|]. cbn. rewrite Hz. cbn.
    rewrite (proj2 (Z.ltb_lt _ _)); [done|]. apply Hlt. by apply (Forall_elem _ _ _ Hlo). }
  assert (forall i, (i < S top)%nat -> find_lt_body cmp st key (before (level i lo), Z.of_nat i) =
    if decide (i = O) then Ret (inr (before (level i lo))) else Ret (inl (before (level i lo), Z.of_nat i - 1))) as Hbody.
  { intros i Hlt. unfold find_lt_body. rewrite (Hassert i _ []) by (by rewrite app_nil_r). cbn [res_bind].
    erewrite next_down; [|done..|lia]. cbn [res_bind].
    assert (forall A (a b : A), (if Z.of_nat i =? 0 then a else b) = if decide (i = O) then a else b) as Hif.
    { intros A a b. destruct (decide (i = O)) as [->|Hne]; [done|]. by rewrite (proj2 (Z.eqb_neq _ _)) by lia. }
    destruct (head (level i hi)) as [e|] eqn:He; cbn [fmap option_fmap option_map]; [|apply Hif].
    apply head_level in He. destruct (Hcmp e) as (nd & z & Hnd & Hz & Hzl); [set_solver|].
    change (option_map e_loc (Some e)) with (Some (e_loc e)). cbn match. rewrite Hnd. cbn [res_bind]. rewrite Hz. cbn [res_bind].
    rewrite (proj2 (Z.leb_le _ _)); [apply Hif|].
    destruct (decide (z < 0)) as [Hneg|]; [|lia]. exfalso. by apply (Forall_elem _ _ _ Hhi He), Hzl. }
  rewrite (walk_search (find_lt_body cmp st key) (fun x i _ => (x, Z.of_nat i)) (fun _ => before lo)
    (fun _ u => u) (fun i _ => (i < S top)%nat) lo top tt); [done| | | |lia|done|].
  - intros pre e post i _ Ha E'. unfold find_lt_body. rewrite (Hassert i _ _ E'). cbn [res_bind].
    destruct (next_right st l lo hi pre e post i Hi E) as (-> & Hel & Hel'); [lia|done|]. cbn [res_bind].
    destruct (Hcmp e Hel') as (nd & z & -> & Hz & Hlt). cbn [res_bind]. rewrite Hz. cbn [res_bind].
    rewrite (proj2 (Z.leb_gt _ _)); [done|]. apply Hlt. by apply (Forall_elem _ _ _ Hlo).
  - intros i _ Ha. split; [lia|]. rewrite Hbody by done. rewrite decide_False by lia. do 3 f_equal. lia.
  - intros _ Ha. rewrite Hbody by done. rewrite decide_True by done. by rewrite (level_0 lo st).
  - rewrite E, zlength_app in Hl. pose proof (zlength_nonneg hi). lia.
Qed.

Lemma FindLast_eq st l : sl_inv st l -> zlength l < 2 ^ 60 -> FindLast st = Ret (before l).
Proof.
  intros Hi Hl. destruct (max_height_top _ _ Hi) as (top & Htop & Ht12).
  unfold FindLast, GetMaxHeight. rewrite Htop. replace (Z.of_nat (S top) - 1) with (Z.of_nat top) by lia.
  assert (l = l ++ []) as E by (by rewrite app_nil_r).
  assert (forall i, (i < S top)%nat -> find_last_body st (before (level i l), Z.of_nat i) =
    if decide (i = O) then Ret (inr (before (level i l))) else Ret (inl (before (level i l), Z.of_nat i - 1))) as Hbody.
  { intros i Hlt. unfold find_last_body. erewrite (next_down st l l []); [|done..|lia]. cbn [res_bind].
    cbn. destruct (decide (i = O)) as [->|Hne]; [done|]. by rewrite (proj2 (Z.eqb_neq _ _)) by lia. }
  rewrite (walk_search (find_last_body st) (fun x i _ => (x, Z.of_nat i)) (fun _ => before l)
    (fun _ u => u) (fun i _ => (i < S top)%nat) l top tt); [done| | | |lia|done|done].
  - intros pre e post i _ Ha E'. unfold find_last_body.
    destruct (next_right st l l [] pre e post i Hi E) as (-> & _); [lia|done|]. done.
  - intros i _ Ha. split; [lia|]. rewrite Hbody by done. rewrite decide_False by lia. do 3 f_equal. lia.
  - intros _ Ha. rewrite Hbody by done. rewrite decide_True by done. by rewrite (level_0 l st) by apply (inv_elems _ _ Hi).
Qed.

(** ** Updates *)

(** The second state has the nodes of the first, with other links. *)
Record same_nodes st st' : Prop := {
  same_height : max_height_ st' = max_height_ st;
  same_node : forall x nd, nodes st !! x = Some nd ->
    exists nd', nodes st' !! x = Some nd' /\ node_key nd' = node_key nd /\ length (next_ nd') = length (next_ nd);
}.

Lemma same_nodes_trans st1 st2 st3 : same_nodes st1 st2 -> same_nodes st2 st3 -> same_nodes st1 st3.
Proof.
  intros [Hh Hn] [Hh' Hn']. split; [congruence|]. intros x nd Hx.
  destruct (Hn _ _ Hx) as (nd' & Hx' & Hk & Hl). destruct (Hn' _ _ Hx') as (nd'' & Hx'' & Hk' & Hl').
  exists nd''. split; [done|]. split; congruence.
Qed.

Lemma elem_ok_same st st' e : same_nodes st st' -> elem_ok st e -> elem_ok st' e.
Proof.
  intros [Hh Hn] (Hne & Hv & Hpos & Hle & nd & Hnd & Hk & Hl). destruct (Hn _ _ Hnd) as (nd' & Hnd' & Hk' & Hl').
  do 3 (split; [done|]). split; [by rewrite Hh|]. exists nd'. split; [done|]. split; congruence.
Qed.

Lemma SetNext_ok st x i v nd :
  nodes st !! x = Some nd -> (i < length (next_ nd))%nat ->
  exists st', SetNext st x (Z.of_nat i) v = Ret st' /\ same_nodes st st' /\
    forall y j, next_of st' y j = if decide (y = x /\ j = i) then Some v else next_of st y j.
Proof.
  intros Hx Hi. unfold SetNext, node_at. rewrite Hx. cbn. unfold zlength.
  rewrite (proj2 (Z.leb_le _ _)), (proj2 (Z.ltb_lt _ _)) by lia. cbn. rewrite Nat2Z.id. eexists. split; [done|].
  assert (x < length (nodes st))%nat as Hlt by (by eapply lookup_lt_Some). split; [split; [done|]|].
  - intros y nd' Hy. cbn. destruct (decide (x = y)) as [<-|Hne].
    + rewrite list_lookup_insert_eq by done. eexists. split; [done|]. cbn. rewrite length_insert. by replace nd' with nd by congruence.
    + rewrite list_lookup_insert_ne by done. by exists nd'.
  - intros y j. unfold next_of. cbn. destruct (decide (x = y)) as [<-|Hne].
    + rewrite list_lookup_insert_eq, Hx by done. cbn. destruct (decide (x = x /\ j = i)) as [[_ ->]|Hne].
      * by apply list_lookup_insert_eq.
      * apply list_lookup_insert_ne. naive_solver.
    + rewrite list_lookup_insert_ne by done. rewrite decide_False by naive_solver. done.
Qed.

Lemma linked_mono st st' i p :
  linked st i p -> (forall x v, x ∈ p -> next_of st x i = Some v -> next_of st' x i = Some v) -> linked st' i p.
Proof.
  induction p as [|a p IH]; [done|]. intros [Ha Hp] Hx. split; [apply Hx; [set_solver|done]|].
  apply IH; [done|]. intros x v Hin. apply Hx. set_solver.
Qed.

Lemma linked_insert st st' i pre a n post :
  NoDup (pre ++ a :: post) -> n ∉ pre ++ a :: post -> linked st i (pre ++ a :: post) ->
  next_of st' a i = Some (Some n) -> next_of st' n i = Some (head post) ->
  (forall x, x <> a -> x <> n -> next_of st' x i = next_of st x i) ->
  linked st' i (pre ++ a :: n :: post).
Proof.
  intros Hnd Hn Hl Ha Hn' Hframe. induction pre as [|b pre IH]; cbn in *.
  - destruct Hl as [_ Hl]. split; [done|]. split; [done|]. apply list.NoDup_cons in Hnd as [Hapost _].
    eapply linked_mono; [exact Hl|]. intros x v Hx <-. apply Hframe; intros ->; [done|]. set_solver.
  - destruct Hl as [Hb Hl]. apply list.NoDup_cons in Hnd as [Hbpre Hnd]. split.
    + rewrite Hframe; [|set_solver..]. rewrite Hb. by destruct pre.
    + apply IH; [done| |done]. set_solver.
Qed.

Lemma sl_nodup st l : sl_inv st l -> NoDup (head_ :: (e_loc <$> l)).
Proof.
  intros Hi. pose proof (inv_elems _ _ Hi) as Hok. pose proof (inv_sorted _ _ Hi) as Hs. apply list.NoDup_cons. split.
  - intros Hin. apply list_elem_of_fmap in Hin as (e & He & Hel). by destruct (Forall_elem _ _ _ Hok Hel).
  - clear Hi. induction l as [|e l IH]; [constructor|]. apply sorting.StronglySorted_cons in Hs as [Hall Hs].
    apply Forall_cons_1 in Hok as [He Hok]. cbn. apply list.NoDup_cons. split; [|by apply IH].
    intros Hin. apply list_elem_of_fmap in Hin as (e' & He' & Hel).
    destruct (Forall_elem _ _ _ Hok Hel) as (_ & _ & _ & _ & nd' & Hnd' & Hk' & _).
    destruct He as (_ & _ & _ & _ & nd & Hnd & Hk & _). rewrite He', Hnd' in Hnd. injection Hnd as ->.
    pose proof (Forall_elem _ _ _ Hall Hel) as Hlt. cbn in Hlt. rewrite <- Hk, <- Hk' in Hlt. by apply lt_irrefl in Hlt.
Qed.

(** ** Insert *)
Section insert.
Context (lo hi : list (elem K)) (new : elem K).

(** The levels below [i] have the new node, the others not yet. *)
Definition chain (i j : nat) : list (elem K) := if decide (j < i)%nat then lo ++ new :: hi else lo ++ hi.

Record linking (i : nat) st : Prop := {
  li_head : exists nd, nodes st !! head_ = Some nd /\ length (next_ nd) = Z.to_nat kMaxHeight;
  li_elems : Forall (elem_ok st) (lo ++ new :: hi);
  li_nodup : NoDup (head_ :: (e_loc <$> lo ++ new :: hi));
  li_linked : forall j, (j < Z.to_nat kMaxHeight)%nat -> linked st j (head_ :: (e_loc <$> level j (chain i j)));
}.

Lemma level_sub i l : level i l `sublist_of` l.
Proof. apply sublist_filter. Qed.

Lemma before_node st i : linking i st -> (i < Z.to_nat kMaxHeight)%nat ->
  exists nd, nodes st !! before (level i lo) = Some nd /\ (i < length (next_ nd))%nat.
Proof.
  intros Hl Hi. destruct (decide (level i lo = [])) as [->|Hne].
  - destruct (li_head _ _ Hl) as (nd & Hnd & Hlen). exists nd. split; [done|]. by rewrite Hlen.
  - destruct (exists_last Hne) as (q & e & E). rewrite E, before_snoc.
    assert (e ∈ level i lo) as He by (rewrite E; set_solver). apply elem_of_level in He as [Hh He].
    destruct (Forall_elem _ _ e (li_elems _ _ Hl)) as (_ & _ & _ & _ & nd & Hnd & _ & Hlen); [set_solver|].
    exists nd. split; [done|]. by rewrite Hlen.
Qed.

Lemma chain_level i j : level j (chain i j) = level j lo ++ level j (if decide (j < i)%nat then new :: hi else hi).
Proof. unfold chain. destruct (decide _); apply level_app. Qed.

Lemma level_new j : (j < e_height new)%nat -> level j (new :: hi) = new :: level j hi.
Proof. intros Hj. unfold level. by rewrite filter_cons_True. Qed.

Lemma level_skip j : (e_height new <= j)%nat -> level j (new :: hi) = level j hi.
Proof. intros Hj. unfold level. rewrite filter_cons_False; [done|lia]. Qed.

Lemma next_lo st i j : linking i st -> (j < Z.to_nat kMaxHeight)%nat -> (i <= j)%nat ->
  next_of st (before (level j lo)) j = Some (e_loc <$> head (level j hi)).
Proof.
  intros Hl Hj Hij. eapply next_before; [apply (li_linked _ _ Hl j Hj)|].
  rewrite chain_level, decide_False by lia. done.
Qed.

(** One turn of the loop of [Insert]. *)
Lemma linking_step st i :
  linking i st -> (i < e_height new)%nat -> (e_height new <= Z.to_nat kMaxHeight)%nat ->
  exists st1 st2, SetNext st (e_loc new) (Z.of_nat i) (e_loc <$> head (level i hi)) = Ret st1 /\
    SetNext st1 (before (level i lo)) (Z.of_nat i) (Some (e_loc new)) = Ret st2 /\
    linking (S i) st2 /\ same_nodes st st2.
Proof.
  intros Hl Hi Hh.
  destruct (Forall_elem _ _ new (li_elems _ _ Hl)) as (_ & _ & _ & _ & nd & Hnd & _ & Hlen); [set_solver|].
  destruct (SetNext_ok st (e_loc new) i (e_loc <$> head (level i hi)) nd Hnd) as (st1 & E1 & Hs1 & Hn1); [lia|].
  destruct (before_node st i Hl) as (ndp & Hndp & Hlenp); [lia|].
  destruct (same_node _ _ Hs1 _ _ Hndp) as (ndp1 & Hndp1 & _ & Hlenp1).
  destruct (SetNext_ok st1 (before (level i lo)) i (Some (e_loc new)) ndp1 Hndp1) as (st2 & E2 & Hs2 & Hn2); [lia|].
  exists st1, st2. split; [done|]. split; [done|].
  pose proof (same_nodes_trans _ _ _ Hs1 Hs2) as Hs. split; [|done].
  assert (e_loc new ∉ head_ :: (e_loc <$> lo ++ hi) /\ NoDup (head_ :: (e_loc <$> lo ++ hi))) as [Hnew Hnodup].
  { pose proof (li_nodup _ _ Hl) as Hd. rewrite fmap_app in *. cbn in Hd. rewrite app_comm_cons in *.
    rewrite <- Permutation_middle in Hd. by apply list.NoDup_cons in Hd. }
  assert (forall j, (head_ :: (e_loc <$> level j (lo ++ hi))) `sublist_of` (head_ :: (e_loc <$> lo ++ hi))) as Hsub.
  { intros j. apply sublist_skip, fmap_sublist, level_sub. }
  split.
  - destruct (li_head _ _ Hl) as (nd0 & Hnd0 & Hlen0). destruct (same_node _ _ Hs _ _ Hnd0) as (nd0' & Hnd0' & _ & ?).
    exists nd0'. split; [done|]. congruence.
  - eapply List.Forall_impl; [|exact (li_elems _ _ Hl)]. intros e. by apply elem_ok_same.
  - apply (li_nodup _ _ Hl).
  - intros j Hj. pose proof (li_linked _ _ Hl j Hj) as Hlj. destruct (decide (j = i)) as [->|Hne].
    + rewrite chain_level, decide_False in Hlj by lia.
      rewrite chain_level, decide_True, level_new, fmap_app by lia. rewrite fmap_app in Hlj. cbn [fmap list_fmap].
      destruct (before_split (level i lo)) as [q Eq]. rewrite app_comm_cons, Eq, <- app_assoc in Hlj |- *.
      specialize (Hsub i). rewrite level_app, fmap_app, app_comm_cons, Eq, <- app_assoc in Hsub.
      apply (linked_insert st st2).
      * by eapply sublist_NoDup.
      * intros Hin. apply Hnew. by eapply elem_of_sublist.
      * done.
      * rewrite Hn2, decide_True by done. done.
      * assert (e_loc new <> before (level i lo)) as Hdiff.
        { intros Heq. apply Hnew. rewrite Heq. eapply elem_of_sublist; [|exact Hsub]. set_solver. }
        rewrite Hn2, decide_False, Hn1, decide_True by naive_solver. by rewrite head_fmap.
      * intros x Hx Hx'. rewrite Hn2, decide_False, Hn1, decide_False by naive_solver. done.
    + replace (chain (S i) j) with (chain i j) by (unfold chain; repeat case_decide; done || lia).
      eapply linked_mono; [exact Hlj|]. intros x v _. rewrite Hn2, decide_False, Hn1, decide_False by naive_solver. done.
Qed.

Lemma link_levels_ok m i st prev :
  linking i st -> (i + m = e_height new)%nat -> (e_height new <= Z.to_nat kMaxHeight)%nat ->
  (forall j, (j < e_height new)%nat -> prev !! j = Some (Some (before (level j lo)))) ->
  exists st', link_levels m (Z.of_nat i) (e_loc new) prev st = Ret st' /\
    linking (e_height new) st' /\ same_nodes st st'.
Proof.
  intros Hl Hm Hh Hprev. revert i st Hl Hm. induction m as [|m IH]; intros i st Hl Hm; cbn [link_levels].
  - replace i with (e_height new) in Hl by lia. exists st. split; [done|]. split; [done|].
    split; [done|]. intros x nd Hx. by exists nd.
  - rewrite Nat2Z.id, Hprev by lia. cbn. rewrite (Next_of _ _ _ _ (next_lo st i i Hl ltac:(lia) ltac:(lia))). cbn.
    destruct (linking_step st i Hl) as (st1 & st2 & E1 & E2 & Hl2 & Hs2); [lia..|].
    change (option_map e_loc (head (level i hi))) with (e_loc <$> head (level i hi)). rewrite E1. cbn. rewrite E2. cbn.
    destruct (IH (S i) st2 Hl2) as (st' & E & Hl' & Hs'); [lia|]. exists st'.
    replace (Z.of_nat i + 1) with (Z.of_nat (S i)) by lia. split; [done|]. split; [done|].
    by eapply same_nodes_trans.
Qed.
End insert.

Lemma random_height_bound n h seed :
  h <= (random_height_loop n h seed).1 <= h + Z.of_nat n.
Proof.
  revert h seed. induction n as [|n IH]; intros h seed; cbn [random_height_loop]; [cbn; lia|].
  cbv zeta. destruct (_ =? 0); [|cbn; lia]. specialize (IH (h + 1) (Random_Next seed)). lia.
Qed.

Lemma fill_prev_ok n i q :
  0 <= i -> i + Z.of_nat n <= zlength q ->
  exists q', fill_prev n i (Some q) = Ret (Some q') /\ length q' = length q /\
    (forall j, i <= Z.of_nat j < i + Z.of_nat n -> q' !! j = Some (Some head_)) /\
    (forall j, Z.of_nat j < i -> q' !! j = q !! j).
Proof.
  revert i q. induction n as [|n IH]; intros i q Hi Hn; cbn [fill_prev].
  - exists q. split; [done|]. split; [done|]. split; [intros; lia|done].
  - unfold set_prev. rewrite (proj2 (Z.leb_le _ _)), (proj2 (Z.ltb_lt _ _)) by lia. cbn.
    destruct (IH (i + 1) (<[Z.to_nat i := Some head_]> q)) as (q' & E & Hlen & Hin & Hout);
      [lia|unfold zlength in *; rewrite length_insert; lia|].
    exists q'. split; [done|]. split; [by rewrite Hlen, length_insert|]. unfold zlength in Hn. split.
    + intros j Hj. destruct (decide (Z.of_nat j = i)) as [<-|Hne]; [|apply Hin; lia].
      rewrite Hout, Nat2Z.id by lia. apply list_lookup_insert_eq. lia.
    + intros j Hj. rewrite Hout by lia. apply list_lookup_insert_ne. lia.
Qed.

(** A node that is not linked yet. *)
Lemma linking_start st lo hi key h arena mh rnd :
  let st' := MkSkipList (nodes st ++ [MkNode key (replicate h None)]) arena mh rnd in
  let new := MkElem (length (nodes st)) key h in
  sl_inv st (lo ++ hi) -> valid key -> (0 < h)%nat -> Z.of_nat h <= mh -> max_height_ st <= mh ->
  linking lo hi new 0 st' /\ max_height_ st' = mh.
Proof.
  intros st' new Hi Hk Hh Hmh Hle. split; [|done].
  assert (forall x nd, nodes st !! x = Some nd -> nodes st' !! x = Some nd) as Hold.
  { intros x nd Hx. cbn. by apply lookup_app_l_Some. }
  assert (forall e, elem_ok st e -> elem_ok st' e) as Helem.
  { intros e (He & Hv & Hpos & Hhe & nd & Hnd & Hke & Hlen). do 3 (split; [done|]). split; [cbn; lia|].
    exists nd. split; [by apply Hold|done]. }
  destruct (inv_head _ _ Hi) as (nd0 & Hnd0 & Hlen0). split.
  - exists nd0. split; [by apply Hold|done].
  - pose proof (inv_elems _ _ Hi) as Hok. apply Forall_app in Hok as [Hlo Hhi]. apply Forall_app. split.
    { eapply List.Forall_impl; [|exact Hlo]. exact Helem. }
    constructor; [|eapply List.Forall_impl; [|exact Hhi]; exact Helem].
    split; [|split; [done|split; [done|split; [done|]]]].
    + apply lookup_lt_Some in Hnd0. unfold head_ in *. cbn. lia.
    + exists (MkNode key (replicate h None)). split; [|split; [done|]].
      * cbn. rewrite lookup_app_r by lia. by rewrite Nat.sub_diag.
      * cbn. by rewrite length_replicate.
  - rewrite fmap_app. cbn. rewrite app_comm_cons, <- Permutation_middle. apply list.NoDup_cons. split.
    + intros Hin. rewrite <- app_comm_cons, <- fmap_app in Hin. apply elem_of_cons in Hin as [E|Hin].
      * apply lookup_lt_Some in Hnd0. unfold head_ in *. lia.
      * apply list_elem_of_fmap in Hin as (e & E & He). destruct (sl_elem _ _ _ Hi He) as (_ & _ & _ & _ & nd & Hnd & _).
        apply lookup_lt_Some in Hnd. lia.
    + rewrite <- app_comm_cons, <- fmap_app. by apply (sl_nodup st).
  - intros j Hj. unfold chain. rewrite decide_False by lia. eapply linked_mono; [by apply (inv_linked _ _ Hi)|].
    intros x v _. unfold next_of. destruct (nodes st !! x) as [nd|] eqn:E; [|done]. by rewrite (Hold _ _ E).
Qed.

(** The end of [Insert]: the chain is the list with the new node. *)
Lemma linking_done st lo hi new :
  linking lo hi new (e_height new) st -> 1 <= max_height_ st <= kMaxHeight -> sorted (lo ++ new :: hi) ->
  sl_inv st (lo ++ new :: hi).
Proof.
  intros Hl Hmh Hs. split; [apply Hl|done|apply Hl|done|]. intros i Hi.
  pose proof (li_linked _ _ _ _ _ Hl i Hi) as Hli. unfold chain in Hli. case_decide as Hd; [done|].
  rewrite level_app, level_skip by lia. by rewrite <- level_app.
Qed.

Lemma sorted_insert lo hi new :
  sorted (lo ++ hi) -> split_at (e_key new) lo hi ->
  (forall e, e ∈ hi -> lt (e_key e) (e_key new) \/ lt (e_key new) (e_key e)) -> sorted (lo ++ new :: hi).
Proof.
  intros Hs [Hlo Hhi] Hne. apply sorted_app in Hs as (Hslo & Hshi & Hlh).
  assert (forall b, b ∈ hi -> lt (e_key new) (e_key b)) as Hnew.
  { intros b Hb. destruct (Hne b Hb) as [Hlt|]; [|done]. by destruct (Forall_elem _ _ _ Hhi Hb). }
  apply sorted_app. split; [done|]. split.
  - apply sorting.StronglySorted_cons. split; [|done]. apply List.Forall_forall. intros b Hb.
    apply Hnew. by apply list_elem_of_In.
  - intros a b Ha Hb. apply elem_of_cons in Hb as [->|Hb]; [by apply (Forall_elem _ _ _ Hlo)|by apply Hlh].
Qed.

(** No element of [l] is equal to [key]. *)
Definition fresh_key key l : Prop := Forall (fun e => lt (e_key e) key \/ lt key (e_key e)) l.

(** The levels the list did not have yet start at the head. *)
Lemma raise_ok st lo hi q height seed top :
  sl_inv st (lo ++ hi) -> max_height_ st = Z.of_nat (S top) -> 1 <= height <= 12 -> length q = 12%nat ->
  (forall j, (j <= top)%nat -> q !! j = Some (Some (before (level j lo)))) ->
  let l := MkSkipList (nodes st) (arena_ st) (max_height_ st) seed in
  exists q' mh,
    (if GetMaxHeight l <? height then
       let! prev := fill_prev (Z.to_nat (height - GetMaxHeight l)) (GetMaxHeight l) (Some q) in
       Ret (prev, MkSkipList (nodes l) (arena_ l) height (rnd_ l))
     else Ret (Some q, l)) = Ret (Some q', MkSkipList (nodes st) (arena_ st) mh seed) /\
    height <= mh /\ max_height_ st <= mh <= kMaxHeight /\
    forall j, (j < Z.to_nat height)%nat -> q' !! j = Some (Some (before (level j lo))).
Proof.
  intros Hi Htop Hheight Hlen Hq l. pose proof (inv_height _ _ Hi) as Hmh.
  unfold l, GetMaxHeight. cbn [max_height_ nodes arena_ rnd_]. destruct (Z.ltb_spec (max_height_ st) height) as [Hlt|Hge].
  - destruct (fill_prev_ok (Z.to_nat (height - max_height_ st)) (max_height_ st) q) as (q' & -> & _ & Hin & Hout);
      [lia|unfold zlength; lia|].
    exists q', height. split; [done|]. split; [lia|]. split; [unfold kMaxHeight; lia|]. intros j Hj.
    destruct (decide (Z.of_nat j < max_height_ st)) as [Hjm|Hjm]; [rewrite Hout by done; apply Hq; lia|].
    rewrite Hin by lia. rewrite (level_high j lo st); [done| |lia].
    pose proof (inv_elems _ _ Hi) as Hok. by apply Forall_app in Hok as [? _].
  - exists q, (max_height_ st). split; [done|]. split; [done|]. split; [unfold kMaxHeight in *; lia|].
    intros j Hj. apply Hq. lia.
Qed.

(** The assertion against duplicates. *)
Lemma no_duplicate st lo hi key :
  sl_inv st (lo ++ hi) -> valid key -> fresh_key key (lo ++ hi) ->
  match e_loc <$> head hi with
  | None => Ret tt
  | Some y => let! nd := node_at st y in let! e := Equal cmp key (node_key nd) in assert_ (negb e)
  end = Ret tt.
Proof.
  intros Hi Hk Hfresh. destruct hi as [|e hi]; [done|]. cbn [head fmap option_fmap option_map].
  assert (e ∈ lo ++ e :: hi) as He by set_solver. pose proof (sl_elem _ _ _ Hi He) as Hok.
  destruct (node_at_ok _ _ Hok) as (nd & -> & Hnk). cbn [res_bind]. unfold Equal. rewrite Hnk.
  destruct (cmp_ok key (e_key e) Hk (proj1 (proj2 Hok))) as (z & -> & _ & Hz & _). cbn [res_bind].
  rewrite (proj2 (Z.eqb_neq _ _)); [done|]. pose proof (Forall_elem _ _ _ Hfresh He). naive_solver.
Qed.

Lemma Insert_ok st l key :
  sl_inv st l -> zlength l < 2 ^ 60 -> valid key -> fresh_key key l ->
  exists st' lo hi new, Insert cmp st key = Ret st' /\ l = lo ++ hi /\ split_at key lo hi /\
    e_key new = key /\ sl_inv st' (lo ++ new :: hi).
Proof.
  intros Hi Hl Hk Hfresh. destruct (split_exists key l Hk (sl_valid _ _ Hi) (inv_sorted _ _ Hi)) as (lo & hi & -> & Hsp).
  destruct (max_height_top _ _ Hi) as (top & Htop & Ht12). unfold Insert.
  rewrite (FindGreaterOrEqual_eq st _ lo hi key _ top Hi Hl Hk eq_refl Hsp Htop) by (split; [lia|rewrite length_replicate; change (Z.to_nat kMaxHeight) with 12%nat; lia]).
  destruct (descend_Some lo top (replicate (Z.to_nat kMaxHeight) None)) as (q & Eq & Hlen & Hq & _).
  { rewrite length_replicate. change (Z.to_nat kMaxHeight) with 12%nat. lia. }
  rewrite Eq. rewrite length_replicate in Hlen. change (Z.to_nat kMaxHeight) with 12%nat in Hlen. cbn [res_bind].
  rewrite (no_duplicate st lo hi key Hi Hk Hfresh).
  cbn [res_bind]. unfold RandomHeight. pose proof (random_height_bound (Z.to_nat (kMaxHeight - 1)) 1 (rnd_ st)) as Hb.
  destruct (random_height_loop _ 1 (rnd_ st)) as [height seed]. cbn [fst] in Hb. change (Z.of_nat (Z.to_nat (kMaxHeight - 1))) with 11 in Hb.
  set (new := MkElem (length (nodes st)) key (Z.to_nat height)).
  pose proof (inv_height _ _ Hi) as Hmh.
  destruct (raise_ok st lo hi q height seed top Hi Htop) as (q' & mh & Eraise & Hmh1 & Hmh2 & Hq'); [lia|done|done|].
  cbv beta iota. rewrite Eraise.
  cbn [res_bind].
  unfold NewNode. cbn [nodes arena_ max_height_ rnd_].
  destruct (AllocateAligned_ok (sizeof_Node + 8 * (height - 1)) (arena_ st)) as (addr & arena & -> & _). cbn [res_bind].
  destruct (linking_start st lo hi key (Z.to_nat height) arena mh seed Hi Hk) as [Hstart Hmax]; [lia..|].
  destruct (link_levels_ok lo hi new (Z.to_nat height) 0 _ q' Hstart) as (st' & E & Hdone & Hsame);
    [done|unfold kMaxHeight; cbn; lia|done|].
  exists st', lo, hi, new. split; [exact E|]. split; [done|]. split; [done|]. split; [done|].
  apply linking_done; [done|rewrite (same_height _ _ Hsame); cbn; lia|].
  apply sorted_insert; [by apply inv_sorted with st|done|]. intros e He. apply (Forall_elem _ _ _ Hfresh). set_solver.
Qed.

(** ** Reading *)
Lemma unless_head_before st l pre post :
  sl_inv st l -> l = pre ++ post -> unless_head (before pre) = e_loc <$> list.last pre.
Proof.
  intros Hi E. destruct (decide (pre = [])) as [->|Hne]; [done|]. destruct (exists_last Hne) as (pre' & e & ->).
  rewrite before_snoc, last_snoc. cbn. unfold unless_head. rewrite (proj2 (Nat.eqb_neq _ _)); [done|].
  apply (sl_elem st l); [done|]. rewrite E. set_solver.
Qed.

Lemma Find_none st l key : sl_inv st l -> zlength l < 2 ^ 60 -> valid key ->
  exists lo hi, l = lo ++ hi /\ split_at key lo hi /\
    FindGreaterOrEqual cmp st key None = Ret (e_loc <$> head hi, None).
Proof.
  intros Hi Hl Hk. destruct (split_exists key l Hk (sl_valid _ _ Hi) (inv_sorted _ _ Hi)) as (lo & hi & E & Hsp).
  destruct (max_height_top _ _ Hi) as (top & Htop & _). exists lo, hi. split; [done|]. split; [done|].
  rewrite (FindGreaterOrEqual_eq st l lo hi key None top Hi Hl Hk E Hsp Htop) by (split; [lia|done]).
  by rewrite descend_None.
Qed.

Lemma Seek_ok st l key : sl_inv st l -> zlength l < 2 ^ 60 -> valid key ->
  exists lo hi, l = lo ++ hi /\ split_at key lo hi /\ Iter_Seek cmp st key = Ret (e_loc <$> head hi).
Proof.
  intros Hi Hl Hk. destruct (Find_none st l key Hi Hl Hk) as (lo & hi & E & Hsp & Hf).
  exists lo, hi. split; [done|]. split; [done|]. unfold Iter_Seek. by rewrite Hf.
Qed.

Lemma Contains_ok st l key : sl_inv st l -> zlength l < 2 ^ 60 -> valid key ->
  exists b : bool, Contains cmp st key = Ret b /\
    (b = true <-> exists e, e ∈ l /\ ~ lt (e_key e) key /\ ~ lt key (e_key e)).
Proof.
  intros Hi Hl Hk. destruct (Find_none st l key Hi Hl Hk) as (lo & hi & E & [Hlo Hhi] & Hf).
  unfold Contains. rewrite Hf. cbn [res_bind]. destruct hi as [|e hi].
  - exists false. split; [done|]. split; [done|]. intros (e & He & Hne & _). rewrite E, app_nil_r in He.
    by destruct Hne; apply (Forall_elem _ _ _ Hlo).
  - assert (e ∈ l) as Hel by (rewrite E; set_solver). pose proof (sl_elem _ _ _ Hi Hel) as Hok.
    destruct (node_at_ok _ _ Hok) as (nd & Hnd & Hnk). cbn. rewrite Hnd. cbn. unfold Equal. rewrite Hnk.
    destruct (cmp_ok key (e_key e) Hk (proj1 (proj2 Hok))) as (z & -> & _ & Hz & _). cbn. exists (z =? 0).
    split; [done|]. rewrite Z.eqb_eq, Hz. split; [intros []; by exists e|]. intros (e' & He' & Hn1 & Hn2).
    apply Forall_cons_1 in Hhi as [Hn _]. split; [|done].
    rewrite E in He'. apply elem_of_app in He' as [He'|He']; [by destruct Hn1; apply (Forall_elem _ _ _ Hlo)|].
    apply elem_of_cons in He' as [->|He']; [done|]. intros Hlt. apply Hn2.
    pose proof (inv_sorted _ _ Hi) as Hs. rewrite E in Hs. apply sorted_app in Hs as (_ & Hs & _).
    apply sorting.StronglySorted_cons in Hs as [Hs _]. pose proof (Forall_elem _ _ _ Hs He'). by transitivity (e_key e).
Qed.

Lemma Iter_key_ok st l e : sl_inv st l -> e ∈ l -> Iter_key st (Some (e_loc e)) = Ret (e_key e).
Proof.
  intros Hi He. destruct (node_at_ok st e) as (nd & Hnd & Hk); [by apply (sl_elem _ l)|].
  cbn. rewrite Hnd. cbn. by rewrite Hk.
Qed.

Lemma Next_level0 st l pre post : sl_inv st l -> l = pre ++ post -> Next st (before pre) 0 = Ret (e_loc <$> head post).
Proof.
  intros Hi ->. pose proof (inv_height _ _ Hi). change 0 with (Z.of_nat 0). eapply Next_before; [done|lia|].
  rewrite (level_0 _ st); [done|by apply inv_elems].
Qed.

Lemma Iter_Next_ok st l pre e post : sl_inv st l -> l = pre ++ e :: post ->
  Iter_Next st (Some (e_loc e)) = Ret (e_loc <$> head post).
Proof.
  intros Hi ->. unfold Iter_Next. rewrite <- (before_snoc pre e). eapply Next_level0; [done|].
  by rewrite <- app_assoc.
Qed.

Lemma Iter_Prev_ok st l pre e post : sl_inv st l -> zlength l < 2 ^ 60 -> l = pre ++ e :: post ->
  Iter_Prev cmp st (Some (e_loc e)) = Ret (e_loc <$> list.last pre).
Proof.
  intros Hi Hl E. assert (e ∈ l) as He by (rewrite E; set_solver). pose proof (sl_elem _ _ _ Hi He) as Hok.
  destruct (node_at_ok _ _ Hok) as (nd & Hnd & Hk). unfold Iter_Prev. rewrite Hnd. cbn [res_bind]. rewrite Hk.
  rewrite (FindLessThan_eq st l pre (e :: post)); [cbn; by erewrite unless_head_before|done|done|apply Hok|done|].
  pose proof (inv_sorted _ _ Hi) as Hs. rewrite E in Hs. apply sorted_app in Hs as (_ & Hs & Hpre). split.
  - apply List.Forall_forall. intros a Ha. apply Hpre; [by apply list_elem_of_In|set_solver].
  - apply sorting.StronglySorted_cons in Hs as [Hall _]. constructor; [apply lt_irrefl|].
    eapply List.Forall_impl; [|exact Hall]. intros b Hb Hlt. apply (lt_irrefl (e_key e)). by transitivity (e_key b).
Qed.

Lemma SeekToFirst_ok st l : sl_inv st l -> Iter_SeekToFirst st = Ret (e_loc <$> head l).
Proof. intros Hi. by apply (Next_level0 st l [] l). Qed.

Lemma SeekToLast_ok st l : sl_inv st l -> zlength l < 2 ^ 60 -> Iter_SeekToLast st = Ret (e_loc <$> list.last l).
Proof.
  intros Hi Hl. unfold Iter_SeekToLast. rewrite (FindLast_eq _ _ Hi Hl). cbn.
  by rewrite (unless_head_before st l l [] Hi ltac:(by rewrite app_nil_r)).
Qed.

(** The owner's allocations do not matter. *)
Lemma sl_inv_arena st l a : sl_inv st l -> sl_inv (set_arena a st) l.
Proof.
  intros [Hh Hm He Hs Hl]. split; [exact Hh|exact Hm|exact He|exact Hs|].
  intros i Hi. eapply linked_mono; [exact (Hl i Hi)|done].
Qed.

(** ** From the empty list *)
Lemma new_SkipList_inv arena any_key : exists st, new_SkipList arena any_key = Ret st /\ sl_inv st [].
Proof.
  unfold new_SkipList, NewNode. cbn [arena_ nodes max_height_ rnd_].
  destruct (AllocateAligned_ok (sizeof_Node + 8 * (kMaxHeight - 1)) arena) as (addr & arena' & -> & _). cbn [res_bind].
  eexists. split; [by vm_compute|].
  split; [eexists; split; [done|]; cbn; done|done|constructor|constructor|].
  intros i Hi. split; [|done]. unfold kMaxHeight in Hi. cbn in Hi. do 12 (destruct i as [|i]; [done|]). lia.
Qed.

Fixpoint insert_all st (keys : list K) : res (SkipList K) :=
  match keys with [] => Ret st | key :: keys => let! st := Insert cmp st key in insert_all st keys end.

(** No two keys are equal. *)
Definition distinct (keys : list K) : Prop := ForallOrdPairs (fun a b => lt a b \/ lt b a) keys.

Lemma fresh_insert key lo hi new :
  fresh_key key (lo ++ hi) -> lt (e_key new) key \/ lt key (e_key new) -> fresh_key key (lo ++ new :: hi).
Proof. unfold fresh_key. rewrite !Forall_app. intros [Hlo Hhi] Hn. split; [done|by constructor]. Qed.

Lemma insert_all_ok keys st l :
  sl_inv st l -> zlength l + zlength keys < 2 ^ 60 -> Forall valid keys -> distinct keys ->
  Forall (fun key => fresh_key key l) keys ->
  exists st' l', insert_all st keys = Ret st' /\ sl_inv st' l' /\ e_key <$> l' ≡ₚ (e_key <$> l) ++ keys.
Proof.
  revert st l. induction keys as [|key keys IH]; intros st l Hi Hlen Hv Hd Hf; cbn [insert_all].
  - exists st, l. by rewrite app_nil_r.
  - apply Forall_cons_1 in Hv as [Hk Hv]. rewrite zlength_cons in Hlen. pose proof (zlength_nonneg keys).
    apply Forall_cons_1 in Hf as [Hfresh Hf]. inversion Hd as [|? ? Hall Hd']; subst.
    destruct (Insert_ok st l key Hi ltac:(lia) Hk Hfresh) as (st1 & lo & hi & new & -> & -> & _ & Hnew & Hi1).
    cbn [res_bind]. destruct (IH st1 (lo ++ new :: hi) Hi1) as (st' & l' & E & Hi' & Hp).
    + rewrite zlength_app, zlength_cons in *. lia.
    + done.
    + done.
    + apply List.Forall_forall. intros k Hin. apply list_elem_of_In in Hin. apply fresh_insert.
      * by apply (Forall_elem _ _ _ Hf).
      * rewrite Hnew. by apply (Forall_elem _ _ k Hall).
    + exists st', l'. split; [done|]. split; [done|]. rewrite Hp, !fmap_app. cbn. rewrite Hnew, <- !app_assoc. cbn.
      by rewrite !Permutation_middle.
Qed.
End facts.

(** C20: Inserting any keys, no two of them equal and fewer than 2^60, into an empty
    skip list succeeds, whatever heights the random numbers give, and the list
    then satisfies its invariant: its bottom level is a sorted permutation of
    the keys, and each higher level links the nodes that are high enough, in the
    same order. The comparator is a strict order, [new char[]] does not fail,
    and operations do not run at the same time. *)
Theorem skiplist_inserts {K} `{NewArrayOk} (cmp : K -> K -> res Z) valid `{!KeyOrder cmp valid} arena (any_key : K) keys :
  Forall valid keys -> distinct cmp valid keys -> zlength keys < 2 ^ 60 ->
  exists st0 st l, new_SkipList arena any_key = Ret st0 /\ insert_all cmp st0 keys = Ret st /\
    sl_inv cmp valid st l /\ e_key <$> l ≡ₚ keys.
Proof.
  intros Hv Hd Hl. destruct (new_SkipList_inv cmp valid arena any_key) as (st0 & E0 & Hi0).
  destruct (insert_all_ok cmp valid keys st0 []) as (st & l & E & Hi & Hp).
  - done.
  - change (zlength (@nil (elem K))) with 0. lia.
  - done.
  - done.
  - apply List.Forall_forall. intros. constructor.
  - by exists st0, st, l.
Qed.

(** C21: on a skip list whose nodes are [l], an iterator at a node has its
    key and moves to the node after or before it in [l], [SeekToFirst] and
    [SeekToLast] go to the ends of [l] (null for an empty list), [Seek] goes to
    the first node whose key is not before the target, and [Contains] says
    whether [l] has a key that is equal to it.  All the searches end. *)
Theorem skiplist_reads {K} (cmp : K -> K -> res Z) valid `{!KeyOrder cmp valid} st l :
  sl_inv cmp valid st l -> zlength l < 2 ^ 60 ->
  Iter_SeekToFirst st = Ret (e_loc <$> head l) /\
  Iter_SeekToLast st = Ret (e_loc <$> list.last l) /\
  (forall pre e post, l = pre ++ e :: post ->
    Iter_key st (Some (e_loc e)) = Ret (e_key e) /\
    Iter_Next st (Some (e_loc e)) = Ret (e_loc <$> head post) /\
    Iter_Prev cmp st (Some (e_loc e)) = Ret (e_loc <$> list.last pre)) /\
  (forall target, valid target ->
    (exists lo hi, l = lo ++ hi /\ split_at cmp valid target lo hi /\
      Iter_Seek cmp st target = Ret (e_loc <$> head hi)) /\
    exists b : bool, Contains cmp st target = Ret b /\
      (b = true <-> exists e, e ∈ l /\ ~ k_lt cmp valid (e_key e) target /\ ~ k_lt cmp valid target (e_key e))).
Proof.
  intros Hi Hl. split; [by eapply SeekToFirst_ok|]. split; [by eapply SeekToLast_ok|]. split.
  - intros pre e post E. split; [eapply Iter_key_ok; [done|rewrite E; set_solver]|].
    split; [by eapply Iter_Next_ok|by eapply Iter_Prev_ok].
  - intros target Ht. split; [by apply Seek_ok|by apply Contains_ok].
Qed.

(** Integers, as an instance. *)
Definition Z_compare (a b : Z) : res Z := Ret (a - b).

#[export] Program Instance Z_order : KeyOrder Z_compare (fun _ => True) := {| k_lt := Z.lt |}.
Next Obligation. intros a b _ _. exists (a - b). split; [done|]. lia. Qed.

Lemma skiplist_inserts_witness :
  exists st0 st l, new_SkipList new_Arena 0 = Ret st0 /\ insert_all Z_compare st0 [5; 1; 3] = Ret st /\
    sl_inv Z_compare (fun _ => True) st l /\ e_key <$> l ≡ₚ [5; 1; 3].
Proof.
  apply (skiplist_inserts Z_compare (fun _ => True) new_Arena 0 [5; 1; 3]).
  - by repeat constructor.
  - repeat constructor; cbn; lia.
  - done.
Defined.

Lemma skiplist_reads_witness :
  exists st0 st l, new_SkipList new_Arena 0 = Ret st0 /\ insert_all Z_compare st0 [5; 1; 3] = Ret st /\
    e_key <$> l ≡ₚ [5; 1; 3] /\ Iter_SeekToFirst st = Ret (e_loc <$> head l).
Proof.
  destruct (new_SkipList_inv Z_compare (fun _ => True) new_Arena 0) as (st0 & E0 & Hi0).
  destruct (insert_all_ok Z_compare (fun _ => True) [5; 1; 3] st0 [] Hi0) as (st & l & E & Hi & Hp).
  - done.
  - by repeat constructor.
  - repeat constructor; cbn; lia.
  - by repeat constructor.
  - exists st0, st, l. split; [done|]. split; [done|]. split; [done|].
    apply (skiplist_reads Z_compare (fun _ => True) st l Hi).
    apply Permutation_length in Hp. rewrite length_fmap in Hp. unfold zlength. by rewrite Hp.
Defined.
