(* ===== verification/MemTable.v ===== *)
(** * LevelDB: the memtable (memtable.h, memtable.cc)

    A skip list of entries.  An entry is a pointer into the arena; here it is
    the bytes from that pointer to the end of its object, and so are the
    pointers to lookup keys.  The arena never frees or changes an entry.  The
    arena of the memtable is the one its skip list uses. *)
From S2P Require Import Prelude LdbBase Arena Coding Comparator DbFormat WriteBatch SkipList.

(** [GetLengthPrefixedSlice] of a pointer: the slice and the bytes behind it. *)
Definition entry_slice (data : bytes) : res (bytes * bytes) :=
  match GetVarint32Ptr (ztake 5 data) with
  | None => UB
  | Some (len, q) =>
      let p := zdrop (size (ztake 5 data) - size q) data in
      if size p <? len then UB else Ret (ztake len p, zdrop len p)
  end.

(** [EncodeKey]. *)
Definition EncodeKey (target : bytes) : bytes := PutVarint32 [] (u32 (size target)) ++ target.

Record MemTable : Type := MkMemTable {
  refs_ : Z;
  table_ : SkipList bytes;
}.

Section memtable.
Context `{NewArray}.
Variable user_comparator : Comparator.

(** [KeyComparator::operator()]. *)
Definition KeyComparator (aptr bptr : bytes) : res Z :=
  let! '(a, _) := entry_slice aptr in
  let! '(b, _) := entry_slice bptr in
  Compare (InternalKeyComparator user_comparator) a b.

Definition new_MemTable : res MemTable :=
  let! table := new_SkipList new_Arena [] in Ret (MkMemTable 0 table).

Definition ApproximateMemoryUsage (m : MemTable) : Z := MemoryUsage (arena_ (table_ m)).

(** [Ref] and [Unref]; [None] is the deleted memtable. *)
Definition Ref (m : MemTable) : MemTable := MkMemTable (refs_ m + 1) (table_ m).

Definition Unref (m : MemTable) : res (option MemTable) :=
  let refs := refs_ m - 1 in
  let! _ := assert_ (0 <=? refs) in
  Ret (if refs <=? 0 then None else Some (MkMemTable refs (table_ m))).

Definition Add (m : MemTable) (s : SequenceNumber) (t : ValueType) (key value : bytes) : res MemTable :=
  let key_size := size key in
  let val_size := size value in
  let internal_key_size := key_size + 8 in
  let! klen := VarintLength internal_key_size in
  let! vlen := VarintLength val_size in
  let encoded_len := klen + internal_key_size + vlen + val_size in
  let! '(_, arena) := Allocate encoded_len (arena_ (table_ m)) in
  let buf := EncodeVarint32 (u32 internal_key_size) ++ key ++
             EncodeFixed64 (u64 (Z.shiftl s 8) .| ValueType_value t) ++
             EncodeVarint32 (u32 val_size) ++ value in
  let! _ := assert_ (size buf =? encoded_len) in
  let! table := Insert KeyComparator (set_arena arena (table_ m)) buf in
  Ret (MkMemTable (refs_ m) table).

(** [Get]: the result, [*value] and [*s]. *)
Definition Get (m : MemTable) (key : LookupKey) (value : bytes) (s : Status) : res (bool * bytes * Status) :=
  let! iter := Iter_Seek KeyComparator (table_ m) (memtable_key key) in
  if Iter_Valid iter then
    let! entry := Iter_key (table_ m) iter in
    match GetVarint32Ptr (ztake 5 entry) with
    | None => UB
    | Some (key_length, q) =>
        let key_ptr := zdrop (size (ztake 5 entry) - size q) entry in
        if (u32 (key_length - 8) <=? size key_ptr) then
          let! c := Compare user_comparator (ztake (u32 (key_length - 8)) key_ptr) (lookup_user_key key) in
          if c =? 0 then
            let! tag := DecodeFixed64 (zdrop (key_length - 8) key_ptr) in
            match ValueType_of (tag .& 0xff) with
            | Some kTypeValue =>
                let! '(v, _) := entry_slice (zdrop key_length key_ptr) in
                Ret (true, v, s)
            | Some kTypeDeletion => Ret (true, value, NotFound [])
            | None => Ret (false, value, s)
            end
          else Ret (false, value, s)
        else UB
    end
  else Ret (false, value, s).

(** ** MemTableIterator: the pointer of the iterator of the skip list. *)
Definition mem_Valid (iter : option nat) : bool := Iter_Valid iter.
Definition mem_Seek (m : MemTable) (k : bytes) : res (option nat) :=
  Iter_Seek KeyComparator (table_ m) (EncodeKey k).
Definition mem_SeekToFirst (m : MemTable) : res (option nat) := Iter_SeekToFirst (table_ m).
Definition mem_SeekToLast (m : MemTable) : res (option nat) := Iter_SeekToLast (table_ m).
Definition mem_Next (m : MemTable) (iter : option nat) : res (option nat) := Iter_Next (table_ m) iter.
Definition mem_Prev (m : MemTable) (iter : option nat) : res (option nat) :=
  Iter_Prev KeyComparator (table_ m) iter.
Definition mem_key (m : MemTable) (iter : option nat) : res bytes :=
  let! entry := Iter_key (table_ m) iter in
  let! '(k, _) := entry_slice entry in Ret k.
Definition mem_value (m : MemTable) (iter : option nat) : res bytes :=
  let! entry := Iter_key (table_ m) iter in
  let! '(_, rest) := entry_slice entry in
  let! '(v, _) := entry_slice rest in Ret v.

(** ** MemTableInserter (write_batch.cc) *)
Record MemTableInserter : Type := MkMemTableInserter {
  sequence_ : SequenceNumber;
  mem_ : MemTable;
}.

#[export] Instance MemTableInserter_handler : Handler MemTableInserter := {|
  h_Put key value i :=
    let! mem := Add (mem_ i) (sequence_ i) kTypeValue key value in
    Ret (MkMemTableInserter (u64 (sequence_ i + 1)) mem);
  h_Delete key i :=
    let! mem := Add (mem_ i) (sequence_ i) kTypeDeletion key [] in
    Ret (MkMemTableInserter (u64 (sequence_ i + 1)) mem);
|}.

Definition InsertInto (b : bytes) (memtable : MemTable) : res (Status * MemTable) :=
  let! seq := Sequence b in
  let! '(s, inserter) := Iterate b (MkMemTableInserter seq memtable) in
  Ret (s, mem_ inserter).
End memtable.
