(* ===== verification/MemTableFacts.v ===== *)
(** * The memtable is a history of the database

    [mem_holds m es]: the entries of [m] are [es], the newest first.  [Add]
    and [InsertInto] push entries; [Get] is a lookup in the history. *)
From stdpp Require sorting.
From S2P Require Import Prelude WireFormat LdbBase Arena Coding Comparator DbFormat WriteBatch SkipList SkipListFacts MemTable.

(** ** Length-prefixed entries *)
Lemma varint32_length n : 0 <= n < 2 ^ 32 -> 1 <= zlength (varint_bytes n) <= 5.
Proof.
  intros Hn. rewrite <- EncodeVarint32_spec by done.
  unfold EncodeVarint32. repeat case_match; unfold zlength; cbn [length]; lia.
Qed.

(** A varint of at most five bytes, seen through the window of five bytes. *)
Lemma varint_window n tl :
  0 <= n < 2 ^ 32 -> bytes_ok tl ->
  exists q, GetVarint32Ptr (ztake 5 (varint_bytes n ++ tl)) = Some (n, q) /\
    zdrop (size (ztake 5 (varint_bytes n ++ tl)) - size q) (varint_bytes n ++ tl) = tl.
Proof.
  intros Hn Ht. pose proof (varint32_length n Hn) as Hl. set (q := ztake (5 - zlength (varint_bytes n)) tl).
  assert (ztake 5 (varint_bytes n ++ tl) = varint_bytes n ++ q) as Eq.
  { unfold q, ztake, zlength in *. rewrite take_app, (take_ge (varint_bytes n)) by lia. do 2 f_equal. lia. }
  exists q. rewrite Eq. assert (bytes_ok q) as Hq by (by apply Forall_take).
  rewrite GetVarint32Ptr_spec by (apply bytes_ok_app; split; [apply varint_bytes_ok; lia|done]).
  split; [apply parsed_ptr_bytes; [done|lia|vm_compute; discriminate|lia]|].
  unfold size. rewrite zlength_app. replace (zlength (varint_bytes n) + zlength q - zlength q) with (zlength (varint_bytes n)) by lia.
  apply zdrop_app.
Qed.

Lemma entry_slice_ok s rest :
  zlength s < 2 ^ 32 -> bytes_ok (s ++ rest) ->
  entry_slice (varint_bytes (zlength s) ++ s ++ rest) = Ret (s, rest).
Proof.
  intros Hl Hb. pose proof (zlength_nonneg s). pose proof (zlength_nonneg rest). unfold entry_slice.
  destruct (varint_window (zlength s) (s ++ rest)) as (q & -> & ->); [lia|done|].
  unfold size at 1. rewrite zlength_app, (proj2 (Z.ltb_ge _ _)) by lia. by rewrite ztake_app, zdrop_app.
Qed.

Section facts.
Context `{NewArrayOk} (uc : Comparator) (valid : bytes -> Prop) `{!ComparatorOk uc valid}.

(** ** The order of the entries *)
Definition mvalid (p : bytes) : Prop := exists ik rest, entry_slice p = Ret (ik, rest) /\ ivalid valid ik.

Definition mlt (a b : bytes) : Prop :=
  exists ik rest ik' rest', entry_slice a = Ret (ik, rest) /\ entry_slice b = Ret (ik', rest') /\
    key_lt (InternalKeyComparator uc) (ivalid valid) ik ik'.

#[local] Instance mlt_strict : StrictOrder mlt.
Proof.
  split.
  - intros a (ik & r & ik' & r' & Ea & Eb & Hl). rewrite Ea in Eb. injection Eb as <- <-. by apply key_lt_irrefl in Hl.
  - intros a b c (k1 & r1 & k2 & r2 & Ea & Eb & Hl) (k3 & r3 & k4 & r4 & Eb' & Ec & Hl').
    rewrite Eb in Eb'. injection Eb' as <- <-. exists k1, r1, k4, r4. split; [done|]. split; [done|].
    by transitivity k2.
Qed.

Lemma mlt_slices a b ik r ik' r' :
  entry_slice a = Ret (ik, r) -> entry_slice b = Ret (ik', r') ->
  mlt a b <-> key_lt (InternalKeyComparator uc) (ivalid valid) ik ik'.
Proof.
  intros Ea Eb. split; [|intros Hl; by exists ik, r, ik', r'].
  intros (k1 & r1 & k2 & r2 & Ea' & Eb' & Hl). congruence.
Qed.

#[export] Instance KeyComparator_order : KeyOrder (KeyComparator uc) mvalid.
Proof.
  refine {| k_lt := mlt |}. intros a b (ik & r & Ea & Ha) (ik' & r' & Eb & Hb). unfold KeyComparator.
  rewrite Ea, Eb, !res_bind_ret. destruct (Compare_ok ik ik' Ha Hb) as (z & E & Hz). exists z. split; [exact E|].
  rewrite (mlt_slices _ _ _ _ _ _ Ea Eb), (mlt_slices _ _ _ _ _ _ Eb Ea).
  destruct (Z.compare_spec z 0) as [->|Hneg|Hpos].
  - subst ik'. pose proof (key_lt_irrefl (InternalKeyComparator uc) (ivalid valid) ik). split; split; try tauto; lia.
  - pose proof (key_lt_asym _ _ _ _ Hz). split; split; try tauto; lia.
  - pose proof (key_lt_asym _ _ _ _ Hz). split; split; try tauto; lia.
Defined.

(** ** Histories *)
Record mem_entry : Type := MkMemEntry {
  me_user : bytes;
  me_seq : SequenceNumber;
  me_type : ValueType;
  me_value : bytes;
}.

Definition me_ikey (e : mem_entry) : bytes := ikey (me_user e) (me_seq e) (me_type e).

Definition entry_bytes (e : mem_entry) : bytes :=
  varint_bytes (zlength (me_ikey e)) ++ me_ikey e ++ varint_bytes (zlength (me_value e)) ++ me_value e.

Definition entry_ok (e : mem_entry) : Prop :=
  valid (me_user e) /\ bytes_ok (me_user e) /\ zlength (me_user e) + 8 < 2 ^ 32 /\ seq_ok (me_seq e) /\
  string_ok (me_value e).

(** The newest entry comes first. *)
Definition newest_first (es : list mem_entry) : Prop := ForallOrdPairs (fun a b => me_seq b < me_seq a) es.

Definition matches (u : bytes) (s : SequenceNumber) (e : mem_entry) : bool :=
  bool_decide (me_user e = u) && (me_seq e <=? s).

(** What a reader with snapshot [s] sees at [u]. *)
Definition lookup_entry (u : bytes) (s : SequenceNumber) (es : list mem_entry) : option mem_entry :=
  head (filter (fun e => matches u s e = true) es).

Record mem_holds (m : MemTable) (es : list mem_entry) : Prop := {
  mh_list : exists l, sl_inv (KeyComparator uc) mvalid (table_ m) l /\ e_key <$> l ≡ₚ entry_bytes <$> es;
  mh_entries : Forall entry_ok es;
  mh_order : newest_first es;
}.

Lemma zlength_ikey u s t : zlength (ikey u s t) = zlength u + 8.
Proof. unfold ikey. by rewrite zlength_app, zlength_fixed64. Qed.

Lemma entry_tail_ok e : entry_ok e -> bytes_ok (varint_bytes (zlength (me_value e)) ++ me_value e).
Proof. intros (_ & _ & _ & _ & [Hv _]). apply bytes_ok_app. split; [apply varint_bytes_ok, zlength_nonneg|done]. Qed.

Lemma me_ikey_ok e : entry_ok e -> bytes_ok (me_ikey e).
Proof. intros (_ & Hb & _). apply bytes_ok_app. split; [done|]. rewrite EncodeFixed64_le. apply le_bytes_ok. Qed.

Lemma entry_slice_entry e : entry_ok e ->
  entry_slice (entry_bytes e) = Ret (me_ikey e, varint_bytes (zlength (me_value e)) ++ me_value e).
Proof.
  intros He. apply entry_slice_ok.
  - unfold me_ikey. rewrite zlength_ikey. apply He.
  - apply bytes_ok_app. split; [by apply me_ikey_ok|by apply entry_tail_ok].
Qed.

Lemma me_ikey_valid e : entry_ok e -> ivalid valid (me_ikey e).
Proof. intros (Hv & _ & _ & Hs & _). exists (me_user e), (tag (me_seq e) (me_type e)). split; [done|]. split; [done|]. by apply tag_bound. Qed.

Lemma entry_valid e : entry_ok e -> mvalid (entry_bytes e).
Proof. intros He. eexists _, _. split; [by apply entry_slice_entry|by apply me_ikey_valid]. Qed.

Lemma lookup_valid u s :
  valid u -> bytes_ok u -> zlength u + 8 < 2 ^ 32 -> seq_ok s ->
  entry_slice (EncodeVarint32 (zlength u + 8) ++ ikey u s kTypeValue) = Ret (ikey u s kTypeValue, []).
Proof.
  intros Hv Hb Hl Hs. pose proof (zlength_nonneg u). rewrite EncodeVarint32_spec by lia.
  rewrite <- (zlength_ikey u s kTypeValue). rewrite <- (app_nil_r (ikey u s kTypeValue)) at 2. apply entry_slice_ok.
  - by rewrite zlength_ikey.
  - rewrite app_nil_r. apply bytes_ok_app. split; [done|]. rewrite EncodeFixed64_le. apply le_bytes_ok.
Qed.

(** The order of entries and targets, by user key and tag. *)
Lemma ikey_order u s t u' s' t' : seq_ok s -> seq_ok s' ->
  key_lt (InternalKeyComparator uc) (ivalid valid) (ikey u s t) (ikey u' s' t') <->
  key_lt uc valid u u' \/ u = u' /\ tag s' t' < tag s t.
Proof. intros Hs Hs'. apply ikey_lt_intro; by apply tag_bound. Qed.

Lemma tag_lt_seq s t s' t' : s < s' -> tag s t < tag s' t'.
Proof. intros Hs. unfold tag. destruct t, t'; cbn [ValueType_value]; lia. Qed.

Lemma tag_value s t s' : tag s t <= tag s' kTypeValue <-> s <= s'.
Proof. unfold tag. destruct t; cbn [ValueType_value]; lia. Qed.

(** The entries are the keys of the list. *)
Lemma holds_entry_in l es e : e_key <$> l ≡ₚ entry_bytes <$> es -> e ∈ es -> exists x, x ∈ l /\ e_key x = entry_bytes e.
Proof.
  intros Hp He. assert (entry_bytes e ∈ e_key <$> l) as Hin by (rewrite Hp; by apply list_elem_of_fmap_2).
  apply list_elem_of_fmap in Hin as (x & Hx & Hin). by exists x.
Qed.

Lemma holds_elem_in l es (x : elem bytes) : e_key <$> l ≡ₚ entry_bytes <$> es -> x ∈ l -> exists e, e ∈ es /\ e_key x = entry_bytes e.
Proof.
  intros Hp He. assert (e_key x ∈ entry_bytes <$> es) as Hin by (rewrite <- Hp; by apply list_elem_of_fmap_2).
  apply list_elem_of_fmap in Hin as (e & Hx & Hin). by exists e.
Qed.

Lemma newest_first_inj es a b : newest_first es -> a ∈ es -> b ∈ es -> me_seq a = me_seq b -> a = b.
Proof.
  intros Hn. induction Hn as [|x es Hx Hn IH]; intros Ha Hb E; [set_solver|].
  apply elem_of_cons in Ha as [->|Ha], Hb as [->|Hb]; [done| | |by apply IH].
  - pose proof (Forall_elem _ _ _ Hx Hb) as Hl. cbn in Hl. lia.
  - pose proof (Forall_elem _ _ _ Hx Ha) as Hl. cbn in Hl. lia.
Qed.

(** The lookup is the newest match. *)
Lemma lookup_entry_spec u s es e :
  newest_first es -> e ∈ es -> matches u s e = true ->
  (forall e', e' ∈ es -> matches u s e' = true -> me_seq e' <= me_seq e) -> lookup_entry u s es = Some e.
Proof.
  intros Hn He Hm Hmax. unfold lookup_entry. induction Hn as [|x es Hx Hn IH]; [set_solver|].
  destruct (decide (matches u s x = true)) as [Hmx|Hmx].
  - rewrite filter_cons_True by done. cbn. f_equal. apply elem_of_cons in He as [->|He]; [done|].
    pose proof (Forall_elem _ _ _ Hx He) as Hl. cbn in Hl. specialize (Hmax x ltac:(set_solver) Hmx). lia.
  - rewrite filter_cons_False by done. apply elem_of_cons in He as [->|He]; [done|].
    apply IH; [done|]. intros e' He'. apply Hmax. set_solver.
Qed.

Lemma lookup_entry_none u s es : (forall e, e ∈ es -> matches u s e = true -> False) -> lookup_entry u s es = None.
Proof.
  intros Hno. unfold lookup_entry. destruct (filter _ es) as [|e f] eqn:E; [done|]. exfalso.
  assert (e ∈ filter (fun e => matches u s e = true) es) as He by (rewrite E; set_solver).
  apply list_elem_of_filter in He as [Hm He]. by apply (Hno e).
Qed.

(** ** Add *)
Lemma packed_tag s t : seq_ok s -> u64 (Z.shiftl s 8) .| ValueType_value t = tag s t.
Proof.
  intros Hs. pose proof (PackSequenceAndType_ok s t Hs) as E. unfold PackSequenceAndType in E.
  rewrite assert_true, res_bind_ret in E by (apply Z.leb_le, Hs).
  rewrite assert_true, res_bind_ret in E by by destruct t. by injection E.
Qed.

Lemma new_MemTable_holds : exists m, new_MemTable = Ret m /\ mem_holds m [].
Proof.
  unfold new_MemTable. destruct (new_SkipList_inv (KeyComparator uc) mvalid new_Arena []) as (t & -> & Ht).
  rewrite res_bind_ret. eexists. split; [done|]. split; [exists []; by split|constructor|constructor].
Qed.

Lemma entry_fresh l es e :
  e_key <$> l ≡ₚ entry_bytes <$> es -> Forall entry_ok es -> entry_ok e ->
  Forall (fun e' => me_seq e' < me_seq e) es -> fresh_key (KeyComparator uc) mvalid (entry_bytes e) l.
Proof.
  intros Hp Hes He Hlt. apply List.Forall_forall. intros x Hx. apply list_elem_of_In in Hx.
  destruct (holds_elem_in _ _ _ Hp Hx) as (e' & He' & ->). pose proof (Forall_elem _ _ _ Hes He') as Hok'.
  cbn [k_lt KeyComparator_order].
  rewrite !(mlt_slices _ _ _ _ _ _ (entry_slice_entry _ Hok') (entry_slice_entry _ He)),
    !(mlt_slices _ _ _ _ _ _ (entry_slice_entry _ He) (entry_slice_entry _ Hok')).
  destruct (Compare_ok (ComparatorOk := InternalKeyComparator_ok uc valid) (me_ikey e') (me_ikey e)) as (z & _ & Hz);
    [by apply me_ikey_valid..|].
  destruct (z ?= 0); [|by left|by right]. exfalso.
  pose proof (Forall_elem _ _ _ Hlt He') as Hl. cbn in Hl.
  destruct Hok' as (_ & _ & _ & Hs' & _), He as (_ & _ & _ & Hs & _).
  pose proof (tag_lt_seq _ (me_type e') _ (me_type e) Hl).
  apply fixed64_app_inj in Hz as [_ Hz]; [lia|by apply tag_bound..].
Qed.

Lemma Add_ok m es e :
  mem_holds m es -> entry_ok e -> Forall (fun e' => me_seq e' < me_seq e) es -> zlength es < 2 ^ 60 ->
  exists m', Add uc m (me_seq e) (me_type e) (me_user e) (me_value e) = Ret m' /\
    refs_ m' = refs_ m /\ mem_holds m' (e :: es).
Proof.
  intros [(l & Hi & Hp) Hes Hnew] He Hlt Hlen. pose proof He as (Hv & Hb & Hul & Hs & [Hvb Hvl]).
  pose proof (zlength_nonneg (me_user e)). pose proof (zlength_nonneg (me_value e)). unfold Add, size.
  rewrite !VarintLength_spec, !res_bind_ret by lia. rewrite packed_tag, !wrap_small by (done || lia). rewrite !EncodeVarint32_spec by lia.
  assert (varint_bytes (zlength (me_user e) + 8) ++ me_user e ++ EncodeFixed64 (tag (me_seq e) (me_type e)) ++
    varint_bytes (zlength (me_value e)) ++ me_value e = entry_bytes e) as ->.
  { unfold entry_bytes, me_ikey. rewrite zlength_ikey. unfold ikey. by rewrite <- !app_assoc. }
  pose proof (varint32_length (zlength (me_user e) + 8) ltac:(lia)).
  pose proof (varint32_length (zlength (me_value e)) ltac:(lia)).
  match goal with |- context [Allocate ?n ?a] => destruct (Allocate_ok n a ltac:(lia)) as (addr & arena & ->) end.
  rewrite res_bind_ret, assert_true, res_bind_ret.
  2:{ apply Z.eqb_eq. unfold entry_bytes, me_ikey. rewrite !zlength_app, !zlength_ikey. lia. }
  destruct (Insert_ok (KeyComparator uc) mvalid _ l (entry_bytes e) (sl_inv_arena _ _ _ _ arena Hi)) as (st' & lo & hi & new & E & -> & _ & Hk & Hi').
  - apply Permutation_length in Hp. rewrite !length_fmap in Hp. unfold zlength in *. lia.
  - by apply entry_valid.
  - by eapply entry_fresh.
  - rewrite E, res_bind_ret. eexists. split; [done|]. split; [done|]. split.
    + exists (lo ++ new :: hi). split; [done|]. cbn. rewrite fmap_app. cbn. rewrite Hk, <- Hp, fmap_app. by rewrite Permutation_middle.
    + by constructor.
    + by constructor.
Qed.

(** ** Batches *)
Definition op_entry (seq : SequenceNumber) (o : op) : mem_entry :=
  match o with
  | OpPut key value => MkMemEntry key seq kTypeValue value
  | OpDelete key => MkMemEntry key seq kTypeDeletion []
  end.

Fixpoint push_ops (seq : SequenceNumber) (ops : list op) (es : list mem_entry) : list mem_entry :=
  match ops with [] => es | o :: ops => push_ops (seq + 1) ops (op_entry seq o :: es) end.

Lemma zlength_push_ops seq ops es : zlength (push_ops seq ops es) = zlength ops + zlength es.
Proof.
  revert seq es. induction ops as [|o ops IH]; intros seq es; cbn [push_ops]; [done|].
  rewrite IH, !zlength_cons. lia.
Qed.

(** The keys a memtable accepts: the internal key has a 32-bit length. *)
Definition op_key (o : op) : bytes := match o with OpPut key _ => key | OpDelete key => key end.
Definition op_fits (o : op) : Prop := op_ok o /\ valid (op_key o) /\ zlength (op_key o) + 8 < 2 ^ 32.

Lemma op_entry_ok seq o : op_fits o -> seq_ok seq -> entry_ok (op_entry seq o).
Proof.
  intros (Ho & Hv & Hl) Hs. destruct o as [key value|key]; cbn in *;
    (split; [done|]; split; [apply Ho|]; split; [done|]; split; [done|]).
  - apply Ho.
  - by split; [constructor|].
Qed.

Lemma op_entry_seq seq o : me_seq (op_entry seq o) = seq.
Proof. by destruct o. Qed.

#[local] Existing Instance MemTableInserter_handler.

Lemma apply_op_add seq o m : seq_ok seq ->
  @apply_op _ (MemTableInserter_handler uc) o (MkMemTableInserter seq m) =
    let! m := Add uc m (me_seq (op_entry seq o)) (me_type (op_entry seq o)) (me_user (op_entry seq o)) (me_value (op_entry seq o)) in
    Ret (MkMemTableInserter (seq + 1) m).
Proof.
  intros [Hs0 Hs]. unfold kMaxSequenceNumber in Hs. rewrite Z.shiftl_mul_pow2 in Hs by lia.
  destruct o; cbn [apply_op h_Put h_Delete MemTableInserter_handler mem_ sequence_]; by rewrite wrap_small by lia.
Qed.

Lemma apply_ops_add ops seq m es :
  mem_holds m es -> Forall op_fits ops -> 0 <= seq -> seq + zlength ops <= kMaxSequenceNumber + 1 ->
  Forall (fun e => me_seq e < seq) es -> zlength es + zlength ops < 2 ^ 60 ->
  exists m', @apply_ops _ (MemTableInserter_handler uc) ops (MkMemTableInserter seq m) =
      Ret (MkMemTableInserter (seq + zlength ops) m') /\
    refs_ m' = refs_ m /\ mem_holds m' (push_ops seq ops es).
Proof.
  revert seq m es. induction ops as [|o ops IH]; intros seq m es Hm Hops Hs0 Hs Hlt Hlen; cbn [apply_ops push_ops].
  - exists m. split; [|by split]. change (zlength []) with 0. by rewrite Z.add_0_r.
  - rewrite zlength_cons in *. pose proof (zlength_nonneg ops). apply Forall_cons_1 in Hops as [Ho Hops].
    assert (seq_ok seq) as Hseq by (split; lia). rewrite apply_op_add by done.
    destruct (Add_ok m es (op_entry seq o) Hm) as (m1 & E & Hr1 & Hm1); [by apply op_entry_ok|by rewrite op_entry_seq|lia|].
    rewrite E, !res_bind_ret. destruct (IH (seq + 1) m1 (op_entry seq o :: es) Hm1 Hops) as (m' & E' & Hr' & Hm').
    + lia.
    + lia.
    + constructor; [rewrite op_entry_seq; lia|]. eapply List.Forall_impl; [|exact Hlt]. cbn. lia.
    + rewrite zlength_cons. lia.
    + exists m'. split; [|by split; [congruence|]]. rewrite E'. do 2 f_equal. lia.
Qed.

Lemma holds_Sequence rep seq ops : holds rep seq ops -> 0 <= seq < 2 ^ 64 -> Sequence rep = Ret seq.
Proof. intros -> Hs. by apply DecodeFixed64_Encode. Qed.

Lemma InsertInto_ok rep seq ops m es :
  mem_holds m es -> holds rep seq ops -> Forall op_fits ops ->
  0 <= seq -> seq + zlength ops <= kMaxSequenceNumber + 1 -> zlength ops < 2 ^ 31 ->
  Forall (fun e => me_seq e < seq) es -> zlength es < 2 ^ 59 ->
  exists m', InsertInto uc rep m = Ret (Status_OK, m') /\
    refs_ m' = refs_ m /\ mem_holds m' (push_ops seq ops es).
Proof.
  intros Hm Hrep Hops Hs0 Hs Hn Hlt Hlen. pose proof (zlength_nonneg ops). unfold InsertInto.
  rewrite (holds_Sequence rep seq ops) by (done || unfold kMaxSequenceNumber in Hs; rewrite Z.shiftl_mul_pow2 in Hs; lia).
  rewrite res_bind_ret, (Iterate_holds rep seq ops); [|done| |done].
  - destruct (apply_ops_add ops seq m es Hm Hops Hs0 Hs Hlt ltac:(lia)) as (m' & E & Hr & Hm').
    rewrite E, !res_bind_ret. by exists m'.
  - eapply List.Forall_impl; [|exact Hops]. by intros o [? _].
Qed.

(** ** Get *)

(** What [Get] answers when it comes to an entry of the user key. *)
Definition outcome (e : mem_entry) (value : bytes) (st : Status) : bool * bytes * Status :=
  match me_type e with
  | kTypeValue => (true, me_value e, st)
  | kTypeDeletion => (true, value, NotFound [])
  end.

Lemma tag_low s t : tag s t .& 0xff = ValueType_value t.
Proof. rewrite land_0xFF. unfold tag. rewrite Z.add_comm, Z.mod_add by lia. by destruct t. Qed.

Lemma value_slice e : entry_ok e ->
  entry_slice (varint_bytes (zlength (me_value e)) ++ me_value e) = Ret (me_value e, []).
Proof.
  intros (_ & _ & _ & _ & [Hv Hl]). rewrite <- (app_nil_r (me_value e)) at 2. apply entry_slice_ok; [done|].
  by rewrite app_nil_r.
Qed.

(** The part of [Get] behind [iter.Valid()]. *)
Lemma Get_at m k u e x value st :
  Iter_Seek (KeyComparator uc) (table_ m) (memtable_key k) = Ret (Some x) ->
  Iter_key (table_ m) (Some x) = Ret (entry_bytes e) -> lookup_user_key k = u -> entry_ok e -> valid u ->
  Get uc m k value st =
    Ret (if bool_decide (me_user e = u) then outcome e value st else (false, value, st)).
Proof.
  intros Hseek Hkey Hu He Hv. pose proof He as (Hve & Hb & Hl & Hs & _). pose proof (zlength_nonneg (me_user e)).
  set (tl := varint_bytes (zlength (me_value e)) ++ me_value e).
  unfold Get. rewrite Hseek, res_bind_ret. cbn [Iter_Valid]. rewrite Hkey, res_bind_ret. unfold entry_bytes. fold tl.
  destruct (varint_window (zlength (me_ikey e)) (me_ikey e ++ tl)) as (q & -> & ->).
  { unfold me_ikey. rewrite zlength_ikey. lia. }
  { apply bytes_ok_app. split; [by apply me_ikey_ok|by apply entry_tail_ok]. }
  assert (zlength (me_ikey e) - 8 = zlength (me_user e)) as El by (unfold me_ikey; rewrite zlength_ikey; lia).
  rewrite El, wrap_small by lia. unfold size. pose proof (zlength_nonneg tl).
  rewrite (proj2 (Z.leb_le _ _)) by (unfold me_ikey; rewrite zlength_app, zlength_ikey; lia).
  assert (me_ikey e ++ tl = me_user e ++ EncodeFixed64 (tag (me_seq e) (me_type e)) ++ tl) as Ek
    by (unfold me_ikey, ikey; by rewrite <- app_assoc).
  rewrite Ek, ztake_app, zdrop_app, Hu, <- Ek, zdrop_app. destruct (Compare_ok (me_user e) u Hve Hv) as (z & -> & Hz).
  rewrite res_bind_ret, DecodeFixed64_Encode, res_bind_ret, tag_low, ValueType_of_value by by apply tag_bound.
  unfold outcome. destruct (Z.eqb_spec z 0) as [->|Hne].
  - cbn in Hz. rewrite bool_decide_true by done. destruct (me_type e); [done|]. unfold tl. by rewrite (value_slice e He), res_bind_ret.
  - rewrite bool_decide_false; [done|]. intros Eu. rewrite Eu in Hz. destruct (Z.compare_spec z 0); [done|by apply key_lt_irrefl in Hz..].
Qed.

(** Entries before the target, and matches. *)
Lemma before_target T e u s :
  entry_slice T = Ret (ikey u s kTypeValue, []) -> entry_ok e -> seq_ok s ->
  mlt (entry_bytes e) T <-> key_lt uc valid (me_user e) u \/ me_user e = u /\ s < me_seq e.
Proof.
  intros HT He Hs. rewrite (mlt_slices _ _ _ _ _ _ (entry_slice_entry e He) HT). unfold me_ikey.
  rewrite ikey_order by (done || apply He). pose proof (tag_value (me_seq e) (me_type e) s).
  assert (tag s kTypeValue < tag (me_seq e) (me_type e) <-> s < me_seq e) by lia. tauto.
Qed.

Lemma matches_spec u s e : matches u s e = true <-> me_user e = u /\ me_seq e <= s.
Proof. unfold matches. by rewrite andb_true_iff, bool_decide_eq_true, Z.leb_le. Qed.

Lemma match_not_before T e u s :
  entry_slice T = Ret (ikey u s kTypeValue, []) -> entry_ok e -> seq_ok s ->
  matches u s e = true -> ~ mlt (entry_bytes e) T.
Proof.
  intros HT He Hs Hm Hl. apply matches_spec in Hm as [Hu Hle].
  apply (before_target T e u s HT He Hs) in Hl as [Hl|[_ Hl]]; [|lia]. rewrite Hu in Hl. by apply key_lt_irrefl in Hl.
Qed.

(** A match at or behind the first entry that is not before the target has
    its user key, and is not newer. *)
Lemma match_behind T e e' u s :
  entry_slice T = Ret (ikey u s kTypeValue, []) -> entry_ok e -> entry_ok e' -> seq_ok s ->
  ~ mlt (entry_bytes e) T -> entry_bytes e' = entry_bytes e \/ mlt (entry_bytes e) (entry_bytes e') ->
  matches u s e' = true -> me_user e = u /\ me_seq e' <= me_seq e.
Proof.
  intros HT He He' Hs Hnb Hor Hm. apply matches_spec in Hm as [Hu Hle]. destruct Hor as [E|Hl].
  - pose proof (entry_slice_entry e He) as E1. pose proof (entry_slice_entry e' He') as E2. rewrite E in E2.
    assert (me_ikey e = me_ikey e') as Ek by congruence.
    apply fixed64_app_inj in Ek as [Eu Et]; [|apply tag_bound; [apply He || apply He']..].
    split; [congruence|]. unfold tag in Et. destruct (me_type e), (me_type e'); cbn [ValueType_value] in Et; lia.
  - rewrite (mlt_slices _ _ _ _ _ _ (entry_slice_entry e He) (entry_slice_entry e' He')) in Hl.
    apply ikey_order in Hl; [|apply He|apply He']. destruct Hl as [Hl|[Eu Hl]].
    + destruct Hnb. apply (before_target T e u s HT He Hs). left. by rewrite <- Hu.
    + split; [congruence|]. unfold tag in Hl. destruct (me_type e), (me_type e'); cbn [ValueType_value] in Hl; lia.
Qed.

Lemma Get_ok m es u s value st :
  mem_holds m es -> zlength es < 2 ^ 60 -> valid u -> bytes_ok u -> zlength u + 8 < 2 ^ 32 -> seq_ok s ->
  exists k, LookupKey_make u s = Ret k /\
    Get uc m k value st = Ret (match lookup_entry u s es with
                               | Some e => outcome e value st
                               | None => (false, value, st)
                               end).
Proof.
  intros [(l & Hi & Hp) Hes Hnew] Hlen Hv Hb Hul Hs.
  destruct (LookupKey_make_ok u s Hs Hul) as (k & Ek & Hmk & _ & Huk). exists k. split; [done|].
  pose proof (lookup_valid u s Hv Hb Hul Hs) as HT. rewrite <- Hmk in HT.
  assert (mvalid (memtable_key k)) as Hval.
  { eexists _, _. split; [exact HT|]. exists u, (tag s kTypeValue). split; [done|]. split; [done|]. by apply tag_bound. }
  destruct (Seek_ok (KeyComparator uc) mvalid (table_ m) l (memtable_key k) Hi) as (lo & hi & -> & [Hlo Hhi] & Hseek).
  { apply Permutation_length in Hp. rewrite !length_fmap in Hp. unfold zlength in *. lia. }
  { done. }
  assert (forall e, e ∈ es -> matches u s e = true -> exists x, x ∈ hi /\ e_key x = entry_bytes e) as Hmatch.
  { intros e He Hm. destruct (holds_entry_in _ _ _ Hp He) as (x & Hx & Ex). exists x. split; [|done].
    apply elem_of_app in Hx as [Hx|Hx]; [|done]. exfalso. pose proof (Forall_elem _ _ _ Hlo Hx) as Hl. cbn in Hl.
    rewrite Ex in Hl. eapply match_not_before; [exact HT|by apply (Forall_elem _ _ _ Hes)|done|done|done]. }
  destruct hi as [|x hi].
  - rewrite lookup_entry_none; [|intros e He Hm; destruct (Hmatch e He Hm) as (x & Hx & _); set_solver].
    unfold Get. by rewrite Hseek.
  - assert (x ∈ lo ++ x :: hi) as Hx by set_solver. destruct (holds_elem_in _ _ _ Hp Hx) as (e & He & Ex).
    pose proof (Forall_elem _ _ _ Hes He) as Hok.
    rewrite (Get_at m k u e (e_loc x)); [|exact Hseek|rewrite <- Ex; by eapply Iter_key_ok|done..].
    apply Forall_cons_1 in Hhi as [Hnx _]. cbn in Hnx. rewrite Ex in Hnx.
    pose proof (inv_sorted _ _ _ _ Hi) as Hsort. apply sorted_app in Hsort as (_ & Hsort & _).
    apply sorting.StronglySorted_cons in Hsort as [Hsort _].
    assert (forall e', e' ∈ es -> matches u s e' = true -> me_user e = u /\ me_seq e' <= me_seq e) as Hbehind.
    { intros e' He' Hm'. destruct (Hmatch e' He' Hm') as (y & Hy & Ey).
      apply (match_behind (memtable_key k) e e' u s); try done; [by apply (Forall_elem _ _ _ Hes)|].
      apply elem_of_cons in Hy as [->|Hy]; [left; congruence|right].
      pose proof (Forall_elem _ _ _ Hsort Hy) as Hl. cbn in Hl. by rewrite Ex, Ey in Hl. }
    destruct (decide (me_user e = u)) as [Hue|Hue].
    + rewrite bool_decide_true by done. erewrite lookup_entry_spec; [done|done|done| |].
      * apply matches_spec. split; [done|]. destruct (decide (s < me_seq e)) as [Hlt|]; [|lia].
        destruct Hnx. apply (before_target _ e u s HT Hok Hs). by right.
      * intros e' He' Hm'. by apply Hbehind.
    + rewrite bool_decide_false by done. rewrite lookup_entry_none; [done|]. intros e' He' Hm'.
      by destruct (Hbehind e' He' Hm').
Qed.
End facts.

(** C8: Replaying a batch into a memtable succeeds and adds one entry for each
    operation, with consecutive sequence numbers; afterwards a reader with any
    snapshot [s] gets, for any user key, the value or the deletion of the newest
    entry whose sequence number is not above [s], and nothing if there is none.
    The entries of the memtable are older than the batch, the keys are valid for
    the comparator, and the sequence numbers fit 56 bits; [new char[]] does not
    fail. *)
Theorem memtable_history `{NewArrayOk} uc valid `{!ComparatorOk uc valid} m es rep seq ops u s value st :
  mem_holds uc valid m es -> holds rep seq ops -> Forall (op_fits valid) ops ->
  0 <= seq -> seq + zlength ops <= kMaxSequenceNumber + 1 -> zlength ops < 2 ^ 31 ->
  Forall (fun e => me_seq e < seq) es -> zlength es < 2 ^ 59 ->
  valid u -> bytes_ok u -> zlength u + 8 < 2 ^ 32 -> seq_ok s ->
  exists m' k,
    InsertInto uc rep m = Ret (Status_OK, m') /\ mem_holds uc valid m' (push_ops seq ops es) /\
    LookupKey_make u s = Ret k /\
    Get uc m' k value st = Ret (match lookup_entry u s (push_ops seq ops es) with
                                | Some e => outcome e value st
                                | None => (false, value, st)
                                end).
Proof.
  intros Hm Hrep Hops Hs0 Hs Hn Hlt Hlen Hv Hb Hul Hsn.
  destruct (InsertInto_ok uc valid rep seq ops m es Hm Hrep Hops Hs0 Hs Hn Hlt Hlen) as (m' & E & _ & Hm').
  destruct (Get_ok uc valid m' _ u s value st Hm') as (k & Ek & EG); [|done..|by exists m', k].
  rewrite zlength_push_ops. lia.
Qed.

Lemma memtable_history_witness :
  exists m0 m k, new_MemTable = Ret m0 /\
    InsertInto BytewiseComparator
      (EncodeFixed64 7 ++ EncodeFixed32 2 ++ ops_bytes [OpPut [1; 2] [9]; OpDelete [1; 2]]) m0 = Ret (Status_OK, m) /\
    LookupKey_make [1; 2] 7 = Ret k /\ Get BytewiseComparator m k [] Status_OK = Ret (true, [9], Status_OK).
Proof.
  destruct (new_MemTable_holds BytewiseComparator bytes_ok) as (m0 & E0 & Hm0).
  destruct (memtable_history BytewiseComparator bytes_ok m0 [] (EncodeFixed64 7 ++ EncodeFixed32 2 ++ ops_bytes [OpPut [1; 2] [9]; OpDelete [1; 2]]) 7
    [OpPut [1; 2] [9]; OpDelete [1; 2]] [1; 2] 7 [] Status_OK Hm0) as (m & k & E & _ & Ek & EG).
  - done.
  - assert (bytes_ok [1; 2] /\ bytes_ok [9]) as [Hk Hv] by (split; by apply bytes_ok_forallb).
    constructor; [|constructor; [|constructor]].
    + split; [split; by split|]. by split.
    + split; [by split|]. by split.
  - lia.
  - vm_compute. discriminate.
  - done.
  - constructor.
  - done.
  - by apply bytes_ok_forallb.
  - by apply bytes_ok_forallb.
  - done.
  - by split.
  - exists m0, m, k. split; [exact E0|]. split; [exact E|]. split; [exact Ek|]. exact EG.
Defined.
