(* ===== verification/Recover.v ===== *)
(** * LevelDB: recovery from a log (db_impl.cc)

    The replay of a log into memtables, and what it gives: with the log
    writer, the log reader, the batches and the memtable together, the
    batches written before a crash are in the memtables after recovery. *)
From S2P Require Import Prelude LdbBase Coding LogWriter LogReader LogRecovery Comparator DbFormat WriteBatch Arena SkipList MemTable MemTableFacts.

(** ** recovery from a log (DBImpl::RecoverLogFile of db_impl.cc)

    The records of a log file are replayed into memtables.  The database
    object, to which a full memtable is written as a table, is the parameter
    [D] with [WriteLevel0Table]; the files are those of the environment. *)

(** The options that matter. *)
Record RecoverOptions : Type := MkRecoverOptions {
  paranoid_checks : bool;
  write_buffer_size : Z;
  reuse_logs : bool;
}.

(** [LogReporter::Corruption], on [*status]. *)
Definition LogReporter_Corruption (options : RecoverOptions) (status : Status) (s : Status) : Status :=
  if paranoid_checks options && ok status then s else status.

Definition MaybeIgnoreError (options : RecoverOptions) (s : Status) : Status :=
  if ok s || paranoid_checks options then s else Status_OK.

Section recover.
Context {G F D : Type} `{SequentialFile G} `{NewArray}.
Variables (options : RecoverOptions) (user_comparator : Comparator).
Variable WriteLevel0Table : MemTable -> D -> res (Status * D).

(** The locals of the loop, the variables behind its pointers, and the
    database. *)
Record recover_state : Type := MkRecoverState {
  reader : Reader G;
  status : Status;
  mem : option MemTable;
  compactions : Z;
  save_manifest : bool;
  max_sequence : SequenceNumber;
  db : D;
}.

(** [mem->Unref(); mem = nullptr;] *)
Definition drop_mem (m : MemTable) : res (option MemTable) := let! _ := Unref m in Ret None.

(** The body for a record of at least 12 bytes. *)
Definition recover_batch (record : bytes) (st : recover_state) : res (recover_state + recover_state) :=
  let! batch := SetContents record in
  let! m := match mem st with
            | Some m => Ret m
            | None => let! m := new_MemTable in Ret (Ref m)
            end in
  let! '(s, m) := InsertInto user_comparator batch m in
  let s := MaybeIgnoreError options s in
  let st := MkRecoverState (reader st) s (Some m) (compactions st) (save_manifest st) (max_sequence st) (db st) in
  if negb (ok s) then Ret (inr st)
  else
    let! seq := Sequence batch in
    let! n := Count batch in
    let last_seq := u64 (u64 (seq + n) - 1) in
    let max := if max_sequence st <? last_seq then last_seq else max_sequence st in
    if write_buffer_size options <? ApproximateMemoryUsage m then
      let! '(s, d) := WriteLevel0Table m (db st) in
      let! m := drop_mem m in
      let st := MkRecoverState (reader st) s m (compactions st + 1) true max d in
      Ret (if negb (ok s) then inr st else inl st)
    else Ret (inl (MkRecoverState (reader st) s (Some m) (compactions st) (save_manifest st) max (db st))).

(** [while (reader.ReadRecord(&record, &scratch) && status.ok())]. *)
Definition recover_body (st : recover_state) : res (recover_state + recover_state) :=
  let! '(o, r) := ReadRecord (reader st) in
  let s := foldl (LogReporter_Corruption options) (status st) (new_reports (reader st) r) in
  let st := MkRecoverState r s (mem st) (compactions st) (save_manifest st) (max_sequence st) (db st) in
  match o with
  | None => Ret (inr st)
  | Some record =>
      if negb (ok s) then Ret (inr st)
      else if size record <? 12 then
        let s := LogReporter_Corruption options s (Corruption (str "log record too small")) in
        Ret (inl (MkRecoverState r s (mem st) (compactions st) (save_manifest st) (max_sequence st) (db st)))
      else recover_batch record st
  end.

(** The members [log_] and [mem_], when the log is reused. *)
Definition reused : Type := option (Writer F * MemTable).

(** "See if we should keep reusing the last log file": the results of
    [GetFileSize] and [NewAppendableFile].  The assertions that [logfile_],
    [log_] and [mem_] are null are about the rest of the database object, which
    has just been made and is not part of this state. *)
Definition reuse_log (last_log : bool) (lfile_size : Status * Z) (logfile : Status * F) (st : recover_state)
  : res (reused * recover_state) :=
  if ok (status st) && reuse_logs options && last_log && (compactions st =? 0) && ok lfile_size.1 && ok logfile.1
  then
    let! log := new_Writer_at logfile.2 lfile_size.2 in
    let! m := match mem st with
              | Some m => Ret m
              | None => let! m := new_MemTable in Ret (Ref m)
              end in
    Ret (Some (log, m),
         MkRecoverState (reader st) (status st) None (compactions st) (save_manifest st) (max_sequence st) (db st))
  else Ret (None, st).

(** [file] is the result of [NewSequentialFile]. *)
Definition RecoverLogFile (file : Status * G) (last_log : bool) (lfile_size : Status * Z) (logfile : Status * F)
    (save : bool) (max_seq : SequenceNumber) (d : D)
  : res (Status * bool * SequenceNumber * reused * D) :=
  if negb (ok file.1) then Ret (MaybeIgnoreError options file.1, save, max_seq, None, d)
  else
    let r := new_Reader file.2 true true 0 in
    let! st := while recover_body (MkRecoverState r Status_OK None 0 save max_seq d) in
    let! '(re, st) := reuse_log last_log lfile_size logfile st in
    match mem st with
    | None => Ret (status st, save_manifest st, max_sequence st, re, db st)
    | Some m =>
        let! '(s, save, d) := (if ok (status st) then
                                 let! '(s, d) := WriteLevel0Table m (db st) in Ret (s, true, d)
                               else Ret (status st, save_manifest st, db st)) in
        let! _ := Unref m in
        Ret (s, save, max_sequence st, re, d)
    end.
End recover.

(** ** Recovery gives back the batches that reached the log *)

(** A database to which tables can be written; [tables] lists the memtables
    that were. *)
Class TableSink (D : Type) (WriteLevel0Table : MemTable -> D -> res (Status * D)) : Type := {
  tables : D -> list MemTable;
  write_table : forall m d, exists d', WriteLevel0Table m d = Ret (Status_OK, d') /\ tables d' = tables d ++ [m];
}.
Arguments tables {D} WriteLevel0Table {_} _.

Section facts.
Context {G F D : Type} `{ReadableFile G} `{NewArrayOk}.
Context (options : RecoverOptions) (uc : Comparator) (valid : bytes -> Prop) `{!ComparatorOk uc valid}.
Context (WriteLevel0Table : MemTable -> D -> res (Status * D)) `{!TableSink D WriteLevel0Table}.
Implicit Types (st : recover_state (G := G) (D := D)) (opss : list (list op)).

(** Batches with consecutive sequence numbers. *)
Inductive batches : SequenceNumber -> list bytes -> list (list op) -> Prop :=
| batches_nil seq : batches seq [] []
| batches_cons seq rep reps ops opss :
    holds rep seq ops -> Forall (op_fits valid) ops -> zlength ops < 2 ^ 31 ->
    batches (seq + zlength ops) reps opss -> batches seq (rep :: reps) (ops :: opss).

(** Each memtable holds a group of batches; the groups follow each other. *)
Inductive covers : SequenceNumber -> list (list op) -> list MemTable -> Prop :=
| covers_nil seq : covers seq [] []
| covers_cons seq group rest m ms :
    mem_holds uc valid m (push_ops seq (concat group) []) ->
    covers (seq + zlength (concat group)) rest ms -> covers seq (group ++ rest) (m :: ms).

Lemma covers_snoc seq opss ms group m :
  covers seq opss ms -> mem_holds uc valid m (push_ops (seq + zlength (concat opss)) (concat group) []) ->
  covers seq (opss ++ group) (ms ++ [m]).
Proof.
  induction 1 as [seq|seq g rest m' ms Hm' _ IH]; intros Hm.
  - cbn in *. change (zlength []) with 0 in Hm. rewrite Z.add_0_r in Hm. rewrite <- (app_nil_r group).
    constructor; [done|constructor].
  - rewrite <- app_assoc. constructor; [done|]. apply IH. rewrite concat_app, zlength_app in Hm.
    by replace (seq + zlength (concat g) + zlength (concat rest)) with (seq + (zlength (concat g) + zlength (concat rest))) by lia.
Qed.

Lemma push_ops_app seq a b es : push_ops seq (a ++ b) es = push_ops (seq + zlength a) b (push_ops seq a es).
Proof.
  revert seq es. induction a as [|o a IH]; intros seq es; cbn [app push_ops].
  - change (zlength []) with 0. by rewrite Z.add_0_r.
  - rewrite IH, zlength_cons. f_equal. lia.
Qed.

Lemma push_ops_below seq ops es :
  Forall (fun e => me_seq e < seq) es -> Forall (fun e => me_seq e < seq + zlength ops) (push_ops seq ops es).
Proof.
  revert seq es. induction ops as [|o ops IH]; intros seq es He; cbn [push_ops].
  - change (zlength []) with 0. by rewrite Z.add_0_r.
  - rewrite zlength_cons. replace (seq + (1 + zlength ops)) with (seq + 1 + zlength ops) by lia. apply IH.
    constructor; [rewrite op_entry_seq; lia|]. eapply List.Forall_impl; [|exact He]. cbn. lia.
Qed.

(** The memtable being filled: it holds the batches of [group]. *)
Definition filling (seq : SequenceNumber) (group : list (list op)) (mo : option MemTable) : Prop :=
  match mo with
  | None => group = []
  | Some m => refs_ m = 1 /\ mem_holds uc valid m (push_ops seq (concat group) [])
  end.

Lemma current_mem seq group mo : filling seq group mo ->
  exists m, match mo with Some m => Ret m | None => let! m := new_MemTable in Ret (Ref m) end = Ret m /\
    refs_ m = 1 /\ mem_holds uc valid m (push_ops seq (concat group) []).
Proof.
  destruct mo as [m|]; [intros [Hr Hm]; by exists m|]. intros ->.
  destruct (new_MemTable_holds uc valid) as (m & E & [Hl He Ho]). rewrite E, res_bind_ret. exists (Ref m).
  split; [done|]. unfold new_MemTable in E. destruct (new_SkipList _ _); [|done..]. injection E as <-. by repeat split.
Qed.

Lemma holds_at_least rep seq ops : holds rep seq ops -> 12 <= size rep.
Proof. intros Hh. unfold size. rewrite (holds_size _ _ _ Hh). pose proof (zlength_nonneg (ops_bytes ops)). lia. Qed.

(** One batch. *)
Lemma recover_batch_ok st rep ops seq0 group :
  filling seq0 group (mem st) -> holds rep (seq0 + zlength (concat group)) ops -> Forall (op_fits valid) ops ->
  1 <= seq0 -> seq0 + zlength (concat group) + zlength ops <= kMaxSequenceNumber + 1 -> zlength ops < 2 ^ 31 ->
  zlength (concat group) < 2 ^ 59 ->
  exists st', recover_batch options uc WriteLevel0Table rep st = Ret (inl st') /\
    reader st' = reader st /\ status st' = Status_OK /\
    max_sequence st' = Z.max (max_sequence st) (seq0 + zlength (concat group) + zlength ops - 1) /\
    (tables WriteLevel0Table (db st') = tables WriteLevel0Table (db st) /\ filling seq0 (group ++ [ops]) (mem st') \/
     exists m, tables WriteLevel0Table (db st') = tables WriteLevel0Table (db st) ++ [m] /\ mem st' = None /\
       mem_holds uc valid m (push_ops seq0 (concat (group ++ [ops])) [])).
Proof.
  intros Hfill Hrep Hops Hs0 Hs Hn Hlen. pose proof (zlength_nonneg ops). pose proof (zlength_nonneg (concat group)).
  assert (kMaxSequenceNumber + 1 = 2 ^ 56) as Emax by done.
  unfold recover_batch. unfold SetContents. rewrite assert_true, !res_bind_ret
    by (apply Z.leb_le; apply (holds_at_least _ _ _ Hrep)).
  destruct (current_mem _ _ _ Hfill) as (m & -> & Hr & Hm). rewrite res_bind_ret.
  destruct (InsertInto_ok uc valid rep _ ops m _ Hm Hrep Hops) as (m' & -> & Hr' & Hm').
  { lia. } { lia. } { done. }
  { apply push_ops_below. constructor. }
  { rewrite zlength_push_ops. change (zlength []) with 0. lia. }
  rewrite res_bind_ret. cbn [MaybeIgnoreError ok Status_OK orb negb].
  rewrite (holds_Sequence rep (seq0 + zlength (concat group)) ops), res_bind_ret by (done || lia).
  rewrite (holds_Count _ ops Hn rep Hrep), res_bind_ret.
  rewrite <- push_ops_app in Hm'.
  assert (concat (group ++ [ops]) = concat group ++ ops) as Ec by (rewrite concat_app; cbn; by rewrite app_nil_r).
  set (last := seq0 + zlength (concat group) + zlength ops - 1).
  assert (u64 (u64 (seq0 + zlength (concat group) + zlength ops) - 1) = last) as ->.
  { unfold last. rewrite (wrap_small 64 (_ + _ + _)) by lia. apply wrap_small. lia. }
  cbv zeta. cbn [max_sequence compactions reader save_manifest db].
  assert ((if max_sequence st <? last then last else max_sequence st) = Z.max (max_sequence st) last) as ->
    by (destruct (Z.ltb_spec (max_sequence st) last); lia).
  destruct (_ <? ApproximateMemoryUsage m').
  - destruct (write_table m' (db st)) as (d' & -> & Ht). rewrite res_bind_ret.
    assert (drop_mem m' = Ret None) as ->.
    { unfold drop_mem, Unref. rewrite Hr', Hr. done. }
    rewrite res_bind_ret. eexists. split; [done|]. do 3 (split; [done|]). right. exists m'. by rewrite Ec.
  - eexists. split; [done|]. do 3 (split; [done|]). left. split; [done|]. cbn. rewrite Ec. split; [congruence|done].
Qed.

(** The loop over the records. *)
Lemma recover_loop st reps opss seq0 done group ms :
  recovers_quietly (reader st) reps -> status st = Status_OK ->
  filling (seq0 + zlength (concat done)) group (mem st) ->
  batches (seq0 + zlength (concat (done ++ group))) reps opss -> covers seq0 done ms ->
  1 <= seq0 -> seq0 + zlength (concat (done ++ group ++ opss)) <= kMaxSequenceNumber + 1 ->
  exists st' done' group' ms' k, runs (recover_body options uc WriteLevel0Table) st k (Ret st') /\
    k = zlength reps + 1 /\ status st' = Status_OK /\ done ++ group ++ opss = done' ++ group' /\
    filling (seq0 + zlength (concat done')) group' (mem st') /\ covers seq0 done' (ms ++ ms') /\
    tables WriteLevel0Table (db st') = tables WriteLevel0Table (db st) ++ ms' /\
    max_sequence st' = (if bool_decide (reps = []) then max_sequence st
      else Z.max (max_sequence st) (seq0 + zlength (concat (done ++ group ++ opss)) - 1)).
Proof.
  intros Hq. revert opss done group ms. remember (reader st) as r0 eqn:Er. revert st Er.
  induction Hq as [r r' E Hc|r d r1 reps E Hc _ IH]; intros st Er opss done group ms Hst Hfill Hb Hcov Hs0 Hmax.
  - inversion Hb; subst. exists (MkRecoverState r' Status_OK (mem st) (compactions st) (save_manifest st) (max_sequence st) (db st)),
      done, group, [], 1. split.
    { apply runs_stop. unfold recover_body. rewrite E, res_bind_ret, (new_reports_quiet _ _ Hc), Hst. done. }
    split; [done|]. split; [done|]. rewrite !app_nil_r. split; [done|]. split; [done|]. split; [done|]. by split.
  - inversion Hb as [|seq rep reps' ops opss' Hrep Hops Hn Hb']; subst.
    rewrite !concat_app, !zlength_app in Hmax. cbn [concat] in Hmax. rewrite zlength_app in Hmax.
    pose proof (zlength_nonneg (concat done)). pose proof (zlength_nonneg (concat group)).
    pose proof (zlength_nonneg ops). pose proof (zlength_nonneg (concat opss')).
    set (st1 := MkRecoverState r1 Status_OK (mem st) (compactions st) (save_manifest st) (max_sequence st) (db st)).
    assert (kMaxSequenceNumber + 1 = 2 ^ 56) as Emax by (vm_compute; reflexivity).
    destruct (recover_batch_ok st1 d ops (seq0 + zlength (concat done)) group Hfill) as (st2 & E2 & Hr2 & Hst2 & Hm2 & Hcase).
    { by rewrite concat_app, zlength_app, Z.add_assoc in Hrep. } { done. } { lia. } { lia. } { done. } { lia. }
    assert (recover_body options uc WriteLevel0Table st = Ret (inl st2)) as Ebody.
    { unfold recover_body. rewrite E, res_bind_ret, (new_reports_quiet _ _ Hc), Hst. cbn [foldl ok Status_OK negb].
      rewrite (proj2 (Z.ltb_ge _ _)) by by eapply holds_at_least. exact E2. }
    assert (exists done2 group2 ms2, done ++ group ++ [ops] = done2 ++ group2 /\
      filling (seq0 + zlength (concat done2)) group2 (mem st2) /\ covers seq0 done2 (ms ++ ms2) /\
      tables WriteLevel0Table (db st2) = tables WriteLevel0Table (db st) ++ ms2) as (done2 & group2 & ms2 & Esplit & Hfill2 & Hcov2 & Ht2).
    { destruct Hcase as [[Ht Hf]|(m & Ht & Hm & Hh)].
      - exists done, (group ++ [ops]), []. rewrite !app_nil_r. by split_and!.
      - exists (done ++ group ++ [ops]), [], [m]. rewrite app_nil_r. split; [done|]. split; [by rewrite Hm|].
        split; [by apply covers_snoc|done]. }
    destruct (IH st2 (eq_sym Hr2) opss' done2 group2 (ms ++ ms2) Hst2 Hfill2) as (st' & done' & group' & ms' & k & Hk & Ek & Hst' & Es & Hf' & Hc' & Ht' & Hmx).
    { rewrite <- Esplit, !concat_app, !zlength_app. cbn [concat]. rewrite app_nil_r.
      rewrite concat_app, zlength_app in Hb'. by replace (seq0 + (zlength (concat done) + (zlength (concat group) + zlength ops)))
        with (seq0 + (zlength (concat done) + zlength (concat group)) + zlength ops) by lia. }
    { done. } { done. }
    { rewrite app_assoc, <- Esplit, !concat_app, !zlength_app. cbn [concat]. rewrite app_nil_r. lia. }
    assert (done ++ group ++ ops :: opss' = done2 ++ group2 ++ opss') as Eall.
    { rewrite (app_assoc done2), <- Esplit, <- !app_assoc. done. }
    exists st', done', group', (ms2 ++ ms'), (1 + k). split; [by eapply runs_step|].
    rewrite zlength_cons. split; [lia|]. split; [done|]. split; [by rewrite Eall|]. split; [done|].
    split; [by rewrite app_assoc|]. split; [by rewrite Ht', Ht2, app_assoc|].
    rewrite Hmx, Hm2, (bool_decide_false (d :: reps = [])) by done. cbn [max_sequence st1]. rewrite <- Eall, !concat_app, !zlength_app.
    cbn [concat]. rewrite zlength_app. destruct (bool_decide (reps = [])) eqn:Eb.
    + apply bool_decide_eq_true in Eb as ->. inversion Hb'; subst. cbn [concat]. change (zlength []) with 0. lia.
    + lia.
Qed.

Lemma recovers_quietly_length (r : Reader G) reps : recovers_quietly r reps -> zlength reps + 1 <= 2 ^ 64 ->
  forall opss st seq0, reader st = r -> status st = Status_OK -> mem st = None -> batches seq0 reps opss -> 1 <= seq0 ->
  seq0 + zlength (concat opss) <= kMaxSequenceNumber + 1 ->
  exists st' done group ms, while (recover_body options uc WriteLevel0Table) st = Ret st' /\
    status st' = Status_OK /\ opss = done ++ group /\ filling (seq0 + zlength (concat done)) group (mem st') /\
    covers seq0 done ms /\ tables WriteLevel0Table (db st') = tables WriteLevel0Table (db st) ++ ms /\
    max_sequence st' = (if bool_decide (reps = []) then max_sequence st
      else Z.max (max_sequence st) (seq0 + zlength (concat opss) - 1)).
Proof.
  intros Hq Hlen opss st seq0 <- Hst Hm Hb Hs0 Hmax.
  destruct (recover_loop st reps opss seq0 [] [] [] Hq Hst) as (st' & done & group & ms & k & Hk & Ek & Hst' & Es & Hf & Hc & Ht & Hmx).
  - by rewrite Hm.
  - cbn. change (zlength []) with 0. by rewrite Z.add_0_r.
  - constructor.
  - done.
  - done.
  - exists st', done, group, ms. split; [|done]. eapply runs_while; [exact Hk|lia].
Qed.

(** The end of [RecoverLogFile]. *)
Lemma reuse_log_ok last_log lfile_size (logfile : Status * F) seq group st :
  filling seq group (mem st) ->
  exists re st', reuse_log options last_log lfile_size logfile st = Ret (re, st') /\
    status st' = status st /\ db st' = db st /\ max_sequence st' = max_sequence st /\
    match re with
    | None => mem st' = mem st
    | Some (_, m) => mem st' = None /\ mem_holds uc valid m (push_ops seq (concat group) [])
    end.
Proof.
  intros Hf. unfold reuse_log. destruct (_ && _ && _ && _ && _ && _); [|by exists None, st].
  unfold new_Writer_at. change (Z.to_nat (kMaxRecordType + 1)) with 5%nat. rewrite InitTypeCrc_ok, !res_bind_ret.
  destruct (current_mem _ _ _ Hf) as (m & -> & _ & Hm). rewrite res_bind_ret. by eexists _, _.
Qed.

Lemma batches_bytes seq reps opss :
  batches seq reps opss -> Forall (fun rep => zlength rep < 2 ^ 63) reps -> Forall record_ok reps.
Proof.
  induction 1 as [|seq rep reps ops opss Hrep Hops _ _ IH]; intros Hl; [constructor|].
  apply Forall_cons_1 in Hl as [Hl1 Hl]. constructor; [|by apply IH]. split; [|done]. rewrite Hrep.
  rewrite EncodeFixed64_le, EncodeFixed32_le. apply bytes_ok_app. split; [apply le_bytes_ok|].
  apply bytes_ok_app. split; [apply le_bytes_ok|]. apply ops_bytes_ok.
  eapply List.Forall_impl; [|exact Hops]. by intros o [? _].
Qed.

Lemma RecoverLogFile_ok (g : G) reps opss seq0 last_log lfile_size (logfile : Status * F) save max d0 :
  recovers_quietly (new_Reader g true true 0) reps -> zlength reps < 2 ^ 60 -> batches seq0 reps opss -> 1 <= seq0 ->
  seq0 + zlength (concat opss) <= kMaxSequenceNumber + 1 ->
  exists save' re d' ms,
    RecoverLogFile options uc WriteLevel0Table (Status_OK, g) last_log lfile_size logfile save max d0 =
      Ret (Status_OK, save', if bool_decide (reps = []) then max else Z.max max (seq0 + zlength (concat opss) - 1), re, d') /\
    tables WriteLevel0Table d' ++ (match re with Some (_, m) => [m] | None => [] end) = tables WriteLevel0Table d0 ++ ms /\
    covers seq0 opss ms.
Proof.
  intros Hq Hlen Hb Hs0 Hmax. unfold RecoverLogFile. cbn [fst snd ok Status_OK negb].
  destruct (recovers_quietly_length _ reps Hq ltac:(lia) opss (MkRecoverState (new_Reader g true true 0) Status_OK None 0 save max d0)
    seq0 eq_refl eq_refl eq_refl Hb Hs0 Hmax) as (st & done & group & ms & -> & Hst & -> & Hf & Hc & Ht & Hmx).
  rewrite res_bind_ret. destruct (reuse_log_ok last_log lfile_size logfile _ _ st Hf) as (re & st' & -> & Hst' & Hdb & Hmx' & Hre).
  rewrite res_bind_ret. cbn [max_sequence db] in *. rewrite <- Hmx, <- Hmx'. rewrite Hst in Hst'.
  destruct re as [[log m]|].
  - destruct Hre as [-> Hm]. eexists _, (Some (log, m)), (db st'), (ms ++ [m]). rewrite Hst'. split; [done|].
    split; [by rewrite Hdb, Ht, app_assoc|]. by apply covers_snoc.
  - rewrite Hre. destruct (mem st) as [m|].
    + rewrite Hst'. cbn [ok Status_OK]. destruct (write_table m (db st')) as (d' & -> & Ht'). rewrite !res_bind_ret.
      destruct Hf as [Hr Hm]. assert (Unref m = Ret None) as -> by (unfold Unref; by rewrite Hr). rewrite res_bind_ret.
      eexists _, None, d', (ms ++ [m]). split; [done|]. rewrite app_nil_r. split; [by rewrite Ht', Hdb, Ht, app_assoc|].
      by apply covers_snoc.
    + cbn in Hf. subst group. eexists _, None, (db st'), ms. rewrite Hst'. split; [done|]. rewrite !app_nil_r.
      split; [by rewrite Hdb|done].
Qed.
End facts.

(** C6: Batches with consecutive sequence numbers are logged to an empty file and,
    inside one more record, the machine stops. Whatever proper part of that
    record reached the file, [RecoverLogFile], with any options, returns OK, the
    largest sequence number it finds is that of the last operation (when there
    is a batch), and the memtables it fills, written as tables or kept, hold
    exactly the operations of the batches, in their order and with their
    sequence numbers. Assumed: no call of the files fails, a memtable can be
    written as a table ([TableSink]), the keys are valid for the comparator, and
    the sequence numbers fit 56 bits. *)
Theorem crash_recovery {W G F D : Type} `{ReliableFile W} `{ReadableFile G} `{NewArrayOk} options uc valid
    `{!ComparatorOk uc valid} (WriteLevel0Table : MemTable -> D -> res (Status * D)) `{!TableSink D WriteLevel0Table}
    (f : W) seq reps opss d last_log lfile_size (logfile : Status * F) save d0 :
  wf_contents f = [] -> batches valid seq reps opss -> Forall (fun rep => zlength rep < 2 ^ 63) reps ->
  zlength reps < 2 ^ 60 -> record_ok d -> 1 <= seq -> seq + zlength (concat opss) <= kMaxSequenceNumber + 1 ->
  exists w0 s1 w1 s2 w2,
    new_Writer f = Ret w0 /\ AddRecords reps w0 = Ret (s1, w1) /\ ok s1 = true /\
    AddRecord d w1 = Ret (s2, w2) /\ ok s2 = true /\
    forall (g : G) c more,
      wf_contents (dest_ w2) = wf_contents (dest_ w1) ++ c ++ more -> more <> [] ->
      sf_contents g = wf_contents (dest_ w1) ++ c -> zlength (sf_contents g) < 2 ^ 63 ->
      exists save' max re d' ms,
        RecoverLogFile options uc WriteLevel0Table (Status_OK, g) last_log lfile_size logfile save 0 d0 =
          Ret (Status_OK, save', max, re, d') /\
        (reps <> [] -> max = seq + zlength (concat opss) - 1) /\
        tables WriteLevel0Table d' ++ (match re with Some (_, m) => [m] | None => [] end) =
          tables WriteLevel0Table d0 ++ ms /\
        covers uc valid seq opss ms.
Proof.
  intros Hf Hb Hl Hn Hd Hs0 Hmax.
  destruct (log_crash (G := G) reps d f Hf (batches_bytes _ _ _ _ Hb Hl) Hd) as (w0 & s1 & w1 & s2 & w2 & E0 & E1 & Hs1 & E2 & Hs2 & Hq).
  exists w0, s1, w1, s2, w2. do 5 (split; [done|]). intros g c more Hcrash Hmore Hg Hlen.
  destruct (RecoverLogFile_ok options uc valid WriteLevel0Table g reps opss seq last_log lfile_size logfile save 0 d0
    (Hq g c more Hcrash Hmore Hg Hlen) Hn Hb Hs0 Hmax) as (save' & re & d' & ms & E & Ht & Hc).
  eexists save', _, re, d', ms. split; [exact E|]. split; [|done]. intros Hne. rewrite bool_decide_false by done.
  pose proof (zlength_nonneg (concat opss)). lia.
Qed.

(** A database that keeps the memtables. *)
Definition keep_table (m : MemTable) (d : list MemTable) : res (Status * list MemTable) := Ret (Status_OK, d ++ [m]).

#[export] Instance keep_table_sink : TableSink (list MemTable) keep_table.
Proof. exists (fun d => d). intros m d. by exists (d ++ [m]). Defined.

(** A batch with one operation, the record of a second batch cut in two. *)
Lemma crash_recovery_witness :
  exists (g : bytes) save' max re d',
    RecoverLogFile (MkRecoverOptions true 4194304 false) BytewiseComparator keep_table (Status_OK, g) true
      (Status_OK, 0) (Status_OK, [] : bytes) false 0 [] = Ret (Status_OK, save', max, re, d') /\ max = 7.
Proof.
  set (rep := EncodeFixed64 7 ++ EncodeFixed32 1 ++ ops_bytes [OpPut [1; 2] [9]]).
  destruct (crash_recovery (W := bytes) (G := bytes) (MkRecoverOptions true 4194304 false) BytewiseComparator bytes_ok keep_table [] 7 [rep]
    [[OpPut [1; 2] [9]]] [5; 6; 7; 8] true (Status_OK, 0) (Status_OK, [] : bytes) false []) as
    (w0 & s1 & w1 & s2 & w2 & E0 & E1 & _ & E2 & _ & Hc).
  - reflexivity.
  - constructor; [done| |done|constructor]. constructor; [|constructor].
    assert (bytes_ok [1; 2] /\ bytes_ok [9]) as [Hk Hv] by (split; by apply bytes_ok_forallb).
    split; [split; by split|]. by split.
  - by repeat constructor.
  - done.
  - split; [by apply bytes_ok_forallb|reflexivity].
  - lia.
  - vm_compute. discriminate.
  - vm_compute in E0. injection E0 as <-. vm_compute in E1. injection E1 as <- <-.
    vm_compute in E2. injection E2 as <- <-.
    match type of Hc with forall g c more, ?f2 = ?f1 ++ _ -> _ =>
      destruct (Hc (take (length f1 + 3) f2) (take 3 (drop (length f1) f2)) (drop 3 (drop (length f1) f2)))
        as (save' & max & re & d' & ms & E & Hm & _) end.
    + vm_compute. reflexivity.
    + vm_compute. discriminate.
    + vm_compute. reflexivity.
    + vm_compute. reflexivity.
    + exists (take 28 [106; 6; 134; 85; 18; 0; 1; 7; 0; 0; 0; 0; 0; 0; 0; 1; 0; 0; 0; 1; 2; 1; 2; 1; 9; 219; 222; 34]), save', max, re, d'.
      split; [exact E|by apply Hm].
Defined.
