(* ===== verification/Iterator.v ===== *)
(** * LevelDB: iterators (iterator.h, iterator.cc, iterator_wrapper.h)

    The abstract class is a type class, and so is its contract: an iterator
    stands at an entry of a sorted list, or nowhere. *)
From stdpp Require sorting.
From S2P Require Import Prelude LdbBase Comparator.

(** A loop whose progress is a relation: [P n x] holds with at most [n] turns
    to go. *)
Lemma while_rel {X R} (body : X -> res (X + R)) (P : nat -> X -> Prop) (Q : R -> Prop) n x :
  (forall n x, P n x ->
    (exists r, body x = Ret (inr r) /\ Q r) \/ exists m x', n = S m /\ body x = Ret (inl x') /\ P m x') ->
  P n x -> Z.of_nat n < 2 ^ 64 -> exists r, while body x = Ret r /\ Q r.
Proof.
  intros Hstep Hx Hn. assert (exists r, loop_nat (S n) body x = loop_end (Ret r) /\ Q r) as (r & E & Hr).
  { clear Hn. revert x Hx. induction n as [|n IH]; intros x Hx.
    - destruct (Hstep _ _ Hx) as [(r & E & Hr)|(m & x' & ? & _)]; [|done]. exists r. split; [|done]. cbn [loop_nat]. by rewrite E.
    - destruct (Hstep _ _ Hx) as [(r & E & Hr)|(m & x' & [= <-] & E & Hx')].
      + exists r. split; [|done]. cbn [loop_nat]. by rewrite E.
      + destruct (IH x' Hx') as (r & Er & Hr). exists r. split; [|done].
        change (loop_nat (S (S n)) body x) with (match body x with Ret (inl x') => loop_nat (S n) body x' | r => r end). by rewrite E. }
  exists r. split; [|done]. apply (while_loop_nat _ _ (S n)); [done|lia].
Qed.

Class Iterator (I : Type) : Type := {
  it_Valid : I -> bool;
  it_SeekToFirst : I -> res I;
  it_SeekToLast : I -> res I;
  it_Seek : bytes -> I -> res I;
  it_Next : I -> res I;
  it_Prev : I -> res I;
  it_key : I -> res bytes;
  it_value : I -> res bytes;
  it_status : I -> res Status;
}.

(** ** EmptyIterator: its status *)
Record EmptyIterator : Type := MkEmptyIterator { empty_status : Status }.

#[export] Instance EmptyIterator_Iterator : Iterator EmptyIterator := {|
  it_Valid _ := false;
  it_SeekToFirst i := Ret i;
  it_SeekToLast i := Ret i;
  it_Seek _ i := Ret i;
  it_Next _ := UB;
  it_Prev _ := UB;
  it_key _ := UB;
  it_value _ := UB;
  it_status i := Ret (empty_status i);
|}.

Definition NewEmptyIterator : EmptyIterator := MkEmptyIterator Status_OK.
Definition NewErrorIterator (status : Status) : EmptyIterator := MkEmptyIterator status.

(** ** IteratorWrapper *)
Record IteratorWrapper (I : Type) : Type := MkIteratorWrapper {
  iter_ : option I;
  valid_ : bool;
  wrapper_key : bytes;
}.
Arguments MkIteratorWrapper {I}.
Arguments iter_ {I}.
Arguments valid_ {I}.
Arguments wrapper_key {I}.

Section wrapper.
Context {I : Type} `{Iterator I}.

Definition wrapper_null : IteratorWrapper I := MkIteratorWrapper None false [].

(** [Update], when [iter_] is [i]. *)
Definition Update (w : IteratorWrapper I) (i : I) : res (IteratorWrapper I) :=
  if it_Valid i then let! k := it_key i in Ret (MkIteratorWrapper (Some i) true k)
  else Ret (MkIteratorWrapper (Some i) false (wrapper_key w)).

Definition wrapper_Set (w : IteratorWrapper I) (iter : option I) : res (IteratorWrapper I) :=
  match iter with
  | None => Ret (MkIteratorWrapper None false (wrapper_key w))
  | Some i => Update w i
  end.

Definition new_wrapper (iter : option I) : res (IteratorWrapper I) := wrapper_Set wrapper_null iter.

(** [assert(iter_); iter_->f(); Update();] *)
Definition wrapper_op (f : I -> res I) (w : IteratorWrapper I) : res (IteratorWrapper I) :=
  let! i := of_option (iter_ w) in
  let! i := f i in
  Update w i.

#[export] Instance IteratorWrapper_Iterator : Iterator (IteratorWrapper I) := {|
  it_Valid := valid_;
  it_SeekToFirst := wrapper_op it_SeekToFirst;
  it_SeekToLast := wrapper_op it_SeekToLast;
  it_Seek k := wrapper_op (it_Seek k);
  it_Next := wrapper_op it_Next;
  it_Prev := wrapper_op it_Prev;
  it_key w := let! _ := assert_ (valid_ w) in Ret (wrapper_key w);
  it_value w := let! _ := assert_ (valid_ w) in let! i := of_option (iter_ w) in it_value i;
  it_status w := let! i := of_option (iter_ w) in it_status i;
|}.
End wrapper.

(** An [Iterator*] that points to an object of one of two classes. *)
#[export] Instance sum_Iterator {I J : Type} `{Iterator I} `{Iterator J} : Iterator (I + J) := {|
  it_Valid i := match i with inl i => it_Valid i | inr j => it_Valid j end;
  it_SeekToFirst i :=
    match i with inl i => let! i := it_SeekToFirst i in Ret (inl i) | inr j => let! j := it_SeekToFirst j in Ret (inr j) end;
  it_SeekToLast i :=
    match i with inl i => let! i := it_SeekToLast i in Ret (inl i) | inr j => let! j := it_SeekToLast j in Ret (inr j) end;
  it_Seek k i :=
    match i with inl i => let! i := it_Seek k i in Ret (inl i) | inr j => let! j := it_Seek k j in Ret (inr j) end;
  it_Next i :=
    match i with inl i => let! i := it_Next i in Ret (inl i) | inr j => let! j := it_Next j in Ret (inr j) end;
  it_Prev i :=
    match i with inl i => let! i := it_Prev i in Ret (inl i) | inr j => let! j := it_Prev j in Ret (inr j) end;
  it_key i := match i with inl i => it_key i | inr j => it_key j end;
  it_value i := match i with inl i => it_value i | inr j => it_value j end;
  it_status i := match i with inl i => it_status i | inr j => it_status j end;
|}.

(** ** Positions in a list of entries *)
Abbreviation entry := (bytes * bytes)%type.
Abbreviation position := (option nat).

Definition first_pos (es : list entry) : position := match es with [] => None | _ => Some O end.
Definition last_pos (es : list entry) : position := match es with [] => None | _ => Some (pred (length es)) end.
Definition next_pos (es : list entry) (n : nat) : position := if decide (S n < length es)%nat then Some (S n) else None.
Definition prev_pos (n : nat) : position := match n with O => None | S m => Some m end.

Section contract.
Variables (c : Comparator) (valid : bytes -> Prop).
Context `{!ComparatorOk c valid}.

Abbreviation lt := (key_lt c valid).

Definition entries_ok (es : list entry) : Prop :=
  Sorted.StronglySorted lt es.*1 /\ Forall valid es.*1.

(** The first entry at or past [target]. *)
Definition seek_pos (es : list entry) (target : bytes) (p : position) : Prop :=
  match p with
  | Some n => Forall (fun e => lt e.1 target) (take n es) /\ exists e, es !! n = Some e /\ ~ lt e.1 target
  | None => Forall (fun e => lt e.1 target) es
  end.

(** The contract of iterator.h for an iterator over [es]: [it_at es p i] says
    that [i] stands at [p]. *)
Class IteratorOk (I : Type) `{Iterator I} : Type := {
  it_at : list entry -> position -> I -> Prop;
  it_at_ok : forall es p i, it_at es p i -> entries_ok es;
  it_Valid_at : forall es p i, it_at es p i -> it_Valid i = bool_decide (is_Some p);
  it_status_at : forall es p i, it_at es p i -> it_status i = Ret Status_OK;
  it_entry_at : forall es n i, it_at es (Some n) i ->
    exists e, es !! n = Some e /\ it_key i = Ret e.1 /\ it_value i = Ret e.2;
  it_SeekToFirst_at : forall es p i, it_at es p i ->
    exists i', it_SeekToFirst i = Ret i' /\ it_at es (first_pos es) i';
  it_SeekToLast_at : forall es p i, it_at es p i ->
    exists i', it_SeekToLast i = Ret i' /\ it_at es (last_pos es) i';
  it_Seek_at : forall es p i target, it_at es p i -> valid target ->
    exists i' p', it_Seek target i = Ret i' /\ seek_pos es target p' /\ it_at es p' i';
  it_Next_at : forall es n i, it_at es (Some n) i ->
    exists i', it_Next i = Ret i' /\ it_at es (next_pos es n) i';
  it_Prev_at : forall es n i, it_at es (Some n) i ->
    exists i', it_Prev i = Ret i' /\ it_at es (prev_pos n) i';
}.

(** ** Sorted entries *)
Lemma entries_lt es i j a b : entries_ok es -> es !! i = Some a -> es !! j = Some b -> (i < j)%nat -> lt a.1 b.1.
Proof.
  intros [Hs _] Ha Hb Hij. revert i j Ha Hb Hij. induction es as [|e es IH]; intros i j Ha Hb Hij; [done|].
  inversion Hs as [|x l Hs' Hall Hx]; subst. destruct j as [|j]; [lia|]. cbn in Hb. destruct i as [|i].
  - injection Ha as ->. eapply (Forall_elem (lt a.1)); [exact Hall|]. apply list_elem_of_fmap_2.
    by eapply list_elem_of_lookup_2.
  - cbn in Ha. apply (IH Hs' i j); [done..|lia].
Qed.

Lemma entries_valid es n e : entries_ok es -> es !! n = Some e -> valid e.1.
Proof.
  intros [_ Hv] He. eapply (Forall_elem valid); [exact Hv|]. apply list_elem_of_fmap_2.
  by eapply list_elem_of_lookup_2.
Qed.

Lemma seek_pos_unique es t p q : seek_pos es t p -> seek_pos es t q -> p = q.
Proof.
  assert (forall n (m : position), seek_pos es t (Some n) -> seek_pos es t m ->
    match m with Some m => (m <= n)%nat | None => False end) as Hle.
  { intros n m [_ (e & He & Hn)] Hm. destruct m as [m|]; [destruct Hm as [Hm _]|]; cbn in Hm.
    - destruct (decide (m <= n)%nat) as [|Hgt]; [done|]. exfalso. apply Hn.
      eapply (Forall_elem (fun e : entry => lt e.1 t)); [exact Hm|].
      apply (list_elem_of_lookup_2 _ n). rewrite lookup_take_lt by lia. done.
    - exfalso. apply Hn. eapply (Forall_elem (fun e : entry => lt e.1 t)); [exact Hm|]. by eapply list_elem_of_lookup_2. }
  intros Hp Hq. destruct p as [n|], q as [m|]; [|by destruct (Hle n None)|by destruct (Hle m None)|done].
  f_equal. apply Nat.le_antisymm; [by apply (Hle m (Some n))|by apply (Hle n (Some m))].
Qed.

Lemma entry_eq_dec_lt a b : valid a -> valid b -> lt a b \/ a = b \/ lt b a.
Proof.
  intros Ha Hb. destruct (Compare_ok a b Ha Hb) as (z & _ & Hz). destruct (z ?= 0); auto.
Qed.

(** Searching for the key of an entry finds that entry. *)
Lemma seek_pos_entry es n e : entries_ok es -> es !! n = Some e -> seek_pos es e.1 (Some n).
Proof.
  intros Hes He. split.
  - apply Forall_lookup. intros i a Hi. apply lookup_take_Some in Hi as [Hi ?]. by eapply entries_lt.
  - exists e. split; [done|]. apply key_lt_irrefl.
Qed.

Lemma seek_pos_total es t : Forall valid es.*1 -> valid t -> exists p, seek_pos es t p.
Proof.
  intros Hes Ht. induction es as [|e es IH]; [exists None; constructor|].
  cbn in Hes. apply Forall_cons_1 in Hes as [He Hes]. destruct (entry_eq_dec_lt e.1 t He Ht) as [Hlt|Hge].
  - destruct (IH Hes) as [[n|] Hp].
    + destruct Hp as [Hf (a & Ha & Hn)]. exists (Some (S n)). split; [by constructor|by exists a].
    + exists None. by constructor.
  - exists (Some O). split; [constructor|]. exists e. split; [done|]. intros Hlt.
    destruct Hge as [Heq|Hge]; [rewrite Heq in Hlt; by eapply key_lt_irrefl|by eapply key_lt_asym].
Qed.

(** ** Instances *)
#[export] Instance EmptyIterator_ok : IteratorOk EmptyIterator.
Proof.
  refine {| it_at es p i := es = [] /\ p = None /\ i = NewEmptyIterator |}.
  - intros es p i (-> & _). split; constructor.
  - by intros es p i (-> & -> & ->).
  - by intros es p i (-> & -> & ->).
  - by intros es n i (_ & ? & _).
  - intros es p i (-> & -> & ->). by exists NewEmptyIterator.
  - intros es p i (-> & -> & ->). by exists NewEmptyIterator.
  - intros es p i t (-> & -> & ->) _. exists NewEmptyIterator, None. split; [done|]. split; [constructor|done].
  - by intros es n i (_ & ? & _).
  - by intros es n i (_ & ? & _).
Defined.

Section wrapper_ok.
Context {I : Type} `{IteratorOk I}.

Definition wrapper_at (es : list entry) (p : position) (w : IteratorWrapper I) : Prop :=
  exists i, iter_ w = Some i /\ it_at es p i /\ valid_ w = bool_decide (is_Some p) /\
    (is_Some p -> it_key i = Ret (wrapper_key w)).

Lemma Update_at es p w i : it_at es p i -> exists w', Update w i = Ret w' /\ wrapper_at es p w'.
Proof.
  intros Hi. unfold Update. rewrite (it_Valid_at _ _ _ Hi). destruct p as [n|]; cbn.
  - destruct (it_entry_at _ _ _ Hi) as (e & He & Hk & _). rewrite Hk, res_bind_ret.
    eexists. split; [done|]. exists i. done.
  - eexists. split; [done|]. exists i. split; [done|]. split; [done|]. split; [done|]. intros [? ?]. done.
Qed.

Lemma wrapper_op_at (f : I -> res I) es p p' w i :
  iter_ w = Some i -> it_at es p i -> (exists i', f i = Ret i' /\ it_at es p' i') ->
  exists w', wrapper_op f w = Ret w' /\ wrapper_at es p' w'.
Proof.
  intros Hw _ (i' & E & Hi'). unfold wrapper_op. rewrite Hw. cbn [of_option]. rewrite res_bind_ret, E, res_bind_ret.
  by apply Update_at.
Qed.

(** A wrapper keeps the contract of what it wraps. *)
#[export] Instance IteratorWrapper_ok : IteratorOk (IteratorWrapper I).
Proof.
  refine {| it_at := wrapper_at |}.
  - intros es p w (i & _ & Hi & _). by eapply it_at_ok.
  - by intros es p w (i & _ & _ & Hv & _).
  - intros es p w (i & Hw & Hi & _). cbn. rewrite Hw. cbn. by eapply it_status_at.
  - intros es n w (i & Hw & Hi & Hv & Hk). destruct (it_entry_at _ _ _ Hi) as (e & He & Hk' & Hv').
    exists e. split; [done|]. cbn in *. rewrite Hv, Hw. cbn. split; [|done]. rewrite <- Hk', <- Hk; done.
  - intros es p w (i & Hw & Hi & _). eapply wrapper_op_at; [done..|]. by eapply it_SeekToFirst_at.
  - intros es p w (i & Hw & Hi & _). eapply wrapper_op_at; [done..|]. by eapply it_SeekToLast_at.
  - intros es p w t (i & Hw & Hi & _) Ht. destruct (it_Seek_at _ _ _ _ Hi Ht) as (i' & p' & E & Hp & Hi').
    destruct (wrapper_op_at (it_Seek t) es p p' w i Hw Hi) as (w' & Ew & Hw'); [by exists i'|]. by exists w', p'.
  - intros es n w (i & Hw & Hi & _). eapply wrapper_op_at; [done..|]. by eapply it_Next_at.
  - intros es n w (i & Hw & Hi & _). eapply wrapper_op_at; [done..|]. by eapply it_Prev_at.
Defined.
End wrapper_ok.

(** Both classes keep the contract. *)
#[export] Instance sum_ok {I J : Type} `{IteratorOk I} `{IteratorOk J} : IteratorOk (I + J).
Proof.
  refine {| it_at es p i := match i with inl i => it_at es p i | inr j => it_at es p j end |}.
  - intros es p [i|i] Hi; exact (it_at_ok _ _ _ Hi).
  - intros es p [i|i] Hi; exact (it_Valid_at _ _ _ Hi).
  - intros es p [i|i] Hi; exact (it_status_at _ _ _ Hi).
  - intros es n [i|i] Hi; exact (it_entry_at _ _ _ Hi).
  - intros es p [i|i] Hi; destruct (it_SeekToFirst_at _ _ _ Hi) as (i' & E & Hi'); cbn; rewrite E; by eexists.
  - intros es p [i|i] Hi; destruct (it_SeekToLast_at _ _ _ Hi) as (i' & E & Hi'); cbn; rewrite E; by eexists.
  - intros es p [i|i] t Hi Ht; destruct (it_Seek_at _ _ _ _ Hi Ht) as (i' & p' & E & Hp & Hi'); cbn; rewrite E; by eexists _, p'.
  - intros es n [i|i] Hi; destruct (it_Next_at _ _ _ Hi) as (i' & E & Hi'); cbn; rewrite E; by eexists.
  - intros es n [i|i] Hi; destruct (it_Prev_at _ _ _ Hi) as (i' & E & Hi'); cbn; rewrite E; by eexists.
Defined.
End contract.

(** ** Scans *)
Section scan.
Context {I : Type} `{Iterator I}.

(** [while (it->Valid()) { ...; it->Next(); }], at most [n] times; what was
    read, and the iterator. *)
Fixpoint scan (step : I -> res I) (n : nat) (i : I) : res (list entry * I) :=
  match n with
  | O => Ret ([], i)
  | S n' =>
      if it_Valid i then
        let! k := it_key i in
        let! v := it_value i in
        let! i := step i in
        let! '(es, i) := scan step n' i in
        Ret ((k, v) :: es, i)
      else Ret ([], i)
  end.

(** A client of the interface: it does not move an iterator that is not valid. *)
Inductive iter_op : Type := OpSeekToFirst | OpSeekToLast | OpSeek (target : bytes) | OpNext | OpPrev.

Definition run_op (op : iter_op) (i : I) : res I :=
  match op with
  | OpSeekToFirst => it_SeekToFirst i
  | OpSeekToLast => it_SeekToLast i
  | OpSeek t => it_Seek t i
  | OpNext => if it_Valid i then it_Next i else Ret i
  | OpPrev => if it_Valid i then it_Prev i else Ret i
  end.

Fixpoint run_ops (ops : list iter_op) (i : I) : res I :=
  match ops with
  | [] => Ret i
  | op :: ops => let! i := run_op op i in run_ops ops i
  end.

(** An invariant of all operations. *)
Lemma run_ops_inv (P : I -> Prop) (Q : iter_op -> Prop) ops i :
  (forall op i, Q op -> P i -> exists i', run_op op i = Ret i' /\ P i') -> Forall Q ops -> P i ->
  exists i', run_ops ops i = Ret i' /\ P i'.
Proof.
  intros Hop Hops. revert i. induction Hops as [|op ops Hq _ IH]; intros i Hi; [by exists i|].
  destruct (Hop op i Hq Hi) as (i' & E & Hi'). cbn. rewrite E, res_bind_ret. by apply IH.
Qed.
End scan.

Lemma run_op_inr {I J : Type} `{Iterator I} `{Iterator J} op (j : J) :
  run_op op (inr j : I + J) = let! j := run_op op j in Ret (inr j).
Proof. destruct op; cbn; try done; by destruct (it_Valid j). Qed.

Section scan_facts.
Context {I : Type} {c : Comparator} {valid : bytes -> Prop} `{IteratorOk c valid I}.

Lemma scan_step step es n i i' m l j e :
  it_at c valid es (Some n) i -> es !! n = Some e -> step i = Ret i' -> scan step m i' = Ret (l, j) ->
  scan step (S m) i = Ret (e :: l, j).
Proof.
  intros Hi He Es El. cbn. rewrite (it_Valid_at _ _ _ _ _ Hi), bool_decide_true by done.
  destruct (it_entry_at _ _ _ _ _ Hi) as (e' & He' & -> & ->). rewrite He in He'. injection He' as <-.
  rewrite !res_bind_ret, Es, res_bind_ret, El. by destruct e.
Qed.

Lemma scan_end step es m i : it_at c valid es None i -> scan step m i = Ret ([], i).
Proof. intros Hi. destruct m; [done|]. cbn. by rewrite (it_Valid_at _ _ _ _ _ Hi). Qed.

Definition entries_from (p : position) (es : list entry) : list entry :=
  match p with Some n => drop n es | None => [] end.
Definition entries_upto (p : position) (es : list entry) : list entry :=
  match p with Some n => rev (take (S n) es) | None => [] end.

(** Going forward, an iterator yields the entries in order, and then is not
    valid; going backward, the entries in the opposite order. *)
Lemma scan_forward es p i m : it_at c valid es p i -> (length es < m)%nat ->
  exists j, scan it_Next m i = Ret (entries_from p es, j) /\ it_at c valid es None j.
Proof.
  destruct p as [n|]; [|intros Hi _; exists i; split; [by eapply scan_end|done]].
  intros Hi Hm. assert (length es - n < m)%nat as Hm' by lia. clear Hm. revert n i Hi Hm'.
  induction m as [|m IH]; intros n i Hi Hm; [lia|].
  destruct (it_entry_at _ _ _ _ _ Hi) as (e & He & _). destruct (it_Next_at _ _ _ _ _ Hi) as (i' & E & Hi').
  pose proof (lookup_lt_Some _ _ _ He). unfold next_pos in Hi'. cbn [entries_from]. rewrite (drop_S _ _ _ He).
  destruct (decide _) as [Hlt|Hge].
  - destruct (IH (S n) i' Hi') as (j & Ej & Hj); [lia|]. exists j. split; [|done]. by eapply scan_step.
  - exists i'. split; [|done]. rewrite drop_ge by lia. eapply scan_step; [done..|]. by eapply scan_end.
Qed.

Lemma scan_backward es p i m : it_at c valid es p i -> (length es < m)%nat ->
  exists j, scan it_Prev m i = Ret (entries_upto p es, j) /\ it_at c valid es None j.
Proof.
  destruct p as [n|]; [|intros Hi _; exists i; split; [by eapply scan_end|done]].
  intros Hi Hm. destruct (it_entry_at _ _ _ _ _ Hi) as (e & He & _). pose proof (lookup_lt_Some _ _ _ He) as Hlt.
  assert (n < m)%nat as Hm' by lia. clear Hm He e Hlt. revert n i Hi Hm'.
  induction m as [|m IH]; intros n i Hi Hm; [lia|].
  destruct (it_entry_at _ _ _ _ _ Hi) as (e & He & _). destruct (it_Prev_at _ _ _ _ _ Hi) as (i' & E & Hi').
  cbn [entries_upto]. rewrite (take_S_r _ _ _ He), rev_app_distr. cbn [rev app]. destruct n as [|n]; cbn [prev_pos] in Hi'.
  - exists i'. split; [|done]. rewrite take_0. eapply scan_step; [done..|]. by eapply scan_end.
  - destruct (IH n i' Hi') as (j & Ej & Hj); [lia|]. exists j. split; [|done]. by eapply scan_step.
Qed.

(** What a client sees of [es]: all entries in both orders, and those at or
    past a target. *)
Definition yields (es : list entry) (i : I) : Prop :=
  forall target m, valid target -> (length es < m)%nat ->
    (exists i1 i2, it_SeekToFirst i = Ret i1 /\ scan it_Next m i1 = Ret (es, i2) /\ it_Valid i2 = false) /\
    (exists i1 i2, it_SeekToLast i = Ret i1 /\ scan it_Prev m i1 = Ret (rev es, i2) /\ it_Valid i2 = false) /\
    (exists i1 i2 p, it_Seek target i = Ret i1 /\ seek_pos c valid es target p /\
       scan it_Next m i1 = Ret (entries_from p es, i2) /\ it_Valid i2 = false).

Lemma it_at_yields es p i : it_at c valid es p i -> yields es i.
Proof.
  intros Hi target m Ht Hm. split; [|split].
  - destruct (it_SeekToFirst_at c valid _ _ _ Hi) as (i1 & E & Hi1). destruct (scan_forward _ _ _ m Hi1 Hm) as (i2 & Es & Hi2).
    exists i1, i2. split; [done|]. split; [|by rewrite (it_Valid_at c valid _ _ _ Hi2)]. rewrite Es. by destruct es.
  - destruct (it_SeekToLast_at c valid _ _ _ Hi) as (i1 & E & Hi1). destruct (scan_backward _ _ _ m Hi1 Hm) as (i2 & Es & Hi2).
    exists i1, i2. split; [done|]. split; [|by rewrite (it_Valid_at c valid _ _ _ Hi2)]. rewrite Es.
    destruct es as [|e es]; [done|].
    change (entries_upto (last_pos (e :: es)) (e :: es)) with (rev (take (length (e :: es)) (e :: es))). by rewrite firstn_all.
  - destruct (it_Seek_at c valid _ _ _ _ Hi Ht) as (i1 & p' & E & Hp & Hi1). destruct (scan_forward _ _ _ m Hi1 Hm) as (i2 & Es & Hi2).
    exists i1, i2, p'. split; [done|]. split; [done|]. split; [done|]. by rewrite (it_Valid_at c valid _ _ _ Hi2).
Qed.
(** Where a client stands after each call, in any order of calls: [shows] is
    what it sees there. *)
Definition op_pos (es : list entry) (op : iter_op) (p p' : position) : Prop :=
  match op with
  | OpSeekToFirst => p' = first_pos es
  | OpSeekToLast => p' = last_pos es
  | OpSeek target => seek_pos c valid es target p'
  | OpNext => p' = match p with Some n => next_pos es n | None => None end
  | OpPrev => p' = match p with Some n => prev_pos n | None => None end
  end.

Fixpoint ops_pos (es : list entry) (ops : list iter_op) (p p' : position) : Prop :=
  match ops with
  | [] => p' = p
  | op :: ops => exists q, op_pos es op p q /\ ops_pos es ops q p'
  end.

Definition op_target_ok (op : iter_op) : Prop := match op with OpSeek target => valid target | _ => True end.

Definition shows (es : list entry) (p : position) (i : I) : Prop :=
  it_status i = Ret Status_OK /\
  match p with
  | Some n => it_Valid i = true /\ exists e, es !! n = Some e /\ it_key i = Ret e.1 /\ it_value i = Ret e.2
  | None => it_Valid i = false
  end.

Lemma it_at_shows es p i : it_at c valid es p i -> shows es p i.
Proof.
  intros Hi. split; [exact (it_status_at c valid _ _ _ Hi)|]. pose proof (it_Valid_at _ _ _ _ _ Hi) as Hv. destruct p as [n|]; [|done].
  split; [done|]. exact (it_entry_at c valid _ _ _ Hi).
Qed.

Lemma run_op_at es p i op : it_at c valid es p i -> op_target_ok op ->
  exists i' p', run_op op i = Ret i' /\ op_pos es op p p' /\ it_at c valid es p' i'.
Proof.
  intros Hi Hop. pose proof (it_Valid_at _ _ _ _ _ Hi) as Hv. destruct op as [| |t| |]; cbn [run_op op_pos]; rewrite ?Hv.
  - destruct (it_SeekToFirst_at _ _ _ _ _ Hi) as (i' & E & Hi'). by exists i', (first_pos es).
  - destruct (it_SeekToLast_at _ _ _ _ _ Hi) as (i' & E & Hi'). by exists i', (last_pos es).
  - exact (it_Seek_at c valid _ _ _ _ Hi Hop).
  - destruct p as [n|]; [|by exists i, None]. destruct (it_Next_at _ _ _ _ _ Hi) as (i' & E & Hi'). by exists i', (next_pos es n).
  - destruct p as [n|]; [|by exists i, None]. destruct (it_Prev_at _ _ _ _ _ Hi) as (i' & E & Hi'). by exists i', (prev_pos n).
Qed.

Lemma run_ops_at es p i ops : it_at c valid es p i -> Forall op_target_ok ops ->
  exists i' p', run_ops ops i = Ret i' /\ ops_pos es ops p p' /\ it_at c valid es p' i'.
Proof.
  intros Hi Hops. revert p i Hi. induction Hops as [|op ops Hop _ IH]; intros p i Hi; [by exists i, p|].
  destruct (run_op_at es p i op Hi Hop) as (i1 & q & E & Hq & Hi1). destruct (IH q i1 Hi1) as (i' & p' & E' & Hp' & Hi').
  exists i', p'. cbn [run_ops ops_pos]. rewrite E, res_bind_ret. split; [done|]. split; [by exists q|done].
Qed.
End scan_facts.
Arguments yields {I} c valid {_ _} es i.
Arguments op_pos c valid {_} es op p p'.
Arguments ops_pos c valid {_} es ops p p'.
Arguments op_target_ok valid op : clear implicits.
Arguments shows {I _} es p i.

(** ** Sorted lists of concrete entries, under the bytewise order *)
Fixpoint sorted_keys (ks : list bytes) : bool :=
  match ks with
  | k :: ((k' :: _) as ks') => (compare k k' <? 0) && sorted_keys ks'
  | _ => true
  end.

Lemma bytewise_entries_ok es :
  sorted_keys es.*1 = true -> Forall bytes_ok es.*1 -> entries_ok BytewiseComparator bytes_ok es.
Proof.
  intros Hs Hb. split; [|done]. apply sorting.Sorted_StronglySorted; [exact bytes_lt_trans|]. clear Hb.
  induction es.*1 as [|k ks IH]; [constructor|]. destruct ks as [|k' ks]; [by repeat constructor|].
  cbn [sorted_keys] in Hs. apply andb_true_iff in Hs as [Hlt Hs]. constructor; [by apply IH|]. constructor.
  apply Z.ltb_lt in Hlt. pose proof (compare_spec k k') as Hc. apply Z.compare_lt_iff in Hlt. by rewrite Hlt in Hc.
Qed.
