(* ===== verification/Block.v ===== *)
(** * LevelDB: blocks (block_builder.h, block_builder.cc, block.h, block.cc)

    A pointer into a block is its offset.  The block owns its bytes; who frees
    them is not modelled. *)
From S2P Require Import Prelude LdbBase Coding Comparator Iterator.

(** ** BlockBuilder *)
Record BlockBuilder : Type := MkBlockBuilder {
  buffer_ : bytes;
  builder_restarts : list Z;
  counter_ : Z;
  finished_ : bool;
  last_key_ : bytes;
}.

Section builder.
Variables (block_restart_interval : Z) (comparator : Comparator).

Definition new_BlockBuilder : res BlockBuilder :=
  let! _ := assert_ (1 <=? block_restart_interval) in
  Ret (MkBlockBuilder [] [0] 0 false []).

Definition Reset (b : BlockBuilder) : BlockBuilder := MkBlockBuilder [] [0] 0 false [].

Definition CurrentSizeEstimate (b : BlockBuilder) : Z :=
  size (buffer_ b) + zlength (builder_restarts b) * 4 + 4.

Definition builder_empty (b : BlockBuilder) : bool := size (buffer_ b) =? 0.

(** The returned slice and the builder. *)
Definition Finish (b : BlockBuilder) : bytes * BlockBuilder :=
  let buffer := foldl PutFixed32 (buffer_ b) (builder_restarts b) in
  let buffer := PutFixed32 buffer (u32 (zlength (builder_restarts b))) in
  (buffer, MkBlockBuilder buffer (builder_restarts b) (counter_ b) true (last_key_ b)).

Definition Add (key value : bytes) (b : BlockBuilder) : res BlockBuilder :=
  let! _ := assert_ (negb (finished_ b)) in
  let! _ := assert_ (counter_ b <=? block_restart_interval) in
  let! _ := (if size (buffer_ b) =? 0 then Ret tt
             else let! c := Compare comparator key (last_key_ b) in assert_ (0 <? c)) in
  let '(shared, restarts, counter) :=
    if counter_ b <? block_restart_interval then
      (common_prefix (last_key_ b) key, builder_restarts b, counter_ b)
    else (0, builder_restarts b ++ [u32 (size (buffer_ b))], 0) in
  let non_shared := size key - shared in
  let buffer := PutVarint32 (buffer_ b) (u32 shared) in
  let buffer := PutVarint32 buffer (u32 non_shared) in
  let buffer := PutVarint32 buffer (u32 (size value)) in
  let buffer := buffer ++ ztake non_shared (zdrop shared key) in
  let buffer := buffer ++ value in
  let last_key := ztake shared (last_key_ b) ++ ztake non_shared (zdrop shared key) in
  let! _ := assert_ (slice_eq last_key key) in
  Ret (MkBlockBuilder buffer restarts (counter + 1) (finished_ b) last_key).
End builder.

(** ** Block *)
Record Block : Type := MkBlock {
  data_ : bytes;
  size_ : Z;
  restart_offset_ : Z;
}.

Definition NumRestarts (b : Block) : res Z :=
  let! _ := assert_ (4 <=? size_ b) in
  DecodeFixed32 (zdrop (size_ b - 4) (data_ b)).

(** The constructor, on [contents.data]; [restart_offset_] is not initialised
    on the error paths. *)
Definition new_Block (contents : bytes) : res Block :=
  let b := MkBlock contents (size contents) 0 in
  if size_ b <? 4 then Ret (MkBlock contents 0 0)
  else
    let max_restarts_allowed := (size_ b - 4) / 4 in
    let! n := NumRestarts b in
    if max_restarts_allowed <? n then Ret (MkBlock contents 0 0)
    else Ret (MkBlock contents (size_ b) (u32 (u64 (size_ b - u32 (1 + n) * 4)))).

(** [DecodeEntry], on the bytes from [p] to [limit]: the new [p], [*shared],
    [*non_shared] and [*value_length]. *)
Definition DecodeEntry (p : bytes) : option (bytes * Z * Z * Z) :=
  match p with
  | shared :: non_shared :: value_length :: q =>
      let o :=
        if (shared .| non_shared .| value_length) <? 128 then Some (q, shared, non_shared, value_length)
        else
          match GetVarint32Ptr p with
          | None => None
          | Some (shared, p) =>
              match GetVarint32Ptr p with
              | None => None
              | Some (non_shared, p) =>
                  match GetVarint32Ptr p with
                  | None => None
                  | Some (value_length, p) => Some (p, shared, non_shared, value_length)
                  end
              end
          end in
      match o with
      | None => None
      | Some (p, shared, non_shared, value_length) =>
          if u32 (size p) <? u32 (non_shared + value_length) then None else o
      end
  | _ => None
  end.

(** ** Block::Iter

    [value_] is an offset and a length; the cleared slice, whose pointer leads
    to another object, is [None]. *)
Record BlockIter : Type := MkBlockIter {
  comparator_ : Comparator;
  iter_data : bytes;
  restarts_ : Z;
  num_restarts_ : Z;
  current_ : Z;
  restart_index_ : Z;
  key_ : bytes;
  value_ : option (Z * Z);
  status_ : Status;
}.

Definition new_BlockIter (comparator : Comparator) (data : bytes) (restarts num_restarts : Z) : res BlockIter :=
  let! _ := assert_ (0 <? num_restarts) in
  Ret (MkBlockIter comparator data restarts num_restarts restarts num_restarts [] None Status_OK).

Definition set_position (current restart_index : Z) (i : BlockIter) : BlockIter :=
  MkBlockIter (comparator_ i) (iter_data i) (restarts_ i) (num_restarts_ i) current restart_index
    (key_ i) (value_ i) (status_ i).
Definition set_entry (key : bytes) (value : option (Z * Z)) (i : BlockIter) : BlockIter :=
  MkBlockIter (comparator_ i) (iter_data i) (restarts_ i) (num_restarts_ i) (current_ i) (restart_index_ i)
    key value (status_ i).
Definition set_status (s : Status) (i : BlockIter) : BlockIter :=
  MkBlockIter (comparator_ i) (iter_data i) (restarts_ i) (num_restarts_ i) (current_ i) (restart_index_ i)
    (key_ i) (value_ i) s.

(** The [n] bytes at offset [p]. *)
Definition data_at (i : BlockIter) (p n : Z) : res bytes :=
  if (0 <=? p) && (p + n <=? size (iter_data i)) then Ret (ztake n (zdrop p (iter_data i))) else UB.

(** The bytes from offset [p] to [data_ + restarts_]. *)
Definition to_limit (i : BlockIter) (p : Z) : bytes := zdrop p (ztake (restarts_ i) (iter_data i)).

Definition NextEntryOffset (i : BlockIter) : res Z :=
  let! '(p, n) := of_option (value_ i) in Ret (u32 (p + n)).

Definition GetRestartPoint (index : Z) (i : BlockIter) : res Z :=
  let! _ := assert_ (index <? num_restarts_ i) in
  DecodeFixed32 (zdrop (restarts_ i + index * 4) (iter_data i)).

Definition SeekToRestartPoint (index : Z) (i : BlockIter) : res BlockIter :=
  let! offset := GetRestartPoint index i in
  Ret (set_entry [] (Some (offset, 0)) (set_position (current_ i) index i)).

Definition block_Valid (i : BlockIter) : bool := current_ i <? restarts_ i.
Definition block_key (i : BlockIter) : res bytes := let! _ := assert_ (block_Valid i) in Ret (key_ i).
Definition block_value (i : BlockIter) : res bytes :=
  let! _ := assert_ (block_Valid i) in
  let! '(p, n) := of_option (value_ i) in data_at i p n.

Definition CorruptionError (i : BlockIter) : BlockIter :=
  set_entry [] None (set_status (Corruption (str "bad entry in block")) (set_position (restarts_ i) (num_restarts_ i) i)).

(** [while (restart_index_ + 1 < num_restarts_ && ...) ++restart_index_]. *)
Definition restart_index_body (i : BlockIter) : res (BlockIter + BlockIter) :=
  if u32 (restart_index_ i + 1) <? num_restarts_ i then
    let! offset := GetRestartPoint (u32 (restart_index_ i + 1)) i in
    if offset <? current_ i then Ret (inl (set_position (current_ i) (u32 (restart_index_ i + 1)) i))
    else Ret (inr i)
  else Ret (inr i).

Definition ParseNextKey (i : BlockIter) : res (bool * BlockIter) :=
  let! current := NextEntryOffset i in
  let i := set_position current (restart_index_ i) i in
  if restarts_ i <=? current then Ret (false, set_position (restarts_ i) (num_restarts_ i) i)
  else
    match DecodeEntry (to_limit i current) with
    | None => Ret (false, CorruptionError i)
    | Some (q, shared, non_shared, value_length) =>
        if size (key_ i) <? shared then Ret (false, CorruptionError i)
        else
          let p := restarts_ i - size q in
          let! delta := data_at i p non_shared in
          let i := set_entry (ztake shared (key_ i) ++ delta) (Some (p + non_shared, value_length)) i in
          let! i := while restart_index_body i in
          Ret (true, i)
    end.

Definition block_Next (i : BlockIter) : res BlockIter :=
  let! _ := assert_ (block_Valid i) in
  let! '(_, i) := ParseNextKey i in Ret i.

(** The two loops of [Prev]; [false]: the [return] inside the first. *)
Definition prev_restart_body (original : Z) (i : BlockIter) : res (BlockIter + (bool * BlockIter)) :=
  let! offset := GetRestartPoint (restart_index_ i) i in
  if original <=? offset then
    if restart_index_ i =? 0 then Ret (inr (false, set_position (restarts_ i) (num_restarts_ i) i))
    else Ret (inl (set_position (current_ i) (restart_index_ i - 1) i))
  else Ret (inr (true, i)).

(** [while (ParseNextKey() && NextEntryOffset() < bound)]. *)
Definition parse_until_body (bound : Z) (i : BlockIter) : res (BlockIter + BlockIter) :=
  let! '(b, i) := ParseNextKey i in
  if b : bool then
    let! next := NextEntryOffset i in
    Ret (if next <? bound then inl i else inr i)
  else Ret (inr i).

Definition block_Prev (i : BlockIter) : res BlockIter :=
  let! _ := assert_ (block_Valid i) in
  let original := current_ i in
  let! '(found, i) := while (prev_restart_body original) i in
  if negb found then Ret i
  else
    let! i := SeekToRestartPoint (restart_index_ i) i in
    while (parse_until_body original) i.

(** The binary search of [Seek] on [left] and [right]; [None]: corruption. *)
Definition seek_search_body (target : bytes) (i : BlockIter) (lr : Z * Z) : res ((Z * Z) + option Z) :=
  let '(left_, right_) := lr in
  if left_ <? right_ then
    let mid := u32 (left_ + right_ + 1) / 2 in
    let! region_offset := GetRestartPoint mid i in
    match DecodeEntry (to_limit i region_offset) with
    | None => Ret (inr None)
    | Some (q, shared, non_shared, _) =>
        if negb (shared =? 0) then Ret (inr None)
        else
          let! mid_key := data_at i (restarts_ i - size q) non_shared in
          let! c := Compare (comparator_ i) mid_key target in
          if c <? 0 then Ret (inl (mid, right_)) else Ret (inl (left_, mid - 1))
    end
  else Ret (inr (Some left_)).

Definition seek_linear_body (target : bytes) (i : BlockIter) : res (BlockIter + BlockIter) :=
  let! '(b, i) := ParseNextKey i in
  if negb b then Ret (inr i)
  else
    let! c := Compare (comparator_ i) (key_ i) target in
    Ret (if 0 <=? c then inr i else inl i).

Definition block_Seek (target : bytes) (i : BlockIter) : res BlockIter :=
  let! o := while (seek_search_body target i) (0, u32 (num_restarts_ i - 1)) in
  match o with
  | None => Ret (CorruptionError i)
  | Some left_ =>
      let! i := SeekToRestartPoint left_ i in
      while (seek_linear_body target) i
  end.

Definition block_SeekToFirst (i : BlockIter) : res BlockIter :=
  let! i := SeekToRestartPoint 0 i in
  let! '(_, i) := ParseNextKey i in Ret i.

Definition block_SeekToLast (i : BlockIter) : res BlockIter :=
  let! i := SeekToRestartPoint (u32 (num_restarts_ i - 1)) i in
  while (parse_until_body (restarts_ i)) i.

#[export] Instance BlockIter_Iterator : Iterator BlockIter := {|
  it_Valid := block_Valid;
  it_SeekToFirst := block_SeekToFirst;
  it_SeekToLast := block_SeekToLast;
  it_Seek := block_Seek;
  it_Next := block_Next;
  it_Prev := block_Prev;
  it_key := block_key;
  it_value := block_value;
  it_status i := Ret (status_ i);
|}.

(** [NewIterator] returns an [Iterator*]: one of the two classes. *)
Definition NewIterator (b : Block) (comparator : Comparator) : res (EmptyIterator + BlockIter) :=
  if size_ b <? 4 then Ret (inl (NewErrorIterator (Corruption (str "bad block contents"))))
  else
    let! num_restarts := NumRestarts b in
    if num_restarts =? 0 then Ret (inl NewEmptyIterator)
    else let! i := new_BlockIter comparator (data_ b) (restart_offset_ b) num_restarts in Ret (inr i).
