(* ===== verification/BlockBuild.v ===== *)
(** * LevelDB's block builder, proved

    The builder writes blocks with a [layout], so iterators over them keep
    their contract. *)
From stdpp Require sorting.
From S2P Require Import Prelude WireFormat LdbBase Coding Comparator Iterator Block.

(** ** LevelDB's blocks, proved

    [layout] says what a block is made of; the iterator over such a block
    keeps the contract of iterators, and the builder writes such blocks. *)

(** ** DecodeEntry *)
Lemma GetVarint32Ptr_bytes v rest : 0 <= v < 2 ^ 32 -> bytes_ok rest -> GetVarint32Ptr (varint_bytes v ++ rest) = Some (v, rest).
Proof.
  intros Hv Hr. rewrite GetVarint32Ptr_spec by (apply bytes_ok_app; split; [apply varint_bytes_ok; lia|done]).
  apply parsed_ptr_bytes; [done|lia|vm_compute; discriminate|lia].
Qed.

(** The three varints, without the fast path. *)
Definition decode_three (p : bytes) : option (bytes * Z * Z * Z) :=
  match GetVarint32Ptr p with
  | None => None
  | Some (a, p) =>
      match GetVarint32Ptr p with
      | None => None
      | Some (b, p) => match GetVarint32Ptr p with None => None | Some (c, p) => Some (p, a, b, c) end
      end
  end.

Lemma lor_lt_128 a b : is_byte a -> is_byte b -> a .| b < 128 -> a < 128 /\ b < 128.
Proof.
  intros Ha Hb Hlt. unfold is_byte in *.
  assert (forall z, 0 <= z < 256 -> z < 128 \/ Z.testbit z 7 = true) as Hbit.
  { intros z Hz. destruct (Z.lt_ge_cases z 128) as [|Hge]; [by left|right].
    rewrite Z.testbit_true by lia. change (2 ^ 7) with 128. rewrite <- (Z.div_unique z 128 1 (z - 128)) by lia. done. }
  assert (Z.testbit (a .| b) 7 = false) as Hf.
  { rewrite <- (Z.mod_small (a .| b) (2 ^ 7)); [by apply Z.mod_pow2_bits_high|].
    split; [apply Z.lor_nonneg; lia|done]. }
  rewrite Z.lor_spec in Hf. apply orb_false_iff in Hf as [Hfa Hfb].
  destruct (Hbit a Ha) as [|Ta]; [|congruence]. destruct (Hbit b Hb) as [|Tb]; [done|congruence].
Qed.

Lemma GetVarint32Ptr_byte b p : is_byte b -> b < 128 -> GetVarint32Ptr (b :: p) = Some (b, p).
Proof. intros Hb Hlt. cbn. change 128 with 0x80. rewrite land_0x80 by done. by rewrite (proj2 (Z.ltb_lt _ _)). Qed.

(** The fast path of [DecodeEntry] only saves time. *)
Lemma DecodeEntry_spec p : bytes_ok p -> 3 <= zlength p ->
  DecodeEntry p =
    match decode_three p with
    | Some (q, s, n, v) => if u32 (size q) <? u32 (n + v) then None else Some (q, s, n, v)
    | None => None
    end.
Proof.
  intros Hp Hl. destruct p as [|a [|b [|c q]]]; try (unfold zlength in Hl; cbn in Hl; lia).
  unfold DecodeEntry. destruct (Z.ltb_spec (a .| b .| c) 128) as [Hlt|Hge].
  - apply Forall_cons_1 in Hp as [Ha Hp]. apply Forall_cons_1 in Hp as [Hb Hp]. apply Forall_cons_1 in Hp as [Hc Hp].
    destruct (lor_lt_128 (a .| b) c) as [Hab Hc']; [by apply (lor_bound a b 8)|done..|].
    destruct (lor_lt_128 a b) as [Ha' Hb']; [done..|].
    unfold decode_three. by rewrite !GetVarint32Ptr_byte by done.
  - fold (decode_three (a :: b :: c :: q)). by destruct (decode_three (a :: b :: c :: q)) as [[[[? ?] ?] ?]|].
Qed.

(** ** What a block holds *)

(** An entry and the number of bytes its key shares with the previous key. *)
Abbreviation item := (Z * entry)%type.

Definition item_bytes (it : item) : bytes :=
  varint_bytes it.1 ++ varint_bytes (zlength it.2.1 - it.1) ++ varint_bytes (zlength it.2.2) ++
  zdrop it.1 it.2.1 ++ it.2.2.

Definition items_bytes (items : list item) : bytes := concat (item_bytes <$> items).
Definition offset (items : list item) (n : nat) : Z := zlength (items_bytes (take n items)).

(** Entries, the array of restart offsets, its length. *)
Definition block_bytes (items : list item) (ridx : list nat) : bytes :=
  items_bytes items ++ fixed32s (offset items <$> ridx) ++ EncodeFixed32 (zlength ridx).

Definition prev_key (items : list item) (n : nat) : bytes :=
  match n with O => [] | S m => match items !! m with Some it => it.2.1 | None => [] end end.

Definition item_ok (prev : bytes) (it : item) : Prop :=
  0 <= it.1 /\ it.1 <= zlength prev /\ it.1 <= zlength it.2.1 /\ ztake it.1 prev = ztake it.1 it.2.1.

Record layout (items : list item) (ridx : list nat) : Prop := {
  ly_items : forall n it, items !! n = Some it -> item_ok (prev_key items n) it;
  ly_bytes : Forall (fun it => bytes_ok it.2.1 /\ bytes_ok it.2.2 /\ zlength it.2.1 < 2 ^ 32) items;
  ly_first : ridx !! O = Some O;
  ly_restart : forall j n, ridx !! j = Some n ->
    (j = O \/ n < length items)%nat /\ forall it, items !! n = Some it -> it.1 = 0;
  ly_size : zlength (block_bytes items ridx) < 2 ^ 32;
}.

(** ** Offsets *)
Lemma items_bytes_app l k : items_bytes (l ++ k) = items_bytes l ++ items_bytes k.
Proof. unfold items_bytes. by rewrite fmap_app, concat_app. Qed.

Lemma items_bytes_split items n : items_bytes items = items_bytes (take n items) ++ items_bytes (drop n items).
Proof. by rewrite <- items_bytes_app, take_drop. Qed.

Lemma items_bytes_drop items n it :
  items !! n = Some it -> items_bytes (drop n items) = item_bytes it ++ items_bytes (drop (S n) items).
Proof. intros Hit. by rewrite (drop_S _ _ _ Hit). Qed.

Lemma item_bytes_pos it : 3 <= zlength (item_bytes it).
Proof.
  unfold item_bytes. rewrite !zlength_app. pose proof (zlength_varint_bytes_pos it.1).
  pose proof (zlength_varint_bytes_pos (zlength it.2.1 - it.1)). pose proof (zlength_varint_bytes_pos (zlength it.2.2)).
  pose proof (zlength_nonneg (zdrop it.1 it.2.1)). pose proof (zlength_nonneg it.2.2). lia.
Qed.

Lemma offset_S items n it : items !! n = Some it -> offset items (S n) = offset items n + zlength (item_bytes it).
Proof.
  intros Hit. unfold offset. rewrite (take_S_r _ _ _ Hit), items_bytes_app, zlength_app.
  unfold items_bytes at 2. cbn. by rewrite app_nil_r.
Qed.

Lemma offset_0 items : offset items 0 = 0.
Proof. done. Qed.

Lemma offset_length items : offset items (length items) = zlength (items_bytes items).
Proof. unfold offset. by rewrite firstn_all. Qed.

Lemma offset_le items n : offset items n <= zlength (items_bytes items).
Proof. rewrite (items_bytes_split items n), zlength_app. unfold offset. pose proof (zlength_nonneg (items_bytes (drop n items))). lia. Qed.

Lemma offset_lt items n m : (n < m <= length items)%nat -> offset items n < offset items m.
Proof.
  intros [Hnm Hm]. induction m as [|m IH]; [lia|]. destruct (lookup_lt_is_Some_2 items m ltac:(lia)) as [it Hit].
  rewrite (offset_S _ _ _ Hit). pose proof (item_bytes_pos it). destruct (decide (n = m)) as [->|]; [lia|].
  specialize (IH ltac:(lia) ltac:(lia)). lia.
Qed.

Lemma offset_lt_inv items n m : (n <= length items)%nat -> offset items n < offset items m -> (n < m)%nat.
Proof.
  intros Hn Hlt. destruct (decide (n < m)%nat) as [|Hge]; [done|]. destruct (decide (m = n)) as [->|]; [lia|].
  pose proof (offset_lt items m n). lia.
Qed.

(** ** Entries *)
Lemma item_bytes_ok prev it : item_ok prev it -> bytes_ok it.2.1 -> bytes_ok it.2.2 -> bytes_ok (item_bytes it).
Proof.
  intros (H0 & _ & Hk & _) Hkb Hvb. unfold item_bytes. pose proof (zlength_nonneg it.2.2).
  repeat (apply bytes_ok_app; split); try done; try (apply varint_bytes_ok; lia). by apply Forall_drop.
Qed.

Lemma DecodeEntry_item prev it tail :
  item_ok prev it -> bytes_ok it.2.1 -> bytes_ok it.2.2 -> zlength it.2.1 < 2 ^ 32 -> bytes_ok tail ->
  zlength (item_bytes it ++ tail) < 2 ^ 32 ->
  DecodeEntry (item_bytes it ++ tail) =
    Some (zdrop it.1 it.2.1 ++ it.2.2 ++ tail, it.1, zlength it.2.1 - it.1, zlength it.2.2).
Proof.
  intros Hit Hk Hv Hk32 Ht Hl. rewrite DecodeEntry_spec.
  2: { apply bytes_ok_app. split; [by eapply item_bytes_ok|done]. }
  2: { rewrite zlength_app. pose proof (item_bytes_pos it). pose proof (zlength_nonneg tail). lia. }
  destruct Hit as (H0 & _ & Hsk & _). destruct it as [s [k v]]; cbn [fst snd] in *.
  assert (bytes_ok (zdrop s k)) as Hd by by apply Forall_drop.
  assert (zlength (zdrop s k) = zlength k - s) as Hz by (apply zlength_zdrop; lia).
  unfold item_bytes in *. cbn [fst snd] in *. rewrite !zlength_app, Hz in Hl.
  pose proof (zlength_varint_bytes_pos s). pose proof (zlength_varint_bytes_pos (zlength k - s)).
  pose proof (zlength_varint_bytes_pos (zlength v)). pose proof (zlength_nonneg v). pose proof (zlength_nonneg tail).
  unfold decode_three. rewrite <- !app_assoc.
  assert (bytes_ok (zdrop s k ++ v ++ tail)) as Hq by (by repeat (apply bytes_ok_app; split)).
  rewrite GetVarint32Ptr_bytes by (try lia; repeat (apply bytes_ok_app; split); try done; apply varint_bytes_ok; lia).
  rewrite GetVarint32Ptr_bytes by (try lia; repeat (apply bytes_ok_app; split); try done; apply varint_bytes_ok; lia).
  rewrite GetVarint32Ptr_bytes by (done || lia).
  unfold size. rewrite !zlength_app, Hz, !wrap_small by lia. by rewrite (proj2 (Z.ltb_ge _ _)) by lia.
Qed.

(** ** The iterator over a block *)
Section iterator.
Variables (c : Comparator) (valid : bytes -> Prop).
Context `{!ComparatorOk c valid}.
Variables (items : list item) (ridx : list nat).
Hypothesis Hly : layout items ridx.
Implicit Types (i : BlockIter).

Record block_base i : Prop := {
  bb_comparator : comparator_ i = c;
  bb_data : iter_data i = block_bytes items ridx;
  bb_restarts : restarts_ i = zlength (items_bytes items);
  bb_num : num_restarts_ i = zlength ridx;
  bb_status : status_ i = Status_OK;
}.

Lemma base_set_position cur r i : block_base i -> block_base (set_position cur r i).
Proof. by intros [? ? ? ? ?]. Qed.
Lemma base_set_entry k v i : block_base i -> block_base (set_entry k v i).
Proof. by intros [? ? ? ? ?]. Qed.

Lemma items_size : zlength (items_bytes items) + 4 * zlength ridx + 4 < 2 ^ 32 /\ 0 < zlength ridx.
Proof.
  pose proof (ly_size _ _ Hly) as Hs. unfold block_bytes in Hs.
  rewrite !zlength_app, zlength_fixed32s, zlength_fixed32 in Hs. unfold zlength at 2 in Hs. rewrite length_fmap in Hs.
  split; [unfold zlength at 2; lia|]. pose proof (lookup_lt_Some _ _ _ (ly_first _ _ Hly)). unfold zlength. lia.
Qed.

Lemma offset_bound n : 0 <= offset items n < 2 ^ 32.
Proof. pose proof (offset_le items n). pose proof items_size. unfold offset in *. pose proof (zlength_nonneg (items_bytes (take n items))). lia. Qed.

Lemma block_items_ok n : bytes_ok (items_bytes (drop n items)).
Proof.
  assert (forall m it, items !! m = Some it -> bytes_ok (item_bytes it)) as Hall.
  { intros m it Hit. pose proof (Forall_lookup_1 _ _ _ _ (ly_bytes _ _ Hly) Hit) as (? & ? & _).
    eapply item_bytes_ok; [by apply (ly_items _ _ Hly m)|done..]. }
  unfold items_bytes. apply Forall_concat, Forall_fmap, Forall_lookup. intros m it Hit. cbn. rewrite lookup_drop in Hit. by eapply Hall.
Qed.

Lemma to_limit_offset i n : block_base i -> to_limit i (offset items n) = items_bytes (drop n items).
Proof.
  intros Hb. unfold to_limit. rewrite (bb_restarts _ Hb), (bb_data _ Hb). unfold block_bytes. rewrite ztake_app.
  rewrite (items_bytes_split items n) at 1. apply zdrop_app.
Qed.

Lemma data_at_mid i a x b : block_base i -> block_bytes items ridx = a ++ x ++ b -> data_at i (zlength a) (zlength x) = Ret x.
Proof.
  intros Hb E. unfold data_at, size. rewrite (bb_data _ Hb), E, zdrop_app, ztake_app, !zlength_app.
  pose proof (zlength_nonneg a). pose proof (zlength_nonneg b).
  by rewrite (proj2 (Z.leb_le _ _)), (proj2 (Z.leb_le _ _)) by lia.
Qed.

Lemma GetRestartPoint_at i z n : block_base i -> 0 <= z -> ridx !! Z.to_nat z = Some n ->
  GetRestartPoint z i = Ret (offset items n).
Proof.
  intros Hb Hz Hj. unfold GetRestartPoint. rewrite (bb_num _ Hb), (bb_restarts _ Hb), (bb_data _ Hb).
  rewrite assert_true, res_bind_ret by (apply Z.ltb_lt; unfold zlength; apply lookup_lt_Some in Hj; lia).
  unfold block_bytes. rewrite zdrop_add_app by lia. rewrite <- (Z2Nat.id z) at 1 by done.
  apply fixed32s_at; [|apply offset_bound]. by rewrite list_lookup_fmap, Hj.
Qed.

(** The loop that moves [restart_index_] forward. *)
Lemma restart_index_loop i : block_base i -> 0 <= restart_index_ i < zlength ridx ->
  exists r, while restart_index_body i = Ret (set_position (current_ i) r i) /\ 0 <= r < zlength ridx.
Proof.
  intros Hb Hr. pose proof items_size as [Hsz _]. pose proof (zlength_nonneg (items_bytes items)).
  apply (while_ind _ (fun j => exists r, j = set_position (current_ i) r i /\ 0 <= r < zlength ridx)
    (fun j => zlength ridx - restart_index_ j) (fun o => exists r, o = Ret (set_position (current_ i) r i) /\ 0 <= r < zlength ridx)).
  - intros j (r & -> & Hr'). unfold restart_index_body. cbn [restart_index_ set_position num_restarts_ current_].
    rewrite (bb_num _ Hb), wrap_small by lia. destruct (Z.ltb_spec (r + 1) (zlength ridx)) as [Hlt|Hge]; [|by exists r].
    destruct (lookup_lt_is_Some_2 ridx (Z.to_nat (r + 1))) as [n Hn]; [unfold zlength in Hlt; lia|].
    rewrite (GetRestartPoint_at _ _ n) by (done || lia || by apply base_set_position). rewrite res_bind_ret.
    destruct (_ <? _); [|by exists r]. split; [|cbn; lia]. exists (r + 1). split; [done|lia].
  - exists (restart_index_ i). split; [by destruct i|done].
  - lia.
Qed.

(** ** Positions *)
Definition at_entry (n : nat) i : Prop :=
  block_base i /\ exists it, items !! n = Some it /\ current_ i = offset items n /\ key_ i = it.2.1 /\
    value_ i = Some (offset items (S n) - zlength it.2.2, zlength it.2.2) /\ 0 <= restart_index_ i < zlength ridx.

Definition at_end i : Prop := block_base i /\ current_ i = restarts_ i.

Definition block_at (p : position) i : Prop := match p with Some n => at_entry n i | None => at_end i end.

(** [value_] ends where entry [n] starts. *)
Definition before (n : nat) i : Prop :=
  block_base i /\ (n <= length items)%nat /\ (exists p m, value_ i = Some (p, m) /\ p + m = offset items n) /\
  (key_ i = prev_key items n \/ key_ i = [] /\ forall it, items !! n = Some it -> it.1 = 0) /\
  0 <= restart_index_ i < zlength ridx.

Lemma at_entry_before n i : at_entry n i -> before (S n) i.
Proof.
  intros (Hb & it & Hit & Hcur & Hk & Hv & Hr). split; [done|]. split; [apply lookup_lt_Some in Hit; lia|].
  split; [eexists _, _; split; [exact Hv|lia]|]. split; [|done]. left. by rewrite Hk; simpl; rewrite Hit.
Qed.

Lemma before_next n i : before n i -> NextEntryOffset i = Ret (offset items n).
Proof.
  intros (_ & _ & (p & m & Hv & Ho) & _). unfold NextEntryOffset. rewrite Hv. cbn [of_option]. rewrite res_bind_ret.
  by rewrite Ho, wrap_small by apply offset_bound.
Qed.

Lemma SeekToRestartPoint_at i z n : block_base i -> 0 <= z -> ridx !! Z.to_nat z = Some n ->
  exists i', SeekToRestartPoint z i = Ret i' /\ before n i'.
Proof.
  intros Hb Hz Hj. unfold SeekToRestartPoint. rewrite (GetRestartPoint_at i z n) by done. rewrite res_bind_ret.
  eexists. split; [done|]. split; [by apply base_set_entry, base_set_position|].
  destruct (ly_restart _ _ Hly _ n Hj) as [Hn Hs]. split.
  { destruct Hn as [E|]; [|lia]. rewrite E, (ly_first _ _ Hly) in Hj. injection Hj as <-. lia. }
  split; [eexists _, _; split; [done|lia]|].
  split; [by right|]. cbn. apply lookup_lt_Some in Hj. unfold zlength. lia.
Qed.

(** What [key_] contributes to the next key. *)
Lemma before_prefix n i it : before n i -> items !! n = Some it ->
  it.1 <= zlength (key_ i) /\ ztake it.1 (key_ i) ++ zdrop it.1 it.2.1 = it.2.1.
Proof.
  intros (_ & _ & _ & Hk & _) Hit. destruct (ly_items _ _ Hly n it Hit) as (H0 & Hp & Hs & Hsh).
  destruct Hk as [->|[-> Hz]].
  - split; [done|]. by rewrite Hsh, ztake_zdrop.
  - rewrite (Hz it Hit). split; [unfold zlength; cbn; lia|]. done.
Qed.

(** Entry [n], decoded. *)
Lemma decode_at n it i : block_base i -> items !! n = Some it ->
  exists q, DecodeEntry (to_limit i (offset items n)) = Some (q, it.1, zlength it.2.1 - it.1, zlength it.2.2) /\
    data_at i (restarts_ i - size q) (zlength it.2.1 - it.1) = Ret (zdrop it.1 it.2.1) /\
    restarts_ i - size q + (zlength it.2.1 - it.1) = offset items (S n) - zlength it.2.2.
Proof.
  intros Hb Hit. rewrite to_limit_offset, (items_bytes_drop _ _ _ Hit), (bb_restarts _ Hb) by done.
  pose proof (Forall_lookup_1 _ _ _ _ (ly_bytes _ _ Hly) Hit) as (Hkb & Hvb & Hk32).
  pose proof (ly_items _ _ Hly n it Hit) as Hok. pose proof items_size as [Hsz _].
  assert (items_bytes items = items_bytes (take n items) ++ item_bytes it ++ items_bytes (drop (S n) items)) as Esplit
    by by rewrite <- (items_bytes_drop _ _ _ Hit), <- items_bytes_split.
  assert (zlength (item_bytes it ++ items_bytes (drop (S n) items)) <= zlength (items_bytes items)) as Hle.
  { rewrite Esplit, !zlength_app. pose proof (zlength_nonneg (items_bytes (take n items))). lia. }
  set (q := zdrop it.1 it.2.1 ++ it.2.2 ++ items_bytes (drop (S n) items)). exists q.
  split; [apply (DecodeEntry_item _ _ _ Hok Hkb Hvb Hk32 (block_items_ok _)); unfold zlength in *; lia|].
  destruct Hok as (H0 & _ & Hsk & _).
  assert (zlength (zdrop it.1 it.2.1) = zlength it.2.1 - it.1) as Hz by (apply zlength_zdrop; lia).
  set (hd := items_bytes (take n items) ++ varint_bytes it.1 ++ varint_bytes (zlength it.2.1 - it.1) ++ varint_bytes (zlength it.2.2)).
  assert (items_bytes items = hd ++ q) as Ehd by (rewrite Esplit; unfold hd, q, item_bytes; by rewrite <- !app_assoc).
  assert (zlength (items_bytes items) - size q = zlength hd) as -> by (unfold size; rewrite Ehd, zlength_app; lia).
  split.
  - rewrite <- Hz. apply (data_at_mid _ hd (zdrop it.1 it.2.1)
      (it.2.2 ++ items_bytes (drop (S n) items) ++ fixed32s (offset items <$> ridx) ++ EncodeFixed32 (zlength ridx))); [done|].
    unfold block_bytes. rewrite Ehd. unfold q. by rewrite <- !app_assoc.
  - rewrite (offset_S _ _ _ Hit). unfold hd, item_bytes, offset. rewrite !zlength_app. lia.
Qed.

Lemma ParseNextKey_at n i : before n i ->
  exists i', ParseNextKey i = Ret (bool_decide (n < length items)%nat, i') /\
    block_at (if decide (n < length items)%nat then Some n else None) i'.
Proof.
  intros Hbef. pose proof Hbef as (Hb & Hn & _ & _ & Hr). unfold ParseNextKey.
  rewrite (before_next _ _ Hbef), res_bind_ret. set (i0 := set_position _ _ i).
  assert (block_base i0) as Hb0 by by apply base_set_position.
  destruct (decide (n < length items)%nat) as [Hlt|Hge].
  2: { assert (n = length items) as -> by lia. rewrite offset_length, <- (bb_restarts _ Hb0), Z.leb_refl.
       rewrite bool_decide_false by lia. eexists. split; [done|]. by split; [apply base_set_position|]. }
  rewrite bool_decide_true by done. destruct (lookup_lt_is_Some_2 items n Hlt) as [it Hit].
  pose proof (offset_lt items n (length items)) as Hol. rewrite offset_length, <- (bb_restarts _ Hb0) in Hol.
  rewrite (proj2 (Z.leb_gt _ _)) by lia. destruct (decode_at n it i0 Hb0 Hit) as (q & -> & Ed & Eo).
  destruct (before_prefix n i it Hbef Hit) as [Hpre Hkey]. change (key_ i0) with (key_ i). unfold size at 1.
  rewrite (proj2 (Z.ltb_ge _ _)), Ed, res_bind_ret, Hkey, Eo by lia. set (i1 := set_entry _ _ _).
  assert (block_base i1) as Hb1 by by apply base_set_entry.
  destruct (restart_index_loop i1 Hb1) as (r & E & Hr'); [done|]. rewrite E, res_bind_ret.
  eexists. split; [done|]. split; [by apply base_set_position|]. by exists it.
Qed.

(** ** The operations *)
Definition left_over i : Z := match value_ i with Some (p, m) => 2 ^ 33 - (p + m) | None => 0 end.

Lemma left_over_before n i : before n i -> left_over i = 2 ^ 33 - offset items n.
Proof. intros (_ & _ & (p & m & Hv & Ho) & _). unfold left_over. by rewrite Hv, Ho. Qed.

Lemma block_Next_at n i : at_entry n i -> exists i', block_Next i = Ret i' /\ block_at (next_pos items.*2 n) i'.
Proof.
  intros Hi. unfold block_Next, block_Valid, next_pos. rewrite length_fmap.
  pose proof Hi as (Hb & it & Hit & Hcur & _). apply lookup_lt_Some in Hit as Hlt.
  pose proof (offset_lt items n (length items)) as Hol. rewrite offset_length in Hol.
  rewrite Hcur, (bb_restarts _ Hb), assert_true, res_bind_ret by (apply Z.ltb_lt; lia).
  destruct (ParseNextKey_at (S n) i (at_entry_before n i Hi)) as (i' & E & Hi'). rewrite E, res_bind_ret. by exists i'.
Qed.

Lemma block_SeekToFirst_at i : block_base i -> exists i', block_SeekToFirst i = Ret i' /\ block_at (first_pos items.*2) i'.
Proof.
  intros Hb. unfold block_SeekToFirst.
  destruct (SeekToRestartPoint_at i 0 0 Hb ltac:(lia) (ly_first _ _ Hly)) as (i1 & E & Hi1). rewrite E, res_bind_ret.
  destruct (ParseNextKey_at 0 i1 Hi1) as (i2 & E2 & Hi2). rewrite E2, res_bind_ret. exists i2. split; [done|].
  by destruct items.
Qed.

(** The loops that stop at entry [t]. *)
Lemma parse_until_at n t i : before n i -> (n <= t < length items)%nat ->
  exists i', while (parse_until_body (offset items (S t))) i = Ret i' /\ at_entry t i'.
Proof.
  intros Hi Hn. apply (while_ind _ (fun j => exists m, before m j /\ (m <= t)%nat) left_over
    (fun r => exists i', r = Ret i' /\ at_entry t i')).
  - intros j (m & Hj & Hm). unfold parse_until_body. destruct (ParseNextKey_at m j Hj) as (j' & E & Hj'). rewrite E, res_bind_ret.
    rewrite bool_decide_true by lia. rewrite decide_True in Hj' by lia. pose proof (at_entry_before _ _ Hj') as Hb'.
    rewrite (before_next _ _ Hb'), res_bind_ret.
    destruct (Z.ltb_spec (offset items (S m)) (offset items (S t))) as [Hlt|Hge].
    + apply offset_lt_inv in Hlt; [|lia]. split; [exists (S m); split; [done|lia]|].
      rewrite (left_over_before _ _ Hj), (left_over_before _ _ Hb'). pose proof (offset_lt items m (S m)).
      pose proof (offset_bound (S m)). lia.
    + exists j'. split; [done|]. destruct (decide (m = t)) as [->|]; [done|]. pose proof (offset_lt items (S m) (S t)). lia.
  - exists n. split; [done|lia].
  - rewrite (left_over_before _ _ Hi). pose proof (offset_bound n). lia.
Qed.

Lemma block_SeekToLast_at i : block_base i -> exists i', block_SeekToLast i = Ret i' /\ block_at (last_pos items.*2) i'.
Proof.
  intros Hb. unfold block_SeekToLast. pose proof items_size as [Hsz Hpos].
  pose proof (zlength_nonneg (items_bytes items)). rewrite (bb_num _ Hb), wrap_small by lia.
  destruct (lookup_lt_is_Some_2 ridx (Z.to_nat (zlength ridx - 1))) as [n Hn]; [unfold zlength in *; lia|].
  destruct (SeekToRestartPoint_at i (zlength ridx - 1) n Hb ltac:(lia) Hn) as (i1 & E & Hi1). rewrite E, res_bind_ret.
  pose proof Hi1 as (Hb1 & Hnl & _). rewrite (bb_restarts _ Hb1), <- offset_length.
  destruct (decide (items = [])) as [Hnil|Hne].
  - assert (n = O) as -> by (rewrite Hnil in Hnl; cbn in Hnl; lia). destruct (ParseNextKey_at 0 i1 Hi1) as (i2 & E2 & Hi2).
    rewrite Hnil in E2, Hi2 |- *. cbn in Hi2. exists i2. split; [|done].
    apply (while_loop_nat _ _ 1); [|lia]. cbn [loop_nat]. unfold parse_until_body. by rewrite E2.
  - assert (0 < length items)%nat by (destruct items; [done|cbn; lia]).
    destruct (ly_restart _ _ Hly _ _ Hn) as [Hn' _].
    assert (n < length items)%nat.
    { destruct Hn' as [E0|]; [|done]. rewrite E0, (ly_first _ _ Hly) in Hn. injection Hn as <-. done. }
    destruct (parse_until_at n (pred (length items)) i1 Hi1) as (i2 & E2 & Hi2); [lia|].
    replace (S (pred (length items))) with (length items) in E2 by lia. exists i2. split; [done|].
    unfold last_pos. rewrite length_fmap. by destruct items.
Qed.

(** The search for a restart point before entry [n]. *)
Lemma prev_restart_loop n i : at_entry n i ->
  while (prev_restart_body (offset items n)) i = Ret (false, set_position (restarts_ i) (num_restarts_ i) i) /\ n = O \/
  exists r m, while (prev_restart_body (offset items n)) i = Ret (true, set_position (current_ i) r i) /\
    0 <= r /\ ridx !! Z.to_nat r = Some m /\ (m < n)%nat.
Proof.
  intros (Hb & it & Hit & _ & _ & _ & Hr).
  apply (while_ind _ (fun j => exists r, j = set_position (current_ i) r i /\ 0 <= r < zlength ridx) restart_index_
    (fun o => o = Ret (false, set_position (restarts_ i) (num_restarts_ i) i) /\ n = O \/
      exists r m, o = Ret (true, set_position (current_ i) r i) /\ 0 <= r /\ ridx !! Z.to_nat r = Some m /\ (m < n)%nat)).
  - intros j (r & -> & Hr'). unfold prev_restart_body. cbn [restart_index_ set_position].
    destruct (lookup_lt_is_Some_2 ridx (Z.to_nat r)) as [m Hm]; [unfold zlength in Hr'; lia|].
    rewrite (GetRestartPoint_at _ _ m) by (done || lia || by apply base_set_position). rewrite res_bind_ret.
    destruct (Z.leb_spec (offset items n) (offset items m)) as [Hle|Hgt].
    + destruct (Z.eqb_spec r 0) as [->|Hne].
      * left. split; [done|]. change (Z.to_nat 0) with O in Hm. rewrite (ly_first _ _ Hly) in Hm. injection Hm as <-. rewrite offset_0 in Hle.
        destruct n as [|n]; [done|]. apply lookup_lt_Some in Hit. pose proof (offset_lt items 0 (S n)). rewrite offset_0 in *. lia.
      * split; [|cbn; lia]. exists (r - 1). split; [done|lia].
    + right. exists r, m. split; [done|]. split; [lia|]. split; [done|]. apply offset_lt_inv in Hgt; [done|].
      destruct (ly_restart _ _ Hly _ _ Hm) as [[E|Hml] _]; [|lia].
      rewrite E, (ly_first _ _ Hly) in Hm. injection Hm as <-. lia.
  - exists (restart_index_ i). split; [by destruct i|done].
  - pose proof items_size. pose proof (zlength_nonneg (items_bytes items)). lia.
Qed.

Lemma block_Prev_at n i : at_entry n i -> exists i', block_Prev i = Ret i' /\ block_at (prev_pos n) i'.
Proof.
  intros Hi. pose proof Hi as (Hb & it & Hit & Hcur & _). apply lookup_lt_Some in Hit as Hlt.
  unfold block_Prev, block_Valid. pose proof (offset_lt items n (length items)) as Hol. rewrite offset_length in Hol.
  rewrite Hcur, (bb_restarts _ Hb), assert_true, res_bind_ret by (apply Z.ltb_lt; lia).
  destruct (prev_restart_loop n i Hi) as [[-> ->]|(r & m & -> & Hr & Hm & Hmn)]; rewrite res_bind_ret.
  - eexists. split; [done|]. by split; [apply base_set_position|].
  - cbn [negb restart_index_ set_position].
    destruct (SeekToRestartPoint_at (set_position (current_ i) r i) r m) as (i1 & E & Hi1); [by apply base_set_position|done..|].
    rewrite E, res_bind_ret. destruct n as [|n]; [lia|]. apply parse_until_at with m; [done|lia].
Qed.

(** ** Seek *)
Hypothesis Hes : entries_ok c valid items.*2.
Variable target : bytes.
Hypothesis Htarget : valid target.

Abbreviation below n := (forall it, items !! n = Some it -> key_lt c valid it.2.1 target).

Lemma below_le n m : (m <= n < length items)%nat -> below n -> below m.
Proof.
  intros [Hmn Hn] Hb it Hit. destruct (lookup_lt_is_Some_2 items n Hn) as [it' Hit'].
  destruct (decide (m = n)) as [->|]; [by apply Hb|]. transitivity (it'.2.1); [|by apply Hb].
  eapply (entries_lt c valid items.*2 m n it.2 it'.2); [done|by rewrite list_lookup_fmap, Hit|by rewrite list_lookup_fmap, Hit'|lia].
Qed.

Lemma item_valid n it : items !! n = Some it -> valid it.2.1.
Proof. intros Hit. eapply (entries_valid c valid items.*2 n it.2); [done|]. by rewrite list_lookup_fmap, Hit. Qed.

Lemma compare_item n it : items !! n = Some it ->
  exists z, Compare c it.2.1 target = Ret z /\ (z < 0 <-> key_lt c valid it.2.1 target).
Proof.
  intros Hit. destruct (Compare_ok it.2.1 target (item_valid n it Hit) Htarget) as (z & E & Hz). exists z. split; [done|].
  destruct (Z.compare_spec z 0) as [->|Hlt|Hgt]; split; try lia; try done.
  - rewrite Hz. intros Hl. by apply key_lt_irrefl in Hl.
  - intros Hl. by apply key_lt_asym in Hl.
Qed.

(** Where the linear search may start. *)
Definition good_start (l : Z) : Prop :=
  0 <= l < zlength ridx /\ (l = 0 \/ exists n, ridx !! Z.to_nat l = Some n /\ (n < length items)%nat /\ below n).

Lemma seek_search_loop i : block_base i ->
  exists l, while (seek_search_body target i) (0, u32 (num_restarts_ i - 1)) = Ret (Some l) /\ good_start l.
Proof.
  intros Hb. pose proof items_size as [Hsz Hpos]. pose proof (zlength_nonneg (items_bytes items)).
  rewrite (bb_num _ Hb), wrap_small by lia.
  apply (while_ind _ (fun lr => good_start lr.1 /\ lr.1 <= lr.2 < zlength ridx) (fun lr => lr.2 - lr.1)
    (fun o => exists l, o = Ret (Some l) /\ good_start l)).
  - intros [l r] [Hl Hlr]. cbn [fst snd] in *. unfold seek_search_body. pose proof Hl as [Hl0 _].
    destruct (Z.ltb_spec l r) as [Hlt|Hge]; [|by exists l]. rewrite wrap_small by lia. set (mid := (l + r + 1) / 2).
    assert (l < mid <= r) as Hmid by (unfold mid; pose proof (Z.div_mod (l + r + 1) 2); pose proof (Z.mod_pos_bound (l + r + 1) 2); lia).
    destruct (lookup_lt_is_Some_2 ridx (Z.to_nat mid)) as [n Hn]; [unfold zlength in Hlr; lia|].
    destruct (ly_restart _ _ Hly _ _ Hn) as [[E|Hnl] Hz]; [lia|].
    rewrite (GetRestartPoint_at i mid n), res_bind_ret by (done || lia).
    destruct (lookup_lt_is_Some_2 items n Hnl) as [it Hit]. destruct (decode_at n it i Hb Hit) as (q & -> & Ed & _).
    rewrite (Hz it Hit) in Ed |- *. cbn [negb Z.eqb]. rewrite Ed, res_bind_ret. change (zdrop 0 it.2.1) with it.2.1.
    destruct (compare_item n it Hit) as (z & Ez & Hcmp). rewrite (bb_comparator _ Hb), Ez, res_bind_ret.
    destruct (Z.ltb_spec z 0) as [Hneg|Hnn]; cbn [fst snd].
    + split; [|lia]. split; [|lia]. split; [lia|]. right. exists n. split; [done|]. split; [done|].
      intros it' Hit'. rewrite Hit in Hit'. injection Hit' as <-. by apply Hcmp.
    + split; [|lia]. split; [done|lia].
  - split; [|cbn; lia]. split; [cbn; lia|by left].
  - cbn. lia.
Qed.

Lemma seek_linear_loop n i : before n i -> (forall m, (m < n)%nat -> below m) ->
  exists i' p, while (seek_linear_body target) i = Ret i' /\ seek_pos c valid items.*2 target p /\ block_at p i'.
Proof.
  intros Hi Hbelow. apply (while_ind _ (fun j => exists n, before n j /\ forall m, (m < n)%nat -> below m) left_over
    (fun o => exists i' p, o = Ret i' /\ seek_pos c valid items.*2 target p /\ block_at p i')).
  - clear i n Hi Hbelow. intros j (n & Hj & Hbelow). unfold seek_linear_body.
    assert (Forall (fun e => key_lt c valid e.1 target) (take n items.*2)) as Htake.
    { apply Forall_lookup. intros m e He. apply lookup_take_Some in He as [He Hm]. apply list_lookup_fmap_Some in He as (it & -> & Hit).
      by apply (Hbelow m). }
    destruct (ParseNextKey_at n j Hj) as (j' & E & Hj'). rewrite E, res_bind_ret.
    destruct (decide (n < length items)%nat) as [Hlt|Hge].
    + rewrite bool_decide_true by done. cbn [negb]. pose proof Hj' as (Hb & it & Hit & _ & Hk & _).
      destruct (compare_item n it Hit) as (z & Ez & Hcmp). rewrite (bb_comparator _ Hb), Hk, Ez, res_bind_ret.
      destruct (Z.leb_spec 0 z) as [Hz|Hz].
      * exists j', (Some n). split; [done|]. split; [|done]. split; [done|]. exists it.2. rewrite list_lookup_fmap, Hit.
        split; [done|]. rewrite <- Hcmp. lia.
      * pose proof (at_entry_before _ _ Hj') as Hb'. split.
        -- exists (S n). split; [done|]. intros m Hm. destruct (decide (m = n)) as [->|]; [|apply Hbelow; lia].
           intros it' Hit'. rewrite Hit in Hit'. injection Hit' as <-. by apply Hcmp.
        -- rewrite (left_over_before _ _ Hj), (left_over_before _ _ Hb'). pose proof (offset_lt items n (S n)).
           pose proof (offset_bound (S n)). lia.
    + rewrite bool_decide_false by done. cbn [negb]. exists j', None. split; [done|]. split; [|done].
      destruct Hj as (_ & Hn & _). rewrite <- (firstn_all items.*2), length_fmap. by replace (length items) with n by lia.
  - by exists n.
  - rewrite (left_over_before _ _ Hi). pose proof (offset_bound n). lia.
Qed.

Lemma block_Seek_at i : block_base i ->
  exists i' p, block_Seek target i = Ret i' /\ seek_pos c valid items.*2 target p /\ block_at p i'.
Proof.
  intros Hb. unfold block_Seek. destruct (seek_search_loop i Hb) as (l & -> & [Hl Hg]). rewrite res_bind_ret.
  destruct (lookup_lt_is_Some_2 ridx (Z.to_nat l)) as [n Hn]; [unfold zlength in Hl; lia|].
  destruct (SeekToRestartPoint_at i l n Hb ltac:(lia) Hn) as (i1 & -> & Hi1). rewrite res_bind_ret.
  apply seek_linear_loop with n; [done|]. intros m Hm. destruct Hg as [->|(n' & Hn' & Hnl & Hbelow)].
  - change (Z.to_nat 0) with O in Hn. rewrite (ly_first _ _ Hly) in Hn. injection Hn as <-. lia.
  - rewrite Hn' in Hn. injection Hn as <-. apply (below_le n'); [lia|done].
Qed.
End iterator.

(** ** The contract *)
Section contract.
Variables (c : Comparator) (valid : bytes -> Prop).
Context `{!ComparatorOk c valid}.

#[export] Instance BlockIter_ok : IteratorOk c valid BlockIter.
Proof.
  refine {| it_at es p i := exists items ridx, layout items ridx /\ es = items.*2 /\ entries_ok c valid es /\
              block_at c items ridx p i |}.
  - by intros es p i (? & ? & _ & _ & ? & _).
  - intros es p i (items & ridx & Hly & -> & _ & Hi). cbn. unfold block_Valid. destruct p as [n|].
    + destruct Hi as (Hb & it & Hit & -> & _). rewrite (bb_restarts _ _ _ _ Hb). apply lookup_lt_Some in Hit.
      pose proof (offset_lt items n (length items)) as Hol. rewrite offset_length in Hol. apply Z.ltb_lt. lia.
    + destruct Hi as (_ & ->). apply Z.ltb_irrefl.
  - intros es [n|] i (items & ridx & _ & _ & _ & Hi); cbn; f_equal; destruct Hi as (Hb & _); by apply (bb_status _ _ _ _ Hb).
  - intros es n i (items & ridx & Hly & -> & _ & Hi). destruct Hi as (Hb & it & Hit & Hcur & Hk & Hv & _).
    exists it.2. rewrite list_lookup_fmap, Hit. split; [done|]. cbn. unfold block_key, block_value, block_Valid.
    pose proof (lookup_lt_Some _ _ _ Hit). pose proof (offset_lt items n (length items)) as Hol. rewrite offset_length in Hol.
    rewrite Hcur, (bb_restarts _ _ _ _ Hb), (proj2 (Z.ltb_lt _ _)) by lia. cbn [assert_]. rewrite !res_bind_ret, Hk, Hv.
    cbn [of_option]. rewrite res_bind_ret. split; [done|].
    set (hd := items_bytes (take n items) ++ varint_bytes it.1 ++ varint_bytes (zlength it.2.1 - it.1) ++ varint_bytes (zlength it.2.2) ++ zdrop it.1 it.2.1).
    assert (offset items (S n) - zlength it.2.2 = zlength hd) as ->.
    { rewrite (offset_S _ _ _ Hit). unfold hd, item_bytes, offset. rewrite !zlength_app. lia. }
    apply (data_at_mid c items ridx _ _ _ (items_bytes (drop (S n) items) ++ fixed32s (offset items <$> ridx) ++ EncodeFixed32 (zlength ridx))); [done|].
    unfold block_bytes. rewrite (items_bytes_split items n), (items_bytes_drop _ _ _ Hit). unfold hd, item_bytes. by rewrite <- !app_assoc.
  - intros es p i (items & ridx & Hly & -> & Hes & Hi). assert (block_base c items ridx i) as Hb by (destruct p; apply Hi).
    destruct (block_SeekToFirst_at c items ridx Hly i Hb) as (i' & E & Hi'). exists i'. split; [done|]. by exists items, ridx.
  - intros es p i (items & ridx & Hly & -> & Hes & Hi). assert (block_base c items ridx i) as Hb by (destruct p; apply Hi).
    destruct (block_SeekToLast_at c items ridx Hly i Hb) as (i' & E & Hi'). exists i'. split; [done|]. by exists items, ridx.
  - intros es p i t (items & ridx & Hly & -> & Hes & Hi) Ht. assert (block_base c items ridx i) as Hb by (destruct p; apply Hi).
    destruct (block_Seek_at c valid items ridx Hly Hes t Ht i Hb) as (i' & p' & E & Hp & Hi'). exists i', p'. split; [done|].
    split; [done|]. by exists items, ridx.
  - intros es n i (items & ridx & Hly & -> & Hes & Hi).
    destruct (block_Next_at c items ridx Hly n i Hi) as (i' & E & Hi'). exists i'. split; [done|]. by exists items, ridx.
  - intros es n i (items & ridx & Hly & -> & Hes & Hi).
    destruct (block_Prev_at c items ridx Hly n i Hi) as (i' & E & Hi'). exists i'. split; [done|]. by exists items, ridx.
Defined.

(** Opening a block with a layout. *)
Lemma NewIterator_layout items ridx : layout items ridx -> entries_ok c valid items.*2 ->
  exists b i, new_Block (block_bytes items ridx) = Ret b /\ size_ b = zlength (block_bytes items ridx) /\
    NewIterator b c = Ret (inr i) /\ it_at c valid items.*2 None i.
Proof.
  intros Hly Hes. pose proof (items_size _ _ Hly) as [Hsz Hpos]. pose proof (zlength_nonneg (items_bytes items)).
  assert (zlength (block_bytes items ridx) = zlength (items_bytes items) + 4 * zlength ridx + 4) as Elen.
  { unfold block_bytes. rewrite !zlength_app, zlength_fixed32s, zlength_fixed32. unfold zlength at 2. rewrite length_fmap.
    unfold zlength. lia. }
  assert (forall b, data_ b = block_bytes items ridx -> size_ b = zlength (block_bytes items ridx) -> NumRestarts b = Ret (zlength ridx)) as Hnum.
  { intros b Hd Hs. unfold NumRestarts. rewrite Hd, Hs, assert_true, res_bind_ret by (apply Z.leb_le; lia).
    replace (zlength (block_bytes items ridx) - 4) with (zlength (items_bytes items ++ fixed32s (offset items <$> ridx))).
    - unfold block_bytes. rewrite app_assoc, zdrop_app, <- (app_nil_r (EncodeFixed32 _)). apply DecodeFixed32_Encode. lia.
    - rewrite Elen, zlength_app, zlength_fixed32s. unfold zlength at 2. rewrite length_fmap. unfold zlength. lia. }
  unfold new_Block. cbn [size_ data_]. unfold size. rewrite (proj2 (Z.ltb_ge _ _)) by lia.
  rewrite Hnum, res_bind_ret by done.
  assert (zlength ridx <= (zlength (block_bytes items ridx) - 4) / 4) by (apply Z.div_le_lower_bound; lia).
  rewrite (proj2 (Z.ltb_ge _ _)) by lia. eexists. eexists. split; [done|]. split; [done|].
  unfold NewIterator. cbn [size_]. rewrite (proj2 (Z.ltb_ge _ _)) by lia. rewrite Hnum, res_bind_ret by done.
  rewrite (proj2 (Z.eqb_neq _ _)) by lia. unfold new_BlockIter. cbn [data_ restart_offset_].
  rewrite assert_true, !res_bind_ret by (apply Z.ltb_lt; lia). split; [done|].
  exists items, ridx. split; [done|]. split; [done|]. split; [done|]. split; [|done].
  split; cbn; try done. rewrite (wrap_small 32 (1 + _)) by lia. rewrite (wrap_small 64), wrap_small by lia. lia.
Qed.
End contract.

(** ** LevelDB's block builder, proved *)

(** ** Facts on keys *)
Lemma common_prefix_ok a b :
  0 <= common_prefix a b /\ common_prefix a b <= zlength a /\ common_prefix a b <= zlength b /\
  ztake (common_prefix a b) a = ztake (common_prefix a b) b.
Proof.
  destruct (common_prefix_split a b) as (p & a' & b' & -> & -> & <- & _). rewrite !zlength_app, !ztake_app.
  pose proof (zlength_nonneg p). pose proof (zlength_nonneg a'). pose proof (zlength_nonneg b'). split_and!; done || lia.
Qed.

(** ** What the builder holds *)
Record partial_layout (items : list item) (ridx : list nat) : Prop := {
  pl_items : forall n it, items !! n = Some it -> item_ok (prev_key items n) it;
  pl_bytes : Forall (fun it => bytes_ok it.2.1 /\ bytes_ok it.2.2 /\ zlength it.2.1 < 2 ^ 32) items;
  pl_first : ridx !! O = Some O;
  pl_restart : forall j n, ridx !! j = Some n ->
    (j = O \/ n < length items)%nat /\ forall it, items !! n = Some it -> it.1 = 0;
}.

Definition entry_bound (e : entry) : Z := zlength e.1 + zlength e.2 + 40.
Definition entries_bound (es : list entry) : Z := foldr (fun e n => entry_bound e + n) 40 es.

Record builder_holds (interval : Z) (b : BlockBuilder) (items : list item) (ridx : list nat) : Prop := {
  bh_layout : partial_layout items ridx;
  bh_buffer : buffer_ b = items_bytes items;
  bh_restarts : builder_restarts b = offset items <$> ridx;
  bh_count : (length ridx <= S (length items))%nat;
  bh_counter : 0 <= counter_ b <= interval;
  bh_fresh : counter_ b = 0 -> items = [];
  bh_open : finished_ b = false;
  bh_last : last_key_ b = prev_key items (length items);
}.

Lemma item_bytes_bound it prev : item_ok prev it -> zlength (item_bytes it) <= zlength it.2.1 + zlength it.2.2 + 30.
Proof.
  intros (H0 & _ & Hk & _). unfold item_bytes. rewrite !zlength_app, zlength_zdrop by lia.
  pose proof (zlength_varint_bytes it.1). pose proof (zlength_varint_bytes (zlength it.2.1 - it.1)).
  pose proof (zlength_varint_bytes (zlength it.2.2)). lia.
Qed.

Lemma entries_bound_app es e : entries_bound (es ++ [e]) = entries_bound es + entry_bound e.
Proof. unfold entries_bound. induction es as [|a es IH]; simpl; lia. Qed.

Lemma entries_bound_pos es : 40 * zlength es + 40 <= entries_bound es.
Proof.
  induction es as [|e es IH]; [done|]. change (entries_bound (e :: es)) with (entry_bound e + entries_bound es).
  rewrite zlength_cons. unfold entry_bound.
  pose proof (zlength_nonneg e.1). pose proof (zlength_nonneg e.2). lia.
Qed.

Lemma items_bound items : (forall n it, items !! n = Some it -> item_ok (prev_key items n) it) ->
  zlength (items_bytes items) + 10 * zlength items + 40 <= entries_bound items.*2.
Proof.
  intros Hok. assert (Forall (fun it => exists prev, item_ok prev it) items) as Hall
    by (apply Forall_lookup; intros n it Hit; eexists; by eapply Hok).
  clear Hok. induction Hall as [|it items [prev Hit] _ IH]; [done|].
  change (items_bytes (it :: items)) with (item_bytes it ++ items_bytes items). change (entries_bound (it :: items).*2) with (entry_bound it.2 + entries_bound items.*2).
  rewrite zlength_app, zlength_cons. pose proof (item_bytes_bound it prev Hit). unfold entry_bound. lia.
Qed.

Lemma prev_key_app items it n : (n <= length items)%nat -> prev_key (items ++ [it]) n = prev_key items n.
Proof. intros Hn. destruct n as [|n]; [done|]. cbn. by rewrite lookup_app_l by lia. Qed.

Lemma offset_app items it n : (n <= length items)%nat -> offset (items ++ [it]) n = offset items n.
Proof. intros Hn. unfold offset. by rewrite take_app_le by done. Qed.

(** Adding an item to a partial layout, with or without a restart point. *)
Lemma partial_layout_snoc items ridx it :
  partial_layout items ridx -> item_ok (prev_key items (length items)) it ->
  bytes_ok it.2.1 -> bytes_ok it.2.2 -> zlength it.2.1 < 2 ^ 32 ->
  partial_layout (items ++ [it]) ridx /\
  (it.1 = 0 -> partial_layout (items ++ [it]) (ridx ++ [length items])).
Proof.
  intros [Hi Hb Hf Hr] Hit Hk Hv Hk32.
  assert (forall n it', (items ++ [it]) !! n = Some it' -> items !! n = Some it' \/ n = length items /\ it' = it) as Hinv.
  { intros n it' Hn. apply lookup_app_Some in Hn as [Hn|[Hle Hn]]; [by left|]. right.
    destruct (n - length items)%nat as [|m] eqn:E; [|by destruct m]. injection Hn as ->. split; [lia|done]. }
  assert (forall n it', (items ++ [it]) !! n = Some it' -> item_ok (prev_key (items ++ [it]) n) it') as Hi'.
  { intros n it' Hn. pose proof (lookup_lt_Some _ _ _ Hn) as Hlt. rewrite length_app in Hlt. cbn in Hlt.
    rewrite prev_key_app by lia. destruct (Hinv n it' Hn) as [Hn'|[-> ->]]; [by apply Hi|done]. }
  assert (Forall (fun it => bytes_ok it.2.1 /\ bytes_ok it.2.2 /\ zlength it.2.1 < 2 ^ 32) (items ++ [it])) as Hb'
    by (apply Forall_app; split; [done|by repeat constructor]).
  assert (forall j n, ridx !! j = Some n -> (n <= length items)%nat) as Hle.
  { intros j n Hj. destruct (Hr j n Hj) as [[->|] _]; [|lia]. rewrite Hf in Hj. injection Hj as <-. lia. }
  assert (forall n it', n = O \/ (n < length items)%nat -> (forall it'', items !! n = Some it'' -> it''.1 = 0) ->
    (items ++ [it]) !! n = Some it' -> it'.1 = 0) as Hz.
  { intros n it' Hn Hs Hl. destruct (Hinv n it' Hl) as [|[-> ->]]; [by apply Hs|]. destruct Hn as [Hn|]; [|lia].
    destruct Hit as (H0 & Hp & _). rewrite Hn in Hp. cbn in Hp. unfold zlength in Hp. cbn in Hp. lia. }
  assert (forall j n, ridx !! j = Some n ->
    (j = O \/ n < length (items ++ [it]))%nat /\ forall it', (items ++ [it]) !! n = Some it' -> it'.1 = 0) as Hr'.
  { intros j n Hj. destruct (Hr j n Hj) as [Hn Hs]. split; [rewrite length_app; lia|]. intros it'. apply Hz; [|done].
    destruct Hn as [->|]; [|by right]. rewrite Hf in Hj. injection Hj as <-. by left. }
  split; [by split|]. intros Hz0. split; [done|done|by rewrite lookup_app_l by (apply lookup_lt_Some in Hf; done)|].
  intros j n Hj. apply lookup_app_Some in Hj as [Hj|[Hge Hj]]; [by apply Hr'|].
  destruct (j - length ridx)%nat as [|m] eqn:E; [|by destruct m]. injection Hj as <-. split; [right; rewrite length_app; cbn; lia|].
  intros it' Hl. rewrite list_lookup_middle in Hl by done. injection Hl as <-. done.
Qed.

(** ** The operations *)
Section builder.
Variables (c : Comparator) (valid : bytes -> Prop).
Context `{!ComparatorOk c valid}.
Variable interval : Z.
Hypothesis Hinterval : 1 <= interval.

Lemma new_BlockBuilder_holds : exists b, new_BlockBuilder interval = Ret b /\ builder_holds interval b [] [O].
Proof.
  unfold new_BlockBuilder. rewrite assert_true, res_bind_ret by (by apply Z.leb_le). eexists. split; [done|].
  split; try done; try (cbn; lia). split; [done|constructor|done|]. intros [|j] n Hj; [|by destruct j]. split; [by left|done].
Qed.

Lemma Add_shared b items ridx key value shared (restarts : list Z) counter ridx' :
  builder_holds interval b items ridx -> item_ok (prev_key items (length items)) (shared, (key, value)) ->
  bytes_ok key -> bytes_ok value -> entries_bound (items.*2 ++ [(key, value)]) < 2 ^ 32 ->
  restarts = offset items <$> ridx' -> partial_layout (items ++ [(shared, (key, value))]) ridx' ->
  (length ridx' <= S (S (length items)))%nat -> 0 <= counter < interval ->
  exists b', (let non_shared := size key - shared in
    let buffer := PutVarint32 (buffer_ b) (u32 shared) in
    let buffer := PutVarint32 buffer (u32 non_shared) in
    let buffer := PutVarint32 buffer (u32 (size value)) in
    let buffer := buffer ++ ztake non_shared (zdrop shared key) in
    let buffer := buffer ++ value in
    let last_key := ztake shared (last_key_ b) ++ ztake non_shared (zdrop shared key) in
    let! _ := assert_ (slice_eq last_key key) in
    Ret (MkBlockBuilder buffer restarts (counter + 1) (finished_ b) last_key)) = Ret b' /\
    builder_holds interval b' (items ++ [(shared, (key, value))]) ridx'.
Proof.
  intros Hb Hit Hk Hv Hbound -> Hl Hcount Hc. pose proof Hit as (H0 & Hp & Hs & Hsh). cbn [fst snd] in *.
  rewrite entries_bound_app in Hbound. unfold entry_bound in Hbound. cbn [fst snd] in Hbound.
  pose proof (entries_bound_pos items.*2). pose proof (zlength_nonneg items.*2). pose proof (zlength_nonneg key).
  pose proof (zlength_nonneg value). unfold size.
  rewrite (wrap_small 32 shared), (wrap_small 32 (zlength key - shared)), (wrap_small 32 (zlength value)) by lia.
  rewrite !PutVarint32_spec by lia.
  assert (ztake (zlength key - shared) (zdrop shared key) = zdrop shared key) as Hd
    by (rewrite <- (zlength_zdrop shared key) by lia; apply ztake_all).
  rewrite Hd, (bh_last _ _ _ _ Hb), Hsh, ztake_zdrop, slice_eq_refl. cbn [assert_]. rewrite res_bind_ret.
  eexists. split; [done|]. destruct Hb as [Hpl Hbuf Hrs Hcnt Hctr Hfr Hop Hla]. split; cbn.
  - done.
  - rewrite Hbuf, items_bytes_app. unfold items_bytes at 3. cbn. rewrite app_nil_r. unfold item_bytes. cbn [fst snd].
    by rewrite <- !app_assoc.
  - apply list_fmap_ext. intros j n Hj. symmetry. apply offset_app. destruct (pl_restart _ _ Hl j n Hj) as [[->|Hlt] _].
    + rewrite (pl_first _ _ Hl) in Hj. injection Hj as <-. lia.
    + rewrite length_app in Hlt. cbn in Hlt. lia.
  - rewrite length_app. cbn. lia.
  - lia.
  - lia.
  - done.
  - rewrite length_app, Nat.add_1_r. cbn. by rewrite list_lookup_middle by done.
Qed.

Lemma Add_holds b items ridx key value :
  builder_holds interval b items ridx -> entries_ok c valid (items.*2 ++ [(key, value)]) ->
  bytes_ok key -> bytes_ok value -> entries_bound (items.*2 ++ [(key, value)]) < 2 ^ 32 ->
  exists b' it ridx', Add interval c key value b = Ret b' /\ it.2 = (key, value) /\ builder_holds interval b' (items ++ [it]) ridx'.
Proof.
  intros Hb Hes Hk Hv Hbound. unfold Add. rewrite (assert_true (negb _)), res_bind_ret by (by rewrite (bh_open _ _ _ _ Hb)).
  destruct (bh_counter _ _ _ _ Hb) as [Hc0 Hci]. rewrite assert_true, res_bind_ret by by apply Z.leb_le.
  assert ((if size (buffer_ b) =? 0 then Ret tt
           else let! r := Compare c key (last_key_ b) in assert_ (0 <? r)) = Ret tt) as ->.
  { destruct (Z.eqb_spec (size (buffer_ b)) 0) as [|Hne]; [done|]. rewrite (bh_buffer _ _ _ _ Hb) in Hne.
    destruct (decide (items = [])) as [->|Hnil]; [done|]. rewrite (bh_last _ _ _ _ Hb).
    destruct (length items) as [|m] eqn:Em; [by destruct items|]. cbn [prev_key].
    destruct (lookup_lt_is_Some_2 items m ltac:(lia)) as [it Hit]. rewrite Hit.
    assert (key_lt c valid it.2.1 key) as Hlt.
    { apply (entries_lt c valid (items.*2 ++ [(key, value)]) m (S m) it.2 (key, value)); [done| | |lia].
      - rewrite lookup_app_l by (rewrite length_fmap; lia). by rewrite list_lookup_fmap, Hit.
      - by rewrite list_lookup_middle by (by rewrite length_fmap). }
    destruct Hes as [_ Hval]. rewrite fmap_app in Hval. apply Forall_app in Hval as [Hval Hkey]. apply Forall_cons_1 in Hkey as [Hkey _].
    assert (valid it.2.1) as Hit'.
    { eapply (Forall_elem valid); [exact Hval|]. do 2 apply list_elem_of_fmap_2. by eapply list_elem_of_lookup_2. }
    destruct (Compare_ok key it.2.1 Hkey Hit') as (z & -> & Hz). rewrite res_bind_ret. apply assert_true, Z.ltb_lt.
    destruct (z ?= 0) eqn:Ez; [subst key; by apply key_lt_irrefl in Hlt|by apply key_lt_asym in Hlt|by apply Z.compare_gt_iff]. }
  rewrite res_bind_ret. assert (zlength key < 2 ^ 32) as Hk32.
  { rewrite entries_bound_app in Hbound. unfold entry_bound in Hbound. cbn in Hbound. pose proof (entries_bound_pos items.*2).
    pose proof (zlength_nonneg items.*2). pose proof (zlength_nonneg value). lia. }
  destruct (Z.ltb_spec (counter_ b) interval) as [Hlt|Hge].
  - set (shared := common_prefix (last_key_ b) key).
    assert (item_ok (prev_key items (length items)) (shared, (key, value))) as Hit.
    { rewrite <- (bh_last _ _ _ _ Hb). apply common_prefix_ok. }
    destruct (Add_shared b items ridx key value shared (builder_restarts b) (counter_ b) ridx Hb Hit Hk Hv Hbound) as (b' & E & Hb').
    + apply (bh_restarts _ _ _ _ Hb).
    + by apply (partial_layout_snoc _ _ _ (bh_layout _ _ _ _ Hb) Hit).
    + pose proof (bh_count _ _ _ _ Hb). lia.
    + lia.
    + exists b', (shared, (key, value)), ridx. split; [exact E|done].
  - assert (counter_ b = interval) as Hci' by lia.
    assert (item_ok (prev_key items (length items)) (0, (key, value))) as Hit.
    { split; [done|]. pose proof (zlength_nonneg (prev_key items (length items))). pose proof (zlength_nonneg key). done. }
    destruct (Add_shared b items ridx key value 0 (builder_restarts b ++ [u32 (size (buffer_ b))]) 0 (ridx ++ [length items]) Hb Hit Hk Hv Hbound)
      as (b' & E & Hb').
    + rewrite fmap_app, (bh_restarts _ _ _ _ Hb), (bh_buffer _ _ _ _ Hb). cbn. do 2 f_equal. rewrite offset_length.
      apply wrap_small. pose proof (items_bound items (pl_items _ _ (bh_layout _ _ _ _ Hb))).
      rewrite entries_bound_app in Hbound. unfold entry_bound in Hbound. cbn in Hbound. unfold size.
      pose proof (zlength_nonneg (items_bytes items)). pose proof (zlength_nonneg key). pose proof (zlength_nonneg value).
      pose proof (zlength_nonneg items). lia.
    + by apply (partial_layout_snoc _ _ _ (bh_layout _ _ _ _ Hb) Hit).
    + rewrite length_app. cbn. pose proof (bh_count _ _ _ _ Hb). lia.
    + lia.
    + exists b', (0, (key, value)), (ridx ++ [length items]). split; [exact E|done].
Qed.

Lemma Finish_holds b items ridx :
  builder_holds interval b items ridx -> entries_bound items.*2 < 2 ^ 32 ->
  (Finish b).1 = block_bytes items ridx /\ layout items ridx.
Proof.
  intros Hb Hbound. unfold Finish. cbn [fst]. pose proof (items_bound items (pl_items _ _ (bh_layout _ _ _ _ Hb))) as Hib.
  pose proof (bh_count _ _ _ _ Hb) as Hcount. pose proof (zlength_nonneg items). pose proof (zlength_nonneg (items_bytes items)).
  assert (zlength ridx <= zlength items + 1) as Hrl by (unfold zlength; lia). pose proof (zlength_nonneg ridx).
  assert (zlength (builder_restarts b) = zlength ridx) as Hzr.
  { rewrite (bh_restarts _ _ _ _ Hb). unfold zlength. by rewrite length_fmap. }
  rewrite foldl_PutFixed32, Hzr, wrap_small, (bh_buffer _ _ _ _ Hb), (bh_restarts _ _ _ _ Hb) by lia.
  unfold PutFixed32. rewrite <- app_assoc. split; [done|].
  destruct (bh_layout _ _ _ _ Hb) as [Hi Hby Hf Hr]. split; [done|done|done|done|].
  unfold block_bytes. rewrite !zlength_app, zlength_fixed32s, zlength_fixed32. rewrite (bh_restarts _ _ _ _ Hb) in Hzr. lia.
Qed.
End builder.

(** ** A block, written and read *)
Fixpoint add_all (interval : Z) (c : Comparator) (es : list entry) (b : BlockBuilder) : res BlockBuilder :=
  match es with
  | [] => Ret b
  | (key, value) :: es => let! b := Add interval c key value b in add_all interval c es b
  end.

Definition build_block (interval : Z) (c : Comparator) (es : list entry) : res bytes :=
  let! b := new_BlockBuilder interval in
  let! b := add_all interval c es b in
  Ret (Finish b).1.

Section build.
Context (c : Comparator) (valid : bytes -> Prop) `{!ComparatorOk c valid} (interval : Z) (Hinterval : 1 <= interval).

Lemma add_all_holds es b items ridx :
  builder_holds interval b items ridx -> entries_ok c valid (items.*2 ++ es) ->
  Forall (fun e => bytes_ok e.1 /\ bytes_ok e.2) es -> entries_bound (items.*2 ++ es) < 2 ^ 32 ->
  exists b' items' ridx', add_all interval c es b = Ret b' /\ items'.*2 = items.*2 ++ es /\ builder_holds interval b' items' ridx'.
Proof.
  intros Hb Hes Hby Hbound. revert b items ridx Hb Hes Hbound.
  induction Hby as [|[k v] es [Hk Hv] _ IH]; intros b items ridx Hb Hes Hbound.
  - exists b, items, ridx. by rewrite app_nil_r.
  - cbn [add_all]. assert (items.*2 ++ (k, v) :: es = (items.*2 ++ [(k, v)]) ++ es) as Eapp by by rewrite <- app_assoc.
    rewrite Eapp in Hes, Hbound.
    assert (forall l a, entries_bound l <= entries_bound (l ++ a)) as Hmono.
    { intros l a. induction l as [|e l IHl]; [change (40 <= entries_bound a); pose proof (entries_bound_pos a); pose proof (zlength_nonneg a); lia|].
      change (entries_bound (e :: l) <= entries_bound (e :: l ++ a)).
      change (entries_bound (e :: l)) with (entry_bound e + entries_bound l).
      change (entries_bound (e :: l ++ a)) with (entry_bound e + entries_bound (l ++ a)). lia. }
    destruct (Add_holds c valid interval Hinterval b items ridx k v Hb) as (b1 & it & ridx1 & E & Eit & Hb1); [|done..| |].
    { destruct Hes as [Hs Hval]. rewrite fmap_app in Hs, Hval. apply sorting.StronglySorted_app in Hs as (_ & Hs & _).
      by apply Forall_app in Hval as [Hval _]. }
    { specialize (Hmono (items.*2 ++ [(k, v)]) es). lia. }
    rewrite E, res_bind_ret. destruct (IH b1 (items ++ [it]) ridx1 Hb1) as (b2 & items2 & ridx2 & E2 & Ei & Hb2).
    + by rewrite fmap_app, <- Eit in *.
    + by rewrite fmap_app, <- Eit in *.
    + exists b2, items2, ridx2. split; [done|]. split; [|done]. rewrite Ei, fmap_app, Eapp. cbn. by rewrite Eit.
Qed.

(** Building a block of sorted entries and opening it. *)
Lemma build_block_at es :
  entries_ok c valid es -> Forall (fun e => bytes_ok e.1 /\ bytes_ok e.2) es -> entries_bound es < 2 ^ 32 ->
  exists contents b i, build_block interval c es = Ret contents /\ new_Block contents = Ret b /\
    NewIterator b c = Ret (inr i) /\ it_at c valid es None i.
Proof.
  intros Hes Hby Hbound. unfold build_block. destruct (new_BlockBuilder_holds interval Hinterval) as (b0 & -> & Hb0). rewrite res_bind_ret.
  destruct (add_all_holds es b0 [] [O] Hb0 Hes Hby Hbound) as (b & items & ridx & -> & Ei & Hb). rewrite res_bind_ret.
  cbn in Ei. subst es. destruct (Finish_holds interval b items ridx Hb Hbound) as [-> Hly].
  destruct (NewIterator_layout c valid items ridx Hly Hes) as (bl & i & E & _ & Ei & Hi). by exists (block_bytes items ridx), bl, i.
Qed.
End build.

(** C17: A block survives the round trip, at every restart interval from 1, for
    entries in increasing order of their keys whose block is below 4 GB:
    scanning it forward gives the entries that were added, backward the same in
    the opposite order, and seeking to any target gives those at or past it. *)
Theorem block_roundtrip c valid `{!ComparatorOk c valid} interval es :
  1 <= interval -> entries_ok c valid es -> Forall (fun e => bytes_ok e.1 /\ bytes_ok e.2) es -> entries_bound es < 2 ^ 32 ->
  exists contents b i, build_block interval c es = Ret contents /\ new_Block contents = Ret b /\ NewIterator b c = Ret (inr i) /\
    yields c valid es i.
Proof.
  intros Hint Hes Hby Hbound. destruct (build_block_at c valid interval Hint es Hes Hby Hbound) as (contents & b & i & E1 & E2 & E3 & Hi).
  exists contents, b, i. split; [done|]. split; [done|]. split; [done|]. by eapply it_at_yields.
Qed.

Lemma block_roundtrip_witness :
  exists contents b i, build_block 2 BytewiseComparator [([1; 2], [7]); ([1; 3], []); ([2], [8; 9])] = Ret contents /\
    new_Block contents = Ret b /\ NewIterator b BytewiseComparator = Ret (inr i) /\
    exists i1 i2, it_SeekToLast i = Ret i1 /\ scan it_Prev 4 i1 = Ret ([([2], [8; 9]); ([1; 3], []); ([1; 2], [7])], i2).
Proof.
  destruct (block_roundtrip BytewiseComparator bytes_ok 2 [([1; 2], [7]); ([1; 3], []); ([2], [8; 9])])
    as (contents & b & i & E1 & E2 & E3 & Hi).
  - done.
  - apply bytewise_entries_ok; [reflexivity|]. by repeat (constructor; [by apply bytes_ok_forallb|]).
  - by repeat (constructor; [split; by apply bytes_ok_forallb|]).
  - done.
  - destruct (Hi [1; 2; 0] 4%nat) as (_ & (i1 & i2 & E4 & E5 & _) & _); [by apply bytes_ok_forallb|cbn; lia|].
    exists contents, b, i. split; [exact E1|]. split; [exact E2|]. split; [exact E3|]. exists i1, i2. split; [exact E4|exact E5].
Defined.
