(* ===== verification/Merger.v ===== *)
(** * LevelDB: merging iterators (merger.cc)

    The code, then its contract.  Over children with different keys, a merging iterator keeps the contract of
    iterators over the sorted union of their entries, whichever way it moved
    before. *)
From S2P Require Import Prelude LdbBase Comparator Iterator Block BlockBuild.

(** ** The code

    The children are wrapped iterators; [current_] is the index of one of them,
    or nothing for a null pointer. *)

Inductive Direction : Type := kForward | kReverse.

#[export] Instance Direction_eq_dec : EqDecision Direction.
Proof. solve_decision. Defined.

Record MergingIterator (I : Type) : Type := MkMergingIterator {
  children_ : list (IteratorWrapper I);
  current_ : option nat;
  direction_ : Direction;
}.
Arguments MkMergingIterator {I}.
Arguments children_ {I}.
Arguments current_ {I}.
Arguments direction_ {I}.

Section merger.
Context {I : Type} `{Iterator I} (comparator_ : Comparator).
Implicit Types (m : MergingIterator I) (w : IteratorWrapper I) (cs : list (IteratorWrapper I)).

Definition child_at cs (i : nat) : res (IteratorWrapper I) := of_option (cs !! i).

(** [for (int i = 0; i < n_; i++) f(&children_[i]);] *)
Fixpoint each_child (f : nat -> IteratorWrapper I -> res (IteratorWrapper I)) (i : nat) cs : res (list (IteratorWrapper I)) :=
  match cs with
  | [] => Ret []
  | w :: cs =>
      let! w := f i w in
      let! cs := each_child f (S i) cs in
      Ret (w :: cs)
  end.

Fixpoint set_children (iters : list I) : res (list (IteratorWrapper I)) :=
  match iters with
  | [] => Ret []
  | i :: iters =>
      let! w := wrapper_Set wrapper_null (Some i) in
      let! cs := set_children iters in
      Ret (w :: cs)
  end.

Definition new_MergingIterator (children : list I) : res (MergingIterator I) :=
  let! cs := set_children children in Ret (MkMergingIterator cs None kForward).

(** The loops of [FindSmallest] and [FindLargest]: over the indices in [order], with
    the test on the result of the comparison. *)
Fixpoint find_extreme (better : Z -> bool) cs (order : list nat) (best : option nat) : res (option nat) :=
  match order with
  | [] => Ret best
  | i :: order =>
      let! child := child_at cs i in
      let! best :=
        (if it_Valid child then
           match best with
           | None => Ret (Some i)
           | Some j =>
               let! k := it_key child in
               let! b := child_at cs j in
               let! kb := it_key b in
               let! z := Compare comparator_ k kb in
               Ret (if better z then Some i else best)
           end
         else Ret best) in
      find_extreme better cs order best
  end.

Definition FindSmallest cs : res (option nat) := find_extreme (fun z => z <? 0) cs (seq 0 (length cs)) None.
Definition FindLargest cs : res (option nat) := find_extreme (fun z => 0 <? z) cs (rev (seq 0 (length cs))) None.

Definition merging_Valid m : bool := match current_ m with Some _ => true | None => false end.

Definition current_child m : res (IteratorWrapper I) := let! i := of_option (current_ m) in child_at (children_ m) i.

Definition merging_key m : res bytes :=
  let! _ := assert_ (merging_Valid m) in let! w := current_child m in it_key w.

Definition merging_value m : res bytes :=
  let! _ := assert_ (merging_Valid m) in let! w := current_child m in it_value w.

Definition find_forward cs : res (MergingIterator I) :=
  let! current := FindSmallest cs in Ret (MkMergingIterator cs current kForward).
Definition find_reverse cs : res (MergingIterator I) :=
  let! current := FindLargest cs in Ret (MkMergingIterator cs current kReverse).

Definition merging_SeekToFirst m : res (MergingIterator I) :=
  let! cs := each_child (fun _ => it_SeekToFirst) 0 (children_ m) in find_forward cs.

Definition merging_SeekToLast m : res (MergingIterator I) :=
  let! cs := each_child (fun _ => it_SeekToLast) 0 (children_ m) in find_reverse cs.

Definition merging_Seek (target : bytes) m : res (MergingIterator I) :=
  let! cs := each_child (fun _ => it_Seek target) 0 (children_ m) in find_forward cs.

(** What the loops of [Next] and [Prev] do to a child; they leave the current
    child, and so [key()], as it is. *)
Definition seek_after m (i : nat) w : res (IteratorWrapper I) :=
  if bool_decide (current_ m = Some i) then Ret w
  else
    let! k := merging_key m in
    let! w := it_Seek k w in
    if it_Valid w then
      let! kw := it_key w in
      let! z := Compare comparator_ k kw in
      if z =? 0 then it_Next w else Ret w
    else Ret w.

Definition seek_before m (i : nat) w : res (IteratorWrapper I) :=
  if bool_decide (current_ m = Some i) then Ret w
  else
    let! k := merging_key m in
    let! w := it_Seek k w in
    if it_Valid w then it_Prev w else it_SeekToLast w.

(** [current_->f()]. *)
Definition on_current (f : IteratorWrapper I -> res (IteratorWrapper I)) m : res (list (IteratorWrapper I)) :=
  let! i := of_option (current_ m) in
  let! w := child_at (children_ m) i in
  let! w := f w in
  Ret (<[i := w]> (children_ m)).

Definition merging_Next m : res (MergingIterator I) :=
  let! _ := assert_ (merging_Valid m) in
  let! m :=
    (if decide (direction_ m = kForward) then Ret m
     else let! cs := each_child (seek_after m) 0 (children_ m) in Ret (MkMergingIterator cs (current_ m) kForward)) in
  let! cs := on_current it_Next m in
  find_forward cs.

Definition merging_Prev m : res (MergingIterator I) :=
  let! _ := assert_ (merging_Valid m) in
  let! m :=
    (if decide (direction_ m = kReverse) then Ret m
     else let! cs := each_child (seek_before m) 0 (children_ m) in Ret (MkMergingIterator cs (current_ m) kReverse)) in
  let! cs := on_current it_Prev m in
  find_reverse cs.

Fixpoint children_status cs (status : Status) : res Status :=
  match cs with
  | [] => Ret status
  | w :: cs =>
      let! status := it_status w in
      if ok status then children_status cs status else Ret status
  end.

Definition merging_status m : res Status := children_status (children_ m) Status_OK.

#[export] Instance MergingIterator_Iterator : Iterator (MergingIterator I) := {|
  it_Valid := merging_Valid;
  it_SeekToFirst := merging_SeekToFirst;
  it_SeekToLast := merging_SeekToLast;
  it_Seek := merging_Seek;
  it_Next := merging_Next;
  it_Prev := merging_Prev;
  it_key := merging_key;
  it_value := merging_value;
  it_status := merging_status;
|}.

#[export] Instance NewMergingIterator_Iterator : Iterator (EmptyIterator + (I + MergingIterator I)) := sum_Iterator.

(** An empty iterator, the only child, or a merging iterator. *)
Definition NewMergingIterator (children : list I) : res (EmptyIterator + (I + MergingIterator I)) :=
  match children with
  | [] => Ret (inl NewEmptyIterator)
  | [i] => Ret (inr (inl i))
  | _ => let! m := new_MergingIterator children in Ret (inr (inr m))
  end.
End merger.

(** ** LevelDB's merging iterators, proved *)

Section merger.
Context (c : Comparator) (valid : bytes -> Prop) `{!ComparatorOk c valid}.
Context {I : Type} `{!Iterator I} `{!IteratorOk c valid I}.
Abbreviation lt := (key_lt c valid).
Abbreviation at_child := (it_at c valid (I := IteratorWrapper I)).

(** ** An order for each direction *)
Definition rel (d : Direction) (a b : bytes) : Prop := match d with kForward => lt a b | kReverse => lt b a end.

Lemma rel_irrefl d a : ~ rel d a a.
Proof. destruct d; apply key_lt_irrefl. Qed.

Lemma rel_trans d a b e : rel d a b -> rel d b e -> rel d a e.
Proof. destruct d; cbn; intros; by transitivity b. Qed.

Lemma rel_total d a b : valid a -> valid b -> rel d a b \/ a = b \/ rel d b a.
Proof. intros Ha Hb. destruct (entry_eq_dec_lt c valid a b Ha Hb) as [?|[?|?]], d; cbn; auto. Qed.

Lemma not_rel_trans d a b e : valid a -> valid b -> ~ rel d a b -> ~ rel d b e -> ~ rel d a e.
Proof.
  intros Ha Hb Hab Hbe Hae. destruct (rel_total d a b Ha Hb) as [?|[->|Hba]]; [done|done|]. apply Hbe. by eapply rel_trans.
Qed.

(** The first entry of [l], in direction [d], that satisfies [U]. *)
Definition sat_pos (d : Direction) (U : bytes -> Prop) (l : list entry) (p : position) : Prop :=
  match p with
  | Some n => exists e, l !! n = Some e /\ U e.1 /\ forall x, x ∈ l -> U x.1 -> ~ rel d x.1 e.1
  | None => forall x, x ∈ l -> ~ U x.1
  end.

Lemma sat_pos_ext d (U U' : bytes -> Prop) l p : (forall x, x ∈ l -> U x.1 <-> U' x.1) -> sat_pos d U l p -> sat_pos d U' l p.
Proof.
  intros HU. destruct p as [n|]; cbn.
  - intros (e & He & Ue & Hmin). exists e. split; [done|]. split; [apply HU; [by eapply list_elem_of_lookup_2|done]|]. intros x Hx Ux. by apply Hmin, HU.
  - intros Hn x Hx Ux. by apply (Hn x Hx), HU.
Qed.

Lemma entries_index_lt es i j a b : entries_ok c valid es -> es !! i = Some a -> es !! j = Some b -> lt a.1 b.1 -> (i < j)%nat.
Proof.
  intros Hes Ha Hb Hlt. destruct (Nat.lt_trichotomy i j) as [?|[->|Hji]]; [done| |].
  - rewrite Ha in Hb. injection Hb as ->. by apply key_lt_irrefl in Hlt.
  - exfalso. eapply key_lt_asym; [exact Hlt|]. by eapply (entries_lt c valid es j i).
Qed.

Lemma sat_pos_unique d U es p q : entries_ok c valid es -> sat_pos d U es p -> sat_pos d U es q -> p = q.
Proof.
  intros Hes. assert (forall n, sat_pos d U es (Some n) -> ~ sat_pos d U es None) as Hno.
  { intros n (e & He & Ue & _) Hn. by apply (Hn e); [eapply list_elem_of_lookup_2|]. }
  destruct p as [n|], q as [m|]; [|by intros Hp; intros []%(Hno n Hp)|by intros Hp Hq; destruct (Hno m Hq Hp)|done].
  intros (e & He & Ue & Hmin) (e' & He' & Ue' & Hmin').
  assert (e.1 = e'.1) as Ek.
  { destruct (rel_total d e.1 e'.1) as [Hr|[?|Hr]]; [by apply (entries_valid c valid es n e)|by apply (entries_valid c valid es m e')| |done|].
    - exfalso. apply (Hmin' e); [by eapply list_elem_of_lookup_2|done|done].
    - exfalso. apply (Hmin e'); [by eapply list_elem_of_lookup_2|done|done]. }
  destruct (Nat.lt_trichotomy n m) as [Hlt|[->|Hlt]]; [|done|]; exfalso.
  - pose proof (entries_lt c valid es n m e e' Hes He He' Hlt) as Hk. rewrite Ek in Hk. by apply key_lt_irrefl in Hk.
  - pose proof (entries_lt c valid es m n e' e Hes He' He Hlt) as Hk. rewrite Ek in Hk. by apply key_lt_irrefl in Hk.
Qed.

(** ** The positions of the contract *)
Lemma sat_first es : entries_ok c valid es -> sat_pos kForward (fun _ => True) es (first_pos es).
Proof.
  intros Hes. destruct es as [|e es]; [by intros x ?%not_elem_of_nil|]. exists e. split; [done|]. split; [done|].
  intros x [i Hi]%list_elem_of_lookup_1 _ Hlt. cbn in Hlt. pose proof (entries_index_lt _ i O x e Hes Hi eq_refl Hlt). lia.
Qed.

Lemma sat_last es : entries_ok c valid es -> sat_pos kReverse (fun _ => True) es (last_pos es).
Proof.
  intros Hes. destruct es as [|e0 es0] eqn:E; [by intros x ?%not_elem_of_nil|]. rewrite <- E in *. assert (last_pos es = Some (pred (length es))) as -> by by rewrite E.
  destruct (lookup_lt_is_Some_2 es (pred (length es))) as [e He]; [rewrite E; cbn; lia|]. exists e. split; [done|]. split; [done|].
  intros x [i Hi]%list_elem_of_lookup_1 _ Hlt. cbn in Hlt. pose proof (entries_index_lt _ _ i e x Hes He Hi Hlt). apply lookup_lt_Some in Hi. lia.
Qed.

Lemma sat_seek es t p : entries_ok c valid es -> seek_pos c valid es t p -> sat_pos kForward (fun k => ~ lt k t) es p.
Proof.
  intros Hes. destruct p as [n|]; cbn.
  - intros [Hb (e & He & Hn)]. exists e. split; [done|]. split; [done|]. intros x [i Hi]%list_elem_of_lookup_1 Hx Hlt.
    pose proof (entries_index_lt _ i n x e Hes Hi He Hlt). apply Hx. eapply (Forall_elem (fun e : entry => lt e.1 t)); [exact Hb|].
    apply (list_elem_of_lookup_2 _ i). by rewrite lookup_take_lt.
  - intros Hb x Hx Hn. apply Hn. by eapply (Forall_elem (fun e : entry => lt e.1 t)).
Qed.

Lemma sat_next es n e : entries_ok c valid es -> es !! n = Some e -> sat_pos kForward (fun k => lt e.1 k) es (next_pos es n).
Proof.
  intros Hes He. unfold next_pos. destruct (decide _) as [Hlt|Hge]; cbn.
  - destruct (lookup_lt_is_Some_2 es (S n) Hlt) as [e' He']. exists e'. split; [done|]. split; [eapply (entries_lt c valid es n (S n)); [done..|lia]|].
    intros x [i Hi]%list_elem_of_lookup_1 Hx Hlt'. pose proof (entries_index_lt _ n i e x Hes He Hi Hx). pose proof (entries_index_lt _ i (S n) x e' Hes Hi He' Hlt'). lia.
  - intros x [i Hi]%list_elem_of_lookup_1 Hx. pose proof (entries_index_lt _ n i e x Hes He Hi Hx). apply lookup_lt_Some in Hi. lia.
Qed.

Lemma sat_prev es n e : entries_ok c valid es -> es !! n = Some e -> sat_pos kReverse (fun k => lt k e.1) es (prev_pos n).
Proof.
  intros Hes He. destruct n as [|n]; cbn.
  - intros x [i Hi]%list_elem_of_lookup_1 Hx. pose proof (entries_index_lt _ i O x e Hes Hi He Hx). lia.
  - pose proof (lookup_lt_Some _ _ _ He) as Hlt. destruct (lookup_lt_is_Some_2 es n) as [e' He']; [lia|]. exists e'. split; [done|].
    split; [eapply (entries_lt c valid es n (S n)); [done..|lia]|]. intros x [i Hi]%list_elem_of_lookup_1 Hx Hlt'. 
    pose proof (entries_index_lt _ i (S n) x e Hes Hi He Hx). pose proof (entries_index_lt _ n i e' x Hes He' Hi Hlt'). lia.
Qed.

Lemma sat_at d es n e : entries_ok c valid es -> es !! n = Some e -> sat_pos d (fun k => ~ rel d k e.1) es (Some n).
Proof. intros Hes He. exists e. split; [done|]. split; [apply rel_irrefl|]. intros x _ Hx. exact Hx. Qed.

(** ** Children: their entries and positions *)
Abbreviation kid := (list entry * position)%type.
Implicit Types (ks : list kid) (es l : list entry) (m : MergingIterator I).

Definition kids_at ks (cs : list (IteratorWrapper I)) : Prop := Forall2 (fun k w => at_child k.1 k.2 w) ks cs.

(** [es] are the entries of all children, in order. *)
Record merged ks es : Prop := {
  mg_ok : entries_ok c valid es;
  mg_perm : es ≡ₚ concat ks.*1;
}.

(** The child [i] stands at [e]. *)
Definition front ks (i : nat) (e : entry) : Prop := exists l n, ks !! i = Some (l, Some n) /\ l !! n = Some e.

Definition merging_at es (p : position) m : Prop :=
  exists ks, merged ks es /\ kids_at ks (children_ m) /\
    match p with
    | Some n => exists e j, es !! n = Some e /\ current_ m = Some j /\ front ks j e /\
        forall i k, ks !! i = Some k -> sat_pos (direction_ m) (fun key => ~ rel (direction_ m) key e.1) k.1 k.2
    | None => current_ m = None
    end.

Lemma kids_lookup ks cs i k : kids_at ks cs -> ks !! i = Some k -> exists w, child_at cs i = Ret w /\ cs !! i = Some w /\ at_child k.1 k.2 w.
Proof.
  intros Hk Hi. destruct (Forall2_lookup_l _ _ _ _ _ Hk Hi) as (w & Hw & Hat). exists w. unfold child_at. by rewrite Hw.
Qed.

Lemma kid_ok ks cs i k : kids_at ks cs -> ks !! i = Some k -> entries_ok c valid k.1.
Proof. intros Hk Hi. destruct (kids_lookup ks cs i k Hk Hi) as (w & _ & _ & Hat). exact (it_at_ok c valid _ _ _ Hat). Qed.

Lemma kid_entries ks es i k x : merged ks es -> ks !! i = Some k -> x ∈ k.1 -> x ∈ es.
Proof.
  intros Hm Hi Hx. rewrite (mg_perm ks es Hm). apply list_elem_of_In, in_concat. exists k.1. rewrite <- !list_elem_of_In. split; [|done].
  apply list_elem_of_fmap_2. by eapply list_elem_of_lookup_2.
Qed.

Lemma entry_kid ks es x : merged ks es -> x ∈ es -> exists i k, ks !! i = Some k /\ x ∈ k.1.
Proof.
  intros Hm. rewrite (mg_perm ks es Hm), list_elem_of_In, in_concat. intros (l & Hl & Hx). rewrite <- !list_elem_of_In in *.
  apply list_elem_of_fmap in Hl as (k & -> & [i Hi]%list_elem_of_lookup_1). by exists i, k.
Qed.

Lemma front_entry ks es i e : merged ks es -> front ks i e -> e ∈ es.
Proof. intros Hm (l & n & Hi & He). eapply (kid_entries ks es i (l, Some n)); [done..|]. by eapply list_elem_of_lookup_2. Qed.

Lemma elem_key_valid es x : entries_ok c valid es -> x ∈ es -> valid x.1.
Proof. intros Hes [i Hi]%list_elem_of_lookup_1. by apply (entries_valid c valid es i). Qed.

Lemma concat_disjoint (ls : list (list entry)) i j l l' x y : NoDup (concat ls).*1 -> ls !! i = Some l -> ls !! j = Some l' -> i <> j ->
  x ∈ l -> y ∈ l' -> x.1 <> y.1.
Proof.
  intros Hnd Hi Hj Hij Hx Hy E.
  assert (forall (ls : list (list entry)) i j l l' x y, NoDup (concat ls).*1 -> ls !! i = Some l -> ls !! j = Some l' -> (i < j)%nat -> x ∈ l -> y ∈ l' -> x.1 <> y.1) as Hlt.
  { clear. induction ls as [|l0 ls IH]; intros i j l l' x y Hnd Hi Hj Hij Hx Hy E; [done|]. destruct j as [|j]; [lia|]. cbn in Hj, Hnd.
    rewrite fmap_app in Hnd. apply list.NoDup_app in Hnd as (_ & Hd & Hnd). destruct i as [|i].
    - injection Hi as ->. apply (Hd x.1); [by apply list_elem_of_fmap_2|]. rewrite E. apply list_elem_of_fmap_2.
      rewrite list_elem_of_In, in_concat. exists l'. rewrite <- !list_elem_of_In. split; [by eapply list_elem_of_lookup_2|done].
    - by apply (IH i j l l' x y Hnd Hi Hj ltac:(lia) Hx Hy). }
  destruct (Nat.lt_trichotomy i j) as [?|[->|?]]; [by apply (Hlt ls i j l l' x y)|done|]. by apply (Hlt ls j i l' l y x).
Qed.

Lemma merged_nodup ks es : merged ks es -> NoDup (concat ks.*1).*1.
Proof.
  intros [[Hs _] Hp]. rewrite <- Hp. clear Hp. induction es.*1 as [|k ks' IH]; [constructor|]. inversion Hs as [|? ? Hs' Hall]; subst. constructor; [|by apply IH].
  intros Hk. apply (key_lt_irrefl c valid k). by eapply (Forall_elem (lt k)).
Qed.

(** Children do not share keys. *)
Lemma kids_differ ks es i j k k' x y : merged ks es -> ks !! i = Some k -> ks !! j = Some k' -> i <> j -> x ∈ k.1 -> y ∈ k'.1 -> x.1 <> y.1.
Proof.
  intros Hm Hi Hj. apply (concat_disjoint ks.*1); [by eapply merged_nodup|by rewrite list_lookup_fmap, Hi|by rewrite list_lookup_fmap, Hj].
Qed.

(** A loop over the children. *)
Lemma each_child_at (f : nat -> IteratorWrapper I -> res (IteratorWrapper I)) (R : nat -> kid -> position -> Prop) ks cs :
  kids_at ks cs ->
  (forall i k w, ks !! i = Some k -> cs !! i = Some w -> at_child k.1 k.2 w -> exists w' q, f i w = Ret w' /\ at_child k.1 q w' /\ R i k q) ->
  exists ks' cs', each_child f 0 cs = Ret cs' /\ kids_at ks' cs' /\ ks'.*1 = ks.*1 /\
    forall i k', ks' !! i = Some k' -> exists k, ks !! i = Some k /\ k'.1 = k.1 /\ R i k k'.2.
Proof.
  assert (forall o, kids_at ks cs ->
    (forall i k w, ks !! i = Some k -> cs !! i = Some w -> at_child k.1 k.2 w -> exists w' q, f (o + i)%nat w = Ret w' /\ at_child k.1 q w' /\ R (o + i)%nat k q) ->
    exists ks' cs', each_child f o cs = Ret cs' /\ kids_at ks' cs' /\ ks'.*1 = ks.*1 /\
      forall i k', ks' !! i = Some k' -> exists k, ks !! i = Some k /\ k'.1 = k.1 /\ R (o + i)%nat k k'.2) as Hgen.
  { intros o Hk. revert o. induction Hk as [|k w ks cs Hkw Hk IH]; intros o Hf; [exists [], []; repeat split; [constructor|done]|].
    destruct (Hf O k w eq_refl eq_refl Hkw) as (w' & q & Ew & Hw' & Hq). rewrite Nat.add_0_r in Ew, Hq.
    destruct (IH (S o)) as (ks' & cs' & E & Hk' & Ek & HR).
    { intros i k0 w0 Hi Hw0 Hat. specialize (Hf (S i) k0 w0 Hi Hw0 Hat). by rewrite Nat.add_succ_r in Hf. }
    exists ((k.1, q) :: ks'), (w' :: cs'). cbn [each_child]. rewrite Ew, res_bind_ret, E, res_bind_ret. split; [done|].
    split; [by constructor|]. split; [cbn; by rewrite Ek|]. intros [|i] k' Hi; cbn in Hi.
    - injection Hi as <-. exists k. rewrite Nat.add_0_r. done.
    - destruct (HR i k' Hi) as (k0 & Hk0 & E0 & HR0). exists k0. rewrite Nat.add_succ_r. done. }
  apply (Hgen O).
Qed.

(** ** FindSmallest and FindLargest *)
Definition betters (d : Direction) (better : Z -> bool) : Prop :=
  forall a b, valid a -> valid b -> exists z, Compare c a b = Ret z /\ (better z = true <-> rel d a b).

Lemma smaller_betters : betters kForward (fun z => z <? 0).
Proof.
  intros a b Ha Hb. destruct (Compare_ok a b Ha Hb) as (z & E & Hz). exists z. split; [done|]. cbn.
  destruct (Z.compare_spec z 0) as [->|Hlt|Hgt].
  - subst b. split; [done|]. by intros Hlt%key_lt_irrefl.
  - by rewrite (proj2 (Z.ltb_lt _ _) Hlt).
  - destruct (Z.ltb_spec z 0); [lia|]. split; [done|]. intros ?. exfalso. by eapply key_lt_asym.
Qed.

Lemma larger_betters : betters kReverse (fun z => 0 <? z).
Proof.
  intros a b Ha Hb. destruct (Compare_ok a b Ha Hb) as (z & E & Hz). exists z. split; [done|]. cbn.
  destruct (Z.compare_spec z 0) as [->|Hlt|Hgt].
  - subst b. split; [done|]. by intros Hlt%key_lt_irrefl.
  - destruct (Z.ltb_spec 0 z); [lia|]. split; [done|]. intros ?. exfalso. by eapply key_lt_asym.
  - by rewrite (proj2 (Z.ltb_lt _ _) Hgt).
Qed.

Lemma front_key ks cs i e : kids_at ks cs -> front ks i e ->
  exists w, child_at cs i = Ret w /\ it_Valid w = true /\ it_key w = Ret e.1 /\ it_value w = Ret e.2 /\ valid e.1.
Proof.
  intros Hk (l & n & Hi & He). destruct (kids_lookup ks cs i _ Hk Hi) as (w & Ew & _ & Hw). cbn [fst snd] in Hw. exists w. split; [done|].
  split; [by rewrite (it_Valid_at c valid _ _ _ Hw)|]. destruct (it_entry_at c valid _ _ _ Hw) as (e' & He' & Hkey & Hval). rewrite He in He'. injection He' as <-.
  split; [done|]. split; [done|]. apply (entries_valid c valid l n e); [|done]. exact (it_at_ok c valid _ _ _ Hw).
Qed.

Lemma front_unique ks i e e' : front ks i e -> front ks i e' -> e = e'.
Proof. intros (l & n & Hi & He) (l' & n' & Hi' & He'). congruence. Qed.

Lemma kid_front ks cs i k : kids_at ks cs -> ks !! i = Some k ->
  exists w, child_at cs i = Ret w /\ ((exists e, front ks i e /\ it_Valid w = true) \/ (k.2 = None /\ it_Valid w = false)).
Proof.
  intros Hk Hi. destruct (kids_lookup ks cs i k Hk Hi) as (w & Ew & _ & Hw). exists w. split; [done|]. rewrite (it_Valid_at c valid _ _ _ Hw).
  destruct k as [l [n|]]; cbn [fst snd] in *; [left|by right]. destruct (it_entry_at c valid _ _ _ Hw) as (e & He & _). exists e. split; [|done]. by exists l, n.
Qed.

Lemma find_extreme_holds d better ks cs order best : betters d better -> kids_at ks cs -> Forall (fun i => i < length ks)%nat order ->
  (forall j, best = Some j -> exists e, front ks j e) ->
  exists o, find_extreme c better cs order best = Ret o /\
    match o with
    | Some j => exists e, front ks j e /\ forall i x, i ∈ order \/ best = Some i -> front ks i x -> ~ rel d x.1 e.1
    | None => best = None /\ forall i x, i ∈ order -> ~ front ks i x
    end.
Proof.
  intros Hb Hk Ho. revert best. induction Ho as [|i order Hi Ho IH]; intros best Hbest.
  - exists best. split; [done|]. destruct best as [j|]; [|by split; [|intros i x ?%not_elem_of_nil]].
    destruct (Hbest j eq_refl) as [e He]. exists e. split; [done|]. intros i x [?%not_elem_of_nil|[= <-]] Hx; [done|].
    rewrite (front_unique ks j x e Hx He). apply rel_irrefl.
  - destruct (lookup_lt_is_Some_2 ks i Hi) as [k Hik]. destruct (kid_front ks cs i k Hk Hik) as (w & Ew & Hcase).
    cbn [find_extreme]. rewrite Ew, res_bind_ret. destruct Hcase as [(e & He & Hv)|[Hp Hv]]; rewrite Hv.
    + destruct (front_key ks cs i e Hk He) as (w' & Ew' & _ & Ekey & _ & Hve). rewrite Ew in Ew'. injection Ew' as <-. destruct best as [j|].
      * destruct (Hbest j eq_refl) as [b Hjb]. destruct (front_key ks cs j b Hk Hjb) as (wb & Ewb & _ & Ekb & _ & Hvb).
        rewrite Ekey, res_bind_ret, Ewb, res_bind_ret, Ekb, res_bind_ret. destruct (Hb e.1 b.1 Hve Hvb) as (z & Ez & Hz). rewrite Ez, !res_bind_ret.
        destruct (better z) eqn:Ebz.
        -- destruct (IH (Some i)) as (o & E & Hres); [intros y [= <-]; by exists e|]. exists o. split; [done|].
           destruct o as [j'|]; [|by destruct Hres]. destruct Hres as (e' & He' & Hmin). exists e'. split; [done|]. intros y x Hy Hx.
           destruct Hy as [[->|Hy]%elem_of_cons|[= <-]]; [by apply (Hmin i); [right|]|by apply (Hmin y); [left|]|].
           rewrite (front_unique ks j x b Hx Hjb). intros Hr. apply (Hmin i e); [by right|done|]. eapply rel_trans; [by apply Hz|done].
        -- destruct (IH (Some j)) as (o & E & Hres); [intros y [= <-]; by exists b|]. exists o. split; [done|].
           destruct o as [j'|]; [|by destruct Hres]. destruct Hres as (e' & He' & Hmin). exists e'. split; [done|]. intros y x Hy Hx.
           destruct Hy as [[->|Hy]%elem_of_cons|[= <-]]; [|by apply (Hmin y); [left|]|by apply (Hmin j); [right|]].
           rewrite (front_unique ks i x e Hx He). apply (not_rel_trans d e.1 b.1 e'.1 Hve Hvb).
           ++ intros ?%Hz. congruence.
           ++ apply (Hmin j); [by right|done].
      * rewrite res_bind_ret. destruct (IH (Some i)) as (o & E & Hres); [intros y [= <-]; by exists e|]. exists o. split; [done|].
        destruct o as [j'|]; [|by destruct Hres]. destruct Hres as (e' & He' & Hmin). exists e'. split; [done|]. intros y x Hy Hx.
        destruct Hy as [[->|Hy]%elem_of_cons|[=]]; [by apply (Hmin i); [right|]|by apply (Hmin y); [left|]].
    + rewrite res_bind_ret. assert (forall x, ~ front ks i x) as Hno.
      { intros x (l & n & Hi' & _). rewrite Hik in Hi'. injection Hi' as ->. done. }
      destruct (IH best Hbest) as (o & E & Hres). exists o. split; [done|]. destruct o as [j'|].
      * destruct Hres as (e' & He' & Hmin). exists e'. split; [done|]. intros y x [[->|Hy]%elem_of_cons|Hy] Hx; [by apply Hno in Hx|apply (Hmin y); auto..].
      * destruct Hres as [-> Hno']. split; [done|]. intros y x [->|Hy]%elem_of_cons; [apply Hno|by apply Hno'].
Qed.

(** When all children stand at their first entry that satisfies [U], so does
    the merging iterator. *)
Lemma find_current_at d better (U : bytes -> Prop) ks cs es order : betters d better -> merged ks es -> kids_at ks cs ->
  (forall i, i ∈ order <-> (i < length ks)%nat) ->
  (forall a b, valid a -> valid b -> U a -> ~ rel d b a -> U b) ->
  (forall i k, ks !! i = Some k -> sat_pos d U k.1 k.2) ->
  exists o p, find_extreme c better cs order None = Ret o /\ sat_pos d U es p /\ merging_at es p (MkMergingIterator cs o d).
Proof.
  intros Hb Hm Hk Ho HU Hsat. pose proof (mg_ok _ _ Hm) as Hes.
  destruct (find_extreme_holds d better ks cs order None Hb Hk) as (o & E & Hres); [apply List.Forall_forall; intros i Hi%list_elem_of_In; by apply Ho|done|].
  exists o. destruct o as [j|].
  - destruct Hres as (e & He & Hmin). pose proof (front_entry ks es j e Hm He) as [n Hn]%list_elem_of_lookup_1.
    assert (forall x, x ∈ es -> U x.1 -> ~ rel d x.1 e.1) as Hmin'.
    { intros x Hx Ux. pose proof (elem_key_valid es x Hes Hx) as Hvx. destruct (entry_kid ks es x Hm Hx) as (i & k & Hi & Hxk). specialize (Hsat i k Hi).
      destruct k as [l [q|]]; cbn in *; [|by destruct (Hsat x Hxk)]. destruct Hsat as (y & Hy & Uy & Hmy).
      assert (front ks i y) as Hfy by by exists l, q. apply (not_rel_trans d x.1 y.1 e.1).
      - done.
      - apply (elem_key_valid es y Hes), (front_entry ks es i y Hm Hfy).
      - by apply Hmy.
      - apply (Hmin i); [left; apply Ho; by eapply lookup_lt_Some|done]. }
    assert (U e.1) as Ue.
    { destruct He as (l & q & Hi & He). destruct (Hsat j _ Hi) as (y & Hy & Uy & _). cbn in Hy. rewrite He in Hy. by injection Hy as <-. }
    pose proof (entries_valid c valid es n e Hes Hn) as Hve.
    exists (Some n). split; [done|]. split; [by exists e|]. exists ks. split; [done|]. split; [done|]. exists e, j. split; [done|]. split; [done|]. split; [done|].
    intros i k Hi. cbn [direction_]. specialize (Hsat i k Hi). pose proof (kid_ok ks cs i k Hk Hi) as Hok.
    assert (forall x, x ∈ k.1 -> ~ rel d x.1 e.1 -> U x.1) as Hup by (intros x Hx Hn'; apply (HU e.1 x.1 Hve); [by apply (elem_key_valid k.1)|done|done]).
    destruct k as [l [q|]]; cbn in *; [|intros x Hx Hn'; by apply (Hsat x Hx), Hup].
    destruct Hsat as (y & Hy & Uy & Hmy). exists y. split; [done|]. split; [|intros x Hx Hn'; by apply Hmy, Hup].
    apply Hmin'; [|done]. apply (kid_entries ks es i (l, Some q)); [done|done|]. by eapply list_elem_of_lookup_2.
  - destruct Hres as [_ Hno]. exists None. split; [done|]. split; [|by exists ks]. intros x Hx Ux. destruct (entry_kid ks es x Hm Hx) as (i & k & Hi & Hxk).
    specialize (Hsat i k Hi). destruct k as [l [q|]]; cbn in *; [|by destruct (Hsat x Hxk)]. destruct Hsat as (y & Hy & _).
    apply (Hno i y); [apply Ho; by eapply lookup_lt_Some|by exists l, q].
Qed.

Lemma length_kids ks cs : kids_at ks cs -> length cs = length ks.
Proof. intros Hk. symmetry. by eapply Forall2_length. Qed.

Lemma find_forward_at (U : bytes -> Prop) ks cs es p : merged ks es -> kids_at ks cs ->
  (forall a b, valid a -> valid b -> U a -> ~ lt b a -> U b) ->
  (forall i k, ks !! i = Some k -> sat_pos kForward U k.1 k.2) -> sat_pos kForward U es p ->
  exists m, find_forward c cs = Ret m /\ merging_at es p m /\ direction_ m = kForward.
Proof.
  intros Hm Hk HU Hsat Hp. unfold find_forward, FindSmallest. rewrite (length_kids ks cs Hk).
  destruct (find_current_at kForward _ U ks cs es (seq 0 (length ks)) smaller_betters Hm Hk) as (o & q & -> & Hq & Hat); [|done|done|].
  - intros i. rewrite elem_of_seq. lia.
  - rewrite res_bind_ret. eexists. split; [done|]. split; [|done]. by rewrite (sat_pos_unique kForward U es p q (mg_ok _ _ Hm) Hp Hq).
Qed.

Lemma find_reverse_at (U : bytes -> Prop) ks cs es p : merged ks es -> kids_at ks cs ->
  (forall a b, valid a -> valid b -> U a -> ~ lt a b -> U b) ->
  (forall i k, ks !! i = Some k -> sat_pos kReverse U k.1 k.2) -> sat_pos kReverse U es p ->
  exists m, find_reverse c cs = Ret m /\ merging_at es p m /\ direction_ m = kReverse.
Proof.
  intros Hm Hk HU Hsat Hp. unfold find_reverse, FindLargest. rewrite (length_kids ks cs Hk).
  destruct (find_current_at kReverse _ U ks cs es (rev (seq 0 (length ks))) larger_betters Hm Hk) as (o & q & -> & Hq & Hat); [|done|done|].
  - intros i. rewrite list_elem_of_In, <- in_rev, <- list_elem_of_In, elem_of_seq. lia.
  - rewrite res_bind_ret. eexists. split; [done|]. split; [|done]. by rewrite (sat_pos_unique kReverse U es p q (mg_ok _ _ Hm) Hp Hq).
Qed.

(** ** The operations *)
Lemma merging_kids es p m : merging_at es p m -> exists ks, merged ks es /\ kids_at ks (children_ m).
Proof. intros (ks & Hm & Hk & _). by exists ks. Qed.

Lemma merged_moved ks ks' es : ks'.*1 = ks.*1 -> merged ks es -> merged ks' es.
Proof. intros E [Ho Hp]. split; [done|]. by rewrite E. Qed.

Lemma not_lt_mono t a b : valid t -> valid a -> valid b -> ~ lt a t -> ~ lt b a -> ~ lt b t.
Proof. intros Ht Ha Hb Hat Hba. by apply (not_rel_trans kForward b a t). Qed.

Lemma merging_SeekToFirst_at es p m : merging_at es p m -> exists m', merging_SeekToFirst c m = Ret m' /\ merging_at es (first_pos es) m'.
Proof.
  intros (ks & Hm & Hk)%merging_kids. unfold merging_SeekToFirst.
  destruct (each_child_at (fun _ => it_SeekToFirst) (fun _ k q => q = first_pos k.1) ks (children_ m) Hk) as (ks' & cs' & -> & Hk' & Ek & HR).
  { intros i k w _ _ Hw. destruct (it_SeekToFirst_at c valid _ _ _ Hw) as (w' & E & Hw'). by exists w', (first_pos k.1). }
  rewrite res_bind_ret. pose proof (merged_moved ks ks' es Ek Hm) as Hm'.
  destruct (find_forward_at (fun _ => True) ks' cs' es (first_pos es) Hm' Hk') as (m' & E & Hat & _); [done| |apply sat_first, (mg_ok _ _ Hm)|by exists m'].
  intros i k' Hi. destruct (HR i k' Hi) as (k & _ & E1 & E2). rewrite E2, <- E1. apply sat_first. by eapply kid_ok.
Qed.

Lemma merging_SeekToLast_at es p m : merging_at es p m -> exists m', merging_SeekToLast c m = Ret m' /\ merging_at es (last_pos es) m'.
Proof.
  intros (ks & Hm & Hk)%merging_kids. unfold merging_SeekToLast.
  destruct (each_child_at (fun _ => it_SeekToLast) (fun _ k q => q = last_pos k.1) ks (children_ m) Hk) as (ks' & cs' & -> & Hk' & Ek & HR).
  { intros i k w _ _ Hw. destruct (it_SeekToLast_at c valid _ _ _ Hw) as (w' & E & Hw'). by exists w', (last_pos k.1). }
  rewrite res_bind_ret. pose proof (merged_moved ks ks' es Ek Hm) as Hm'.
  destruct (find_reverse_at (fun _ => True) ks' cs' es (last_pos es) Hm' Hk') as (m' & E & Hat & _); [done| |apply sat_last, (mg_ok _ _ Hm)|by exists m'].
  intros i k' Hi. destruct (HR i k' Hi) as (k & _ & E1 & E2). rewrite E2, <- E1. apply sat_last. by eapply kid_ok.
Qed.

Lemma merging_Seek_at es p m t : merging_at es p m -> valid t ->
  exists m' p', merging_Seek c t m = Ret m' /\ seek_pos c valid es t p' /\ merging_at es p' m'.
Proof.
  intros (ks & Hm & Hk)%merging_kids Ht. unfold merging_Seek. pose proof (mg_ok _ _ Hm) as Hes.
  destruct (each_child_at (fun _ => it_Seek t) (fun _ k q => seek_pos c valid k.1 t q) ks (children_ m) Hk) as (ks' & cs' & -> & Hk' & Ek & HR).
  { intros i k w _ _ Hw. destruct (it_Seek_at c valid _ _ _ _ Hw Ht) as (w' & q & E & Hq & Hw'). by exists w', q. }
  rewrite res_bind_ret. pose proof (merged_moved ks ks' es Ek Hm) as Hm'. destruct (seek_pos_total c valid es t) as [p' Hp']; [apply Hes|done|].
  destruct (find_forward_at (fun k => ~ lt k t) ks' cs' es p' Hm' Hk') as (m' & E & Hat & _).
  - intros a b Ha Hb. by apply not_lt_mono.
  - intros i k' Hi. destruct (HR i k' Hi) as (k & _ & E1 & E2). rewrite <- E1 in E2. apply sat_seek; [by eapply kid_ok|done].
  - by apply sat_seek.
  - by exists m', p'.
Qed.

(** What the merging iterator stands at. *)
Lemma merging_current es n m : merging_at es (Some n) m ->
  exists e j w, es !! n = Some e /\ current_ m = Some j /\ child_at (children_ m) j = Ret w /\ it_key w = Ret e.1 /\ it_value w = Ret e.2.
Proof.
  intros (ks & Hm & Hk & e & j & He & Hj & Hf & _). destruct (front_key ks _ j e Hk Hf) as (w & Ew & _ & Ekey & Eval & _). by exists e, j, w.
Qed.

Lemma merging_key_at es n m e : merging_at es (Some n) m -> es !! n = Some e -> merging_key m = Ret e.1.
Proof.
  intros Hat He. destruct (merging_current es n m Hat) as (e' & j & w & He' & Hj & Ew & Ekey & _). rewrite He in He'. injection He' as <-.
  unfold merging_key, merging_Valid, current_child. rewrite Hj. cbn [assert_ of_option]. by rewrite !res_bind_ret, Ew, res_bind_ret.
Qed.

(** ** Turning around *)
Lemma turn_at es n m e ks (d : Direction) (f : nat -> IteratorWrapper I -> res (IteratorWrapper I)) :
  es !! n = Some e -> merged ks es -> kids_at ks (children_ m) ->
  (exists j, current_ m = Some j /\ front ks j e) ->
  (forall i k w, ks !! i = Some k -> at_child k.1 k.2 w -> current_ m = Some i -> f i w = Ret w) ->
  (forall i k w, ks !! i = Some k -> at_child k.1 k.2 w -> current_ m <> Some i -> (forall x, x ∈ k.1 -> x.1 <> e.1) ->
    exists w' q, f i w = Ret w' /\ at_child k.1 q w' /\ sat_pos d (fun key => ~ rel d key e.1) k.1 q) ->
  exists cs, each_child f 0 (children_ m) = Ret cs /\ merging_at es (Some n) (MkMergingIterator cs (current_ m) d).
Proof.
  intros He Hm Hk (j & Hj & Hf) Hcur Hother. pose proof Hf as (l & q & Hlj & Hq).
  destruct (each_child_at f (fun i k q => (current_ m = Some i -> q = k.2) /\ sat_pos d (fun key => ~ rel d key e.1) k.1 q) ks (children_ m) Hk)
    as (ks' & cs' & E & Hk' & Ek & HR).
  { intros i k w Hi Hw Hat. destruct (decide (current_ m = Some i)) as [Hc|Hc].
    - exists w, k.2. split; [by eapply Hcur|]. split; [done|]. split; [done|]. rewrite Hj in Hc. injection Hc as <-. rewrite Hlj in Hi. injection Hi as <-.
      apply sat_at; [|done]. by apply (kid_ok ks (children_ m) j (l, Some q)).
    - destruct (Hother i k w Hi Hat Hc) as (w' & q' & Ew & Hw' & Hq'); [|by exists w', q']. intros x Hx.
      apply (kids_differ ks es i j k (l, Some q) x e Hm Hi Hlj); [congruence|done|]. by eapply list_elem_of_lookup_2. }
  exists cs'. split; [done|]. exists ks'. split; [by apply (merged_moved ks)|]. split; [done|]. exists e, j. split; [done|]. split; [done|]. split.
  - assert (is_Some (ks' !! j)) as [k' Hk'j].
    { apply lookup_lt_is_Some. rewrite <- (length_fmap fst ks'), Ek, length_fmap. by eapply lookup_lt_Some. }
    destruct (HR j k' Hk'j) as (k & Hkj & E1 & E2 & _). rewrite Hlj in Hkj. injection Hkj as <-. specialize (E2 Hj). destruct k' as [l' q']. cbn in *. subst. by exists l, q.
  - intros i k' Hi. destruct (HR i k' Hi) as (k & _ & E1 & _ & Hs). cbn [direction_]. by rewrite E1.
Qed.

Lemma seek_valid_at t w l q : at_child l q w -> valid t -> exists w' q', it_Seek t w = Ret w' /\ at_child l q' w' /\ seek_pos c valid l t q'.
Proof. intros Hw Ht. destruct (it_Seek_at c valid _ _ _ _ Hw Ht) as (w' & q' & E & Hq & Hw'). by exists w', q'. Qed.

Lemma turn_forward es n m : merging_at es (Some n) m ->
  exists m', (if decide (direction_ m = kForward) then Ret m
              else let! cs := each_child (seek_after c m) 0 (children_ m) in Ret (MkMergingIterator cs (current_ m) kForward)) = Ret m' /\
    merging_at es (Some n) m' /\ direction_ m' = kForward.
Proof.
  intros Hat. destruct (decide _) as [|_]; [by exists m|]. destruct (merging_current es n m Hat) as (e & j & w & He & Hj & _).
  pose proof (merging_key_at es n m e Hat He) as Ekey. pose proof Hat as (ks & Hm & Hk & e' & j' & He' & Hj' & Hf & _).
  rewrite He in He'. injection He' as <-. rewrite Hj in Hj'. injection Hj' as <-. pose proof (entries_valid c valid es n e (mg_ok _ _ Hm) He) as Hve.
  destruct (turn_at es n m e ks kForward (seek_after c m) He Hm Hk) as (cs & -> & Hat'); [by exists j| | |rewrite res_bind_ret; by eexists].
  - intros i k w' _ _ Hc. unfold seek_after. by rewrite bool_decide_true.
  - intros i k w' Hi Hw' Hc Hne. unfold seek_after. rewrite bool_decide_false by done. rewrite Ekey, res_bind_ret.
    destruct (seek_valid_at e.1 w' k.1 k.2 Hw' Hve) as (w1 & q1 & E1 & Hw1 & Hq1). rewrite E1, res_bind_ret, (it_Valid_at c valid _ _ _ Hw1).
    pose proof (kid_ok ks _ i k Hk Hi) as Hok. assert (sat_pos kForward (fun key => ~ lt key e.1) k.1 q1) as Hs by by apply sat_seek.
    destruct q1 as [q1|]; [rewrite bool_decide_true by done|rewrite bool_decide_false by (by intros [? ?]); by exists w1, None].
    destruct (it_entry_at c valid _ _ _ Hw1) as (x & Hx & Ex & _). rewrite Ex, res_bind_ret.
    destruct (Compare_ok e.1 x.1 Hve (entries_valid c valid _ _ _ Hok Hx)) as (z & Ez & Hz). rewrite Ez, res_bind_ret.
    destruct (Z.eqb_spec z 0) as [->|_]; [|by exists w1, (Some q1)]. exfalso. apply (Hne x); [by eapply list_elem_of_lookup_2|done].
Qed.

Lemma turn_reverse es n m : merging_at es (Some n) m ->
  exists m', (if decide (direction_ m = kReverse) then Ret m
              else let! cs := each_child (seek_before m) 0 (children_ m) in Ret (MkMergingIterator cs (current_ m) kReverse)) = Ret m' /\
    merging_at es (Some n) m' /\ direction_ m' = kReverse.
Proof.
  intros Hat. destruct (decide _) as [|_]; [by exists m|]. destruct (merging_current es n m Hat) as (e & j & w & He & Hj & _).
  pose proof (merging_key_at es n m e Hat He) as Ekey. pose proof Hat as (ks & Hm & Hk & e' & j' & He' & Hj' & Hf & _).
  rewrite He in He'. injection He' as <-. rewrite Hj in Hj'. injection Hj' as <-. pose proof (entries_valid c valid es n e (mg_ok _ _ Hm) He) as Hve.
  destruct (turn_at es n m e ks kReverse (seek_before m) He Hm Hk) as (cs & -> & Hat'); [by exists j| | |rewrite res_bind_ret; by eexists].
  - intros i k w' _ _ Hc. unfold seek_before. by rewrite bool_decide_true.
  - intros i k w' Hi Hw' Hc Hne. unfold seek_before. rewrite bool_decide_false by done. rewrite Ekey, res_bind_ret.
    destruct (seek_valid_at e.1 w' k.1 k.2 Hw' Hve) as (w1 & q1 & E1 & Hw1 & Hq1). rewrite E1, res_bind_ret, (it_Valid_at c valid _ _ _ Hw1).
    pose proof (kid_ok ks _ i k Hk Hi) as Hok. pose proof (fun x => elem_key_valid k.1 x Hok) as Hvx. destruct q1 as [q1|].
    + rewrite bool_decide_true by done. destruct (it_entry_at c valid _ _ _ Hw1) as (x & Hx & _). destruct (it_Prev_at c valid _ _ _ Hw1) as (w2 & E2 & Hw2).
      exists w2, (prev_pos q1). split; [done|]. split; [done|]. destruct Hq1 as [Hbefore (x' & Hx' & Hnx)]. rewrite Hx in Hx'. injection Hx' as <-.
      eapply sat_pos_ext; [|by apply (sat_prev k.1 q1 x)]. intros y Hy. cbn. split.
      * intros Hlt Hey. pose proof Hy as [i' Hi']%list_elem_of_lookup_1. pose proof (entries_index_lt _ i' q1 y x Hok Hi' Hx Hlt).
        apply (key_lt_asym c valid y.1 e.1); [|done]. eapply (Forall_elem (fun e0 : entry => lt e0.1 e.1)); [exact Hbefore|].
        apply (list_elem_of_lookup_2 _ i'). by rewrite lookup_take_lt.
      * intros Hey. destruct (entry_eq_dec_lt c valid y.1 e.1) as [Hlt|[Heq|Hlt]]; [by apply Hvx|done| |by apply Hne in Heq|done].
        destruct (entry_eq_dec_lt c valid e.1 x.1) as [Hex|[Hex|Hex]]; [done|apply Hvx; by eapply list_elem_of_lookup_2|by transitivity e.1|by rewrite Hex in Hlt|done].
    + rewrite bool_decide_false by (by intros [? ?]). destruct (it_SeekToLast_at c valid _ _ _ Hw1) as (w2 & E2 & Hw2).
      exists w2, (last_pos k.1). split; [done|]. split; [done|]. eapply sat_pos_ext; [|by apply sat_last]. intros y Hy. cbn. split; [|done]. intros _ Hey.
      eapply key_lt_asym; [exact Hey|]. by eapply (Forall_elem (fun e0 : entry => lt e0.1 e.1)).
Qed.

(** ** Next and Prev *)

(** Moving the current child. *)
Lemma on_current_at es n m e (f : IteratorWrapper I -> res (IteratorWrapper I)) (U : bytes -> Prop) : merging_at es (Some n) m -> es !! n = Some e ->
  (forall l q w, at_child l (Some q) w -> l !! q = Some e -> exists w' q', f w = Ret w' /\ at_child l q' w' /\ sat_pos (direction_ m) U l q') ->
  (forall key, valid key -> key <> e.1 -> ~ rel (direction_ m) key e.1 <-> U key) ->
  exists ks' cs, on_current f m = Ret cs /\ merged ks' es /\ kids_at ks' cs /\ forall i k, ks' !! i = Some k -> sat_pos (direction_ m) U k.1 k.2.
Proof.
  intros (ks & Hm & Hk & e' & j & He' & Hj & Hf & Hsat) He Hstep HU. rewrite He in He'. injection He' as <-. destruct Hf as (l & q & Hlj & Hq).
  destruct (kids_lookup ks _ j _ Hk Hlj) as (w & Ew & Hwj & Hw). destruct (Hstep l q w Hw Hq) as (w' & q' & Ef & Hw' & Hs').
  unfold on_current. rewrite Hj. cbn [of_option]. rewrite res_bind_ret, Ew, res_bind_ret, Ef, res_bind_ret.
  exists (<[j := (l, q')]> ks), (<[j := w']> (children_ m)). split; [done|]. split; [|split].
  - apply (merged_moved ks); [|done]. rewrite list_fmap_insert. cbn. apply list_insert_id. by rewrite list_lookup_fmap, Hlj.
  - apply Forall2_insert; [exact Hk|exact Hw'].
  - intros i k Hi. destruct (decide (i = j)) as [->|Hne].
    + rewrite list_lookup_insert_eq in Hi by (by eapply lookup_lt_Some). by injection Hi as <-.
    + rewrite list_lookup_insert_ne in Hi by done. eapply sat_pos_ext; [|by apply (Hsat i k)]. intros x Hx. apply HU.
      * apply (elem_key_valid k.1 x); [|done]. by eapply kid_ok.
      * apply (kids_differ ks es i j k (l, Some q) x e Hm Hi Hlj Hne Hx). by eapply list_elem_of_lookup_2.
Qed.

Lemma merging_Next_at es n m : merging_at es (Some n) m -> exists m', merging_Next c m = Ret m' /\ merging_at es (next_pos es n) m'.
Proof.
  intros Hat. destruct (merging_current es n m Hat) as (e & j & _ & He & Hj & _).
  assert (merging_Valid m = true) as Hval by (unfold merging_Valid; by rewrite Hj). unfold merging_Next. rewrite Hval. cbn [assert_]. rewrite res_bind_ret.
  destruct (turn_forward es n m Hat) as (m1 & -> & Hat1 & Hd). rewrite res_bind_ret.
  assert (entries_ok c valid es) as Hes by (destruct Hat as (ks & Hm & _); apply (mg_ok _ _ Hm)). pose proof (entries_valid c valid es n e Hes He) as Hve.
  destruct (on_current_at es n m1 e it_Next (fun k => lt e.1 k) Hat1 He) as (ks & cs & -> & Hm & Hk & Hsat).
  - intros l q w Hw Hq. destruct (it_Next_at c valid _ _ _ Hw) as (w' & E & Hw'). exists w', (next_pos l q). split; [done|]. split; [done|]. rewrite Hd.
    apply sat_next; [exact (it_at_ok c valid _ _ _ Hw)|done].
  - rewrite Hd. intros key Hv Hne. cbn. split; [|intros ? ?; by eapply key_lt_asym]. intros Hn.
    by destruct (entry_eq_dec_lt c valid key e.1 Hv Hve) as [?|[?|?]].
  - rewrite res_bind_ret, Hd in *. destruct (find_forward_at (fun k => lt e.1 k) ks cs es (next_pos es n) Hm Hk) as (m' & E & Hat' & _).
    + intros a b Ha Hb Hea Hba. destruct (entry_eq_dec_lt c valid a b Ha Hb) as [?|[<-|?]]; [by transitivity a|done|done].
    + done.
    + by apply sat_next.
    + by exists m'.
Qed.

Lemma merging_Prev_at es n m : merging_at es (Some n) m -> exists m', merging_Prev c m = Ret m' /\ merging_at es (prev_pos n) m'.
Proof.
  intros Hat. destruct (merging_current es n m Hat) as (e & j & _ & He & Hj & _).
  assert (merging_Valid m = true) as Hval by (unfold merging_Valid; by rewrite Hj). unfold merging_Prev. rewrite Hval. cbn [assert_]. rewrite res_bind_ret.
  destruct (turn_reverse es n m Hat) as (m1 & -> & Hat1 & Hd). rewrite res_bind_ret.
  assert (entries_ok c valid es) as Hes by (destruct Hat as (ks & Hm & _); apply (mg_ok _ _ Hm)). pose proof (entries_valid c valid es n e Hes He) as Hve.
  destruct (on_current_at es n m1 e it_Prev (fun k => lt k e.1) Hat1 He) as (ks & cs & -> & Hm & Hk & Hsat).
  - intros l q w Hw Hq. destruct (it_Prev_at c valid _ _ _ Hw) as (w' & E & Hw'). exists w', (prev_pos q). split; [done|]. split; [done|]. rewrite Hd.
    apply sat_prev; [exact (it_at_ok c valid _ _ _ Hw)|done].
  - rewrite Hd. intros key Hv Hne. cbn. split; [|intros ? ?; by eapply key_lt_asym]. intros Hn.
    by destruct (entry_eq_dec_lt c valid key e.1 Hv Hve) as [?|[?|?]].
  - rewrite res_bind_ret, Hd in *. destruct (find_reverse_at (fun k => lt k e.1) ks cs es (prev_pos n) Hm Hk) as (m' & E & Hat' & _).
    + intros a b Ha Hb Hea Hba. destruct (entry_eq_dec_lt c valid a b Ha Hb) as [?|[<-|?]]; [done|done|by transitivity a].
    + done.
    + by apply sat_prev.
    + by exists m'.
Qed.

Lemma merging_status_at es p m : merging_at es p m -> merging_status m = Ret Status_OK.
Proof.
  intros (ks & _ & Hk)%merging_kids. unfold merging_status. induction Hk as [|k w ks cs Hw _ IH]; [done|]. cbn [children_status].
  rewrite (it_status_at c valid _ _ _ Hw), res_bind_ret. exact IH.
Qed.

#[export] Instance MergingIterator_ok : @IteratorOk c valid _ (MergingIterator I) (MergingIterator_Iterator c).
Proof.
  refine {| it_at := merging_at |}.
  - intros es p m (ks & Hm & _). apply (mg_ok _ _ Hm).
  - intros es p m (ks & _ & _ & Hp). cbn. unfold merging_Valid. destruct p as [n|]; [by destruct Hp as (e & j & _ & -> & _)|by rewrite Hp].
  - intros es p m. apply merging_status_at.
  - intros es n m Hat. destruct (merging_current es n m Hat) as (e & j & w & He & Hj & Ew & Ekey & Eval). exists e. split; [done|].
    cbn. unfold merging_key, merging_value, merging_Valid, current_child. rewrite Hj. cbn [assert_ of_option]. by rewrite !res_bind_ret, Ew, !res_bind_ret.
  - exact merging_SeekToFirst_at.
  - exact merging_SeekToLast_at.
  - intros es p m t. apply merging_Seek_at.
  - exact merging_Next_at.
  - exact merging_Prev_at.
Defined.

(** ** NewMergingIterator *)
Lemma entries_ok_cons e es : entries_ok c valid (e :: es) -> entries_ok c valid es /\ forall x, x ∈ es -> lt e.1 x.1.
Proof.
  intros [Hs Hv]. cbn in Hs, Hv. inversion Hs as [|? ? Hs' Hall]; subst. inversion Hv; subst. split; [done|].
  intros x Hx. eapply (Forall_elem (lt e.1)); [exact Hall|]. by apply list_elem_of_fmap_2.
Qed.

Lemma entries_perm_eq es l : entries_ok c valid es -> entries_ok c valid l -> es ≡ₚ l -> es = l.
Proof.
  revert l. induction es as [|e es IH]; intros l He Hl Hp; [by apply Permutation_nil in Hp|].
  destruct l as [|x l]; [by symmetry in Hp; apply Permutation_nil in Hp|].
  destruct (entries_ok_cons e es He) as [He' Hlt], (entries_ok_cons x l Hl) as [Hl' Hltx].
  assert (e = x) as ->; [|f_equal; apply IH; [done..|by apply (Permutation_cons_inv Hp)]].
  assert (e ∈ x :: l) as [->|Hel]%elem_of_cons by (rewrite <- Hp; left); [done|].
  assert (x ∈ e :: es) as [->|Hxe]%elem_of_cons by (rewrite Hp; left); [done|].
  exfalso. eapply key_lt_asym; [by apply Hlt, Hxe|by apply Hltx].
Qed.

Definition children_at (ls : list (list entry)) (children : list I) : Prop := Forall2 (fun l i => exists p, it_at c valid l p i) ls children.

Lemma new_MergingIterator_at ls children es : children_at ls children -> entries_ok c valid es -> es ≡ₚ concat ls ->
  exists m, new_MergingIterator children = Ret m /\ merging_at es None m.
Proof.
  intros Hch Hes Hp. unfold new_MergingIterator.
  assert (exists ks cs, set_children children = Ret cs /\ kids_at ks cs /\ ks.*1 = ls) as (ks & cs & -> & Hk & Ek).
  { clear Hp Hes. induction Hch as [|l i ls children [p Hi] _ (ks & cs & E & Hk & Ek)]; [by exists [], []; repeat constructor|].
    destruct (Update_at c valid l p wrapper_null i Hi) as (w & Ew & Hw). exists ((l, p) :: ks), (w :: cs). cbn [set_children wrapper_Set].
    rewrite Ew, res_bind_ret, E, res_bind_ret. split; [done|]. split; [by constructor|]. cbn. by rewrite Ek. }
  rewrite res_bind_ret. eexists. split; [done|]. exists ks. split; [split; [done|by rewrite Ek]|by split].
Qed.

#[export] Instance NewMergingIterator_ok : @IteratorOk c valid _ (EmptyIterator + (I + MergingIterator I)) (NewMergingIterator_Iterator c).
Proof. exact (sum_ok c valid (H2 := sum_ok c valid (H2 := MergingIterator_ok))). Defined.

Lemma NewMergingIterator_at ls children es : children_at ls children -> entries_ok c valid es -> es ≡ₚ concat ls ->
  exists it p, NewMergingIterator children = Ret it /\
    @it_at c valid _ _ (NewMergingIterator_Iterator c) _ es p it.
Proof.
  intros Hch Hes Hp. unfold NewMergingIterator. destruct children as [|i [|i' children]].
  - apply Forall2_nil_inv_r in Hch as ->. cbn in Hp. apply Permutation_nil_r in Hp as ->. exists (inl NewEmptyIterator), None. by split.
  - destruct ls as [|l ls]; [by apply Forall2_nil_cons_inv in Hch|]. apply Forall2_cons_1 in Hch as [[p Hi] Hch]. apply Forall2_nil_inv_r in Hch as ->.
    cbn in Hp. rewrite app_nil_r in Hp. exists (inr (inl i)), p. split; [done|]. cbn. rewrite (entries_perm_eq es l); [done|done|exact (it_at_ok c valid _ _ _ Hi)|done].
  - destruct (new_MergingIterator_at ls (i :: i' :: children) es Hch Hes Hp) as (m & -> & Hm). rewrite res_bind_ret. by exists (inr (inr m)), None.
Qed.
End merger.
Arguments children_at c valid {_ I _ _} ls children.

(** C15: A merging iterator over children that meet the contract of iterators, and of
    which no two have the same key, behaves, under any sequence of calls ([Next]
    and [Prev] while it is valid), also when it turns around, as an iterator
    over the sorted union of their entries. *)
Theorem merging_iterator c valid `{!ComparatorOk c valid} {I : Type} `{!Iterator I} `{!IteratorOk c valid I} ls (children : list I) es ops :
  children_at c valid ls children -> entries_ok c valid es -> es ≡ₚ concat ls -> Forall (op_target_ok valid) ops ->
  exists it p it' p', NewMergingIterator children = Ret it /\ @run_ops _ (NewMergingIterator_Iterator c) ops it = Ret it' /\
    ops_pos c valid es ops p p' /\ @shows _ (NewMergingIterator_Iterator c) es p' it'.
Proof.
  intros Hch Hes Hp Hops. destruct (NewMergingIterator_at c valid ls children es Hch Hes Hp) as (it & p & E & Hit).
  destruct (@run_ops_at _ c valid _ (NewMergingIterator_Iterator c) _ es p it ops Hit Hops) as (it' & p' & E' & Hp' & Hit').
  exists it, p, it', p'. split; [done|]. split; [done|]. split; [done|]. by eapply (@it_at_shows _ c valid).
Qed.

(** Two blocks; the iterator turns around twice. *)
Lemma merging_iterator_witness :
  let l1 := [([1], [10]); ([3], [30]); ([5], [50])] in let l2 := [([2], [20]); ([4], [40])] in
  exists c1 b1 i1 c2 b2 i2 it it', build_block 2 BytewiseComparator l1 = Ret c1 /\ new_Block c1 = Ret b1 /\ NewIterator b1 BytewiseComparator = Ret (inr i1) /\
    build_block 2 BytewiseComparator l2 = Ret c2 /\ new_Block c2 = Ret b2 /\ NewIterator b2 BytewiseComparator = Ret (inr i2) /\
    NewMergingIterator [i1; i2] = Ret it /\
    @run_ops _ (NewMergingIterator_Iterator BytewiseComparator) [OpSeek [3]; OpNext; OpPrev; OpPrev; OpNext; OpNext] it = Ret it' /\
    @it_key _ (NewMergingIterator_Iterator BytewiseComparator) it' = Ret [4] /\ @it_value _ (NewMergingIterator_Iterator BytewiseComparator) it' = Ret [40].
Proof.
  intros l1 l2. set (es := [([1], [10]); ([2], [20]); ([3], [30]); ([4], [40]); ([5], [50])]).
  assert (forall l : list entry, sorted_keys l.*1 = true -> Forall bytes_ok l.*1 -> Forall bytes_ok l.*2 -> entries_bound l < 2 ^ 32 ->
    exists contents b i, build_block 2 BytewiseComparator l = Ret contents /\ new_Block contents = Ret b /\
      NewIterator b BytewiseComparator = Ret (inr i) /\ it_at BytewiseComparator bytes_ok l None i) as Hblock.
  { intros l Hs Hk Hv Hb. apply (build_block_at BytewiseComparator bytes_ok 2); [done|by apply bytewise_entries_ok| |exact Hb].
    rewrite !Forall_fmap in *. by apply Forall_and. }
  assert (entries_ok BytewiseComparator bytes_ok es) as Hes.
  { apply bytewise_entries_ok; [reflexivity|]. by repeat (constructor; [by apply bytes_ok_forallb|]). }
  destruct (Hblock l1) as (c1 & b1 & i1 & E1 & E2 & E3 & H1); [reflexivity|by repeat (constructor; [by apply bytes_ok_forallb|])..|done|].
  destruct (Hblock l2) as (c2 & b2 & i2 & E4 & E5 & E6 & H2); [reflexivity|by repeat (constructor; [by apply bytes_ok_forallb|])..|done|].
  destruct (merging_iterator BytewiseComparator bytes_ok [l1; l2] [i1; i2] es [OpSeek [3]; OpNext; OpPrev; OpPrev; OpNext; OpNext])
    as (it & p & it' & p' & Eit & Erun & Hpos & Hshow).
  - constructor; [by exists None|]. constructor; [by exists None|constructor].
  - exact Hes.
  - apply NoDup_Permutation; [| |].
    1-2: apply (NoDup_fmap_1 fst), (bool_decide_unpack _); vm_compute; exact I.
    intros x. unfold es, l1, l2. cbn [concat app]. rewrite !elem_of_cons. set_solver.
  - constructor; [by apply bytes_ok_forallb|]. by repeat constructor.
  - destruct Hpos as (q & Hq & Hpos). cbn in Hq. assert (q = Some 2%nat) as E; [|subst q].
    { apply (seek_pos_unique BytewiseComparator bytes_ok es [3] q (Some 2%nat) Hq). apply (seek_pos_entry BytewiseComparator bytes_ok es 2 ([3], [30]) Hes). reflexivity. }
    assert (p' = Some 3%nat) as -> by (destruct Hpos as (? & -> & ? & -> & ? & -> & ? & -> & ? & -> & ->); reflexivity).
    destruct Hshow as (_ & _ & e & He & Hkey & Hval). injection He as <-.
    exists c1, b1, i1, c2, b2, i2, it, it'. repeat (split; [first [exact E1|exact E2|exact E3|exact E4|exact E5|exact E6|exact Eit|exact Erun|exact Hkey]|]). exact Hval.
Defined.
