(* ===== verification/DbIter.v ===== *)
(** * LevelDB: the iterator of a database (db_iter.cc)

    Turns an iterator over internal keys into one over the user keys that are
    alive at a sequence number.  [Direction] has the same values as that of
    merging iterators.  The calls of [db_->RecordReadSample] are recorded; the
    capacity of [saved_value_] does not change what it holds. *)
From S2P Require Import Prelude LdbBase Comparator DbFormat SkipList Iterator Merger.

Record DBIter (I : Type) : Type := MkDBIter {
  internal_iter_ : I;
  dbiter_status_ : Status;
  saved_key_ : bytes;
  saved_value_ : bytes;
  dbiter_direction_ : Direction;
  dbiter_valid_ : bool;
  sampling_rnd_ : Z;
  bytes_until_read_sampling_ : Z;
  read_samples : list bytes;
}.
Arguments MkDBIter {I}. Arguments internal_iter_ {I}. Arguments dbiter_status_ {I}. Arguments saved_key_ {I}. Arguments saved_value_ {I}.
Arguments dbiter_direction_ {I}. Arguments dbiter_valid_ {I}. Arguments sampling_rnd_ {I}. Arguments bytes_until_read_sampling_ {I}.
Arguments read_samples {I}.

(** The number, and the new seed. *)
Definition RandomCompactionPeriod (rnd : Z) : Z * Z := Random_Uniform rnd (2 * kReadBytesPeriod).

Section db_iter.
Context {I : Type} `{Iterator I} (user_comparator_ : Comparator) (sequence_ : SequenceNumber).
Implicit Types (d : DBIter I).

Definition set_internal (i : I) d : DBIter I :=
  MkDBIter i (dbiter_status_ d) (saved_key_ d) (saved_value_ d) (dbiter_direction_ d) (dbiter_valid_ d) (sampling_rnd_ d)
    (bytes_until_read_sampling_ d) (read_samples d).
Definition set_saved (key value : bytes) d : DBIter I :=
  MkDBIter (internal_iter_ d) (dbiter_status_ d) key value (dbiter_direction_ d) (dbiter_valid_ d) (sampling_rnd_ d)
    (bytes_until_read_sampling_ d) (read_samples d).
Definition set_direction (dir : Direction) d : DBIter I :=
  MkDBIter (internal_iter_ d) (dbiter_status_ d) (saved_key_ d) (saved_value_ d) dir (dbiter_valid_ d) (sampling_rnd_ d)
    (bytes_until_read_sampling_ d) (read_samples d).
Definition set_valid (b : bool) d : DBIter I :=
  MkDBIter (internal_iter_ d) (dbiter_status_ d) (saved_key_ d) (saved_value_ d) (dbiter_direction_ d) b (sampling_rnd_ d)
    (bytes_until_read_sampling_ d) (read_samples d).
Definition set_dbiter_status (s : Status) d : DBIter I :=
  MkDBIter (internal_iter_ d) s (saved_key_ d) (saved_value_ d) (dbiter_direction_ d) (dbiter_valid_ d) (sampling_rnd_ d)
    (bytes_until_read_sampling_ d) (read_samples d).
Definition set_sampling (until rnd : Z) (samples : list bytes) d : DBIter I :=
  MkDBIter (internal_iter_ d) (dbiter_status_ d) (saved_key_ d) (saved_value_ d) (dbiter_direction_ d) (dbiter_valid_ d) rnd until samples.

(** [SaveKey(k, &saved_key_)]. *)
Definition SaveKey (k : bytes) d : DBIter I := set_saved k (saved_value_ d) d.
Definition ClearSavedValue d : DBIter I := set_saved (saved_key_ d) [] d.

(** [iter_->f()]. *)
Definition on_internal (f : I -> res I) d : res (DBIter I) := let! i := f (internal_iter_ d) in Ret (set_internal i d).

Definition new_DBIter (iter : I) (seed : Z) : DBIter I :=
  let '(until, rnd) := RandomCompactionPeriod (new_Random seed) in
  MkDBIter iter Status_OK [] [] kForward false rnd until [].

Definition dbiter_Valid d : bool := dbiter_valid_ d.

Definition dbiter_key d : res bytes :=
  let! _ := assert_ (dbiter_valid_ d) in
  if decide (dbiter_direction_ d = kForward) then let! k := it_key (internal_iter_ d) in ExtractUserKey k else Ret (saved_key_ d).

Definition dbiter_value d : res bytes :=
  let! _ := assert_ (dbiter_valid_ d) in
  if decide (dbiter_direction_ d = kForward) then it_value (internal_iter_ d) else Ret (saved_value_ d).

Definition dbiter_status d : res Status :=
  if ok (dbiter_status_ d) then it_status (internal_iter_ d) else Ret (dbiter_status_ d).

(** [bytes_until_read_sampling_], the seed and the samples. *)
Definition sampling_body (bytes_read : Z) (k : bytes) (st : Z * Z * list bytes) : res ((Z * Z * list bytes) + (Z * Z * list bytes)) :=
  let '(until, rnd, samples) := st in
  if until <? bytes_read then let '(n, rnd) := RandomCompactionPeriod rnd in Ret (inl (u64 (until + n), rnd, samples ++ [k]))
  else Ret (inr st).

Definition ParseKey d : res (option ParsedInternalKey * DBIter I) :=
  let! k := it_key (internal_iter_ d) in
  let! v := it_value (internal_iter_ d) in
  let bytes_read := u64 (size k + size v) in
  let! '(until, rnd, samples) := while (sampling_body bytes_read k) (bytes_until_read_sampling_ d, sampling_rnd_ d, read_samples d) in
  let! _ := assert_ (bytes_read <=? until) in
  let d := set_sampling (u64 (until - bytes_read)) rnd samples d in
  let! o := ParseInternalKey k in
  match o with
  | Some ikey => Ret (Some ikey, d)
  | None => Ret (None, set_dbiter_status (Corruption (str "corrupted internal key in DBIter")) d)
  end.

(** One turn of the loop of [FindNextUserEntry]; [skip] is [saved_key_]. *)
Definition find_next_body (st : bool * DBIter I) : res ((bool * DBIter I) + DBIter I) :=
  let '(skipping, d) := st in
  let! '(o, d) := ParseKey d in
  let! '(found, skipping, d) :=
    match o with
    | Some ikey =>
        if sequence ikey <=? sequence_ then
          match type ikey with
          | kTypeDeletion => Ret (false, true, SaveKey (user_key ikey) d)
          | kTypeValue =>
              let! hidden := (if skipping then let! z := Compare user_comparator_ (user_key ikey) (saved_key_ d) in Ret (z <=? 0) else Ret false) in
              Ret (negb hidden, skipping, d)
          end
        else Ret (false, skipping, d)
    | None => Ret (false, skipping, d)
    end in
  if found : bool then Ret (inr (SaveKey [] (set_valid true d)))
  else
    let! d := on_internal it_Next d in
    if it_Valid (internal_iter_ d) then Ret (inl (skipping, d)) else Ret (inr (set_valid false (SaveKey [] d))).

Definition FindNextUserEntry (skipping : bool) d : res (DBIter I) :=
  let! _ := assert_ (it_Valid (internal_iter_ d)) in
  let! _ := assert_ (bool_decide (dbiter_direction_ d = kForward)) in
  while find_next_body (skipping, d).

(** One turn of the loop of [FindPrevUserEntry]: the type and the iterator. *)
Definition find_prev_body (st : ValueType * DBIter I) : res ((ValueType * DBIter I) + (ValueType * DBIter I)) :=
  let '(value_type, d) := st in
  let! '(o, d) := ParseKey d in
  let! next :=
    match o with
    | Some ikey =>
        if sequence ikey <=? sequence_ then
          let! stop := (if decide (value_type = kTypeDeletion) then Ret false
                        else let! z := Compare user_comparator_ (user_key ikey) (saved_key_ d) in Ret (z <? 0)) in
          if stop : bool then Ret None
          else if decide (type ikey = kTypeDeletion) then Ret (Some (type ikey, ClearSavedValue (SaveKey [] d)))
          else
            let! raw_value := it_value (internal_iter_ d) in
            let! k := it_key (internal_iter_ d) in
            let! u := ExtractUserKey k in
            Ret (Some (type ikey, set_saved u raw_value d))
        else Ret (Some (value_type, d))
    | None => Ret (Some (value_type, d))
    end in
  match next with
  | None => Ret (inr (value_type, d))
  | Some (value_type, d) =>
      let! d := on_internal it_Prev d in
      Ret (if it_Valid (internal_iter_ d) then inl (value_type, d) else inr (value_type, d))
  end.

Definition FindPrevUserEntry d : res (DBIter I) :=
  let! _ := assert_ (bool_decide (dbiter_direction_ d = kReverse)) in
  let! '(value_type, d) := (if it_Valid (internal_iter_ d) then while find_prev_body (kTypeDeletion, d) else Ret (kTypeDeletion, d)) in
  Ret (if decide (value_type = kTypeDeletion) then set_direction kForward (ClearSavedValue (SaveKey [] (set_valid false d)))
       else set_valid true d).

Definition dbiter_Next d : res (DBIter I) :=
  let! _ := assert_ (dbiter_valid_ d) in
  if decide (dbiter_direction_ d = kReverse) then
    let d := set_direction kForward d in
    let! d := on_internal (if it_Valid (internal_iter_ d) then it_Next else it_SeekToFirst) d in
    if negb (it_Valid (internal_iter_ d)) then Ret (SaveKey [] (set_valid false d)) else FindNextUserEntry true d
  else
    let! k := it_key (internal_iter_ d) in
    let! u := ExtractUserKey k in
    FindNextUserEntry true (SaveKey u d).

(** The loop of [Prev]: [true] when the entries end. *)
Definition before_key_body d : res (DBIter I + (bool * DBIter I)) :=
  let! d := on_internal it_Prev d in
  if negb (it_Valid (internal_iter_ d)) then Ret (inr (true, d))
  else
    let! k := it_key (internal_iter_ d) in
    let! u := ExtractUserKey k in
    let! z := Compare user_comparator_ u (saved_key_ d) in
    Ret (if z <? 0 then inr (false, d) else inl d).

Definition dbiter_Prev d : res (DBIter I) :=
  let! _ := assert_ (dbiter_valid_ d) in
  if decide (dbiter_direction_ d = kForward) then
    let! _ := assert_ (it_Valid (internal_iter_ d)) in
    let! k := it_key (internal_iter_ d) in
    let! u := ExtractUserKey k in
    let! '(at_end, d) := while before_key_body (SaveKey u d) in
    if at_end : bool then Ret (ClearSavedValue (SaveKey [] (set_valid false d))) else FindPrevUserEntry (set_direction kReverse d)
  else FindPrevUserEntry d.

Definition dbiter_Seek (target : bytes) d : res (DBIter I) :=
  let d := SaveKey [] (ClearSavedValue (set_direction kForward d)) in
  let! k := AppendInternalKey (saved_key_ d) (MkParsedInternalKey target sequence_ kValueTypeForSeek) in
  let d := SaveKey k d in
  let! d := on_internal (it_Seek (saved_key_ d)) d in
  if it_Valid (internal_iter_ d) then FindNextUserEntry false d else Ret (set_valid false d).

Definition dbiter_SeekToFirst d : res (DBIter I) :=
  let d := ClearSavedValue (set_direction kForward d) in
  let! d := on_internal it_SeekToFirst d in
  if it_Valid (internal_iter_ d) then FindNextUserEntry false d else Ret (set_valid false d).

Definition dbiter_SeekToLast d : res (DBIter I) :=
  let d := ClearSavedValue (set_direction kReverse d) in
  let! d := on_internal it_SeekToLast d in
  FindPrevUserEntry d.

#[export] Instance DBIter_Iterator : Iterator (DBIter I) := {|
  it_Valid := dbiter_Valid;
  it_SeekToFirst := dbiter_SeekToFirst;
  it_SeekToLast := dbiter_SeekToLast;
  it_Seek := dbiter_Seek;
  it_Next := dbiter_Next;
  it_Prev := dbiter_Prev;
  it_key := dbiter_key;
  it_value := dbiter_value;
  it_status := dbiter_status;
|}.

Definition NewDBIterator (internal_iter : I) (seed : Z) : DBIter I := new_DBIter internal_iter seed.
End db_iter.
