(* ===== verification/DbIterFacts.v ===== *)
(** * LevelDB's database iterator, proved

    Over entries with internal keys, it keeps the contract of iterators over
    the user keys that are alive at its sequence number, with their newest
    values, whichever way it moved before. *)
From stdpp Require sorting.
From S2P Require Import Prelude LdbBase Comparator DbFormat SkipList Block BlockBuild Iterator Merger DbIter.

(** ** Random numbers *)
Definition seed_ok (seed : Z) : Prop := 0 < seed < 2147483647.

Lemma new_Random_ok s : seed_ok (new_Random s).
Proof.
  unfold seed_ok, new_Random. assert (0 <= s .& 0x7fffffff <= 2147483647) as Hb.
  { pose proof (Z.land_ones s 31 ltac:(lia)) as E. change (Z.ones 31) with 0x7fffffff in E. rewrite E. pose proof (Z.mod_pos_bound s (2 ^ 31) ltac:(lia)). lia. }
  destruct (Z.eqb_spec (s .& 0x7fffffff) 0); [cbn; lia|]. destruct (Z.eqb_spec (s .& 0x7fffffff) 2147483647); cbn; lia.
Qed.

(** The generator multiplies by 16807 modulo 2^31 - 1. *)
Lemma Random_Next_mod seed : seed_ok seed -> seed_ok (Random_Next seed) /\ exists q, seed * 16807 = q * 2147483647 + Random_Next seed.
Proof.
  unfold seed_ok. intros Hs. unfold Random_Next. rewrite (wrap_small 64) by lia. rewrite Z.shiftr_div_pow2 by lia.
  pose proof (Z.land_ones (seed * 16807) 31 ltac:(lia)) as El. change (Z.ones 31) with 2147483647 in El. rewrite El. change (2 ^ 31) with 2147483648.
  pose proof (Z.div_mod (seed * 16807) 2147483648 ltac:(lia)) as Hd. pose proof (Z.mod_pos_bound (seed * 16807) 2147483648 ltac:(lia)).
  set (a := seed * 16807 / 2147483648) in *. set (b := (seed * 16807) mod 2147483648) in *. assert (0 <= a < 16807) by (unfold a; split; [apply Z.div_pos; lia|apply Z.div_lt_upper_bound; lia]).
  rewrite (wrap_small 32) by lia.
  assert (forall r, (exists q, seed * 16807 = q * 2147483647 + r) -> r <> 0 /\ r <> 2147483647) as Hne.
  { intros r [q Hq]. split; intros ->.
    - assert ((2147483647 | 16807 * seed)) as Hdiv by (exists q; lia). apply Z.gauss in Hdiv; [|reflexivity]. destruct Hdiv as [z Hz]. nia.
    - assert ((2147483647 | 16807 * seed)) as Hdiv by (exists (q + 1); lia). apply Z.gauss in Hdiv; [|reflexivity]. destruct Hdiv as [z Hz]. nia. }
  destruct (Z.ltb_spec 2147483647 (a + b)).
  - rewrite (wrap_small 32) by lia. assert (exists q, seed * 16807 = q * 2147483647 + (a + b - 2147483647)) as Hq by (exists (a + 1); lia).
    split; [|exact Hq]. apply Hne in Hq. lia.
  - assert (exists q, seed * 16807 = q * 2147483647 + (a + b)) as Hq by (exists a; lia). split; [|exact Hq]. apply Hne in Hq. lia.
Qed.

(** After a multiple of 2^21, the next number is not one. *)
Lemma Random_progress seed : seed_ok seed -> seed mod 2 ^ 21 = 0 -> Random_Next seed mod 2 ^ 21 <> 0.
Proof.
  unfold seed_ok. intros Hs Hm.
  assert (forallb (fun k => negb (Random_Next (Z.of_nat k * 2 ^ 21) mod 2 ^ 21 =? 0)) (seq 1 1023) = true) as Hall by (vm_compute; reflexivity).
  assert (seed = Z.of_nat (Z.to_nat (seed / 2 ^ 21)) * 2 ^ 21) as E.
  { rewrite Z2Nat.id by (apply Z.div_pos; lia). pose proof (Z.div_mod seed (2 ^ 21) ltac:(lia)). lia. }
  assert (0 < seed / 2 ^ 21 < 1024) as Hk.
  { split; [|apply Z.div_lt_upper_bound; lia]. apply Z.div_str_pos. split; [lia|]. destruct (Z.le_gt_cases (2 ^ 21) seed); [done|]. rewrite Z.mod_small in Hm by lia. lia. }
  assert (Z.to_nat (seed / 2 ^ 21) ∈ seq 1 1023) as Hin by (apply elem_of_seq; lia).
  rewrite forallb_forall in Hall. apply list_elem_of_In, Hall in Hin. rewrite <- E in Hin. intros Hz. rewrite Hz in Hin. discriminate.
Qed.

Definition sampling_ok (until rnd : Z) : Prop := 0 <= until < 2 ^ 63 /\ seed_ok rnd.

(** The loop ends: two turns add at least one. *)
Lemma sampling_holds n k until rnd samples : 0 <= n < 2 ^ 62 -> sampling_ok until rnd ->
  exists until' rnd' samples', while (sampling_body n k) (until, rnd, samples) = Ret (until', rnd', samples') /\ n <= until' /\ until' < 2 ^ 63 /\
    sampling_ok (until' - n) rnd'.
Proof.
  intros Hn [Hu Hr].
  apply (while_ind (sampling_body n k) (fun st => 0 <= st.1.1 < 2 ^ 63 /\ seed_ok st.1.2)
    (fun st => if st.1.1 <? n then 2 * (n - st.1.1) + (if st.1.2 mod 2 ^ 21 =? 0 then 0 else 1) else 0)
    (fun r => exists until' rnd' samples', r = Ret (until', rnd', samples') /\ n <= until' /\ until' < 2 ^ 63 /\ sampling_ok (until' - n) rnd')).
  - intros [[u r] sm] [Hu' Hr']. cbn [fst snd] in *. unfold sampling_body, RandomCompactionPeriod, Random_Uniform. destruct (Z.ltb_spec u n) as [Hlt|Hge].
    + destruct (Random_Next_mod r Hr') as [Hr2 _]. pose proof (Random_progress r Hr') as Hprog. change (2 * kReadBytesPeriod) with (2 ^ 21) in *.
      pose proof (Z.mod_pos_bound (Random_Next r) (2 ^ 21) ltac:(lia)) as Hb. rewrite wrap_small by lia. cbn [fst snd]. split; [split; [lia|done]|].
      destruct (Z.ltb_spec (u + Random_Next r mod 2 ^ 21) n), (Z.eqb_spec (Random_Next r mod 2 ^ 21) 0), (Z.eqb_spec (r mod 2 ^ 21) 0); lia.
    + exists u, r, sm. split; [done|]. split; [done|]. split; [lia|]. split; [lia|done].
  - done.
  - cbn [fst snd]. destruct (Z.ltb_spec until n), (rnd mod 2 ^ 21 =? 0); lia.
Qed.

(** ** Internal entries and what is alive *)
Record ientry : Type := MkIentry {
  ie_user : bytes;
  ie_seq : SequenceNumber;
  ie_type : ValueType;
  ie_value : bytes;
}.

Definition ie_tag (x : ientry) : Z := tag (ie_seq x) (ie_type x).
Definition ie_entry (x : ientry) : entry := (ikey (ie_user x) (ie_seq x) (ie_type x), ie_value x).

Section db_iter.
Context (uc : Comparator) (valid : bytes -> Prop) `{!ComparatorOk uc valid} (sq : SequenceNumber).
Abbreviation lt := (key_lt uc valid).
Abbreviation ic := (InternalKeyComparator uc).
Implicit Types (xs : list ientry) (uv : list entry) (x y : ientry).

Record ientries_ok xs : Prop := {
  io_sorted : entries_ok ic (ivalid valid) (ie_entry <$> xs);
  io_keys : Forall (fun x => valid (ie_user x) /\ seq_ok (ie_seq x)) xs;
  io_small : Forall (fun x => zlength (ikey (ie_user x) (ie_seq x) (ie_type x)) + zlength (ie_value x) < 2 ^ 62) xs;
  io_short : zlength xs < 2 ^ 63;
}.

(** At [sq], [u] is alive with the value [v]: this is its newest entry. *)
Definition alive xs (u v : bytes) : Prop := exists x, x ∈ xs /\ ie_user x = u /\ ie_type x = kTypeValue /\ ie_value x = v /\ ie_seq x <= sq /\
  forall y, y ∈ xs -> ie_user y = u -> ie_seq y <= sq -> ie_tag y <= ie_tag x.

(** What the user sees. *)
Definition user_view xs uv : Prop := entries_ok uc valid uv /\ forall e, e ∈ uv <-> alive xs e.1 e.2.

(** ** By index *)
Definition visible xs (i : nat) x : Prop := xs !! i = Some x /\ ie_seq x <= sq.
Definition newest xs (i : nat) x : Prop := visible xs i x /\ forall j y, visible xs j y -> ie_user y = ie_user x -> (i <= j)%nat.

Lemma ie_ok xs i x : ientries_ok xs -> xs !! i = Some x -> valid (ie_user x) /\ seq_ok (ie_seq x) /\ 0 <= ie_tag x < 2 ^ 64.
Proof.
  intros Hxs Hi. destruct (Forall_elem _ _ _ (io_keys xs Hxs) (list_elem_of_lookup_2 _ _ _ Hi)) as [Hv Hs]. split; [done|]. split; [done|]. by apply tag_bound.
Qed.

Lemma ie_lt xs i j x y : ientries_ok xs -> xs !! i = Some x -> xs !! j = Some y -> (i < j)%nat ->
  lt (ie_user x) (ie_user y) \/ ie_user x = ie_user y /\ ie_tag y < ie_tag x.
Proof.
  intros Hxs Hi Hj Hij. destruct (ie_ok xs i x Hxs Hi) as (_ & _ & Hx), (ie_ok xs j y Hxs Hj) as (_ & _ & Hy).
  assert (key_lt ic (ivalid valid) (ie_entry x).1 (ie_entry y).1) as Hlt.
  { apply (entries_lt ic (ivalid valid) (ie_entry <$> xs) i j); [apply Hxs|by rewrite list_lookup_fmap, Hi|by rewrite list_lookup_fmap, Hj|done]. }
  by apply ikey_lt_intro in Hlt.
Qed.

Lemma ie_order xs i j x y : ientries_ok xs -> xs !! i = Some x -> xs !! j = Some y -> (i <= j)%nat -> ~ lt (ie_user y) (ie_user x).
Proof.
  intros Hxs Hi Hj Hij Hlt. destruct (decide (i = j)) as [->|Hne].
  - rewrite Hi in Hj. injection Hj as ->. by apply key_lt_irrefl in Hlt.
  - destruct (ie_lt xs i j x y Hxs Hi Hj) as [Hl|[E _]]; [lia|by eapply key_lt_asym|]. rewrite E in Hlt. by apply key_lt_irrefl in Hlt.
Qed.

Lemma alive_newest xs u v : ientries_ok xs -> alive xs u v <-> exists i x, newest xs i x /\ ie_user x = u /\ ie_type x = kTypeValue /\ ie_value x = v.
Proof.
  intros Hxs. split.
  - intros (x & [i Hi]%list_elem_of_lookup_1 & Hu & Ht & Hv & Hs & Hmax). exists i, x. split; [|done]. split; [done|]. intros j y [Hj Hsj] Euser.
    destruct (decide (i <= j)%nat) as [|Hgt]; [done|]. destruct (ie_lt xs j i y x Hxs Hj Hi) as [Hlt|[_ Hlt]]; [lia| |].
    + rewrite Euser in Hlt. by apply key_lt_irrefl in Hlt.
    + assert (ie_tag y <= ie_tag x); [|lia]. apply Hmax; [by eapply list_elem_of_lookup_2|congruence|done].
  - intros (i & x & [[Hi Hs] Hnew] & Hu & Ht & Hv). exists x. split; [by eapply list_elem_of_lookup_2|]. do 4 (split; [done|]).
    intros y [j Hj]%list_elem_of_lookup_1 Euser Hsy. assert (i <= j)%nat as Hij by (apply (Hnew j y); [done|congruence]).
    destruct (decide (i = j)) as [->|]; [rewrite Hi in Hj; injection Hj as ->; lia|].
    destruct (ie_lt xs i j x y Hxs Hi Hj) as [Hlt|[_ Hlt]]; [lia| |lia]. rewrite Hu, <- Euser in Hlt. by apply key_lt_irrefl in Hlt.
Qed.

Lemma view_newest xs uv e : ientries_ok xs -> user_view xs uv -> e ∈ uv ->
  exists i x, newest xs i x /\ ie_user x = e.1 /\ ie_type x = kTypeValue /\ ie_value x = e.2.
Proof. intros Hxs [_ Huv] He. apply Huv in He. by apply alive_newest. Qed.

Lemma newest_view xs uv i x : ientries_ok xs -> user_view xs uv -> newest xs i x -> ie_type x = kTypeValue -> exists n, uv !! n = Some (ie_user x, ie_value x).
Proof. intros Hxs [_ Huv] Hx Ht. apply list_elem_of_lookup_1, Huv. apply alive_newest; [done|]. by exists i, x. Qed.

Lemma newest_unique xs i j x y : newest xs i x -> newest xs j y -> ie_user x = ie_user y -> i = j.
Proof. intros [Hi Hx] [Hj Hy] E. apply Nat.le_antisymm; [by apply (Hx j y)|by apply (Hy i x)]. Qed.

(** ** The state of the iterator *)
Context {I : Type} `{!Iterator I} `{!IteratorOk ic (ivalid valid) I}.
Variables (xs : list ientry) (uv : list entry).
Hypotheses (Hsq : seq_ok sq) (Hxs : ientries_ok xs) (Huv : user_view xs uv).
Implicit Types (d : DBIter I) (U : bytes -> Prop) (q : position).
Abbreviation es := (ie_entry <$> xs).

Record base_at q d : Prop := {
  ba_internal : it_at ic (ivalid valid) es q (internal_iter_ d);
  ba_status : dbiter_status_ d = Status_OK;
  ba_sampling : sampling_ok (bytes_until_read_sampling_ d) (sampling_rnd_ d);
}.

(** The entries before the internal position, and itself, are older or for
    smaller keys; those after it and for smaller keys are not visible. *)
Definition bound q : nat := match q with Some k => S k | None => O end.
Definition before q (u : bytes) : Prop :=
  (forall i x, (i < bound q)%nat -> xs !! i = Some x -> lt (ie_user x) u) /\
  (forall i x, (bound q <= i)%nat -> visible xs i x -> ~ lt (ie_user x) u).

Definition dbiter_at (p : position) d : Prop :=
  exists q, base_at q d /\
    match p with
    | None => dbiter_valid_ d = false
    | Some n => dbiter_valid_ d = true /\ exists e, uv !! n = Some e /\
        match dbiter_direction_ d with
        | kForward => exists k x, q = Some k /\ newest xs k x /\ ie_type x = kTypeValue /\ ie_user x = e.1 /\ ie_value x = e.2
        | kReverse => saved_key_ d = e.1 /\ saved_value_ d = e.2 /\ before q e.1
        end
    end.

Lemma uv_ok : entries_ok uc valid uv.
Proof. apply Huv. Qed.

Lemma xs_valid i x : xs !! i = Some x -> valid (ie_user x).
Proof. intros Hi. by apply (ie_ok xs i x Hxs Hi). Qed.

Lemma es_lookup k e : es !! k = Some e -> exists x, xs !! k = Some x /\ e = ie_entry x.
Proof. rewrite list_lookup_fmap. destruct (xs !! k) as [x|]; [|done]. intros [= <-]. by exists x. Qed.

(** What the internal iterator stands at. *)
Lemma internal_entry k i : it_at ic (ivalid valid) es (Some k) i ->
  exists x, xs !! k = Some x /\ it_key i = Ret (ikey (ie_user x) (ie_seq x) (ie_type x)) /\ it_value i = Ret (ie_value x).
Proof.
  intros Hi. destruct (it_entry_at ic (ivalid valid) _ _ _ Hi) as (e & He & Ek & Ev). apply es_lookup in He as (x & Hx & ->). by exists x.
Qed.

Lemma internal_valid q i : it_at ic (ivalid valid) es q i -> it_Valid i = match q with Some _ => true | None => false end.
Proof. intros Hi. rewrite (it_Valid_at ic (ivalid valid) _ _ _ Hi). by destruct q. Qed.

Lemma ExtractUserKey_ikey u s t : ExtractUserKey (ikey u s t) = Ret u.
Proof. apply ExtractUserKey_app, zlength_fixed64. Qed.

Lemma ParseKey_holds k d x : base_at (Some k) d -> xs !! k = Some x ->
  exists a b l, ParseKey d = Ret (Some (MkParsedInternalKey (ie_user x) (ie_seq x) (ie_type x)), set_sampling a b l d) /\ sampling_ok a b.
Proof.
  intros [Hi Hs Hsm] Hx. destruct (internal_entry k _ Hi) as (x' & Hx' & Ek & Ev). rewrite Hx in Hx'. injection Hx' as <-.
  pose proof (Forall_elem _ _ _ (io_small xs Hxs) (list_elem_of_lookup_2 _ _ _ Hx)) as Hsmall. cbn in Hsmall.
  unfold ParseKey. rewrite Ek, res_bind_ret, Ev, res_bind_ret. unfold size.
  pose proof (zlength_nonneg (ikey (ie_user x) (ie_seq x) (ie_type x))). pose proof (zlength_nonneg (ie_value x)).
  rewrite wrap_small by lia. set (n := zlength (ikey _ _ _) + zlength (ie_value x)) in *.
  destruct (sampling_holds n (ikey (ie_user x) (ie_seq x) (ie_type x)) _ _ (read_samples d) ltac:(lia) Hsm) as (a & b & l & -> & Hle & Hlt & Hok).
  rewrite res_bind_ret, assert_true, res_bind_ret by (by apply Z.leb_le). rewrite ParseInternalKey_ikey, res_bind_ret by (by apply (ie_ok xs k x Hxs Hx)).
  exists (u64 (a - n)), b, l. split; [done|]. rewrite wrap_small by lia. done.
Qed.

Lemma on_internal_at f q q' d : base_at q d -> (exists i, f (internal_iter_ d) = Ret i /\ it_at ic (ivalid valid) es q' i) ->
  exists i, on_internal f d = Ret (set_internal i d) /\ base_at q' (set_internal i d).
Proof. intros [_ Hs Hsm] (i & E & Hi). exists i. unfold on_internal. by rewrite E. Qed.

Lemma Compare_lt_holds a b : valid a -> valid b -> exists z, Compare uc a b = Ret z /\ (z <? 0 = true <-> lt a b) /\ (z <=? 0 = true <-> ~ lt b a).
Proof. intros Ha Hb. destruct (Compare_tests uc valid a b Ha Hb) as (z & E & [Hlt Hle _ _ _]). by exists z. Qed.

(** ** FindNextUserEntry *)

(** From index [k] on, what is to be found satisfies [U]. *)
Record seeking (k : nat) (skipping : bool) (skip : bytes) U : Prop := {
  sk_before : forall i x, (i < k)%nat -> visible xs i x -> ~ U (ie_user x);
  sk_after : forall i x, (k <= i)%nat -> visible xs i x -> U (ie_user x) <-> (skipping = true -> lt skip (ie_user x));
  sk_skip : skipping = true -> valid skip /\ forall i x, (k <= i)%nat -> visible xs i x -> ~ lt (ie_user x) skip;
}.

(** Nothing is left. *)
Lemma sat_none dir U : (forall i x, visible xs i x -> ~ U (ie_user x)) -> sat_pos uc valid dir U uv None.
Proof.
  intros Hno e He Ue. destruct (view_newest xs uv e Hxs Huv He) as (i & x & [Hx _] & Eu & _). rewrite <- Eu in Ue. by apply (Hno i x).
Qed.

Lemma seeking_done k skipping skip U : seeking k skipping skip U -> (length xs <= k)%nat -> sat_pos uc valid kForward U uv None.
Proof. intros Hk Hlen. apply sat_none. intros i x Hx. apply (sk_before _ _ _ _ Hk i x); [|done]. destruct Hx as [Hi _]. apply lookup_lt_Some in Hi. lia. Qed.

(** The entry at [k] is not what is sought. *)
Lemma seeking_next k skipping skip U : seeking k skipping skip U -> (forall x, visible xs k x -> ~ U (ie_user x)) -> seeking (S k) skipping skip U.
Proof.
  intros [Hb Ha Hs] Hk. split.
  - intros i x Hi Hx. destruct (decide (i = k)) as [->|]; [by apply Hk|]. apply (Hb i); [lia|done].
  - intros i x Hi. apply Ha. lia.
  - intros E. destruct (Hs E) as [Hv Hall]. split; [done|]. intros i x Hi. apply Hall. lia.
Qed.

(** The entry at [k] is a deletion: its key is skipped. *)
Lemma seeking_deletion k skipping skip U x : seeking k skipping skip U -> visible xs k x -> ie_type x = kTypeDeletion ->
  seeking (S k) true (ie_user x) (fun key => U key /\ lt (ie_user x) key) /\
  forall e, e ∈ uv -> U e.1 <-> U e.1 /\ lt (ie_user x) e.1.
Proof.
  intros [Hb Ha Hs] Hx Ht. pose proof Hx as [Hk Hxs']. pose proof (xs_valid k x Hk) as Hvx. split; [split|].
  - intros i y Hi Hy [Uy Hlt]. destruct (decide (i = k)) as [->|]; [|apply (Hb i y); [lia|done|done]].
    destruct Hy as [Hy _]. rewrite Hk in Hy. injection Hy as <-. by apply key_lt_irrefl in Hlt.
  - intros i y Hi Hy. split; [by intros [_ ?]|]. intros Hlt. specialize (Hlt eq_refl). split; [|done]. apply (Ha i y); [lia|done|]. intros E.
    destruct (Hs E) as [Hvs Hall]. specialize (Hall k x ltac:(lia) Hx). destruct (entry_eq_dec_lt uc valid skip (ie_user x) Hvs Hvx) as [?|[->|?]]; [by transitivity (ie_user x)|done|done].
  - intros _. split; [done|]. intros i y Hi [Hy _]. apply (ie_order xs k i x y Hxs Hk Hy). lia.
  - intros e He. split; [|by intros [? _]]. intros Ue. split; [done|]. destruct (view_newest xs uv e Hxs Huv He) as (j & y & [Hy Hnew] & Eu & Ety & _). rewrite <- Eu in *.
    destruct (decide (j < k)%nat) as [Hjk|Hjk]; [by destruct (Hb j y Hjk Hy)|]. destruct (decide (j = k)) as [->|Hne].
    + destruct Hy as [Hy _]. rewrite Hk in Hy. injection Hy as <-. congruence.
    + destruct (ie_lt xs k j x y Hxs Hk (proj1 Hy)) as [Hlt|[E _]]; [lia|done|]. specialize (Hnew k x Hx E). lia.
Qed.

(** The entry at [k] is what is sought. *)
Lemma seeking_found k skipping skip U x : seeking k skipping skip U -> visible xs k x -> ie_type x = kTypeValue -> U (ie_user x) ->
  exists n, sat_pos uc valid kForward U uv (Some n) /\ uv !! n = Some (ie_user x, ie_value x) /\ newest xs k x.
Proof.
  intros [Hb Ha Hs] Hx Ht Ux. pose proof Hx as [Hk _].
  assert (newest xs k x) as Hnew.
  { split; [done|]. intros j y Hy Eu. destruct (decide (k <= j)%nat) as [|Hlt]; [done|]. exfalso. apply (Hb j y); [lia|done|]. by rewrite Eu. }
  destruct (newest_view xs uv k x Hxs Huv Hnew Ht) as [n Hn]. exists n. split; [|done]. exists (ie_user x, ie_value x). split; [done|]. split; [done|].
  intros e He Ue. cbn. destruct (view_newest xs uv e Hxs Huv He) as (j & y & [Hy _] & Eu & _). rewrite <- Eu in *. apply (ie_order xs k j x y Hxs Hk (proj1 Hy)).
  destruct (decide (k <= j)%nat) as [|Hlt]; [done|]. exfalso. apply (Hb j y); [lia|done|done].
Qed.

Lemma base_same q d d' : base_at q d -> internal_iter_ d' = internal_iter_ d -> dbiter_status_ d' = dbiter_status_ d ->
  sampling_ok (bytes_until_read_sampling_ d') (sampling_rnd_ d') -> base_at q d'.
Proof. intros [Hi Hs _] E1 E2 Hsm. split; [by rewrite E1|by rewrite E2|done]. Qed.

(** The results of a search for [U]. *)
Definition finds dir U d : Prop := exists p, sat_pos uc valid dir U uv p /\ dbiter_at p d.

Record next_inv U (n : nat) (st : bool * DBIter I) : Prop := {
  nx_index : exists k U', n = (length xs - S k)%nat /\ base_at (Some k) st.2 /\ seeking k st.1 (saved_key_ st.2) U' /\ (forall e, e ∈ uv -> U e.1 <-> U' e.1);
  nx_forward : dbiter_direction_ st.2 = kForward;
}.

(** The end of a turn. *)
Lemma next_advance U U' k skipping d : base_at (Some k) d -> dbiter_direction_ d = kForward -> seeking (S k) skipping (saved_key_ d) U' ->
  (forall e, e ∈ uv -> U e.1 <-> U' e.1) ->
  let r := (let! d := on_internal it_Next d in
            if it_Valid (internal_iter_ d) then Ret (inl (skipping, d)) else Ret (inr (set_valid false (SaveKey [] d)))) in
  (exists d', r = Ret (inr d') /\ finds kForward U d') \/ exists m st, (length xs - S k)%nat = S m /\ r = Ret (inl st) /\ next_inv U m st.
Proof.
  intros Hd Hdir Hk HU. cbn zeta. destruct (on_internal_at it_Next (Some k) (next_pos es k) d Hd) as (i & -> & Hd').
  { destruct (it_Next_at ic (ivalid valid) _ _ _ (ba_internal _ _ Hd)) as (i & E & Hi). by exists i. }
  rewrite res_bind_ret. rewrite (internal_valid _ _ (ba_internal _ _ Hd')). unfold next_pos in *. rewrite length_fmap in *. destruct (decide _) as [Hlt|Hge].
  - right. exists (length xs - S (S k))%nat, (skipping, set_internal i d). split; [lia|]. split; [done|]. split; [|done]. by exists (S k), U'.
  - left. eexists. split; [done|]. exists None. split.
    + eapply sat_pos_ext; [|eapply (seeking_done (S k)); [exact Hk|lia]]. intros e He. symmetry. by apply HU.
    + exists None. split; [|done]. eapply base_same; [exact Hd'|done|done|apply Hd'].
Qed.

Lemma find_next_step U n st : next_inv U n st ->
  (exists d', find_next_body uc sq st = Ret (inr d') /\ finds kForward U d') \/
  exists m st', n = S m /\ find_next_body uc sq st = Ret (inl st') /\ next_inv U m st'.
Proof.
  destruct st as [skipping d]. intros [(k & U' & -> & Hd & Hk & HU) Hdir]. cbn [fst snd] in *. destruct (internal_entry k _ (ba_internal _ _ Hd)) as (x & Hx & _).
  destruct (ParseKey_holds k d x Hd Hx) as (a & b & l & E & Hsm). unfold find_next_body. rewrite E, res_bind_ret. cbn [sequence type user_key].
  assert (base_at (Some k) (set_sampling a b l d)) as Hd1 by (eapply base_same; [exact Hd|done|done|done]).
  assert ((forall y, visible xs k y -> ~ U' (ie_user y)) -> forall sk, sk = skipping ->
    (exists d', (let! d := on_internal it_Next (set_sampling a b l d) in if it_Valid (internal_iter_ d) then Ret (inl (sk, d)) else Ret (inr (set_valid false (SaveKey [] d)))) = Ret (inr d') /\ finds kForward U d') \/
    exists m st', (length xs - S k)%nat = S m /\ (let! d := on_internal it_Next (set_sampling a b l d) in if it_Valid (internal_iter_ d) then Ret (inl (sk, d)) else Ret (inr (set_valid false (SaveKey [] d)))) = Ret (inl st') /\ next_inv U m st') as Hskip.
  { intros Hno sk ->. apply (next_advance U U' k skipping (set_sampling a b l d) Hd1 Hdir); [|done]. by apply (seeking_next k). }
  destruct (Z.leb_spec (ie_seq x) sq) as [Hvis|Hvis].
  - assert (visible xs k x) as Hvx by done. destruct (ie_type x) eqn:Et.
    + rewrite res_bind_ret. destruct (seeking_deletion k skipping _ U' x Hk Hvx Et) as [Hk' HU'].
      apply (next_advance U (fun key => U' key /\ lt (ie_user x) key) k true (SaveKey (ie_user x) (set_sampling a b l d))).
      * eapply base_same; [exact Hd1|done|done|done].
      * done.
      * done.
      * intros e He. etrans; [by apply HU|by apply HU'].
    + assert (skipping = true -> exists z, Compare uc (ie_user x) (saved_key_ d) = Ret z /\ (z <=? 0 = true <-> ~ lt (saved_key_ d) (ie_user x))) as Hcmp.
      { intros Esk. destruct (sk_skip _ _ _ _ Hk Esk) as [Hvs _]. destruct (Compare_lt_holds (ie_user x) (saved_key_ d)) as (z & Ez & _ & Hz); [by eapply xs_valid|done|by exists z]. }
      change (saved_key_ (set_sampling a b l d)) with (saved_key_ d).
      assert (exists hidden, (if skipping then let! z := Compare uc (ie_user x) (saved_key_ d) in Ret (z <=? 0) else Ret false) = Ret hidden /\
        (hidden = true <-> ~ (skipping = true -> lt (saved_key_ d) (ie_user x)))) as (hidden & Eh & Hh).
      { destruct skipping.
        - destruct (Hcmp eq_refl) as (z & Ez & Hz). rewrite Ez, res_bind_ret. eexists. split; [done|]. rewrite Hz. tauto.
        - exists false. split; [done|]. split; [done|]. intros Hf. exfalso. by apply Hf. }
      rewrite Eh, res_bind_ret. pose proof (sk_after _ _ _ _ Hk k x (Nat.le_refl k) Hvx) as Hax. destruct hidden; cbn [negb]; rewrite res_bind_ret.
      * apply Hskip; [|done]. intros y [Hy _]. rewrite Hx in Hy. injection Hy as <-. rewrite Hax. by apply Hh.
      * left. eexists. split; [done|]. destruct (seeking_found k skipping _ U' x Hk Hvx Et) as (n & Hn & He & Hnew).
        { apply Hax. intros Esk. destruct (Hcmp Esk) as (z & Ez & Hz). destruct (z <=? 0) eqn:Ezb.
          - exfalso. assert (false = true); [|done]. apply Hh. intros Hall. by apply Hz in Hall.
          - destruct (sk_skip _ _ _ _ Hk Esk) as [Hvs Hge]. destruct (entry_eq_dec_lt uc valid (saved_key_ d) (ie_user x)) as [?|[Heq|Hlt]]; [done|by eapply xs_valid|done| |].
            + exfalso. assert (false = true); [|done]. apply Hz. rewrite Heq. apply key_lt_irrefl.
            + by destruct (Hge k x (Nat.le_refl k) Hvx). }
        exists (Some n). split.
        -- eapply sat_pos_ext; [|exact Hn]. intros e He'. symmetry. by apply HU.
        -- exists (Some k). split; [eapply base_same; [exact Hd1|done|done|done]|]. split; [done|]. eexists. split; [exact He|]. cbn. rewrite Hdir.
           exists k, x. done.
  - rewrite res_bind_ret. apply Hskip; [|done]. intros y [Hy Hsy]. rewrite Hx in Hy. injection Hy as <-. lia.
Qed.

Lemma FindNextUserEntry_holds U k skipping d : base_at (Some k) d -> dbiter_direction_ d = kForward -> seeking k skipping (saved_key_ d) U ->
  exists d', FindNextUserEntry uc sq skipping d = Ret d' /\ finds kForward U d'.
Proof.
  intros Hd Hdir Hk. unfold FindNextUserEntry. rewrite (internal_valid _ _ (ba_internal _ _ Hd)), Hdir. rewrite bool_decide_true by done. cbn [assert_]. rewrite !res_bind_ret.
  apply (while_rel _ (next_inv U) (finds kForward U) (length xs - S k) (skipping, d)).
  - apply find_next_step.
  - split; [|done]. by exists k, U.
  - pose proof (io_short xs Hxs) as Hlen. unfold zlength in Hlen. lia.
Qed.

(** ** FindPrevUserEntry *)

(** The visible entries before [b] are those that satisfy [U]. *)
Definition upto (b : nat) U : Prop :=
  (forall i x, (i < b)%nat -> visible xs i x -> U (ie_user x)) /\ (forall i x, (b <= i)%nat -> visible xs i x -> ~ U (ie_user x)).

(** The entries from [b'] to [b] were seen; what may be the result was saved. *)
Definition scanned (b b' : nat) (value_type : ValueType) (key value : bytes) : Prop :=
  match value_type with
  | kTypeDeletion => forall j x, (b' <= j < b)%nat -> newest xs j x -> ie_type x <> kTypeValue
  | kTypeValue =>
      exists m x, (b' <= m < b)%nat /\ visible xs m x /\ ie_type x = kTypeValue /\ key = ie_user x /\ value = ie_value x /\
        (forall j y, (b' <= j < m)%nat -> ~ visible xs j y) /\
        (forall j y, (b' <= j < b)%nat -> newest xs j y -> ie_type y = kTypeValue -> j = m)
  end.

Lemma scanned_skip b k vt key value : scanned b (S k) vt key value -> (forall x, ~ visible xs k x) -> scanned b k vt key value.
Proof.
  intros Hs Hno. assert (forall j x, (k <= j)%nat -> visible xs j x -> (S k <= j)%nat) as Hj.
  { intros j x Hle Hx. destruct (decide (j = k)) as [->|]; [by apply Hno in Hx|lia]. }
  destruct vt; cbn in *.
  - intros j x Hjb Hx. apply (Hs j x); [|done]. split; [by apply (Hj j x); [lia|apply Hx]|lia].
  - destruct Hs as (m & x & Hm & Hx & Ht & Ek & Ev & Hbetween & Honly). exists m, x. split; [lia|]. do 4 (split; [done|]). split.
    + intros j y Hjm Hy. apply (Hbetween j y); [|done]. split; [by apply (Hj j y); [lia|]|lia].
    + intros j y Hjb Hy. apply (Honly j y); [|done]. split; [by apply (Hj j y); [lia|apply Hy]|lia].
Qed.

(** A visible entry that does not end the scan replaces what was saved. *)
Lemma scanned_add b k vt key value x : scanned b (S k) vt key value -> (k < b)%nat -> visible xs k x -> (vt = kTypeValue -> ~ lt (ie_user x) key) ->
  scanned b k (ie_type x) (ie_user x) (ie_value x).
Proof.
  intros Hs Hkb Hx Hge. assert (forall j y, (S k <= j < b)%nat -> newest xs j y -> ie_type y <> kTypeValue) as Hno.
  { intros j y Hj Hy Ety. destruct vt; [by apply (Hs j y)|]. destruct Hs as (m & z & Hm & Hz & _ & -> & _ & _ & Honly). specialize (Hge eq_refl).
    rewrite (Honly j y Hj Hy Ety) in Hy. destruct Hy as [Hy Hnew]. pose proof (proj1 Hy) as Hyz. rewrite (proj1 Hz) in Hyz. injection Hyz as <-.
    destruct (ie_lt xs k m x z Hxs (proj1 Hx) (proj1 Hz)) as [Hlt|[E _]]; [lia|done|]. specialize (Hnew k x Hx E). lia. }
  assert (forall j y, (k <= j < b)%nat -> newest xs j y -> ie_type y = kTypeValue -> j = k) as Honly.
  { intros j y Hj Hy Ety. destruct (decide (j = k)) as [|Hne]; [done|]. exfalso. apply (Hno j y); [lia|done|done]. }
  destruct (ie_type x) eqn:Et; cbn.
  - intros j y Hj Hy Ety. pose proof (Honly j y Hj Hy Ety) as ->. destruct Hy as [[Hy _] _]. rewrite (proj1 Hx) in Hy. injection Hy as <-. congruence.
  - exists k, x. split; [lia|]. do 4 (split; [done|]). split; [intros j y ?; lia|exact Honly].
Qed.

(** The scan is over: the entries before [bound q] have smaller keys. *)
Lemma scanned_found b q U key value : upto b U -> (bound q <= b)%nat -> scanned b (bound q) kTypeValue key value ->
  (forall i x, (i < bound q)%nat -> xs !! i = Some x -> lt (ie_user x) key) ->
  exists n, sat_pos uc valid kReverse U uv (Some n) /\ uv !! n = Some (key, value) /\ before q key.
Proof.
  intros [Hin Hout] Hqb (m & x & Hm & Hx & Ht & -> & -> & Hbetween & Honly) Hsmall.
  assert (newest xs m x) as Hnew.
  { split; [done|]. intros j y Hy E. destruct (decide (m <= j)%nat) as [|Hlt]; [done|]. exfalso. destruct (decide (bound q <= j)%nat) as [Hqj|Hqj].
    - apply (Hbetween j y); [lia|done].
    - pose proof (Hsmall j y ltac:(lia) (proj1 Hy)) as Hk. rewrite E in Hk. by apply key_lt_irrefl in Hk. }
  destruct (newest_view xs uv m x Hxs Huv Hnew Ht) as [n Hn]. exists n. split; [|split; [done|split; [done|]]].
  - exists (ie_user x, ie_value x). split; [done|]. split; [apply (Hin m x); [lia|done]|]. intros e He Ue. cbn.
    destruct (view_newest xs uv e Hxs Huv He) as (j & y & Hy & Eu & Ety & _). rewrite <- Eu in *. destruct (decide (b <= j)%nat) as [Hbj|Hbj]; [by destruct (Hout j y Hbj (proj1 Hy))|].
    destruct (decide (bound q <= j)%nat) as [Hqj|Hqj].
    + rewrite (Honly j y) in Hy by (done || lia). destruct Hy as [[Hy _] _]. rewrite (proj1 Hx) in Hy. injection Hy as <-. apply key_lt_irrefl.
    + apply (ie_order xs j m y x Hxs (proj1 (proj1 Hy)) (proj1 Hx)). lia.
  - intros i y Hi Hy. destruct (decide (m <= i)%nat) as [Hmi|Hmi]; [by apply (ie_order xs m i x y Hxs (proj1 Hx) (proj1 Hy))|].
    exfalso. apply (Hbetween i y); [lia|done].
Qed.

Lemma scanned_none b U key value : upto b U -> scanned b 0 kTypeDeletion key value -> sat_pos uc valid kReverse U uv None.
Proof.
  intros [_ Hout] Hs e He Ue. destruct (view_newest xs uv e Hxs Huv He) as (j & y & Hy & Eu & Ety & _). rewrite <- Eu in *.
  destruct (decide (b <= j)%nat) as [Hbj|Hbj]; [by destruct (Hout j y Hbj (proj1 Hy))|]. apply (Hs j y); [lia|done|done].
Qed.

(** What the loop returns. *)
Definition prev_result U (r : ValueType * DBIter I) : Prop :=
  dbiter_direction_ r.2 = kReverse /\ exists q, base_at q r.2 /\
    match r.1 with
    | kTypeDeletion => sat_pos uc valid kReverse U uv None
    | kTypeValue => exists n, sat_pos uc valid kReverse U uv (Some n) /\ uv !! n = Some (saved_key_ r.2, saved_value_ r.2) /\ before q (saved_key_ r.2)
    end.

Record prev_inv b U (n : nat) (st : ValueType * DBIter I) : Prop := {
  pv_index : (n < b)%nat;
  pv_base : base_at (Some n) st.2;
  pv_scanned : scanned b (S n) st.1 (saved_key_ st.2) (saved_value_ st.2);
  pv_reverse : dbiter_direction_ st.2 = kReverse;
}.

Lemma prev_advance b U k vt d : upto b U -> (k < b)%nat -> base_at (Some k) d -> dbiter_direction_ d = kReverse -> scanned b k vt (saved_key_ d) (saved_value_ d) ->
  let r := (let! d := on_internal it_Prev d in Ret (if it_Valid (internal_iter_ d) then inl (vt, d) else inr (vt, d))) in
  (exists rs, r = Ret (inr rs) /\ prev_result U rs) \/ exists m st, k = S m /\ r = Ret (inl st) /\ prev_inv b U m st.
Proof.
  intros Hb Hkb Hd Hdir Hs. cbn zeta. destruct (on_internal_at it_Prev (Some k) (prev_pos k) d Hd) as (i & -> & Hd').
  { destruct (it_Prev_at ic (ivalid valid) _ _ _ (ba_internal _ _ Hd)) as (i & E & Hi). by exists i. }
  rewrite res_bind_ret. rewrite (internal_valid _ _ (ba_internal _ _ Hd')). destruct k as [|k]; cbn [prev_pos] in *.
  - left. eexists. split; [done|]. split; [done|]. exists None. split; [done|]. cbn [fst snd]. destruct vt.
    + by apply (scanned_none b U _ _ Hb Hs).
    + apply (scanned_found b None U _ _ Hb); [cbn; lia|done|]. cbn. intros; lia.
  - right. exists k, (vt, set_internal i d). split; [done|]. split; [done|]. split; cbn [fst snd]; [lia|done|done|done].
Qed.

Lemma find_prev_step b U n st : upto b U -> prev_inv b U n st ->
  (exists r, find_prev_body uc sq st = Ret (inr r) /\ prev_result U r) \/
  exists m st', n = S m /\ find_prev_body uc sq st = Ret (inl st') /\ prev_inv b U m st'.
Proof.
  destruct st as [vt d]. intros Hb [Hnb Hd Hs Hdir]. cbn [fst snd] in *. destruct (internal_entry n _ (ba_internal _ _ Hd)) as (x & Hx & Ek & Ev).
  destruct (ParseKey_holds n d x Hd Hx) as (a & c & l & E & Hsm). unfold find_prev_body. rewrite E, res_bind_ret. cbn [sequence type user_key].
  assert (base_at (Some n) (set_sampling a c l d)) as Hd1 by (eapply base_same; [exact Hd|done|done|done]).
  destruct (Z.leb_spec (ie_seq x) sq) as [Hvis|Hvis].
  - assert (visible xs n x) as Hvx by done.
    assert (exists stop, (if decide (vt = kTypeDeletion) then Ret false
        else let! z := Compare uc (ie_user x) (saved_key_ (set_sampling a c l d)) in Ret (z <? 0)) = Ret stop /\
      if stop : bool then vt = kTypeValue /\ lt (ie_user x) (saved_key_ d) else vt = kTypeValue -> ~ lt (ie_user x) (saved_key_ d)) as (stop & -> & Hstop).
    { destruct vt; cbn [decide]; [by exists false|]. destruct Hs as (m & y & _ & [Hy _] & _ & Esk & _). change (saved_key_ (set_sampling a c l d)) with (saved_key_ d).
      destruct (Compare_lt_holds (ie_user x) (saved_key_ d)) as (z & Ez & Hz & _); [by eapply xs_valid|rewrite Esk; by eapply xs_valid|].
      exists (z <? 0). destruct (decide _); [done|]. rewrite Ez, res_bind_ret. split; [done|]. destruct (z <? 0); [split; [done|by apply Hz]|intros _ Hlt; by apply Hz in Hlt]. }
    rewrite res_bind_ret. destruct stop.
    + destruct Hstop as [-> Hlt]. rewrite res_bind_ret. left. eexists. split; [done|]. split; [done|]. exists (Some n). split; [done|]. cbn [fst snd].
      apply (scanned_found b (Some n) U _ _ Hb); [cbn; lia|done|]. cbn [bound]. intros i y Hi Hy.
      pose proof (ie_order xs i n y x Hxs Hy Hx ltac:(lia)) as Hord. destruct (entry_eq_dec_lt uc valid (ie_user y) (ie_user x)) as [?|[->|?]];
        [by eapply xs_valid|by eapply xs_valid|by transitivity (ie_user x)|done|done].
    + pose proof (scanned_add b n vt _ _ x Hs Hnb Hvx Hstop) as Hs'. destruct (decide (ie_type x = kTypeDeletion)) as [Et|Et].
      * rewrite res_bind_ret. apply (prev_advance b U n (ie_type x) (ClearSavedValue (SaveKey [] (set_sampling a c l d))) Hb Hnb); [|done|].
        -- eapply base_same; [exact Hd1|done|done|done].
        -- rewrite Et in *. exact Hs'.
      * change (internal_iter_ (set_sampling a c l d)) with (internal_iter_ d). rewrite Ev, res_bind_ret, Ek, res_bind_ret, ExtractUserKey_ikey, !res_bind_ret.
        apply (prev_advance b U n (ie_type x) (set_saved (ie_user x) (ie_value x) (set_sampling a c l d)) Hb Hnb); [|done|exact Hs'].
        eapply base_same; [exact Hd1|done|done|done].
  - rewrite res_bind_ret. apply (prev_advance b U n vt (set_sampling a c l d) Hb Hnb Hd1 Hdir). apply scanned_skip; [exact Hs|].
    intros y [Hy Hsy]. rewrite Hx in Hy. injection Hy as <-. lia.
Qed.

Lemma FindPrevUserEntry_holds U q d : base_at q d -> dbiter_direction_ d = kReverse -> upto (bound q) U ->
  exists d', FindPrevUserEntry uc sq d = Ret d' /\ finds kReverse U d'.
Proof.
  intros Hd Hdir Hb. unfold FindPrevUserEntry. rewrite Hdir, bool_decide_true by done. cbn [assert_]. rewrite res_bind_ret, (internal_valid _ _ (ba_internal _ _ Hd)).
  assert (exists r, match q with Some _ => while (find_prev_body uc sq) (kTypeDeletion, d) | None => Ret (kTypeDeletion, d) end = Ret r /\ prev_result U r) as ([vt d'] & E & Hr).
  { destruct q as [k|].
    - apply (while_rel _ (prev_inv (S k) U) (prev_result U) k (kTypeDeletion, d)).
      + intros n st. by apply find_prev_step.
      + split; cbn [fst snd]; [lia|done| |done]. intros j x ?. lia.
      + destruct (internal_entry k _ (ba_internal _ _ Hd)) as (x & Hx & _). apply lookup_lt_Some in Hx. pose proof (io_short xs Hxs) as Hlen. unfold zlength in Hlen. lia.
    - eexists. split; [done|]. split; [done|]. exists None. split; [done|]. cbn [fst]. apply (scanned_none 0 U [] [] Hb). intros j x ?. lia. }
  replace (if match q with Some _ => true | None => false end then while (find_prev_body uc sq) (kTypeDeletion, d) else Ret (kTypeDeletion, d))
    with (Ret (A := ValueType * DBIter I) (vt, d')) by (rewrite <- E; by destruct q).
  rewrite res_bind_ret. eexists. split; [done|]. destruct Hr as (Hdir' & q' & Hd' & Hr). cbn [fst snd] in *. destruct vt.
  - destruct (decide _) as [_|Hne]; [|by destruct Hne]. exists None. split; [done|]. exists q'. split; [|done]. eapply base_same; [exact Hd'|done|done|apply Hd'].
  - destruct (decide _) as [|_]; [done|]. destruct Hr as (n & Hn & He & Hbef). exists (Some n). split; [done|]. exists q'. split; [eapply base_same; [exact Hd'|done|done|apply Hd']|].
    split; [done|]. eexists. split; [exact He|]. cbn. rewrite Hdir'. done.
Qed.

(** ** The operations *)
Lemma first_pos_short (l : list entry) : first_pos l = if decide (0 < length l)%nat then Some O else None.
Proof. by destruct l. Qed.

Lemma bound_last (l : list entry) : bound (last_pos l) = length l.
Proof. by destruct l. Qed.

Lemma finds_at dir U p d : finds dir U d -> sat_pos uc valid dir U uv p -> dbiter_at p d.
Proof. intros (p' & Hp' & Hd) Hp. by rewrite (sat_pos_unique uc valid dir U uv p p' uv_ok Hp Hp'). Qed.

Lemma dbiter_base p d : dbiter_at p d -> exists q, base_at q d.
Proof. intros (q & Hq & _). by exists q. Qed.

(** The end of [Seek] and [SeekToFirst]. *)
Lemma seek_end U q d : base_at q d -> dbiter_direction_ d = kForward ->
  match q with Some k => seeking k false (saved_key_ d) U | None => sat_pos uc valid kForward U uv None end ->
  exists d', (if it_Valid (internal_iter_ d) then FindNextUserEntry uc sq false d else Ret (set_valid false d)) = Ret d' /\ finds kForward U d'.
Proof.
  intros Hd Hdir Hq. rewrite (internal_valid _ _ (ba_internal _ _ Hd)). destruct q as [k|]; [by apply (FindNextUserEntry_holds U k)|].
  eexists. split; [done|]. exists None. split; [done|]. exists None. split; [|done]. eapply base_same; [exact Hd|done|done|apply Hd].
Qed.

Lemma dbiter_SeekToFirst_at p d : dbiter_at p d -> exists d', dbiter_SeekToFirst uc sq d = Ret d' /\ dbiter_at (first_pos uv) d'.
Proof.
  intros [q Hd]%dbiter_base. unfold dbiter_SeekToFirst. set (d1 := ClearSavedValue (set_direction kForward d)).
  assert (base_at q d1) as Hd1 by (eapply base_same; [exact Hd|done|done|apply Hd]).
  destruct (on_internal_at it_SeekToFirst q (first_pos es) d1 Hd1) as (i & -> & Hd2).
  { destruct (it_SeekToFirst_at ic (ivalid valid) _ _ _ (ba_internal _ _ Hd1)) as (i & E & Hi). by exists i. }
  rewrite res_bind_ret. destruct (seek_end (fun _ => True) (first_pos es) (set_internal i d1) Hd2) as (d' & E & Hf).
  - done.
  - rewrite first_pos_short, length_fmap. destruct (decide _) as [|Hge].
    + split; [intros j y ?; lia|intros j y _ _; by split|done].
    + apply sat_none. intros j y [Hj%lookup_lt_Some _]. lia.
  - exists d'. split; [done|]. apply (finds_at kForward (fun _ => True)); [done|]. apply sat_first, uv_ok.
Qed.

Lemma dbiter_SeekToLast_at p d : dbiter_at p d -> exists d', dbiter_SeekToLast uc sq d = Ret d' /\ dbiter_at (last_pos uv) d'.
Proof.
  intros [q Hd]%dbiter_base. unfold dbiter_SeekToLast. set (d1 := ClearSavedValue (set_direction kReverse d)).
  assert (base_at q d1) as Hd1 by (eapply base_same; [exact Hd|done|done|apply Hd]).
  destruct (on_internal_at it_SeekToLast q (last_pos es) d1 Hd1) as (i & -> & Hd2).
  { destruct (it_SeekToLast_at ic (ivalid valid) _ _ _ (ba_internal _ _ Hd1)) as (i & E & Hi). by exists i. }
  rewrite res_bind_ret. destruct (FindPrevUserEntry_holds (fun _ => True) (last_pos es) (set_internal i d1) Hd2) as (d' & E & Hf).
  - done.
  - rewrite bound_last, length_fmap. split; [done|].
    intros j y Hj [Hy _] _. apply lookup_lt_Some in Hy. lia.
  - exists d'. split; [done|]. apply (finds_at kReverse (fun _ => True)); [done|]. apply sat_last, uv_ok.
Qed.

Lemma dbiter_Seek_at p d t : dbiter_at p d -> valid t -> exists d' p', dbiter_Seek uc sq t d = Ret d' /\ seek_pos uc valid uv t p' /\ dbiter_at p' d'.
Proof.
  intros [q Hd]%dbiter_base Ht. unfold dbiter_Seek. set (d1 := SaveKey [] (ClearSavedValue (set_direction kForward d))).
  change (saved_key_ d1) with (@nil Z). rewrite AppendInternalKey_ok, res_bind_ret by done. cbn [app]. set (k := ikey t sq kValueTypeForSeek). set (d2 := SaveKey k d1).
  assert (base_at q d2) as Hd2 by (eapply base_same; [exact Hd|done|done|apply Hd]). change (saved_key_ d2) with k.
  pose proof (tag_bound sq kValueTypeForSeek Hsq) as Htag.
  assert (ivalid valid k) as Hk by (by exists t, (tag sq kValueTypeForSeek)).
  destruct (it_Seek_at ic (ivalid valid) _ _ _ _ (ba_internal _ _ Hd2) Hk) as (i & q' & E & Hq' & Hi).
  destruct (on_internal_at (it_Seek k) q q' d2 Hd2) as (i' & E' & Hd3); [by exists i|]. rewrite E', res_bind_ret.
  destruct (seek_pos_total uc valid uv t) as [p' Hp']; [apply uv_ok|done|].
  assert (forall j x, visible xs j x -> key_lt ic (ivalid valid) (ie_entry x).1 k -> lt (ie_user x) t) as Hbefore.
  { intros j x [Hj Hs] Hlt. destruct (ie_ok xs j x Hxs Hj) as (_ & _ & Hx). apply ikey_lt_intro in Hlt; [|done|done].
    destruct Hlt as [?|[_ Hlt]]; [done|]. exfalso. unfold tag in Hlt. destruct (ie_type x); simpl in Hlt; lia. }
  destruct (seek_end (fun key => ~ lt key t) q' (set_internal i' d2) Hd3) as (d' & Ed & Hf).
  - done.
  - destruct q' as [n|]; cbn in Hq'.
    + destruct Hq' as [Hb (e & He & Hge)]. apply es_lookup in He as (x & Hx & ->). split.
      * intros j y Hj Hy Hn. apply Hn, (Hbefore j y); [done|]. eapply (Forall_elem (fun e : entry => key_lt ic (ivalid valid) e.1 k)); [exact Hb|].
        apply (list_elem_of_lookup_2 _ j). rewrite lookup_take_lt by done. by rewrite list_lookup_fmap, (proj1 Hy).
      * intros j y Hj Hy. split; [done|]. intros _ Hlt. apply Hge. destruct (ie_ok xs n x Hxs Hx) as (_ & _ & Htx).
        apply ikey_lt_intro; [done|done|]. left. pose proof (ie_order xs n j x y Hxs Hx (proj1 Hy) Hj) as Hord.
        destruct (entry_eq_dec_lt uc valid (ie_user x) (ie_user y)) as [?|[->|?]]; [by eapply xs_valid|by eapply xs_valid, (proj1 Hy)|by transitivity (ie_user y)|done|done].
      * done.
    + apply sat_none. intros j y Hy Hn. apply Hn, (Hbefore j y); [done|]. eapply (Forall_elem (fun e : entry => key_lt ic (ivalid valid) e.1 k)); [exact Hq'|].
      apply (list_elem_of_lookup_2 _ j). by rewrite list_lookup_fmap, (proj1 Hy).
  - exists d', p'. split; [done|]. split; [done|]. apply (finds_at kForward (fun key => ~ lt key t)); [done|]. by apply sat_seek; [apply uv_ok|].
Qed.

(** Past the current key, from index [k] on. *)
Lemma seeking_past k u : valid u -> (forall i x, (i < k)%nat -> visible xs i x -> ~ lt u (ie_user x)) ->
  (forall i x, (k <= i)%nat -> visible xs i x -> ~ lt (ie_user x) u) -> seeking k true u (fun key => lt u key).
Proof. intros Hv Hb Ha. split; [done|intros i x Hi Hx; split; [done|auto]|done]. Qed.

Lemma dbiter_Next_at n d : dbiter_at (Some n) d -> exists d', dbiter_Next uc sq d = Ret d' /\ dbiter_at (next_pos uv n) d'.
Proof.
  intros (q & Hd & Hv & e & He & Hdir). unfold dbiter_Next. rewrite Hv. cbn [assert_]. rewrite res_bind_ret.
  pose proof (entries_valid uc valid uv n e uv_ok He) as Hve.
  assert (forall d', finds kForward (fun key => lt e.1 key) d' -> dbiter_at (next_pos uv n) d') as Hend.
  { intros d' Hf. apply (finds_at kForward _ _ _ Hf). by apply sat_next; [apply uv_ok|]. }
  destruct (dbiter_direction_ d) eqn:Edir; (destruct (decide _) as [Hr|Hr]; [|]); try done.
  - destruct Hdir as (k & x & -> & Hnew & Ht & Eu & Ex). pose proof (proj1 (proj1 Hnew)) as Hx.
    destruct (internal_entry k _ (ba_internal _ _ Hd)) as (x' & Hx' & Ek & _). rewrite Hx in Hx'. injection Hx' as <-.
    rewrite Ek, res_bind_ret, ExtractUserKey_ikey, res_bind_ret, Eu.
    destruct (FindNextUserEntry_holds (fun key => lt e.1 key) k true (SaveKey e.1 d)) as (d' & E & Hf).
    + eapply base_same; [exact Hd|done|done|apply Hd].
    + done.
    + change (saved_key_ (SaveKey e.1 d)) with e.1. apply seeking_past; [done| |]; rewrite <- Eu.
      * intros i y Hi [Hy _]. apply (ie_order xs i k y x Hxs Hy Hx). lia.
      * intros i y Hi [Hy _]. by apply (ie_order xs k i x y Hxs Hx Hy).
    + exists d'. split; [done|]. by apply Hend.
  - destruct Hdir as (Esk & Esv & Hbefore). set (d1 := set_direction kForward d).
    assert (base_at q d1) as Hd1 by (eapply base_same; [exact Hd|done|done|apply Hd]).
    assert (exists i, on_internal (if it_Valid (internal_iter_ d1) then it_Next else it_SeekToFirst) d1 = Ret (set_internal i d1) /\
      base_at (if decide (bound q < length xs)%nat then Some (bound q) else None) (set_internal i d1)) as (i & -> & Hd2).
    { apply (on_internal_at _ q); [done|]. rewrite (internal_valid _ _ (ba_internal _ _ Hd1)). destruct q as [k|].
      - destruct (it_Next_at ic (ivalid valid) _ _ _ (ba_internal _ _ Hd1)) as (i & E & Hi). exists i. split; [done|].
        unfold next_pos in Hi. rewrite length_fmap in Hi. exact Hi.
      - destruct (it_SeekToFirst_at ic (ivalid valid) _ _ _ (ba_internal _ _ Hd1)) as (i & E & Hi). exists i. split; [done|].
        rewrite first_pos_short, length_fmap in Hi. exact Hi. }
    rewrite res_bind_ret, (internal_valid _ _ (ba_internal _ _ Hd2)). destruct Hbefore as [Hlow Hhigh].
    assert (seeking (bound q) true (saved_key_ d) (fun key => lt e.1 key)) as Hseek.
    { rewrite Esk. apply seeking_past; [done| |exact Hhigh]. intros j y Hj [Hy _]. apply key_lt_asym. by apply (Hlow j). }
    destruct (decide (bound q < length xs)%nat) as [Hlt|Hge].
    + destruct (FindNextUserEntry_holds (fun key => lt e.1 key) (bound q) true (set_internal i d1) Hd2) as (d' & E & Hf); [done|done|].
      exists d'. split; [done|]. by apply Hend.
    + eexists. split; [done|]. apply Hend. exists None. split; [eapply (seeking_done (bound q)); [exact Hseek|lia]|].
      exists None. split; [|done]. eapply base_same; [exact Hd2|done|done|apply Hd2].
Qed.

(** The scan back to a smaller key. *)
Lemma before_key_holds k d x : base_at (Some k) d -> xs !! k = Some x -> saved_key_ d = ie_user x -> dbiter_direction_ d = kForward ->
  exists at_end i q, while (before_key_body uc) d = Ret (at_end, set_internal i d) /\ base_at q (set_internal i d) /\
    (forall j y, (j < bound q)%nat -> xs !! j = Some y -> lt (ie_user y) (ie_user x)) /\
    (forall j y, (bound q <= j)%nat -> xs !! j = Some y -> ~ lt (ie_user y) (ie_user x)) /\
    at_end = bool_decide (q = None).
Proof.
  intros Hd Hx Esk Hdir.
  destruct (while_rel (before_key_body uc)
    (fun n d' => exists i, d' = set_internal i d /\ base_at (Some n) d' /\ forall j y, (n <= j)%nat -> xs !! j = Some y -> ~ lt (ie_user y) (ie_user x))
    (fun r => exists i q, r = (bool_decide (q = None), set_internal i d) /\ base_at q (set_internal i d) /\
      (forall j y, (j < bound q)%nat -> xs !! j = Some y -> lt (ie_user y) (ie_user x)) /\
      (forall j y, (bound q <= j)%nat -> xs !! j = Some y -> ~ lt (ie_user y) (ie_user x))) k d) as (r & E & i & q & -> & Hres).
  - intros n d' (i & -> & Hd' & Hge). unfold before_key_body.
    destruct (on_internal_at it_Prev (Some n) (prev_pos n) (set_internal i d) Hd') as (i' & -> & Hd2).
    { destruct (it_Prev_at ic (ivalid valid) _ _ _ (ba_internal _ _ Hd')) as (i' & E & Hi). by exists i'. }
    change (set_internal i' (set_internal i d)) with (set_internal i' d) in *. rewrite res_bind_ret, (internal_valid _ _ (ba_internal _ _ Hd2)).
    destruct n as [|n]; cbn [prev_pos negb] in *.
    + left. eexists. split; [done|]. exists i', None. split; [done|]. split; [done|]. split; [intros j y ?; cbn in *; lia|done].
    + destruct (internal_entry n _ (ba_internal _ _ Hd2)) as (y & Hy & Ek & _). rewrite Ek, res_bind_ret, ExtractUserKey_ikey, res_bind_ret.
      change (saved_key_ (set_internal i' d)) with (saved_key_ d). rewrite Esk. destruct (Compare_lt_holds (ie_user y) (ie_user x)) as (z & Ez & Hz & _); [by eapply xs_valid|by eapply xs_valid|].
      rewrite Ez, res_bind_ret. destruct (z <? 0) eqn:Ezb.
      * left. eexists. split; [done|]. exists i', (Some n). split; [done|]. split; [done|]. split; [|exact Hge].
        intros j y' Hj Hy'. cbn in Hj. pose proof (ie_order xs j n y' y Hxs Hy' Hy ltac:(lia)) as Hord. assert (lt (ie_user y) (ie_user x)) as Hlt by by apply Hz.
        destruct (entry_eq_dec_lt uc valid (ie_user y') (ie_user y)) as [?|[->|?]]; [by eapply xs_valid|by eapply xs_valid|by transitivity (ie_user y)|done|done].
      * right. exists n, (set_internal i' d). split; [done|]. split; [done|]. exists i'. split; [done|]. split; [done|]. intros j y' Hj Hy'.
        destruct (decide (j = n)) as [->|Hne]; [|by apply (Hge j y'); [lia|]]. rewrite Hy in Hy'. injection Hy' as <-. intros Hlt%Hz. congruence.
  - exists (internal_iter_ d). split; [by destruct d|]. split; [done|]. intros j y Hj Hy. by apply (ie_order xs k j x y Hxs Hx Hy).
  - apply lookup_lt_Some in Hx. pose proof (io_short xs Hxs) as Hlen. unfold zlength in Hlen. lia.
  - exists (bool_decide (q = None)), i, q. split; [done|]. destruct Hres as (? & ? & ?). done.
Qed.

Lemma dbiter_Prev_at n d : dbiter_at (Some n) d -> exists d', dbiter_Prev uc sq d = Ret d' /\ dbiter_at (prev_pos n) d'.
Proof.
  intros (q & Hd & Hv & e & He & Hdir). unfold dbiter_Prev. rewrite Hv. cbn [assert_]. rewrite res_bind_ret.
  pose proof (entries_valid uc valid uv n e uv_ok He) as Hve.
  assert (forall d', finds kReverse (fun key => lt key e.1) d' -> dbiter_at (prev_pos n) d') as Hend.
  { intros d' Hf. apply (finds_at kReverse _ _ _ Hf). by apply sat_prev; [apply uv_ok|]. }
  destruct (dbiter_direction_ d) eqn:Edir; (destruct (decide _) as [Hr|Hr]; [|]); try done.
  - destruct Hdir as (k & x & -> & Hnew & Ht & Eu & Ex). pose proof (proj1 (proj1 Hnew)) as Hx.
    destruct (internal_entry k _ (ba_internal _ _ Hd)) as (x' & Hx' & Ek & _). rewrite Hx in Hx'. injection Hx' as <-.
    rewrite (internal_valid _ _ (ba_internal _ _ Hd)). cbn [assert_]. rewrite res_bind_ret, Ek, res_bind_ret, ExtractUserKey_ikey, res_bind_ret.
    destruct (before_key_holds k (SaveKey (ie_user x) d) x) as (at_end & i & q & -> & Hd' & Hlow & Hhigh & ->); [|done|done|done|].
    { eapply base_same; [exact Hd|done|done|apply Hd]. }
    rewrite Eu in *. rewrite res_bind_ret. assert (upto (bound q) (fun key => lt key e.1)) as Hupto.
    { split; [intros j y Hj [Hy _]; by apply (Hlow j)|intros j y Hj [Hy _]; by apply (Hhigh j)]. }
    destruct q as [m|]; cbn [bool_decide].
    + rewrite bool_decide_false by done. destruct (FindPrevUserEntry_holds (fun key => lt key e.1) (Some m) (set_direction kReverse (set_internal i (SaveKey e.1 d)))) as (d' & E & Hf); [|done|done|].
      { eapply base_same; [exact Hd'|done|done|apply Hd']. }
      exists d'. split; [done|]. by apply Hend.
    + rewrite bool_decide_true by done. eexists. split; [done|]. apply Hend. exists None. split; [apply sat_none; intros j y [Hy _]; by apply (Hhigh j); [cbn; lia|]|].
      exists None. split; [|done]. eapply base_same; [exact Hd'|done|done|apply Hd'].
  - destruct Hdir as (Esk & Esv & Hlow & Hhigh).
    destruct (FindPrevUserEntry_holds (fun key => lt key e.1) q d Hd Edir) as (d' & E & Hf).
    { split; [intros j y Hj [Hy _]; by apply (Hlow j)|exact Hhigh]. }
    exists d'. split; [done|]. by apply Hend.
Qed.
End db_iter.

Section contract.
Context (uc : Comparator) (valid : bytes -> Prop) `{!ComparatorOk uc valid} (sq : SequenceNumber) (Hsq : seq_ok sq).
Abbreviation lt := (key_lt uc valid).
Abbreviation ic := (InternalKeyComparator uc).
Context {I : Type} `{!Iterator I} `{!IteratorOk ic (ivalid valid) I}.

#[local] Instance DBIter_ok : @IteratorOk uc valid _ (DBIter I) (DBIter_Iterator uc sq).
Proof.
  refine {| it_at es p d := exists xs, ientries_ok uc valid xs /\ user_view uc valid sq xs es /\ dbiter_at uc valid sq xs es p d |}.
  - intros es p d (xs & _ & Huv & _). apply Huv.
  - intros es p d (xs & _ & _ & q & _ & Hp). cbn. unfold dbiter_Valid. destruct p as [n|]; [by destruct Hp as [-> _]|by rewrite Hp].
  - intros es p d (xs & _ & _ & q & Hd & _). cbn. unfold dbiter_status. rewrite (ba_status _ _ _ _ _ Hd). exact (it_status_at ic (ivalid valid) _ _ _ (ba_internal _ _ _ _ _ Hd)).
  - intros es n d (xs & Hxs & _ & q & Hd & Hv & e & He & Hdir). exists e. split; [done|]. cbn. unfold dbiter_key, dbiter_value. rewrite Hv. cbn [assert_].
    rewrite !res_bind_ret. destruct (dbiter_direction_ d); (destruct (decide _) as [Hr|Hr]); try done.
    + destruct Hdir as (k & x & -> & Hnew & _ & <- & <-). destruct (internal_entry uc valid xs k _ (ba_internal _ _ _ _ _ Hd)) as (x' & Hx' & -> & ->).
      rewrite (proj1 (proj1 Hnew)) in Hx'. injection Hx' as <-. rewrite res_bind_ret. by rewrite ExtractUserKey_ikey.
    + by destruct Hdir as (-> & -> & _).
  - intros es p d (xs & Hxs & Huv & Hd). destruct (dbiter_SeekToFirst_at uc valid sq xs es Hxs Huv p d Hd) as (d' & E & Hd'). exists d'. split; [done|]. by exists xs.
  - intros es p d (xs & Hxs & Huv & Hd). destruct (dbiter_SeekToLast_at uc valid sq xs es Hxs Huv p d Hd) as (d' & E & Hd'). exists d'. split; [done|]. by exists xs.
  - intros es p d t (xs & Hxs & Huv & Hd) Ht. destruct (dbiter_Seek_at uc valid sq xs es Hsq Hxs Huv p d t Hd Ht) as (d' & p' & E & Hp' & Hd'). exists d', p'.
    split; [done|]. split; [done|]. by exists xs.
  - intros es n d (xs & Hxs & Huv & Hd). destruct (dbiter_Next_at uc valid sq xs es Hxs Huv n d Hd) as (d' & E & Hd'). exists d'. split; [done|]. by exists xs.
  - intros es n d (xs & Hxs & Huv & Hd). destruct (dbiter_Prev_at uc valid sq xs es Hxs Huv n d Hd) as (d' & E & Hd'). exists d'. split; [done|]. by exists xs.
Defined.

Lemma new_DBIter_at xs uv q i seed : ientries_ok uc valid xs -> user_view uc valid sq xs uv -> it_at ic (ivalid valid) (ie_entry <$> xs) q i ->
  @it_at uc valid _ _ (DBIter_Iterator uc sq) _ uv None (new_DBIter i seed).
Proof.
  intros Hxs Huv Hi. exists xs. split; [done|]. split; [done|]. unfold new_DBIter, RandomCompactionPeriod, Random_Uniform. exists q. split; [|done].
  split; [exact Hi|done|]. cbn. destruct (Random_Next_mod (new_Random seed) (new_Random_ok seed)) as [Hr _]. split; [|exact Hr].
  change (2 * kReadBytesPeriod) with (2 ^ 21). pose proof (Z.mod_pos_bound (Random_Next (new_Random seed)) (2 ^ 21)). lia.
Qed.

(** ** What the user sees, computed *)
Fixpoint user_entries (skip : option bytes) (xs : list ientry) : list entry :=
  match xs with
  | [] => []
  | x :: xs =>
      if (ie_seq x <=? sq) && negb (bool_decide (skip = Some (ie_user x))) then
        match ie_type x with
        | kTypeValue => (ie_user x, ie_value x) :: user_entries (Some (ie_user x)) xs
        | kTypeDeletion => user_entries (Some (ie_user x)) xs
        end
      else user_entries skip xs
  end.

Lemma ientries_ok_tail x xs : ientries_ok uc valid (x :: xs) -> ientries_ok uc valid xs /\ forall y, y ∈ xs -> ~ lt (ie_user y) (ie_user x).
Proof.
  intros Hxs. split.
  - destruct Hxs as [Hs Hk Hsm Hl]. split; [by apply (entries_ok_cons _ _ _ _ Hs)|by inversion Hk|by inversion Hsm|]. rewrite zlength_cons in Hl. lia.
  - intros y [i Hi]%list_elem_of_lookup_1. by apply (ie_order uc valid (x :: xs) 0 (S i) x y Hxs); [| |lia].
Qed.

Lemma newest_tail x xs i y : newest sq (x :: xs) (S i) y <-> newest sq xs i y /\ ~ (ie_seq x <= sq /\ ie_user x = ie_user y).
Proof.
  split.
  - intros [Hy Hnew]. split; [split; [done|]|].
    + intros j z Hz E. specialize (Hnew (S j) z Hz E). lia.
    + intros [Hs E]. assert (S i <= O)%nat; [|lia]. by apply (Hnew O x).
  - intros [[Hy Hnew] Hno]. split; [done|]. intros [|j] z Hz E; [|by apply le_n_S, (Hnew j z)]. exfalso. apply Hno. destruct Hz as [Hz Hs]. injection Hz as <-. done.
Qed.

Lemma newest_head x xs y : newest sq (x :: xs) 0 y <-> y = x /\ ie_seq x <= sq.
Proof.
  split; [intros [[[= <-] Hs] _]; done|]. intros [-> Hs]. split; [done|]. intros; lia.
Qed.

(** [e] is the newest entry for its key, and a value. *)
Definition newest_value (xs : list ientry) (e : entry) : Prop :=
  exists i x, newest sq xs i x /\ ie_type x = kTypeValue /\ e = (ie_user x, ie_value x).

Lemma newest_value_cons x xs e : newest_value (x :: xs) e <->
  (ie_seq x <= sq /\ ie_type x = kTypeValue /\ e = (ie_user x, ie_value x)) \/ newest_value xs e /\ ~ (ie_seq x <= sq /\ ie_user x = e.1).
Proof.
  split.
  - intros ([|i] & y & Hy & Ht & ->); [left; by apply newest_head in Hy as [-> ?]|right]. apply newest_tail in Hy as [Hy Hno]. split; [by exists i, y|done].
  - intros [(Hs & Ht & ->)|[(i & y & Hy & Ht & ->) Hno]]; [exists O, x; split; [by apply newest_head|done]|]. exists (S i), y. split; [by apply newest_tail|done].
Qed.

Lemma user_entries_spec skip xs : ientries_ok uc valid xs -> (forall s, skip = Some s -> valid s /\ forall x, x ∈ xs -> ~ lt (ie_user x) s) ->
  entries_ok uc valid (user_entries skip xs) /\ (forall s, skip = Some s -> forall e, e ∈ user_entries skip xs -> lt s e.1) /\
  forall e, e ∈ user_entries skip xs <-> newest_value xs e /\ skip <> Some e.1.
Proof.
  revert skip. induction xs as [|x xs IH]; intros skip Hxs Hskip.
  - split; [by repeat constructor|]. split; [by intros s _ e ?%not_elem_of_nil|]. intros e. split; [by intros ?%not_elem_of_nil|]. by intros [(i & y & [[Hi _] _] & _) _].
  - destruct (ientries_ok_tail x xs Hxs) as [Hxs' Hge]. pose proof (proj1 (ie_ok uc valid (x :: xs) 0 x Hxs eq_refl)) as Hvx. cbn [user_entries].
    assert (forall s, skip = Some s -> s = ie_user x \/ lt s (ie_user x)) as Hsx.
    { intros s ->. destruct (Hskip s eq_refl) as [Hvs Hall]. specialize (Hall x ltac:(left)). destruct (entry_eq_dec_lt uc valid s (ie_user x) Hvs Hvx) as [?|[?|?]]; auto. done. }
    destruct (Z.leb_spec (ie_seq x) sq) as [Hvis|Hvis]; [destruct (bool_decide_reflect (skip = Some (ie_user x))) as [->|Hne]|]; cbn [andb negb].
    + destruct (IH (Some (ie_user x)) Hxs') as (H1 & H2 & H3); [by intros s [= <-]|]. split; [done|]. split; [done|]. intros e. rewrite H3, newest_value_cons.
      split; [intros [Hn Hs]; split; [right; split; [done|]; intros [_ E]; by rewrite E in Hs|done]|].
      intros [[(_ & _ & ->)|[Hn _]] Hs]; [done|done].
    + destruct (IH (Some (ie_user x)) Hxs') as (H1 & H2 & H3); [by intros s [= <-]|].
      assert (forall e, e ∈ user_entries (Some (ie_user x)) xs <-> newest_value xs e /\ ~ (ie_seq x <= sq /\ ie_user x = e.1)) as H3'.
      { intros e. rewrite H3. split; intros [Hn Hs]; (split; [done|]); [intros [_ E]; by rewrite E in Hs|intros [= E]; by apply Hs]. }
      assert (forall s e, skip = Some s -> e ∈ user_entries (Some (ie_user x)) xs -> lt s e.1) as Hskipped.
      { intros s e Es He. specialize (H2 _ eq_refl e He). destruct (Hsx s Es) as [->|?]; [done|by transitivity (ie_user x)]. }
      assert (forall e, e ∈ user_entries (Some (ie_user x)) xs -> skip <> Some e.1) as Hns.
      { intros e He E. apply (key_lt_irrefl uc valid e.1). by apply (Hskipped e.1 e). }
      destruct (ie_type x) eqn:Et.
      * split; [done|]. split; [by intros s Es e; apply Hskipped|]. intros e. rewrite newest_value_cons, Et. split; [|intros [[(_ & ? & _)|Hn] _]; [done|by apply H3']].
        intros He. split; [right; by apply H3'|by apply Hns].
      * split; [|split].
        -- destruct H1 as [Hs1 Hv1]. split; [|by constructor]. cbn. constructor; [done|]. apply List.Forall_forall. intros k Hk%list_elem_of_In.
           apply list_elem_of_fmap in Hk as (e & -> & He). by apply (H2 _ eq_refl).
        -- intros s Es e [->|He]%elem_of_cons; [|by apply Hskipped]. cbn. destruct (Hsx s Es) as [->|?]; [|done]. by destruct Hne.
        -- intros e. rewrite elem_of_cons, newest_value_cons, Et, H3'. split.
           ++ intros [->|He]; [by split; [left|]|]. split; [by right|]. apply Hns. by apply H3'.
           ++ intros [[(_ & _ & ->)|Hn] _]; [by left|by right].
    + destruct (IH skip Hxs') as (H1 & H2 & H3); [intros s Es; destruct (Hskip s Es) as [Hvs Hall]; split; [done|]; intros y Hy; apply Hall; by right|].
      split; [done|]. split; [done|]. intros e. rewrite H3, newest_value_cons. split; intros [Hn Hs]; (split; [|done]); [right; split; [done|lia]|].
      by destruct Hn as [(? & _)|[? _]]; [lia|].
Qed.

Lemma user_entries_view xs : ientries_ok uc valid xs -> user_view uc valid sq xs (user_entries None xs).
Proof.
  intros Hxs. destruct (user_entries_spec None xs Hxs) as (Hok & _ & Hin); [done|]. split; [done|]. intros e. rewrite Hin, (alive_newest uc valid) by done.
  split; [intros [(i & x & Hx & Ht & ->) _]; by exists i, x|]. intros (i & x & Hx & Eu & Ht & Ev). split; [|done]. exists i, x. split; [done|]. split; [done|]. destruct e. cbn in *. by subst.
Qed.
End contract.

(** C11: Over any iterator that meets the contract of iterators, on entries in the
    order of internal keys, the database iterator behaves, under any sequence of
    calls ([Next] and [Prev] while it is valid), as an iterator over the user
    keys that are alive at its sequence number, with the newest values: deleted
    and overwritten entries, and those written later, are not seen, in both
    directions. *)
Theorem db_iterator uc valid `{!ComparatorOk uc valid} {I : Type} `{!Iterator I} `{!IteratorOk (InternalKeyComparator uc) (ivalid valid) I}
    sq xs q (i : I) seed ops :
  seq_ok sq -> ientries_ok uc valid xs -> it_at (InternalKeyComparator uc) (ivalid valid) (ie_entry <$> xs) q i -> Forall (op_target_ok valid) ops ->
  exists d p, @run_ops _ (DBIter_Iterator uc sq) ops (NewDBIterator i seed) = Ret d /\ user_view uc valid sq xs (user_entries sq None xs) /\
    ops_pos uc valid (user_entries sq None xs) ops None p /\ @shows _ (DBIter_Iterator uc sq) (user_entries sq None xs) p d.
Proof.
  intros Hsq Hxs Hi Hops. pose proof (user_entries_view uc valid sq xs Hxs) as Huv.
  pose proof (new_DBIter_at uc valid sq Hsq xs _ q i seed Hxs Huv Hi) as Hd.
  destruct (@run_ops_at _ uc valid _ (DBIter_Iterator uc sq) (DBIter_ok uc valid sq Hsq) _ _ _ ops Hd Hops) as (d' & p & E & Hp & Hd').
  exists d', p. split; [exact E|]. split; [exact Huv|]. split; [exact Hp|]. by eapply (@it_at_shows _ uc valid).
Qed.

(** Entries in order, under the bytewise order. *)
Fixpoint sorted_ientries (xs : list ientry) : bool :=
  match xs with
  | x :: ((y :: _) as xs') =>
      ((compare (ie_user x) (ie_user y) <? 0) || bool_decide (ie_user x = ie_user y) && (ie_tag y <? ie_tag x)) && sorted_ientries xs'
  | _ => true
  end.

Lemma bytewise_ientries xs : sorted_ientries xs = true -> Forall (fun x => bytes_ok (ie_user x) /\ seq_ok (ie_seq x)) xs ->
  entries_ok (InternalKeyComparator BytewiseComparator) (ivalid bytes_ok) (ie_entry <$> xs).
Proof.
  intros Hs Hk. assert (forall x, bytes_ok (ie_user x) /\ seq_ok (ie_seq x) -> 0 <= ie_tag x < 2 ^ 64) as Htag by (intros x [_ ?]; by apply tag_bound). split.
  - apply sorting.Sorted_StronglySorted; [intros a b c; apply (StrictOrder_Transitive (StrictOrder := key_lt_strict))|].
    induction xs as [|x xs IH]; [constructor|]. inversion Hk as [|? ? Hx Hk']; subst. destruct xs as [|y xs]; [by repeat constructor|].
    cbn [sorted_ientries] in Hs. apply andb_true_iff in Hs as [Hxy Hs]. cbn. constructor; [by apply IH|]. constructor. inversion Hk' as [|? ? Hy _]; subst.
    apply ikey_lt_intro; [by apply Htag|by apply Htag|]. apply orb_true_iff in Hxy as [Hlt|[E Hlt]%andb_true_iff].
    + left. apply Z.ltb_lt in Hlt. pose proof (compare_spec (ie_user x) (ie_user y)) as Hc. apply Z.compare_lt_iff in Hlt. by rewrite Hlt in Hc.
    + right. apply bool_decide_eq_true in E. apply Z.ltb_lt in Hlt. done.
  - rewrite Forall_fmap, Forall_fmap. eapply List.Forall_impl; [|exact Hk]. intros x [Hb Hs']. exists (ie_user x), (ie_tag x). split; [done|]. split; [done|]. by apply Htag.
Qed.

(** Two blocks under a merging iterator; [a] was overwritten, [b] deleted, and
    [d] written after the snapshot. *)
Definition new_ientries : list ientry := [MkIentry [97] 5 kTypeValue [5]; MkIentry [98] 6 kTypeDeletion []; MkIentry [100] 7 kTypeValue [7]].
Definition old_ientries : list ientry := [MkIentry [97] 2 kTypeValue [2]; MkIentry [98] 1 kTypeValue [1]; MkIentry [99] 3 kTypeValue [3]].
Definition all_ientries : list ientry :=
  [MkIentry [97] 5 kTypeValue [5]; MkIentry [97] 2 kTypeValue [2]; MkIentry [98] 6 kTypeDeletion []; MkIentry [98] 1 kTypeValue [1];
   MkIentry [99] 3 kTypeValue [3]; MkIentry [100] 7 kTypeValue [7]].

Lemma ientry_keys_ok xs : forallb (fun x => forallb (fun b => (0 <=? b) && (b <? 256)) (ie_user x) && (0 <=? ie_seq x) && (ie_seq x <=? kMaxSequenceNumber)) xs = true ->
  Forall (fun x => bytes_ok (ie_user x) /\ seq_ok (ie_seq x)) xs.
Proof.
  intros Hx. rewrite forallb_forall in Hx. apply List.Forall_forall. intros x Hin. apply Hx, andb_true_iff in Hin as [[Hb Hs1]%andb_true_iff Hs2].
  split; [by apply bytes_ok_forallb|]. split; [by apply Z.leb_le|by apply Z.leb_le].
Qed.

Lemma db_iterator_witness :
  let ic := InternalKeyComparator BytewiseComparator in
  exists c1 b1 i1 c2 b2 i2 it d, build_block 2 ic (ie_entry <$> new_ientries) = Ret c1 /\ new_Block c1 = Ret b1 /\ NewIterator b1 ic = Ret (inr i1) /\
    build_block 2 ic (ie_entry <$> old_ientries) = Ret c2 /\ new_Block c2 = Ret b2 /\ NewIterator b2 ic = Ret (inr i2) /\
    NewMergingIterator [i1; i2] = Ret it /\ user_entries 6 None all_ientries = [([97], [5]); ([99], [3])] /\
    @run_ops _ (@DBIter_Iterator _ (NewMergingIterator_Iterator ic) BytewiseComparator 6) [OpSeekToLast; OpPrev; OpNext; OpPrev] (NewDBIterator it 17) = Ret d /\
    @it_key _ (@DBIter_Iterator _ (NewMergingIterator_Iterator ic) BytewiseComparator 6) d = Ret [97] /\
    @it_value _ (@DBIter_Iterator _ (NewMergingIterator_Iterator ic) BytewiseComparator 6) d = Ret [5].
Proof.
  intros ic.
  assert (forall xs, sorted_ientries xs = true -> Forall (fun x => bytes_ok (ie_user x) /\ seq_ok (ie_seq x)) xs ->
    Forall (fun e : entry => bytes_ok e.1 /\ bytes_ok e.2) (ie_entry <$> xs) -> entries_bound (ie_entry <$> xs) < 2 ^ 32 ->
    exists contents b i, build_block 2 ic (ie_entry <$> xs) = Ret contents /\ new_Block contents = Ret b /\
      NewIterator b ic = Ret (inr i) /\ it_at ic (ivalid bytes_ok) (ie_entry <$> xs) None i) as Hblock.
  { intros xs Hs Hk Hb Hsz. apply (build_block_at ic (ivalid bytes_ok) 2); [done|by apply bytewise_ientries|exact Hb|exact Hsz]. }
  assert (ientries_ok BytewiseComparator bytes_ok all_ientries) as Hxs.
  { split; [apply bytewise_ientries; [reflexivity|by apply ientry_keys_ok]|by apply ientry_keys_ok|by repeat constructor|reflexivity]. }
  destruct (Hblock new_ientries) as (c1 & b1 & i1 & E1 & E2 & E3 & H1); [reflexivity|by apply ientry_keys_ok|by repeat (constructor; [split; by apply bytes_ok_forallb|])|reflexivity|].
  destruct (Hblock old_ientries) as (c2 & b2 & i2 & E4 & E5 & E6 & H2); [reflexivity|by apply ientry_keys_ok|by repeat (constructor; [split; by apply bytes_ok_forallb|])|reflexivity|].
  destruct (NewMergingIterator_at ic (ivalid bytes_ok) [ie_entry <$> new_ientries; ie_entry <$> old_ientries] [i1; i2] (ie_entry <$> all_ientries)) as (it & q & Eit & Hit).
  - constructor; [by exists None|]. constructor; [by exists None|constructor].
  - apply (io_sorted _ _ _ Hxs).
  - apply NoDup_Permutation; [| |].
    1-2: apply (NoDup_fmap_1 fst), (bool_decide_unpack _); vm_compute; exact I.
    intros x. unfold all_ientries, new_ientries, old_ientries. cbn [concat app fmap list_fmap]. rewrite !elem_of_cons, elem_of_nil.
    repeat match goal with |- context [x = ?e] => generalize (x = e); intros ? end. tauto.
  - destruct (@db_iterator BytewiseComparator bytes_ok _ _ (NewMergingIterator_Iterator ic) _ 6 all_ientries q it 17 [OpSeekToLast; OpPrev; OpNext; OpPrev])
      as (d & p & Erun & _ & Hpos & Hshow); [split; by vm_compute|exact Hxs|exact Hit|by repeat constructor|].
    assert (p = Some 0%nat) as -> by (destruct Hpos as (? & -> & ? & -> & ? & -> & ? & -> & ->); reflexivity).
    destruct Hshow as (_ & _ & e & He & Hkey & Hval). assert (e = ([97], [5])) as -> by (vm_compute in He; congruence).
    exists c1, b1, i1, c2, b2, i2, it, d. repeat (split; [first [exact E1|exact E2|exact E3|exact E4|exact E5|exact E6|exact Eit|exact Erun|exact Hkey|reflexivity]|]). exact Hval.
Defined.
