(* ===== verification/BlockSafety.v ===== *)
(** * LevelDB's blocks on any bytes

    A block may come from a damaged or hostile file.  The iterator never reads
    outside the block, and always returns, as long as the lengths of no entry
    add up to 2^32: [DecodeEntry] adds them in 32 bits. *)
From S2P Require Import Prelude WireFormat LdbBase Coding Comparator Iterator Block BlockBuild.

(** What [DecodeEntry] guarantees. *)
Lemma GetVarint32Ptr_shrinks p v q :
  bytes_ok p -> GetVarint32Ptr p = Some (v, q) -> bytes_ok q /\ zlength q < zlength p /\ 0 <= v < 2 ^ 32.
Proof. intros Hp. rewrite GetVarint32Ptr_spec by done. by apply parsed_ptr_shrinks. Qed.

Lemma DecodeEntry_any p q s n v : bytes_ok p -> zlength p < 2 ^ 32 -> DecodeEntry p = Some (q, s, n, v) ->
  bytes_ok q /\ zlength q < zlength p /\ 0 <= s < 2 ^ 32 /\ 0 <= n < 2 ^ 32 /\ 0 <= v < 2 ^ 32 /\
  (n + v < 2 ^ 32 -> n + v <= zlength q).
Proof.
  intros Hp Hl E. assert (3 <= zlength p) as H3.
  { destruct p as [|a [|b [|d p]]]; try done. rewrite !zlength_cons. pose proof (zlength_nonneg p). lia. }
  rewrite DecodeEntry_spec in E by done. unfold decode_three in E.
  destruct (GetVarint32Ptr p) as [[s1 p1]|] eqn:E1; [|done]. destruct (GetVarint32Ptr_shrinks _ _ _ Hp E1) as (Hp1 & Hl1 & Hs1).
  destruct (GetVarint32Ptr p1) as [[n1 p2]|] eqn:E2; [|done]. destruct (GetVarint32Ptr_shrinks _ _ _ Hp1 E2) as (Hp2 & Hl2 & Hn1).
  destruct (GetVarint32Ptr p2) as [[v1 p3]|] eqn:E3; [|done]. destruct (GetVarint32Ptr_shrinks _ _ _ Hp2 E3) as (Hp3 & Hl3 & Hv1).
  destruct (Z.ltb_spec (u32 (size p3)) (u32 (n1 + v1))) as [|Hge]; [done|]. injection E as <- <- <- <-.
  split_and!; try done; try lia. intros Hnv. pose proof (zlength_nonneg p3). unfold size in Hge.
  rewrite !wrap_small in Hge by lia. lia.
Qed.

(** No entry, wherever decoding starts, has lengths that overflow. *)
Definition entries_fit (b : Block) : Prop :=
  forall p q s n v, DecodeEntry (zdrop p (ztake (restart_offset_ b) (data_ b))) = Some (q, s, n, v) -> n + v < 2 ^ 32.

(** The targets a client searches for. *)
Definition bytes_op (op : iter_op) : Prop := match op with OpSeek t => bytes_ok t | _ => True end.

Section safety.
Variable c : Comparator.
Context `{!ComparatorOk c bytes_ok}.
Variable data : bytes.
Variables restarts num : Z.
Hypothesis Hdata : bytes_ok data.
Hypothesis Hsize : zlength data < 2 ^ 32.
Hypothesis Hnum : 0 < num.
Hypothesis Hrestarts : 0 <= restarts /\ restarts + 4 * num + 4 <= zlength data.
Hypothesis Hfit : forall p q s n v, DecodeEntry (zdrop p (ztake restarts data)) = Some (q, s, n, v) -> n + v < 2 ^ 32.
Implicit Types (i : BlockIter).

Record safe_base i : Prop := {
  sb_comparator : comparator_ i = c;
  sb_data : iter_data i = data;
  sb_restarts : restarts_ i = restarts;
  sb_num : num_restarts_ i = num;
  sb_key : bytes_ok (key_ i);
}.

(** [value_] ends at [e], and [restart_index_] is one. *)
Definition ends_at (e : Z) i : Prop :=
  safe_base i /\ (exists p n, value_ i = Some (p, n) /\ 0 <= p /\ 0 <= n /\ p + n = e) /\ 0 <= restart_index_ i < num.

Definition safe_valid i : Prop :=
  exists e, ends_at e i /\ 0 <= current_ i < e /\ e <= restarts.

Definition safe i : Prop := safe_base i /\ (current_ i < restarts -> safe_valid i).

Lemma base_position cur r i : safe_base i -> safe_base (set_position cur r i).
Proof. by intros []. Qed.

Lemma safe_end i : safe_base i -> safe (set_position (restarts_ i) (num_restarts_ i) i).
Proof. intros Hb. split; [by apply base_position|]. cbn. rewrite (sb_restarts _ Hb). lia. Qed.

Lemma safe_corruption i : safe_base i -> safe (CorruptionError i).
Proof.
  intros [Hc Hd Hr Hn Hk]. split; [split; cbn; try done; constructor|]. cbn. rewrite Hr. lia.
Qed.

Lemma GetRestartPoint_any i z : safe_base i -> 0 <= z < num -> exists o, GetRestartPoint z i = Ret o /\ 0 <= o < 2 ^ 32.
Proof.
  intros Hb Hz. unfold GetRestartPoint. rewrite (sb_num _ Hb), (sb_restarts _ Hb), (sb_data _ Hb).
  rewrite assert_true, res_bind_ret by (apply Z.ltb_lt; lia). unfold DecodeFixed32, size.
  rewrite zlength_zdrop, (proj2 (Z.ltb_ge _ _)) by lia. unfold kLittleEndian. eexists. split; [done|].
  assert (bytes_ok (ztake 4 (zdrop (restarts + z * 4) data))) as Hok by (by apply Forall_take, Forall_drop).
  pose proof (le_val_bound _ Hok) as Hv. rewrite zlength_ztake in Hv; [done|]. rewrite zlength_zdrop; lia.
Qed.

Lemma data_at_any i p n : safe_base i -> 0 <= p -> p + n <= zlength data ->
  exists bs, data_at i p n = Ret bs /\ bytes_ok bs.
Proof.
  intros Hb Hp Hn. unfold data_at, size. rewrite (sb_data _ Hb), (proj2 (Z.leb_le 0 p)), (proj2 (Z.leb_le _ _)) by lia.
  eexists. split; [done|]. by apply Forall_take, Forall_drop.
Qed.

Lemma to_limit_any i p : safe_base i -> 0 <= p ->
  to_limit i p = zdrop p (ztake restarts data) /\ bytes_ok (to_limit i p) /\ zlength (to_limit i p) <= Z.max 0 (restarts - p).
Proof.
  intros Hb Hp. unfold to_limit. rewrite (sb_data _ Hb), (sb_restarts _ Hb). split; [done|].
  split; [by apply Forall_drop, Forall_take|]. unfold zdrop, ztake, zlength. rewrite length_drop, length_take. lia.
Qed.

Lemma restart_index_any i : safe_base i -> 0 <= restart_index_ i < num ->
  exists r, while restart_index_body i = Ret (set_position (current_ i) r i) /\ 0 <= r < num.
Proof.
  intros Hb Hr.
  apply (while_ind _ (fun j => exists r, j = set_position (current_ i) r i /\ 0 <= r < num)
    (fun j => num - restart_index_ j) (fun o => exists r, o = Ret (set_position (current_ i) r i) /\ 0 <= r < num)).
  - intros j (r & -> & Hr'). unfold restart_index_body. cbn [restart_index_ set_position num_restarts_ current_].
    rewrite (sb_num _ Hb), wrap_small by lia. destruct (Z.ltb_spec (r + 1) num) as [Hlt|Hge]; [|by exists r].
    destruct (GetRestartPoint_any (set_position (current_ i) r i) (r + 1)) as (o & -> & _); [by apply base_position|lia|].
    rewrite res_bind_ret. destruct (_ <? _); [|by exists r]. split; [|cbn; lia]. exists (r + 1). split; [done|lia].
  - exists (restart_index_ i). split; [by destruct i|done].
  - lia.
Qed.

(** The step all operations share. *)
Lemma ParseNextKey_any e i : ends_at e i -> e < 2 ^ 32 ->
  exists b i', ParseNextKey i = Ret (b, i') /\ safe i' /\
    (b = true -> exists e', ends_at e' i' /\ e < e' <= restarts).
Proof.
  intros (Hb & (p & n & Hv & Hp & Hn & He) & Hr) He32. unfold ParseNextKey, NextEntryOffset. rewrite Hv. cbn [of_option].
  rewrite res_bind_ret, wrap_small, He, res_bind_ret by lia. set (i0 := set_position _ _ i).
  assert (safe_base i0) as Hb0 by by apply base_position.
  destruct (Z.leb_spec (restarts_ i0) e) as [Hle|Hgt].
  { eexists _, _. split; [done|]. split; [by apply safe_end|done]. }
  rewrite (sb_restarts _ Hb0) in Hgt. destruct (to_limit_any i0 e Hb0) as (El & Hok & Hlen); [lia|].
  destruct (DecodeEntry (to_limit i0 e)) as [[[[q s] ns] vl]|] eqn:Ed.
  2: { eexists _, _. split; [done|]. split; [by apply safe_corruption|done]. }
  destruct (DecodeEntry_any _ _ _ _ _ Hok ltac:(lia) Ed) as (Hq & Hql & Hs & Hns & Hvl & Hsum).
  rewrite El in Ed. specialize (Hsum (Hfit _ _ _ _ _ Ed)).
  destruct (Z.ltb_spec (size (key_ i0)) s) as [Hlt|Hge].
  { eexists _, _. split; [done|]. split; [by apply safe_corruption|done]. }
  rewrite (sb_restarts _ Hb0). unfold size. destruct (data_at_any i0 (restarts - zlength q) ns Hb0) as (delta & -> & Hdelta); [lia..|].
  rewrite res_bind_ret. set (i1 := set_entry _ _ i0).
  assert (safe_base i1) as Hb1.
  { destruct Hb0 as [? ? ? ? Hk]. split; cbn; try done. apply bytes_ok_app. split; [by apply Forall_take|done]. }
  destruct (restart_index_any i1 Hb1 Hr) as (r & -> & Hr'). rewrite res_bind_ret. eexists _, _. split; [done|].
  assert (ends_at (restarts - zlength q + ns + vl) (set_position (current_ i1) r i1)) as Hends.
  { split; [by apply base_position|]. split; [|done]. eexists _, _. split; [done|]. split; [lia|]. split; [lia|done]. }
  assert (e < restarts - zlength q + ns + vl <= restarts) as Hbound by lia.
  split; [|intros _; by eexists]. split; [by apply base_position|]. intros _. eexists. split; [exact Hends|].
  cbn. split; [lia|apply Hbound].
Qed.

Lemma SeekToRestartPoint_any i z : safe_base i -> 0 <= z < num ->
  exists i' e, SeekToRestartPoint z i = Ret i' /\ ends_at e i' /\ 0 <= e < 2 ^ 32.
Proof.
  intros Hb Hz. unfold SeekToRestartPoint. destruct (GetRestartPoint_any i z Hb Hz) as (o & -> & Ho). rewrite res_bind_ret.
  exists (set_entry [] (Some (o, 0)) (set_position (current_ i) z i)), o. split; [done|]. split; [|done].
  split; [destruct Hb; by split; cbn; try done; constructor|]. split; [|done]. exists o, 0. split; [done|lia].
Qed.

(** The loops around [ParseNextKey] move towards the end. *)
Definition to_go i : Z := match value_ i with Some (p, n) => 2 ^ 33 - (p + n) | None => 0 end.

Lemma to_go_ends e i : ends_at e i -> to_go i = 2 ^ 33 - e.
Proof. intros (_ & (p & n & Hv & _ & _ & He) & _). unfold to_go. by rewrite Hv, He. Qed.

Lemma parse_loop body i e :
  ends_at e i -> 0 <= e < 2 ^ 32 ->
  (forall i b i', ParseNextKey i = Ret (b, i') -> safe i' -> (b = true -> exists e', ends_at e' i' /\ e' <= restarts) ->
     body i = Ret (inr i') \/ b = true /\ body i = Ret (inl i')) ->
  exists i', while body i = Ret i' /\ safe i'.
Proof.
  intros Hi He Hbody. apply (while_ind _ (fun j => exists e, ends_at e j /\ 0 <= e < 2 ^ 32) to_go
    (fun r => exists i', r = Ret i' /\ safe i')).
  - intros j (ej & Hj & Hej). destruct (ParseNextKey_any ej j Hj) as (b & j' & E & Hs & Hb); [lia|].
    destruct (Hbody j b j' E Hs) as [->|[-> ->]].
    + intros Htrue. destruct (Hb Htrue) as (e' & He' & Hle). exists e'. split; [done|lia].
    + by exists j'.
    + destruct (Hb eq_refl) as (e' & He' & Hle). split; [exists e'; split; [done|lia]|].
      rewrite (to_go_ends _ _ Hj), (to_go_ends _ _ He'). lia.
  - by exists e.
  - rewrite (to_go_ends _ _ Hi). lia.
Qed.

Lemma parse_until_any bound i e : ends_at e i -> 0 <= e < 2 ^ 32 ->
  exists i', while (parse_until_body bound) i = Ret i' /\ safe i'.
Proof.
  intros Hi He. eapply parse_loop; [done..|]. intros j b j' E _ Hb. unfold parse_until_body. rewrite E, res_bind_ret.
  destruct b; [|by left]. destruct (Hb eq_refl) as (e' & (_ & (p & n & Hv & _) & _) & _). unfold NextEntryOffset. rewrite Hv.
  cbn [of_option]. rewrite !res_bind_ret. destruct (_ <? _); [by right|by left].
Qed.

Lemma seek_linear_any t i e : bytes_ok t -> ends_at e i -> 0 <= e < 2 ^ 32 ->
  exists i', while (seek_linear_body t) i = Ret i' /\ safe i'.
Proof.
  intros Ht Hi He. eapply parse_loop; [done..|]. intros j b j' E [Hb' _] _. unfold seek_linear_body. rewrite E, res_bind_ret.
  destruct b; cbn [negb]; [|by left]. rewrite (sb_comparator _ Hb').
  destruct (Compare_ok (c := c) (key_ j') t (sb_key _ Hb') Ht) as (z & -> & _). rewrite res_bind_ret.
  destruct (_ <=? _); [by left|by right].
Qed.

Lemma seek_search_any t i : bytes_ok t -> safe_base i ->
  exists o, while (seek_search_body t i) (0, num - 1) = Ret o /\ (forall l, o = Some l -> 0 <= l < num).
Proof.
  intros Ht Hb. apply (while_ind _ (fun lr => 0 <= lr.1 < num /\ lr.1 - 1 <= lr.2 < num) (fun lr => lr.2 - lr.1 + 1)
    (fun r => exists o, r = Ret o /\ (forall l, o = Some l -> 0 <= l < num))).
  - intros [l r] [Hl Hlr]. cbn [fst snd] in *. unfold seek_search_body.
    destruct (Z.ltb_spec l r) as [Hlt|Hge]; [|exists (Some l); split; [done|by intros ? [= <-]]].
    rewrite wrap_small by lia. set (mid := (l + r + 1) / 2).
    assert (l < mid <= r) as Hmid by (unfold mid; pose proof (Z.div_mod (l + r + 1) 2); pose proof (Z.mod_pos_bound (l + r + 1) 2); lia).
    destruct (GetRestartPoint_any i mid Hb) as (o & -> & Ho); [lia|]. rewrite res_bind_ret.
    destruct (to_limit_any i o Hb) as (El & Hok & Hlen); [lia|].
    destruct (DecodeEntry (to_limit i o)) as [[[[q s] ns] vl]|] eqn:Ed; [|by exists None].
    destruct (negb (s =? 0)); [by exists None|].
    destruct (DecodeEntry_any _ _ _ _ _ Hok ltac:(lia) Ed) as (Hq & Hql & Hs & Hns & Hvl & Hsum).
    rewrite El in Ed. specialize (Hsum (Hfit _ _ _ _ _ Ed)). rewrite (sb_restarts _ Hb). unfold size.
    pose proof (zlength_nonneg q).
    destruct (data_at_any i (restarts - zlength q) ns Hb) as (key & -> & Hkey); [lia..|]. rewrite res_bind_ret, (sb_comparator _ Hb).
    destruct (Compare_ok (c := c) key t Hkey Ht) as (z & -> & _). rewrite res_bind_ret. destruct (_ <? _); cbn [fst snd]; lia.
  - cbn. lia.
  - cbn. lia.
Qed.

Lemma prev_restart_any original i : safe_base i -> 0 <= restart_index_ i < num ->
  exists found j, while (prev_restart_body original) i = Ret (found, j) /\
    (found = true -> safe_base j /\ 0 <= restart_index_ j < num) /\ (found = false -> safe j).
Proof.
  intros Hb Hr. apply (while_ind _ (fun j => safe_base j /\ 0 <= restart_index_ j < num) restart_index_
    (fun o => exists found j, o = Ret (found, j) /\ (found = true -> safe_base j /\ 0 <= restart_index_ j < num) /\ (found = false -> safe j))).
  - intros j [Hbj Hrj]. unfold prev_restart_body. destruct (GetRestartPoint_any j _ Hbj Hrj) as (o & -> & _). rewrite res_bind_ret.
    destruct (_ <=? _); [|by exists true, j]. destruct (Z.eqb_spec (restart_index_ j) 0) as [|Hne].
    + eexists false, _. split; [done|]. split; [done|]. intros _. by apply safe_end.
    + split; [split; [by apply base_position|cbn; lia]|cbn; lia].
  - done.
  - lia.
Qed.

(** ** The operations *)
Lemma run_op_safe op i : bytes_op op -> safe i -> exists i', run_op op i = Ret i' /\ safe i'.
Proof.
  intros Ht [Hb Hv]. destruct op as [| |t| |]; cbn.
  - unfold block_SeekToFirst. destruct (SeekToRestartPoint_any i 0 Hb) as (i1 & e & -> & H1 & He); [lia|]. rewrite res_bind_ret.
    destruct (ParseNextKey_any e i1 H1) as (b & i2 & -> & Hs & _); [lia|]. by exists i2.
  - unfold block_SeekToLast. rewrite (sb_num _ Hb), wrap_small by lia.
    destruct (SeekToRestartPoint_any i (num - 1) Hb) as (i1 & e & -> & H1 & He); [lia|]. rewrite res_bind_ret. by eapply parse_until_any.
  - cbn in Ht. unfold block_Seek. rewrite (sb_num _ Hb), wrap_small by lia.
    destruct (seek_search_any t i Ht Hb) as ([l|] & -> & Hl); rewrite res_bind_ret; [|eexists; split; [done|by apply safe_corruption]].
    destruct (SeekToRestartPoint_any i l Hb) as (i1 & e & -> & H1 & He); [by apply Hl|]. rewrite res_bind_ret. by eapply seek_linear_any.
  - unfold block_Valid at 1. destruct (Z.ltb_spec (current_ i) (restarts_ i)) as [Hlt|]; [|by exists i].
    rewrite (sb_restarts _ Hb) in Hlt. destruct (Hv Hlt) as (e & He & Hcur & Hle). unfold block_Next, block_Valid.
    rewrite (sb_restarts _ Hb), assert_true, res_bind_ret by by apply Z.ltb_lt.
    destruct (ParseNextKey_any e i He) as (b & i2 & -> & Hs & _); [lia|]. by exists i2.
  - unfold block_Valid at 1. destruct (Z.ltb_spec (current_ i) (restarts_ i)) as [Hlt|]; [|by exists i].
    rewrite (sb_restarts _ Hb) in Hlt. destruct (Hv Hlt) as (e & He & Hcur & Hle). unfold block_Prev, block_Valid.
    rewrite (sb_restarts _ Hb), assert_true, res_bind_ret by by apply Z.ltb_lt.
    destruct (prev_restart_any (current_ i) i Hb) as (found & j & -> & Ht' & Hf); [apply He|]. rewrite res_bind_ret.
    destruct found; cbn [negb]; [|exists j; split; [done|by apply Hf]]. destruct (Ht' eq_refl) as [Hbj Hrj].
    destruct (SeekToRestartPoint_any j _ Hbj Hrj) as (i1 & e1 & -> & H1 & He1). rewrite res_bind_ret. by eapply parse_until_any.
Qed.

Lemma safe_entry i : safe i -> block_Valid i = true -> exists k v, block_key i = Ret k /\ block_value i = Ret v.
Proof.
  intros [Hb Hv] Hval. unfold block_key, block_value. rewrite Hval. cbn [assert_]. rewrite !res_bind_ret.
  unfold block_Valid in Hval. apply Z.ltb_lt in Hval. rewrite (sb_restarts _ Hb) in Hval.
  destruct (Hv Hval) as (e & (_ & (p & n & -> & Hp & Hn & He) & _) & _ & Hle). cbn [of_option]. rewrite res_bind_ret.
  destruct (data_at_any i p n Hb Hp) as (v & -> & _); [lia|]. by eexists _, _.
Qed.
End safety.

(** C23: Any bytes below 4 GB can be opened as a block, and when the lengths of no
    entry overflow 32 bits ([entries_fit]), a client may call the operations of
    the iterator in any order, [Next] and [Prev] as long as it is valid: they
    return, without reading outside the block, and a valid iterator has a key
    and a value. *)
Theorem block_iter_safe c `{!ComparatorOk c bytes_ok} contents :
  bytes_ok contents -> zlength contents < 2 ^ 32 ->
  exists b i, new_Block contents = Ret b /\ NewIterator b c = Ret i /\
    (entries_fit b -> forall ops, Forall bytes_op ops ->
      exists i', run_ops ops i = Ret i' /\
        (it_Valid i' = true -> exists k v, it_key i' = Ret k /\ it_value i' = Ret v)).
Proof.
  intros Hok Hlen. pose proof (zlength_nonneg contents).
  assert (forall e : EmptyIterator, (forall ops, Forall bytes_op ops ->
    exists i', run_ops ops (inl e : EmptyIterator + BlockIter) = Ret i' /\
      (it_Valid i' = true -> exists k v, it_key i' = Ret k /\ it_value i' = Ret v))) as Hempty.
  { intros e ops Hops. destruct (run_ops_inv (fun i : EmptyIterator + BlockIter => i = inl e) bytes_op ops (inl e)) as (i' & E & ->); [|done|done|].
    - intros op i _ ->. by destruct op; eexists.
    - by exists (inl e). }
  unfold new_Block. cbn [size_ data_]. unfold size. destruct (Z.ltb_spec (zlength contents) 4) as [|H4].
  { eexists _, _. split; [done|]. split; [done|]. intros _. apply Hempty. }
  assert (forall ro, exists n, NumRestarts (MkBlock contents (zlength contents) ro) = Ret n /\ 0 <= n < 2 ^ 32) as Hn.
  { intros ro. unfold NumRestarts. cbn [size_ data_]. rewrite assert_true, res_bind_ret by by apply Z.leb_le.
    unfold DecodeFixed32, size. rewrite zlength_zdrop, (proj2 (Z.ltb_ge _ _)) by lia. eexists. split; [done|].
    assert (bytes_ok (ztake 4 (zdrop (zlength contents - 4) contents))) as Hb by by apply Forall_take, Forall_drop.
    pose proof (le_val_bound _ Hb) as Hv. rewrite zlength_ztake in Hv; [done|]. rewrite zlength_zdrop; lia. }
  destruct (Hn 0) as (n & En & Hn32). rewrite En, res_bind_ret.
  destruct (Z.ltb_spec ((zlength contents - 4) / 4) n) as [|Hmax].
  { eexists _, _. split; [done|]. split; [done|]. intros _. apply Hempty. }
  assert (4 * n + 4 <= zlength contents) as Hfits by (pose proof (Z.mul_div_le (zlength contents - 4) 4); lia).
  rewrite (wrap_small 32 (1 + n)), (wrap_small 64), (wrap_small 32) by lia.
  exists (MkBlock contents (zlength contents) (zlength contents - (1 + n) * 4)). unfold NewIterator. cbn [size_ data_ restart_offset_]. rewrite (proj2 (Z.ltb_ge _ _)) by lia.
  unfold NumRestarts in *. cbn [size_ data_] in *. rewrite En, res_bind_ret.
  destruct (Z.eqb_spec n 0) as [->|Hne].
  { eexists. split; [done|]. split; [done|]. intros _. apply Hempty. }
  unfold new_BlockIter. rewrite assert_true, !res_bind_ret by (apply Z.ltb_lt; lia).
  eexists. split; [done|]. split; [done|]. intros Hfit ops Hops. unfold entries_fit in Hfit. cbn [restart_offset_ data_] in Hfit.
  set (R := zlength contents - (1 + n) * 4) in *.
  assert (0 <= R /\ R + 4 * n + 4 <= zlength contents) as HR by lia. assert (0 < n) as Hn0 by lia.
  destruct (run_ops_inv (fun i : EmptyIterator + BlockIter => exists j, i = inr j /\ safe c contents R n j) bytes_op ops
    (inr (MkBlockIter c contents R n R n [] None Status_OK))) as (i' & E & j & -> & Hj).
  - intros op i Ht (j & -> & Hj). destruct (run_op_safe c contents R n Hok Hlen Hn0 HR Hfit op j Ht Hj) as (j' & Ej & Hj').
    exists (inr j'). split; [|by exists j']. by rewrite run_op_inr, Ej.
  - done.
  - eexists. split; [done|]. split; [by split; [..|constructor]|]. cbn. lia.
  - exists (inr j). split; [done|]. by apply (safe_entry c contents R n).
Qed.

(** A block of garbage. *)
Lemma block_iter_safe_witness :
  exists b i i', new_Block [0; 2; 1; 5; 5; 9; 3; 1; 1; 7; 0; 0; 0; 0; 1; 0; 0; 0] = Ret b /\
    NewIterator b BytewiseComparator = Ret i /\ run_ops [OpSeek [5; 6]; OpPrev; OpSeekToLast; OpNext] i = Ret i'.
Proof.
  destruct (block_iter_safe BytewiseComparator [0; 2; 1; 5; 5; 9; 3; 1; 1; 7; 0; 0; 0; 0; 1; 0; 0; 0]) as (b & i & E1 & E2 & Hsafe).
  - by apply bytes_ok_forallb.
  - done.
  - destruct Hsafe with (ops := [OpSeek [5; 6]; OpPrev; OpSeekToLast; OpNext]) as (i' & E3 & _).
    + vm_compute in E1. injection E1 as <-. intros p q s n v. cbn [restart_offset_ data_]. unfold zdrop.
      generalize (Z.to_nat p). intros k. intros E. do 11 (destruct k as [|k]; [vm_compute in E; first [discriminate E|injection E as <- <- <- <-; lia]|]).
      rewrite drop_ge in E by (apply Nat.le_trans with 11%nat; [by apply Nat.leb_le|lia]). discriminate E.
    + constructor; [by apply bytes_ok_forallb|by repeat constructor].
    + exists b, i, i'. split; [exact E1|]. split; [exact E2|exact E3].
Defined.

(** The check of [DecodeEntry] adds the lengths in 32 bits: in this block of 15
    bytes the first entry has a key of 2^32 - 1 bytes and a value of one byte,
    whose sum is 0, so the check passes and the iterator copies the key from
    beyond the end of the block. *)
Example block_entry_overflow :
  exists b i, new_Block [0; 0xff; 0xff; 0xff; 0xff; 0x0f; 1; 0; 0; 0; 0; 1; 0; 0; 0] = Ret b /\
    NewIterator b BytewiseComparator = Ret (inr i) /\ it_SeekToFirst i = UB.
Proof. eexists _, _. split; [vm_compute; reflexivity|]. split; [vm_compute; reflexivity|]. vm_compute. reflexivity. Qed.
