(* ===== verification/TwoLevel.v ===== *)
(** * LevelDB: two-level iterators (two_level_iterator.cc)

    [block_function] turns an index value into an iterator; [arg_] is the
    state behind its [void*] argument, which it may change (a block cache).
    [ReadOptions] are part of the function. *)
From S2P Require Import Prelude LdbBase Comparator Iterator.

Record TwoLevelIterator (I J S : Type) : Type := MkTwoLevelIterator {
  arg_ : S;
  two_status : Status;
  index_iter_ : IteratorWrapper I;
  data_iter_ : IteratorWrapper J;
  data_block_handle_ : bytes;
}.
Arguments MkTwoLevelIterator {I J S}.
Arguments arg_ {I J S}.
Arguments two_status {I J S}.
Arguments index_iter_ {I J S}.
Arguments data_iter_ {I J S}.
Arguments data_block_handle_ {I J S}.

Section two_level.
Context {I J S : Type} `{Iterator I} `{Iterator J}.
Variable block_function : bytes -> S -> res (J * S).
Implicit Types (t : TwoLevelIterator I J S).

Definition new_TwoLevelIterator (index_iter : I) (arg : S) : res (TwoLevelIterator I J S) :=
  let! index := new_wrapper (Some index_iter) in
  Ret (MkTwoLevelIterator arg Status_OK index wrapper_null []).

Definition set_index (w : IteratorWrapper I) t : TwoLevelIterator I J S :=
  MkTwoLevelIterator (arg_ t) (two_status t) w (data_iter_ t) (data_block_handle_ t).
Definition set_data (w : IteratorWrapper J) t : TwoLevelIterator I J S :=
  MkTwoLevelIterator (arg_ t) (two_status t) (index_iter_ t) w (data_block_handle_ t).

Definition two_Valid t : bool := it_Valid (data_iter_ t).
Definition two_key t : res bytes := let! _ := assert_ (two_Valid t) in it_key (data_iter_ t).
Definition two_value t : res bytes := let! _ := assert_ (two_Valid t) in it_value (data_iter_ t).

Definition get_status t : res Status :=
  let! s := it_status (index_iter_ t) in
  if negb (ok s) then Ret s
  else
    match iter_ (data_iter_ t) with
    | Some _ => let! s := it_status (data_iter_ t) in Ret (if negb (ok s) then s else two_status t)
    | None => Ret (two_status t)
    end.

Definition SaveError (s : Status) t : TwoLevelIterator I J S :=
  if ok (two_status t) && negb (ok s) then
    MkTwoLevelIterator (arg_ t) s (index_iter_ t) (data_iter_ t) (data_block_handle_ t)
  else t.

Definition SetDataIterator (data_iter : option J) t : res (TwoLevelIterator I J S) :=
  let! t := match iter_ (data_iter_ t) with
            | Some _ => let! s := it_status (data_iter_ t) in Ret (SaveError s t)
            | None => Ret t
            end in
  let! w := wrapper_Set (data_iter_ t) data_iter in
  Ret (set_data w t).

Definition load_block (handle : bytes) t : res (TwoLevelIterator I J S) :=
  let! '(iter, arg) := block_function handle (arg_ t) in
  SetDataIterator (Some iter) (MkTwoLevelIterator arg (two_status t) (index_iter_ t) (data_iter_ t) handle).

Definition InitDataBlock t : res (TwoLevelIterator I J S) :=
  if negb (it_Valid (index_iter_ t)) then SetDataIterator None t
  else
    let! handle := it_value (index_iter_ t) in
    match iter_ (data_iter_ t) with
    | Some _ => if compare handle (data_block_handle_ t) =? 0 then Ret t else load_block handle t
    | None => load_block handle t
    end.

(** [if (data_iter_.iter() != nullptr) data_iter_.f();] *)
Definition if_data (f : IteratorWrapper J -> res (IteratorWrapper J)) t : res (TwoLevelIterator I J S) :=
  match iter_ (data_iter_ t) with
  | Some _ => let! w := f (data_iter_ t) in Ret (set_data w t)
  | None => Ret t
  end.

Definition no_data t : bool :=
  match iter_ (data_iter_ t) with Some _ => negb (it_Valid (data_iter_ t)) | None => true end.

(** The bodies of the loops over empty blocks. *)
Definition skip_body (step : IteratorWrapper I -> res (IteratorWrapper I))
    (start : IteratorWrapper J -> res (IteratorWrapper J)) t
  : res (TwoLevelIterator I J S + TwoLevelIterator I J S) :=
  if no_data t then
    if negb (it_Valid (index_iter_ t)) then let! t := SetDataIterator None t in Ret (inr t)
    else
      let! w := step (index_iter_ t) in
      let! t := InitDataBlock (set_index w t) in
      let! t := if_data start t in
      Ret (inl t)
  else Ret (inr t).

Definition SkipEmptyDataBlocksForward t : res (TwoLevelIterator I J S) := while (skip_body it_Next it_SeekToFirst) t.
Definition SkipEmptyDataBlocksBackward t : res (TwoLevelIterator I J S) := while (skip_body it_Prev it_SeekToLast) t.

Definition two_Seek (target : bytes) t : res (TwoLevelIterator I J S) :=
  let! w := it_Seek target (index_iter_ t) in
  let! t := InitDataBlock (set_index w t) in
  let! t := if_data (it_Seek target) t in
  SkipEmptyDataBlocksForward t.

Definition two_SeekToFirst t : res (TwoLevelIterator I J S) :=
  let! w := it_SeekToFirst (index_iter_ t) in
  let! t := InitDataBlock (set_index w t) in
  let! t := if_data it_SeekToFirst t in
  SkipEmptyDataBlocksForward t.

Definition two_SeekToLast t : res (TwoLevelIterator I J S) :=
  let! w := it_SeekToLast (index_iter_ t) in
  let! t := InitDataBlock (set_index w t) in
  let! t := if_data it_SeekToLast t in
  SkipEmptyDataBlocksBackward t.

Definition two_Next t : res (TwoLevelIterator I J S) :=
  let! _ := assert_ (two_Valid t) in
  let! w := it_Next (data_iter_ t) in
  SkipEmptyDataBlocksForward (set_data w t).

Definition two_Prev t : res (TwoLevelIterator I J S) :=
  let! _ := assert_ (two_Valid t) in
  let! w := it_Prev (data_iter_ t) in
  SkipEmptyDataBlocksBackward (set_data w t).

#[local] Instance TwoLevelIterator_Iterator : Iterator (TwoLevelIterator I J S) := {|
  it_Valid := two_Valid;
  it_SeekToFirst := two_SeekToFirst;
  it_SeekToLast := two_SeekToLast;
  it_Seek := two_Seek;
  it_Next := two_Next;
  it_Prev := two_Prev;
  it_key := two_key;
  it_value := two_value;
  it_status := get_status;
|}.
End two_level.
