(* ===== verification/TwoLevelFacts.v ===== *)
(** * LevelDB's two-level iterators, proved

    Over an index and blocks that keep the contract of iterators, the two-level
    iterator keeps the contract over the concatenation of the blocks, also
    when blocks are empty. *)
From S2P Require Import Prelude LdbBase Comparator Iterator TwoLevel.

(** ** Concatenated lists *)
Section concat.
Context {A : Type}.
Implicit Types (ls : list (list A)).

Definition start_of ls (i : nat) : nat := length (concat (take i ls)).

Lemma start_of_S ls i l : ls !! i = Some l -> start_of ls (S i) = (start_of ls i + length l)%nat.
Proof.
  intros Hl. unfold start_of. rewrite (take_S_r _ _ _ Hl), concat_app, length_app. cbn. by rewrite app_nil_r.
Qed.

Lemma start_of_split ls i : concat ls = concat (take i ls) ++ concat (drop i ls).
Proof. by rewrite <- concat_app, take_drop. Qed.

Lemma start_of_le ls i : (start_of ls i <= length (concat ls))%nat.
Proof. rewrite (start_of_split ls i), length_app. unfold start_of. lia. Qed.

Lemma start_of_end ls i : (length ls <= i)%nat -> start_of ls i = length (concat ls).
Proof. intros Hi. unfold start_of. by rewrite take_ge. Qed.

Lemma concat_lookup ls i l m : ls !! i = Some l -> (m < length l)%nat -> concat ls !! (start_of ls i + m)%nat = l !! m.
Proof.
  intros Hl Hm. rewrite (start_of_split ls i). unfold start_of. rewrite lookup_app_r by lia.
  replace (length (concat (take i ls)) + m - length (concat (take i ls)))%nat with m by lia.
  rewrite (drop_S _ _ _ Hl). cbn. by rewrite lookup_app_l.
Qed.

Lemma concat_take ls i l m : ls !! i = Some l -> (m <= length l)%nat ->
  take (start_of ls i + m) (concat ls) = concat (take i ls) ++ take m l.
Proof.
  intros Hl Hm. rewrite (start_of_split ls i). unfold start_of. rewrite take_app_add.
  rewrite (drop_S _ _ _ Hl). cbn. by rewrite take_app_le.
Qed.

Lemma elem_of_concat ls a : a ∈ concat ls -> exists i l, ls !! i = Some l /\ a ∈ l.
Proof.
  induction ls as [|l ls IH]; cbn; [by intros ?%not_elem_of_nil|]. intros [Ha|Ha]%elem_of_app; [by exists O, l|].
  destruct (IH Ha) as (i & l' & Hl & Hal). by exists (S i), l'.
Qed.
End concat.

Definition pos_from (n total : nat) : position := if decide (n < total)%nat then Some n else None.

Section two_level.
Context (c : Comparator) (valid : bytes -> Prop) `{!ComparatorOk c valid}.
Context {I J S : Type} `{!Iterator I} `{!IteratorOk c valid I} `{!Iterator J} `{!IteratorOk c valid J}.
Variable block_function : bytes -> S -> res (J * S).
Implicit Types (t : TwoLevelIterator I J S).

(** The index, what its values stand for, and an invariant of [arg_]. *)
Variables (idx : list entry) (block_of : bytes -> list entry) (arg_ok : S -> Prop).
Hypothesis Hblock : forall i e s, idx !! i = Some e -> arg_ok s ->
  exists j s' p, block_function e.2 s = Ret (j, s') /\ arg_ok s' /\ it_at c valid (block_of e.2) p j.
Hypothesis Hlen : zlength idx < 2 ^ 63.

Definition blocks : list (list entry) := (fun e => block_of e.2) <$> idx.
Abbreviation es := (concat blocks).
Abbreviation start := (start_of blocks).

Hypothesis Hes : entries_ok c valid es.
(** A block ends at or before its key, the following blocks start after it. *)
Hypothesis Hsep : forall i e, idx !! i = Some e ->
  Forall (fun a => ~ key_lt c valid e.1 a.1) (block_of e.2) /\
  forall k e', (i < k)%nat -> idx !! k = Some e' -> Forall (fun a => key_lt c valid e.1 a.1) (block_of e'.2).

Lemma blocks_lookup i e : idx !! i = Some e -> blocks !! i = Some (block_of e.2).
Proof. intros He. unfold blocks. by rewrite list_lookup_fmap, He. Qed.

(** ** States *)
Definition no_block t : Prop := iter_ (data_iter_ t) = None /\ valid_ (data_iter_ t) = false.

Definition base (q : position) t : Prop :=
  arg_ok (arg_ t) /\ two_status t = Status_OK /\ it_at c valid idx q (index_iter_ t).

(** The index at [q], the block of that entry at [r]. *)
Definition mid (q r : position) t : Prop :=
  base q t /\
  match q with
  | Some i => exists e, idx !! i = Some e /\ data_block_handle_ t = e.2 /\ it_at c valid (block_of e.2) r (data_iter_ t)
  | None => no_block t
  end.

(** Before [InitDataBlock]: a block of an earlier position may be left. *)
Definition pre (q : position) t : Prop :=
  base q t /\ (no_block t \/ exists p, it_at c valid (block_of (data_block_handle_ t)) p (data_iter_ t)).

Definition two_at (p : position) t : Prop :=
  match p with
  | Some n => exists i m, mid (Some i) (Some m) t /\ n = (start i + m)%nat
  | None => exists q, base q t /\ no_block t
  end.

Lemma mid_pre q r t : mid q r t -> pre q t.
Proof.
  intros [Hb Hq]. split; [done|]. destruct q as [i|]; [|by left]. destruct Hq as (e & _ & Eh & Hd). right. exists r. by rewrite Eh.
Qed.

Lemma two_at_base p t : two_at p t -> exists q, pre q t.
Proof.
  destruct p as [n|]; [intros (i & m & Hm & _); exists (Some i); by eapply mid_pre|]. intros (q & Hb & Hn). exists q. split; [done|by left].
Qed.

Lemma base_index q q' t (w : IteratorWrapper I) : base q t -> it_at c valid idx q' w -> base q' (set_index w t).
Proof. by intros (? & ? & _). Qed.

Lemma pre_index q q' t (w : IteratorWrapper I) : pre q t -> it_at c valid idx q' w -> pre q' (set_index w t).
Proof. intros [Hb Hd] Hw. split; [by eapply base_index|done]. Qed.

(** ** SetDataIterator, InitDataBlock *)
Lemma data_status p es' (w : IteratorWrapper J) : it_at c valid es' p w -> exists j, iter_ w = Some j.
Proof. intros (j & Hj & _). by exists j. Qed.

Lemma SetDataIterator_eq iter t w :
  two_status t = Status_OK -> (no_block t \/ exists es' p, it_at c valid es' p (data_iter_ t)) ->
  wrapper_Set (data_iter_ t) iter = Ret w -> SetDataIterator iter t = Ret (set_data w t).
Proof.
  intros Hs Hd Ew. unfold SetDataIterator. destruct Hd as [[-> _]|(es' & p & Hd)].
  - by rewrite res_bind_ret, Ew.
  - destruct (data_status _ _ _ Hd) as (j & ->). rewrite (it_status_at c valid _ _ _ Hd), !res_bind_ret. unfold SaveError. cbn [ok negb].
    by rewrite andb_false_r, Ew.
Qed.

Lemma SetDataIterator_None q t : pre q t -> exists t', SetDataIterator None t = Ret t' /\ base q t' /\ no_block t'.
Proof.
  intros [(Ha & Hs & Hi) Hd]. eexists. split.
  - apply SetDataIterator_eq; [done| |done]. destruct Hd as [|[p Hd]]; [by left|]. right. by eexists _, p.
  - by split.
Qed.

Lemma load_block_at i e t : pre (Some i) t -> idx !! i = Some e ->
  exists r t', load_block block_function e.2 t = Ret t' /\ mid (Some i) r t'.
Proof.
  intros [(Ha & Hs & Hi) Hd] He. unfold load_block. destruct (Hblock i e _ He Ha) as (j & s' & p & -> & Hs' & Hj). rewrite res_bind_ret.
  destruct (Update_at c valid (block_of e.2) p (data_iter_ t) j Hj) as (w & Ew & Hw). exists p. eexists. split.
  - apply SetDataIterator_eq; [done| |exact Ew]. destruct Hd as [|[p' Hd]]; [by left|]. right. by eexists _, p'.
  - split; [done|]. by exists e.
Qed.

Lemma compare_eq a b : (compare a b =? 0) = bool_decide (a = b).
Proof.
  pose proof (compare_spec a b) as Hc. case_bool_decide as Hab.
  - subst b. apply Z.eqb_eq. destruct (compare a a ?= 0) eqn:E; [by apply Z.compare_eq_iff|by apply bytes_lt_irrefl in Hc..].
  - apply Z.eqb_neq. intros E. rewrite E in Hc. done.
Qed.

Lemma InitDataBlock_at q t : pre q t -> exists r t', InitDataBlock block_function t = Ret t' /\ mid q r t'.
Proof.
  intros Hp. pose proof Hp as [(Ha & Hs & Hi) Hd]. unfold InitDataBlock. rewrite (it_Valid_at c valid _ _ _ Hi).
  destruct q as [i|]; [change (negb (bool_decide (is_Some (Some i)))) with false|change (negb (bool_decide (is_Some None))) with true]; cbn match.
  - destruct (it_entry_at c valid _ _ _ Hi) as (e & He & _ & ->). rewrite res_bind_ret. destruct Hd as [[-> _]|[p Hd]].
    + by apply load_block_at.
    + destruct (data_status _ _ _ Hd) as (j & ->). rewrite compare_eq. case_bool_decide as Eh; [|by apply load_block_at].
      exists p, t. split; [done|]. split; [done|]. exists e. rewrite Eh. split; [done|]. split; [done|exact Hd].
  - destruct (SetDataIterator_None None t Hp) as (t' & E & Hb & Hn). exists None, t'. split; [done|]. by split.
Qed.

(** Then the block is positioned. *)
Lemma if_data_at f q r t (post : list entry -> position -> Prop) :
  mid q r t ->
  (forall es' p (w : IteratorWrapper J), it_at c valid es' p w ->
    exists w' p', f w = Ret w' /\ post es' p' /\ it_at c valid es' p' w') ->
  exists r' t', if_data f t = Ret t' /\ mid q r' t' /\
    (forall i e, q = Some i -> idx !! i = Some e -> post (block_of e.2) r').
Proof.
  intros [Hb Hq] Hf. unfold if_data. destruct q as [i|].
  - destruct Hq as (e & He & Eh & Hd). destruct (data_status _ _ _ Hd) as (j & ->).
    destruct (Hf _ _ _ Hd) as (w' & p' & -> & Hp' & Hw'). rewrite res_bind_ret. exists p', (set_data w' t). split; [done|].
    split; [split; [done|by exists e]|]. intros i' e' [= <-] He'. rewrite He in He'. by injection He' as <-.
  - pose proof Hq as [-> _]. exists None, t. split; [done|]. by split; [split|].
Qed.

Lemma position_block f q t (post : list entry -> position -> Prop) :
  pre q t ->
  (forall es' p (w : IteratorWrapper J), it_at c valid es' p w ->
    exists w' p', f w = Ret w' /\ post es' p' /\ it_at c valid es' p' w') ->
  exists r t', (let! t := InitDataBlock block_function t in if_data f t) = Ret t' /\ mid q r t' /\
    (forall i e, q = Some i -> idx !! i = Some e -> post (block_of e.2) r).
Proof.
  intros Hp Hf. destruct (InitDataBlock_at q t Hp) as (r & t1 & -> & Hm). rewrite res_bind_ret. by eapply if_data_at.
Qed.

(** ** The loops over empty blocks *)
Definition fwd (q r : position) : position :=
  match q, r with
  | Some i, Some m => Some (start i + m)%nat
  | Some i, None => pos_from (start (Datatypes.S i)) (length es)
  | None, _ => None
  end.

Definition bwd (q r : position) : position :=
  match q, r with
  | Some i, Some m => Some (start i + m)%nat
  | Some i, None => prev_pos (start i)
  | None, _ => None
  end.

Lemma length_blocks : length blocks = length idx.
Proof. unfold blocks. by rewrite length_fmap. Qed.

Lemma fwd_next i e q r : idx !! i = Some e -> q = next_pos idx i ->
  (forall k e', q = Some k -> idx !! k = Some e' -> r = first_pos (block_of e'.2)) ->
  fwd q r = pos_from (start (Datatypes.S i)) (length es).
Proof.
  intros He -> Hr. unfold next_pos in *. destruct (decide _) as [Hlt|Hge].
  - destruct (lookup_lt_is_Some_2 idx (Datatypes.S i) Hlt) as [e' He']. rewrite (Hr _ e' eq_refl He').
    pose proof (blocks_lookup _ _ He') as Hb. destruct (block_of e'.2) as [|a l]; cbn [first_pos fwd].
    + rewrite (start_of_S _ _ _ Hb). cbn. by rewrite Nat.add_0_r.
    + rewrite Nat.add_0_r. unfold pos_from. rewrite decide_True; [done|].
      pose proof (start_of_S _ _ _ Hb) as HS. pose proof (start_of_le blocks (Datatypes.S (Datatypes.S i))). cbn in HS. lia.
  - cbn. unfold pos_from. apply lookup_lt_Some in He. rewrite start_of_end by (rewrite length_blocks; lia). by rewrite decide_False by lia.
Qed.

Lemma bwd_prev i e q r : idx !! i = Some e -> q = prev_pos i ->
  (forall k e', q = Some k -> idx !! k = Some e' -> r = last_pos (block_of e'.2)) ->
  bwd q r = prev_pos (start i).
Proof.
  intros He -> Hr. destruct i as [|i]; [done|]. cbn [prev_pos] in *.
  apply lookup_lt_Some in He as Hlt. destruct (lookup_lt_is_Some_2 idx i ltac:(lia)) as [e' He']. rewrite (Hr _ e' eq_refl He').
  pose proof (start_of_S _ _ _ (blocks_lookup _ _ He')) as HS. destruct (block_of e'.2) as [|a l]; cbn [last_pos bwd].
  - cbn in HS. by rewrite HS, Nat.add_0_r.
  - cbn [length] in HS. rewrite HS. replace (start i + Datatypes.S (length l))%nat with (Datatypes.S (start i + length l)) by lia.
    cbn. f_equal; lia.
Qed.

Lemma mid_no_data i r t : mid (Some i) r t -> no_data t = negb (bool_decide (is_Some r)).
Proof.
  intros [_ (e & _ & _ & Hd)]. unfold no_data. destruct (data_status _ _ _ Hd) as (j & ->). by rewrite (it_Valid_at c valid _ _ _ Hd).
Qed.

(** One loop for both directions: [step] moves the index, [begin] enters a
    block, [pos] is where the iterator ends up, [rank] how many blocks are
    left. *)
Lemma skip_loop step begin (next : nat -> position) (ends : list entry -> position) (pos : position -> position -> position)
    (rank : position -> nat) q r t :
  (forall i (w : IteratorWrapper I), it_at c valid idx (Some i) w -> exists w', step w = Ret w' /\ it_at c valid idx (next i) w') ->
  (forall es' p (w : IteratorWrapper J), it_at c valid es' p w -> exists w', begin w = Ret w' /\ it_at c valid es' (ends es') w') ->
  (forall i m, pos (Some i) (Some m) = Some (start i + m)%nat) -> (forall r, pos None r = None) ->
  (forall i e r, idx !! i = Some e -> (forall k e', next i = Some k -> idx !! k = Some e' -> r = ends (block_of e'.2)) ->
     pos (next i) r = pos (Some i) None) ->
  (forall i e, idx !! i = Some e -> (rank (next i) < rank (Some i))%nat) -> (rank q <= length idx)%nat ->
  mid q r t -> exists t', while (skip_body block_function step begin) t = Ret t' /\ two_at (pos q r) t'.
Proof.
  intros Hstep Hbegin Hpos Hnone Hnext Hrank Hq Ht.
  apply (while_rel _ (fun n t' => exists q' r', mid q' r' t' /\ pos q' r' = pos q r /\ (rank q' <= n)%nat) _ (rank q)).
  - clear t Ht. intros n t (q' & r' & Ht & Ep & Hn). unfold skip_body. destruct q' as [i|].
    + rewrite (mid_no_data _ _ _ Ht). pose proof Ht as [(Ha & Hs & Hi) _]. destruct r' as [m|].
      * change (negb (bool_decide (is_Some (Some m)))) with false. cbn match. left. exists t. split; [done|]. rewrite <- Ep, Hpos. by exists i, m.
      * change (negb (bool_decide (is_Some (@None nat)))) with true. cbn match. rewrite (it_Valid_at c valid _ _ _ Hi).
        change (negb (bool_decide (is_Some (Some i)))) with false. cbn match.
        destruct (it_entry_at c valid _ _ _ Hi) as (e & He & _). destruct (Hstep _ _ Hi) as (w & -> & Hw). rewrite res_bind_ret.
        destruct (position_block begin (next i) (set_index w t) (fun es' p => p = ends es')) as (r1 & t1 & E & Ht1 & Hr1).
        { eapply pre_index; [by eapply mid_pre|done]. }
        { intros es' p w' Hw'. destruct (Hbegin es' p w' Hw') as (w2 & E2 & Hw2). by exists w2, (ends es'). }
        right. specialize (Hrank i e He). destruct n as [|n]; [lia|]. exists n, t1. split; [done|].
        destruct (InitDataBlock block_function (set_index w t)) as [t2| |]; try done. cbn in E |- *. rewrite E. cbn. split; [done|].
        exists (next i), r1. split; [done|]. split; [|lia]. rewrite <- Ep. apply (Hnext i e); [done|]. intros k e' Hk He'. by apply (Hr1 k e').
    + pose proof Ht as [(Ha & Hs & Hi) [Hn0 Hv0]]. unfold no_data. rewrite Hn0, (it_Valid_at c valid _ _ _ Hi).
      change (negb (bool_decide (is_Some (@None nat)))) with true. cbn match. left.
      destruct (SetDataIterator_None None t (mid_pre _ _ _ Ht)) as (t' & -> & Hb & Hn'). rewrite res_bind_ret. exists t'. split; [done|].
      rewrite <- Ep, Hnone. by exists None.
  - by exists q, r.
  - unfold zlength in Hlen. lia.
Qed.

Lemma skip_forward q r t : mid q r t ->
  exists t', SkipEmptyDataBlocksForward block_function t = Ret t' /\ two_at (fwd q r) t'.
Proof.
  intros Ht. apply (skip_loop _ _ (next_pos idx) first_pos fwd (fun q => match q with Some i => length idx - i | None => O end)%nat); try done.
  - intros i w Hw. by apply (it_Next_at c valid).
  - intros es' p w Hw. by apply (it_SeekToFirst_at c valid _ p).
  - intros i e r' He Hr. by apply (fwd_next i e).
  - intros i e He. apply lookup_lt_Some in He. unfold next_pos. destruct (decide _); lia.
  - destruct q; lia.
Qed.

Lemma skip_backward q r t : mid q r t ->
  exists t', SkipEmptyDataBlocksBackward block_function t = Ret t' /\ two_at (bwd q r) t'.
Proof.
  intros Ht. apply (skip_loop _ _ prev_pos last_pos bwd (fun q => match q with Some i => Datatypes.S i | None => O end)%nat); try done.
  - intros i w Hw. by apply (it_Prev_at c valid).
  - intros es' p w Hw. by apply (it_SeekToLast_at c valid _ p).
  - intros i e r' He Hr. by apply (bwd_prev i e).
  - intros i e He. destruct i; cbn; lia.
  - destruct q as [i|]; [|lia]. destruct Ht as [_ (e & He & _)]. by apply lookup_lt_Some in He.
Qed.

(** ** The operations *)
Lemma two_entry n t : two_at (Some n) t ->
  exists e, es !! n = Some e /\ it_key (data_iter_ t) = Ret e.1 /\ it_value (data_iter_ t) = Ret e.2 /\ it_Valid (data_iter_ t) = true.
Proof.
  intros (i & m & [_ (e & He & _ & Hd)] & ->). destruct (it_entry_at c valid _ _ _ Hd) as (a & Ha & Hk & Hv). exists a.
  rewrite (concat_lookup _ i (block_of e.2)) by (by apply blocks_lookup || by apply lookup_lt_Some in Ha).
  split; [done|]. split; [done|]. split; [done|]. by rewrite (it_Valid_at c valid _ _ _ Hd).
Qed.

Lemma start_0 : start 0 = O.
Proof. done. Qed.

Lemma two_SeekToFirst_at p t : two_at p t -> exists t', two_SeekToFirst block_function t = Ret t' /\ two_at (first_pos es) t'.
Proof.
  intros Ht. destruct (two_at_base _ _ Ht) as [q Hp]. unfold two_SeekToFirst. pose proof Hp as [(_ & _ & Hi) _].
  destruct (it_SeekToFirst_at c valid _ _ _ Hi) as (w & -> & Hw). rewrite res_bind_ret.
  destruct (position_block it_SeekToFirst (first_pos idx) (set_index w t) (fun es' p => p = first_pos es')) as (r & t1 & E & Ht1 & Hr).
  { by eapply pre_index. }
  { intros es' p' w' Hw'. destruct (it_SeekToFirst_at c valid _ _ _ Hw') as (w2 & E2 & Hw2). by exists w2, (first_pos es'). }
  destruct (InitDataBlock block_function (set_index w t)) as [t2| |]; try done. rewrite res_bind_ret in E |- *. rewrite E, res_bind_ret.
  destruct (skip_forward _ _ _ Ht1) as (t' & E' & Ht'). exists t'. split; [done|].
  assert (fwd (first_pos idx) r = first_pos es) as <-; [|done].
  destruct (decide (idx = [])) as [Hnil|Hne]; [unfold blocks; by rewrite Hnil|].
  assert (first_pos idx = Some O) as Ef by by destruct idx. rewrite Ef in *.
  destruct (lookup_lt_is_Some_2 idx 0) as [e He]; [destruct idx; [done|cbn; lia]|]. rewrite (Hr O e eq_refl He).
  pose proof (blocks_lookup _ _ He) as Hb. destruct (block_of e.2) as [|a l] eqn:Ebl; cbn [first_pos fwd].
  - rewrite (start_of_S _ _ _ Hb), start_0. cbn [length Nat.add]. unfold pos_from, first_pos. by destruct es.
  - rewrite start_0. pose proof (start_of_S _ _ _ Hb) as HS. pose proof (start_of_le blocks 1). cbn in HS. unfold first_pos. destruct es; [cbn in *; lia|done].
Qed.

Lemma two_SeekToLast_at p t : two_at p t -> exists t', two_SeekToLast block_function t = Ret t' /\ two_at (last_pos es) t'.
Proof.
  intros Ht. destruct (two_at_base _ _ Ht) as [q Hp]. unfold two_SeekToLast. pose proof Hp as [(_ & _ & Hi) _].
  destruct (it_SeekToLast_at c valid _ _ _ Hi) as (w & -> & Hw). rewrite res_bind_ret.
  destruct (position_block it_SeekToLast (last_pos idx) (set_index w t) (fun es' p => p = last_pos es')) as (r & t1 & E & Ht1 & Hr).
  { by eapply pre_index. }
  { intros es' p' w' Hw'. destruct (it_SeekToLast_at c valid _ _ _ Hw') as (w2 & E2 & Hw2). by exists w2, (last_pos es'). }
  destruct (InitDataBlock block_function (set_index w t)) as [t2| |]; try done. rewrite res_bind_ret in E |- *. rewrite E, res_bind_ret.
  destruct (skip_backward _ _ _ Ht1) as (t' & E' & Ht'). exists t'. split; [done|].
  assert (bwd (last_pos idx) r = last_pos es) as <-; [|done].
  destruct (decide (idx = [])) as [Hnil|Hne]; [unfold blocks; by rewrite Hnil|].
  assert (0 < length idx)%nat by (destruct idx; [done|cbn; lia]).
  assert (last_pos idx = Some (pred (length idx))) as El by by destruct idx. rewrite El in *.
  destruct (lookup_lt_is_Some_2 idx (pred (length idx))) as [e He]; [lia|]. rewrite (Hr _ e eq_refl He).
  assert (Datatypes.S (pred (length idx)) = length idx) as HS by lia.
  pose proof (start_of_S _ _ _ (blocks_lookup _ _ He)) as Hst. rewrite HS, start_of_end in Hst by (rewrite length_blocks; lia).
  destruct (block_of e.2) as [|a l]; cbn [last_pos bwd].
  - cbn in Hst. rewrite Nat.add_0_r in Hst. rewrite <- Hst. unfold last_pos. by destruct es.
  - cbn [length pred] in *. unfold last_pos. destruct es as [|b k]; [cbn in Hst; lia|]. cbn [length pred] in *. f_equal; lia.
Qed.

Lemma two_Next_at n t : two_at (Some n) t -> exists t', two_Next block_function t = Ret t' /\ two_at (next_pos es n) t'.
Proof.
  intros Ht. destruct (two_entry _ _ Ht) as (a & _ & _ & _ & Hv). unfold two_Next, two_Valid. rewrite Hv. cbn [assert_]. rewrite res_bind_ret.
  destruct Ht as (i & m & [Hb (e & He & Eh & Hd)] & ->). destruct (it_Next_at c valid _ _ _ Hd) as (w & -> & Hw). rewrite res_bind_ret.
  assert (mid (Some i) (next_pos (block_of e.2) m) (set_data w t)) as Hm by (split; [done|by exists e]).
  destruct (skip_forward _ _ _ Hm) as (t' & E & Ht'). exists t'. split; [done|].
  pose proof (start_of_S _ _ _ (blocks_lookup _ _ He)) as HS. pose proof (start_of_le blocks (Datatypes.S i)).
  assert (fwd (Some i) (next_pos (block_of e.2) m) = next_pos es (start i + m)) as <-; [|done].
  destruct (it_entry_at c valid _ _ _ Hd) as (a' & Ha' & _). apply lookup_lt_Some in Ha'.
  unfold next_pos. destruct (decide (Datatypes.S m < _)%nat) as [Hlt|Hge]; cbn [fwd].
  - rewrite decide_True by lia. f_equal; lia.
  - unfold pos_from. replace (start (Datatypes.S i)) with (Datatypes.S (start i + m)) by lia. done.
Qed.

Lemma two_Prev_at n t : two_at (Some n) t -> exists t', two_Prev block_function t = Ret t' /\ two_at (prev_pos n) t'.
Proof.
  intros Ht. destruct (two_entry _ _ Ht) as (a & _ & _ & _ & Hv). unfold two_Prev, two_Valid. rewrite Hv. cbn [assert_]. rewrite res_bind_ret.
  destruct Ht as (i & m & [Hb (e & He & Eh & Hd)] & ->). destruct (it_Prev_at c valid _ _ _ Hd) as (w & -> & Hw). rewrite res_bind_ret.
  assert (mid (Some i) (prev_pos m) (set_data w t)) as Hm by (split; [done|by exists e]).
  destruct (skip_backward _ _ _ Hm) as (t' & E & Ht'). exists t'. split; [done|].
  assert (bwd (Some i) (prev_pos m) = prev_pos (start i + m)) as <-; [|done].
  destruct m as [|m]; cbn [prev_pos bwd]; [by rewrite Nat.add_0_r|]. rewrite Nat.add_succ_r. done.
Qed.

(** All entries before block [i], when the keys of the index before [i] are
    below [target]. *)
Lemma before_block i target : valid target -> Forall (fun e => key_lt c valid e.1 target) (take i idx) ->
  Forall valid es.*1 -> entries_ok c valid idx -> Forall (fun a => key_lt c valid a.1 target) (concat (take i blocks)).
Proof.
  intros Htv Hbelow Hval Hidx. apply Forall_concat, Forall_lookup. intros k l Hl. apply lookup_take_Some in Hl as [Hl Hk].
  unfold blocks in Hl. apply list_lookup_fmap_Some in Hl as (e & -> & He). destruct (Hsep k e He) as [Hend _].
  assert (key_lt c valid e.1 target) as Hlt.
  { eapply (Forall_elem (fun e : entry => key_lt c valid e.1 target)); [exact Hbelow|]. apply (list_elem_of_lookup_2 _ k). by rewrite lookup_take_lt. }
  apply Forall_lookup. intros m a Hm. pose proof (Forall_lookup_1 _ _ _ _ Hend Hm) as Hna. cbn in Hna.
  assert (valid a.1) as Hva.
  { eapply (Forall_elem valid); [exact Hval|]. apply list_elem_of_fmap_2.
    apply (list_elem_of_lookup_2 _ (start k + m)). rewrite (concat_lookup _ k (block_of e.2)); [done|by apply blocks_lookup|by apply lookup_lt_Some in Hm]. }
  destruct (entry_eq_dec_lt c valid a.1 e.1 Hva (entries_valid c valid _ _ _ Hidx He)) as [Hl|[El|Hl]]; [by transitivity e.1|by rewrite El|done].
Qed.

(** Searching in the index and then in the block finds the entry. *)
Lemma seek_pos_blocks q r target : valid target -> entries_ok c valid idx -> seek_pos c valid idx target q ->
  (forall i e, q = Some i -> idx !! i = Some e -> seek_pos c valid (block_of e.2) target r) -> seek_pos c valid es target (fwd q r).
Proof.
  intros Htv Hidx Hq' Hr. destruct Hes as [_ Hval]. destruct q as [i|].
  - destruct Hq' as [Hbelow (e & He & Hge)]. pose proof (before_block i target Htv Hbelow Hval Hidx) as Hbef.
    specialize (Hr i e eq_refl He). pose proof (blocks_lookup _ _ He) as Hb. destruct r as [m|]; cbn [fwd].
    + destruct Hr as [Hm (a & Ha & Hna)]. pose proof (lookup_lt_Some _ _ _ Ha). split.
      * rewrite (concat_take _ i (block_of e.2)) by (done || lia). by apply Forall_app.
      * exists a. by rewrite (concat_lookup _ i (block_of e.2)).
    + assert (Forall (fun a => key_lt c valid a.1 target) (take (start (Datatypes.S i)) es)) as Hall.
      { rewrite (start_of_S _ _ _ Hb), (concat_take _ i (block_of e.2)) by (done || lia). rewrite firstn_all. by apply Forall_app. }
      unfold pos_from. destruct (decide (start (Datatypes.S i) < length es)%nat) as [Hlt|Hnlt].
      2: { cbn. by rewrite take_ge in Hall by lia. }
      split; [done|]. destruct (lookup_lt_is_Some_2 es _ Hlt) as [a Ha]. exists a. split; [done|]. intros Hat. apply Hge.
      transitivity a.1; [|done]. rewrite (start_of_split blocks (Datatypes.S i)) in Ha.
      rewrite lookup_app_r in Ha by done. unfold start_of in Ha. rewrite Nat.sub_diag in Ha.
      apply list_elem_of_lookup_2 in Ha. apply elem_of_concat in Ha as (k & l & Hl & Hal). rewrite lookup_drop in Hl.
      unfold blocks in Hl. apply list_lookup_fmap_Some in Hl as (e' & -> & He'). destruct (Hsep i e He) as [_ Hafter].
      exact (Forall_elem _ _ _ (Hafter (Datatypes.S i + k)%nat e' ltac:(lia) He') Hal).
  - cbn in Hq' |- *. pose proof (before_block (length idx) target Htv) as Hbef. rewrite firstn_all in Hbef.
    specialize (Hbef Hq' Hval Hidx). by rewrite take_ge in Hbef by (rewrite length_blocks; lia).
Qed.

Lemma two_Seek_at p t target : two_at p t -> valid target ->
  exists t' p', two_Seek block_function target t = Ret t' /\ seek_pos c valid es target p' /\ two_at p' t'.
Proof.
  intros Ht Htv. destruct (two_at_base _ _ Ht) as [q Hp]. unfold two_Seek. pose proof Hp as [(_ & _ & Hi) _].
  pose proof (it_at_ok c valid _ _ _ Hi) as Hidx.
  destruct (it_Seek_at c valid _ _ _ _ Hi Htv) as (w & q' & -> & Hq' & Hw). rewrite res_bind_ret.
  destruct (position_block (it_Seek target) q' (set_index w t) (fun es' p => seek_pos c valid es' target p)) as (r & t1 & E & Ht1 & Hr).
  { by eapply pre_index. }
  { intros es' p' w' Hw'. destruct (it_Seek_at c valid _ _ _ _ Hw' Htv) as (w2 & p2 & E2 & Hp2 & Hw2). by exists w2, p2. }
  destruct (InitDataBlock block_function (set_index w t)) as [t2| |]; try done. rewrite res_bind_ret in E |- *. rewrite E, res_bind_ret.
  destruct (skip_forward _ _ _ Ht1) as (t' & E' & Ht'). exists t', (fwd q' r). split; [done|]. split; [|done].
  by apply seek_pos_blocks.
Qed.

Lemma two_status_at p t : two_at p t -> get_status t = Ret Status_OK.
Proof.
  intros Ht. destruct (two_at_base _ _ Ht) as [q [(_ & Hs & Hi) Hd]]. unfold get_status.
  rewrite (it_status_at c valid _ _ _ Hi), res_bind_ret. cbn [ok negb]. rewrite Hs. destruct Hd as [[-> _]|[p' Hd]]; [done|].
  destruct (data_status _ _ _ Hd) as (j & ->). by rewrite (it_status_at c valid _ _ _ Hd).
Qed.

(** The contract, for this index and these blocks. *)
Definition TwoLevelIterator_ok : @IteratorOk c valid _ (TwoLevelIterator I J S) (TwoLevelIterator_Iterator block_function).
Proof.
  refine (@Build_IteratorOk c valid _ _ (TwoLevelIterator_Iterator block_function) (fun es' p t => es' = es /\ two_at p t) _ _ _ _ _ _ _ _ _).
  - by intros es' p t [-> _].
  - intros es' p t [-> Ht]. unfold it_Valid, TwoLevelIterator_Iterator, two_Valid. destruct p as [n|].
    + by destruct (two_entry _ _ Ht) as (a & _ & _ & _ & ->).
    + destruct Ht as (q & _ & [_ Hv]). exact Hv.
  - intros es' p t [-> Ht]. by apply (two_status_at p).
  - intros es' n t [-> Ht]. destruct (two_entry _ _ Ht) as (a & Ha & Hk & Hv & Hval). exists a. split; [done|].
    unfold it_key, it_value, TwoLevelIterator_Iterator, two_key, two_value, two_Valid. by rewrite Hval, Hk, Hv.
  - intros es' p t [-> Ht]. destruct (two_SeekToFirst_at _ _ Ht) as (t' & E & Ht'). by exists t'.
  - intros es' p t [-> Ht]. destruct (two_SeekToLast_at _ _ Ht) as (t' & E & Ht'). by exists t'.
  - intros es' p t target [-> Ht] Htv. destruct (two_Seek_at _ _ _ Ht Htv) as (t' & p' & E & Hp' & Ht'). by exists t', p'.
  - intros es' n t [-> Ht]. destruct (two_Next_at _ _ Ht) as (t' & E & Ht'). by exists t'.
  - intros es' n t [-> Ht]. destruct (two_Prev_at _ _ Ht) as (t' & E & Ht'). by exists t'.
Defined.

Lemma new_TwoLevelIterator_at q i arg : it_at c valid idx q i -> arg_ok arg ->
  exists t, new_TwoLevelIterator i arg = Ret t /\ two_at None t.
Proof.
  intros Hi Harg. unfold new_TwoLevelIterator, new_wrapper. cbn [wrapper_Set].
  destruct (Update_at c valid idx q wrapper_null i Hi) as (w & -> & Hw). rewrite res_bind_ret. eexists. split; [done|].
  by exists q.
Qed.
End two_level.
