(* ===== verification/Format.v ===== *)
(** * LevelDB: the format of tables (format.h, format.cc)

    Block handles, the footer, and reading a block with its trailer.  The pods
    compile port_stdcxx.h without Snappy. *)
From S2P Require Import Prelude LdbBase Coding Crc32c.

(** ** BlockHandle *)
Record BlockHandle : Type := MkBlockHandle {
  offset_ : Z;
  handle_size : Z;
}.

Definition kMaxEncodedLength : Z := 10 + 10.

(** [~static_cast<uint64_t>(0)]. *)
Definition new_BlockHandle : BlockHandle := MkBlockHandle (2 ^ 64 - 1) (2 ^ 64 - 1).

Definition BlockHandle_EncodeTo (h : BlockHandle) (dst : bytes) : res bytes :=
  let! _ := assert_ (negb (offset_ h =? 2 ^ 64 - 1)) in
  let! _ := assert_ (negb (handle_size h =? 2 ^ 64 - 1)) in
  let! dst := PutVarint64 dst (offset_ h) in
  PutVarint64 dst (handle_size h).

(** The status, the handle and [*input]. *)
Definition BlockHandle_DecodeFrom (h : BlockHandle) (input : bytes) : res (Status * BlockHandle * bytes) :=
  let! '(o, input) := GetVarint64 input in
  match o with
  | None => Ret (Corruption (str "bad block handle"), h, input)
  | Some offset =>
      let h := MkBlockHandle offset (handle_size h) in
      let! '(o, input) := GetVarint64 input in
      match o with
      | None => Ret (Corruption (str "bad block handle"), h, input)
      | Some size => Ret (Status_OK, MkBlockHandle (offset_ h) size, input)
      end
  end.

(** ** Footer *)
Record Footer : Type := MkFooter {
  metaindex_handle_ : BlockHandle;
  index_handle_ : BlockHandle;
}.

Definition kEncodedLength : Z := 2 * kMaxEncodedLength + 8.
Definition kTableMagicNumber : Z := 0xdb4775248b80fb57.
Definition kBlockTrailerSize : Z := 5.

Definition new_Footer : Footer := MkFooter new_BlockHandle new_BlockHandle.

(** [std::string::resize]. *)
Definition resize (n : Z) (s : bytes) : bytes :=
  if size s <? n then s ++ replicate (Z.to_nat (n - size s)) 0 else ztake n s.

Definition Footer_EncodeTo (f : Footer) (dst : bytes) : res bytes :=
  let original_size := size dst in
  let! dst := BlockHandle_EncodeTo (metaindex_handle_ f) dst in
  let! dst := BlockHandle_EncodeTo (index_handle_ f) dst in
  let dst := resize (2 * kMaxEncodedLength) dst in
  let dst := PutFixed32 dst (u32 (kTableMagicNumber .& 0xffffffff)) in
  let dst := PutFixed32 dst (u32 (Z.shiftr kTableMagicNumber 32)) in
  let! _ := assert_ (size dst =? original_size + kEncodedLength) in
  Ret dst.

Definition Footer_DecodeFrom (f : Footer) (input : bytes) : res (Status * Footer * bytes) :=
  let magic_ptr := zdrop (kEncodedLength - 8) input in
  let! magic_lo := DecodeFixed32 magic_ptr in
  let! magic_hi := DecodeFixed32 (zdrop 4 magic_ptr) in
  let magic := u64 (Z.shiftl magic_hi 32) .| magic_lo in
  if negb (magic =? kTableMagicNumber) then
    Ret (Corruption (str "not an sstable (bad magic number)"), f, input)
  else
    let! '(result, metaindex, rest) := BlockHandle_DecodeFrom (metaindex_handle_ f) input in
    let f := MkFooter metaindex (index_handle_ f) in
    if ok result then
      let! '(result, index, rest) := BlockHandle_DecodeFrom (index_handle_ f) rest in
      let f := MkFooter (metaindex_handle_ f) index in
      Ret (result, f, if ok result then zdrop 8 magic_ptr else rest)
    else Ret (result, f, rest).

(** ** Compression (options.h, port_stdcxx.h) *)
Inductive CompressionType : Type := kNoCompression | kSnappyCompression.

Definition CompressionType_value (t : CompressionType) : Z :=
  match t with kNoCompression => 0 | kSnappyCompression => 1 end.

Definition Snappy_Compress (input : bytes) : option bytes := None.
Definition Snappy_GetUncompressedLength (input : bytes) : option Z := None.
Definition Snappy_Uncompress (input : bytes) : option bytes := None.

(** ** ReadBlock *)
Record BlockContents : Type := MkBlockContents {
  contents_data : bytes;
  cachable : bool;
  heap_allocated : bool;
}.

Record ReadOptions : Type := MkReadOptions {
  verify_checksums : bool;
  fill_cache : bool;
}.

Definition new_ReadOptions : ReadOptions := MkReadOptions false true.

(** The switch on [data[n]]; [data] are the bytes that were read, and
    [in_buf] says that they are in [buf]. *)
Definition uncompress (data : bytes) (n : Z) (in_buf : bool) (result : BlockContents) : res (Status * BlockContents) :=
  let! type := byte_at data n in
  if type =? CompressionType_value kNoCompression then
    Ret (Status_OK, MkBlockContents (ztake n data) in_buf in_buf)
  else if type =? CompressionType_value kSnappyCompression then
    match Snappy_GetUncompressedLength (ztake n data) with
    | None => Ret (Corruption (str "corrupted compressed block contents"), result)
    | Some _ =>
        match Snappy_Uncompress (ztake n data) with
        | None => Ret (Corruption (str "corrupted compressed block contents"), result)
        | Some ubuf => Ret (Status_OK, MkBlockContents ubuf true true)
        end
    end
  else Ret (Corruption (str "bad block type"), result).

Section read.
Context {F : Type} `{RandomAccessFile F}.

Definition ReadBlock (file : F) (options : ReadOptions) (handle : BlockHandle) : res (Status * BlockContents) :=
  let result := MkBlockContents [] false false in
  let n := handle_size handle in
  let '(s, data, in_buf) := raf_Read (offset_ handle) (u64 (n + kBlockTrailerSize)) file in
  if negb (ok s) then Ret (s, result)
  else if negb (size data =? u64 (n + kBlockTrailerSize)) then Ret (Corruption (str "truncated block read"), result)
  else
    let! mismatch :=
      (if verify_checksums options then
         let! stored := DecodeFixed32 (zdrop (n + 1) data) in
         let crc := Unmask stored in
         let! actual := Value 0 (ztake (n + 1) data) in
         Ret (negb (actual =? crc))
       else Ret false) in
    if mismatch : bool then Ret (Corruption (str "block checksum mismatch"), result)
    else uncompress data n in_buf result.
End read.
