(* ===== verification/Filter.v ===== *)
(** * LevelDB: filters and filter blocks

    filter_policy.h, hash.cc, bloom.cc, the policy of dbformat.cc, and
    filter_block.cc: one filter for each 2 KB of the file. *)
From Stdlib.Floats Require Import SpecFloat.
From S2P Require Import Prelude Coding LdbBase DbFormat.

(** ** filter policies (filter_policy.h, hash.cc, bloom.cc, dbformat.cc)

    The abstract class as a record, its contract as a class; the Bloom filter;
    the policy for internal keys.  [char] is signed on the phone: the number of
    probes, read from a filter, is sign-extended. *)

Record FilterPolicy : Type := MkFilterPolicy {
  fp_Name : bytes;
  fp_CreateFilter : list bytes -> bytes -> res bytes;
  fp_KeyMayMatch : bytes -> bytes -> res bool;
}.

(** ** Hash *)

(** The words of the data: [h], and the bytes that remain. *)
Fixpoint hash_words (fuel : nat) (data : bytes) (h : Z) : res (Z * bytes) :=
  match fuel with
  | O => NoFuel
  | S fuel' =>
      if 4 <=? size data then
        let! w := DecodeFixed32 data in
        let h := u32 (h + w) in
        let h := u32 (h * 0xc6a4a793) in
        let h := Z.lxor h (Z.shiftr h 16) in
        hash_words fuel' (zdrop 4 data) h
      else Ret (h, data)
  end.

(** The cases 3, 2 and 1 fall through. *)
Definition hash_tail (data : bytes) (h : Z) : Z :=
  let h := match data with [_; _; b2] => u32 (h + Z.shiftl b2 16) | _ => h end in
  let h := match data with _ :: b1 :: _ => u32 (h + Z.shiftl b1 8) | _ => h end in
  match data with
  | b0 :: _ =>
      let h := u32 (h + b0) in
      let h := u32 (h * 0xc6a4a793) in
      Z.lxor h (Z.shiftr h 24)
  | [] => h
  end.

Definition Hash (data : bytes) (seed : Z) : res Z :=
  let h := u32 (Z.lxor seed (u64 (size data * 0xc6a4a793))) in
  let! '(h, data) := hash_words (S (length data)) data h in
  Ret (hash_tail data h).

(** ** BloomFilterPolicy *)
Definition BloomHash (key : bytes) : res Z := Hash key 0xbc9f1d34.

Record BloomFilterPolicy : Type := MkBloomFilterPolicy {
  bits_per_key_ : Z;
  k_ : Z;
}.

(** [static_cast<size_t>(bits_per_key * 0.69)], in double precision; a negative
    number is not representable. *)
Definition bits_to_probes (bits_per_key : Z) : res Z :=
  let ln2 := S754_finite false 0x16147ae147ae14 (-53) in
  match SFmul 53 1024 (binary_normalize 53 1024 bits_per_key 0 false) ln2 with
  | S754_finite s m e =>
      let t := Z.shiftl (Z.pos m) e in
      if s && negb (t =? 0) then UB else Ret t
  | S754_zero _ => Ret 0
  | _ => UB
  end.

Definition NewBloomFilterPolicy (bits_per_key : Z) : res BloomFilterPolicy :=
  let! k := bits_to_probes bits_per_key in
  let k := if k <? 1 then 1 else k in
  let k := if 30 <? k then 30 else k in
  Ret (MkBloomFilterPolicy (u64 bits_per_key) k).

Definition rotate_delta (h : Z) : Z := Z.shiftr h 17 .| u32 (Z.shiftl h 15).

(** The loop over [j]: [array] with the bits of one key. *)
Fixpoint add_probes (k : nat) (h delta bits : Z) (array : bytes) : res bytes :=
  match k with
  | O => Ret array
  | S k' =>
      let bitpos := u32 (h mod bits) in
      let! b := byte_at array (bitpos / 8) in
      let array := <[Z.to_nat (bitpos / 8) := u8 (b .| Z.shiftl 1 (bitpos mod 8))]> array in
      add_probes k' (u32 (h + delta)) delta bits array
  end.

Fixpoint add_keys (k : nat) (keys : list bytes) (bits : Z) (array : bytes) : res bytes :=
  match keys with
  | [] => Ret array
  | key :: keys =>
      let! h := BloomHash key in
      let! array := add_probes k h (rotate_delta h) bits array in
      add_keys k keys bits array
  end.

Definition bloom_CreateFilter (p : BloomFilterPolicy) (keys : list bytes) (dst : bytes) : res bytes :=
  let bits := u64 (zlength keys * bits_per_key_ p) in
  let bits := if bits <? 64 then 64 else bits in
  let nbytes := u64 (bits + 7) / 8 in
  let bits := u64 (nbytes * 8) in
  let array := replicate (Z.to_nat nbytes) 0 ++ [u8 (k_ p)] in
  let! array := add_keys (Z.to_nat (k_ p)) keys bits array in
  Ret (dst ++ array).

Fixpoint test_probes (k : nat) (h delta bits : Z) (array : bytes) : res bool :=
  match k with
  | O => Ret true
  | S k' =>
      let bitpos := u32 (h mod bits) in
      let! b := byte_at array (bitpos / 8) in
      if (b .& Z.shiftl 1 (bitpos mod 8)) =? 0 then Ret false
      else test_probes k' (u32 (h + delta)) delta bits array
  end.

Definition bloom_KeyMayMatch (key bloom_filter : bytes) : res bool :=
  let len := size bloom_filter in
  if len <? 2 then Ret false
  else
    let bits := u64 ((len - 1) * 8) in
    let! c := byte_at bloom_filter (len - 1) in
    let k := u64 (sext 8 c) in
    if 30 <? k then Ret true
    else
      let! h := BloomHash key in
      test_probes (Z.to_nat k) h (rotate_delta h) bits bloom_filter.

Definition BloomFilter (p : BloomFilterPolicy) : FilterPolicy :=
  MkFilterPolicy (str "leveldb.BuiltinBloomFilter2") (bloom_CreateFilter p) bloom_KeyMayMatch.

(** ** InternalFilterPolicy (dbformat.cc) *)
Fixpoint user_keys (keys : list bytes) : res (list bytes) :=
  match keys with
  | [] => Ret []
  | key :: keys => let! k := ExtractUserKey key in let! ks := user_keys keys in Ret (k :: ks)
  end.

Definition InternalFilterPolicy (user_policy : FilterPolicy) : FilterPolicy :=
  MkFilterPolicy (fp_Name user_policy)
    (fun keys dst => let! keys := user_keys keys in fp_CreateFilter user_policy keys dst)
    (fun key f => let! k := ExtractUserKey key in fp_KeyMayMatch user_policy k f).

(** ** filter blocks (filter_block.h, filter_block.cc) *)

Definition kFilterBaseLg : Z := 11.
Definition kFilterBase : Z := Z.shiftl 1 kFilterBaseLg.

Record FilterBlockBuilder : Type := MkFilterBlockBuilder {
  keys_ : bytes;
  start_ : list Z;
  result_ : bytes;
  filter_offsets_ : list Z;
}.

Definition new_FilterBlockBuilder : FilterBlockBuilder := MkFilterBlockBuilder [] [] [] [].

(** [tmp_keys_[i] = Slice(keys_.data() + start_[i], start_[i + 1] - start_[i])]. *)
Fixpoint tmp_keys (keys : bytes) (start : list Z) : list bytes :=
  match start with
  | a :: ((b :: _) as start') => ztake (b - a) (zdrop a keys) :: tmp_keys keys start'
  | _ => []
  end.

Section policy.
Variable policy_ : FilterPolicy.

Definition GenerateFilter (b : FilterBlockBuilder) : res FilterBlockBuilder :=
  let num_keys := zlength (start_ b) in
  let offsets := filter_offsets_ b ++ [u32 (size (result_ b))] in
  if num_keys =? 0 then Ret (MkFilterBlockBuilder (keys_ b) (start_ b) (result_ b) offsets)
  else
    let start := start_ b ++ [size (keys_ b)] in
    let! result := fp_CreateFilter policy_ (tmp_keys (keys_ b) start) (result_ b) in
    Ret (MkFilterBlockBuilder [] [] result offsets).

Definition start_block_body (filter_index : Z) (b : FilterBlockBuilder) : res (FilterBlockBuilder + FilterBlockBuilder) :=
  if zlength (filter_offsets_ b) <? filter_index then let! b := GenerateFilter b in Ret (inl b) else Ret (inr b).

Definition StartBlock (block_offset : Z) (b : FilterBlockBuilder) : res FilterBlockBuilder :=
  let filter_index := block_offset / kFilterBase in
  let! _ := assert_ (zlength (filter_offsets_ b) <=? filter_index) in
  while (start_block_body filter_index) b.

Definition AddKey (key : bytes) (b : FilterBlockBuilder) : FilterBlockBuilder :=
  MkFilterBlockBuilder (keys_ b ++ key) (start_ b ++ [size (keys_ b)]) (result_ b) (filter_offsets_ b).

Definition FilterBlock_Finish (b : FilterBlockBuilder) : res (bytes * FilterBlockBuilder) :=
  let! b := (if zlength (start_ b) =? 0 then Ret b else GenerateFilter b) in
  let array_offset := u32 (size (result_ b)) in
  let result := foldl PutFixed32 (result_ b) (filter_offsets_ b) in
  let result := PutFixed32 result array_offset in
  let result := result ++ [kFilterBaseLg] in
  Ret (result, MkFilterBlockBuilder (keys_ b) (start_ b) result (filter_offsets_ b)).

(** ** FilterBlockReader: [offset_] is an offset in [data_]; a reader whose
    [data_] is null has no filters. *)
Record FilterBlockReader : Type := MkFilterBlockReader {
  filter_data : bytes;
  filter_array : Z;
  num_ : Z;
  base_lg_ : Z;
}.

Definition new_FilterBlockReader (contents : bytes) : res FilterBlockReader :=
  let n := size contents in
  if n <? 5 then Ret (MkFilterBlockReader [] 0 0 0)
  else
    let! c := byte_at contents (n - 1) in
    let base_lg := u64 (sext 8 c) in
    let! last_word := DecodeFixed32 (zdrop (n - 5) contents) in
    if n - 5 <? last_word then Ret (MkFilterBlockReader [] 0 0 base_lg)
    else Ret (MkFilterBlockReader contents last_word ((n - 5 - last_word) / 4) base_lg).

(** [block_offset >> base_lg_] is undefined for 64 bits or more. *)
Definition shift_right (x n : Z) : res Z := if n <? 64 then Ret (Z.shiftr x n) else UB.

Definition FilterBlock_KeyMayMatch (block_offset : Z) (key : bytes) (r : FilterBlockReader) : res bool :=
  let! index := shift_right block_offset (base_lg_ r) in
  if index <? num_ r then
    let! start := DecodeFixed32 (zdrop (filter_array r + index * 4) (filter_data r)) in
    let! limit := DecodeFixed32 (zdrop (filter_array r + index * 4 + 4) (filter_data r)) in
    if (start <=? limit) && (limit <=? filter_array r) then
      fp_KeyMayMatch policy_ key (ztake (limit - start) (zdrop start (filter_data r)))
    else Ret (negb (start =? limit))
  else Ret true.
End policy.
