(* ===== verification/FilterFacts.v ===== *)
(** * LevelDB's filters and filter blocks, proved

    A key from which a filter was made matches it, and a key that was added for
    a block of the file matches the filter that is consulted for that block. *)
From stdpp Require sorting.
From S2P Require Import Prelude Coding LdbBase Comparator DbFormat Filter.

(** ** LevelDB's filter policies, proved

    [FilterPolicyOk] is the contract of filter_policy.h: a key from which a
    filter was made matches it, and matching is defined on any bytes.  The
    Bloom filter and the policy for internal keys keep it. *)

(** The keys a policy is used for satisfy [valid]; [same] relates keys the
    policy does not tell apart; [n] is an [int]. *)
Class FilterPolicyOk (p : FilterPolicy) (valid : bytes -> Prop) (same : bytes -> bytes -> Prop) (cost : Z) : Prop := {
  cost_nonneg : 0 <= cost;
  CreateFilter_ok : forall keys dst, Forall valid keys -> zlength keys < 2 ^ 31 ->
    exists f, fp_CreateFilter p keys dst = Ret (dst ++ f) /\ bytes_ok f /\ zlength f <= cost * (1 + zlength keys) /\
      (zlength f < 2 ^ 32 -> forall k k', k ∈ keys -> same k k' -> valid k' -> fp_KeyMayMatch p k' f = Ret true);
  KeyMayMatch_ok : forall k f, valid k -> bytes_ok f -> zlength f < 2 ^ 32 -> exists b, fp_KeyMayMatch p k f = Ret b;
}.

(** A policy also works for fewer keys. *)
Lemma FilterPolicyOk_weaken p (valid valid' : bytes -> Prop) same cost :
  (forall k, valid' k -> valid k) -> FilterPolicyOk p valid same cost -> FilterPolicyOk p valid' same cost.
Proof.
  intros Hv [Hc Hf Hk]. split; [done| |].
  - intros keys dst Hkeys Hn. destruct (Hf keys dst) as (f & E & Hb & Hsize & Hm); [by eapply List.Forall_impl; [|exact Hkeys]|done|].
    exists f. split; [done|]. split; [done|]. split; [done|]. intros Hl k k' Hin Hs Hk'. apply (Hm Hl k k'); auto.
  - intros k f Hk' Hf' Hl. apply Hk; auto.
Qed.

(** ** Hash *)
Lemma lxor_shift_bound h n : 0 <= n -> 0 <= h < 2 ^ 32 -> 0 <= Z.lxor h (Z.shiftr h n) < 2 ^ 32.
Proof.
  intros Hn Hh. assert (0 <= Z.shiftr h n < 2 ^ 32) as Hs.
  { rewrite Z.shiftr_div_pow2 by done. assert (0 < 2 ^ n) by (apply Z.pow_pos_nonneg; lia).
    split; [apply Z.div_pos; lia|]. apply Z.div_lt_upper_bound; [done|nia]. }
  split; [by apply Z.lxor_nonneg; split; intros; lia|].
  destruct (Z.eq_dec (Z.lxor h (Z.shiftr h n)) 0) as [->|Hne]; [lia|].
  assert (0 < Z.lxor h (Z.shiftr h n)) by (assert (0 <= Z.lxor h (Z.shiftr h n)) by (apply Z.lxor_nonneg; split; intros; lia); lia).
  apply Z.log2_lt_pow2; [done|]. eapply Z.le_lt_trans; [apply Z.log2_lxor; lia|].
  apply Z.max_lub_lt; [destruct (Z.eq_dec h 0) as [->|]; [done|by apply Z.log2_lt_pow2; lia]|].
  destruct (Z.eq_dec (Z.shiftr h n) 0) as [->|]; [done|by apply Z.log2_lt_pow2; lia].
Qed.

Lemma hash_words_ok fuel data h : 0 <= h < 2 ^ 32 -> (length data < fuel)%nat ->
  exists h' data', hash_words fuel data h = Ret (h', data') /\ 0 <= h' < 2 ^ 32.
Proof.
  revert data h. induction fuel as [|fuel IH]; intros data h Hh Hf; [lia|]. cbn [hash_words]. unfold size.
  destruct (Z.leb_spec 4 (zlength data)) as [Hl|Hl]; [|by eexists _, _].
  unfold DecodeFixed32, size. rewrite (proj2 (Z.ltb_ge _ _)) by lia. unfold kLittleEndian. rewrite res_bind_ret.
  apply IH; [apply lxor_shift_bound; [lia|by apply wrap_bound]|]. unfold zdrop. rewrite length_drop. unfold zlength in Hl. lia.
Qed.

Lemma Hash_ok data seed : exists h, Hash data seed = Ret h /\ 0 <= h < 2 ^ 32.
Proof.
  unfold Hash. destruct (hash_words_ok (S (length data)) data (u32 (Z.lxor seed (u64 (size data * 0xc6a4a793)))))
    as (h & rest & E & Hh); [by apply wrap_bound|lia|]. cbn zeta. rewrite E, res_bind_ret. eexists. split; [done|].
  unfold hash_tail. cbn zeta.
  destruct rest as [|b0 [|b1 [|b2 [|b3 rest]]]]; try done; apply lxor_shift_bound; try lia; by apply wrap_bound.
Qed.

(** ** Bits of an array *)
Definition bit_set (array : bytes) (pos : Z) : Prop :=
  exists b, array !! Z.to_nat (pos / 8) = Some b /\ Z.testbit b (pos mod 8) = true.

Fixpoint probes_set (k : nat) (h delta bits : Z) (array : bytes) : Prop :=
  match k with
  | O => True
  | S k' => bit_set array (h mod bits) /\ probes_set k' (u32 (h + delta)) delta bits array
  end.

Lemma probes_set_mono k h delta bits a b :
  (forall pos, bit_set a pos -> bit_set b pos) -> probes_set k h delta bits a -> probes_set k h delta bits b.
Proof. intros Hab. revert h. induction k as [|k IH]; intros h; [done|]. intros [Hb Hp]. split; [by apply Hab|by apply IH]. Qed.

Lemma testbit_u8 z i : 0 <= i < 8 -> Z.testbit (u8 z) i = Z.testbit z i.
Proof. intros Hi. apply Z.mod_pow2_bits_low. lia. Qed.

Lemma land_bit b i : 0 <= i -> (b .& Z.shiftl 1 i =? 0) = negb (Z.testbit b i).
Proof.
  intros Hi. rewrite Z.shiftl_1_l. destruct (Z.testbit b i) eqn:E; cbn.
  - apply Z.eqb_neq. intros H0. assert (Z.testbit (b .& 2 ^ i) i = false) as Hf by by rewrite H0, Z.bits_0.
    by rewrite Z.land_spec, E, Z.pow2_bits_true in Hf.
  - apply Z.eqb_eq, Z.bits_inj'. intros j Hj. rewrite Z.land_spec, Z.bits_0. destruct (Z.eq_dec j i) as [->|Hne]; [by rewrite E|].
    rewrite Z.pow2_bits_false by done. apply andb_false_r.
Qed.

(** Setting a bit keeps the others. *)
Lemma set_bit_ok body pos b : 0 <= pos -> body !! Z.to_nat (pos / 8) = Some b ->
  let body' := <[Z.to_nat (pos / 8) := u8 (b .| Z.shiftl 1 (pos mod 8))]> body in
  bit_set body' pos /\ (forall p, 0 <= p -> bit_set body p -> bit_set body' p).
Proof.
  intros Hp Hb body'. pose proof (Z.mod_pos_bound pos 8). split.
  - eexists. split; [apply list_lookup_insert_eq; by apply lookup_lt_Some in Hb|].
    rewrite testbit_u8, Z.lor_spec, Z.shiftl_1_l, Z.pow2_bits_true by lia. by rewrite orb_true_r.
  - intros p Hp0 (b' & Hb' & Ht). pose proof (Z.mod_pos_bound p 8). destruct (decide (Z.to_nat (pos / 8) = Z.to_nat (p / 8))) as [E|Hne].
    + rewrite E in Hb. rewrite Hb in Hb'. injection Hb' as <-. eexists. split.
      * unfold body'. rewrite E. apply list_lookup_insert_eq. by apply lookup_lt_Some in Hb.
      * by rewrite testbit_u8, Z.lor_spec, Ht by lia.
    + exists b'. unfold body'. by rewrite list_lookup_insert_ne.
Qed.

Lemma byte_at_lookup l i b : 0 <= i -> l !! Z.to_nat i = Some b -> byte_at l i = Ret b.
Proof. intros Hi Hb. unfold byte_at. by rewrite (proj2 (Z.leb_le _ _)), Hb. Qed.

(** ** The Bloom filter *)
Section probes.
Variables (delta bits : Z) (body0 tail : bytes).
Hypothesis Hbits : bits = 8 * zlength body0.
Hypothesis Hpos : 0 < bits.

Lemma probe_position h (body : bytes) : length body = length body0 -> 0 <= h < 2 ^ 32 ->
  u32 (h mod bits) = h mod bits /\ 0 <= h mod bits /\ exists b, body !! Z.to_nat (h mod bits / 8) = Some b.
Proof.
  intros Hl Hh. pose proof (Z.mod_pos_bound h bits Hpos) as Hm. pose proof (Z.mod_le h bits ltac:(lia) Hpos).
  split; [apply wrap_small; lia|]. split; [lia|]. apply lookup_lt_is_Some_2. rewrite Hl.
  assert (h mod bits / 8 < zlength body0) by (apply Z.div_lt_upper_bound; lia).
  assert (0 <= h mod bits / 8) by (apply Z.div_pos; lia). unfold zlength in *. lia.
Qed.

Lemma add_probes_ok k h body : length body = length body0 -> 0 <= h < 2 ^ 32 -> bytes_ok body ->
  exists body', add_probes k h delta bits (body ++ tail) = Ret (body' ++ tail) /\ length body' = length body0 /\ bytes_ok body' /\
    (forall p, 0 <= p -> bit_set body p -> bit_set body' p) /\ probes_set k h delta bits body'.
Proof.
  revert h body. induction k as [|k IH]; intros h body Hl Hh Hok; [by exists body|]. cbn [add_probes].
  destruct (probe_position h body Hl Hh) as (-> & Hm & b & Hb). pose proof (lookup_lt_Some _ _ _ Hb) as Hlt.
  assert (0 <= h mod bits / 8) as Hd by (apply Z.div_pos; lia).
  rewrite (byte_at_lookup _ _ b), res_bind_ret by (done || by rewrite lookup_app_l). rewrite insert_app_l by done.
  destruct (set_bit_ok body (h mod bits) b Hm Hb) as [Hset Hkeep].
  set (body1 := <[Z.to_nat (h mod bits / 8) := _]> body) in *.
  destruct (IH (u32 (h + delta)) body1) as (body' & E & Hl' & Hok' & Hk' & Hp').
  - unfold body1. by rewrite length_insert.
  - by apply wrap_bound.
  - apply Forall_insert; [done|]. apply (wrap_bound 8). lia.
  - exists body'. split; [done|]. split; [done|]. split; [done|]. split; [intros p Hp0 Hp; by apply Hk', Hkeep|].
    split; [by apply Hk'|done].
Qed.

Lemma test_probes_ok k h body : length body = length body0 -> 0 <= h < 2 ^ 32 ->
  exists b, test_probes k h delta bits (body ++ tail) = Ret b /\ (probes_set k h delta bits body -> b = true).
Proof.
  intros Hl. revert h. induction k as [|k IH]; intros h Hh; [by exists true|]. cbn [test_probes].
  destruct (probe_position h body Hl Hh) as (-> & Hm & b & Hb). pose proof (lookup_lt_Some _ _ _ Hb) as Hlt.
  assert (0 <= h mod bits / 8) as Hd by (apply Z.div_pos; lia). pose proof (Z.mod_pos_bound (h mod bits) 8).
  rewrite (byte_at_lookup _ _ b), res_bind_ret, land_bit by (done || lia || by rewrite lookup_app_l).
  destruct (IH (u32 (h + delta))) as (r & Er & Hr); [by apply wrap_bound|]. cbn [probes_set].
  destruct (Z.testbit b (h mod bits mod 8)) eqn:Et; cbn [negb].
  - exists r. split; [done|]. intros [_ Hp]. by apply Hr.
  - exists false. split; [done|]. intros [(b' & Hb' & Ht) _]. rewrite Hb in Hb'. injection Hb' as <-. congruence.
Qed.
End probes.

Lemma probes_set_mono_pos k h delta bits a b : 0 < bits -> 0 <= h ->
  (forall pos, 0 <= pos -> bit_set a pos -> bit_set b pos) -> probes_set k h delta bits a -> probes_set k h delta bits b.
Proof.
  intros Hb Hh Hab. revert h Hh. induction k as [|k IH]; intros h Hh; [done|]. intros [Hs Hp].
  split; [apply Hab; [apply Z.mod_pos_bound; lia|done]|apply IH; [apply (wrap_bound 32); lia|done]].
Qed.

Lemma add_keys_ok k keys bits (body0 tail body : bytes) :
  bits = 8 * zlength body0 -> 0 < bits -> length body = length body0 -> bytes_ok body ->
  exists body', add_keys k keys bits (body ++ tail) = Ret (body' ++ tail) /\ length body' = length body0 /\ bytes_ok body' /\
    (forall p, 0 <= p -> bit_set body p -> bit_set body' p) /\
    forall key, key ∈ keys -> exists h, BloomHash key = Ret h /\ 0 <= h < 2 ^ 32 /\ probes_set k h (rotate_delta h) bits body'.
Proof.
  intros Hbits Hpos. revert body. induction keys as [|key keys IH]; intros body Hl Hok.
  { exists body. split; [done|]. split; [done|]. split; [done|]. split; [done|]. by intros key ?%not_elem_of_nil. }
  cbn [add_keys]. destruct (Hash_ok key 0xbc9f1d34) as (h & Eh & Hh). fold (BloomHash key) in Eh. rewrite Eh, res_bind_ret.
  destruct (add_probes_ok (rotate_delta h) bits body0 tail Hbits Hpos k h body Hl Hh Hok) as (body1 & -> & Hl1 & Hok1 & Hk1 & Hp1).
  rewrite res_bind_ret. destruct (IH body1 Hl1 Hok1) as (body2 & -> & Hl2 & Hok2 & Hk2 & Hall). exists body2.
  split; [done|]. split; [done|]. split; [done|]. split; [intros p Hp0 Hp; by apply Hk2, Hk1|].
  intros key' Hin. apply elem_of_cons in Hin as [->|Hin]; [|by apply Hall]. exists h. split; [done|]. split; [done|].
  eapply probes_set_mono_pos; [done|lia|exact Hk2|done].
Qed.

Lemma bloom_KeyMayMatch_probes key body c : is_byte c -> 0 < zlength body < 2 ^ 32 -> bytes_ok key ->
  exists h b, BloomHash key = Ret h /\ 0 <= h < 2 ^ 32 /\ bloom_KeyMayMatch key (body ++ [c]) = Ret b /\
    (c <= 30 -> probes_set (Z.to_nat c) h (rotate_delta h) (8 * zlength body) body -> b = true).
Proof.
  intros Hc Hl Hk. destruct (Hash_ok key 0xbc9f1d34) as (h & Eh & Hh). fold (BloomHash key) in Eh. exists h.
  unfold bloom_KeyMayMatch, size. rewrite zlength_app. change (zlength [c]) with 1. rewrite (proj2 (Z.ltb_ge _ _)) by lia.
  replace (zlength body + 1 - 1) with (zlength body) by lia. rewrite byte_at_app, res_bind_ret, (wrap_small 64 (zlength body * 8)) by lia.
  unfold is_byte in Hc. destruct (Z.ltb_spec 30 (u64 (sext 8 c))) as [Hbig|Hsmall]; [by exists true|]. rewrite Eh, res_bind_ret.
  assert (u64 (sext 8 c) = c) as ->.
  { destruct (Z.lt_ge_cases c 128); [by rewrite sext_small, wrap_small by lia|].
    assert (sext 8 c = c - 256) as E.
    { unfold sext. change (2 ^ 8) with 256. change (2 ^ (8 - 1)) with 128. rewrite <- (Z.mod_unique (c + 128) 256 1 (c - 128)) by lia. lia. }
    exfalso. revert Hsmall. rewrite E. unfold wrap. rewrite <- (Z.mod_unique (c - 256) (2 ^ 64) (-1) (c - 256 + 2 ^ 64)) by lia. lia. }
  rewrite (Z.mul_comm (zlength body) 8).
  destruct (test_probes_ok (rotate_delta h) (8 * zlength body) body [c] eq_refl ltac:(lia) (Z.to_nat c) h body eq_refl Hh) as (b & -> & Hb).
  exists b. split; [done|]. split; [done|]. by split; [|intros _].
Qed.

(** A Bloom filter never rejects one of its keys. *)
#[export] Instance BloomFilter_ok p : 0 <= bits_per_key_ p < 2 ^ 29 -> 1 <= k_ p <= 30 ->
  FilterPolicyOk (BloomFilter p) bytes_ok eq (bits_per_key_ p + 10).
Proof.
  intros Hbpk Hk. split; [lia| |].
  - intros keys dst Hkeys Hn. cbn. unfold bloom_CreateFilter. pose proof (zlength_nonneg keys).
    rewrite (wrap_small 64 (zlength keys * bits_per_key_ p)) by nia.
    set (bits := if _ <? 64 then 64 else _). assert (64 <= bits < 2 ^ 60 + 64) as Hbits
      by (unfold bits; destruct (Z.ltb_spec (zlength keys * bits_per_key_ p) 64); nia).
    rewrite (wrap_small 64 (bits + 7)) by lia. set (nbytes := (bits + 7) / 8).
    assert (8 <= nbytes < 2 ^ 58) as Hnb by (unfold nbytes; split; [apply Z.div_le_lower_bound; lia|apply Z.div_lt_upper_bound; lia]).
    rewrite (wrap_small 64 (nbytes * 8)), (wrap_small 8) by lia.
    set (body0 := replicate (Z.to_nat nbytes) 0). assert (zlength body0 = nbytes) as Hz by (unfold body0, zlength; rewrite length_replicate; lia).
    destruct (add_keys_ok (Z.to_nat (k_ p)) keys (nbytes * 8) body0 [k_ p] body0) as (body & -> & Hl & Hok & _ & Hall);
      [lia|lia|done|by apply Forall_replicate|]. rewrite res_bind_ret. exists (body ++ [k_ p]). split; [done|].
    split. { apply bytes_ok_app. split; [done|]. repeat constructor; lia. }
    split.
    { rewrite zlength_app. change (zlength [k_ p]) with 1. assert (zlength body = nbytes) as -> by (unfold zlength in *; lia).
      assert (bits <= 64 + zlength keys * bits_per_key_ p) by (unfold bits; destruct (Z.ltb_spec (zlength keys * bits_per_key_ p) 64); nia).
      assert (nbytes <= 9 + zlength keys * bits_per_key_ p) by (apply Z.div_le_upper_bound; nia). nia. }
    intros Hlen key k' Hin <- Hkv. cbn. rewrite zlength_app in Hlen. change (zlength [k_ p]) with 1 in Hlen.
    assert (zlength body = nbytes) as Hzb by (unfold zlength in *; lia).
    destruct (bloom_KeyMayMatch_probes key body (k_ p)) as (h & b & Eh & Hh & -> & Hb); [unfold is_byte; lia|lia|done|].
    destruct (Hall key Hin) as (h' & Eh' & _ & Hp). rewrite Eh in Eh'. injection Eh' as <-. f_equal. apply Hb; [lia|].
    rewrite Hzb, Z.mul_comm. exact Hp.
  - intros k f Hkv Hf Hlen. cbn. destruct (decide (zlength f < 2)) as [Hlt|Hge].
    { exists false. unfold bloom_KeyMayMatch, size. by rewrite (proj2 (Z.ltb_lt _ _)). }
    destruct (exists_last (l := f)) as (body & c & ->); [by intros ->|]. apply bytes_ok_app in Hf as [_ Hc]. apply Forall_cons_1 in Hc as [Hc _].
    rewrite zlength_app in *. change (zlength [c]) with 1 in *.
    destruct (bloom_KeyMayMatch_probes k body c) as (h & b & _ & _ & -> & _); [done|lia|done|]. by exists b.
Qed.

Lemma NewBloomFilterPolicy_ok b p : NewBloomFilterPolicy b = Ret p -> bits_per_key_ p = u64 b /\ 1 <= k_ p <= 30.
Proof.
  unfold NewBloomFilterPolicy. destruct (bits_to_probes b) as [k| |]; [|done..]. rewrite res_bind_ret. intros [= <-]. cbn.
  split; [done|]. destruct (Z.ltb_spec k 1); destruct (Z.ltb_spec 30 k); cbn; lia.
Qed.

(** ** The policy for internal keys *)
Definition long_key (k : bytes) : Prop := bytes_ok k /\ 8 <= zlength k.
Definition same_user_key (a b : bytes) : Prop := ExtractUserKey a = ExtractUserKey b.

Lemma ExtractUserKey_long k : long_key k -> exists u, ExtractUserKey k = Ret u /\ bytes_ok u.
Proof.
  intros [Hb Hl]. unfold ExtractUserKey, size. rewrite assert_true, res_bind_ret by by apply Z.leb_le.
  eexists. split; [done|]. by apply Forall_take.
Qed.

#[export] Instance InternalFilterPolicy_ok p cost :
  FilterPolicyOk p bytes_ok eq cost -> FilterPolicyOk (InternalFilterPolicy p) long_key same_user_key cost.
Proof.
  intros Hp. split; [by eapply cost_nonneg| |].
  - intros keys dst Hkeys Hn. cbn.
    assert (exists us, user_keys keys = Ret us /\ Forall bytes_ok us /\ length us = length keys /\
      forall k, k ∈ keys -> exists u, ExtractUserKey k = Ret u /\ u ∈ us) as (us & -> & Hus & Hlen & Hin).
    { clear Hn. induction Hkeys as [|k keys Hk _ (us & E & Hus & Hl & Hin)]; [exists []; split; [done|]; split; [done|]; split; [done|]; by intros k ?%not_elem_of_nil|].
      destruct (ExtractUserKey_long k Hk) as (u & Eu & Hu). exists (u :: us). cbn. rewrite Eu, res_bind_ret, E, res_bind_ret.
      split; [done|]. split; [by constructor|]. split; [by rewrite Hl|]. intros k' [->|Hk']%elem_of_cons; [exists u; split; [done|left]|].
      destruct (Hin k' Hk') as (u' & Eu' & Hu'). exists u'. split; [done|by right]. }
    rewrite res_bind_ret. destruct (CreateFilter_ok us dst Hus) as (f & E & Hf & Hcost & Hm); [unfold zlength in *; lia|].
    exists f. split; [done|]. split; [done|]. split; [unfold zlength in *; by rewrite <- Hlen|]. intros Hl k k' Hk Hs Hk'. cbn. destruct (Hin k Hk) as (u & Eu & Hu).
    rewrite <- Hs, Eu, res_bind_ret. apply (Hm Hl u u); [done|done|]. by eapply (Forall_elem bytes_ok).
  - intros k f Hk Hf Hl. cbn. destruct (ExtractUserKey_long k Hk) as (u & -> & Hu). rewrite res_bind_ret. by eapply KeyMayMatch_ok.
Qed.

(** ** LevelDB's filter blocks, proved *)

(** ** Keys in one string *)
Fixpoint key_starts (a : Z) (ks : list bytes) : list Z :=
  match ks with [] => [] | k :: ks => a :: key_starts (a + zlength k) ks end.

Lemma key_starts_snoc a ks k : key_starts a (ks ++ [k]) = key_starts a ks ++ [a + zlength (concat ks)].
Proof.
  revert a. induction ks as [|k' ks IH]; intros a; cbn; [by rewrite Z.add_0_r|]. rewrite IH, zlength_app. do 3 f_equal. lia.
Qed.

Lemma length_key_starts a ks : length (key_starts a ks) = length ks.
Proof. revert a. induction ks as [|k ks IH]; intros a; cbn; [done|]. by rewrite IH. Qed.

Lemma tmp_keys_concat pre ks :
  tmp_keys (pre ++ concat ks) (key_starts (zlength pre) ks ++ [zlength (pre ++ concat ks)]) = ks.
Proof.
  revert pre. induction ks as [|k ks IH]; intros pre; [done|].
  assert (pre ++ concat (k :: ks) = (pre ++ k) ++ concat ks) as E by (cbn; by rewrite app_assoc).
  rewrite E. specialize (IH (pre ++ k)). rewrite (zlength_app pre k) in IH.
  assert (forall l, tmp_keys ((pre ++ k) ++ concat ks) (zlength pre :: (zlength pre + zlength k) :: l) =
    k :: tmp_keys ((pre ++ k) ++ concat ks) ((zlength pre + zlength k) :: l)) as Hstep.
  { intros l. cbn [tmp_keys]. f_equal. rewrite <- app_assoc, zdrop_app.
    replace (zlength pre + zlength k - zlength pre) with (zlength k) by lia. apply ztake_app. }
  cbn [key_starts]. destruct ks as [|k' ks]; cbn [key_starts app] in *.
  - replace (zlength ((pre ++ k) ++ concat [])) with (zlength pre + zlength k) by (cbn; by rewrite app_nil_r, zlength_app). apply (Hstep []).
  - rewrite Hstep. by f_equal.
Qed.

(** ** The builder *)
Section filter_block.
Context (policy : FilterPolicy) (valid : bytes -> Prop) (same : bytes -> bytes -> Prop) (cost : Z)
  `{!FilterPolicyOk policy valid same cost}.

(** The filter [f] of the keys [ks]. *)
Definition filters (f : bytes) (ks : list bytes) : Prop :=
  bytes_ok f /\ zlength f <= 2 * cost * zlength ks /\ (zlength f < 2 ^ 32 -> forall k k', k ∈ ks -> same k k' -> valid k' -> fp_KeyMayMatch policy k' f = Ret true).

Definition filter_start (fs : list bytes) (i : nat) : Z := zlength (concat (take i fs)).

(** [done]: the keys of the finished filters; [pending]: those of the next. *)
Record filter_holds (b : FilterBlockBuilder) (fs : list bytes) (done : list (list bytes)) (pending : list bytes) : Prop := {
  fh_keys : keys_ b = concat pending;
  fh_start : start_ b = key_starts 0 pending;
  fh_result : result_ b = concat fs;
  fh_offsets : filter_offsets_ b = (fun i => u32 (filter_start fs i)) <$> seq 0 (length fs);
  fh_filters : Forall2 filters fs done;
  fh_pending : Forall valid pending;
  fh_count : zlength pending < 2 ^ 31;
}.

Lemma filter_start_app fs f i : (i <= length fs)%nat -> filter_start (fs ++ [f]) i = filter_start fs i.
Proof. intros Hi. unfold filter_start. by rewrite take_app_le. Qed.

Lemma offsets_snoc fs f :
  (fun i => u32 (filter_start (fs ++ [f]) i)) <$> seq 0 (length (fs ++ [f])) =
  ((fun i => u32 (filter_start fs i)) <$> seq 0 (length fs)) ++ [u32 (size (concat fs))].
Proof.
  rewrite length_app. cbn [length]. rewrite Nat.add_1_r, seq_S, fmap_app. f_equal.
  - apply list_fmap_ext. intros j i Hi. rewrite filter_start_app; [done|]. apply lookup_seq in Hi. lia.
  - cbn. rewrite filter_start_app by done. unfold filter_start, size. by rewrite firstn_all.
Qed.

Lemma GenerateFilter_holds b fs dn pending : filter_holds b fs dn pending ->
  exists b' f, GenerateFilter policy b = Ret b' /\ filter_holds b' (fs ++ [f]) (dn ++ [pending]) [].
Proof.
  intros [Hk Hs Hr Ho Hf Hp Hc]. unfold GenerateFilter. rewrite Hs. unfold zlength at 1. rewrite length_key_starts.
  destruct (Z.eqb_spec (Z.of_nat (length pending)) 0) as [E|Hne].
  - destruct pending as [|k pending]; [|cbn in E; lia]. eexists _, []. split; [done|]. split; cbn; try done.
    + rewrite concat_app. cbn. by rewrite !app_nil_r.
    + by rewrite offsets_snoc, Ho, Hr.
    + apply Forall2_app; [done|]. constructor; [|constructor]. split; [constructor|]. split; [change (0 <= 2 * cost * 0); lia|]. by intros _ k k' ?%not_elem_of_nil.
  - destruct (CreateFilter_ok pending (result_ b) Hp Hc) as (f & E & Hfb & Hsize & Hm).
    unfold size. rewrite Hk. pose proof (tmp_keys_concat [] pending) as Ht. cbn [app] in Ht. change (zlength []) with 0 in Ht.
    rewrite Ht, E, res_bind_ret. exists (MkFilterBlockBuilder [] [] (result_ b ++ f) (filter_offsets_ b ++ [u32 (zlength (result_ b))])), f.
    split; [done|]. split; cbn; try done.
    + rewrite concat_app, Hr. cbn. by rewrite app_nil_r.
    + by rewrite offsets_snoc, Ho, Hr.
    + apply Forall2_app; [done|]. constructor; [|constructor]. split; [done|]. split; [|done].
      pose proof (cost_nonneg (FilterPolicyOk := FilterPolicyOk0)). assert (1 <= zlength pending) by (unfold zlength; lia). nia.
Qed.

Lemma AddKey_holds b fs dn pending key : filter_holds b fs dn pending -> valid key -> zlength pending + 1 < 2 ^ 31 ->
  filter_holds (AddKey key b) fs dn (pending ++ [key]).
Proof.
  intros [Hk Hs Hr Ho Hf Hp Hc] Hv Hl. split; cbn; try done.
  - rewrite Hk, concat_app. cbn. by rewrite app_nil_r.
  - rewrite Hs, Hk, key_starts_snoc. unfold size. done.
  - apply Forall_app. split; [done|]. by constructor.
  - rewrite zlength_app. change (zlength [key]) with 1. lia.
Qed.

Lemma kFilterBase_eq : kFilterBase = 2048.
Proof. done. Qed.

Lemma length_offsets b fs dn pending : filter_holds b fs dn pending -> zlength (filter_offsets_ b) = zlength dn.
Proof.
  intros [_ _ _ Ho Hf _ _]. rewrite Ho. unfold zlength. rewrite length_fmap, length_seq. by rewrite (Forall2_length Hf).
Qed.

(** [StartBlock] closes the pending filter when the block belongs to another. *)
Lemma StartBlock_holds b fs dn pending o :
  filter_holds b fs dn pending -> 0 <= o < 2 ^ 64 -> zlength dn <= o / 2048 ->
  exists b' fs' dn' pending', StartBlock policy o b = Ret b' /\ filter_holds b' fs' dn' pending' /\
    zlength dn' = o / 2048 /\
    (if decide (zlength dn = o / 2048) then dn' = dn /\ pending' = pending
     else pending' = [] /\ exists m, dn' = dn ++ pending :: replicate m []).
Proof.
  intros Hb Ho Hle. unfold StartBlock. rewrite kFilterBase_eq, (length_offsets _ _ _ _ Hb), assert_true, res_bind_ret by by apply Z.leb_le.
  assert (o / 2048 < 2 ^ 53) as H53 by (apply Z.div_lt_upper_bound; lia).
  apply (while_ind _ (fun b' => exists fs' dn' pending', filter_holds b' fs' dn' pending' /\ zlength dn' <= o / 2048 /\
      (dn' = dn /\ pending' = pending \/ pending' = [] /\ exists m, dn' = dn ++ pending :: replicate m []))
    (fun b' => o / 2048 - zlength (filter_offsets_ b'))
    (fun r => exists b' fs' dn' pending', r = Ret b' /\ filter_holds b' fs' dn' pending' /\ zlength dn' = o / 2048 /\
      (if decide (zlength dn = o / 2048) then dn' = dn /\ pending' = pending
       else pending' = [] /\ exists m, dn' = dn ++ pending :: replicate m []))).
  - intros b' (fs' & dn' & pending' & Hb' & Hle' & Hcase). unfold start_block_body. rewrite (length_offsets _ _ _ _ Hb').
    destruct (Z.ltb_spec (zlength dn') (o / 2048)) as [Hlt|Hge].
    + destruct (GenerateFilter_holds _ _ _ _ Hb') as (b2 & f & -> & Hb2). rewrite res_bind_ret.
      split; [|rewrite (length_offsets _ _ _ _ Hb2), zlength_app; change (zlength [pending']) with 1; lia].
      exists (fs' ++ [f]), (dn' ++ [pending']), []. split; [done|]. split; [rewrite zlength_app; change (zlength [pending']) with 1; lia|].
      right. split; [done|]. destruct Hcase as [[-> ->]|[-> (m & ->)]]; [by exists O|]. exists (S m).
      rewrite <- app_assoc. cbn [app]. by rewrite (replicate_S_end m).
    + exists b', fs', dn', pending'. split; [done|]. split; [done|]. split; [lia|]. destruct (decide _) as [E|Hne].
      * destruct Hcase as [[-> ->]|[_ (m & ->)]]; [done|]. rewrite zlength_app, zlength_cons in Hle'.
        pose proof (zlength_nonneg (replicate m (@nil bytes))). lia.
      * destruct Hcase as [[-> ->]|Hc]; [lia|done].
  - exists fs, dn, pending. split; [done|]. split; [done|]. by left.
  - rewrite (length_offsets _ _ _ _ Hb). pose proof (zlength_nonneg dn). lia.
Qed.

Lemma concat_ok fs dn : Forall2 filters fs dn -> bytes_ok (concat fs).
Proof. intros Hf. apply Forall_concat. eapply Forall2_Forall_l; [exact Hf|]. apply List.Forall_forall. by intros ks _ f [Hb _]. Qed.

(** ** The reader *)
Definition filter_block (fs : list bytes) : bytes :=
  concat fs ++ fixed32s (filter_start fs <$> seq 0 (length fs)) ++ EncodeFixed32 (zlength (concat fs)) ++ [11].

Lemma FilterBlock_Finish_holds b fs dn pending : filter_holds b fs dn pending ->
  exists b' fs' dn', FilterBlock_Finish policy b = Ret b' /\ Forall2 filters fs' dn' /\
    dn' = dn ++ (if decide (pending = []) then [] else [pending]) /\
    zlength b'.1 = zlength (concat fs') + 4 * zlength fs' + 5 /\
    (zlength b'.1 < 2 ^ 32 -> b'.1 = filter_block fs').
Proof.
  intros Hb. unfold FilterBlock_Finish. rewrite (fh_start _ _ _ _ Hb). unfold zlength at 1. rewrite length_key_starts.
  assert (exists b1 fs' dn', (if Z.of_nat (length pending) =? 0 then Ret b else GenerateFilter policy b) = Ret b1 /\
    (exists p, filter_holds b1 fs' dn' p) /\ dn' = dn ++ (if decide (pending = []) then [] else [pending])) as (b1 & fs' & dn' & -> & [p Hb1] & Ed).
  { destruct (decide (pending = [])) as [->|Hne]; cbn [length].
    - exists b, fs, dn. split; [done|]. split; [by exists []|]. by rewrite app_nil_r.
    - rewrite (proj2 (Z.eqb_neq _ _)) by (destruct pending; [done|cbn; lia]).
      destruct (GenerateFilter_holds _ _ _ _ Hb) as (b2 & f & -> & Hb2). exists b2, (fs ++ [f]), (dn ++ [pending]). split; [done|]. split; [by exists []|done]. }
  rewrite res_bind_ret. eexists _, fs', dn'. split; [done|]. split; [by apply (fh_filters _ _ _ _ Hb1)|]. split; [done|]. cbn [fst].
  rewrite foldl_PutFixed32, (fh_result _ _ _ _ Hb1), (fh_offsets _ _ _ _ Hb1). unfold PutFixed32, size. split.
  { rewrite !zlength_app, zlength_fixed32s, zlength_fixed32. change (zlength [kFilterBaseLg]) with 1.
    unfold zlength at 2. rewrite length_fmap, length_seq. unfold zlength. lia. }
  intros Hlen. rewrite !zlength_app in Hlen.
  assert (zlength (concat fs') < 2 ^ 32) as Hc.
  { match type of Hlen with zlength ?a + zlength ?b + zlength ?c + zlength ?d < _ =>
      pose proof (zlength_nonneg b); pose proof (zlength_nonneg c); pose proof (zlength_nonneg d) end. lia. }
  unfold filter_block. rewrite wrap_small, <- !app_assoc by (pose proof (zlength_nonneg (concat fs')); lia). do 2 f_equal. f_equal.
  apply list_fmap_ext. intros j i _. apply wrap_small. unfold filter_start.
  pose proof (zlength_nonneg (concat (take i fs'))). rewrite <- (take_drop i fs'), concat_app, zlength_app in Hc.
  pose proof (zlength_nonneg (concat (drop i fs'))). lia.
Qed.

Lemma filter_start_S fs i f : fs !! i = Some f -> filter_start fs (S i) = filter_start fs i + zlength f.
Proof. intros Hf. unfold filter_start. rewrite (take_S_r _ _ _ Hf), concat_app, zlength_app. cbn. by rewrite app_nil_r. Qed.

Lemma filter_start_le fs i : 0 <= filter_start fs i <= zlength (concat fs).
Proof.
  unfold filter_start. pose proof (zlength_nonneg (concat (take i fs))). rewrite <- (take_drop i fs) at 3. rewrite concat_app, zlength_app.
  pose proof (zlength_nonneg (concat (drop i fs))). lia.
Qed.

Lemma filter_block_size fs : zlength (filter_block fs) = zlength (concat fs) + 4 * zlength fs + 5.
Proof.
  unfold filter_block. rewrite !zlength_app, zlength_fixed32s, zlength_fixed32. change (zlength [11]) with 1.
  unfold zlength at 2. rewrite length_fmap, length_seq. unfold zlength. lia.
Qed.

Lemma filter_block_ok fs dn : Forall2 filters fs dn -> bytes_ok (filter_block fs).
Proof.
  intros Hf. unfold filter_block. apply bytes_ok_app. split; [by eapply concat_ok|].
  apply bytes_ok_app. split; [unfold fixed32s; apply Forall_concat, Forall_fmap, Forall_true; intros z; apply le_bytes_ok|].
  apply bytes_ok_app. split; [apply le_bytes_ok|by repeat constructor].
Qed.

(** The filters take space in proportion to the keys. *)
Lemma filters_size fs dn : Forall2 filters fs dn -> zlength (concat fs) <= 2 * cost * zlength (concat dn).
Proof.
  induction 1 as [|f ks fs dn (_ & Hf & _) _ IH]; [change (0 <= 2 * cost * 0); lia|].
  cbn [concat]. rewrite !zlength_app. lia.
Qed.

Lemma new_FilterBlockReader_at fs : zlength (filter_block fs) < 2 ^ 32 ->
  new_FilterBlockReader (filter_block fs) = Ret (MkFilterBlockReader (filter_block fs) (zlength (concat fs)) (zlength fs) 11).
Proof.
  intros Hlen. pose proof (filter_block_size fs) as Hsz. pose proof (zlength_nonneg fs). pose proof (zlength_nonneg (concat fs)).
  set (A := fixed32s (filter_start fs <$> seq 0 (length fs))).
  assert (zlength A = 4 * zlength fs) as HA.
  { unfold A. rewrite zlength_fixed32s. unfold zlength. by rewrite length_fmap, length_seq. }
  unfold new_FilterBlockReader, size. rewrite (proj2 (Z.ltb_ge _ _)) by lia.
  assert (byte_at (filter_block fs) (zlength (filter_block fs) - 1) = Ret 11) as ->.
  { replace (zlength (filter_block fs) - 1) with (zlength (concat fs ++ A ++ EncodeFixed32 (zlength (concat fs)))).
    - unfold filter_block. fold A. rewrite !(app_assoc _ _ [11]). apply byte_at_app.
    - rewrite !zlength_app, HA, zlength_fixed32. lia. }
  rewrite res_bind_ret. change (u64 (sext 8 11)) with 11.
  assert (DecodeFixed32 (zdrop (zlength (filter_block fs) - 5) (filter_block fs)) = Ret (zlength (concat fs))) as ->.
  { replace (zlength (filter_block fs) - 5) with (zlength (concat fs ++ A)) by (rewrite zlength_app; lia).
    unfold filter_block. fold A. rewrite app_assoc, zdrop_app. apply DecodeFixed32_Encode. lia. }
  rewrite res_bind_ret, (proj2 (Z.ltb_ge _ _)) by lia. do 2 f_equal.
  symmetry. apply Z.div_unique with 0; lia.
Qed.

(** The array of offsets, and its end. *)
Lemma filter_offset_at fs j : zlength (filter_block fs) < 2 ^ 32 -> (j <= length fs)%nat ->
  DecodeFixed32 (zdrop (zlength (concat fs) + Z.of_nat j * 4) (filter_block fs)) = Ret (filter_start fs j).
Proof.
  intros Hlen Hj. pose proof (filter_block_size fs) as Hsz. pose proof (zlength_nonneg fs). pose proof (filter_start_le fs j).
  unfold filter_block. rewrite zdrop_add_app by lia. destruct (decide (j < length fs)%nat) as [Hlt|Hge].
  - apply fixed32s_at; [|lia]. by rewrite list_lookup_fmap, lookup_seq_lt by done.
  - set (A := fixed32s _). replace (Z.of_nat j * 4) with (zlength A)
      by (unfold A; rewrite zlength_fixed32s; unfold zlength; rewrite length_fmap, length_seq; lia).
    rewrite zdrop_app. unfold filter_start. rewrite take_ge by lia. apply DecodeFixed32_Encode. unfold zlength in *. lia.
Qed.

(** The filter that is consulted for a block is that of its keys. *)
Lemma filter_block_read fs dn : Forall2 filters fs dn -> zlength (filter_block fs) < 2 ^ 32 ->
  exists r, new_FilterBlockReader (filter_block fs) = Ret r /\
    forall i ks o k', dn !! i = Some ks -> 0 <= o -> o / 2048 = Z.of_nat i -> valid k' ->
      exists b, FilterBlock_KeyMayMatch policy o k' r = Ret b /\ forall key, key ∈ ks -> same key k' -> b = true.
Proof.
  intros Hf Hlen. eexists. split; [by apply new_FilterBlockReader_at|]. intros i ks o k' Hi Ho Hoi Hv.
  destruct (Forall2_lookup_r _ _ _ _ _ Hf Hi) as (f & Hfi & Hfb & _ & Hm).
  pose proof (filter_block_size fs) as Hsz. pose proof (zlength_nonneg fs). apply lookup_lt_Some in Hfi as Hlt.
  unfold FilterBlock_KeyMayMatch. cbn [base_lg_ num_ filter_array filter_data]. unfold shift_right.
  cbn [Z.ltb Z.compare Pos.compare Pos.compare_cont]. rewrite res_bind_ret.
  rewrite Z.shiftr_div_pow2 by lia. change (2 ^ 11) with 2048. rewrite Hoi.
  rewrite (proj2 (Z.ltb_lt _ _)) by (unfold zlength; lia). rewrite filter_offset_at, res_bind_ret by (done || lia).
  replace (zlength (concat fs) + Z.of_nat i * 4 + 4) with (zlength (concat fs) + Z.of_nat (S i) * 4) by lia.
  rewrite filter_offset_at, res_bind_ret, (filter_start_S _ _ _ Hfi) by (done || lia).
  pose proof (filter_start_le fs i) as Hs0. pose proof (filter_start_le fs (S i)) as Hs1.
  rewrite (filter_start_S _ _ _ Hfi) in Hs1. pose proof (zlength_nonneg f).
  rewrite (proj2 (Z.leb_le _ _)), (proj2 (Z.leb_le _ _)) by lia. cbn [andb].
  replace (filter_start fs i + zlength f - filter_start fs i) with (zlength f) by lia.
  assert (ztake (zlength f) (zdrop (filter_start fs i) (filter_block fs)) = f) as ->.
  { unfold filter_block, filter_start. rewrite <- (take_drop_middle _ _ _ Hfi) at 2. rewrite concat_app. cbn [concat].
    rewrite <- !app_assoc, zdrop_app. apply ztake_app. }
  destruct (KeyMayMatch_ok (FilterPolicyOk := FilterPolicyOk0) k' f Hv Hfb ltac:(lia)) as [b E]. exists b. split; [done|].
  intros key Hk Hs. rewrite (Hm ltac:(lia) key k' Hk Hs Hv) in E. by injection E.
Qed.

(** ** The keys of a filter *)
Definition covered (dn : list (list bytes)) (pending : list bytes) (i : nat) (k : bytes) : Prop :=
  exists ks, (dn ++ [pending]) !! i = Some ks /\ k ∈ ks.

Lemma StartBlock_covered b fs dn pending o :
  filter_holds b fs dn pending -> 0 <= o < 2 ^ 64 -> zlength dn <= o / 2048 ->
  exists b' fs' dn' pending', StartBlock policy o b = Ret b' /\ filter_holds b' fs' dn' pending' /\
    zlength dn' = o / 2048 /\ zlength pending' <= zlength pending /\
    (forall i k, covered dn pending i k -> covered dn' pending' i k) /\
    zlength (concat dn') + zlength pending' = zlength (concat dn) + zlength pending.
Proof.
  intros Hb Ho Hle. destruct (StartBlock_holds b fs dn pending o Hb Ho Hle) as (b' & fs' & dn' & pending' & E & Hb' & Hl & Hcase).
  exists b', fs', dn', pending'. split; [done|]. split; [done|]. split; [done|]. destruct (decide _) as [_|_].
  - destruct Hcase as [-> ->]. split; [lia|]. split; [done|lia].
  - destruct Hcase as [-> (m & ->)]. split; [apply zlength_nonneg|].
    split; [|rewrite concat_app; cbn [concat]; rewrite !zlength_app; assert (concat (replicate m (@nil bytes)) = []) as -> by (clear; induction m as [|m IH]; [done|exact IH]); change (zlength []) with 0; lia].
    intros i k (ks & Hks & Hk). exists ks. split; [|done].
    assert ((dn ++ pending :: replicate m []) ++ [[]] = (dn ++ [pending]) ++ replicate m [] ++ [[]]) as -> by by rewrite <- !app_assoc.
    by apply lookup_app_l_Some.
Qed.

Lemma covered_snoc dn pending key i k : covered dn pending i k -> covered dn (pending ++ [key]) i k.
Proof.
  intros (ks & Hks & Hk). apply lookup_app_Some in Hks as [Hks|[Hge Hks]].
  - exists ks. split; [by apply lookup_app_l_Some|done].
  - exists (ks ++ [key]). destruct (i - length dn)%nat as [|n] eqn:E; [|by destruct n]. injection Hks as <-. split.
    + rewrite lookup_app_r, E by lia. done.
    + apply elem_of_app. by left.
Qed.

Lemma covered_new dn pending key : covered dn (pending ++ [key]) (length dn) key.
Proof. exists (pending ++ [key]). split; [by rewrite list_lookup_middle|apply elem_of_app; right; by left]. Qed.

Lemma covered_finished dn pending i k : covered dn pending i k ->
  exists ks, (dn ++ (if decide (pending = []) then [] else [pending])) !! i = Some ks /\ k ∈ ks.
Proof.
  intros (ks & Hks & Hk). exists ks. split; [|done]. destruct (decide _) as [->|]; [|done].
  rewrite app_nil_r. apply lookup_app_Some in Hks as [|[_ Hks]]; [done|].
  destruct (i - length dn)%nat as [|n]; [injection Hks as <-; by apply not_elem_of_nil in Hk|by destruct n].
Qed.

(** ** A filter block for groups of keys *)
Fixpoint add_groups (groups : list (Z * list bytes)) (b : FilterBlockBuilder) : res FilterBlockBuilder :=
  match groups with
  | [] => Ret b
  | (o, keys) :: groups =>
      let! b := StartBlock policy o b in
      add_groups groups (foldl (fun b k => AddKey k b) b keys)
  end.

Lemma AddKeys_holds keys b fs dn pending :
  filter_holds b fs dn pending -> Forall valid keys -> zlength pending + zlength keys < 2 ^ 31 ->
  exists pending', filter_holds (foldl (fun b k => AddKey k b) b keys) fs dn pending' /\
    zlength pending' = zlength pending + zlength keys /\
    (forall i k, covered dn pending i k -> covered dn pending' i k) /\
    forall k, k ∈ keys -> covered dn pending' (length dn) k.
Proof.
  intros Hb Hkeys. revert b pending Hb. induction Hkeys as [|key keys Hkey _ IH]; intros b pending Hb Hl.
  { exists pending. split; [done|]. split; [change (zlength []) with 0; lia|]. split; [done|]. by intros k ?%not_elem_of_nil. }
  rewrite zlength_cons in *. pose proof (zlength_nonneg keys).
  destruct (IH (AddKey key b) (pending ++ [key])) as (pending' & Hb' & Hl' & Hmono & Hin).
  - apply AddKey_holds; [done|done|lia].
  - rewrite zlength_app. change (zlength [key]) with 1. lia.
  - exists pending'. split; [done|]. split; [rewrite Hl', zlength_app; change (zlength [key]) with 1; lia|].
    split; [intros i k Hc; by apply Hmono, covered_snoc|]. intros k [->|Hk]%elem_of_cons; [apply Hmono, covered_new|by apply Hin].
Qed.

Definition group_keys (groups : list (Z * list bytes)) : list bytes := concat (snd <$> groups).

Lemma add_groups_holds groups b fs dn pending :
  filter_holds b fs dn pending -> Forall (fun g => zlength dn <= g.1 / 2048 /\ 0 <= g.1 < 2 ^ 64 /\ Forall valid g.2) groups ->
  Sorted.StronglySorted Z.le (fst <$> groups) -> zlength pending + zlength (group_keys groups) < 2 ^ 31 ->
  exists b' fs' dn' pending', add_groups groups b = Ret b' /\ filter_holds b' fs' dn' pending' /\
    (forall i k, covered dn pending i k -> covered dn' pending' i k) /\
    forall o ks k, (o, ks) ∈ groups -> k ∈ ks -> covered dn' pending' (Z.to_nat (o / 2048)) k.
Proof.
  revert b fs dn pending. induction groups as [|[o keys] groups IH]; intros b fs dn pending Hb Hg Hs Hl.
  { exists b, fs, dn, pending. split; [done|]. split; [done|]. split; [done|]. by intros o ks k ?%not_elem_of_nil. }
  apply Forall_cons_1 in Hg as [(Hle & Ho & Hv) Hg]. cbn [fst snd] in *. inversion Hs as [|? ? Hs' Hall]; subst.
  unfold group_keys in Hl. cbn in Hl. fold (group_keys groups) in Hl. rewrite zlength_app in Hl.
  destruct (StartBlock_covered b fs dn pending o Hb Ho Hle) as (b1 & fs1 & dn1 & p1 & E1 & Hb1 & Hl1 & Hp1 & Hc1 & _).
  pose proof (zlength_nonneg (group_keys groups)).
  destruct (AddKeys_holds keys b1 fs1 dn1 p1 Hb1 Hv) as (p2 & Hb2 & Hp2 & Hc2 & Hin2); [lia|].
  destruct (IH _ fs1 dn1 p2 Hb2) as (b3 & fs3 & dn3 & p3 & E3 & Hb3 & Hc3 & Hin3).
  - apply Forall_lookup. intros i g Hi. pose proof (Forall_lookup_1 _ _ _ _ Hg Hi) as (_ & ? & ?). split; [|done].
    rewrite Hl1. apply Z.div_le_mono; [lia|]. eapply (Forall_elem (Z.le o)); [exact Hall|]. apply list_elem_of_fmap_2. by eapply list_elem_of_lookup_2.
  - done.
  - lia.
  - exists b3, fs3, dn3, p3. cbn. rewrite E1, res_bind_ret. split; [done|]. split; [done|]. split; [intros i k Hc; by apply Hc3, Hc2, Hc1|].
    intros o' ks k [[= -> ->]|Hin]%elem_of_cons Hk; [|by eapply Hin3]. apply Hc3.
    replace (Z.to_nat (o / 2048)) with (length dn1) by (unfold zlength in Hl1; lia). by apply Hin2.
Qed.

Lemma new_FilterBlockBuilder_holds : filter_holds new_FilterBlockBuilder [] [] [].
Proof. by split; try constructor. Qed.
End filter_block.

(** C24: No false negatives: when the keys of the blocks of a file are added in the
    order of the offsets of the blocks, the filter that is consulted for the
    offset of a block matches every key of that block, at any distance between
    the blocks, provided the filter block is below 4 GB and the policy meets its
    interface ([FilterPolicyOk]). *)
Theorem filter_block_matches policy valid same cost `{!FilterPolicyOk policy valid same cost} groups :
  Forall (fun g => 0 <= g.1 < 2 ^ 64 /\ Forall valid g.2) groups -> Sorted.StronglySorted Z.le (fst <$> groups) ->
  zlength (group_keys groups) < 2 ^ 31 ->
  exists b contents b', add_groups policy groups new_FilterBlockBuilder = Ret b /\ FilterBlock_Finish policy b = Ret (contents, b') /\
    (zlength contents < 2 ^ 32 -> forall o ks k k', (o, ks) ∈ groups -> k ∈ ks -> same k k' -> valid k' ->
       exists r, new_FilterBlockReader contents = Ret r /\ FilterBlock_KeyMayMatch policy o k' r = Ret true).
Proof.
  intros Hg Hs Hl.
  destruct (add_groups_holds policy valid same cost groups _ [] [] [] (new_FilterBlockBuilder_holds policy valid same cost)) as (b & fs & dn & p & E & Hb & _ & Hin); [|done|done|].
  { eapply List.Forall_impl; [|exact Hg]. intros g [Ho Hv]. split; [|done]. change (zlength []) with 0. apply Z.div_pos; lia. }
  destruct (FilterBlock_Finish_holds policy valid same cost b fs dn p Hb) as ([contents b'] & fs' & dn' & E' & Hf & -> & _ & Hc).
  exists b, contents, b'. split; [done|]. split; [done|]. cbn [fst] in Hc. intros Hlen o ks k k' Hok Hk Hsame Hv. specialize (Hc Hlen). subst contents.
  destruct (covered_finished _ _ _ _ (Hin o ks k Hok Hk)) as (ks' & Hks' & Hk').
  pose proof (Forall_elem _ _ _ Hg Hok) as [Ho _]. cbn in Ho.
  destruct (filter_block_read policy valid same cost fs' _ Hf Hlen) as (r & Er & Hr). exists r. split; [done|].
  destruct (Hr _ ks' o k' Hks') as (m & -> & Hm); [lia|rewrite Z2Nat.id; [done|apply Z.div_pos; lia]|done|]. by rewrite (Hm k).
Qed.

Lemma filter_block_matches_witness :
  exists p b contents b' r, NewBloomFilterPolicy 10 = Ret p /\
    add_groups (BloomFilter p) [(0, [[1; 2]; [3]]); (1500, [[4]]); (9000, [[5]; [6; 6]])] new_FilterBlockBuilder = Ret b /\
    FilterBlock_Finish (BloomFilter p) b = Ret (contents, b') /\ new_FilterBlockReader contents = Ret r /\
    FilterBlock_KeyMayMatch (BloomFilter p) 9000 [6; 6] r = Ret true.
Proof.
  set (p := MkBloomFilterPolicy 10 6).
  assert (FilterPolicyOk (BloomFilter p) bytes_ok eq 20) as Hp by (apply BloomFilter_ok; cbn; lia).
  destruct (filter_block_matches (BloomFilter p) bytes_ok eq 20 [(0, [[1; 2]; [3]]); (1500, [[4]]); (9000, [[5]; [6; 6]])])
    as (b & contents & b' & E1 & E2 & Hm).
  - repeat (constructor; [split; [cbn; lia|]; repeat (constructor; [by apply bytes_ok_forallb|]); constructor|]). constructor.
  - change (Sorted.StronglySorted Z.le [0; 1500; 9000]).
    repeat first [apply Sorted.SSorted_nil|apply Sorted.SSorted_cons|apply List.Forall_nil|apply List.Forall_cons|lia].
  - done.
  - destruct (Hm) with (o := 9000) (ks := [[5]; [6; 6]]) (k := [6; 6]) (k' := [6; 6]) as (r & E3 & E4).
    + vm_compute in E1. injection E1 as <-. vm_compute in E2. injection E2 as <- <-. reflexivity.
    + do 2 right. left.
    + right. left.
    + done.
    + by apply bytes_ok_forallb.
    + exists p, b, contents, b', r. split; [vm_compute; reflexivity|]. split; [exact E1|]. split; [exact E2|]. split; [exact E3|exact E4].
Defined.
