(* ===== verification/FormatFacts.v ===== *)
(** * LevelDB's table format, proved *)
From S2P Require Import Prelude WireFormat LdbBase Coding Comparator Crc32c Format.

(** ** Block handles *)
Definition handle_ok (h : BlockHandle) : Prop := 0 <= offset_ h < 2 ^ 64 - 1 /\ 0 <= handle_size h < 2 ^ 64 - 1.

Definition handle_bytes (h : BlockHandle) : bytes := varint_bytes (offset_ h) ++ varint_bytes (handle_size h).

Lemma handle_bytes_ok h : handle_ok h -> bytes_ok (handle_bytes h).
Proof. intros [? ?]. apply bytes_ok_app. split; apply varint_bytes_ok; lia. Qed.

Lemma zlength_handle_bytes h : 0 <= zlength (handle_bytes h) <= 20.
Proof.
  unfold handle_bytes. rewrite zlength_app. pose proof (zlength_varint_bytes (offset_ h)). pose proof (zlength_varint_bytes (handle_size h)).
  pose proof (zlength_nonneg (varint_bytes (offset_ h))). pose proof (zlength_nonneg (varint_bytes (handle_size h))). lia.
Qed.

Lemma BlockHandle_EncodeTo_ok h dst : handle_ok h -> BlockHandle_EncodeTo h dst = Ret (dst ++ handle_bytes h).
Proof.
  intros [Ho Hs]. unfold BlockHandle_EncodeTo. rewrite (proj2 (Z.eqb_neq _ _)), (proj2 (Z.eqb_neq _ _)) by lia. cbn [negb assert_].
  rewrite !res_bind_ret, PutVarint64_spec, res_bind_ret, PutVarint64_spec by lia. unfold handle_bytes. by rewrite app_assoc.
Qed.

Lemma BlockHandle_DecodeFrom_ok h0 h rest : handle_ok h -> bytes_ok rest ->
  BlockHandle_DecodeFrom h0 (handle_bytes h ++ rest) = Ret (Status_OK, h, rest).
Proof.
  intros [Ho Hs] Hr. unfold BlockHandle_DecodeFrom, handle_bytes. rewrite <- app_assoc.
  rewrite (GetVarint64_gets (offset_ h)); [|lia|apply bytes_ok_app; split; [apply varint_bytes_ok; lia|done]]. rewrite res_bind_ret.
  rewrite (GetVarint64_gets (handle_size h)) by (done || lia). rewrite res_bind_ret. by destruct h.
Qed.

(** Decoding a handle is defined on any bytes. *)
Lemma BlockHandle_DecodeFrom_any h input : bytes_ok input -> exists s h' rest,
  BlockHandle_DecodeFrom h input = Ret (s, h', rest) /\ bytes_ok rest /\
  (ok s = true -> 0 <= offset_ h' < 2 ^ 64 /\ 0 <= handle_size h' < 2 ^ 64).
Proof.
  intros Hin. unfold BlockHandle_DecodeFrom. destruct (GetVarint64_shrinks input Hin) as (o & rest & -> & Hr & _ & Ho). rewrite res_bind_ret.
  destruct o as [offset|]; [|eexists _, _, _; split; [done|]; split; [done|]; intros Hf; discriminate Hf].
  destruct (GetVarint64_shrinks rest Hr) as (o & rest' & -> & Hr' & _ & Ho'). rewrite res_bind_ret.
  destruct o as [sz|]; (eexists _, _, _; split; [done|]; split; [done|]); [|intros Hf; discriminate Hf].
  intros _. split; [by apply Ho|by apply Ho'].
Qed.

(** ** The footer *)
Definition magic_bytes : bytes := EncodeFixed32 (u32 (kTableMagicNumber .& 0xffffffff)) ++ EncodeFixed32 (u32 (Z.shiftr kTableMagicNumber 32)).

Definition footer_bytes (f : Footer) : bytes :=
  let hs := handle_bytes (metaindex_handle_ f) ++ handle_bytes (index_handle_ f) in
  hs ++ replicate (Z.to_nat (40 - zlength hs)) 0 ++ magic_bytes.

Lemma footer_handles f : 0 <= zlength (handle_bytes (metaindex_handle_ f) ++ handle_bytes (index_handle_ f)) <= 40.
Proof.
  rewrite zlength_app. pose proof (zlength_handle_bytes (metaindex_handle_ f)). pose proof (zlength_handle_bytes (index_handle_ f)). lia.
Qed.

Lemma zlength_footer_front f :
  zlength ((handle_bytes (metaindex_handle_ f) ++ handle_bytes (index_handle_ f)) ++
    replicate (Z.to_nat (40 - zlength (handle_bytes (metaindex_handle_ f) ++ handle_bytes (index_handle_ f)))) 0) = 40.
Proof.
  rewrite zlength_app. unfold zlength at 2. rewrite length_replicate. pose proof (footer_handles f). lia.
Qed.

Lemma zlength_footer f : zlength (footer_bytes f) = 48.
Proof. unfold footer_bytes. rewrite app_assoc, zlength_app, zlength_footer_front. done. Qed.

(** [EncodeTo] only works on an empty string, which is what its caller has. *)
Lemma Footer_EncodeTo_ok f : handle_ok (metaindex_handle_ f) -> handle_ok (index_handle_ f) -> Footer_EncodeTo f [] = Ret (footer_bytes f).
Proof.
  intros Hm Hi. unfold Footer_EncodeTo. rewrite BlockHandle_EncodeTo_ok, res_bind_ret, BlockHandle_EncodeTo_ok, res_bind_ret by done. cbn [app].
  set (hs := handle_bytes (metaindex_handle_ f) ++ handle_bytes (index_handle_ f)).
  assert (resize (2 * kMaxEncodedLength) hs = hs ++ replicate (Z.to_nat (40 - zlength hs)) 0) as ->.
  { pose proof (footer_handles f) as Hl. fold hs in Hl. unfold resize. change (2 * kMaxEncodedLength) with 40. unfold size.
    destruct (Z.ltb_spec (zlength hs) 40) as [|Hge]; [done|]. replace 40 with (zlength hs) by lia. by rewrite ztake_all, Z.sub_diag, app_nil_r. }
  unfold PutFixed32. rewrite <- (app_assoc (hs ++ _)). fold magic_bytes. rewrite <- app_assoc. fold (footer_bytes f).
  change (hs ++ replicate (Z.to_nat (40 - zlength hs)) 0 ++ magic_bytes) with (footer_bytes f).
  assert (size (footer_bytes f) = 48) as -> by apply zlength_footer. done.
Qed.

Lemma Footer_DecodeFrom_ok f0 f rest : handle_ok (metaindex_handle_ f) -> handle_ok (index_handle_ f) -> bytes_ok rest ->
  Footer_DecodeFrom f0 (footer_bytes f ++ rest) = Ret (Status_OK, f, rest).
Proof.
  intros Hm Hi Hr. unfold Footer_DecodeFrom. change (kEncodedLength - 8) with 40.
  set (hs := handle_bytes (metaindex_handle_ f) ++ handle_bytes (index_handle_ f)). set (pad := replicate (Z.to_nat (40 - zlength hs)) 0).
  assert (footer_bytes f ++ rest = (hs ++ pad) ++ magic_bytes ++ rest) as E by (unfold footer_bytes; fold hs pad; by rewrite <- !app_assoc).
  assert (zdrop 40 (footer_bytes f ++ rest) = magic_bytes ++ rest) as ->.
  { rewrite E. rewrite <- (zlength_footer_front f) at 1. fold hs pad. apply zdrop_app. }
  unfold magic_bytes. rewrite <- app_assoc, DecodeFixed32_Encode, res_bind_ret by (apply wrap_bound; lia).
  assert (zdrop 4 (EncodeFixed32 (u32 (kTableMagicNumber .& 0xffffffff)) ++ EncodeFixed32 (u32 (Z.shiftr kTableMagicNumber 32)) ++ rest) =
    EncodeFixed32 (u32 (Z.shiftr kTableMagicNumber 32)) ++ rest) as ->.
  { rewrite <- (zlength_fixed32 (u32 (kTableMagicNumber .& 0xffffffff))) at 1. apply zdrop_app. }
  rewrite DecodeFixed32_Encode, res_bind_ret by (apply wrap_bound; lia).
  change (negb _) with false. cbn match. rewrite E. unfold hs at 1. rewrite <- !app_assoc.
  assert (bytes_ok (pad ++ magic_bytes ++ rest)) as Hpad.
  { repeat (apply bytes_ok_app; split); try done; try apply le_bytes_ok. apply Forall_replicate. done. }
  rewrite BlockHandle_DecodeFrom_ok, res_bind_ret by (done || (apply bytes_ok_app; split; [by apply handle_bytes_ok|done])). cbn [ok].
  rewrite BlockHandle_DecodeFrom_ok, res_bind_ret by done. cbn [ok]. destruct f as [m i]. do 3 f_equal.
Qed.

(** Decoding a footer is defined on any 48 bytes. *)
Lemma Footer_DecodeFrom_any f input : bytes_ok input -> 48 <= zlength input -> exists s f' rest, Footer_DecodeFrom f input = Ret (s, f', rest).
Proof.
  intros Hin Hl. unfold Footer_DecodeFrom. change (kEncodedLength - 8) with 40.
  assert (forall n, 0 <= n <= 4 -> exists v, DecodeFixed32 (zdrop n (zdrop 40 input)) = Ret v) as Hd.
  { intros n Hn. unfold DecodeFixed32, size. rewrite !zlength_zdrop by (rewrite ?zlength_zdrop; lia).
    rewrite (proj2 (Z.ltb_ge _ _)) by lia. unfold kLittleEndian. by eexists. }
  destruct (Hd 0 ltac:(lia)) as (lo & Elo). destruct (Hd 4 ltac:(lia)) as (hi & Ehi).
  change (zdrop 0 (zdrop 40 input)) with (zdrop 40 input) in Elo. rewrite Elo, Ehi, !res_bind_ret.
  destruct (negb _); [by eexists _, _, _|].
  destruct (BlockHandle_DecodeFrom_any (metaindex_handle_ f) input Hin) as (s & h & rest & -> & Hr & _). rewrite res_bind_ret.
  destruct (ok s); [|by eexists _, _, _]. cbn [index_handle_].
  destruct (BlockHandle_DecodeFrom_any (index_handle_ f) rest Hr) as (s2 & h2 & rest2 & -> & _ & _). rewrite res_bind_ret. by eexists _, _, _.
Qed.

(** ** Blocks in a file *)

(** The type and the checksum behind a block. *)
Definition trailer (block : bytes) : bytes := 0 :: EncodeFixed32 (Mask (crc32c 0 (block ++ [0]))).

Lemma zlength_trailer block : zlength (trailer block) = 5.
Proof. unfold trailer. rewrite zlength_cons, zlength_fixed32. done. Qed.

Section read.
Context {F : Type} `{RandomReadableFile F}.

(** A block that is in the file where its handle says is read back. *)
Lemma ReadBlock_ok (f : F) options h pre block post :
  raf_contents f = pre ++ block ++ trailer block ++ post -> offset_ h = zlength pre -> handle_size h = zlength block ->
  bytes_ok block -> zlength block < 2 ^ 63 ->
  exists b, ReadBlock f options h = Ret (Status_OK, MkBlockContents block b b).
Proof.
  intros Hf Ho Hs Hb Hl. unfold ReadBlock. pose proof (zlength_nonneg pre). pose proof (zlength_nonneg block).
  unfold kBlockTrailerSize. rewrite Hs, Ho, wrap_small by lia.
  destruct (raf_Read_ok (zlength pre) (zlength block + 5) f) as [Hok Hdata]; [lia..|].
  destruct (raf_Read (zlength pre) (zlength block + 5) f) as [[s data] in_buf]. cbn [fst snd] in *. rewrite Hok. cbn [negb].
  assert (data = block ++ trailer block) as ->.
  { rewrite Hdata, Hf, zdrop_app, app_assoc. replace (zlength block + 5) with (zlength (block ++ trailer block)); [apply ztake_app|].
    by rewrite zlength_app, zlength_trailer. }
  unfold size. rewrite zlength_app, zlength_trailer, Z.eqb_refl. cbn [negb].
  assert ((if verify_checksums options then
             let! stored := DecodeFixed32 (zdrop (zlength block + 1) (block ++ trailer block)) in
             let! actual := Value 0 (ztake (zlength block + 1) (block ++ trailer block)) in
             Ret (negb (actual =? Unmask stored))
           else Ret false) = Ret false) as ->.
  { destruct (verify_checksums options); [|done].
    assert (block ++ trailer block = (block ++ [0]) ++ EncodeFixed32 (Mask (crc32c 0 (block ++ [0])))) as E by (unfold trailer; by rewrite <- app_assoc).
    assert (zlength block + 1 = zlength (block ++ [0])) as El by (by rewrite zlength_app). rewrite El, E, zdrop_app, ztake_app.
    assert (bytes_ok (block ++ [0])) as Hb0 by (apply bytes_ok_app; split; [done|by repeat constructor]).
    pose proof (crc32c_bound 0 _ Hb0 ltac:(lia)) as Hcrc. destruct (Unmask_Mask _ Hcrc) as [Hm Hu].
    rewrite <- (app_nil_r (EncodeFixed32 _)), DecodeFixed32_Encode, res_bind_ret by done. unfold Value.
    rewrite Extend_spec, res_bind_ret, Hu, Z.eqb_refl; [done| |lia]. split_and!; [done|lia|rewrite <- El; lia]. }
  rewrite res_bind_ret. exists in_buf. unfold uncompress, trailer. rewrite byte_at_app, res_bind_ret. cbn [Z.eqb CompressionType_value].
  by rewrite ztake_app.
Qed.
End read.

(** [n + kBlockTrailerSize] wraps: for the handle of a hostile index, of 2^64 - 5
    bytes, [ReadBlock] reads nothing, takes that for the whole block, and
    then reads the type byte far outside the buffer. *)
Example read_block_size_wraps :
  ReadBlock [1; 2; 3] new_ReadOptions (MkBlockHandle 0 (2 ^ 64 - 5)) = UB.
Proof.
  unfold ReadBlock. cbn [handle_size offset_ raf_Read MemFile_random]. change (u64 (2 ^ 64 - 5 + kBlockTrailerSize)) with 0. cbn [ok negb].
  change (size (ztake 0 (zdrop 0 [1; 2; 3])) =? 0) with true. cbn [negb verify_checksums new_ReadOptions]. rewrite res_bind_ret.
  unfold uncompress, byte_at. rewrite (proj2 (Z.leb_le 0 (2 ^ 64 - 5))) by lia. change (ztake 0 (zdrop 0 [1; 2; 3])) with (@nil Z).
  by rewrite lookup_nil.
Qed.
