(* ===== verification/TableBuilder.v ===== *)
(** * LevelDB: building tables (table_builder.h, table_builder.cc)

    The parts of [Options] that tables use, and the builder of a table file.
    [compressed_output] is cleared before [WriteBlock] returns: it is local. *)
From S2P Require Import Prelude LdbBase Coding Comparator Crc32c Block Format Filter.

(** ** Options (options.h) *)
Record Options : Type := MkOptions {
  opt_comparator : Comparator;
  paranoid_checks : bool;
  block_size : Z;
  block_restart_interval : Z;
  compression : CompressionType;
  filter_policy : option FilterPolicy;
}.

Definition new_Options : Options := MkOptions BytewiseComparator false (4 * 1024) 16 kSnappyCompression None.

(** ** TableBuilder::Rep: a filter block keeps its own pointer to the policy. *)
Record Rep (F : Type) : Type := MkRep {
  options : Options;
  index_block_options : Options;
  file : F;
  rep_offset : Z;
  rep_status : Status;
  data_block : BlockBuilder;
  index_block : BlockBuilder;
  rep_last_key : bytes;
  num_entries : Z;
  closed : bool;
  filter_block : option (FilterPolicy * FilterBlockBuilder);
  pending_index_entry : bool;
  pending_handle : BlockHandle;
}.
Arguments MkRep {F}.
Arguments options {F}.
Arguments index_block_options {F}.
Arguments file {F}.
Arguments rep_offset {F}.
Arguments rep_status {F}.
Arguments data_block {F}.
Arguments index_block {F}.
Arguments rep_last_key {F}.
Arguments num_entries {F}.
Arguments closed {F}.
Arguments filter_block {F}.
Arguments pending_index_entry {F}.
Arguments pending_handle {F}.

(** [index_block_options.block_restart_interval = 1]. *)
Definition index_options (o : Options) : Options :=
  MkOptions (opt_comparator o) (paranoid_checks o) (block_size o) 1 (compression o) (filter_policy o).

Section builder.
Context {F : Type} `{WritableFile F}.
Implicit Types (r : Rep F).

(** Field updates. *)
Definition set_options (o i : Options) r : Rep F :=
  MkRep o i (file r) (rep_offset r) (rep_status r) (data_block r) (index_block r) (rep_last_key r)
    (num_entries r) (closed r) (filter_block r) (pending_index_entry r) (pending_handle r).
Definition set_file (f : F) (offset : Z) (s : Status) r : Rep F :=
  MkRep (options r) (index_block_options r) f offset s (data_block r) (index_block r) (rep_last_key r)
    (num_entries r) (closed r) (filter_block r) (pending_index_entry r) (pending_handle r).
Definition set_blocks (data index : BlockBuilder) r : Rep F :=
  MkRep (options r) (index_block_options r) (file r) (rep_offset r) (rep_status r) data index (rep_last_key r)
    (num_entries r) (closed r) (filter_block r) (pending_index_entry r) (pending_handle r).
Definition set_last_key (key : bytes) (n : Z) r : Rep F :=
  MkRep (options r) (index_block_options r) (file r) (rep_offset r) (rep_status r) (data_block r) (index_block r) key
    n (closed r) (filter_block r) (pending_index_entry r) (pending_handle r).
Definition set_closed r : Rep F :=
  MkRep (options r) (index_block_options r) (file r) (rep_offset r) (rep_status r) (data_block r) (index_block r) (rep_last_key r)
    (num_entries r) true (filter_block r) (pending_index_entry r) (pending_handle r).
Definition set_filter (b : option (FilterPolicy * FilterBlockBuilder)) r : Rep F :=
  MkRep (options r) (index_block_options r) (file r) (rep_offset r) (rep_status r) (data_block r) (index_block r) (rep_last_key r)
    (num_entries r) (closed r) b (pending_index_entry r) (pending_handle r).
Definition set_pending (pending : bool) (h : BlockHandle) r : Rep F :=
  MkRep (options r) (index_block_options r) (file r) (rep_offset r) (rep_status r) (data_block r) (index_block r) (rep_last_key r)
    (num_entries r) (closed r) (filter_block r) pending h.

(** [if (r->filter_block != nullptr) r->filter_block->StartBlock(offset);] *)
Definition start_filter_block (offset : Z) r : res (Rep F) :=
  match filter_block r with
  | Some (policy, b) => let! b := StartBlock policy offset b in Ret (set_filter (Some (policy, b)) r)
  | None => Ret r
  end.

Definition new_TableBuilder (opt : Options) (f : F) : res (Rep F) :=
  let! data := new_BlockBuilder (block_restart_interval opt) in
  let! index := new_BlockBuilder (block_restart_interval opt) in
  let filter := match filter_policy opt with Some p => Some (p, new_FilterBlockBuilder) | None => None end in
  start_filter_block 0 (MkRep opt (index_options opt) f 0 Status_OK data index [] 0 false filter false new_BlockHandle).

(** [same]: whether the two comparator pointers are equal. *)
Definition ChangeOptions (same : bool) (opt : Options) r : Status * Rep F :=
  if negb same then (InvalidArgument (str "changing comparator while building table"), r)
  else (Status_OK, set_options opt (index_options opt) r).

Definition tb_ok r : bool := ok (rep_status r).

(** The handle and the state. *)
Definition WriteRawBlock (block_contents : bytes) (type : CompressionType) r : res (BlockHandle * Rep F) :=
  let handle := MkBlockHandle (rep_offset r) (size block_contents) in
  let '(s, f) := wf_Append block_contents (file r) in
  let r := set_file f (rep_offset r) s r in
  if ok s then
    let type_byte := u8 (CompressionType_value type) in
    let! crc := Value 0 block_contents in
    let! crc := Extend 0 crc [type_byte] in
    let trailer := type_byte :: EncodeFixed32 (Mask crc) in
    let '(s, f) := wf_Append trailer (file r) in
    Ret (handle, set_file f (if ok s then u64 (rep_offset r + u64 (size block_contents + kBlockTrailerSize)) else rep_offset r) s r)
  else Ret (handle, r).

(** What is written of [raw], and its type. *)
Definition compress (type : CompressionType) (raw : bytes) : bytes * CompressionType :=
  match type with
  | kNoCompression => (raw, type)
  | kSnappyCompression =>
      match Snappy_Compress raw with
      | Some compressed =>
          if size compressed <? size raw - size raw / 8 then (compressed, type) else (raw, kNoCompression)
      | None => (raw, kNoCompression)
      end
  end.

(** The handle, the reset block and the state. *)
Definition WriteBlock (block : BlockBuilder) r : res (BlockHandle * BlockBuilder * Rep F) :=
  let! _ := assert_ (tb_ok r) in
  let '(raw, block) := Finish block in
  let '(block_contents, type) := compress (compression (options r)) raw in
  let! '(handle, r) := WriteRawBlock block_contents type r in
  Ret (handle, Reset block, r).

Definition Flush r : res (Rep F) :=
  let! _ := assert_ (negb (closed r)) in
  if negb (tb_ok r) then Ret r
  else if builder_empty (data_block r) then Ret r
  else
    let! _ := assert_ (negb (pending_index_entry r)) in
    let! '(handle, data, r) := WriteBlock (data_block r) r in
    let r := set_pending (pending_index_entry r) handle (set_blocks data (index_block r) r) in
    let r :=
      if tb_ok r then
        let r := set_pending true (pending_handle r) r in
        let '(s, f) := wf_Flush (file r) in
        set_file f (rep_offset r) s r
      else r in
    start_filter_block (rep_offset r) r.

(** Add [last_key], which the caller has shortened, to the index. *)
Definition add_index_entry (last_key : bytes) r : res (Rep F) :=
  let! handle_encoding := BlockHandle_EncodeTo (pending_handle r) [] in
  let o := index_block_options r in
  let! index := Add (block_restart_interval o) (opt_comparator o) last_key handle_encoding (index_block r) in
  Ret (set_pending false (pending_handle r) (set_last_key last_key (num_entries r) (set_blocks (data_block r) index r))).

Definition tb_Add (key value : bytes) r : res (Rep F) :=
  let! _ := assert_ (negb (closed r)) in
  if negb (tb_ok r) then Ret r
  else
    let! _ := (if 0 <? num_entries r then
                 let! c := Compare (opt_comparator (options r)) key (rep_last_key r) in assert_ (0 <? c)
               else Ret tt) in
    let! r := (if pending_index_entry r then
                 let! _ := assert_ (builder_empty (data_block r)) in
                 let! last_key := FindShortestSeparator (opt_comparator (options r)) (rep_last_key r) key in
                 add_index_entry last_key r
               else Ret r) in
    let r := match filter_block r with
             | Some (policy, b) => set_filter (Some (policy, AddKey key b)) r
             | None => r
             end in
    let r := set_last_key key (num_entries r + 1) r in
    let o := options r in
    let! data := Add (block_restart_interval o) (opt_comparator o) key value (data_block r) in
    let r := set_blocks data (index_block r) r in
    if block_size o <=? CurrentSizeEstimate (data_block r) then Flush r else Ret r.

Definition filter_key (policy : FilterPolicy) : bytes := str "filter." ++ fp_Name policy.

(** The metaindex block. *)
Definition build_metaindex (filter_handle : BlockHandle) r : res BlockBuilder :=
  let o := options r in
  let! b := new_BlockBuilder (block_restart_interval o) in
  match filter_block r with
  | Some _ =>
      let! policy := of_option (filter_policy o) in
      let! handle_encoding := BlockHandle_EncodeTo filter_handle [] in
      Add (block_restart_interval o) (opt_comparator o) (filter_key policy) handle_encoding b
  | None => Ret b
  end.

(** The parts of [Finish]: each runs only if all went well so far. *)
Definition write_filter r : res (BlockHandle * Rep F) :=
  match filter_block r with
  | Some (policy, b) =>
      if tb_ok r then
        let! '(contents, b) := FilterBlock_Finish policy b in
        WriteRawBlock contents kNoCompression (set_filter (Some (policy, b)) r)
      else Ret (new_BlockHandle, r)
  | None => Ret (new_BlockHandle, r)
  end.

Definition write_metaindex (filter_handle : BlockHandle) r : res (BlockHandle * Rep F) :=
  if tb_ok r then
    let! b := build_metaindex filter_handle r in
    let! '(handle, _, r) := WriteBlock b r in Ret (handle, r)
  else Ret (new_BlockHandle, r).

Definition write_index r : res (BlockHandle * Rep F) :=
  if tb_ok r then
    let! r := (if pending_index_entry r then
                 let! last_key := FindShortSuccessor (opt_comparator (options r)) (rep_last_key r) in
                 add_index_entry last_key r
               else Ret r) in
    let! '(handle, index, r) := WriteBlock (index_block r) r in
    Ret (handle, set_blocks (data_block r) index r)
  else Ret (new_BlockHandle, r).

Definition write_footer (metaindex index : BlockHandle) r : res (Rep F) :=
  if tb_ok r then
    let! footer_encoding := Footer_EncodeTo (MkFooter metaindex index) [] in
    let '(s, f) := wf_Append footer_encoding (file r) in
    Ret (set_file f (if ok s then u64 (rep_offset r + size footer_encoding) else rep_offset r) s r)
  else Ret r.

Definition tb_Finish r : res (Status * Rep F) :=
  let! r := Flush r in
  let! _ := assert_ (negb (closed r)) in
  let r := set_closed r in
  let! '(filter_block_handle, r) := write_filter r in
  let! '(metaindex_block_handle, r) := write_metaindex filter_block_handle r in
  let! '(index_block_handle, r) := write_index r in
  let! r := write_footer metaindex_block_handle index_block_handle r in
  Ret (rep_status r, r).

Definition Abandon r : res (Rep F) :=
  let! _ := assert_ (negb (closed r)) in
  Ret (set_closed r).

(** The destructor's assertion. *)
Definition delete_TableBuilder r : res unit := assert_ (closed r).

Definition NumEntries r : Z := u64 (num_entries r).
Definition FileSize r : Z := rep_offset r.
End builder.
