(* ===== verification/Table.v ===== *)
(** * LevelDB: reading tables (table.h, table.cc)

    A table over a random-access file, with an optional block cache.  The cache
    is threaded through as the state behind [options.block_cache]; who frees
    blocks is not modelled.  [Rep::status] is never used. *)
From S2P Require Import Prelude LdbBase Coding Comparator Iterator Block TwoLevel Format Filter TableBuilder.

(** [class Cache], as [Table] uses it: values are blocks.  A handle is given
    up when the iterator over its block is deleted; that is not modelled. *)
Class BlockCache (C : Type) : Type := {
  cache_NewId : C -> Z * C;
  cache_Lookup : bytes -> C -> res (option Block * C);
  cache_Insert : bytes -> Block -> Z -> C -> res C;
}.

(** What a table relies on: a cache only returns what was inserted.
    [cache_all P c]: all pairs in [c] satisfy [P]. *)
Class BlockCacheOk (C : Type) `{BlockCache C} : Type := {
  cache_all : (bytes -> Block -> Prop) -> C -> Prop;
  cache_all_impl : forall (P Q : bytes -> Block -> Prop) c, (forall k b, P k b -> Q k b) -> cache_all P c -> cache_all Q c;
  cache_NewId_ok : forall P c, cache_all P c -> cache_all P (cache_NewId c).2;
  cache_Lookup_ok : forall P k c, bytes_ok k -> cache_all P c ->
    exists o c', cache_Lookup k c = Ret (o, c') /\ cache_all P c' /\ forall b, o = Some b -> P k b;
  cache_Insert_ok : forall P k b charge c, bytes_ok k -> 0 < charge < 2 ^ 63 -> cache_all P c -> P k b ->
    exists c', cache_Insert k b charge c = Ret c' /\ cache_all P c';
}.

Record Table (F : Type) : Type := MkTable {
  table_options : Options;
  table_file : F;
  cache_id : Z;
  table_filter : option (FilterPolicy * FilterBlockReader);
  metaindex_handle : BlockHandle;
  table_index : Block;
}.
Arguments MkTable {F}.
Arguments table_options {F}.
Arguments table_file {F}.
Arguments cache_id {F}.
Arguments table_filter {F}.
Arguments metaindex_handle {F}.
Arguments table_index {F}.

Section table.
Context {F : Type} `{RandomAccessFile F} {C : Type} `{BlockCache C}.
Implicit Types (t : Table F) (cache : option C).

(** [ReadOptions opt; if (options.paranoid_checks) opt.verify_checksums = true;]. *)
Definition meta_options (o : Options) : ReadOptions := MkReadOptions (paranoid_checks o) true.

Definition ReadFilter (policy : FilterPolicy) (filter_handle_value : bytes) t : res (Table F) :=
  let! '(s, filter_handle, _) := BlockHandle_DecodeFrom new_BlockHandle filter_handle_value in
  if negb (ok s) then Ret t
  else
    let! '(s, block) := ReadBlock (table_file t) (meta_options (table_options t)) filter_handle in
    if negb (ok s) then Ret t
    else
      let! reader := new_FilterBlockReader (contents_data block) in
      Ret (MkTable (table_options t) (table_file t) (cache_id t) (Some (policy, reader)) (metaindex_handle t) (table_index t)).

Definition ReadMeta (footer : Footer) t : res (Table F) :=
  match filter_policy (table_options t) with
  | None => Ret t
  | Some policy =>
      let! '(s, contents) := ReadBlock (table_file t) (meta_options (table_options t)) (metaindex_handle_ footer) in
      if negb (ok s) then Ret t
      else
        let! meta := new_Block (contents_data contents) in
        let! iter := NewIterator meta BytewiseComparator in
        let key := filter_key policy in
        let! iter := it_Seek key iter in
        if it_Valid iter then
          let! k := it_key iter in
          if slice_eq k key then let! v := it_value iter in ReadFilter policy v t else Ret t
        else Ret t
  end.

(** The status, the table and the cache. *)
Definition Open (opt : Options) (file : F) (file_size : Z) cache : res (Status * option (Table F) * option C) :=
  if file_size <? kEncodedLength then Ret (Corruption (str "file is too short to be an sstable"), None, cache)
  else
    let '(s, footer_input, _) := raf_Read (file_size - kEncodedLength) kEncodedLength file in
    if negb (ok s) then Ret (s, None, cache)
    else
      let! '(s, footer, _) := Footer_DecodeFrom new_Footer footer_input in
      if negb (ok s) then Ret (s, None, cache)
      else
        let! '(s, index_block_contents) := ReadBlock file (meta_options opt) (index_handle_ footer) in
        if ok s then
          let! index_block := new_Block (contents_data index_block_contents) in
          let '(id, cache) := match cache with
                              | Some c => let '(id, c) := cache_NewId c in (id, Some c)
                              | None => (0, None)
                              end in
          let! t := ReadMeta footer (MkTable opt file id None (metaindex_handle_ footer) index_block) in
          Ret (s, Some t, cache)
        else Ret (s, None, cache).

Definition block_cache_key t (handle : BlockHandle) : bytes :=
  EncodeFixed64 (cache_id t) ++ EncodeFixed64 (offset_ handle).

(** The block of a handle: the status, the block and the cache. *)
Definition read_data_block (ro : ReadOptions) (handle : BlockHandle) t cache : res (Status * option Block * option C) :=
  match cache with
  | Some c =>
      let key := block_cache_key t handle in
      let! '(o, c) := cache_Lookup key c in
      match o with
      | Some block => Ret (Status_OK, Some block, Some c)
      | None =>
          let! '(s, contents) := ReadBlock (table_file t) ro handle in
          if ok s then
            let! block := new_Block (contents_data contents) in
            let! c := (if cachable contents && fill_cache ro then cache_Insert key block (size_ block) c else Ret c) in
            Ret (s, Some block, Some c)
          else Ret (s, None, Some c)
      end
  | None =>
      let! '(s, contents) := ReadBlock (table_file t) ro handle in
      if ok s then let! block := new_Block (contents_data contents) in Ret (s, Some block, None)
      else Ret (s, None, None)
  end.

Definition BlockReader t (ro : ReadOptions) (index_value : bytes) cache : res ((EmptyIterator + BlockIter) * option C) :=
  let! '(s, handle, _) := BlockHandle_DecodeFrom new_BlockHandle index_value in
  let! '(s, block, cache) :=
    (if ok s then read_data_block ro handle t cache else Ret (s, None, cache)) in
  match block with
  | Some block => let! iter := NewIterator block (opt_comparator (table_options t)) in Ret (iter, cache)
  | None => Ret (inl (NewErrorIterator s), cache)
  end.

Definition index_iterator t : res (EmptyIterator + BlockIter) := NewIterator (table_index t) (opt_comparator (table_options t)).

Definition table_NewIterator t cache : res (TwoLevelIterator (EmptyIterator + BlockIter) (EmptyIterator + BlockIter) (option C)) :=
  let! iiter := index_iterator t in
  new_TwoLevelIterator iiter cache.

(** Whether the filter says that [k] is not in the block of [handle_value]. *)
Definition filtered_out t (handle_value k : bytes) : res bool :=
  match table_filter t with
  | Some (policy, reader) =>
      let! '(s, handle, _) := BlockHandle_DecodeFrom new_BlockHandle handle_value in
      if ok s then let! b := FilterBlock_KeyMayMatch policy (offset_ handle) k reader in Ret (negb b) else Ret false
  | None => Ret false
  end.

(** The status, [arg] and the cache. *)
Definition InternalGet {A} t (ro : ReadOptions) (k : bytes) (arg : A) (handle_result : A -> bytes -> bytes -> res A) cache
  : res (Status * A * option C) :=
  let! iiter := index_iterator t in
  let! iiter := it_Seek k iiter in
  let! '(s, arg, cache) :=
    (if it_Valid iiter then
       let! handle_value := it_value iiter in
       let! skip := filtered_out t handle_value k in
       if skip : bool then Ret (Status_OK, arg, cache)
       else
         let! '(block_iter, cache) := BlockReader t ro handle_value cache in
         let! block_iter := it_Seek k block_iter in
         let! arg := (if it_Valid block_iter then
                        let! key := it_key block_iter in
                        let! value := it_value block_iter in
                        handle_result arg key value
                      else Ret arg) in
         let! s := it_status block_iter in
         Ret (s, arg, cache)
     else Ret (Status_OK, arg, cache)) in
  let! s := (if ok s then it_status iiter else Ret s) in
  Ret (s, arg, cache).

Definition ApproximateOffsetOf t (key : bytes) : res Z :=
  let! index_iter := index_iterator t in
  let! index_iter := it_Seek key index_iter in
  if it_Valid index_iter then
    let! input := it_value index_iter in
    let! '(s, handle, _) := BlockHandle_DecodeFrom new_BlockHandle input in
    Ret (if ok s then offset_ handle else offset_ (metaindex_handle t))
  else Ret (offset_ (metaindex_handle t)).
End table.
