(* ===== verification/TableBuild.v ===== *)
(** * The layout of LevelDB's tables, and their builder *)
From stdpp Require sorting.
From S2P Require Import Prelude LdbBase Coding Crc32c Comparator Iterator Block BlockBuild Format Filter FilterFacts FormatFacts TableBuilder.

(** ** the layout of a table file

    What the builder writes and the reader relies on: data blocks, each with
    its trailer, a filter block, the metaindex and the index blocks, the
    footer; the index separates the blocks. *)

Lemma StronglySorted_lookup_2 {A} (R : A -> A -> Prop) l :
  (forall i j x y, (i < j)%nat -> l !! i = Some x -> l !! j = Some y -> R x y) -> Sorted.StronglySorted R l.
Proof.
  induction l as [|a l IH]; intros Hl; constructor.
  - apply IH. intros i j x y Hij Hx Hy. apply (Hl (S i) (S j)); [lia|done..].
  - apply List.Forall_forall. intros b Hb. apply list_elem_of_In, list_elem_of_lookup_1 in Hb as [j Hj]. apply (Hl O (S j)); [lia|done..].
Qed.

(** ** Blocks and their entries *)
Definition is_block (bs : bytes) (es : list entry) : Prop :=
  exists items ridx, layout items ridx /\ items.*2 = es /\ bs = block_bytes items ridx.

Definition framed (bs : bytes) : bytes := bs ++ trailer bs.

Lemma zlength_framed bs : zlength (framed bs) = zlength bs + 5.
Proof. unfold framed. by rewrite zlength_app, zlength_trailer. Qed.

Abbreviation wblock := (bytes * list entry)%type.

Definition data_bytes (ws : list wblock) : bytes := concat ((fun w => framed w.1) <$> ws).

(** The offset of block [i], and its handle. *)
Definition block_offset (ws : list wblock) (i : nat) : Z := zlength (data_bytes (take i ws)).
Definition block_handle (ws : list wblock) (i : nat) (w : wblock) : BlockHandle := MkBlockHandle (block_offset ws i) (zlength w.1).
Definition table_entries (ws : list wblock) : list entry := concat ws.*2.

Lemma data_bytes_app ws ws' : data_bytes (ws ++ ws') = data_bytes ws ++ data_bytes ws'.
Proof. unfold data_bytes. by rewrite fmap_app, concat_app. Qed.

Lemma data_bytes_one w : data_bytes [w] = framed w.1.
Proof. unfold data_bytes. cbn. by rewrite app_nil_r. Qed.

Lemma table_entries_app ws ws' : table_entries (ws ++ ws') = table_entries ws ++ table_entries ws'.
Proof. unfold table_entries. by rewrite fmap_app, concat_app. Qed.

Lemma table_entries_one w : table_entries [w] = w.2.
Proof. unfold table_entries. cbn. by rewrite app_nil_r. Qed.

Lemma data_bytes_cons w ws : data_bytes (w :: ws) = framed w.1 ++ data_bytes ws.
Proof. done. Qed.

Lemma table_entries_cons w ws : table_entries (w :: ws) = w.2 ++ table_entries ws.
Proof. done. Qed.

Lemma block_offset_app ws ws' i : (i <= length ws)%nat -> block_offset (ws ++ ws') i = block_offset ws i.
Proof. intros Hi. unfold block_offset. by rewrite take_app_le. Qed.

Lemma block_offset_end ws : block_offset ws (length ws) = zlength (data_bytes ws).
Proof. unfold block_offset. by rewrite firstn_all. Qed.

Lemma block_offset_nonneg ws i : 0 <= block_offset ws i.
Proof. apply zlength_nonneg. Qed.

Lemma data_bytes_at ws i w : ws !! i = Some w -> exists pre post, data_bytes ws = pre ++ framed w.1 ++ post /\ zlength pre = block_offset ws i.
Proof.
  intros Hw. exists (data_bytes (take i ws)), (data_bytes (drop (S i) ws)). split; [|done].
  rewrite <- (take_drop_middle _ _ _ Hw) at 1. by rewrite data_bytes_app, data_bytes_cons.
Qed.

Lemma block_offset_le ws i w : ws !! i = Some w -> block_offset ws i + zlength w.1 + 5 <= zlength (data_bytes ws).
Proof.
  intros Hw. destruct (data_bytes_at ws i w Hw) as (pre & post & -> & <-). rewrite !zlength_app, zlength_framed.
  pose proof (zlength_nonneg post). lia.
Qed.

Lemma elem_of_table ws i w a : ws !! i = Some w -> a ∈ w.2 -> a ∈ table_entries ws.
Proof.
  intros Hw Ha. rewrite <- (take_drop_middle _ _ _ Hw), table_entries_app, table_entries_cons.
  apply elem_of_app. right. apply elem_of_app. by left.
Qed.

(** ** Sizes *)
Definition entries_cost (es : list entry) : Z := foldr (fun e n => entry_bound e + n) 0 es.

Lemma entry_bound_ge e : 40 <= entry_bound e.
Proof. unfold entry_bound. pose proof (zlength_nonneg e.1). pose proof (zlength_nonneg e.2). lia. Qed.

Lemma entries_cost_bound es : entries_bound es = entries_cost es + 40.
Proof. induction es as [|e es IH]; [done|]. change (entry_bound e + entries_bound es = entry_bound e + entries_cost es + 40). lia. Qed.

Lemma entries_cost_cons e es : entries_cost (e :: es) = entry_bound e + entries_cost es.
Proof. done. Qed.

Lemma entries_cost_app a b : entries_cost (a ++ b) = entries_cost a + entries_cost b.
Proof. induction a as [|e a IH]; [done|]. cbn [app]. rewrite !entries_cost_cons. lia. Qed.

Lemma entries_cost_ge es : 40 * zlength es <= entries_cost es.
Proof. induction es as [|e es IH]; [done|]. rewrite entries_cost_cons, zlength_cons. pose proof (entry_bound_ge e). lia. Qed.

Lemma entries_cost_nonneg es : 0 <= entries_cost es.
Proof. pose proof (entries_cost_ge es). pose proof (zlength_nonneg es). lia. Qed.

Lemma entries_cost_in es e : e ∈ es -> entry_bound e <= entries_cost es.
Proof.
  intros (l & k & ->)%list_elem_of_split. rewrite entries_cost_app, entries_cost_cons.
  pose proof (entries_cost_nonneg l). pose proof (entries_cost_nonneg k). lia.
Qed.

(** The space that written blocks take. *)
Definition block_fits (w : wblock) : Prop := is_block w.1 w.2 /\ w.2 <> [] /\ bytes_ok w.1 /\ zlength w.1 + 5 <= 2 * entries_cost w.2.

Lemma data_bytes_size ws : Forall block_fits ws -> zlength (data_bytes ws) <= 2 * entries_cost (table_entries ws).
Proof.
  induction 1 as [|w ws (_ & _ & _ & Hw) _ IH]; [done|].
  rewrite data_bytes_cons, zlength_app, zlength_framed, table_entries_cons, entries_cost_app. lia.
Qed.

(** ** The index *)

(** [same k k']: a lookup of [k'] may be answered by an entry with key [k] (a
    filter must not tell them apart).  A separator that is not the end of its
    block is below everything that is the same as the next key. *)
Class SeparatorSplits (c : Comparator) (valid : bytes -> Prop) `{!ComparatorOk c valid} (same : bytes -> bytes -> Prop) : Prop :=
  Separator_splits : forall start limit s k, valid start -> valid limit -> key_lt c valid start limit ->
    FindShortestSeparator c start limit = Ret s -> valid k -> same limit k -> s = start \/ key_lt c valid s k.

Section index.
Context (c : Comparator) (valid : bytes -> Prop) `{!ComparatorOk c valid} (same : bytes -> bytes -> Prop).
Abbreviation lt := (key_lt c valid).

(** Entry [e] of the index is for block [i] of [ws]; [rest] are the entries
    that follow the blocks. *)
Record index_entry (ws : list wblock) (rest : list entry) (i : nat) (w : wblock) (e : entry) : Prop := {
  ix_handle : e.2 = handle_bytes (block_handle ws i w);
  ix_valid : valid e.1;
  ix_above : Forall (fun a => ~ lt e.1 a.1) w.2;
  ix_below : Forall (fun a => lt e.1 a.1) (table_entries (drop (S i) ws) ++ rest);
  ix_splits : (exists a, a ∈ w.2 /\ e.1 = a.1) \/
    forall b k, (table_entries (drop (S i) ws) ++ rest) !! O = Some b -> valid k -> same b.1 k -> lt e.1 k;
  ix_cost : entry_bound e <= 2 * entries_cost w.2;
}.

Definition index_ok (ws : list wblock) (rest idx : list entry) : Prop :=
  (length idx <= length ws)%nat /\
  forall i w e, ws !! i = Some w -> idx !! i = Some e -> index_entry ws rest i w e.

(** More entries after the last key. *)
Lemma index_entry_rest ws rest i w e k v :
  index_entry ws rest i w e -> lt e.1 k -> table_entries (drop (S i) ws) ++ rest <> [] -> index_entry ws (rest ++ [(k, v)]) i w e.
Proof.
  intros [Hh Hv Ha Hb Hs Hc] Hlt Hne. split; try done.
  - rewrite app_assoc. apply Forall_app. split; [done|]. by repeat constructor.
  - destruct Hs as [|Hs]; [by left|right]. intros b k' Hb0. rewrite app_assoc in Hb0.
    destruct (table_entries (drop (S i) ws) ++ rest) as [|a l]; [done|]. by apply Hs.
Qed.

(** The rest becomes a block. *)
Lemma index_entry_block ws rest i w e w' :
  index_entry ws rest i w e -> ws !! i = Some w -> w'.2 = rest -> index_entry (ws ++ [w']) [] i w e.
Proof.
  intros [Hh Hv Ha Hb Hs Hc] Hw Hrest. pose proof (lookup_lt_Some _ _ _ Hw).
  assert (table_entries (drop (S i) (ws ++ [w'])) ++ [] = table_entries (drop (S i) ws) ++ rest) as E.
  { rewrite drop_app_le, table_entries_app, table_entries_one, Hrest by lia. apply app_nil_r. }
  split; try done; rewrite ?E; try done. rewrite Hh. unfold block_handle. by rewrite block_offset_app by lia.
Qed.

Lemma index_ok_lookup ws rest idx i e : index_ok ws rest idx -> idx !! i = Some e -> exists w, ws !! i = Some w /\ index_entry ws rest i w e.
Proof.
  intros [Hl Hix] He. pose proof (lookup_lt_Some _ _ _ He). destruct (lookup_lt_is_Some_2 ws i ltac:(lia)) as [w Hw].
  exists w. split; [done|]. by apply Hix.
Qed.

(** The index is sorted. *)
Lemma index_sorted ws rest idx : index_ok ws rest idx -> Forall (fun w => w.2 <> []) ws -> Forall valid (table_entries ws).*1 -> entries_ok c valid idx.
Proof.
  intros Hix Hne Hval. split.
  - apply StronglySorted_lookup_2. intros i j x y Hij Hx Hy.
    apply list_lookup_fmap_Some in Hx as (e & -> & He). apply list_lookup_fmap_Some in Hy as (e' & -> & He').
    destruct (index_ok_lookup _ _ _ _ _ Hix He) as (w & Hw & [_ Hv _ Hb _ _]).
    destruct (index_ok_lookup _ _ _ _ _ Hix He') as (w' & Hw' & [_ Hv' Ha' _ _ _]).
    pose proof (Forall_lookup_1 _ _ _ _ Hne Hw') as Hnil. cbn in Hnil. destruct w'.2 as [|a l] eqn:El; [done|].
    assert (a ∈ w'.2) as Hin by (rewrite El; left). apply Forall_cons_1 in Ha' as [Ha' _].
    assert (lt e.1 a.1) as Hlt.
    { eapply (Forall_elem (fun a => lt e.1 a.1)); [exact Hb|]. apply elem_of_app. left.
      apply (elem_of_table _ (j - S i) w'); [|done]. rewrite lookup_drop. by replace (S i + (j - S i))%nat with j by lia. }
    assert (valid a.1) as Hav. { eapply (Forall_elem valid); [exact Hval|]. apply list_elem_of_fmap_2. by eapply elem_of_table. }
    destruct (entry_eq_dec_lt c valid a.1 e'.1 Hav Hv') as [Hl|[<-|Hl]]; [by transitivity a.1|done|done].
  - apply Forall_lookup. intros i x Hx. apply list_lookup_fmap_Some in Hx as (e & -> & He).
    destruct (index_ok_lookup _ _ _ _ _ Hix He) as (w & _ & []). done.
Qed.

Lemma index_cost ws rest idx : index_ok ws rest idx -> entries_cost idx <= 2 * entries_cost (table_entries ws).
Proof.
  intros [Hl Hix]. assert (Forall2 (fun e w => entry_bound e <= 2 * entries_cost w.2) idx (take (length idx) ws)) as Hall.
  { apply Forall2_same_length_lookup_2; [rewrite length_take; lia|]. intros i e w He Hw. apply lookup_take_Some in Hw as [Hw _].
    by destruct (Hix i w e Hw He). }
  assert (entries_cost idx <= 2 * entries_cost (table_entries (take (length idx) ws))) as Hc.
  { clear Hl Hix. induction Hall as [|e w idx' ws' He _ IH]; [done|]. 
    rewrite entries_cost_cons, table_entries_cons, entries_cost_app. lia. }
  rewrite <- (take_drop (length idx) ws) at 1. rewrite table_entries_app, entries_cost_app.
  pose proof (entries_cost_nonneg (table_entries (drop (length idx) ws))). lia.
Qed.
(** The entry for the last block. *)
Lemma index_snoc ws w idx key :
  index_ok (ws ++ [w]) [] idx -> length idx = length ws -> valid key -> Forall (fun a => ~ lt key a.1) w.2 ->
  zlength key <= entries_cost w.2 - 40 -> 40 <= entries_cost w.2 ->
  index_ok (ws ++ [w]) [] (idx ++ [(key, handle_bytes (block_handle (ws ++ [w]) (length ws) w))]).
Proof.
  intros [_ Hix] Hl Hv Ha Hk Hc. split; [rewrite !length_app; cbn; lia|]. intros i w' e Hw He.
  apply lookup_app_Some in He as [He|[Hge He]]; [by apply Hix|].
  apply lookup_lt_Some in He as Hlt. cbn in Hlt. assert (i = length ws) as -> by lia. rewrite Hl, Nat.sub_diag in He. injection He as <-.
  rewrite list_lookup_middle in Hw by done. injection Hw as <-.
  assert (table_entries (drop (S (length ws)) (ws ++ [w])) ++ [] = []) as E.
  { rewrite drop_ge; [done|]. rewrite length_app. cbn. lia. }
  split; rewrite ?E; try done; [by right|]. unfold entry_bound. cbn [fst snd]. pose proof (zlength_handle_bytes (block_handle (ws ++ [w]) (length ws) w)). lia.
Qed.

Lemma table_entries_nonempty ws : Forall (fun w => w.2 <> []) ws -> ws <> [] -> table_entries ws <> [].
Proof. intros Hne Hws E. destruct Hne as [|w ws Hw _]; [done|]. rewrite table_entries_cons in E. by apply app_eq_nil in E as [? _]. Qed.

(** A new key after the blocks. *)
Lemma index_ok_add ws cur idx k v :
  index_ok ws cur idx -> Forall (fun w => w.2 <> []) ws -> entries_ok c valid ((table_entries ws ++ cur) ++ [(k, v)]) ->
  (cur = [] -> forall i w e, S i = length ws -> ws !! i = Some w -> idx !! i = Some e ->
    lt e.1 k /\ ((exists a, a ∈ w.2 /\ e.1 = a.1) \/ forall k', valid k' -> same k k' -> lt e.1 k')) ->
  index_ok ws (cur ++ [(k, v)]) idx.
Proof.
  intros [Hl Hix] Hne [Hs _] Hlast. split; [done|]. intros i w e Hw He. pose proof (Hix i w e Hw He) as Hie.
  destruct (decide (table_entries (drop (S i) ws) ++ cur = [])) as [E|Hnil].
  - apply app_eq_nil in E as [Ed ->]. assert (S i = length ws) as Hi.
    { apply lookup_lt_Some in Hw as Hlt. destruct (decide (S i < length ws)%nat) as [Hlt'|]; [|lia]. exfalso.
      apply (table_entries_nonempty (drop (S i) ws)); [by apply Forall_drop| |done]. intros E.
      apply (f_equal length) in E. rewrite length_drop in E. cbn in E. lia. }
    destruct (Hlast eq_refl i w e Hi Hw He) as [Hlt Hsplit]. destruct Hie as [Hh Hv Ha _ _ Hc].
    split; try done; rewrite ?Ed; cbn [app]; [by repeat constructor|]. destruct Hsplit as [|Hsplit]; [by left|right].
    intros b k' [= <-] ? ?. by apply Hsplit.
  - apply index_entry_rest; [done| |done]. destruct Hie as [_ _ _ Hb _ _].
    destruct (table_entries (drop (S i) ws) ++ cur) as [|a l] eqn:El; [done|]. apply Forall_cons_1 in Hb as [Hb _].
    transitivity a.1; [done|]. rewrite fmap_app in Hs. apply (sorting.StronglySorted_app_1_elem_of _ _ _ a.1 k Hs); [|left].
    apply list_elem_of_fmap_2. assert (a ∈ table_entries (drop (S i) ws) ++ cur) as Hin by (rewrite El; left).
    rewrite <- (take_drop (S i) ws), table_entries_app, <- app_assoc. apply elem_of_app. by right.
Qed.
End index.

(** ** The file *)
Section file.
Context (c : Comparator) (valid : bytes -> Prop) `{!ComparatorOk c valid} (same : bytes -> bytes -> Prop) (cost : Z).

Definition filter_bytes (fl : option bytes) : bytes := match fl with Some f => framed f | None => [] end.

(** The filter block covers the keys of every data block. *)
Definition filter_ok (policy : option FilterPolicy) (ws : list wblock) (fl : option bytes) : Prop :=
  match policy, fl with
  | Some p, Some f => exists fs dn, Forall2 (filters p valid same cost) fs dn /\ f = FilterFacts.filter_block fs /\ zlength f < 2 ^ 32 /\
      forall i w a, ws !! i = Some w -> a ∈ w.2 -> exists ks, dn !! Z.to_nat (block_offset ws i / 2048) = Some ks /\ a.1 ∈ ks
  | None, None => True
  | _, _ => False
  end.

Definition metaindex_entries (policy : option FilterPolicy) (ws : list wblock) (fl : option bytes) : list entry :=
  match policy, fl with
  | Some p, Some f => [(filter_key p, handle_bytes (MkBlockHandle (zlength (data_bytes ws)) (zlength f)))]
  | _, _ => []
  end.

Record table_layout (policy : option FilterPolicy) (contents : bytes) (ws : list wblock) : Prop := {
  tf_blocks : Forall block_fits ws;
  tf_entries : entries_ok c valid (table_entries ws);
  tf_bytes : Forall (fun e => bytes_ok e.1 /\ bytes_ok e.2) (table_entries ws);
  tf_rest : exists idx fl mi ix,
    let mh := MkBlockHandle (zlength (data_bytes ws ++ filter_bytes fl)) (zlength mi) in
    let ih := MkBlockHandle (zlength (data_bytes ws ++ filter_bytes fl ++ framed mi)) (zlength ix) in
    contents = data_bytes ws ++ filter_bytes fl ++ framed mi ++ framed ix ++ footer_bytes (MkFooter mh ih) /\
    filter_ok policy ws fl /\ is_block mi (metaindex_entries policy ws fl) /\ bytes_ok mi /\
    is_block ix idx /\ bytes_ok ix /\ length idx = length ws /\ index_ok c valid same ws [] idx;
  tf_size : zlength contents < 2 ^ 40;
}.
End file.

(** ** LevelDB's table builder, proved *)

(** ** Blocks *)
Lemma block_bytes_ok items ridx : layout items ridx -> bytes_ok (block_bytes items ridx).
Proof.
  intros Hly. unfold block_bytes, items_bytes. apply bytes_ok_app. split; [|apply bytes_ok_app; split].
  - apply Forall_concat, Forall_fmap, Forall_lookup. intros n it Hit. cbn.
    pose proof (Forall_lookup_1 _ _ _ _ (ly_bytes _ _ Hly) Hit) as (Hk & Hv & _).
    eapply item_bytes_ok; [by apply (ly_items _ _ Hly n)|done|done].
  - unfold fixed32s. apply Forall_concat, Forall_fmap, Forall_true. intros z. apply le_bytes_ok.
  - apply le_bytes_ok.
Qed.

(** A finished block: its bytes, and what they cost. *)
Lemma Finish_block interval b items ridx :
  builder_holds interval b items ridx -> entries_bound items.*2 < 2 ^ 32 ->
  exists bs, (Finish b).1 = bs /\ is_block bs items.*2 /\ bytes_ok bs /\ zlength bs + 5 <= entries_bound items.*2.
Proof.
  intros Hb Hlt. destruct (Finish_holds interval b items ridx Hb Hlt) as [-> Hly]. eexists. split; [done|].
  split; [by exists items, ridx|]. split; [by apply block_bytes_ok|].
  pose proof (items_bound items (ly_items _ _ Hly)). pose proof (bh_count _ _ _ _ Hb). pose proof (zlength_nonneg items).
  unfold block_bytes. rewrite !zlength_app, zlength_fixed32s, zlength_fixed32. unfold zlength in *. rewrite length_fmap. lia.
Qed.

Lemma Reset_holds interval b : 1 <= interval -> builder_holds interval (Reset b) [] [O].
Proof.
  intros Hi. destruct (new_BlockBuilder_holds interval Hi) as (b0 & E & Hb0). unfold new_BlockBuilder in E.
  rewrite assert_true, res_bind_ret in E by by apply Z.leb_le. injection E as <-. exact Hb0.
Qed.

Lemma builder_empty_holds interval b items ridx : builder_holds interval b items ridx -> builder_empty b = bool_decide (items.*2 = []).
Proof.
  intros Hb. unfold builder_empty, size. rewrite (bh_buffer _ _ _ _ Hb). destruct items as [|it items]; [done|].
  apply Z.eqb_neq. unfold items_bytes. cbn [fmap list_fmap concat]. rewrite zlength_app. pose proof (item_bytes_pos it).
  pose proof (zlength_nonneg (concat (item_bytes <$> items))). lia.
Qed.

(** The first entry of a block is not compared with anything. *)
Lemma Add_first interval c c' key value b : buffer_ b = [] -> Add interval c key value b = Add interval c' key value b.
Proof. intros Hb. unfold Add. by rewrite Hb. Qed.

(** ** Writing blocks *)
Section build.
Context {F : Type} `{ReliableFile F}.
Implicit Types (r : Rep F).

Lemma WriteRawBlock_holds contents r :
  bytes_ok contents -> 0 <= rep_offset r -> rep_offset r + zlength contents + 5 < 2 ^ 63 ->
  exists f s, WriteRawBlock contents kNoCompression r =
      Ret (MkBlockHandle (rep_offset r) (zlength contents), set_file f (rep_offset r + (zlength contents + 5)) s r) /\
    ok s = true /\ wf_contents f = wf_contents (file r) ++ framed contents.
Proof.
  intros Hc Ho Hl. pose proof (zlength_nonneg contents). unfold WriteRawBlock, size.
  destruct (wf_Append_ok contents (file r)) as [Hok1 Hf1]. destruct (wf_Append contents (file r)) as [s1 f1]. cbn [fst snd] in *.
  rewrite Hok1. cbn [file set_file rep_offset]. unfold Value.
  rewrite Extend_spec, res_bind_ret; [|split_and!; [done|lia|lia]|lia].
  pose proof (crc32c_bound 0 contents Hc ltac:(lia)) as Hcrc.
  change (u8 (CompressionType_value kNoCompression)) with 0.
  rewrite Extend_spec, res_bind_ret; [|split_and!; [by repeat constructor|lia|change (zlength [0]) with 1; lia]|done].
  destruct (wf_Append_ok (0 :: EncodeFixed32 (Mask (crc32c (crc32c 0 contents) [0]))) f1) as [Hok2 Hf2].
  destruct (wf_Append _ f1) as [s2 f2]. cbn [fst snd] in *. rewrite Hok2. exists f2, s2. split; [|split; [done|]].
  - unfold kBlockTrailerSize. rewrite (wrap_small 64 (zlength contents + 5)), wrap_small by lia. done.
  - rewrite Hf2, Hf1. unfold framed, trailer. rewrite crc32c_app. by rewrite <- app_assoc.
Qed.

Lemma WriteBlock_holds interval b items ridx r :
  tb_ok r = true -> builder_holds interval b items ridx -> entries_bound items.*2 < 2 ^ 32 ->
  0 <= rep_offset r < 2 ^ 62 ->
  exists bs f s, WriteBlock b r =
      Ret (MkBlockHandle (rep_offset r) (zlength bs), Reset b, set_file f (rep_offset r + (zlength bs + 5)) s r) /\
    ok s = true /\ wf_contents f = wf_contents (file r) ++ framed bs /\
    is_block bs items.*2 /\ bytes_ok bs /\ zlength bs + 5 <= entries_bound items.*2.
Proof.
  intros Hok Hb Hlt Ho. unfold WriteBlock. rewrite assert_true, res_bind_ret by done.
  destruct (Finish_block _ _ _ _ Hb Hlt) as (bs & Ebs & Hbs & Hby & Hsz). destruct (Finish b) as [raw b'] eqn:EF. cbn [fst] in Ebs. subst raw.
  assert (compress (compression (options r)) bs = (bs, kNoCompression)) as -> by by destruct (compression (options r)).
  destruct (WriteRawBlock_holds bs r Hby) as (f & s & -> & Hs & Hf); [lia|lia|]. rewrite res_bind_ret.
  exists bs, f, s. assert (Reset b' = Reset b) as -> by (unfold Finish in EF; by injection EF as _ <-). done.
Qed.
End build.

(** ** The builder *)
Section builder.
Context (valid : bytes -> Prop) (same : bytes -> bytes -> Prop) (cost : Z) (opt : Options).
Abbreviation c := (opt_comparator opt).
Abbreviation interval := (block_restart_interval opt).
Abbreviation lt := (key_lt c valid).
Context `{!ComparatorOk c valid} `{!SeparatorSplits c valid same}.
Context {F : Type} `{ReliableFile F}.
Hypothesis Hinterval : 1 <= interval.
Hypothesis Hvalid : forall k, valid k -> bytes_ok k.
Hypothesis Hpolicy : forall p, filter_policy opt = Some p -> FilterPolicyOk p valid same cost /\ bytes_ok (fp_Name p).
Hypothesis Hcost : 0 <= cost.
Implicit Types (r : Rep F) (ws : list wblock).

(** The filter block under construction: [offset] is that of the next block. *)
Definition filter_at (fb : option (FilterPolicy * FilterBlockBuilder)) (offset : Z) ws (cur : list entry) : Prop :=
  match filter_policy opt, fb with
  | Some p, Some (p', b) => p' = p /\ exists fs dn pend,
      filter_holds p valid same cost b fs dn pend /\ zlength dn = offset / 2048 /\
      zlength (concat dn) + zlength pend = zlength (table_entries ws ++ cur) /\
      (forall i w a, ws !! i = Some w -> a ∈ w.2 -> covered dn pend (Z.to_nat (block_offset ws i / 2048)) a.1) /\
      (forall a, a ∈ cur -> covered dn pend (Z.to_nat (offset / 2048)) a.1)
  | None, None => True
  | _, _ => False
  end.

Lemma start_filter_block_holds r ws cur bs offset :
  filter_at (filter_block r) (zlength (data_bytes ws)) ws cur -> zlength (data_bytes ws) <= offset < 2 ^ 64 ->
  exists fb, start_filter_block offset r = Ret (set_filter fb r) /\ filter_at fb offset (ws ++ [(bs, cur)]) [].
Proof.
  intros Hf Ho. unfold start_filter_block, filter_at in *. pose proof (zlength_nonneg (data_bytes ws)).
  destruct (filter_policy opt) as [p|] eqn:Ep, (filter_block r) as [[p' b]|] eqn:Eb; try done.
  - destruct Hf as [-> (fs & dn & pend & Hb & Hl & Hn & Hw & Hc)]. destruct (Hpolicy p eq_refl) as [Hp _].
    destruct (StartBlock_covered p valid same cost b fs dn pend offset Hb) as (b' & fs' & dn' & pend' & -> & Hb' & Hl' & _ & Hcov & Hn'); [lia| |].
    { rewrite Hl. apply Z.div_le_mono; lia. }
    rewrite res_bind_ret. eexists. split; [done|]. split; [done|]. exists fs', dn', pend'. split; [done|]. split; [done|].
    split; [rewrite Hn', Hn; by rewrite table_entries_app, table_entries_one, app_nil_r|]. split; [|by intros a ?%not_elem_of_nil].
    intros i w a Hi Ha. apply Hcov. apply lookup_app_Some in Hi as [Hi|[Hge Hi]].
    + rewrite block_offset_app by (apply lookup_lt_Some in Hi; lia). by apply (Hw i w).
    + apply lookup_lt_Some in Hi as Hlt. cbn in Hlt. assert (i = length ws) as -> by lia. rewrite Nat.sub_diag in Hi. injection Hi as <-.
      rewrite block_offset_app, block_offset_end by done. by apply Hc.
  - exists None. split; [|done]. rewrite <- Eb. by destruct r.
Qed.

Record tb_at r ws (cur idx : list entry) : Prop := {
  ta_options : options r = opt;
  ta_index_options : index_block_options r = index_options opt;
  ta_ok : tb_ok r = true;
  ta_closed : closed r = false;
  ta_contents : wf_contents (file r) = data_bytes ws;
  ta_offset : rep_offset r = zlength (data_bytes ws);
  ta_blocks : Forall block_fits ws;
  ta_entries : entries_ok c valid (table_entries ws ++ cur);
  ta_values : Forall (fun e => bytes_ok e.2) (table_entries ws ++ cur);
  ta_size : entries_cost (table_entries ws ++ cur) < 2 ^ 29;
  ta_data : exists items ridx, builder_holds interval (data_block r) items ridx /\ items.*2 = cur;
  ta_index : exists items ridx, builder_holds 1 (index_block r) items ridx /\ items.*2 = idx;
  ta_index_ok : index_ok c valid same ws cur idx;
  ta_pending :
    if pending_index_entry r
    then cur = [] /\ exists ws' w, ws = ws' ++ [w] /\ length idx = length ws' /\ pending_handle r = block_handle ws (length ws') w
    else length idx = length ws;
  ta_num : num_entries r = zlength (table_entries ws ++ cur);
  ta_filter : filter_at (filter_block r) (zlength (data_bytes ws)) ws cur;
}.

(** Between operations: [last_key] is the last key, and a written block has its
    entry in the index as soon as the next key is known. *)
Record tb_ready r ws (cur idx : list entry) : Prop := {
  tr_at : tb_at r ws cur idx;
  tr_last : forall es e, table_entries ws ++ cur = es ++ [e] -> rep_last_key r = e.1;
  tr_fresh : pending_index_entry r = false -> cur <> [] \/ ws = [];
}.

Lemma blocks_nonempty ws : Forall block_fits ws -> Forall (fun w => w.2 <> []) ws.
Proof. intros Hw. eapply List.Forall_impl; [|exact Hw]. by intros w (_ & Hne & _). Qed.

Lemma tb_offset_bound r ws cur idx : tb_at r ws cur idx -> 0 <= zlength (data_bytes ws) < 2 ^ 30.
Proof.
  intros Ht. pose proof (data_bytes_size ws (ta_blocks _ _ _ _ Ht)). pose proof (ta_size _ _ _ _ Ht) as Hs.
  rewrite entries_cost_app in Hs. pose proof (entries_cost_nonneg cur). pose proof (zlength_nonneg (data_bytes ws)). lia.
Qed.

Lemma new_TableBuilder_holds f : wf_contents f = [] ->
  exists r, new_TableBuilder opt f = Ret r /\ tb_ready r [] [] [].
Proof.
  intros Hf. unfold new_TableBuilder. destruct (new_BlockBuilder_holds interval Hinterval) as (b & Eb & Hb). rewrite Eb, !res_bind_ret.
  set (r := MkRep _ _ _ _ _ _ _ _ _ _ _ _ _).
  assert (filter_at (filter_block r) (zlength (data_bytes [])) [] []) as Hfa.
  { unfold filter_at, r. cbn [filter_block]. destruct (filter_policy opt) as [p|] eqn:Ep; [|done]. split; [done|].
    exists [], [], []. split; [apply new_FilterBlockBuilder_holds|]. split; [done|]. split; [done|]. split; [done|]. by intros a ?%not_elem_of_nil. }
  assert (exists fb, start_filter_block 0 r = Ret (set_filter fb r) /\ filter_at fb 0 [] []) as (fb & -> & Hfb).
  { unfold start_filter_block, filter_at in *. change (zlength (data_bytes [])) with 0 in Hfa.
    destruct (filter_policy opt) as [p|] eqn:Ep, (filter_block r) as [[p' b']|] eqn:Eb'; try done; [|exists None; split; [|done]; by rewrite <- Eb'].
    destruct Hfa as [-> (fs & dn & pend & Hfh & Hl & Hn & _ & _)]. destruct (Hpolicy p eq_refl) as [Hp _].
    destruct (StartBlock_covered p valid same cost b' fs dn pend 0 Hfh) as (b2 & fs' & dn' & pend' & -> & Hb' & Hl' & _ & _ & Hn'); [done|by rewrite Hl|].
    rewrite res_bind_ret. eexists. split; [done|]. split; [done|]. exists fs', dn', pend'. split; [done|]. split; [done|]. split; [lia|].
    split; [done|]. by intros a ?%not_elem_of_nil. }
  eexists. split; [done|]. split; [|by intros [|? es] e|by right].
  unfold new_BlockBuilder in Eb. rewrite assert_true, res_bind_ret in Eb by (by apply Z.leb_le). injection Eb as <-.
  split; cbn [data_block index_block set_filter r]; try done.
  - by split; constructor.
  - by exists [], [O].
  - exists [], [O]. split; [by apply (Reset_holds 1 (MkBlockBuilder [] [0] 0 false []))|done].
Qed.

(** ** Flush *)
Lemma Flush_holds r ws cur idx : tb_at r ws cur idx -> cur <> [] ->
  exists r' ws', Flush r = Ret r' /\ tb_at r' ws' [] idx /\ table_entries ws' = table_entries ws ++ cur /\
    rep_last_key r' = rep_last_key r /\ pending_index_entry r' = true.
Proof.
  intros Ht Hne. pose proof (tb_offset_bound _ _ _ _ Ht) as Hbound. pose proof Ht as [Ho Hio Hok Hcl Hcont Hoff Hbl Hes Hval Hsz Hdata Hindex Hix Hpend Hnum Hfil].
  unfold Flush. rewrite Hcl, Hok. cbn [negb assert_]. rewrite res_bind_ret.
  destruct Hdata as (items & ridx & Hb & Ei). rewrite (builder_empty_holds _ _ _ _ Hb), Ei, bool_decide_false by done.
  assert (pending_index_entry r = false) as Epend by (destruct (pending_index_entry r); [by destruct Hpend|done]).
  rewrite Epend in *. cbn [negb assert_]. rewrite res_bind_ret.
  rewrite entries_cost_app in Hsz. pose proof (entries_cost_nonneg (table_entries ws)). pose proof (entries_cost_nonneg cur).
  assert (entries_bound items.*2 < 2 ^ 32) as Hlt by (rewrite Ei, entries_cost_bound; lia).
  destruct (WriteBlock_holds interval (data_block r) items ridx r Hok Hb Hlt) as (bs & f & s & -> & Hs & Hf & Hbs & Hby & Hbsz); [rewrite Hoff; lia|].
  rewrite res_bind_ret. set (w := (bs, cur)). rewrite Ei in *.
  assert (block_fits w) as Hw.
  { split; [done|]. split; [done|]. split; [done|]. change (zlength bs + 5 <= 2 * entries_cost cur). rewrite entries_cost_bound in Hbsz. pose proof (entries_cost_ge cur).
    assert (1 <= zlength cur) by (destruct cur; [done|unfold zlength; cbn; lia]). lia. }
  set (r1 := set_pending _ _ _). assert (tb_ok r1 = true) as Hok1 by done. rewrite Hok1.
  change (file (set_pending true (pending_handle r1) r1)) with f.
  destruct (wf_Flush_ok f) as [Hfo Hfc]. destruct (wf_Flush f) as [s2 f2]. cbn [fst snd] in *.
  set (r2 := set_file f2 _ s2 _).
  assert (data_bytes (ws ++ [w]) = data_bytes ws ++ framed bs) as Edata by (by rewrite data_bytes_app, data_bytes_one).
  assert (rep_offset r2 = zlength (data_bytes (ws ++ [w]))) as Hoff2.
  { change (rep_offset r2) with (rep_offset r + (zlength bs + 5)). rewrite Hoff, Edata, zlength_app, zlength_framed. lia. }
  destruct (start_filter_block_holds r2 ws cur bs (rep_offset r2)) as (fb & -> & Hfb); [exact Hfil| |].
  { rewrite Hoff2. fold w. rewrite Edata, zlength_app, zlength_framed. pose proof (zlength_nonneg bs). destruct Hw as (_ & _ & _ & Hws). change (zlength bs + 5 <= 2 * entries_cost cur) in Hws. lia. }
  assert (table_entries (ws ++ [w]) = table_entries ws ++ cur) as Ete by (by rewrite table_entries_app, table_entries_one).
  exists (set_filter fb r2), (ws ++ [w]). split; [done|]. split; [|done]. split; try done; rewrite ?app_nil_r, ?Ete; try done.
  - change (wf_contents f2 = data_bytes (ws ++ [w])). by rewrite Hfc, Hf, Hcont, Edata.
  - apply Forall_app. split; [done|]. by constructor.
  - rewrite entries_cost_app. lia.
  - exists [], [O]. split; [by apply Reset_holds|done].
  - destruct Hix as [Hl Hix]. split; [rewrite length_app; lia|]. intros i w' e Hw' He. apply lookup_app_Some in Hw' as [Hw'|[Hge _]].
    + by eapply index_entry_block; [apply (Hix i w' e)|done|].
    + apply lookup_lt_Some in He. lia.
  - cbn [pending_index_entry set_filter set_file set_pending r2]. split; [done|]. exists ws, w. split; [done|]. split; [done|].
    cbn [pending_handle set_filter set_file set_pending r2 r1]. unfold block_handle. rewrite block_offset_app, block_offset_end, Hoff by done. done.
  - cbn [filter_block set_filter]. rewrite <- Hoff2. exact Hfb.
Qed.

(** ** The index *)
Lemma handle_ok_small o n : 0 <= o < 2 ^ 40 -> 0 <= n < 2 ^ 40 -> handle_ok (MkBlockHandle o n).
Proof. intros ? ?. split; cbn; lia. Qed.

Lemma add_index_entry_holds r items ridx key :
  index_block_options r = index_options opt -> builder_holds 1 (index_block r) items ridx -> handle_ok (pending_handle r) ->
  entries_ok c valid (items.*2 ++ [(key, handle_bytes (pending_handle r))]) -> bytes_ok key ->
  entries_bound (items.*2 ++ [(key, handle_bytes (pending_handle r))]) < 2 ^ 32 ->
  exists b items' ridx', add_index_entry key r =
      Ret (set_pending false (pending_handle r) (set_last_key key (num_entries r) (set_blocks (data_block r) b r))) /\
    builder_holds 1 b items' ridx' /\ items'.*2 = items.*2 ++ [(key, handle_bytes (pending_handle r))].
Proof.
  intros Ho Hb Hh Hes Hk Hlt. unfold add_index_entry. rewrite BlockHandle_EncodeTo_ok, res_bind_ret, Ho by done. cbn [app].
  change (block_restart_interval (index_options opt)) with 1. change (opt_comparator (index_options opt)) with c.
  destruct (Add_holds c valid 1 ltac:(done) (index_block r) items ridx key (handle_bytes (pending_handle r)) Hb Hes Hk) as (b & it & ridx' & -> & Eit & Hb');
    [by apply handle_bytes_ok|done|]. rewrite res_bind_ret. exists b, (items ++ [it]), ridx'. split; [done|]. split; [done|].
  rewrite fmap_app. cbn. by rewrite Eit.
Qed.

(** The entry of the block that was written last. *)
Lemma pending_entry r ws idx : tb_at r ws [] idx -> pending_index_entry r = true ->
  exists ws' w es e, ws = ws' ++ [w] /\ length idx = length ws' /\ pending_handle r = block_handle ws (length ws') w /\
    block_fits w /\ w.2 = es ++ [e] /\ handle_ok (pending_handle r) /\
    forall key, valid key -> zlength key <= zlength e.1 -> (key = e.1 \/ lt e.1 key) ->
      index_ok c valid same ws [] (idx ++ [(key, handle_bytes (pending_handle r))]).
Proof.
  intros Ht Hp. pose proof (tb_offset_bound _ _ _ _ Ht) as Hbound. pose proof (ta_pending _ _ _ _ Ht) as Hpend. rewrite Hp in Hpend. destruct Hpend as (_ & ws' & w & Ews & Hl & Hh).
  pose proof (ta_blocks _ _ _ _ Ht) as Hbl. assert (block_fits w) as Hw. { rewrite Ews in Hbl. apply Forall_app in Hbl as [_ Hbl]. by apply Forall_cons_1 in Hbl as [Hbl _]. }
  pose proof Hw as (_ & Hne & _ & Hws). destruct (exists_last Hne) as (es & e & Ee). exists ws', w, es, e. split; [done|]. split; [done|]. split; [done|].
  split; [done|]. split; [done|]. pose proof (zlength_nonneg w.1).
  assert (ws !! length ws' = Some w) as Hlast by (rewrite Ews; by apply list_lookup_middle).
  split. { rewrite Hh. pose proof (block_offset_le _ _ _ Hlast). apply handle_ok_small; pose proof (block_offset_nonneg ws (length ws')); lia. }
  intros key Hk Hkl Hke. rewrite Hh, Ews. pose proof (entries_cost_in w.2 e) as Hc. rewrite Ee in Hc at 1.
  assert (entry_bound e <= entries_cost w.2) as Hce by (apply Hc, elem_of_app; right; left). unfold entry_bound in Hce. pose proof (zlength_nonneg e.1). pose proof (zlength_nonneg e.2).
  apply index_snoc; [rewrite <- Ews; apply (ta_index_ok _ _ _ _ Ht)|done|done| |lia|lia].
  pose proof (ta_entries _ _ _ _ Ht) as [Hs _]. rewrite app_nil_r, Ews, table_entries_app, table_entries_one, Ee, fmap_app in Hs.
  apply sorting.StronglySorted_app in Hs as (_ & _ & Hs). rewrite fmap_app in Hs. rewrite Ee. apply Forall_app. split.
  - apply Forall_lookup. intros i a Ha Hlt. assert (lt a.1 e.1) as Hae.
    { apply (sorting.StronglySorted_app_1_elem_of _ _ _ a.1 e.1 Hs); [|left]. apply list_elem_of_fmap_2. by eapply list_elem_of_lookup_2. }
    destruct Hke as [->|Hke]; [by eapply key_lt_asym|]. apply (key_lt_asym c valid a.1 key); [by transitivity e.1|done].
  - repeat constructor. destruct Hke as [->|Hke]; [apply key_lt_irrefl|by apply key_lt_asym].
Qed.

(** ** Add *)
(** The index entry of the finished block, when the next key is known. *)
Lemma index_before_key r ws cur idx key value :
  tb_ready r ws cur idx -> entries_ok c valid ((table_entries ws ++ cur) ++ [(key, value)]) ->
  exists r1 idx1, (if pending_index_entry r then
                     let! _ := assert_ (builder_empty (data_block r)) in
                     let! last_key := FindShortestSeparator (opt_comparator (options r)) (rep_last_key r) key in
                     add_index_entry last_key r
                   else Ret r) = Ret r1 /\
    tb_at r1 ws cur idx1 /\ pending_index_entry r1 = false /\ index_ok c valid same ws (cur ++ [(key, value)]) idx1.
Proof.
  intros [Ht Hlast Hfresh] Hes. pose proof (blocks_nonempty _ (ta_blocks _ _ _ _ Ht)) as Hne.
  destruct (pending_index_entry r) eqn:Ep.
  - pose proof (ta_pending _ _ _ _ Ht) as Hpend. rewrite Ep in Hpend. destruct Hpend as [-> _].
    destruct (ta_data _ _ _ _ Ht) as (items & ridx & Hb & Ei).
    rewrite (builder_empty_holds _ _ _ _ Hb), Ei, assert_true, res_bind_ret, (ta_options _ _ _ _ Ht) by done.
    destruct (pending_entry _ _ _ Ht Ep) as (ws' & w & es & e & Ews & Hl & Hh & Hw & Ee & Hho & Hix).
    assert (table_entries ws ++ [] = (table_entries ws' ++ es) ++ [e]) as Ete.
    { by rewrite app_nil_r, Ews, table_entries_app, table_entries_one, Ee, app_assoc. }
    rewrite (Hlast _ _ Ete). rewrite Ete in Hes.
    assert (valid e.1 /\ valid key /\ lt e.1 key) as (Hve & Hvk & Hlt).
    { destruct Hes as [Hs Hv]. rewrite !fmap_app in Hs, Hv. cbn in Hs, Hv. split_and!.
      - eapply (Forall_elem valid); [exact Hv|]. apply elem_of_app. left. apply elem_of_app. right. left.
      - eapply (Forall_elem valid); [exact Hv|]. apply elem_of_app. right. left.
      - apply (sorting.StronglySorted_app_1_elem_of _ _ _ e.1 key Hs); [|left]. apply elem_of_app. right. left. }
    destruct (Separator_ok e.1 key Hve Hvk Hlt) as (sep & Esep & Hvs & Hsl & Hse & Hsk). rewrite Esep, res_bind_ret.
    pose proof (Hix sep Hvs Hsl Hse) as Hixs. destruct (ta_index _ _ _ _ Ht) as (iitems & iridx & Hib & Eii).
    pose proof (index_sorted c valid same _ _ _ Hixs Hne) as Hisort.
    assert (Forall valid (table_entries ws).*1) as Hvws. { pose proof (ta_entries _ _ _ _ Ht) as [_ Hv]. by rewrite app_nil_r in Hv. }
    pose proof (index_cost c valid same _ _ _ Hixs) as Hicost. pose proof (ta_size _ _ _ _ Ht) as Hsz. rewrite app_nil_r in Hsz.
    destruct (add_index_entry_holds r iitems iridx sep (ta_index_options _ _ _ _ Ht) Hib Hho) as (b' & iitems' & iridx' & -> & Hib' & Eii').
    { rewrite Eii. by apply Hisort. }
    { by apply Hvalid. }
    { rewrite Eii, entries_cost_bound. lia. }
    rewrite Eii in Eii'. eexists _, _. split; [done|]. split; [|split; [done|]].
    + destruct Ht. split; try done; [by exists iitems', iridx'|]. cbn [pending_index_entry set_pending]. rewrite length_app, Hl, Ews, length_app. done.
    + cbn [app]. apply (index_ok_add c valid same ws [] _ key value); [done|done|by rewrite Ete|]. intros _ i w' e' Hi Hw' He'. rewrite Ews, length_app in Hi. cbn in Hi.
      assert (i = length ws') as -> by lia. rewrite Ews, list_lookup_middle in Hw' by done. injection Hw' as <-. rewrite <- Hl, list_lookup_middle in He' by done. injection He' as <-.
      cbn [fst]. split; [done|]. destruct Hse as [->|Hse]; [left; exists e; split; [rewrite Ee; apply elem_of_app; right; left|done]|right].
      intros k' Hk' Hsame. destruct (Separator_splits e.1 key sep k' Hve Hvk Hlt Esep Hk' Hsame) as [->|]; [by apply key_lt_irrefl in Hse|done].
  - exists r, idx. split; [done|]. split; [done|]. split; [done|]. apply index_ok_add; [apply (ta_index_ok _ _ _ _ Ht)|done|done|].
    intros -> i w e Hi Hw _. destruct (Hfresh eq_refl) as [?|Hnil]; [done|]. by rewrite Hnil in Hw.
Qed.

Lemma filter_add_key fb offset ws cur key value :
  filter_at fb offset ws cur -> offset = zlength (data_bytes ws) -> valid key -> zlength (table_entries ws ++ cur) + 1 < 2 ^ 31 ->
  filter_at (match fb with Some (policy, b) => Some (policy, AddKey key b) | None => fb end) offset ws (cur ++ [(key, value)]).
Proof.
  intros Hf -> Hk Hl. unfold filter_at in *. destruct (filter_policy opt) as [p|] eqn:Ep, fb as [[p' b]|]; try done.
  destruct Hf as [-> (fs & dn & pend & Hb & Hdn & Hn & Hw & Hc)]. destruct (Hpolicy p eq_refl) as [Hp _]. split; [done|].
  pose proof (zlength_nonneg (concat dn)). pose proof (zlength_nonneg (data_bytes ws)).
  exists fs, dn, (pend ++ [key]). split; [apply (AddKey_holds p valid same cost); [done|done|lia]|]. split; [done|].
  split; [rewrite app_assoc, (zlength_app _ [_]), zlength_app; change (zlength [key]) with 1; change (zlength [(key, value)]) with 1; lia|].
  split; [intros i w a Hi Ha; apply covered_snoc; by eapply Hw|]. intros a [Ha| ->%list_elem_of_singleton]%elem_of_app; [by apply covered_snoc, Hc|].
  cbn [fst]. replace (Z.to_nat (zlength (data_bytes ws) / 2048)) with (length dn) by (unfold zlength in *; lia). apply covered_new.
Qed.

Lemma tb_Add_holds r ws cur idx key value :
  tb_ready r ws cur idx -> entries_ok c valid ((table_entries ws ++ cur) ++ [(key, value)]) -> bytes_ok value ->
  entries_cost ((table_entries ws ++ cur) ++ [(key, value)]) < 2 ^ 29 ->
  exists r' ws' cur' idx', tb_Add key value r = Ret r' /\ tb_ready r' ws' cur' idx' /\
    table_entries ws' ++ cur' = (table_entries ws ++ cur) ++ [(key, value)].
Proof.
  intros Hr Hes Hv Hsz. pose proof (index_before_key r ws cur idx key value Hr Hes) as (r1 & idx1 & E1 & Ht1 & Hp1 & Hix1).
  destruct Hr as [Ht Hlast _]. unfold tb_Add. rewrite (ta_closed _ _ _ _ Ht), (ta_ok _ _ _ _ Ht). cbn [negb assert_]. rewrite res_bind_ret.
  assert (valid key) as Hvk. { destruct Hes as [_ Hval]. rewrite fmap_app in Hval. apply Forall_app in Hval as [_ Hval]. by apply Forall_cons_1 in Hval as [Hval _]. }
  assert ((if 0 <? num_entries r then
             let! z := Compare (opt_comparator (options r)) key (rep_last_key r) in assert_ (0 <? z)
           else Ret tt) = Ret tt) as ->.
  { rewrite (ta_num _ _ _ _ Ht). destruct (decide (table_entries ws ++ cur = [])) as [->|Hne]; [done|].
    destruct (exists_last Hne) as (es & e & Ee). rewrite (Hlast _ _ Ee), (ta_options _ _ _ _ Ht). rewrite Ee in Hes.
    destruct Hes as [Hs Hval]. rewrite !fmap_app in Hs, Hval. cbn in Hs, Hval.
    assert (lt e.1 key) as Hlt by (apply (sorting.StronglySorted_app_1_elem_of _ _ _ e.1 key Hs); [apply elem_of_app; right; left|left]).
    assert (valid e.1) as Hve by (eapply (Forall_elem valid); [exact Hval|apply elem_of_app; left; apply elem_of_app; right; left]).
    rewrite (proj2 (Z.ltb_lt _ _)) by (rewrite Ee, zlength_app; change (zlength [e]) with 1; pose proof (zlength_nonneg es); lia).
    destruct (Compare_ok key e.1 Hvk Hve) as (z & -> & Hz). rewrite res_bind_ret. apply assert_true, Z.ltb_lt.
    destruct (z ?= 0) eqn:Ez; [subst key; by apply key_lt_irrefl in Hlt|by apply key_lt_asym in Hlt|by apply Z.compare_gt_iff]. }
  rewrite res_bind_ret, E1, res_bind_ret.
  set (r2 := match filter_block r1 with Some (policy, b) => set_filter (Some (policy, AddKey key b)) r1 | None => r1 end).
  set (fb2 := match filter_block r1 with Some (policy, b) => Some (policy, AddKey key b) | None => filter_block r1 end).
  assert (r2 = set_filter fb2 r1) as E2. { unfold r2, fb2. destruct (filter_block r1) as [[p b]|] eqn:Eb; [done|]. rewrite <- Eb. by destruct r1. }
  rewrite E2. clear r2 E2. pose proof Ht1 as [Ho1 Hio1 Hok1 Hcl1 Hcont1 Hoff1 Hbl1 Hes1 Hval1 Hsz1 Hdata1 Hindex1 _ Hpend1 Hnum1 Hfil1].
  rewrite Hp1 in Hpend1. cbn [options num_entries set_filter set_last_key data_block]. rewrite Ho1. destruct Hdata1 as (items & ridx & Hb & Ei).
  assert (entries_ok c valid (items.*2 ++ [(key, value)])) as Hcur.
  { rewrite Ei. destruct Hes as [Hs Hval]. rewrite <- app_assoc, fmap_app in Hs, Hval. apply sorting.StronglySorted_app in Hs as (_ & _ & Hs).
    by apply Forall_app in Hval as [_ Hval]. }
  pose proof (entries_cost_nonneg (table_entries ws)) as Hc0.
  assert (entries_bound (items.*2 ++ [(key, value)]) < 2 ^ 32) as Hlt by (rewrite Ei, entries_cost_bound; rewrite <- app_assoc, entries_cost_app in Hsz; lia).
  destruct (Add_holds c valid interval Hinterval (data_block r1) items ridx key value Hb Hcur (Hvalid _ Hvk) Hv Hlt) as (b' & it & ridx' & -> & Eit & Hb').
  rewrite res_bind_ret. set (r3 := set_blocks b' _ _).
  assert (tb_at r3 ws (cur ++ [(key, value)]) idx1) as Ht3.
  { split; try done; rewrite ?app_assoc; try done.
    - apply Forall_app. split; [done|]. by repeat constructor.
    - exists (items ++ [it]), ridx'. split; [done|]. rewrite fmap_app, Ei. cbn. by rewrite Eit.
    - cbn [pending_index_entry r3 set_blocks set_last_key set_filter]. by rewrite Hp1.
    - cbn [num_entries r3 set_blocks set_last_key set_filter]. rewrite Hnum1, (zlength_app _ [_]). done.
    - cbn [filter_block r3 set_blocks set_last_key set_filter]. unfold fb2. apply filter_add_key; [done|done|done|].
      pose proof (entries_cost_ge (table_entries ws ++ cur)). pose proof (zlength_nonneg (table_entries ws ++ cur)). lia. }
  change (block_size opt <=? CurrentSizeEstimate (data_block r3)) with (block_size opt <=? CurrentSizeEstimate b').
  destruct (block_size opt <=? CurrentSizeEstimate b').
  - destruct (Flush_holds r3 ws (cur ++ [(key, value)]) idx1 Ht3) as (r4 & ws4 & -> & Ht4 & Ete & Hlk & Hp4); [by destruct cur|].
    exists r4, ws4, [], idx1. split; [done|]. rewrite app_nil_r, Ete, <- app_assoc. split; [|done]. split; [done| |by rewrite Hp4].
    intros es e E. rewrite app_nil_r, Ete, app_assoc in E. apply app_inj_tail in E as [_ <-]. by rewrite Hlk.
  - exists r3, ws, (cur ++ [(key, value)]), idx1. split; [done|]. rewrite app_assoc. split; [|done]. split; [done| |intros _; left; by destruct cur].
    intros es e E. rewrite app_assoc in E. apply app_inj_tail in E as [_ <-]. done.
Qed.

(** ** Finish *)
Lemma set_file_filter_eq r : r = set_file (file r) (rep_offset r) (rep_status r) (set_filter (filter_block r) r).
Proof. by destruct r. Qed.

Lemma write_filter_holds r ws :
  filter_at (filter_block r) (zlength (data_bytes ws)) ws [] -> tb_ok r = true -> wf_contents (file r) = data_bytes ws ->
  rep_offset r = zlength (data_bytes ws) -> zlength (data_bytes ws) < 2 ^ 30 -> cost * zlength (table_entries ws) < 2 ^ 29 ->
  exists fl fb f s h, write_filter r = Ret (h, set_file f (zlength (data_bytes ws ++ filter_bytes fl)) s (set_filter fb r)) /\
    ok s = true /\ wf_contents f = data_bytes ws ++ filter_bytes fl /\ filter_ok valid same cost (filter_policy opt) ws fl /\
    zlength (filter_bytes fl) < 2 ^ 31 /\
    match fl with Some b => h = MkBlockHandle (zlength (data_bytes ws)) (zlength b) /\ is_Some fb | None => fb = None end.
Proof.
  intros Hfil Hok Hcont Hoff Hbound Hcost'. pose proof (zlength_nonneg (data_bytes ws)). unfold write_filter, filter_at in *. rewrite app_nil_r in *. destruct (filter_policy opt) as [p|] eqn:Ep, (filter_block r) as [[p' b]|] eqn:Eb; try done.
  - destruct Hfil as [-> (fs & dn & pend & Hb & Hl & Hn & Hw & _)]. destruct (Hpolicy p eq_refl) as [Hp _]. rewrite Hok.
    destruct (FilterBlock_Finish_holds p valid same cost b fs dn pend Hb) as ([contents b'] & fs' & dn' & -> & Hf & -> & Hlen & Heq). cbn [fst] in *.
    rewrite res_bind_ret. pose proof (filters_size p valid same cost _ _ Hf) as Hfs.
    assert (zlength fs' <= zlength dn + 1) as Hlfs.
    { unfold zlength. rewrite (Forall2_length Hf), length_app. destruct (decide (pend = [])); cbn; lia. }
    assert (zlength (concat (dn ++ (if decide (pend = []) then [] else [pend]))) = zlength (table_entries ws)) as Hkeys.
    { rewrite concat_app, zlength_app, <- Hn. f_equal. destruct (decide (pend = [])) as [->|]; [done|]. cbn [concat]. by rewrite app_nil_r. }
    rewrite Hkeys in Hfs. assert (zlength (data_bytes ws) / 2048 < 2 ^ 20) by (apply Z.div_lt_upper_bound; lia).
    assert (zlength contents < 2 ^ 31 - 5) as Hc31 by nia. pose proof (zlength_nonneg contents).
    specialize (Heq ltac:(lia)). assert (bytes_ok contents) as Hcok.
    { rewrite Heq. by eapply filter_block_ok. }
    destruct (WriteRawBlock_holds contents (set_filter (Some (p, b')) r) Hcok) as (f & s & -> & Hs & Hff); [cbn; lia|cbn; lia|].
    exists (Some contents), (Some (p, b')), f, s. eexists. cbn [rep_offset set_filter file filter_bytes] in *. rewrite Hoff. split; [do 3 f_equal|].
    { rewrite zlength_app, zlength_framed. lia. }
    split; [done|]. rewrite Hff, Hcont, zlength_framed. split; [done|]. split; [|split; [lia|by split]].
    exists fs'. eexists. split; [exact Hf|]. split; [done|]. split; [lia|]. intros i w a Hi Ha. by apply covered_finished, (Hw i w).
  - exists None, None, (file r), (rep_status r), new_BlockHandle. cbn [filter_bytes]. rewrite app_nil_r, <- Hoff. split; [|done].
    do 2 f_equal. rewrite <- Eb. apply set_file_filter_eq.
Qed.

Lemma metaindex_key_ok p : bytes_ok (fp_Name p) -> bytes_ok (filter_key p).
Proof. intros Hn. apply bytes_ok_app. split; [by apply bytes_ok_forallb|done]. Qed.

Lemma write_metaindex_holds r ws fl h :
  tb_ok r = true -> options r = opt -> rep_offset r = zlength (data_bytes ws ++ filter_bytes fl) -> rep_offset r < 2 ^ 32 ->
  filter_ok valid same cost (filter_policy opt) ws fl ->
  match fl with Some b => h = MkBlockHandle (zlength (data_bytes ws)) (zlength b) /\ is_Some (filter_block r) | None => filter_block r = None end ->
  (forall p, filter_policy opt = Some p -> zlength (fp_Name p) < 2 ^ 31) ->
  exists mi f s, write_metaindex h r = Ret (MkBlockHandle (rep_offset r) (zlength mi), set_file f (rep_offset r + zlength (framed mi)) s r) /\
    ok s = true /\ wf_contents f = wf_contents (file r) ++ framed mi /\ is_block mi (metaindex_entries (filter_policy opt) ws fl) /\
    bytes_ok mi /\ zlength (framed mi) < 2 ^ 32.
Proof.
  intros Hok Ho Hoff Hlt Hfl Hh Hname. unfold write_metaindex. rewrite Hok.
  assert (exists b items ridx, build_metaindex h r = Ret b /\ builder_holds interval b items ridx /\
    items.*2 = metaindex_entries (filter_policy opt) ws fl /\ entries_bound items.*2 < 2 ^ 32) as (b & items & ridx & -> & Hb & Ei & Hbd).
  { unfold build_metaindex. rewrite Ho. destruct (new_BlockBuilder_holds interval Hinterval) as (b & E & Hb). rewrite E, res_bind_ret.
    unfold filter_ok in Hfl. destruct (filter_policy opt) as [p|] eqn:Ep, fl as [fbytes|]; try done.
    - destruct Hh as [-> [fb ->]]. cbn [of_option]. rewrite res_bind_ret. destruct (Hpolicy p eq_refl) as [_ Hn]. specialize (Hname p eq_refl).
      destruct Hfl as (_ & _ & _ & _ & Hfb & _). cbn [filter_bytes] in Hoff. rewrite zlength_app, zlength_framed in Hoff.
      pose proof (zlength_nonneg (data_bytes ws)). pose proof (zlength_nonneg fbytes).
      set (fh := MkBlockHandle _ _). assert (handle_ok fh) as Hfh by (apply handle_ok_small; lia).
      rewrite BlockHandle_EncodeTo_ok, res_bind_ret by done. cbn [app].
      assert (buffer_ b = []) as Hbuf by (by rewrite (bh_buffer _ _ _ _ Hb)).
      rewrite (Add_first _ _ BytewiseComparator) by done. pose proof (zlength_handle_bytes fh).
      assert (entries_bound [(filter_key p, handle_bytes fh)] < 2 ^ 32) as Hbound.
      { rewrite entries_cost_bound. unfold entries_cost. cbn [foldr]. unfold entry_bound. cbn [fst snd]. unfold filter_key. rewrite zlength_app. change (zlength (str "filter.")) with 7. lia. }
      destruct (Add_holds BytewiseComparator bytes_ok interval Hinterval b [] [O] (filter_key p) (handle_bytes fh) Hb) as (b' & it & ridx' & E' & Eit & Hb').
      + apply bytewise_entries_ok; [done|]. constructor; [by apply metaindex_key_ok|constructor].
      + by apply metaindex_key_ok.
      + by apply handle_bytes_ok.
      + exact Hbound.
      + exists b', ([] ++ [it]), ridx'. split; [exact E'|]. split; [done|]. cbn [app fmap list_fmap metaindex_entries]. rewrite Eit. done.
    - rewrite Hh. exists b, [], [O]. done. }
  rewrite res_bind_ret. pose proof (zlength_nonneg (data_bytes ws ++ filter_bytes fl)).
  destruct (WriteBlock_holds interval b items ridx r Hok Hb Hbd) as (mi & f & s & -> & Hs & Hf & Hmi & Hby & Hsz); [lia|].
  rewrite res_bind_ret, Ei in *. exists mi, f, s. rewrite zlength_framed. split; [done|]. split; [done|]. split; [done|]. split; [done|]. split; [done|lia].
Qed.

Lemma write_index_holds r0 r ws idx :
  tb_at r0 ws [] idx -> pending_index_entry r0 = true \/ ws = [] -> (forall es e, table_entries ws = es ++ [e] -> rep_last_key r = e.1) ->
  tb_ok r = true -> options r = opt -> index_block_options r = index_options opt -> index_block r = index_block r0 ->
  pending_index_entry r = pending_index_entry r0 -> pending_handle r = pending_handle r0 -> 0 <= rep_offset r < 2 ^ 34 ->
  exists ix idx' r', write_index r = Ret (MkBlockHandle (rep_offset r) (zlength ix), r') /\
    tb_ok r' = true /\ wf_contents (file r') = wf_contents (file r) ++ framed ix /\ rep_offset r' = rep_offset r + zlength (framed ix) /\
    is_block ix idx' /\ bytes_ok ix /\ zlength (framed ix) < 2 ^ 32 /\ length idx' = length ws /\ index_ok c valid same ws [] idx'.
Proof.
  intros Ht Hpw Hlast Hok Ho Hio Hib Hpe Hph Hoff. unfold write_index. rewrite Hok, Hpe, Ho.
  pose proof (blocks_nonempty _ (ta_blocks _ _ _ _ Ht)) as Hne. pose proof (ta_size _ _ _ _ Ht) as Hsz. rewrite app_nil_r in Hsz.
  assert (Forall valid (table_entries ws).*1) as Hvws. { pose proof (ta_entries _ _ _ _ Ht) as [_ Hv]. by rewrite app_nil_r in Hv. }
  destruct (ta_index _ _ _ _ Ht) as (items & ridx & Hb & Ei).
  assert (exists r1 idx' items' ridx', (if pending_index_entry r0 then
            let! last_key := FindShortSuccessor c (rep_last_key r) in add_index_entry last_key r else Ret r) = Ret r1 /\
          builder_holds 1 (index_block r1) items' ridx' /\ items'.*2 = idx' /\ length idx' = length ws /\ index_ok c valid same ws [] idx' /\
          file r1 = file r /\ rep_offset r1 = rep_offset r /\ tb_ok r1 = true)
    as (r1 & idx' & items' & ridx' & -> & Hb' & Ei' & Hl' & Hix' & Ef & Eo & Hok1).
  { destruct (pending_index_entry r0) eqn:Ep.
    - destruct (pending_entry _ _ _ Ht Ep) as (ws' & w & es & e & Ews & Hl & Hh & Hw & Ee & Hho & Hix).
      assert (table_entries ws = (table_entries ws' ++ es) ++ [e]) as Ete by (by rewrite Ews, table_entries_app, table_entries_one, Ee, app_assoc).
      rewrite (Hlast _ _ Ete). assert (valid e.1) as Hve.
      { rewrite Ete, fmap_app in Hvws. apply Forall_app in Hvws as [_ Hvws]. by apply Forall_cons_1 in Hvws as [Hvws _]. }
      destruct (Successor_ok e.1 Hve) as (suc & -> & Hvs & Hsl & Hse). rewrite res_bind_ret.
      assert (suc = e.1 \/ lt e.1 suc) as Hse' by done. pose proof (Hix suc Hvs Hsl Hse') as Hixs. rewrite <- Hph in Hixs, Hho.
      pose proof (index_sorted c valid same _ _ _ Hixs Hne Hvws) as Hisort. pose proof (index_cost c valid same _ _ _ Hixs) as Hicost.
      rewrite <- Hib in Hb.
      destruct (add_index_entry_holds r items ridx suc Hio Hb Hho) as (b' & items' & ridx' & -> & Hb' & Ei'); [by rewrite Ei|by apply Hvalid|rewrite Ei, entries_cost_bound; lia|].
      rewrite Ei in Ei'. eexists _, _, items', ridx'. split; [done|]. split; [done|]. split; [done|]. split; [rewrite length_app, Hl, Ews, length_app; done|].
      by split.
    - destruct Hpw as [?|Hnil]; [done|]. exists r, idx, items, ridx. rewrite Hib. split; [done|]. split; [done|]. split; [done|].
      split; [|split; [apply (ta_index_ok _ _ _ _ Ht)|done]]. pose proof (ta_pending _ _ _ _ Ht) as Hpend. by rewrite Ep in Hpend. }
  rewrite res_bind_ret. pose proof (index_cost c valid same _ _ _ Hix') as Hicost.
  destruct (WriteBlock_holds 1 (index_block r1) items' ridx' r1 Hok1 Hb') as (ix & f & s & -> & Hs & Hf & Hbx & Hby & Hbsz); [rewrite Ei', entries_cost_bound; lia|lia|].
  rewrite res_bind_ret. rewrite Ei', entries_cost_bound in *. exists ix, idx'. eexists. rewrite Eo. split; [done|]. split; [done|]. rewrite zlength_framed.
  rewrite Ef in Hf. split; [exact Hf|]. split; [cbn; lia|]. split; [done|]. split; [done|]. split; [lia|done].
Qed.

Lemma tb_Finish_holds r ws cur idx :
  tb_ready r ws cur idx -> cost * zlength (table_entries ws ++ cur) < 2 ^ 29 ->
  (forall p, filter_policy opt = Some p -> zlength (fp_Name p) < 2 ^ 31) ->
  exists s r' ws', tb_Finish r = Ret (s, r') /\ ok s = true /\ table_entries ws' = table_entries ws ++ cur /\
    table_layout c valid same cost (filter_policy opt) (wf_contents (file r')) ws' /\ rep_offset r' = zlength (wf_contents (file r')).
Proof.
  intros [Ht0 Hlast0 Hfresh0] Hcost' Hname. unfold tb_Finish.
  assert (exists r1 ws1, Flush r = Ret r1 /\ tb_at r1 ws1 [] idx /\ table_entries ws1 = table_entries ws ++ cur /\
    rep_last_key r1 = rep_last_key r /\ (pending_index_entry r1 = true \/ ws1 = [])) as (r1 & ws1 & -> & Ht & Ete & Hlk & Hpe).
  { destruct (decide (cur = [])) as [->|Hne].
    - exists r, ws. rewrite app_nil_r. split; [|split_and!; [done..|]].
      2: { destruct (pending_index_entry r) eqn:Ep; [by left|right]. by destruct (Hfresh0 eq_refl). }
      unfold Flush. rewrite (ta_closed _ _ _ _ Ht0), (ta_ok _ _ _ _ Ht0). cbn [negb assert_]. rewrite res_bind_ret.
      destruct (ta_data _ _ _ _ Ht0) as (items & ridx & Hb & Ei). by rewrite (builder_empty_holds _ _ _ _ Hb), Ei.
    - destruct (Flush_holds r ws cur idx Ht0 Hne) as (r1 & ws1 & E & Ht & Ete & Hlk & Hp). exists r1, ws1. split_and!; [done..|by left]. }
  rewrite res_bind_ret, (ta_closed _ _ _ _ Ht). cbn [negb assert_]. rewrite res_bind_ret. rewrite <- Ete in Hcost', Hlast0.
  pose proof (tb_offset_bound _ _ _ _ Ht) as Hbound.
  destruct (write_filter_holds (set_closed r1) ws1) as (fl & fb & f1 & s1 & h1 & -> & Hs1 & Hf1 & Hfl & Hfsz & Hfb);
    [apply (ta_filter _ _ _ _ Ht)|apply (ta_ok _ _ _ _ Ht)|apply (ta_contents _ _ _ _ Ht)|apply (ta_offset _ _ _ _ Ht)|lia|done|].
  rewrite res_bind_ret. set (o1 := zlength (data_bytes ws1 ++ filter_bytes fl)). assert (0 <= o1 < 2 ^ 32 - 2 ^ 29) as Ho1.
  { unfold o1. rewrite zlength_app. pose proof (zlength_nonneg (filter_bytes fl)). lia. }
  set (r2 := set_file f1 o1 s1 _).
  destruct (write_metaindex_holds r2 ws1 fl h1 Hs1 (ta_options _ _ _ _ Ht)) as (mi & f2 & s2 & -> & Hs2 & Hf2 & Hmi & Hmiby & Hmisz); [done|cbn; lia|done|done|done|].
  rewrite res_bind_ret. set (r3 := set_file f2 _ s2 r2).
  pose proof (zlength_nonneg (framed mi)). assert (rep_offset r3 = o1 + zlength (framed mi)) as Eo3 by done.
  destruct (write_index_holds r1 r3 ws1 idx Ht Hpe) as (ix & idx' & r4 & -> & Hok4 & Hf4 & Ho4 & Hix & Hixby & Hixsz & Hl & Hixok);
    [|done|apply (ta_options _ _ _ _ Ht)|apply (ta_index_options _ _ _ _ Ht)|done|done|done|lia|].
  { intros es e E. change (rep_last_key r3) with (rep_last_key r1). rewrite Hlk. by apply (Hlast0 es). }
  rewrite res_bind_ret. unfold write_footer. rewrite Hok4. pose proof (zlength_nonneg (framed ix)). rewrite zlength_framed in *.
  set (mh := MkBlockHandle (rep_offset r2) (zlength mi)). set (ih := MkBlockHandle (rep_offset r3) (zlength ix)).
  pose proof (zlength_nonneg mi). pose proof (zlength_nonneg ix).
  assert (handle_ok mh) as Hmh by (apply handle_ok_small; [change (rep_offset r2) with o1|]; lia).
  assert (handle_ok ih) as Hih by (apply handle_ok_small; rewrite ?Eo3; lia).
  rewrite Footer_EncodeTo_ok, res_bind_ret by done.
  destruct (wf_Append_ok (footer_bytes (MkFooter mh ih)) (file r4)) as [Hok5 Hf5]. destruct (wf_Append _ (file r4)) as [s5 f5]. cbn [fst snd] in *.
  rewrite res_bind_ret, Hok5. set (r5 := set_file f5 _ s5 r4). exists (rep_status r5), r5, ws1. split; [done|]. split; [done|]. split; [done|].
  assert (wf_contents (file r5) = data_bytes ws1 ++ filter_bytes fl ++ framed mi ++ framed ix ++ footer_bytes (MkFooter mh ih)) as Econt.
  { change (wf_contents f5 = data_bytes ws1 ++ filter_bytes fl ++ framed mi ++ framed ix ++ footer_bytes (MkFooter mh ih)).
    rewrite Hf5, Hf4. change (file r3) with f2. rewrite Hf2. change (file r2) with f1. rewrite Hf1. by rewrite <- !app_assoc. }
  assert (zlength (wf_contents (file r5)) = rep_offset r4 + 48) as Elen.
  { rewrite Econt, Ho4, Eo3. unfold o1. rewrite !zlength_app, !zlength_framed, zlength_footer. lia. }
  split; [split|].
  - apply (ta_blocks _ _ _ _ Ht).
  - pose proof (ta_entries _ _ _ _ Ht) as He. by rewrite app_nil_r in He.
  - pose proof (ta_values _ _ _ _ Ht) as Hv. pose proof (ta_entries _ _ _ _ Ht) as [_ Hk]. rewrite app_nil_r in Hv, Hk.
    apply Forall_lookup. intros i e He. split; [|by apply (Forall_lookup_1 _ _ _ _ Hv He)].
    apply Hvalid. apply (Forall_lookup_1 _ _ i _ Hk). by rewrite list_lookup_fmap, He.
  - exists idx', fl, mi, ix. assert (zlength (data_bytes ws1 ++ filter_bytes fl ++ framed mi) = rep_offset r3) as ->.
    { rewrite Eo3. unfold o1. rewrite !zlength_app, zlength_framed. lia. }
    split; [exact Econt|done].
  - rewrite Elen, Ho4, Eo3. lia.
  - rewrite Elen. change (rep_offset r5) with (u64 (rep_offset r4 + size (footer_bytes (MkFooter mh ih)))). unfold size. rewrite zlength_footer, wrap_small by lia. done.
Qed.

(** ** A table, from its entries *)
Fixpoint add_entries (es : list entry) r : res (Rep F) :=
  match es with
  | [] => Ret r
  | (key, value) :: es => let! r := tb_Add key value r in add_entries es r
  end.

Definition build_table (es : list entry) (f : F) : res (Status * Rep F) :=
  let! r := new_TableBuilder opt f in
  let! r := add_entries es r in
  tb_Finish r.

Lemma add_entries_holds es r ws cur idx :
  tb_ready r ws cur idx -> entries_ok c valid ((table_entries ws ++ cur) ++ es) -> Forall (fun e => bytes_ok e.2) es ->
  entries_cost ((table_entries ws ++ cur) ++ es) < 2 ^ 29 ->
  exists r' ws' cur' idx', add_entries es r = Ret r' /\ tb_ready r' ws' cur' idx' /\ table_entries ws' ++ cur' = (table_entries ws ++ cur) ++ es.
Proof.
  intros Hr Hes Hv Hsz. revert r ws cur idx Hr Hes Hsz. induction Hv as [|[k v] es Hv _ IH]; intros r ws cur idx Hr Hes Hsz.
  { exists r, ws, cur, idx. by rewrite app_nil_r. }
  assert ((table_entries ws ++ cur) ++ (k, v) :: es = ((table_entries ws ++ cur) ++ [(k, v)]) ++ es) as E by by rewrite <- (app_assoc (_ ++ _)). rewrite E in *.
  destruct (tb_Add_holds r ws cur idx k v Hr) as (r1 & ws1 & cur1 & idx1 & E1 & Hr1 & Ete1); [|done| |].
  { destruct Hes as [Hs Hval]. rewrite (fmap_app _ _ es) in Hs, Hval. apply sorting.StronglySorted_app in Hs as (_ & Hs & _). apply Forall_app in Hval as [Hval _]. by split. }
  { rewrite entries_cost_app in Hsz. pose proof (entries_cost_nonneg es). lia. }
  cbn [add_entries]. rewrite E1, res_bind_ret, <- Ete1 in *. exact (IH r1 ws1 cur1 idx1 Hr1 Hes Hsz).
Qed.

Lemma build_table_holds es f :
  wf_contents f = [] -> entries_ok c valid es -> Forall (fun e => bytes_ok e.2) es -> entries_cost es < 2 ^ 29 -> cost * zlength es < 2 ^ 29 ->
  (forall p, filter_policy opt = Some p -> zlength (fp_Name p) < 2 ^ 31) ->
  exists s r ws, build_table es f = Ret (s, r) /\ ok s = true /\ table_entries ws = es /\
    table_layout c valid same cost (filter_policy opt) (wf_contents (file r)) ws /\ FileSize r = zlength (wf_contents (file r)).
Proof.
  intros Hf Hes Hv Hsz Hc Hn. unfold build_table. destruct (new_TableBuilder_holds f Hf) as (r0 & -> & Hr0). rewrite res_bind_ret.
  destruct (add_entries_holds es r0 [] [] [] Hr0 Hes Hv Hsz) as (r1 & ws1 & cur1 & idx1 & -> & Hr1 & Ete). rewrite res_bind_ret.
  cbn [table_entries fmap list_fmap concat app] in Ete.
  destruct (tb_Finish_holds r1 ws1 cur1 idx1 Hr1) as (s & r2 & ws2 & -> & Hs & Ete2 & Htf & Ho); [by rewrite Ete|done|].
  exists s, r2, ws2. rewrite Ete in Ete2. done.
Qed.
End builder.
