(* ===== verification/TableFacts.v ===== *)
(** * LevelDB's tables, proved

    A file with the layout of a table is opened, iterated and searched: the
    iterator keeps the contract over all entries, and lookups find the first
    entry at or past a key unless the filter knows that it is another key. *)
From S2P Require Import Prelude LdbBase Coding Comparator DbFormat Iterator Block BlockBuild TwoLevel TwoLevelFacts Format FormatFacts Filter FilterFacts TableBuilder Table TableBuild.

(** Different blocks have different offsets. *)
Lemma block_offset_lt ws i j w : ws !! i = Some w -> (i < j <= length ws)%nat -> block_offset ws i < block_offset ws j.
Proof.
  intros Hw [Hij Hj]. unfold block_offset. assert (take j ws = take i ws ++ w :: take (j - S i) (drop (S i) ws)) as ->.
  { rewrite <- (take_drop_middle ws i w Hw) at 1. rewrite take_app_ge by (rewrite length_take; lia). rewrite length_take, Nat.min_l by lia.
    f_equal. replace (j - i)%nat with (S (j - S i)) by lia. done. }
  rewrite data_bytes_app, data_bytes_cons, !zlength_app, zlength_framed. pose proof (zlength_nonneg w.1).
  pose proof (zlength_nonneg (data_bytes (take (j - S i) (drop (S i) ws)))). lia.
Qed.

Lemma block_offset_inj ws i j w w' : ws !! i = Some w -> ws !! j = Some w' -> block_offset ws i = block_offset ws j -> i = j.
Proof.
  intros Hw Hw' E. apply lookup_lt_Some in Hw as Hi. apply lookup_lt_Some in Hw' as Hj.
  destruct (lt_eq_lt_dec i j) as [[Hlt|]|Hlt]; [|done|].
  - pose proof (block_offset_lt ws i j w Hw). lia.
  - pose proof (block_offset_lt ws j i w' Hw'). lia.
Qed.

Section table.
Context (valid : bytes -> Prop) (same : bytes -> bytes -> Prop) (cost : Z) (opt : Options).
Abbreviation c := (opt_comparator opt).
Abbreviation lt := (key_lt c valid).
Context `{!ComparatorOk c valid}.
Context {F : Type} `{RandomReadableFile F} {C : Type} `{BlockCacheOk C}.
Hypothesis Hpolicy : forall p, filter_policy opt = Some p -> FilterPolicyOk p valid same cost /\ bytes_ok (fp_Name p).
Variables (f : F) (ws : list wblock).
Hypothesis Hfile : table_layout c valid same cost (filter_policy opt) (raf_contents f) ws.
Implicit Types (t : Table F) (cache : option C).
Abbreviation es := (table_entries ws).

(** ** Reading blocks *)
Lemma read_framed ro h pre bs post :
  raf_contents f = pre ++ framed bs ++ post -> h = MkBlockHandle (zlength pre) (zlength bs) -> bytes_ok bs ->
  exists b, ReadBlock f ro h = Ret (Status_OK, MkBlockContents bs b b).
Proof.
  intros Hf -> Hb. pose proof (tf_size _ _ _ _ _ _ _ Hfile) as Hsz. rewrite Hf, !zlength_app, zlength_framed in Hsz.
  pose proof (zlength_nonneg pre). pose proof (zlength_nonneg post).
  apply (ReadBlock_ok f ro _ pre bs post); [|done|done|done|lia]. rewrite Hf. unfold framed. by rewrite <- app_assoc.
Qed.

Lemma block_fits_at i w : ws !! i = Some w -> block_fits w.
Proof. intros Hw. exact (Forall_lookup_1 _ _ _ _ (tf_blocks _ _ _ _ _ _ _ Hfile) Hw). Qed.

Lemma read_data i w ro : ws !! i = Some w ->
  (handle_ok (block_handle ws i w) /\ zlength w.1 < 2 ^ 40) /\ exists b, ReadBlock f ro (block_handle ws i w) = Ret (Status_OK, MkBlockContents w.1 b b).
Proof.
  intros Hw. destruct (tf_rest _ _ _ _ _ _ _ Hfile) as (idx & fl & mi & ix & Hf & _). pose proof (tf_size _ _ _ _ _ _ _ Hfile) as Hsz.
  destruct (data_bytes_at ws i w Hw) as (pre & post & Ed & Hpre). destruct (block_fits_at i w Hw) as (_ & _ & Hby & _). split.
  - rewrite Hf, !zlength_app in Hsz. pose proof (block_offset_le ws i w Hw). pose proof (block_offset_nonneg ws i). pose proof (zlength_nonneg w.1).
    match type of Hsz with ?a + (?b + (?d + (?e + ?g))) < _ => assert (0 <= b + (d + (e + g))) by (rewrite <- !zlength_app; apply zlength_nonneg) end.
    split; [split; cbn|]; lia.
  - eapply (read_framed ro _ pre w.1); [rewrite Hf, Ed, <- !app_assoc; reflexivity| |done]. unfold block_handle. by rewrite Hpre.
Qed.

(** Opening a block for reading. *)
Lemma open_block bs l : is_block bs l -> entries_ok c valid l ->
  exists b i, new_Block bs = Ret b /\ size_ b = zlength bs /\ 0 < zlength bs /\ NewIterator b c = Ret (inr i) /\ it_at c valid l None i.
Proof.
  intros (items & ridx & Hly & <- & ->) Hes. destruct (NewIterator_layout c valid items ridx Hly Hes) as (b & i & E & Es & E' & Hi).
  exists b, i. split; [done|]. split; [done|]. split; [|done]. unfold block_bytes. rewrite !zlength_app, zlength_fixed32.
  pose proof (zlength_nonneg (items_bytes items)). match goal with |- context [zlength (fixed32s ?l)] => pose proof (zlength_nonneg (fixed32s l)) end. lia.
Qed.

Lemma block_entries_ok i w : ws !! i = Some w -> entries_ok c valid w.2.
Proof.
  intros Hw. destruct (tf_entries _ _ _ _ _ _ _ Hfile) as [Hs Hv].
  rewrite <- (take_drop_middle _ _ _ Hw), table_entries_app, table_entries_cons, !fmap_app in Hs, Hv.
  apply sorting.StronglySorted_app in Hs as (_ & _ & Hs). apply sorting.StronglySorted_app in Hs as (_ & Hs & _).
  apply Forall_app in Hv as [_ Hv]. by apply Forall_app in Hv as [Hv _].
Qed.

(** ** An open table *)
Record table_at t (idx : list entry) : Prop := {
  tt_options : table_options t = opt;
  tt_file : table_file t = f;
  tt_index : exists ix, is_block ix idx /\ new_Block ix = Ret (table_index t);
  tt_length : length idx = length ws;
  tt_index_ok : index_ok c valid same ws [] idx;
  tt_filter : match table_filter t with
    | Some (p, r) => forall i w k, ws !! i = Some w -> valid k -> exists b,
        FilterBlock_KeyMayMatch p (block_offset ws i) k r = Ret b /\ forall a, a ∈ w.2 -> same a.1 k -> b = true
    | None => True
    end;
}.

(** Cached blocks of this table are its data blocks. *)
Definition block_cached t (k : bytes) (b : Block) : Prop :=
  forall i w, ws !! i = Some w -> k = block_cache_key t (block_handle ws i w) -> new_Block w.1 = Ret b.

Definition cache_ok t cache : Prop := match cache with Some ch => cache_all (block_cached t) ch | None => True end.

(** ** Open *)
Lemma metaindex_read mi key value :
  is_block mi [(key, value)] -> bytes_ok key ->
  exists b i i', new_Block mi = Ret b /\ NewIterator b BytewiseComparator = Ret i /\ it_Seek key i = Ret i' /\
    it_Valid i' = true /\ it_key i' = Ret key /\ it_value i' = Ret value.
Proof.
  intros (items & ridx & Hly & Ei & ->) Hk.
  assert (entries_ok BytewiseComparator bytes_ok [(key, value)]) as Hes by (apply bytewise_entries_ok; [done|by repeat constructor]).
  destruct (NewIterator_layout BytewiseComparator bytes_ok items ridx Hly) as (b & i & Eb & _ & Eit & Hi); [by rewrite Ei|]. rewrite Ei in Hi.
  assert (it_at BytewiseComparator bytes_ok [(key, value)] None (inr i : EmptyIterator + BlockIter)) as Hi' by exact Hi.
  destruct (it_Seek_at _ _ _ _ _ key Hi' Hk) as (i' & p & Es & Hp & Hi2). exists b, (inr i), i'.
  assert (p = Some O) as ->.
  { eapply (seek_pos_unique BytewiseComparator bytes_ok); [exact Hp|]. exact (seek_pos_entry BytewiseComparator bytes_ok _ O (key, value) Hes eq_refl). }
  destruct (it_entry_at _ _ _ _ _ Hi2) as (e & He & Ek & Ev). injection He as <-. rewrite (it_Valid_at _ _ _ _ _ Hi2). done.
Qed.

Lemma filter_handle_ok : forall fl mi ix idx,
  (let mh := MkBlockHandle (zlength (data_bytes ws ++ filter_bytes fl)) (zlength mi) in
   let ih := MkBlockHandle (zlength (data_bytes ws ++ filter_bytes fl ++ framed mi)) (zlength ix) in
   raf_contents f = data_bytes ws ++ filter_bytes fl ++ framed mi ++ framed ix ++ footer_bytes (MkFooter mh ih) /\
   length (idx : list entry) = length ws) ->
  handle_ok (MkBlockHandle (zlength (data_bytes ws ++ filter_bytes fl)) (zlength mi)) /\
  handle_ok (MkBlockHandle (zlength (data_bytes ws ++ filter_bytes fl ++ framed mi)) (zlength ix)) /\
  (forall b, fl = Some b -> handle_ok (MkBlockHandle (zlength (data_bytes ws)) (zlength b))).
Proof.
  intros fl mi ix idx [Hf _]. pose proof (tf_size _ _ _ _ _ _ _ Hfile) as Hsz. rewrite Hf, !zlength_app, !zlength_framed, zlength_footer in Hsz.
  pose proof (zlength_nonneg (data_bytes ws)). pose proof (zlength_nonneg (filter_bytes fl)). pose proof (zlength_nonneg mi). pose proof (zlength_nonneg ix).
  rewrite !zlength_app, zlength_framed. split; [split; cbn [offset_ handle_size]; lia|]. split; [split; cbn [offset_ handle_size]; lia|].
  intros b ->. cbn [filter_bytes] in *. rewrite zlength_framed in *. pose proof (zlength_nonneg b). split; cbn [offset_ handle_size]; lia.
Qed.

Lemma ReadMeta_holds t idx footer fl mi ix :
  let mh := MkBlockHandle (zlength (data_bytes ws ++ filter_bytes fl)) (zlength mi) in
  let ih := MkBlockHandle (zlength (data_bytes ws ++ filter_bytes fl ++ framed mi)) (zlength ix) in
  raf_contents f = data_bytes ws ++ filter_bytes fl ++ framed mi ++ framed ix ++ footer_bytes (MkFooter mh ih) ->
  filter_ok valid same cost (filter_policy opt) ws fl -> is_block mi (metaindex_entries (filter_policy opt) ws fl) -> bytes_ok mi ->
  metaindex_handle_ footer = mh -> table_filter t = None -> table_at t idx ->
  exists t', ReadMeta footer t = Ret t' /\ table_at t' idx /\ cache_id t' = cache_id t.
Proof.
  intros mh ih Hf Hfl Hmi Hmiby Hmh Hnone Ht. pose proof Ht as [Ho Hfi Hix Hl Hixok _]. unfold ReadMeta. rewrite Ho, Hfi.
  destruct (filter_handle_ok fl mi ix idx) as (Hmok & _ & Hfok); [done|].
  pose proof read_framed as Hread. pose proof block_fits_at as Hfits.
  destruct (filter_policy opt) as [p|] eqn:Ep; [|by exists t]. destruct (Hpolicy p eq_refl) as [Hp Hname].
  destruct fl as [fb|]; [|done]. destruct Hfl as (fs & dn & Hfs & Efb & Hfsz & Hcov). cbn [metaindex_entries filter_bytes] in *.
  destruct (Hread (meta_options opt) mh (data_bytes ws ++ framed fb) mi (framed ix ++ footer_bytes (MkFooter mh ih))) as [b Eb]; [by rewrite Hf, <- !app_assoc|done|done|].
  rewrite Hmh, Eb, res_bind_ret. cbn [ok negb contents_data].
  assert (bytes_ok (filter_key p)) as Hkey by (apply bytes_ok_app; split; [by apply bytes_ok_forallb|done]).
  destruct (metaindex_read mi _ _ Hmi Hkey) as (mb & i & i' & -> & E1 & E2 & E3 & E4 & E5). rewrite res_bind_ret, E1, res_bind_ret, E2, res_bind_ret, E3, E4, res_bind_ret.
  rewrite slice_eq_refl, E5, res_bind_ret. unfold ReadFilter.
  specialize (Hfok fb eq_refl). rewrite <- (app_nil_r (handle_bytes _)), (BlockHandle_DecodeFrom_ok _ _ [] Hfok), res_bind_ret by constructor.
  cbn [ok negb]. rewrite Ho, Hfi. assert (bytes_ok fb) as Hfby.
  { rewrite Efb. by eapply filter_block_ok. }
  destruct (Hread (meta_options opt) (MkBlockHandle (zlength (data_bytes ws)) (zlength fb)) (data_bytes ws) fb
    (framed mi ++ framed ix ++ footer_bytes (MkFooter mh ih))) as [b2 ->]; [exact Hf|done|done|].
  rewrite res_bind_ret. cbn [ok negb contents_data].
  destruct (filter_block_read p valid same cost fs dn Hfs) as (rd & Erd & Hrd); [by rewrite <- Efb|]. rewrite Efb, Erd, res_bind_ret.
  eexists. split; [done|]. split; [|done]. split; try done. intros j w k Hw Hk. destruct (Hfits j w Hw) as (_ & Hne & _).
  destruct w.2 as [|a0 l] eqn:El; [done|]. destruct (Hcov j w a0 Hw) as (ks & Hks & _); [rewrite El; left|].
  pose proof (block_offset_nonneg ws j) as Hoff.
  destruct (Hrd _ ks (block_offset ws j) k Hks Hoff) as (m & Em & Hm); [rewrite Z2Nat.id; [done|apply Z.div_pos; lia]|done|].
  exists m. split; [exact Em|]. intros a Ha. apply Hm. rewrite <- El in Ha. destruct (Hcov j w a Hw Ha) as (ks' & Hks' & Hin). by replace ks with ks' by congruence.
Qed.

Lemma Open_holds cache : exists t idx cache', Open opt f (zlength (raf_contents f)) cache = Ret (Status_OK, Some t, cache') /\
  table_at t idx /\
  match cache with
  | Some ch => cache_id t = (cache_NewId ch).1 /\ cache' = Some (cache_NewId ch).2
  | None => cache' = None
  end.
Proof.
  destruct (tf_rest _ _ _ _ _ _ _ Hfile) as (idx & fl & mi & ix & Hf & Hfl & Hmi & Hmiby & Hix & Hixby & Hl & Hixok).
  destruct (filter_handle_ok fl mi ix idx) as (Hmok & Hiok & _); [done|]. set (mh := MkBlockHandle _ (zlength mi)) in *. set (ih := MkBlockHandle _ (zlength ix)) in *.
  set (footer := MkFooter mh ih) in *. unfold Open. pose proof (zlength_footer footer) as Hfz.
  assert (exists pre, raf_contents f = pre ++ footer_bytes footer) as [pre Epre] by (eexists; rewrite Hf, !app_assoc; reflexivity).
  assert (zlength (raf_contents f) = zlength pre + 48) as Hz by (by rewrite Epre, zlength_app, Hfz). pose proof (zlength_nonneg pre).
  change kEncodedLength with 48. rewrite (proj2 (Z.ltb_ge _ _)) by lia.
  destruct (raf_Read_ok (zlength (raf_contents f) - 48) 48 f) as [Hok Hdata]; [lia..|].
  destruct (raf_Read (zlength (raf_contents f) - 48) 48 f) as [[s data] buf]. cbn [fst snd] in *. rewrite Hok. cbn [negb].
  assert (data = footer_bytes footer) as ->.
  { rewrite Hdata, Hz, Epre. replace (zlength pre + 48 - 48) with (zlength pre) by lia. rewrite zdrop_app, <- Hfz. apply ztake_all. }
  rewrite <- (app_nil_r (footer_bytes footer)), Footer_DecodeFrom_ok, res_bind_ret by (done || constructor). cbn [ok negb index_handle_ metaindex_handle_ footer].
  destruct (read_framed (meta_options opt) ih (data_bytes ws ++ filter_bytes fl ++ framed mi) ix (footer_bytes footer)) as [b Eb]; [by rewrite Hf, <- !app_assoc|done|done|].
  rewrite Eb, res_bind_ret. cbn [ok contents_data].
  assert (entries_ok c valid idx) as Hidx.
  { eapply index_sorted; [exact Hixok|eapply List.Forall_impl; [|exact (tf_blocks _ _ _ _ _ _ _ Hfile)]; by intros w (_ & Hne & _)|]. by destruct (tf_entries _ _ _ _ _ _ _ Hfile). }
  destruct (open_block ix idx Hix Hidx) as (ib & i & Eib & _ & _). rewrite Eib, res_bind_ret.
  set (r := match cache with Some _ => _ | None => _ end).
  assert (exists id cache', r = (id, cache') /\ match cache with Some ch => id = (cache_NewId ch).1 /\ cache' = Some (cache_NewId ch).2 | None => cache' = None end) as (id & cache' & -> & Hid).
  { unfold r. destruct cache as [ch|]; [|by eexists _, _]. destruct (cache_NewId ch) as [id c2] eqn:E. by eexists _, _. }
  set (t0 := MkTable opt f id None mh ib). assert (table_at t0 idx) as Ht0 by (split; try done; by exists ix).
  destruct (ReadMeta_holds t0 idx footer fl mi ix Hf Hfl Hmi Hmiby eq_refl eq_refl Ht0) as (t & -> & Ht & Hcid). rewrite res_bind_ret.
  exists t, idx, cache'. split; [done|]. split; [done|]. destruct cache as [ch|]; [|done]. by rewrite Hcid.
Qed.

(** ** Data blocks *)
Lemma DecodeFrom_handle h : handle_ok h -> BlockHandle_DecodeFrom new_BlockHandle (handle_bytes h) = Ret (Status_OK, h, []).
Proof. intros Hh. rewrite <- (app_nil_r (handle_bytes h)). apply BlockHandle_DecodeFrom_ok; [done|constructor]. Qed.

Lemma handle_bytes_inj i j w w' : ws !! i = Some w -> ws !! j = Some w' ->
  handle_bytes (block_handle ws i w) = handle_bytes (block_handle ws j w') -> i = j.
Proof.
  intros Hw Hw' E. destruct (read_data i w (MkReadOptions false true) Hw) as [[Hi _] _]. destruct (read_data j w' (MkReadOptions false true) Hw') as [[Hj _] _].
  pose proof (DecodeFrom_handle _ Hi) as D. rewrite E, (DecodeFrom_handle _ Hj) in D. injection D as Ho _. symmetry. by apply (block_offset_inj ws j i w' w).
Qed.

Lemma read_data_block_holds t idx ro i w cache : table_at t idx -> cache_ok t cache -> ws !! i = Some w ->
  exists b cache', read_data_block ro (block_handle ws i w) t cache = Ret (Status_OK, Some b, cache') /\ cache_ok t cache' /\ new_Block w.1 = Ret b.
Proof.
  intros Ht Hc Hw. destruct (read_data i w ro Hw) as [[[Hoff _] Hsz] [cb Eread]]. rewrite <- (tt_file _ _ Ht) in Eread.
  destruct (block_fits_at i w Hw) as (Hblk & _). destruct (open_block w.1 w.2 Hblk (block_entries_ok i w Hw)) as (b & _ & Eb & Esz & Hpos & _).
  unfold read_data_block. destruct cache as [ch|]; cbn [cache_ok] in Hc.
  2: { rewrite Eread, res_bind_ret. cbn [ok contents_data]. rewrite Eb, res_bind_ret. by exists b, None. }
  assert (bytes_ok (block_cache_key t (block_handle ws i w))) as Hkey by (apply bytes_ok_app; split; apply le_bytes_ok).
  destruct (cache_Lookup_ok (block_cached t) _ ch Hkey Hc) as ([b'|] & ch' & -> & Hc' & Hget); rewrite res_bind_ret.
  - exists b', (Some ch'). split; [done|]. split; [done|]. by apply (Hget b' eq_refl i w).
  - rewrite Eread, res_bind_ret. cbn [ok contents_data cachable]. rewrite Eb, res_bind_ret.
    assert (exists c2, (if cb && fill_cache ro then cache_Insert (block_cache_key t (block_handle ws i w)) b (size_ b) ch' else Ret ch') = Ret c2 /\ cache_all (block_cached t) c2) as (c2 & -> & Hc2).
    { destruct (cb && fill_cache ro); [|by exists ch']. apply cache_Insert_ok; [done|lia|done|]. intros j w' Hw' Ek.
      unfold block_cache_key in Ek. destruct (read_data j w' ro Hw') as [[[Hoff' _] _] _].
      apply fixed64_app_inj in Ek as [_ Ek]; [|lia..]. assert (i = j) as -> by (by apply (block_offset_inj ws i j w w')). congruence. }
    rewrite res_bind_ret. by exists b, (Some c2).
Qed.

Lemma BlockReader_holds t idx ro i w cache : table_at t idx -> cache_ok t cache -> ws !! i = Some w ->
  exists j cache', BlockReader t ro (handle_bytes (block_handle ws i w)) cache = Ret (j, cache') /\ cache_ok t cache' /\ it_at c valid w.2 None j.
Proof.
  intros Ht Hc Hw. destruct (read_data i w ro Hw) as [[Hh _] _]. unfold BlockReader. rewrite (DecodeFrom_handle _ Hh), res_bind_ret. cbn [ok].
  destruct (read_data_block_holds t idx ro i w cache Ht Hc Hw) as (b & cache' & -> & Hc' & Eb). change (ok Status_OK) with true. cbn match. rewrite res_bind_ret.
  destruct (block_fits_at i w Hw) as (Hblk & _). destruct (open_block w.1 w.2 Hblk (block_entries_ok i w Hw)) as (b' & it & Eb' & _ & _ & Eit & Hit).
  rewrite Eb in Eb'. injection Eb' as <-. rewrite (tt_options _ _ Ht), Eit, res_bind_ret. by exists (inr it), cache'.
Qed.

(** ** The index *)
Lemma index_entries_ok idx : index_ok c valid same ws [] idx -> entries_ok c valid idx.
Proof.
  intros Hix. eapply index_sorted; [exact Hix|eapply List.Forall_impl; [|exact (tf_blocks _ _ _ _ _ _ _ Hfile)]; by intros w (_ & Hne & _)|].
  by destruct (tf_entries _ _ _ _ _ _ _ Hfile).
Qed.

Definition block_map (idx : list entry) : gmap bytes (list entry) := list_to_map (zip idx.*2 ws.*2).
Definition block_of (idx : list entry) (v : bytes) : list entry := default [] (block_map idx !! v).

Section index.
Variable idx : list entry.
Hypotheses (Hl : length idx = length ws) (Hix : index_ok c valid same ws [] idx).

Lemma index_handles : NoDup idx.*2.
Proof.
  apply NoDup_alt. intros i j v Hi Hj. apply list_lookup_fmap_Some in Hi as (e & -> & He). apply list_lookup_fmap_Some in Hj as (e' & Ev & He').
  destruct (index_ok_lookup c valid same ws [] idx i e Hix He) as (w & Hw & Hie). destruct (index_ok_lookup c valid same ws [] idx j e' Hix He') as (w' & Hw' & Hie').
  rewrite (ix_handle _ _ _ _ _ _ _ _ Hie), (ix_handle _ _ _ _ _ _ _ _ Hie') in Ev. by apply (handle_bytes_inj i j w w').
Qed.

Lemma block_of_at i e w : idx !! i = Some e -> ws !! i = Some w -> block_of idx e.2 = w.2.
Proof.
  intros He Hw. unfold block_of, block_map. rewrite (elem_of_list_to_map_1 _ e.2 w.2); [done| |].
  - rewrite fst_zip; [apply index_handles|]. rewrite !length_fmap. lia.
  - apply (list_elem_of_lookup_2 _ i). apply lookup_zip_Some. by rewrite !list_lookup_fmap, He, Hw.
Qed.

Lemma blocks_table : blocks idx (block_of idx) = ws.*2.
Proof.
  apply list_eq_same_length with (n := length ws); [by rewrite length_fmap|unfold blocks; by rewrite length_fmap|].
  intros i x y Hi Hx Hy. unfold blocks in Hx. apply list_lookup_fmap_Some in Hx as (e & -> & He). apply list_lookup_fmap_Some in Hy as (w & -> & Hw).
  by apply block_of_at with i.
Qed.

Lemma index_separates i e : idx !! i = Some e ->
  Forall (fun a => ~ lt e.1 a.1) (block_of idx e.2) /\
  forall k e', (i < k)%nat -> idx !! k = Some e' -> Forall (fun a => lt e.1 a.1) (block_of idx e'.2).
Proof.
  intros He. destruct (index_ok_lookup c valid same ws [] idx i e Hix He) as (w & Hw & [_ _ Ha Hb _ _]). split; [by rewrite (block_of_at i e w)|].
  intros k e' Hk He'. destruct (index_ok_lookup c valid same ws [] idx k e' Hix He') as (w' & Hw' & _). rewrite (block_of_at k e' w') by done.
  apply Forall_lookup. intros m a Hm. eapply (Forall_elem (fun a => lt e.1 a.1)); [exact Hb|]. rewrite app_nil_r.
  apply (elem_of_table _ (k - S i) w'); [rewrite lookup_drop; by replace (S i + (k - S i))%nat with k by lia|].
  by apply list_elem_of_lookup_2 with m.
Qed.

Lemma table_blocks : concat (blocks idx (block_of idx)) = es.
Proof. by rewrite blocks_table. Qed.

Lemma table_blocks_ok : entries_ok c valid (concat (blocks idx (block_of idx))).
Proof. rewrite table_blocks. apply (tf_entries _ _ _ _ _ _ _ Hfile). Qed.

Lemma index_short : zlength idx < 2 ^ 63.
Proof.
  destruct (tf_rest _ _ _ _ _ _ _ Hfile) as (ix & fl & mi & xx & Hf & _). pose proof (tf_size _ _ _ _ _ _ _ Hfile) as Hsz.
  rewrite Hf, zlength_app in Hsz. match type of Hsz with _ + zlength ?r < _ => pose proof (zlength_nonneg r) end.
  assert (5 * zlength ws <= zlength (data_bytes ws)).
  { clear. induction ws as [|w l IH]; [done|]. rewrite data_bytes_cons, zlength_cons, zlength_app, zlength_framed. pose proof (zlength_nonneg w.1). lia. }
  assert (zlength idx = zlength ws) by (unfold zlength; lia). lia.
Qed.

(** ** Iterating *)
Section iterate.
Variables (t : Table F) (ro : ReadOptions).
Hypothesis Ht : table_at t idx.

Abbreviation TableIterator := (TwoLevelIterator (EmptyIterator + BlockIter) (EmptyIterator + BlockIter) (option C)).

Lemma table_block_reader i e cache : idx !! i = Some e -> cache_ok t cache ->
  exists j cache' p, BlockReader t ro e.2 cache = Ret (j, cache') /\ cache_ok t cache' /\ it_at c valid (block_of idx e.2) p j.
Proof.
  intros He Hc. destruct (index_ok_lookup c valid same ws [] idx i e Hix He) as (w & Hw & Hie).
  destruct (BlockReader_holds t idx ro i w cache Ht Hc Hw) as (j & cache' & E & Hc' & Hj). exists j, cache', None.
  by rewrite (block_of_at i e w), (ix_handle _ _ _ _ _ _ _ _ Hie).
Qed.

Definition TableIterator_ok : @IteratorOk c valid _ TableIterator (TwoLevelIterator_Iterator (BlockReader t ro)) :=
  TwoLevelIterator_ok c valid (I := EmptyIterator + BlockIter) (BlockReader t ro) idx (block_of idx) (cache_ok t)
    table_block_reader index_short table_blocks_ok (index_separates).

Lemma index_iterator_at : exists i, index_iterator t = Ret i /\ it_at c valid idx None i.
Proof.
  destruct (tt_index _ _ Ht) as (ix & Hblk & Eix). unfold index_iterator. rewrite (tt_options _ _ Ht).
  destruct (open_block ix idx Hblk (index_entries_ok idx Hix)) as (b & i & Eb & _ & _ & Ei & Hi). rewrite Eix in Eb. injection Eb as <-. by exists (inr i).
Qed.

Lemma table_NewIterator_at cache : cache_ok t cache ->
  exists it, table_NewIterator t cache = Ret it /\ @it_at _ _ _ _ _ TableIterator_ok es None it.
Proof.
  intros Hc. unfold table_NewIterator. destruct index_iterator_at as (i & -> & Hi). rewrite res_bind_ret.
  destruct (new_TwoLevelIterator_at c valid (J := EmptyIterator + BlockIter) idx (block_of idx) (cache_ok t) None i cache Hi Hc) as (it & E & Hit).
  exists it. split; [exact E|]. split; [by rewrite table_blocks|done].
Qed.
End iterate.

(** ** Lookups *)
Lemma filtered_out_holds t i e w k : table_at t idx -> idx !! i = Some e -> ws !! i = Some w -> valid k ->
  exists b, filtered_out t e.2 k = Ret b /\ (b = true -> forall a, a ∈ w.2 -> ~ same a.1 k).
Proof.
  intros Ht He Hw Hk. destruct (index_ok_lookup c valid same ws [] idx i e Hix He) as (w' & Hw' & Hie).
  assert (w' = w) as -> by congruence. unfold filtered_out. pose proof (tt_filter _ _ Ht) as Hfl. destruct (table_filter t) as [[p r]|]; [|by exists false].
  destruct (read_data i w (MkReadOptions false true) Hw) as [[Hh _] _]. rewrite (ix_handle _ _ _ _ _ _ _ _ Hie), (DecodeFrom_handle _ Hh), res_bind_ret.
  change (ok Status_OK) with true. cbn match. cbn [offset_ block_handle].
  destruct (Hfl i w k Hw Hk) as (b & -> & Hb). rewrite res_bind_ret. exists (negb b). split; [done|].
  intros Hn a Ha Hs. rewrite (Hb a Ha Hs) in Hn. done.
Qed.

(** Which entry a lookup finds, or must not find. *)
Lemma split_position i e w k : idx !! i = Some e -> ws !! i = Some w -> valid k -> ~ lt e.1 k ->
  Forall (fun a => lt a.1 k) w.2 -> forall a, es !! (start_of ws.*2 (S i)) = Some a -> ~ same a.1 k.
Proof.
  intros He Hw Hk Hge Hall a Ha Hs. destruct (index_ok_lookup c valid same ws [] idx i e Hix He) as (w' & Hw' & [_ _ _ _ Hsplit _]).
  assert (w' = w) as -> by congruence. apply Hge. destruct Hsplit as [(b & Hb & ->)|Hsplit]; [exact (Forall_elem _ _ _ Hall Hb)|].
  apply (Hsplit a); [|done..]. rewrite app_nil_r. unfold table_entries in *. rewrite (start_of_split ws.*2 (S i)) in Ha.
  rewrite lookup_app_r in Ha by done. unfold start_of in Ha. rewrite Nat.sub_diag in Ha. by rewrite fmap_drop.
Qed.

Lemma block_entry_at i w m a : ws !! i = Some w -> w.2 !! m = Some a -> es !! (start_of (blocks idx (block_of idx)) i + m)%nat = Some a.
Proof.
  intros Hw Ha. rewrite blocks_table. rewrite <- Ha. apply concat_lookup; [by rewrite list_lookup_fmap, Hw|by apply lookup_lt_Some in Ha].
Qed.

Lemma not_same_after i e w k r : idx !! i = Some e -> ws !! i = Some w -> valid k -> ~ lt e.1 k -> seek_pos c valid w.2 k r ->
  (r = None \/ forall a, a ∈ w.2 -> ~ same a.1 k) ->
  forall n a, fwd idx (block_of idx) (Some i) r = Some n -> es !! n = Some a -> ~ same a.1 k.
Proof.
  intros He Hw Hk Hge Hr Hnot n a Hn Ha. destruct r as [m|].
  - destruct Hnot as [|Hnot]; [done|]. destruct Hr as [_ (a' & Ha' & _)]. injection Hn as <-.
    rewrite (block_entry_at i w m a' Hw Ha') in Ha. injection Ha as <-. apply Hnot. by apply list_elem_of_lookup_2 with m.
  - cbn [fwd] in Hn. rewrite blocks_table in Hn. unfold pos_from in Hn. destruct (decide _) as [_|]; [|done]. injection Hn as <-.
    by apply (split_position i e w k).
Qed.

Lemma InternalGet_holds {A} t ro k (arg : A) handle_result cache : table_at t idx -> cache_ok t cache -> valid k ->
  exists p cache', seek_pos c valid es k p /\ cache_ok t cache' /\
   ((exists n e, p = Some n /\ es !! n = Some e /\
       InternalGet t ro k arg handle_result cache = let! arg := handle_result arg e.1 e.2 in Ret (Status_OK, arg, cache')) \/
    (InternalGet t ro k arg handle_result cache = Ret (Status_OK, arg, cache') /\
     forall n e, p = Some n -> es !! n = Some e -> ~ same e.1 k)).
Proof.
  intros Ht Hc Hk. unfold InternalGet. destruct (index_iterator_at t Ht) as (i0 & -> & Hi0). rewrite res_bind_ret.
  destruct (it_Seek_at c valid _ _ _ _ Hi0 Hk) as (ii & q & -> & Hq & Hii). rewrite res_bind_ret, (it_Valid_at c valid _ _ _ Hii).
  pose proof (fun r => seek_pos_blocks c valid idx (block_of idx) table_blocks_ok index_separates q r k Hk (index_entries_ok idx Hix) Hq) as Hpos.
  rewrite table_blocks in Hpos. destruct q as [i|].
  2: { exists None, cache. split; [by apply (Hpos None)|]. split; [done|]. right. change (bool_decide (is_Some (@None nat))) with false. cbn match.
    rewrite res_bind_ret. change (ok Status_OK) with true. cbn match. by rewrite (it_status_at c valid _ _ _ Hii), res_bind_ret. }
  destruct (it_entry_at c valid _ _ _ Hii) as (e & He & _ & Ev). destruct Hq as [_ (e' & He' & Hge)]. rewrite He in He'. injection He' as <-.
  destruct (index_ok_lookup c valid same ws [] idx i e Hix He) as (w & Hw & Hie).
  destruct (filtered_out_holds t i e w k Ht He Hw Hk) as (b & Ef & Hfo). change (bool_decide (is_Some (Some i))) with true. cbn match.
  rewrite Ev, res_bind_ret, Ef, res_bind_ret.
  assert (forall r, seek_pos c valid w.2 k r -> seek_pos c valid es k (fwd idx (block_of idx) (Some i) r)) as Hpos'.
  { intros r Hr. apply Hpos. intros i' e' [= <-] He'. rewrite He in He'. injection He' as <-. by rewrite (block_of_at i e w). }
  destruct b.
  - destruct (seek_pos_total c valid w.2 k) as [r Hr]; [apply (block_entries_ok i w Hw)|done|]. eexists _, cache. split; [by apply Hpos'|]. split; [done|]. right.
    split; [|apply (not_same_after i e w k r); auto]. rewrite res_bind_ret. change (ok Status_OK) with true. cbn match. by rewrite (it_status_at c valid _ _ _ Hii), res_bind_ret.
  - destruct (BlockReader_holds t idx ro i w cache Ht Hc Hw) as (j & cache' & Ej & Hc' & Hj). rewrite (ix_handle _ _ _ _ _ _ _ _ Hie), Ej, res_bind_ret.
    destruct (it_Seek_at c valid _ _ _ _ Hj Hk) as (j' & r & -> & Hr & Hj'). rewrite res_bind_ret, (it_Valid_at c valid _ _ _ Hj').
    exists (fwd idx (block_of idx) (Some i) r), cache'. split; [by apply Hpos'|]. split; [done|]. destruct r as [m|].
    + left. destruct (it_entry_at c valid _ _ _ Hj') as (a & Ha & Ek & Eval). eexists _, a. split; [done|].
      split; [by apply (block_entry_at i w m a)|]. change (bool_decide (is_Some (Some m))) with true. cbn match.
      rewrite Ek, res_bind_ret, Eval, res_bind_ret. destruct (handle_result arg a.1 a.2); [rewrite !res_bind_ret|done..].
      rewrite (it_status_at c valid _ _ _ Hj'), !res_bind_ret. change (ok Status_OK) with true. cbn match. by rewrite (it_status_at c valid _ _ _ Hii), res_bind_ret.
    + right. split; [|apply (not_same_after i e w k None); auto]. change (bool_decide (is_Some (@None nat))) with false. cbn match.
      rewrite res_bind_ret, (it_status_at c valid _ _ _ Hj'), !res_bind_ret. change (ok Status_OK) with true. cbn match. by rewrite (it_status_at c valid _ _ _ Hii), res_bind_ret.
Qed.
End index.
End table.
