(* ===== verification/Cache.v ===== *)
(** * LevelDB: the LRU cache (cache.h, cache.cc)

    The entries that [malloc] returns are a map from addresses, [free] removes
    them, and addresses are not used again; [None] is the null pointer.  The
    pair of links of a list head is part of the cache.  The calls of the
    deleters are recorded, in their order.  The mutexes are not modelled: the
    operations run one after the other. *)
From S2P Require Import Prelude LdbBase Filter.

(** What an [LRUHandle] pointer in a list can be. *)
Inductive addr : Type := LruHead | InUseHead | Entry (e : nat).

#[export] Instance addr_eq_dec : EqDecision addr.
Proof. solve_decision. Defined.

Record Links : Type := MkLinks {
  next : option addr;
  prev : option addr;
}.

Record LRUHandle (V : Type) : Type := MkLRUHandle {
  handle_value : V;
  next_hash : option nat;
  links : Links;
  charge : Z;
  key_data : bytes;
  in_cache : bool;
  refs : Z;
  handle_hash : Z;
}.
Arguments MkLRUHandle {V}. Arguments handle_value {V}. Arguments next_hash {V}. Arguments links {V}. Arguments charge {V}.
Arguments key_data {V}. Arguments in_cache {V}. Arguments refs {V}. Arguments handle_hash {V}.

(** [length_], [elems_] and [list_] are those of the [HandleTable]. *)
Record LRUCache (V : Type) : Type := MkLRUCache {
  capacity_ : Z;
  usage_ : Z;
  lru_ : Links;
  in_use_ : Links;
  length_ : Z;
  elems_ : Z;
  list_ : list (option nat);
  handles : gmap nat (LRUHandle V);
  allocated : nat;
  deleted : list (bytes * V);
}.
Arguments MkLRUCache {V}. Arguments capacity_ {V}. Arguments usage_ {V}. Arguments lru_ {V}. Arguments in_use_ {V}. Arguments length_ {V}.
Arguments elems_ {V}. Arguments list_ {V}. Arguments handles {V}. Arguments allocated {V}. Arguments deleted {V}.

Section cache.
Context {V : Type}.
Implicit Types (c : LRUCache V) (h : LRUHandle V) (e : nat).

(** ** Fields *)
Definition set_usage (n : Z) c : LRUCache V :=
  MkLRUCache (capacity_ c) n (lru_ c) (in_use_ c) (length_ c) (elems_ c) (list_ c) (handles c) (allocated c) (deleted c).
Definition set_table (len elems : Z) (l : list (option nat)) c : LRUCache V :=
  MkLRUCache (capacity_ c) (usage_ c) (lru_ c) (in_use_ c) len elems l (handles c) (allocated c) (deleted c).
Definition set_handles (m : gmap nat (LRUHandle V)) c : LRUCache V :=
  MkLRUCache (capacity_ c) (usage_ c) (lru_ c) (in_use_ c) (length_ c) (elems_ c) (list_ c) m (allocated c) (deleted c).

Definition set_links (l : Links) h : LRUHandle V :=
  MkLRUHandle (handle_value h) (next_hash h) l (charge h) (key_data h) (in_cache h) (refs h) (handle_hash h).
Definition set_refs (n : Z) h : LRUHandle V :=
  MkLRUHandle (handle_value h) (next_hash h) (links h) (charge h) (key_data h) (in_cache h) n (handle_hash h).
Definition set_in_cache (b : bool) h : LRUHandle V :=
  MkLRUHandle (handle_value h) (next_hash h) (links h) (charge h) (key_data h) b (refs h) (handle_hash h).
Definition set_next_hash (p : option nat) h : LRUHandle V :=
  MkLRUHandle (handle_value h) p (links h) (charge h) (key_data h) (in_cache h) (refs h) (handle_hash h).

(** Access through a pointer. *)
Definition handle_at c e : res (LRUHandle V) := of_option (handles c !! e).
Definition update (f : LRUHandle V -> LRUHandle V) e c : res (LRUCache V) :=
  let! h := handle_at c e in Ret (set_handles (<[e := f h]> (handles c)) c).

Definition links_at c (a : addr) : res Links :=
  match a with
  | LruHead => Ret (lru_ c)
  | InUseHead => Ret (in_use_ c)
  | Entry e => let! h := handle_at c e in Ret (links h)
  end.

Definition update_links (f : Links -> Links) (a : addr) c : res (LRUCache V) :=
  match a with
  | LruHead =>
      Ret (MkLRUCache (capacity_ c) (usage_ c) (f (lru_ c)) (in_use_ c) (length_ c) (elems_ c) (list_ c) (handles c) (allocated c) (deleted c))
  | InUseHead =>
      Ret (MkLRUCache (capacity_ c) (usage_ c) (lru_ c) (f (in_use_ c)) (length_ c) (elems_ c) (list_ c) (handles c) (allocated c) (deleted c))
  | Entry e => update (fun h => set_links (f (links h)) h) e c
  end.
Definition set_next (a : addr) (p : option addr) : LRUCache V -> res (LRUCache V) := update_links (fun l => MkLinks p (prev l)) a.
Definition set_prev (a : addr) (p : option addr) : LRUCache V -> res (LRUCache V) := update_links (fun l => MkLinks (next l) p) a.

(** [key()]. *)
Definition handle_key c e : res bytes :=
  let! h := handle_at c e in
  let! _ := assert_ (negb (bool_decide (next (links h) = Some (Entry e)))) in
  Ret (key_data h).

(** ** HandleTable *)

(** An [LRUHandle**]: an element of [list_], or a [next_hash]. *)
Inductive slot : Type := Bucket (i : Z) | NextHash (e : nat).

Definition read_slot (s : slot) c : res (option nat) :=
  match s with
  | Bucket i => if 0 <=? i then of_option (list_ c !! Z.to_nat i) else UB
  | NextHash e => let! h := handle_at c e in Ret (next_hash h)
  end.

Definition write_slot (s : slot) (p : option nat) c : res (LRUCache V) :=
  match s with
  | Bucket i =>
      if (0 <=? i) && (i <? zlength (list_ c)) then Ret (set_table (length_ c) (elems_ c) (<[Z.to_nat i := p]> (list_ c)) c) else UB
  | NextHash e => update (set_next_hash p) e c
  end.

Definition find_pointer_body (key : bytes) (hash : Z) c (ptr : slot) : res (slot + slot) :=
  let! p := read_slot ptr c in
  match p with
  | None => Ret (inr ptr)
  | Some e =>
      let! h := handle_at c e in
      let! differs := (if negb (handle_hash h =? hash) then Ret true
                       else let! k := handle_key c e in Ret (negb (slice_eq key k))) in
      Ret (if differs : bool then inl (NextHash e) else inr ptr)
  end.

Definition FindPointer (key : bytes) (hash : Z) c : res slot :=
  while (find_pointer_body key hash c) (Bucket (hash .& u32 (length_ c - 1))).

Definition table_Lookup (key : bytes) (hash : Z) c : res (option nat) :=
  let! ptr := FindPointer key hash c in
  read_slot ptr c.

Definition new_length_body (elems n : Z) : res (Z + Z) := Ret (if n <? elems then inl (u32 (n * 2)) else inr n).

(** The inner loop of [Resize]: the entry, the new list, the count and the
    cache. *)
Definition rehash_body (new_length : Z) (st : option nat * list (option nat) * Z * LRUCache V)
  : res ((option nat * list (option nat) * Z * LRUCache V) + (list (option nat) * Z * LRUCache V)) :=
  let '(p, new_list, count, c) := st in
  match p with
  | None => Ret (inr (new_list, count, c))
  | Some e =>
      let! h := handle_at c e in
      let i := handle_hash h .& u32 (new_length - 1) in
      let! old := (if 0 <=? i then of_option (new_list !! Z.to_nat i) else UB) in
      let! c := update (set_next_hash old) e c in
      Ret (inl (next_hash h, <[Z.to_nat i := Some e]> new_list, u32 (count + 1), c))
  end.

(** The outer loop, [n] buckets from [i]. *)
Fixpoint rehash (n : nat) (i : Z) (new_length : Z) (new_list : list (option nat)) (count : Z) c : res (list (option nat) * Z * LRUCache V) :=
  match n with
  | O => Ret (new_list, count, c)
  | S n' =>
      let! p := read_slot (Bucket i) c in
      let! '(new_list, count, c) := while (rehash_body new_length) (p, new_list, count, c) in
      rehash n' (i + 1) new_length new_list count c
  end.

Definition Resize c : res (LRUCache V) :=
  let! new_length := while (new_length_body (elems_ c)) 4 in
  let new_list := replicate (Z.to_nat new_length) None in
  let! '(new_list, count, c) := rehash (Z.to_nat (length_ c)) 0 new_length new_list 0 c in
  let! _ := assert_ (elems_ c =? count) in
  Ret (set_table new_length (elems_ c) new_list c).

(** The entry that was replaced. *)
Definition table_Insert e c : res (option nat * LRUCache V) :=
  let! key := handle_key c e in
  let! h := handle_at c e in
  let! ptr := FindPointer key (handle_hash h) c in
  let! old := read_slot ptr c in
  let! rest := match old with Some o => let! ho := handle_at c o in Ret (next_hash ho) | None => Ret None end in
  let! c := update (set_next_hash rest) e c in
  let! c := write_slot ptr (Some e) c in
  match old with
  | Some _ => Ret (old, c)
  | None =>
      let c := set_table (length_ c) (u32 (elems_ c + 1)) (list_ c) c in
      let! c := (if length_ c <? elems_ c then Resize c else Ret c) in
      Ret (old, c)
  end.

Definition table_Remove (key : bytes) (hash : Z) c : res (option nat * LRUCache V) :=
  let! ptr := FindPointer key hash c in
  let! result := read_slot ptr c in
  match result with
  | Some e =>
      let! h := handle_at c e in
      let! c := write_slot ptr (next_hash h) c in
      Ret (result, set_table (length_ c) (u32 (elems_ c - 1)) (list_ c) c)
  | None => Ret (None, c)
  end.

(** ** LRUCache *)
Definition new_LRUCache : res (LRUCache V) :=
  Resize (MkLRUCache 0 0 (MkLinks (Some LruHead) (Some LruHead)) (MkLinks (Some InUseHead) (Some InUseHead)) 0 0 [] ∅ 0 []).

Definition SetCapacity (n : Z) c : LRUCache V :=
  MkLRUCache n (usage_ c) (lru_ c) (in_use_ c) (length_ c) (elems_ c) (list_ c) (handles c) (allocated c) (deleted c).

Definition TotalCharge c : Z := usage_ c.

Definition LRU_Remove e c : res (LRUCache V) :=
  let! l := links_at c (Entry e) in
  let! n := of_option (next l) in
  let! c := set_prev n (prev l) c in
  let! l := links_at c (Entry e) in
  let! p := of_option (prev l) in
  set_next p (next l) c.

Definition LRU_Append (list : addr) e c : res (LRUCache V) :=
  let! c := set_next (Entry e) (Some list) c in
  let! l := links_at c list in
  let! c := set_prev (Entry e) (prev l) c in
  let! l := links_at c (Entry e) in
  let! p := of_option (prev l) in
  let! c := set_next p (Some (Entry e)) c in
  let! l := links_at c (Entry e) in
  let! n := of_option (next l) in
  set_prev n (Some (Entry e)) c.

Definition Ref e c : res (LRUCache V) :=
  let! h := handle_at c e in
  let! c := (if (refs h =? 1) && in_cache h then let! c := LRU_Remove e c in LRU_Append InUseHead e c else Ret c) in
  update (fun h => set_refs (u32 (refs h + 1)) h) e c.

(** [( *e->deleter)(e->key(), e->value); free(e);] *)
Definition deallocate e c : res (LRUCache V) :=
  let! h := handle_at c e in
  let! key := handle_key c e in
  Ret (MkLRUCache (capacity_ c) (usage_ c) (lru_ c) (in_use_ c) (length_ c) (elems_ c) (list_ c) (delete e (handles c)) (allocated c)
         (deleted c ++ [(key, handle_value h)])).

Definition Unref e c : res (LRUCache V) :=
  let! h := handle_at c e in
  let! _ := assert_ (0 <? refs h) in
  let! c := update (fun h => set_refs (u32 (refs h - 1)) h) e c in
  let! h := handle_at c e in
  if refs h =? 0 then
    let! _ := assert_ (negb (in_cache h)) in
    deallocate e c
  else if in_cache h && (refs h =? 1) then let! c := LRU_Remove e c in LRU_Append LruHead e c
  else Ret c.

Definition FinishErase (p : option nat) c : res (bool * LRUCache V) :=
  match p with
  | None => Ret (false, c)
  | Some e =>
      let! h := handle_at c e in
      let! _ := assert_ (in_cache h) in
      let! c := LRU_Remove e c in
      let! c := update (set_in_cache false) e c in
      let! h := handle_at c e in
      let! c := Unref e (set_usage (u64 (usage_ c - charge h)) c) in
      Ret (true, c)
  end.

Definition lru_Lookup (key : bytes) (hash : Z) c : res (option nat * LRUCache V) :=
  let! p := table_Lookup key hash c in
  match p with
  | Some e => let! c := Ref e c in Ret (p, c)
  | None => Ret (p, c)
  end.

Definition lru_Release (handle : nat) c : res (LRUCache V) := Unref handle c.

(** The oldest entry, and its removal: the body of the loops of [Insert] and
    [Prune]. *)
Definition evict_oldest c : res (LRUCache V) :=
  match next (lru_ c) with
  | Some (Entry old) =>
      let! h := handle_at c old in
      let! _ := assert_ (refs h =? 1) in
      let! key := handle_key c old in
      let! '(p, c) := table_Remove key (handle_hash h) c in
      let! '(erased, c) := FinishErase p c in
      let! _ := assert_ erased in
      Ret c
  | _ => UB
  end.

Definition lru_empty c : bool := bool_decide (next (lru_ c) = Some LruHead).

Definition evict_body c : res (LRUCache V + LRUCache V) :=
  if (capacity_ c <? usage_ c) && negb (lru_empty c) then let! c := evict_oldest c in Ret (inl c) else Ret (inr c).

Definition prune_body c : res (LRUCache V + LRUCache V) :=
  if negb (lru_empty c) then let! c := evict_oldest c in Ret (inl c) else Ret (inr c).

(** [malloc], and the fields that are set for every entry. *)
Definition new_handle (key : bytes) (hash : Z) (value : V) (charge : Z) c : nat * LRUCache V :=
  let h := MkLRUHandle value None (MkLinks None None) charge key false 1 hash in
  (allocated c, MkLRUCache (capacity_ c) (usage_ c) (lru_ c) (in_use_ c) (length_ c) (elems_ c) (list_ c)
                  (<[allocated c := h]> (handles c)) (S (allocated c)) (deleted c)).

Definition lru_Insert (key : bytes) (hash : Z) (value : V) (charge : Z) c : res (nat * LRUCache V) :=
  let '(e, c) := new_handle key hash value charge c in
  let! c := (if 0 <? capacity_ c then
               let! c := update (fun h => set_in_cache true (set_refs (u32 (refs h + 1)) h)) e c in
               let! c := LRU_Append InUseHead e c in
               let c := set_usage (u64 (usage_ c + charge)) c in
               let! '(old, c) := table_Insert e c in
               let! '(_, c) := FinishErase old c in
               Ret c
             else set_next (Entry e) None c) in
  let! c := while evict_body c in
  Ret (e, c).

Definition lru_Erase (key : bytes) (hash : Z) c : res (LRUCache V) :=
  let! '(p, c) := table_Remove key hash c in
  let! '(_, c) := FinishErase p c in
  Ret c.

Definition lru_Prune c : res (LRUCache V) := while prune_body c.

(** The destructor: [e], and the cache. *)
Definition destroy_body (st : option addr * LRUCache V) : res ((option addr * LRUCache V) + LRUCache V) :=
  let '(p, c) := st in
  match p with
  | Some LruHead => Ret (inr c)
  | Some (Entry e) =>
      let! h := handle_at c e in
      let! _ := assert_ (in_cache h) in
      let! c := update (set_in_cache false) e c in
      let! _ := assert_ (refs h =? 1) in
      let! c := Unref e c in
      Ret (inl (next (links h), c))
  | _ => UB
  end.

Definition lru_destroy c : res (LRUCache V) :=
  let! _ := assert_ (bool_decide (next (in_use_ c) = Some InUseHead)) in
  while destroy_body (next (lru_ c), c).
End cache.

(** ** ShardedLRUCache *)
Definition kNumShardBits : Z := 4.
Definition kNumShards : Z := Z.shiftl 1 kNumShardBits.

Record ShardedLRUCache (V : Type) : Type := MkShardedLRUCache {
  shard_ : list (LRUCache V);
  last_id_ : Z;
}.
Arguments MkShardedLRUCache {V}. Arguments shard_ {V}. Arguments last_id_ {V}.

Section sharded.
Context {V : Type}.
Implicit Types (s : ShardedLRUCache V).

(** A [Cache::Handle*]: the entries of every shard have addresses of their own. *)
Record Handle : Type := MkHandle { handle_shard : nat; handle_entry : nat }.

Definition HashSlice (k : bytes) : res Z := Hash k 0.
Definition Shard (hash : Z) : nat := Z.to_nat (Z.shiftr hash (32 - kNumShardBits)).

Definition shard_at s (i : nat) : res (LRUCache V) := of_option (shard_ s !! i).
Definition set_shard (i : nat) (c : LRUCache V) s : ShardedLRUCache V := MkShardedLRUCache (<[i := c]> (shard_ s)) (last_id_ s).

Fixpoint new_shards (n : nat) (per_shard : Z) : res (list (LRUCache V)) :=
  match n with
  | O => Ret []
  | S n' => let! c := new_LRUCache in let! cs := new_shards n' per_shard in Ret (SetCapacity per_shard c :: cs)
  end.

Definition new_ShardedLRUCache (capacity : Z) : res (ShardedLRUCache V) :=
  let per_shard := u64 (capacity + (kNumShards - 1)) / kNumShards in
  let! cs := new_shards (Z.to_nat kNumShards) per_shard in
  Ret (MkShardedLRUCache cs 0).

Definition NewLRUCache (capacity : Z) : res (ShardedLRUCache V) := new_ShardedLRUCache capacity.

Definition sharded_Insert (key : bytes) (value : V) (charge : Z) s : res (Handle * ShardedLRUCache V) :=
  let! hash := HashSlice key in
  let i := Shard hash in
  let! c := shard_at s i in
  let! '(e, c) := lru_Insert key hash value charge c in
  Ret (MkHandle i e, set_shard i c s).

Definition sharded_Lookup (key : bytes) s : res (option Handle * ShardedLRUCache V) :=
  let! hash := HashSlice key in
  let i := Shard hash in
  let! c := shard_at s i in
  let! '(p, c) := lru_Lookup key hash c in
  Ret (MkHandle i <$> p, set_shard i c s).

(** [reinterpret_cast<LRUHandle*>(handle)]. *)
Definition sharded_handle (handle : Handle) s : res (LRUHandle V) :=
  let! c := shard_at s (handle_shard handle) in handle_at c (handle_entry handle).

Definition sharded_Release (handle : Handle) s : res (ShardedLRUCache V) :=
  let! h := sharded_handle handle s in
  let i := Shard (handle_hash h) in
  let! _ := assert_ (Nat.eqb i (handle_shard handle)) in
  let! c := shard_at s i in
  let! c := lru_Release (handle_entry handle) c in
  Ret (set_shard i c s).

Definition sharded_Erase (key : bytes) s : res (ShardedLRUCache V) :=
  let! hash := HashSlice key in
  let i := Shard hash in
  let! c := shard_at s i in
  let! c := lru_Erase key hash c in
  Ret (set_shard i c s).

Definition sharded_Value (handle : Handle) s : res V := let! h := sharded_handle handle s in Ret (handle_value h).

Definition sharded_NewId s : Z * ShardedLRUCache V :=
  let id := u64 (last_id_ s + 1) in (id, MkShardedLRUCache (shard_ s) id).

Fixpoint prune_shards (cs : list (LRUCache V)) : res (list (LRUCache V)) :=
  match cs with
  | [] => Ret []
  | c :: cs => let! c := lru_Prune c in let! cs := prune_shards cs in Ret (c :: cs)
  end.

Definition sharded_Prune s : res (ShardedLRUCache V) :=
  let! cs := prune_shards (shard_ s) in Ret (MkShardedLRUCache cs (last_id_ s)).

Definition sharded_TotalCharge s : Z := foldl (fun total c => u64 (total + TotalCharge c)) 0 (shard_ s).
End sharded.
