(* ===== verification/CacheSpec.v ===== *)
(** * LevelDB's LRU cache: what it promises

    The abstract cache: the entries that exist, which of them are cached, how
    many handles clients hold, and the cached entries without handles in the
    order in which they are evicted. *)
From S2P Require Import Prelude LdbBase Iterator BlockBuild Cache.

(** ** LevelDB's LRU cache: its lists and its hash table, proved *)

(** ** LevelDB's LRU cache: its lists, proved

    Circular doubly linked lists through the links of the entries: removing an
    entry, and appending it before the head of a list. *)

(** ** Linked sequences of addresses *)
Section linked.
Implicit Types (nf pf : addr -> option addr) (xs ys : list addr) (a b : addr).

(** Neighbours in [xs] point to each other. *)
Fixpoint linked nf pf xs : Prop :=
  match xs with
  | a :: ((b :: _) as xs') => nf a = Some b /\ pf b = Some a /\ linked nf pf xs'
  | _ => True
  end.

Lemma addrs_linked_app nf pf xs a b ys :
  linked nf pf (xs ++ a :: b :: ys) <-> linked nf pf (xs ++ [a]) /\ nf a = Some b /\ pf b = Some a /\ linked nf pf (b :: ys).
Proof.
  induction xs as [|x xs IH]; [cbn; tauto|]. destruct xs as [|y xs]; cbn in *; [tauto|]. rewrite IH. tauto.
Qed.

(** It depends on the forward links of all but the last address, and on the
    backward links of all but the first. *)
Lemma linked_frame nf pf nf' pf' xs :
  (forall a, a ∈ removelast xs -> nf' a = nf a) -> (forall a, a ∈ tail xs -> pf' a = pf a) -> linked nf pf xs -> linked nf' pf' xs.
Proof.
  induction xs as [|a xs IH]; intros Hn Hp; [done|]. destruct xs as [|b xs]; [done|]. intros (Ha & Hb & Hl).
  split; [rewrite Hn; [done|left]|]. split; [rewrite Hp; [done|left]|]. apply IH; [|intros c Hc|done].
  - intros c Hc. apply Hn. by right.
  - apply Hp. right. by destruct xs.
Qed.

End linked.

(** ** The parts of a cache *)
Section cache.
Context {V : Type}.
Implicit Types (c : LRUCache V) (e : nat) (a : addr).

Definition link_of c a : option Links :=
  match a with LruHead => Some (lru_ c) | InUseHead => Some (in_use_ c) | Entry e => links <$> handles c !! e end.
Definition next_of c a : option addr := link_of c a ≫= next.
Definition prev_of c a : option addr := link_of c a ≫= prev.

(** What does not change when entries move in lists or in the table. *)
Record Info : Type := MkInfo {
  i_value : V;
  i_charge : Z;
  i_key : bytes;
  i_in_cache : bool;
  i_refs : Z;
  i_hash : Z;
}.

Definition info (h : LRUHandle V) : Info := MkInfo (handle_value h) (charge h) (key_data h) (in_cache h) (refs h) (handle_hash h).
Definition info_of c e : option Info := info <$> handles c !! e.
Definition chain_of c e : option nat := handles c !! e ≫= next_hash.

Record same_scalars c c' : Prop := {
  ss_capacity : capacity_ c' = capacity_ c;
  ss_usage : usage_ c' = usage_ c;
  ss_allocated : allocated c' = allocated c;
  ss_deleted : deleted c' = deleted c;
}.

Record same_table c c' : Prop := {
  st_length : length_ c' = length_ c;
  st_elems : elems_ c' = elems_ c;
  st_list : list_ c' = list_ c;
  st_chain : forall e, chain_of c' e = chain_of c e;
}.

(** Only links have changed. *)
Record only_links c c' : Prop := {
  ol_scalars : same_scalars c c';
  ol_table : same_table c c';
  ol_info : forall e, info_of c' e = info_of c e;
}.

#[export] Instance same_scalars_preorder : PreOrder same_scalars.
Proof. split; [by intros c|]. intros c1 c2 c3 [] []. split; etrans; eauto. Qed.

#[export] Instance only_links_preorder : PreOrder only_links.
Proof.
  split; [by intros c|]. intros c1 c2 c3 [[] [] ?] [[] [] ?]. split; [split|split|]; intros; etrans; eauto.
Qed.

Lemma links_at_of c a l : link_of c a = Some l -> links_at c a = Ret l.
Proof.
  destruct a; cbn; [by intros [= ->]..|]. unfold handle_at. destruct (handles c !! e) as [h|]; [|done]. by intros [= <-].
Qed.

Lemma info_handle c e i : info_of c e = Some i -> exists h, handles c !! e = Some h /\ info h = i.
Proof. unfold info_of. destruct (handles c !! e) as [h|]; [|done]. intros [= <-]. by exists h. Qed.

Lemma update_links_of f a c l : link_of c a = Some l ->
  exists c', update_links f a c = Ret c' /\ only_links c c' /\ link_of c' a = Some (f l) /\ forall b, b <> a -> link_of c' b = link_of c b.
Proof.
  intros El. destruct a as [| |e]; cbn in El |- *; [injection El as <-|injection El as <-|].
  - eexists. split; [done|]. split; [done|]. split; [done|]. by intros [] Hb.
  - eexists. split; [done|]. split; [done|]. split; [done|]. by intros [] Hb.
  - unfold update, handle_at. destruct (handles c !! e) as [h|] eqn:E; [|done]. injection El as <-. cbn [of_option]. rewrite res_bind_ret.
    eexists. split; [done|]. split; [|split].
    + split; [done|split; try done|]; intros e'; unfold chain_of, info_of; cbn [handles set_handles];
        (destruct (decide (e' = e)) as [->|]; [by rewrite lookup_insert_eq, E|by rewrite lookup_insert_ne]).
    + cbn. by rewrite lookup_insert_eq.
    + intros [| |e'] Hb; [done..|]. cbn. rewrite lookup_insert_ne; [done|congruence].
Qed.

Lemma set_next_of a p c l : link_of c a = Some l ->
  exists c', set_next a p c = Ret c' /\ only_links c c' /\
    (forall b, next_of c' b = if decide (b = a) then p else next_of c b) /\ (forall b, prev_of c' b = prev_of c b) /\
    (forall b, is_Some (link_of c b) -> is_Some (link_of c' b)).
Proof.
  intros El. destruct (update_links_of (fun l => MkLinks p (prev l)) a c l El) as (c' & E & Ho & Ha & Hb). exists c'. split; [done|].
  split; [done|]. unfold next_of, prev_of. split; [|split]; intros b; destruct (decide (b = a)) as [->|Hne]; rewrite ?Ha, ?Hb, ?El; try done; by rewrite Hb.
Qed.

Lemma set_prev_of a p c l : link_of c a = Some l ->
  exists c', set_prev a p c = Ret c' /\ only_links c c' /\
    (forall b, prev_of c' b = if decide (b = a) then p else prev_of c b) /\ (forall b, next_of c' b = next_of c b) /\
    (forall b, is_Some (link_of c b) -> is_Some (link_of c' b)).
Proof.
  intros El. destruct (update_links_of (fun l => MkLinks (next l) p) a c l El) as (c' & E & Ho & Ha & Hb). exists c'. split; [done|].
  split; [done|]. unfold next_of, prev_of. split; [|split]; intros b; destruct (decide (b = a)) as [->|Hne]; rewrite ?Ha, ?Hb, ?El; try done; by rewrite Hb.
Qed.

(** ** Circular lists *)
Definition circle (hd : addr) (l : list nat) : list addr := hd :: (Entry <$> l) ++ [hd].
Definition dlist c (hd : addr) (l : list nat) : Prop := linked (next_of c) (prev_of c) (circle hd l).

(** The entry of a list has live neighbours. *)
Lemma next_link c a b : next_of c a = Some b -> is_Some (link_of c a).
Proof. unfold next_of. destruct (link_of c a); [by eexists|done]. Qed.

Lemma prev_link c a b : prev_of c a = Some b -> is_Some (link_of c a).
Proof. unfold prev_of. destruct (link_of c a); [by eexists|done]. Qed.

Lemma link_next c a l b : link_of c a = Some l -> next_of c a = Some b -> next l = Some b.
Proof. unfold next_of. by intros ->. Qed.

Lemma link_prev c a l b : link_of c a = Some l -> prev_of c a = Some b -> prev l = Some b.
Proof. unfold prev_of. by intros ->. Qed.

Lemma circle_split hd l1 e l2 : exists q a b r,
  hd :: (Entry <$> l1) = q ++ [a] /\ (Entry <$> l2) ++ [hd] = b :: r /\
  circle hd (l1 ++ e :: l2) = q ++ a :: Entry e :: b :: r /\ circle hd (l1 ++ l2) = q ++ a :: b :: r.
Proof.
  destruct (exists_last (l := hd :: (Entry <$> l1))) as (q & a & E1); [done|].
  destruct ((Entry <$> l2) ++ [hd]) as [|b r] eqn:E2; [by apply app_eq_nil in E2 as []|]. exists q, a, b, r. split; [done|]. split; [done|].
  unfold circle. rewrite !fmap_app, <- !app_assoc, E2. cbn [fmap list_fmap app]. rewrite E2, !app_comm_cons, E1, <- !app_assoc. done.
Qed.

Definition is_head (hd : addr) : Prop := forall e, hd <> Entry e.

Lemma head_link c hd : is_head hd -> is_Some (link_of c hd).
Proof. intros Hh. destruct hd; [by eexists..|]. by destruct (Hh e). Qed.

Lemma circle_nodup hd l : is_head hd -> NoDup l -> NoDup (hd :: (Entry <$> l)).
Proof.
  intros Hh Hl. apply list.NoDup_cons. split.
  - intros (e & Ee & _)%list_elem_of_fmap. by apply (Hh e).
  - apply NoDup_fmap_2; [by intros x y [= ->]|done].
Qed.

Lemma dlist_frame c c' hd l :
  (forall a, a ∈ hd :: (Entry <$> l) -> next_of c' a = next_of c a /\ prev_of c' a = prev_of c a) -> dlist c hd l -> dlist c' hd l.
Proof.
  intros Hf. unfold dlist, circle. apply linked_frame.
  - rewrite app_comm_cons, removelast_last. intros a Ha. by apply Hf.
  - cbn [tail]. intros a Ha. apply Hf. apply elem_of_app in Ha as [Ha|Ha]; [by right|]. apply list_elem_of_singleton in Ha as ->. left.
Qed.

Lemma dlist_first c hd l : dlist c hd l -> next_of c hd = Some (match l with e :: _ => Entry e | [] => hd end).
Proof. destruct l as [|e l]; unfold dlist, circle; cbn; by intros [? _]. Qed.

Lemma dlist_next c hd l1 e l2 : dlist c hd (l1 ++ e :: l2) -> next_of c (Entry e) = Some (match l2 with e2 :: _ => Entry e2 | [] => hd end).
Proof.
  unfold dlist. destruct (circle_split hd l1 e l2) as (q & a & b & r & _ & Eb & -> & _). intros (_ & _ & _ & Hn & _)%addrs_linked_app. rewrite Hn.
  destruct l2 as [|e2 l2]; cbn in Eb; by injection Eb as -> _.
Qed.

(** An entry does not point to itself. *)
Lemma dlist_no_self c hd l e : is_head hd -> NoDup l -> dlist c hd l -> e ∈ l -> next_of c (Entry e) <> Some (Entry e).
Proof.
  intros Hh Hl Hd (l1 & l2 & ->)%list_elem_of_split. rewrite (dlist_next c hd l1 e l2 Hd). intros [= E].
  destruct l2 as [|e2 l2]; [by destruct (Hh e)|]. injection E as ->. apply list.NoDup_app in Hl as (_ & _ & Hl). apply NoDup_cons_1_1 in Hl as Hn2. apply Hn2. left.
Qed.

Lemma LRU_Remove_holds c hd l1 e l2 : is_head hd -> NoDup (l1 ++ e :: l2) -> dlist c hd (l1 ++ e :: l2) ->
  exists c', LRU_Remove e c = Ret c' /\ only_links c c' /\ dlist c' hd (l1 ++ l2) /\
    (forall a, a ∉ hd :: (Entry <$> l1 ++ l2) -> next_of c' a = next_of c a /\ prev_of c' a = prev_of c a).
Proof.
  intros Hh Hnd Hd. unfold dlist in Hd. pose proof (circle_nodup hd _ Hh Hnd) as Hc.
  destruct (circle_split hd l1 e l2) as (q & a & b & r & Ea & Eb & Ec & Ec'). rewrite Ec in Hd.
  apply (addrs_linked_app _ _ q) in Hd as (Hq & Hna & Hpe & (Hne & Hpb & Hr)). change (linked (next_of c) (prev_of c) (b :: r)) in Hr. unfold LRU_Remove.
  destruct (next_link _ _ _ Hne) as [le Ele]. rewrite (links_at_of _ _ _ Ele), res_bind_ret.
  rewrite (link_next _ _ _ _ Ele Hne), (link_prev _ _ _ _ Ele Hpe). cbn [of_option]. rewrite res_bind_ret. destruct (prev_link _ _ _ Hpb) as [lb Elb].
  destruct (set_prev_of b (Some a) c lb Elb) as (c1 & -> & Ho1 & Hp1 & Hn1 & Hl1). rewrite res_bind_ret.
  destruct (Hl1 (Entry e)) as [le1 Ele1]; [by eexists|]. rewrite (links_at_of _ _ _ Ele1), res_bind_ret.
  rewrite fmap_app, app_comm_cons, Ea in Hc. cbn [fmap list_fmap] in Hc. rewrite <- app_assoc in Hc. cbn [app] in Hc.
  assert (Entry e ∉ q /\ a ∉ q /\ a <> Entry e) as (_ & Haq & Hae).
  { apply list.NoDup_app in Hc as (_ & Hc & Hc'). apply list.NoDup_cons in Hc' as [Hc' _]. split; [intros ?; apply (Hc (Entry e)); [done|right; left]|].
    split; [intros ?; apply (Hc a); [done|left]|]. intros ->. apply Hc'. left. }
  assert (b <> Entry e) as Hbe.
  { intros ->. destruct l2 as [|e2 l2]; cbn in Eb; injection Eb as Eb _; [by destruct (Hh e)|]. subst e2.
    apply list.NoDup_app in Hnd as (_ & _ & Hnd). apply NoDup_cons_1_1 in Hnd as Hn2. apply Hn2. left. }
  rewrite (link_next c1 (Entry e) le1 b), (link_prev c1 (Entry e) le1 a) by (done || by rewrite ?Hn1, ?Hp1, ?decide_False).
  cbn [of_option]. rewrite res_bind_ret. destruct (Hl1 a) as [la Ela]; [by eapply next_link|].
  destruct (set_next_of a (Some b) c1 la Ela) as (c2 & -> & Ho2 & Hn2 & Hp2 & _). exists c2. split; [done|]. split; [by etrans|].
  assert (forall x, x <> a -> next_of c2 x = next_of c x) as Hn by (intros x Hx; by rewrite Hn2, decide_False, Hn1).
  assert (forall x, x <> b -> prev_of c2 x = prev_of c x) as Hp by (intros x Hx; by rewrite Hp2, Hp1, decide_False).
  assert (forall x, x ∈ tail (q ++ [a]) -> x <> b) as Htq.
  { intros x Hx ->. rewrite <- Ea in Hx. cbn [tail] in Hx.
    assert (b ∈ (Entry <$> l2) ++ [hd]) as Hb by (rewrite Eb; left). apply elem_of_app in Hb as [Hb|Hb].
    - apply list_elem_of_fmap in Hx as (x & -> & Hx). apply list_elem_of_fmap in Hb as (y & [= <-] & Hy).
      apply list.NoDup_app in Hnd as (_ & Hnd & _). apply (Hnd x); [done|by right].
    - apply list_elem_of_singleton in Hb as ->. apply list_elem_of_fmap in Hx as (y & -> & _). by apply (Hh y). }
  assert (forall x, x ∈ removelast (b :: r) -> x <> a) as Hra.
  { intros x Hx ->. rewrite <- Eb, removelast_last in Hx. assert (a ∈ q ++ [a]) as Ha by (apply elem_of_app; right; left). rewrite <- Ea in Ha.
    apply list_elem_of_fmap in Hx as (x & -> & Hx). apply elem_of_cons in Ha as [Ha|Ha]; [by apply (Hh x)|].
    apply list_elem_of_fmap in Ha as (y & [= <-] & Hy). apply list.NoDup_app in Hnd as (_ & Hnd & _). apply (Hnd x); [done|by right]. }
  assert (b ∉ r) as Hbr.
  { assert (NoDup (b :: r)) as Hnb; [|by apply list.NoDup_cons in Hnb as [? _]]. rewrite <- Eb. apply list.NoDup_app in Hnd as (_ & _ & Hnd).
    apply list.NoDup_cons in Hnd as [_ Hnd]. pose proof (circle_nodup hd l2 Hh Hnd) as Hx. apply list.NoDup_cons in Hx as [Hx Hy].
    apply list.NoDup_app. split; [done|]. split; [|apply NoDup_singleton]. intros x Hx1 ->%list_elem_of_singleton. done. }
  split.
  - unfold dlist. rewrite Ec'. apply addrs_linked_app. split; [|split; [|split]].
    + eapply linked_frame; [| |exact Hq].
      * rewrite removelast_last. intros x Hx. apply Hn. by intros ->.
      * intros x Hx. by apply Hp, Htq.
    + by rewrite Hn2, decide_True.
    + by rewrite Hp2, Hp1, decide_True.
    + eapply linked_frame; [| |exact Hr]; [intros x Hx; by apply Hn, Hra|]. cbn [tail]. intros x Hx. apply Hp. by intros ->.
  - intros x Hx. assert (a ∈ hd :: (Entry <$> l1 ++ l2)) as Hain.
    { rewrite fmap_app, app_comm_cons, Ea. apply elem_of_app. left. apply elem_of_app. right. left. }
    assert (b ∈ hd :: (Entry <$> l1 ++ l2)) as Hbin.
    { assert (b ∈ (Entry <$> l2) ++ [hd]) as Hb by (rewrite Eb; left). apply elem_of_app in Hb as [Hb|Hb].
      - right. rewrite fmap_app. apply elem_of_app. by right.
      - apply list_elem_of_singleton in Hb as ->. left. }
    split; [apply Hn; by intros ->|apply Hp; by intros ->].
Qed.

Lemma LRU_Append_holds c hd l e : is_head hd -> NoDup (l ++ [e]) -> dlist c hd l -> is_Some (handles c !! e) ->
  exists c', LRU_Append hd e c = Ret c' /\ only_links c c' /\ dlist c' hd (l ++ [e]) /\
    (forall a, a ∉ hd :: (Entry <$> l ++ [e]) -> next_of c' a = next_of c a /\ prev_of c' a = prev_of c a).
Proof.
  intros Hh Hnd Hd [h Eh]. pose proof (circle_nodup hd _ Hh Hnd) as Hc. unfold dlist, circle in Hd.
  destruct (exists_last (l := hd :: (Entry <$> l))) as (q & a & Ea); [done|]. rewrite app_comm_cons, Ea, <- app_assoc in Hd. cbn [app] in Hd.
  apply addrs_linked_app in Hd as (Hq & Hna & Hph & _). rewrite fmap_app, app_comm_cons, Ea, <- app_assoc in Hc. cbn [fmap list_fmap app] in Hc.
  assert (a ∉ q /\ Entry e ∉ q /\ a <> Entry e) as (Haq & Heq & Hae).
  { apply list.NoDup_app in Hc as (_ & Hc & Hc'). apply list.NoDup_cons in Hc' as [Hc' _]. split; [intros ?; apply (Hc a); [done|left]|].
    split; [intros ?; apply (Hc (Entry e)); [done|right; left]|]. intros ->. apply Hc'. left. }
  assert (hd <> Entry e) as Hhe by apply Hh. unfold LRU_Append.
  assert (link_of c (Entry e) = Some (links h)) as Ele by (cbn; by rewrite Eh).
  destruct (set_next_of (Entry e) (Some hd) c _ Ele) as (c1 & -> & Ho1 & Hn1 & Hp1 & Hl1). rewrite res_bind_ret.
  destruct (head_link c1 hd Hh) as [lh Elh]. rewrite (links_at_of _ _ _ Elh), res_bind_ret.
  rewrite (link_prev c1 hd lh a) by (done || by rewrite Hp1).
  destruct (Hl1 (Entry e)) as [le1 Ele1]; [by eexists|].
  destruct (set_prev_of (Entry e) (Some a) c1 _ Ele1) as (c2 & -> & Ho2 & Hp2 & Hn2 & Hl2). rewrite res_bind_ret.
  destruct (Hl2 (Entry e)) as [le2 Ele2]; [by eexists|]. rewrite (links_at_of _ _ _ Ele2), res_bind_ret.
  rewrite (link_prev c2 (Entry e) le2 a) by (done || by rewrite Hp2, decide_True).
  cbn [of_option]. rewrite res_bind_ret. assert (is_Some (link_of c2 a)) as [la Ela] by (apply Hl2, Hl1; by eapply next_link).
  destruct (set_next_of a (Some (Entry e)) c2 _ Ela) as (c3 & -> & Ho3 & Hn3 & Hp3 & Hl3). rewrite res_bind_ret.
  destruct (Hl3 (Entry e)) as [le3 Ele3]; [by eexists|]. rewrite (links_at_of _ _ _ Ele3), res_bind_ret.
  rewrite (link_next c3 (Entry e) le3 hd) by (done || by rewrite Hn3, decide_False, Hn2, Hn1, decide_True).
  cbn [of_option]. rewrite res_bind_ret. destruct (head_link c3 hd Hh) as [lh3 Elh3].
  destruct (set_prev_of hd (Some (Entry e)) c3 _ Elh3) as (c4 & -> & Ho4 & Hp4 & Hn4 & _). exists c4. split; [done|].
  split; [do 3 (etrans; [done|]); done|].
  assert (forall x, next_of c4 x = if decide (x = a) then Some (Entry e) else if decide (x = Entry e) then Some hd else next_of c x) as Hn.
  { intros x. by rewrite Hn4, Hn3, Hn2, Hn1. }
  assert (forall x, prev_of c4 x = if decide (x = hd) then Some (Entry e) else if decide (x = Entry e) then Some a else prev_of c x) as Hp.
  { intros x. by rewrite Hp4, Hp3, Hp2, Hp1. }
  split.
  - unfold dlist, circle. rewrite fmap_app, !app_comm_cons, Ea. cbn [fmap list_fmap]. rewrite <- !app_assoc. cbn [app].
    apply addrs_linked_app. split; [|split; [|split]].
    + eapply linked_frame; [| |exact Hq].
      * rewrite removelast_last. intros x Hx. rewrite Hn, !decide_False; [done|by intros ->..].
      * rewrite <- Ea. cbn [tail]. intros x Hx. rewrite Hp, !decide_False; [done|intros ->|intros ->].
        { assert (Entry e ∈ q ++ [a]) as Hin by (rewrite <- Ea; by right). apply elem_of_app in Hin as [|Hin]; [done|].
          apply list_elem_of_singleton in Hin. done. }
        { apply list_elem_of_fmap in Hx as (y & Ey & _). by apply (Hh y). }
    + by rewrite Hn, decide_True.
    + by rewrite Hp, decide_False, decide_True.
    + split; [by rewrite Hn, decide_False, decide_True|]. split; [by rewrite Hp, decide_True|done].
  - intros x Hx. assert (x <> a /\ x <> Entry e /\ x <> hd) as (? & ? & ?); [|by rewrite Hn, Hp, !decide_False].
    rewrite fmap_app, app_comm_cons, Ea in Hx. cbn in Hx. rewrite !not_elem_of_app, !list_elem_of_singleton in Hx.
    destruct Hx as [[Hxq ?] ?]. split; [done|]. split; [done|]. intros ->. assert (hd ∈ q ++ [a]) as Hin by (rewrite <- Ea; left).
    apply elem_of_app in Hin as [|Hin]; [done|]. by apply list_elem_of_singleton in Hin.
Qed.
End cache.

(** ** LevelDB's LRU cache: its hash table, proved *)

(** ** Chains *)
Section chain.
Implicit Types (nh : nat -> option nat) (p q : option nat) (l : list nat).

(** From [p], through [l], to [q]. *)
Fixpoint chain nh p l q : Prop :=
  match l with
  | [] => p = q
  | e :: l => p = Some e /\ chain nh (nh e) l q
  end.

Lemma chain_app nh p l1 l2 q : chain nh p (l1 ++ l2) q <-> exists m, chain nh p l1 m /\ chain nh m l2 q.
Proof.
  revert p. induction l1 as [|e l1 IH]; intros p; cbn.
  - split; [by exists p|]. by intros (m & -> & ?).
  - rewrite IH. split; [intros (-> & m & ? & ?); by exists m|]. intros (m & (-> & ?) & ?). split; [done|]. by exists m.
Qed.

Lemma chain_frame nh nh' p l q : (forall e, e ∈ l -> nh' e = nh e) -> chain nh p l q -> chain nh' p l q.
Proof.
  revert p. induction l as [|e l IH]; intros p Hf; [done|]. intros [-> Hl]. split; [done|]. rewrite Hf by left.
  apply IH; [|done]. intros x Hx. apply Hf. by right.
Qed.

(** The slot after [l1] in bucket [i]. *)
Definition slot_after (i : nat) (l1 : list nat) : slot := match list.last l1 with Some e => NextHash e | None => Bucket (Z.of_nat i) end.

Definition chains nh (lst : list (option nat)) (bks : list (list nat)) : Prop := Forall2 (fun p l => chain nh p l None) lst bks.

Lemma chains_frame nh nh' lst bks : (forall e, e ∈ concat bks -> nh' e = nh e) -> chains nh lst bks -> chains nh' lst bks.
Proof.
  intros Hf Hc. induction Hc as [|p l lst bks Hp _ IH]; [constructor|]. constructor.
  - eapply chain_frame; [|exact Hp]. intros e He. apply Hf. cbn. apply elem_of_app. by left.
  - apply IH. intros e He. apply Hf. cbn. apply elem_of_app. by right.
Qed.
End chain.

(** ** Lists of buckets *)
Lemma concat_insert (bks : list (list nat)) i l : bks !! i = Some l ->
  exists rest, concat bks ≡ₚ l ++ rest /\ forall l', concat (<[i := l']> bks) ≡ₚ l' ++ rest.
Proof.
  intros Hl. exists (concat (take i bks) ++ concat (drop (S i) bks)). apply lookup_lt_Some in Hl as Hi. split.
  - rewrite <- (take_drop_middle bks i l Hl) at 1. rewrite concat_app. cbn. solve_Permutation.
  - intros l'. rewrite insert_take_drop by done. rewrite concat_app. cbn. solve_Permutation.
Qed.

Lemma elem_of_bucket (bks : list (list nat)) i l e : bks !! i = Some l -> e ∈ l -> e ∈ concat bks.
Proof. intros Hl He. destruct (concat_insert bks i l Hl) as (rest & -> & _). apply elem_of_app. by left. Qed.

Lemma bucket_of (bks : list (list nat)) e : e ∈ concat bks -> exists i l, bks !! i = Some l /\ e ∈ l.
Proof.
  induction bks as [|l bks IH]; cbn; [by intros ?%not_elem_of_nil|]. intros [He|He]%elem_of_app; [by exists O, l|].
  destruct (IH He) as (i & l' & ? & ?). by exists (S i), l'.
Qed.

Lemma bucket_unique (bks : list (list nat)) i j l l' e :
  NoDup (concat bks) -> bks !! i = Some l -> bks !! j = Some l' -> e ∈ l -> e ∈ l' -> i = j.
Proof.
  intros Hnd Hl Hl' He He'. destruct (decide (i = j)) as [|Hij]; [done|exfalso].
  destruct (concat_insert bks i l Hl) as (rest & E & Hins). rewrite E in Hnd. apply list.NoDup_app in Hnd as (_ & Hnd & _).
  apply (Hnd e He). specialize (Hins []). cbn in Hins. rewrite <- Hins. apply (elem_of_bucket _ j l'); [|done]. by rewrite list_lookup_insert_ne.
Qed.

Lemma land_mask n k : 0 <= k -> 0 <= n .& (2 ^ k - 1) < 2 ^ k.
Proof. intros Hk. replace (2 ^ k - 1) with (Z.ones k) by (rewrite Z.ones_equiv; lia). rewrite Z.land_ones by done. apply Z.mod_pos_bound. by apply Z.pow_pos_nonneg. Qed.

Lemma memcmp_eq a b : length a = length b -> (memcmp a b (length a) =? 0) = bool_decide (a = b).
Proof.
  revert b. induction a as [|x a IH]; intros [|y b] Hl; try done. injection Hl as Hl. cbn [memcmp length].
  destruct (Z.ltb_spec x y); [symmetry; apply bool_decide_false; intros [= -> ->]; lia|].
  destruct (Z.ltb_spec y x); [symmetry; apply bool_decide_false; intros [= -> ->]; lia|].
  assert (x = y) as -> by lia. rewrite (IH b Hl). apply bool_decide_ext. split; [by intros ->|by intros [= ->]].
Qed.

Lemma slice_eq_spec a b : slice_eq a b = bool_decide (a = b).
Proof.
  unfold slice_eq, size, zlength. rewrite Nat2Z.id. destruct (Z.eqb_spec (Z.of_nat (length a)) (Z.of_nat (length b))) as [Hl|Hl]; cbn [andb].
  - apply memcmp_eq. lia.
  - symmetry. apply bool_decide_false. by intros ->.
Qed.

Section table.
Context {V : Type}.
Implicit Types (c : LRUCache V) (e : nat) (bks : list (list nat)) (x : Info (V := V)).

(** Only the table has changed. *)
Record only_table c c' : Prop := {
  ot_scalars : same_scalars c c';
  ot_link : forall a, link_of c' a = link_of c a;
  ot_info : forall e, info_of c' e = info_of c e;
}.

#[export] Instance only_table_preorder : PreOrder only_table.
Proof. split; [by intros c|]. intros c1 c2 c3 [[] ? ?] [[] ? ?]. split; [split|..]; intros; etrans; eauto. Qed.

Definition hash_at c (len : Z) (i : nat) e : Prop := exists x, info_of c e = Some x /\ i_hash x .& (len - 1) = Z.of_nat i.

(** Two entries have different keys. *)
Definition keys_unique c (l : list nat) : Prop :=
  forall e e' x x', e ∈ l -> e' ∈ l -> info_of c e = Some x -> info_of c e' = Some x' -> i_hash x = i_hash x' -> i_key x = i_key x' -> e = e'.

Record buckets c bks : Prop := {
  bk_chains : chains (chain_of c) (list_ c) bks;
  bk_nodup : NoDup (concat bks);
  bk_hash : forall i l e, bks !! i = Some l -> e ∈ l -> hash_at c (zlength bks) i e;
  bk_length : length_ c = zlength bks;
}.

Record table_ok c bks : Prop := {
  tk_buckets : buckets c bks;
  tk_pow : exists k, 2 <= k <= 31 /\ zlength bks = 2 ^ k;
  tk_elems : elems_ c = zlength (concat bks);
  tk_unique : keys_unique c (concat bks);
  tk_small : zlength (concat bks) <= 2 ^ 31;
}.

(** ** FindPointer *)
Definition matches c (key : bytes) (hash : Z) e : Prop := exists x, info_of c e = Some x /\ i_hash x = hash /\ i_key x = key.

#[export] Instance matches_dec c key hash e : Decision (matches c key hash e).
Proof.
  unfold matches. destruct (info_of c e) as [x|]; [|right; intros (x & ? & _); done].
  destruct (decide (i_hash x = hash /\ i_key x = key)) as [Hd|Hd]; [left; by exists x|right; intros (x' & [= <-] & ?); done].
Defined.

Lemma handle_of_info c e x : info_of c e = Some x -> exists h, handle_at c e = Ret h /\ handles c !! e = Some h /\ info h = x.
Proof. intros (h & Eh & Ei)%info_handle. exists h. unfold handle_at. by rewrite Eh. Qed.

Lemma handle_key_ok c e x : info_of c e = Some x -> next_of c (Entry e) <> Some (Entry e) -> handle_key c e = Ret (i_key x).
Proof.
  intros Hx Hn. destruct (handle_of_info c e x Hx) as (h & Eh & Eh' & <-). unfold handle_key. rewrite Eh, res_bind_ret.
  unfold next_of in Hn. cbn in Hn. rewrite Eh' in Hn. cbn in Hn. rewrite bool_decide_false by done. by rewrite assert_true, res_bind_ret by done.
Qed.

Lemma read_slot_after c i lst l1 m : lst = list_ c -> (exists p, lst !! i = Some p /\ chain (chain_of c) p l1 m) ->
  (forall e, e ∈ l1 -> is_Some (info_of c e)) -> read_slot (slot_after i l1) c = Ret m.
Proof.
  intros -> (p & Hp & Hc) Hlive. unfold slot_after. destruct (list.last l1) as [e|] eqn:El.
  - apply list.last_Some in El as [l ->]. apply chain_app in Hc as (m' & _ & (-> & Hm)). cbn in Hm. subst m.
    destruct (Hlive e) as [x Hx]; [apply elem_of_app; right; left|]. destruct (handle_of_info c e x Hx) as (h & Eh & Eh' & _).
    cbn. rewrite Eh, res_bind_ret. unfold chain_of. by rewrite Eh'.
  - apply last_None in El as ->. cbn in *. subst m. rewrite (proj2 (Z.leb_le _ _)) by lia. by rewrite Nat2Z.id, Hp.
Qed.

Lemma find_pointer_holds c key hash i p l :
  list_ c !! i = Some p -> chain (chain_of c) p l None -> (forall e, e ∈ l -> is_Some (info_of c e) /\ next_of c (Entry e) <> Some (Entry e)) ->
  zlength l < 2 ^ 63 ->
  exists l1 l2, l = l1 ++ l2 /\ Forall (fun e => ~ matches c key hash e) l1 /\ match l2 with e :: _ => matches c key hash e | [] => True end /\
    while (find_pointer_body key hash c) (Bucket (Z.of_nat i)) = Ret (slot_after i l1) /\ read_slot (slot_after i l1) c = Ret (head l2).
Proof.
  intros Hp Hc Hlive Hl. set (P := fun n (s : slot) => exists l1 l2, l = l1 ++ l2 /\ n = length l2 /\ s = slot_after i l1 /\ Forall (fun e => ~ matches c key hash e) l1).
  assert (forall l1 l2, l = l1 ++ l2 -> read_slot (slot_after i l1) c = Ret (head l2)) as Hread.
  { intros l1 l2 ->. apply chain_app in Hc as (m & Hc1 & Hc2). rewrite (read_slot_after c i (list_ c) l1 m); [|done|by exists p|].
    - destruct l2 as [|e l2]; [by rewrite Hc2|by destruct Hc2 as [-> _]].
    - intros e He. apply Hlive. apply elem_of_app. by left. }
  destruct (while_rel (find_pointer_body key hash c) P
    (fun s => exists l1 l2, l = l1 ++ l2 /\ Forall (fun e => ~ matches c key hash e) l1 /\ match l2 with e :: _ => matches c key hash e | [] => True end /\ s = slot_after i l1)
    (length l) (Bucket (Z.of_nat i))) as (s & Es & l1 & l2 & E1 & Hl1 & Hl2 & ->).
  - intros n s (l1 & l2 & E & -> & -> & Hno). unfold find_pointer_body. rewrite (Hread l1 l2 E), res_bind_ret. destruct l2 as [|e l2].
    { left. eexists. split; [done|]. exists l1, []. done. }
    cbn [head]. destruct (Hlive e) as [[x Hx] Hself]; [rewrite E; apply elem_of_app; right; left|].
    destruct (handle_of_info c e x Hx) as (h & Eh & _ & <-). rewrite Eh, res_bind_ret, (handle_key_ok c e _ Hx Hself), res_bind_ret.
    assert ((if negb (handle_hash h =? hash) then Ret true else Ret (negb (slice_eq key (i_key (info h))))) = Ret (negb (bool_decide (matches c key hash e)))) as ->.
    { destruct (Z.eqb_spec (handle_hash h) hash) as [Eq|Hne]; cbn [negb].
      - rewrite slice_eq_spec. do 2 f_equal. apply bool_decide_ext. split; [intros ->; by exists (info h)|]. intros (x & Hx' & _ & <-). by rewrite Hx in Hx'; injection Hx' as <-.
      - rewrite bool_decide_false; [done|]. intros (x & Hx' & <- & _). rewrite Hx in Hx'. by injection Hx' as <-. }
    rewrite res_bind_ret. case_bool_decide as Hm; cbn [negb].
    + left. eexists. split; [done|]. by exists l1, (e :: l2).
    + right. exists (length l2), (NextHash e). split; [done|]. split; [done|]. exists (l1 ++ [e]), l2. rewrite <- app_assoc. split; [done|].
      split; [done|]. split; [unfold slot_after; by rewrite list.last_snoc|]. apply Forall_app. split; [done|]. by constructor.
  - by exists [], l.
  - unfold zlength in Hl. lia.
  - exists l1, l2. by rewrite (Hread l1 l2 E1).
Qed.

(** ** Writing to a slot *)
Lemma update_next_hash_of p e c : is_Some (info_of c e) ->
  exists c', update (set_next_hash p) e c = Ret c' /\ only_table c c' /\
    list_ c' = list_ c /\ length_ c' = length_ c /\ elems_ c' = elems_ c /\
    forall y, chain_of c' y = if decide (y = e) then p else chain_of c y.
Proof.
  intros [x Hx]. destruct (handle_of_info c e x Hx) as (h & E & Eh & _). unfold update. rewrite E, res_bind_ret. eexists. split; [done|].
  split; [|split; [done|]; split; [done|]; split; [done|]].
  - split; [done|intros [| |e']; [done..|]|intros e']; unfold link_of, info_of; cbn [handles set_handles];
      (destruct (decide (e' = e)) as [->|]; [by rewrite lookup_insert_eq, Eh|by rewrite lookup_insert_ne]).
  - intros y. unfold chain_of. cbn [handles set_handles]. destruct (decide (y = e)) as [->|]; [by rewrite lookup_insert_eq|by rewrite lookup_insert_ne].
Qed.

Lemma write_slot_holds c bks i l1 l2 v l2' :
  chains (chain_of c) (list_ c) bks -> NoDup (concat bks) -> bks !! i = Some (l1 ++ l2) ->
  (forall e, e ∈ l1 -> is_Some (info_of c e) /\ e ∉ l2') -> chain (chain_of c) v l2' None ->
  exists c', write_slot (slot_after i l1) v c = Ret c' /\ only_table c c' /\ length_ c' = length_ c /\ elems_ c' = elems_ c /\
    chains (chain_of c') (list_ c') (<[i := l1 ++ l2']> bks).
Proof.
  intros Hc Hnd Hi Hl1 Hv. pose proof (Forall2_length Hc) as Hlen. pose proof (lookup_lt_Some _ _ _ Hi) as Hlt.
  destruct (Forall2_lookup_r _ _ _ _ _ Hc Hi) as (p & Hp & Hpc). unfold slot_after. destruct (list.last l1) as [e|] eqn:El.
  - apply list.last_Some in El as [l ->]. destruct (Hl1 e) as [He Hel]; [apply elem_of_app; right; left|].
    destruct (update_next_hash_of v e c He) as (c' & E & Ho & Hlist & Hlen' & Hel' & Hch). exists c'. cbn [write_slot]. split; [done|]. split; [done|].
    split; [done|]. split; [done|]. rewrite Hlist. apply Forall2_same_length_lookup_2; [by rewrite length_insert|]. intros j q k Hq Hk.
    apply list_lookup_insert_Some in Hk as [(<- & <- & _)|[Hij Hk]].
    + rewrite Hp in Hq. injection Hq as <-. apply chain_app in Hpc as (m & Hc1 & _). apply chain_app in Hc1 as (m' & Hc1 & -> & _).
      assert (e ∉ l) as Hne.
      { destruct (concat_insert bks i _ Hi) as (rest & Er & _). rewrite Er in Hnd. apply list.NoDup_app in Hnd as (Hnd & _).
        apply list.NoDup_app in Hnd as (Hnd & _). apply list.NoDup_app in Hnd as (_ & Hnd & _). intros Hin. apply (Hnd e Hin). left. }
      apply chain_app. exists v. split; [apply chain_app; exists (Some e); split|].
      * eapply chain_frame; [|exact Hc1]. intros x Hx. rewrite Hch, decide_False; [done|by intros ->].
      * split; [done|]. cbn. by rewrite Hch, decide_True.
      * eapply chain_frame; [|exact Hv]. intros x Hx. rewrite Hch, decide_False; [done|by intros ->].
    + pose proof (Forall2_lookup_lr _ _ _ _ _ _ Hc Hq Hk) as Hqk. eapply chain_frame; [|exact Hqk]. intros x Hx.
      rewrite Hch, decide_False; [done|]. intros ->. apply Hij. apply (bucket_unique bks i j ((l ++ [e]) ++ l2) k e); try done.
      apply elem_of_app. left. apply elem_of_app. right. left.
  - apply last_None in El as ->. cbn [write_slot]. assert (0 <= Z.of_nat i < zlength (list_ c)) as Hb by (unfold zlength; lia).
    rewrite (proj2 (Z.leb_le _ _)), (proj2 (Z.ltb_lt _ _)) by lia. cbn [andb]. eexists. split; [done|]. split; [done|]. split; [done|]. split; [done|].
    cbn [list_ set_table app]. rewrite Nat2Z.id. by apply Forall2_insert.
Qed.

(** ** Looking up *)
Definition no_self c (l : list nat) : Prop := forall e, e ∈ l -> next_of c (Entry e) <> Some (Entry e).

Definition found c bks (key : bytes) (hash : Z) (p : option nat) : Prop :=
  match p with
  | Some e => e ∈ concat bks /\ matches c key hash e
  | None => forall e, e ∈ concat bks -> ~ matches c key hash e
  end.

Lemma bucket_live c bks e : buckets c bks -> e ∈ concat bks -> is_Some (info_of c e).
Proof. intros Hb (i & l & Hl & He)%bucket_of. destruct (bk_hash _ _ Hb i l e Hl He) as (x & Hx & _). by exists x. Qed.

Lemma FindPointer_holds c bks key hash : table_ok c bks -> no_self c (concat bks) ->
  exists i l1 l2, bks !! i = Some (l1 ++ l2) /\ hash .& (zlength bks - 1) = Z.of_nat i /\
    FindPointer key hash c = Ret (slot_after i l1) /\ read_slot (slot_after i l1) c = Ret (head l2) /\ found c bks key hash (head l2).
Proof.
  intros [Hb (k & Hk & Hpow) _ Hu Hsm] Hns. pose proof (land_mask hash k ltac:(lia)) as Hm. rewrite <- Hpow in Hm. set (z := hash .& (zlength bks - 1)) in *.
  destruct (lookup_lt_is_Some_2 bks (Z.to_nat z)) as [l Hl]; [unfold zlength in Hm; lia|].
  destruct (Forall2_lookup_r _ _ _ _ _ (bk_chains _ _ Hb) Hl) as (p & Hp & Hpc).
  destruct (find_pointer_holds c key hash (Z.to_nat z) p l Hp Hpc) as (l1 & l2 & -> & Hno & Hmt & E & Er).
  { intros e He. pose proof (elem_of_bucket _ _ _ _ Hl He) as Hin. split; [by eapply bucket_live|by apply Hns]. }
  { destruct (concat_insert bks _ _ Hl) as (rest & Ep & _). pose proof (Permutation_length Ep) as El. rewrite length_app in El. unfold zlength in *. lia. }
  exists (Z.to_nat z), l1, l2. split; [done|]. split; [lia|]. split; [|split; [done|]].
  - unfold FindPointer. rewrite (bk_length _ _ Hb), wrap_small by (rewrite Hpow; split; [pose proof (Z.pow_pos_nonneg 2 k)|pose proof (Z.pow_lt_mono_r 2 k 32)]; lia).
    fold z. by rewrite Z2Nat.id in E by lia.
  - destruct l2 as [|e l2]; cbn.
    + intros e He (x & Hx & Hh & Hkey). apply bucket_of in He as (j & l' & Hl' & He). destruct (bk_hash _ _ Hb j l' e Hl' He) as (x' & Hx' & Hj).
      rewrite Hx in Hx'. injection Hx' as <-. rewrite Hh in Hj. fold z in Hj. assert (j = Z.to_nat z) as -> by lia. rewrite Hl in Hl'. injection Hl' as <-.
      rewrite app_nil_r in He. apply (Forall_elem _ _ _ Hno He). by exists x.
    + split; [|done]. apply (elem_of_bucket _ _ _ _ Hl). apply elem_of_app. right. left.
Qed.

Lemma table_Lookup_holds c bks key hash : table_ok c bks -> no_self c (concat bks) ->
  exists p, table_Lookup key hash c = Ret p /\ found c bks key hash p.
Proof.
  intros Ht Hns. destruct (FindPointer_holds c bks key hash Ht Hns) as (i & l1 & l2 & _ & _ & E & Er & Hf). exists (head l2).
  unfold table_Lookup. by rewrite E, res_bind_ret.
Qed.

(** ** Resizing *)

(** A table that is being filled, with [2 ^ k] buckets. *)
Record filling c (k : Z) (nl : list (option nat)) bks : Prop := {
  fl_chains : chains (chain_of c) nl bks;
  fl_length : zlength bks = 2 ^ k;
  fl_hash : forall i l e, bks !! i = Some l -> e ∈ l -> hash_at c (2 ^ k) i e;
  fl_nodup : NoDup (concat bks);
}.

Record only_chains c c' : Prop := {
  oc_table : only_table c c';
  oc_list : list_ c' = list_ c;
  oc_length : length_ c' = length_ c;
  oc_elems : elems_ c' = elems_ c;
}.

#[export] Instance only_chains_preorder : PreOrder only_chains.
Proof. split; [by intros c|]. intros c1 c2 c3 [] []. split; etrans; eauto. Qed.

Lemma hash_at_same c c' len i e : only_table c c' -> hash_at c len i e -> hash_at c' len i e.
Proof. intros Ho (x & Hx & Hh). exists x. by rewrite (ot_info _ _ Ho). Qed.

Lemma mask_length k : 0 <= k <= 31 -> u32 (2 ^ k - 1) = 2 ^ k - 1 /\ 0 < 2 ^ k <= 2 ^ 31.
Proof.
  intros Hk. pose proof (Z.pow_pos_nonneg 2 k). pose proof (Z.pow_le_mono_r 2 k 31). rewrite wrap_small by lia. lia.
Qed.

(** One entry moves to its new bucket. *)
Lemma rehash_step c k nl bks e x : 0 <= k <= 31 -> filling c k nl bks -> info_of c e = Some x -> e ∉ concat bks ->
  exists h i old c' bks', handle_at c e = Ret h /\ next_hash h = chain_of c e /\ handle_hash h .& u32 (2 ^ k - 1) = Z.of_nat i /\ nl !! i = Some old /\
    update (set_next_hash old) e c = Ret c' /\ only_chains c c' /\ filling c' k (<[i := Some e]> nl) bks' /\
    concat bks' ≡ₚ e :: concat bks /\ forall y, y <> e -> chain_of c' y = chain_of c y.
Proof.
  intros Hk [Hc Hl Hh Hnd] Hx Hne. destruct (handle_of_info c e x Hx) as (h & E & Eh & Ei). destruct (mask_length k Hk) as [Em Hpos].
  pose proof (land_mask (handle_hash h) k ltac:(lia)) as Hm. set (z := handle_hash h .& (2 ^ k - 1)) in *.
  destruct (lookup_lt_is_Some_2 bks (Z.to_nat z)) as [l Hbl]; [unfold zlength in Hl; lia|].
  destruct (Forall2_lookup_r _ _ _ _ _ Hc Hbl) as (old & Hold & Hpc).
  destruct (update_next_hash_of old e c) as (c' & Eu & Ho & El & Elen & Eel & Hch); [by exists x|].
  destruct (concat_insert bks _ l Hbl) as (rest & Er & Hins). exists h, (Z.to_nat z), old, c', (<[Z.to_nat z := e :: l]> bks). split; [done|].
  split; [unfold chain_of; by rewrite Eh|]. split; [rewrite Em; fold z; lia|]. split; [done|]. split; [done|]. split; [done|].
  assert (concat (<[Z.to_nat z := e :: l]> bks) ≡ₚ e :: concat bks) as Ep by (rewrite Hins, Er; done). split; [|split; [done|]].
  - split.
    + apply Forall2_insert.
      * eapply chains_frame; [|exact Hc]. intros y Hy. rewrite Hch, decide_False; [done|by intros ->].
      * split; [done|]. rewrite Hch, decide_True by done. eapply chain_frame; [|exact Hpc]. intros y Hy. rewrite Hch, decide_False; [done|].
        intros ->. apply Hne. by apply (elem_of_bucket bks (Z.to_nat z) l).
    + unfold zlength in *. by rewrite length_insert.
    + intros j l' y Hj Hy. apply (hash_at_same c); [done|]. apply list_lookup_insert_Some in Hj as [(<- & <- & _)|[_ Hj]]; [|by apply (Hh j l')].
      apply elem_of_cons in Hy as [->|Hy]; [|by apply (Hh _ l)]. exists x. split; [done|]. rewrite <- Ei. cbn [i_hash info]. fold z. lia.
    + rewrite Ep. apply list.NoDup_cons. done.
  - intros y Hy. by rewrite Hch, decide_False.
Qed.

Lemma rehash_bucket k c l p nl bks count :
  0 <= k <= 31 -> chain (chain_of c) p l None -> filling c k nl bks -> (forall e, e ∈ l -> is_Some (info_of c e) /\ e ∉ concat bks) -> NoDup l ->
  0 <= count -> count + zlength l < 2 ^ 32 ->
  exists nl' bks' c', runs (rehash_body (2 ^ k)) (p, nl, count, c) (Z.of_nat (S (length l))) (Ret (nl', count + zlength l, c')) /\
    only_chains c c' /\ filling c' k nl' bks' /\ concat bks' ≡ₚ l ++ concat bks /\ forall y, y ∉ l -> chain_of c' y = chain_of c y.
Proof.
  intros Hk. revert p nl bks count c. induction l as [|e l IH]; intros p nl bks count c Hc Hf Hl Hnd Hcount Hsm.
  { cbn in Hc. subst p. exists nl, bks, c. split; [|done]. rewrite Z.add_0_r. by constructor. }
  destruct Hc as [-> Hc]. rewrite zlength_cons in *. pose proof (zlength_nonneg l). apply list.NoDup_cons in Hnd as [Hel Hnd].
  destruct (Hl e) as [[x Hx] Hne]; [left|].
  destruct (rehash_step c k nl bks e x Hk Hf Hx Hne) as (h & i & old & c1 & bks1 & E & En & Ei & Eold & Eu & Ho1 & Hf1 & Ep1 & Hch1).
  destruct (IH (chain_of c e) (<[i := Some e]> nl) bks1 (count + 1) c1) as (nl' & bks' & c' & Hr & Ho & Hf' & Ep & Hch); try done || lia.
  { eapply chain_frame; [|exact Hc]. intros y Hy. apply Hch1. by intros ->. }
  { intros y Hy. rewrite (ot_info _ _ (oc_table _ _ Ho1)). split; [apply Hl; by right|]. rewrite Ep1. apply not_elem_of_cons. split; [by intros ->|apply Hl; by right]. }
  exists nl', bks', c'. split; [|split; [by etrans|]; split; [done|]; split].
  - replace (count + (1 + zlength l)) with (count + 1 + zlength l) by lia. replace (Z.of_nat (S (length (e :: l)))) with (1 + Z.of_nat (S (length l))) by (cbn [length]; lia).
    econstructor; [|exact Hr]. unfold rehash_body. rewrite E, res_bind_ret, Ei. rewrite (proj2 (Z.leb_le _ _)) by lia. rewrite Nat2Z.id, Eold. cbn [of_option].
    by rewrite res_bind_ret, Eu, res_bind_ret, En, wrap_small by lia.
  - rewrite Ep, Ep1. solve_Permutation.
  - intros y [Hye Hy]%not_elem_of_cons. by rewrite Hch, Hch1.
Qed.

Lemma rehash_holds k todo : forall c i nl bks count,
  0 <= k <= 31 -> chains (chain_of c) (drop i (list_ c)) todo -> filling c k nl bks ->
  (forall e, e ∈ concat todo -> is_Some (info_of c e) /\ e ∉ concat bks) -> NoDup (concat todo) -> 0 <= count -> count + zlength (concat todo) < 2 ^ 32 ->
  exists nl' bks' c', rehash (length todo) (Z.of_nat i) (2 ^ k) nl count c = Ret (nl', count + zlength (concat todo), c') /\
    only_chains c c' /\ filling c' k nl' bks' /\ concat bks' ≡ₚ concat todo ++ concat bks.
Proof.
  induction todo as [|l todo IH]; intros c i nl bks count Hk Hc Hf Hl Hnd Hcount Hsm.
  { exists nl, bks, c. cbn [rehash length]. by rewrite Z.add_0_r. }
  cbn [concat] in *. rewrite zlength_app in *. pose proof (zlength_nonneg l). pose proof (zlength_nonneg (concat todo)).
  apply list.NoDup_app in Hnd as (Hndl & Hdis & Hnd). destruct (drop i (list_ c)) as [|p lst] eqn:Ed; [by inversion Hc|]. apply Forall2_cons_1 in Hc as [Hp Hc].
  assert (list_ c !! i = Some p) as Hip by (rewrite <- (Nat.add_0_r i), <- lookup_drop, Ed; done).
  assert (drop (S i) (list_ c) = lst) as Edr.
  { replace (S i) with (i + 1)%nat by lia. by rewrite <- drop_drop, Ed. }
  destruct (rehash_bucket k c l p nl bks count Hk Hp Hf) as (nl1 & bks1 & c1 & Hr & Ho1 & Hf1 & Ep1 & Hch1); try done || lia.
  { intros e He. apply Hl. apply elem_of_app. by left. }
  destruct (IH c1 (S i) nl1 bks1 (count + zlength l)) as (nl' & bks' & c' & E & Ho & Hf' & Ep); try done || lia.
  { rewrite (oc_list _ _ Ho1), Edr. eapply chains_frame; [|exact Hc]. intros e He. apply Hch1. intros Hel. by apply (Hdis e). }
  { intros e He. rewrite (ot_info _ _ (oc_table _ _ Ho1)), Ep1, not_elem_of_app. destruct (Hl e) as [? ?]; [apply elem_of_app; by right|].
    split; [done|]. split; [|done]. intros Hel. by apply (Hdis e). }
  exists nl', bks', c'. split; [|split; [by etrans|]; split; [done|]].
  - change (rehash (length (l :: todo)) (Z.of_nat i) (2 ^ k) nl count c) with
      (let! p := read_slot (Bucket (Z.of_nat i)) c in
       let! '(new_list, count, c) := while (rehash_body (2 ^ k)) (p, nl, count, c) in
       rehash (length todo) (Z.of_nat i + 1) (2 ^ k) new_list count c).
    cbn [read_slot]. rewrite (proj2 (Z.leb_le _ _)) by lia. rewrite Nat2Z.id, Hip. cbn [of_option]. rewrite res_bind_ret.
    rewrite (runs_while _ _ _ _ Hr) by (unfold zlength in *; lia). rewrite res_bind_ret. replace (Z.of_nat i + 1) with (Z.of_nat (S i)) by lia.
    by rewrite E, Z.add_assoc.
  - rewrite Ep, Ep1. solve_Permutation.
Qed.

Lemma new_length_holds n : 0 <= n <= 2 ^ 31 -> exists k, 2 <= k <= 31 /\ while (new_length_body n) 4 = Ret (2 ^ k).
Proof.
  intros Hn. destruct (while_rel (new_length_body n) (fun m z => exists k, 2 <= k /\ k + Z.of_nat m = 31 /\ z = 2 ^ k)
    (fun z => exists k, 2 <= k <= 31 /\ z = 2 ^ k) 29 4) as (z & E & k & Hk & ->); [| |done|by exists k].
  - intros m z (k & Hk & Hkm & ->). unfold new_length_body. destruct (Z.ltb_spec (2 ^ k) n) as [Hlt|Hge].
    + right. destruct m as [|m]; [replace k with 31 in Hlt by lia; lia|]. exists m, (2 ^ (k + 1)). split; [done|]. split.
      * assert (2 ^ (k + 1) <= 2 ^ 31) as Hle by (apply Z.pow_le_mono_r; lia). pose proof (Z.pow_pos_nonneg 2 k ltac:(lia) ltac:(lia)).
        rewrite Z.pow_add_r in * by lia. change (2 ^ 1) with 2 in *. by rewrite wrap_small by lia.
      * exists (k + 1). lia.
    + left. eexists. split; [done|]. exists k. lia.
  - by exists 2.
Qed.

Lemma concat_replicate_nil n : concat (replicate n (@nil nat)) = [].
Proof. by induction n. Qed.

Lemma filling_empty c k : 0 <= k -> filling c k (replicate (Z.to_nat (2 ^ k)) None) (replicate (Z.to_nat (2 ^ k)) []).
Proof.
  intros Hk. pose proof (Z.pow_nonneg 2 k). split.
  - unfold chains. apply Forall2_same_length_lookup_2; [by rewrite !length_replicate|]. intros i p l Hp Hl.
    apply lookup_replicate in Hp as [-> _]. by apply lookup_replicate in Hl as [-> _].
  - unfold zlength. rewrite length_replicate. lia.
  - intros i l e Hl He. apply lookup_replicate in Hl as [-> _]. by apply not_elem_of_nil in He.
  - rewrite concat_replicate_nil. constructor.
Qed.

Lemma keys_unique_perm c c' l l' : only_table c c' -> (forall e, e ∈ l' -> e ∈ l) -> keys_unique c l -> keys_unique c' l'.
Proof. intros Ho Hl Hu e e' x x' He He'. rewrite !(ot_info _ _ Ho). apply Hu; by apply Hl. Qed.

Lemma set_table_only n m l c : only_table c (set_table n m l c).
Proof. split; [done|by intros []|done]. Qed.

Lemma Resize_holds c bks :
  chains (chain_of c) (list_ c) bks -> NoDup (concat bks) -> (forall e, e ∈ concat bks -> is_Some (info_of c e)) -> length_ c = zlength bks ->
  elems_ c = zlength (concat bks) -> zlength (concat bks) <= 2 ^ 31 -> keys_unique c (concat bks) ->
  exists c' bks', Resize c = Ret c' /\ only_table c c' /\ table_ok c' bks' /\ concat bks' ≡ₚ concat bks.
Proof.
  intros Hc Hnd Hl Hlen Hel Hsm Hu. pose proof (zlength_nonneg (concat bks)). unfold Resize.
  destruct (new_length_holds (elems_ c)) as (k & Hk & ->); [lia|]. rewrite res_bind_ret.
  destruct (rehash_holds k bks c 0 _ _ 0 ltac:(lia) Hc (filling_empty c k ltac:(lia))) as (nl & bks' & c' & E & Ho & [Hf1 Hf2 Hf3 Hf4] & Ep); try done || lia.
  { intros e He. split; [by apply Hl|]. rewrite concat_replicate_nil. apply not_elem_of_nil. }
  rewrite concat_replicate_nil, app_nil_r in Ep. replace (Z.to_nat (length_ c)) with (length bks) by (rewrite Hlen; unfold zlength; lia).
  change 0 with (Z.of_nat 0) at 1. rewrite E, res_bind_ret. rewrite (oc_elems _ _ Ho), Hel, Z.add_0_l, assert_true, res_bind_ret by apply Z.eqb_refl.
  eexists _, bks'. split; [done|]. pose proof (oc_table _ _ Ho) as Hot. assert (zlength (concat bks') = zlength (concat bks)) as Ez.
  { unfold zlength. by rewrite Ep. }
  assert (only_table c (set_table (2 ^ k) (zlength (concat bks)) nl c')) as Hot' by (etrans; [exact Hot|apply set_table_only]). split; [done|]. split; [|done].
  split; [split| | | |]; cbn [length_ elems_ list_ set_table]; try done.
  - intros i l e Hil He. rewrite Hf2. by eapply Hf3.
  - exists k. done.
  - apply (keys_unique_perm c _ (concat bks)); [done| |done]. intros e. by rewrite Ep.
  - lia.
Qed.

(** ** Removing and inserting *)
Lemma table_Remove_holds c bks key hash : table_ok c bks -> no_self c (concat bks) ->
  exists p c' bks', table_Remove key hash c = Ret (p, c') /\ only_table c c' /\ table_ok c' bks' /\ found c bks key hash p /\
    concat bks ≡ₚ match p with Some e => e :: concat bks' | None => concat bks' end.
Proof.
  intros Ht Hns. pose proof Ht as [Hb (k & Hk & Hpow) Hel Hu Hsm]. unfold table_Remove.
  destruct (FindPointer_holds c bks key hash Ht Hns) as (i & l1 & l2 & Hi & _ & -> & Er & Hf). rewrite res_bind_ret, Er, res_bind_ret.
  destruct l2 as [|e l2]; cbn [head] in *; [by exists None, c, bks|]. destruct Hf as [Hin Hm].
  destruct Hm as (x & Hx & Hm). destruct (handle_of_info c e x Hx) as (h & E & Eh & _). rewrite E, res_bind_ret.
  destruct (Forall2_lookup_r _ _ _ _ _ (bk_chains _ _ Hb) Hi) as (p & Hp & Hpc). apply chain_app in Hpc as (m & _ & -> & Hl2).
  destruct (concat_insert bks i _ Hi) as (rest & Ep & Hins).
  assert (concat bks ≡ₚ e :: concat (<[i := l1 ++ l2]> bks)) as Ep' by (rewrite Ep, Hins; solve_Permutation).
  assert (NoDup (e :: concat (<[i := l1 ++ l2]> bks))) as Hnd' by (rewrite <- Ep'; apply (bk_nodup _ _ Hb)). apply list.NoDup_cons in Hnd' as [_ Hnd'].
  destruct (write_slot_holds c bks i l1 (e :: l2) (next_hash h) l2 (bk_chains _ _ Hb) (bk_nodup _ _ Hb) Hi) as (c' & -> & Ho & El & Ee & Hc').
  { intros y Hy. split; [apply (bucket_live c bks); [done|]; apply (elem_of_bucket _ _ _ _ Hi); apply elem_of_app; by left|].
    intros Hy2. assert (NoDup (l1 ++ l2)) as Hn12 by (rewrite Hins in Hnd'; by apply list.NoDup_app in Hnd' as (? & _)).
    apply list.NoDup_app in Hn12 as (_ & Hn12 & _). by apply (Hn12 y). }
  { unfold chain_of in Hl2 at 2. by rewrite Eh in Hl2. }
  rewrite res_bind_ret. eexists _, _, (<[i := l1 ++ l2]> bks). split; [done|].
  assert (only_table c (set_table (length_ c') (u32 (elems_ c' - 1)) (list_ c') c')) as Ho' by (etrans; [exact Ho|apply set_table_only]). split; [done|].
  assert (zlength (concat bks) = 1 + zlength (concat (<[i := l1 ++ l2]> bks))) as Ez by (unfold zlength; rewrite Ep'; cbn [length]; lia).
  pose proof (zlength_nonneg (concat (<[i := l1 ++ l2]> bks))). split; [|split; [split; [done|by exists x]|done]].
  split; [split| | | |]; cbn [length_ elems_ list_ set_table]; try done.
  - intros j l y Hj Hy. unfold zlength. rewrite length_insert. apply (hash_at_same c); [done|].
    apply list_lookup_insert_Some in Hj as [(<- & <- & _)|[_ Hj]]; [|by apply (bk_hash _ _ Hb j l)].
    apply (bk_hash _ _ Hb _ _ y Hi). apply elem_of_app in Hy as [Hy|Hy]; apply elem_of_app; [by left|right; by right].
  - rewrite El, (bk_length _ _ Hb). unfold zlength. by rewrite length_insert.
  - exists k. unfold zlength in *. by rewrite length_insert.
  - rewrite Ee, Hel, Ez, wrap_small by lia. lia.
  - apply (keys_unique_perm c _ (concat bks)); [exact Ho'| |done]. intros y Hy. rewrite Ep'. by right.
  - lia.
Qed.

(** Everything but the number of elements, after an entry was put in its slot. *)
Lemma table_place c bks e x : table_ok c bks -> no_self c (concat bks) -> e ∉ concat bks -> info_of c e = Some x ->
  exists ptr old rest c1 c2 bks', FindPointer (i_key x) (i_hash x) c = Ret ptr /\ read_slot ptr c = Ret old /\ found c bks (i_key x) (i_hash x) old /\
    match old with Some o => let! ho := handle_at c o in Ret (next_hash ho) | None => Ret None end = Ret rest /\
    update (set_next_hash rest) e c = Ret c1 /\ write_slot ptr (Some e) c1 = Ret c2 /\ only_table c c2 /\
    length_ c2 = length_ c /\ elems_ c2 = elems_ c /\ buckets c2 bks' /\ zlength bks' = zlength bks /\ keys_unique c2 (concat bks') /\
    match old with
    | Some o => exists l, concat bks ≡ₚ o :: l /\ concat bks' ≡ₚ e :: l
    | None => concat bks' ≡ₚ e :: concat bks
    end.
Proof.
  intros Ht Hns Hne Hx. pose proof Ht as [Hb _ _ Hu _].
  destruct (FindPointer_holds c bks (i_key x) (i_hash x) Ht Hns) as (i & l1 & l2 & Hi & Hh & Ef & Er & Hf).
  destruct (Forall2_lookup_r _ _ _ _ _ (bk_chains _ _ Hb) Hi) as (p & Hp & Hpc). apply chain_app in Hpc as (m & _ & Hl2).
  destruct (concat_insert bks i _ Hi) as (others & Ep & Hins). pose proof (bk_nodup _ _ Hb) as Hnd.
  assert (exists rest, match head l2 with Some o => let! ho := handle_at c o in Ret (next_hash ho) | None => Ret None end = Ret rest /\
    chain (chain_of c) rest (tail l2) None) as (rest & Erest & Hrest).
  { destruct l2 as [|o l2]; [by exists None|]. destruct Hl2 as [-> Hl2]. destruct Hf as [_ (y & Hy & _)].
    destruct (handle_of_info c o y Hy) as (ho & Eo & Eo' & _). cbn [head tail]. rewrite Eo, res_bind_ret. eexists. split; [done|].
    unfold chain_of in Hl2 at 2. by rewrite Eo' in Hl2. }
  destruct (update_next_hash_of rest e c) as (c1 & E1 & Ho1 & Elist & Elen & Eel & Hch); [by exists x|].
  assert (forall y, y ∈ l1 ++ l2 -> y ∈ concat bks) as Hin12 by (intros y; by apply (elem_of_bucket bks i)).
  assert (NoDup (l1 ++ l2)) as Hn12 by (rewrite Ep in Hnd; by apply list.NoDup_app in Hnd as (? & _)).
  destruct (write_slot_holds c1 bks i l1 l2 (Some e) (e :: tail l2)) as (c2 & E2 & Ho2 & Elen2 & Eel2 & Hc2); try done.
  { rewrite Elist. eapply chains_frame; [|exact (bk_chains _ _ Hb)]. intros y Hy. rewrite Hch, decide_False; [done|by intros ->]. }
  { intros y Hy. rewrite (ot_info _ _ Ho1). split; [apply (bucket_live c bks); [done|]; apply Hin12, elem_of_app; by left|].
    apply not_elem_of_cons. split; [intros ->; apply Hne, Hin12, elem_of_app; by left|]. intros Hy2. apply list.NoDup_app in Hn12 as (_ & Hn12 & _).
    apply (Hn12 y Hy). destruct l2; [done|by right]. }
  { split; [done|]. rewrite Hch, decide_True by done. eapply chain_frame; [|exact Hrest]. intros y Hy. rewrite Hch, decide_False; [done|].
    intros ->. apply Hne, Hin12, elem_of_app. right. destruct l2; [done|by right]. }
  assert (only_table c c2) as Ho by by etrans. set (bks' := <[i := l1 ++ e :: tail l2]> bks) in *.
  assert (match head l2 with Some o => exists l, concat bks ≡ₚ o :: l /\ concat bks' ≡ₚ e :: l | None => concat bks' ≡ₚ e :: concat bks end) as Hperm.
  { destruct l2 as [|o l2]; cbn [head tail] in *.
    - unfold bks'. rewrite Hins, Ep. solve_Permutation.
    - exists ((l1 ++ l2) ++ others). unfold bks'. rewrite Hins, Ep. split; solve_Permutation. }
  assert (NoDup (concat bks') /\ forall y, y ∈ concat bks' -> y = e \/ y ∈ concat bks /\ head l2 <> Some y) as [Hnd' Hin'].
  { destruct (head l2) as [o|] eqn:Eo.
    - destruct Hperm as (l & Ep1 & Ep2). rewrite Ep1 in Hnd. apply list.NoDup_cons in Hnd as [Hol Hnd]. split.
      + rewrite Ep2. apply list.NoDup_cons. split; [|done]. intros He. apply Hne. rewrite Ep1. by right.
      + intros y. rewrite Ep2, Ep1. intros [->|Hy]%elem_of_cons; [by left|]. right. split; [by right|]. by intros [= ->].
    - split; [rewrite Hperm; by apply list.NoDup_cons|]. intros y. rewrite Hperm. intros [->|Hy]%elem_of_cons; [by left|by right]. }
  exists (slot_after i l1), (head l2), rest, c1, c2, bks'. do 7 (split; [done|]). split; [by rewrite Elen2|]. split; [by rewrite Eel2|].
  assert (zlength bks' = zlength bks) as Ez by (unfold bks', zlength; by rewrite length_insert). split; [|split; [done|split; [|done]]].
  - split; [done|done| |by rewrite Elen2, Elen, (bk_length _ _ Hb)]. intros j l y Hj Hy. rewrite Ez. apply (hash_at_same c); [done|].
    unfold bks' in Hj. apply list_lookup_insert_Some in Hj as [(<- & <- & _)|[_ Hj]]; [|by apply (bk_hash _ _ Hb j l)].
    apply elem_of_app in Hy as [Hy|[->|Hy]%elem_of_cons].
    + apply (bk_hash _ _ Hb _ _ y Hi), elem_of_app. by left.
    + by exists x.
    + apply (bk_hash _ _ Hb _ _ y Hi), elem_of_app. right. destruct l2; [done|by right].
  - assert (forall y z, y ∈ concat bks -> head l2 <> Some y -> info_of c y = Some z -> i_hash x = i_hash z -> i_key x = i_key z -> False) as Hdis.
    { intros y z Hy Hyo Hz Eh Ek. assert (matches c (i_key x) (i_hash x) y) as Hm by by exists z.
      destruct (head l2) as [o|]; cbn in Hf; [|by apply (Hf y)]. destruct Hf as [Hoin (w & Hw & Hwh & Hwk)].
      apply Hyo. f_equal. apply (Hu o y w z); try done; congruence. }
    intros y y' z z' Hy Hy'. rewrite !(ot_info _ _ Ho). intros Hz Hz' Eh Ek.
    destruct (Hin' y Hy) as [->|[Hy1 Hy2]], (Hin' y' Hy') as [->|[Hy1' Hy2']]; [done| | |by apply (Hu y y' z z')].
    + rewrite Hx in Hz. injection Hz as <-. by destruct (Hdis y' z').
    + rewrite Hx in Hz'. injection Hz' as <-. by destruct (Hdis y z).
Qed.

Lemma table_Insert_holds c bks e x : table_ok c bks -> no_self c (concat bks) -> e ∉ concat bks -> info_of c e = Some x ->
  next_of c (Entry e) <> Some (Entry e) -> zlength (concat bks) < 2 ^ 31 ->
  exists old c' bks', table_Insert e c = Ret (old, c') /\ only_table c c' /\ table_ok c' bks' /\ found c bks (i_key x) (i_hash x) old /\
    match old with
    | Some o => exists l, concat bks ≡ₚ o :: l /\ concat bks' ≡ₚ e :: l
    | None => concat bks' ≡ₚ e :: concat bks
    end.
Proof.
  intros Ht Hns Hne Hx Hself Hlt. destruct (handle_of_info c e x Hx) as (h & Eh & _ & Ei).
  destruct (table_place c bks e x Ht Hns Hne Hx) as (ptr & old & rest & c1 & c2 & bks' & Ef & Er & Hf & Erest & E1 & E2 & Ho & El & Ee & Hb & Ez & Hu & Hp).
  pose proof Ht as [_ (k & Hk & Hpow) Hel _ _]. unfold table_Insert. rewrite (handle_key_ok c e x Hx Hself), res_bind_ret, Eh, res_bind_ret.
  replace (handle_hash h) with (i_hash x) by by rewrite <- Ei. rewrite Ef, res_bind_ret, Er, res_bind_ret, Erest, res_bind_ret, E1, res_bind_ret, E2, res_bind_ret.
  destruct old as [o|].
  - destruct Hp as (l & Ep1 & Ep2). assert (zlength (concat bks') = zlength (concat bks)) as Ezl by (unfold zlength; by rewrite Ep1, Ep2).
    exists (Some o), c2, bks'. split; [done|]. split; [done|]. split; [|split; [done|by exists l]]. split; [done|exists k; by rewrite Ez|by rewrite Ee, Ezl|done|lia].
  - assert (zlength (concat bks') = 1 + zlength (concat bks)) as Ezl by (unfold zlength; rewrite Hp; cbn [length]; lia).
    pose proof (zlength_nonneg (concat bks)). set (c3 := set_table (length_ c2) (u32 (elems_ c2 + 1)) (list_ c2) c2).
    assert (only_table c c3) as Ho3 by (etrans; [exact Ho|apply set_table_only]).
    assert (elems_ c3 = zlength (concat bks')) as Eel by (unfold c3; cbn; rewrite Ee, Hel, Ezl, wrap_small by lia; lia).
    destruct Hb as [Hb1 Hb2 Hb3 Hb4]. destruct (length_ c3 <? elems_ c3).
    + destruct (Resize_holds c3 bks') as (c' & bks2 & -> & Ho' & Ht' & Ep'); try done.
      { intros y (j & l & Hl & Hy)%bucket_of. destruct (Hb3 j l y Hl Hy) as (z & Hz & _). exists z. exact Hz. }
      { lia. }
      rewrite res_bind_ret. exists None, c', bks2. split; [done|]. split; [by etrans|]. split; [done|]. split; [done|]. by rewrite Ep'.
    + rewrite res_bind_ret. exists None, c3, bks'. split; [done|]. split; [done|]. split; [|by split]. split; [by split|exists k; by rewrite Ez|done|done|lia].
Qed.
End table.

(** ** LevelDB's LRU cache: what it promises *)

Section spec.
Context {V : Type}.

Record Item : Type := MkItem {
  item_key : bytes;
  item_hash : Z;
  item_value : V;
  item_charge : Z;
  item_cached : bool;
  item_held : Z;
}.

Record State : Type := MkState {
  st_capacity : Z;
  st_items : gmap nat Item;
  st_lru : list nat;
  st_next : nat;
  st_deleted : list (bytes * V);
}.
Implicit Types (i : Item) (s : State) (e : nat).

Definition empty_state (capacity : Z) : State := MkState capacity ∅ [] 0 [].

Definition set_item (e : nat) i s : State := MkState (st_capacity s) (<[e := i]> (st_items s)) (st_lru s) (st_next s) (st_deleted s).
Definition set_lru (l : list nat) s : State := MkState (st_capacity s) (st_items s) l (st_next s) (st_deleted s).
Definition delete_item (e : nat) i s : State :=
  MkState (st_capacity s) (delete e (st_items s)) (st_lru s) (st_next s) (st_deleted s ++ [(item_key i, item_value i)]).

Definition held (n : Z) i : Item := MkItem (item_key i) (item_hash i) (item_value i) (item_charge i) (item_cached i) n.
Definition uncached i : Item := MkItem (item_key i) (item_hash i) (item_value i) (item_charge i) false (item_held i).

(** The charge of what is cached, as the code counts it. *)
Definition cached_charge i : Z := if item_cached i then item_charge i else 0.
Definition st_total s : Z := map_fold (fun _ i n => cached_charge i + n) 0 (st_items s).
Definition st_usage s : Z := u64 (st_total s).

Definition is_match (key : bytes) (hash : Z) (p : nat * Item) : Prop := item_cached p.2 = true /\ item_hash p.2 = hash /\ item_key p.2 = key.
#[export] Instance is_match_dec key hash p : Decision (is_match key hash p).
Proof. unfold is_match. apply _. Defined.

(** The cached entry for a key. *)
Definition st_find (key : bytes) (hash : Z) s : option nat := fst <$> head (filter (is_match key hash) (map_to_list (st_items s))).

Definition without (e : nat) (l : list nat) : list nat := filter (fun x => x <> e) l.

(** ** Operations *)
Definition st_ref e s : State :=
  match st_items s !! e with
  | Some i => set_lru (without e (st_lru s)) (set_item e (held (item_held i + 1) i) s)
  | None => s
  end.

Definition st_lookup (key : bytes) (hash : Z) s : option nat * State :=
  match st_find key hash s with Some e => (Some e, st_ref e s) | None => (None, s) end.

Definition st_release e s : State :=
  match st_items s !! e with
  | Some i =>
      if item_held i =? 1 then
        if item_cached i then set_lru (st_lru s ++ [e]) (set_item e (held 0 i) s) else delete_item e i s
      else set_item e (held (item_held i - 1) i) s
  | None => s
  end.

(** An entry leaves the cache. *)
Definition st_uncache e s : State :=
  match st_items s !! e with
  | Some i =>
      let s := set_lru (without e (st_lru s)) s in
      if item_held i =? 0 then delete_item e i s else set_item e (uncached i) s
  | None => s
  end.

(** The oldest entries without handles leave until the rest fits. *)
Fixpoint st_evict (l : list nat) s : State :=
  match l with
  | [] => s
  | e :: l => if st_capacity s <? st_usage s then st_evict l (st_uncache e s) else s
  end.

Definition st_add (key : bytes) (hash : Z) (value : V) (charge : Z) s : State :=
  MkState (st_capacity s) (<[st_next s := MkItem key hash value charge (0 <? st_capacity s) 1]> (st_items s)) (st_lru s)
    (S (st_next s)) (st_deleted s).

Definition st_erase (key : bytes) (hash : Z) s : State :=
  match st_find key hash s with Some e => st_uncache e s | None => s end.

Definition st_insert (key : bytes) (hash : Z) (value : V) (charge : Z) s : nat * State :=
  let old := if 0 <? st_capacity s then st_find key hash s else None in
  let s' := st_add key hash value charge s in
  let s' := match old with Some o => st_uncache o s' | None => s' end in
  (st_next s, st_evict (st_lru s') s').

Definition st_prune s : State := foldl (fun s e => st_uncache e s) s (st_lru s).

(** ** Well-formed states *)
Record base_ok s : Prop := {
  so_held : forall e i, st_items s !! e = Some i -> 0 <= item_held i /\ (item_cached i = false -> 0 < item_held i);
  so_lru : forall e, e ∈ st_lru s <-> exists i, st_items s !! e = Some i /\ item_cached i = true /\ item_held i = 0;
  so_nodup : NoDup (st_lru s);
  so_next : forall e i, st_items s !! e = Some i -> (e < st_next s)%nat;
}.

Definition unique_ok s : Prop := forall e e' i i', st_items s !! e = Some i -> st_items s !! e' = Some i' ->
  item_cached i = true -> item_cached i' = true -> item_hash i = item_hash i' -> item_key i = item_key i' -> e = e'.

Record state_ok s : Prop := { so_base : base_ok s; so_unique : unique_ok s }.

Lemma empty_state_ok capacity : state_ok (empty_state capacity).
Proof.
  split; [split|]; cbn.
  - intros e i. by rewrite lookup_empty.
  - intros e. split; [by intros ?%not_elem_of_nil|]. intros (i & Hi & _). by rewrite lookup_empty in Hi.
  - constructor.
  - intros e i. by rewrite lookup_empty.
  - intros e e' i i'. cbn. by rewrite lookup_empty.
Qed.

Lemma elem_of_without e x l : x ∈ without e l <-> x <> e /\ x ∈ l.
Proof. unfold without. by rewrite list_elem_of_filter. Qed.

Lemma without_nodup e l : NoDup l -> NoDup (without e l).
Proof. intros Hl. by apply list.NoDup_filter. Qed.

Lemma without_split e l1 l2 : NoDup (l1 ++ e :: l2) -> without e (l1 ++ e :: l2) = l1 ++ l2.
Proof.
  intros Hnd. unfold without. rewrite list.filter_app, filter_cons_False by (intros Hf; by apply Hf).
  apply list.NoDup_app in Hnd as (_ & Hd1 & Hd2). apply list.NoDup_cons in Hd2 as [Hd2 _].
  assert (forall l : list nat, e ∉ l -> filter (fun x => x <> e) l = l) as Hf.
  { induction l as [|x l IH]; intros Hx; [done|]. apply not_elem_of_cons in Hx as [Hx Hl]. rewrite filter_cons_True by done. by rewrite IH. }
  rewrite !Hf; [done|done|]. intros Hin. apply (Hd1 e Hin). left.
Qed.

Lemma without_notin e l : e ∉ l -> without e l = l.
Proof.
  induction l as [|x l IH]; intros Hx; [done|]. apply not_elem_of_cons in Hx as [Hx Hl]. unfold without in *. rewrite filter_cons_True by done. by rewrite IH.
Qed.

(** ** The search *)
Lemma st_find_spec key hash s : 
  match st_find key hash s with
  | Some e => exists i, st_items s !! e = Some i /\ is_match key hash (e, i)
  | None => forall e i, st_items s !! e = Some i -> ~ is_match key hash (e, i)
  end.
Proof.
  unfold st_find. destruct (filter _ _) as [|[e i] l] eqn:E; cbn.
  - intros e i Hi Hm. assert ((e, i) ∈ filter (is_match key hash) (map_to_list (st_items s))) as Hin.
    { apply list_elem_of_filter. split; [done|]. by apply elem_of_map_to_list. }
    rewrite E in Hin. by apply not_elem_of_nil in Hin.
  - assert ((e, i) ∈ filter (is_match key hash) (map_to_list (st_items s))) as Hin by (rewrite E; left).
    apply list_elem_of_filter in Hin as [Hm Hin]. apply elem_of_map_to_list in Hin. by exists i.
Qed.

Lemma st_find_unique key hash s e i : state_ok s -> st_items s !! e = Some i -> is_match key hash (e, i) -> st_find key hash s = Some e.
Proof.
  intros Hs Hi (Hc & Hh & Hk). pose proof (st_find_spec key hash s) as Hf. destruct (st_find key hash s) as [e'|].
  - destruct Hf as (i' & Hi' & Hc' & Hh' & Hk'). f_equal. cbn in *. apply (so_unique s Hs e' e i' i); try done; congruence.
  - destruct (Hf e i Hi). done.
Qed.

(** ** Well-formed states stay so *)
Definition cached_in s e : Prop := exists i, st_items s !! e = Some i /\ item_cached i = true.
Definition held_in s e : Prop := exists i, st_items s !! e = Some i /\ 0 < item_held i.

Lemma lookup_item (s : State) e i y : <[e := i]> (st_items s) !! y = if decide (y = e) then Some i else st_items s !! y.
Proof. destruct (decide (y = e)) as [->|]; [by rewrite lookup_insert_eq|by rewrite lookup_insert_ne]. Qed.

Lemma lookup_deleted (s : State) e y : delete e (st_items s) !! y = if decide (y = e) then None else st_items s !! y.
Proof. destruct (decide (y = e)) as [->|]; [by rewrite lookup_delete_eq|by rewrite lookup_delete_ne]. Qed.

(** The parts of a state after an operation on [e]. *)
Record affects e (oi : option Item) (l : list nat) s s' : Prop := {
  af_item : forall y, st_items s' !! y = if decide (y = e) then oi else st_items s !! y;
  af_lru : st_lru s' = l;
  af_capacity : st_capacity s' = st_capacity s;
  af_next : st_next s' = st_next s;
}.

Lemma set_item_affects e i l s : affects e (Some i) l s (set_lru l (set_item e i s)).
Proof. split; [intros y; apply lookup_item|done..]. Qed.

Lemma delete_item_affects e i l s : affects e None l s (delete_item e i (set_lru l s)).
Proof. split; [intros y; apply (lookup_deleted s)|done..]. Qed.

Lemma set_lru_same s : set_lru (st_lru s) s = s.
Proof. by destruct s. Qed.

Lemma affects_base e oi l s s' : affects e oi l s s' -> base_ok s -> is_Some (st_items s !! e) ->
  match oi with Some i => 0 <= item_held i /\ (item_cached i = false -> 0 < item_held i) | None => True end ->
  NoDup l -> (forall y, y ∈ l <-> if decide (y = e) then exists i, oi = Some i /\ item_cached i = true /\ item_held i = 0 else y ∈ st_lru s) -> base_ok s'.
Proof.
  intros [Hi Hl _ Hn] Hs [i0 Hi0] Ho Hnd Hin. split.
  - intros y i. rewrite Hi. destruct (decide (y = e)) as [->|]; [intros ->; exact Ho|apply (so_held s Hs)].
  - intros y. rewrite Hl, Hin, Hi. destruct (decide (y = e)); [done|apply (so_lru s Hs)].
  - by rewrite Hl.
  - intros y i. rewrite Hi, Hn. destruct (decide (y = e)) as [->|]; [intros _; by apply (so_next s Hs e i0)|apply (so_next s Hs)].
Qed.

Lemma affects_unique e oi l s s' : affects e oi l s s' -> unique_ok s ->
  (forall i, oi = Some i -> item_cached i = true -> exists i', st_items s !! e = Some i' /\ item_cached i' = true /\ item_hash i' = item_hash i /\ item_key i' = item_key i) ->
  unique_ok s'.
Proof.
  intros [Hi _ _ _] Hu Ho. assert (forall y i, st_items s' !! y = Some i -> item_cached i = true ->
    exists i', st_items s !! y = Some i' /\ item_cached i' = true /\ item_hash i' = item_hash i /\ item_key i' = item_key i) as Hback.
  { intros y i. rewrite Hi. destruct (decide (y = e)) as [->|]; [intros ->; by apply Ho|]. intros Hy Hc. by exists i. }
  intros y y' i i' Hy Hy' Hc Hc' Hh Hk. destruct (Hback y i Hy Hc) as (j & ? & ? & ? & ?), (Hback y' i' Hy' Hc') as (j' & ? & ? & ? & ?).
  apply (Hu y y' j j'); try done; congruence.
Qed.

Lemma st_ref_affects s e i : st_items s !! e = Some i -> affects e (Some (held (item_held i + 1) i)) (without e (st_lru s)) s (st_ref e s).
Proof. intros Hi. unfold st_ref. rewrite Hi. apply set_item_affects. Qed.

Lemma st_ref_ok s e : state_ok s -> cached_in s e -> state_ok (st_ref e s).
Proof.
  intros [Hb Hu] (i & Hi & Hc). pose proof (st_ref_affects s e i Hi) as Ha. destruct (so_held s Hb e i Hi) as [Hh _]. split.
  - eapply affects_base; [exact Ha|done|by exists i| |apply without_nodup, (so_nodup s Hb)|].
    + cbn. split; [lia|]. by rewrite Hc.
    + intros y. rewrite elem_of_without. destruct (decide (y = e)) as [->|]; [|tauto]. split; [by intros [? _]|].
      intros (j & [= <-] & _ & Hj). cbn in Hj. lia.
  - eapply affects_unique; [exact Ha|done|]. intros j [= <-] _. by exists i.
Qed.

(** What [st_release] leaves. *)
Definition released i : option Item :=
  if item_held i =? 1 then if item_cached i then Some (held 0 i) else None else Some (held (item_held i - 1) i).
Definition released_lru e i (l : list nat) : list nat := if (item_held i =? 1) && item_cached i then l ++ [e] else l.

Lemma st_release_affects s e i : st_items s !! e = Some i -> affects e (released i) (released_lru e i (st_lru s)) s (st_release e s).
Proof.
  intros Hi. unfold st_release, released, released_lru. rewrite Hi. destruct (item_held i =? 1); [destruct (item_cached i)|]; cbn [andb].
  - apply set_item_affects.
  - rewrite <- (set_lru_same s) at 3. apply delete_item_affects.
  - rewrite <- (set_lru_same s) at 3. apply (set_item_affects e _ (st_lru s) s).
Qed.

Lemma st_release_ok s e : state_ok s -> held_in s e -> state_ok (st_release e s).
Proof.
  intros [Hb Hu] (i & Hi & Hh). pose proof (st_release_affects s e i Hi) as Ha.
  assert (e ∉ st_lru s) as Hnl. { intros (j & Hj & _ & Hz)%(so_lru s Hb). rewrite Hi in Hj. injection Hj as <-. lia. } split.
  - eapply affects_base; [exact Ha|done|by exists i| | |].
    + unfold released. destruct (Z.eqb_spec (item_held i) 1); [destruct (item_cached i) eqn:E; [|done]|]; cbn; [rewrite E|]; split; try done; lia.
    + unfold released_lru. destruct (_ && _); [|apply (so_nodup s Hb)]. apply list.NoDup_app. split; [apply (so_nodup s Hb)|].
      split; [|apply NoDup_singleton]. intros y Hy ->%list_elem_of_singleton. done.
    + intros y. unfold released, released_lru. destruct (Z.eqb_spec (item_held i) 1); [destruct (item_cached i) eqn:E|]; cbn [andb].
      * rewrite elem_of_app, list_elem_of_singleton. destruct (decide (y = e)) as [->|]; [|tauto]. split; [|tauto]. intros _. by exists (held 0 i).
      * destruct (decide (y = e)) as [->|]; [|tauto]. split; [done|]. by intros (j & ? & _).
      * destruct (decide (y = e)) as [->|]; [|tauto]. split; [done|]. intros (j & [= <-] & _ & Hj). cbn in Hj. lia.
  - eapply affects_unique; [exact Ha|done|]. unfold released. intros j Ej Hc. exists i.
    destruct (item_held i =? 1); [destruct (item_cached i) eqn:E; [|done]|]; injection Ej as <-; done.
Qed.

Definition left_cache i : option Item := if item_held i =? 0 then None else Some (uncached i).

Lemma st_uncache_affects s e i : st_items s !! e = Some i -> affects e (left_cache i) (without e (st_lru s)) s (st_uncache e s).
Proof.
  intros Hi. unfold st_uncache, left_cache. rewrite Hi. destruct (item_held i =? 0); [apply delete_item_affects|].
  apply (set_item_affects e (uncached i) (without e (st_lru s)) s).
Qed.

Lemma st_uncache_base s e : base_ok s -> cached_in s e -> base_ok (st_uncache e s).
Proof.
  intros Hb (i & Hi & Hc). pose proof (st_uncache_affects s e i Hi) as Ha. destruct (so_held s Hb e i Hi) as [Hh _].
  eapply affects_base; [exact Ha|done|by exists i| |apply without_nodup, (so_nodup s Hb)|].
  - unfold left_cache. destruct (Z.eqb_spec (item_held i) 0); [done|]. cbn. split; [done|lia].
  - intros y. rewrite elem_of_without. destruct (decide (y = e)) as [->|]; [|tauto]. split; [by intros [? _]|].
    intros (j & Ej & Hcj & _). unfold left_cache in Ej. destruct (item_held i =? 0); [done|]. by injection Ej as <-.
Qed.

Lemma st_uncache_ok s e : state_ok s -> cached_in s e -> state_ok (st_uncache e s).
Proof.
  intros [Hb Hu] Hc. split; [by apply st_uncache_base|]. pose proof Hc as (i & Hi & _). eapply affects_unique; [exact (st_uncache_affects s e i Hi)|done|].
  unfold left_cache. intros j Ej Hcj. destruct (item_held i =? 0); [done|]. by injection Ej as <-.
Qed.

Lemma st_uncache_lru s e l : base_ok s -> st_lru s = e :: l -> st_lru (st_uncache e s) = l /\ cached_in s e.
Proof.
  intros Hb El. assert (e ∈ st_lru s) as (i & Hi & Hc & _)%(so_lru s Hb) by (rewrite El; left). split; [|by exists i].
  rewrite (af_lru _ _ _ _ _ (st_uncache_affects s e i Hi)), El. pose proof (so_nodup s Hb) as Hnd. rewrite El in Hnd. by apply (without_split e [] l).
Qed.

(** ** Charges *)
Definition total_of (m : gmap nat Item) : Z := map_fold (fun _ i n => cached_charge i + n) 0 m.

Lemma total_delete m e i : m !! e = Some i -> total_of m = cached_charge i + total_of (delete e m).
Proof. intros Hi. unfold total_of. apply (map_fold_delete_L (fun _ i n => cached_charge i + n)); [intros; lia|done]. Qed.

Lemma total_insert_new m e i : m !! e = None -> total_of (<[e := i]> m) = cached_charge i + total_of m.
Proof. intros Hi. unfold total_of. apply (map_fold_insert_L (fun _ i n => cached_charge i + n)); [intros; lia|done]. Qed.

Lemma total_insert m e i i' : m !! e = Some i -> total_of (<[e := i']> m) = total_of m - cached_charge i + cached_charge i'.
Proof. intros Hi. rewrite <- insert_delete_eq, total_insert_new, (total_delete m e i Hi) by apply lookup_delete_eq. lia. Qed.

Lemma total_ref s e i : st_items s !! e = Some i -> st_total (st_ref e s) = st_total s.
Proof. intros Hi. unfold st_ref. rewrite Hi. change (total_of (<[e := held (item_held i + 1) i]> (st_items s)) = total_of (st_items s)). rewrite (total_insert _ e i _ Hi). unfold cached_charge. cbn [item_cached item_charge held]. lia. Qed.

Lemma total_release s e i : st_items s !! e = Some i -> st_total (st_release e s) = st_total s.
Proof.
  intros Hi. unfold st_release. rewrite Hi. destruct (item_held i =? 1); [destruct (item_cached i) eqn:Ec|].
  - change (total_of (<[e := held 0 i]> (st_items s)) = total_of (st_items s)). rewrite (total_insert _ e i _ Hi). unfold cached_charge. cbn [item_cached item_charge held]. lia.
  - change (total_of (delete e (st_items s)) = total_of (st_items s)). rewrite (total_delete _ e i Hi). unfold cached_charge. by rewrite Ec.
  - change (total_of (<[e := held (item_held i - 1) i]> (st_items s)) = total_of (st_items s)). rewrite (total_insert _ e i _ Hi). unfold cached_charge. cbn [item_cached item_charge held]. lia.
Qed.

Lemma total_uncache s e i : st_items s !! e = Some i -> item_cached i = true -> st_total (st_uncache e s) = st_total s - item_charge i.
Proof.
  intros Hi Hc. unfold st_uncache. rewrite Hi. destruct (item_held i =? 0).
  - change (total_of (delete e (st_items s)) = total_of (st_items s) - item_charge i). rewrite (total_delete _ e i Hi). unfold cached_charge. rewrite Hc. lia.
  - change (total_of (<[e := uncached i]> (st_items s)) = total_of (st_items s) - item_charge i). rewrite (total_insert _ e i _ Hi). unfold cached_charge. cbn [item_cached item_charge uncached]. rewrite Hc. lia.
Qed.

Lemma total_add s key hash value charge : base_ok s ->
  st_total (st_add key hash value charge s) = st_total s + (if 0 <? st_capacity s then charge else 0).
Proof.
  intros Hb. change (total_of (<[st_next s := MkItem key hash value charge (0 <? st_capacity s) 1]> (st_items s)) = total_of (st_items s) + (if 0 <? st_capacity s then charge else 0)).
  rewrite total_insert_new; [unfold cached_charge; cbn [item_cached item_charge]; lia|]. destruct (st_items s !! st_next s) as [i|] eqn:E; [|done].
  apply (so_next s Hb) in E. lia.
Qed.

(** ** Eviction and insertion *)
Lemma st_evict_ind (P : State -> Prop) l s : state_ok s -> st_lru s = l -> P s ->
  (forall e l s, state_ok s -> st_lru s = e :: l -> P s -> P (st_uncache e s)) -> state_ok (st_evict l s) /\ P (st_evict l s).
Proof.
  intros Hs Hl Hp Hstep. revert s Hs Hl Hp. induction l as [|e l IH]; intros s Hs Hl Hp; [done|]. cbn. destruct (_ <? _); [|done].
  destruct (st_uncache_lru s e l (so_base s Hs) Hl) as [Hl' Hc]. apply IH; [by apply st_uncache_ok|done|by eapply Hstep].
Qed.

Lemma st_evict_ok l s : state_ok s -> st_lru s = l -> state_ok (st_evict l s).
Proof. intros Hs Hl. by apply (st_evict_ind (fun _ => True) l s). Qed.

Lemma st_prune_ok s : state_ok s -> state_ok (st_prune s) /\ st_lru (st_prune s) = [].
Proof.
  intros Hs. unfold st_prune. remember (st_lru s) as l eqn:El. symmetry in El. revert s Hs El. induction l as [|e l IH]; intros s Hs El; [done|]. cbn [foldl].
  destruct (st_uncache_lru s e l (so_base s Hs) El) as [Hl' Hc]. apply IH; [by apply st_uncache_ok|done].
Qed.

Lemma st_add_item key hash value charge s y :
  st_items (st_add key hash value charge s) !! y = if decide (y = st_next s) then Some (MkItem key hash value charge (0 <? st_capacity s) 1) else st_items s !! y.
Proof. apply (lookup_item s). Qed.

Lemma st_next_fresh s : base_ok s -> st_items s !! st_next s = None.
Proof. intros Hb. destruct (st_items s !! st_next s) as [i|] eqn:E; [|done]. apply (so_next s Hb) in E. lia. Qed.

Lemma st_add_base key hash value charge s : base_ok s -> base_ok (st_add key hash value charge s).
Proof.
  intros Hb. pose proof (st_next_fresh s Hb) as Hf. split.
  - intros e i. rewrite st_add_item. destruct (decide (e = st_next s)) as [->|]; [intros [= <-]; by cbn|apply (so_held s Hb)].
  - intros e. rewrite st_add_item. cbn. rewrite (so_lru s Hb e). destruct (decide (e = st_next s)) as [->|]; [|done]. rewrite Hf. split; [by intros (? & ? & _)|].
    by intros (i & [= <-] & _ & ?).
  - apply (so_nodup s Hb).
  - intros e i. rewrite st_add_item. cbn. destruct (decide (e = st_next s)) as [->|]; [lia|]. intros Hi. apply (so_next s Hb) in Hi. lia.
Qed.

(** Where an insertion replaces what it finds. *)
Definition st_replace (key : bytes) (hash : Z) s s' : State :=
  match (if 0 <? st_capacity s then st_find key hash s else None) with Some o => st_uncache o s' | None => s' end.

Lemma st_replace_ok key hash value charge s : state_ok s -> state_ok (st_replace key hash s (st_add key hash value charge s)).
Proof.
  intros Hs. pose proof (st_add_base key hash value charge s (so_base s Hs)) as Hb. pose proof (st_next_fresh s (so_base s Hs)) as Hf.
  pose proof (st_find_spec key hash s) as Hspec. unfold st_replace. set (s1 := st_add key hash value charge s) in *.
  assert (forall s', base_ok s' -> (forall e i, st_items s' !! e = Some i -> item_cached i = true ->
    (exists i', st_items s !! e = Some i' /\ item_cached i' = true /\ item_hash i' = item_hash i /\ item_key i' = item_key i /\ (0 < st_capacity s -> ~ is_match key hash (e, i'))) \/
    0 < st_capacity s /\ e = st_next s /\ item_hash i = hash /\ item_key i = key) -> state_ok s') as Hok.
  { intros s' Hb' Hback. split; [done|]. intros e e' i i' Hi Hi' Hc Hc' Eh Ek.
    destruct (Hback e i Hi Hc) as [(j & Hj & Hjc & Ejh & Ejk & Hjm)|(Hcap & -> & Eih & Eik)],
      (Hback e' i' Hi' Hc') as [(j' & Hj' & Hjc' & Ejh' & Ejk' & Hjm')|(Hcap' & -> & Eih' & Eik')].
    - apply (so_unique s Hs e e' j j'); try done; congruence.
    - exfalso. apply Hjm; [done|]. split; [done|]. cbn. split; congruence.
    - exfalso. apply Hjm'; [done|]. split; [done|]. cbn. split; congruence.
    - done. }
  assert (forall e i, st_items s1 !! e = Some i -> item_cached i = true -> st_items s !! e = Some i \/ 0 < st_capacity s /\ e = st_next s /\ item_hash i = hash /\ item_key i = key) as Hadd.
  { intros e i. unfold s1. rewrite st_add_item. destruct (decide (e = st_next s)) as [->|]; [|by left]. intros [= <-] Hc. right. cbn in *. apply Z.ltb_lt in Hc. done. }
  destruct (Z.ltb_spec 0 (st_capacity s)) as [Hcap|Hcap]; [destruct (st_find key hash s) as [o|] eqn:Efind|].
  - destruct Hspec as (io & Hio & Hm). assert (st_items s1 !! o = Some io) as Hio1.
    { unfold s1. rewrite st_add_item, decide_False; [done|]. intros ->. by rewrite Hf in Hio. }
    pose proof (st_uncache_affects s1 o io Hio1) as Ha. apply Hok.
    + apply st_uncache_base; [done|]. exists io. split; [done|apply Hm].
    + intros e i. rewrite (af_item _ _ _ _ _ Ha). destruct (decide (e = o)) as [->|Hne].
      { unfold left_cache. destruct (item_held io =? 0); [done|]. by intros [= <-]. }
      intros Hi Hc. destruct (Hadd e i Hi Hc) as [Hi'|]; [left|by right]. exists i. do 4 (split; [done|]). intros _ Hm'.
      apply Hne. pose proof (st_find_unique key hash s e i Hs Hi' Hm') as E. congruence.
  - apply Hok; [done|]. intros e i Hi Hc. destruct (Hadd e i Hi Hc) as [Hi'|]; [left|by right]. exists i. do 4 (split; [done|]). intros _. by apply Hspec.
  - apply Hok; [done|]. intros e i Hi Hc. destruct (Hadd e i Hi Hc) as [Hi'|[? _]]; [left|lia]. exists i. do 4 (split; [done|]). lia.
Qed.

Lemma st_insert_eq key hash value charge s :
  st_insert key hash value charge s = (st_next s, let s' := st_replace key hash s (st_add key hash value charge s) in st_evict (st_lru s') s').
Proof. done. Qed.

Lemma st_insert_ok key hash value charge s : state_ok s -> state_ok (st_insert key hash value charge s).2.
Proof. intros Hs. rewrite st_insert_eq. cbn zeta. cbn [snd]. by apply st_evict_ok; [apply st_replace_ok|]. Qed.
End spec.
Arguments Item : clear implicits.
Arguments State : clear implicits.
