(* ===== verification/CacheFacts.v ===== *)
(** * LevelDB's LRU cache, proved

    The cache refines its specification: no operation touches an entry that was
    freed, the assertions hold, and what is found, evicted and passed to a
    deleter is what the specification says. *)
From S2P Require Import Prelude LdbBase Iterator Cache CacheSpec.

(** ** Both lists *)
Section lists.
Context {V : Type}.
Implicit Types (c : LRUCache V) (ls : addr -> list nat) (e : nat).

(** [ls hd] are the entries of the list with head [hd]. *)
Record lists c ls : Prop := {
  li_dlist : forall hd, is_head hd -> dlist c hd (ls hd) /\ NoDup (ls hd);
  li_disjoint : forall hd hd' e, is_head hd -> is_head hd' -> e ∈ ls hd -> e ∈ ls hd' -> hd = hd';
  li_self : forall e, next_of c (Entry e) <> Some (Entry e);
}.

Definition put (hd : addr) (l : list nat) ls : addr -> list nat := fun h => if decide (h = hd) then l else ls h.

Lemma lists_ext c ls ls' : (forall hd, is_head hd -> ls' hd = ls hd) -> lists c ls -> lists c ls'.
Proof.
  intros He [Hd Hdis Hs]. split; [|intros hd hd' e Hh Hh'; rewrite !He by done; by apply Hdis|done]. intros hd Hh. rewrite He by done. by apply Hd.
Qed.

Lemma lists_frame c c' ls : (forall a, next_of c' a = next_of c a /\ prev_of c' a = prev_of c a) -> lists c ls -> lists c' ls.
Proof.
  intros Hf [Hd Hdis Hs]. split; [|done|intros e; by destruct (Hf (Entry e)) as [-> _]]. intros hd Hh. destruct (Hd hd Hh) as [Hl Hn].
  split; [|done]. eapply dlist_frame; [|exact Hl]. intros a _. apply Hf.
Qed.

(** A list has changed, and nothing outside of it. *)
Lemma lists_put c c' ls hd l :
  lists c ls -> is_head hd -> dlist c' hd l -> NoDup l -> (forall hd' e, is_head hd' -> hd' <> hd -> e ∈ l -> e ∉ ls hd') ->
  (forall a, a ∉ hd :: (Entry <$> l) -> next_of c' a = next_of c a /\ prev_of c' a = prev_of c a) -> lists c' (put hd l ls).
Proof.
  intros [Hd Hdis Hs] Hh Hl Hnd Hout Hf. unfold put. split.
  - intros hd' Hh'. destruct (decide (hd' = hd)) as [->|Hne]; [done|]. destruct (Hd hd' Hh') as [Hl' Hn']. split; [|done].
    eapply dlist_frame; [|exact Hl']. intros a Ha. apply Hf. intros [->|(x & -> & Hx)%list_elem_of_fmap]%elem_of_cons.
    + apply elem_of_cons in Ha as [Ha|(x & -> & _)%list_elem_of_fmap]; [by apply Hne|by apply (Hh x)].
    + apply elem_of_cons in Ha as [Ha|(y & [= <-] & Hy)%list_elem_of_fmap]; [by apply (Hh' x)|]. by apply (Hout hd' x).
  - intros h1 h2 e Hh1 Hh2. destruct (decide (h1 = hd)) as [->|], (decide (h2 = hd)) as [->|]; try done.
    + intros He He'. by destruct (Hout h2 e).
    + intros He He'. by destruct (Hout h1 e).
    + by apply Hdis.
  - intros e. destruct (decide (e ∈ l)) as [He|He]; [by apply (dlist_no_self c' hd l)|].
    destruct (Hf (Entry e)) as [-> _]; [|done]. intros [Ee|(x & [= <-] & Hx)%list_elem_of_fmap]%elem_of_cons; [by apply (Hh e)|done].
Qed.

Lemma lists_remove c ls hd e : lists c ls -> is_head hd -> e ∈ ls hd ->
  exists c', LRU_Remove e c = Ret c' /\ only_links c c' /\ lists c' (put hd (without e (ls hd)) ls).
Proof.
  intros Hls Hh He. destruct (li_dlist _ _ Hls hd Hh) as [Hd Hn]. apply list_elem_of_split in He as (l1 & l2 & El). rewrite El in Hd, Hn.
  destruct (LRU_Remove_holds c hd l1 e l2 Hh Hn Hd) as (c' & E & Ho & Hd' & Hf). exists c'. split; [done|]. split; [done|].
  rewrite El, without_split by done. apply (lists_put c); try done.
  - apply list.NoDup_app in Hn as (Hn1 & Hn2 & Hn3). apply list.NoDup_cons in Hn3 as [_ Hn3]. apply list.NoDup_app. split; [done|]. split; [|done].
    intros x Hx Hx'. apply (Hn2 x); [done|by right].
  - intros hd' x Hh' Hne Hx Hx'. apply Hne. apply (li_disjoint _ _ Hls hd' hd x Hh' Hh Hx'). rewrite El. apply elem_of_app in Hx as [Hx|Hx]; apply elem_of_app; [by left|right; by right].
Qed.

Lemma lists_append c ls hd e : lists c ls -> is_head hd -> (forall hd', is_head hd' -> e ∉ ls hd') -> is_Some (handles c !! e) ->
  exists c', LRU_Append hd e c = Ret c' /\ only_links c c' /\ lists c' (put hd (ls hd ++ [e]) ls).
Proof.
  intros Hls Hh He Hlive. destruct (li_dlist _ _ Hls hd Hh) as [Hd Hn].
  assert (NoDup (ls hd ++ [e])) as Hn'.
  { apply list.NoDup_app. split; [done|]. split; [|apply NoDup_singleton]. intros x Hx ->%list_elem_of_singleton. by apply (He hd). }
  destruct (LRU_Append_holds c hd (ls hd) e Hh Hn' Hd Hlive) as (c' & E & Ho & Hd' & Hf). exists c'. split; [done|]. split; [done|].
  apply (lists_put c); try done. intros hd' x Hh' Hne [Hx| ->%list_elem_of_singleton]%elem_of_app; [|by apply He].
  intros Hx'. apply Hne. by apply (li_disjoint _ _ Hls hd' hd x).
Qed.

Lemma only_links_live c c' e : only_links c c' -> is_Some (handles c !! e) -> is_Some (handles c' !! e).
Proof.
  intros Ho. pose proof (ol_info _ _ Ho e) as Hi. unfold info_of in Hi. intros [h Eh]. rewrite Eh in Hi.
  destruct (handles c' !! e); [by eexists|done].
Qed.

(** From one list to another. *)
Lemma lists_move c ls hd hd' e : lists c ls -> is_head hd -> is_head hd' -> hd <> hd' -> e ∈ ls hd -> is_Some (handles c !! e) ->
  exists c', (let! c := LRU_Remove e c in LRU_Append hd' e c) = Ret c' /\ only_links c c' /\
    lists c' (put hd' (ls hd' ++ [e]) (put hd (without e (ls hd)) ls)).
Proof.
  intros Hls Hh Hh' Hne He Hlive. destruct (lists_remove c ls hd e Hls Hh He) as (c1 & -> & Ho1 & Hl1). rewrite res_bind_ret.
  destruct (lists_append c1 _ hd' e Hl1 Hh') as (c' & -> & Ho & Hl).
  - intros h Hhh. unfold put. destruct (decide (h = hd)) as [->|Hnh]; [by rewrite elem_of_without; intros [? _]|].
    intros He'. apply Hnh. by apply (li_disjoint _ _ Hls h hd e).
  - by eapply only_links_live.
  - exists c'. split; [done|]. split; [by etrans|]. replace (ls hd') with (put hd (without e (ls hd)) ls hd'); [done|].
    unfold put. by rewrite decide_False.
Qed.

(** ** Fields *)
Record only_info e (f : Info (V := V) -> Info (V := V)) c c' : Prop := {
  of_scalars : same_scalars c c';
  of_table : same_table c c';
  of_link : forall a, link_of c' a = link_of c a;
  of_info : forall y, info_of c' y = if decide (y = e) then f <$> info_of c e else info_of c y;
}.

Lemma update_info_of g f e c : is_Some (handles c !! e) ->
  (forall h, info (g h) = f (info h) /\ links (g h) = links h /\ next_hash (g h) = next_hash h) ->
  exists c', update g e c = Ret c' /\ only_info e f c c'.
Proof.
  intros [h Eh] Hg. unfold update, handle_at. rewrite Eh. cbn [of_option]. rewrite res_bind_ret. eexists. split; [done|].
  destruct (Hg h) as (Hi & Hl & Hn). split; [done|split; try done| |].
  - intros y. unfold chain_of. cbn [handles set_handles]. destruct (decide (y = e)) as [->|]; [rewrite lookup_insert_eq, Eh; exact Hn|by rewrite lookup_insert_ne].
  - intros [| |y]; [done..|]. cbn. destruct (decide (y = e)) as [->|]; [rewrite lookup_insert_eq, Eh; cbn; by rewrite Hl|by rewrite lookup_insert_ne].
  - intros y. unfold info_of. cbn [handles set_handles]. destruct (decide (y = e)) as [->|]; [rewrite lookup_insert_eq, Eh; cbn; by rewrite Hi|by rewrite lookup_insert_ne].
Qed.

(** The table only reads hashes and keys. *)
Lemma table_ok_frame c c' bks : table_ok c bks -> length_ c' = length_ c -> elems_ c' = elems_ c -> list_ c' = list_ c ->
  (forall e, e ∈ concat bks -> chain_of c' e = chain_of c e) ->
  (forall e x, e ∈ concat bks -> info_of c e = Some x -> exists x', info_of c' e = Some x' /\ i_hash x' = i_hash x /\ i_key x' = i_key x) -> table_ok c' bks.
Proof.
  intros [[Hc Hnd Hh Hlen] Hp Hel Hu Hs] El Ee Ell Hch Hi.
  assert (forall e x', e ∈ concat bks -> info_of c' e = Some x' -> exists x, info_of c e = Some x /\ i_hash x' = i_hash x /\ i_key x' = i_key x) as Hback.
  { intros e x' He Hx'. pose proof He as (i & l & Hl & Hel')%bucket_of. destruct (Hh i l e Hl Hel') as (x & Hx & _). exists x. split; [done|].
    destruct (Hi e x He Hx) as (y & Hy & ? & ?). rewrite Hx' in Hy. by injection Hy as ->. }
  split; [split| | | |]; try done.
  - rewrite Ell. eapply chains_frame; [exact Hch|done].
  - intros i l e Hl He. destruct (Hh i l e Hl He) as (x & Hx & Hxh). destruct (Hi e x) as (x' & Hx' & Eh & _); [by apply (elem_of_bucket bks i l)|done|].
    exists x'. by rewrite Eh.
  - by rewrite El.
  - by rewrite Ee.
  - intros e e' x x' He He' Hx Hx' Eh Ek. destruct (Hback e x He Hx) as (y & Hy & ? & ?), (Hback e' x' He' Hx') as (y' & Hy' & ? & ?).
    apply (Hu e e' y y'); try done; congruence.
Qed.

Lemma links_frame c c' : (forall a, link_of c' a = link_of c a) -> forall a, next_of c' a = next_of c a /\ prev_of c' a = prev_of c a.
Proof. intros Hl a. unfold next_of, prev_of. by rewrite Hl. Qed.
End lists.

(** ** The representation *)
Section rep.
Context {V : Type}.
Implicit Types (c : LRUCache V) (s : State V) (i : Item V) (e : nat) (iu : list nat).

Definition item_info i : Info :=
  MkInfo (item_value i) (item_charge i) (item_key i) (item_cached i) (item_held i + Z.b2z (item_cached i)) (item_hash i).

Definition lists_of s iu (hd : addr) : list nat := match hd with LruHead => st_lru s | InUseHead => iu | Entry _ => [] end.

Definition in_use_of s iu : Prop := forall e, e ∈ iu <-> exists i, st_items s !! e = Some i /\ item_cached i = true /\ 0 < item_held i.

(** Everything but the table; [iu] is the list of the entries in use. *)
Record rep c s iu : Prop := {
  rp_capacity : capacity_ c = st_capacity s;
  rp_usage : usage_ c = st_usage s;
  rp_allocated : allocated c = st_next s;
  rp_deleted : deleted c = st_deleted s;
  rp_info : forall e, info_of c e = item_info <$> st_items s !! e;
  rp_lists : lists c (lists_of s iu);
  rp_in_use : in_use_of s iu;
}.

Record kept c c' : Prop := {
  kp_length : length_ c' = length_ c;
  kp_elems : elems_ c' = elems_ c;
  kp_list : list_ c' = list_ c;
  kp_chain : forall e, is_Some (info_of c' e) -> chain_of c' e = chain_of c e;
  kp_live : forall e, is_Some (info_of c' e) -> is_Some (info_of c e);
}.

#[export] Instance kept_preorder : PreOrder kept.
Proof.
  split; [by intros c|]. intros c1 c2 c3 [? ? ? H12 L12] [? ? ? H23 L23]. split; try (etrans; eassumption); [|auto].
  intros e He. rewrite H23 by done. by apply H12, L23.
Qed.

Definition table_rep c s : Prop := exists bks, table_ok c bks /\ forall e, e ∈ concat bks <-> cached_in s e.
Definition cache_rep c s : Prop := exists iu, rep c s iu /\ table_rep c s.

Lemma only_links_kept c c' : only_links c c' -> kept c c'.
Proof. intros [_ [] Hi]. split; try done. intros e. by rewrite Hi. Qed.

Lemma only_info_kept e f c c' : only_info e f c c' -> kept c c'.
Proof.
  intros [_ [] _ Hi]. split; try done. intros y. rewrite Hi. destruct (decide (y = e)) as [->|]; [|done]. by rewrite fmap_is_Some.
Qed.

Lemma rep_affects c c' s s' e oi l iu iu' : affects e oi l s s' -> rep c s iu -> capacity_ c' = capacity_ c -> allocated c' = allocated c ->
  usage_ c' = st_usage s' -> deleted c' = st_deleted s' ->
  (forall y, info_of c' y = if decide (y = e) then item_info <$> oi else info_of c y) -> lists c' (lists_of s' iu') -> in_use_of s' iu' -> rep c' s' iu'.
Proof.
  intros [Hit _ Hca Hne] Hr Ec Ea Eu Ed Hi Hl Hin. split; try done.
  - by rewrite Ec, Hca, (rp_capacity _ _ _ Hr).
  - by rewrite Ea, Hne, (rp_allocated _ _ _ Hr).
  - intros y. rewrite Hi, Hit, (rp_info _ _ _ Hr). by destruct (decide (y = e)).
Qed.

Lemma is_head_lru : is_head LruHead. Proof. done. Qed.
Lemma is_head_in_use : is_head InUseHead. Proof. done. Qed.

Lemma item_live c s iu e i : rep c s iu -> st_items s !! e = Some i -> exists h, handle_at c e = Ret h /\ handles c !! e = Some h /\ info h = item_info i.
Proof. intros Hr Hi. apply handle_of_info. by rewrite (rp_info _ _ _ Hr), Hi. Qed.

Lemma live_info c e : is_Some (handles c !! e) <-> is_Some (info_of c e).
Proof. unfold info_of. by rewrite fmap_is_Some. Qed.

Lemma in_use_affects e oi l s s' iu iu' : affects e oi l s s' -> in_use_of s iu ->
  (forall y, y ∈ iu' <-> if decide (y = e) then exists i, oi = Some i /\ item_cached i = true /\ 0 < item_held i else y ∈ iu) -> in_use_of s' iu'.
Proof. intros Ha Hu Hy y. rewrite Hy, (af_item _ _ _ _ _ Ha). destruct (decide (y = e)); [done|apply Hu]. Qed.

(** Nothing was charged or deleted. *)
Lemma rep_step c c' s s' e oi l iu ls : affects e oi l s s' -> rep c s iu -> same_scalars c c' -> st_total s' = st_total s -> st_deleted s' = st_deleted s ->
  (forall y, info_of c' y = if decide (y = e) then item_info <$> oi else info_of c y) -> lists c' ls -> ls LruHead = l -> in_use_of s' (ls InUseHead) ->
  rep c' s' (ls InUseHead).
Proof.
  intros Ha Hr [Ec Eu Eal Ed] Et Edel Hi Hl Ell Hin. eapply rep_affects; try done.
  - rewrite Eu, (rp_usage _ _ _ Hr). unfold st_usage. by rewrite Et.
  - by rewrite Ed, (rp_deleted _ _ _ Hr).
  - eapply lists_ext; [|exact Hl]. intros [| |e0] Hx; [|done|by destruct (Hx e0)]. cbn. by rewrite (af_lru _ _ _ _ _ Ha).
Qed.

Definition in_use_item (oi : option (Item V)) : Prop := exists i, oi = Some i /\ item_cached i = true /\ 0 < item_held i.

Lemma in_use_add e oi l s s' iu : affects e oi l s s' -> in_use_of s iu -> in_use_item oi -> in_use_of s' (iu ++ [e]).
Proof.
  intros Ha Hu Ho. eapply in_use_affects; [done..|]. intros y. rewrite elem_of_app, list_elem_of_singleton. destruct (decide (y = e)); tauto.
Qed.

Lemma in_use_remove e oi l s s' iu : affects e oi l s s' -> in_use_of s iu -> ~ in_use_item oi -> in_use_of s' (without e iu).
Proof.
  intros Ha Hu Ho. eapply in_use_affects; [done..|]. intros y. rewrite elem_of_without. destruct (decide (y = e)); tauto.
Qed.

Lemma in_use_keep e oi l s s' iu : affects e oi l s s' -> in_use_of s iu -> (in_use_item (st_items s !! e) <-> in_use_item oi) -> in_use_of s' iu.
Proof.
  intros Ha Hu Ho. eapply in_use_affects; [done..|]. intros y. destruct (decide (y = e)) as [->|]; [|done]. etrans; [apply Hu|exact Ho].
Qed.

(** The list of an entry in the cache. *)
Definition home i : addr := if item_held i =? 0 then LruHead else InUseHead.

Lemma home_head i : is_head (home i).
Proof. unfold home. by destruct (_ =? _). Qed.

Lemma home_in s iu e i : base_ok s -> in_use_of s iu -> st_items s !! e = Some i -> item_cached i = true -> e ∈ lists_of s iu (home i).
Proof.
  intros Hb Hu Hi Hc. destruct (so_held s Hb e i Hi) as [Hh _]. unfold home. destruct (Z.eqb_spec (item_held i) 0); cbn.
  - apply (so_lru s Hb). by exists i.
  - apply Hu. exists i. split; [done|]. split; [done|lia].
Qed.

Lemma not_in_lru s e i : base_ok s -> st_items s !! e = Some i -> item_held i <> 0 -> e ∉ st_lru s.
Proof. intros Hb Hi Hn (j & Hj & _ & Hz)%(so_lru s Hb). by rewrite Hi in Hj; injection Hj as <-. Qed.

Lemma not_in_use s iu e i : in_use_of s iu -> st_items s !! e = Some i -> item_held i = 0 -> e ∉ iu.
Proof. intros Hu Hi Hn (j & Hj & _ & Hz)%Hu. rewrite Hi in Hj. injection Hj as <-. lia. Qed.

Lemma lru_nodup_iu c s iu : rep c s iu -> NoDup iu.
Proof. intros Hr. apply (li_dlist _ _ (rp_lists _ _ _ Hr) InUseHead is_head_in_use). Qed.

(** ** Ref *)
Lemma Ref_holds c s iu e i : rep c s iu -> base_ok s -> st_items s !! e = Some i -> item_cached i = true -> item_held i < 2 ^ 32 - 2 ->
  exists c' iu', Ref e c = Ret c' /\ rep c' (st_ref e s) iu' /\ kept c c'.
Proof.
  intros Hr Hb Hi Hc Hlt. pose proof (st_ref_affects s e i Hi) as Ha. destruct (so_held s Hb e i Hi) as [Hh _].
  destruct (item_live c s iu e i Hr Hi) as (h & Eh & Eh' & Ei). unfold Ref. rewrite Eh, res_bind_ret.
  assert (refs h = item_held i + 1 /\ in_cache h = true) as [-> ->].
  { split; [change (refs h) with (i_refs (info h))|change (in_cache h) with (i_in_cache (info h))]; rewrite Ei; cbn; by rewrite Hc. }
  rewrite andb_true_r. set (i' := held (item_held i + 1) i) in *.
  assert (in_use_item (Some i')) as Hu' by (exists i'; split; [done|]; split; [done|cbn; lia]).
  assert (exists c1 ls, (if item_held i + 1 =? 1 then let! c := LRU_Remove e c in LRU_Append InUseHead e c else Ret c) = Ret c1 /\ only_links c c1 /\
    lists c1 ls /\ ls LruHead = without e (st_lru s) /\ in_use_of (st_ref e s) (ls InUseHead)) as (c1 & ls & -> & Ho1 & Hl1 & Ell & Hu1).
  { destruct (Z.eqb_spec (item_held i + 1) 1) as [Ez|Ez].
    - assert (e ∈ lists_of s iu LruHead) as Hin by (apply (so_lru s Hb); exists i; split; [done|]; split; [done|lia]).
      destruct (lists_move c _ LruHead InUseHead e (rp_lists _ _ _ Hr) is_head_lru is_head_in_use) as (c1 & E & Ho & Hl); [done|done|by exists h|].
      eexists c1, _. do 4 (split; [done|]). eapply in_use_add; [exact Ha|apply (rp_in_use _ _ _ Hr)|done].
    - exists c, (lists_of s iu). do 2 (split; [done|]). split; [apply (rp_lists _ _ _ Hr)|].
      split; [symmetry; apply without_notin, (not_in_lru s e i); try done; lia|]. eapply in_use_keep; [exact Ha|apply (rp_in_use _ _ _ Hr)|].
      split; [done|]. intros _. exists i. split; [done|]. split; [done|lia]. }
  rewrite res_bind_ret.
  destruct (update_info_of (fun h => set_refs (u32 (refs h + 1)) h) (fun x => MkInfo (i_value x) (i_charge x) (i_key x) (i_in_cache x) (u32 (i_refs x + 1)) (i_hash x)) e c1)
    as (c' & -> & Hoi); [eapply only_links_live; [exact Ho1|by exists h]|done|]. exists c', (ls InUseHead). split; [done|].
  pose proof Ho1 as [Hs1 _ Hi1]. pose proof Hoi as [Hs' _ Hl' Hi']. split; [|etrans; [by apply only_links_kept|by eapply only_info_kept]].
  eapply rep_step; [exact Ha|exact Hr|by etrans|by eapply total_ref|unfold st_ref; by rewrite Hi| |eapply lists_frame; [by apply links_frame|done]|done|done].
  intros y. rewrite Hi', !Hi1. destruct (decide (y = e)) as [->|]; [|done]. rewrite (rp_info _ _ _ Hr), Hi. cbn. unfold item_info. cbn. rewrite Hc.
  rewrite wrap_small by (cbn; lia). done.
Qed.

(** ** Unref *)

(** Freeing an entry that is in no list. *)
Lemma deallocate_holds c e h ls : handle_at c e = Ret h -> lists c ls -> (forall hd, is_head hd -> e ∉ ls hd) ->
  exists c', deallocate e c = Ret c' /\ capacity_ c' = capacity_ c /\ usage_ c' = usage_ c /\ allocated c' = allocated c /\
    deleted c' = deleted c ++ [(key_data h, handle_value h)] /\ kept c c' /\ lists c' ls /\
    forall y, info_of c' y = if decide (y = e) then None else info_of c y.
Proof.
  intros Eh Hls He. assert (handles c !! e = Some h) as Eh' by (unfold handle_at in Eh; destruct (handles c !! e); [by injection Eh as ->|done]).
  unfold deallocate. rewrite Eh, res_bind_ret, (handle_key_ok c e (info h)), res_bind_ret; [|unfold info_of; by rewrite Eh'|apply (li_self _ _ Hls)].
  eexists. split; [done|]. do 4 (split; [done|]). set (c' := MkLRUCache _ _ _ _ _ _ _ _ _ _).
  assert (forall y, handles c' !! y = if decide (y = e) then None else handles c !! y) as Hy.
  { intros y. unfold c'. cbn. destruct (decide (y = e)) as [->|]; [by rewrite lookup_delete_eq|by rewrite lookup_delete_ne]. }
  assert (forall y, info_of c' y = if decide (y = e) then None else info_of c y) as Hi by (intros y; unfold info_of; rewrite Hy; by destruct (decide (y = e))).
  split; [|split; [|done]].
  - split; try done.
    + intros y [x Hx]. unfold info_of in Hx. unfold chain_of. rewrite Hy in *. by destruct (decide (y = e)).
    + intros y. rewrite Hi. by destruct (decide (y = e)) as [->|]; [intros [? ?]|].
  - assert (forall a, a <> Entry e -> next_of c' a = next_of c a /\ prev_of c' a = prev_of c a) as Hf.
    { intros [| |y] Hne; [done..|]. unfold next_of, prev_of, link_of. rewrite Hy, decide_False by congruence. done. }
    destruct Hls as [Hd Hdis Hs]. split; [|done|].
    + intros hd Hh. destruct (Hd hd Hh) as [Hl Hn]. split; [|done]. eapply dlist_frame; [|exact Hl]. intros a Ha. apply Hf. intros ->.
      apply elem_of_cons in Ha as [Ha|(y & [= <-] & Hin)%list_elem_of_fmap]; [by apply (Hh e)|by apply (He hd)].
    + intros y. destruct (decide (y = e)) as [->|]; [unfold next_of, link_of; by rewrite Hy, decide_True|].
      destruct (Hf (Entry y)) as [-> _]; [congruence|done].
Qed.

(** The count goes down. *)
Lemma unref_count c e x : info_of c e = Some x -> 0 < i_refs x < 2 ^ 32 ->
  exists c' h, (let! h := handle_at c e in
             let! _ := assert_ (0 <? refs h) in
             update (fun h => set_refs (u32 (refs h - 1)) h) e c) = Ret c' /\
    only_info e (fun x => MkInfo (i_value x) (i_charge x) (i_key x) (i_in_cache x) (u32 (i_refs x - 1)) (i_hash x)) c c' /\
    handle_at c' e = Ret h /\ info h = MkInfo (i_value x) (i_charge x) (i_key x) (i_in_cache x) (i_refs x - 1) (i_hash x).
Proof.
  intros Hx Hr. destruct (handle_of_info c e x Hx) as (h & Eh & Eh' & <-). rewrite Eh, res_bind_ret, assert_true, res_bind_ret by (apply Z.ltb_lt; apply Hr).
  destruct (update_info_of (fun h => set_refs (u32 (refs h - 1)) h) (fun x => MkInfo (i_value x) (i_charge x) (i_key x) (i_in_cache x) (u32 (i_refs x - 1)) (i_hash x)) e c)
    as (c' & E & Ho); [by exists h|done|]. pose proof (of_info _ _ _ _ Ho e) as Hi. rewrite decide_True, Hx in Hi by done. cbn in Hi.
  rewrite wrap_small in Hi by (cbn in Hr; lia). destruct (handle_of_info c' e _ Hi) as (h' & E' & _ & Ei'). by exists c', h'.
Qed.

Lemma Unref_count c e c1 h :
  (let! h := handle_at c e in let! _ := assert_ (0 <? refs h) in update (fun h => set_refs (u32 (refs h - 1)) h) e c) = Ret c1 -> handle_at c1 e = Ret h ->
  Unref e c = if refs h =? 0 then let! _ := assert_ (negb (in_cache h)) in deallocate e c1
              else if in_cache h && (refs h =? 1) then let! c := LRU_Remove e c1 in LRU_Append LruHead e c else Ret c1.
Proof.
  intros E E'. unfold Unref. destruct (handle_at c e) as [h0| |]; try done. rewrite res_bind_ret in *. destruct (assert_ _); try done.
  rewrite res_bind_ret in *. by rewrite E, res_bind_ret, E', res_bind_ret.
Qed.

Lemma release_deleted s e i : st_items s !! e = Some i -> item_cached i = true \/ item_held i <> 1 -> st_deleted (st_release e s) = st_deleted s.
Proof.
  intros Hi Hor. unfold st_release. rewrite Hi. destruct (Z.eqb_spec (item_held i) 1); [|done]. by destruct Hor as [->|].
Qed.

Lemma released_info i n : n = item_held i - 1 ->
  MkInfo (item_value i) (item_charge i) (item_key i) (item_cached i) (item_held i + Z.b2z (item_cached i) - 1) (item_hash i) = item_info (held n i).
Proof. intros ->. unfold item_info. cbn. f_equal. lia. Qed.

(** A client gives up a handle: of a cached entry, and of one that is not. *)
Lemma release_cached c c1 s iu e i : rep c s iu -> base_ok s -> st_items s !! e = Some i -> item_cached i = true -> 0 < item_held i ->
  same_scalars c c1 -> lists c1 (lists_of s iu) -> (forall y, info_of c1 y = if decide (y = e) then Some (item_info (held (item_held i - 1) i)) else info_of c y) ->
  exists c' iu', (if item_held i =? 1 then let! c := LRU_Remove e c1 in LRU_Append LruHead e c else Ret c1) = Ret c' /\ rep c' (st_release e s) iu' /\ kept c1 c'.
Proof.
  intros Hr Hb Hi Hc Hpos Hs1 Hls Hi1. pose proof (st_release_affects s e i Hi) as Ha. unfold released, released_lru in Ha. rewrite Hc in Ha.
  destruct (Z.eqb_spec (item_held i) 1) as [E1|E1]; cbn [andb] in Ha.
  - assert (e ∈ iu) as Hin by (apply (rp_in_use _ _ _ Hr); exists i; split; [done|]; split; [done|lia]).
    destruct (lists_move c1 _ InUseHead LruHead e Hls is_head_in_use is_head_lru) as (c' & E' & Ho' & Hl'); [done|done|apply live_info; rewrite Hi1, decide_True by done; by eexists|].
    eexists c', _. split; [exact E'|]. split; [|by apply only_links_kept].
    eapply rep_step; [exact Ha|exact Hr|etrans; [exact Hs1|apply Ho']|by eapply total_release|eapply release_deleted; [done|by left]| |exact Hl'|done|].
    + intros y. rewrite (ol_info _ _ Ho'), Hi1. destruct (decide (y = e)); [|done]. by replace (item_held i - 1) with 0 by lia.
    + eapply in_use_remove; [exact Ha|apply (rp_in_use _ _ _ Hr)|]. by intros (j & [= <-] & _ & Hj).
  - exists c1, iu. split; [done|]. split; [|done].
    eapply (rep_step c c1 s _ e _ _ iu (lists_of s iu)); [exact Ha|exact Hr|done|by eapply total_release|eapply release_deleted; [done|by left]|done|done|done|].
    eapply in_use_keep; [exact Ha|apply (rp_in_use _ _ _ Hr)|]. rewrite Hi. split; intros _; (eexists; split; [done|]; split; [done|cbn; lia]).
Qed.

Lemma release_uncached c c1 s iu e i h : rep c s iu -> base_ok s -> st_items s !! e = Some i -> item_cached i = false -> 0 < item_held i ->
  same_scalars c c1 -> lists c1 (lists_of s iu) -> (forall y, info_of c1 y = if decide (y = e) then Some (item_info (held (item_held i - 1) i)) else info_of c y) ->
  handle_at c1 e = Ret h -> info h = item_info (held (item_held i - 1) i) ->
  exists c', (if item_held i =? 1 then deallocate e c1 else Ret c1) = Ret c' /\ rep c' (st_release e s) iu /\ kept c1 c'.
Proof.
  intros Hr Hb Hi Hc Hpos Hs1 Hls Hi1 Eh Ei. pose proof (st_release_affects s e i Hi) as Ha. unfold released, released_lru in Ha.
  rewrite Hc, andb_false_r in Ha. assert (~ in_use_item (st_items s !! e)) as Hnu by (rewrite Hi; intros (j & [= <-] & ? & _); congruence).
  destruct (Z.eqb_spec (item_held i) 1) as [E1|E1].
  - destruct (deallocate_holds c1 e h _ Eh Hls) as (c' & -> & E1' & E2' & E3' & E4' & Hk' & Hl' & Hi').
    { intros [| |] Hx; [|intros Hin|apply not_elem_of_nil]; [apply (not_in_lru s e i); try done; lia|]. apply (rp_in_use _ _ _ Hr) in Hin. apply Hnu, Hin. }
    exists c'. split; [done|]. split; [|done]. eapply rep_affects; [exact Ha|exact Hr|..].
    + by rewrite E1', (ss_capacity _ _ Hs1).
    + by rewrite E3', (ss_allocated _ _ Hs1).
    + rewrite E2', (ss_usage _ _ Hs1), (rp_usage _ _ _ Hr). unfold st_usage. by rewrite (total_release s e i Hi).
    + rewrite E4', (ss_deleted _ _ Hs1), (rp_deleted _ _ _ Hr). unfold st_release. rewrite Hi, Hc, (proj2 (Z.eqb_eq _ _)) by done.
      pose proof (f_equal i_key Ei) as Ek. pose proof (f_equal i_value Ei) as Ev. cbn in Ek, Ev. by rewrite Ek, Ev.
    + intros y. rewrite Hi', Hi1. by destruct (decide (y = e)).
    + eapply lists_ext; [|exact Hl']. intros [| |e0] Hx; [|done|by destruct (Hx e0)]. cbn. by rewrite (af_lru _ _ _ _ _ Ha).
    + eapply in_use_keep; [exact Ha|apply (rp_in_use _ _ _ Hr)|]. split; [done|by intros (j & ? & _)].
  - exists c1. split; [done|]. split; [|done].
    eapply (rep_step c c1 s _ e _ _ iu (lists_of s iu)); [exact Ha|exact Hr|done|by eapply total_release|eapply release_deleted; [done|by right]|done|done|done|].
    eapply in_use_keep; [exact Ha|apply (rp_in_use _ _ _ Hr)|]. split; [done|]. intros (j & [= <-] & ? & _). cbn in *. congruence.
Qed.

Lemma Release_holds c s iu e i : rep c s iu -> base_ok s -> st_items s !! e = Some i -> 0 < item_held i < 2 ^ 32 - 1 ->
  exists c' iu', Unref e c = Ret c' /\ rep c' (st_release e s) iu' /\ kept c c'.
Proof.
  intros Hr Hb Hi Hpos. destruct (unref_count c e (item_info i)) as (c1 & h & E & Ho & Eh & Ei);
    [by rewrite (rp_info _ _ _ Hr), Hi|cbn; destruct (item_cached i); cbn; lia|].
  rewrite (Unref_count c e c1 h E Eh). pose proof Ho as [Hs1 _ Hl1 Hi1]. cbn in Ei. rewrite (released_info i (item_held i - 1) eq_refl) in Ei.
  assert (lists c1 (lists_of s iu)) as Hls by (eapply lists_frame; [by apply links_frame|apply (rp_lists _ _ _ Hr)]).
  assert (forall y, info_of c1 y = if decide (y = e) then Some (item_info (held (item_held i - 1) i)) else info_of c y) as Hinfo.
  { intros y. rewrite Hi1. destruct (decide (y = e)) as [->|]; [|done]. rewrite (rp_info _ _ _ Hr), Hi. cbn. f_equal.
    rewrite wrap_small by (destruct (item_cached i); cbn; lia). by apply released_info. }
  assert (refs h = item_held i - 1 + Z.b2z (item_cached i) /\ in_cache h = item_cached i) as [-> ->].
  { split; [change (refs h) with (i_refs (info h))|change (in_cache h) with (i_in_cache (info h))]; by rewrite Ei. }
  destruct (item_cached i) eqn:Ec; cbn [Z.b2z andb negb].
  - rewrite (proj2 (Z.eqb_neq _ 0)) by lia. replace (item_held i - 1 + 1) with (item_held i) by lia.
    destruct (release_cached c c1 s iu e i) as (c' & iu' & E' & Hr' & Hk); try done; [lia|].
    exists c', iu'. split; [exact E'|]. split; [done|]. etrans; [by eapply only_info_kept|done].
  - replace (item_held i - 1 + 0 =? 0) with (item_held i =? 1) by (destruct (Z.eqb_spec (item_held i) 1), (Z.eqb_spec (item_held i - 1 + 0) 0); done || lia).
    rewrite assert_true, res_bind_ret by done.
    destruct (release_uncached c c1 s iu e i h) as (c' & E' & Hr' & Hk); try done; [lia|].
    exists c', iu. split; [exact E'|]. split; [done|]. etrans; [by eapply only_info_kept|done].
Qed.

(** ** FinishErase *)
Lemma uncache_deleted s e i : st_items s !! e = Some i ->
  st_deleted (st_uncache e s) = st_deleted s ++ (if item_held i =? 0 then [(item_key i, item_value i)] else []).
Proof. intros Hi. unfold st_uncache. rewrite Hi. destruct (item_held i =? 0); [done|by rewrite app_nil_r]. Qed.

(** The part before [Unref]: the entry is in no list, and not charged for. *)
Lemma erase_unlink c s iu e i : rep c s iu -> base_ok s -> st_items s !! e = Some i -> item_cached i = true ->
  exists c1 ls, (let! h := handle_at c e in
                 let! _ := assert_ (in_cache h) in
                 let! c := LRU_Remove e c in
                 let! c := update (set_in_cache false) e c in
                 let! h := handle_at c e in
                 Ret (set_usage (u64 (usage_ c - charge h)) c)) = Ret c1 /\
    capacity_ c1 = st_capacity s /\ usage_ c1 = st_usage (st_uncache e s) /\ allocated c1 = st_next s /\ deleted c1 = st_deleted s /\ kept c c1 /\
    (forall y, info_of c1 y = if decide (y = e) then Some (MkInfo (item_value i) (item_charge i) (item_key i) false (item_held i + 1) (item_hash i)) else info_of c y) /\
    lists c1 ls /\ ls LruHead = without e (st_lru s) /\ in_use_of (st_uncache e s) (ls InUseHead) /\ (forall hd, is_head hd -> e ∉ ls hd).
Proof.
  intros Hr Hb Hi Hc. pose proof (st_uncache_affects s e i Hi) as Ha. destruct (so_held s Hb e i Hi) as [Hh _].
  destruct (item_live c s iu e i Hr Hi) as (h & Eh & Eh' & Ei). rewrite Eh, res_bind_ret.
  replace (in_cache h) with true by (change (in_cache h) with (i_in_cache (info h)); by rewrite Ei). cbn [assert_]. rewrite res_bind_ret.
  destruct (lists_remove c _ (home i) e (rp_lists _ _ _ Hr) (home_head i) (home_in s iu e i Hb (rp_in_use _ _ _ Hr) Hi Hc)) as (c1 & -> & Ho1 & Hl1). rewrite res_bind_ret.
  destruct (update_info_of (set_in_cache false) (fun x => MkInfo (i_value x) (i_charge x) (i_key x) false (i_refs x) (i_hash x)) e c1) as (c2 & -> & Ho2);
    [eapply only_links_live; [exact Ho1|by exists h]|done|]. rewrite res_bind_ret. pose proof Ho1 as [Hs1 _ Hi1]. pose proof Ho2 as [Hs2 _ Hl2 Hi2].
  assert (forall y, info_of c2 y = if decide (y = e) then Some (MkInfo (item_value i) (item_charge i) (item_key i) false (item_held i + 1) (item_hash i)) else info_of c y) as Hinfo.
  { intros y. rewrite Hi2, !Hi1. destruct (decide (y = e)) as [->|]; [|done]. rewrite (rp_info _ _ _ Hr), Hi. cbn. by rewrite Hc. }
  pose proof (Hinfo e) as He2. rewrite decide_True in He2 by done. destruct (handle_of_info c2 e _ He2) as (h2 & Eh2 & _ & Ei2). rewrite Eh2, res_bind_ret.
  eexists _, _. split; [done|]. cbn [capacity_ usage_ allocated deleted set_usage].
  split; [by rewrite (ss_capacity _ _ Hs2), (ss_capacity _ _ Hs1), (rp_capacity _ _ _ Hr)|]. split.
  { rewrite (ss_usage _ _ Hs2), (ss_usage _ _ Hs1), (rp_usage _ _ _ Hr). unfold st_usage. rewrite (total_uncache s e i Hi Hc).
    replace (charge h2) with (item_charge i) by (by apply (f_equal i_charge) in Ei2). apply Zminus_mod_idemp_l. }
  split; [by rewrite (ss_allocated _ _ Hs2), (ss_allocated _ _ Hs1), (rp_allocated _ _ _ Hr)|].
  split; [by rewrite (ss_deleted _ _ Hs2), (ss_deleted _ _ Hs1), (rp_deleted _ _ _ Hr)|].
  split; [etrans; [by apply only_links_kept|]; etrans; [by eapply only_info_kept|done]|]. split; [exact Hinfo|].
  split; [eapply lists_frame; [|exact Hl1]; intros a; destruct (links_frame c1 c2 Hl2 a) as [<- <-]; by destruct a|].
  assert (~ in_use_item (left_cache i)) as Hnu.
  { unfold left_cache. intros (j & Ej & Hcj & _). destruct (item_held i =? 0); [done|]. by injection Ej as <-. }
  unfold home, put. destruct (Z.eqb_spec (item_held i) 0) as [Ez|Ez]; cbn match.
  - split; [done|]. assert (e ∉ iu) as Hniu by (eapply not_in_use; [apply (rp_in_use _ _ _ Hr)|exact Hi|done]). split.
    + eapply in_use_keep; [exact Ha|apply (rp_in_use _ _ _ Hr)|]. rewrite Hi. split; [|done]. intros (j & [= <-] & _ & ?). lia.
    + intros hd Hx. destruct (decide (hd = LruHead)) as [->|Hne]; [rewrite elem_of_without; tauto|]. destruct hd; [by destruct Hne|exact Hniu|apply not_elem_of_nil].
  - assert (e ∉ st_lru s) as Hnl by (by apply (not_in_lru s e i)). split; [symmetry; by apply without_notin|]. split.
    + eapply in_use_remove; [exact Ha|apply (rp_in_use _ _ _ Hr)|done].
    + intros hd Hx. destruct (decide (hd = InUseHead)) as [->|Hne]; [rewrite elem_of_without; tauto|]. destruct hd; [exact Hnl|by destruct Hne|apply not_elem_of_nil].
Qed.

Lemma FinishErase_holds c s iu e i : rep c s iu -> base_ok s -> st_items s !! e = Some i -> item_cached i = true -> item_held i < 2 ^ 32 - 1 ->
  exists c' iu', FinishErase (Some e) c = Ret (true, c') /\ rep c' (st_uncache e s) iu' /\ kept c c'.
Proof.
  intros Hr Hb Hi Hc Hlt. pose proof (st_uncache_affects s e i Hi) as Ha. destruct (so_held s Hb e i Hi) as [Hh _].
  destruct (erase_unlink c s iu e i Hr Hb Hi Hc) as (c1 & ls & E & E1 & E2 & E3 & E4 & Hk1 & Hi1 & Hl1 & Ell & Hu & Hout).
  assert (FinishErase (Some e) c = let! c := Unref e c1 in Ret (true, c)) as ->.
  { transitivity (let! c := (let! c := Ret c1 in Unref e c) in Ret (true, c)); [|done]. rewrite <- E. clear. unfold FinishErase.
    destruct (handle_at c e) as [h0| |]; [cbn [res_bind]|done..]. destruct (assert_ (in_cache h0)) as [[]| |]; [cbn [res_bind]|done..].
    destruct (LRU_Remove e c) as [ca| |]; [cbn [res_bind]|done..]. destruct (update (set_in_cache false) e ca) as [cb| |]; [cbn [res_bind]|done..].
    by destruct (handle_at cb e). }
  pose proof (Hi1 e) as He1. rewrite decide_True in He1 by done.
  destruct (unref_count c1 e _ He1) as (c2 & h & Ec & Ho2 & Eh & Ei); [cbn; lia|]. rewrite (Unref_count c1 e c2 h Ec Eh). cbn in Ei.
  pose proof Ho2 as [Hs2 _ Hl2 Hi2].
  assert (refs h = item_held i /\ in_cache h = false) as [-> ->].
  { split; [change (refs h) with (i_refs (info h))|change (in_cache h) with (i_in_cache (info h))]; rewrite Ei; cbn; [lia|done]. }
  assert (lists c2 ls) as Hls by (eapply lists_frame; [by apply links_frame|done]).
  assert (forall y, info_of c2 y = if decide (y = e) then Some (item_info (uncached i)) else info_of c y) as Hinfo.
  { intros y. rewrite Hi2, !Hi1. destruct (decide (y = e)) as [->|]; [|done]. rewrite decide_True by done. cbn. unfold item_info. cbn.
    rewrite wrap_small by (cbn; lia). do 2 f_equal. lia. }
  assert (forall l' : LRUCache V, lists l' ls -> lists l' (lists_of (st_uncache e s) (ls InUseHead))) as Hconv.
  { intros l' Hl'. eapply lists_ext; [|exact Hl']. intros [| |e0] Hx; [|done|by destruct (Hx e0)]. cbn. by rewrite (af_lru _ _ _ _ _ Ha), Ell. }
  pose proof (uncache_deleted s e i Hi) as Edel. unfold left_cache in Ha. cbn [negb assert_ andb]. destruct (Z.eqb_spec (item_held i) 0) as [Ez|Ez].
  - rewrite res_bind_ret. destruct (deallocate_holds c2 e h ls Eh Hls Hout) as (c3 & -> & F1 & F2 & F3 & F4 & Hk3 & Hl3 & Hi3). rewrite res_bind_ret.
    exists c3, (ls InUseHead). split; [done|]. split; [|etrans; [exact Hk1|]; etrans; [by eapply only_info_kept|done]].
    eapply rep_affects; [exact Ha|exact Hr|..]; try done.
    + by rewrite F1, (ss_capacity _ _ Hs2), E1, (rp_capacity _ _ _ Hr).
    + by rewrite F3, (ss_allocated _ _ Hs2), E3, (rp_allocated _ _ _ Hr).
    + by rewrite F2, (ss_usage _ _ Hs2).
    + rewrite F4, (ss_deleted _ _ Hs2), E4, Edel. pose proof (f_equal i_key Ei) as Ek. pose proof (f_equal i_value Ei) as Ev. cbn in Ek, Ev. by rewrite Ek, Ev.
    + intros y. rewrite Hi3, Hinfo. by destruct (decide (y = e)).
    + by apply Hconv.
  - rewrite res_bind_ret. exists c2, (ls InUseHead). split; [done|]. split; [|etrans; [exact Hk1|by eapply only_info_kept]].
    eapply rep_affects; [exact Ha|exact Hr|..]; try done.
    + by rewrite (ss_capacity _ _ Hs2), E1, (rp_capacity _ _ _ Hr).
    + by rewrite (ss_allocated _ _ Hs2), E3, (rp_allocated _ _ _ Hr).
    + by rewrite (ss_usage _ _ Hs2).
    + by rewrite (ss_deleted _ _ Hs2), E4, Edel, app_nil_r.
    + by apply Hconv.
Qed.

(** ** The table, meanwhile *)
Lemma rep_only_table c c' s iu : only_table c c' -> rep c s iu -> rep c' s iu.
Proof.
  intros [Hs Hl Hi] [E1 E2 E3 E4 Hinfo Hlists Hin]. split; try done.
  - by rewrite (ss_capacity _ _ Hs).
  - by rewrite (ss_usage _ _ Hs).
  - by rewrite (ss_allocated _ _ Hs).
  - by rewrite (ss_deleted _ _ Hs).
  - intros e. by rewrite Hi.
  - eapply lists_frame; [by apply links_frame|done].
Qed.

Lemma rep_no_self c s iu l : rep c s iu -> no_self c l.
Proof. intros Hr e _. apply (li_self _ _ (rp_lists _ _ _ Hr)). Qed.

Definition same_key_items s s' e : Prop := exists i i', st_items s !! e = Some i /\ st_items s' !! e = Some i' /\ item_hash i' = item_hash i /\ item_key i' = item_key i.

Lemma table_kept c c' s s' iu iu' bks : rep c s iu -> rep c' s' iu' -> kept c c' -> table_ok c bks ->
  (forall e, e ∈ concat bks -> same_key_items s s' e) -> table_ok c' bks.
Proof.
  intros Hr Hr' [El Ee Ell Hch _] Ht Hsame. eapply table_ok_frame; try done.
  - intros e He. apply Hch. destruct (Hsame e He) as (_ & i' & _ & Hi' & _). rewrite (rp_info _ _ _ Hr'), Hi'. by eexists.
  - intros e x He Hx. destruct (Hsame e He) as (i & i' & Hi & Hi' & Eh & Ek). rewrite (rp_info _ _ _ Hr), Hi in Hx. injection Hx as <-.
    exists (item_info i'). by rewrite (rp_info _ _ _ Hr'), Hi'.
Qed.

(** What the table finds is what the specification finds. *)
Lemma found_find c s bks key hash p : state_ok s -> (forall e, e ∈ concat bks <-> cached_in s e) ->
  (forall e, e ∈ concat bks -> info_of c e = item_info <$> st_items s !! e) -> found c bks key hash p -> p = st_find key hash s.
Proof.
  intros Hs Hin Hinfo Hf. destruct p as [e|]; cbn in Hf.
  - destruct Hf as [He (x & Hx & Eh & Ek)]. rewrite (Hinfo e He) in Hx. destruct (proj1 (Hin e) He) as (i & Hi & Hc). rewrite Hi in Hx. injection Hx as <-.
    symmetry. apply (st_find_unique _ _ s e i Hs Hi). done.
  - pose proof (st_find_spec key hash s) as Hspec. destruct (st_find key hash s) as [e|]; [|done]. destruct Hspec as (i & Hi & Hc & Eh & Ek). exfalso.
    assert (e ∈ concat bks) as He by (apply Hin; by exists i). apply (Hf e He). exists (item_info i). by rewrite (Hinfo e He), Hi.
Qed.

Lemma affects_same_key e oi l s s' y : affects e oi l s s' -> is_Some (st_items s !! y) ->
  (y = e -> exists i i', st_items s !! e = Some i /\ oi = Some i' /\ item_hash i' = item_hash i /\ item_key i' = item_key i) -> same_key_items s s' y.
Proof.
  intros Ha [i Hi] He. destruct (decide (y = e)) as [->|Hne].
  - destruct (He eq_refl) as (j & j' & Hj & -> & ?). exists j, j'. by rewrite (af_item _ _ _ _ _ Ha), decide_True.
  - exists i, i. by rewrite (af_item _ _ _ _ _ Ha), decide_False.
Qed.

Lemma affects_cached e oi l s s' y : affects e oi l s s' ->
  cached_in s' y <-> if decide (y = e) then exists i, oi = Some i /\ item_cached i = true else cached_in s y.
Proof. intros Ha. unfold cached_in. rewrite (af_item _ _ _ _ _ Ha). by destruct (decide (y = e)). Qed.

(** The bounds of the counters: handles on an entry, and entries. *)
Definition bounded s : Prop := (forall e i, st_items s !! e = Some i -> item_held i < 2 ^ 32 - 2) /\ Z.of_nat (base.size (st_items s)) < 2 ^ 31.

(** ** Lookup, Release, Erase *)
Lemma lru_Lookup_holds c s key hash : cache_rep c s -> state_ok s -> bounded s ->
  exists c', lru_Lookup key hash c = Ret ((st_lookup key hash s).1, c') /\ cache_rep c' (st_lookup key hash s).2.
Proof.
  intros (iu & Hr & bks & Ht & Hin) Hs [Hheld _]. unfold lru_Lookup.
  destruct (table_Lookup_holds c bks key hash Ht (rep_no_self c s iu _ Hr)) as (p & -> & Hf). rewrite res_bind_ret.
  assert (p = st_find key hash s) as -> by (eapply found_find; [done|done| |done]; intros e _; apply (rp_info _ _ _ Hr)).
  pose proof (st_find_spec key hash s) as Hspec. unfold st_lookup. destruct (st_find key hash s) as [e|]; cbn [fst snd].
  - destruct Hspec as (i & Hi & Hc & _). destruct (Ref_holds c s iu e i Hr (so_base s Hs) Hi Hc (Hheld e i Hi)) as (c' & iu' & -> & Hr' & Hk).
    rewrite res_bind_ret. exists c'. split; [done|]. exists iu'. split; [done|]. pose proof (st_ref_affects s e i Hi) as Ha. exists bks. split.
    + apply (table_kept c c' s _ iu iu' bks Hr Hr' Hk Ht). intros y (j & Hj & _)%Hin. eapply affects_same_key; [done|by exists j|]. intros ->. exists i, (held (item_held i + 1) i). done.
    + intros y. rewrite Hin, (affects_cached _ _ _ _ _ y Ha). destruct (decide (y = e)) as [->|]; [|done]. split; intros _; eexists; [split; [done|]|split; [exact Hi|done]]. done.
  - exists c. split; [done|]. exists iu. split; [done|]. by exists bks.
Qed.

Lemma lru_Release_holds c s e : cache_rep c s -> state_ok s -> bounded s -> held_in s e ->
  exists c', lru_Release e c = Ret c' /\ cache_rep c' (st_release e s).
Proof.
  intros (iu & Hr & bks & Ht & Hin) Hs [Hheld _] (i & Hi & Hpos). pose proof (Hheld e i Hi).
  destruct (Release_holds c s iu e i Hr (so_base s Hs) Hi) as (c' & iu' & E & Hr' & Hk); [lia|]. exists c'. split; [exact E|].
  exists iu'. split; [done|]. pose proof (st_release_affects s e i Hi) as Ha. exists bks. split.
  - apply (table_kept c c' s _ iu iu' bks Hr Hr' Hk Ht). intros y (j & Hj & Hc)%Hin. eapply affects_same_key; [done|by exists j|]. intros ->.
    rewrite Hi in Hj. injection Hj as <-. exists i. unfold released. rewrite Hc. destruct (item_held i =? 1); by eexists.
  - intros y. rewrite Hin, (affects_cached _ _ _ _ _ y Ha). destruct (decide (y = e)) as [->|]; [|done]. unfold released, cached_in. rewrite Hi. split.
    + intros (j & [= <-] & Hc). rewrite Hc. destruct (item_held i =? 1); by eexists.
    + intros (j & Ej & Hc). exists i. split; [done|]. destruct (item_held i =? 1); [destruct (item_cached i); [done|done]|]. by injection Ej as <-.
Qed.

(** An entry leaves the table, and then the lists. *)
Lemma remove_holds c s key hash : cache_rep c s -> state_ok s -> bounded s ->
  exists c1 c', table_Remove key hash c = Ret (st_find key hash s, c1) /\
    FinishErase (st_find key hash s) c1 = Ret (bool_decide (is_Some (st_find key hash s)), c') /\ cache_rep c' (st_erase key hash s).
Proof.
  intros (iu & Hr & bks & Ht & Hin) Hs [Hheld _].
  destruct (table_Remove_holds c bks key hash Ht (rep_no_self c s iu _ Hr)) as (p & c1 & bks' & -> & Ho & Ht' & Hf & Hp).
  assert (p = st_find key hash s) as -> by (eapply found_find; [done|done| |done]; intros e _; apply (rp_info _ _ _ Hr)).
  pose proof (rep_only_table c c1 s iu Ho Hr) as Hr1. pose proof (st_find_spec key hash s) as Hspec. exists c1. unfold st_erase.
  destruct (st_find key hash s) as [e|].
  - destruct Hspec as (i & Hi & Hc & _). pose proof (Hheld e i Hi). destruct (FinishErase_holds c1 s iu e i Hr1 (so_base s Hs) Hi Hc) as (c' & iu' & -> & Hr' & Hk); [lia|].
    exists c'. split; [done|]. split; [done|]. exists iu'. split; [done|]. pose proof (st_uncache_affects s e i Hi) as Ha.
    pose proof (bk_nodup _ _ (tk_buckets _ _ Ht)) as Hnd. rewrite Hp in Hnd. apply list.NoDup_cons in Hnd as [Hne _]. exists bks'. split.
    + apply (table_kept c1 c' s _ iu iu' bks' Hr1 Hr' Hk Ht'). intros y Hy. assert (y ∈ concat bks) as (j & Hj & _)%Hin by (rewrite Hp; by right).
      eapply affects_same_key; [done|by exists j|]. by intros ->.
    + intros y. rewrite (affects_cached _ _ _ _ _ y Ha). destruct (decide (y = e)) as [->|Hye].
      * split; [done|]. intros (j & Ej & Hcj). unfold left_cache in Ej. destruct (item_held i =? 0); [done|]. by injection Ej as <-.
      * rewrite <- Hin, Hp. split; [intros ?; by right|]. by intros [?|]%elem_of_cons.
  - exists c1. split; [done|]. split; [done|]. exists iu. split; [done|]. exists bks'. split; [done|]. intros y. by rewrite <- Hp.
Qed.

Lemma lru_Erase_holds c s key hash : cache_rep c s -> state_ok s -> bounded s -> exists c', lru_Erase key hash c = Ret c' /\ cache_rep c' (st_erase key hash s).
Proof.
  intros Hc Hs Hb. destruct (remove_holds c s key hash Hc Hs Hb) as (c1 & c' & E1 & E2 & Hc'). exists c'. unfold lru_Erase. by rewrite E1, res_bind_ret, E2, res_bind_ret.
Qed.

(** ** Bounds *)
Lemma size_affects e oi l s s' : affects e oi l s s' -> is_Some (st_items s !! e) -> (base.size (st_items s') <= base.size (st_items s))%nat.
Proof.
  intros Ha He. rewrite <- !size_dom. apply subseteq_size. intros y. rewrite !elem_of_dom, (af_item _ _ _ _ _ Ha). by destruct (decide (y = e)) as [->|].
Qed.

Lemma bounded_uncache s e : bounded s -> cached_in s e -> bounded (st_uncache e s).
Proof.
  intros [Hh Hn] (i & Hi & Hc). pose proof (st_uncache_affects s e i Hi) as Ha. split.
  - intros y j. rewrite (af_item _ _ _ _ _ Ha). destruct (decide (y = e)) as [->|]; [|apply Hh]. unfold left_cache. destruct (item_held i =? 0); [done|].
    intros [= <-]. cbn. by apply (Hh e).
  - pose proof (size_affects _ _ _ _ _ Ha ltac:(by rewrite Hi)). lia.
Qed.

Lemma cached_count c s bks : table_ok c bks -> (forall e, e ∈ concat bks <-> cached_in s e) -> zlength (concat bks) <= Z.of_nat (base.size (st_items s)).
Proof.
  intros Ht Hin. unfold zlength. apply inj_le. rewrite <- size_dom, <- (size_list_to_set (C := gset nat) (concat bks)) by apply (bk_nodup _ _ (tk_buckets _ _ Ht)).
  apply subseteq_size. intros e. rewrite elem_of_list_to_set, elem_of_dom. intros (i & Hi & _)%Hin. by exists i.
Qed.

Lemma lru_short c s : cache_rep c s -> state_ok s -> Z.of_nat (length (st_lru s)) <= 2 ^ 31.
Proof.
  intros (iu & Hr & bks & Ht & Hin) Hs. pose proof (tk_small _ _ Ht) as Hsm. etrans; [|exact Hsm]. unfold zlength. apply inj_le.
  apply submseteq_length, NoDup_submseteq; [apply (so_nodup s (so_base s Hs))|]. intros e (i & Hi & Hc & _)%(so_lru s (so_base s Hs)). apply Hin. by exists i.
Qed.

(** ** Eviction *)
Lemma lru_empty_spec c s : cache_rep c s -> lru_empty c = bool_decide (st_lru s = []) /\ forall e l, st_lru s = e :: l -> next (lru_ c) = Some (Entry e).
Proof.
  intros (iu & Hr & _). destruct (li_dlist _ _ (rp_lists _ _ _ Hr) LruHead is_head_lru) as [Hd _]. apply dlist_first in Hd. cbn in Hd.
  change (next_of c LruHead) with (next (lru_ c)) in Hd. unfold lru_empty. rewrite Hd. destruct (st_lru s) as [|e l]; split; try done; by intros ? ? [= -> ->].
Qed.

Lemma evict_oldest_holds c s e l : cache_rep c s -> state_ok s -> bounded s -> st_lru s = e :: l ->
  exists c', evict_oldest c = Ret c' /\ cache_rep c' (st_uncache e s).
Proof.
  intros Hc Hs Hb El. assert (e ∈ st_lru s) as (i & Hi & Hic & Hih)%(so_lru s (so_base s Hs)) by (rewrite El; left).
  unfold evict_oldest. rewrite (proj2 (lru_empty_spec c s Hc) e l El). pose proof Hc as (iu & Hr & _).
  destruct (item_live c s iu e i Hr Hi) as (h & Eh & _ & Ei). rewrite Eh, res_bind_ret.
  rewrite assert_true, res_bind_ret by (change (refs h) with (i_refs (info h)); rewrite Ei; cbn; rewrite Hih, Hic; done).
  rewrite (handle_key_ok c e (item_info i)), res_bind_ret; [|by rewrite (rp_info _ _ _ Hr), Hi|apply (li_self _ _ (rp_lists _ _ _ Hr))].
  change (handle_hash h) with (i_hash (info h)). rewrite Ei. cbn [i_key i_hash item_info].
  assert (st_find (item_key i) (item_hash i) s = Some e) as Ef by (eapply st_find_unique; done).
  destruct (remove_holds c s (item_key i) (item_hash i) Hc Hs Hb) as (c1 & c' & -> & E & Hc'). rewrite res_bind_ret, E, res_bind_ret.
  rewrite Ef in *. rewrite bool_decide_true, assert_true, res_bind_ret by done. exists c'. split; [done|]. unfold st_erase in Hc'. by rewrite Ef in Hc'.
Qed.

Lemma evict_loop_holds c s : cache_rep c s -> state_ok s -> bounded s ->
  exists c', while evict_body c = Ret c' /\ cache_rep c' (st_evict (st_lru s) s) /\ bounded (st_evict (st_lru s) s).
Proof.
  intros Hc Hs Hb. pose proof (lru_short c s Hc Hs).
  apply (while_rel evict_body (fun n c => exists s', n = length (st_lru s') /\ cache_rep c s' /\ state_ok s' /\ bounded s' /\ st_evict (st_lru s') s' = st_evict (st_lru s) s)
    (fun c => cache_rep c (st_evict (st_lru s) s) /\ bounded (st_evict (st_lru s) s)) (length (st_lru s)) c); [|by exists s|lia].
  intros n c0 (s' & -> & Hc0 & Hs' & Hb' & <-). unfold evict_body. pose proof Hc0 as (iu & Hr & _). rewrite (rp_capacity _ _ _ Hr), (rp_usage _ _ _ Hr).
  destruct (lru_empty_spec c0 s' Hc0) as [-> _]. destruct (st_lru s') as [|e l] eqn:El; cbn [st_evict].
  - rewrite bool_decide_true, andb_false_r by done. left. by exists c0.
  - rewrite bool_decide_false by done. cbn [negb]. rewrite andb_true_r. destruct (_ <? _); [|left; by exists c0].
    destruct (evict_oldest_holds c0 s' e l Hc0 Hs' Hb' El) as (c' & -> & Hc'). rewrite res_bind_ret. right. exists (length l), c'.
    destruct (st_uncache_lru s' e l (so_base s' Hs') El) as [El' Hce]. split; [done|]. split; [done|]. exists (st_uncache e s'). rewrite El'.
    split; [done|]. split; [done|]. split; [by apply st_uncache_ok|]. split; [by apply bounded_uncache|done].
Qed.

Lemma lru_Prune_holds c s : cache_rep c s -> state_ok s -> bounded s -> exists c', lru_Prune c = Ret c' /\ cache_rep c' (st_prune s) /\ bounded (st_prune s).
Proof.
  intros Hc Hs Hb. pose proof (lru_short c s Hc Hs).
  apply (while_rel prune_body (fun n c => exists s', n = length (st_lru s') /\ cache_rep c s' /\ state_ok s' /\ bounded s' /\ st_prune s' = st_prune s)
    (fun c => cache_rep c (st_prune s) /\ bounded (st_prune s)) (length (st_lru s)) c); [|by exists s|lia].
  intros n c0 (s' & -> & Hc0 & Hs' & Hb' & <-). unfold prune_body. destruct (lru_empty_spec c0 s' Hc0) as [-> _].
  assert (forall l, st_lru s' = l -> st_prune s' = foldl (fun s e => st_uncache e s) s' l) as Hpr by (by intros l <-).
  destruct (st_lru s') as [|e l] eqn:El.
  - rewrite bool_decide_true by done. left. exists c0. split; [done|]. by rewrite (Hpr []).
  - rewrite bool_decide_false by done. cbn [negb]. destruct (evict_oldest_holds c0 s' e l Hc0 Hs' Hb' El) as (c' & -> & Hc'). rewrite res_bind_ret.
    right. exists (length l), c'. destruct (st_uncache_lru s' e l (so_base s' Hs') El) as [El' Hce]. split; [done|]. split; [done|]. exists (st_uncache e s').
    rewrite El'. split; [done|]. split; [done|]. split; [by apply st_uncache_ok|]. split; [by apply bounded_uncache|].
    rewrite (Hpr (e :: l)) by done. unfold st_prune. by rewrite El'.
Qed.

(** ** Insert *)

(** The new entry: its fields, and everything else as it was. *)
Lemma new_handle_info key hash value charge c s iu : rep c s iu -> base_ok s ->
  forall e c1, new_handle key hash value charge c = (e, c1) ->
  e = st_next s /\ same_table c c1 /\ capacity_ c1 = st_capacity s /\ usage_ c1 = st_usage s /\ allocated c1 = S (st_next s) /\ deleted c1 = st_deleted s /\
  is_Some (handles c1 !! e) /\ lists c1 (lists_of s iu) /\ (forall hd, is_head hd -> e ∉ lists_of s iu hd) /\ next_of c1 (Entry e) = None /\
  forall y, info_of c1 y = if decide (y = e) then Some (MkInfo value charge key false 1 hash) else info_of c y.
Proof.
  intros Hr Hb e c1 [= <- <-]. pose proof (st_next_fresh s Hb) as Hf. pose proof (rp_info _ _ _ Hr (st_next s)) as Hn. rewrite Hf in Hn.
  assert (handles c !! st_next s = None) as Hnone by (unfold info_of in Hn; by destruct (handles c !! st_next s)).
  rewrite (rp_allocated _ _ _ Hr). set (c1 := MkLRUCache _ _ _ _ _ _ _ _ _ _).
  assert (forall y, handles c1 !! y = if decide (y = st_next s) then Some (MkLRUHandle value None (MkLinks None None) charge key false 1 hash) else handles c !! y) as Hh.
  { intros y. unfold c1. cbn. destruct (decide (y = st_next s)) as [->|]; [by rewrite lookup_insert_eq|by rewrite lookup_insert_ne]. }
  split; [done|]. split.
  { split; try done. intros y. unfold chain_of. rewrite Hh. destruct (decide (y = st_next s)) as [->|]; [by rewrite Hnone|done]. }
  split; [apply (rp_capacity _ _ _ Hr)|]. split; [apply (rp_usage _ _ _ Hr)|]. split; [done|]. split; [apply (rp_deleted _ _ _ Hr)|].
  split; [rewrite Hh, decide_True by done; by eexists|]. assert (forall hd, is_head hd -> st_next s ∉ lists_of s iu hd) as Hout.
  { intros [| |] Hx; cbn; [|intros (j & Hj & _)%(rp_in_use _ _ _ Hr); congruence|apply not_elem_of_nil].
    intros (j & Hj & _)%(so_lru s Hb). congruence. }
  split; [|split; [done|split]].
  - eapply lists_frame; [|apply (rp_lists _ _ _ Hr)]. intros [| |y]; [done..|]. unfold next_of, prev_of, link_of. rewrite Hh.
    destruct (decide (y = st_next s)) as [->|]; [by rewrite Hnone|done].
  - unfold next_of, link_of. by rewrite Hh, decide_True.
  - intros y. unfold info_of. rewrite Hh. by destruct (decide (y = st_next s)).
Qed.

Lemma rep_add c s iu key hash value charge c' iu' : rep c s iu -> base_ok s -> let s' := st_add key hash value charge s in
  capacity_ c' = st_capacity s -> usage_ c' = st_usage s' -> allocated c' = S (st_next s) -> deleted c' = st_deleted s ->
  (forall y, info_of c' y = if decide (y = st_next s) then Some (item_info (MkItem key hash value charge (0 <? st_capacity s) 1)) else info_of c y) ->
  lists c' (lists_of s iu') -> (forall y, y ∈ iu' <-> y ∈ iu \/ 0 < st_capacity s /\ y = st_next s) -> rep c' s' iu'.
Proof.
  intros Hr Hb s' Ec Eu Ea Ed Hi Hl Hin. pose proof (st_next_fresh s Hb) as Hf. split; try done.
  - intros y. unfold s'. rewrite Hi, st_add_item, (rp_info _ _ _ Hr). by destruct (decide (y = st_next s)).
  - intros y. unfold s'. rewrite Hin, st_add_item, (rp_in_use _ _ _ Hr y). destruct (decide (y = st_next s)) as [->|Hne]; [|tauto].
    rewrite Hf. split; [intros [(? & ? & _)|[Hc _]]; [done|]; eexists; split; [done|]; cbn; split; [by apply Z.ltb_lt|done]|].
    intros (i & [= <-] & Hc & _). cbn in Hc. apply Z.ltb_lt in Hc. by right.
Qed.

Lemma wrap_add a b : u64 (u64 a + b) = u64 (a + b).
Proof. apply Zplus_mod_idemp_l. Qed.

(** Up to the table. *)
Lemma insert_linked c s iu bks key hash value charge : rep c s iu -> base_ok s -> table_ok c bks -> (forall e, e ∈ concat bks -> cached_in s e) -> 0 < st_capacity s ->
  forall e c1, new_handle key hash value charge c = (e, c1) -> let s1 := st_add key hash value charge s in
  exists c2 c3, update (fun h => set_in_cache true (set_refs (u32 (refs h + 1)) h)) e c1 = Ret c2 /\ LRU_Append InUseHead e c2 = Ret c3 /\
    rep (set_usage (u64 (usage_ c3 + charge)) c3) s1 (iu ++ [e]) /\ table_ok (set_usage (u64 (usage_ c3 + charge)) c3) bks.
Proof.
  intros Hr Hb Ht Hin Hcap e c1 Ec s1. pose proof (st_next_fresh s Hb) as Hf.
  destruct (new_handle_info key hash value charge c s iu Hr Hb e c1 Ec) as (-> & Ht1 & E1 & E2 & E3 & E4 & Hlive & Hl1 & Hout & _ & Hi1).
  destruct (update_info_of (fun h => set_in_cache true (set_refs (u32 (refs h + 1)) h))
    (fun x => MkInfo (i_value x) (i_charge x) (i_key x) true (u32 (i_refs x + 1)) (i_hash x)) (st_next s) c1 Hlive) as (c2 & Eup & Ho2); [done|].
  pose proof Ho2 as [Hs2 Ht2 Hk2 Hi2]. assert (lists c2 (lists_of s iu)) as Hl2 by (eapply lists_frame; [by apply links_frame|done]).
  assert (forall y, info_of c2 y = if decide (y = st_next s) then Some (item_info (MkItem key hash value charge (0 <? st_capacity s) 1)) else info_of c y) as Hinfo2.
  { intros y. rewrite Hi2, !Hi1. destruct (decide (y = st_next s)) as [->|]; [|done]. rewrite decide_True by done. cbn. unfold item_info. cbn.
    by rewrite (proj2 (Z.ltb_lt _ _) Hcap). }
  destruct (lists_append c2 _ InUseHead (st_next s) Hl2 is_head_in_use Hout) as (c3 & Eap & Ho3 & Hl3); [apply live_info; rewrite Hinfo2, decide_True by done; by eexists|].
  pose proof Ho3 as [Hs3 Ht3 Hi3]. exists c2, c3. split; [done|]. split; [done|].
  assert (forall y, info_of c3 y = if decide (y = st_next s) then Some (item_info (MkItem key hash value charge (0 <? st_capacity s) 1)) else info_of c y) as Hinfo3 by (intros y; by rewrite Hi3, Hinfo2).
  split.
  - apply (rep_add c s iu key hash value charge); try done; cbn [capacity_ usage_ allocated deleted set_usage].
    + by rewrite (ss_capacity _ _ Hs3), (ss_capacity _ _ Hs2).
    + rewrite (ss_usage _ _ Hs3), (ss_usage _ _ Hs2), E2. unfold st_usage. rewrite total_add by done. rewrite (proj2 (Z.ltb_lt _ _) Hcap). apply wrap_add.
    + by rewrite (ss_allocated _ _ Hs3), (ss_allocated _ _ Hs2).
    + by rewrite (ss_deleted _ _ Hs3), (ss_deleted _ _ Hs2).
    + eapply lists_frame; [|eapply lists_ext; [|exact Hl3]]; [by intros []|]. by intros [| |].
    + intros y. rewrite elem_of_app, list_elem_of_singleton. tauto.
  - eapply (table_ok_frame c); [exact Ht|..]; cbn [length_ elems_ list_ set_usage].
    + by rewrite (st_length _ _ Ht3), (st_length _ _ Ht2), (st_length _ _ Ht1).
    + by rewrite (st_elems _ _ Ht3), (st_elems _ _ Ht2), (st_elems _ _ Ht1).
    + by rewrite (st_list _ _ Ht3), (st_list _ _ Ht2), (st_list _ _ Ht1).
    + intros y _. change (chain_of (set_usage (u64 (usage_ c3 + charge)) c3) y) with (chain_of c3 y). by rewrite (st_chain _ _ Ht3), (st_chain _ _ Ht2), (st_chain _ _ Ht1).
    + intros y x Hy Hx. exists x. split; [|done]. change (info_of (set_usage (u64 (usage_ c3 + charge)) c3) y) with (info_of c3 y).
      rewrite Hinfo3, decide_False; [done|]. intros ->. destruct (Hin _ Hy) as (j & Hj & _). congruence.
Qed.

(** The table gets the entry, and gives up what it replaces. *)
Lemma insert_table c s iu bks key hash value charge : state_ok s -> bounded s -> 0 < st_capacity s -> (forall e, e ∈ concat bks <-> cached_in s e) ->
  let s1 := st_add key hash value charge s in rep c s1 iu -> table_ok c bks ->
  exists old c1 b c', table_Insert (st_next s) c = Ret (old, c1) /\ FinishErase old c1 = Ret (b, c') /\ cache_rep c' (st_replace key hash s s1).
Proof.
  intros Hs [Hheld Hsz] Hcap Hin s1 Hr Ht. pose proof (st_next_fresh s (so_base s Hs)) as Hf. set (new := MkItem key hash value charge (0 <? st_capacity s) 1).
  assert (item_cached new = true) as Hnc by by apply Z.ltb_lt.
  assert (st_next s ∉ concat bks) as Hnew by (intros (j & Hj & _)%Hin; congruence).
  assert (forall y, y <> st_next s -> st_items s1 !! y = st_items s !! y) as Hit by (intros y Hy; unfold s1; by rewrite st_add_item, decide_False).
  assert (st_items s1 !! st_next s = Some new) as Hnew1 by (unfold s1; by rewrite st_add_item, decide_True).
  assert (info_of c (st_next s) = Some (item_info new)) as Hx by by rewrite (rp_info _ _ _ Hr), Hnew1.
  pose proof (cached_count c s bks Ht Hin) as Hcnt.
  destruct (table_Insert_holds c bks (st_next s) (item_info new) Ht (rep_no_self c s1 iu _ Hr) Hnew Hx (li_self _ _ (rp_lists _ _ _ Hr) _)) as (old & c1 & bks' & E & Ho & Ht1 & Hfound & Hp); [lia|].
  assert (old = st_find key hash s) as ->.
  { eapply found_find; [done|done| |exact Hfound]. intros y Hy. rewrite (rp_info _ _ _ Hr), Hit; [done|]. by intros ->. }
  pose proof (rep_only_table c c1 s1 iu Ho Hr) as Hr1. pose proof (st_find_spec key hash s) as Hspec. unfold st_replace. rewrite (proj2 (Z.ltb_lt _ _) Hcap).
  destruct (st_find key hash s) as [o|].
  - destruct Hspec as (i & Hi & Hic & _). assert (o <> st_next s) as Hne by (intros ->; congruence).
    assert (st_items s1 !! o = Some i) as Hi1 by by rewrite Hit. pose proof (Hheld o i Hi).
    destruct (FinishErase_holds c1 s1 iu o i Hr1 (st_add_base _ _ _ _ s (so_base s Hs)) Hi1 Hic) as (c' & iu' & EF & Hr' & Hk); [lia|].
    exists (Some o), c1, true, c'. split; [done|]. split; [done|]. exists iu'. split; [done|]. destruct Hp as (l & Ep & Ep').
    pose proof (bk_nodup _ _ (tk_buckets _ _ Ht)) as Hnd. rewrite Ep in Hnd. apply list.NoDup_cons in Hnd as [Hol _].
    pose proof (st_uncache_affects s1 o i Hi1) as Ha. exists bks'. split.
    + apply (table_kept c1 c' s1 _ iu iu' bks' Hr1 Hr' Hk Ht1). intros y Hy. eapply affects_same_key; [done| |].
      * rewrite Ep' in Hy. apply elem_of_cons in Hy as [->|Hy]; [by exists new|]. assert (y ∈ concat bks) as Hyb by (rewrite Ep; by right).
        rewrite Hit by (by intros ->). apply Hin in Hyb as (j & Hj & _). by exists j.
      * intros ->. exfalso. rewrite Ep' in Hy. apply elem_of_cons in Hy as [|]; done.
    + intros y. rewrite Ep', elem_of_cons, (affects_cached _ _ _ _ _ y Ha). destruct (decide (y = o)) as [->|Hyo].
      * split; [by intros [?|?]|]. intros (j & Ej & Hcj). unfold left_cache in Ej. destruct (item_held i =? 0); [done|]. by injection Ej as <-.
      * unfold cached_in. destruct (decide (y = st_next s)) as [->|Hyn]; [split; [intros _; by exists new|by left]|]. rewrite Hit by done.
        rewrite <- (Hin y), Ep, elem_of_cons. tauto.
  - exists None, c1, false, c1. split; [done|]. split; [done|]. exists iu. split; [done|]. exists bks'. split; [done|]. intros y.
    rewrite Hp, elem_of_cons. unfold cached_in. destruct (decide (y = st_next s)) as [->|Hyn]; [split; [intros _; by exists new|by left]|]. rewrite Hit by done.
    rewrite <- (Hin y). tauto.
Qed.

Definition insertable s : Prop := bounded s /\ Z.of_nat (base.size (st_items s)) + 1 < 2 ^ 31.

Lemma bounded_replace key hash value charge s : state_ok s -> insertable s -> bounded (st_replace key hash s (st_add key hash value charge s)).
Proof.
  intros Hs [[Hh _] Hn]. pose proof (st_next_fresh s (so_base s Hs)) as Hf. assert (bounded (st_add key hash value charge s)) as Hb.
  { split.
    - intros e i. rewrite st_add_item. destruct (decide (e = st_next s)); [intros [= <-]; by cbn|apply Hh].
    - cbn. rewrite map_size_insert_None by done. lia. }
  unfold st_replace. destruct (0 <? st_capacity s); [|done]. pose proof (st_find_spec key hash s) as Hspec. destruct (st_find key hash s) as [o|]; [|done].
  destruct Hspec as (i & Hi & Hc & _). apply bounded_uncache; [done|]. exists i. split; [|done]. rewrite st_add_item, decide_False; [done|]. intros ->. congruence.
Qed.

(** With capacity 0 nothing is cached. *)
Lemma insert_uncached c s key hash value charge : cache_rep c s -> base_ok s -> st_capacity s <= 0 ->
  forall e c1, new_handle key hash value charge c = (e, c1) ->
  exists c2, set_next (Entry e) None c1 = Ret c2 /\ cache_rep c2 (st_add key hash value charge s).
Proof.
  intros (iu & Hr & bks & Ht & Hin) Hb Hcap e c1 Enew. pose proof (st_next_fresh s Hb) as Hf.
  destruct (new_handle_info key hash value charge c s iu Hr Hb e c1 Enew) as (-> & Ht1 & E1 & E2 & E3 & E4 & [h Eh] & Hl1 & Hout & Hnone & Hi1).
  destruct (set_next_of (Entry (st_next s)) None c1 (links h)) as (c2 & E & Ho2 & Hn2 & Hp2 & _); [cbn; by rewrite Eh|].
  pose proof Ho2 as [Hs2 Ht2 Hi2]. exists c2. split; [done|].
  assert (forall y, info_of c2 y = if decide (y = st_next s) then Some (item_info (MkItem key hash value charge (0 <? st_capacity s) 1)) else info_of c y) as Hinfo.
  { intros y. rewrite Hi2, Hi1. destruct (decide (y = st_next s)); [|done]. unfold item_info. cbn. by rewrite (proj2 (Z.ltb_ge _ _) Hcap). }
  exists iu. split.
  - apply (rep_add c s iu key hash value charge); try done.
    + by rewrite (ss_capacity _ _ Hs2).
    + rewrite (ss_usage _ _ Hs2), E2. unfold st_usage. rewrite total_add by done. rewrite (proj2 (Z.ltb_ge _ _) Hcap). by rewrite Z.add_0_r.
    + by rewrite (ss_allocated _ _ Hs2).
    + by rewrite (ss_deleted _ _ Hs2).
    + eapply lists_frame; [|exact Hl1]. intros a. split; [|apply Hp2]. rewrite Hn2. by destruct (decide (a = Entry (st_next s))) as [->|].
    + intros y. split; [by left|]. intros [|[? _]]; [done|lia].
  - assert (forall y, y ∈ concat bks -> y <> st_next s) as Hne by (intros y (j & Hj & _)%Hin ->; congruence). exists bks. split.
    + eapply (table_ok_frame c); [exact Ht|..].
      * by rewrite (st_length _ _ Ht2), (st_length _ _ Ht1).
      * by rewrite (st_elems _ _ Ht2), (st_elems _ _ Ht1).
      * by rewrite (st_list _ _ Ht2), (st_list _ _ Ht1).
      * intros y _. by rewrite (st_chain _ _ Ht2), (st_chain _ _ Ht1).
      * intros y x Hy Hx. exists x. by rewrite Hinfo, decide_False by by apply Hne.
    + intros y. rewrite Hin. unfold cached_in. rewrite st_add_item. destruct (decide (y = st_next s)) as [->|]; [|done]. rewrite Hf.
      split; [by intros (? & ? & _)|]. intros (i & [= <-] & Hc). cbn in Hc. apply Z.ltb_lt in Hc. lia.
Qed.

Lemma lru_Insert_holds c s key hash value charge : cache_rep c s -> state_ok s -> insertable s ->
  exists c', lru_Insert key hash value charge c = Ret ((st_insert key hash value charge s).1, c') /\ cache_rep c' (st_insert key hash value charge s).2 /\
    bounded (st_insert key hash value charge s).2.
Proof.
  intros Hc Hs Hins. pose proof (so_base s Hs) as Hb. rewrite st_insert_eq. cbn zeta. cbn [fst snd].
  pose proof (bounded_replace key hash value charge s Hs Hins) as Hbr. pose proof (st_replace_ok key hash value charge s Hs) as Hsr.
  set (s' := st_replace key hash s (st_add key hash value charge s)) in *. unfold lru_Insert.
  assert (forall c2, cache_rep c2 s' -> exists c', (let! c := while evict_body c2 in Ret (st_next s, c)) = Ret (st_next s, c') /\
    cache_rep c' (st_evict (st_lru s') s') /\ bounded (st_evict (st_lru s') s')) as Hfinish.
  { intros c2 Hc2. destruct (evict_loop_holds c2 s' Hc2 Hsr Hbr) as (c3 & -> & Hc3). rewrite res_bind_ret. by exists c3. }
  pose proof Hc as (iu & Hr & bks & Ht & Hin). destruct (new_handle key hash value charge c) as [e c1] eqn:Enew.
  destruct (new_handle_info key hash value charge c s iu Hr Hb e c1 Enew) as (-> & _ & -> & _). destruct (Z.ltb_spec 0 (st_capacity s)) as [Hcap|Hcap].
  - destruct (insert_linked c s iu bks key hash value charge Hr Hb Ht (fun e => proj1 (Hin e)) Hcap (st_next s) c1 Enew) as (c2 & c3 & -> & E & Hr3 & Ht3).
    rewrite res_bind_ret, E, res_bind_ret.
    destruct (insert_table _ s _ bks key hash value charge Hs (proj1 Hins) Hcap Hin Hr3 Ht3) as (old & c4 & b & c' & -> & E' & Hc'). rewrite res_bind_ret, E', !res_bind_ret.
    by apply Hfinish.
  - destruct (insert_uncached c s key hash value charge Hc Hb Hcap (st_next s) c1 Enew) as (c2 & -> & Hc2). rewrite res_bind_ret. apply Hfinish.
    unfold s', st_replace. by rewrite (proj2 (Z.ltb_ge _ _) Hcap).
Qed.
End rep.
