(* ===== verification/CacheHistory.v ===== *)
(** * LevelDB's LRU cache: its whole life

    A cache from its constructor, through any sequence of calls, to its
    destructor: it behaves as specified, and passes every value to its deleter
    exactly once. *)
From S2P Require Import Prelude LdbBase Iterator Cache CacheSpec CacheFacts.

Section history.
Context {V : Type}.
Implicit Types (c : LRUCache V) (s : State V) (i : Item V) (e : nat).

(** ** The constructor *)
Lemma new_LRUCache_holds capacity : exists c, new_LRUCache = Ret c /\ cache_rep (SetCapacity capacity c) (empty_state capacity).
Proof.
  unfold new_LRUCache. set (c0 := MkLRUCache 0 0 _ _ 0 0 [] ∅ 0 []).
  destruct (Resize_holds c0 []) as (c & bks & -> & [Hs Hl Hi] & Ht & Hp);
    [constructor|constructor|by intros ? ?%not_elem_of_nil|done|done|done|by intros ? ? ? ? ?%not_elem_of_nil|].
  exists c. split; [done|]. assert (forall e, info_of c e = None) as Hnone by (intros e; rewrite Hi; unfold info_of, c0; cbn; by rewrite lookup_empty).
  exists []. split.
  - split; cbn [capacity_ usage_ allocated deleted SetCapacity]; try done.
    + by rewrite (ss_usage _ _ Hs).
    + by rewrite (ss_allocated _ _ Hs).
    + by rewrite (ss_deleted _ _ Hs).
    + apply (lists_frame c0).
      { intros a. apply links_frame. intros b. rewrite <- Hl. by destruct b. }
      split.
      * intros [| |e] Hx; [split; [|constructor]; by repeat split..|by destruct (Hx e)].
      * intros [| |] [| |] y _ _; cbn; by intros ?%not_elem_of_nil.
      * intros e. unfold next_of, link_of, c0. cbn. by rewrite lookup_empty.
    + intros e. split; [by intros ?%not_elem_of_nil|]. intros (i & Hie & _). cbn in Hie. by rewrite lookup_empty in Hie.
  - exists bks. split; [apply (table_ok_frame c); try done; intros e x _ Hx; by exists x|]. intros e. rewrite Hp. split; [by intros ?%not_elem_of_nil|]. intros (i & Hie & _). cbn in Hie. by rewrite lookup_empty in Hie.
Qed.

(** ** Calls in sequence *)
Inductive cache_op : Type :=
| OpInsert (key : bytes) (hash : Z) (value : V) (charge : Z)
| OpLookup (key : bytes) (hash : Z)
| OpRelease (e : nat)
| OpErase (key : bytes) (hash : Z)
| OpPrune.

(** The handle that is returned, and the cache. *)
Definition cache_step (op : cache_op) c : res (option nat * LRUCache V) :=
  match op with
  | OpInsert key hash value charge => let! '(e, c) := lru_Insert key hash value charge c in Ret (Some e, c)
  | OpLookup key hash => lru_Lookup key hash c
  | OpRelease e => let! c := lru_Release e c in Ret (None, c)
  | OpErase key hash => let! c := lru_Erase key hash c in Ret (None, c)
  | OpPrune => let! c := lru_Prune c in Ret (None, c)
  end.

Definition st_step (op : cache_op) s : option nat * State V :=
  match op with
  | OpInsert key hash value charge => let '(e, s) := st_insert key hash value charge s in (Some e, s)
  | OpLookup key hash => st_lookup key hash s
  | OpRelease e => (None, st_release e s)
  | OpErase key hash => (None, st_erase key hash s)
  | OpPrune => (None, st_prune s)
  end.

(** A client gives up only handles that it has; the counters do not overflow. *)
Definition op_ok (op : cache_op) s : Prop :=
  insertable s /\ match op with OpRelease e => held_in s e | _ => True end.

Fixpoint cache_steps (ops : list cache_op) c : res (list (option nat) * LRUCache V) :=
  match ops with
  | [] => Ret ([], c)
  | op :: ops => let! '(r, c) := cache_step op c in let! '(rs, c) := cache_steps ops c in Ret (r :: rs, c)
  end.

Fixpoint st_steps (ops : list cache_op) s : list (option nat) * State V :=
  match ops with
  | [] => ([], s)
  | op :: ops => let '(r, s) := st_step op s in let '(rs, s) := st_steps ops s in (r :: rs, s)
  end.

Fixpoint steps_ok (ops : list cache_op) s : Prop :=
  match ops with
  | [] => True
  | op :: ops => op_ok op s /\ steps_ok ops (st_step op s).2
  end.

#[export] Instance op_ok_dec op s : Decision (op_ok op s).
Proof.
  apply and_dec.
  - apply and_dec; [apply and_dec|apply _]; [|apply _]. change (Decision (map_Forall (fun (_ : nat) i => item_held i < 2 ^ 32 - 2) (st_items s))). apply map_Forall_dec. intros. apply _.
  - destruct op; try apply _. unfold held_in. destruct (st_items s !! e) as [i|]; [|by right; intros (? & ? & _)].
    destruct (decide (0 < item_held i)); [left; by exists i|by right; intros (? & [= <-] & ?)].
Defined.

#[export] Instance steps_ok_dec ops s : Decision (steps_ok ops s).
Proof. revert s. induction ops as [|op ops IH]; intros s; [by left|]. apply and_dec; [apply _|apply IH]. Defined.

Lemma st_erase_ok key hash s : state_ok s -> state_ok (st_erase key hash s).
Proof.
  intros Hs. unfold st_erase. pose proof (st_find_spec key hash s) as Hf. destruct (st_find key hash s) as [e|]; [|done].
  destruct Hf as (i & Hi & Hc & _). apply st_uncache_ok; [done|]. by exists i.
Qed.

Lemma st_step_ok op s : state_ok s -> op_ok op s -> state_ok (st_step op s).2.
Proof.
  intros Hs [_ Hop]. destruct op as [key hash value charge|key hash|e|key hash|]; cbn [st_step].
  - pose proof (st_insert_ok key hash value charge s Hs). by destruct (st_insert key hash value charge s).
  - unfold st_lookup. pose proof (st_find_spec key hash s) as Hf. destruct (st_find key hash s) as [e|]; [|done].
    destruct Hf as (i & Hi & Hc & _). apply st_ref_ok; [done|]. by exists i.
  - by apply st_release_ok.
  - by apply st_erase_ok.
  - by apply st_prune_ok.
Qed.

Lemma cache_step_holds op c s : cache_rep c s -> state_ok s -> op_ok op s ->
  exists c', cache_step op c = Ret ((st_step op s).1, c') /\ cache_rep c' (st_step op s).2.
Proof.
  intros Hc Hs [Hins Hop]. pose proof (proj1 Hins) as Hb. destruct op as [key hash value charge|key hash|e|key hash|]; cbn [cache_step st_step].
  - destruct (lru_Insert_holds c s key hash value charge Hc Hs Hins) as (c' & -> & Hc' & _). rewrite res_bind_ret.
    destruct (st_insert key hash value charge s) as [e s']. by exists c'.
  - by apply lru_Lookup_holds.
  - destruct (lru_Release_holds c s e Hc Hs Hb Hop) as (c' & -> & Hc'). rewrite res_bind_ret. by exists c'.
  - destruct (lru_Erase_holds c s key hash Hc Hs Hb) as (c' & -> & Hc'). rewrite res_bind_ret. by exists c'.
  - destruct (lru_Prune_holds c s Hc Hs Hb) as (c' & -> & Hc' & _). rewrite res_bind_ret. by exists c'.
Qed.

Lemma cache_steps_holds ops c s : cache_rep c s -> state_ok s -> steps_ok ops s ->
  exists c', cache_steps ops c = Ret ((st_steps ops s).1, c') /\ cache_rep c' (st_steps ops s).2 /\ state_ok (st_steps ops s).2.
Proof.
  revert c s. induction ops as [|op ops IH]; intros c s Hc Hs Hok; [by exists c|]. destruct Hok as [Hop Hok].
  pose proof (st_step_ok op s Hs Hop) as Hs'. destruct (cache_step_holds op c s Hc Hs Hop) as (c1 & E & Hc1).
  cbn [cache_steps st_steps]. rewrite E, res_bind_ret. destruct (st_step op s) as [r s1]. cbn [fst snd] in *.
  destruct (IH c1 s1 Hc1 Hs' Hok) as (c' & E' & Hc' & Hs2). rewrite E', res_bind_ret. destruct (st_steps ops s1) as [rs s2]. by exists c'.
Qed.

(** ** The destructor *)
Lemma destroy_step c e h : handles c !! e = Some h -> in_cache h = true -> refs h = 1 -> next (links h) <> Some (Entry e) ->
  exists c', destroy_body (Some (Entry e), c) = Ret (inl (next (links h), c')) /\ deleted c' = deleted c ++ [(key_data h, handle_value h)] /\
    forall y, handles c' !! y = if decide (y = e) then None else handles c !! y.
Proof.
  intros Eh Hc Hr Hn. unfold destroy_body, handle_at. rewrite Eh. cbn [of_option]. rewrite res_bind_ret, Hc. cbn [assert_]. rewrite res_bind_ret.
  unfold update, handle_at. rewrite Eh. cbn [of_option]. rewrite !res_bind_ret, Hr. change (1 =? 1) with true. cbn [assert_]. rewrite res_bind_ret.
  unfold Unref, deallocate, handle_key, update, handle_at. cbn [handles set_handles]. rewrite lookup_insert_eq. cbn [of_option]. rewrite !res_bind_ret.
  cbn [refs set_in_cache]. rewrite Hr. change (0 <? 1) with true. cbn [assert_]. rewrite !res_bind_ret. cbn [handles set_handles].
  rewrite lookup_insert_eq. cbn [of_option]. rewrite !res_bind_ret. cbn [refs in_cache links set_refs set_in_cache]. change (u32 (1 - 1) =? 0) with true. cbn [negb assert_].
  rewrite res_bind_ret, bool_decide_false by done. cbn [negb assert_]. rewrite !res_bind_ret. eexists. split; [done|]. split; [done|].
  intros y. cbn [handles]. destruct (decide (y = e)) as [->|]; [by rewrite lookup_delete_eq|]. by rewrite lookup_delete_ne, !lookup_insert_ne.
Qed.

(** No client has a handle. *)
Definition all_released s : Prop := forall e i, st_items s !! e = Some i -> item_held i = 0.

#[export] Instance all_released_dec s : Decision (all_released s).
Proof. change (Decision (map_Forall (fun (_ : nat) i => item_held i = 0) (st_items s))). apply map_Forall_dec. intros. apply _. Defined.

Lemma uncache_released s e : all_released s -> cached_in s e -> all_released (st_uncache e s).
Proof.
  intros Hs (i & Hi & _) y j. rewrite (af_item _ _ _ _ _ (st_uncache_affects s e i Hi)). destruct (decide (y = e)); [|apply Hs].
  unfold left_cache. by rewrite (Hs e i Hi).
Qed.

Lemma no_items s : state_ok s -> all_released s -> st_lru s = [] -> forall e, st_items s !! e = None.
Proof.
  intros Hs Hr El e. destruct (st_items s !! e) as [i|] eqn:Hi; [|done]. destruct (so_held s (so_base s Hs) e i Hi) as [_ Hc].
  assert (e ∈ st_lru s) as He.
  { apply (so_lru s (so_base s Hs)). exists i. split; [done|]. rewrite (Hr e i Hi) in *. split; [|done]. destruct (item_cached i); [done|]. by specialize (Hc eq_refl). }
  rewrite El in He. by apply not_elem_of_nil in He.
Qed.

(** The loop at the entries [l], in the list of [c]. *)
Record destroying c s (p : option addr) c0 s0 : Prop := {
  ds_ok : state_ok s0;
  ds_released : all_released s0;
  ds_prune : st_prune s0 = st_prune s;
  ds_deleted : deleted c0 = st_deleted s0;
  ds_info : forall e, info_of c0 e = item_info <$> st_items s0 !! e;
  ds_next : forall e, e ∈ st_lru s0 -> next_of c0 (Entry e) = next_of c (Entry e);
  ds_suffix : exists l, st_lru s = l ++ st_lru s0;
  ds_at : p = Some (match st_lru s0 with e :: _ => Entry e | [] => LruHead end);
}.

Lemma lru_destroy_holds c s : cache_rep c s -> state_ok s -> all_released s ->
  exists c', lru_destroy c = Ret c' /\ handles c' = ∅ /\ deleted c' = st_deleted (st_prune s).
Proof.
  intros Hc Hs Hrel. pose proof Hc as (iu & Hr & bks & Ht & Hin). pose proof (lru_short c s Hc Hs). unfold lru_destroy.
  destruct (li_dlist _ _ (rp_lists _ _ _ Hr) LruHead is_head_lru) as [Hd _]. destruct (li_dlist _ _ (rp_lists _ _ _ Hr) InUseHead is_head_in_use) as [Hdu _].
  cbn [lists_of] in Hd, Hdu. apply dlist_first in Hdu. assert (iu = []) as ->.
  { destruct iu as [|e iu]; [done|]. assert (e ∈ e :: iu) as (i & Hi & _ & Hpos)%(rp_in_use _ _ _ Hr) by left. rewrite (Hrel e i Hi) in Hpos. lia. }
  change (next_of c InUseHead) with (next (in_use_ c)) in Hdu. rewrite Hdu, bool_decide_true, assert_true, res_bind_ret by done.
  apply (while_rel destroy_body (fun n st => exists s0, n = length (st_lru s0) /\ destroying c s st.1 st.2 s0)
    (fun c' => handles c' = ∅ /\ deleted c' = st_deleted (st_prune s)) (length (st_lru s)) (next (lru_ c), c)).
  - intros n [p c0] (s0 & -> & [Hs0 Hr0 Hp0 Hdel Hi0 Hn0 [l El] Hat]). cbn [fst snd] in *. subst p. destruct (st_lru s0) as [|e l'] eqn:El0.
    + left. exists c0. split; [done|]. split.
      * apply map_eq. intros e. rewrite lookup_empty. specialize (Hi0 e). rewrite (no_items s0 Hs0 Hr0 El0) in Hi0. unfold info_of in Hi0. by destruct (handles c0 !! e).
      * rewrite <- Hp0, Hdel. unfold st_prune. by rewrite El0.
    + right. exists (length l'). assert (e ∈ st_lru s0) as (i & Hi & Hic & Hih)%(so_lru s0 (so_base s0 Hs0)) by (rewrite El0; left).
      pose proof (Hi0 e) as He. rewrite Hi in He. apply info_handle in He as (h & Eh & Eih). rewrite El in Hd.
      pose proof (dlist_next c LruHead l e l' Hd) as Hnext. rewrite <- (Hn0 e) in Hnext by left. unfold next_of, link_of in Hnext. rewrite Eh in Hnext. cbn in Hnext.
      destruct (st_uncache_lru s0 e l' (so_base s0 Hs0) El0) as [El1 Hce]. pose proof (st_uncache_affects s0 e i Hi) as Ha.
      pose proof (so_nodup s0 (so_base s0 Hs0)) as Hnd. rewrite El0 in Hnd. apply list.NoDup_cons in Hnd as [Hne _].
      destruct (destroy_step c0 e h Eh) as (c1 & E1 & Ed1 & Hh1).
      { change (in_cache h) with (i_in_cache (info h)). by rewrite Eih. } { change (refs h) with (i_refs (info h)). rewrite Eih. cbn. by rewrite Hic, Hih. }
      { rewrite Hnext. destruct l' as [|e2 l']; [done|]. intros [= ->]. apply Hne. left. }
      exists (next (links h), c1). split; [done|]. split; [done|]. exists (st_uncache e s0). rewrite El1. split; [done|]. cbn [fst snd]. split; rewrite ?El1.
      * by apply st_uncache_ok.
      * by apply uncache_released.
      * rewrite <- Hp0. unfold st_prune. by rewrite El0, El1.
      * rewrite Ed1, Hdel, (uncache_deleted s0 e i Hi), Hih. pose proof (f_equal i_key Eih) as Ek. pose proof (f_equal i_value Eih) as Ev. cbn in Ek, Ev. by rewrite Ek, Ev.
      * intros y. rewrite (af_item _ _ _ _ _ Ha). unfold info_of in *. rewrite Hh1. destruct (decide (y = e)); [|apply Hi0]. unfold left_cache. by rewrite Hih.
      * intros y Hy. rewrite <- Hn0 by by right. unfold next_of, link_of. rewrite Hh1, decide_False; [done|]. by intros ->.
      * exists (l ++ [e]). by rewrite <- app_assoc.
      * done.
  - exists s. split; [done|]. split; try done; [apply (rp_deleted _ _ _ Hr)|apply (rp_info _ _ _ Hr)|by exists []|]. apply dlist_first in Hd. exact Hd.
  - lia.
Qed.

(** ** Every value is deleted once *)
Definition pair_of i : bytes * V := (item_key i, item_value i).
Definition pairs (m : gmap nat (Item V)) : list (bytes * V) := (fun p => pair_of p.2) <$> map_to_list m.

(** What was deleted, and what is still there. *)
Definition accounted s : list (bytes * V) := st_deleted s ++ pairs (st_items s).

Lemma pairs_delete m e i : m !! e = Some i -> pairs m ≡ₚ pair_of i :: pairs (delete e m).
Proof. intros Hi. unfold pairs. by rewrite <- (map_to_list_delete m e i Hi). Qed.

Lemma pairs_insert_new m e i : m !! e = None -> pairs (<[e := i]> m) ≡ₚ pair_of i :: pairs m.
Proof. intros Hi. unfold pairs. by rewrite map_to_list_insert. Qed.

Lemma pairs_insert m e i i' : m !! e = Some i -> pair_of i' = pair_of i -> pairs (<[e := i']> m) ≡ₚ pairs m.
Proof. intros Hi Ep. rewrite <- insert_delete_eq, pairs_insert_new, Ep by apply lookup_delete_eq. by rewrite <- pairs_delete. Qed.

Lemma accounted_ref s e : accounted (st_ref e s) ≡ₚ accounted s.
Proof. unfold st_ref. destruct (st_items s !! e) as [i|] eqn:Hi; [|done]. unfold accounted. cbn. by rewrite (pairs_insert _ e i). Qed.

Lemma accounted_delete s e i l : st_items s !! e = Some i -> accounted (delete_item e i (set_lru l s)) ≡ₚ accounted s.
Proof. intros Hi. unfold accounted. cbn. rewrite (pairs_delete _ e i Hi), <- app_assoc. done. Qed.

Lemma accounted_release s e : accounted (st_release e s) ≡ₚ accounted s.
Proof.
  unfold st_release. destruct (st_items s !! e) as [i|] eqn:Hi; [|done]. destruct (_ =? _); [destruct (item_cached i)|].
  - unfold accounted. cbn. by rewrite (pairs_insert _ e i).
  - rewrite <- (set_lru_same s) at 1. by apply accounted_delete.
  - unfold accounted. cbn. by rewrite (pairs_insert _ e i).
Qed.

Lemma accounted_uncache s e : accounted (st_uncache e s) ≡ₚ accounted s.
Proof.
  unfold st_uncache. destruct (st_items s !! e) as [i|] eqn:Hi; [|done]. destruct (_ =? _); [by apply accounted_delete|].
  unfold accounted. cbn. by rewrite (pairs_insert _ e i).
Qed.

Lemma accounted_evict l s : accounted (st_evict l s) ≡ₚ accounted s.
Proof. revert s. induction l as [|e l IH]; intros s; [done|]. cbn. destruct (_ <? _); [|done]. by rewrite IH, accounted_uncache. Qed.

Lemma accounted_prune s : accounted (st_prune s) ≡ₚ accounted s.
Proof.
  unfold st_prune. generalize (st_lru s). intros l. revert s. induction l as [|e l IH]; intros s; [done|]. cbn. by rewrite IH, accounted_uncache.
Qed.

(** What the calls insert. *)
Fixpoint inserted (ops : list cache_op) : list (bytes * V) :=
  match ops with
  | [] => []
  | OpInsert key _ value _ :: ops => (key, value) :: inserted ops
  | _ :: ops => inserted ops
  end.

Lemma accounted_step op s : state_ok s -> accounted (st_step op s).2 ≡ₚ inserted [op] ++ accounted s.
Proof.
  intros Hs. destruct op as [key hash value charge|key hash|e|key hash|]; cbn [st_step inserted snd app].
  - rewrite st_insert_eq. cbn zeta. cbn [snd]. rewrite accounted_evict. transitivity (accounted (st_add key hash value charge s)).
    + unfold st_replace. destruct (if 0 <? st_capacity s then st_find key hash s else None); [apply accounted_uncache|done].
    + unfold accounted. cbn. rewrite pairs_insert_new by apply (st_next_fresh s (so_base s Hs)). rewrite Permutation_middle. done.
  - unfold st_lookup. destruct (st_find key hash s); [apply accounted_ref|done].
  - apply accounted_release.
  - unfold st_erase. destruct (st_find key hash s); [apply accounted_uncache|done].
  - apply accounted_prune.
Qed.

Lemma accounted_steps ops s : state_ok s -> steps_ok ops s -> accounted (st_steps ops s).2 ≡ₚ inserted ops ++ accounted s.
Proof.
  revert s. induction ops as [|op ops IH]; intros s Hs Hok; [done|]. destruct Hok as [Hop Hok]. cbn [st_steps].
  pose proof (accounted_step op s Hs) as Ha. pose proof (st_step_ok op s Hs Hop) as Hs'. destruct (st_step op s) as [r s1]. cbn [snd] in *.
  specialize (IH s1 Hs' Hok). destruct (st_steps ops s1) as [rs s2]. cbn [snd] in *. rewrite IH, Ha.
  destruct op; cbn [inserted app]; try done. by rewrite <- Permutation_middle.
Qed.

Lemma destroyed_deleted s : state_ok s -> all_released s -> st_deleted (st_prune s) ≡ₚ accounted s.
Proof.
  intros Hs Hr. destruct (st_prune_ok s Hs) as [Hs' El].
  assert (all_released (st_prune s)) as Hr'.
  { clear El Hs'. unfold st_prune. remember (st_lru s) as l eqn:E. symmetry in E. revert s Hs Hr E. induction l as [|e l IH]; intros s Hs Hr E; [done|]. cbn [foldl].
    destruct (st_uncache_lru s e l (so_base s Hs) E) as [El Hc]. apply IH; [by apply st_uncache_ok|by apply uncache_released|done]. }
  rewrite <- accounted_prune. unfold accounted. replace (st_items (st_prune s)) with (∅ : gmap nat (Item V)); [unfold pairs; rewrite map_to_list_empty; by rewrite app_nil_r|].
  symmetry. apply map_eq. intros e. rewrite lookup_empty. by apply no_items.
Qed.
End history.
Arguments cache_op : clear implicits.

(** C16: Whatever is inserted, found, released, erased and pruned, in any order, a
    shard of the cache behaves as specified: the same handles are returned, the
    charge of the cached entries is counted, and the same values are passed to
    their deleters in the same order; no entry is used after it was freed, and
    no assertion fails. The client releases only handles that it holds, and the
    counters do not overflow ([steps_ok]); operations do not run at the same
    time. *)
Theorem lru_cache_refines {V : Type} capacity (ops : list (cache_op V)) :
  steps_ok ops (empty_state capacity) ->
  exists c0 c, new_LRUCache = Ret c0 /\ cache_steps ops (SetCapacity capacity c0) = Ret ((st_steps ops (empty_state capacity)).1, c) /\
    let s := (st_steps ops (empty_state capacity)).2 in TotalCharge c = st_usage s /\ deleted c = st_deleted s /\
    forall e, handle_value <$> handles c !! e = item_value <$> st_items s !! e.
Proof.
  intros Hok. destruct (new_LRUCache_holds (V := V) capacity) as (c0 & E0 & Hc0).
  destruct (cache_steps_holds ops _ _ Hc0 (empty_state_ok capacity) Hok) as (c & E & (iu & Hr & _) & _). exists c0, c.
  split; [done|]. split; [done|]. split; [apply (rp_usage _ _ _ Hr)|]. split; [apply (rp_deleted _ _ _ Hr)|].
  intros e. pose proof (rp_info _ _ _ Hr e) as Hi. unfold info_of in Hi. destruct (handles c !! e), (st_items _ !! e) as [i|]; try done.
  injection Hi as Hv _. cbn. by rewrite Hv.
Qed.

(** Once all handles are released and the cache is destroyed, every value
    that was inserted has been passed to its deleter, with its key, exactly
    once, and no entry is left. *)
Theorem lru_cache_deletes {V : Type} capacity (ops : list (cache_op V)) :
  steps_ok ops (empty_state capacity) -> all_released (st_steps ops (empty_state capacity)).2 ->
  exists c0 rs c c', new_LRUCache = Ret c0 /\ cache_steps ops (SetCapacity capacity c0) = Ret (rs, c) /\ lru_destroy c = Ret c' /\
    handles c' = ∅ /\ deleted c' ≡ₚ inserted ops.
Proof.
  intros Hok Hrel. destruct (new_LRUCache_holds (V := V) capacity) as (c0 & E0 & Hc0).
  destruct (cache_steps_holds ops _ _ Hc0 (empty_state_ok capacity) Hok) as (c & E & Hc & Hs).
  destruct (lru_destroy_holds c _ Hc Hs Hrel) as (c' & Ed & Hh & Hdel). exists c0, (st_steps ops (empty_state capacity)).1, c, c'.
  split; [done|]. split; [done|]. split; [done|]. split; [done|]. rewrite Hdel, destroyed_deleted, accounted_steps by (done || apply empty_state_ok).
  unfold accounted, pairs. cbn. by rewrite map_to_list_empty, app_nil_r.
Qed.

(** A cache for two entries: the third insertion evicts the first. *)
Definition example_ops : list (cache_op Z) :=
  [OpInsert [1] 5 10 1; OpInsert [2] 9 20 1; OpRelease 0; OpLookup [1] 5; OpRelease 0; OpInsert [3] 13 30 1; OpLookup [1] 5;
   OpInsert [2] 9 21 1; OpRelease 1; OpRelease 2; OpErase [3] 13; OpPrune; OpRelease 3].

Lemma lru_cache_refines_witness :
  steps_ok example_ops (empty_state 2) /\
  exists c0 c, new_LRUCache = Ret c0 /\
    cache_steps example_ops (SetCapacity 2 c0) = Ret ([Some 0; Some 1; None; Some 0; None; Some 2; None; Some 3; None; None; None; None; None]%nat, c) /\
    TotalCharge c = 1 /\ deleted c = [([1], 10); ([2], 20); ([3], 30)].
Proof.
  assert (steps_ok example_ops (empty_state 2)) as Hok by (apply (bool_decide_unpack _); vm_compute; exact I).
  split; [exact Hok|]. destruct (lru_cache_refines 2 example_ops Hok) as (c0 & c & E0 & E & Ht & Hd & _). exists c0, c. split; [exact E0|].
  split; [rewrite E; vm_compute; reflexivity|]. split; [rewrite Ht; vm_compute; reflexivity|rewrite Hd; vm_compute; reflexivity].
Defined.

Lemma lru_cache_deletes_witness :
  steps_ok example_ops (empty_state 2) /\ all_released (st_steps example_ops (empty_state 2)).2 /\
  exists c0 rs c c', new_LRUCache = Ret c0 /\ cache_steps example_ops (SetCapacity 2 c0) = Ret (rs, c) /\ lru_destroy c = Ret c' /\
    handles c' = ∅ /\ deleted c' ≡ₚ [([1], 10); ([2], 20); ([3], 30); ([2], 21)].
Proof.
  assert (steps_ok example_ops (empty_state 2)) as Hok by (apply (bool_decide_unpack _); vm_compute; exact I).
  assert (all_released (st_steps example_ops (empty_state 2)).2) as Hrel by (apply (bool_decide_unpack _); vm_compute; exact I).
  split; [exact Hok|]. split; [exact Hrel|]. exact (lru_cache_deletes 2 example_ops Hok Hrel).
Defined.
