(* ===== verification/BlockCaches.v ===== *)
(** * LevelDB: the LRU cache as a block cache

    What is in the sharded cache was inserted, whatever it holds; so the cache
    keeps the contract that tables rely on.  Between the operations here all
    handles have been given up, so that only cached values remain. *)
From S2P Require Import Prelude LdbBase Iterator Block Filter FilterFacts Cache CacheSpec CacheFacts CacheHistory Table.

(** ** One shard *)
Section shard.
Context {V : Type} (P : bytes -> V -> Prop).
Implicit Types (s : State V) (i : Item V) (e : nat) (c : LRUCache V).

Definition item_fine i : Prop := P (item_key i) (item_value i) /\ 0 < item_charge i < 2 ^ 63.
Definition items_fine s : Prop := forall e i, st_items s !! e = Some i -> item_fine i.

(** Only [e] may have handles. *)
Definition released_but e s : Prop := forall y i, st_items s !! y = Some i -> y <> e -> item_held i = 0.

Record shard_fine s : Prop := {
  sf_ok : state_ok s;
  sf_released : all_released s;
  sf_items : items_fine s;
  sf_capacity : 0 <= st_capacity s < 2 ^ 30;
  sf_size : st_total s <= st_capacity s \/ (base.size (st_items s) <= 1)%nat;
}.

Lemma total_bounds m : (forall (e : nat) i, m !! e = Some i -> 0 < item_charge i < 2 ^ 63) ->
  0 <= total_of m <= 2 ^ 63 * Z.of_nat (base.size m) /\
  ((forall e i, m !! e = Some i -> item_cached i = true) -> Z.of_nat (base.size m) <= total_of m).
Proof.
  induction m as [|e i m He IH] using map_ind; intros Hm; [by split|]. destruct IH as [IH1 IH2].
  { intros y j Hj. apply (Hm y). rewrite lookup_insert_ne; [done|]. intros ->. congruence. }
  rewrite total_insert_new, map_size_insert_None by done. pose proof (Hm e i ltac:(apply lookup_insert_eq)) as Hi. unfold cached_charge. split.
  - destruct (item_cached i); lia.
  - intros Hc. rewrite (Hc e i) by apply lookup_insert_eq. specialize (IH2 (fun y j Hj => Hc y j ltac:(rewrite lookup_insert_ne; [done|intros ->; congruence]))). lia.
Qed.

Lemma released_cached s e i : state_ok s -> st_items s !! e = Some i -> item_held i = 0 -> item_cached i = true.
Proof. intros Hs Hi Hh. destruct (so_held s (so_base s Hs) e i Hi) as [_ Hc]. destruct (item_cached i); [done|]. specialize (Hc eq_refl). lia. Qed.

(** There are few entries, and their charge does not overflow. *)
Lemma fine_bounds s : shard_fine s -> Z.of_nat (base.size (st_items s)) <= 2 ^ 30 /\ 0 <= st_total s <= 2 ^ 63.
Proof.
  intros [Hs Hr Hi Hc Hsz]. destruct (total_bounds (st_items s)) as [Ht Hn]; [intros e i He; by apply (Hi e)|].
  assert (Z.of_nat (base.size (st_items s)) <= total_of (st_items s)) as Hle by (apply Hn; intros e i He; by apply (released_cached s e); [| |apply (Hr e)]).
  change (st_total s) with (total_of (st_items s)) in *. lia.
Qed.

Lemma fine_insertable s : shard_fine s -> insertable s.
Proof.
  intros Hf. destruct (fine_bounds s Hf) as [Hb _]. split; [split; [|lia]|lia]. intros e i Hi. by rewrite (sf_released s Hf e i Hi).
Qed.

Lemma items_fine_affects e oi l s s' : affects e oi l s s' -> items_fine s -> (forall i, oi = Some i -> item_fine i) -> items_fine s'.
Proof. intros Ha Hs Ho y i. rewrite (af_item _ _ _ _ _ Ha). destruct (decide (y = e)); [apply Ho|apply Hs]. Qed.

Lemma uncache_fine s e i : st_items s !! e = Some i -> items_fine s -> items_fine (st_uncache e s).
Proof.
  intros Hi Hs. eapply items_fine_affects; [by apply st_uncache_affects|done|]. unfold left_cache. intros j Ej.
  destruct (item_held i =? 0); [done|]. injection Ej as <-. exact (Hs e i Hi).
Qed.

(** ** Lookup, and release *)
Lemma lookup_release_fine s e i : shard_fine s -> st_items s !! e = Some i -> shard_fine (st_release e (st_ref e s)) /\ held_in (st_ref e s) e.
Proof.
  intros Hf Hi. pose proof Hf as [Hs Hr Hit Hc Hsz]. pose proof (Hr e i Hi) as Hh. pose proof (released_cached s e i Hs Hi Hh) as Hic.
  assert (st_items (st_ref e s) !! e = Some (held 1 i)) as Hi1 by (rewrite (af_item _ _ _ _ _ (st_ref_affects s e i Hi)), decide_True, Hh; done).
  assert (held_in (st_ref e s) e) as Hheld by (by exists (held 1 i)). split; [|done].
  assert (st_items (st_release e (st_ref e s)) = st_items s) as Eit.
  { apply map_eq. intros y. rewrite (af_item _ _ _ _ _ (st_release_affects _ e _ Hi1)). destruct (decide (y = e)) as [->|Hne].
    - unfold released. cbn. rewrite Hi, Hic. destruct i. cbn in *. by subst.
    - by rewrite (af_item _ _ _ _ _ (st_ref_affects s e i Hi)), decide_False. }
  assert (st_capacity (st_release e (st_ref e s)) = st_capacity s) as Ec.
  { by rewrite (af_capacity _ _ _ _ _ (st_release_affects _ e _ Hi1)), (af_capacity _ _ _ _ _ (st_ref_affects s e i Hi)). }
  split; unfold all_released, items_fine; rewrite ?Eit, ?Ec; try done.
  - apply st_release_ok; [|done]. apply st_ref_ok; [done|]. by exists i.
  - unfold st_total. by rewrite Eit.
Qed.

(** ** Insert, and release *)
Lemma evict_fits l s : state_ok s -> st_lru s = l -> st_usage (st_evict l s) <= st_capacity (st_evict l s) \/ st_lru (st_evict l s) = [].
Proof.
  revert s. induction l as [|e l IH]; intros s Hs El; [by right|]. cbn. destruct (Z.ltb_spec (st_capacity s) (st_usage s)); [|by left].
  destruct (st_uncache_lru s e l (so_base s Hs) El) as [El' Hc]. apply IH; [by apply st_uncache_ok|done].
Qed.

(** During an insertion of [e]. *)
Record inserting e (n : Z) s : Prop := {
  in_item : exists i, st_items s !! e = Some i /\ item_held i = 1;
  in_released : released_but e s;
  in_items : items_fine s;
  in_capacity : st_capacity s = n;
  in_total : 0 <= st_total s < 2 ^ 64;
}.

Lemma inserting_uncache e n s y : inserting e n s -> y <> e -> cached_in s y -> inserting e n (st_uncache y s).
Proof.
  intros [Hi Hr Hit Hc Ht] Hne (j & Hj & Hjc). pose proof (st_uncache_affects s y j Hj) as Ha. split.
  - destruct Hi as (i & Hi & Hh). exists i. by rewrite (af_item _ _ _ _ _ Ha), decide_False.
  - intros z k. rewrite (af_item _ _ _ _ _ Ha). destruct (decide (z = y)) as [->|]; [|apply Hr]. unfold left_cache. rewrite (Hr y j Hj Hne). done.
  - by eapply uncache_fine.
  - by rewrite (af_capacity _ _ _ _ _ Ha).
  - rewrite (total_uncache s y j Hj Hjc). destruct (Hit y j Hj) as [_ Hch]. split; [|lia].
    change (st_total s) with (total_of (st_items s)). rewrite (total_delete _ y j Hj). unfold cached_charge. rewrite Hjc.
    destruct (total_bounds (delete y (st_items s))) as [? _]; [|lia]. intros z k Hk. apply lookup_delete_Some in Hk as [_ Hk]. by apply (Hit z).
Qed.

Lemma insert_fine s key hash value charge : shard_fine s -> P key value -> 0 < charge < 2 ^ 63 ->
  let s' := (st_insert key hash value charge s).2 in
  state_ok s' /\ inserting (st_next s) (st_capacity s) s' /\ (st_total s' <= st_capacity s \/ (base.size (st_items s') <= 1)%nat) /\
  exists i, st_items s' !! st_next s = Some i /\ item_hash i = hash /\ item_value i = value.
Proof.
  intros Hf HP Hch s'. pose proof Hf as [Hs Hr Hit Hc Hsz]. destruct (fine_bounds s Hf) as [_ Ht]. pose proof (st_next_fresh s (so_base s Hs)) as Hfr.
  set (e := st_next s) in *. set (s1 := st_add key hash value charge s).
  assert (inserting e (st_capacity s) s1 /\ exists i, st_items s1 !! e = Some i /\ item_hash i = hash /\ item_value i = value) as H1.
  { assert (st_items s1 !! e = Some (MkItem key hash value charge (0 <? st_capacity s) 1)) as He by (unfold s1; by rewrite st_add_item, decide_True). split; [split|by eexists].
    - by eexists.
    - intros y i. unfold s1. rewrite st_add_item. fold e. intros Hy Hne. rewrite decide_False in Hy by done. by apply (Hr y).
    - intros y i. unfold s1. rewrite st_add_item. fold e. destruct (decide (y = e)); [intros [= <-]; by split|apply Hit].
    - done.
    - unfold s1. rewrite total_add by apply (so_base s Hs). destruct (0 <? st_capacity s); lia. }
  set (s2 := st_replace key hash s s1). pose proof (st_replace_ok key hash value charge s Hs) as Hs2. fold s1 s2 in Hs2.
  assert (inserting e (st_capacity s) s2 /\ exists i, st_items s2 !! e = Some i /\ item_hash i = hash /\ item_value i = value) as H2.
  { unfold s2, st_replace. destruct (0 <? st_capacity s); [|done]. pose proof (st_find_spec key hash s) as Hspec. destruct (st_find key hash s) as [o|]; [|done].
    destruct Hspec as (i & Hi & Hic & _). assert (o <> e) as Hne by (intros ->; congruence).
    assert (st_items s1 !! o = Some i) as Hi1 by (unfold s1; by rewrite st_add_item, decide_False). destruct H1 as [H1 (j & Hj & Hjh)]. split.
    - apply inserting_uncache; [done|done|by exists i].
    - exists j. by rewrite (af_item _ _ _ _ _ (st_uncache_affects s1 o i Hi1)), decide_False. }
  assert (s' = st_evict (st_lru s2) s2) as Es by done.
  destruct (st_evict_ind (fun s => inserting e (st_capacity s2) s /\ exists i, st_items s !! e = Some i /\ item_hash i = hash /\ item_value i = value) (st_lru s2) s2 Hs2 eq_refl) as [Hs' [Hin Hhash]].
  { by rewrite (in_capacity _ _ _ (proj1 H2)). }
  { intros y l s0 Hs0 El [Hin (j & Hj & Hjh)]. destruct (st_uncache_lru s0 y l (so_base s0 Hs0) El) as [_ Hcy].
    assert (y <> e) as Hne.
    { intros ->. assert (e ∈ st_lru s0) as (i & Hi & _ & Hz)%(so_lru s0 (so_base s0 Hs0)) by (rewrite El; left).
      destruct (in_item _ _ _ Hin) as (i' & Hi' & Hone). rewrite Hi in Hi'. injection Hi' as <-. lia. }
    split; [by apply inserting_uncache|]. exists j. destruct Hcy as (k & Hk & _). by rewrite (af_item _ _ _ _ _ (st_uncache_affects s0 y k Hk)), decide_False. }
  rewrite (in_capacity _ _ _ (proj1 H2)) in Hin. split; [done|]. split; [done|]. split; [|done]. rewrite Es.
  destruct (evict_fits (st_lru s2) s2 Hs2 eq_refl) as [Hfit|Hnil].
  - left. unfold st_usage in Hfit. rewrite wrap_small in Hfit by apply (in_total _ _ _ Hin). by rewrite (in_capacity _ _ _ Hin) in Hfit.
  - right. rewrite <- size_dom.
    etrans; [apply (subseteq_size _ ({[e]} : gset nat))|by rewrite size_singleton]. intros y Hy. apply elem_of_dom in Hy as [i Hi]. apply elem_of_singleton.
    destruct (decide (y = e)) as [|Hne]; [done|]. pose proof (in_released _ _ _ Hin y i Hi Hne) as Hz.
    assert (y ∈ st_lru (st_evict (st_lru s2) s2)) as Hl; [|rewrite Hnil in Hl; by apply not_elem_of_nil in Hl].
    apply (so_lru _ (so_base _ Hs')). exists i. split; [done|]. split; [by eapply released_cached|done].
Qed.

Lemma insert_release_fine s key hash value charge : shard_fine s -> P key value -> 0 < charge < 2 ^ 63 ->
  let '(e, s') := st_insert key hash value charge s in shard_fine (st_release e s') /\ held_in s' e /\ state_ok s' /\
    exists i, st_items s' !! e = Some i /\ item_hash i = hash /\ item_value i = value.
Proof.
  intros Hf HP Hch. destruct (insert_fine s key hash value charge Hf HP Hch) as (Hs' & Hin & Hsz & Hhash). rewrite st_insert_eq in *. cbn zeta in *. cbn [snd] in *.
  set (s' := st_evict _ _) in *. set (e := st_next s) in *. destruct Hin as [(i & Hi & Hh) Hr Hit Hc Ht]. pose proof (st_release_affects s' e i Hi) as Ha.
  assert (held_in s' e) as Hheld by (exists i; split; [done|lia]). split; [|split; [done|split; [done|done]]].
  split.
    + by apply st_release_ok.
    + intros y j. rewrite (af_item _ _ _ _ _ Ha). destruct (decide (y = e)) as [->|Hne]; [|intros Hy; by apply (Hr y)].
      unfold released. rewrite Hh. cbn. destruct (item_cached i); [by intros [= <-]|done].
    + eapply items_fine_affects; [done|done|]. unfold released. rewrite Hh. cbn. intros j. destruct (item_cached i); [|done]. intros [= <-]. exact (Hit e i Hi).
    + rewrite (af_capacity _ _ _ _ _ Ha), Hc. apply (sf_capacity s Hf).
    + rewrite (total_release s' e i Hi), (af_capacity _ _ _ _ _ Ha), Hc. destruct Hsz as [|Hsz]; [by left|right]. etrans; [|exact Hsz].
      eapply size_affects; [exact Ha|by eexists].
Qed.

(** ** The operations of a shard, with the handle given up *)
Definition shard_ok c : Prop := exists s, cache_rep c s /\ shard_fine s.

Lemma held_handle c s e i : cache_rep c s -> st_items s !! e = Some i ->
  exists h, handle_at c e = Ret h /\ handle_hash h = item_hash i /\ handle_value h = item_value i.
Proof.
  intros (iu & Hr & _) Hi. destruct (item_live c s iu e i Hr Hi) as (h & Eh & _ & Ei). exists h. split; [done|].
  split; [exact (f_equal i_hash Ei)|exact (f_equal i_value Ei)].
Qed.

Lemma shard_lookup c key hash : shard_ok c -> exists p c', lru_Lookup key hash c = Ret (p, c') /\
  match p with
  | Some e => exists h c'', handle_at c' e = Ret h /\ handle_hash h = hash /\ P key (handle_value h) /\ lru_Release e c' = Ret c'' /\ shard_ok c''
  | None => shard_ok c'
  end.
Proof.
  intros (s & Hc & Hf). pose proof (sf_ok s Hf) as Hs. destruct (fine_insertable s Hf) as [Hb _].
  destruct (lru_Lookup_holds c s key hash Hc Hs Hb) as (c' & E & Hc'). revert E Hc'. unfold st_lookup. pose proof (st_find_spec key hash s) as Hspec.
  destruct (st_find key hash s) as [e|]; cbn [fst snd]; intros E Hc'; eexists; exists c'; (split; [exact E|]); [|by exists s].
  destruct Hspec as (i & Hi & _ & Ehash & Ekey). cbn in Ehash, Ekey. destruct (lookup_release_fine s e i Hf Hi) as [Hf' Hheld].
  assert (st_items (st_ref e s) !! e = Some (held (item_held i + 1) i)) as Hi' by by rewrite (af_item _ _ _ _ _ (st_ref_affects s e i Hi)), decide_True.
  destruct (held_handle c' _ e _ Hc' Hi') as (h & Eh & Ehh & Ev). cbn in Ehh, Ev.
  destruct (lru_Release_holds c' (st_ref e s) e Hc') as (c'' & Er & Hc''); [| |done|].
  - apply st_ref_ok; [done|]. exists i. split; [done|]. apply (released_cached s e); [done|done|by apply (sf_released s Hf e)].
  - destruct Hb as [Hbh Hbs]. split.
    + intros y j. rewrite (af_item _ _ _ _ _ (st_ref_affects s e i Hi)). destruct (decide (y = e)); [|apply Hbh].
      intros [= <-]. cbn. rewrite (sf_released s Hf e i Hi). lia.
    + unfold st_ref. rewrite Hi. cbn. rewrite map_size_insert_Some by done. done.
  - exists h, c''. split; [done|]. split; [congruence|]. split; [|split; [done|by eexists]]. rewrite Ev. rewrite <- Ekey. apply (sf_items s Hf e i Hi).
Qed.

Lemma shard_insert c key hash value charge : shard_ok c -> P key value -> 0 < charge < 2 ^ 63 ->
  exists e c' h c'', lru_Insert key hash value charge c = Ret (e, c') /\ handle_at c' e = Ret h /\ handle_hash h = hash /\ handle_value h = value /\
    lru_Release e c' = Ret c'' /\ shard_ok c''.
Proof.
  intros (s & Hc & Hf) HP Hch. pose proof (insert_release_fine s key hash value charge Hf HP Hch) as Hir.
  destruct (lru_Insert_holds c s key hash value charge Hc (sf_ok s Hf) (fine_insertable s Hf)) as (c' & E & Hc' & Hb).
  destruct (st_insert key hash value charge s) as [e s']. cbn [fst snd] in *. destruct Hir as (Hf' & Hheld & Hs' & i & Hi & Eh & Ev).
  destruct (held_handle c' s' e i Hc' Hi) as (h & Ehh & Ehash & Eval). destruct (lru_Release_holds c' s' e Hc' Hs' Hb Hheld) as (c'' & Er & Hc'').
  exists e, c', h, c''. split; [done|]. split; [done|]. split; [congruence|]. split; [congruence|]. split; [done|]. by exists (st_release e s').
Qed.

(** ** Erase *)
Lemma erase_fine s key hash : shard_fine s -> shard_fine (st_erase key hash s).
Proof.
  intros Hf. pose proof Hf as [Hs Hr Hi Hc Hsz]. pose proof (st_erase_ok key hash s Hs) as Hs'. revert Hs'. unfold st_erase. pose proof (st_find_spec key hash s) as Hspec.
  destruct (st_find key hash s) as [e|]; [|done]. destruct Hspec as (i & He & Hic & _). intros Hs'. pose proof (st_uncache_affects s e i He) as Ha. split; [done| | | |].
  - intros y j. rewrite (af_item _ _ _ _ _ Ha). destruct (decide (y = e)) as [->|]; [|apply Hr]. unfold left_cache. by rewrite (Hr e i He).
  - by eapply uncache_fine.
  - by rewrite (af_capacity _ _ _ _ _ Ha).
  - rewrite (af_capacity _ _ _ _ _ Ha), (total_uncache s e i He Hic). destruct (Hi e i He) as [_ Hch]. destruct Hsz as [Hsz|Hsz]; [left; lia|right].
    etrans; [eapply size_affects; [exact Ha|by eexists]|exact Hsz].
Qed.

Lemma shard_erase c key hash : shard_ok c -> exists c', lru_Erase key hash c = Ret c' /\ shard_ok c'.
Proof.
  intros (s & Hc & Hf). destruct (lru_Erase_holds c s key hash Hc (sf_ok s Hf) (proj1 (fine_insertable s Hf))) as (c' & -> & Hc').
  exists c'. split; [done|]. exists (st_erase key hash s). split; [done|]. by apply erase_fine.
Qed.

Lemma new_shard_ok capacity : 0 <= capacity < 2 ^ 30 -> exists c, new_LRUCache = Ret c /\ shard_ok (SetCapacity capacity c).
Proof.
  intros Hcap. destruct (new_LRUCache_holds (V := V) capacity) as (c & E & Hc). exists c. split; [done|]. exists (empty_state capacity). split; [done|].
  assert (forall e, st_items (empty_state (V := V) capacity) !! e = None) as Hno by (intros e; apply lookup_empty).
  split; [apply empty_state_ok|intros e i; by rewrite Hno|intros e i; by rewrite Hno|done|].
  right. cbn. rewrite map_size_empty. lia.
Qed.
End shard.

(** ** All shards *)
Lemma shard_ok_impl {V} (P Q : bytes -> V -> Prop) c : (forall k v, P k v -> Q k v) -> shard_ok P c -> shard_ok Q c.
Proof.
  intros HPQ (s & Hc & [Hs Hr Hi Hcap Hsz]). exists s. split; [done|]. split; try done. intros e i He. destruct (Hi e i He). split; [by apply HPQ|done].
Qed.

Section shards.
Context {V : Type}.
Implicit Types (P : bytes -> V -> Prop) (s : ShardedLRUCache V).

Definition sharded_ok P s : Prop := length (shard_ s) = 16%nat /\ Forall (shard_ok P) (shard_ s).

Lemma sharded_ok_impl P Q s : (forall k v, P k v -> Q k v) -> sharded_ok P s -> sharded_ok Q s.
Proof. intros HPQ [Hl Hs]. split; [done|]. eapply List.Forall_impl; [|exact Hs]. intros c. by apply shard_ok_impl. Qed.

(** The shard of a key. *)
Lemma shard_of P key s : sharded_ok P s ->
  exists hash c, HashSlice key = Ret hash /\ shard_at s (Shard hash) = Ret c /\ shard_ s !! Shard hash = Some c /\ shard_ok P c.
Proof.
  intros [Hl Hok]. unfold HashSlice. destruct (Hash_ok key 0) as (hash & E & Hh). assert (Shard hash < length (shard_ s))%nat as Hlt.
  { rewrite Hl. unfold Shard, kNumShardBits. rewrite Z.shiftr_div_pow2 by lia. assert (hash / 2 ^ 28 < 16) by (apply Z.div_lt_upper_bound; lia). change (32 - 4) with 28. lia. }
  apply lookup_lt_is_Some in Hlt as [c Ec]. exists hash, c. split; [done|]. unfold shard_at. rewrite Ec. split; [done|]. split; [done|]. by eapply list.Forall_lookup in Hok.
Qed.

Lemma sharded_ok_set P i c s : sharded_ok P s -> shard_ok P c -> sharded_ok P (set_shard i c s).
Proof. intros [Hl Hok] Hc. split; cbn; [by rewrite length_insert|]. by apply Forall_insert. Qed.

Lemma shard_at_set i c s : is_Some (shard_ s !! i) -> shard_at (set_shard i c s) i = Ret c.
Proof. intros [c0 E]. unfold shard_at. cbn. rewrite list_lookup_insert_eq; [done|]. by eapply lookup_lt_Some. Qed.

Lemma set_shard_twice i c c' s : set_shard i c' (set_shard i c s) = set_shard i c' s.
Proof. unfold set_shard. cbn. by rewrite list_insert_insert_eq. Qed.

Lemma sharded_release i e h c c' s : is_Some (shard_ s !! i) -> handle_at c e = Ret h -> Shard (handle_hash h) = i ->
  lru_Release e c = Ret c' -> sharded_Release (MkHandle i e) (set_shard i c s) = Ret (set_shard i c' s).
Proof.
  intros Hs Eh Ei Er. unfold sharded_Release, sharded_handle. cbn [handle_shard handle_entry]. rewrite (shard_at_set i c s Hs), res_bind_ret, Eh, !res_bind_ret, Ei, Nat.eqb_refl.
  cbn [assert_]. rewrite res_bind_ret, (shard_at_set i c s Hs), res_bind_ret, Er, res_bind_ret. by rewrite set_shard_twice.
Qed.

(** A handle on [v], which can be given up. *)
Definition handle_on P s (handle : Handle) (v : V) : Prop :=
  sharded_Value handle s = Ret v /\ exists s', sharded_Release handle s = Ret s' /\ sharded_ok P s'.

Lemma handle_on_set P i e h c c' s : sharded_ok P s -> is_Some (shard_ s !! i) -> handle_at c e = Ret h -> Shard (handle_hash h) = i ->
  lru_Release e c = Ret c' -> shard_ok P c' -> handle_on P (set_shard i c s) (MkHandle i e) (handle_value h).
Proof.
  intros Hs Hi Eh Ei Er Hc'. split; [|exists (set_shard i c' s); split; [by eapply sharded_release|by apply sharded_ok_set]].
  unfold sharded_Value, sharded_handle. cbn [handle_shard handle_entry]. by rewrite (shard_at_set i c s Hi), res_bind_ret, Eh, res_bind_ret.
Qed.

Lemma sharded_Lookup_ok P key s : sharded_ok P s ->
  exists o s', sharded_Lookup key s = Ret (o, s') /\
    match o with Some handle => exists v, P key v /\ handle_on P s' handle v | None => sharded_ok P s' end.
Proof.
  intros Hs. destruct (shard_of P key s Hs) as (hash & c & Eh & Ec & El & Hc). destruct (shard_lookup P c key hash Hc) as (p & c' & E & Hp).
  unfold sharded_Lookup. rewrite Eh, res_bind_ret, Ec, res_bind_ret, E, !res_bind_ret. eexists _, _. split; [done|].
  destruct p as [e|]; cbn [fmap option_fmap option_map]; [|by apply sharded_ok_set].
  destruct Hp as (h & c'' & Eat & Ehh & HP & Er & Hc''). exists (handle_value h). split; [done|]. eapply handle_on_set; [done|by eexists|done|by rewrite Ehh|done|done].
Qed.

Lemma sharded_Insert_ok P key v charge s : sharded_ok P s -> P key v -> 0 < charge < 2 ^ 63 ->
  exists handle s', sharded_Insert key v charge s = Ret (handle, s') /\ handle_on P s' handle v.
Proof.
  intros Hs HP Hch. destruct (shard_of P key s Hs) as (hash & c & Eh & Ec & El & Hc).
  destruct (shard_insert P c key hash v charge Hc HP Hch) as (e & c' & h & c'' & E & Eat & Ehh & Ev & Er & Hc'').
  unfold sharded_Insert. rewrite Eh, res_bind_ret, Ec, res_bind_ret, E, !res_bind_ret. eexists _, _. split; [done|].
  rewrite <- Ev. eapply handle_on_set; [done|by eexists|done|by rewrite Ehh|done|done].
Qed.

Lemma sharded_Erase_ok P key s : sharded_ok P s -> exists s', sharded_Erase key s = Ret s' /\ sharded_ok P s'.
Proof.
  intros Hs. destruct (shard_of P key s Hs) as (hash & c & Eh & Ec & El & Hc). destruct (shard_erase P c key hash Hc) as (c' & E & Hc').
  unfold sharded_Erase. rewrite Eh, res_bind_ret, Ec, res_bind_ret, E, res_bind_ret. eexists. split; [done|]. by apply sharded_ok_set.
Qed.

Lemma new_shards_ok P n capacity : 0 <= capacity < 2 ^ 30 ->
  exists cs, new_shards (V := V) n capacity = Ret cs /\ length cs = n /\ Forall (shard_ok P) cs.
Proof.
  intros Hcap. induction n as [|n IH]; [by exists []|]. destruct (new_shard_ok P capacity Hcap) as (c & E & Hc), IH as (cs & Ecs & Hl & Hcs).
  cbn [new_shards]. rewrite E, res_bind_ret, Ecs, res_bind_ret. eexists. split; [done|]. cbn [length]. split; [by rewrite Hl|]. by constructor.
Qed.

(** A new cache is empty. *)
Lemma NewLRUCache_ok P capacity : 0 <= capacity < 2 ^ 33 -> exists s, NewLRUCache capacity = Ret s /\ sharded_ok P s.
Proof.
  intros Hcap. unfold NewLRUCache, new_ShardedLRUCache. change kNumShards with 16. rewrite wrap_small by lia.
  destruct (new_shards_ok P (Z.to_nat 16) ((capacity + (16 - 1)) / 16)) as (cs & -> & Hl & Hcs).
  { split; [apply Z.div_pos; lia|apply Z.div_lt_upper_bound; lia]. }
  rewrite res_bind_ret. eexists. split; [done|]. split; [exact Hl|done].
Qed.
End shards.

(** ** Blocks: a client gives up each handle at once *)
Definition sharded_block_lookup (key : bytes) (s : ShardedLRUCache Block) : res (option Block * ShardedLRUCache Block) :=
  let! '(p, s) := sharded_Lookup key s in
  match p with
  | Some handle =>
      let! b := sharded_Value handle s in
      let! s := sharded_Release handle s in
      Ret (Some b, s)
  | None => Ret (None, s)
  end.

Definition sharded_block_insert (key : bytes) (b : Block) (charge : Z) (s : ShardedLRUCache Block) : res (ShardedLRUCache Block) :=
  let! '(handle, s) := sharded_Insert key b charge s in sharded_Release handle s.

#[export] Instance ShardedLRUCache_BlockCache : BlockCache (ShardedLRUCache Block) := {|
  cache_NewId := sharded_NewId;
  cache_Lookup := sharded_block_lookup;
  cache_Insert := sharded_block_insert;
|}.

Lemma sharded_lookup_ok P key s : sharded_ok P s ->
  exists o s', sharded_block_lookup key s = Ret (o, s') /\ sharded_ok P s' /\ forall b, o = Some b -> P key b.
Proof.
  intros Hs. unfold sharded_block_lookup. destruct (sharded_Lookup_ok P key s Hs) as (o & s' & -> & Ho). rewrite res_bind_ret.
  destruct o as [handle|]; [|by exists None, s']. destruct Ho as (b & HP & -> & s'' & -> & Hs''). rewrite !res_bind_ret.
  exists (Some b), s''. split; [done|]. split; [done|]. by intros ? [= <-].
Qed.

Lemma sharded_insert_ok P key b charge s : sharded_ok P s -> P key b -> 0 < charge < 2 ^ 63 ->
  exists s', sharded_block_insert key b charge s = Ret s' /\ sharded_ok P s'.
Proof.
  intros Hs HP Hch. unfold sharded_block_insert. destruct (sharded_Insert_ok P key b charge s Hs HP Hch) as (handle & s' & -> & _ & s'' & E & Hs'').
  rewrite res_bind_ret. by exists s''.
Qed.

#[export] Instance ShardedLRUCache_BlockCacheOk : BlockCacheOk (ShardedLRUCache Block).
Proof.
  refine {| cache_all := sharded_ok |}.
  - intros P Q s. apply sharded_ok_impl.
  - intros P s Hs. exact Hs.
  - intros P k s _. apply sharded_lookup_ok.
  - intros P k b charge s _ Hch Hs HP. by apply sharded_insert_ok.
Defined.
