(* ===== verification/TableRoundtrip.v ===== *)
(** * LevelDB's tables: what was built is what is read

    The builder and the reader together: iteration and lookups in a table that
    was built, with any comparator, filter policy and block cache that keep
    their contracts. *)
From S2P Require Import Prelude LdbBase Coding Comparator DbFormat Iterator Block BlockBuild TwoLevel Format Filter FilterFacts TableBuilder Table TableBuild TableFacts Cache BlockCaches.

(** ** Separators split keys *)
#[export] Instance eq_separator_splits c valid `{!ComparatorOk c valid} : SeparatorSplits c valid eq.
Proof.
  intros start limit s k Hs Hl Hlt E _ <-. right. destruct (Separator_ok start limit Hs Hl Hlt) as (s' & E' & _ & _ & _ & Hs').
  rewrite E in E'. by injection E' as <-.
Qed.

(** A separator of internal keys is a key of its block, or its user key is
    below that of the next block. *)
#[export] Instance internal_separator_splits uc valid `{!ComparatorOk uc valid} :
  SeparatorSplits (InternalKeyComparator uc) (ivalid valid) same_user_key.
Proof.
  intros start limit s k (u & n & -> & Hu & Hn) (v & m & -> & Hv & Hm) Hlt E (w & j & -> & Hw & Hj) Hsame.
  unfold same_user_key in Hsame. rewrite !ExtractUserKey_app in Hsame by apply zlength_fixed64. injection Hsame as <-.
  cbn [FindShortestSeparator InternalKeyComparator] in E. unfold internal_FindShortestSeparator in E.
  rewrite !ExtractUserKey_app, !res_bind_ret in E by apply zlength_fixed64. apply ikey_lt_intro in Hlt; [|done|done].
  assert (exists t, FindShortestSeparator uc u v = Ret t /\ valid t /\ (t = u \/ key_lt uc valid t v)) as (t & Et & Ht & Htv).
  { destruct Hlt as [Hlt|[-> _]].
    - destruct (Separator_ok u v Hu Hv Hlt) as (t & Et & Ht & _ & _ & Htv). exists t. auto.
    - exists v. split; [by apply Separator_same|]. auto. }
  rewrite Et, res_bind_ret in E. destruct (tack_on_ok uc valid u t Hu Ht) as (o & Eo & Ho). rewrite Eo, res_bind_ret in E.
  destruct o as [x|]; [|injection E as <-; by left]. destruct Ho as (-> & Hut & Hlen). right.
  destruct Htv as [->|Htv]; [by apply key_lt_irrefl in Hut|]. pose proof seek_tag_bound as Hseek.
  assert (s = t ++ EncodeFixed64 (tag kMaxSequenceNumber kValueTypeForSeek)) as ->.
  { repeat (match type of E with context [let! _ := ?x in _] => destruct x as [?| |] eqn:?; cbn in E; try done end). by injection E as <-. }
  apply ikey_lt_intro; auto.
Qed.

Section roundtrip.
Context (valid : bytes -> Prop) (same : bytes -> bytes -> Prop) (cost : Z) (opt : Options).
Abbreviation c := (opt_comparator opt).
Context `{!ComparatorOk c valid} `{!SeparatorSplits c valid same}.
Context {W : Type} `{ReliableFile W} {R : Type} `{RandomReadableFile R} {C : Type} `{BlockCacheOk C}.

(** What a table is built with, and what it is built from. *)
Definition options_ok : Prop :=
  1 <= block_restart_interval opt /\ (forall k, valid k -> bytes_ok k) /\ 0 <= cost /\
  forall p, filter_policy opt = Some p -> FilterPolicyOk p valid same cost /\ bytes_ok (fp_Name p) /\ zlength (fp_Name p) < 2 ^ 31.

Definition contents_ok (es : list entry) : Prop :=
  entries_ok c valid es /\ Forall (fun e => bytes_ok e.2) es /\ entries_cost es < 2 ^ 29 /\ cost * zlength es < 2 ^ 29.

(** The cache does not hold blocks under the id that it will give out. *)
Definition fresh_cache (cache : option C) : Prop :=
  match cache with
  | Some ch => cache_all (fun k _ => forall o, k <> EncodeFixed64 (cache_NewId ch).1 ++ EncodeFixed64 o) ch
  | None => True
  end.

Lemma built_table es (f : W) : options_ok -> contents_ok es -> wf_contents f = [] ->
  exists s r, build_table opt es f = Ret (s, r) /\ ok s = true /\ FileSize r = zlength (wf_contents (file r)) /\
    forall (g : R) cache, raf_contents g = wf_contents (file r) -> fresh_cache cache ->
    exists t cache' ws idx, Open opt g (FileSize r) cache = Ret (Status_OK, Some t, cache') /\ cache_ok ws t cache' /\
      table_entries ws = es /\ table_layout c valid same cost (filter_policy opt) (raf_contents g) ws /\
      table_at valid same opt g ws t idx.
Proof.
  intros (Hint & Hval & Hcost & Hpol) (Hes & Hv & Hsz & Hcs) Hf.
  destruct (build_table_holds valid same cost opt Hint Hval) with (es := es) (f := f) as (s & r & ws & E & Hs & Ete & Htf & Hsize); try done.
  { intros p Ep. by destruct (Hpol p Ep) as (? & ? & _). }
  { intros p Ep. by destruct (Hpol p Ep) as (_ & _ & ?). }
  exists s, r. split; [done|]. split; [done|]. split; [done|]. intros g cache Hg Hc. rewrite <- Hg in Htf.
  destruct (Open_holds valid same cost opt) with (f := g) (ws := ws) (cache := cache) as (t & idx & cache' & Eo & Ht & Hid); try done.
  { intros p Ep. by destruct (Hpol p Ep) as (? & ? & _). }
  rewrite Hg, <- Hsize in Eo. exists t, cache', ws, idx. split; [done|]. split; [|done].
  destruct cache as [ch|]; [|by subst cache']. destruct Hid as [Hid ->]. cbn [cache_ok fresh_cache] in *. apply cache_NewId_ok.
  eapply cache_all_impl; [|exact Hc]. intros k b Hk i w _ ->. exfalso. unfold block_cache_key in Hk. rewrite Hid in Hk. by eapply Hk.
Qed.

(** ** Lookups, one after the other *)

(** [InternalGet] with a handler that stores the entry. *)
Fixpoint gets (t : Table R) (ro : ReadOptions) (ks : list bytes) (cache : option C) : res (list (Status * option entry) * option C) :=
  match ks with
  | [] => Ret ([], cache)
  | k :: ks =>
      let! '(s, o, cache) := InternalGet t ro k None (fun _ key value => Ret (Some (key, value))) cache in
      let! '(rs, cache) := gets t ro ks cache in
      Ret ((s, o) :: rs, cache)
  end.

(** The answer for [k]: the first entry at or past it, which is only left out
    when it is not the same as [k]. *)
Definition answers (es : list entry) (k : bytes) (r : Status * option entry) : Prop :=
  r.1 = Status_OK /\ exists p, seek_pos c valid es k p /\
    match r.2 with
    | Some e => exists n, p = Some n /\ es !! n = Some e
    | None => forall n e, p = Some n -> es !! n = Some e -> ~ same e.1 k
    end.

Lemma gets_holds (g : R) ws t ro idx ks cache :
  table_layout c valid same cost (filter_policy opt) (raf_contents g) ws -> table_at valid same opt g ws t idx ->
  cache_ok ws t cache -> Forall valid ks ->
  exists rs cache', gets t ro ks cache = Ret (rs, cache') /\ Forall2 (answers (table_entries ws)) ks rs.
Proof.
  intros Htf Ht Hc Hks. revert cache Hc. induction Hks as [|k ks Hk _ IH]; intros cache Hc; [by exists [], cache|].
  destruct (InternalGet_holds valid same cost opt g ws Htf idx (tt_length _ _ _ _ _ _ _ Ht) (tt_index_ok _ _ _ _ _ _ _ Ht)
    t ro k None (fun _ key value => Ret (Some (key, value))) cache Ht Hc Hk) as (p & cache' & Hp & Hc' & Hcase).
  destruct (IH cache' Hc') as (rs & cache'' & E & Hrs). cbn [gets]. destruct Hcase as [(n & e & -> & He & ->)|[-> Hnot]].
  - rewrite !res_bind_ret, E, res_bind_ret. eexists _, cache''. split; [done|]. constructor; [|done]. split; [done|].
    exists (Some n). split; [done|]. exists n. split; [done|]. rewrite He. by destruct e.
  - rewrite res_bind_ret, E, res_bind_ret. eexists _, cache''. split; [done|]. constructor; [|done]. split; [done|]. by exists p.
Qed.
End roundtrip.
Arguments gets {R _ C _} t ro ks cache.
Arguments answers valid same opt {_} es k r.
Arguments fresh_cache {C _ _} cache.
Arguments options_ok valid same cost opt : clear implicits.

(** C9: A table survives the round trip, with any restart interval from 1, any block
    size, filter policy and block cache that meet their interfaces: entries in
    increasing order of their keys, below 512 MB in all, are added to a builder
    on an empty file; building returns OK, the table is opened, and its iterator
    yields exactly the entries, forward, backward and from any target. No call
    of the files fails. *)
Theorem table_roundtrip valid same cost opt `{!ComparatorOk (opt_comparator opt) valid} `{!SeparatorSplits (opt_comparator opt) valid same}
    `{ReliableFile W} `{RandomReadableFile R} `{BlockCacheOk C} es (f : W) :
  options_ok valid same cost opt -> contents_ok valid cost opt es -> wf_contents f = [] ->
  exists s r, build_table opt es f = Ret (s, r) /\ ok s = true /\ FileSize r = zlength (wf_contents (file r)) /\
    forall (g : R) (cache : option C) ro, raf_contents g = wf_contents (file r) -> fresh_cache cache ->
    exists t cache' it, Open opt g (FileSize r) cache = Ret (Status_OK, Some t, cache') /\ table_NewIterator t cache' = Ret it /\
      @yields _ (opt_comparator opt) valid _ (TwoLevelIterator_Iterator (BlockReader t ro)) es it.
Proof.
  intros Hopt Hes Hf. destruct (built_table valid same cost opt es f Hopt Hes Hf) as (s & r & E & Hs & Hsz & Hopen).
  exists s, r. split; [done|]. split; [done|]. split; [done|]. intros g cache ro Hg Hc.
  destruct (Hopen g cache Hg Hc) as (t & cache' & ws & idx & Eo & Hc' & <- & Htf & Ht).
  destruct (table_NewIterator_at valid same cost opt g ws Htf idx (tt_length _ _ _ _ _ _ _ Ht) (tt_index_ok _ _ _ _ _ _ _ Ht) t ro Ht cache' Hc')
    as (it & Ei & Hit). exists t, cache', it. split; [done|]. split; [done|]. eapply @it_at_yields, Hit.
Qed.

(** C10: In a table built as above, from entries in increasing order and below 512
    MB, a lookup ([InternalGet]) hands the first entry at or past the key to its
    handler; the filter and the index may only skip this when that entry is not
    for the same key ([same], the relation of the filter policy). This holds for
    any sequence of lookups, which share the block cache. The files do not fail;
    comparator, filter policy and cache meet their interfaces. *)
Theorem table_get valid same cost opt `{!ComparatorOk (opt_comparator opt) valid} `{!SeparatorSplits (opt_comparator opt) valid same}
    `{ReliableFile W} `{RandomReadableFile R} `{BlockCacheOk C} es (f : W) :
  options_ok valid same cost opt -> contents_ok valid cost opt es -> wf_contents f = [] ->
  exists s r, build_table opt es f = Ret (s, r) /\ ok s = true /\
    forall (g : R) (cache : option C) ro ks, raf_contents g = wf_contents (file r) -> fresh_cache cache -> Forall valid ks ->
    exists t cache' rs cache'', Open opt g (FileSize r) cache = Ret (Status_OK, Some t, cache') /\
      gets t ro ks cache' = Ret (rs, cache'') /\ Forall2 (answers valid same opt es) ks rs.
Proof.
  intros Hopt Hes Hf. destruct (built_table valid same cost opt es f Hopt Hes Hf) as (s & r & E & Hs & Hsz & Hopen).
  exists s, r. split; [done|]. split; [done|]. intros g cache ro ks Hg Hc Hks.
  destruct (Hopen g cache Hg Hc) as (t & cache' & ws & idx & Eo & Hc' & <- & Htf & Ht).
  destruct (gets_holds valid same cost opt g ws t ro idx ks cache' Htf Ht Hc' Hks) as (rs & cache'' & Eg & Hrs).
  by exists t, cache', rs, cache''.
Qed.

(** ** A table with two data blocks, a Bloom filter and the LRU cache *)
Definition example_options : Options :=
  MkOptions BytewiseComparator true 16 2 kSnappyCompression (Some (BloomFilter (MkBloomFilterPolicy 10 6))).

Definition example_entries : list entry := [([1; 2], [7]); ([1; 3], []); ([2], [8; 9; 10; 11; 12; 13; 14; 15]); ([4; 4], [1; 2; 3])].

Lemma example_options_ok : options_ok bytes_ok eq 20 example_options.
Proof.
  split; [done|]. split; [done|]. split; [lia|]. intros p [= <-]. split; [apply BloomFilter_ok; cbn; lia|]. split; [by apply bytes_ok_forallb|done].
Qed.

Lemma example_entries_ok : contents_ok bytes_ok 20 example_options example_entries.
Proof.
  split; [apply bytewise_entries_ok; [reflexivity|]|split; [|done]]; by repeat (constructor; [by apply bytes_ok_forallb|]).
Qed.

Lemma new_cache_fresh : exists ch : ShardedLRUCache Block, NewLRUCache 1000 = Ret ch /\ fresh_cache (Some ch).
Proof.
  destruct (NewLRUCache_ok (V := Block) (fun _ _ => False) 1000) as (ch & E & Hch); [done|]. exists ch. split; [done|].
  eapply cache_all_impl; [|exact Hch]. by intros.
Qed.

Lemma table_roundtrip_witness :
  options_ok bytes_ok eq 20 example_options /\ contents_ok bytes_ok 20 example_options example_entries /\
  exists s (r : Rep bytes) ch t cache' it, build_table example_options example_entries [] = Ret (s, r) /\ NewLRUCache 1000 = Ret ch /\
    Open example_options (file r) (FileSize r) (Some ch) = Ret (Status_OK, Some t, cache') /\ table_NewIterator t cache' = Ret it /\
    @yields _ BytewiseComparator bytes_ok _ (TwoLevelIterator_Iterator (BlockReader (C := ShardedLRUCache Block) t (MkReadOptions true true)))
      example_entries it.
Proof.
  split; [exact example_options_ok|]. split; [exact example_entries_ok|]. destruct new_cache_fresh as (ch & Ech & Hfresh).
  destruct (table_roundtrip (R := bytes) (C := ShardedLRUCache Block) bytes_ok eq 20 example_options example_entries ([] : bytes))
    as (s & r & E & _ & _ & Hopen); [exact example_options_ok|exact example_entries_ok|reflexivity|].
  destruct (Hopen (file r) (Some ch) (MkReadOptions true true) eq_refl Hfresh) as (t & cache' & it & Eo & Ei & Hit).
  exists s, r, ch, t, cache', it. split; [exact E|]. split; [exact Ech|]. split; [exact Eo|]. split; [exact Ei|exact Hit].
Defined.

Lemma table_get_witness :
  options_ok bytes_ok eq 20 example_options /\ contents_ok bytes_ok 20 example_options example_entries /\
  exists s (r : Rep bytes) t cache' s1 s2 o2 cache'', build_table example_options example_entries [] = Ret (s, r) /\
    Open (C := ShardedLRUCache Block) example_options (file r) (FileSize r) None = Ret (Status_OK, Some t, cache') /\
    gets t (MkReadOptions true true) [[2]; [3]] cache' = Ret ([(s1, Some ([2], [8; 9; 10; 11; 12; 13; 14; 15])); (s2, o2)], cache'').
Proof.
  split; [exact example_options_ok|]. split; [exact example_entries_ok|].
  destruct (table_get (R := bytes) (C := ShardedLRUCache Block) bytes_ok eq 20 example_options example_entries ([] : bytes))
    as (s & r & E & _ & Hopen); [exact example_options_ok|exact example_entries_ok|reflexivity|].
  destruct (Hopen (file r) None (MkReadOptions true true) [[2]; [3]]) as (t & cache' & rs & cache'' & Eo & Eg & Hrs); [reflexivity|exact I| |].
  { by repeat (constructor; [by apply bytes_ok_forallb|]). }
  apply list.Forall2_cons_inv_l in Hrs as ([s1 o1] & rs1 & [_ Ha1] & Hrs & ->). apply list.Forall2_cons_inv_l in Hrs as ([s2 o2] & rs2 & _ & Hrs & ->).
  apply list.Forall2_nil_inv_l in Hrs as ->. exists s, r, t, cache', s1, s2, o2, cache''. split; [exact E|]. split; [exact Eo|]. rewrite Eg.
  destruct Ha1 as (p & Hp & Ho).
  assert (p = Some 2%nat) as ->.
  { eapply (seek_pos_unique BytewiseComparator bytes_ok); [exact Hp|].
    apply (seek_pos_entry BytewiseComparator bytes_ok example_entries 2 ([2], [8; 9; 10; 11; 12; 13; 14; 15])); [|reflexivity].
    apply (proj1 example_entries_ok). }
  destruct o1 as [e1|]; cbn [snd] in Ho.
  - destruct Ho as (n & En & He). injection En as <-. injection He as <-. reflexivity.
  - by destruct (Ho 2%nat _ eq_refl eq_refl).
Defined.
