(* ===== verification/Version.v ===== *)
(** * LevelDB: versions (version_set.cc, the class [Version])

    A version lists the table files of each level.  A [FileMetaData*] is the
    address of a file in a heap, which versions share.  A null [Slice*] or
    [InternalKey*] is [None].  The table cache is the class [TableCache]. *)
From Stdlib Require Import SpecFloat.
From S2P Require Import Prelude LdbBase Coding Comparator DbFormat VersionEdit WriteBatch Iterator Format Filter FilterFacts.

Abbreviation FilePtr := nat (only parsing).
Abbreviation files_heap := (gmap nat FileMetaData) (only parsing).

Definition file_at (h : files_heap) (p : FilePtr) : res FileMetaData := of_option (h !! p).

Definition MaxGrandParentOverlapBytes (max_file_size : Z) : Z := s64 (10 * max_file_size).
Definition ExpandedCompactionByteSizeLimit (max_file_size : Z) : Z := s64 (25 * max_file_size).

(** [sum += file_size] is computed in [uint64_t]. *)
Fixpoint total_file_size (h : files_heap) (files : list FilePtr) (sum : Z) : res Z :=
  match files with
  | [] => Ret sum
  | p :: files => let! f := file_at h p in total_file_size h files (s64 (u64 sum + file_size f))
  end.
Definition TotalFileSize (h : files_heap) (files : list FilePtr) : res Z := total_file_size h files 0.

(** ** What a version uses of the table cache

    [tc_Get] calls the handler, at most once, with an entry of the table. *)
Class TableCache (TC : Type) : Type := {
  tc_Get : forall {A : Type}, ReadOptions -> Z -> Z -> bytes -> A -> (A -> bytes -> bytes -> res A) -> TC -> res (Status * A * TC);
}.

(** What a lookup relies on: a cache that serves the tables of [F] (by number
    and size) hands the first entry at or past the key to the handler; it may
    only leave this out when that entry is for another user key. *)
Class TableCacheOk (TC : Type) `{!TableCache TC} (uc : Comparator) (valid : bytes -> Prop) `{!ComparatorOk uc valid} : Type := {
  tc_serves : (Z -> Z -> list entry -> Prop) -> TC -> Prop;
  tc_Get_ok : forall {A} ro n sz k (arg : A) handle tc (F : Z -> Z -> list entry -> Prop) es,
    tc_serves F tc -> F n sz es -> ivalid valid k ->
    exists p tc', seek_pos (InternalKeyComparator uc) (ivalid valid) es k p /\ tc_serves F tc' /\
      ((exists i e, p = Some i /\ es !! i = Some e /\
          tc_Get ro n sz k arg handle tc = let! arg := handle arg e.1 e.2 in Ret (Status_OK, arg, tc')) \/
       (tc_Get ro n sz k arg handle tc = Ret (Status_OK, arg, tc') /\
          forall i e, p = Some i -> es !! i = Some e -> ~ same_user_key e.1 k));
}.

(** A [double], as an IEEE 754 number. *)
Definition double_of (z : Z) : spec_float := binary_normalize 53 1024 z 0 false.

(** [files_] has [kNumLevels] vectors; the links [next_] and [prev_] are the list
    of versions of the version set. *)
Record Version : Type := MkVersion {
  version_refs : Z;
  files_ : list (list FilePtr);
  file_to_compact_ : option FilePtr;
  file_to_compact_level_ : Z;
  compaction_score_ : spec_float;
  compaction_level_ : Z;
}.

Definition new_Version : Version := MkVersion 0 (replicate (Z.to_nat kNumLevels) []) None (-1) (double_of (-1)) (-1).

Definition set_version_refs (n : Z) (v : Version) : Version :=
  MkVersion n (files_ v) (file_to_compact_ v) (file_to_compact_level_ v) (compaction_score_ v) (compaction_level_ v).
Definition set_version_files (files : list (list FilePtr)) (v : Version) : Version :=
  MkVersion (version_refs v) files (file_to_compact_ v) (file_to_compact_level_ v) (compaction_score_ v) (compaction_level_ v).
Definition set_file_to_compact (p : option FilePtr) (level : Z) (v : Version) : Version :=
  MkVersion (version_refs v) (files_ v) p level (compaction_score_ v) (compaction_level_ v).
Definition set_compaction (score : spec_float) (level : Z) (v : Version) : Version :=
  MkVersion (version_refs v) (files_ v) (file_to_compact_ v) (file_to_compact_level_ v) score level.

(** [files_[level]]. *)
Definition level_files (v : Version) (level : Z) : res (list FilePtr) :=
  if 0 <=? level then of_option (files_ v !! Z.to_nat level) else UB.

Definition NumFiles (v : Version) (level : Z) : res Z := let! files := level_files v level in Ret (zlength files).

(** ** Searching a level *)
Section search.
Context (uc : Comparator) (h : files_heap).
Abbreviation icmp := (InternalKeyComparator uc).

Definition find_file_body (files : list FilePtr) (key : bytes) (st : Z * Z) : res ((Z * Z) + Z) :=
  let '(lo, hi) := st in
  if lo <? hi then
    let mid := u32 (lo + hi) / 2 in
    let! p := of_option (files !! Z.to_nat mid) in
    let! f := file_at h p in
    let! k := InternalKey_Encode (largest f) in
    let! z := Compare icmp k key in
    Ret (inl (if z <? 0 then (u32 (mid + 1), hi) else (lo, mid)))
  else Ret (inr hi).

(** [left] and [right] are [lo] and [hi].  The [int] it returns is used as a [uint32_t]. *)
Definition FindFile (files : list FilePtr) (key : bytes) : res Z := while (find_file_body files key) (0, u32 (zlength files)).

Definition AfterFile (user_key : option bytes) (f : FileMetaData) : res bool :=
  match user_key with
  | None => Ret false
  | Some k => let! l := InternalKey_user_key (largest f) in let! z := Compare uc k l in Ret (0 <? z)
  end.

Definition BeforeFile (user_key : option bytes) (f : FileMetaData) : res bool :=
  match user_key with
  | None => Ret false
  | Some k => let! s := InternalKey_user_key (smallest f) in let! z := Compare uc k s in Ret (z <? 0)
  end.

(** The loop over files that may overlap each other. *)
Fixpoint some_file_overlaps (files : list FilePtr) (smallest_user_key largest_user_key : option bytes) : res bool :=
  match files with
  | [] => Ret false
  | p :: files =>
      let! f := file_at h p in
      let! after := AfterFile smallest_user_key f in
      let! outside := (if after : bool then Ret true else BeforeFile largest_user_key f) in
      if outside : bool then some_file_overlaps files smallest_user_key largest_user_key else Ret true
  end.

Definition SomeFileOverlapsRange (disjoint_sorted_files : bool) (files : list FilePtr) (smallest_user_key largest_user_key : option bytes) : res bool :=
  if negb disjoint_sorted_files then some_file_overlaps files smallest_user_key largest_user_key
  else
    let! index :=
      match smallest_user_key with
      | Some k =>
          let! small_key := InternalKey_make k kMaxSequenceNumber kValueTypeForSeek in
          let! key := InternalKey_Encode small_key in
          FindFile files key
      | None => Ret 0
      end in
    if zlength files <=? index then Ret false
    else
      let! p := of_option (files !! Z.to_nat index) in
      let! f := file_at h p in
      let! before := BeforeFile largest_user_key f in
      Ret (negb before).

Definition OverlapInLevel (v : Version) (level : Z) (smallest_user_key largest_user_key : option bytes) : res bool :=
  let! files := level_files v level in
  SomeFileOverlapsRange (0 <? level) files smallest_user_key largest_user_key.

(** ** Files that overlap a range *)

(** [bound != nullptr && user_cmp->Compare(k, bound) ...]. *)
Definition compare_bound (test : Z -> bool) (k : bytes) (bound : option bytes) : res bool :=
  match bound with None => Ret false | Some b => let! z := Compare uc k b in Ret (test z) end.

(** [i], [user_begin], [user_end] and [*inputs]. *)
Record overlap_state : Type := MkOverlap {
  ov_index : nat;
  ov_begin : option bytes;
  ov_end : option bytes;
  ov_inputs : list FilePtr;
}.

(** One turn of the loop: at level 0, a file that expands the range restarts the
    search. *)
Definition overlapping_body (level : Z) (files : list FilePtr) (st : overlap_state) : res (overlap_state + list FilePtr) :=
  match files !! ov_index st with
  | None => Ret (inr (ov_inputs st))
  | Some p =>
      let i := S (ov_index st) in
      let! f := file_at h p in
      let! file_start := InternalKey_user_key (smallest f) in
      let! file_limit := InternalKey_user_key (largest f) in
      let! before := compare_bound (fun z => z <? 0) file_limit (ov_begin st) in
      let! outside := (if before : bool then Ret true else compare_bound (fun z => 0 <? z) file_start (ov_end st)) in
      if outside : bool then Ret (inl (MkOverlap i (ov_begin st) (ov_end st) (ov_inputs st)))
      else
        let inputs := ov_inputs st ++ [p] in
        if level =? 0 then
          let! earlier := compare_bound (fun z => z <? 0) file_start (ov_begin st) in
          if earlier : bool then Ret (inl (MkOverlap 0 (Some file_start) (ov_end st) []))
          else
            let! later := compare_bound (fun z => 0 <? z) file_limit (ov_end st) in
            if later : bool then Ret (inl (MkOverlap 0 (ov_begin st) (Some file_limit) []))
            else Ret (inl (MkOverlap i (ov_begin st) (ov_end st) inputs))
        else Ret (inl (MkOverlap i (ov_begin st) (ov_end st) inputs))
  end.

Definition user_bound (k : option InternalKey) : res (option bytes) :=
  match k with None => Ret None | Some k => let! u := InternalKey_user_key k in Ret (Some u) end.

Definition GetOverlappingInputs (v : Version) (level : Z) (begin end_ : option InternalKey) : res (list FilePtr) :=
  let! _ := assert_ (0 <=? level) in
  let! _ := assert_ (level <? kNumLevels) in
  let! user_begin := user_bound begin in
  let! user_end := user_bound end_ in
  let! files := level_files v level in
  while (overlapping_body level files) (MkOverlap 0 user_begin user_end []).

(** ** Where a memtable goes *)
Definition pick_level_body (max_file_size : Z) (v : Version) (start limit : InternalKey) (smallest_user_key largest_user_key : bytes) (level : Z) : res (Z + Z) :=
  if level <? kMaxMemCompactLevel then
    let! overlaps := OverlapInLevel v (level + 1) (Some smallest_user_key) (Some largest_user_key) in
    if overlaps : bool then Ret (inr level)
    else if level + 2 <? kNumLevels then
      let! overlaps := GetOverlappingInputs v (level + 2) (Some start) (Some limit) in
      let! sum := TotalFileSize h overlaps in
      if MaxGrandParentOverlapBytes max_file_size <? sum then Ret (inr level) else Ret (inl (level + 1))
    else Ret (inl (level + 1))
  else Ret (inr level).

Definition PickLevelForMemTableOutput (max_file_size : Z) (v : Version) (smallest_user_key largest_user_key : bytes) : res Z :=
  let! overlaps := OverlapInLevel v 0 (Some smallest_user_key) (Some largest_user_key) in
  if overlaps : bool then Ret 0
  else
    let! start := InternalKey_make smallest_user_key kMaxSequenceNumber kValueTypeForSeek in
    let! limit := InternalKey_make largest_user_key 0 kTypeDeletion in
    while (pick_level_body max_file_size v start limit smallest_user_key largest_user_key) 0.

(** ** The files of a level that a lookup reads *)
Definition NewestFirst (a b : FileMetaData) : bool := number b <? number a.

(** [std::sort] with [NewestFirst]; the files have different numbers. *)
Fixpoint insert_newest (p : FilePtr) (l : list FilePtr) : res (list FilePtr) :=
  match l with
  | [] => Ret [p]
  | q :: l' =>
      let! f := file_at h p in
      let! g := file_at h q in
      if NewestFirst f g then Ret (p :: l) else let! l' := insert_newest p l' in Ret (q :: l')
  end.

Fixpoint sort_newest (l : list FilePtr) : res (list FilePtr) :=
  match l with
  | [] => Ret []
  | p :: l => let! l := sort_newest l in insert_newest p l
  end.

(** [tmp]: the files of level 0 whose range has the key. *)
Fixpoint level0_overlapping (user_key : bytes) (files : list FilePtr) : res (list FilePtr) :=
  match files with
  | [] => Ret []
  | p :: files =>
      let! f := file_at h p in
      let! s := InternalKey_user_key (smallest f) in
      let! z := Compare uc user_key s in
      let! inside := (if 0 <=? z then
                        let! l := InternalKey_user_key (largest f) in
                        let! z := Compare uc user_key l in Ret (z <=? 0)
                      else Ret false) in
      let! tmp := level0_overlapping user_key files in
      Ret (if inside : bool then p :: tmp else tmp)
  end.

(** The file of a level above 0 that may have the key. *)
Definition find_in_level (user_key internal_key : bytes) (files : list FilePtr) : res (option FilePtr) :=
  let! index := FindFile files internal_key in
  if index <? zlength files then
    let! p := of_option (files !! Z.to_nat index) in
    let! f := file_at h p in
    let! s := InternalKey_user_key (smallest f) in
    let! z := Compare uc user_key s in
    Ret (if z <? 0 then None else Some p)
  else Ret None.

Definition files_to_search (level : Z) (user_key internal_key : bytes) (files : list FilePtr) : res (list FilePtr) :=
  if level =? 0 then let! tmp := level0_overlapping user_key files in sort_newest tmp
  else let! o := find_in_level user_key internal_key files in Ret (match o with Some p => [p] | None => [] end).
End search.

(** ** Get *)
Inductive SaverState : Type := kNotFound | kFound | kDeleted | kCorrupt.

Record Saver : Type := MkSaver {
  saver_state : SaverState;
  saver_ucmp : Comparator;
  saver_user_key : bytes;
  saver_value : bytes;
}.

Definition SaveValue (s : Saver) (ikey v : bytes) : res Saver :=
  let! o := ParseInternalKey ikey in
  match o with
  | None => Ret (MkSaver kCorrupt (saver_ucmp s) (saver_user_key s) (saver_value s))
  | Some parsed_key =>
      let! z := Compare (saver_ucmp s) (user_key parsed_key) (saver_user_key s) in
      if z =? 0 then
        Ret (match type parsed_key with
             | kTypeValue => MkSaver kFound (saver_ucmp s) (saver_user_key s) v
             | kTypeDeletion => MkSaver kDeleted (saver_ucmp s) (saver_user_key s) (saver_value s)
             end)
      else Ret s
  end.

Record GetStats : Type := MkGetStats {
  seek_file : option FilePtr;
  seek_file_level : Z;
}.

Section get.
Context {TC : Type} `{!TableCache TC} (uc : Comparator) (h : files_heap) (options : ReadOptions).

(** The locals of [Get] that survive a file: [*value], [*stats], the file read
    last with its level, and the table cache. *)
Record get_state : Type := MkGetState {
  gs_value : bytes;
  gs_stats : GetStats;
  gs_last : option (FilePtr * Z);
  gs_cache : TC;
}.

(** Charge the first file when a second one is read. *)
Definition charge_seek (stats : GetStats) (last : option (FilePtr * Z)) : GetStats :=
  match last, seek_file stats with
  | Some (p, level), None => MkGetStats (Some p) level
  | _, _ => stats
  end.

(** The loop over the files of a level: the status when [Get] returns. *)
Fixpoint get_in_files (user_key ikey : bytes) (level : Z) (files : list FilePtr) (st : get_state) : res (option Status * get_state) :=
  match files with
  | [] => Ret (None, st)
  | p :: files =>
      let stats := charge_seek (gs_stats st) (gs_last st) in
      let! f := file_at h p in
      let! '(s, saver, tc) :=
        tc_Get options (number f) (file_size f) ikey (MkSaver kNotFound uc user_key (gs_value st)) SaveValue (gs_cache st) in
      let st := MkGetState (saver_value saver) stats (Some (p, level)) tc in
      if negb (ok s) then Ret (Some s, st)
      else
        match saver_state saver with
        | kNotFound => get_in_files user_key ikey level files st
        | kFound => Ret (Some s, st)
        | kDeleted => Ret (Some (NotFound []), st)
        | kCorrupt => Ret (Some (Corruption2 (str "corrupted key for ") user_key), st)
        end
  end.

Fixpoint get_in_levels (user_key ikey : bytes) (level : Z) (levels : list (list FilePtr)) (st : get_state) : res (option Status * get_state) :=
  match levels with
  | [] => Ret (None, st)
  | files :: levels =>
      let! '(o, st) :=
        match files with
        | [] => Ret (None, st)
        | _ => let! search := files_to_search uc h level user_key ikey files in get_in_files user_key ikey level search st
        end in
      match o with
      | Some s => Ret (Some s, st)
      | None => get_in_levels user_key ikey (level + 1) levels st
      end
  end.

(** The status, [*value], [*stats] and the table cache. *)
Definition Version_Get (v : Version) (k : LookupKey) (value : bytes) (tc : TC) : res (Status * bytes * GetStats * TC) :=
  let! '(o, st) := get_in_levels (lookup_user_key k) (internal_key k) 0 (files_ v) (MkGetState value (MkGetStats None (-1)) None tc) in
  Ret (match o with Some s => s | None => NotFound [] end, gs_value st, gs_stats st, gs_cache st).
End get.
Arguments MkGetState {TC}.
Arguments gs_value {TC}. Arguments gs_stats {TC}. Arguments gs_last {TC}. Arguments gs_cache {TC}.

(** ** Statistics of seeks *)

(** The result, the version and the heap. *)
Definition UpdateStats (stats : GetStats) (v : Version) (h : files_heap) : res (bool * Version * files_heap) :=
  match seek_file stats with
  | None => Ret (false, v, h)
  | Some p =>
      let! f := file_at h p in
      let! n := int_add (allowed_seeks f) (-1) in
      let h := <[p := MkFileMetaData (refs f) n (number f) (file_size f) (smallest f) (largest f)]> h in
      match file_to_compact_ v with
      | None => if n <=? 0 then Ret (true, set_file_to_compact (Some p) (seek_file_level stats) v, h) else Ret (false, v, h)
      | Some _ => Ret (false, v, h)
      end
  end.

Section each_overlapping.
Context {A : Type} (uc : Comparator) (h : files_heap) (func : A -> Z -> FilePtr -> res (bool * A)).

(** [func] on the files of a list until it returns [false]. *)
Fixpoint each_file (level : Z) (files : list FilePtr) (arg : A) : res (bool * A) :=
  match files with
  | [] => Ret (true, arg)
  | p :: files => let! '(more, arg) := func arg level p in if more : bool then each_file level files arg else Ret (false, arg)
  end.

Fixpoint each_level (user_key internal_key : bytes) (level : Z) (levels : list (list FilePtr)) (arg : A) : res A :=
  match levels with
  | [] => Ret arg
  | files :: levels =>
      let! '(more, arg) :=
        match files with
        | [] => Ret (true, arg)
        | _ => let! search := files_to_search uc h level user_key internal_key files in each_file level search arg
        end in
      if more : bool then each_level user_key internal_key (level + 1) levels arg else Ret arg
  end.

Definition ForEachOverlapping (v : Version) (user_key internal_key : bytes) (arg : A) : res A :=
  each_level user_key internal_key 0 (files_ v) arg.
End each_overlapping.

(** [State]: the first match, and how many there were. *)
Definition Match (st : GetStats * Z) (level : Z) (p : FilePtr) : res (bool * (GetStats * Z)) :=
  let '(stats, matches) := st in
  let! matches := int_add matches 1 in
  let stats := if matches =? 1 then MkGetStats (Some p) level else stats in
  Ret (matches <? 2, (stats, matches)).

Definition RecordReadSample (uc : Comparator) (internal_key : bytes) (v : Version) (h : files_heap) : res (bool * Version * files_heap) :=
  let! o := ParseInternalKey internal_key in
  match o with
  | None => Ret (false, v, h)
  | Some ikey =>
      let! '(stats, matches) := ForEachOverlapping uc h Match v (user_key ikey) internal_key (MkGetStats None (-1), 0) in
      if 2 <=? matches then UpdateStats stats v h else Ret (false, v, h)
  end.
