(* ===== verification/VersionFacts.v ===== *)
(** * LevelDB's versions, proved

    Searches in sorted levels, lookups against the history of a key, and the
    files that overlap a range. *)
From S2P Require Import Prelude LdbBase Coding Comparator DbFormat VersionEdit WriteBatch Iterator Format FilterFacts TwoLevelFacts DbIterFacts Version.

Lemma StronglySorted_positions {A} (R : A -> A -> Prop) l i j x y : Sorted.StronglySorted R l -> l !! i = Some x -> l !! j = Some y -> (i < j)%nat -> R x y.
Proof.
  intros Hs. revert i j. induction Hs as [|z l Hs IH Hz]; intros i j Hi Hj Hij; [done|]. destruct j as [|j]; [lia|].
  destruct i as [|i]; [|apply (IH i j); [done|done|lia]]. injection Hi as <-. apply (Forall_elem _ _ _ Hz). by eapply list_elem_of_lookup_2.
Qed.

Section version.
Context (uc : Comparator) (valid : bytes -> Prop) `{!ComparatorOk uc valid} (h : files_heap).
Abbreviation ult := (key_lt uc valid).
Abbreviation icmp := (InternalKeyComparator uc).
Abbreviation ival := (ivalid valid).
Abbreviation ilt := (key_lt icmp ival).

(** ** Files and levels *)
Definition files_at (ps : list FilePtr) (fs : list FileMetaData) : Prop := Forall2 (fun p f => h !! p = Some f) ps fs.

Record file_ok (f : FileMetaData) : Prop := {
  fo_smallest : ival (smallest f);
  fo_largest : ival (largest f);
  fo_order : ~ ilt (largest f) (smallest f);
}.

Definition sorted_files (fs : list FileMetaData) : Prop :=
  forall i j f g, fs !! i = Some f -> fs !! j = Some g -> (i < j)%nat -> ilt (largest f) (smallest g).

Lemma file_at_ok p f : h !! p = Some f -> file_at h p = Ret f.
Proof. intros Hp. unfold file_at. by rewrite Hp. Qed.

Lemma files_at_lookup ps fs i f : files_at ps fs -> fs !! i = Some f -> exists p, ps !! i = Some p /\ h !! p = Some f.
Proof. intros H Hi. destruct (Forall2_lookup_r _ _ _ _ _ H Hi) as (p & Hp & Hf). by exists p. Qed.

Lemma files_at_length ps fs : files_at ps fs -> length ps = length fs.
Proof. apply Forall2_length. Qed.

Lemma ivalid_nonempty k : ival k -> k <> [].
Proof. intros (u & n & -> & _) E. apply app_eq_nil in E as [_ E]. pose proof (zlength_fixed64 n) as Hl. by rewrite E in Hl. Qed.

Lemma ivalid_user k : ival k -> exists u n, k = u ++ EncodeFixed64 n /\ ExtractUserKey k = Ret u /\ valid u /\ 0 <= n < 2 ^ 64.
Proof. intros (u & n & -> & Hu & Hn). exists u, n. split; [done|]. split; [apply ExtractUserKey_app, zlength_fixed64|done]. Qed.

(** Transitivity with an order that is total. *)
Lemma ilt_le_trans a b k : ival a -> ival b -> ival k -> ilt a b -> ~ ilt k b -> ilt a k.
Proof.
  intros Ha Hb Hk Hab Hkb. destruct (entry_eq_dec_lt icmp ival b k Hb Hk) as [Hbk|[<-|Hkb']]; [|done|done].
  by transitivity b.
Qed.

Lemma ilt_trans_le a b k : ival a -> ival b -> ival k -> ~ ilt b a -> ilt b k -> ilt a k.
Proof.
  intros Ha Hb Hk Hab Hbk. destruct (entry_eq_dec_lt icmp ival a b Ha Hb) as [Hlt|[<-|Hlt]]; [|done|done].
  by transitivity b.
Qed.

(** ** FindFile *)

(** The first file whose largest key is not before the key. *)
Definition first_file (fs : list FileMetaData) (key : bytes) (n : nat) : Prop :=
  (n <= length fs)%nat /\ (forall j f, (j < n)%nat -> fs !! j = Some f -> ilt (largest f) key) /\
  (forall j f, (n <= j)%nat -> fs !! j = Some f -> ~ ilt (largest f) key).

Lemma sorted_largest fs i j f g : sorted_files fs -> Forall file_ok fs -> fs !! i = Some f -> fs !! j = Some g -> (i < j)%nat -> ilt (largest f) (largest g).
Proof.
  intros Hs Hok Hi Hj Hij. rewrite Forall_lookup in Hok. pose proof (Hok i f Hi) as Hf. pose proof (Hok j g Hj) as Hg.
  eapply ilt_le_trans; [apply Hf|apply (fo_smallest g Hg)|apply Hg|by eapply Hs|apply Hg].
Qed.

Lemma FindFile_at ps fs key : files_at ps fs -> Forall file_ok fs -> sorted_files fs -> ival key -> zlength fs < 2 ^ 31 ->
  exists n, FindFile uc h ps key = Ret (Z.of_nat n) /\ first_file fs key n.
Proof.
  intros Hps Hok Hs Hkey Hlen. unfold FindFile. pose proof (files_at_length _ _ Hps) as Hl. pose proof (zlength_nonneg fs).
  assert (zlength ps = zlength fs) as El by (unfold zlength; by rewrite Hl). rewrite wrap_small by lia. rewrite El.
  apply (while_ind (find_file_body uc h ps key)
    (fun st => 0 <= st.1 <= st.2 /\ st.2 <= zlength fs /\ (forall j f, Z.of_nat j < st.1 -> fs !! j = Some f -> ilt (largest f) key) /\
               (forall j f, st.2 <= Z.of_nat j -> fs !! j = Some f -> ~ ilt (largest f) key))
    (fun st => st.2 - st.1) (fun r => exists n, r = Ret (Z.of_nat n) /\ first_file fs key n)).
  - intros [lo hi] (Hlo & Hhi & Hbefore & Hafter). cbn [fst snd] in *. unfold find_file_body. destruct (Z.ltb_spec lo hi) as [Hlt|Hge].
    + rewrite wrap_small by lia. set (mid := (lo + hi) / 2). assert (lo <= mid < hi) as Hmid by (unfold mid; split; [apply Z.div_le_lower_bound; lia|apply Z.div_lt_upper_bound; lia]).
      assert (Z.to_nat mid < length fs)%nat as Hm by (unfold zlength in *; lia). destruct (lookup_lt_is_Some_2 fs _ Hm) as [f Hf].
      destruct (files_at_lookup ps fs _ f Hps Hf) as (p & Hp & Hpf). rewrite Hp. cbn [of_option]. rewrite res_bind_ret, (file_at_ok p f Hpf), res_bind_ret.
      rewrite Forall_lookup in Hok. pose proof (Hok _ f Hf) as Hfok. rewrite InternalKey_Encode_ok, res_bind_ret by apply ivalid_nonempty, Hfok.
      destruct (Compare_tests icmp ival (largest f) key) as (z & -> & Hz); [apply Hfok|done|]. rewrite res_bind_ret. destruct (z <? 0) eqn:Ez.
      * rewrite wrap_small by lia. cbn [fst snd]. apply (cmp_lt _ _ _ _ Hz) in Ez. split; [|lia]. split; [lia|]. split; [lia|]. split; [|done].
        intros j g Hj Hg. destruct (decide (j = Z.to_nat mid)) as [->|Hne]; [rewrite Hf in Hg; by injection Hg as <-|].
        transitivity (largest f); [|done]. eapply sorted_largest; [done|by apply Forall_lookup|exact Hg|exact Hf|lia].
      * cbn [fst snd]. assert (~ ilt (largest f) key) as Hn by (intros Hn; apply (cmp_lt _ _ _ _ Hz) in Hn; congruence).
        split; [|lia]. split; [lia|]. split; [lia|]. split; [done|]. intros j g Hj Hg Hlt'. apply Hn.
        destruct (decide (j = Z.to_nat mid)) as [->|Hne]; [rewrite Hf in Hg; by injection Hg as <-|].
        transitivity (largest g); [|done]. eapply sorted_largest; [done|by apply Forall_lookup|exact Hf|exact Hg|lia].
    + assert (hi = lo) as -> by lia. exists (Z.to_nat lo). rewrite Z2Nat.id by lia. split; [done|]. unfold zlength in *.
      split; [lia|]. split; intros j f Hj Hf; [apply (Hbefore j f); [lia|done]|apply (Hafter j f); [lia|done]].
  - cbn [fst snd]. split; [lia|]. split; [lia|]. split; [intros; lia|]. intros j f Hj Hf. apply lookup_lt_Some in Hf. unfold zlength in *. lia.
  - cbn [fst snd]. lia.
Qed.

(** ** Visible entries of a key *)
Section lookup.
Variables (u : bytes) (sq : SequenceNumber).
Hypotheses (Hu : valid u) (Hsq : seq_ok sq).
Abbreviation target := (ikey u sq kValueTypeForSeek).
Implicit Types (x y : ientry) (xs ys : list ientry).

Definition ie_key x : bytes := ikey (ie_user x) (ie_seq x) (ie_type x).
Definition ie_ok1 x : Prop := valid (ie_user x) /\ seq_ok (ie_seq x).

(** An entry for [u] that a read at [sq] may return. *)
Definition vis x : Prop := ie_user x = u /\ ie_seq x <= sq.

Lemma ie_key_valid x : ie_ok1 x -> ival (ie_key x).
Proof. intros [Hv Hs]. exists (ie_user x), (ie_tag x). split; [done|]. split; [done|]. by apply tag_bound. Qed.

Lemma target_valid : ival target.
Proof. exists u, (tag sq kValueTypeForSeek). split; [done|]. split; [done|]. by apply tag_bound. Qed.

Lemma ie_key_lt x y : ie_ok1 x -> ie_ok1 y -> ilt (ie_key x) (ie_key y) <-> ult (ie_user x) (ie_user y) \/ ie_user x = ie_user y /\ ie_tag y < ie_tag x.
Proof. intros [_ Hx] [_ Hy]. apply ikey_lt_intro; by apply tag_bound. Qed.

Lemma ie_key_target x : ie_ok1 x -> ilt (ie_key x) target <-> ult (ie_user x) u \/ ie_user x = u /\ sq < ie_seq x.
Proof.
  intros [_ Hx]. unfold ie_key, ikey. etransitivity; [apply ikey_lt_intro; by apply tag_bound|].
  unfold tag. destruct (ie_type x); cbn [ValueType_value kValueTypeForSeek]; intuition lia.
Qed.

Lemma vis_not_before x : ie_ok1 x -> vis x -> ~ ilt (ie_key x) target.
Proof.
  intros Hx [Eu Hs] Hlt. apply ie_key_target in Hlt as [Hlt|[_ Hlt]]; [|lia|done]. rewrite Eu in Hlt. by apply key_lt_irrefl in Hlt.
Qed.

Lemma not_before_cases x : ie_ok1 x -> ~ ilt (ie_key x) target -> vis x \/ ult u (ie_user x).
Proof.
  intros Hx Hn. rewrite ie_key_target in Hn by done. destruct (entry_eq_dec_lt uc valid (ie_user x) u) as [Hlt|[E|Hlt]]; [apply Hx|done|tauto| |by right].
  left. split; [done|]. destruct (decide (ie_seq x <= sq)); [done|]. exfalso. apply Hn. right. lia || (split; [done|lia]).
Qed.

(** What a lookup answers: the status, if there is one, and [*value]. *)
Definition answer xs (value : bytes) (r : option Status * bytes) : Prop :=
  (r = (None, value) /\ forall x, x ∈ xs -> ~ vis x) \/
  exists x, x ∈ xs /\ vis x /\ (forall y, y ∈ xs -> vis y -> ie_tag y <= ie_tag x) /\
    r = match ie_type x with kTypeValue => (Some Status_OK, ie_value x) | kTypeDeletion => (Some (NotFound []), value) end.

(** The entries of [xs] are newer. *)
Definition newer xs ys : Prop := forall x y, x ∈ xs -> y ∈ ys -> ie_user x = ie_user y -> ie_tag y < ie_tag x.

Lemma answer_found xs ys value s v : newer xs ys -> answer xs value (Some s, v) -> answer (xs ++ ys) value (Some s, v).
Proof.
  intros Hn [[? _]|(x & Hx & Hv & Hmax & E)]; [done|]. right. exists x. split; [by apply elem_of_app; left|]. split; [done|]. split; [|done].
  intros y [Hy|Hy]%elem_of_app Hvy; [by apply Hmax|]. assert (ie_tag y < ie_tag x); [|lia]. apply (Hn x y Hx Hy). destruct Hv, Hvy. congruence.
Qed.

Lemma answer_none xs ys value v r : answer xs value (None, v) -> answer ys v r -> answer (xs ++ ys) value r.
Proof.
  intros [[[= ->] Hn]|(x & _ & _ & _ & E)]; [|by destruct (ie_type x)].
  intros [[-> Hn']|(x & Hx & Hv & Hmax & ->)].
  - left. split; [done|]. intros x [Hx|Hx]%elem_of_app; auto.
  - right. exists x. split; [by apply elem_of_app; right|]. split; [done|]. split; [|done].
    intros y [Hy|Hy]%elem_of_app Hvy; [by destruct (Hn y Hy)|by apply Hmax].
Qed.

Lemma answer_ext xs ys value r : (forall x, vis x -> x ∈ xs <-> x ∈ ys) -> answer xs value r -> answer ys value r.
Proof.
  intros Hxy [[-> Hn]|(x & Hx & Hv & Hmax & ->)].
  - left. split; [done|]. intros x Hx Hv. apply (Hn x); [by apply Hxy|done].
  - right. exists x. split; [by apply Hxy|]. split; [done|]. split; [|done]. intros y Hy Hvy. apply Hmax; [by apply Hxy|done].
Qed.

(** ** A file *)
Record file_holds (f : FileMetaData) xs : Prop := {
  fh_entries : ientries_ok uc valid xs;
  fh_smallest : exists x, head xs = Some x /\ smallest f = ie_key x;
  fh_largest : exists x, list.last xs = Some x /\ largest f = ie_key x;
}.

Lemma entries_ie_ok xs x : ientries_ok uc valid xs -> x ∈ xs -> ie_ok1 x.
Proof. intros Hxs Hx. exact (Forall_elem _ _ _ (io_keys uc valid xs Hxs) Hx). Qed.

Lemma ientries_lt xs i j x y : ientries_ok uc valid xs -> xs !! i = Some x -> xs !! j = Some y -> (i < j)%nat -> ilt (ie_key x) (ie_key y).
Proof. intros Hxs Hi Hj Hij. rewrite ie_key_lt by (eapply entries_ie_ok; [done|by eapply list_elem_of_lookup_2]). by eapply ie_lt. Qed.

Lemma ientries_le xs i j x y : ientries_ok uc valid xs -> xs !! i = Some x -> xs !! j = Some y -> (i <= j)%nat -> ~ ilt (ie_key y) (ie_key x).
Proof.
  intros Hxs Hi Hj Hij Hlt. destruct (decide (i = j)) as [->|Hne].
  - rewrite Hi in Hj. injection Hj as ->. by apply (key_lt_irrefl icmp ival (ie_key y)).
  - apply (key_lt_asym icmp ival _ _ Hlt). eapply ientries_lt; [done..|lia].
Qed.

Lemma file_holds_bounds f xs x : file_holds f xs -> x ∈ xs -> ~ ilt (ie_key x) (smallest f) /\ ~ ilt (largest f) (ie_key x).
Proof.
  intros [Hxs (s & Hs & Es) (l & Hl & El)] [i Hi]%list_elem_of_lookup_1. rewrite Es, El. split.
  - apply (ientries_le xs O i); [done|by rewrite <- head_lookup|done|lia].
  - rewrite last_lookup in Hl. apply (ientries_le xs i (pred (length xs))); [done..|]. apply lookup_lt_Some in Hi. lia.
Qed.

Lemma file_holds_ok f xs : file_holds f xs -> file_ok f.
Proof.
  intros Hf. pose proof Hf as [Hxs (s & Hs & Es) (l & Hl & El)]. rewrite head_lookup in Hs. rewrite last_lookup in Hl.
  split; rewrite ?Es, ?El.
  - apply ie_key_valid. eapply entries_ie_ok; [done|by eapply list_elem_of_lookup_2].
  - apply ie_key_valid. eapply entries_ie_ok; [done|by eapply list_elem_of_lookup_2].
  - rewrite <- Es. apply (file_holds_bounds f xs); [done|by eapply list_elem_of_lookup_2].
Qed.

(** ** Reading files *)
Context {TC : Type} `{!TableCache TC} `{!TableCacheOk TC uc valid}.
Variables (options : ReadOptions) (contents : FilePtr -> list ientry) (F : Z -> Z -> list entry -> Prop).

(** The file at [p] holds [contents p], and the table cache serves it. *)
Definition ptr_holds (p : FilePtr) : Prop := exists f, h !! p = Some f /\ file_holds f (contents p) /\ F (number f) (file_size f) (ie_entry <$> contents p).

Definition entries_of (ps : list FilePtr) : list ientry := concat (contents <$> ps).

Lemma entries_of_elem ps x : x ∈ entries_of ps <-> exists p, p ∈ ps /\ x ∈ contents p.
Proof.
  unfold entries_of. induction ps as [|q ps IH]; cbn; [split; [by intros ?%not_elem_of_nil|by intros (? & ?%not_elem_of_nil & _)]|].
  rewrite elem_of_app, IH. split.
  - intros [Hx|(p & Hp & Hx)]; [exists q; split; [left|done]|exists p; split; [by right|done]].
  - intros (p & [->|Hp]%elem_of_cons & Hx); [by left|right; by exists p].
Qed.

Lemma entries_of_cons p ps : entries_of (p :: ps) = contents p ++ entries_of ps.
Proof. done. Qed.

(** A lookup in one table. *)
Definition saver_result xs value (s : Saver) : Prop :=
  match saver_state s with
  | kNotFound => answer xs value (None, saver_value s)
  | kFound => answer xs value (Some Status_OK, saver_value s)
  | kDeleted => answer xs value (Some (NotFound []), saver_value s)
  | kCorrupt => False
  end.

Lemma seek_pos_entries xs p : ientries_ok uc valid xs -> seek_pos icmp ival (ie_entry <$> xs) target p ->
  match p with
  | Some i => exists x, xs !! i = Some x /\ ~ ilt (ie_key x) target /\ forall y, y ∈ xs -> vis y -> exists j, (i <= j)%nat /\ xs !! j = Some y
  | None => forall y, y ∈ xs -> ~ vis y
  end.
Proof.
  intros Hxs Hp. assert (forall n y, n <= length xs -> Forall (fun e => ilt e.1 target) (take n (ie_entry <$> xs)) -> y ∈ take n xs -> ~ vis y)%nat as Hbefore.
  { intros n y _ Hall Hy Hv. rewrite <- fmap_take in Hall. rewrite Forall_fmap in Hall. pose proof (Forall_elem _ _ _ Hall Hy) as Hlt.
    apply (vis_not_before y); [|done|done]. eapply entries_ie_ok; [done|]. by eapply elem_of_take in Hy as (j & Hj%list_elem_of_lookup_2 & _). }
  destruct p as [i|]; cbn [seek_pos] in Hp.
  - destruct Hp as (Hb & e & He & Hn). rewrite list_lookup_fmap in He. destruct (xs !! i) as [x|] eqn:Hx; [|done]. injection He as <-.
    exists x. split; [done|]. split; [done|]. intros y [j Hj]%list_elem_of_lookup_1 Hv. exists j. split; [|done].
    destruct (decide (i <= j)%nat) as [|Hlt]; [done|]. exfalso. apply lookup_lt_Some in Hx as Hil. eapply (Hbefore i y); [lia|done| |done].
    apply elem_of_take. exists j. split; [done|lia].
  - intros y Hy. apply (Hbefore (length xs) y); [done| |by rewrite take_ge].
    rewrite take_ge by by rewrite length_fmap. exact Hp.
Qed.

Lemma SaveValue_visible x value : ie_ok1 x -> ie_user x = u ->
  SaveValue (MkSaver kNotFound uc u value) (ie_key x) (ie_value x) =
  Ret (match ie_type x with kTypeValue => MkSaver kFound uc u (ie_value x) | kTypeDeletion => MkSaver kDeleted uc u value end).
Proof.
  intros [Hv Hs] E. unfold SaveValue, ie_key. rewrite ParseInternalKey_ikey, res_bind_ret by done. cbn [user_key type saver_ucmp saver_user_key].
  destruct (Compare_tests uc valid (ie_user x) u Hv Hu) as (z & -> & Hz). rewrite res_bind_ret, (proj2 (cmp_eq _ _ _ _ Hz) E). by destruct (ie_type x).
Qed.

Lemma SaveValue_other x s : ie_ok1 x -> ie_user x <> u -> saver_ucmp s = uc -> saver_user_key s = u -> SaveValue s (ie_key x) (ie_value x) = Ret s.
Proof.
  intros [Hv Hs] E Ec Eu. unfold SaveValue, ie_key. rewrite ParseInternalKey_ikey, res_bind_ret by done. cbn [user_key type]. rewrite Ec, Eu.
  destruct (Compare_tests uc valid (ie_user x) u Hv Hu) as (z & -> & Hz). rewrite res_bind_ret.
  destruct (z =? 0) eqn:Ez; [|done]. by apply (cmp_eq _ _ _ _ Hz) in Ez.
Qed.

Lemma tc_Get_file f xs value tc : file_holds f xs -> F (number f) (file_size f) (ie_entry <$> xs) -> tc_serves F tc ->
  exists s tc', tc_Get options (number f) (file_size f) target (MkSaver kNotFound uc u value) SaveValue tc = Ret (Status_OK, s, tc') /\
    tc_serves F tc' /\ saver_result xs value s.
Proof.
  intros Hf HF Htc. pose proof (fh_entries _ _ Hf) as Hxs.
  destruct (tc_Get_ok options (number f) (file_size f) target (MkSaver kNotFound uc u value) SaveValue tc F _ Htc HF target_valid)
    as (p & tc' & Hp & Htc' & Hcase). pose proof (seek_pos_entries xs p Hxs Hp) as Hseek. destruct Hcase as [(i & e & -> & He & E)|[E Hskip]].
  - destruct Hseek as (x & Hx & Hn & Hafter). rewrite list_lookup_fmap, Hx in He. injection He as <-. rewrite E. change (ie_entry x).1 with (ie_key x). change (ie_entry x).2 with (ie_value x).
    assert (x ∈ xs) as Hin by (by eapply list_elem_of_lookup_2). pose proof (entries_ie_ok xs x Hxs Hin) as Hok.
    destruct (not_before_cases x Hok Hn) as [Hv|Hgt].
    + pose proof Hv as [Eu _]. rewrite SaveValue_visible, res_bind_ret by done. eexists _, tc'. split; [done|]. split; [done|].
      assert (forall y, y ∈ xs -> vis y -> ie_tag y <= ie_tag x) as Hmax.
      { intros y Hy Hvy. destruct (Hafter y Hy Hvy) as (j & Hij & Hj). destruct (decide (i = j)) as [->|Hne]; [rewrite Hx in Hj; injection Hj as ->; lia|].
        destruct (ie_lt uc valid xs i j x y Hxs Hx Hj) as [Hlt|[_ Hlt]]; [lia| |lia]. destruct Hvy as [Ey _]. rewrite Eu, Ey in Hlt. by apply key_lt_irrefl in Hlt. }
      unfold saver_result. destruct (ie_type x) eqn:Et; right; exists x; rewrite Et; by split_and!.
    + rewrite SaveValue_other, res_bind_ret; [|done|by intros <-; apply key_lt_irrefl in Hgt|done|done].
      eexists _, tc'. split; [done|]. split; [done|]. left. split; [done|]. intros y Hy Hv. destruct (Hafter y Hy Hv) as (j & Hij & Hj).
      apply (ie_order uc valid xs i j x y Hxs Hx Hj Hij). by rewrite (proj1 Hv).
  - rewrite E. eexists _, tc'. split; [done|]. split; [done|]. left. split; [done|]. destruct p as [i|]; [|done].
    destruct Hseek as (x & Hx & Hn & Hafter). intros y Hy Hv. destruct (Hafter y Hy Hv) as (j & Hij & Hj).
    assert (ie_ok1 x) as Hok by (eapply entries_ie_ok; [done|by eapply list_elem_of_lookup_2]).
    destruct (not_before_cases x Hok Hn) as [[Eu _]|Hgt].
    + apply (Hskip i (ie_entry x) eq_refl); [by rewrite list_lookup_fmap, Hx|]. unfold same_user_key. cbn [fst ie_entry]. by rewrite !ExtractUserKey_ikey, Eu.
    + apply (ie_order uc valid xs i j x y Hxs Hx Hj Hij). by rewrite (proj1 Hv).
Qed.

(** Each file may have entries of the key that are older than those before it. *)
Definition newest_first (ps : list FilePtr) : Prop :=
  forall i j p q, ps !! i = Some p -> ps !! j = Some q -> (i < j)%nat -> newer (contents p) (contents q).

Lemma newest_first_cons p ps : newest_first (p :: ps) -> newer (contents p) (entries_of ps) /\ newest_first ps.
Proof.
  intros Hn. split.
  - intros x y Hx (q & [j Hj]%list_elem_of_lookup_1 & Hy)%entries_of_elem. apply (Hn O (S j) p q); [done|done|lia|done|done].
  - intros i j a b Hi Hj Hij. apply (Hn (S i) (S j) a b); [done|done|lia].
Qed.

Lemma newest_first_single p : newest_first [p].
Proof. intros i j a b Hi Hj Hij. apply lookup_lt_Some in Hi, Hj. cbn in *. lia. Qed.

Lemma get_in_files_at level ps (st : get_state) : Forall ptr_holds ps -> newest_first ps -> tc_serves F (gs_cache st) ->
  exists o st', get_in_files uc h options u target level ps st = Ret (o, st') /\ tc_serves F (gs_cache st') /\ answer (entries_of ps) (gs_value st) (o, gs_value st').
Proof.
  intros Hps Hn. revert st. induction Hps as [|p ps (f & Hp & Hf & HF) _ IH]; intros st Htc.
  - exists None, st. split; [done|]. split; [done|]. left. split; [done|]. by intros x ?%not_elem_of_nil.
  - apply newest_first_cons in Hn as [Hnew Hn]. cbn [get_in_files]. rewrite (file_at_ok p f Hp), res_bind_ret.
    destruct (tc_Get_file f (contents p) (gs_value st) (gs_cache st) Hf HF Htc) as (s & tc' & -> & Htc' & Hs). rewrite res_bind_ret. cbn [ok negb].
    unfold saver_result in Hs. rewrite entries_of_cons. destruct (saver_state s).
    + edestruct (IH Hn (MkGetState (saver_value s) (charge_seek (gs_stats st) (gs_last st)) (Some (p, level)) tc') Htc') as (o & st' & E & Htc2 & Hans).
      exists o, st'. split; [exact E|]. split; [done|]. cbn [gs_value] in Hans. by eapply answer_none.
    + eexists _, _. split; [done|]. split; [done|]. by apply answer_found.
    + eexists _, _. split; [done|]. split; [done|]. by apply answer_found.
    + done.
Qed.

(** ** Level 0 *)
Definition numbers_differ (ps : list FilePtr) : Prop :=
  forall p q f g, p ∈ ps -> q ∈ ps -> h !! p = Some f -> h !! q = Some g -> number f = number g -> p = q.

(** A file of level 0 with a larger number is newer. *)
Definition newer_numbers (ps : list FilePtr) : Prop :=
  forall p q f g, p ∈ ps -> q ∈ ps -> h !! p = Some f -> h !! q = Some g -> number g < number f -> newer (contents p) (contents q).

Definition larger_number (p q : FilePtr) : Prop := forall f g, h !! p = Some f -> h !! q = Some g -> number g < number f.

Lemma ptr_holds_at p : ptr_holds p -> exists f, h !! p = Some f /\ file_at h p = Ret f /\ file_holds f (contents p).
Proof. intros (f & Hp & Hf & _). exists f. split; [done|]. split; [by apply file_at_ok|done]. Qed.

Lemma file_user_bounds f xs : file_holds f xs -> exists s l, ExtractUserKey (smallest f) = Ret s /\ ExtractUserKey (largest f) = Ret l /\ valid s /\ valid l /\
  forall x, x ∈ xs -> ~ ult (ie_user x) s /\ ~ ult l (ie_user x).
Proof.
  intros Hf. pose proof Hf as [Hxs (x & Hx & Ex) (y & Hy & Ey)]. exists (ie_user x), (ie_user y). rewrite Ex, Ey. unfold ie_key. rewrite !ExtractUserKey_ikey.
  rewrite head_lookup in Hx. rewrite last_lookup in Hy. split; [done|]. split; [done|].
  split; [by apply (entries_ie_ok xs x Hxs); eapply list_elem_of_lookup_2|]. split; [by apply (entries_ie_ok xs y Hxs); eapply list_elem_of_lookup_2|].
  intros z [i Hi]%list_elem_of_lookup_1. apply lookup_lt_Some in Hi as Hl. split.
  - apply (ie_order uc valid xs 0%nat i x z Hxs Hx Hi). lia.
  - apply (ie_order uc valid xs i (pred (length xs)) z y Hxs Hi Hy). lia.
Qed.

Lemma level0_overlapping_at ps : Forall ptr_holds ps -> exists tmp, level0_overlapping uc h u ps = Ret tmp /\ tmp `sublist_of` ps /\
  forall p x, p ∈ ps -> x ∈ contents p -> ie_user x = u -> p ∈ tmp.
Proof.
  induction 1 as [|p ps Hp _ (tmp & E & Hsub & Hin)]; [exists []; split; [done|]; split; [done|]; by intros ? ? ?%not_elem_of_nil|].
  destruct (ptr_holds_at p Hp) as (f & Hpf & Ef & Hf). destruct (file_user_bounds f _ Hf) as (s & l & Es & El & Hs & Hl & Hb).
  cbn [level0_overlapping]. unfold InternalKey_user_key. rewrite Ef, res_bind_ret, Es, res_bind_ret.
  destruct (Compare_tests uc valid u s Hu Hs) as (z & -> & Hz). rewrite res_bind_ret.
  destruct (Compare_tests uc valid u l Hu Hl) as (z' & Ez' & Hz').
  assert (exists b : bool, (if 0 <=? z then let! l := ExtractUserKey (largest f) in let! z := Compare uc u l in Ret (z <=? 0) else Ret false) = Ret b /\
    ((exists x, x ∈ contents p /\ ie_user x = u) -> b = true)) as (b & -> & Hb').
  { destruct (0 <=? z) eqn:Ez.
    - rewrite El, res_bind_ret, Ez', res_bind_ret. exists (z' <=? 0). split; [done|]. intros (x & Hx & Eu). apply (cmp_le _ _ _ _ Hz'). rewrite <- Eu. by apply Hb.
    - exists false. split; [done|]. intros (x & Hx & Eu). exfalso. assert ((0 <=? z) = true); [|congruence]. apply (cmp_ge _ _ _ _ Hz). rewrite <- Eu. by apply Hb. }
  rewrite res_bind_ret, E, res_bind_ret. eexists. split; [done|]. split.
  - destruct b; [by apply sublist_skip|by apply sublist_cons].
  - intros q x [->|Hq]%elem_of_cons Hx Eu; [rewrite Hb' by eauto; left|].
    pose proof (Hin q x Hq Hx Eu). destruct b; [by right|done].
Qed.

Lemma insert_newest_at p l : Forall ptr_holds (p :: l) -> numbers_differ (p :: l) -> p ∉ l -> Sorted.StronglySorted larger_number l ->
  exists l', insert_newest h p l = Ret l' /\ l' ≡ₚ p :: l /\ Sorted.StronglySorted larger_number l'.
Proof.
  intros Hall Hd Hni Hs. inversion Hall as [|? ? Hp Hl]; subst. destruct (ptr_holds_at p Hp) as (f & Hpf & Ef & _). clear Hall.
  induction Hs as [|q l Hs IH Hq]; [exists [p]; split; [done|]; split; [done|by repeat constructor]|].
  inversion Hl as [|? ? Hqp Hl']; subst. destruct (ptr_holds_at q Hqp) as (g & Hqg & Eg & _). cbn [insert_newest].
  rewrite Ef, res_bind_ret, Eg, res_bind_ret. unfold NewestFirst. destruct (Z.ltb_spec (number g) (number f)) as [Hlt|Hge].
  - eexists. split; [done|]. split; [done|]. constructor; [by constructor|]. constructor.
    + intros f' g' Hf' Hg'. rewrite Hpf in Hf'. rewrite Hqg in Hg'. injection Hf' as <-. by injection Hg' as <-.
    + rewrite Forall_forall in Hq |- *. intros r Hr f' k Hf' Hk. rewrite Hpf in Hf'. injection Hf' as <-. specialize (Hq r Hr g k Hqg Hk). lia.
  - destruct IH as (l' & -> & Hperm & Hsort); [by intros a b f' g' Ha Hb; apply Hd; set_solver|set_solver|done|].
    rewrite res_bind_ret. eexists. split; [done|]. split; [rewrite Hperm; apply perm_swap|]. constructor; [done|].
    apply List.Forall_forall. intros r Hr. apply list_elem_of_In in Hr. rewrite Hperm in Hr. apply elem_of_cons in Hr as [->|Hr].
    + intros g' f' Hg' Hf'. rewrite Hpf in Hf'. rewrite Hqg in Hg'. injection Hf' as <-. injection Hg' as <-.
      assert (number f <> number g); [|lia]. intros E. apply Hni. rewrite (Hd p q f g); [left|by left|right; left|done|done|done].
    + by apply (Forall_elem _ _ _ Hq).
Qed.

Lemma sort_newest_at l : Forall ptr_holds l -> numbers_differ l -> base.NoDup l ->
  exists l', sort_newest h l = Ret l' /\ l' ≡ₚ l /\ Sorted.StronglySorted larger_number l'.
Proof.
  intros Hl Hd Hn. induction l as [|p l IH]; [exists []; split; [done|]; split; [done|constructor]|].
  inversion Hl as [|? ? Hp Hl']; subst. apply list.NoDup_cons in Hn as [Hni Hn]. cbn [sort_newest].
  destruct IH as (l' & -> & Hperm & Hs); [done|by intros a b f g Ha Hb; apply Hd; right|done|]. rewrite res_bind_ret.
  destruct (insert_newest_at p l') as (l2 & E & Hp2 & Hs2); [constructor; [done|by rewrite Hperm]|intros a b f g; rewrite Hperm; apply Hd|by rewrite Hperm|done|].
  exists l2. split; [done|]. split; [by rewrite Hp2, Hperm|done].
Qed.

Lemma search_level0 ps : Forall ptr_holds ps -> numbers_differ ps -> newer_numbers ps -> base.NoDup ps ->
  exists search, files_to_search uc h 0 u target ps = Ret search /\ Forall ptr_holds search /\ newest_first search /\
    forall value r, answer (entries_of search) value r -> answer (entries_of ps) value r.
Proof.
  intros Hps Hd Hnew Hn. unfold files_to_search. rewrite Z.eqb_refl. destruct (level0_overlapping_at ps Hps) as (tmp & -> & Hsub & Hin). rewrite res_bind_ret.
  assert (forall p, p ∈ tmp -> p ∈ ps) as Hsubset by (intros p Hp; by eapply elem_of_sublist).
  assert (Forall ptr_holds tmp) as Htmp by (apply List.Forall_forall; intros p Hp; apply (Forall_elem _ _ _ Hps), Hsubset; by apply list_elem_of_In).
  destruct (sort_newest_at tmp Htmp) as (search & E & Hperm & Hs); [intros p q f g Hp Hq; apply Hd; by apply Hsubset|by eapply sublist_NoDup|].
  exists search. split; [done|]. split; [by rewrite Hperm|]. split.
  - intros i j p q Hi Hj Hij. assert (p ∈ ps /\ q ∈ ps) as [Hp Hq].
    { split; apply Hsubset; rewrite <- Hperm; by eapply list_elem_of_lookup_2. }
    destruct (ptr_holds_at p) as (f & Hpf & _ & _); [exact (Forall_elem ptr_holds _ _ Hps Hp)|]. destruct (ptr_holds_at q) as (g & Hqg & _ & _); [exact (Forall_elem ptr_holds _ _ Hps Hq)|].
    apply (Hnew p q f g); [done..|]. by apply (StronglySorted_positions larger_number search i j p q Hs Hi Hj Hij).
  - intros value r. apply answer_ext. intros x [Eu _]. rewrite !entries_of_elem. split; intros (p & Hp & Hx); exists p; split; try done.
    + apply Hsubset. by rewrite <- Hperm.
    + rewrite Hperm. by eapply Hin.
Qed.

(** ** Levels above 0 *)
Definition level_sorted (ps : list FilePtr) : Prop := exists fs, files_at ps fs /\ sorted_files fs.

Lemma holding_files ps fs : Forall ptr_holds ps -> files_at ps fs -> Forall file_ok fs.
Proof.
  intros Hps Hfs. apply Forall_lookup. intros i f Hi. destruct (files_at_lookup ps fs i f Hfs Hi) as (p & Hp & Hpf).
  destruct (Forall_elem _ _ _ Hps (list_elem_of_lookup_2 _ _ _ Hp)) as (f' & Hpf' & Hf & _). rewrite Hpf in Hpf'. injection Hpf' as <-. by eapply file_holds_ok.
Qed.

Lemma holding_file ps fs i p f : Forall ptr_holds ps -> files_at ps fs -> ps !! i = Some p -> fs !! i = Some f -> h !! p = Some f /\ file_holds f (contents p).
Proof.
  intros Hps Hfs Hi Hf. destruct (files_at_lookup ps fs i f Hfs Hf) as (p' & Hp' & Hpf). rewrite Hi in Hp'. injection Hp' as <-.
  destruct (Forall_elem _ _ _ Hps (list_elem_of_lookup_2 _ _ _ Hi)) as (f' & Hpf' & Hfh & _). rewrite Hpf in Hpf'. by injection Hpf' as <-.
Qed.

(** The entries of different files of the level. *)
Lemma level_entries_lt ps fs i j p q x y : Forall ptr_holds ps -> files_at ps fs -> sorted_files fs -> ps !! i = Some p -> ps !! j = Some q -> (i < j)%nat ->
  x ∈ contents p -> y ∈ contents q -> ilt (ie_key x) (ie_key y).
Proof.
  intros Hps Hfs Hs Hi Hj Hij Hx Hy. destruct (Forall2_lookup_l _ _ _ _ _ Hfs Hi) as (f & Hf & _). destruct (Forall2_lookup_l _ _ _ _ _ Hfs Hj) as (g & Hg & _).
  destruct (holding_file ps fs i p f Hps Hfs Hi Hf) as [_ Hfh]. destruct (holding_file ps fs j q g Hps Hfs Hj Hg) as [_ Hgh].
  pose proof (file_holds_ok _ _ Hfh) as Hfo. pose proof (file_holds_ok _ _ Hgh) as Hgo.
  assert (ival (ie_key x)) as Hvx by (apply ie_key_valid; eapply entries_ie_ok; [apply Hfh|done]).
  assert (ival (ie_key y)) as Hvy by (apply ie_key_valid; eapply entries_ie_ok; [apply Hgh|done]).
  eapply ilt_trans_le; [exact Hvx|exact (fo_largest f Hfo)|exact Hvy|by eapply file_holds_bounds|].
  eapply ilt_le_trans; [exact (fo_largest f Hfo)|exact (fo_smallest g Hgo)|exact Hvy|by eapply Hs|by eapply file_holds_bounds].
Qed.

Lemma search_level level ps : 0 < level -> Forall ptr_holds ps -> level_sorted ps -> zlength ps < 2 ^ 31 ->
  exists search, files_to_search uc h level u target ps = Ret search /\ Forall ptr_holds search /\ newest_first search /\
    forall value r, answer (entries_of search) value r -> answer (entries_of ps) value r.
Proof.
  intros Hlev Hps (fs & Hfs & Hs) Hlen. unfold files_to_search. rewrite (proj2 (Z.eqb_neq level 0)) by lia. unfold find_in_level.
  pose proof (files_at_length _ _ Hfs) as Hl. pose proof (holding_files ps fs Hps Hfs) as Hok.
  destruct (FindFile_at ps fs target Hfs Hok Hs target_valid) as (n & -> & Hn & Hbefore & Hafter); [unfold zlength in *; lia|]. rewrite res_bind_ret.
  (* no file before [n] has a visible entry *)
  assert (forall j q x, ps !! j = Some q -> x ∈ contents q -> vis x -> (n <= j)%nat) as Hvis.
  { intros j q x Hj Hx Hv. destruct (decide (n <= j)%nat) as [|Hlt]; [done|]. exfalso.
    destruct (Forall2_lookup_l _ _ _ _ _ Hfs Hj) as (f & Hf & _). destruct (holding_file ps fs j q f Hps Hfs Hj Hf) as [_ Hfh].
    assert (ie_ok1 x) as Hox by (eapply entries_ie_ok; [apply Hfh|done]). apply (vis_not_before x Hox Hv).
    eapply ilt_trans_le; [by apply ie_key_valid|apply (fo_largest f (file_holds_ok _ _ Hfh))|exact target_valid|by eapply file_holds_bounds|apply (Hbefore j f); [lia|done]]. }
  assert ((forall x, x ∈ entries_of ps -> ~ vis x) -> exists search, Ret (@nil FilePtr) = Ret search /\ Forall ptr_holds search /\ newest_first search /\
    forall value r, answer (entries_of search) value r -> answer (entries_of ps) value r) as Hnone.
  { intros Hno. exists []. split; [done|]. split; [constructor|]. split; [by intros i j p q Hi|]. intros value r. apply answer_ext.
    intros x Hv. split; [by intros ?%not_elem_of_nil|]. intros Hx. by destruct (Hno x Hx). }
  destruct (Z.ltb_spec (Z.of_nat n) (zlength ps)) as [Hlt|Hge].
  2:{ rewrite res_bind_ret. apply Hnone. intros x (q & [j Hj]%list_elem_of_lookup_1 & Hx)%entries_of_elem Hv. pose proof (Hvis j q x Hj Hx Hv).
      apply lookup_lt_Some in Hj. unfold zlength in *. lia. }
  rewrite Nat2Z.id. destruct (lookup_lt_is_Some_2 ps n) as [p Hp]; [unfold zlength in *; lia|]. rewrite Hp. cbn [of_option]. rewrite res_bind_ret.
  destruct (Forall2_lookup_l _ _ _ _ _ Hfs Hp) as (f & Hf & Hpf). destruct (holding_file ps fs n p f Hps Hfs Hp Hf) as [_ Hfh].
  rewrite (file_at_ok p f Hpf), res_bind_ret. destruct (file_user_bounds f _ Hfh) as (s & l & Es & El & Hvs & Hvl & Hb). unfold InternalKey_user_key. rewrite Es, res_bind_ret.
  destruct (Compare_tests uc valid u s Hu Hvs) as (z & -> & Hz). rewrite res_bind_ret. pose proof (entries_ie_ok (contents p)) as Hiok.
  (* entries in later files are past those of [p] *)
  assert (forall j q x y, ps !! j = Some q -> (n < j)%nat -> x ∈ contents p -> y ∈ contents q -> ilt (ie_key x) (ie_key y) /\ ie_ok1 x /\ ie_ok1 y) as Hlater.
  { intros j q x y Hj Hnj Hx Hy. split; [by apply (level_entries_lt ps fs n j p q)|]. split; [by apply Hiok; [apply Hfh|]|].
    destruct (Forall2_lookup_l _ _ _ _ _ Hfs Hj) as (g & Hg & _). destruct (holding_file ps fs j q g Hps Hfs Hj Hg) as [_ Hgh]. eapply entries_ie_ok; [apply Hgh|done]. }
  pose proof Hfh as [Hxs (x0 & Hx0 & Ex0) (xl & Hxl & Exl)].
  assert (x0 ∈ contents p) as Hin0 by (rewrite head_lookup in Hx0; by eapply list_elem_of_lookup_2).
  assert (xl ∈ contents p) as Hinl by (rewrite last_lookup in Hxl; by eapply list_elem_of_lookup_2).
  destruct (z <? 0) eqn:Ez; rewrite res_bind_ret.
  - apply Hnone. apply (cmp_lt _ _ _ _ Hz) in Ez. rewrite Ex0 in Es. unfold ie_key in Es. rewrite ExtractUserKey_ikey in Es. injection Es as <-.
    intros x (q & [j Hj]%list_elem_of_lookup_1 & Hx)%entries_of_elem Hv. pose proof (Hvis j q x Hj Hx Hv) as Hnj. pose proof Hv as [Eu _].
    destruct (decide (j = n)) as [->|Hne].
    + rewrite Hp in Hj. injection Hj as <-. apply (proj1 (Hb x Hx)). by rewrite Eu.
    + destruct (Hlater j q x0 x Hj ltac:(lia) Hin0 Hx) as (Hl0 & Ho0 & Hox). apply (ie_key_lt x0 x Ho0 Hox) in Hl0 as [Hl0|[E0 _]].
      * rewrite Eu in Hl0. by eapply key_lt_asym.
      * rewrite E0, Eu in Ez. by apply key_lt_irrefl in Ez.
  - exists [p]. split; [done|]. split; [constructor; [by apply (Forall_elem _ _ _ Hps); eapply list_elem_of_lookup_2|constructor]|].
    split; [apply newest_first_single|]. intros value r. rewrite entries_of_cons. unfold entries_of at 1. cbn [fmap list_fmap concat]. rewrite app_nil_r.
    intros [[-> Hno]|(x & Hx & Hv & Hmax & ->)].
    + left. split; [done|]. intros y (q & [j Hj]%list_elem_of_lookup_1 & Hy)%entries_of_elem Hv. pose proof (Hvis j q y Hj Hy Hv) as Hnj. pose proof Hv as [Eu _].
      destruct (decide (j = n)) as [->|Hne]; [rewrite Hp in Hj; injection Hj as <-; by apply (Hno y)|].
      destruct (Hlater j q xl y Hj ltac:(lia) Hinl Hy) as (Hll & Hol & Hoy).
      destruct (not_before_cases xl Hol) as [Hvl'|Hgt]; [rewrite <- Exl; by apply (Hafter n f)|by apply (Hno xl)|].
      apply (ie_key_lt xl y Hol Hoy) in Hll as [Hll|[E _]]; [rewrite Eu in Hll; by eapply key_lt_asym|rewrite E, Eu in Hgt; by apply key_lt_irrefl in Hgt].
    + right. exists x. split; [apply entries_of_elem; exists p; split; [by eapply list_elem_of_lookup_2|done]|]. split; [done|]. split; [|done].
      intros y (q & [j Hj]%list_elem_of_lookup_1 & Hy)%entries_of_elem Hvy. pose proof (Hvis j q y Hj Hy Hvy) as Hnj.
      destruct (decide (j = n)) as [->|Hne]; [rewrite Hp in Hj; injection Hj as <-; by apply Hmax|].
      destruct (Hlater j q x y Hj ltac:(lia) Hx Hy) as (Hlt' & Hox & Hoy). destruct Hv as [Ex _], Hvy as [Ey _].
      apply (ie_key_lt x y Hox Hoy) in Hlt' as [Hlt'|[_ Hlt']]; [rewrite Ex, Ey in Hlt'; by apply key_lt_irrefl in Hlt'|lia].
Qed.

(** ** Versions *)
Record version_ok (v : Version) : Prop := {
  vo_levels : length (files_ v) = Z.to_nat kNumLevels;
  vo_holds : Forall (Forall ptr_holds) (files_ v);
  vo_level0 : forall ps, files_ v !! O = Some ps -> base.NoDup ps /\ numbers_differ ps /\ newer_numbers ps;
  vo_sorted : forall l ps, (0 < l)%nat -> files_ v !! l = Some ps -> level_sorted ps /\ zlength ps < 2 ^ 31;
  vo_newer : forall l l' ps ps', (l < l')%nat -> files_ v !! l = Some ps -> files_ v !! l' = Some ps' -> newer (entries_of ps) (entries_of ps');
}.

Definition version_entries (v : Version) : list ientry := concat (entries_of <$> files_ v).

Lemma search_files level ps : 0 <= level -> Forall ptr_holds ps -> (level = 0 -> base.NoDup ps /\ numbers_differ ps /\ newer_numbers ps) ->
  (0 < level -> level_sorted ps /\ zlength ps < 2 ^ 31) ->
  exists search, files_to_search uc h level u target ps = Ret search /\ Forall ptr_holds search /\ newest_first search /\
    forall value r, answer (entries_of search) value r -> answer (entries_of ps) value r.
Proof.
  intros Hlev Hps H0 H1. destruct (decide (level = 0)) as [->|Hne].
  - destruct (H0 eq_refl) as (Hn & Hd & Hnew). by apply search_level0.
  - destruct H1 as [Hs Hlen]; [lia|]. apply search_level; [lia|done..].
Qed.

Lemma get_in_levels_at v l (st : get_state) : version_ok v -> tc_serves F (gs_cache st) ->
  exists o st', get_in_levels uc h options u target (Z.of_nat l) (drop l (files_ v)) st = Ret (o, st') /\ tc_serves F (gs_cache st') /\
    answer (concat (entries_of <$> drop l (files_ v))) (gs_value st) (o, gs_value st').
Proof.
  intros Hv. remember (length (files_ v) - l)%nat as n eqn:En. revert l En st. induction n as [|n IH]; intros l En st Htc.
  - rewrite drop_ge by lia. exists None, st. split; [done|]. split; [done|]. left. split; [done|]. by intros x ?%not_elem_of_nil.
  - destruct (lookup_lt_is_Some_2 (files_ v) l) as [ps Hps]; [lia|]. rewrite (drop_S _ _ _ Hps). cbn [get_in_levels fmap list_fmap concat].
    assert (exists o st1, match ps with
        | [] => Ret (None, st)
        | _ => let! search := files_to_search uc h (Z.of_nat l) u target ps in get_in_files uc h options u target (Z.of_nat l) search st
        end = Ret (o, st1) /\ tc_serves F (gs_cache st1) /\ answer (entries_of ps) (gs_value st) (o, gs_value st1)) as (o & st1 & -> & Htc1 & Hans).
    { destruct (decide (ps = [])) as [->|Hne]; [exists None, st; split; [done|]; split; [done|]; left; split; [done|]; by intros x ?%not_elem_of_nil|].
      destruct (search_files (Z.of_nat l) ps) as (search & Es & Hsh & Hsn & Hsa); [lia|exact (Forall_elem _ _ _ (vo_holds v Hv) (list_elem_of_lookup_2 _ _ _ Hps))| | |].
      { intros E. assert (l = O) as -> by lia. by apply (vo_level0 v Hv). }
      { intros Hl. apply (vo_sorted v Hv l); [lia|done]. }
      destruct (get_in_files_at (Z.of_nat l) search st Hsh Hsn Htc) as (o & st1 & E & Htc1 & Hans). exists o, st1.
      split; [|split; [done|by apply Hsa]]. rewrite <- E. destruct ps; [done|]. by rewrite Es. }
    rewrite res_bind_ret. destruct o as [s|].
    + exists (Some s), st1. split; [done|]. split; [done|]. apply answer_found; [|done].
      intros x y Hx Hy. apply elem_of_concat in Hy as (i & xs & Hi & Hy). rewrite list_lookup_fmap, lookup_drop in Hi.
      destruct (files_ v !! (S l + i)%nat) as [ps'|] eqn:Hps'; [|done]. injection Hi as <-. apply (vo_newer v Hv l (S l + i) ps ps'); [lia|done..].
    + destruct (IH (S l) ltac:(lia) st1 Htc1) as (o & st' & E & Htc' & Hans').
      replace (Z.of_nat l + 1) with (Z.of_nat (S l)) by lia. exists o, st'. split; [done|]. split; [done|]. by eapply answer_none.
Qed.

(** In terms of what is alive. *)
Lemma tag_type x y : ie_tag x = ie_tag y -> ie_type x = ie_type y.
Proof. unfold ie_tag, tag. destruct (ie_type x), (ie_type y); cbn [ValueType_value]; [done|lia|lia|done]. Qed.

Lemma answer_alive xs value o value' : answer xs value (o, value') ->
  let s := match o with Some s => s | None => NotFound [] end in
  (alive sq xs u value' /\ s = Status_OK) \/ ((forall w, ~ alive sq xs u w) /\ IsNotFound s = true /\ value' = value).
Proof.
  intros [[[= -> ->] Hno]|(x & Hx & [Eu Hs] & Hmax & E)].
  - right. split; [|done]. intros w (y & Hy & Ey & _ & _ & Hsy & _). by apply (Hno y).
  - destruct (ie_type x) eqn:Et; injection E as -> ->.
    + right. split; [|done]. intros w (y & Hy & Ey & Ety & _ & Hsy & Hy'). assert (ie_tag y = ie_tag x) as Etag.
      { apply Z.le_antisymm; [by apply Hmax|by apply Hy']. }
      apply tag_type in Etag. congruence.
    + left. split; [|done]. exists x. do 5 (split; [done|]). intros y Hy Ey Hsy. by apply Hmax.
Qed.
End lookup.
End version.

(** ** Tables in memory, as a table cache *)
Section table_map.
Context (uc : Comparator) (valid : bytes -> Prop) `{!ComparatorOk uc valid}.

Definition TableMap : Type := gmap (Z * Z) (list entry).

Fixpoint first_past (k : bytes) (es : list entry) : res (option entry) :=
  match es with
  | [] => Ret None
  | e :: es => let! z := Compare (InternalKeyComparator uc) e.1 k in if z <? 0 then first_past k es else Ret (Some e)
  end.

Definition map_Get {A} (ro : ReadOptions) (n sz : Z) (k : bytes) (arg : A) (handle : A -> bytes -> bytes -> res A) (tc : TableMap) : res (Status * A * TableMap) :=
  match tc !! (n, sz) with
  | None => Ret (NotFound [], arg, tc)
  | Some es =>
      let! o := first_past k es in
      match o with
      | Some e => let! arg := handle arg e.1 e.2 in Ret (Status_OK, arg, tc)
      | None => Ret (Status_OK, arg, tc)
      end
  end.

#[export] Instance TableMap_TableCache : TableCache TableMap := {| tc_Get := @map_Get |}.

Lemma first_past_at k es : Forall (ivalid valid) es.*1 -> ivalid valid k ->
  exists p, seek_pos (InternalKeyComparator uc) (ivalid valid) es k p /\ first_past k es = Ret (match p with Some i => es !! i | None => None end).
Proof.
  intros Hes Hk. induction es as [|e es IH]; [exists None; split; [constructor|done]|]. inversion Hes as [|? ? He Hes']; subst. cbn [first_past].
  destruct (Compare_tests (InternalKeyComparator uc) (ivalid valid) e.1 k He Hk) as (z & -> & Hz). rewrite res_bind_ret. destruct (z <? 0) eqn:Ez.
  - apply (cmp_lt _ _ _ _ Hz) in Ez. destruct (IH Hes') as (p & Hp & ->). exists (S <$> p). split; [|by destruct p].
    destruct p as [i|]; cbn in Hp |- *; [|by constructor]. destruct Hp as [Hp Hi]. split; [by constructor|done].
  - exists (Some O). split; [|done]. cbn. split; [constructor|]. exists e. split; [done|]. intros Hlt. apply (cmp_lt _ _ _ _ Hz) in Hlt. congruence.
Qed.

#[export] Instance TableMap_ok : TableCacheOk TableMap uc valid.
Proof.
  refine {| tc_serves F tc := forall n sz es, F n sz es -> tc !! (n, sz) = Some es /\ Forall (ivalid valid) es.*1 |}.
  intros A ro n sz k arg handle tc F es Htc HF Hk. destruct (Htc n sz es HF) as [Hes Hv]. destruct (first_past_at k es Hv Hk) as (p & Hp & E).
  exists p, tc. split; [exact Hp|]. split; [done|]. cbn [tc_Get TableMap_TableCache]. unfold map_Get. rewrite Hes, E, res_bind_ret.
  destruct p as [i|]; [|by right]. destruct Hp as (_ & e & He & _). left. exists i, e. by rewrite He.
Defined.
End table_map.

(** ** Properties *)

(** C12: A lookup in a version finds the newest value of the key at the sequence
    number, among all files of all levels, or reports NotFound and leaves the
    value alone when there is none or it was deleted. The version is well formed
    ([version_ok]: above level 0 the files of a level are sorted and apart,
    newer files of level 0 have larger numbers, and a level has nothing newer
    than the levels above it), and the table cache meets its interface
    ([TableCacheOk]). *)
Theorem version_get uc valid `{!ComparatorOk uc valid} {TC : Type} `{!TableCache TC} `{!TableCacheOk TC uc valid}
    (h : gmap nat FileMetaData) options contents F v u sq (tc : TC) value :
  valid u -> seq_ok sq -> zlength u + 8 < 2 ^ 32 -> version_ok uc valid h contents F v -> tc_serves F tc ->
  exists k s value' stats tc', LookupKey_make u sq = Ret k /\ Version_Get uc h options v k value tc = Ret (s, value', stats, tc') /\ tc_serves F tc' /\
    ((alive sq (version_entries contents v) u value' /\ s = Status_OK) \/
     ((forall w, ~ alive sq (version_entries contents v) u w) /\ IsNotFound s = true /\ value' = value)).
Proof.
  intros Hu Hsq Hlen Hv Htc. destruct (LookupKey_make_ok u sq Hsq Hlen) as (k & Ek & _ & Eik & Euk). exists k.
  destruct (get_in_levels_at uc valid h u sq Hu Hsq options contents F v 0 (MkGetState value (MkGetStats None (-1)) None tc) Hv Htc) as (o & st & E & Htc' & Hans).
  change (ikey u sq kTypeValue) with (ikey u sq kValueTypeForSeek) in Eik. unfold Version_Get. rewrite Eik, Euk. rewrite drop_0 in E, Hans. change (Z.of_nat 0) with 0 in E. rewrite E, res_bind_ret.
  eexists _, _, _, _. split; [done|]. split; [done|]. split; [exact Htc'|]. cbn [gs_value] in Hans. by apply answer_alive in Hans.
Qed.

(** ** A version with two files at level 0 and two at level 1 *)
Definition newerb (xs ys : list ientry) : bool :=
  forallb (fun x => forallb (fun y => negb (bool_decide (ie_user x = ie_user y)) || (ie_tag y <? ie_tag x)) ys) xs.

Lemma newerb_newer xs ys : newerb xs ys = true -> newer xs ys.
Proof.
  intros Hb x y Hx Hy E. unfold newerb in Hb. rewrite forallb_forall in Hb. specialize (Hb x (proj1 (list_elem_of_In _ _) Hx)). cbn in Hb.
  rewrite forallb_forall in Hb. specialize (Hb y (proj1 (list_elem_of_In _ _) Hy)). cbn in Hb. rewrite bool_decide_true in Hb by done. cbn in Hb. by apply Z.ltb_lt.
Qed.

Definition sample_contents (p : nat) : list ientry :=
  match p with
  | 0%nat => [MkIentry [97] 9 kTypeValue [9]; MkIentry [99] 8 kTypeDeletion []]
  | 1%nat => [MkIentry [97] 5 kTypeValue [5]; MkIentry [98] 6 kTypeValue [6]]
  | 2%nat => [MkIentry [97] 2 kTypeValue [2]; MkIentry [99] 1 kTypeValue [1]]
  | _ => [MkIentry [100] 3 kTypeValue [3]]
  end.

Definition sample_file (n : Z) (s l : bytes * Z * ValueType) : FileMetaData :=
  MkFileMetaData 1 100 n 1000 (ikey s.1.1 s.1.2 s.2) (ikey l.1.1 l.1.2 l.2).

Definition sample_heap : gmap nat FileMetaData :=
  {[ 0%nat := sample_file 6 ([97], 9, kTypeValue) ([99], 8, kTypeDeletion);
     1%nat := sample_file 5 ([97], 5, kTypeValue) ([98], 6, kTypeValue);
     2%nat := sample_file 3 ([97], 2, kTypeValue) ([99], 1, kTypeValue);
     3%nat := sample_file 4 ([100], 3, kTypeValue) ([100], 3, kTypeValue) ]}.

Definition sample_version : Version := set_version_files [[1%nat; 0%nat]; [2%nat; 3%nat]; []; []; []; []; []] new_Version.

Definition sample_tables : TableMap :=
  {[ (6, 1000) := ie_entry <$> sample_contents 0; (5, 1000) := ie_entry <$> sample_contents 1;
     (3, 1000) := ie_entry <$> sample_contents 2; (4, 1000) := ie_entry <$> sample_contents 3 ]}.

Definition sample_served (n sz : Z) (es : list entry) : Prop := sample_tables !! (n, sz) = Some es.

Lemma sample_contents_ok p : ientries_ok BytewiseComparator bytes_ok (sample_contents p).
Proof.
  assert (Forall (fun x => bytes_ok (ie_user x) /\ seq_ok (ie_seq x)) (sample_contents p)) as Hk.
  { destruct p as [|[|[|p]]]; repeat (constructor; [split; [by apply bytes_ok_forallb|by split]|]); constructor. }
  split; [apply bytewise_ientries; [by destruct p as [|[|[|p]]]|done]|exact Hk| |].
  - destruct p as [|[|[|p]]]; by repeat (constructor; [done|]).
  - by destruct p as [|[|[|p]]].
Qed.

Lemma sample_ptr_holds p : (p < 4)%nat -> ptr_holds BytewiseComparator bytes_ok sample_heap sample_contents sample_served p.
Proof.
  intros Hp. destruct p as [|[|[|[|p]]]]; [..|lia]; eexists; (split; [reflexivity|]); (split; [|reflexivity]).
  all: split; [apply (sample_contents_ok _)|eexists; split; reflexivity|eexists; split; reflexivity].
Qed.

Lemma sample_version_ok : version_ok BytewiseComparator bytes_ok sample_heap sample_contents sample_served sample_version.
Proof.
  split.
  - reflexivity.
  - repeat (constructor; [repeat (constructor; [apply sample_ptr_holds; lia|]); constructor|]). constructor.
  - intros ps [= <-]. split; [apply (bool_decide_unpack _); vm_compute; exact I|]. split.
    + intros p q f g Hp Hq Hf Hg. rewrite !elem_of_cons, elem_of_nil in Hp, Hq.
      destruct Hp as [->|[->|[]]], Hq as [->|[->|[]]]; vm_compute in Hf, Hg; injection Hf as <-; injection Hg as <-; cbn; done.
    + intros p q f g Hp Hq Hf Hg. rewrite !elem_of_cons, elem_of_nil in Hp, Hq.
      destruct Hp as [->|[->|[]]], Hq as [->|[->|[]]]; vm_compute in Hf, Hg; injection Hf as <-; injection Hg as <-; cbn; try lia; intros _; by apply newerb_newer.
  - intros l ps Hl Hps. destruct l as [|[|[|[|[|[|[|l]]]]]]]; [lia|injection Hps as <-..|done].
    all: split; [|reflexivity]; eexists; (split; [repeat (constructor; [reflexivity|]); constructor|]).
    2-6: by intros i j f g Hi Hj Hij.
    intros i j f g Hi Hj Hij. destruct i as [|[|i]], j as [|[|j]]; try lia; try done. injection Hi as <-. injection Hj as <-.
    apply ikey_lt_intro; [by apply tag_bound|by apply tag_bound|]. left. exact (compare_spec [99] [100]).
  - intros l l' ps ps' Hl Hps Hps'. destruct l as [|[|[|[|[|[|[|l]]]]]]]; [injection Hps as <-..|done];
    destruct l' as [|[|[|[|[|[|[|l']]]]]]]; try lia; try done; injection Hps' as <-; by apply newerb_newer.
Qed.

#[local] Instance sample_table_cache : TableCache TableMap := TableMap_TableCache BytewiseComparator.
#[local] Instance sample_table_cache_ok : TableCacheOk TableMap BytewiseComparator bytes_ok := TableMap_ok BytewiseComparator bytes_ok.

Lemma version_get_witness : exists k s value' stats tc', LookupKey_make [98] 7 = Ret k /\
  Version_Get BytewiseComparator sample_heap new_ReadOptions sample_version k [] sample_tables = Ret (s, value', stats, tc') /\
  alive 7 (version_entries sample_contents sample_version) [98] value' /\ s = Status_OK.
Proof.
  destruct (version_get BytewiseComparator bytes_ok sample_heap new_ReadOptions sample_contents sample_served sample_version [98] 7 sample_tables [])
    as (k & s & value' & stats & tc' & Ek & E & _ & Hres).
  - by apply bytes_ok_forallb.
  - by split.
  - reflexivity.
  - apply sample_version_ok.
  - assert (map_Forall (fun _ es => Forall (ivalid bytes_ok) es.*1) sample_tables) as Hall.
    { unfold sample_tables. repeat (apply map_Forall_insert_2; [apply (sample_contents_ok _)|]). apply map_Forall_empty. }
    intros n sz es Hes. split; [exact Hes|exact (Hall (n, sz) es Hes)].
  - exists k, s, value', stats, tc'. split; [exact Ek|]. split; [exact E|]. destruct Hres as [Hres|[Hno _]]; [exact Hres|]. exfalso. apply (Hno [6]).
    exists (MkIentry [98] 6 kTypeValue [6]). split; [vm_compute; set_solver|]. do 4 (split; [done|]). intros y Hy Ey _. clear - Hy Ey.
    unfold version_entries, entries_of in Hy. cbn in Hy. rewrite !elem_of_cons, elem_of_nil in Hy. by destruct_or? Hy; subst y.
Defined.
