(* ===== verification/Filename.v ===== *)
(** * LevelDB: decimal numbers and file names (logging.cc, filename.h, filename.cc)

    [snprintf] with [%llu] and [%06llu] prints decimal digits, the latter with
    zeros in front up to six; it writes at most [size - 1] characters. *)
From S2P Require Import Prelude LdbBase.

(** ** Numbers *)
Fixpoint decimal_digits (fuel : nat) (n : Z) (acc : bytes) : bytes :=
  match fuel with
  | O => acc
  | S fuel =>
      let acc := (48 + n mod 10) :: acc in
      if n <? 10 then acc else decimal_digits fuel (n / 10) acc
  end.

(** A [uint64_t] has at most 20 digits. *)
Definition decimal (n : Z) : bytes := decimal_digits 20 n [].

Definition decimal06 (n : Z) : bytes := replicate (6 - length (decimal n)) 48 ++ decimal n.

Definition snprintf (buf_size : Z) (s : bytes) : bytes := ztake (buf_size - 1) s.

Definition AppendNumberTo (s : bytes) (num : Z) : bytes := s ++ snprintf 30 (decimal num).

Definition NumberToString (num : Z) : bytes := AppendNumberTo [] num.

(** A digit of [%02x]. *)
Definition hex_digit (d : Z) : Z := if d <? 10 then 48 + d else 87 + d.

(** [char] is signed on the targets: bytes from 128 on are negative. *)
Definition escaped (c : Z) : bytes :=
  if (32 <=? sext 8 c) && (sext 8 c <=? 126) then [c]
  else snprintf 10 ([92; 120] ++ [hex_digit (u32 c .& 0xff / 16); hex_digit (u32 c .& 0xff mod 16)]).

Fixpoint AppendEscapedStringTo (s value : bytes) : bytes :=
  match value with
  | [] => s
  | c :: value => AppendEscapedStringTo (s ++ escaped c) value
  end.

Definition EscapeString (value : bytes) : bytes := AppendEscapedStringTo [] value.

Definition kMaxUint64 : Z := 2 ^ 64 - 1.
Definition kLastDigitOfMaxUint64 : Z := 48 + kMaxUint64 mod 10.

(** The loop: the value and [current - start], or [None] for the overflow check. *)
Fixpoint consume_digits (current : bytes) (value consumed : Z) : option (Z * Z) :=
  match current with
  | [] => Some (value, consumed)
  | ch :: current =>
      if (ch <? 48) || (57 <? ch) then Some (value, consumed)
      else if (kMaxUint64 / 10 <? value) || (value =? kMaxUint64 / 10) && (kLastDigitOfMaxUint64 <? ch) then None
      else consume_digits current (u64 (u64 (value * 10) + (ch - 48))) (consumed + 1)
  end.

Definition ConsumeDecimalNumber : M bytes Z :=
  input <- get;;
  match consume_digits input 0 0 with
  | None => return_false
  | Some (value, digits_consumed) =>
      input' <- lift_res (remove_prefix input digits_consumed);;
      put input';;
      if digits_consumed =? 0 then return_false else ret value
  end.

(** ** File names *)
Inductive FileType : Type := kLogFile | kDBLockFile | kTableFile | kDescriptorFile | kCurrentFile | kTempFile | kInfoLogFile.

#[export] Instance FileType_eq_dec : EqDecision FileType.
Proof. solve_decision. Defined.

Definition MakeFileName (dbname : bytes) (number : Z) (suffix : bytes) : bytes :=
  dbname ++ snprintf 100 (str "/" ++ decimal06 number ++ str "." ++ suffix).

Definition LogFileName (dbname : bytes) (number : Z) : res bytes :=
  let! _ := assert_ (0 <? number) in Ret (MakeFileName dbname number (str "log")).

Definition TableFileName (dbname : bytes) (number : Z) : res bytes :=
  let! _ := assert_ (0 <? number) in Ret (MakeFileName dbname number (str "ldb")).

Definition SSTTableFileName (dbname : bytes) (number : Z) : res bytes :=
  let! _ := assert_ (0 <? number) in Ret (MakeFileName dbname number (str "sst")).

Definition DescriptorFileName (dbname : bytes) (number : Z) : res bytes :=
  let! _ := assert_ (0 <? number) in Ret (dbname ++ snprintf 100 (str "/MANIFEST-" ++ decimal06 number)).

Definition CurrentFileName (dbname : bytes) : bytes := dbname ++ str "/CURRENT".
Definition LockFileName (dbname : bytes) : bytes := dbname ++ str "/LOCK".

Definition TempFileName (dbname : bytes) (number : Z) : res bytes :=
  let! _ := assert_ (0 <? number) in Ret (MakeFileName dbname number (str "dbtmp")).

Definition InfoLogFileName (dbname : bytes) : bytes := dbname ++ str "/LOG".
Definition OldInfoLogFileName (dbname : bytes) : bytes := dbname ++ str "/LOG.old".

(** The number and the type. *)
Definition ParseFileName (filename : bytes) : res (option (Z * FileType)) :=
  let rest := filename in
  if slice_eq rest (str "CURRENT") then Ret (Some (0, kCurrentFile))
  else if slice_eq rest (str "LOCK") then Ret (Some (0, kDBLockFile))
  else if slice_eq rest (str "LOG") || slice_eq rest (str "LOG.old") then Ret (Some (0, kInfoLogFile))
  else if starts_with rest (str "MANIFEST-") then
    let! rest := remove_prefix rest (size (str "MANIFEST-")) in
    let! '(o, rest) := ConsumeDecimalNumber rest in
    Ret (match o with
         | None => None
         | Some num => if negb (empty_slice rest) then None else Some (num, kDescriptorFile)
         end)
  else
    let! '(o, suffix) := ConsumeDecimalNumber rest in
    Ret (match o with
         | None => None
         | Some num =>
             if slice_eq suffix (str ".log") then Some (num, kLogFile)
             else if slice_eq suffix (str ".sst") || slice_eq suffix (str ".ldb") then Some (num, kTableFile)
             else if slice_eq suffix (str ".dbtmp") then Some (num, kTempFile)
             else None
         end).

(** ** The value of digits *)
Definition is_digit (ch : Z) : Prop := 48 <= ch <= 57.
Definition digits_value (ds : bytes) (v : Z) : Z := foldl (fun v ch => v * 10 + (ch - 48)) v ds.

Lemma digits_value_ge ds v : Forall is_digit ds -> 0 <= v -> v <= digits_value ds v.
Proof.
  intros Hd. revert v. induction Hd as [|ch ds Hch _ IH]; intros v Hv; [done|]. unfold is_digit in Hch.
  change (digits_value (ch :: ds) v) with (digits_value ds (v * 10 + (ch - 48))).
  specialize (IH (v * 10 + (ch - 48)) ltac:(lia)). lia.
Qed.

(** Digits up to something else. *)
Lemma consume_digits_spec ds rest v n : Forall is_digit ds -> (forall ch tl, rest = ch :: tl -> ~ is_digit ch) -> 0 <= v < 2 ^ 64 ->
  consume_digits (ds ++ rest) v n = if digits_value ds v <? 2 ^ 64 then Some (digits_value ds v, n + zlength ds) else None.
Proof.
  intros Hd Hr. revert v n. induction Hd as [|ch ds Hch Hds IH]; intros v n Hv.
  - cbn [app digits_value foldl]. rewrite (proj2 (Z.ltb_lt v _)) by lia. rewrite Z.add_0_r. destruct rest as [|ch rest]; [done|]. cbn [consume_digits].
    specialize (Hr ch rest eq_refl). destruct (Z.ltb_spec ch 48), (Z.ltb_spec 57 ch); first [done|exfalso; apply Hr; unfold is_digit; lia].
  - unfold is_digit in Hch. cbn [app consume_digits]. rewrite (proj2 (Z.ltb_ge ch 48)), (proj2 (Z.ltb_ge 57 ch)) by lia. cbn [orb].
    change (digits_value (ch :: ds) v) with (digits_value ds (v * 10 + (ch - 48))).
    change (kMaxUint64 / 10) with 1844674407370955161. change kLastDigitOfMaxUint64 with 53.
    assert ((1844674407370955161 <? v) || (v =? 1844674407370955161) && (53 <? ch) = negb (v * 10 + (ch - 48) <? 2 ^ 64)) as ->.
    { destruct (Z.ltb_spec 1844674407370955161 v), (Z.eqb_spec v 1844674407370955161), (Z.ltb_spec 53 ch), (Z.ltb_spec (v * 10 + (ch - 48)) (2 ^ 64)); cbn; try reflexivity; exfalso; lia. }
    destruct (Z.ltb_spec (v * 10 + (ch - 48)) (2 ^ 64)) as [Hlt|Hge]; cbn [negb].
    + rewrite !wrap_small by (rewrite ?wrap_small; lia). rewrite IH, zlength_cons by lia. by rewrite Z.add_assoc.
    + pose proof (digits_value_ge ds (v * 10 + (ch - 48)) Hds ltac:(lia)). by rewrite (proj2 (Z.ltb_ge _ _)) by lia.
Qed.

Lemma zlength_eq_0 {A} (l : list A) : zlength l = 0 -> l = [].
Proof. destruct l; [done|]. rewrite zlength_cons. pose proof (zlength_nonneg l). lia. Qed.

(** [ConsumeDecimalNumber] reads the digits at the front and stops at the first
    other character; it fails, and consumes nothing, when there are no digits
    or their value does not fit in 64 bits. *)
Theorem ConsumeDecimalNumber_spec ds rest : Forall is_digit ds -> (forall ch tl, rest = ch :: tl -> ~ is_digit ch) ->
  ConsumeDecimalNumber (ds ++ rest) =
    if bool_decide (ds <> [] /\ digits_value ds 0 < 2 ^ 64) then Ret (Some (digits_value ds 0), rest) else Ret (None, ds ++ rest).
Proof.
  intros Hd Hr. unfold ConsumeDecimalNumber. rewrite bind_get, consume_digits_spec by done. destruct (Z.ltb_spec (digits_value ds 0) (2 ^ 64)) as [Hlt|Hge].
  2:{ rewrite bool_decide_false by lia. done. }
  rewrite Z.add_0_l, (bind_lift _ _ _ rest) by apply remove_prefix_app. rewrite bind_put. destruct (Z.eqb_spec (zlength ds) 0) as [E|E].
  - apply zlength_eq_0 in E as ->. by rewrite bool_decide_false by tauto.
  - rewrite bool_decide_true; [done|]. split; [by intros ->|done].
Qed.

(** ** Printing *)
Lemma decimal_digits_spec fuel n acc : 0 <= n < 10 ^ Z.of_nat fuel ->
  exists ds, decimal_digits fuel n acc = ds ++ acc /\ Forall is_digit ds /\ forall v, digits_value ds v = v * 10 ^ zlength ds + n.
Proof.
  revert n acc. induction fuel as [|fuel IH]; intros n acc Hn.
  - exists []. cbn in *. split; [done|]. split; [constructor|]. intros v. change (zlength (@nil Z)) with 0. lia.
  - cbn [decimal_digits]. pose proof (Z.mod_pos_bound n 10 ltac:(lia)) as Hm. pose proof (Z.div_mod n 10 ltac:(lia)) as Hdm.
    destruct (Z.ltb_spec n 10) as [Hlt|Hge].
    + exists [48 + n mod 10]. split; [done|]. split; [constructor; [unfold is_digit; lia|constructor]|]. intros v. cbn. change (zlength _) with 1.
      rewrite Z.mod_small by lia. lia.
    + destruct (IH (n / 10) ((48 + n mod 10) :: acc)) as (ds & E & Hd & Hv).
      { split; [apply Z.div_pos; lia|]. apply Z.div_lt_upper_bound; [lia|]. rewrite Nat2Z.inj_succ, Z.pow_succ_r in Hn by lia. lia. }
      exists (ds ++ [48 + n mod 10]). split; [by rewrite E, <- app_assoc|]. split; [apply Forall_app_2; [done|constructor; [unfold is_digit; lia|constructor]]|].
      intros v. unfold digits_value. rewrite foldl_app. fold (digits_value ds v). rewrite Hv, zlength_app. cbn. change (zlength [_]) with 1.
      rewrite Z.pow_add_r, Z.pow_1_r by (pose proof (zlength_nonneg ds); lia). lia.
Qed.

Lemma decimal_digits_ne fuel n acc : acc <> [] \/ fuel <> O -> decimal_digits fuel n acc <> [].
Proof.
  revert n acc. induction fuel as [|fuel IH]; intros n acc H; cbn [decimal_digits]; [by destruct H|].
  destruct (n <? 10); [done|]. apply IH. by left.
Qed.

Lemma decimal_digits_length fuel n acc : (length (decimal_digits fuel n acc) <= fuel + length acc)%nat.
Proof.
  revert n acc. induction fuel as [|fuel IH]; intros n acc; [done|]. cbn [decimal_digits]. destruct (n <? 10); [cbn; lia|].
  etransitivity; [apply IH|]. cbn. lia.
Qed.

Lemma digits_value_zeros k ds : digits_value (replicate k 48 ++ ds) 0 = digits_value ds 0.
Proof. induction k as [|k IH]; [done|]. cbn. exact IH. Qed.

Lemma decimal_spec n : 0 <= n < 2 ^ 64 -> Forall is_digit (decimal n) /\ digits_value (decimal n) 0 = n /\ decimal n <> [] /\ (length (decimal n) <= 20)%nat.
Proof.
  intros Hn. destruct (decimal_digits_spec 20 n []) as (ds & E & Hd & Hv); [split; [lia|]; change (10 ^ Z.of_nat 20) with 100000000000000000000; lia|].
  pose proof (decimal_digits_length 20 n []) as Hl. pose proof (decimal_digits_ne 20 n [] ltac:(by right)) as Hne.
  unfold decimal. rewrite E, app_nil_r in *. split; [done|]. split; [by rewrite Hv|]. split; [done|cbn in Hl; lia].
Qed.

Lemma decimal06_spec n : 0 <= n < 2 ^ 64 ->
  Forall is_digit (decimal06 n) /\ digits_value (decimal06 n) 0 = n /\ decimal06 n <> [] /\ (length (decimal06 n) <= 20)%nat.
Proof.
  intros Hn. destruct (decimal_spec n Hn) as (Hd & Hv & Hne & Hl). unfold decimal06. split; [|split; [|split]].
  - apply Forall_app_2; [apply Forall_replicate; unfold is_digit; lia|done].
  - by rewrite digits_value_zeros.
  - by intros [_ E]%app_eq_nil.
  - rewrite length_app, length_replicate. lia.
Qed.

Lemma snprintf_fits n s : (length s < Z.to_nat n)%nat -> snprintf n s = s.
Proof. intros Hs. unfold snprintf. apply take_ge. lia. Qed.

(** ** Parsing *)
Lemma ConsumeDecimalNumber_decimal06 n rest : 0 <= n < 2 ^ 64 -> (forall ch tl, rest = ch :: tl -> ~ is_digit ch) ->
  ConsumeDecimalNumber (decimal06 n ++ rest) = Ret (Some n, rest).
Proof.
  intros Hn Hr. destruct (decimal06_spec n Hn) as (Hd & Hv & Hne & _). unfold ConsumeDecimalNumber. rewrite bind_get, consume_digits_spec by done.
  rewrite Hv, (proj2 (Z.ltb_lt _ _)), Z.add_0_l, (bind_lift _ _ _ rest) by (lia || apply remove_prefix_app). rewrite bind_put.
  destruct (Z.eqb_spec (zlength (decimal06 n)) 0) as [E|E]; [by apply zlength_eq_0 in E|done].
Qed.

(** A name that starts with a digit is none of the fixed names. *)
Lemma slice_eq_head b tl a x : b <> a -> slice_eq (b :: tl) (a :: x) = false.
Proof.
  intros Hne. unfold slice_eq, size. rewrite !zlength_cons. pose proof (zlength_nonneg tl). destruct (_ =? _); [|done]. cbn [andb].
  replace (Z.to_nat (1 + zlength tl)) with (S (Z.to_nat (zlength tl))) by lia. cbn [memcmp].
  destruct (Z.ltb_spec b a), (Z.ltb_spec a b); first [done|lia].
Qed.

Lemma starts_with_app p s : starts_with (p ++ s) p = true.
Proof.
  unfold starts_with, size. rewrite zlength_app. pose proof (zlength_nonneg s). rewrite (proj2 (Z.leb_le _ _)) by lia. cbn [andb]. apply Z.eqb_eq.
  unfold zlength. rewrite Nat2Z.id. induction p as [|b p IH]; [by destruct s|]. cbn. by rewrite Z.ltb_irrefl.
Qed.

Lemma starts_with_head b tl a x : b <> a -> starts_with (b :: tl) (a :: x) = false.
Proof.
  intros Hne. unfold starts_with, size. rewrite !zlength_cons. pose proof (zlength_nonneg x). apply andb_false_iff. right.
  replace (Z.to_nat (1 + zlength x)) with (S (Z.to_nat (zlength x))) by lia. cbn [memcmp].
  destruct (Z.ltb_spec b a), (Z.ltb_spec a b); first [done|lia].
Qed.

Lemma ParseFileName_number n suffix : 0 <= n < 2 ^ 64 -> (forall ch tl, suffix = ch :: tl -> ~ is_digit ch) ->
  ParseFileName (decimal06 n ++ suffix) =
    Ret (if slice_eq suffix (str ".log") then Some (n, kLogFile)
         else if slice_eq suffix (str ".sst") || slice_eq suffix (str ".ldb") then Some (n, kTableFile)
         else if slice_eq suffix (str ".dbtmp") then Some (n, kTempFile) else None).
Proof.
  intros Hn Hs. pose proof (ConsumeDecimalNumber_decimal06 n suffix Hn Hs) as E. destruct (decimal06_spec n Hn) as (Hd & _ & Hne & _).
  unfold ParseFileName. rewrite E. destruct (decimal06 n) as [|ch ds]; [done|]. inversion Hd as [|? ? Hch _]; subst. cbn [app].
  assert (ch <> 67 /\ ch <> 76 /\ ch <> 77) as (? & ? & ?) by (unfold is_digit in Hch; lia).
  change (str "CURRENT") with (67 :: str "URRENT"). change (str "LOCK") with (76 :: str "OCK").
  change (str "LOG.old") with (76 :: str "OG.old"). change (str "LOG") with (76 :: str "OG").
  change (str "MANIFEST-") with (77 :: str "ANIFEST-").
  by rewrite !slice_eq_head, starts_with_head by done.
Qed.

Lemma ParseFileName_manifest n : 0 <= n < 2 ^ 64 -> ParseFileName (str "MANIFEST-" ++ decimal06 n) = Ret (Some (n, kDescriptorFile)).
Proof.
  intros Hn. unfold ParseFileName.
  change (str "CURRENT") with (67 :: str "URRENT"). change (str "LOCK") with (76 :: str "OCK").
  change (str "LOG.old") with (76 :: str "OG.old"). change (str "LOG") with (76 :: str "OG").
  change (str "MANIFEST-" ++ decimal06 n) with (77 :: (str "ANIFEST-" ++ decimal06 n)). rewrite !slice_eq_head by done. cbn [orb].
  change (77 :: (str "ANIFEST-" ++ decimal06 n)) with (str "MANIFEST-" ++ decimal06 n). rewrite starts_with_app.
  change (size (str "MANIFEST-")) with (zlength (str "MANIFEST-")). rewrite remove_prefix_app, res_bind_ret.
  rewrite <- (app_nil_r (decimal06 n)), ConsumeDecimalNumber_decimal06 by done. done.
Qed.

(** ** Properties *)
Lemma MakeFileName_spec db n suffix : 0 <= n < 2 ^ 64 -> (length suffix <= 10)%nat ->
  MakeFileName db n suffix = db ++ str "/" ++ decimal06 n ++ str "." ++ suffix.
Proof.
  intros Hn Hs. destruct (decimal06_spec n Hn) as (_ & _ & _ & Hl). unfold MakeFileName. rewrite snprintf_fits; [done|].
  rewrite !length_app. cbn [length str String.list_ascii_of_string fmap list_fmap]. lia.
Qed.

(** [r] is the name of a file of the database whose base name parses as [t]. *)
Definition names (r : res bytes) (db : bytes) (n : Z) (t : FileType) : Prop :=
  exists base, r = Ret (db ++ str "/" ++ base) /\ ParseFileName base = Ret (Some (n, t)).

Lemma MakeFileName_names db n suffix t : 0 < n < 2 ^ 64 -> (length suffix <= 10)%nat ->
  ParseFileName (decimal06 n ++ str "." ++ suffix) = Ret (Some (n, t)) -> names (let! _ := assert_ (0 <? n) in Ret (MakeFileName db n suffix)) db n t.
Proof.
  intros Hn Hs Hp. rewrite assert_true, res_bind_ret by (apply Z.ltb_lt; lia). rewrite MakeFileName_spec by (lia || done). by eexists.
Qed.

(** Every file name that LevelDB makes is parsed back to its number and its
    type. *)
Theorem file_names_parse db n : 0 < n < 2 ^ 64 ->
  names (LogFileName db n) db n kLogFile /\ names (TableFileName db n) db n kTableFile /\ names (SSTTableFileName db n) db n kTableFile /\
  names (DescriptorFileName db n) db n kDescriptorFile /\ names (TempFileName db n) db n kTempFile /\
  names (Ret (CurrentFileName db)) db 0 kCurrentFile /\ names (Ret (LockFileName db)) db 0 kDBLockFile /\
  names (Ret (InfoLogFileName db)) db 0 kInfoLogFile /\ names (Ret (OldInfoLogFileName db)) db 0 kInfoLogFile.
Proof.
  intros Hn. assert (forall suffix, (forall ch tl, str "." ++ suffix = ch :: tl -> ~ is_digit ch)) as Hdot by (intros suffix ch tl [= <- _]; intros [H _]; by apply H).
  split_and!.
  1-3,5: apply MakeFileName_names; [done|cbn; lia|rewrite ParseFileName_number by (lia || apply Hdot); reflexivity].
  - exists (str "MANIFEST-" ++ decimal06 n). rewrite ParseFileName_manifest by lia. split; [|done]. unfold DescriptorFileName.
    rewrite assert_true, res_bind_ret by (apply Z.ltb_lt; lia). destruct (decimal06_spec n) as (_ & _ & _ & Hl); [lia|].
    rewrite snprintf_fits; [done|]. rewrite length_app. cbn [length str String.list_ascii_of_string fmap list_fmap]. lia.
  - by exists (str "CURRENT").
  - by exists (str "LOCK").
  - by exists (str "LOG").
  - by exists (str "LOG.old").
Qed.

Lemma file_names_parse_witness : names (TableFileName (str "/db") 7) (str "/db") 7 kTableFile /\ TableFileName (str "/db") 7 = Ret (str "/db/000007.ldb").
Proof. split; [apply (file_names_parse (str "/db") 7); lia|reflexivity]. Defined.

Lemma ConsumeDecimalNumber_spec_witness : ConsumeDecimalNumber (str "18446744073709551616.log") = Ret (None, str "18446744073709551616.log").
Proof.
  apply (ConsumeDecimalNumber_spec (str "18446744073709551616") (str ".log")).
  - repeat (constructor; [split; discriminate|]). constructor.
  - intros ch tl [= <- _] [H _]. by apply H.
Defined.
