(* ===== verification/VersionSet.v ===== *)
(** * LevelDB: the version set and its builder (version_set.cc)

    Version objects and file objects live in heaps; their reference counts are
    those of the code.  The circular list of versions is the list of their
    addresses, in its order, without [dummy_versions_]. *)
From Stdlib Require Import SpecFloat.
From S2P Require Import Prelude LdbBase Coding LogWriter LogReader Comparator DbFormat WriteBatch Filename VersionEdit Version.

Abbreviation VersionPtr := nat (only parsing).

Record VersionSet : Type := MkVersionSet {
  vs_files : files_heap;
  vs_versions : gmap nat Version;
  vs_list : list VersionPtr;
  vs_current : option VersionPtr;
  vs_next_file_number : Z;
  vs_manifest_file_number : Z;
  vs_last_sequence : Z;
  vs_log_number : Z;
  vs_prev_log_number : Z;
  vs_compact_pointer : list bytes;
}.

Definition set_vs_files (h : files_heap) (s : VersionSet) : VersionSet :=
  MkVersionSet h (vs_versions s) (vs_list s) (vs_current s) (vs_next_file_number s) (vs_manifest_file_number s) (vs_last_sequence s)
    (vs_log_number s) (vs_prev_log_number s) (vs_compact_pointer s).
Definition set_vs_versions (vs : gmap nat Version) (l : list VersionPtr) (current : option VersionPtr) (s : VersionSet) : VersionSet :=
  MkVersionSet (vs_files s) vs l current (vs_next_file_number s) (vs_manifest_file_number s) (vs_last_sequence s)
    (vs_log_number s) (vs_prev_log_number s) (vs_compact_pointer s).
Definition set_vs_numbers (next_file manifest last_sequence log prev_log : Z) (s : VersionSet) : VersionSet :=
  MkVersionSet (vs_files s) (vs_versions s) (vs_list s) (vs_current s) next_file manifest last_sequence log prev_log (vs_compact_pointer s).
Definition set_vs_compact_pointer (l : list bytes) (s : VersionSet) : VersionSet :=
  MkVersionSet (vs_files s) (vs_versions s) (vs_list s) (vs_current s) (vs_next_file_number s) (vs_manifest_file_number s) (vs_last_sequence s)
    (vs_log_number s) (vs_prev_log_number s) l.

(** [a[i] = x] inside an array. *)
Definition write_at {A} (l : list A) (i : Z) (x : A) : res (list A) :=
  if (0 <=? i) && (i <? zlength l) then Ret (<[Z.to_nat i := x]> l) else UB.

Definition read_at {A} (l : list A) (i : Z) : res A := if 0 <=? i then of_option (l !! Z.to_nat i) else UB.

(** ** File numbers *)
Definition NewFileNumber (s : VersionSet) : Z * VersionSet :=
  (vs_next_file_number s,
   set_vs_numbers (u64 (vs_next_file_number s + 1)) (vs_manifest_file_number s) (vs_last_sequence s) (vs_log_number s) (vs_prev_log_number s) s).

Definition ReuseFileNumber (file_number : Z) (s : VersionSet) : VersionSet :=
  if vs_next_file_number s =? u64 (file_number + 1) then
    set_vs_numbers file_number (vs_manifest_file_number s) (vs_last_sequence s) (vs_log_number s) (vs_prev_log_number s) s
  else s.

Definition MarkFileNumberUsed (number : Z) (s : VersionSet) : VersionSet :=
  if vs_next_file_number s <=? number then
    set_vs_numbers (u64 (number + 1)) (vs_manifest_file_number s) (vs_last_sequence s) (vs_log_number s) (vs_prev_log_number s) s
  else s.

Definition VersionSet_SetLastSequence (seq : Z) (s : VersionSet) : res VersionSet :=
  let! _ := assert_ (vs_last_sequence s <=? seq) in
  Ret (set_vs_numbers (vs_next_file_number s) (vs_manifest_file_number s) seq (vs_log_number s) (vs_prev_log_number s) s).

(** ** Reference counts *)
Definition set_file_refs (n : Z) (f : FileMetaData) : FileMetaData :=
  MkFileMetaData n (allowed_seeks f) (number f) (file_size f) (smallest f) (largest f).

(** [f->refs++]. *)
Definition ref_file (p : FilePtr) (h : files_heap) : res files_heap :=
  let! f := file_at h p in let! n := int_add (refs f) 1 in Ret (<[p := set_file_refs n f]> h).

(** [f->refs--; if (f->refs <= 0) delete f;]. *)
Definition unref_file (p : FilePtr) (h : files_heap) : res files_heap :=
  let! f := file_at h p in
  let! n := int_add (refs f) (-1) in
  Ret (if n <=? 0 then delete p h else <[p := set_file_refs n f]> h).

Fixpoint unref_files (ps : list FilePtr) (h : files_heap) : res files_heap :=
  match ps with [] => Ret h | p :: ps => let! h := unref_file p h in unref_files ps h end.

Definition version_at (s : VersionSet) (v : VersionPtr) : res Version := of_option (vs_versions s !! v).

(** The drops of [~Version]: the files must be referenced. *)
Fixpoint drop_files (ps : list FilePtr) (h : files_heap) : res files_heap :=
  match ps with
  | [] => Ret h
  | p :: ps =>
      let! f := file_at h p in
      let! _ := assert_ (0 <? refs f) in
      let! h := unref_file p h in
      drop_files ps h
  end.

(** [~Version] and the release of the object; unlinking a version that is in no
    list changes nothing. *)
Definition delete_Version (p : VersionPtr) (s : VersionSet) : res VersionSet :=
  let! v := version_at s p in
  let! _ := assert_ (version_refs v =? 0) in
  let! h := drop_files (concat (files_ v)) (vs_files s) in
  Ret (set_vs_files h (set_vs_versions (delete p (vs_versions s)) (filter (fun q => q <> p) (vs_list s)) (vs_current s) s)).

Definition Version_Ref (p : VersionPtr) (s : VersionSet) : res VersionSet :=
  let! v := version_at s p in
  let! n := int_add (version_refs v) 1 in
  Ret (set_vs_versions (<[p := set_version_refs n v]> (vs_versions s)) (vs_list s) (vs_current s) s).

Definition Version_Unref (p : VersionPtr) (s : VersionSet) : res VersionSet :=
  let! v := version_at s p in
  let! _ := assert_ (1 <=? version_refs v) in
  let! n := int_add (version_refs v) (-1) in
  let s := set_vs_versions (<[p := set_version_refs n v]> (vs_versions s)) (vs_list s) (vs_current s) s in
  if n =? 0 then delete_Version p s else Ret s.

(** [new Version(this)]. *)
Definition alloc_version (v : Version) (s : VersionSet) : VersionPtr * VersionSet :=
  let p := fresh (dom (vs_versions s)) in
  (p, set_vs_versions (<[p := v]> (vs_versions s)) (vs_list s) (vs_current s) s).

Definition AppendVersion (p : VersionPtr) (s : VersionSet) : res VersionSet :=
  let! v := version_at s p in
  let! _ := assert_ (version_refs v =? 0) in
  let! _ := assert_ (bool_decide (vs_current s <> Some p)) in
  let! s := match vs_current s with Some q => Version_Unref q s | None => Ret s end in
  let s := set_vs_versions (vs_versions s) (vs_list s) (Some p) s in
  let! s := Version_Ref p s in
  Ret (set_vs_versions (vs_versions s) (vs_list s ++ [p]) (vs_current s) s).

Definition new_VersionSet : res VersionSet :=
  let s := MkVersionSet ∅ ∅ [] None 2 0 0 0 0 (replicate (Z.to_nat kNumLevels) []) in
  let '(p, s) := alloc_version new_Version s in
  AppendVersion p s.

Definition current_version (s : VersionSet) : res Version := let! p := of_option (vs_current s) in version_at s p.

(** ** The builder *)
Record LevelState : Type := MkLevelState {
  deleted_files : gset Z;
  added_files : list FilePtr;
}.

Record Builder : Type := MkBuilder {
  base_ : VersionPtr;
  levels_ : list LevelState;
}.

Section builder.
Variable uc : Comparator.
Abbreviation icmp := (InternalKeyComparator uc).

(** [Compare] on two [InternalKey]s. *)
Definition Compare_keys (a b : InternalKey) : res Z :=
  let! a := InternalKey_Encode a in let! b := InternalKey_Encode b in Compare icmp a b.

Definition BySmallestKey (f1 f2 : FileMetaData) : res bool :=
  let! r := Compare_keys (smallest f1) (smallest f2) in
  Ret (if negb (r =? 0) then r <? 0 else number f1 <? number f2).

(** [std::set::insert]; a set is its elements in order. *)
Fixpoint insert_added (h : files_heap) (p : FilePtr) (l : list FilePtr) : res (list FilePtr) :=
  match l with
  | [] => Ret [p]
  | q :: l' =>
      let! f := file_at h p in
      let! g := file_at h q in
      let! before := BySmallestKey f g in
      if before : bool then Ret (p :: l)
      else
        let! after := BySmallestKey g f in
        if after : bool then let! l' := insert_added h p l' in Ret (q :: l') else Ret l
  end.

Definition new_Builder (base : VersionPtr) (s : VersionSet) : res (Builder * VersionSet) :=
  let! s := Version_Ref base s in
  Ret (MkBuilder base (replicate (Z.to_nat kNumLevels) (MkLevelState ∅ [])), s).

(** [~Builder]. *)
Definition delete_Builder (b : Builder) (s : VersionSet) : res VersionSet :=
  let! h := unref_files (concat (added_files <$> levels_ b)) (vs_files s) in
  Version_Unref (base_ b) (set_vs_files h s).

Fixpoint builder_pointers (l : list (Z * InternalKey)) (pointers : list bytes) : res (list bytes) :=
  match l with
  | [] => Ret pointers
  | (level, key) :: l =>
      let! k := InternalKey_Encode key in
      let! pointers := write_at pointers level k in
      builder_pointers l pointers
  end.

Fixpoint builder_deleted (l : list (Z * Z)) (levels : list LevelState) : res (list LevelState) :=
  match l with
  | [] => Ret levels
  | (level, number) :: l =>
      let! st := read_at levels level in
      let! levels := write_at levels level (MkLevelState ({[number]} ∪ deleted_files st) (added_files st)) in
      builder_deleted l levels
  end.

(** The file that [Apply] makes of an entry. *)
Definition added_file (f : FileMetaData) : FileMetaData :=
  let seeks := s32 (file_size f / 16384) in
  MkFileMetaData 1 (if seeks <? 100 then 100 else seeks) (number f) (file_size f) (smallest f) (largest f).

Definition builder_new (level : Z) (f : FileMetaData) (levels : list LevelState) (h : files_heap) : res (list LevelState * files_heap) :=
  let p := fresh (dom h) in
  let h := <[p := added_file f]> h in
  let! st := read_at levels level in
  let! added := insert_added h p (added_files st) in
  let! levels := write_at levels level (MkLevelState (deleted_files st ∖ {[number f]}) added) in
  Ret (levels, h).

Fixpoint builder_news (l : list (Z * FileMetaData)) (levels : list LevelState) (h : files_heap) : res (list LevelState * files_heap) :=
  match l with
  | [] => Ret (levels, h)
  | (level, f) :: l => let! '(levels, h) := builder_new level f levels h in builder_news l levels h
  end.

Definition Apply (edit : VersionEdit) (b : Builder) (s : VersionSet) : res (Builder * VersionSet) :=
  let! pointers := builder_pointers (compact_pointers_ edit) (vs_compact_pointer s) in
  let! levels := builder_deleted (deleted_files_ edit) (levels_ b) in
  let! '(levels, h) := builder_news (new_files_ edit) levels (vs_files s) in
  Ret (MkBuilder (base_ b) levels, set_vs_files h (set_vs_compact_pointer pointers s)).

(** [v->files_[level]] and the heap. *)
Definition MaybeAddFile (level : Z) (st : LevelState) (p : FilePtr) (files : list FilePtr) (h : files_heap) : res (list FilePtr * files_heap) :=
  let! f := file_at h p in
  if bool_decide (number f ∈ deleted_files st) then Ret (files, h)
  else
    let! _ :=
      match list.last files with
      | Some q =>
          if 0 <? level then
            let! g := file_at h q in
            let! z := Compare_keys (largest g) (smallest f) in
            assert_ (z <? 0)
          else Ret tt
      | None => Ret tt
      end in
    let! h := ref_file p h in
    Ret (files ++ [p], h).

Fixpoint maybe_add_files (level : Z) (st : LevelState) (ps files : list FilePtr) (h : files_heap) : res (list FilePtr * files_heap) :=
  match ps with
  | [] => Ret (files, h)
  | p :: ps => let! '(files, h) := MaybeAddFile level st p files h in maybe_add_files level st ps files h
  end.

(** The files all come after [p]. *)
Fixpoint all_greater (h : files_heap) (p : FilePtr) (l : list FilePtr) : res unit :=
  match l with
  | [] => Ret tt
  | q :: l =>
      let! f := file_at h p in
      let! g := file_at h q in
      let! greater := BySmallestKey f g in
      let! _ := assert_ greater in
      all_greater h p l
  end.

(** [std::upper_bound] of the file [p]: what is before the first file that is
    greater, and the rest.  The range must be partitioned. *)
Fixpoint upper_bound (h : files_heap) (p : FilePtr) (base : list FilePtr) : res (list FilePtr * list FilePtr) :=
  match base with
  | [] => Ret ([], [])
  | q :: base' =>
      let! f := file_at h p in
      let! g := file_at h q in
      let! greater := BySmallestKey f g in
      if greater : bool then let! _ := all_greater h p base' in Ret ([], base)
      else let! '(before, rest) := upper_bound h p base' in Ret (q :: before, rest)
  end.

(** The loop over the added files, and the files of the base that are left. *)
Fixpoint save_added (level : Z) (st : LevelState) (added base files : list FilePtr) (h : files_heap) : res (list FilePtr * files_heap) :=
  match added with
  | [] => maybe_add_files level st base files h
  | p :: added =>
      let! '(before, rest) := upper_bound h p base in
      let! '(files, h) := maybe_add_files level st before files h in
      let! '(files, h) := MaybeAddFile level st p files h in
      save_added level st added rest files h
  end.

(** The check that runs without [NDEBUG]. *)
Fixpoint check_no_overlap (h : files_heap) (files : list FilePtr) : res unit :=
  match files with
  | p :: ((q :: _) as files') =>
      let! f := file_at h p in
      let! g := file_at h q in
      let! z := Compare_keys (largest f) (smallest g) in
      let! _ := assert_ (z <? 0) in
      check_no_overlap h files'
  | _ => Ret tt
  end.

(** [files] is [v->files_[level]]. *)
Definition save_level (level : Z) (st : LevelState) (base files : list FilePtr) (h : files_heap) : res (list FilePtr * files_heap) :=
  let! '(files, h) := save_added level st (added_files st) base files h in
  let! _ := (if 0 <? level then check_no_overlap h files else Ret tt) in
  Ret (files, h).

Fixpoint save_levels (level : Z) (states : list LevelState) (base own : list (list FilePtr)) (h : files_heap) : res (list (list FilePtr) * files_heap) :=
  match states, base, own with
  | st :: states, b :: base, files :: own =>
      let! '(files, h) := save_level level st b files h in
      let! '(rest, h) := save_levels (level + 1) states base own h in
      Ret (files :: rest, h)
  | [], [], [] => Ret ([], h)
  | _, _, _ => UB
  end.

Definition SaveTo (b : Builder) (p : VersionPtr) (s : VersionSet) : res VersionSet :=
  let! base := version_at s (base_ b) in
  let! v := version_at s p in
  let! '(files, h) := save_levels 0 (levels_ b) (files_ base) (files_ v) (vs_files s) in
  Ret (set_vs_versions (<[p := set_version_files files v]> (vs_versions s)) (vs_list s) (vs_current s) (set_vs_files h s)).

(** ** Finalize *)
Definition SFdiv64 : spec_float -> spec_float -> spec_float := SFdiv 53 1024.
Definition SFmul64 : spec_float -> spec_float -> spec_float := SFmul 53 1024.

(** [10. * 1048576.0], times ten for each level above 1. *)
Fixpoint max_bytes (n : nat) (result : spec_float) : spec_float :=
  match n with O => result | S n => max_bytes n (SFmul64 result (double_of 10)) end.
Definition MaxBytesForLevel (level : Z) : spec_float := max_bytes (Z.to_nat (level - 1)) (SFmul64 (double_of 10) (double_of 1048576)).

Definition level_score (h : files_heap) (level : Z) (files : list FilePtr) : res spec_float :=
  if level =? 0 then Ret (SFdiv64 (double_of (zlength files)) (double_of kL0_CompactionTrigger))
  else
    let! level_bytes := TotalFileSize h files in
    Ret (SFdiv64 (double_of (u64 level_bytes)) (MaxBytesForLevel level)).

Fixpoint best_level (h : files_heap) (level : Z) (levels : list (list FilePtr)) (best : Z) (best_score : spec_float) : res (Z * spec_float) :=
  match levels with
  | [] => Ret (best, best_score)
  | files :: levels =>
      if level <? kNumLevels - 1 then
        let! score := level_score h level files in
        if SFltb best_score score then best_level h (level + 1) levels level score else best_level h (level + 1) levels best best_score
      else Ret (best, best_score)
  end.

Definition Finalize (p : VersionPtr) (s : VersionSet) : res VersionSet :=
  let! v := version_at s p in
  let! '(level, score) := best_level (vs_files s) 0 (files_ v) (-1) (double_of (-1)) in
  Ret (set_vs_versions (<[p := set_compaction score level v]> (vs_versions s)) (vs_list s) (vs_current s) s).

(** [compaction_score_ >= 1] or a file to compact. *)
Definition NeedsCompaction (s : VersionSet) : res bool :=
  let! v := current_version s in
  Ret (SFleb (double_of 1) (compaction_score_ v) || bool_decide (file_to_compact_ v <> None)).

(** ** WriteSnapshot and LogAndApply *)

(** What the version set uses of [Env]: a file is the object it returns. *)
Class Env (E W G : Type) : Type := {
  env_NewWritableFile : bytes -> E -> Status * W * E;
  env_NewAppendableFile : bytes -> E -> Status * W * E;
  env_NewSequentialFile : bytes -> E -> Status * G * E;
  env_GetFileSize : bytes -> E -> Status * Z;
  env_ReadFileToString : bytes -> E -> Status * bytes;
  env_WriteStringToFileSync : bytes -> bytes -> E -> Status * E;
  env_RenameFile : bytes -> bytes -> E -> Status * E;
  env_DeleteFile : bytes -> E -> Status * E;
  env_Sync : W -> Status * W;
}.

Context {E W G : Type} `{!Env E W G} `{WritableFile W} `{SequentialFile G}.
Variables (dbname comparator_name : bytes) (max_file_size : Z) (reuse_logs : bool).

Definition SetCurrentFile (descriptor_number : Z) (env : E) : res (Status * E) :=
  let! manifest := DescriptorFileName dbname descriptor_number in
  let contents := manifest in
  let! _ := assert_ (starts_with contents (dbname ++ str "/")) in
  let! contents := remove_prefix contents (size dbname + 1) in
  let! tmp := TempFileName dbname descriptor_number in
  let '(s, env) := env_WriteStringToFileSync (contents ++ [10]) tmp env in
  let '(s, env) := if ok s then env_RenameFile tmp (CurrentFileName dbname) env else (s, env) in
  Ret (if negb (ok s) then (s, (env_DeleteFile tmp env).2) else (s, env)).

(** The pointers of the levels from [level] on. *)
Fixpoint snapshot_pointers (level : Z) (pointers : list bytes) (edit : VersionEdit) : VersionEdit :=
  match pointers with
  | [] => edit
  | k :: pointers =>
      snapshot_pointers (level + 1) pointers (if empty_slice k then edit else SetCompactPointer level (InternalKey_DecodeFrom k) edit)
  end.

Fixpoint snapshot_files (h : files_heap) (level : Z) (files : list FilePtr) (edit : VersionEdit) : res VersionEdit :=
  match files with
  | [] => Ret edit
  | p :: files => let! f := file_at h p in snapshot_files h level files (AddFile level (number f) (file_size f) (smallest f) (largest f) edit)
  end.

Fixpoint snapshot_levels (h : files_heap) (level : Z) (levels : list (list FilePtr)) (edit : VersionEdit) : res VersionEdit :=
  match levels with
  | [] => Ret edit
  | files :: levels => let! edit := snapshot_files h level files edit in snapshot_levels h (level + 1) levels edit
  end.

Definition WriteSnapshot (s : VersionSet) (log : Writer W) : res (Status * Writer W) :=
  let edit := snapshot_pointers 0 (vs_compact_pointer s) (SetComparatorName comparator_name new_VersionEdit) in
  let! v := current_version s in
  let! edit := snapshot_levels (vs_files s) 0 (files_ v) edit in
  let! record := EncodeTo edit [] in
  AddRecord record log.

(** The edit that is logged: [next_file] is set twice when a manifest is created. *)
Definition complete_edit (edit : VersionEdit) (s : VersionSet) : res VersionEdit :=
  let! edit :=
    (if has_log_number_ edit then
       let! _ := assert_ (vs_log_number s <=? log_number_ edit) in
       let! _ := assert_ (log_number_ edit <? vs_next_file_number s) in
       Ret edit
     else Ret (SetLogNumber (vs_log_number s) edit)) in
  let edit := if has_prev_log_number_ edit then edit else SetPrevLogNumber (vs_prev_log_number s) edit in
  Ret (SetLastSequence (vs_last_sequence s) (SetNextFile (vs_next_file_number s) edit)).

(** A new manifest when there is no log: the status, the log, the name of the new
    file and the environment. *)
Definition open_manifest (s : VersionSet) (log : option (Writer W)) (env : E) : res (Status * option (Writer W) * option bytes * E) :=
  match log with
  | Some _ => Ret (Status_OK, log, None, env)
  | None =>
      let! name := DescriptorFileName dbname (vs_manifest_file_number s) in
      let '(st, file, env) := env_NewWritableFile name env in
      if ok st then
        let! log := new_Writer file in
        let! '(st, log) := WriteSnapshot s log in
        Ret (st, Some log, Some name, env)
      else Ret (st, None, Some name, env)
  end.

(** Writes the record and syncs the file. *)
Definition write_edit (edit : VersionEdit) (log : option (Writer W)) : res (Status * option (Writer W)) :=
  let! record := EncodeTo edit [] in
  let! log := of_option log in
  let! '(st, log) := AddRecord record log in
  if ok st then let '(st, file) := env_Sync (dest_ log) in Ret (st, Some (MkWriter file (block_offset_ log) (type_crc_ log))) else Ret (st, Some log).

(** The status, the version set, [descriptor_log_] and the environment; the mutex
    that is released around the writes is not modelled. *)
Definition LogAndApply (edit : VersionEdit) (s : VersionSet) (log : option (Writer W)) (env : E) : res (Status * VersionSet * option (Writer W) * E) :=
  let! edit := complete_edit edit s in
  let '(p, s) := alloc_version new_Version s in
  let! current := of_option (vs_current s) in
  let! '(b, s) := new_Builder current s in
  let! '(b, s) := Apply edit b s in
  let! s := SaveTo b p s in
  let! s := delete_Builder b s in
  let! s := Finalize p s in
  let! '(st, log, new_manifest_file, env) := open_manifest s log env in
  let edit := match new_manifest_file with Some _ => SetNextFile (vs_next_file_number s) edit | None => edit end in
  let! '(st, log) := (if ok st then write_edit edit log else Ret (st, log)) in
  let! '(st, env) := (if ok st then match new_manifest_file with Some _ => SetCurrentFile (vs_manifest_file_number s) env | None => Ret (st, env) end else Ret (st, env)) in
  if ok st then
    let! s := AppendVersion p s in
    Ret (st, set_vs_numbers (vs_next_file_number s) (vs_manifest_file_number s) (vs_last_sequence s) (log_number_ edit) (prev_log_number_ edit) s, log, env)
  else
    let! s := delete_Version p s in
    match new_manifest_file with
    | Some name => Ret (st, s, None, (env_DeleteFile name env).2)
    | None => Ret (st, s, log, env)
    end.

(** ** Recover *)

(** The locals of the loop over the records. *)
Record manifest_state : Type := MkManifestState {
  ms_reader : Reader G;
  ms_status : Status;
  ms_builder : Builder;
  ms_vset : VersionSet;
  ms_log_number : option Z;
  ms_prev_log_number : option Z;
  ms_next_file : option Z;
  ms_last_sequence : option Z;
}.

(** [LogReporter::Corruption] of [Recover]. *)
Definition ManifestReporter (status s : Status) : Status := if ok status then s else status.

(** [if (has) { x = v; have_x = true; }]. *)
Definition found (has : bool) (v : Z) (x : option Z) : option Z := if has then Some v else x.

Definition manifest_body (st : manifest_state) : res (manifest_state + manifest_state) :=
  let! '(o, r) := ReadRecord (ms_reader st) in
  let status := foldl ManifestReporter (ms_status st) (new_reports (ms_reader st) r) in
  let st := MkManifestState r status (ms_builder st) (ms_vset st) (ms_log_number st) (ms_prev_log_number st) (ms_next_file st) (ms_last_sequence st) in
  match o with
  | None => Ret (inr st)
  | Some record =>
      if negb (ok status) then Ret (inr st)
      else
        let! '(status, edit) := DecodeFrom record new_VersionEdit in
        let status :=
          if ok status && has_comparator_ edit && negb (slice_eq (comparator_ edit) comparator_name) then
            Status_make kInvalidArgument (comparator_ edit ++ str " does not match existing comparator ") comparator_name
          else status in
        let! '(b, s) := (if ok status then Apply edit (ms_builder st) (ms_vset st) else Ret (ms_builder st, ms_vset st)) in
        Ret (inl (MkManifestState r status b s
          (found (has_log_number_ edit) (log_number_ edit) (ms_log_number st))
          (found (has_prev_log_number_ edit) (prev_log_number_ edit) (ms_prev_log_number st))
          (found (has_next_file_number_ edit) (next_file_number_ edit) (ms_next_file st))
          (found (has_last_sequence_ edit) (last_sequence_ edit) (ms_last_sequence st))))
  end.

(** What is missing, if the records were read without an error. *)
Definition manifest_status (st : manifest_state) : Status :=
  if ok (ms_status st) then
    match ms_next_file st, ms_log_number st, ms_last_sequence st with
    | None, _, _ => Corruption (str "no meta-nextfile entry in descriptor")
    | _, None, _ => Corruption (str "no meta-lognumber entry in descriptor")
    | _, _, None => Corruption (str "no last-sequence-number entry in descriptor")
    | _, _, _ => Status_OK
    end
  else ms_status st.

(** From the records on: the status and the version set, after [~Builder]. *)
Definition recover_manifest (file : G) (s : VersionSet) : res (Status * VersionSet) :=
  let! current := of_option (vs_current s) in
  let! '(b, s) := new_Builder current s in
  let! st := while manifest_body (MkManifestState (new_Reader file true true 0) Status_OK b s None None None None) in
  let status := manifest_status st in
  let next_file := default 0 (ms_next_file st) in
  let last_sequence := default 0 (ms_last_sequence st) in
  let log_number := default 0 (ms_log_number st) in
  let prev_log_number := default 0 (ms_prev_log_number st) in
  let s := ms_vset st in
  let s := if ok (ms_status st) then MarkFileNumberUsed log_number (MarkFileNumberUsed prev_log_number s) else s in
  let! s :=
    (if ok status then
       let '(p, s) := alloc_version new_Version s in
       let! s := SaveTo (ms_builder st) p s in
       let! s := Finalize p s in
       let! s := AppendVersion p s in
       Ret (set_vs_numbers (u64 (next_file + 1)) next_file last_sequence log_number prev_log_number s)
     else Ret s) in
  let! s := delete_Builder (ms_builder st) s in
  Ret (status, s).

(** The log to append to, when the manifest is reused, and its number. *)
Definition ReuseManifest (dscname dscbase : bytes) (env : E) : res (option (Writer W * Z) * E) :=
  if negb reuse_logs then Ret (None, env)
  else
    let! o := ParseFileName dscbase in
    match o with
    | Some (manifest_number, kDescriptorFile) =>
        let '(st, manifest_size) := env_GetFileSize dscname env in
        if negb (ok st) || (max_file_size <=? manifest_size) then Ret (None, env)
        else
          let '(st, file, env) := env_NewAppendableFile dscname env in
          if negb (ok st) then Ret (None, env)
          else let! log := new_Writer_at file manifest_size in Ret (Some (log, manifest_number), env)
    | _ => Ret (None, env)
    end.

(** The status, the version set, [descriptor_log_], [*save_manifest] and the
    environment.  The builder is deleted before the manifest is reused here; the
    two do not touch the same state. *)
Definition VersionSet_Recover (s : VersionSet) (save_manifest : bool) (env : E) : res (Status * VersionSet * option (Writer W) * bool * E) :=
  let '(st, current) := env_ReadFileToString (CurrentFileName dbname) env in
  if negb (ok st) then Ret (st, s, None, save_manifest, env)
  else
    match list.last current with
    | Some 10 =>
        let current := ztake (size current - 1) current in
        let dscname := dbname ++ str "/" ++ current in
        let '(st, file, env) := env_NewSequentialFile dscname env in
        if negb (ok st) then
          Ret (if IsNotFound st then Corruption2 (str "CURRENT points to a non-existent file") (ToString st) else st, s, None, save_manifest, env)
        else
          let! '(st, s) := recover_manifest file s in
          if ok st then
            let! '(o, env) := ReuseManifest dscname current env in
            match o with
            | Some (log, n) =>
                Ret (st, set_vs_numbers (vs_next_file_number s) n (vs_last_sequence s) (vs_log_number s) (vs_prev_log_number s) s, Some log, save_manifest, env)
            | None => Ret (st, s, None, true, env)
            end
          else Ret (st, s, None, save_manifest, env)
    | _ => Ret (Corruption (str "CURRENT file does not end with newline"), s, None, save_manifest, env)
    end.
End builder.
