(* ===== verification/VersionSetFacts.v ===== *)
(** * LevelDB's version set, proved

    The builder merges the files of a version with those of the edits, and the
    manifest gives the edits back. *)
From S2P Require Import Prelude LdbBase Coding LogWriter LogReader LogRecovery Comparator DbFormat WriteBatch Filename VersionEdit Iterator Format FilterFacts DbIterFacts Version VersionFacts VersionSet.

(** The files of [h], without the counts. *)
Definition live (F : FilePtr -> FileMetaData) (h : files_heap) (p : FilePtr) : Prop := exists n, h !! p = Some (set_file_refs n (F p)).

(** How often a file is in a list. *)
Definition occurrences (p : FilePtr) (ps : list FilePtr) : Z := zlength (filter (fun q => q = p) ps).

(** [h] with a reference more for every pointer of [ps]. *)
Definition bumped (h : files_heap) (ps : list FilePtr) (h' : files_heap) : Prop :=
  forall p, h' !! p = (fun f => set_file_refs (refs f + occurrences p ps) f) <$> h !! p.

Lemma set_file_refs_id f : set_file_refs (refs f) f = f.
Proof. by destruct f. Qed.

Lemma occurrences_app p ps qs : occurrences p (ps ++ qs) = occurrences p ps + occurrences p qs.
Proof. unfold occurrences. by rewrite list.filter_app, zlength_app. Qed.

Lemma occurrences_le p ps : 0 <= occurrences p ps <= zlength ps.
Proof. unfold occurrences, zlength. pose proof (length_filter (fun q => q = p) ps). lia. Qed.

Lemma bumped_nil h : bumped h [] h.
Proof. intros p. change (occurrences p []) with 0. destruct (h !! p) as [f|]; [|done]. cbn. by rewrite Z.add_0_r, set_file_refs_id. Qed.

Lemma bumped_trans h ps h1 qs h2 : bumped h ps h1 -> bumped h1 qs h2 -> bumped h (ps ++ qs) h2.
Proof.
  intros H1 H2 p. rewrite H2, H1. destruct (h !! p) as [f|]; [|done]. cbn. f_equal. unfold set_file_refs; cbn. f_equal. rewrite occurrences_app. lia.
Qed.

Lemma bumped_live F h ps h' p : bumped h ps h' -> live F h p -> live F h' p.
Proof. intros Hb [n Hn]. exists (n + occurrences p ps). by rewrite Hb, Hn. Qed.

Lemma ref_file_ok h p f : h !! p = Some f -> - 2 ^ 31 <= refs f + 1 < 2 ^ 31 -> exists h', ref_file p h = Ret h' /\ bumped h [p] h'.
Proof.
  intros Hp Hr. exists (<[p := set_file_refs (refs f + 1) f]> h). split.
  - unfold ref_file, file_at. rewrite Hp. cbn [of_option]. rewrite res_bind_ret. unfold int_add.
    rewrite (proj2 (Z.leb_le _ _)), (proj2 (Z.ltb_lt _ _)) by lia. done.
  - intros q. destruct (decide (q = p)) as [->|Hne].
    + rewrite lookup_insert_eq, Hp. cbn. unfold occurrences. by rewrite filter_cons_True by done.
    + rewrite lookup_insert_ne by done. unfold occurrences. rewrite filter_cons_False by done. cbn. apply (bumped_nil h q).
Qed.

Section builder.
Context (uc : Comparator) (valid : bytes -> Prop) `{!ComparatorOk uc valid}.
Abbreviation icmp := (InternalKeyComparator uc).
Abbreviation ival := (ivalid valid).
Abbreviation ilt := (key_lt icmp ival).

(** ** The order of the files *)
Definition before (f g : FileMetaData) : Prop := ilt (smallest f) (smallest g) \/ smallest f = smallest g /\ number f < number g.

Lemma Compare_keys_ok a b : ival a -> ival b -> exists z, Compare_keys uc a b = Ret z /\ compared ilt a b z.
Proof.
  intros Ha Hb. unfold Compare_keys. rewrite !InternalKey_Encode_ok, !res_bind_ret by by apply (ivalid_nonempty valid). by apply (Compare_tests icmp ival).
Qed.

Lemma BySmallestKey_ok f g : ival (smallest f) -> ival (smallest g) -> exists b, BySmallestKey uc f g = Ret b /\ (b = true <-> before f g).
Proof.
  intros Hf Hg. unfold BySmallestKey, before. destruct (Compare_keys_ok _ _ Hf Hg) as (z & -> & Hz). rewrite res_bind_ret. eexists. split; [done|].
  destruct (Z.eqb_spec z 0) as [->|Hne]; cbn [negb].
  - assert (smallest f = smallest g) as E by by apply (cmp_eq _ _ _ _ Hz). rewrite Z.ltb_lt, E. pose proof (key_lt_irrefl icmp ival (smallest g)). tauto.
  - rewrite (cmp_lt _ _ _ _ Hz). assert (smallest f <> smallest g) by (intros E; apply (cmp_eq _ _ _ _ Hz) in E; lia). tauto.
Qed.

Lemma before_trans f g k : before f g -> before g k -> before f k.
Proof.
  unfold before. intros [H1|[E1 H1]] [H2|[E2 H2]].
  - left. by transitivity (smallest g).
  - left. by rewrite <- E2.
  - left. by rewrite E1.
  - right. split; [congruence|lia].
Qed.

Lemma before_irrefl f : ~ before f f.
Proof. intros [H|[_ H]]; [by apply key_lt_irrefl in H|lia]. Qed.

(** Not after. *)
Definition upto (f g : FileMetaData) : Prop := ~ before g f.

Lemma before_upto f g : before f g -> upto f g.
Proof. intros H H'. by apply (before_irrefl f), (before_trans f g f). Qed.

Lemma before_total f g : ival (smallest f) -> ival (smallest g) -> before f g \/ before g f \/ smallest f = smallest g /\ number f = number g.
Proof.
  intros Hf Hg. unfold before. destruct (entry_eq_dec_lt icmp ival (smallest f) (smallest g) Hf Hg) as [?|[->|?]]; [tauto| |tauto].
  destruct (Z.lt_total (number f) (number g)) as [?|[?|?]]; tauto.
Qed.

Lemma upto_before f g k : ival (smallest f) -> ival (smallest g) -> ival (smallest k) -> upto f g -> before g k -> before f k.
Proof.
  intros Hf Hg Hk H1 H2. destruct (before_total f g Hf Hg) as [H|[H|[E1 E2]]]; [by eapply before_trans|done|].
  destruct H2 as [H2|[E3 H2]]; [left; by rewrite E1|right; split; [congruence|lia]].
Qed.

Lemma before_upto_before f g k : ival (smallest f) -> ival (smallest g) -> ival (smallest k) -> before f g -> upto g k -> before f k.
Proof.
  intros Hf Hg Hk H1 H2. destruct (before_total g k Hg Hk) as [H|[H|[E1 E2]]]; [by eapply before_trans|done|].
  destruct H1 as [H1|[E3 H1]]; [left; by rewrite <- E1|right; split; [congruence|lia]].
Qed.

Lemma upto_trans f g k : ival (smallest f) -> ival (smallest g) -> ival (smallest k) -> upto f g -> upto g k -> upto f k.
Proof. intros Hf Hg Hk H1 H2 H. apply H1. by apply (upto_before g k f). Qed.

(** ** The merge of a level *)
Section level.
Variables (F : FilePtr -> FileMetaData) (level : Z) (st : LevelState).
Abbreviation file_valid := (file_ok uc valid).
Abbreviation pupto := (fun p q => upto (F p) (F q)).
Abbreviation pbefore := (fun p q => before (F p) (F q)).

Lemma live_at h p : live F h p -> exists n, file_at h p = Ret (set_file_refs n (F p)) /\ h !! p = Some (set_file_refs n (F p)).
Proof. intros [n Hn]. exists n. split; [|done]. unfold file_at. by rewrite Hn. Qed.

Lemma pointers_ordered h p q : live F h p -> live F h q -> ival (smallest (F p)) -> ival (smallest (F q)) ->
  exists f g b, file_at h p = Ret f /\ file_at h q = Ret g /\ BySmallestKey uc f g = Ret b /\ (b = true <-> before (F p) (F q)).
Proof.
  intros Hp Hq Vp Vq. destruct (live_at h p Hp) as (n & Ep & _). destruct (live_at h q Hq) as (m & Eq & _).
  destruct (BySmallestKey_ok (set_file_refs n (F p)) (set_file_refs m (F q)) Vp Vq) as (b & E & Hb). by exists (set_file_refs n (F p)), (set_file_refs m (F q)), b.
Qed.

Definition key_valid (p : FilePtr) : Prop := ival (smallest (F p)).

Lemma all_greater_ok h p l : live F h p -> key_valid p -> Forall (live F h) l -> Forall key_valid l -> Forall (fun q => before (F p) (F q)) l -> all_greater uc h p l = Ret tt.
Proof.
  intros Hp Vp Hl Vl Hb. induction l as [|q l IH]; [done|]. apply Forall_cons_1 in Hl as [Hq Hl]. apply Forall_cons_1 in Vl as [Vq Vl]. apply Forall_cons_1 in Hb as [Hb Hbl].
  cbn [all_greater]. destruct (pointers_ordered h p q Hp Hq Vp Vq) as (f & g & b & -> & -> & E & Hbb). rewrite !res_bind_ret, E, res_bind_ret.
  rewrite (proj2 Hbb Hb). cbn [assert_]. rewrite res_bind_ret. by apply IH.
Qed.

Lemma upper_bound_ok p base : key_valid p -> Forall key_valid base -> Sorted.StronglySorted pupto base ->
  exists l r, base = l ++ r /\ Forall (fun q => upto (F q) (F p)) l /\ Forall (fun q => before (F p) (F q)) r /\
    forall h, live F h p -> Forall (live F h) base -> upper_bound uc h p base = Ret (l, r).
Proof.
  intros Vp Vb Hs. induction Hs as [|q base Hs IH Hq]; [by exists [], []|]. apply Forall_cons_1 in Vb as [Vq Vb].
  destruct (before_total (F p) (F q) Vp Vq) as [Hlt|Hge].
  - assert (Forall (fun q => before (F p) (F q)) base) as Hall.
    { rewrite Forall_lookup in Hq, Vb |- *. intros i r Hr. by apply (before_upto_before _ (F q)); [| |eapply Vb| |eapply Hq]. }
    exists [], (q :: base). split; [done|]. split; [done|]. split; [by constructor|]. intros h Hp Hl. apply Forall_cons_1 in Hl as [Hlq Hl]. cbn [upper_bound].
    destruct (pointers_ordered h p q Hp Hlq Vp Vq) as (f & g & b & -> & -> & E & Hbb). rewrite !res_bind_ret, E, res_bind_ret, (proj2 Hbb Hlt).
    by rewrite all_greater_ok, res_bind_ret.
  - destruct (IH Vb) as (l & r & -> & Hl & Hr & E0). assert (upto (F q) (F p)) as Hqp.
    { intros Hlt. destruct Hge as [Hge|[E1 E2]]; [by apply (before_irrefl (F p)), (before_trans _ (F q))|]. destruct Hlt as [Hlt|[_ Hlt]]; [|lia]. rewrite E1 in Hlt. by apply key_lt_irrefl in Hlt. }
    exists (q :: l), r. split; [done|]. split; [by constructor|]. split; [done|]. intros h Hp Hlv. apply Forall_cons_1 in Hlv as [Hlq Hlv]. cbn [upper_bound].
    destruct (pointers_ordered h p q Hp Hlq Vp Vq) as (f & g & b & -> & -> & E & Hbb). rewrite !res_bind_ret, E, res_bind_ret.
    destruct b; [by destruct (Hqp (proj1 Hbb eq_refl))|]. by rewrite E0, res_bind_ret.
Qed.

Lemma MaybeAddFile_live files h p r : Forall (live F h) r -> live F h p ->
  match MaybeAddFile uc level st p files h with Ret (_, h') => Forall (live F h') r | _ => True end.
Proof.
  intros Hr Hp. unfold MaybeAddFile. destruct (live_at h p Hp) as (n & -> & Eh). rewrite res_bind_ret. case_bool_decide; [done|].
  destruct (match list.last files with Some _ => _ | None => _ end); [|done..]. rewrite res_bind_ret. unfold ref_file, file_at. rewrite Eh. cbn [of_option]. rewrite res_bind_ret.
  destruct (int_add _ _) as [m| |]; [|done..]. rewrite !res_bind_ret. eapply List.Forall_impl; [|exact Hr]. intros q [k Hk].
  destruct (decide (q = p)) as [->|Hne]; [exists m; by rewrite lookup_insert_eq|]. exists k. by rewrite lookup_insert_ne.
Qed.

Lemma maybe_add_app ps qs files h : maybe_add_files uc level st (ps ++ qs) files h = let! '(files, h) := maybe_add_files uc level st ps files h in maybe_add_files uc level st qs files h.
Proof.
  revert files h. induction ps as [|p ps IH]; intros files h; [done|]. cbn [app maybe_add_files]. destruct (MaybeAddFile uc level st p files h) as [[files' h']| |]; [|done..].
  rewrite !res_bind_ret. apply IH.
Qed.

Lemma maybe_add_live ps files h r : Forall (live F h) ps -> Forall (live F h) r ->
  match maybe_add_files uc level st ps files h with Ret (_, h') => Forall (live F h') r | _ => True end.
Proof.
  revert files h. induction ps as [|p ps IH]; intros files h Hps Hr; [done|]. apply Forall_cons_1 in Hps as [Hp Hps]. cbn [maybe_add_files].
  pose proof (MaybeAddFile_live files h p (ps ++ r) ltac:(by apply Forall_app_2) Hp) as Hl. destruct (MaybeAddFile uc level st p files h) as [[files' h']| |]; [|done..].
  rewrite res_bind_ret. apply Forall_app in Hl as [? ?]. by apply IH.
Qed.

Lemma sorted_app_intro (R : FilePtr -> FilePtr -> Prop) l k : Sorted.StronglySorted R l -> Sorted.StronglySorted R k -> Forall (fun x => Forall (R x) k) l -> Sorted.StronglySorted R (l ++ k).
Proof.
  induction 1 as [|x l Hl IH Hx]; intros Hk Hlk; [done|]. apply Forall_cons_1 in Hlk as [Hxk Hlk]. cbn [app]. constructor; [by apply IH|]. by apply Forall_app_2.
Qed.

Lemma sorted_app_parts (R : FilePtr -> FilePtr -> Prop) l k : Sorted.StronglySorted R (l ++ k) -> Sorted.StronglySorted R l /\ Sorted.StronglySorted R k /\ Forall (fun x => Forall (R x) k) l.
Proof.
  induction l as [|x l IH]; cbn [app]; intros H; [by repeat constructor|]. apply Sorted.StronglySorted_inv in H as [H Hx]. destruct (IH H) as (? & ? & ?).
  apply Forall_app in Hx as [? ?]. split; [by constructor|]. split; [done|by constructor].
Qed.

(** The loop of [SaveTo] adds the files of a merge. *)
Lemma save_added_merges added base : Forall key_valid added -> Forall key_valid base -> Sorted.StronglySorted pbefore added -> Sorted.StronglySorted pupto base ->
  exists ms, ms ≡ₚ added ++ base /\ Sorted.StronglySorted pupto ms /\
    forall files h, Forall (live F h) added -> Forall (live F h) base -> save_added uc level st added base files h = maybe_add_files uc level st ms files h.
Proof.
  intros Va Vb Hsa. revert base Vb. induction Hsa as [|p added Hsa IH Hp]; intros base Vb Hsb; [by exists base|]. apply Forall_cons_1 in Va as [Vp Va].
  destruct (upper_bound_ok p base Vp Vb Hsb) as (l & r & -> & Hl & Hr & E). apply Forall_app in Vb as [Vl Vr]. apply sorted_app_parts in Hsb as (Hsl & Hsr & Hlr).
  destruct (IH Va r Vr Hsr) as (ms & Hms & Hsms & E2). assert (Forall (pupto p) ms) as Hpm.
  { rewrite Hms. apply Forall_app_2; eapply List.Forall_impl; [| exact Hp| |exact Hr]; intros q Hq; by apply before_upto. }
  exists (l ++ p :: ms). split; [|split].
  - rewrite Hms, Permutation_app_comm. cbn [app]. apply Permutation_skip. rewrite <- app_assoc. apply Permutation_app_head, Permutation_app_comm.
  - apply sorted_app_intro; [done|by constructor|]. rewrite Forall_lookup in Hl, Vl |- *. intros i q Hq. pose proof (Hl i q Hq) as Hqp. pose proof (Vl i q Hq) as Vq.
    constructor; [done|]. rewrite Forall_lookup in Hpm |- *. intros j m Hm. assert (key_valid m) as Vm.
    { apply (Forall_elem _ (added ++ r)); [by apply Forall_app_2|]. rewrite <- Hms. by eapply list_elem_of_lookup_2. }
    apply (upto_trans _ (F p)); [done..|by eapply Hpm].
  - intros files h Ha Hb. apply Forall_cons_1 in Ha as [Hlp Ha]. cbn [save_added]. rewrite E, res_bind_ret by done. apply Forall_app in Hb as [Hbl Hbr].
    rewrite maybe_add_app. pose proof (maybe_add_live l files h (p :: added ++ r) Hbl ltac:(constructor; [done|by apply Forall_app_2])) as Hlive.
    destruct (maybe_add_files uc level st l files h) as [[files1 h1]| |]; [|done..]. rewrite !res_bind_ret. apply Forall_cons_1 in Hlive as [Hp1 Hlive]. cbn [maybe_add_files].
    pose proof (MaybeAddFile_live files1 h1 p (added ++ r) Hlive Hp1) as Hlive2. destruct (MaybeAddFile uc level st p files1 h1) as [[files2 h2]| |]; [|done..].
    rewrite !res_bind_ret. apply Forall_app in Hlive2 as [? ?]. by apply E2.
Qed.

(** What the builder keeps, and files that do not overlap. *)
Definition kept (p : FilePtr) : Prop := number (F p) ∉ deleted_files st.
#[global] Instance kept_dec p : Decision (kept p) := _.
Abbreviation follows := (fun p q => ilt (largest (F p)) (smallest (F q))).

Lemma maybe_add_files_ok ms files h : Forall (live F h) ms -> Forall (live F h) files -> Forall (fun p => file_valid (F p)) ms -> Forall (fun p => file_valid (F p)) files ->
  (forall p f, p ∈ ms -> h !! p = Some f -> 0 <= refs f /\ refs f + zlength ms < 2 ^ 31) ->
  (0 < level -> Sorted.StronglySorted follows (files ++ filter kept ms)) ->
  exists h', maybe_add_files uc level st ms files h = Ret (files ++ filter kept ms, h') /\ bumped h (filter kept ms) h'.
Proof.
  revert files h. induction ms as [|p ms IH]; intros files h Hms Hf Vms Vf Hrefs Hs.
  - exists h. cbn. rewrite app_nil_r. split; [done|apply bumped_nil].
  - apply Forall_cons_1 in Hms as [Hp Hms]. apply Forall_cons_1 in Vms as [Vp Vms]. cbn [maybe_add_files]. unfold MaybeAddFile. destruct (live_at h p Hp) as (n & -> & Eh). rewrite res_bind_ret.
    pose proof (zlength_nonneg ms). change (number (set_file_refs n (F p))) with (number (F p)). rewrite zlength_cons in Hrefs.
    destruct (Hrefs p _ ltac:(set_solver) Eh) as [Hn0 Hn]. cbn [refs set_file_refs] in Hn0, Hn. case_bool_decide as Hdel.
    + rewrite res_bind_ret. rewrite filter_cons_False in Hs |- * by (unfold kept; tauto). apply IH; [done..| |done].
      intros q f Hq Hqf. specialize (Hrefs q f ltac:(set_solver) Hqf). lia.
    + rewrite filter_cons_True in Hs |- * by done.
      assert (match list.last files with Some q => if 0 <? level then let! g := file_at h q in let! z := Compare_keys uc (largest g) (smallest (set_file_refs n (F p))) in assert_ (z <? 0) else Ret tt | None => Ret tt end = Ret tt) as ->.
      { destruct (list.last files) as [q|] eqn:El; [|done]. destruct (Z.ltb_spec 0 level) as [Hl|?]; [|done]. apply last_Some in El as [files' ->].
        apply Forall_app in Hf as [_ Hq]. apply Forall_app in Vf as [_ Vq]. apply Forall_cons_1 in Hq as [Hq _]. apply Forall_cons_1 in Vq as [Vq _].
        destruct (live_at h q Hq) as (m & -> & _). rewrite res_bind_ret. change (largest (set_file_refs m (F q))) with (largest (F q)). change (smallest (set_file_refs n (F p))) with (smallest (F p)).
        destruct (Compare_keys_ok _ _ (fo_largest _ _ _ Vq) (fo_smallest _ _ _ Vp)) as (z & -> & Hz). rewrite res_bind_ret, (proj2 (cmp_lt _ _ _ _ Hz)); [done|].
        specialize (Hs Hl). rewrite <- app_assoc in Hs. apply sorted_app_parts in Hs as (_ & Hs & _). apply Sorted.StronglySorted_inv in Hs as [_ Hs]. by apply Forall_cons_1 in Hs as [Hs _]. }
      rewrite res_bind_ret. destruct (ref_file_ok h p _ Eh) as (h1 & -> & Hb); [cbn [refs set_file_refs]; lia|]. rewrite !res_bind_ret.
      assert (forall l, Forall (live F h) l -> Forall (live F h1) l) as Hlv by (intros l Hl; eapply List.Forall_impl; [|exact Hl]; intros q; by apply bumped_live with (ps := [p])).
      destruct (IH (files ++ [p]) h1) as (h' & E & Hb').
      * by apply Hlv.
      * apply Forall_app_2; apply Hlv; [done|by constructor].
      * done.
      * apply Forall_app_2; [done|by constructor].
      * intros q f Hq Hqf. rewrite Hb in Hqf. destruct (h !! q) as [f0|] eqn:E0; [|done]. cbn in Hqf. injection Hqf as <-. cbn [refs set_file_refs].
        specialize (Hrefs q f0 ltac:(set_solver) E0). pose proof (occurrences_le q [p]) as Ho. change (zlength [p]) with 1 in Ho. lia.
      * intros Hl. rewrite <- app_assoc. by apply Hs.
      * exists h'. rewrite E, <- app_assoc. split; [done|]. by apply (bumped_trans h [p] h1).
Qed.

(** What the merge of a level relies on, and what it gives. *)
Record level_ready (h : files_heap) (base : list FilePtr) : Prop := {
  lr_live : Forall (live F h) (added_files st ++ base);
  lr_valid : Forall (fun p => file_valid (F p)) (added_files st ++ base);
  lr_added : Sorted.StronglySorted pbefore (added_files st);
  lr_base : Sorted.StronglySorted pupto base;
  lr_disjoint : 0 < level -> base.NoDup (added_files st ++ base) /\
    forall p q, p ∈ filter kept (added_files st ++ base) -> q ∈ filter kept (added_files st ++ base) -> p <> q -> follows p q \/ follows q p;
}.

Record merged (base fs : list FilePtr) : Prop := {
  mg_files : fs ≡ₚ filter kept (added_files st ++ base);
  mg_sorted : Sorted.StronglySorted pupto fs;
  mg_disjoint : 0 < level -> Sorted.StronglySorted follows fs;
}.

Lemma sorted_filter (R : FilePtr -> FilePtr -> Prop) ms : Sorted.StronglySorted R ms -> Sorted.StronglySorted R (filter kept ms).
Proof.
  induction 1 as [|p ms Hs IH Hp]; [constructor|]. rewrite filter_cons. destruct (decide (kept p)); [|done]. constructor; [done|].
  apply List.Forall_forall. intros q [_ Hq]%list_elem_of_In%list_elem_of_filter. by apply (Forall_elem _ _ q Hp).
Qed.

Lemma sorted_follows fs : Sorted.StronglySorted pupto fs -> base.NoDup fs -> Forall (fun p => file_valid (F p)) fs ->
  (forall p q, p ∈ fs -> q ∈ fs -> p <> q -> follows p q \/ follows q p) -> Sorted.StronglySorted follows fs.
Proof.
  induction 1 as [|p fs Hs IH Hp]; intros Hnd Hv Hd; [constructor|]. apply list.NoDup_cons in Hnd as [Hnp Hnd]. apply Forall_cons_1 in Hv as [Vp Hv]. constructor.
  - apply IH; [done..|]. intros q r Hq Hr. apply Hd; set_solver.
  - apply List.Forall_forall. intros q Hq%list_elem_of_In. destruct (Hd p q) as [?|Hqp]; [set_solver..|intros ->; by apply Hnp|done|].
    exfalso. apply (Forall_elem _ _ _ Hp Hq). left. pose proof (Forall_elem _ _ _ Hv Hq) as Vq.
    by apply (ilt_trans_le uc valid _ (largest (F q))); [apply Vq..|apply Vp|apply Vq|].
Qed.

Lemma check_no_overlap_ok h fs : Forall (live F h) fs -> Forall (fun p => file_valid (F p)) fs -> Sorted.StronglySorted follows fs -> check_no_overlap uc h fs = Ret tt.
Proof.
  intros Hl Hv Hs. induction Hs as [|p fs Hs IH Hp]; [done|]. apply Forall_cons_1 in Hl as [Hlp Hl]. apply Forall_cons_1 in Hv as [Vp Hv]. destruct fs as [|q fs]; [done|].
  apply Forall_cons_1 in Hp as [Hp _]. pose proof Hl as Hl0. pose proof Hv as Hv0. apply Forall_cons_1 in Hl0 as [Hlq _]. apply Forall_cons_1 in Hv0 as [Vq _].
  change (check_no_overlap uc h (p :: q :: fs)) with
    (let! f := file_at h p in let! g := file_at h q in let! z := Compare_keys uc (largest f) (smallest g) in let! _ := assert_ (z <? 0) in check_no_overlap uc h (q :: fs)).
  destruct (live_at h p Hlp) as (n & -> & _). destruct (live_at h q Hlq) as (m & -> & _). rewrite !res_bind_ret.
  destruct (Compare_keys_ok (largest (F p)) (smallest (F q)) (fo_largest _ _ _ Vp) (fo_smallest _ _ _ Vq)) as (z & E & Hz).
  change (largest (set_file_refs n (F p))) with (largest (F p)). change (smallest (set_file_refs m (F q))) with (smallest (F q)).
  rewrite E, res_bind_ret, (proj2 (cmp_lt _ _ _ _ Hz) Hp). cbn [assert_]. rewrite res_bind_ret. by apply IH.
Qed.

Lemma save_level_ok h base : level_ready h base ->
  (forall p f, h !! p = Some f -> 0 <= refs f /\ refs f + zlength (added_files st ++ base) < 2 ^ 31) ->
  exists fs h', save_level uc level st base [] h = Ret (fs, h') /\ merged base fs /\ bumped h fs h'.
Proof.
  intros Hr Hrefs. pose proof (lr_live _ _ Hr) as Hl. pose proof (lr_valid _ _ Hr) as Hv. pose proof Hl as [Hla Hlb]%Forall_app. pose proof Hv as [Hva Hvb]%Forall_app.
  assert (forall l, Forall (fun p => file_valid (F p)) l -> Forall key_valid l) as Hkey by (intros l Hkl; eapply List.Forall_impl; [|exact Hkl]; intros p Hp; apply Hp).
  destruct (save_added_merges (added_files st) base) as (ms & Hms & Hsms & E); [by apply Hkey|by apply Hkey|apply Hr|apply Hr|].
  assert (Forall (fun p => file_valid (F p)) ms) as Vms by by rewrite Hms. assert (Forall (live F h) ms) as Hlms by by rewrite Hms.
  assert (0 < level -> Sorted.StronglySorted follows (filter kept ms)) as Hfollow.
  { intros H0. destruct (lr_disjoint _ _ Hr H0) as [Hnd Hd]. apply sorted_follows; [by apply sorted_filter| | |].
    - rewrite Hms. by apply list.NoDup_filter.
    - apply List.Forall_forall. intros q [_ Hq]%list_elem_of_In%list_elem_of_filter. by apply (Forall_elem _ _ q Vms).
    - intros p q. rewrite Hms. apply Hd. }
  destruct (maybe_add_files_ok ms [] h Hlms) as (h' & E2 & Hb); [constructor|done|constructor| |done|].
  { intros p f _ Hp. unfold zlength in *. rewrite Hms. by eapply Hrefs. }
  exists (filter kept ms), h'. split; [|split; [|done]].
  - unfold save_level. rewrite E, E2, res_bind_ret by done. destruct (Z.ltb_spec 0 level) as [H0|?]; [|done].
    rewrite check_no_overlap_ok; [done| | |by apply Hfollow]; apply List.Forall_forall; intros q [_ Hq]%list_elem_of_In%list_elem_of_filter; [|by apply (Forall_elem _ _ q Vms)].
    eapply bumped_live; [exact Hb|]. by apply (Forall_elem _ _ q Hlms).
  - split; [by rewrite Hms|by apply sorted_filter|done].
Qed.
End level.

(** ** All levels *)
Section levels.
Variables (F : FilePtr -> FileMetaData).

Definition total_files (states : list LevelState) (base : list (list FilePtr)) : Z :=
  zlength (concat (added_files <$> states)) + zlength (concat base).

Inductive levels_ready (h : files_heap) : Z -> list LevelState -> list (list FilePtr) -> Prop :=
| levels_ready_nil level : levels_ready h level [] []
| levels_ready_cons level st states base bases : level_ready F level st h base -> levels_ready h (level + 1) states bases -> levels_ready h level (st :: states) (base :: bases).

Inductive levels_merged : Z -> list LevelState -> list (list FilePtr) -> list (list FilePtr) -> Prop :=
| levels_merged_nil level : levels_merged level [] [] []
| levels_merged_cons level st states base bases fs files :
    merged F level st base fs -> levels_merged (level + 1) states bases files -> levels_merged level (st :: states) (base :: bases) (fs :: files).

Lemma levels_ready_bumped h fs h' level states bases : bumped h fs h' -> levels_ready h level states bases -> levels_ready h' level states bases.
Proof.
  intros Hb. induction 1 as [|level st states base bases Hr _ IH]; [constructor|]. constructor; [|done]. destruct Hr as [Hl Hv Ha Hbs Hd]. split; [|done..].
  eapply List.Forall_impl; [|exact Hl]. intros p. by apply bumped_live with (ps := fs).
Qed.

Lemma save_levels_ok h level states bases : levels_ready h level states bases ->
  (forall p f, h !! p = Some f -> 0 <= refs f /\ refs f + total_files states bases < 2 ^ 31) ->
  exists files h', save_levels uc level states bases (replicate (length states) []) h = Ret (files, h') /\
    levels_merged level states bases files /\ bumped h (concat files) h'.
Proof.
  intros Hr. revert h Hr. induction states as [|st states IH] in level, bases |- *; intros h Hr Hrefs; inversion Hr as [|? ? ? base bases' Hr1 Hr2]; subst.
  - exists [], h. split; [done|]. split; [constructor|apply bumped_nil].
  - assert (total_files (st :: states) (base :: bases') = zlength (added_files st ++ base) + total_files states bases') as Et.
    { unfold total_files. cbn [concat fmap list_fmap]. rewrite !zlength_app. lia. }
    assert (0 <= total_files states bases') by (unfold total_files; pose proof (zlength_nonneg (concat (added_files <$> states))); pose proof (zlength_nonneg (concat bases')); lia).
    destruct (save_level_ok F level st h base Hr1) as (fs & h1 & E & Hm & Hb); [intros p f Hp; specialize (Hrefs p f Hp); lia|].
    destruct (IH (level + 1) bases' h1) as (files & h' & E2 & Hms & Hb2).
    + by eapply levels_ready_bumped.
    + intros p f Hp. rewrite Hb in Hp. destruct (h !! p) as [f0|] eqn:E0; [|done]. cbn in Hp. injection Hp as <-. cbn [refs set_file_refs].
      specialize (Hrefs p f0 E0). pose proof (occurrences_le p fs) as Ho. assert (zlength fs <= zlength (added_files st ++ base)); [|lia].
      unfold zlength. rewrite (mg_files _ _ _ _ _ Hm). pose proof (length_filter (kept F st) (added_files st ++ base)). lia.
    + exists (fs :: files), h'. cbn [length replicate save_levels]. rewrite E, res_bind_ret, E2, res_bind_ret. split; [done|]. split; [by constructor|]. cbn [concat]. by eapply bumped_trans.
Qed.
End levels.

(** ** What the edits say of a level: the numbers deleted and the files added *)
Definition level_spec : Type := gset Z * list FileMetaData.

Definition file_id (f : FileMetaData) : InternalKey * Z := (smallest f, number f).
Definition add_once (f : FileMetaData) (fs : list FileMetaData) : list FileMetaData := if decide (file_id f ∈ file_id <$> fs) then fs else fs ++ [f].

Definition spec_delete (specs : list level_spec) (d : Z * Z) : list level_spec :=
  alter (fun l : level_spec => ({[d.2]} ∪ l.1, l.2)) (Z.to_nat d.1) specs.
Definition spec_add (specs : list level_spec) (n : Z * FileMetaData) : list level_spec :=
  alter (fun l : level_spec => (l.1 ∖ {[number n.2]}, add_once (added_file n.2) l.2)) (Z.to_nat n.1) specs.
Definition spec_edit (specs : list level_spec) (e : VersionEdit) : list level_spec :=
  foldl spec_add (foldl spec_delete specs (deleted_files_ e)) (new_files_ e).

(** The file of a pointer. *)
Definition file_in (h : files_heap) (p : FilePtr) : FileMetaData := default (new_FileMetaData 0 0 [] []) (h !! p).

Record level_holds (h : files_heap) (st : LevelState) (l : level_spec) : Prop := {
  lh_deleted : deleted_files st = l.1;
  lh_live : Forall (fun p => p ∈ dom h) (added_files st);
  lh_added : file_in h <$> added_files st ≡ₚ l.2;
  lh_valid : Forall (file_ok uc valid) l.2;
  lh_sorted : Sorted.StronglySorted (fun p q => before (file_in h p) (file_in h q)) (added_files st);
}.

Record builder_holds (h : files_heap) (states : list LevelState) (specs : list level_spec) : Prop := {
  bh_levels : Forall2 (level_holds h) states specs;
  bh_distinct : base.NoDup (concat (added_files <$> states));
}.

Lemma file_in_at h p f : h !! p = Some f -> file_in h p = f.
Proof. intros E. unfold file_in. by rewrite E. Qed.

Lemma file_in_live h p : p ∈ dom h -> live (file_in h) h p.
Proof. intros [f Hf]%elem_of_dom. exists (refs f). by rewrite (file_in_at _ _ _ Hf), set_file_refs_id. Qed.

Lemma dom_file_at h p : p ∈ dom h -> file_at h p = Ret (file_in h p).
Proof. intros [f Hf]%elem_of_dom. by rewrite (file_in_at _ _ _ Hf), (file_at_ok h p f). Qed.

Lemma sorted_ext (R R' : FilePtr -> FilePtr -> Prop) l : (forall p q, p ∈ l -> q ∈ l -> R p q -> R' p q) -> Sorted.StronglySorted R l -> Sorted.StronglySorted R' l.
Proof.
  intros Hr Hs. induction Hs as [|p l Hs IH Hp]; [constructor|]. constructor; [apply IH; intros; apply Hr; set_solver|].
  apply List.Forall_forall. intros q Hq%list_elem_of_In. apply Hr; [set_solver..|]. by apply (Forall_elem _ _ q Hp).
Qed.

(** A heap with more files. *)
Definition extends (h h' : files_heap) : Prop := forall p, p ∈ dom h -> h' !! p = h !! p.

Lemma extends_refl h : extends h h.
Proof. by intros p. Qed.

Lemma extends_dom h h' p : extends h h' -> p ∈ dom h -> p ∈ dom h'.
Proof. intros He Hp. apply elem_of_dom. rewrite He by done. by apply elem_of_dom. Qed.

Lemma extends_trans h h1 h2 : extends h h1 -> extends h1 h2 -> extends h h2.
Proof. intros H1 H2 p Hp. rewrite H2; [by apply H1|]. by eapply extends_dom. Qed.

Lemma extends_insert h f : extends h (<[fresh (dom h) := f]> h).
Proof. intros p Hp. rewrite lookup_insert_ne; [done|]. intros <-. by apply (is_fresh (dom h)). Qed.

Lemma extends_file_in h h' p : extends h h' -> p ∈ dom h -> file_in h' p = file_in h p.
Proof. intros He Hp. unfold file_in. by rewrite He. Qed.

Lemma level_holds_extends h h' st l : extends h h' -> level_holds h st l -> level_holds h' st l.
Proof.
  intros He [Hd Hl Ha Hv Hs]. split; [done| | |done|].
  - eapply List.Forall_impl; [|exact Hl]. intros p. by apply extends_dom.
  - rewrite <- Ha. erewrite list_fmap_ext; [done|]. intros i p Hp. apply extends_file_in; [done|]. apply (Forall_elem _ _ p Hl). by eapply list_elem_of_lookup_2.
  - eapply sorted_ext; [|exact Hs]. intros p q Hp Hq. pose proof (Forall_elem _ _ p Hl Hp). pose proof (Forall_elem _ _ q Hl Hq). by rewrite !(extends_file_in h h') by done.
Qed.

Lemma insert_added_ok h p l : p ∈ dom h -> Forall (fun q => q ∈ dom h) l -> ival (smallest (file_in h p)) -> Forall (fun q => ival (smallest (file_in h q))) l ->
  Sorted.StronglySorted (fun q r => before (file_in h q) (file_in h r)) l ->
  exists l', insert_added uc h p l = Ret l' /\ Sorted.StronglySorted (fun q r => before (file_in h q) (file_in h r)) l' /\
    ((l' ≡ₚ p :: l /\ forall q, q ∈ l -> file_id (file_in h q) <> file_id (file_in h p)) \/ l' = l /\ exists q, q ∈ l /\ file_id (file_in h q) = file_id (file_in h p)).
Proof.
  intros Hp Hl Vp Vl Hs. induction Hs as [|q l Hs IH Hq].
  { exists [p]. split; [done|]. split; [by repeat constructor|]. left. split; [done|]. set_solver. }
  apply Forall_cons_1 in Hl as [Hlq Hl]. apply Forall_cons_1 in Vl as [Vq Vl]. cbn [insert_added]. rewrite !dom_file_at, !res_bind_ret by done.
  destruct (BySmallestKey_ok _ _ Vp Vq) as (b & -> & Hb). rewrite res_bind_ret. destruct b.
  - pose proof (proj1 Hb eq_refl) as Hlt. assert (Forall (fun r => before (file_in h p) (file_in h r)) (q :: l)) as Hall.
    { constructor; [done|]. eapply List.Forall_impl; [|exact Hq]. intros r. by apply before_trans. }
    exists (p :: q :: l). split; [done|]. split; [constructor; [by constructor|done]|]. left. split; [done|].
    intros r Hr E. pose proof (Forall_elem _ _ r Hall Hr) as Hpr. unfold file_id in E. injection E as E1 E2. destruct Hpr as [Hpr|[_ Hpr]]; [|lia]. rewrite E1 in Hpr. by apply key_lt_irrefl in Hpr.
  - destruct (BySmallestKey_ok _ _ Vq Vp) as (c & -> & Hc). rewrite res_bind_ret. destruct c.
    + destruct (IH Hl Vl) as (l' & -> & Hs' & Hcase). rewrite res_bind_ret. pose proof (proj1 Hc eq_refl) as Hlt. exists (q :: l'). split; [done|].
      destruct Hcase as [[Hperm Hne]|[-> (r & Hr & E)]].
      * split; [constructor; [done|]; rewrite Hperm; by constructor|]. left. split; [rewrite Hperm; apply Permutation_swap|].
        intros r [->|Hr]%elem_of_cons; [|by apply Hne]. unfold file_id. intros E. injection E as E1 E2. destruct Hlt as [Hlt|[_ Hlt]]; [|lia]. rewrite E1 in Hlt. by apply key_lt_irrefl in Hlt.
      * split; [by constructor|]. right. split; [done|]. exists r. split; [set_solver|done].
    + exists (q :: l). split; [done|]. split; [by constructor|]. right. split; [done|]. exists q. split; [set_solver|].
      destruct (before_total _ _ Vp Vq) as [H|[H|[E1 E2]]]; [by apply Hb in H|by apply Hc in H|]. unfold file_id. by rewrite E1, E2.
Qed.

Lemma added_file_id f : file_id (added_file f) = file_id f.
Proof. done. Qed.

Lemma alter_at {A} (f : A -> A) (i : nat) (l : list A) x : l !! i = Some x -> alter f i l = <[i := f x]> l.
Proof. revert i. induction l as [|y l IH]; intros [|i] E; [done..|by injection E as ->|]. cbn. f_equal. by apply IH. Qed.

Lemma read_at_ok {A} (l : list A) i x : 0 <= i -> l !! Z.to_nat i = Some x -> read_at l i = Ret x.
Proof. intros Hi E. unfold read_at. by rewrite (proj2 (Z.leb_le 0 i)), E by done. Qed.

Lemma write_at_ok {A} (l : list A) i x : 0 <= i < zlength l -> write_at l i x = Ret (<[Z.to_nat i := x]> l).
Proof. intros Hi. unfold write_at. by rewrite (proj2 (Z.leb_le 0 i)), (proj2 (Z.ltb_lt i _)) by lia. Qed.

Lemma concat_insert_cons {A} (ls : list (list A)) (i : nat) l l' x : ls !! i = Some l -> l' ≡ₚ x :: l -> concat (<[i := l']> ls) ≡ₚ x :: concat ls.
Proof.
  revert i. induction ls as [|k ls IH]; intros [|i] E Hl; [done..| |].
  - injection E as ->. cbn. by rewrite Hl.
  - cbn. rewrite (IH i E Hl). symmetry. apply Permutation_middle.
Qed.

Lemma at_level {A B} (R : A -> B -> Prop) xs ys i : Forall2 R xs ys -> zlength ys = kNumLevels -> level_ok i -> exists x y, read_at xs i = Ret x /\ xs !! Z.to_nat i = Some x /\ ys !! Z.to_nat i = Some y /\ R x y /\
  forall x', write_at xs i x' = Ret (<[Z.to_nat i := x']> xs).
Proof.
  intros Hr Hl [H0 H7]. destruct (lookup_lt_is_Some_2 ys (Z.to_nat i)) as [y Hy]; [unfold zlength in Hl; lia|].
  destruct (Forall2_lookup_r _ _ _ _ _ Hr Hy) as (x & Hx & Hxy). exists x, y. split; [by apply read_at_ok|]. split; [done|]. split; [done|]. split; [done|].
  intros x'. apply write_at_ok. unfold zlength in *. apply Forall2_length in Hr; rewrite Hr. lia.
Qed.

Lemma length_spec_edit specs e : length (spec_edit specs e) = length specs.
Proof.
  unfold spec_edit. assert (forall l s, length (foldl spec_add s l) = length s) as H1.
  { induction l as [|x l IH]; intros s0; [done|]. cbn. rewrite IH. apply length_alter. }
  rewrite H1. revert specs. induction (deleted_files_ e) as [|x l IH]; intros s0; [done|]. cbn. rewrite IH. apply length_alter.
Qed.

Lemma builder_deleted_ok h l states specs : builder_holds h states specs -> zlength specs = kNumLevels -> Forall (fun d => level_ok d.1) l ->
  exists states', builder_deleted l states = Ret states' /\ builder_holds h states' (foldl spec_delete specs l).
Proof.
  intros Hb Hlen Hl. induction l as [|[level n] l IH] in states, specs, Hb, Hlen, Hl |- *; [by exists states|]. apply Forall_cons_1 in Hl as [Hlev Hl]. cbn [fst] in Hlev.
  destruct (at_level _ _ _ level (bh_levels _ _ _ Hb) Hlen Hlev) as (st & sp & Er & Est & Esp & Hst & Ew). cbn [builder_deleted foldl]. rewrite Er, res_bind_ret, Ew, res_bind_ret. apply IH; [|by unfold spec_delete; cbn [fst snd]; unfold zlength; rewrite length_alter|done].
  unfold spec_delete. cbn [fst snd]. rewrite (alter_at _ _ _ _ Esp). split.
  - apply Forall2_insert; [apply Hb|]. destruct Hst as [Hd Hv Ha Hva Hs]. split; [cbn; by rewrite Hd|done..].
  - rewrite list_fmap_insert. cbn [added_files]. rewrite list_insert_id; [apply Hb|]. by rewrite list_lookup_fmap, Est.
Qed.

Lemma builder_new_ok h states specs level f : builder_holds h states specs -> zlength specs = kNumLevels -> level_ok level -> file_ok uc valid f ->
  exists states' h', builder_new uc level f states h = Ret (states', h') /\ extends h h' /\ builder_holds h' states' (spec_add specs (level, f)) /\
    (forall p g, h' !! p = Some g -> h !! p = Some g \/ refs g = 1).
Proof.
  intros Hb Hlen Hlev Hf. destruct (at_level _ _ _ level (bh_levels _ _ _ Hb) Hlen Hlev) as (st & sp & Er & Est & Esp & Hst & Ew).
  unfold builder_new. set (p := fresh (dom h)). set (h' := <[p := added_file f]> h). assert (extends h h') as He by apply extends_insert.
  assert (p ∉ dom h) as Hp by apply is_fresh. pose proof (level_holds_extends h h' st sp He Hst) as [Hd Hl Ha Hv Hs].
  assert (file_in h' p = added_file f) as Ep by (apply file_in_at, lookup_insert_eq). rewrite Er, res_bind_ret.
  assert (Forall (fun q => file_ok uc valid (file_in h' q)) (added_files st)) as Hva.
  { apply List.Forall_forall. intros q Hq%list_elem_of_In. apply (Forall_elem _ _ (file_in h' q) Hv). rewrite <- Ha. by apply list_elem_of_fmap_2. }
  destruct (insert_added_ok h' p (added_files st)) as (l' & -> & Hs' & Hcase); [|done| | |done|].
  { unfold h'. set_solver. } { rewrite Ep. apply Hf. } { eapply List.Forall_impl; [|exact Hva]. intros q Hq. apply Hq. }
  rewrite res_bind_ret, Ew, res_bind_ret. eexists _, h'. split; [done|]. split; [done|].
  assert (Forall (fun q => q ∈ dom h) (concat (added_files <$> states))) as Hdom.
  { apply List.Forall_forall. intros q (ps & Hps%list_elem_of_In & Hq%list_elem_of_In)%in_concat. apply list_elem_of_fmap in Hps as (st0 & -> & Hst0).
    apply list_elem_of_lookup_1 in Hst0 as [j Hj]. destruct (Forall2_lookup_l _ _ _ _ _ (bh_levels _ _ _ Hb) Hj) as (sp0 & _ & H0). by apply (Forall_elem _ _ q (lh_live _ _ _ H0)). }
  assert (file_in h' <$> l' ≡ₚ add_once (added_file f) sp.2) as Hadd.
  { unfold add_once. rewrite added_file_id. destruct Hcase as [[Hperm Hne]|[-> (q & Hq & Eq)]].
    - rewrite decide_False; [rewrite Hperm; cbn [fmap list_fmap]; rewrite Ep, Ha; apply Permutation_cons_append|]. rewrite <- Ha. intros Hin.
      apply list_elem_of_fmap in Hin as (g & Eg & Hg). apply list_elem_of_fmap in Hg as (q & -> & Hq). apply (Hne q Hq). by rewrite Ep.
    - rewrite decide_True; [done|]. rewrite <- Ha. apply list_elem_of_fmap. exists (file_in h' q). rewrite Ep in Eq. split; [done|]. by apply list_elem_of_fmap_2. }
  split; [split|].
  - unfold spec_add. cbn [fst snd]. rewrite (alter_at _ _ _ _ Esp). apply Forall2_insert.
    + eapply list.Forall2_impl; [apply Hb|]. intros st0 sp0. by apply level_holds_extends.
    + split; cbn [deleted_files added_files fst snd]; [by rewrite Hd| |done| |done].
      * destruct Hcase as [[Hperm _]|[-> _]]; [|done]. rewrite Hperm. constructor; [unfold h'; set_solver|done].
      * unfold add_once. case_decide; [done|]. apply Forall_app_2; [done|]. constructor; [|done]. destruct Hf as [? ? ?]. by split.
  - rewrite list_fmap_insert. cbn [added_files]. destruct Hcase as [[Hperm _]|[-> _]].
    + rewrite (concat_insert_cons _ _ (added_files st) _ p); [|by rewrite list_lookup_fmap, Est|done]. apply list.NoDup_cons. split; [|apply Hb].
      intros Hin. by apply Hp, (Forall_elem _ _ _ Hdom).
    + rewrite list_insert_id; [apply Hb|]. by rewrite list_lookup_fmap, Est.
  - intros q g Hq. unfold h' in Hq. destruct (decide (q = p)) as [->|Hne]; [rewrite lookup_insert_eq in Hq; injection Hq as <-; by right|]. rewrite lookup_insert_ne in Hq by done. by left.
Qed.

Lemma builder_news_ok l h states specs : builder_holds h states specs -> zlength specs = kNumLevels -> Forall (fun n => level_ok n.1 /\ file_ok uc valid n.2) l ->
  exists states' h', builder_news uc l states h = Ret (states', h') /\ extends h h' /\ builder_holds h' states' (foldl spec_add specs l) /\
    (forall p g, h' !! p = Some g -> h !! p = Some g \/ refs g = 1).
Proof.
  intros Hb Hlen Hl. induction l as [|[level f] l IH] in h, states, specs, Hb, Hlen, Hl |- *; [exists states, h; by split_and!; [|apply extends_refl| |left]|]. apply Forall_cons_1 in Hl as [[Hlev Hf] Hl]. cbn [fst snd] in Hlev, Hf.
  destruct (builder_new_ok h states specs level f Hb Hlen Hlev Hf) as (states1 & h1 & E & He & Hb1 & Hr1).
  destruct (IH h1 states1 (spec_add specs (level, f)) Hb1) as (states' & h' & E' & He' & Hb' & Hr'); [by unfold spec_add; cbn [fst]; unfold zlength; rewrite length_alter|done|].
  exists states', h'. cbn [builder_news foldl]. rewrite E, res_bind_ret. split; [done|]. split; [by eapply extends_trans|]. split; [done|].
  intros p g Hp. destruct (Hr' p g Hp) as [Hp1|?]; [by apply Hr1|by right].
Qed.

(** ** Apply *)

(** An edit that can be logged, with files whose keys are internal keys in
    their order. *)
Record edit_fits (e : VersionEdit) : Prop := {
  ef_ok : edit_ok e;
  ef_items : zlength (items_of e) < 2 ^ 64;
  ef_files : Forall (fun n => file_ok uc valid n.2) (new_files_ e);
}.

Lemma edit_fits_levels e : edit_fits e -> Forall (fun p => level_ok p.1 /\ p.2 <> []) (compact_pointers_ e) /\ Forall (fun d => level_ok d.1) (deleted_files_ e) /\
  Forall (fun n => level_ok n.1 /\ file_ok uc valid n.2) (new_files_ e).
Proof.
  intros [He _ Hf]. pose proof (eo_items e He) as Hi. unfold items_of in Hi. rewrite !Forall_app in Hi. destruct Hi as (_ & _ & _ & _ & _ & Hp & Hd & Hn).
  rewrite list.Forall_fmap in Hp; rewrite list.Forall_fmap in Hd; rewrite list.Forall_fmap in Hn. split_and!.
  - pose proof (eo_pointers e He) as Hne. rewrite Forall_lookup in Hp, Hne |- *. intros i x Hx. split; [by apply (Hp i x Hx)|by eapply Hne].
  - eapply List.Forall_impl; [|exact Hd]. by intros x [? _].
  - rewrite Forall_lookup in Hn, Hf |- *. intros i x Hx. split; [by apply (Hn i x Hx)|by eapply Hf].
Qed.

Definition spec_pointer (pointers : list bytes) (p : Z * InternalKey) : list bytes := <[Z.to_nat p.1 := p.2]> pointers.

Lemma builder_pointers_ok l pointers : zlength pointers = kNumLevels -> Forall (fun p => level_ok p.1 /\ p.2 <> []) l -> builder_pointers l pointers = Ret (foldl spec_pointer pointers l).
Proof.
  intros Hlen Hl. induction l as [|[level k] l IH] in pointers, Hlen, Hl |- *; [done|]. apply Forall_cons_1 in Hl as [[Hlev Hk] Hl]. cbn [fst snd] in Hlev, Hk. cbn [builder_pointers foldl].
  rewrite InternalKey_Encode_ok, res_bind_ret, write_at_ok, res_bind_ret by (done || by rewrite Hlen). apply IH; [|done]. unfold zlength, spec_pointer. by rewrite length_insert.
Qed.

Lemma Apply_ok e b s specs : edit_fits e -> builder_holds (vs_files s) (levels_ b) specs -> zlength specs = kNumLevels -> zlength (vs_compact_pointer s) = kNumLevels ->
  exists states h', Apply uc e b s = Ret (MkBuilder (base_ b) states, set_vs_files h' (set_vs_compact_pointer (foldl spec_pointer (vs_compact_pointer s) (compact_pointers_ e)) s)) /\
    extends (vs_files s) h' /\ builder_holds h' states (spec_edit specs e) /\ (forall p g, h' !! p = Some g -> vs_files s !! p = Some g \/ refs g = 1).
Proof.
  intros He Hb Hlen Hp. destruct (edit_fits_levels e He) as (Hptr & Hdel & Hnew). unfold Apply. rewrite builder_pointers_ok, res_bind_ret by done.
  destruct (builder_deleted_ok _ _ _ _ Hb Hlen Hdel) as (states1 & -> & Hb1). rewrite res_bind_ret.
  destruct (builder_news_ok (new_files_ e) (vs_files s) states1 (foldl spec_delete specs (deleted_files_ e)) Hb1) as (states & h' & -> & Hx & Hb' & Hr); [|done|].
  - unfold zlength in *. pose proof (length_spec_edit specs (MkVersionEdit [] 0 0 0 0 false false false false false [] (deleted_files_ e) [])) as El. unfold spec_edit in El. cbn in El. by rewrite El.
  - rewrite res_bind_ret. by exists states, h'.
Qed.

(** ** From the builder to the version *)

(** Dropping the references of a list of different files. *)
Definition unreferenced (ps : list FilePtr) (h h' : files_heap) : Prop :=
  forall p, h' !! p = if decide (p ∈ ps) then match h !! p with Some f => if refs f - 1 <=? 0 then None else Some (set_file_refs (refs f - 1) f) | None => None end else h !! p.

Lemma unref_files_ok ps h : base.NoDup ps -> Forall (fun p => exists f, h !! p = Some f /\ 0 <= refs f < 2 ^ 31) ps -> exists h', unref_files ps h = Ret h' /\ unreferenced ps h h'.
Proof.
  intros Hnd. revert h. induction Hnd as [|p ps Hp Hnd IH]; intros h Hps; [exists h; split; [done|]; intros q; by rewrite decide_False by set_solver|].
  apply Forall_cons_1 in Hps as [(f & Hf & Hr) Hps]. cbn [unref_files]. unfold unref_file. rewrite (file_at_ok h p f Hf), res_bind_ret. unfold int_add.
  rewrite (proj2 (Z.leb_le _ _)), (proj2 (Z.ltb_lt _ _)) by lia. cbn [andb]. rewrite !res_bind_ret.
  set (h1 := if refs f + -1 <=? 0 then delete p h else <[p:=set_file_refs (refs f + -1) f]> h).
  assert (forall q, q <> p -> h1 !! q = h !! q) as Hother by (intros q Hq; unfold h1; case_match; [by rewrite lookup_delete_ne|by rewrite lookup_insert_ne]).
  destruct (IH h1) as (h' & E & Hu).
  - apply List.Forall_forall. intros q Hq%list_elem_of_In. rewrite Hother by (by intros ->). by apply (Forall_elem _ _ q Hps).
  - exists h'. split; [done|]. intros q. rewrite Hu. destruct (decide (q = p)) as [->|Hne].
    + rewrite decide_False by done. rewrite decide_True by set_solver. rewrite Hf. unfold h1. replace (refs f - 1) with (refs f + -1) by lia. case_match; [apply lookup_delete_eq|apply lookup_insert_eq].
    + rewrite Hother by done. destruct (decide (q ∈ ps)); [rewrite decide_True by set_solver; done|by rewrite decide_False by set_solver].
Qed.

(** [Finalize] gives the level to compact and its score. *)
Lemma best_level_ok h level levels best score : Forall (fun p => p ∈ dom h) (concat levels) -> exists r, best_level h level levels best score = Ret r.
Proof.
  assert (forall files sum, Forall (fun p => p ∈ dom h) files -> exists n, total_file_size h files sum = Ret n) as Htotal.
  { induction files as [|p files IH]; intros sum Hf; [by exists sum|]. apply Forall_cons_1 in Hf as [Hp Hf]. cbn [total_file_size]. rewrite dom_file_at, res_bind_ret by done. by apply IH. }
  induction levels as [|files levels IH] in level, best, score |- *; intros Hl; [by eexists|]. cbn [concat] in Hl. apply Forall_app in Hl as [Hf Hl]. cbn [best_level].
  destruct (_ <? _); [|by eexists]. assert (exists x, level_score h level files = Ret x) as [x ->].
  { unfold level_score. destruct (level =? 0); [by eexists|]. destruct (Htotal files 0 Hf) as [n En]. unfold TotalFileSize. rewrite En, res_bind_ret. by eexists. }
  rewrite res_bind_ret. case_match; by apply IH.
Qed.

Lemma Finalize_ok p v s : vs_versions s !! p = Some v -> Forall (fun q => q ∈ dom (vs_files s)) (concat (files_ v)) ->
  exists score level, Finalize p s = Ret (set_vs_versions (<[p := set_compaction score level v]> (vs_versions s)) (vs_list s) (vs_current s) s).
Proof.
  intros Hp Hv. unfold Finalize, version_at. rewrite Hp. cbn [of_option]. rewrite res_bind_ret. destruct (best_level_ok (vs_files s) 0 (files_ v) (-1) (double_of (-1)) Hv) as [[level score] ->].
  rewrite res_bind_ret. by exists score, level.
Qed.

(** The files of a level are what the edits left: as a multiset, in the order of
    their smallest keys, and without overlap above level 0. *)
Record level_is (h : files_heap) (level : Z) (l : level_spec) (ps : list FilePtr) : Prop := {
  li_live : Forall (fun p => p ∈ dom h) ps;
  li_files : file_in h <$> ps ≡ₚ filter (fun f => number f ∉ l.1) l.2;
  li_sorted : Sorted.StronglySorted upto (file_in h <$> ps);
  li_disjoint : 0 < level -> sorted_files uc valid (file_in h <$> ps);
}.

Inductive levels_are (h : files_heap) : Z -> list level_spec -> list (list FilePtr) -> Prop :=
| levels_are_nil level : levels_are h level [] []
| levels_are_cons level l specs ps files : level_is h level l ps -> levels_are h (level + 1) specs files -> levels_are h level (l :: specs) (ps :: files).

(** Different files that are left in a level above 0 do not overlap. *)
Definition left_files (l : level_spec) : list FileMetaData := filter (fun f => number f ∉ l.1) l.2.
Definition no_overlap (level : Z) (specs : list level_spec) : Prop :=
  forall (i : nat) (l : level_spec) f g, 0 < level + Z.of_nat i -> specs !! i = Some l -> f ∈ left_files l -> g ∈ left_files l -> file_id f <> file_id g ->
    ilt (largest f) (smallest g) \/ ilt (largest g) (smallest f).

Lemma filter_file_in h (P : FilePtr -> Prop) (Q : FileMetaData -> Prop) `{!forall p, Decision (P p)} `{!forall f, Decision (Q f)} (ps : list FilePtr) :
  (forall p, P p <-> Q (file_in h p)) -> file_in h <$> filter P ps = filter Q (file_in h <$> ps).
Proof.
  intros HPQ. induction ps as [|p ps IH]; [done|]. cbn [fmap list_fmap]. rewrite !filter_cons. destruct (decide (P p)) as [Hd|Hd]; destruct (decide (Q (file_in h p))) as [Hq|Hq];
    [cbn; by rewrite <- IH|by destruct Hq; apply HPQ|by destruct Hd; apply HPQ|done].
Qed.

Lemma sorted_ids h ps p q : Sorted.StronglySorted (fun p q => before (file_in h p) (file_in h q)) ps -> p ∈ ps -> q ∈ ps -> p <> q -> file_id (file_in h p) <> file_id (file_in h q).
Proof.
  assert (forall r s, before r s -> file_id r <> file_id s) as Hne.
  { intros r s0 [Hb|[_ Hb]] E; unfold file_id in E; injection E as E1 E2; [rewrite E1 in Hb; by apply key_lt_irrefl in Hb|lia]. }
  induction 1 as [|r ps Hs IH Hr]; intros Hp Hq Hpq; [set_solver|]. apply elem_of_cons in Hp as [->|Hp]; apply elem_of_cons in Hq as [->|Hq]; [done| | |by apply IH].
  - apply Hne. by apply (Forall_elem _ _ q Hr).
  - intros E. symmetry in E. revert E. apply Hne. by apply (Forall_elem _ _ p Hr).
Qed.

Lemma level_ready_empty h level st l : level_holds h st l -> base.NoDup (added_files st) -> (0 < level -> forall f g, f ∈ left_files l -> g ∈ left_files l -> file_id f <> file_id g -> ilt (largest f) (smallest g) \/ ilt (largest g) (smallest f)) ->
  level_ready (file_in h) level st h [].
Proof.
  intros [Hd Hl Ha Hv Hs] Hnd Hno. assert (forall p, p ∈ added_files st -> file_in h p ∈ l.2) as Hin by (intros p Hp; rewrite <- Ha; by apply list_elem_of_fmap_2).
  split; rewrite ?app_nil_r.
  - eapply List.Forall_impl; [|exact Hl]. intros p. apply file_in_live.
  - apply List.Forall_forall. intros p Hp%list_elem_of_In. by apply (Forall_elem _ _ _ Hv), Hin.
  - done.
  - constructor.
  - intros H0. split; [done|]. intros p q [Kp Hp]%list_elem_of_filter [Kq Hq]%list_elem_of_filter Hne. unfold kept in Kp, Kq. rewrite Hd in Kp, Kq.
    apply (Hno H0); [apply list_elem_of_filter; split; [done|by apply Hin]..|]. by eapply sorted_ids.
Qed.

Lemma levels_ready_empty h level states specs : Forall2 (level_holds h) states specs -> base.NoDup (concat (added_files <$> states)) -> no_overlap level specs ->
  levels_ready (file_in h) h level states (replicate (length states) []).
Proof.
  intros Hs. induction Hs as [|st l states specs Hst _ IH] in level |- *; intros Hnd Hno; [constructor|]. cbn [fmap list_fmap concat] in Hnd. apply list.NoDup_app in Hnd as (Hnd & _ & Hnds).
  cbn [length replicate]. constructor.
  - apply (level_ready_empty h level st l Hst Hnd). intros H0 f g. by apply (Hno O l f g ltac:(lia) eq_refl).
  - apply IH; [done|]. intros i l' f g Hi. apply (Hno (S i)). lia.
Qed.

Lemma levels_merged_files h level states files : levels_merged (file_in h) level states (replicate (length states) []) files -> base.NoDup (concat (added_files <$> states)) ->
  base.NoDup (concat files) /\ forall p, p ∈ concat files -> p ∈ concat (added_files <$> states).
Proof.
  revert level files. induction states as [|st states IH]; intros level files Hm Hnd; inversion Hm as [|? ? ? ? ? fs files' Hfs Hm']; subst; [done|]. cbn [concat fmap list_fmap] in *.
  apply list.NoDup_app in Hnd as (Hnd & Hdis & Hnds). destruct (IH _ _ Hm' Hnds) as [Hnf Hin]. pose proof (mg_files _ _ _ _ _ Hfs) as Hperm. rewrite app_nil_r in Hperm.
  assert (forall p, p ∈ fs -> p ∈ added_files st) as Hfst by (intros p; rewrite Hperm; by intros [_ ?]%list_elem_of_filter).
  split.
  - apply list.NoDup_app. split; [rewrite Hperm; by apply list.NoDup_filter|]. split; [|done]. intros p Hp Hp'. apply (Hdis p); [by apply Hfst|by apply Hin].
  - intros p [Hp|Hp]%elem_of_app; apply elem_of_app; [left; by apply Hfst|right; by apply Hin].
Qed.

(** [h'] holds the files of [h] that [ps] names. *)
Lemma level_is_merged h h' level st l fs : level_holds h st l -> merged (file_in h) level st [] fs -> Forall (fun p => p ∈ dom h' /\ file_in h' p = file_in h p) fs -> level_is h' level l fs.
Proof.
  intros [Hd Hl Ha Hv Hs] [Hperm Hsort Hdis] Hsame. rewrite app_nil_r in Hperm.
  assert (file_in h' <$> fs = file_in h <$> fs) as E by (apply list_fmap_ext; intros i p Hp; rewrite Forall_lookup in Hsame; by eapply Hsame).
  split; rewrite ?E.
  - eapply List.Forall_impl; [|exact Hsame]. by intros p [? _].
  - rewrite Hperm, (filter_file_in h (kept (file_in h) st) (fun f => number f ∉ l.1)), Ha; [done|]. intros p. unfold kept. by rewrite Hd.
  - clear -Hsort. induction Hsort as [|p fs Hs IH Hp]; [constructor|]. cbn. constructor; [done|]. by apply list.Forall_fmap.
  - intros H0 i j f g Hi Hj Hij. apply list_lookup_fmap_Some in Hi as (p & -> & Hi). apply list_lookup_fmap_Some in Hj as (q & -> & Hj). by eapply (StronglySorted_positions _ fs i j p q (Hdis H0)).
Qed.

Lemma levels_are_merged h h' level states specs files : Forall2 (level_holds h) states specs -> levels_merged (file_in h) level states (replicate (length states) []) files ->
  Forall (fun p => p ∈ dom h' /\ file_in h' p = file_in h p) (concat files) -> levels_are h' level specs files.
Proof.
  intros Hs. induction Hs as [|st l states specs Hst _ IH] in level, files |- *; intros Hm Hsame; inversion Hm; subst; [constructor|]. cbn [concat] in Hsame. apply Forall_app in Hsame as [? ?].
  constructor; [by eapply level_is_merged|by apply IH].
Qed.

(** ** The loop over the records of a manifest *)
Section manifest.
Context {G : Type} `{ReadableFile G}.
Variable (comparator_name : bytes).

Definition last_found (has : VersionEdit -> bool) (v : VersionEdit -> Z) (edits : list VersionEdit) (x : option Z) : option Z := foldl (fun x e => found (has e) (v e) x) x edits.
Definition spec_pointers (pointers : list bytes) (edits : list VersionEdit) : list bytes := foldl (fun ps e => foldl spec_pointer ps (compact_pointers_ e)) pointers edits.

(** A record that holds an edit of this comparator. *)
Definition logs (record : bytes) (e : VersionEdit) : Prop :=
  edit_fits e /\ EncodeTo e [] = Ret record /\ zlength record < 2 ^ 63 /\ (has_comparator_ e = true -> comparator_ e = comparator_name).

Lemma logs_decode record e : logs record e -> DecodeFrom record new_VersionEdit = Ret (Status_OK, e).
Proof.
  intros ([He Hl _] & Ee & _). rewrite (EncodeTo_items e [] He) in Ee. injection Ee as <-. cbn [app]. rewrite DecodeFrom_items by done.
  cbn. by destruct e.
Qed.

Implicit Types (st : manifest_state (G := G)) (edits : list VersionEdit).

(** The state after some of the edits. *)
Record manifest_at (st0 : manifest_state (G := G)) (specs0 : list level_spec) edits st : Prop := {
  ma_builder : builder_holds (vs_files (ms_vset st)) (levels_ (ms_builder st)) (foldl spec_edit specs0 edits);
  ma_base : base_ (ms_builder st) = base_ (ms_builder st0);
  ma_vset : ms_vset st = set_vs_files (vs_files (ms_vset st)) (set_vs_compact_pointer (spec_pointers (vs_compact_pointer (ms_vset st0)) edits) (ms_vset st0));
  ma_extends : extends (vs_files (ms_vset st0)) (vs_files (ms_vset st));
  ma_refs : forall p g, vs_files (ms_vset st) !! p = Some g -> vs_files (ms_vset st0) !! p = Some g \/ refs g = 1;
  ma_status : ms_status st = Status_OK;
  ma_log : ms_log_number st = last_found has_log_number_ log_number_ edits (ms_log_number st0);
  ma_prev_log : ms_prev_log_number st = last_found has_prev_log_number_ prev_log_number_ edits (ms_prev_log_number st0);
  ma_next : ms_next_file st = last_found has_next_file_number_ next_file_number_ edits (ms_next_file st0);
  ma_last : ms_last_sequence st = last_found has_last_sequence_ last_sequence_ edits (ms_last_sequence st0);
}.

Lemma length_spec_edits specs edits : zlength (foldl spec_edit specs edits) = zlength specs.
Proof. induction edits as [|e edits IH] in specs |- *; [done|]. cbn. rewrite IH. unfold zlength. by rewrite length_spec_edit. Qed.

Lemma length_spec_pointers pointers edits : zlength (spec_pointers pointers edits) = zlength pointers.
Proof.
  assert (forall l ps, zlength (foldl spec_pointer ps l) = zlength ps) as H1 by (induction l as [|x l IH]; intros ps; [done|]; cbn; rewrite IH; unfold zlength, spec_pointer; by rewrite length_insert).
  unfold spec_pointers. induction edits as [|e edits IH] in pointers |- *; [done|]. cbn. by rewrite IH, H1.
Qed.

Lemma manifest_step st0 specs0 done st record e r1 : manifest_at st0 specs0 done st -> zlength specs0 = kNumLevels -> zlength (vs_compact_pointer (ms_vset st0)) = kNumLevels ->
  ReadRecord (ms_reader st) = Ret (Some record, r1) -> same_config (ms_reader st) r1 -> logs record e ->
  exists st', manifest_body uc comparator_name st = Ret (inl st') /\ ms_reader st' = r1 /\ manifest_at st0 specs0 (done ++ [e]) st'.
Proof.
  intros [Hb Hbase Hv Hx Hrf Hs Hl Hp Hn Hq] Hlen Hplen Er Hc Hlog. pose proof (logs_decode _ _ Hlog) as Ed. destruct Hlog as (He & _ & _ & Hcmp).
  unfold manifest_body. rewrite Er, res_bind_ret, (new_reports_quiet _ _ Hc). cbn [foldl ms_status ms_builder ms_vset ms_reader ms_log_number ms_prev_log_number ms_next_file ms_last_sequence].
  rewrite Hs. cbn [ok Status_OK negb]. rewrite Ed, res_bind_ret. cbn [ok Status_OK andb].
  assert (has_comparator_ e && negb (slice_eq (comparator_ e) comparator_name) = false) as ->.
  { destruct (has_comparator_ e); [|done]. rewrite Hcmp by done. cbn. by rewrite slice_eq_refl. }
  destruct (Apply_ok e (ms_builder st) (ms_vset st) _ He Hb) as (states & h' & E & Hx' & Hb' & Hr'); [by rewrite length_spec_edits|rewrite Hv; cbn; by rewrite length_spec_pointers|].
  cbn [ok Status_OK]. rewrite E, res_bind_ret. eexists. split; [done|]. split; [done|].
  split; cbn [ms_status ms_builder ms_vset ms_reader ms_log_number ms_prev_log_number ms_next_file ms_last_sequence vs_files set_vs_files levels_ base_].
  - by rewrite foldl_app.
  - done.
  - rewrite Hv. unfold spec_pointers. rewrite foldl_app. done.
  - by eapply extends_trans.
  - intros p g Hg. destruct (Hr' p g Hg) as [Hg'|?]; [by apply Hrf|by right].
  - done.
  - unfold last_found. by rewrite foldl_app, Hl.
  - unfold last_found. by rewrite foldl_app, Hp.
  - unfold last_found. by rewrite foldl_app, Hn.
  - unfold last_found. by rewrite foldl_app, Hq.
Qed.

Lemma manifest_loop st0 specs0 records edits : zlength specs0 = kNumLevels -> zlength (vs_compact_pointer (ms_vset st0)) = kNumLevels -> Forall2 logs records edits ->
  forall done st, manifest_at st0 specs0 done st -> recovers_quietly (ms_reader st) records ->
  exists st', runs (manifest_body uc comparator_name) st (zlength records + 1) (Ret st') /\ manifest_at st0 specs0 (done ++ edits) st'.
Proof.
  intros Hlen Hplen. induction 1 as [|record e records edits Hlog _ IH]; intros done st Hst Hq.
  - inversion Hq as [r r' Er Hc|]; subst. rewrite app_nil_r. eexists. split.
    + apply runs_stop. unfold manifest_body. rewrite Er, res_bind_ret, (new_reports_quiet _ _ Hc). cbn [foldl]. reflexivity.
    + by destruct Hst.
  - inversion Hq as [|r d r1 ds Er Hc Hq1]; subst. destruct (manifest_step st0 specs0 done st record e r1 Hst Hlen Hplen Er Hc Hlog) as (st1 & E & Hr1 & Hst1).
    rewrite <- Hr1 in Hq1. destruct (IH (done ++ [e]) st1 Hst1 Hq1) as (st' & Hrun & Hst'). rewrite <- app_assoc in Hst'. exists st'. split; [|done].
    rewrite zlength_cons, <- Z.add_assoc. by eapply runs_step.
Qed.


(** ** Recovery *)
Definition no_edits : list level_spec := replicate (Z.to_nat kNumLevels) (∅, []).
Definition spec_of edits : list level_spec := foldl spec_edit no_edits edits.

Lemma new_VersionSet_ok : exists c, new_VersionSet = Ret (MkVersionSet ∅ {[c := set_version_refs 1 new_Version]} [c] (Some c) 2 0 0 0 0 (replicate (Z.to_nat kNumLevels) [])).
Proof. exists (fresh (dom (∅ : gmap nat Version))). vm_compute. reflexivity. Qed.

Lemma builder_holds_empty h n : builder_holds h (replicate n (MkLevelState ∅ [])) (replicate n (∅, [])).
Proof.
  split; [|induction n as [|n IH]; [constructor|done]]. induction n as [|n IH]; cbn; constructor; [|done]. split; try done; constructor.
Qed.

Lemma total_files_spec h states specs n : Forall2 (level_holds h) states specs -> total_files states (replicate n []) = zlength (concat (snd <$> specs)).
Proof.
  unfold total_files. assert (concat (replicate n (@nil FilePtr)) = []) as -> by (induction n; done). change (zlength []) with 0. rewrite Z.add_0_r.
  induction 1 as [|st l states specs Hst _ IH]; [done|]. cbn [fmap list_fmap concat]. rewrite !zlength_app, IH. f_equal. unfold zlength. rewrite <- (lh_added _ _ _ Hst). by rewrite length_fmap.
Qed.

(** The reference counts of the builder's files go back to those of the version. *)
Lemma save_and_drop h states specs : builder_holds h states specs -> zlength specs = kNumLevels -> no_overlap 0 specs -> (forall p f, h !! p = Some f -> refs f = 1) ->
  zlength (concat (snd <$> specs)) < 2 ^ 31 - 1 ->
  exists files h1 h2, save_levels uc 0 states (replicate (Z.to_nat kNumLevels) []) (replicate (Z.to_nat kNumLevels) []) h = Ret (files, h1) /\
    Forall (fun p => p ∈ dom h1) (concat files) /\ unref_files (concat (added_files <$> states)) h1 = Ret h2 /\ levels_are h2 0 specs files.
Proof.
  intros Hb Hlen Hno Hrefs Hcount. pose proof (bh_levels _ _ _ Hb) as Hl. pose proof (bh_distinct _ _ _ Hb) as Hnd.
  assert (length states = Z.to_nat kNumLevels) as El by (pose proof Hl as Hl0; apply Forall2_length in Hl0; unfold zlength in Hlen; lia).
  pose proof (total_files_spec h states specs (length states) Hl) as Et.
  destruct (save_levels_ok (file_in h) h 0 states (replicate (length states) [])) as (files & h1 & E & Hm & Hbump); [by eapply levels_ready_empty|intros p f Hp; rewrite (Hrefs p f Hp), Et; lia|].
  destruct (levels_merged_files _ _ _ _ Hm Hnd) as [Hnf Hin]. rewrite El in E.
  assert (forall p, p ∈ concat (added_files <$> states) -> p ∈ dom h) as Hdom.
  { intros q (ps & Hps%list_elem_of_In & Hq%list_elem_of_In)%list_elem_of_In%in_concat. apply list_elem_of_fmap in Hps as (st0 & -> & Hst0).
    apply list_elem_of_lookup_1 in Hst0 as [j Hj]. destruct (Forall2_lookup_l _ _ _ _ _ Hl Hj) as (sp0 & _ & H0'). by apply (Forall_elem _ _ q (lh_live _ _ _ H0')). }
  assert (forall p, p ∈ dom h -> h1 !! p = Some (set_file_refs (1 + occurrences p (concat files)) (file_in h p))) as Hh1.
  { intros p [f Hf]%elem_of_dom. rewrite Hbump, Hf. cbn [fmap option_fmap option_map]. by rewrite (file_in_at _ _ _ Hf), (Hrefs p f Hf). }
  destruct (unref_files_ok (concat (added_files <$> states)) h1 Hnd) as (h2 & E2 & Hu).
  { apply List.Forall_forall. intros p Hp%list_elem_of_In. eexists. split; [by apply Hh1, Hdom|]. cbn [refs set_file_refs]. pose proof (occurrences_le p (concat files)).
    assert (zlength (concat files) <= zlength (concat (snd <$> specs))); [|lia]. rewrite <- Et. unfold total_files. pose proof (zlength_nonneg (concat (replicate (length states) (@nil FilePtr)))).
    assert (zlength (concat files) <= zlength (concat (added_files <$> states))); [|lia]. unfold zlength. apply inj_le, submseteq_length, NoDup_submseteq; done. }
  exists files, h1, h2. split; [done|]. split.
  { apply List.Forall_forall. intros p Hp%list_elem_of_In. apply elem_of_dom. eexists. apply Hh1, Hdom, Hin, Hp. }
  split; [done|]. apply (levels_are_merged h h2 0 states specs files Hl Hm). apply List.Forall_forall. intros p Hp%list_elem_of_In.
  assert (occurrences p (concat files) = 1) as Eo.
  { unfold occurrences. clear -Hnf Hp. induction Hnf as [|q ps Hq Hnf IH]; [set_solver|]. destruct (decide (q = p)) as [->|Hne].
    - rewrite filter_cons_True by done. rewrite zlength_cons. assert (filter (fun q => q = p) ps = []) as ->; [|done].
      clear -Hq. induction ps as [|r ps IH]; [done|]. rewrite filter_cons_False by set_solver. apply IH. set_solver.
    - rewrite filter_cons_False by done. apply IH. set_solver. }
  assert (h2 !! p = Some (file_in h p)) as E3.
  { rewrite Hu, decide_True by by apply Hin. rewrite Hh1, Eo by by apply Hdom, Hin. cbn [refs set_file_refs]. cbn.
    destruct (proj1 (elem_of_dom h p) (Hdom p (Hin p Hp))) as [f Hf]. rewrite (file_in_at _ _ _ Hf). pose proof (Hrefs p f Hf) as Hr1. destruct f. cbn in *. by subst. }
  split; [apply elem_of_dom; by eexists|]. by apply file_in_at.
Qed.

Ltac vs_simpl :=
  unfold set_vs_files, set_vs_versions, set_vs_numbers, set_vs_compact_pointer;
  cbn [vs_files vs_versions vs_list vs_current vs_next_file_number vs_manifest_file_number vs_last_sequence vs_log_number vs_prev_log_number vs_compact_pointer].

(** A version built on an empty one replaces it, and the builder goes. *)
Lemma install_ok b h n m q l pl ptrs files h1 h2 v2 :
  files_ v2 = replicate (Z.to_nat kNumLevels) [] -> version_refs v2 = 2 ->
  save_levels uc 0 (levels_ b) (files_ v2) (replicate (Z.to_nat kNumLevels) []) h = Ret (files, h1) -> Forall (fun p => p ∈ dom h1) (concat files) ->
  unref_files (concat (added_files <$> levels_ b)) h1 = Ret h2 ->
  exists p v s1, (let '(p, s) := alloc_version new_Version (MkVersionSet h {[base_ b := v2]} [base_ b] (Some (base_ b)) n m q l pl ptrs) in
                  let! s := SaveTo uc b p s in let! s := Finalize p s in AppendVersion p s) = Ret s1 /\
    version_refs v = 1 /\ files_ v = files /\
    forall n m q l pl, delete_Builder b (set_vs_numbers n m q l pl s1) = Ret (MkVersionSet h2 {[p := v]} [p] (Some p) n m q l pl ptrs).
Proof.
  intros Hfiles Hrefs Hsave Hdom Hunref. set (c := base_ b). unfold alloc_version. vs_simpl. set (p := fresh (dom {[c := v2]})).
  assert (p <> c) as Hpc by (intros E; apply (is_fresh (dom ({[c := v2]} : gmap nat Version))); change (p ∈ dom ({[c := v2]} : gmap nat Version)); rewrite E; set_solver).
  unfold SaveTo, version_at. vs_simpl. fold c. rewrite lookup_insert_ne, lookup_singleton_eq, lookup_insert_eq by done. cbn [of_option]. rewrite !res_bind_ret.
  change (files_ new_Version) with (replicate (Z.to_nat kNumLevels) (@nil FilePtr)). rewrite Hsave, res_bind_ret, insert_insert_eq.
  set (v := set_version_files files new_Version).
  rewrite res_bind_ret. match goal with |- context [Finalize p ?x] => set (s2 := x) end. destruct (Finalize_ok p v s2) as (score & level & ->); [apply lookup_insert_eq|done|]. rewrite res_bind_ret. unfold s2. clear s2. vs_simpl.
  rewrite insert_insert_eq. exists p, (set_version_refs 1 (set_compaction score level v)). unfold AppendVersion, version_at. vs_simpl. rewrite lookup_insert_eq. cbn [of_option]. rewrite res_bind_ret.
  change (version_refs (set_compaction score level v) =? 0) with true. rewrite bool_decide_true by congruence. cbn [assert_]. rewrite !res_bind_ret.
  unfold Version_Unref, version_at. vs_simpl. rewrite lookup_insert_ne, lookup_singleton_eq by done. cbn [of_option]. rewrite res_bind_ret, Hrefs. change (assert_ (1 <=? 2)) with (Ret tt). change (int_add 2 (-1)) with (Ret 1). rewrite !res_bind_ret. change (1 =? 0) with false. cbv iota. rewrite res_bind_ret.
  unfold Version_Ref, version_at. vs_simpl. rewrite lookup_insert_ne, lookup_insert_eq by done. cbn [of_option]. rewrite res_bind_ret.
  change (int_add (version_refs (set_compaction score level v)) 1) with (Ret 1). rewrite !res_bind_ret. eexists. split; [done|]. split; [done|]. split; [done|].
  intros n' m' q' l' pl'. unfold delete_Builder. vs_simpl. rewrite Hunref, res_bind_ret. fold c.
  unfold Version_Unref, version_at. vs_simpl. rewrite lookup_insert_ne, lookup_insert_eq by done. cbn [of_option]. rewrite res_bind_ret.
  change (version_refs (set_version_refs 1 v2)) with 1. change (assert_ (1 <=? 1)) with (Ret tt). change (int_add 1 (-1)) with (Ret 0). rewrite !res_bind_ret. change (0 =? 0) with true. cbv iota.
  unfold delete_Version, version_at. vs_simpl. rewrite lookup_insert_eq. cbn [of_option]. rewrite res_bind_ret.
  change (version_refs (set_version_refs 0 (set_version_refs 1 v2)) =? 0) with true. cbn [assert_]. rewrite res_bind_ret. change (files_ (set_version_refs 0 (set_version_refs 1 v2))) with (files_ v2). rewrite Hfiles.
  change (concat (replicate (Z.to_nat kNumLevels) [])) with (@nil FilePtr). cbn [drop_files]. rewrite res_bind_ret. vs_simpl.
  cbn [app]. rewrite filter_cons_False, filter_cons_True by naive_solver. f_equal. unfold set_vs_files, set_vs_versions. cbn. f_equal. apply map_eq. intros r.
  destruct (decide (r = c)) as [->|Hrc]; [by rewrite lookup_delete_eq, lookup_singleton_ne|]. rewrite lookup_delete_ne, !(lookup_insert_ne _ c) by done.
  destruct (decide (r = p)) as [->|Hrp]; by simplify_map_eq.
Qed.

Lemma MarkFileNumberUsed_ok x s : exists n, MarkFileNumberUsed x s = set_vs_numbers n (vs_manifest_file_number s) (vs_last_sequence s) (vs_log_number s) (vs_prev_log_number s) s.
Proof. unfold MarkFileNumberUsed. case_match; eexists; [done|]. instantiate (1 := vs_next_file_number s). by destruct s. Qed.

(** The version set that the edits of a manifest describe. *)
Definition recovers_to edits (next log q : Z) (r : res (Status * VersionSet)) : Prop :=
  exists h p v, r = Ret (Status_OK, MkVersionSet h {[p := v]} [p] (Some p) (u64 (next + 1)) next q log
      (default 0 (last_found has_prev_log_number_ prev_log_number_ edits None)) (spec_pointers (replicate (Z.to_nat kNumLevels) []) edits)) /\
    version_refs v = 1 /\ levels_are h 0 (spec_of edits) (files_ v).

Lemma recover_manifest_ok (g : G) records edits next log q s0 : new_VersionSet = Ret s0 -> recovers_quietly (new_Reader g true true 0) records -> Forall2 logs records edits -> zlength records < 2 ^ 63 ->
  no_overlap 0 (spec_of edits) -> zlength (concat (snd <$> spec_of edits)) < 2 ^ 31 - 1 ->
  last_found has_next_file_number_ next_file_number_ edits None = Some next -> last_found has_log_number_ log_number_ edits None = Some log -> last_found has_last_sequence_ last_sequence_ edits None = Some q ->
  recovers_to edits next log q (recover_manifest uc comparator_name g s0).
Proof.
  intros E0 Hq Hlogs Hlen Hno Hcount Hnext Hlog Hlast. destruct new_VersionSet_ok as [c Ec]. rewrite E0 in Ec. injection Ec as ->.
  unfold recover_manifest, new_Builder, Version_Ref, version_at. vs_simpl. cbn [of_option]. rewrite res_bind_ret, lookup_singleton_eq. cbn [of_option]. rewrite !res_bind_ret.
  change (int_add (version_refs (set_version_refs 1 new_Version)) 1) with (Ret 2). rewrite !res_bind_ret. vs_simpl. rewrite insert_singleton_eq.
  match goal with |- context [while (manifest_body uc comparator_name) ?x] => set (st0 := x) end.
  destruct (manifest_loop st0 no_edits records edits eq_refl eq_refl Hlogs [] st0) as (st & Hrun & [Hb Hbase Hv Hx Hrf Hs Hl Hp Hn Hla]); [|done|].
  { split; try done. apply (builder_holds_empty ∅ (Z.to_nat kNumLevels)). }
  rewrite (runs_while _ _ _ _ Hrun), res_bind_ret by lia. unfold manifest_status. cbn [app] in *. rewrite Hs, Hn, Hl, Hla, Hp. cbn [st0 ms_next_file ms_log_number ms_last_sequence ms_prev_log_number]. rewrite Hnext, Hlog, Hlast. cbn [ok Status_OK default].
  destruct (MarkFileNumberUsed_ok (default 0 (last_found has_prev_log_number_ prev_log_number_ edits None)) (ms_vset st)) as [n1 ->]. match goal with |- context [MarkFileNumberUsed ?x ?y] => destruct (MarkFileNumberUsed_ok x y) as [n2 ->] end.
  rewrite Hv. cbn [st0 ms_vset]. vs_simpl.
  destruct (save_and_drop (vs_files (ms_vset st)) (levels_ (ms_builder st)) (spec_of edits) Hb) as (files & h1 & h2 & Esave & Hdom & Eun & Hare); [by unfold spec_of; rewrite length_spec_edits|done| |done|].
  { intros p f Hpf. by destruct (Hrf p f Hpf) as [Hf|?]. }
  cbn [st0 ms_builder base_] in Hbase. rewrite <- Hbase.
  destruct (install_ok (ms_builder st) (vs_files (ms_vset st)) n2 0 0 0 0 (spec_pointers (replicate (Z.to_nat kNumLevels) []) edits) files h1 h2 (set_version_refs 2 (set_version_refs 1 new_Version)))
    as (p & v & s1 & Ei & Hr1 & Hf1 & Ed); [done..|]. destruct (alloc_version _ _) as [p' sa].
  destruct (SaveTo uc _ p' sa) as [sb| |]; [rewrite res_bind_ret in Ei |- *|done..]. destruct (Finalize p' sb) as [sc| |]; [rewrite res_bind_ret in Ei |- *|done..].
  rewrite Ei, !res_bind_ret. exists h2, p, v. unfold set_vs_numbers in Ed. rewrite Ed, res_bind_ret. split; [done|]. by rewrite Hf1.
Qed.

Lemma logs_record records edits : Forall2 logs records edits -> Forall record_ok records.
Proof.
  induction 1 as [|record e records edits ([He _ _] & Ee & Hl & _) _ IH]; constructor; [|done]. split; [|done]. rewrite (EncodeTo_items e [] He) in Ee. injection Ee as <-.
  apply items_bytes_ok, He.
Qed.

(** C14: The manifest of a database is written edit by edit to an empty file, and the
    machine stops while one more record [d] is being added. Whatever proper part
    [c] of it has reached the file, the recovery of a new version set replays
    exactly the edits, in their order. Each level of the version it installs
    holds the files added and not deleted since, sorted by their smallest keys;
    the numbers and the compaction pointers are the last ones logged, and the
    reference counts are those of one live version. Assumed: the edits leave no
    overlapping files above level 0, name the comparator that is used, and set
    the next file, log and sequence numbers at least once; no call of the files
    fails. *)
Theorem manifest_recovery {F : Type} `{ReliableFile F} (f : F) (d : bytes) records edits next log q s0 :
  new_VersionSet = Ret s0 -> wf_contents f = [] -> Forall2 logs records edits -> record_ok d -> zlength records < 2 ^ 63 ->
  no_overlap 0 (spec_of edits) -> zlength (concat (snd <$> spec_of edits)) < 2 ^ 31 - 1 ->
  last_found has_next_file_number_ next_file_number_ edits None = Some next -> last_found has_log_number_ log_number_ edits None = Some log -> last_found has_last_sequence_ last_sequence_ edits None = Some q ->
  exists w0 s1 w1 s2 w2, new_Writer f = Ret w0 /\ AddRecords records w0 = Ret (s1, w1) /\ ok s1 = true /\ AddRecord d w1 = Ret (s2, w2) /\ ok s2 = true /\
    forall (g : G) c more, wf_contents (dest_ w2) = wf_contents (dest_ w1) ++ c ++ more -> more <> [] ->
      sf_contents g = wf_contents (dest_ w1) ++ c -> zlength (sf_contents g) < 2 ^ 63 -> recovers_to edits next log q (recover_manifest uc comparator_name g s0).
Proof.
  intros E0 Hf Hlogs Hd Hlen Hno Hcount Hnext Hlog Hlast.
  destruct (log_crash (G := G) records d f Hf (logs_record _ _ Hlogs) Hd) as (w0 & s1 & w1 & s2 & w2 & Ew & E1 & Hs1 & E2 & Hs2 & Hq).
  exists w0, s1, w1, s2, w2. do 5 (split; [done|]). intros g c more Hcrash Hmore Hg Hglen. apply (recover_manifest_ok g records); try done. by apply (Hq g c more).
Qed.
End manifest.
End builder.

(** ** At a concrete manifest *)
Definition edit_1 : VersionEdit :=
  AddFile 0 5 100 (str "a" ++ le_bytes 8 257) (str "m" ++ le_bytes 8 513)
    (AddFile 1 6 200 (str "a" ++ le_bytes 8 257) (str "b" ++ le_bytes 8 257)
    (AddFile 1 7 300 (str "c" ++ le_bytes 8 257) (str "d" ++ le_bytes 8 257)
    (SetLastSequence 9 (SetNextFile 8 (SetLogNumber 4 (SetComparatorName (str "leveldb.BytewiseComparator") new_VersionEdit)))))).
Definition edit_2 : VersionEdit :=
  AddFile 1 8 250 (str "f" ++ le_bytes 8 257) (str "g" ++ le_bytes 8 257) (DeleteFile 1 6 (SetLastSequence 20 (SetNextFile 10 new_VersionEdit))).

Lemma bytewise_before a b : ivalid bytes_ok a -> ivalid bytes_ok b -> match Compare (InternalKeyComparator BytewiseComparator) a b with Ret z => z <? 0 | _ => false end = true -> key_lt (InternalKeyComparator BytewiseComparator) (ivalid bytes_ok) a b.
Proof. intros Ha Hb. destruct (Compare_tests (InternalKeyComparator BytewiseComparator) (ivalid bytes_ok) a b Ha Hb) as (z & -> & Hz). apply (cmp_lt _ _ _ _ Hz). Qed.

Lemma bytewise_not_before a b : ivalid bytes_ok a -> ivalid bytes_ok b -> match Compare (InternalKeyComparator BytewiseComparator) a b with Ret z => z <? 0 | _ => true end = false -> ~ key_lt (InternalKeyComparator BytewiseComparator) (ivalid bytes_ok) a b.
Proof. intros Ha Hb. destruct (Compare_tests (InternalKeyComparator BytewiseComparator) (ivalid bytes_ok) a b Ha Hb) as (z & -> & Hz). intros E Hlt. apply (cmp_lt _ _ _ _ Hz) in Hlt. congruence. Qed.

Lemma bytes_ivalid k : forallb (fun b => (0 <=? b) && (b <? 256)) k && (8 <=? zlength k) = true -> ivalid bytes_ok k.
Proof.
  intros [Hk Hl]%andb_prop. apply bytes_ok_forallb in Hk. assert (length (drop (length k - 8) k) = 8%nat) as E8 by (rewrite length_drop; unfold zlength in Hl; lia).
  rewrite <- (take_drop (length k - 8) k) in Hk. apply bytes_ok_app in Hk as [Ht Hd].
  exists (take (length k - 8) k), (le_val (drop (length k - 8) k)). split; [|split; [done|]].
  - pose proof (le_bytes_val _ Hd) as El. rewrite E8 in El. by rewrite EncodeFixed64_le, El, take_drop.
  - pose proof (le_val_bound _ Hd) as Hb. unfold zlength in Hb. rewrite E8 in Hb. exact Hb.
Qed.

Lemma sample_file_ok f : (forallb (fun b => (0 <=? b) && (b <? 256)) (smallest f) && (8 <=? zlength (smallest f))) = true -> (forallb (fun b => (0 <=? b) && (b <? 256)) (largest f) && (8 <=? zlength (largest f))) = true ->
  match Compare (InternalKeyComparator BytewiseComparator) (largest f) (smallest f) with Ret z => z <? 0 | _ => true end = false -> file_ok BytewiseComparator bytes_ok f.
Proof. intros Hs Hl Hc. split; [by apply bytes_ivalid..|]. by apply bytewise_not_before; [apply bytes_ivalid..|]. Qed.

Lemma edit_1_fits : edit_fits BytewiseComparator bytes_ok edit_1.
Proof.
  split; [split; try done| |].
  - repeat (constructor; [|]); try done; cbn; unfold slice_ok, level_ok, u64_ok; split_and?; try done; by apply bytes_ok_forallb.
  - by repeat constructor.
  - reflexivity.
  - repeat (constructor; [apply sample_file_ok; vm_compute; reflexivity|]). constructor.
Qed.

Lemma edit_2_fits : edit_fits BytewiseComparator bytes_ok edit_2.
Proof.
  split; [split; try done| |].
  - repeat (constructor; [|]); try done; cbn; unfold slice_ok, level_ok, u64_ok; split_and?; try done; by apply bytes_ok_forallb.
  - by repeat constructor.
  - reflexivity.
  - repeat (constructor; [apply sample_file_ok; vm_compute; reflexivity|]). constructor.
Qed.

Definition record_1 : bytes := concat (item_bytes <$> items_of edit_1).
Definition record_2 : bytes := concat (item_bytes <$> items_of edit_2).

Lemma edits_logged : Forall2 (logs BytewiseComparator bytes_ok (str "leveldb.BytewiseComparator")) [record_1; record_2] [edit_1; edit_2].
Proof.
  constructor; [|constructor; [|constructor]].
  - split; [apply edit_1_fits|]. split; [vm_compute; reflexivity|]. by split.
  - split; [apply edit_2_fits|]. split; [vm_compute; reflexivity|]. by split.
Qed.

Lemma edits_apart : no_overlap BytewiseComparator bytes_ok 0 (spec_of [edit_1; edit_2]).
Proof.
  intros i l f g Hi Hl Hf Hg Hne. destruct i as [|[|[|[|[|[|[|i]]]]]]]; [lia|..]; vm_compute in Hl; try done; injection Hl as <-;
    match type of Hf with _ ∈ ?L => let x := eval vm_compute in L in change L with x in Hf, Hg end; try (by apply not_elem_of_nil in Hf).
  rewrite !elem_of_cons, elem_of_nil in Hf, Hg. destruct_or? Hf; destruct_or? Hg; try done; subst f g; try done; [left|right];
    apply bytewise_before; try (apply bytes_ivalid; vm_compute; reflexivity); vm_compute; reflexivity.
Qed.

(** Two edits, and four bytes of a third record. *)
Lemma manifest_recovery_witness : exists (f : bytes) s0, new_VersionSet = Ret s0 /\
  recovers_to BytewiseComparator bytes_ok [edit_1; edit_2] 10 4 20 (recover_manifest BytewiseComparator (str "leveldb.BytewiseComparator") f s0).
Proof.
  destruct new_VersionSet_ok as [c E0]. eexists _, _. split; [exact E0|].
  destruct (manifest_recovery (F := bytes) (G := bytes) BytewiseComparator bytes_ok (str "leveldb.BytewiseComparator") [] [1; 2; 3] [record_1; record_2] [edit_1; edit_2] 10 4 20 _ E0)
    as (w0 & s1 & w1 & s2 & w2 & Ew & E1 & _ & E2 & _ & Hrec).
  - reflexivity.
  - exact edits_logged.
  - split; [by apply bytes_ok_forallb|reflexivity].
  - reflexivity.
  - exact edits_apart.
  - vm_compute. reflexivity.
  - reflexivity.
  - reflexivity.
  - reflexivity.
  - vm_compute in Ew. injection Ew as <-. vm_compute in E1. injection E1 as <- <-. vm_compute in E2. injection E2 as <- <-.
    match type of Hrec with forall g c more, ?f2 = ?f1 ++ _ -> _ => apply (Hrec (take (length f1 + 4) f2) (take 4 (drop (length f1) f2)) (drop (length f1 + 4) f2)) end.
    + vm_compute. reflexivity.
    + vm_compute. discriminate.
    + vm_compute. reflexivity.
    + vm_compute. reflexivity.
Defined.
