(* ===== verification/Compaction.v ===== *)
(** * LevelDB: compactions (version_set.cc, the class [Compaction])

    Which files a compaction reads, and what it asks of the deeper levels while
    it writes.  The two vectors [inputs_] are [inputs0] and [inputs1]. *)
From Stdlib Require Import SpecFloat.
From S2P Require Import Prelude LdbBase Coding LogWriter LogReader LogRecovery Comparator DbFormat WriteBatch Filename VersionEdit Iterator Format FilterFacts DbIterFacts Version VersionFacts VersionSet VersionSetFacts.

Record Compaction : Type := MkCompaction {
  level_ : Z;
  max_output_file_size_ : Z;
  input_version_ : option VersionPtr;
  edit_ : VersionEdit;
  inputs0 : list FilePtr;
  inputs1 : list FilePtr;
  grandparents_ : list FilePtr;
  grandparent_index_ : Z;
  seen_key_ : bool;
  overlapped_bytes_ : Z;
  level_ptrs_ : list Z;
}.

Definition set_inputs (version : option VersionPtr) (edit : VersionEdit) (i0 i1 grandparents : list FilePtr) (c : Compaction) : Compaction :=
  MkCompaction (level_ c) (max_output_file_size_ c) version edit i0 i1 grandparents (grandparent_index_ c) (seen_key_ c) (overlapped_bytes_ c) (level_ptrs_ c).
Definition set_output (index : Z) (seen : bool) (overlapped : Z) (c : Compaction) : Compaction :=
  MkCompaction (level_ c) (max_output_file_size_ c) (input_version_ c) (edit_ c) (inputs0 c) (inputs1 c) (grandparents_ c) index seen overlapped (level_ptrs_ c).
Definition set_level_ptrs (l : list Z) (c : Compaction) : Compaction :=
  MkCompaction (level_ c) (max_output_file_size_ c) (input_version_ c) (edit_ c) (inputs0 c) (inputs1 c) (grandparents_ c) (grandparent_index_ c) (seen_key_ c) (overlapped_bytes_ c) l.

Definition MaxFileSizeForLevel (max_file_size level : Z) : Z := max_file_size.

Definition new_Compaction (max_file_size level : Z) : Compaction :=
  MkCompaction level (MaxFileSizeForLevel max_file_size level) None new_VersionEdit [] [] [] 0 false 0 (replicate (Z.to_nat kNumLevels) 0).

Section compaction.
Variables (uc : Comparator) (max_file_size : Z).
Abbreviation icmp := (InternalKeyComparator uc).

(** ** Ranges and boundary files *)
Fixpoint get_range (h : files_heap) (inputs : list FilePtr) (smallest_key largest_key : InternalKey) : res (InternalKey * InternalKey) :=
  match inputs with
  | [] => Ret (smallest_key, largest_key)
  | p :: inputs =>
      let! f := file_at h p in
      let! z := Compare_keys uc (smallest f) smallest_key in
      let s := if z <? 0 then smallest f else smallest_key in
      let! z := Compare_keys uc (largest f) largest_key in
      let l := if 0 <? z then largest f else largest_key in
      get_range h inputs s l
  end.

Definition GetRange (h : files_heap) (inputs : list FilePtr) : res (InternalKey * InternalKey) :=
  match inputs with
  | [] => UB
  | p :: inputs => let! f := file_at h p in get_range h inputs (smallest f) (largest f)
  end.

Definition GetRange2 (h : files_heap) (inputs1 inputs2 : list FilePtr) : res (InternalKey * InternalKey) := GetRange h (inputs1 ++ inputs2).

Fixpoint find_largest_key (h : files_heap) (files : list FilePtr) (largest_key : InternalKey) : res InternalKey :=
  match files with
  | [] => Ret largest_key
  | p :: files =>
      let! f := file_at h p in
      let! z := Compare_keys uc (largest f) largest_key in
      find_largest_key h files (if 0 <? z then largest f else largest_key)
  end.

(** [None] when there are no files. *)
Definition FindLargestKey (h : files_heap) (files : list FilePtr) : res (option InternalKey) :=
  match files with
  | [] => Ret None
  | p :: files => let! f := file_at h p in let! k := find_largest_key h files (largest f) in Ret (Some k)
  end.

Fixpoint find_boundary (h : files_heap) (level_files : list FilePtr) (largest_key : InternalKey) (smallest_boundary_file : option FilePtr) : res (option FilePtr) :=
  match level_files with
  | [] => Ret smallest_boundary_file
  | p :: level_files =>
      let! f := file_at h p in
      let! z := Compare_keys uc (smallest f) largest_key in
      let! boundary :=
        (if 0 <? z then
           let! a := InternalKey_user_key (smallest f) in
           let! b := InternalKey_user_key largest_key in
           let! z := Compare uc a b in
           Ret (z =? 0)
         else Ret false) in
      if boundary : bool then
        let! smaller :=
          match smallest_boundary_file with
          | None => Ret true
          | Some q => let! g := file_at h q in let! z := Compare_keys uc (smallest f) (smallest g) in Ret (z <? 0)
          end in
        find_boundary h level_files largest_key (if smaller : bool then Some p else smallest_boundary_file)
      else find_boundary h level_files largest_key smallest_boundary_file
  end.

Definition FindSmallestBoundaryFile (h : files_heap) (level_files : list FilePtr) (largest_key : InternalKey) : res (option FilePtr) :=
  find_boundary h level_files largest_key None.

(** [largest_key] and [*compaction_files]. *)
Definition boundary_body (h : files_heap) (level_files : list FilePtr) (st : InternalKey * list FilePtr) : res ((InternalKey * list FilePtr) + list FilePtr) :=
  let '(largest_key, compaction_files) := st in
  let! o := FindSmallestBoundaryFile h level_files largest_key in
  match o with
  | Some p => let! f := file_at h p in Ret (inl (largest f, compaction_files ++ [p]))
  | None => Ret (inr compaction_files)
  end.

Definition AddBoundaryInputs (h : files_heap) (level_files compaction_files : list FilePtr) : res (list FilePtr) :=
  let! o := FindLargestKey h compaction_files in
  match o with
  | None => Ret compaction_files
  | Some largest_key => while (boundary_body h level_files) (largest_key, compaction_files)
  end.

(** ** The inputs *)

(** The inputs after an attempt to have more of them, and their range: the
    arguments are the inputs, [largest] and [all_start], [all_limit]. *)
Definition expand_inputs (h : files_heap) (current : Version) (level : Z) (i0 i1 : list FilePtr) (largest_key all_start all_limit : InternalKey)
  : res (list FilePtr * list FilePtr * InternalKey * InternalKey * InternalKey) :=
  let same := (i0, i1, largest_key, all_start, all_limit) in
  match i1 with
  | [] => Ret same
  | _ =>
      let! expanded0 := GetOverlappingInputs uc h current level (Some all_start) (Some all_limit) in
      let! files := level_files current level in
      let! expanded0 := AddBoundaryInputs h files expanded0 in
      let! inputs0_size := TotalFileSize h i0 in
      let! inputs1_size := TotalFileSize h i1 in
      let! expanded0_size := TotalFileSize h expanded0 in
      if zlength i0 <? zlength expanded0 then
        let! _ := assert_ ((- 2 ^ 63 <=? inputs1_size + expanded0_size) && (inputs1_size + expanded0_size <? 2 ^ 63)) in
        if inputs1_size + expanded0_size <? ExpandedCompactionByteSizeLimit max_file_size then
          let! '(new_start, new_limit) := GetRange h expanded0 in
          let! expanded1 := GetOverlappingInputs uc h current (level + 1) (Some new_start) (Some new_limit) in
          if zlength expanded1 =? zlength i1 then
            let! '(all_start, all_limit) := GetRange2 h expanded0 expanded1 in
            Ret (expanded0, expanded1, new_limit, all_start, all_limit)
          else Ret same
        else Ret same
      else Ret same
  end.

Definition SetupOtherInputs (c : Compaction) (s : VersionSet) : res (Compaction * VersionSet) :=
  let h := vs_files s in
  let level := level_ c in
  let! current := current_version s in
  let! files := level_files current level in
  let! i0 := AddBoundaryInputs h files (inputs0 c) in
  let! '(smallest_key, largest_key) := GetRange h i0 in
  let! i1 := GetOverlappingInputs uc h current (level + 1) (Some smallest_key) (Some largest_key) in
  let! '(all_start, all_limit) := GetRange2 h i0 i1 in
  let! '(i0, i1, largest_key, all_start, all_limit) := expand_inputs h current level i0 i1 largest_key all_start all_limit in
  let! grandparents :=
    (if level + 2 <? kNumLevels then GetOverlappingInputs uc h current (level + 2) (Some all_start) (Some all_limit)
     else Ret (grandparents_ c)) in
  let! k := InternalKey_Encode largest_key in
  let! pointers := write_at (vs_compact_pointer s) level k in
  Ret (set_inputs (input_version_ c) (SetCompactPointer level largest_key (edit_ c)) i0 i1 grandparents c, set_vs_compact_pointer pointers s).

(** The first file after the compaction pointer. *)
Fixpoint file_after (h : files_heap) (pointer : bytes) (files : list FilePtr) : res (option FilePtr) :=
  match files with
  | [] => Ret None
  | p :: files =>
      if empty_slice pointer then Ret (Some p)
      else
        let! f := file_at h p in
        let! k := InternalKey_Encode (largest f) in
        let! z := Compare icmp k pointer in
        if 0 <? z then Ret (Some p) else file_after h pointer files
  end.

(** The level and the first input, if there is something to do. *)
Definition pick_input (s : VersionSet) (current : Version) : res (option (Z * FilePtr)) :=
  if SFleb (double_of 1) (compaction_score_ current) then
    let level := compaction_level_ current in
    let! _ := assert_ (0 <=? level) in
    let! _ := assert_ (level + 1 <? kNumLevels) in
    let! files := level_files current level in
    let! pointer := read_at (vs_compact_pointer s) level in
    let! o := file_after (vs_files s) pointer files in
    match o with
    | Some p => Ret (Some (level, p))
    | None => let! p := of_option (files !! 0%nat) in Ret (Some (level, p))
    end
  else
    match file_to_compact_ current with
    | Some p => Ret (Some (file_to_compact_level_ current, p))
    | None => Ret None
    end.

Definition PickCompaction (s : VersionSet) : res (option Compaction * VersionSet) :=
  let! current := current_version s in
  let! o := pick_input s current in
  match o with
  | None => Ret (None, s)
  | Some (level, p) =>
      let c := new_Compaction max_file_size level in
      let! v := of_option (vs_current s) in
      let! s := Version_Ref v s in
      let! i0 :=
        (if level =? 0 then
           let! '(smallest_key, largest_key) := GetRange (vs_files s) [p] in
           let! i0 := GetOverlappingInputs uc (vs_files s) current 0 (Some smallest_key) (Some largest_key) in
           let! _ := assert_ (negb (zlength i0 =? 0)) in
           Ret i0
         else Ret [p]) in
      let! '(c, s) := SetupOtherInputs (set_inputs (Some v) (edit_ c) i0 (inputs1 c) (grandparents_ c) c) s in
      Ret (Some c, s)
  end.

(** [inputs.resize(i + 1)] when the sizes reach the limit. *)
Fixpoint limit_inputs (h : files_heap) (limit total : Z) (inputs : list FilePtr) : res (list FilePtr) :=
  match inputs with
  | [] => Ret []
  | p :: inputs =>
      let! f := file_at h p in
      let total := u64 (total + file_size f) in
      if limit <=? total then Ret [p] else let! rest := limit_inputs h limit total inputs in Ret (p :: rest)
  end.

Definition CompactRange (level : Z) (begin end_ : option InternalKey) (s : VersionSet) : res (option Compaction * VersionSet) :=
  let! current := current_version s in
  let! inputs := GetOverlappingInputs uc (vs_files s) current level begin end_ in
  match inputs with
  | [] => Ret (None, s)
  | _ =>
      let! inputs := (if 0 <? level then limit_inputs (vs_files s) (MaxFileSizeForLevel max_file_size level) 0 inputs else Ret inputs) in
      let c := new_Compaction max_file_size level in
      let! v := of_option (vs_current s) in
      let! s := Version_Ref v s in
      let! '(c, s) := SetupOtherInputs (set_inputs (Some v) (edit_ c) inputs (inputs1 c) (grandparents_ c) c) s in
      Ret (Some c, s)
  end.

(** ** The compaction at work *)

(** [~Compaction] and [ReleaseInputs]. *)
Definition delete_Compaction (c : Compaction) (s : VersionSet) : res VersionSet :=
  match input_version_ c with Some v => Version_Unref v s | None => Ret s end.

Definition ReleaseInputs (c : Compaction) (s : VersionSet) : res (Compaction * VersionSet) :=
  match input_version_ c with
  | Some v => let! s := Version_Unref v s in Ret (set_inputs None (edit_ c) (inputs0 c) (inputs1 c) (grandparents_ c) c, s)
  | None => Ret (c, s)
  end.

Definition IsTrivialMove (h : files_heap) (c : Compaction) : res bool :=
  if (zlength (inputs0 c) =? 1) && (zlength (inputs1 c) =? 0) then
    let! n := TotalFileSize h (grandparents_ c) in
    Ret (n <=? MaxGrandParentOverlapBytes max_file_size)
  else Ret false.

Fixpoint delete_inputs (h : files_heap) (level : Z) (inputs : list FilePtr) (edit : VersionEdit) : res VersionEdit :=
  match inputs with
  | [] => Ret edit
  | p :: inputs => let! f := file_at h p in delete_inputs h level inputs (DeleteFile level (number f) edit)
  end.

Definition AddInputDeletions (h : files_heap) (c : Compaction) (edit : VersionEdit) : res VersionEdit :=
  let! edit := delete_inputs h (level_ c) (inputs0 c) edit in
  delete_inputs h (level_ c + 1) (inputs1 c) edit.

(** The loop over the files of a level from [ptr] on: whether the key is in a
    file, and [level_ptrs_[lvl]]. *)
Definition base_level_body (h : files_heap) (files : list FilePtr) (user_key : bytes) (ptr : Z) : res (Z + (bool * Z)) :=
  if ptr <? zlength files then
    let! p := of_option (files !! Z.to_nat ptr) in
    let! f := file_at h p in
    let! l := InternalKey_user_key (largest f) in
    let! z := Compare uc user_key l in
    if z <=? 0 then
      let! k := InternalKey_user_key (smallest f) in
      let! z := Compare uc user_key k in
      Ret (inr (0 <=? z, ptr))
    else Ret (inl (u64 (ptr + 1)))
  else Ret (inr (false, ptr)).

(** The levels from [lvl] on. *)
Fixpoint base_levels (h : files_heap) (user_key : bytes) (levels : list (list FilePtr)) (lvl : Z) (ptrs : list Z) : res (bool * list Z) :=
  match levels with
  | [] => Ret (true, ptrs)
  | files :: levels =>
      let! ptr := read_at ptrs lvl in
      let! '(inside, ptr) := while (base_level_body h files user_key) ptr in
      let! ptrs := write_at ptrs lvl ptr in
      if inside : bool then Ret (false, ptrs) else base_levels h user_key levels (lvl + 1) ptrs
  end.

(** [v] is the input version. *)
Definition IsBaseLevelForKey (h : files_heap) (v : Version) (user_key : bytes) (c : Compaction) : res (bool * Compaction) :=
  let! '(r, ptrs) := base_levels h user_key (zdrop (level_ c + 2) (files_ v)) (level_ c + 2) (level_ptrs_ c) in
  Ret (r, set_level_ptrs ptrs c).

Definition stop_before_body (h : files_heap) (internal_key : bytes) (c : Compaction) : res (Compaction + Compaction) :=
  if grandparent_index_ c <? zlength (grandparents_ c) then
    let! p := of_option (grandparents_ c !! Z.to_nat (grandparent_index_ c)) in
    let! f := file_at h p in
    let! k := InternalKey_Encode (largest f) in
    let! z := Compare icmp internal_key k in
    if 0 <? z then
      let overlapped := if seen_key_ c then s64 (u64 (overlapped_bytes_ c) + file_size f) else overlapped_bytes_ c in
      Ret (inl (set_output (u64 (grandparent_index_ c + 1)) (seen_key_ c) overlapped c))
    else Ret (inr c)
  else Ret (inr c).

Definition ShouldStopBefore (h : files_heap) (internal_key : bytes) (c : Compaction) : res (bool * Compaction) :=
  let! c := while (stop_before_body h internal_key) c in
  Ret (if MaxGrandParentOverlapBytes max_file_size <? overlapped_bytes_ c then (true, set_output (grandparent_index_ c) true 0 c)
       else (false, set_output (grandparent_index_ c) true (overlapped_bytes_ c) c)).

(** ** What the version set tells of its levels *)
Definition NumLevelFiles (level : Z) (s : VersionSet) : res Z :=
  let! _ := assert_ (0 <=? level) in
  let! _ := assert_ (level <? kNumLevels) in
  let! v := current_version s in
  let! files := level_files v level in
  Ret (s32 (zlength files)).

Definition NumLevelBytes (level : Z) (s : VersionSet) : res Z :=
  let! _ := assert_ (0 <=? level) in
  let! _ := assert_ (level <? kNumLevels) in
  let! v := current_version s in
  let! files := level_files v level in
  TotalFileSize (vs_files s) files.

Fixpoint numbers_of (h : files_heap) (files : list FilePtr) (live : gset Z) : res (gset Z) :=
  match files with
  | [] => Ret live
  | p :: files => let! f := file_at h p in numbers_of h files ({[number f]} ∪ live)
  end.

Fixpoint live_files (s : VersionSet) (versions : list VersionPtr) (live : gset Z) : res (gset Z) :=
  match versions with
  | [] => Ret live
  | p :: versions =>
      let! v := version_at s p in
      let! live := numbers_of (vs_files s) (concat (files_ v)) live in
      live_files s versions live
  end.

Definition AddLiveFiles (s : VersionSet) (live : gset Z) : res (gset Z) := live_files s (vs_list s) live.

Fixpoint max_overlap (h : files_heap) (v : Version) (level : Z) (files : list FilePtr) (result : Z) : res Z :=
  match files with
  | [] => Ret result
  | p :: files =>
      let! f := file_at h p in
      let! overlaps := GetOverlappingInputs uc h v (level + 1) (Some (smallest f)) (Some (largest f)) in
      let! sum := TotalFileSize h overlaps in
      max_overlap h v level files (if result <? sum then sum else result)
  end.

Fixpoint max_overlaps (h : files_heap) (v : Version) (level : Z) (n : nat) (result : Z) : res Z :=
  match n with
  | O => Ret result
  | S n =>
      let! files := level_files v level in
      let! result := max_overlap h v level files result in
      max_overlaps h v (level + 1) n result
  end.

Definition MaxNextLevelOverlappingBytes (s : VersionSet) : res Z :=
  let! v := current_version s in
  max_overlaps (vs_files s) v 1 (Z.to_nat (kNumLevels - 2)) 0.
End compaction.

(** ** The order of user keys, decided *)
Section facts.
Context (uc : Comparator) (valid : bytes -> Prop) `{!ComparatorOk uc valid} (h : files_heap).
Abbreviation ult := (key_lt uc valid).
Abbreviation icmp := (InternalKeyComparator uc).
Abbreviation ival := (ivalid valid).
Abbreviation ilt := (key_lt icmp ival).

Definition user_of (k : InternalKey) : bytes := take (length k - 8) k.
Definition user_before (a b : bytes) : bool := match Compare uc a b with Ret z => z <? 0 | _ => false end.

Lemma user_of_ok k : ival k -> InternalKey_user_key k = Ret (user_of k) /\ valid (user_of k).
Proof.
  intros (u & n & -> & Hu & _). assert (user_of (u ++ EncodeFixed64 n) = u) as ->.
  { unfold user_of. pose proof (zlength_fixed64 n) as H8. unfold zlength in H8. rewrite length_app. replace (length u + length (EncodeFixed64 n) - 8)%nat with (length u) by lia. apply take_app_length. }
  split; [|done]. apply ExtractUserKey_app, zlength_fixed64.
Qed.

Lemma user_before_spec a b : valid a -> valid b -> user_before a b = true <-> ult a b.
Proof. intros Ha Hb. unfold user_before. destruct (Compare_tests uc valid a b Ha Hb) as (z & -> & Hz). apply Hz. Qed.

Lemma user_compare a b : valid a -> valid b -> exists z, Compare uc a b = Ret z /\ (z <? 0) = user_before a b /\ (0 <? z) = user_before b a.
Proof.
  intros Ha Hb. destruct (Compare_tests uc valid a b Ha Hb) as (z & E & Hz). exists z. split; [done|]. split; apply eq_true_iff_eq; rewrite user_before_spec by done; apply Hz.
Qed.

Lemma user_before_trans a b c : valid a -> valid b -> valid c -> user_before a b = true -> user_before c b = false -> user_before a c = true.
Proof.
  intros Ha Hb Hc Hab Hcb. apply user_before_spec in Hab; [|done..]. apply user_before_spec; [done..|].
  destruct (entry_eq_dec_lt uc valid b c Hb Hc) as [Hbc|[<-|Hbc]]; [by transitivity b|done|]. apply user_before_spec in Hbc; [congruence|done..].
Qed.

Lemma user_before_irrefl a : valid a -> user_before a a = false.
Proof. intros Ha. apply not_true_iff_false. rewrite user_before_spec by done. apply key_lt_irrefl. Qed.

(** ** Files that overlap a range of user keys *)
Implicit Types (b e x y : option bytes) (p : FilePtr).
Definition start_of p : bytes := user_of (smallest (file_in h p)).
Definition limit_of p : bytes := user_of (largest (file_in h p)).

(** [user_before], where no bound is beyond every key. *)
Definition under (k : bytes) b : bool := match b with Some u => user_before k u | None => false end.
Definition over b (k : bytes) : bool := match b with Some u => user_before u k | None => false end.

Definition overlaps b e p : Prop := under (limit_of p) b = false /\ over e (start_of p) = false.
Definition within b e p : Prop := under (start_of p) b = false /\ over e (limit_of p) = false.

#[global] Instance overlaps_dec b e p : Decision (overlaps b e p) := _.

Definition bound_ok b : Prop := match b with Some u => valid u | None => True end.
Definition file_here p : Prop := p ∈ dom h /\ file_ok uc valid (file_in h p).

(** A range that has every file it overlaps inside it. *)
Definition closed (files : list FilePtr) b e : Prop := Forall (fun p => overlaps b e p -> within b e p) files.

(** [x], [y] is at least as wide as [b], [e]. *)
Definition covers x y b e : Prop :=
  match b, x with Some u, Some v => user_before u v = false | None, None => True | _, _ => False end /\
  match e, y with Some u, Some v => user_before v u = false | None, None => True | _, _ => False end.

(** The least closed range around a range. *)
Record least_closed (files : list FilePtr) b0 e0 b e : Prop := {
  lc_bounds : bound_ok b /\ bound_ok e;
  lc_covers : covers b e b0 e0;
  lc_closed : closed files b e;
  lc_least : forall x y, bound_ok x -> bound_ok y -> covers x y b0 e0 -> closed files x y -> covers x y b e;
}.

Lemma file_here_keys p : file_here p -> exists f, file_at h p = Ret f /\ InternalKey_user_key (smallest f) = Ret (start_of p) /\ InternalKey_user_key (largest f) = Ret (limit_of p) /\ valid (start_of p) /\ valid (limit_of p).
Proof.
  intros [Hp [Hs Hl _]]. exists (file_in h p). rewrite dom_file_at by done. destruct (user_of_ok _ Hs) as [? ?]. destruct (user_of_ok _ Hl) as [? ?]. by split_and!.
Qed.

Lemma compare_bound_under k b : valid k -> bound_ok b -> compare_bound uc (fun z => z <? 0) k b = Ret (under k b).
Proof. intros Hk Hb. destruct b as [u|]; [|done]. cbn. destruct (user_compare k u Hk Hb) as (z & -> & E & _). by rewrite res_bind_ret, E. Qed.

Lemma compare_bound_over k b : valid k -> bound_ok b -> compare_bound uc (fun z => 0 <? z) k b = Ret (over b k).
Proof. intros Hk Hb. destruct b as [u|]; [|done]. cbn. destruct (user_compare k u Hk Hb) as (z & -> & _ & E). by rewrite res_bind_ret, E. Qed.

(** How many keys are outside the range. *)
Definition outside b e (files : list FilePtr) : Z :=
  zlength (filter (fun p => under (start_of p) b = true) files) + zlength (filter (fun p => over e (limit_of p) = true) files).

Lemma filter_fewer (P Q : FilePtr -> Prop) `{!forall p, Decision (P p)} `{!forall p, Decision (Q p)} (files : list FilePtr) p :
  p ∈ files -> P p -> ~ Q p -> (forall q, q ∈ files -> Q q -> P q) -> zlength (filter Q files) < zlength (filter P files).
Proof.
  intros Hp HP HQ Himp. induction files as [|q files IH]; [set_solver|]. assert (zlength (filter Q files) <= zlength (filter P files)) as Hle.
  { clear -Himp. induction files as [|r files IH]; [done|]. rewrite !filter_cons. specialize (IH ltac:(intros s Hs; apply Himp; set_solver)).
    destruct (decide (Q r)) as [HQr|?]; [rewrite decide_True by (apply Himp; [set_solver|done]); rewrite !zlength_cons; lia|]. destruct (decide (P r)); rewrite ?zlength_cons; lia. }
  rewrite !filter_cons. apply elem_of_cons in Hp as [->|Hp].
  - destruct (decide (Q q)); [done|]. destruct (decide (P q)); [|done]. rewrite zlength_cons. lia.
  - specialize (IH Hp ltac:(intros s Hs; apply Himp; set_solver)). destruct (decide (Q q)) as [HQq|?]; [rewrite decide_True by (apply Himp; [set_solver|done]); rewrite !zlength_cons; lia|].
    destruct (decide (P q)); rewrite ?zlength_cons; lia.
Qed.

Lemma user_before_lt (a b c : bytes) : valid a -> valid b -> valid c -> user_before a b = true -> user_before b c = true -> user_before a c = true.
Proof. intros Ha Hb Hc. rewrite !user_before_spec by done. intros ? ?. by transitivity b. Qed.

Lemma user_before_le (a b c : bytes) : valid a -> valid b -> valid c -> user_before b a = false -> user_before b c = true -> user_before a c = true.
Proof.
  intros Ha Hb Hc Hba Hbc. apply user_before_spec in Hbc; [|done..]. apply user_before_spec; [done..|].
  destruct (entry_eq_dec_lt uc valid a b Ha Hb) as [Hab|[->|Hab]]; [by transitivity b|done|]. apply user_before_spec in Hab; [congruence|done..].
Qed.

Lemma user_before_asym (a b : bytes) : valid a -> valid b -> user_before a b = true -> user_before b a = false.
Proof. intros Ha Hb Hab. apply not_true_iff_false. intros Hba. pose proof (user_before_lt a b a Ha Hb Ha Hab Hba). by rewrite user_before_irrefl in *. Qed.

Lemma covers_refl b e : bound_ok b -> bound_ok e -> covers b e b e.
Proof. intros Hb He. split; [destruct b|destruct e]; try done; by apply user_before_irrefl. Qed.

Lemma overlaps_wider x y b e p : file_here p -> bound_ok x -> bound_ok y -> bound_ok b -> bound_ok e -> covers x y b e -> overlaps b e p -> overlaps x y p.
Proof.
  intros Hp Hx Hy Hb He [C1 C2] [O1 O2]. destruct (file_here_keys p Hp) as (_ & _ & _ & _ & Vs & Vl). split.
  - destruct x as [v|]; [|done]. destruct b as [u|]; [|done]. cbn in *. apply not_true_iff_false. intros Hlt. apply not_true_iff_false in O1. apply O1. by apply (user_before_trans _ v).
  - destruct y as [w|]; [|done]. destruct e as [z|]; [|done]. cbn in *. apply not_true_iff_false. intros Hlt. apply not_true_iff_false in O2. apply O2. by apply (user_before_le z w).
Qed.

Lemma covers_begin x y b e p : file_here p -> bound_ok x -> bound_ok b -> under (start_of p) b = true -> covers x y b e -> within x y p -> covers x y (Some (start_of p)) e.
Proof. intros Hp Hx Hb Hu [C1 C2] [W1 W2]. destruct b as [u|]; [|done]. destruct x as [v|]; [|done]. by split. Qed.

Lemma covers_end x y b e p : file_here p -> bound_ok y -> bound_ok e -> over e (limit_of p) = true -> covers x y b e -> within x y p -> covers x y b (Some (limit_of p)).
Proof. intros Hp Hy He Ho [C1 C2] [W1 W2]. destruct e as [z|]; [|done]. destruct y as [w|]; [|done]. by split. Qed.

Lemma covers_more_begin b e b0 e0 p : file_here p -> bound_ok b -> bound_ok b0 -> under (start_of p) b = true -> covers b e b0 e0 -> covers (Some (start_of p)) e b0 e0.
Proof.
  intros Hp Hb Hb0 Hu [C1 C2]. destruct (file_here_keys p Hp) as (_ & _ & _ & _ & Vs & _). split; [|done]. destruct b as [u|]; [|done]. destruct b0 as [u0|]; [|done]. cbn in *.
  apply not_true_iff_false. intros Hlt. apply not_true_iff_false in C1. apply C1. by apply (user_before_lt u0 (start_of p)).
Qed.

Lemma covers_more_end b e b0 e0 p : file_here p -> bound_ok e -> bound_ok e0 -> over e (limit_of p) = true -> covers b e b0 e0 -> covers b (Some (limit_of p)) b0 e0.
Proof.
  intros Hp He He0 Ho [C1 C2]. destruct (file_here_keys p Hp) as (_ & _ & _ & _ & _ & Vl). split; [done|]. destruct e as [z|]; [|done]. destruct e0 as [z0|]; [|done]. cbn in *.
  apply not_true_iff_false. intros Hlt. apply not_true_iff_false in C2. apply C2. by apply (user_before_lt z (limit_of p)).
Qed.

(** Restarting leaves fewer keys outside. *)
Lemma outside_begin files b e p : Forall file_here files -> p ∈ files -> bound_ok b -> under (start_of p) b = true -> outside (Some (start_of p)) e files < outside b e files.
Proof.
  intros Hf Hp Hb Hu. pose proof (Forall_elem _ _ p Hf Hp) as Hh. destruct (file_here_keys p Hh) as (_ & _ & _ & _ & Vs & _). unfold outside.
  assert (zlength (filter (fun q => under (start_of q) (Some (start_of p)) = true) files) < zlength (filter (fun q => under (start_of q) b = true) files)); [|lia].
  apply (filter_fewer _ _ files p Hp Hu); [cbn; rewrite user_before_irrefl by done; done|]. intros q Hq Huq. destruct b as [u|]; [|done]. cbn in *.
  destruct (file_here_keys q (Forall_elem _ _ q Hf Hq)) as (_ & _ & _ & _ & Vq & _). by apply (user_before_lt _ (start_of p)).
Qed.

Lemma outside_end files b e p : Forall file_here files -> p ∈ files -> bound_ok e -> over e (limit_of p) = true -> outside b (Some (limit_of p)) files < outside b e files.
Proof.
  intros Hf Hp He Ho. pose proof (Forall_elem _ _ p Hf Hp) as Hh. destruct (file_here_keys p Hh) as (_ & _ & _ & _ & _ & Vl). unfold outside.
  assert (zlength (filter (fun q => over (Some (limit_of p)) (limit_of q) = true) files) < zlength (filter (fun q => over e (limit_of q) = true) files)); [|lia].
  apply (filter_fewer _ _ files p Hp Ho); [cbn; rewrite user_before_irrefl by done; done|]. intros q Hq Hoq. destruct e as [z|]; [|done]. cbn in *.
  destruct (file_here_keys q (Forall_elem _ _ q Hf Hq)) as (_ & _ & _ & _ & _ & Vq). by apply (user_before_lt _ (limit_of p)).
Qed.

(** ** GetOverlappingInputs *)
Section overlapping.
Variables (level : Z) (files : list FilePtr) (b0 e0 : option bytes).
Hypotheses (Hfiles : Forall file_here files) (Hb0 : bound_ok b0) (He0 : bound_ok e0) (Hlen : zlength files < 2 ^ 30).

Record overlap_inv (st : overlap_state) : Prop := {
  oi_index : (ov_index st <= length files)%nat;
  oi_begin : bound_ok (ov_begin st);
  oi_end : bound_ok (ov_end st);
  oi_covers : covers (ov_begin st) (ov_end st) b0 e0;
  oi_least : forall x y, bound_ok x -> bound_ok y -> covers x y b0 e0 -> closed files x y -> covers x y (ov_begin st) (ov_end st);
  oi_inputs : ov_inputs st = filter (overlaps (ov_begin st) (ov_end st)) (take (ov_index st) files);
  oi_closed : level = 0 -> Forall (fun p => overlaps (ov_begin st) (ov_end st) p -> within (ov_begin st) (ov_end st) p) (take (ov_index st) files);
  oi_same : level <> 0 -> ov_begin st = b0 /\ ov_end st = e0;
}.

Definition overlap_measure (st : overlap_state) : Z :=
  outside (ov_begin st) (ov_end st) files * (zlength files + 1) + (zlength files - Z.of_nat (ov_index st)).

Lemma outside_nonneg b e : 0 <= outside b e files.
Proof. unfold outside. pose proof (zlength_nonneg (filter (fun p => under (start_of p) b = true) files)). pose proof (zlength_nonneg (filter (fun p => over e (limit_of p) = true) files)). lia. Qed.

Lemma overlap_advance st p inputs : overlap_inv st -> files !! ov_index st = Some p -> inputs = ov_inputs st ++ filter (overlaps (ov_begin st) (ov_end st)) [p] ->
  (level = 0 -> overlaps (ov_begin st) (ov_end st) p -> within (ov_begin st) (ov_end st) p) ->
  let st' := MkOverlap (S (ov_index st)) (ov_begin st) (ov_end st) inputs in overlap_inv st' /\ 0 <= overlap_measure st' < overlap_measure st.
Proof.
  intros [Hi Hb He Hc Hleast Hin Hcl Hsame] Ep -> Hw. pose proof (lookup_lt_Some _ _ _ Ep) as Hlt. cbn. split.
  - split; cbn [ov_index ov_begin ov_end ov_inputs]; try done.
    + by rewrite Hin, (take_S_r _ _ _ Ep), list.filter_app.
    + intros H0. rewrite (take_S_r _ _ _ Ep). apply Forall_app_2; [by apply Hcl|]. constructor; [by apply Hw|constructor].
  - unfold overlap_measure. cbn [ov_index ov_begin ov_end]. pose proof (outside_nonneg (ov_begin st) (ov_end st)). unfold zlength in *. nia.
Qed.

Lemma overlap_restart st b e : overlap_inv st -> level = 0 -> bound_ok b -> bound_ok e -> covers b e b0 e0 ->
  (forall x y, bound_ok x -> bound_ok y -> covers x y b0 e0 -> closed files x y -> covers x y b e) -> outside b e files < outside (ov_begin st) (ov_end st) files ->
  let st' := MkOverlap 0 b e [] in overlap_inv st' /\ 0 <= overlap_measure st' < overlap_measure st.
Proof.
  intros Hinv H0 Hb He Hc Hl Hout. cbn. split; [split; cbn [ov_index ov_begin ov_end ov_inputs]; try done; lia|].
  pose proof (oi_index st Hinv) as Hi. unfold overlap_measure. cbn [ov_index ov_begin ov_end]. pose proof (outside_nonneg b e). unfold zlength in *. nia.
Qed.

Definition overlapping (ps : list FilePtr) : Prop :=
  (0 < level -> ps = filter (overlaps b0 e0) files) /\ (level = 0 -> exists b e, least_closed files b0 e0 b e /\ ps = filter (overlaps b e) files).

Lemma overlapping_step st : 0 <= level -> overlap_inv st ->
  match overlapping_body uc h level files st with
  | Ret (inl st') => overlap_inv st' /\ 0 <= overlap_measure st' < overlap_measure st
  | Ret (inr ps) => overlapping ps
  | _ => False
  end.
Proof.
  intros Hlev Hinv. pose proof Hinv as [Hi Hb He Hc Hleast Hin Hcl Hsame]. unfold overlapping_body. destruct (files !! ov_index st) as [p|] eqn:Ep.
  - pose proof (list_elem_of_lookup_2 _ _ _ Ep) as Hpin. pose proof (Forall_elem _ _ p Hfiles Hpin) as Hp. destruct (file_here_keys p Hp) as (f & -> & Es & El & Vs & Vl). rewrite res_bind_ret, Es, El, !res_bind_ret, compare_bound_under, res_bind_ret by done.
    assert (under (limit_of p) (ov_begin st) = true \/ over (ov_end st) (start_of p) = true -> overlap_inv (MkOverlap (S (ov_index st)) (ov_begin st) (ov_end st) (ov_inputs st)) /\
      0 <= overlap_measure (MkOverlap (S (ov_index st)) (ov_begin st) (ov_end st) (ov_inputs st)) < overlap_measure st) as Hskip.
    { intros Ho. assert (~ overlaps (ov_begin st) (ov_end st) p) as Hno by (intros [? ?]; destruct Ho; congruence). apply (overlap_advance st p); [done|done|by rewrite filter_cons_False, app_nil_r by done|done]. }
    destruct (under (limit_of p) (ov_begin st)) eqn:E1; [rewrite res_bind_ret; apply Hskip; by left|]. rewrite compare_bound_over, res_bind_ret by done.
    destruct (over (ov_end st) (start_of p)) eqn:E2; [apply Hskip; by right|]. assert (overlaps (ov_begin st) (ov_end st) p) as Ho by done.
    destruct (Z.eqb_spec level 0) as [H0|H0].
    + assert (forall x y, bound_ok x -> bound_ok y -> covers x y b0 e0 -> closed files x y -> covers x y (ov_begin st) (ov_end st) /\ within x y p) as Hin'.
      { intros x y Hx Hy Hxy Hclosed. split; [by apply Hleast|]. apply (Forall_elem _ _ p Hclosed Hpin), (overlaps_wider x y (ov_begin st) (ov_end st) p); try done. by apply Hleast. }
      rewrite compare_bound_under, res_bind_ret by done. destruct (under (start_of p) (ov_begin st)) eqn:E3.
      * apply overlap_restart; try done; [by apply (covers_more_begin (ov_begin st))| |by apply outside_begin].
        intros x y Hx Hy Hxy Hclosed. destruct (Hin' x y Hx Hy Hxy Hclosed). by apply (covers_begin x y (ov_begin st)).
      * rewrite compare_bound_over, res_bind_ret by done. destruct (over (ov_end st) (limit_of p)) eqn:E4.
        -- apply overlap_restart; try done; [by apply (covers_more_end _ (ov_end st))| |by apply outside_end].
           intros x y Hx Hy Hxy Hclosed. destruct (Hin' x y Hx Hy Hxy Hclosed). by apply (covers_end x y _ (ov_end st)).
        -- apply (overlap_advance st p); [done|done|by rewrite filter_cons_True by done|done].
    + apply (overlap_advance st p); [done|done|by rewrite filter_cons_True by done|done].
  - apply lookup_ge_None in Ep. rewrite take_ge in Hin, Hcl by lia. split.
    + intros H0. destruct (Hsame ltac:(lia)) as [E1 E2]. by rewrite Hin, E1, E2.
    + intros H0. exists (ov_begin st), (ov_end st). split; [|done]. split; [done|done|by apply Hcl|done].
Qed.

Lemma overlapping_loop : 0 <= level -> exists ps, while (overlapping_body uc h level files) (MkOverlap 0 b0 e0 []) = Ret ps /\ overlapping ps.
Proof.
  intros Hlev. apply (while_ind (overlapping_body uc h level files) overlap_inv overlap_measure (fun r => exists ps, r = Ret ps /\ overlapping ps)).
  - intros st Hst. pose proof (overlapping_step st Hlev Hst) as Hstep. destruct (overlapping_body uc h level files st) as [[st'|ps]| |]; [done|by exists ps|done|done].
  - split; cbn; try done; [lia|by apply covers_refl].
  - unfold overlap_measure. cbn [ov_index ov_begin ov_end]. pose proof (outside_nonneg b0 e0). pose proof (zlength_nonneg files).
    assert (outside b0 e0 files <= 2 * zlength files); [|nia]. unfold outside, zlength.
    pose proof (length_filter (fun p => under (start_of p) b0 = true) files). pose proof (length_filter (fun p => over e0 (limit_of p) = true) files). lia.
Qed.
End overlapping.

Definition key_ok (k : option InternalKey) : Prop := match k with Some k => ival k | None => True end.

Lemma user_bound_ok k : key_ok k -> user_bound k = Ret (user_of <$> k) /\ bound_ok (user_of <$> k).
Proof. destruct k as [k|]; [|done]. intros Hk. destruct (user_of_ok k Hk) as [E Hv]. cbn. by rewrite E, res_bind_ret. Qed.

Lemma GetOverlappingInputs_ok v level begin end_ files : 0 <= level < kNumLevels -> files_ v !! Z.to_nat level = Some files -> Forall file_here files -> zlength files < 2 ^ 30 ->
  key_ok begin -> key_ok end_ -> exists ps, GetOverlappingInputs uc h v level begin end_ = Ret ps /\ overlapping level files (user_of <$> begin) (user_of <$> end_) ps.
Proof.
  intros [H0 H7] Hv Hf Hlen Hb He. destruct (user_bound_ok begin Hb) as [Eb Vb]. destruct (user_bound_ok end_ He) as [Ee Ve].
  unfold GetOverlappingInputs. rewrite !assert_true, Eb, Ee, !res_bind_ret by lia. unfold level_files.
  assert ((if 0 <=? level then of_option (files_ v !! Z.to_nat level) else UB) = Ret files) as -> by (rewrite Hv; by destruct (Z.leb_spec 0 level); [|lia]). rewrite res_bind_ret. by apply overlapping_loop.
Qed.

(** [GetOverlappingInputs] terminates.  Above level 0 it returns the files of
    the level that overlap the range of user keys, in their order.  At level
    0, where files overlap each other, it returns the files that overlap the
    least range around the given one that has every file it overlaps inside
    it: no file that it leaves out overlaps a file that it returns, and
    nothing more is picked up than this needs. *)
Theorem overlapping_inputs v level begin end_ files : 0 <= level < kNumLevels -> files_ v !! Z.to_nat level = Some files -> Forall file_here files -> zlength files < 2 ^ 30 ->
  key_ok begin -> key_ok end_ ->
  exists ps, GetOverlappingInputs uc h v level begin end_ = Ret ps /\
    (0 < level -> ps = filter (overlaps (user_of <$> begin) (user_of <$> end_)) files) /\
    (level = 0 -> exists b e, least_closed files (user_of <$> begin) (user_of <$> end_) b e /\ ps = filter (overlaps b e) files).
Proof. apply GetOverlappingInputs_ok. Qed.

(** ** AddBoundaryInputs *)

(** A file that starts in the user key in which a key ends. *)
Definition boundary (k : InternalKey) p : Prop := ilt k (smallest (file_in h p)) /\ start_of p = user_of k.

(** [k] is the largest key of the files. *)
Definition largest_of (ps : list FilePtr) (k : InternalKey) : Prop := (exists p, p ∈ ps /\ largest (file_in h p) = k) /\ forall p, p ∈ ps -> ~ ilt k (largest (file_in h p)).

(** Boundary files one after the other, each with the smallest key there is. *)
Inductive boundary_chain (files : list FilePtr) : InternalKey -> list FilePtr -> InternalKey -> Prop :=
| chain_nil k : (forall p, p ∈ files -> ~ boundary k p) -> boundary_chain files k [] k
| chain_cons k p ps k' : p ∈ files -> boundary k p -> (forall q, q ∈ files -> boundary k q -> ~ ilt (smallest (file_in h q)) (smallest (file_in h p))) ->
    boundary_chain files (largest (file_in h p)) ps k' -> boundary_chain files k (p :: ps) k'.

Lemma here_file p : file_here p -> file_at h p = Ret (file_in h p) /\ ival (smallest (file_in h p)) /\ ival (largest (file_in h p)).
Proof. intros [Hp Hf]. split; [by apply dom_file_at|]. split; apply Hf. Qed.

Lemma find_boundary_ok k files cand : ival k -> Forall file_here files -> (forall q, cand = Some q -> file_here q /\ boundary k q) ->
  exists o, find_boundary uc h files k cand = Ret o /\
    match o with
    | None => cand = None /\ forall p, p ∈ files -> ~ boundary k p
    | Some p => (cand = Some p \/ p ∈ files) /\ file_here p /\ boundary k p /\ forall q, q ∈ files \/ cand = Some q -> boundary k q -> ~ ilt (smallest (file_in h q)) (smallest (file_in h p))
    end.
Proof.
  intros Hk Hf. revert cand. induction Hf as [|p files Hp _ IH]; intros cand Hcand.
  - exists cand. split; [done|]. destruct cand as [q|]; [|split; [done|]; intros q Hq; by apply not_elem_of_nil in Hq]. destruct (Hcand q eq_refl) as [? ?]. split; [by left|]. split; [done|]. split; [done|].
    intros r [Hr|[= <-]] _; [by apply not_elem_of_nil in Hr|]. apply key_lt_irrefl.
  - destruct (here_file p Hp) as (Ep & Vs & Vl). cbn [find_boundary]. rewrite Ep, res_bind_ret. destruct (Compare_keys_ok uc valid _ _ Vs Hk) as (z & -> & Hz). rewrite res_bind_ret.
    destruct (user_of_ok _ Vs) as [Eu Vu]. destruct (user_of_ok _ Hk) as [Eku Vku].
    assert (exists b : bool, (if 0 <? z then let! a := InternalKey_user_key (smallest (file_in h p)) in let! b := InternalKey_user_key k in let! z := Compare uc a b in Ret (z =? 0) else Ret false) = Ret b /\ (b = true <-> boundary k p)) as (b & -> & Hb).
    { unfold boundary. destruct (0 <? z) eqn:Ez.
      - rewrite Eu, Eku, !res_bind_ret. destruct (Compare_tests uc valid _ _ Vu Vku) as (z' & -> & Hz'). rewrite res_bind_ret. eexists. split; [done|]. rewrite (cmp_eq _ _ _ _ Hz'). apply (cmp_gt _ _ _ _ Hz) in Ez. tauto.
      - exists false. split; [done|]. split; [done|]. intros [Hlt _]. apply (cmp_gt _ _ _ _ Hz) in Hlt. congruence. }
    rewrite res_bind_ret. destruct b.
    + pose proof (proj1 Hb eq_refl) as Hbp. destruct cand as [q|].
      * destruct (Hcand q eq_refl) as [Hq Hbq]. destruct (here_file q Hq) as (Eq & Vqs & _). rewrite Eq, res_bind_ret. destruct (Compare_keys_ok uc valid _ _ Vs Vqs) as (z' & -> & Hz'). rewrite !res_bind_ret.
        destruct (z' <? 0) eqn:Ez.
        -- apply (cmp_lt _ _ _ _ Hz') in Ez. destruct (IH (Some p)) as (o & -> & Ho); [by intros r [= <-]|]. exists o. split; [done|]. destruct o as [r|]; [|by destruct Ho].
           destruct Ho as (Hr & Hhr & Hbr & Hmin). split; [right; destruct Hr as [[= ->]|?]; set_solver|]. split; [done|]. split; [done|].
           intros s0 [[->|Hs]%elem_of_cons|[= <-]] Hbs; [by apply Hmin; [right|]|by apply Hmin; [left|]|]. intros Hlt. apply (Hmin p); [by right|done|]. by transitivity (smallest (file_in h q)).
        -- destruct (IH (Some q)) as (o & -> & Ho); [by intros r [= <-]|]. exists o. split; [done|]. destruct o as [r|]; [|by destruct Ho].
           destruct Ho as (Hr & Hhr & Hbr & Hmin). split; [destruct Hr as [?|?]; [by left|right; set_solver]|]. split; [done|]. split; [done|].
           intros s0 [[->|Hs]%elem_of_cons|[= <-]] Hbs; [|by apply Hmin; [left|]|by apply Hmin; [right|]]. intros Hlt. apply (Hmin q); [by right|done|].
           assert (~ ilt (smallest (file_in h p)) (smallest (file_in h q))) as Hge by (intros Hlt'; apply (cmp_lt _ _ _ _ Hz') in Hlt'; congruence).
           destruct (here_file r Hhr) as (_ & Vr & _). by apply (ilt_trans_le uc valid _ (smallest (file_in h p))).
      * rewrite res_bind_ret. destruct (IH (Some p)) as (o & -> & Ho); [by intros r [= <-]|]. exists o. split; [done|]. destruct o as [r|]; [|by destruct Ho].
        destruct Ho as (Hr & Hhr & Hbr & Hmin). split; [right; destruct Hr as [[= ->]|?]; set_solver|]. split; [done|]. split; [done|].
        intros s0 [[->|Hs]%elem_of_cons|?] Hbs; [by apply Hmin; [right|]|by apply Hmin; [left|]|done].
    + assert (~ boundary k p) as Hnb by (intros H; by apply Hb in H). destruct (IH cand Hcand) as (o & -> & Ho). exists o. split; [done|]. destruct o as [r|].
      * destruct Ho as (Hr & Hhr & Hbr & Hmin). split; [destruct Hr as [?|?]; [by left|right; set_solver]|]. split; [done|]. split; [done|]. intros s0 [[->|Hs]%elem_of_cons|?] Hbs; [done|by apply Hmin; [left|]|by apply Hmin; [right|]].
      * destruct Ho as [-> Hno]. split; [done|]. by intros q [->|Hq]%elem_of_cons; [|apply Hno].
Qed.

Lemma find_largest_ok files k (ps : list FilePtr) : ival k -> Forall file_here files -> largest_of ps k -> exists k', find_largest_key uc h files k = Ret k' /\ ival k' /\ largest_of (ps ++ files) k'.
Proof.
  intros Hk Hf. revert k ps Hk. induction Hf as [|p files Hp _ IH]; intros k ps Hk [(q & Hq & Eq) Hmax]; [exists k; rewrite app_nil_r; split; [done|]; split; [done|]; split; [by exists q|done]|].
  destruct (here_file p Hp) as (Ep & Vs & Vl). cbn [find_largest_key]. rewrite Ep, res_bind_ret. destruct (Compare_keys_ok uc valid _ _ Vl Hk) as (z & -> & Hz). rewrite res_bind_ret.
  replace (ps ++ p :: files) with ((ps ++ [p]) ++ files) by by rewrite <- app_assoc. destruct (0 <? z) eqn:Ez.
  - apply (cmp_gt _ _ _ _ Hz) in Ez. apply IH; [done|]. split; [exists p; set_solver|]. intros r [Hr|Hr]%elem_of_app Hlt; [|apply list_elem_of_singleton in Hr as ->; by apply key_lt_irrefl in Hlt]. apply (Hmax r Hr). by transitivity (largest (file_in h p)).
  - apply IH; [done|]. split; [exists q; set_solver|]. intros r [Hr|Hr]%elem_of_app; [by apply Hmax|]. apply list_elem_of_singleton in Hr as ->. intros Hlt. apply (cmp_gt _ _ _ _ Hz) in Hlt. congruence.
Qed.

Definition key_after (k : InternalKey) p : bool := match Compare icmp k (smallest (file_in h p)) with Ret z => z <? 0 | _ => false end.

Lemma key_after_spec k p : ival k -> file_here p -> key_after k p = true <-> ilt k (smallest (file_in h p)).
Proof. intros Hk Hp. destruct (here_file p Hp) as (_ & Vs & _). unfold key_after. destruct (Compare_tests icmp ival _ _ Hk Vs) as (z & -> & Hz). apply Hz. Qed.

(** What the loop has done after it added [bs], and what a chain from here
    on makes of it. *)
Record boundary_inv (files cs : list FilePtr) (k0 : InternalKey) (st : InternalKey * list FilePtr) : Prop := {
  bi_key : ival st.1;
  bi_largest : largest_of st.2 st.1;
  bi_chain : exists bs, st.2 = cs ++ bs /\ forall ps k', boundary_chain files st.1 ps k' -> boundary_chain files k0 (bs ++ ps) k';
}.

Lemma boundary_step files cs k0 st : Forall file_here files -> boundary_inv files cs k0 st ->
  match boundary_body uc h files st with
  | Ret (inl st') => boundary_inv files cs k0 st' /\ 0 <= zlength (filter (fun p => key_after st'.1 p = true) files) < zlength (filter (fun p => key_after st.1 p = true) files)
  | Ret (inr r) => exists bs k', r = cs ++ bs /\ boundary_chain files k0 bs k' /\ largest_of r k'
  | _ => False
  end.
Proof.
  intros Hf [Hk Hlarge (bs & Ebs & Hch)]. destruct st as [k cs']. cbn [fst snd] in *. unfold boundary_body, FindSmallestBoundaryFile.
  destruct (find_boundary_ok k files None Hk Hf) as (o & -> & Ho); [done|]. rewrite res_bind_ret. destruct o as [p|].
  - destruct Ho as ([?|Hp] & Hhp & [Hlt Hu] & Hmin); [done|]. destruct (here_file p Hhp) as (-> & Vs & Vl). rewrite res_bind_ret. cbn [fst snd].
    assert (ilt k (largest (file_in h p))) as Hkl by (apply (ilt_le_trans uc valid _ (smallest (file_in h p))); [done..|apply (fo_order _ _ _ (proj2 Hhp))]).
    split; [split; cbn [fst snd]|].
    + done.
    + split; [exists p; set_solver|]. intros q [Hq|Hq]%elem_of_app Hq'; [|apply list_elem_of_singleton in Hq as ->; by apply key_lt_irrefl in Hq']. apply (proj2 Hlarge q Hq). by transitivity (largest (file_in h p)).
    + exists (bs ++ [p]). split; [by rewrite Ebs, <- app_assoc|]. intros ps k' Hps. rewrite <- app_assoc. apply Hch. apply chain_cons; [done|done| |done]. intros q Hq. apply Hmin. by left.
    + split; [apply zlength_nonneg|]. apply (filter_fewer _ _ files p Hp); [by apply key_after_spec| |].
      * rewrite key_after_spec by done. apply (fo_order _ _ _ (proj2 Hhp)).
      * intros q Hq. pose proof (Forall_elem _ _ q Hf Hq) as Hhq. rewrite !key_after_spec by done. intros ?. by transitivity (largest (file_in h p)).
  - destruct Ho as [_ Hno]. exists bs, k. split; [done|]. split; [|done]. rewrite <- (app_nil_r bs). apply Hch. by apply chain_nil.
Qed.

Lemma AddBoundaryInputs_ok files cs : Forall file_here files -> Forall file_here cs -> cs <> [] -> zlength files < 2 ^ 63 ->
  exists k bs k', AddBoundaryInputs uc h files cs = Ret (cs ++ bs) /\ largest_of cs k /\ boundary_chain files k bs k' /\
    largest_of (cs ++ bs) k' /\ forall p, p ∈ files -> ~ boundary k' p.
Proof.
  intros Hf Hcs Hne Hlen. destruct cs as [|p cs]; [done|]. pose proof Hcs as [Hp Hcs']%Forall_cons_1. destruct (here_file p Hp) as (Ep & Vs & Vl).
  destruct (find_largest_ok cs (largest (file_in h p)) [p] Vl Hcs') as (k & Ek & Vk & Hk).
  { split; [exists p; set_solver|]. intros q Hq%list_elem_of_singleton. subst q. apply key_lt_irrefl. }
  assert (exists bs k', AddBoundaryInputs uc h files (p :: cs) = Ret ((p :: cs) ++ bs) /\ boundary_chain files k bs k' /\ largest_of ((p :: cs) ++ bs) k') as (bs & k' & E & Hch & Hl).
  { unfold AddBoundaryInputs, FindLargestKey. rewrite Ep, res_bind_ret, Ek, !res_bind_ret.
    apply (while_ind (boundary_body uc h files) (boundary_inv files (p :: cs) k) (fun st => zlength (filter (fun p => key_after st.1 p = true) files))
      (fun r => exists bs k', r = Ret ((p :: cs) ++ bs) /\ boundary_chain files k bs k' /\ largest_of ((p :: cs) ++ bs) k')).
    - intros st Hst. pose proof (boundary_step files (p :: cs) k st Hf Hst) as Hstep. destruct (boundary_body uc h files st) as [[st'|r]| |]; [done| |done|done].
      destruct Hstep as (bs & k' & -> & ? & ?). by exists bs, k'.
    - split; [done|exact Hk|]. exists []. split; [by rewrite app_nil_r|done].
    - cbn [fst]. pose proof (zlength_nonneg (filter (fun p => key_after k p = true) files)). pose proof (length_filter (fun p => key_after k p = true) files). unfold zlength in *. lia. }
  exists k, bs, k'. split; [done|]. split; [exact Hk|]. split; [done|]. split; [done|]. clear -Hch. by induction Hch.
Qed.

(** [AddBoundaryInputs] terminates.  It keeps the files of the compaction and
    adds files of the level: each one starts, beyond the largest key there
    was, in the user key in which this key ends, and has the smallest key of
    all such files.  In the end no file of the level starts in the user key in
    which the largest key of the inputs ends, beyond it: no older entry of
    that user key is left in the level by the end of the inputs. *)
Theorem boundary_inputs files cs : Forall file_here files -> Forall file_here cs -> cs <> [] -> zlength files < 2 ^ 63 ->
  exists k bs k', AddBoundaryInputs uc h files cs = Ret (cs ++ bs) /\ largest_of cs k /\ boundary_chain files k bs k' /\
    largest_of (cs ++ bs) k' /\ forall p, p ∈ files -> ~ boundary k' p.
Proof. apply AddBoundaryInputs_ok. Qed.

(** ** The inputs of a compaction *)

(** The range of some files. *)
Definition smallest_of (ps : list FilePtr) (k : InternalKey) : Prop := (exists p, p ∈ ps /\ smallest (file_in h p) = k) /\ forall p, p ∈ ps -> ~ ilt (smallest (file_in h p)) k.
Definition range_of (ps : list FilePtr) (s l : InternalKey) : Prop := smallest_of ps s /\ largest_of ps l.

Lemma get_range_ok files s l (ps : list FilePtr) : ival s -> ival l -> Forall file_here files -> range_of ps s l ->
  exists s' l', get_range uc h files s l = Ret (s', l') /\ ival s' /\ ival l' /\ range_of (ps ++ files) s' l'.
Proof.
  intros Hs Hl Hf. revert s l ps Hs Hl. induction Hf as [|p files Hp _ IH]; intros s l ps Hs Hl Hr; [exists s, l; by rewrite app_nil_r|]. destruct Hr as [[(q & Hq & Eq) Hmin] [(r & Hr & Er) Hmax]].
  destruct (here_file p Hp) as (Ep & Vs & Vl). cbn [get_range]. rewrite Ep, res_bind_ret. destruct (Compare_keys_ok uc valid _ _ Vs Hs) as (z & -> & Hz). rewrite res_bind_ret.
  destruct (Compare_keys_ok uc valid _ _ Vl Hl) as (z' & -> & Hz'). rewrite res_bind_ret. cbv zeta.
  replace (ps ++ p :: files) with ((ps ++ [p]) ++ files) by by rewrite <- app_assoc. apply IH; [by destruct (z <? 0)|by destruct (0 <? z')|]. split.
  - destruct (z <? 0) eqn:Ez; [apply (cmp_lt _ _ _ _ Hz) in Ez|]; (split; [eexists; split; [|done]; set_solver|]); intros t [Ht|Ht]%elem_of_app Hlt; try apply list_elem_of_singleton in Ht as ->.
    + apply (Hmin t Ht). by transitivity (smallest (file_in h p)).
    + by apply key_lt_irrefl in Hlt.
    + by apply (Hmin t Ht).
    + apply (cmp_lt _ _ _ _ Hz) in Hlt. congruence.
  - destruct (0 <? z') eqn:Ez; [apply (cmp_gt _ _ _ _ Hz') in Ez|]; (split; [eexists; split; [|done]; set_solver|]); intros t [Ht|Ht]%elem_of_app Hlt; try apply list_elem_of_singleton in Ht as ->.
    + apply (Hmax t Ht). by transitivity (largest (file_in h p)).
    + by apply key_lt_irrefl in Hlt.
    + by apply (Hmax t Ht).
    + apply (cmp_gt _ _ _ _ Hz') in Hlt. congruence.
Qed.

Lemma GetRange_ok ps : Forall file_here ps -> ps <> [] -> exists s l, GetRange uc h ps = Ret (s, l) /\ ival s /\ ival l /\ range_of ps s l.
Proof.
  intros Hps Hne. destruct ps as [|p ps]; [done|]. apply Forall_cons_1 in Hps as [Hp Hps]. destruct (here_file p Hp) as (Ep & Vs & Vl). cbn [GetRange]. rewrite Ep, res_bind_ret.
  apply (get_range_ok ps _ _ [p] Vs Vl Hps). split; (split; [exists p; set_solver|]); intros q Hq%list_elem_of_singleton; subst q; apply key_lt_irrefl.
Qed.

Lemma largest_of_unique ps k k' : ival k -> ival k' -> largest_of ps k -> largest_of ps k' -> k = k'.
Proof.
  intros Hk Hk' [(p & Hp & Ep) Hmax] [(q & Hq & Eq) Hmax']. destruct (entry_eq_dec_lt icmp ival k k' Hk Hk') as [Hlt|[?|Hlt]]; [|done|].
  - exfalso. apply (Hmax q Hq). by rewrite Eq.
  - exfalso. apply (Hmax' p Hp). by rewrite Ep.
Qed.

Lemma largest_of_valid ps k : Forall file_here ps -> largest_of ps k -> ival k.
Proof. intros Hps [(p & Hp & <-) _]. apply (here_file p), (Forall_elem _ _ p Hps Hp). Qed.

(** Internal keys in order have user keys in order. *)
Lemma user_of_mono (a b : InternalKey) : ival a -> ival b -> ~ ilt b a -> user_before (user_of b) (user_of a) = false.
Proof.
  intros Ha Hb Hn. destruct (user_of_ok a Ha) as [_ Va]. destruct (user_of_ok b Hb) as [_ Vb]. apply not_true_iff_false. rewrite user_before_spec by done. intros Hlt. apply Hn.
  destruct Ha as (u & n & -> & Hu & Hn1). destruct Hb as (w & m & -> & Hw & Hm). apply ikey_lt_intro; [done..|]. left.
  assert (forall (x : bytes) (y : Z), user_of (x ++ EncodeFixed64 y) = x) as E; [|by rewrite !E in Hlt]. clear. intros x y. unfold user_of. pose proof (zlength_fixed64 y) as H8. unfold zlength in H8. rewrite length_app.
  replace (length x + length (EncodeFixed64 y) - 8)%nat with (length x) by lia. apply take_app_length.
Qed.

Lemma range_overlaps ps s l p : Forall file_here ps -> ival s -> ival l -> range_of ps s l -> p ∈ ps -> overlaps (Some (user_of s)) (Some (user_of l)) p.
Proof.
  intros Hps Hs Hl [[_ Hmin] [_ Hmax]] Hp. destruct (here_file p (Forall_elem _ _ p Hps Hp)) as (_ & Vs & Vl). pose proof (fo_order _ _ _ (proj2 (Forall_elem _ _ p Hps Hp))) as Ho.
  split; cbn; apply user_of_mono; try done.
  - intros Hlt. apply (Hmin p Hp). by apply (ilt_trans_le uc valid _ (largest (file_in h p))).
  - intros Hlt. apply (Hmax p Hp). by apply (ilt_le_trans uc valid _ (smallest (file_in h p))).
Qed.

(** What [GetOverlappingInputs] gives covers the files that overlap the range. *)
Lemma overlapping_in level files b0 e0 ps p : 0 <= level -> Forall file_here files -> bound_ok b0 -> bound_ok e0 -> overlapping level files b0 e0 ps -> p ∈ files -> overlaps b0 e0 p -> p ∈ ps.
Proof.
  intros H0 Hf Hb He [Hpos Hzero] Hp Ho. destruct (decide (level = 0)) as [E|Hne].
  - destruct (Hzero E) as (b & e & [[Vb Ve] Hc _ _] & ->). apply list_elem_of_filter. split; [|done]. by apply (overlaps_wider b e b0 e0 p (Forall_elem _ _ p Hf Hp)).
  - rewrite Hpos by lia. by apply list_elem_of_filter.
Qed.

Lemma overlapping_files level files b0 e0 ps : 0 <= level -> overlapping level files b0 e0 ps -> (forall p, p ∈ ps -> p ∈ files) /\ zlength ps <= zlength files.
Proof.
  intros H0 [Hpos Hzero]. assert (exists b e, ps = filter (overlaps b e) files) as (b & e & ->).
  { destruct (decide (level = 0)) as [E|Hne]; [destruct (Hzero E) as (b & e & _ & ->); by exists b, e|]. rewrite Hpos by lia. by exists b0, e0. }
  split; [by intros p [_ ?]%list_elem_of_filter|]. pose proof (length_filter (overlaps b e) files). unfold zlength. lia.
Qed.

Lemma chain_files files k bs k' : Forall file_here files -> ival k -> boundary_chain files k bs k' -> (forall p, p ∈ bs -> p ∈ files) /\ zlength bs <= zlength files.
Proof.
  intros Hf Hk Hch. assert ((forall p, p ∈ bs -> p ∈ files) /\ zlength bs <= zlength (filter (fun p => key_after k p = true) files)) as [Hin Hle].
  { induction Hch as [k _|k p ps k' Hp [Hlt _] _ _ IH]; [split; [by intros p Hp%not_elem_of_nil|apply zlength_nonneg]|]. pose proof (Forall_elem _ _ p Hf Hp) as Hhp. destruct (here_file p Hhp) as (_ & Vs & Vl).
    destruct (IH Vl) as [Hin Hle]. split; [by intros q [->|Hq]%elem_of_cons; [|apply Hin]|]. rewrite zlength_cons.
    assert (zlength (filter (fun q => key_after (largest (file_in h p)) q = true) files) < zlength (filter (fun q => key_after k q = true) files)); [|lia].
    apply (filter_fewer _ _ files p Hp); [by apply key_after_spec| |].
    - rewrite key_after_spec by done. apply (fo_order _ _ _ (proj2 Hhp)).
    - intros q Hq. pose proof (Forall_elem _ _ q Hf Hq) as Hhq. rewrite !key_after_spec by done. intros ?.
      transitivity (largest (file_in h p)); [|done]. apply (ilt_le_trans uc valid _ (smallest (file_in h p))); [done..|apply (fo_order _ _ _ (proj2 Hhp))]. }
  split; [done|]. pose proof (length_filter (fun p => key_after k p = true) files). unfold zlength in *. lia.
Qed.

Lemma TotalFileSize_ok files : Forall (fun p => p ∈ dom h /\ 0 <= file_size (file_in h p) < 2 ^ 31) files -> zlength files < 2 ^ 31 -> exists n, TotalFileSize h files = Ret n /\ 0 <= n < 2 ^ 62.
Proof.
  intros Hf Hlen. unfold TotalFileSize. assert (forall sum, 0 <= sum -> sum + zlength files * 2 ^ 31 < 2 ^ 63 -> exists n, total_file_size h files sum = Ret n /\ 0 <= n <= sum + zlength files * (2 ^ 31 - 1)) as H.
  { clear Hlen. induction Hf as [|p files [Hp Hsz] _ IH]; intros sum H0 Hb; [exists sum; split; [done|]; change (zlength (@nil FilePtr)) with 0; lia|]. rewrite zlength_cons in Hb. pose proof (zlength_nonneg files).
    cbn [total_file_size]. rewrite dom_file_at, res_bind_ret by done. assert (s64 (u64 sum + file_size (file_in h p)) = sum + file_size (file_in h p)) as ->.
    { rewrite wrap_small by nia. unfold sext. rewrite Z.mod_small by nia. lia. }
    destruct (IH (sum + file_size (file_in h p))) as (n & -> & Hn); [lia|nia|]. exists n. split; [done|]. rewrite zlength_cons. nia. }
  destruct (H 0) as (n & E & Hn); [lia|nia|]. exists n. split; [done|]. pose proof (zlength_nonneg files). nia.
Qed.

(** The inputs at a level, [files], and at the next one: the files given are
    kept; the files of the next level are those that overlap the range of
    the inputs, which ends with [l]; no file starts beyond [l] in its user key. *)
Record inputs_ok (files next cs i0 i1 : list FilePtr) (l : InternalKey) : Prop := {
  io_keeps : forall p, p ∈ cs -> p ∈ i0;
  io_level : forall p, p ∈ i0 -> p ∈ files;
  io_range : exists s, ival s /\ range_of i0 s l /\ i1 = filter (overlaps (Some (user_of s)) (Some (user_of l))) next;
  io_boundary : forall p, p ∈ files -> ~ boundary l p;
}.

Variables (v : Version) (level : Z) (files next : list FilePtr) (max_file_size : Z).
Hypotheses (Hlevel : 0 <= level) (Hnext : level + 1 < kNumLevels) (Hfiles : files_ v !! Z.to_nat level = Some files) (Hnexts : files_ v !! Z.to_nat (level + 1) = Some next).
Hypotheses (Hhere : forall n fs, files_ v !! n = Some fs -> Forall file_here fs /\ zlength fs < 2 ^ 30).
Hypothesis (Hsizes : forall p, p ∈ dom h -> 0 <= file_size (file_in h p) < 2 ^ 31).

Lemma here_sizes (ps : list FilePtr) : Forall file_here ps -> Forall (fun p => p ∈ dom h /\ 0 <= file_size (file_in h p) < 2 ^ 31) ps.
Proof. intros Hps. eapply List.Forall_impl; [|exact Hps]. intros p [Hp _]. split; [done|by apply Hsizes]. Qed.

Lemma in_files_here (ps : list FilePtr) n fs : files_ v !! n = Some fs -> (forall p, p ∈ ps -> p ∈ fs) -> Forall file_here ps.
Proof. intros Hn Hin. destruct (Hhere n fs Hn) as [Hf _]. apply List.Forall_forall. intros p Hp%list_elem_of_In. by apply (Forall_elem _ _ p Hf), Hin. Qed.

(** Overlapping files, with boundary files, at the level. *)
Lemma grown_inputs (cs : list FilePtr) : (forall p, p ∈ cs -> p ∈ files) -> cs <> [] -> zlength cs < 2 ^ 30 ->
  exists bs s l, AddBoundaryInputs uc h files cs = Ret (cs ++ bs) /\ GetRange uc h (cs ++ bs) = Ret (s, l) /\ ival s /\ ival l /\ range_of (cs ++ bs) s l /\
    (forall p, p ∈ cs ++ bs -> p ∈ files) /\ zlength (cs ++ bs) < 2 ^ 31 /\ forall p, p ∈ files -> ~ boundary l p.
Proof.
  intros Hcs Hne Hlen. destruct (Hhere _ _ Hfiles) as [Hf Hfl]. pose proof (in_files_here cs _ _ Hfiles Hcs) as Hch.
  destruct (AddBoundaryInputs_ok files cs Hf Hch Hne) as (k & bs & k' & E & Hk & Hchain & Hk' & Hno); [lia|].
  destruct (chain_files files k bs k' Hf (largest_of_valid cs k Hch Hk) Hchain) as [Hbs Hbl].
  assert (forall p, p ∈ cs ++ bs -> p ∈ files) as Hin by (intros p [Hp|Hp]%elem_of_app; [by apply Hcs|by apply Hbs]).
  pose proof (in_files_here (cs ++ bs) _ _ Hfiles Hin) as Hhb. destruct (GetRange_ok (cs ++ bs) Hhb) as (s & l & Er & Vs & Vl & Hr); [by destruct cs|].
  assert (l = k') as -> by (apply (largest_of_unique (cs ++ bs)); [done|by eapply largest_of_valid|apply Hr|done]).
  exists bs, s, k'. split; [done|]. split; [done|]. split; [done|]. split; [done|]. split; [done|]. split; [done|]. split; [rewrite zlength_app; lia|done].
Qed.

Lemma next_overlapping (s l : InternalKey) : ival s -> ival l -> GetOverlappingInputs uc h v (level + 1) (Some s) (Some l) = Ret (filter (overlaps (Some (user_of s)) (Some (user_of l))) next).
Proof.
  intros Hs Hl. destruct (Hhere _ _ Hnexts) as [Hf Hfl]. destruct (GetOverlappingInputs_ok v (level + 1) (Some s) (Some l) next) as (ps & -> & Hps); [lia|done..|]. by rewrite (proj1 Hps) by lia.
Qed.

Lemma expand_inputs_ok cs i0 i1 (l as_ al : InternalKey) : inputs_ok files next cs i0 i1 l -> ival l -> ival as_ -> ival al -> range_of (i0 ++ i1) as_ al -> i0 <> [] -> zlength i0 < 2 ^ 31 ->
  exists i0' i1' l' as' al', expand_inputs uc max_file_size h v level i0 i1 l as_ al = Ret (i0', i1', l', as', al') /\ inputs_ok files next cs i0' i1' l' /\ ival l' /\ ival as' /\ ival al'.
Proof.
  intros Hio Vl Vas Val Hr Hne Hlen. assert (exists i0' i1' l' as' al', Ret (i0, i1, l, as_, al) = Ret (i0', i1', l', as', al') /\ inputs_ok files next cs i0' i1' l' /\ ival l' /\ ival as' /\ ival al') as Hsame by by exists i0, i1, l, as_, al.
  unfold expand_inputs. cbv zeta. destruct i1 as [|q i1]; [done|]. set (i1' := q :: i1) in *. destruct (Hhere _ _ Hfiles) as [Hf Hfl]. destruct (Hhere _ _ Hnexts) as [Hn Hnl].
  destruct (GetOverlappingInputs_ok v level (Some as_) (Some al) files) as (e0 & -> & He0); [lia|done..|]. rewrite res_bind_ret.
  destruct (io_range _ _ _ _ _ _ Hio) as (s & Vs & Hr0 & Ei1). assert (forall p, p ∈ i1' -> p ∈ next) as Hi1 by (intros p; rewrite Ei1; by intros [_ ?]%list_elem_of_filter).
  pose proof (in_files_here i0 _ _ Hfiles (io_level _ _ _ _ _ _ Hio)) as Hh0. pose proof (in_files_here i1' _ _ Hnexts Hi1) as Hh1.
  assert (zlength i1' < 2 ^ 31) as Hl1 by (rewrite Ei1; pose proof (length_filter (overlaps (Some (user_of s)) (Some (user_of l))) next); unfold zlength in *; lia).
  destruct (user_of_ok as_ Vas) as [_ Vua]. destruct (user_of_ok al Val) as [_ Vul]. destruct (overlapping_files level files _ _ e0 Hlevel He0) as [He0f He0l].
  assert (forall p, p ∈ i0 -> p ∈ e0) as Hkeep.
  { intros p Hp. apply (overlapping_in level files (Some (user_of as_)) (Some (user_of al)) e0 p); try done; [by apply (io_level _ _ _ _ _ _ Hio)|].
    apply (range_overlaps (i0 ++ i1') as_ al); [by apply Forall_app_2|done..|set_solver]. }
  destruct (grown_inputs e0) as (bs & ns & nl & Eb & Er & Vns & Vnl & Hnr & Hin & Hbl & Hno); [done|destruct i0 as [|p i0]; [done|]; intros ->; by apply (not_elem_of_nil p), Hkeep; left|lia|].
  assert (level_files v level = Ret files) as -> by (unfold level_files; rewrite Hfiles; by destruct (Z.leb_spec 0 level); [|lia]). rewrite res_bind_ret, Eb, res_bind_ret.
  destruct (TotalFileSize_ok i0 (here_sizes _ Hh0) Hlen) as (n0 & -> & _). destruct (TotalFileSize_ok i1' (here_sizes _ Hh1) Hl1) as (n1 & -> & Hn1).
  pose proof (in_files_here (e0 ++ bs) _ _ Hfiles Hin) as Hhe. destruct (TotalFileSize_ok (e0 ++ bs) (here_sizes _ Hhe) Hbl) as (n2 & -> & Hn2). rewrite !res_bind_ret.
  destruct (_ <? _); [|done]. rewrite assert_true, res_bind_ret by lia. destruct (_ <? _); [|done]. rewrite Er, res_bind_ret, next_overlapping, res_bind_ret by done.
  destruct (_ =? _); [|done]. set (e1 := filter (overlaps (Some (user_of ns)) (Some (user_of nl))) next). destruct (GetRange_ok ((e0 ++ bs) ++ e1)) as (as' & al' & Er2 & Va & Vb & _).
  { apply Forall_app_2; [done|]. apply (in_files_here e1 _ _ Hnexts). by intros p [_ ?]%list_elem_of_filter. } { destruct i0 as [|p i0]; [done|]. intros E. apply (not_elem_of_nil p). rewrite <- E. apply elem_of_app. left. apply elem_of_app. left. apply Hkeep. left. }
  unfold GetRange2. rewrite Er2, res_bind_ret. exists (e0 ++ bs), e1, nl, as', al'. split; [done|]. split; [|done]. split; [|done|by exists ns|done].
  intros p Hp. apply elem_of_app. left. by apply Hkeep, (io_keeps _ _ _ _ _ _ Hio).
Qed.

(** C18: [SetupOtherInputs] succeeds on a compaction with inputs from its level, and
    whether or not it grew them: the inputs given are kept, all inputs at the
    level are files of the level, those at the next level are exactly the files
    there that overlap the range of user keys of the first, and no file of the
    level starts in the user key in which the inputs end, beyond them. The next
    compaction of the level starts after the largest key. The files of a level
    are fewer than 2^30, have valid internal keys, and are smaller than 2 GB. *)
Theorem compaction_inputs c s : current_version s = Ret v -> vs_files s = h -> level_ c = level -> zlength (files_ v) = kNumLevels -> zlength (vs_compact_pointer s) = kNumLevels ->
  inputs0 c <> [] -> (forall p, p ∈ inputs0 c -> p ∈ files) -> zlength (inputs0 c) < 2 ^ 30 ->
  exists c' l, SetupOtherInputs uc max_file_size c s = Ret (c', set_vs_compact_pointer (<[Z.to_nat level := l]> (vs_compact_pointer s)) s) /\
    inputs_ok files next (inputs0 c) (inputs0 c') (inputs1 c') l /\ edit_ c' = SetCompactPointer level l (edit_ c).
Proof.
  intros Hv Hh Hl Hnum Hptr Hne Hin Hlen. unfold SetupOtherInputs. cbv zeta. rewrite Hv, Hh, Hl, res_bind_ret. destruct (Hhere _ _ Hfiles) as [Hf Hfl]. destruct (Hhere _ _ Hnexts) as [Hn Hnl].
  assert (level_files v level = Ret files) as -> by (unfold level_files; rewrite Hfiles; by destruct (Z.leb_spec 0 level); [|lia]). rewrite res_bind_ret.
  destruct (grown_inputs (inputs0 c) Hin Hne Hlen) as (bs & s0 & l0 & -> & Er & Vs & Vl & Hr & Hbin & Hbl & Hno). rewrite res_bind_ret, Er, res_bind_ret, next_overlapping, res_bind_ret by done.
  set (i0 := inputs0 c ++ bs) in *. set (i1 := filter (overlaps (Some (user_of s0)) (Some (user_of l0))) next).
  assert (inputs_ok files next (inputs0 c) i0 i1 l0) as Hio by (split; [intros p Hp; apply elem_of_app; by left|done|by exists s0|done]).
  assert (i0 <> []) as Hne0 by (unfold i0; by destruct (inputs0 c)).
  destruct (GetRange_ok (i0 ++ i1)) as (as_ & al & Er2 & Va & Vb & Hr2).
  { apply Forall_app_2; [by apply (in_files_here i0 _ _ Hfiles)|]. apply (in_files_here i1 _ _ Hnexts). by intros p [_ ?]%list_elem_of_filter. } { by intros [? _]%app_eq_nil. }
  unfold GetRange2. rewrite Er2, res_bind_ret. destruct (expand_inputs_ok (inputs0 c) i0 i1 l0 as_ al Hio Vl Va Vb Hr2 Hne0 Hbl) as (i0' & i1' & l & as' & al' & -> & Hio' & Vl' & Va' & Vb').
  rewrite res_bind_ret. assert (exists gs, (if level + 2 <? kNumLevels then GetOverlappingInputs uc h v (level + 2) (Some as') (Some al') else Ret (grandparents_ c)) = Ret gs) as (gs & ->).
  { destruct (Z.ltb_spec (level + 2) kNumLevels) as [Hg|?]; [|by eexists]. destruct (lookup_lt_is_Some_2 (files_ v) (Z.to_nat (level + 2))) as [fs Hfs]; [unfold zlength in Hnum; lia|].
    destruct (Hhere _ _ Hfs) as [Hgf Hgl]. destruct (GetOverlappingInputs_ok v (level + 2) (Some as') (Some al') fs) as (gs & E & _); [lia|done..|]. by exists gs. }
  rewrite res_bind_ret, InternalKey_Encode_ok, res_bind_ret by by apply (ivalid_nonempty valid). rewrite write_at_ok, res_bind_ret by (rewrite Hptr; lia).
  eexists _, l. split; [done|]. by split.
Qed.
End facts.

(** ** At a concrete version *)
Definition level_file (n : Z) (s : bytes) (sq : Z) (l : bytes) (lq : Z) : FileMetaData := sample_file n (s, sq, kTypeValue) (l, lq, kTypeValue).

(** At level 1, the second file continues the last key of the first. *)
Definition compaction_heap : gmap nat FileMetaData :=
  {[ 0%nat := level_file 11 [97] 5 [98] 9; 1%nat := level_file 12 [98] 5 [99] 1; 2%nat := level_file 13 [120] 7 [121] 7;
     3%nat := level_file 14 [97] 2 [97] 1; 4%nat := level_file 15 [99] 4 [100] 3; 5%nat := level_file 16 [109] 2 [110] 2;
     6%nat := level_file 21 [97] 20 [99] 21; 7%nat := level_file 22 [98] 22 [102] 23; 8%nat := level_file 23 [101] 24 [107] 25; 9%nat := level_file 24 [109] 26 [110] 27 ]}.
Definition compaction_version : Version := set_version_files [[6%nat; 7%nat; 8%nat; 9%nat]; [0%nat; 1%nat; 2%nat]; [3%nat; 4%nat; 5%nat]; []; []; []; []] new_Version.
Definition compaction_vset : VersionSet := MkVersionSet compaction_heap {[0%nat := compaction_version]} [0%nat] (Some 0%nat) 30 2 40 3 0 (replicate (Z.to_nat kNumLevels) []).

Lemma compaction_files_here n fs : files_ compaction_version !! n = Some fs -> Forall (file_here BytewiseComparator bytes_ok compaction_heap) fs /\ zlength fs < 2 ^ 30.
Proof.
  intros Hn. assert (forall p, (p < 10)%nat -> file_here BytewiseComparator bytes_ok compaction_heap p) as Hp.
  { intros p Hp. split; [apply elem_of_dom; do 10 (destruct p as [|p]; [by eexists|]); lia|]. do 10 (destruct p as [|p]; [apply sample_file_ok; vm_compute; reflexivity|]). lia. }
  do 7 (destruct n as [|n]; [injection Hn as <-; split; [repeat (constructor; [apply Hp; lia|]); constructor|reflexivity]|]). done.
Qed.

Lemma compaction_sizes p : p ∈ dom compaction_heap -> 0 <= file_size (file_in compaction_heap p) < 2 ^ 31.
Proof.
  intros [f Hf]%elem_of_dom. rewrite (file_in_at _ _ _ Hf). assert (map_Forall (fun _ f => file_size f = 1000) compaction_heap) as Hall by (apply (bool_decide_unpack _); vm_compute; exact I).
  specialize (Hall p f Hf). cbn in Hall. lia.
Qed.

Lemma overlapping_inputs_witness : exists ps b e,
  GetOverlappingInputs BytewiseComparator compaction_heap compaction_version 0 (Some (ikey [98] 30 kTypeValue)) (Some (ikey [98] 30 kTypeValue)) = Ret ps /\
  least_closed BytewiseComparator bytes_ok compaction_heap [6%nat; 7%nat; 8%nat; 9%nat] (Some [98]) (Some [98]) b e /\ ps = filter (overlaps BytewiseComparator compaction_heap b e) [6%nat; 7%nat; 8%nat; 9%nat].
Proof.
  destruct (overlapping_inputs BytewiseComparator bytes_ok compaction_heap compaction_version 0 (Some (ikey [98] 30 kTypeValue)) (Some (ikey [98] 30 kTypeValue)) [6%nat; 7%nat; 8%nat; 9%nat])
    as (ps & E & _ & Hz); [by split|reflexivity|by apply (compaction_files_here 0)|reflexivity|by apply bytes_ivalid|by apply bytes_ivalid|].
  destruct (Hz eq_refl) as (b & e & Hl & Hps). exists ps, b, e. split; [exact E|]. split; [exact Hl|exact Hps].
Defined.

Lemma boundary_inputs_witness : exists k bs k', AddBoundaryInputs BytewiseComparator compaction_heap [0%nat; 1%nat; 2%nat] [0%nat] = Ret ([0%nat] ++ bs) /\
  largest_of BytewiseComparator bytes_ok compaction_heap [0%nat] k /\ boundary_chain BytewiseComparator bytes_ok compaction_heap [0%nat; 1%nat; 2%nat] k bs k' /\
  largest_of BytewiseComparator bytes_ok compaction_heap ([0%nat] ++ bs) k' /\ forall p, p ∈ [0%nat; 1%nat; 2%nat] -> ~ boundary BytewiseComparator bytes_ok compaction_heap k' p.
Proof.
  pose proof (proj1 (compaction_files_here 1 _ eq_refl)) as Hf. apply boundary_inputs; [exact Hf| |done|reflexivity]. apply Forall_cons_1 in Hf as [? _]. by constructor; [|constructor].
Defined.

Lemma compaction_inputs_witness : exists c' l,
  SetupOtherInputs BytewiseComparator 100000 (set_inputs None new_VersionEdit [0%nat] [] [] (new_Compaction 100000 1)) compaction_vset =
    Ret (c', set_vs_compact_pointer (<[1%nat := l]> (vs_compact_pointer compaction_vset)) compaction_vset) /\
  inputs_ok BytewiseComparator bytes_ok compaction_heap [0%nat; 1%nat; 2%nat] [3%nat; 4%nat; 5%nat] [0%nat] (inputs0 c') (inputs1 c') l /\ edit_ c' = SetCompactPointer 1 l new_VersionEdit.
Proof.
  apply (compaction_inputs BytewiseComparator bytes_ok compaction_heap compaction_version 1 [0%nat; 1%nat; 2%nat] [3%nat; 4%nat; 5%nat] 100000); try done.
  - exact compaction_files_here.
  - exact compaction_sizes.
  - intros p Hp%list_elem_of_singleton. subst p. left.
Defined.
