(* ===== verification/LevelIter.v ===== *)
(** * LevelDB: iterators over the files of a version (version_set.cc)

    The iterator over the files of a level, the concatenation of the tables
    of a level, what a version gives the merging iterator of a read and what a
    compaction reads; then their contracts.  An iterator that opens tables
    carries the table cache with it: the tables do not change. *)
From S2P Require Import Prelude LdbBase Coding Comparator DbFormat VersionEdit Iterator Merger TwoLevel TwoLevelFacts Format FilterFacts TableBuild DbIterFacts Version VersionFacts VersionSet VersionSetFacts Compaction.

(** What iterators use of the table cache. *)
Class TableCacheIterators (TC J : Type) `{!Iterator J} : Type := {
  tc_NewIterator : ReadOptions -> Z -> Z -> TC -> res (J * TC);
}.

(** [flist_] and [index_]. *)
Record LevelFileNumIterator : Type := MkLevelFileNumIterator {
  flist_ : list FilePtr;
  index_ : Z;
}.

Definition set_file_index (n : Z) (i : LevelFileNumIterator) : LevelFileNumIterator := MkLevelFileNumIterator (flist_ i) n.

Definition new_LevelFileNumIterator (flist : list FilePtr) : LevelFileNumIterator := MkLevelFileNumIterator flist (u32 (zlength flist)).

Section iterators.
Context (uc : Comparator) (h : files_heap).
Implicit Types (i : LevelFileNumIterator).

Definition lf_Valid i : bool := index_ i <? zlength (flist_ i).
Definition lf_Seek (target : bytes) i : res LevelFileNumIterator := let! n := FindFile uc h (flist_ i) target in Ret (set_file_index n i).
Definition lf_SeekToFirst i : res LevelFileNumIterator := Ret (set_file_index 0 i).
Definition lf_SeekToLast i : res LevelFileNumIterator :=
  Ret (set_file_index (if bool_decide (flist_ i = []) then 0 else u32 (zlength (flist_ i) - 1)) i).
Definition lf_Next i : res LevelFileNumIterator :=
  let! _ := assert_ (lf_Valid i) in
  Ret (set_file_index (u32 (index_ i + 1)) i).
Definition lf_Prev i : res LevelFileNumIterator :=
  let! _ := assert_ (lf_Valid i) in
  Ret (set_file_index (if index_ i =? 0 then u32 (zlength (flist_ i)) else u32 (index_ i - 1)) i).

Definition lf_file i : res FileMetaData :=
  let! _ := assert_ (lf_Valid i) in
  let! p := read_at (flist_ i) (index_ i) in
  file_at h p.
Definition lf_key i : res bytes := let! f := lf_file i in InternalKey_Encode (largest f).
Definition lf_value i : res bytes :=
  let! f := lf_file i in Ret (EncodeFixed64 (number f) ++ EncodeFixed64 (file_size f)).

#[local] Instance LevelFileNumIterator_Iterator : Iterator LevelFileNumIterator := {|
  it_Valid := lf_Valid;
  it_SeekToFirst := lf_SeekToFirst;
  it_SeekToLast := lf_SeekToLast;
  it_Seek := lf_Seek;
  it_Next := lf_Next;
  it_Prev := lf_Prev;
  it_key := lf_key;
  it_value := lf_value;
  it_status _ := Ret Status_OK;
|}.

Context {TC J : Type} `{!Iterator J} `{!TableCacheIterators TC J}.

Definition GetFileIterator (options : ReadOptions) (file_value : bytes) (cache : TC) : res ((EmptyIterator + J) * TC) :=
  if negb (size file_value =? 16) then Ret (inl (NewErrorIterator (Corruption (str "FileReader invoked with unexpected value"))), cache)
  else
    let! n := DecodeFixed64 file_value in
    let! sz := DecodeFixed64 (zdrop 8 file_value) in
    let! '(j, cache) := tc_NewIterator options n sz cache in Ret (inr j, cache).

(** The iterator of one file, or of the files of a level. *)
Definition LevelIterator : Type := TwoLevelIterator LevelFileNumIterator (EmptyIterator + J) TC.
Definition FileIterator : Type := J + LevelIterator.

#[local] Instance LevelIterator_Iterator (options : ReadOptions) : Iterator LevelIterator := TwoLevelIterator_Iterator (GetFileIterator options).
#[local] Instance FileIterator_Iterator (options : ReadOptions) : Iterator FileIterator :=
  @sum_Iterator J LevelIterator _ (LevelIterator_Iterator options).

(** [NewTwoLevelIterator(new LevelFileNumIterator(icmp_, flist), &GetFileIterator, table_cache_, options)]. *)
Definition concat_files (flist : list FilePtr) (cache : TC) : res LevelIterator := new_TwoLevelIterator (new_LevelFileNumIterator flist) cache.

Definition NewConcatenatingIterator (v : Version) (level : Z) (cache : TC) : res LevelIterator :=
  let! files := level_files v level in concat_files files cache.

(** An iterator per file. *)
Fixpoint file_iterators (options : ReadOptions) (files : list FilePtr) (cache : TC) : res (list FileIterator * TC) :=
  match files with
  | [] => Ret ([], cache)
  | p :: files =>
      let! f := file_at h p in
      let! '(j, cache) := tc_NewIterator options (number f) (file_size f) cache in
      let! '(its, cache) := file_iterators options files cache in
      Ret (inl j :: its, cache)
  end.

(** The levels from 1 on that are not empty. *)
Fixpoint level_iterators (levels : list (list FilePtr)) (cache : TC) : res (list FileIterator) :=
  match levels with
  | [] => Ret []
  | files :: levels =>
      if bool_decide (files = []) then level_iterators levels cache
      else
        let! t := concat_files files cache in
        let! its := level_iterators levels cache in
        Ret (inr t :: its)
  end.

Definition AddIterators (options : ReadOptions) (v : Version) (iters : list FileIterator) (cache : TC) : res (list FileIterator * TC) :=
  let! files := level_files v 0 in
  let! '(its, cache) := file_iterators options files cache in
  let! levels := level_iterators (zdrop 1 (files_ v)) cache in
  Ret (iters ++ its ++ levels, cache).

(** The inputs [inputs_[which]]. *)
Definition input_iterators (options : ReadOptions) (level : Z) (files : list FilePtr) (cache : TC) : res (list FileIterator * TC) :=
  if bool_decide (files = []) then Ret ([], cache)
  else if level =? 0 then file_iterators options files cache
  else let! t := concat_files files cache in Ret ([inr t], cache).

Definition InputIterator : Type := EmptyIterator + (FileIterator + MergingIterator FileIterator).

(** The options of [MakeInputIterator]. *)
Definition compaction_options (paranoid_checks : bool) : ReadOptions := MkReadOptions paranoid_checks false.

#[local] Instance InputIterator_Iterator (paranoid_checks : bool) : Iterator InputIterator :=
  @NewMergingIterator_Iterator FileIterator (FileIterator_Iterator (compaction_options paranoid_checks)) (InternalKeyComparator uc).

Definition MakeInputIterator (paranoid_checks : bool) (c : Compaction) (cache : TC) : res (InputIterator * TC) :=
  let options := compaction_options paranoid_checks in
  let space := if level_ c =? 0 then zlength (inputs0 c) + 1 else 2 in
  let! '(list0, cache) := input_iterators options (level_ c) (inputs0 c) cache in
  let! '(list1, cache) := input_iterators options (level_ c + 1) (inputs1 c) cache in
  let list := list0 ++ list1 in
  let! _ := assert_ (zlength list <=? space) in
  let! result := @NewMergingIterator FileIterator (FileIterator_Iterator options) list in
  Ret (result, cache).
End iterators.
Arguments FileIterator TC J : clear implicits.
Arguments LevelIterator TC J : clear implicits.
Arguments InputIterator TC J : clear implicits.

(** ** The contract of the iterator over the files of a level *)

(** A family of contracts of one class of iterators, as one contract. *)
Definition family_ok {I A : Type} (c : Comparator) (valid : bytes -> Prop) `{!ComparatorOk c valid} (HI : Iterator I) (P : A -> Prop)
    (contract : forall a, P a -> @IteratorOk c valid _ I HI) : @IteratorOk c valid _ I HI.
Proof.
  refine (@Build_IteratorOk c valid _ I HI (fun es p i => exists a (Ha : P a), @it_at c valid _ I HI (contract a Ha) es p i) _ _ _ _ _ _ _ _ _).
  - intros es p i (a & Ha & Hi). exact (it_at_ok c valid _ _ _ Hi).
  - intros es p i (a & Ha & Hi). exact (it_Valid_at c valid _ _ _ Hi).
  - intros es p i (a & Ha & Hi). exact (it_status_at c valid _ _ _ Hi).
  - intros es n i (a & Ha & Hi). exact (it_entry_at c valid _ _ _ Hi).
  - intros es p i (a & Ha & Hi). destruct (it_SeekToFirst_at c valid _ _ _ Hi) as (i' & E & Hi'). exists i'. split; [done|]. by exists a, Ha.
  - intros es p i (a & Ha & Hi). destruct (it_SeekToLast_at c valid _ _ _ Hi) as (i' & E & Hi'). exists i'. split; [done|]. by exists a, Ha.
  - intros es p i t (a & Ha & Hi) Ht. destruct (it_Seek_at c valid _ _ _ _ Hi Ht) as (i' & p' & E & Hp & Hi'). exists i', p'. split; [done|]. split; [done|]. by exists a, Ha.
  - intros es n i (a & Ha & Hi). destruct (it_Next_at c valid _ _ _ Hi) as (i' & E & Hi'). exists i'. split; [done|]. by exists a, Ha.
  - intros es n i (a & Ha & Hi). destruct (it_Prev_at c valid _ _ _ Hi) as (i' & E & Hi'). exists i'. split; [done|]. by exists a, Ha.
Defined.

Section level_ok.
Context (uc : Comparator) (valid : bytes -> Prop) `{!ComparatorOk uc valid} (h : files_heap).
Abbreviation icmp := (InternalKeyComparator uc).
Abbreviation ival := (ivalid valid).
Abbreviation ilt := (key_lt icmp ival).
Implicit Types (i : LevelFileNumIterator) (ps : list FilePtr) (fs : list FileMetaData).

Definition file_handle (f : FileMetaData) : bytes := EncodeFixed64 (number f) ++ EncodeFixed64 (file_size f).
Definition file_entry (f : FileMetaData) : entry := (largest f, file_handle f).

(** A level above 0. *)
Record level_of ps fs : Prop := {
  lo_files : files_at h ps fs;
  lo_ok : Forall (file_ok uc valid) fs;
  lo_sorted : sorted_files uc valid fs;
  lo_short : zlength fs < 2 ^ 31;
}.

Definition lf_at (es : list entry) (p : position) i : Prop := exists fs, level_of (flist_ i) fs /\ es = file_entry <$> fs /\
  match p with Some n => (n < length fs)%nat /\ index_ i = Z.of_nat n | None => index_ i = zlength fs end.

Lemma level_entries_ok ps fs : level_of ps fs -> entries_ok icmp ival (file_entry <$> fs).
Proof.
  intros [_ Hok Hs _]. split.
  - rewrite <- list_fmap_compose. apply StronglySorted_lookup_2. intros i j a b Hij Hi Hj.
    apply list_lookup_fmap_Some in Hi as (f & -> & Hf), Hj as (g & -> & Hg). by eapply sorted_largest.
  - rewrite <- list_fmap_compose, Forall_fmap. eapply List.Forall_impl; [|exact Hok]. intros f Hf. apply Hf.
Qed.

Lemma level_zlength ps fs : level_of ps fs -> zlength ps = zlength fs.
Proof. intros Hl. unfold zlength. by rewrite (files_at_length h ps fs (lo_files _ _ Hl)). Qed.

(** The index of a position among [n] files. *)
Lemma lf_index es p i fs n : level_of (flist_ i) fs -> es = file_entry <$> fs -> p = (if decide (n < length fs)%nat then Some n else None) -> (n <= length fs)%nat ->
  lf_at es p (set_file_index (Z.of_nat n) i).
Proof.
  intros Hl -> -> Hn. exists fs. split; [done|]. split; [done|]. destruct (decide (n < length fs)%nat) as [Hlt|Hge]; cbn; [done|].
  unfold zlength. f_equal. lia.
Qed.

Lemma lf_seek_pos fs key n : first_file uc valid fs key n ->
  seek_pos icmp ival (file_entry <$> fs) key (if decide (n < length fs)%nat then Some n else None).
Proof.
  intros (Hn & Hlo & Hhi). destruct (decide (n < length fs)%nat) as [Hlt|Hge]; cbn.
  - split.
    + apply Forall_lookup. intros j e [He Hj]%lookup_take_Some. apply list_lookup_fmap_Some in He as (f & -> & Hf). by eapply Hlo.
    + destruct (lookup_lt_is_Some_2 fs n Hlt) as [f Hf]. exists (file_entry f). rewrite list_lookup_fmap, Hf. split; [done|]. by apply (Hhi n f).
  - apply Forall_lookup. intros j e He. apply list_lookup_fmap_Some in He as (f & -> & Hf). apply (Hlo j f); [|done]. apply lookup_lt_Some in Hf. lia.
Qed.

Lemma lf_file_at es n i : lf_at es (Some n) i -> exists f, es !! n = Some (file_entry f) /\ lf_file h i = Ret f /\ ival (largest f).
Proof.
  intros (fs & Hl & -> & Hn & Ei). destruct (lookup_lt_is_Some_2 fs n Hn) as [f Hf]. exists f. rewrite list_lookup_fmap, Hf. split; [done|].
  destruct (files_at_lookup h _ fs n f (lo_files _ _ Hl) Hf) as (q & Hq & Hqf). unfold lf_file, lf_Valid, read_at.
  rewrite Ei, (level_zlength _ _ Hl), assert_true, res_bind_ret by (unfold zlength; lia). rewrite (proj2 (Z.leb_le _ _)), Nat2Z.id, Hq by lia.
  cbn [of_option]. rewrite res_bind_ret. split; [by apply file_at_ok|]. pose proof (Forall_lookup_1 _ _ _ _ (lo_ok _ _ Hl) Hf) as Ho. apply Ho.
Qed.

Lemma lf_Valid_at es p i : lf_at es p i -> lf_Valid i = bool_decide (is_Some p).
Proof.
  intros (fs & Hl & -> & Hp). unfold lf_Valid. rewrite (level_zlength _ _ Hl). destruct p as [n|].
  - destruct Hp as [Hn ->]. rewrite bool_decide_true by done. unfold zlength. lia.
  - rewrite Hp, bool_decide_false by (by intros [? ?]). lia.
Qed.

Definition LevelFileNumIterator_ok : @IteratorOk icmp ival _ LevelFileNumIterator (LevelFileNumIterator_Iterator uc h).
Proof.
  refine (@Build_IteratorOk icmp ival _ _ (LevelFileNumIterator_Iterator uc h) lf_at _ _ _ _ _ _ _ _ _).
  - intros es p i (fs & Hl & -> & _). by eapply level_entries_ok.
  - apply lf_Valid_at.
  - done.
  - intros es n i Hi. destruct (lf_file_at es n i Hi) as (f & He & E & Hv). exists (file_entry f). split; [done|].
    cbn [it_key it_value LevelFileNumIterator_Iterator]. unfold lf_key, lf_value. rewrite E, !res_bind_ret. split; [|done].
    unfold InternalKey_Encode. rewrite assert_true, res_bind_ret; [done|]. apply ivalid_nonempty in Hv. by destruct (largest f).
  - intros es p i (fs & Hl & -> & _). eexists. split; [done|]. apply (lf_index _ _ _ fs 0); [done|done| |lia]. by destruct fs.
  - intros es p i (fs & Hl & -> & _). eexists. split; [done|]. pose proof (lo_short _ _ Hl) as Hs. pose proof (files_at_length h _ fs (lo_files _ _ Hl)) as El.
    destruct (flist_ i) as [|q ps] eqn:Ef; destruct fs as [|f fs]; try done.
    + rewrite bool_decide_true by done. apply (lf_index _ _ _ [] 0); by rewrite ?Ef.
    + rewrite bool_decide_false by done. rewrite (level_zlength _ _ Hl), wrap_small by (unfold zlength in *; cbn [length] in *; lia).
      replace (zlength (f :: fs) - 1) with (Z.of_nat (length fs)) by (unfold zlength; cbn [length]; lia).
      apply (lf_index _ _ _ (f :: fs)); [by rewrite Ef|done| |cbn [length]; lia]. cbn [length last_pos fmap list_fmap pred]. rewrite decide_True by lia. by rewrite length_fmap.
  - intros es p i key (fs & Hl & -> & _) Hkey. destruct (FindFile_at uc valid h _ fs key (lo_files _ _ Hl) (lo_ok _ _ Hl) (lo_sorted _ _ Hl) Hkey (lo_short _ _ Hl)) as (n & E & Hn).
    eexists _, _. cbn [it_Seek LevelFileNumIterator_Iterator]. unfold lf_Seek. rewrite E, res_bind_ret. split; [done|]. split; [by apply lf_seek_pos|].
    apply (lf_index _ _ _ fs n); [done..|]. apply Hn.
  - intros es n i Hi. pose proof (lf_Valid_at _ _ _ Hi) as Hv. destruct Hi as (fs & Hl & -> & Hn & Ei). pose proof (lo_short _ _ Hl) as Hs. eexists.
    cbn [it_Next LevelFileNumIterator_Iterator]. unfold lf_Next. rewrite Hv, assert_true, res_bind_ret by (by apply bool_decide_true). split; [done|].
    rewrite Ei, wrap_small by (unfold zlength in *; lia). replace (Z.of_nat n + 1) with (Z.of_nat (S n)) by lia.
    apply (lf_index _ _ _ fs (S n)); [done|done| |lia]. unfold next_pos. by rewrite length_fmap.
  - intros es n i Hi. pose proof (lf_Valid_at _ _ _ Hi) as Hv. destruct Hi as (fs & Hl & -> & Hn & Ei). pose proof (lo_short _ _ Hl) as Hs. eexists.
    cbn [it_Prev LevelFileNumIterator_Iterator]. unfold lf_Prev. rewrite Hv, assert_true, res_bind_ret by (by apply bool_decide_true). split; [done|]. rewrite Ei.
    destruct n as [|n].
    + cbn [Z.of_nat Z.eqb]. rewrite (level_zlength _ _ Hl), wrap_small by (unfold zlength in *; lia). by exists fs.
    + rewrite (proj2 (Z.eqb_neq _ _)), wrap_small by (unfold zlength in *; lia). replace (Z.of_nat (S n) - 1) with (Z.of_nat n) by lia.
      apply (lf_index _ _ _ fs n); [done|done| |lia]. cbn. by rewrite decide_True by lia.
Defined.

Lemma new_LevelFileNumIterator_at ps fs : level_of ps fs -> lf_at (file_entry <$> fs) None (new_LevelFileNumIterator ps).
Proof.
  intros Hl. exists fs. split; [done|]. split; [done|]. cbn. pose proof (lo_short _ _ Hl). rewrite (level_zlength _ _ Hl), wrap_small by (unfold zlength in *; lia). done.
Qed.
End level_ok.

(** What iterators rely on: the table cache gives an iterator over the table. *)
Class TableCacheIteratorsOk (TC J : Type) `{!Iterator J} `{!TableCacheIterators TC J} (uc : Comparator) (valid : bytes -> Prop) `{!ComparatorOk uc valid}
    `{!IteratorOk (InternalKeyComparator uc) (ivalid valid) J} : Type := {
  ti_serves : (Z -> Z -> list entry -> Prop) -> TC -> Prop;
  tc_NewIterator_ok : forall ro n sz tc (F : Z -> Z -> list entry -> Prop) es, ti_serves F tc -> F n sz es ->
    exists j tc' p, tc_NewIterator ro n sz tc = Ret (j, tc') /\ ti_serves F tc' /\ it_at (InternalKeyComparator uc) (ivalid valid) es p j;
}.

(** ** The tables of a level, one after the other *)
Section tables.
Context (uc : Comparator) (valid : bytes -> Prop) `{!ComparatorOk uc valid} (h : files_heap).
Abbreviation icmp := (InternalKeyComparator uc).
Abbreviation ival := (ivalid valid).
Abbreviation ilt := (key_lt icmp ival).
Context {TC J : Type} `{!Iterator J} `{!TableCacheIterators TC J} `{!IteratorOk icmp ival J} `{!TableCacheIteratorsOk TC J uc valid}.
Variables (options : ReadOptions) (contents : FilePtr -> list ientry) (F : Z -> Z -> list entry -> Prop).
Implicit Types (ps : list FilePtr) (fs : list FileMetaData).
Abbreviation holds := (ptr_holds uc valid h contents F).
Abbreviation table_of p := (ie_entry <$> contents p).

#[local] Instance level_files_contract : @IteratorOk icmp ival _ LevelFileNumIterator (LevelFileNumIterator_Iterator uc h) := LevelFileNumIterator_ok uc valid h.

Record level_holds ps fs : Prop := {
  lh_level : level_of uc valid h ps fs;
  lh_holds : Forall holds ps;
  lh_numbers : Forall (fun f => 0 <= number f < 2 ^ 64 /\ 0 <= file_size f < 2 ^ 64) fs;
  lh_differ : numbers_differ h ps;
}.

(** The table that an index value stands for. *)
Fixpoint block_of ps (v : bytes) : list entry :=
  match ps with
  | [] => []
  | p :: ps => if decide (file_handle <$> h !! p = Some v) then table_of p else block_of ps v
  end.

Lemma block_of_first ps v : (forall p, p ∈ ps -> file_handle <$> h !! p <> Some v) \/
  exists p, p ∈ ps /\ file_handle <$> h !! p = Some v /\ block_of ps v = table_of p.
Proof.
  induction ps as [|p ps IH]; [left; by intros p ?%not_elem_of_nil|]. cbn [block_of]. destruct (decide _) as [E|Hne]; [right; exists p; split; [left|done]|].
  destruct IH as [IH|(q & Hq & E & Eb)]; [left; by intros q [->|Hq]%elem_of_cons; [|apply IH]|right; exists q; split; [by right|done]].
Qed.

Lemma file_handle_number f g : 0 <= number f < 2 ^ 64 -> 0 <= number g < 2 ^ 64 -> file_handle f = file_handle g -> number f = number g.
Proof.
  intros Hf Hg E. assert (zlength (EncodeFixed64 (number f)) = zlength (EncodeFixed64 (number g))) as El by by rewrite !zlength_fixed64.
  apply app_inj_1 in E as [E _]; [|unfold zlength in El; lia]. by apply (fixed64_app_inj [] (number f) [] (number g)).
Qed.

Lemma level_file ps fs i f : level_holds ps fs -> fs !! i = Some f -> exists p, ps !! i = Some p /\ h !! p = Some f /\ file_holds uc valid f (contents p) /\
  F (number f) (file_size f) (table_of p) /\ block_of ps (file_handle f) = table_of p.
Proof.
  intros [Hl Hh Hn Hd] Hf. destruct (files_at_lookup h ps fs i f (lo_files _ _ _ _ _ Hl) Hf) as (p & Hp & Hpf). exists p. split; [done|]. split; [done|].
  destruct (Forall_lookup_1 _ _ _ _ Hh Hp) as (f' & Hpf' & Hfh & HF). rewrite Hpf in Hpf'. injection Hpf' as <-. split; [done|]. split; [done|].
  destruct (block_of_first ps (file_handle f)) as [Hno|(q & [j Hq]%list_elem_of_lookup_1 & Eq & ->)].
  { destruct (Hno p); [by eapply list_elem_of_lookup_2|by rewrite Hpf]. }
  destruct (Forall2_lookup_l _ _ _ _ _ (lo_files _ _ _ _ _ Hl) Hq) as (g & Hg & Hqg). rewrite Hqg in Eq. apply (inj Some) in Eq.
  assert (q = p) as ->; [|done]. apply (Hd q p g f); [by eapply list_elem_of_lookup_2..|done|done|].
  apply file_handle_number; [apply (Forall_lookup_1 _ _ _ _ Hn Hg)|apply (Forall_lookup_1 _ _ _ _ Hn Hf)|done].
Qed.

Lemma level_blocks ps fs : level_holds ps fs -> blocks (file_entry <$> fs) (block_of ps) = (fun p => table_of p) <$> ps.
Proof.
  intros Hl. unfold blocks. rewrite <- list_fmap_compose. apply list_eq. intros i. rewrite !list_lookup_fmap.
  pose proof (files_at_length h ps fs (lo_files _ _ _ _ _ (lh_level _ _ Hl))) as El. destruct (fs !! i) as [f|] eqn:Ef.
  - destruct (level_file ps fs i f Hl Ef) as (p & -> & _ & _ & _ & E). cbn. f_equal. exact E.
  - apply lookup_ge_None in Ef. rewrite (lookup_ge_None_2 ps) by lia. done.
Qed.

Lemma level_entries ps : concat ((fun p => table_of p) <$> ps) = ie_entry <$> entries_of contents ps.
Proof. unfold entries_of. induction ps as [|p ps IH]; [done|]. cbn [fmap list_fmap concat]. by rewrite fmap_app, IH. Qed.

Lemma StronglySorted_concat {A} (R : A -> A -> Prop) (ls : list (list A)) : Forall (Sorted.StronglySorted R) ls ->
  (forall i j l k x y, (i < j)%nat -> ls !! i = Some l -> ls !! j = Some k -> x ∈ l -> y ∈ k -> R x y) -> Sorted.StronglySorted R (concat ls).
Proof.
  induction 1 as [|l ls Hl _ IH]; intros Hc; [constructor|]. cbn [concat]. apply sorting.StronglySorted_app. split; [|split; [done|]].
  - intros x y Hx (j & k & Hk & Hy)%elem_of_concat. apply (Hc O (S j) l k); [lia|done..].
  - apply IH. intros i j a b x y Hij Ha Hb. apply (Hc (S i) (S j) a b); [lia|done..].
Qed.

Lemma level_table_lt ps fs i j p q x y : level_holds ps fs -> ps !! i = Some p -> ps !! j = Some q -> (i < j)%nat -> x ∈ contents p -> y ∈ contents q -> ilt (ie_key x) (ie_key y).
Proof.
  intros Hl Hi Hj Hij. apply (level_entries_lt uc valid h contents F ps fs i j p q x y (lh_holds _ _ Hl) (lo_files _ _ _ _ _ (lh_level _ _ Hl)) (lo_sorted _ _ _ _ _ (lh_level _ _ Hl)) Hi Hj Hij).
Qed.

Lemma level_entries_sorted ps fs : level_holds ps fs -> entries_ok icmp ival (ie_entry <$> entries_of contents ps).
Proof.
  intros Hl. assert (forall p, p ∈ ps -> entries_ok icmp ival (table_of p)) as Hp.
  { intros p Hp. destruct (Forall_elem _ _ _ (lh_holds _ _ Hl) Hp) as (f & _ & Hf & _). apply (io_sorted uc valid _ (fh_entries _ _ _ _ Hf)). }
  unfold entries_ok. assert ((ie_entry <$> entries_of contents ps).*1 = concat ((fun p => (table_of p).*1) <$> ps)) as ->.
  { unfold entries_of. clear. induction ps as [|p ps IH]; [done|]. cbn [fmap list_fmap concat]. by rewrite !fmap_app, IH. }
  split.
  - apply StronglySorted_concat; [rewrite Forall_fmap; apply List.Forall_forall; intros p Hin%list_elem_of_In; by apply (Hp p)|].
    intros i j l k x y Hij Hi Hj Hx Hy. apply list_lookup_fmap_Some in Hi as (p & -> & Hi), Hj as (q & -> & Hj).
    rewrite <- list_fmap_compose in Hx, Hy. apply list_elem_of_fmap in Hx as (x' & -> & Hx), Hy as (y' & -> & Hy). exact (level_table_lt ps fs i j p q x' y' Hl Hi Hj Hij Hx Hy).
  - apply Forall_concat. rewrite Forall_fmap. apply List.Forall_forall. intros p Hin%list_elem_of_In. by apply (Hp p).
Qed.

Lemma GetFileIterator_at f (tc : TC) es : ti_serves F tc -> F (number f) (file_size f) es -> 0 <= number f < 2 ^ 64 -> 0 <= file_size f < 2 ^ 64 ->
  exists j tc' p, GetFileIterator options (file_handle f) tc = Ret (j, tc') /\ ti_serves F tc' /\ it_at icmp ival es p j.
Proof.
  intros Htc HF Hn Hs. unfold GetFileIterator, file_handle, size. rewrite zlength_app, !zlength_fixed64. cbn [Z.eqb negb Z.add Pos.add].
  rewrite DecodeFixed64_Encode, res_bind_ret by done. rewrite <- (zlength_fixed64 (number f)), zdrop_app. rewrite <- (app_nil_r (EncodeFixed64 (file_size f))).
  rewrite DecodeFixed64_Encode, res_bind_ret by done. destruct (tc_NewIterator_ok options (number f) (file_size f) tc F es Htc HF) as (j & tc' & p & -> & Htc' & Hj).
  rewrite res_bind_ret. by exists (inr j), tc', p.
Qed.

(** What [TwoLevelFacts] asks of the index and the tables. *)
Lemma level_block ps fs i e (tc : TC) : level_holds ps fs -> (file_entry <$> fs) !! i = Some e -> ti_serves F tc ->
  exists j tc' p, GetFileIterator options e.2 tc = Ret (j, tc') /\ ti_serves F tc' /\ it_at icmp ival (block_of ps e.2) p j.
Proof.
  intros Hl (f & -> & Hf)%list_lookup_fmap_Some Htc. destruct (level_file ps fs i f Hl Hf) as (p & _ & _ & _ & HF & Eb). cbn [file_entry snd]. rewrite Eb.
  destruct (Forall_lookup_1 _ _ _ _ (lh_numbers _ _ Hl) Hf) as [Hn Hs]. by apply GetFileIterator_at.
Qed.

Lemma level_index_short ps fs : level_holds ps fs -> zlength (file_entry <$> fs) < 2 ^ 63.
Proof. intros Hl. pose proof (lo_short _ _ _ _ _ (lh_level _ _ Hl)). unfold zlength in *. rewrite length_fmap. lia. Qed.

Lemma level_tables_sorted ps fs : level_holds ps fs -> entries_ok icmp ival (concat (blocks (file_entry <$> fs) (block_of ps))).
Proof. intros Hl. rewrite (level_blocks ps fs Hl), level_entries. by eapply level_entries_sorted. Qed.

Lemma level_separates ps fs i e : level_holds ps fs -> (file_entry <$> fs) !! i = Some e ->
  Forall (fun a => ~ ilt e.1 a.1) (block_of ps e.2) /\
  forall k e', (i < k)%nat -> (file_entry <$> fs) !! k = Some e' -> Forall (fun a => ilt e.1 a.1) (block_of ps e'.2).
Proof.
  intros Hl (f & -> & Hf)%list_lookup_fmap_Some. destruct (level_file ps fs i f Hl Hf) as (p & Hp & _ & Hfh & _ & Eb). cbn [file_entry fst snd]. rewrite Eb. split.
  - rewrite Forall_fmap. apply List.Forall_forall. intros x Hx%list_elem_of_In. by apply (file_holds_bounds uc valid f (contents p)).
  - intros k e' Hik (g & -> & Hg)%list_lookup_fmap_Some. destruct (level_file ps fs k g Hl Hg) as (q & Hq & _ & _ & _ & Eb'). cbn [file_entry snd]. rewrite Eb'.
    rewrite Forall_fmap. apply List.Forall_forall. intros y Hy%list_elem_of_In. destruct (fh_largest _ _ _ _ Hfh) as (x & Hx & ->).
    apply (level_table_lt ps fs i k p q x y Hl Hp Hq Hik); [|done]. rewrite last_lookup in Hx. by eapply list_elem_of_lookup_2.
Qed.

Definition level_contract (a : list FilePtr * list FileMetaData) (Ha : level_holds a.1 a.2)
  : @IteratorOk icmp ival _ (LevelIterator TC J) (LevelIterator_Iterator uc h options) :=
  TwoLevelIterator_ok icmp ival (GetFileIterator options) (file_entry <$> a.2) (block_of a.1) (ti_serves F)
    (fun i e s => level_block a.1 a.2 i e s Ha) (level_index_short a.1 a.2 Ha) (level_tables_sorted a.1 a.2 Ha) (fun i e => level_separates a.1 a.2 i e Ha).

Definition LevelIterator_ok : @IteratorOk icmp ival _ (LevelIterator TC J) (LevelIterator_Iterator uc h options) :=
  family_ok icmp ival (LevelIterator_Iterator uc h options) (fun a => level_holds a.1 a.2) level_contract.

Lemma concat_files_at ps fs (tc : TC) : level_holds ps fs -> ti_serves F tc ->
  exists t, concat_files uc h ps tc = Ret t /\ @it_at icmp ival _ _ _ LevelIterator_ok (ie_entry <$> entries_of contents ps) None t.
Proof.
  intros Hl Htc. unfold concat_files.
  destruct (new_TwoLevelIterator_at icmp ival (Iterator0 := LevelFileNumIterator_Iterator uc h) (J := EmptyIterator + J) (S := TC) (file_entry <$> fs) (block_of ps) (ti_serves F) None (new_LevelFileNumIterator ps) tc) as (t & -> & Ht).
  { apply (new_LevelFileNumIterator_at uc valid h ps fs (lh_level _ _ Hl)). }
  { done. }
  exists t. split; [done|]. exists (ps, fs), Hl. cbn [fst snd level_contract TwoLevelIterator_ok it_at]. split; [|done]. by rewrite (level_blocks ps fs Hl), level_entries.
Qed.

(** ** The iterators of a compaction *)
#[local] Instance file_iterator_contract : @IteratorOk icmp ival _ (FileIterator TC J) (FileIterator_Iterator uc h options) :=
  @sum_ok icmp ival _ J (LevelIterator TC J) _ _ (LevelIterator_Iterator uc h options) LevelIterator_ok.

Abbreviation iterators_at := (@children_at icmp ival _ (FileIterator TC J) (FileIterator_Iterator uc h options) file_iterator_contract).

Lemma file_iterators_at ps (tc : TC) : Forall holds ps -> ti_serves F tc ->
  exists its tc', file_iterators h options ps tc = Ret (its, tc') /\ ti_serves F tc' /\ length its = length ps /\ iterators_at ((fun p => table_of p) <$> ps) its.
Proof.
  intros Hps. revert tc. induction Hps as [|p ps (f & Hpf & Hf & HF) _ IH]; intros tc Htc; [by exists [], tc; repeat constructor|].
  cbn [file_iterators]. rewrite (file_at_ok h p f Hpf), res_bind_ret. destruct (tc_NewIterator_ok options (number f) (file_size f) tc F _ Htc HF) as (j & tc1 & q & -> & Htc1 & Hj).
  rewrite res_bind_ret. destruct (IH tc1 Htc1) as (its & tc2 & -> & Htc2 & El & Hits). rewrite res_bind_ret. exists (inl j :: its), tc2.
  split; [done|]. split; [done|]. split; [cbn; lia|]. constructor; [by exists q|done].
Qed.

(** The tables of [inputs_[which]], [level] being theirs. *)
Definition input_holds (level : Z) ps : Prop := Forall holds ps /\ (level <> 0 -> exists fs, level_holds ps fs).

Lemma input_iterators_at level ps (tc : TC) : input_holds level ps -> ti_serves F tc ->
  exists its tc' ls, input_iterators uc h options level ps tc = Ret (its, tc') /\ ti_serves F tc' /\ zlength its <= (if level =? 0 then zlength ps else 1) /\
    iterators_at ls its /\ concat ls = ie_entry <$> entries_of contents ps.
Proof.
  intros [Hps Hlev] Htc. unfold input_iterators. destruct (bool_decide_reflect (ps = [])) as [->|Hne].
  { exists [], tc, []. split; [done|]. split; [done|]. split; [by destruct (level =? 0)|]. by split; constructor. }
  destruct (Z.eqb_spec level 0) as [->|Hl].
  - destruct (file_iterators_at ps tc Hps Htc) as (its & tc' & -> & Htc' & El & Hits). exists its, tc', ((fun p => table_of p) <$> ps).
    split; [done|]. split; [done|]. split; [unfold zlength; lia|]. split; [done|]. apply level_entries.
  - destruct (Hlev Hl) as (fs & Hlh). destruct (concat_files_at ps fs tc Hlh Htc) as (t & -> & Ht). rewrite res_bind_ret. eexists _, tc, [ie_entry <$> entries_of contents ps].
    split; [done|]. split; [done|]. split; [done|]. split; [constructor; [by exists None|constructor]|]. cbn. by rewrite app_nil_r.
Qed.
End tables.

Section compaction_input.
Context (uc : Comparator) (valid : bytes -> Prop) `{!ComparatorOk uc valid} (h : files_heap).
Context {TC J : Type} `{!Iterator J} `{!TableCacheIterators TC J} `{!IteratorOk (InternalKeyComparator uc) (ivalid valid) J} `{!TableCacheIteratorsOk TC J uc valid}.
Variables (paranoid_checks : bool) (contents : FilePtr -> list ientry) (F : Z -> Z -> list entry -> Prop).

Definition InputIterator_ok : @IteratorOk (InternalKeyComparator uc) (ivalid valid) _ (InputIterator TC J) (InputIterator_Iterator uc h paranoid_checks) :=
  @NewMergingIterator_ok _ _ _ (FileIterator TC J) (FileIterator_Iterator uc h (compaction_options paranoid_checks))
    (file_iterator_contract uc valid h (compaction_options paranoid_checks) contents F).

Lemma MakeInputIterator_at c (tc : TC) es : 0 <= level_ c -> input_holds uc valid h contents F (level_ c) (inputs0 c) -> input_holds uc valid h contents F (level_ c + 1) (inputs1 c) ->
  ti_serves F tc -> entries_ok (InternalKeyComparator uc) (ivalid valid) es -> es ≡ₚ ie_entry <$> entries_of contents (inputs0 c ++ inputs1 c) ->
  exists it tc' p, MakeInputIterator uc h paranoid_checks c tc = Ret (it, tc') /\ ti_serves F tc' /\ @it_at _ _ _ _ _ InputIterator_ok es p it.
Proof.
  intros Hc H0 H1 Htc Hes Hp. unfold MakeInputIterator. set (options := compaction_options paranoid_checks).
  destruct (input_iterators_at uc valid h options contents F _ _ tc H0 Htc) as (its0 & tc0 & ls0 & -> & Htc0 & Hn0 & Hi0 & E0). rewrite res_bind_ret.
  destruct (input_iterators_at uc valid h options contents F _ _ tc0 H1 Htc0) as (its1 & tc1 & ls1 & -> & Htc1 & Hn1 & Hi1 & E1). rewrite res_bind_ret.
  rewrite assert_true, res_bind_ret.
  2: { apply Z.leb_le. rewrite zlength_app. rewrite (proj2 (Z.eqb_neq (level_ c + 1) 0)) in Hn1 by lia. destruct (level_ c =? 0); lia. }
  destruct (@NewMergingIterator_at _ _ _ (FileIterator TC J) (FileIterator_Iterator uc h options) (file_iterator_contract uc valid h options contents F)
    (ls0 ++ ls1) (its0 ++ its1) es) as (it & p & -> & Hit); [by apply Forall2_app|done| |].
  { rewrite Hp, concat_app, E0, E1. unfold entries_of. by rewrite fmap_app, concat_app, fmap_app. }
  rewrite res_bind_ret. by exists it, tc1, p.
Qed.
End compaction_input.
