(* ===== verification/TableCache.v ===== *)
(** * LevelDB: the table cache (table_cache.cc, table_cache.h)

    Open tables by file number, in the LRU cache; then its contract: lookups
    and iterators see the entries of the table file, whether the table was in
    the cache or not.  The state holds the environment and the block cache
    of the options, too. *)
From S2P Require Import Prelude LdbBase Coding Comparator DbFormat Iterator Block TwoLevel TwoLevelFacts Format Filter FilterFacts TableBuilder Table TableBuild TableFacts TableRoundtrip Cache BlockCaches Filename Version LevelIter.

(** What the table cache asks of the environment. *)
Class TableEnv (E R : Type) : Type := {
  env_NewRandomAccessFile : bytes -> E -> Status * R * E;
}.

Record TableAndFile (R : Type) : Type := MkTableAndFile {
  tf_file : R;
  tf_table : Table R;
}.
Arguments MkTableAndFile {R}. Arguments tf_file {R}. Arguments tf_table {R}.

(** [env_], [cache_] and [options_.block_cache]. *)
Record TableCacheState (E R C : Type) : Type := MkTableCacheState {
  tc_env : E;
  tc_cache : ShardedLRUCache (TableAndFile R);
  tc_blocks : option C;
}.
Arguments MkTableCacheState {E R C}. Arguments tc_env {E R C}. Arguments tc_cache {E R C}. Arguments tc_blocks {E R C}.

(** The iterator of a table with the handle that its cleanup releases. *)
Record TableIter (R C : Type) : Type := MkTableIter {
  ti_table : Table R;
  ti_options : ReadOptions;
  ti_handle : Handle;
  ti_iter : TwoLevelIterator (EmptyIterator + BlockIter) (EmptyIterator + BlockIter) (option C);
}.
Arguments MkTableIter {R C}. Arguments ti_table {R C}. Arguments ti_options {R C}. Arguments ti_handle {R C}. Arguments ti_iter {R C}.

Section table_cache.
Context {E R C : Type} `{!TableEnv E R} `{!RandomAccessFile R} `{!BlockCache C}.
Variables (dbname : bytes) (opt : Options).
Implicit Types (tc : TableCacheState E R C) (i : TableIter R C).

Definition set_tc_env (env : E) tc : TableCacheState E R C := MkTableCacheState env (tc_cache tc) (tc_blocks tc).
Definition set_tc_cache (s : ShardedLRUCache (TableAndFile R)) tc : TableCacheState E R C := MkTableCacheState (tc_env tc) s (tc_blocks tc).
Definition set_tc_blocks (b : option C) tc : TableCacheState E R C := MkTableCacheState (tc_env tc) (tc_cache tc) b.

Definition new_TableCache (env : E) (blocks : option C) (entries : Z) : res (TableCacheState E R C) :=
  let! s := NewLRUCache entries in Ret (MkTableCacheState env s blocks).

(** Open the file of a table, under its new or its old name. *)
Definition open_table_file (file_number : Z) (env : E) : res (Status * R * E) :=
  let! fname := TableFileName dbname file_number in
  let '(s, file, env) := env_NewRandomAccessFile fname env in
  if ok s then Ret (s, file, env)
  else
    let! old_fname := SSTTableFileName dbname file_number in
    let '(s', file, env) := env_NewRandomAccessFile old_fname env in
    Ret (if ok s' then Status_OK else s, file, env).

Definition FindTable (file_number file_size : Z) tc : res (Status * option Handle * TableCacheState E R C) :=
  let key := EncodeFixed64 file_number in
  let! '(handle, s) := sharded_Lookup key (tc_cache tc) in
  let tc := set_tc_cache s tc in
  match handle with
  | Some handle => Ret (Status_OK, Some handle, tc)
  | None =>
      let! '(s, file, env) := open_table_file file_number (tc_env tc) in
      let tc := set_tc_env env tc in
      let! '(s, table, blocks) := (if ok s then Open opt file file_size (tc_blocks tc) else Ret (s, None, tc_blocks tc)) in
      let tc := set_tc_blocks blocks tc in
      if negb (ok s) then
        let! _ := assert_ (match table with None => true | Some _ => false end) in
        Ret (s, None, tc)
      else
        let! table := of_option table in
        let! '(handle, cache) := sharded_Insert key (MkTableAndFile file table) 1 (tc_cache tc) in
        Ret (s, Some handle, set_tc_cache cache tc)
  end.

(** [cache->Release(h)]. *)
Definition UnrefEntry (h : Handle) tc : res (TableCacheState E R C) :=
  let! s := sharded_Release h (tc_cache tc) in Ret (set_tc_cache s tc).

Definition table_cache_NewIterator (options : ReadOptions) (file_number file_size : Z) tc : res ((EmptyIterator + TableIter R C) * TableCacheState E R C) :=
  let! '(s, handle, tc) := FindTable file_number file_size tc in
  if negb (ok s) then Ret (inl (NewErrorIterator s), tc)
  else
    let! handle := of_option handle in
    let! tf := sharded_Value handle (tc_cache tc) in
    let! result := table_NewIterator (tf_table tf) (tc_blocks tc) in
    Ret (inr (MkTableIter (tf_table tf) options handle result), tc).

Definition table_cache_Get {A} (options : ReadOptions) (file_number file_size : Z) (k : bytes) (arg : A) (handle_result : A -> bytes -> bytes -> res A) tc
  : res (Status * A * TableCacheState E R C) :=
  let! '(s, handle, tc) := FindTable file_number file_size tc in
  if ok s then
    let! handle := of_option handle in
    let! tf := sharded_Value handle (tc_cache tc) in
    let! '(s, arg, blocks) := InternalGet (tf_table tf) options k arg handle_result (tc_blocks tc) in
    let! tc := UnrefEntry handle (set_tc_blocks blocks tc) in
    Ret (s, arg, tc)
  else Ret (s, arg, tc).

Definition Evict (file_number : Z) tc : res (TableCacheState E R C) :=
  let! s := sharded_Erase (EncodeFixed64 file_number) (tc_cache tc) in Ret (set_tc_cache s tc).

(** ** The interfaces that the table cache implements *)
#[export] Instance table_cache_TableCache : TableCache (TableCacheState E R C) := {| tc_Get := @table_cache_Get |}.

(** Iterators run the operations of the two-level iterator of their table. *)
Definition on_table_iter (f : forall HI : Iterator (TwoLevelIterator (EmptyIterator + BlockIter) (EmptyIterator + BlockIter) (option C)),
    TwoLevelIterator (EmptyIterator + BlockIter) (EmptyIterator + BlockIter) (option C) ->
    res (TwoLevelIterator (EmptyIterator + BlockIter) (EmptyIterator + BlockIter) (option C))) i : res (TableIter R C) :=
  let! t := f (TwoLevelIterator_Iterator (BlockReader (ti_table i) (ti_options i))) (ti_iter i) in
  Ret (MkTableIter (ti_table i) (ti_options i) (ti_handle i) t).

Abbreviation table_iterator i := (TwoLevelIterator_Iterator (BlockReader (ti_table i) (ti_options i))).

#[export] Instance TableIter_Iterator : Iterator (TableIter R C) := {|
  it_Valid i := @it_Valid _ (table_iterator i) (ti_iter i);
  it_SeekToFirst := on_table_iter (fun HI => @it_SeekToFirst _ HI);
  it_SeekToLast := on_table_iter (fun HI => @it_SeekToLast _ HI);
  it_Seek k := on_table_iter (fun HI => @it_Seek _ HI k);
  it_Next := on_table_iter (fun HI => @it_Next _ HI);
  it_Prev := on_table_iter (fun HI => @it_Prev _ HI);
  it_key i := @it_key _ (table_iterator i) (ti_iter i);
  it_value i := @it_value _ (table_iterator i) (ti_iter i);
  it_status i := @it_status _ (table_iterator i) (ti_iter i);
|}.

(** For clients that do not delete their iterators, the handle is given up at once. *)
Definition new_iterator_released (options : ReadOptions) (file_number file_size : Z) tc : res ((EmptyIterator + TableIter R C) * TableCacheState E R C) :=
  let! '(it, tc) := table_cache_NewIterator options file_number file_size tc in
  let! tc := (match it with inr i => UnrefEntry (ti_handle i) tc | inl _ => Ret tc end) in
  Ret (it, tc).

#[export] Instance table_cache_Iterators : TableCacheIterators (TableCacheState E R C) (EmptyIterator + TableIter R C) := {|
  tc_NewIterator := new_iterator_released;
|}.
End table_cache.

(** ** The contract *)

(** An environment on which nothing fails: [env_file name contents e]. *)
Class TableEnvOk (E R : Type) `{!TableEnv E R} `{RandomReadableFile R} : Type := {
  env_file : bytes -> bytes -> E -> Prop;
  env_NewRandomAccessFile_ok : forall name contents e, env_file name contents e ->
    exists f e', env_NewRandomAccessFile name e = (Status_OK, f, e') /\ raf_contents f = contents /\
      forall n b, env_file n b e -> env_file n b e';
}.

Section table_cache_ok.
Context (uc : Comparator) (valid : bytes -> Prop) `{!ComparatorOk uc valid}.
Abbreviation icmp := (InternalKeyComparator uc).
Abbreviation ival := (ivalid valid).
Variables (dbname : bytes) (paranoid : bool) (bsize interval : Z) (comp : CompressionType) (policy : option FilterPolicy) (cost : Z).
Abbreviation opt := (MkOptions icmp paranoid bsize interval comp policy).
Hypothesis Hpolicy : forall p, policy = Some p -> FilterPolicyOk p ival same_user_key cost /\ bytes_ok (fp_Name p).

(** The bytes of a table with these entries. *)
Definition holds_table (contents : bytes) (es : list entry) : Prop :=
  exists ws, table_layout icmp ival same_user_key cost policy contents ws /\ table_entries ws = es.

Context {E R C : Type} `{!TableEnv E R} `{!RandomAccessFile R} `{!RandomReadableFile R} `{!BlockCache C} `{!BlockCacheOk C} `{!TableEnvOk E R}.
Implicit Types (tc : TableCacheState E R C) (t : Table R) (es : list entry) (F : Z -> Z -> list entry -> Prop).

(** An open table with these entries. *)
Definition is_table t es : Prop := exists f ws idx,
  table_layout icmp ival same_user_key cost policy (raf_contents f) ws /\ table_at ival same_user_key opt f ws t idx /\ table_entries ws = es.

(** What is cached under the key of a table. *)
Definition cached F (key : bytes) (tf : TableAndFile R) : Prop := exists es,
  is_table (tf_table tf) es /\ forall n sz es', 0 < n < 2 ^ 64 -> key = EncodeFixed64 n -> F n sz es' -> es' = es.

Definition stored_table (n sz : Z) es tc : Prop := 0 < n < 2 ^ 64 /\ exists name contents,
  TableFileName dbname n = Ret name /\ env_file name contents (tc_env tc) /\ sz = zlength contents /\ holds_table contents es.

(** There is no block cache, and the tables of [F] are there. *)
Record tables_served F tc : Prop := {
  ts_files : forall n sz es, F n sz es -> stored_table n sz es tc;
  ts_numbers : forall n sz sz' es es', F n sz es -> F n sz' es' -> es' = es;
  ts_cache : sharded_ok (cached F) (tc_cache tc);
  ts_blocks : tc_blocks tc = None;
}.

Lemma tables_served_set F tc tc' s : tables_served F tc -> (forall n b, env_file n b (tc_env tc) -> env_file n b (tc_env tc')) -> tc_blocks tc' = None ->
  sharded_ok (cached F) s -> tables_served F (set_tc_cache s tc').
Proof.
  intros [Hf Hn _ _] Hkeep Hb Hs. split; [|done|done|done]. intros n sz es (Hrange & name & contents & En & He & Hsz)%Hf. split; [done|].
  exists name, contents. split; [done|]. split; [by apply Hkeep|done].
Qed.

(** A handle on the table of the file [n]. *)
Record holding F (n : Z) (h : Handle) t es tc tc' : Prop := {
  ho_value : exists tf, sharded_Value h (tc_cache tc') = Ret tf /\ tf_table tf = t;
  ho_table : is_table t es;
  ho_entries : forall sz es', F n sz es' -> es' = es;
  ho_blocks : tc_blocks tc' = None;
  ho_release : exists tc2, UnrefEntry h tc' = Ret tc2 /\ tables_served F tc2 /\ forall name b, env_file name b (tc_env tc) -> env_file name b (tc_env tc2);
}.

Lemma holding_intro F n h tf es tc tc' : tables_served F tc -> (forall name b, env_file name b (tc_env tc) -> env_file name b (tc_env tc')) -> tc_blocks tc' = None ->
  handle_on (cached F) (tc_cache tc') h tf -> is_table (tf_table tf) es -> (forall sz es', F n sz es' -> es' = es) -> holding F n h (tf_table tf) es tc tc'.
Proof.
  intros Hs Hkeep Hb (Hv & s & Hr & Hs') Ht He. split; [by exists tf|done..|]. exists (set_tc_cache s tc'). unfold UnrefEntry. rewrite Hr, res_bind_ret.
  split; [done|]. split; [by eapply tables_served_set|done].
Qed.

Lemma FindTable_ok F n sz es tc : tables_served F tc -> stored_table n sz es tc -> (forall sz' es', F n sz' es' -> es' = es) ->
  exists h tc' t es', FindTable dbname opt n sz tc = Ret (Status_OK, Some h, tc') /\ holding F n h t es' tc tc'.
Proof.
  intros Hs (Hn & name & contents & Ename & Hfile & -> & ws & Hlay & Hes) He. pose proof Hs as [_ _ Hcache Hblocks]. unfold FindTable.
  destruct (sharded_Lookup_ok (cached F) (EncodeFixed64 n) _ Hcache) as (o & s & -> & Ho). rewrite res_bind_ret. destruct o as [h|].
  { destruct Ho as (tf & (es' & Ht & Hes') & Hh). exists h, (set_tc_cache s tc), (tf_table tf), es'. split; [done|]. apply holding_intro; try done. intros sz es2. by apply Hes'. }
  unfold open_table_file. rewrite Ename, res_bind_ret. cbn [tc_env set_tc_cache]. destruct (env_NewRandomAccessFile_ok name contents _ Hfile) as (f & env & -> & <- & Hkeep).
  change (ok Status_OK) with true. cbn iota. rewrite res_bind_ret. cbn [tc_blocks set_tc_env set_tc_cache]. change (ok Status_OK) with true. cbn iota.
  destruct (Open_holds ival same_user_key cost opt) with (f := f) (ws := ws) (cache := tc_blocks tc) as (t & idx & blocks & -> & Ht & Hb); [done..|].
  rewrite Hblocks in Hb. subst blocks. rewrite res_bind_ret. change (negb (ok Status_OK)) with false. cbn [of_option]. rewrite res_bind_ret.
  destruct (sharded_Insert_ok (cached F) (EncodeFixed64 n) (MkTableAndFile f t) 1 s Ho) as (h & s2 & Ei & Hh); [|lia|].
  { exists es. split; [by exists f, ws, idx|]. intros m sz es' Hm Ek. assert (m = n) as ->; [|apply He]. symmetry. apply (fixed64_app_inj [] n [] m); [lia|lia|done]. }
  cbn [tc_cache set_tc_blocks set_tc_env set_tc_cache]. rewrite Ei, res_bind_ret. eexists h, _, t, es. split; [done|].
  apply (holding_intro F n h (MkTableAndFile f t)); try done. by exists f, ws, idx.
Qed.

(** ** Lookups *)
Lemma read_data_block_no_cache ro h t s o (cache : option C) : read_data_block ro h t None = Ret (s, o, cache) -> cache = None.
Proof.
  unfold read_data_block. destruct (ReadBlock _ _ _) as [[s2 bc]| |]; [rewrite res_bind_ret|done..].
  destruct (ok s2); [|by intros [= _ _ <-]]. destruct (new_Block _); [rewrite res_bind_ret|done..]. by intros [= _ _ <-].
Qed.

Lemma BlockReader_no_cache t ro v i (cache : option C) : BlockReader t ro v None = Ret (i, cache) -> cache = None.
Proof.
  unfold BlockReader. destruct (BlockHandle_DecodeFrom _ v) as [[[s h] rest]| |]; [rewrite res_bind_ret|done..].
  match goal with |- (let! _ := ?x in _) = _ -> _ => destruct x as [[[s2 o] c]| |] eqn:E2; [rewrite res_bind_ret|done..] end.
  assert (c = None) as -> by (destruct (ok s); [by eapply read_data_block_no_cache|by injection E2]).
  destruct o as [b|]; [|by intros [= _ <-]]. destruct (NewIterator _ _); [rewrite res_bind_ret|done..]. by intros [= _ <-].
Qed.

Lemma InternalGet_no_cache {A} t ro k (arg : A) handle_result s a (cache : option C) : InternalGet t ro k arg handle_result None = Ret (s, a, cache) -> cache = None.
Proof.
  unfold InternalGet. destruct (index_iterator t) as [i| |]; [rewrite res_bind_ret|done..]. destruct (it_Seek k i) as [i2| |]; [rewrite res_bind_ret|done..].
  match goal with |- (let! _ := ?x in _) = _ -> _ => destruct x as [[[s2 a2] c]| |] eqn:E2; [rewrite res_bind_ret|done..] end.
  assert (c = None) as ->.
  { destruct (it_Valid i2); [|by injection E2]. destruct (it_value i2) as [v| |]; [rewrite res_bind_ret in E2|done..].
    destruct (filtered_out t v k) as [skip| |]; [rewrite res_bind_ret in E2|done..]. destruct skip; [by injection E2|].
    destruct (BlockReader t ro v None) as [[b c2]| |] eqn:Eb; [rewrite res_bind_ret in E2|done..]. apply BlockReader_no_cache in Eb as ->.
    destruct (it_Seek k b) as [b2| |]; [rewrite res_bind_ret in E2|done..].
    match type of E2 with (let! _ := ?x in _) = _ => destruct x; [rewrite res_bind_ret in E2|done..] end.
    destruct (it_status b2); [rewrite res_bind_ret in E2|done..]. by injection E2. }
  match goal with |- (let! _ := ?x in _) = _ -> _ => destruct x; [rewrite res_bind_ret|done..] end. by intros [= _ _ <-].
Qed.

Lemma is_table_Get {A} t es ro k (arg : A) handle_result : is_table t es -> ival k ->
  exists p, seek_pos icmp ival es k p /\
   ((exists i e, p = Some i /\ es !! i = Some e /\
       InternalGet t ro k arg handle_result None = let! arg := handle_result arg e.1 e.2 in Ret (Status_OK, arg, @None C)) \/
    (InternalGet t ro k arg handle_result None = Ret (Status_OK, arg, @None C) /\ forall i e, p = Some i -> es !! i = Some e -> ~ same_user_key e.1 k)).
Proof.
  intros (f & ws & idx & Hlay & Ht & <-) Hk.
  destruct (InternalGet_holds ival same_user_key cost opt f ws Hlay idx (tt_length _ _ _ _ _ _ _ Ht) (tt_index_ok _ _ _ _ _ _ _ Ht) t ro k arg handle_result (@None C) Ht I Hk)
    as (p & cache & Hp & _ & Hcase). exists p. split; [exact Hp|]. destruct Hcase as [(i & e & Ei & He & Eg)|[Eg Hnot]].
  - left. exists i, e. split; [done|]. split; [done|]. rewrite Eg. destruct (handle_result arg e.1 e.2) eqn:Eh; [|done..].
    rewrite !res_bind_ret in *. by rewrite (InternalGet_no_cache _ _ _ _ _ _ _ _ Eg).
  - right. split; [|done]. by rewrite Eg, (InternalGet_no_cache _ _ _ _ _ _ _ _ Eg).
Qed.

(** The interface for versions. *)
#[export] Instance table_cache_ok : @TableCacheOk (TableCacheState E R C) (table_cache_TableCache dbname opt) uc valid _.
Proof.
  refine (@Build_TableCacheOk _ (table_cache_TableCache dbname opt) uc valid _ tables_served _).
  intros A ro n sz k arg handle tc F es Hs HF Hk. cbn [tc_Get table_cache_TableCache]. unfold table_cache_Get.
  destruct (FindTable_ok F n sz es tc Hs (ts_files F tc Hs n sz es HF)) as (h & tc1 & t & es' & -> & [(tf & Hv & <-) Ht He Hb Hrel]); [intros sz' es'; by eapply (ts_numbers F tc Hs)|].
  assert (es = es') as <- by (by apply (He sz)). rewrite res_bind_ret. change (ok Status_OK) with true. cbn [of_option]. rewrite res_bind_ret, Hv, res_bind_ret, Hb.
  destruct Hrel as (tc2 & Er & Hs2 & _). assert (set_tc_blocks None tc1 = tc1) as Eset by (destruct tc1; cbn in Hb |- *; by rewrite Hb).
  destruct (is_table_Get (tf_table tf) es ro k arg handle Ht Hk) as (p & Hp & Hcase). exists p, tc2. split; [exact Hp|]. split; [exact Hs2|].
  destruct Hcase as [(i & e & Ei & He2 & Eg)|[Eg Hnot]].
  - left. exists i, e. split; [done|]. split; [done|]. rewrite Eg. destruct (handle arg e.1 e.2); [|done..]. by rewrite !res_bind_ret, Eset, Er, !res_bind_ret.
  - right. split; [|done]. by rewrite Eg, !res_bind_ret, Eset, Er, !res_bind_ret.
Defined.

(** ** Iterators *)

Abbreviation table_iterator i := (TwoLevelIterator_Iterator (BlockReader (ti_table i) (ti_options i))).

(** [f ws idx]: the file, its blocks and its index. *)
Record iter_at es (p : position) (i : TableIter R C) : Prop := {
  ia_table : exists f ws idx (Hlay : table_layout icmp ival same_user_key cost policy (raf_contents f) ws) (Ht : table_at ival same_user_key opt f ws (ti_table i) idx),
    @it_at icmp ival _ _ (table_iterator i) (TableIterator_ok ival same_user_key cost opt f ws Hlay idx (tt_length _ _ _ _ _ _ _ Ht) (tt_index_ok _ _ _ _ _ _ _ Ht)
      (ti_table i) (ti_options i) Ht) es p (ti_iter i);
}.

Definition TableIter_ok : @IteratorOk icmp ival _ (TableIter R C) TableIter_Iterator.
Proof.
  refine (@Build_IteratorOk icmp ival _ (TableIter R C) TableIter_Iterator iter_at _ _ _ _ _ _ _ _ _); cbn [it_Valid it_status it_key it_value it_SeekToFirst it_SeekToLast it_Seek it_Next it_Prev TableIter_Iterator]; unfold on_table_iter.
  - intros es p i [(f & ws & idx & Hlay & Ht & Hi)]. exact (it_at_ok icmp ival _ _ _ Hi).
  - intros es p i [(f & ws & idx & Hlay & Ht & Hi)]. exact (it_Valid_at icmp ival _ _ _ Hi).
  - intros es p i [(f & ws & idx & Hlay & Ht & Hi)]. exact (it_status_at icmp ival _ _ _ Hi).
  - intros es n i [(f & ws & idx & Hlay & Ht & Hi)]. exact (it_entry_at icmp ival _ _ _ Hi).
  - intros es p i [(f & ws & idx & Hlay & Ht & Hi)]. destruct (it_SeekToFirst_at icmp ival _ _ _ Hi) as (t & -> & Hi'). rewrite res_bind_ret. eexists. split; [done|]. split. by exists f, ws, idx, Hlay, Ht.
  - intros es p i [(f & ws & idx & Hlay & Ht & Hi)]. destruct (it_SeekToLast_at icmp ival _ _ _ Hi) as (t & -> & Hi'). rewrite res_bind_ret. eexists. split; [done|]. split. by exists f, ws, idx, Hlay, Ht.
  - intros es p i k [(f & ws & idx & Hlay & Ht & Hi)] Hk. destruct (it_Seek_at icmp ival _ _ _ _ Hi Hk) as (t & p' & -> & Hp & Hi'). rewrite res_bind_ret. eexists _, p'. split; [done|]. split; [done|]. split. by exists f, ws, idx, Hlay, Ht.
  - intros es n i [(f & ws & idx & Hlay & Ht & Hi)]. destruct (it_Next_at icmp ival _ _ _ Hi) as (t & -> & Hi'). rewrite res_bind_ret. eexists. split; [done|]. split. by exists f, ws, idx, Hlay, Ht.
  - intros es n i [(f & ws & idx & Hlay & Ht & Hi)]. destruct (it_Prev_at icmp ival _ _ _ Hi) as (t & -> & Hi'). rewrite res_bind_ret. eexists. split; [done|]. split. by exists f, ws, idx, Hlay, Ht.
Defined.

#[export] Instance table_cache_iterator_ok : @IteratorOk icmp ival _ (EmptyIterator + TableIter R C) _ := @sum_ok icmp ival _ EmptyIterator (TableIter R C) _ _ _ TableIter_ok.

Lemma table_NewIterator_is t es : is_table t es -> forall ro h, exists it, table_NewIterator t (@None C) = Ret it /\ iter_at es None (MkTableIter t ro h it).
Proof.
  intros (f & ws & idx & Hlay & Ht & <-) ro h.
  destruct (table_NewIterator_at ival same_user_key cost opt f ws Hlay idx (tt_length _ _ _ _ _ _ _ Ht) (tt_index_ok _ _ _ _ _ _ _ Ht) t ro Ht (@None C) I) as (it & E1 & Hit).
  exists it. split; [exact E1|]. split. by exists f, ws, idx, Hlay, Ht.
Qed.

Lemma new_iterator_ok F n sz es ro tc : tables_served F tc -> stored_table n sz es tc -> (forall sz' es', F n sz' es' -> es' = es) ->
  exists i tc' es', new_iterator_released dbname opt ro n sz tc = Ret (inr i, tc') /\ iter_at es' None i /\ (forall sz' es2, F n sz' es2 -> es2 = es') /\
    tables_served F tc' /\ forall name b, env_file name b (tc_env tc) -> env_file name b (tc_env tc').
Proof.
  intros Hs Hst He. destruct (FindTable_ok F n sz es tc Hs Hst He) as (h & tc1 & t & es' & Ef & [(tf & Hv & <-) Ht He' Hb (tc2 & Er & Hs2 & Hkeep)]).
  destruct (table_NewIterator_is (tf_table tf) es' Ht ro h) as (it & Ei & Hit). exists (MkTableIter (tf_table tf) ro h it), tc2, es'.
  split; [|done]. unfold new_iterator_released, table_cache_NewIterator. rewrite Ef, res_bind_ret. change (negb (ok Status_OK)) with false. cbn [of_option].
  by rewrite res_bind_ret, Hv, res_bind_ret, Hb, Ei, !res_bind_ret; cbn [ti_handle]; rewrite Er, res_bind_ret.
Qed.

#[export] Instance table_cache_iterators_ok :
  @TableCacheIteratorsOk (TableCacheState E R C) (EmptyIterator + TableIter R C) _ (table_cache_Iterators dbname opt) uc valid _ table_cache_iterator_ok.
Proof.
  refine (@Build_TableCacheIteratorsOk _ _ _ (table_cache_Iterators dbname opt) uc valid _ table_cache_iterator_ok tables_served _).
  intros ro n sz tc F es Hs HF. cbn [tc_NewIterator table_cache_Iterators].
  destruct (new_iterator_ok F n sz es ro tc Hs (ts_files F tc Hs n sz es HF)) as (i & tc' & es' & E1 & Hi & He & Hs' & _); [intros sz' es'; by eapply (ts_numbers F tc Hs)|].
  assert (es = es') as <- by (by apply (He sz)). exists (inr i), tc', None. split; [exact E1|]. split; [exact Hs'|exact Hi].
Defined.

(** ** A new cache, and the removal of a table *)
Lemma new_TableCache_ok F (env : E) entries : 0 <= entries < 2 ^ 33 -> (forall n sz sz' es es', F n sz es -> F n sz' es' -> es' = es) ->
  (forall n sz es s, F n sz es -> stored_table n sz es (MkTableCacheState env s None)) ->
  exists tc, new_TableCache env None entries = Ret tc /\ tc_env tc = env /\ tables_served F tc.
Proof.
  intros He Hn Hf. unfold new_TableCache. destruct (NewLRUCache_ok (V := TableAndFile R) (cached F) entries He) as (s & -> & Hs). rewrite res_bind_ret.
  eexists. split; [done|]. split; [done|]. split; [|done|done|done]. intros n sz es HF. by apply Hf.
Qed.

Lemma Evict_ok F n tc : tables_served F tc -> exists tc', Evict n tc = Ret tc' /\ tc_env tc' = tc_env tc /\ tables_served F tc'.
Proof.
  intros Hs. unfold Evict. destruct (sharded_Erase_ok (cached F) (EncodeFixed64 n) _ (ts_cache F tc Hs)) as (s & -> & Hs'). rewrite res_bind_ret.
  eexists. split; [done|]. split; [done|]. apply (tables_served_set F tc tc); [done|done|apply (ts_blocks F tc Hs)|done].
Qed.

(** ** Histories of the table cache *)
Inductive tc_op : Type :=
| TcGet (n sz : Z) (k : bytes)
| TcIterate (n sz : Z)
| TcEvict (n : Z).

Inductive tc_result : Type :=
| TcGot (s : Status) (o : option entry)
| TcIterator (it : EmptyIterator + TableIter R C)
| TcEvicted.

Definition tc_step (ro : ReadOptions) (op : tc_op) tc : res (tc_result * TableCacheState E R C) :=
  match op with
  | TcGet n sz k => let! '(s, o, tc) := table_cache_Get dbname opt ro n sz k None (fun _ key value => Ret (Some (key, value))) tc in Ret (TcGot s o, tc)
  | TcIterate n sz => let! '(it, tc) := new_iterator_released dbname opt ro n sz tc in Ret (TcIterator it, tc)
  | TcEvict n => let! tc := Evict n tc in Ret (TcEvicted, tc)
  end.

Fixpoint tc_steps (ro : ReadOptions) (ops : list tc_op) tc : res (list tc_result * TableCacheState E R C) :=
  match ops with
  | [] => Ret ([], tc)
  | op :: ops => let! '(r, tc) := tc_step ro op tc in let! '(rs, tc) := tc_steps ro ops tc in Ret (r :: rs, tc)
  end.

(** The operations on tables that are there, with valid keys. *)
Definition tc_op_ok F (op : tc_op) : Prop :=
  match op with
  | TcGet n sz k => (exists es, F n sz es) /\ ival k
  | TcIterate n sz => exists es, F n sz es
  | TcEvict n => True
  end.

(** What they give: the answers and the entries of the file. *)
Definition tc_result_ok F (op : tc_op) (r : tc_result) : Prop :=
  match op, r with
  | TcGet n sz k, TcGot s o => exists es, F n sz es /\ answers ival same_user_key opt es k (s, o)
  | TcIterate n sz, TcIterator it => exists es, F n sz es /\ yields icmp ival es it
  | TcEvict n, TcEvicted => True
  | _, _ => False
  end.

Lemma tc_step_ok F ro op tc : tables_served F tc -> tc_op_ok F op -> exists r tc', tc_step ro op tc = Ret (r, tc') /\ tc_result_ok F op r /\ tables_served F tc'.
Proof.
  intros Hs. destruct op as [n sz k|n sz|n]; cbn [tc_op_ok tc_step].
  - intros [(es & HF) Hk]. destruct (@tc_Get_ok _ _ uc valid _ table_cache_ok (option entry) ro n sz k None (fun _ key value => Ret (Some (key, value))) tc F es Hs HF Hk)
      as (p & tc' & Hp & Hs' & Hcase). cbn [tc_Get table_cache_TableCache] in Hcase. destruct Hcase as [(i & e & -> & He & ->)|[-> Hnot]]; rewrite !res_bind_ret; eexists _, tc'; (split; [done|]); (split; [|exact Hs']).
    + exists es. split; [done|]. split; [done|]. exists (Some i). split; [exact Hp|]. exists i. split; [done|]. rewrite He. by destruct e.
    + exists es. split; [done|]. split; [done|]. by exists p.
  - intros (es & HF). destruct (@tc_NewIterator_ok _ _ _ _ uc valid _ _ table_cache_iterators_ok ro n sz tc F es Hs HF) as (j & tc' & p & E1 & Hs' & Hj). cbn [tc_NewIterator table_cache_Iterators] in E1.
    rewrite E1, res_bind_ret. eexists _, tc'. split; [done|]. split; [|exact Hs']. exists es. split; [done|]. by eapply it_at_yields.
  - intros _. destruct (Evict_ok F n tc Hs) as (tc' & -> & _ & Hs'). rewrite res_bind_ret. by eexists _, tc'.
Qed.

Lemma tc_steps_ok F ro ops tc : tables_served F tc -> Forall (tc_op_ok F) ops -> exists rs tc', tc_steps ro ops tc = Ret (rs, tc') /\ Forall2 (tc_result_ok F) ops rs.
Proof.
  intros Hs Ho. revert tc Hs. induction Ho as [|op ops Hop _ IH]; intros tc Hs; [by exists [], tc|]. cbn [tc_steps].
  destruct (tc_step_ok F ro op tc Hs Hop) as (r & tc1 & -> & Hr & Hs1). rewrite res_bind_ret. destruct (IH tc1 Hs1) as (rs & tc2 & -> & Hrs). rewrite res_bind_ret.
  exists (r :: rs), tc2. split; [done|]. by constructor.
Qed.

(** The table cache is transparent: starting from an empty cache of any
    capacity, any sequence of lookups, iterators and evictions answers from the
    entries of the table files, whether a table is opened, found in the LRU
    cache, or was evicted and is opened again. The files that are used hold
    tables and do not fail, and there is no block cache. *)
Theorem table_cache_transparent F (env : E) entries ro ops : 0 <= entries < 2 ^ 33 ->
  (forall n sz es s, F n sz es -> stored_table n sz es (MkTableCacheState env s None)) -> (forall n sz sz' es es', F n sz es -> F n sz' es' -> es' = es) ->
  Forall (tc_op_ok F) ops ->
  exists tc rs tc', new_TableCache env None entries = Ret tc /\ tc_steps ro ops tc = Ret (rs, tc') /\ Forall2 (tc_result_ok F) ops rs.
Proof.
  intros He Hf Hn Ho. destruct (new_TableCache_ok F env entries He Hn Hf) as (tc & Etc & _ & Hs). destruct (tc_steps_ok F ro ops tc Hs Ho) as (rs & tc' & E1 & Hrs).
  by exists tc, rs, tc'.
Qed.
End table_cache_ok.
