(* ===== verification/DbImpl.v ===== *)
(** * LevelDB: the database (db_impl.cc, db_impl.h, builder.cc, snapshot.h)

    Snapshots, flushes of memtables and compactions.  One thread runs: the
    mutex, the condition variable and log messages are left out, and what
    other threads would do while the mutex is released is not modelled.  The
    environment and the table cache, which reads files through it, are one
    state.  [outfile_] is the file of the table builder. *)
From S2P Require Import Prelude LdbBase Coding LogWriter Comparator DbFormat VersionEdit Arena SkipList MemTable Iterator Merger TwoLevel Format TableBuilder Version Filename VersionSet Compaction LevelIter.

(** ** snapshot.h: a doubly linked circular list; [head_] is at 0 *)
Abbreviation SnapshotPtr := nat (only parsing).

Record SnapshotImpl : Type := MkSnapshotImpl {
  snap_prev : SnapshotPtr;
  snap_next : SnapshotPtr;
  sequence_number : SequenceNumber;
}.

Definition SnapshotList : Type := gmap nat SnapshotImpl.

Definition snapshot_at (s : SnapshotList) (p : SnapshotPtr) : res SnapshotImpl := of_option (s !! p).
Definition set_snap_prev (p q : SnapshotPtr) (s : SnapshotList) : res SnapshotList :=
  let! x := snapshot_at s p in Ret (<[p := MkSnapshotImpl q (snap_next x) (sequence_number x)]> s).
Definition set_snap_next (p q : SnapshotPtr) (s : SnapshotList) : res SnapshotList :=
  let! x := snapshot_at s p in Ret (<[p := MkSnapshotImpl (snap_prev x) q (sequence_number x)]> s).

Definition new_SnapshotList : SnapshotList := {[0%nat := MkSnapshotImpl 0 0 0]}.
Definition snapshots_empty (s : SnapshotList) : res bool := let! x := snapshot_at s 0 in Ret (snap_next x =? 0)%nat.
Definition oldest (s : SnapshotList) : res SnapshotPtr :=
  let! e := snapshots_empty s in
  let! _ := assert_ (negb e) in
  let! x := snapshot_at s 0 in Ret (snap_next x).
Definition newest_snapshot (s : SnapshotList) : res SnapshotPtr :=
  let! e := snapshots_empty s in
  let! _ := assert_ (negb e) in
  let! x := snapshot_at s 0 in Ret (snap_prev x).

Definition New_snapshot (seq : SequenceNumber) (s : SnapshotList) : res (SnapshotPtr * SnapshotList) :=
  let! e := snapshots_empty s in
  let! in_order := (if e : bool then Ret true else let! p := newest_snapshot s in let! x := snapshot_at s p in Ret (sequence_number x <=? seq)) in
  let! _ := assert_ in_order in
  let p := fresh (dom s) in
  let! head := snapshot_at s 0 in
  let s := <[p := MkSnapshotImpl (snap_prev head) 0 seq]> s in
  let! s := set_snap_next (snap_prev head) p s in
  let! s := set_snap_prev 0 p s in
  Ret (p, s).

Definition Delete_snapshot (p : SnapshotPtr) (s : SnapshotList) : res SnapshotList :=
  let! x := snapshot_at s p in
  let! s := set_snap_next (snap_prev x) (snap_next x) s in
  let! x := snapshot_at s p in
  let! s := set_snap_prev (snap_next x) (snap_prev x) s in
  Ret (delete p s).

(** ** The state *)
Record CompactionStats : Type := MkCompactionStats { micros : Z; bytes_read : Z; bytes_written : Z }.
Definition new_CompactionStats : CompactionStats := MkCompactionStats 0 0 0.
Definition CompactionStats_Add (a c : CompactionStats) : CompactionStats :=
  MkCompactionStats (s64 (micros a + micros c)) (s64 (bytes_read a + bytes_read c)) (s64 (bytes_written a + bytes_written c)).

Record ManualCompaction : Type := MkManualCompaction {
  manual_level : Z;
  manual_done : bool;
  manual_begin : option InternalKey;
  manual_end : option InternalKey;
}.

(** [env_] stands for the environment and the table cache; [manual_compaction_] is
    the object it points to. *)
Record DBImpl (E W : Type) : Type := MkDBImpl {
  versions_ : VersionSet;
  descriptor_log_ : option (Writer W);
  env_ : E;
  pending_outputs_ : gset Z;
  snapshots_ : SnapshotList;
  bg_error_ : Status;
  stats_ : list CompactionStats;
  imm_ : option MemTable;
  has_imm_ : bool;
  shutting_down_ : bool;
  logfile_number_ : Z;
  manual_compaction_ : option ManualCompaction;
  background_compaction_scheduled_ : bool;
}.
Arguments MkDBImpl {E W}. Arguments versions_ {E W}. Arguments descriptor_log_ {E W}. Arguments env_ {E W}. Arguments pending_outputs_ {E W}.
Arguments snapshots_ {E W}. Arguments bg_error_ {E W}. Arguments stats_ {E W}. Arguments imm_ {E W}. Arguments has_imm_ {E W}.
Arguments shutting_down_ {E W}. Arguments logfile_number_ {E W}. Arguments manual_compaction_ {E W}. Arguments background_compaction_scheduled_ {E W}.

(** What the database asks of the environment besides [Env], and of the table
    cache besides [TableCacheIterators]. *)
Class DbEnv (E W : Type) : Type := {
  env_Close : W -> E -> Status * E;
  env_NowMicros : E -> Z * E;
  env_GetChildren : bytes -> E -> list bytes * E;
}.

Class TableCacheEvict (E : Type) : Type := {
  tc_Evict : Z -> E -> res E;
}.

(** An output of a compaction; [file_size] has no value before it is finished. *)
Record Output : Type := MkOutput {
  out_number : Z;
  out_file_size : option Z;
  out_smallest : InternalKey;
  out_largest : InternalKey;
}.

Record CompactionState (W : Type) : Type := MkCompactionState {
  compaction : Compaction;
  smallest_snapshot : SequenceNumber;
  outputs : list Output;
  builder : option (Rep W);
  total_bytes : Z;
}.
Arguments MkCompactionState {W}. Arguments compaction {W}. Arguments smallest_snapshot {W}. Arguments outputs {W}. Arguments builder {W}. Arguments total_bytes {W}.

Section db.
Context {E W G J : Type} `{!Env E W G} `{!WritableFile W} `{!SequentialFile G} `{!DbEnv E W} `{!Iterator J} `{!TableCacheIterators E J} `{!TableCacheEvict E} `{!NewArray}.
Variables (user_comparator : Comparator) (dbname comparator_name : bytes) (opt : Options) (max_file_size : Z).
Implicit Types (d : DBImpl E W) (c : CompactionState W).

Abbreviation log_and_apply := (LogAndApply user_comparator dbname comparator_name).

(** Field updates. *)
Definition set_versions (s : VersionSet) (log : option (Writer W)) (env : E) d : DBImpl E W :=
  MkDBImpl s log env (pending_outputs_ d) (snapshots_ d) (bg_error_ d) (stats_ d) (imm_ d) (has_imm_ d) (shutting_down_ d) (logfile_number_ d)
    (manual_compaction_ d) (background_compaction_scheduled_ d).
Definition set_env (env : E) d : DBImpl E W := set_versions (versions_ d) (descriptor_log_ d) env d.
Definition set_pending_outputs (s : gset Z) d : DBImpl E W :=
  MkDBImpl (versions_ d) (descriptor_log_ d) (env_ d) s (snapshots_ d) (bg_error_ d) (stats_ d) (imm_ d) (has_imm_ d) (shutting_down_ d) (logfile_number_ d)
    (manual_compaction_ d) (background_compaction_scheduled_ d).
Definition set_bg_error (s : Status) d : DBImpl E W :=
  MkDBImpl (versions_ d) (descriptor_log_ d) (env_ d) (pending_outputs_ d) (snapshots_ d) s (stats_ d) (imm_ d) (has_imm_ d) (shutting_down_ d) (logfile_number_ d)
    (manual_compaction_ d) (background_compaction_scheduled_ d).
Definition set_stats (s : list CompactionStats) d : DBImpl E W :=
  MkDBImpl (versions_ d) (descriptor_log_ d) (env_ d) (pending_outputs_ d) (snapshots_ d) (bg_error_ d) s (imm_ d) (has_imm_ d) (shutting_down_ d) (logfile_number_ d)
    (manual_compaction_ d) (background_compaction_scheduled_ d).
Definition set_imm (m : option MemTable) (has : bool) d : DBImpl E W :=
  MkDBImpl (versions_ d) (descriptor_log_ d) (env_ d) (pending_outputs_ d) (snapshots_ d) (bg_error_ d) (stats_ d) m has (shutting_down_ d) (logfile_number_ d)
    (manual_compaction_ d) (background_compaction_scheduled_ d).
Definition set_background (manual : option ManualCompaction) (scheduled : bool) d : DBImpl E W :=
  MkDBImpl (versions_ d) (descriptor_log_ d) (env_ d) (pending_outputs_ d) (snapshots_ d) (bg_error_ d) (stats_ d) (imm_ d) (has_imm_ d) (shutting_down_ d)
    (logfile_number_ d) manual scheduled.
Definition set_snapshots (l : SnapshotList) d : DBImpl E W :=
  MkDBImpl (versions_ d) (descriptor_log_ d) (env_ d) (pending_outputs_ d) l (bg_error_ d) (stats_ d) (imm_ d) (has_imm_ d) (shutting_down_ d) (logfile_number_ d)
    (manual_compaction_ d) (background_compaction_scheduled_ d).

Definition now d : Z * DBImpl E W := let '(t, env) := env_NowMicros (env_ d) in (t, set_env env d).

Definition GetSnapshot d : res (SnapshotPtr * DBImpl E W) :=
  let! '(p, l) := New_snapshot (vs_last_sequence (versions_ d)) (snapshots_ d) in Ret (p, set_snapshots l d).

Definition ReleaseSnapshot (p : SnapshotPtr) d : res (DBImpl E W) :=
  let! l := Delete_snapshot p (snapshots_ d) in Ret (set_snapshots l d).

Definition RecordBackgroundError (s : Status) d : DBImpl E W := if ok (bg_error_ d) then set_bg_error s d else d.

(** [stats_[level].Add(stats)]. *)
Definition add_stats (level : Z) (stats : CompactionStats) d : res (DBImpl E W) :=
  let! x := read_at (stats_ d) level in
  let! l := write_at (stats_ d) level (CompactionStats_Add x stats) in
  Ret (set_stats l d).

(** ** builder.cc *)
Section build_table.
Context {I : Type} `{!Iterator I}.

(** The loop over the entries: the builder and [meta->largest]. *)
Definition build_body (st : I * Rep W * InternalKey) : res (I * Rep W * InternalKey + I * Rep W * InternalKey) :=
  let '(iter, b, largest_key) := st in
  if it_Valid iter then
    let! key := it_key iter in
    let! value := it_value iter in
    let! b := tb_Add key value b in
    let! iter := it_Next iter in
    Ret (inl (iter, b, InternalKey_DecodeFrom key))
  else Ret (inr st).

(** Write the table into [f]: the status, [meta], the iterator and the environment. *)
Definition write_table (f : W) (iter : I) (meta : FileMetaData) (env : E) : res (Status * FileMetaData * I * E) :=
  let! b := new_TableBuilder opt f in
  let! k := it_key iter in
  let first := InternalKey_DecodeFrom k in
  let! '(iter, b, last) := while build_body (iter, b, largest meta) in
  let! '(s, b) := tb_Finish b in
  let file_sz := if ok s then FileSize b else file_size meta in
  let! _ := (if ok s then assert_ (0 <? file_sz) else Ret tt) in
  let! _ := delete_TableBuilder b in
  let meta := MkFileMetaData (refs meta) (allowed_seeks meta) (number meta) file_sz first last in
  let '(s, f) := if ok s then env_Sync (file b) else (s, file b) in
  let '(s, env) := if ok s then env_Close f env else (s, env) in
  if ok s then
    let! '(it, env) := tc_NewIterator new_ReadOptions (number meta) (file_size meta) env in
    let! s := it_status it in
    Ret (s, meta, iter, env)
  else Ret (s, meta, iter, env).

(** The end of [BuildTable]. *)
Definition keep_table (fname : bytes) (s : Status) (meta : FileMetaData) (iter : I) (env : E) : res (Status * FileMetaData * E) :=
  let! iter_status := it_status iter in
  let s := if negb (ok iter_status) then iter_status else s in
  Ret (if ok s && (0 <? file_size meta) then (s, meta, env) else (s, meta, (env_DeleteFile fname env).2)).

Definition BuildTable (iter : I) (meta : FileMetaData) (env : E) : res (Status * FileMetaData * E) :=
  let meta := MkFileMetaData (refs meta) (allowed_seeks meta) (number meta) 0 (smallest meta) (largest meta) in
  let! iter := it_SeekToFirst iter in
  let! fname := TableFileName dbname (number meta) in
  if it_Valid iter then
    let '(s, f, env) := env_NewWritableFile fname env in
    if negb (ok s) then Ret (s, meta, env)
    else
      let! '(s, meta, iter, env) := write_table f iter meta env in
      keep_table fname s meta iter env
  else keep_table fname Status_OK meta iter env.
End build_table.

(** ** Flushes *)

(** The iterator of a memtable. *)
#[local] Instance MemTableIterator (m : MemTable) : Iterator (option nat) := {|
  it_Valid := mem_Valid;
  it_SeekToFirst _ := mem_SeekToFirst m;
  it_SeekToLast _ := mem_SeekToLast m;
  it_Seek k _ := mem_Seek user_comparator m k;
  it_Next := mem_Next m;
  it_Prev := mem_Prev user_comparator m;
  it_key := mem_key m;
  it_value := mem_value m;
  it_status _ := Ret Status_OK;
|}.

(** [base] is null during recovery. *)
Definition WriteLevel0Table (mem : MemTable) (edit : VersionEdit) (base : option VersionPtr) d : res (Status * VersionEdit * DBImpl E W) :=
  let '(start_micros, d) := now d in
  let '(n, s) := NewFileNumber (versions_ d) in
  let d := set_pending_outputs ({[n]} ∪ pending_outputs_ d) (set_versions s (descriptor_log_ d) (env_ d) d) in
  let! '(s, meta, env) := @BuildTable _ (MemTableIterator mem) None (new_FileMetaData n 0 [] []) (env_ d) in
  let d := set_pending_outputs (pending_outputs_ d ∖ {[n]}) (set_env env d) in
  let! '(level, edit) :=
    (if ok s && (0 <? file_size meta) then
       let! min_user_key := InternalKey_user_key (smallest meta) in
       let! max_user_key := InternalKey_user_key (largest meta) in
       let! level := match base with
                     | Some p =>
                         let! v := version_at (versions_ d) p in
                         PickLevelForMemTableOutput user_comparator (vs_files (versions_ d)) max_file_size v min_user_key max_user_key
                     | None => Ret 0
                     end in
       Ret (level, AddFile level (number meta) (file_size meta) (smallest meta) (largest meta) edit)
     else Ret (0, edit)) in
  let '(t, d) := now d in
  let! d := add_stats level (MkCompactionStats (s64 (t - start_micros)) 0 (s64 (file_size meta))) d in
  Ret (s, edit, d).

(** The files of the directory that are not needed. *)
Definition keep_file (live : gset Z) (s : VersionSet) (number : Z) (type : FileType) : bool :=
  match type with
  | kLogFile => (vs_log_number s <=? number) || (number =? vs_prev_log_number s)
  | kDescriptorFile => vs_manifest_file_number s <=? number
  | kTableFile | kTempFile => bool_decide (number ∈ live)
  | kCurrentFile | kDBLockFile | kInfoLogFile => true
  end.

Fixpoint delete_obsolete (live : gset Z) (s : VersionSet) (filenames : list bytes) (env : E) : res E :=
  match filenames with
  | [] => Ret env
  | name :: filenames =>
      let! o := ParseFileName name in
      let! env :=
        match o with
        | Some (number, type) =>
            if keep_file live s number type then Ret env
            else
              let! env := (if bool_decide (type = kTableFile) then tc_Evict number env else Ret env) in
              Ret (env_DeleteFile (dbname ++ str "/" ++ name) env).2
        | None => Ret env
        end in
      delete_obsolete live s filenames env
  end.

Definition DeleteObsoleteFiles d : res (DBImpl E W) :=
  if negb (ok (bg_error_ d)) then Ret d
  else
    let! live := AddLiveFiles (versions_ d) (pending_outputs_ d) in
    let '(filenames, env) := env_GetChildren dbname (env_ d) in
    let! env := delete_obsolete live (versions_ d) filenames env in
    Ret (set_env env d).

(** [versions_->LogAndApply(edit, &mutex_)]. *)
Definition apply_edit (edit : VersionEdit) d : res (Status * DBImpl E W) :=
  let! '(s, vs, log, env) := log_and_apply edit (versions_ d) (descriptor_log_ d) (env_ d) in
  Ret (s, set_versions vs log env d).

Definition on_versions (f : VersionSet -> res VersionSet) d : res (DBImpl E W) :=
  let! s := f (versions_ d) in Ret (set_versions s (descriptor_log_ d) (env_ d) d).

Definition CompactMemTable d : res (DBImpl E W) :=
  let! imm := of_option (imm_ d) in
  let! base := of_option (vs_current (versions_ d)) in
  let! d := on_versions (Version_Ref base) d in
  let! '(s, edit, d) := WriteLevel0Table imm new_VersionEdit (Some base) d in
  let! d := on_versions (Version_Unref base) d in
  let s := if ok s && shutting_down_ d then IOError (str "Deleting DB during memtable compaction") else s in
  let! '(s, d) := (if ok s then apply_edit (SetLogNumber (logfile_number_ d) (SetPrevLogNumber 0 edit)) d else Ret (s, d)) in
  if ok s then
    let! _ := Unref imm in
    DeleteObsoleteFiles (set_imm None false d)
  else Ret (RecordBackgroundError s d).

(** ** Compactions *)
Definition new_CompactionState (x : Compaction) : CompactionState W := MkCompactionState x 0 [] None 0.
Definition set_compaction (x : Compaction) c : CompactionState W := MkCompactionState x (smallest_snapshot c) (outputs c) (builder c) (total_bytes c).
Definition set_smallest_snapshot (n : SequenceNumber) c : CompactionState W := MkCompactionState (compaction c) n (outputs c) (builder c) (total_bytes c).
Definition set_outputs (l : list Output) c : CompactionState W := MkCompactionState (compaction c) (smallest_snapshot c) l (builder c) (total_bytes c).
Definition set_builder (b : option (Rep W)) c : CompactionState W := MkCompactionState (compaction c) (smallest_snapshot c) (outputs c) b (total_bytes c).
Definition set_total_bytes (n : Z) c : CompactionState W := MkCompactionState (compaction c) (smallest_snapshot c) (outputs c) (builder c) n.

Definition current_output c : res Output := of_option (list.last (outputs c)).
(** Assign to members of [*current_output()]. *)
Definition update_output (f : Output -> Output) c : res (CompactionState W) :=
  let! o := current_output c in
  Ret (set_outputs (removelast (outputs c) ++ [f o]) c).

Definition CleanupCompaction c d : res (DBImpl E W) :=
  let! _ := (match builder c with
             | Some b => let! b := Abandon b in delete_TableBuilder b
             | None => Ret tt
             end) in
  Ret (set_pending_outputs (pending_outputs_ d ∖ list_to_set (out_number <$> outputs c)) d).

Definition OpenCompactionOutputFile c d : res (Status * CompactionState W * DBImpl E W) :=
  let! _ := assert_ (bool_decide (builder c = None)) in
  let '(file_number, vs) := NewFileNumber (versions_ d) in
  let d := set_pending_outputs ({[file_number]} ∪ pending_outputs_ d) (set_versions vs (descriptor_log_ d) (env_ d) d) in
  let c := set_outputs (outputs c ++ [MkOutput file_number None [] []]) c in
  let! fname := TableFileName dbname file_number in
  let '(s, f, env) := env_NewWritableFile fname (env_ d) in
  if ok s then let! b := new_TableBuilder opt f in Ret (s, set_builder (Some b) c, set_env env d)
  else Ret (s, c, set_env env d).

Section work.
Context {I : Type} `{!Iterator I}.

Definition FinishCompactionOutputFile (input : I) c (env : E) : res (Status * CompactionState W * E) :=
  let! b := of_option (builder c) in
  let! out := current_output c in
  let output_number := out_number out in
  let! _ := assert_ (negb (output_number =? 0)) in
  let! s := it_status input in
  let current_entries := NumEntries b in
  let! '(s, b) := (if ok s then tb_Finish b else let! b := Abandon b in Ret (s, b)) in
  let current_bytes := FileSize b in
  let! c := update_output (fun o => MkOutput (out_number o) (Some current_bytes) (out_smallest o) (out_largest o)) c in
  let c := set_total_bytes (u64 (total_bytes c + current_bytes)) c in
  let! _ := delete_TableBuilder b in
  let c := set_builder None c in
  let '(s, f) := if ok s then env_Sync (file b) else (s, file b) in
  let '(s, env) := if ok s then env_Close f env else (s, env) in
  if ok s && (0 <? current_entries) then
    let! '(iter, env) := tc_NewIterator new_ReadOptions output_number current_bytes env in
    let! s := it_status iter in
    Ret (s, c, env)
  else Ret (s, c, env).

Fixpoint add_outputs (level : Z) (l : list Output) (edit : VersionEdit) : res VersionEdit :=
  match l with
  | [] => Ret edit
  | out :: l =>
      let! sz := of_option (out_file_size out) in
      add_outputs level l (AddFile (level + 1) (out_number out) sz (out_smallest out) (out_largest out) edit)
  end.

Definition set_edit (edit : VersionEdit) (x : Compaction) : Compaction :=
  set_inputs (input_version_ x) edit (inputs0 x) (inputs1 x) (grandparents_ x) x.

Definition InstallCompactionResults c d : res (Status * CompactionState W * DBImpl E W) :=
  let x := compaction c in
  let! edit := AddInputDeletions (vs_files (versions_ d)) x (edit_ x) in
  let! edit := add_outputs (level_ x) (outputs c) edit in
  let! '(s, d) := apply_edit edit d in
  Ret (s, set_compaction (set_edit edit x) c, d).

(** [current_user_key], [has_current_user_key] and [last_sequence_for_key]. *)
Record KeyTracker : Type := MkKeyTracker {
  current_user_key : bytes;
  has_current_user_key : bool;
  last_sequence_for_key : SequenceNumber;
}.

Definition new_KeyTracker : KeyTracker := MkKeyTracker [] false kMaxSequenceNumber.

(** Whether the entry is dropped; [v] is the input version. *)
Definition drop_key (h : files_heap) (v : Version) (smallest : SequenceNumber) (key : bytes) (t : KeyTracker) (x : Compaction)
  : res (bool * KeyTracker * Compaction) :=
  let! o := ParseInternalKey key in
  match o with
  | None => Ret (false, new_KeyTracker, x)
  | Some ikey =>
      let! first := (if has_current_user_key t then
                       let! z := Compare user_comparator (user_key ikey) (current_user_key t) in Ret (negb (z =? 0))
                     else Ret true) in
      let t := if first : bool then MkKeyTracker (user_key ikey) true kMaxSequenceNumber else t in
      let! '(drop, x) :=
        (if last_sequence_for_key t <=? smallest then Ret (true, x)
         else if bool_decide (type ikey = kTypeDeletion) && (sequence ikey <=? smallest) then IsBaseLevelForKey user_comparator h v (user_key ikey) x
         else Ret (false, x)) in
      Ret (drop, MkKeyTracker (current_user_key t) (has_current_user_key t) (sequence ikey), x)
  end.

(** [compact->compaction->input_version_]. *)
Definition input_version c d : res Version :=
  let! p := of_option (input_version_ (compaction c)) in version_at (versions_ d) p.

(** Add the entry to the current output, which is opened if need be. *)
Definition add_entry (input : I) (key : bytes) c d : res (Status * CompactionState W * DBImpl E W) :=
  let! '(s, c, d) := (match builder c with Some _ => Ret (Status_OK, c, d) | None => OpenCompactionOutputFile c d end) in
  if negb (ok s) then Ret (s, c, d)
  else
    let! b := of_option (builder c) in
    let! c := (if NumEntries b =? 0 then
                 update_output (fun o => MkOutput (out_number o) (out_file_size o) (InternalKey_DecodeFrom key) (out_largest o)) c
               else Ret c) in
    let! c := update_output (fun o => MkOutput (out_number o) (out_file_size o) (out_smallest o) (InternalKey_DecodeFrom key)) c in
    let! value := it_value input in
    let! b := tb_Add key value b in
    let c := set_builder (Some b) c in
    if u64 (max_output_file_size_ (compaction c)) <=? FileSize b then
      let! '(s, c, env) := FinishCompactionOutputFile input c (env_ d) in Ret (s, c, set_env env d)
    else Ret (s, c, d).

(** The locals of the loop. *)
Record work_state : Type := MkWorkState {
  input : I;
  work_status : Status;
  tracker : KeyTracker;
  imm_micros : Z;
  compact : CompactionState W;
  work_db : DBImpl E W;
}.

(** "Prioritize immutable compaction work". *)
Definition prioritize_imm (imm : Z) d : res (Z * DBImpl E W) :=
  if has_imm_ d then
    let '(imm_start, d) := now d in
    let! d := (match imm_ d with Some _ => CompactMemTable d | None => Ret d end) in
    let '(t, d) := now d in
    Ret (s64 (imm + (t - imm_start)), d)
  else Ret (imm, d).

(** The files that [ShouldStopBefore] and [IsBaseLevelForKey] look at do not
    change during a compaction. *)
Definition work_body (st : work_state) : res (work_state + work_state) :=
  if negb (it_Valid (input st) && negb (shutting_down_ (work_db st))) then Ret (inr st)
  else
    let! '(imm, d) := prioritize_imm (imm_micros st) (work_db st) in
    let c := compact st in
    let h := vs_files (versions_ d) in
    let! key := it_key (input st) in
    let! '(stop, x) := ShouldStopBefore user_comparator max_file_size h key (compaction c) in
    let c := set_compaction x c in
    let! '(s, c, env) := (match builder c with
                          | Some _ => if stop : bool then FinishCompactionOutputFile (input st) c (env_ d) else Ret (Status_OK, c, env_ d)
                          | None => Ret (Status_OK, c, env_ d)
                          end) in
    let d := set_env env d in
    if negb (ok s) then Ret (inr (MkWorkState (input st) s (tracker st) imm c d))
    else
      let! v := input_version c d in
      let! '(drop, t, x) := drop_key h v (smallest_snapshot c) key (tracker st) (compaction c) in
      let c := set_compaction x c in
      let! '(s, c, d) := (if drop : bool then Ret (Status_OK, c, d) else add_entry (input st) key c d) in
      if negb (ok s) then Ret (inr (MkWorkState (input st) s t imm c d))
      else
        let! i := it_Next (input st) in
        Ret (inl (MkWorkState i s t imm c d)).

(** The end of the loop, before the locks are taken again: the status. *)
Definition finish_work (st : work_state) : res (Status * CompactionState W * DBImpl E W) :=
  let d := work_db st in
  let s := if ok (work_status st) && shutting_down_ d then IOError (str "Deleting DB during compaction") else work_status st in
  let! '(s, c, d) := (match builder (compact st) with
                      | Some _ => if ok s then
                                    let! '(s, c, env) := FinishCompactionOutputFile (input st) (compact st) (env_ d) in Ret (s, c, set_env env d)
                                  else Ret (s, compact st, d)
                      | None => Ret (s, compact st, d)
                      end) in
  let! s := (if ok s then it_status (input st) else Ret s) in
  Ret (s, c, d).
End work.

Definition add_sizes (h : files_heap) (files : list FilePtr) (n : Z) : res Z :=
  foldl (fun n p => let! n := n in let! f := file_at h p in Ret (s64 (u64 n + file_size f))) (Ret n) files.

(** [stats.bytes_written += compact->outputs[i].file_size]. *)
Fixpoint add_output_sizes (l : list Output) (n : Z) : res Z :=
  match l with
  | [] => Ret n
  | out :: l => let! sz := of_option (out_file_size out) in add_output_sizes l (s64 (u64 n + sz))
  end.

(** [compact->smallest_snapshot]. *)
Definition choose_smallest d : res SequenceNumber :=
  let! e := snapshots_empty (snapshots_ d) in
  if e : bool then Ret (vs_last_sequence (versions_ d))
  else let! p := oldest (snapshots_ d) in let! x := snapshot_at (snapshots_ d) p in Ret (sequence_number x).

(** What is done without the mutex: the status, [imm_micros] and the states. *)
Definition merge_inputs c d : res (Status * Z * CompactionState W * DBImpl E W) :=
  let! '(it, env) := MakeInputIterator user_comparator (vs_files (versions_ d)) (paranoid_checks opt) (compaction c) (env_ d) in
  let HI := InputIterator_Iterator user_comparator (vs_files (versions_ d)) (paranoid_checks opt) in
  let! it := @it_SeekToFirst _ HI it in
  let! st := while (@work_body _ HI) (MkWorkState it Status_OK new_KeyTracker 0 c (set_env env d)) in
  let! '(s, c, d) := @finish_work _ HI st in
  Ret (s, imm_micros st, c, d).

Definition DoCompactionWork c d : res (Status * CompactionState W * DBImpl E W) :=
  let '(start_micros, d) := now d in
  let! n := NumLevelFiles (level_ (compaction c)) (versions_ d) in
  let! _ := assert_ (0 <? n) in
  let! _ := assert_ (bool_decide (builder c = None)) in
  let! smallest := choose_smallest d in
  let! '(s, imm, c, d) := merge_inputs (set_smallest_snapshot smallest c) d in
  let '(t, d) := now d in
  let! read := add_sizes (vs_files (versions_ d)) (inputs0 (compaction c)) 0 in
  let! read := add_sizes (vs_files (versions_ d)) (inputs1 (compaction c)) read in
  let! written := add_output_sizes (outputs c) 0 in
  let! d := add_stats (level_ (compaction c) + 1) (MkCompactionStats (s64 (t - start_micros - imm)) read written) d in
  let! '(s, c, d) := (if ok s then InstallCompactionResults c d else Ret (s, c, d)) in
  Ret (s, c, if ok s then d else RecordBackgroundError s d).

(** ** Background work *)

(** A compaction that was picked: [is_manual] if the request was manual. *)
Definition run_compaction (is_manual : bool) (x : Compaction) d : res (Status * DBImpl E W) :=
  let h := vs_files (versions_ d) in
  let! trivial := (if is_manual then Ret false else IsTrivialMove max_file_size h x) in
  if trivial : bool then
    let! _ := assert_ (zlength (inputs0 x) =? 1) in
    let! p := read_at (inputs0 x) 0 in
    let! f := file_at h p in
    let edit := AddFile (level_ x + 1) (number f) (file_size f) (smallest f) (largest f) (DeleteFile (level_ x) (number f) (edit_ x)) in
    let! '(s, d) := apply_edit edit d in
    let d := if ok s then d else RecordBackgroundError s d in
    let! d := on_versions (delete_Compaction (set_edit edit x)) d in
    Ret (s, d)
  else
    let! '(s, c, d) := DoCompactionWork (new_CompactionState x) d in
    let d := if ok s then d else RecordBackgroundError s d in
    let! d := CleanupCompaction c d in
    let! '(x, vs) := ReleaseInputs (compaction c) (versions_ d) in
    let! d := DeleteObsoleteFiles (set_versions vs (descriptor_log_ d) (env_ d) d) in
    let! d := on_versions (delete_Compaction x) d in
    Ret (s, d).

(** The second component is [*manual_compaction_], for the caller that waits. *)
Definition BackgroundCompaction d : res (DBImpl E W * option ManualCompaction) :=
  match imm_ d with
  | Some _ => let! d := CompactMemTable d in Ret (d, manual_compaction_ d)
  | None =>
      match manual_compaction_ d with
      | Some m =>
          let! '(o, vs) := CompactRange user_comparator max_file_size (manual_level m) (manual_begin m) (manual_end m) (versions_ d) in
          let d := set_versions vs (descriptor_log_ d) (env_ d) d in
          match o with
          | None => Ret (set_background None (background_compaction_scheduled_ d) d, Some (MkManualCompaction (manual_level m) true (manual_begin m) (manual_end m)))
          | Some x =>
              let! p := of_option (list.last (inputs0 x)) in
              let! f := file_at (vs_files vs) p in
              let! '(s, d) := run_compaction true x d in
              let m := if negb (ok s) then MkManualCompaction (manual_level m) true (manual_begin m) (manual_end m)
                       else MkManualCompaction (manual_level m) false (Some (largest f)) (manual_end m) in
              Ret (set_background None (background_compaction_scheduled_ d) d, Some m)
          end
      | None =>
          let! '(o, vs) := PickCompaction user_comparator max_file_size (versions_ d) in
          let d := set_versions vs (descriptor_log_ d) (env_ d) d in
          match o with
          | None => Ret (d, None)
          | Some x => let! '(s, d) := run_compaction false x d in Ret (d, None)
          end
      end
  end.

(** [env_->Schedule] is [background_compaction_scheduled_]. *)
Definition MaybeScheduleCompaction d : res (DBImpl E W) :=
  if background_compaction_scheduled_ d then Ret d
  else if shutting_down_ d then Ret d
  else if negb (ok (bg_error_ d)) then Ret d
  else
    let! needs := (match imm_ d, manual_compaction_ d with None, None => NeedsCompaction (versions_ d) | _, _ => Ret true end) in
    Ret (if needs : bool then set_background (manual_compaction_ d) true d else d).

Definition BackgroundCall d : res (DBImpl E W * option ManualCompaction) :=
  let! _ := assert_ (background_compaction_scheduled_ d) in
  let! '(d, m) := (if shutting_down_ d then Ret (d, manual_compaction_ d)
                   else if negb (ok (bg_error_ d)) then Ret (d, manual_compaction_ d)
                   else BackgroundCompaction d) in
  let! d := MaybeScheduleCompaction (set_background (manual_compaction_ d) false d) in
  Ret (d, m).
End db.
