(* ===== verification/DbImplFacts.v ===== *)
(** * LevelDB's database, proved

    The list of snapshots; what a compaction may drop; the tables that a
    compaction and a flush write. *)
From S2P Require Import Prelude LdbBase Coding Crc32c LogWriter Comparator DbFormat VersionEdit Arena SkipList MemTable Iterator Block Merger TwoLevel TwoLevelFacts Format Filter FilterFacts TableBuilder TableBuild DbIterFacts TableRoundtrip Version VersionFacts Filename VersionSet VersionSetFacts Compaction LevelIter TableCache DbImpl.

(** ** What a compaction may drop *)
Section survivors.
Context (uc : Comparator) (valid : bytes -> Prop) `{!ComparatorOk uc valid}.
Variables (smallest : SequenceNumber) (base : bytes -> bool).
Implicit Types (xs ys zs : list ientry) (x y z : ientry).

(** [prev] is the entry before [x]. *)
Definition hidden (prev : option ientry) x : bool :=
  match prev with Some y => bool_decide (ie_user y = ie_user x) && (ie_seq y <=? smallest) | None => false end.
Definition obsolete x : bool := bool_decide (ie_type x = kTypeDeletion) && (ie_seq x <=? smallest) && base (ie_user x).

Fixpoint survivors (prev : option ientry) xs : list ientry :=
  match xs with
  | [] => []
  | x :: xs => if hidden prev x || obsolete x then survivors (Some x) xs else x :: survivors (Some x) xs
  end.

Definition prev_at (prev : option ientry) xs (i : nat) : option ientry := match i with O => prev | S j => xs !! j end.

Lemma survivors_elem prev xs x : x ∈ survivors prev xs <-> exists i, xs !! i = Some x /\ hidden (prev_at prev xs i) x = false /\ obsolete x = false.
Proof.
  revert prev. induction xs as [|y xs IH]; intros prev; [split; [by intros ?%not_elem_of_nil|by intros (? & ? & _)]|]. cbn [survivors].
  assert (x ∈ survivors (Some y) xs <-> exists i, (y :: xs) !! S i = Some x /\ hidden (prev_at prev (y :: xs) (S i)) x = false /\ obsolete x = false) as Hrest.
  { rewrite IH. split; intros (i & Hi & Hh & Ho); exists i; (split; [done|]); (split; [|done]); by destruct i. }
  destruct (hidden prev y || obsolete y) eqn:E.
  - rewrite Hrest. split; [intros (i & ?); by exists (S i)|]. intros ([|i] & Hi & Hh & Ho); [|by exists i]. injection Hi as ->. cbn in Hh. by rewrite Hh, Ho in E.
  - apply orb_false_elim in E as [Eh Eo]. rewrite elem_of_cons, Hrest. split.
    + intros [->|(i & ?)]; [by exists O|by exists (S i)].
    + intros ([|i] & Hi & Hh & Ho); [left; by injection Hi|right; by exists i].
Qed.

Lemma survivors_sub xs x : x ∈ survivors None xs -> x ∈ xs.
Proof. intros (i & Hi & _)%survivors_elem. by eapply list_elem_of_lookup_2. Qed.

(** Entries of one user key are neighbours, newest first. *)
Lemma between xs i j k x y z : ientries_ok uc valid xs -> xs !! i = Some x -> xs !! j = Some y -> xs !! k = Some z -> (i <= j)%nat -> (j <= k)%nat ->
  ie_user x = ie_user z -> ie_user y = ie_user x.
Proof.
  intros Hxs Hi Hj Hk Hij Hjk E. pose proof (ie_order uc valid xs i j x y Hxs Hi Hj Hij) as H1. pose proof (ie_order uc valid xs j k y z Hxs Hj Hk Hjk) as H2.
  destruct (ie_ok uc valid xs i x Hxs Hi) as (Hvx & _). destruct (ie_ok uc valid xs j y Hxs Hj) as (Hvy & _). rewrite <- E in H2.
  destruct (entry_eq_dec_lt uc valid (ie_user x) (ie_user y) Hvx Hvy) as [?|[?|?]]; [done|done|done].
Qed.

Lemma tag_seq_le x y : ie_tag y <= ie_tag x -> ie_seq y <= ie_seq x.
Proof. unfold ie_tag, tag. destruct (ie_type x), (ie_type y); cbn [ValueType_value]; lia. Qed.

Lemma later_tag xs i j x y : ientries_ok uc valid xs -> xs !! i = Some x -> xs !! j = Some y -> (i <= j)%nat -> ie_user x = ie_user y -> ie_tag y <= ie_tag x.
Proof.
  intros Hxs Hi Hj Hij E. destruct (decide (i = j)) as [->|Hne]; [rewrite Hi in Hj; injection Hj as ->; done|].
  destruct (ie_lt uc valid xs i j x y Hxs Hi Hj) as [Hlt|[_ Ht]]; [lia| |lia]. rewrite E in Hlt. by apply key_lt_irrefl in Hlt.
Qed.

Lemma hidden_spec xs i x : ientries_ok uc valid xs -> xs !! i = Some x ->
  hidden (prev_at None xs i) x = true <-> exists j y, (j < i)%nat /\ xs !! j = Some y /\ ie_user y = ie_user x /\ ie_seq y <= smallest.
Proof.
  intros Hxs Hi. split.
  - destruct i as [|i]; [done|]. cbn [prev_at]. unfold hidden. destruct (xs !! i) as [y|] eqn:Ey; [|done]. intros [Eu Hs]%andb_prop. apply bool_decide_eq_true in Eu.
    exists i, y. split; [lia|]. split; [done|]. split; [done|lia].
  - intros (j & y & Hji & Hj & Eu & Hs). destruct i as [|i]; [lia|]. cbn [prev_at].
    destruct (lookup_lt_is_Some_2 xs i) as [w Hw]; [apply lookup_lt_Some in Hi; lia|]. rewrite Hw. unfold hidden.
    assert (ie_user w = ie_user y) as Ew by (apply (between xs j i (S i) y w x Hxs Hj Hw Hi); [lia|lia|done]). rewrite bool_decide_true by congruence. cbn [andb].
    apply Z.leb_le. assert (ie_seq w <= ie_seq y); [|lia]. apply tag_seq_le, (later_tag xs j i y w); [done..|lia|done].
Qed.

(** The newest entry of a user key at [sq]. *)
Definition top (sq : SequenceNumber) xs (i : nat) x : Prop :=
  xs !! i = Some x /\ ie_seq x <= sq /\ forall y, y ∈ xs -> ie_user y = ie_user x -> ie_seq y <= sq -> ie_tag y <= ie_tag x.

Lemma top_exists sq xs y : ientries_ok uc valid xs -> y ∈ xs -> ie_seq y <= sq -> exists i x, top sq xs i x /\ ie_user x = ie_user y.
Proof.
  intros Hxs Hy Hs. destruct (list_find (fun z => ie_user z = ie_user y /\ ie_seq z <= sq) xs) as [[i x]|] eqn:E.
  - apply list_find_Some in E as (Hi & [Eu Hx] & Hmin). exists i, x. split; [|done]. split; [done|]. split; [done|].
    intros z [j Hj]%list_elem_of_lookup_1 Ez Hz. destruct (decide (i <= j)%nat); [by eapply later_tag|].
    destruct (Hmin j z Hj); [lia|]. split; [congruence|done].
  - apply list_find_None in E. pose proof (Forall_elem _ _ _ E Hy) as Hn. by destruct Hn.
Qed.

Lemma top_survives sq xs i x : ientries_ok uc valid xs -> smallest <= sq -> top sq xs i x -> obsolete x = false -> x ∈ survivors None xs.
Proof.
  intros Hxs Hsq (Hi & Hs & Hmax) Ho. apply survivors_elem. exists i. split; [done|]. split; [|done].
  apply not_true_iff_false. intros Hh. apply hidden_spec in Hh as (j & y & Hji & Hj & Eu & Hy); [|done..].
  pose proof (Hmax y (list_elem_of_lookup_2 _ _ _ Hj) Eu) as Ht. destruct (ie_lt uc valid xs j i y x Hxs Hj Hi Hji) as [Hlt|[_ Hlt]]; [|lia].
  rewrite Eu in Hlt. by apply key_lt_irrefl in Hlt.
Qed.

(** Every read at or above [smallest] sees the same, whatever is above the
    input ([news]) and below it ([deeper]). *)
Lemma survivors_views sq news xs deeper u v : ientries_ok uc valid xs -> smallest <= sq -> newer news xs ->
  (forall x, x ∈ deeper -> base (ie_user x) = false) ->
  alive sq (news ++ xs ++ deeper) u v <-> alive sq (news ++ survivors None xs ++ deeper) u v.
Proof.
  intros Hxs Hsq Hnews Hdeep. assert (forall x, x ∈ news ++ survivors None xs ++ deeper -> x ∈ news ++ xs ++ deeper) as Hsub.
  { intros x. rewrite !elem_of_app. intros [?|[?%survivors_sub|?]]; auto. }
  split; intros (x & Hx & Eu & Et & Ev & Hs & Hmax).
  - assert (x ∈ news ++ survivors None xs ++ deeper) as Hin; [|exists x; do 5 (split; [done|]); by intros y Hy%Hsub; apply Hmax].
    rewrite !elem_of_app in Hx |- *. destruct Hx as [?|[[i Hi]%list_elem_of_lookup_1|?]]; [by left| |by right; right]. right. left.
    apply (top_survives sq xs i); [done|done| |by unfold obsolete; rewrite Et]. split; [done|]. split; [done|].
    intros y Hy Ey Hsy. apply Hmax; [rewrite !elem_of_app; auto|congruence|done].
  - exists x. do 2 (split; [auto|]). do 3 (split; [done|]). intros y Hy Ey Hsy. destruct (decide (ie_tag y <= ie_tag x)) as [|Hgt]; [done|exfalso].
    rewrite !elem_of_app in Hy. destruct Hy as [Hy|[Hy|Hy]]; [by apply Hgt, Hmax; [rewrite !elem_of_app; auto|..]| |by apply Hgt, Hmax; [rewrite !elem_of_app; auto|..]].
    destruct (top_exists sq xs y Hxs Hy Hsy) as (k & w & Hw & Ew). pose proof Hw as (Hk & Hws & Hwmax). pose proof (Hwmax y Hy (eq_sym Ew) Hsy) as Hyw.
    destruct (obsolete w) eqn:Eo.
    + unfold obsolete in Eo. apply andb_prop in Eo as [[Hd Hle]%andb_prop Hb]. rewrite !elem_of_app in Hx. destruct Hx as [Hx|[Hx|Hx]].
      * assert (ie_tag w < ie_tag x); [|lia]. apply (Hnews x w Hx); [by eapply list_elem_of_lookup_2|congruence].
      * apply survivors_elem in Hx as (i & Hi & Hh & _). apply not_true_iff_false in Hh. apply Hh, hidden_spec; [done..|]. exists k, w.
        split; [|split; [done|]; split; [congruence|lia]]. apply Nat.nle_gt. intros Hik.
        assert (ie_tag w <= ie_tag x); [|lia]. apply (later_tag xs i k); [done..|congruence].
      * rewrite Ew, Ey, <- Eu, (Hdeep x Hx) in Hb. done.
    + assert (ie_tag w <= ie_tag x); [|lia]. apply Hmax; [|congruence|done]. rewrite !elem_of_app. right. left. by eapply top_survives.
Qed.

Lemma survivors_snoc prev xs x : survivors prev (xs ++ [x]) = survivors prev xs ++ (if hidden (prev_at prev xs (length xs)) x || obsolete x then [] else [x]).
Proof.
  revert prev. induction xs as [|y xs IH]; intros prev; [done|]. cbn [app survivors length prev_at]. rewrite IH.
  assert (prev_at (Some y) xs (length xs) = (y :: xs) !! length xs) as -> by (by destruct xs). by destruct (hidden prev y || obsolete y).
Qed.

Lemma survivors_take xs i x : xs !! i = Some x ->
  survivors None (take (S i) xs) = survivors None (take i xs) ++ (if hidden (prev_at None xs i) x || obsolete x then [] else [x]).
Proof.
  intros Hi. apply lookup_lt_Some in Hi as Hlt. rewrite (take_S_r _ _ x Hi), survivors_snoc, length_take_le by lia. destruct i as [|i]; [done|].
  cbn [prev_at]. by rewrite lookup_take_lt by lia.
Qed.

Lemma survivors_sublist prev xs : survivors prev xs `sublist_of` xs.
Proof. revert prev. induction xs as [|x xs IH]; intros prev; [done|]. cbn [survivors]. destruct (_ || _); [by apply sublist_cons|by apply sublist_skip]. Qed.
End survivors.

(** ** Sublists of sorted entries *)
Lemma Forall_sublist_of {A} (P : A -> Prop) l k : l `sublist_of` k -> Forall P k -> Forall P l.
Proof. induction 1 as [|x l k _ IH|x l k _ IH]; intros Hk; [done|apply Forall_cons_1 in Hk as [? ?]; constructor; auto|apply Forall_cons_1 in Hk as [? ?]; auto]. Qed.

Lemma StronglySorted_sublist {A} (R : A -> A -> Prop) l k : l `sublist_of` k -> Sorted.StronglySorted R k -> Sorted.StronglySorted R l.
Proof.
  induction 1 as [|x l k Hs IH|x l k Hs IH]; intros Hk; [done| |]; inversion Hk as [|? ? Hk' Hx]; subst; [|by apply IH].
  constructor; [by apply IH|]. by eapply Forall_sublist_of.
Qed.

Lemma entries_ok_sublist c valid `{!ComparatorOk c valid} (l es : list entry) : l `sublist_of` es -> entries_ok c valid es -> entries_ok c valid l.
Proof.
  intros Hs [H1 H2]. assert (l.*1 `sublist_of` es.*1) as Hk by (by apply fmap_sublist). split; [by eapply StronglySorted_sublist|by eapply Forall_sublist_of].
Qed.

Lemma entries_cost_sublist (l es : list entry) : l `sublist_of` es -> entries_cost l <= entries_cost es.
Proof. induction 1 as [|e l es _ IH|e l es _ IH]; [done| |]; rewrite !entries_cost_cons; [lia|]. pose proof (entry_bound_ge e). lia. Qed.

Lemma zlength_sublist {A} (l k : list A) : l `sublist_of` k -> zlength l <= zlength k.
Proof. intros Hs%sublist_length. unfold zlength. lia. Qed.

(** ** The file of a table builder *)

(** The first part of a computation that returned. *)
Ltac run H :=
  cbn zeta in H; match type of H with
  | (let! _ := ?x in _) = Ret _ => let R := fresh "R" in destruct x as [?| |] eqn:R; [rewrite res_bind_ret in H; cbn beta in H|done|done]
  end.

Section same_file.
Context {F : Type} `{!WritableFile F} (P : F -> Prop).
Hypothesis Append_P : forall data f, P f -> P (wf_Append data f).2.
Hypothesis Flush_P : forall f, P f -> P (wf_Flush f).2.
Implicit Types (r : Rep F).

Lemma start_filter_block_file o r r' : start_filter_block o r = Ret r' -> P (file r) -> P (file r').
Proof. unfold start_filter_block. intros E. destruct (filter_block r) as [[p b]|]; [run E|]; by injection E as <-. Qed.

Lemma new_TableBuilder_file opt f r : new_TableBuilder opt f = Ret r -> P f -> P (file r).
Proof. unfold new_TableBuilder. intros E Hf. run E. run E. by eapply start_filter_block_file. Qed.

Lemma WriteRawBlock_file b t r h r' : WriteRawBlock b t r = Ret (h, r') -> P (file r) -> P (file r').
Proof.
  unfold WriteRawBlock. intros E Hr. pose proof (Append_P b _ Hr) as H1. destruct (wf_Append b (file r)) as [s f]. cbn [snd] in H1. cbn zeta in E.
  destruct (ok s); [|by injection E as _ <-]. run E. run E.
  match type of E with context [wf_Append ?d ?g] => pose proof (Append_P d g H1) as H2; destruct (wf_Append d g) as [s2 f2] end. by injection E as _ <-.
Qed.

Lemma WriteBlock_file b r h b' r' : WriteBlock b r = Ret (h, b', r') -> P (file r) -> P (file r').
Proof.
  unfold WriteBlock. destruct (assert_ _); [rewrite res_bind_ret|done..]. destruct (Finish b) as [raw b2]. destruct (compress _ raw) as [bc ty].
  destruct (WriteRawBlock bc ty r) as [[h' r2]| |] eqn:E2; [rewrite res_bind_ret|done..]. intros [= <- <- <-]. by eapply WriteRawBlock_file.
Qed.

Lemma Flush_file r r' : Flush r = Ret r' -> P (file r) -> P (file r').
Proof.
  unfold Flush. intros E Hr. run E. destruct (negb (tb_ok r)); [by injection E as <-|].
  destruct (builder_empty _); [by injection E as <-|]. run E.
  destruct (WriteBlock (data_block r) r) as [[[h b] r2]| |] eqn:E2; [rewrite res_bind_ret in E|done..]. apply (WriteBlock_file _ _ _ _ _ E2) in Hr. cbn zeta in E.
  eapply start_filter_block_file; [exact E|]. match goal with |- P (file (if ?x then _ else _)) => destruct x; [|done] end.
  cbn. pose proof (Flush_P _ Hr) as H2. destruct (wf_Flush (file r2)). done.
Qed.

Lemma add_index_entry_file k r r' : add_index_entry k r = Ret r' -> P (file r) -> P (file r').
Proof. unfold add_index_entry. intros E. run E. run E. by injection E as <-. Qed.

Lemma tb_Add_file k v r r' : tb_Add k v r = Ret r' -> P (file r) -> P (file r').
Proof.
  unfold tb_Add. intros E Hr. run E. destruct (negb (tb_ok r)); [by injection E as <-|].
  run E.
  match type of E with (let! _ := ?x in _) = _ => destruct x as [r1| |] eqn:E1; [rewrite res_bind_ret in E|done..] end.
  assert (P (file r1)) as Hr1.
  { destruct (pending_index_entry r); [|by injection E1 as <-]. run E1. run E1. by eapply add_index_entry_file. }
  cbn zeta in E. run E. cbn zeta in E.
  match type of E with (if _ then Flush ?r2 else _) = _ => assert (P (file r2)) as Hr2 by (cbn; by destruct (filter_block r1) as [[? ?]|]) end.
  destruct (_ <=? _); [by eapply Flush_file|by injection E as <-].
Qed.

Lemma tb_Finish_file r s r' : tb_Finish r = Ret (s, r') -> P (file r) -> P (file r').
Proof.
  unfold tb_Finish. intros E Hr. destruct (Flush r) as [r1| |] eqn:E1; [rewrite res_bind_ret in E|done..]. apply (Flush_file _ _ E1) in Hr.
  run E. cbn zeta in E.
  destruct (write_filter (set_closed r1)) as [[h2 r2]| |] eqn:E2; [rewrite res_bind_ret in E|done..].
  assert (P (file r2)) as Hr2.
  { unfold write_filter in E2. cbn [filter_block set_closed] in E2. destruct (filter_block r1) as [[p b]|]; [|by injection E2 as _ <-]. destruct (tb_ok _); [|by injection E2 as _ <-].
    destruct (FilterBlock_Finish p b) as [[c b2]| |]; [rewrite res_bind_ret in E2|done..]. by eapply WriteRawBlock_file. }
  destruct (write_metaindex h2 r2) as [[h3 r3]| |] eqn:E3; [rewrite res_bind_ret in E|done..].
  assert (P (file r3)) as Hr3.
  { unfold write_metaindex in E3. destruct (tb_ok r2); [|by injection E3 as _ <-]. run E3.
    destruct (WriteBlock _ r2) as [[[h b'] r4]| |] eqn:E4; [rewrite res_bind_ret in E3|done..]. injection E3 as _ <-. by eapply WriteBlock_file. }
  destruct (write_index r3) as [[h4 r4]| |] eqn:E4; [rewrite res_bind_ret in E|done..].
  assert (P (file r4)) as Hr4.
  { unfold write_index in E4. destruct (tb_ok r3); [|by injection E4 as _ <-].
    match type of E4 with (let! _ := ?x in _) = _ => destruct x as [r5| |] eqn:E5; [rewrite res_bind_ret in E4|done..] end.
    assert (P (file r5)) as Hr5.
    { destruct (pending_index_entry r3); [|by injection E5 as <-]. run E5. by eapply add_index_entry_file. }
    destruct (WriteBlock (index_block r5) r5) as [[[h b'] r6]| |] eqn:E6; [rewrite res_bind_ret in E4|done..]. injection E4 as _ <-. exact (WriteBlock_file _ _ _ _ _ E6 Hr5). }
  destruct (write_footer h3 h4 r4) as [r5| |] eqn:E5; [rewrite res_bind_ret in E|done..]. injection E as _ <-.
  unfold write_footer in E5. destruct (tb_ok r4); [|by injection E5 as <-]. run E5.
  match type of E5 with context [wf_Append ?d ?g] => pose proof (Append_P d g Hr4) as H5; destruct (wf_Append d g) as [s5 f5] end. by injection E5 as <-.
Qed.
End same_file.

(** ** [Finish] closes the builder *)
Section closed.
Context {F : Type} `{!WritableFile F}.
Implicit Types (r : Rep F).
Abbreviation is_closed := TableBuilder.closed.

Lemma WriteRawBlock_closed b t r h r' : WriteRawBlock b t r = Ret (h, r') -> is_closed r' = is_closed r.
Proof.
  unfold WriteRawBlock. intros E. destruct (wf_Append b (file r)) as [s f]. cbn zeta in E. destruct (ok s); [|by injection E as _ <-]. run E. run E.
  match type of E with context [wf_Append ?d ?g] => destruct (wf_Append d g) as [s2 f2] end. by injection E as _ <-.
Qed.

Lemma WriteBlock_closed b r h b' r' : WriteBlock b r = Ret (h, b', r') -> is_closed r' = is_closed r.
Proof.
  unfold WriteBlock. intros E. run E. destruct (Finish b) as [raw b2]. destruct (compress _ raw) as [bc ty].
  destruct (WriteRawBlock bc ty r) as [[h' r2]| |] eqn:E2; [rewrite res_bind_ret in E|done..]. injection E as <- <- <-. by eapply WriteRawBlock_closed.
Qed.

Lemma tb_Finish_closed r s r' : tb_Finish r = Ret (s, r') -> is_closed r' = true.
Proof.
  unfold tb_Finish. intros E. run E. run E. destruct (write_filter _) as [[h2 r2]| |] eqn:E2; [rewrite res_bind_ret in E|done..].
  assert (is_closed r2 = true) as H2.
  { unfold write_filter in E2. destruct (filter_block _) as [[p b]|]; [|by injection E2 as _ <-]. destruct (tb_ok _); [|by injection E2 as _ <-].
    destruct (FilterBlock_Finish p b) as [[c b2]| |]; [rewrite res_bind_ret in E2|done..]. by rewrite (WriteRawBlock_closed _ _ _ _ _ E2). }
  destruct (write_metaindex h2 r2) as [[h3 r3]| |] eqn:E3; [rewrite res_bind_ret in E|done..].
  assert (is_closed r3 = true) as H3.
  { rewrite <- H2. unfold write_metaindex in E3. destruct (tb_ok r2); [|by injection E3 as _ <-]. run E3.
    destruct (WriteBlock _ r2) as [[[h b'] r4]| |] eqn:E4; [rewrite res_bind_ret in E3|done..]. injection E3 as _ <-. by eapply WriteBlock_closed. }
  destruct (write_index r3) as [[h4 r4]| |] eqn:E4; [rewrite res_bind_ret in E|done..].
  assert (is_closed r4 = true) as H4.
  { rewrite <- H3. unfold write_index in E4. destruct (tb_ok r3); [|by injection E4 as _ <-].
    match type of E4 with (let! _ := ?x in _) = _ => destruct x as [r5| |] eqn:E5; [rewrite res_bind_ret in E4|done..] end.
    assert (is_closed r5 = is_closed r3) as <-.
    { destruct (pending_index_entry r3); [|by injection E5 as <-]. run E5. unfold add_index_entry in E5. run E5. run E5. by injection E5 as <-. }
    destruct (WriteBlock (index_block r5) r5) as [[[h b'] r6]| |] eqn:E6; [rewrite res_bind_ret in E4|done..]. injection E4 as _ <-. exact (WriteBlock_closed _ _ _ _ _ E6). }
  destruct (write_footer h3 h4 r4) as [r5| |] eqn:E5; [rewrite res_bind_ret in E|done..]. injection E as _ <-. rewrite <- H4.
  unfold write_footer in E5. destruct (tb_ok r4); [|by injection E5 as <-]. run E5.
  match type of E5 with context [wf_Append ?d ?g] => destruct (wf_Append d g) as [s5 f5] end. by injection E5 as <-.
Qed.
End closed.

(** ** What a compaction asks of the other levels *)
Section other_levels.
Context (uc : Comparator) (valid : bytes -> Prop) `{!ComparatorOk uc valid} (h : files_heap).
Abbreviation icmp := (InternalKeyComparator uc).
Abbreviation ival := (ivalid valid).
Abbreviation before := (user_before uc).
Abbreviation here := (file_here uc valid h).
Implicit Types (files : list FilePtr) (p : FilePtr) (k : bytes).

(** The file may hold the user key. *)
Definition in_file k p : bool := negb (before k (start_of h p)) && negb (before (limit_of h p) k).

(** The files do not overlap, save that one may end with the user key with
    which the next begins. *)
Definition in_order files : Prop := forall i j p q, (i < j)%nat -> files !! i = Some p -> files !! j = Some q -> before (start_of h q) (limit_of h p) = false.

Lemma level_in_order files fs : Forall here files -> files_at h files fs -> sorted_files uc valid fs -> in_order files.
Proof.
  intros Hh Hfs Hs i j p q Hij Hp Hq. destruct (Forall2_lookup_l _ _ _ _ _ Hfs Hp) as (f & Hf & Ef). destruct (Forall2_lookup_l _ _ _ _ _ Hfs Hq) as (g & Hg & Eg).
  destruct (here_file uc valid h p) as (_ & _ & Hl); [by eapply Forall_lookup_1|]. destruct (here_file uc valid h q) as (_ & Hsm & _); [by eapply Forall_lookup_1|].
  apply (user_of_mono uc valid); [done..|]. rewrite (file_in_at h p f Ef), (file_in_at h q g Eg).
  intros Hlt. apply (key_lt_asym icmp ival _ _ Hlt). by eapply Hs.
Qed.

(** The files before the pointer of the level end before [k]. *)
Definition passed k files (n : Z) : Prop := 0 <= n <= zlength files /\ forall j p, Z.of_nat j < n -> files !! j = Some p -> before (limit_of h p) k = true.

Lemma passed_later k k' files n : Forall here files -> valid k -> valid k' -> before k' k = false -> passed k files n -> passed k' files n.
Proof.
  intros Hh Hk Hk' Hle [Hn Hp]. split; [done|]. intros j p Hj Hjp. destruct (file_here_keys uc valid h p) as (f & _ & _ & _ & _ & Hl); [by eapply Forall_lookup_1|].
  apply (user_before_trans uc valid _ k); [done..|by eapply Hp|done].
Qed.

Lemma base_level_loop files k n : Forall here files -> in_order files -> valid k -> zlength files < 2 ^ 63 -> passed k files n ->
  exists n', while (base_level_body uc h files k) n = Ret (existsb (in_file k) files, n') /\ passed k files n'.
Proof.
  intros Hh Ho Hk Hlen Hn. pose proof (zlength_nonneg files).
  destruct (while_rel (base_level_body uc h files k) (fun (m : nat) n => passed k files n /\ Z.of_nat m = zlength files - n)
    (fun r => r.1 = existsb (in_file k) files /\ passed k files r.2) (Z.to_nat (zlength files - n)) n) as ([b n'] & -> & Hb & Hn').
  - clear n Hn. intros m n [Hn Hm]. pose proof Hn as [Hb Hp]. unfold base_level_body. destruct (Z.ltb_spec n (zlength files)).
    + destruct (lookup_lt_is_Some_2 files (Z.to_nat n)) as [p Ep]; [unfold zlength in *; lia|]. rewrite Ep. cbn [of_option]. rewrite res_bind_ret.
      assert (here p) as Hp1 by (by eapply Forall_lookup_1). destruct (file_here_keys uc valid h p Hp1) as (f & -> & Es & El & Vs & Vl). rewrite res_bind_ret, El, res_bind_ret.
      destruct (user_compare uc valid k (limit_of h p) Hk Vl) as (z & -> & _ & Ez). rewrite res_bind_ret, Z.leb_antisym, Ez.
      destruct (before (limit_of h p) k) eqn:El'; cbn [negb].
      * right. destruct m as [|m]; [lia|]. exists m, (u64 (n + 1)). rewrite wrap_small by lia. split; [done|]. split; [done|]. split; [|lia].
        split; [lia|]. intros j q Hj Hjq. destruct (decide (Z.of_nat j < n)); [by eapply Hp|]. assert (j = Z.to_nat n) as -> by lia. rewrite Ep in Hjq. by injection Hjq as <-.
      * left. rewrite Es, res_bind_ret. destruct (user_compare uc valid k (start_of h p) Hk Vs) as (z' & -> & Ez' & _). rewrite res_bind_ret, Z.leb_antisym, Ez'.
        eexists. split; [done|]. split; [|done]. cbn [fst]. symmetry. apply eq_true_iff_eq. rewrite List.existsb_exists. split.
        -- intros (q & Hq%list_elem_of_In & Hin). apply list_elem_of_lookup_1 in Hq as [j Hj]. unfold in_file in Hin. apply andb_prop in Hin as [Hs Hl].
           destruct (decide (Z.of_nat j < n)); [by rewrite (Hp j q) in Hl|]. destruct (decide (j = Z.to_nat n)) as [->|Hne]; [rewrite Ep in Hj; by injection Hj as <-|].
           destruct (file_here_keys uc valid h q) as (g & _ & _ & _ & Vsq & _); [by eapply Forall_lookup_1|].
           pose proof (Ho (Z.to_nat n) j p q ltac:(lia) Ep Hj) as Hord. apply negb_true_iff. apply negb_true_iff in Hs. apply not_true_iff_false. intros Hks.
           pose proof (user_before_trans uc valid k (start_of h p) (limit_of h p) Hk Vs Vl Hks) as Ht.
           destruct (before (limit_of h p) (start_of h p)) eqn:Eo.
           { destruct Hp1 as [_ Hf]. pose proof (user_of_mono uc valid _ _ (fo_smallest _ _ _ Hf) (fo_largest _ _ _ Hf) (fo_order _ _ _ Hf)) as Hx. fold (limit_of h p) (start_of h p) in Hx. congruence. }
           specialize (Ht eq_refl). pose proof (user_before_trans uc valid k (limit_of h p) (start_of h q) Hk Vl Vsq Ht Hord). congruence.
        -- intros Hs. exists p. split; [by eapply list_elem_of_In, list_elem_of_lookup_2|]. unfold in_file. by rewrite El', Hs.
    + left. eexists. split; [done|]. split; [|done]. symmetry. apply not_true_iff_false. rewrite List.existsb_exists. intros (q & Hq%list_elem_of_In & Hin).
      apply list_elem_of_lookup_1 in Hq as [j Hj]. unfold in_file in Hin. rewrite (Hp j q) in Hin; [by rewrite andb_false_r in Hin|apply lookup_lt_Some in Hj; unfold zlength in *; lia|done].
  - split; [done|]. destruct Hn. lia.
  - destruct Hn. lia.
  - exists n'. split; [|done]. cbn in Hb. by subst b.
Qed.

(** Levels that a compaction may look at. *)
Definition levels_ok (levels : list (list FilePtr)) : Prop :=
  Forall (fun files => Forall here files /\ in_order files /\ zlength files < 2 ^ 63) levels.

(** [level_ptrs_], from the level [from] on. *)
Definition ptrs_ok (from : nat) (levels : list (list FilePtr)) k (ptrs : list Z) : Prop :=
  length ptrs = length levels /\ forall i files n, (from <= i)%nat -> levels !! i = Some files -> ptrs !! i = Some n -> passed k files n.

Definition no_file (k : bytes) (levels : list (list FilePtr)) : bool := forallb (fun files => negb (existsb (in_file k) files)) levels.

Lemma ptrs_ok_later from levels k k' ptrs : levels_ok (drop from levels) -> valid k -> valid k' -> before k' k = false -> ptrs_ok from levels k ptrs -> ptrs_ok from levels k' ptrs.
Proof.
  intros Hl Hk Hk' Hle [El Hp]. split; [done|]. intros i files n Hi Hf Hn. apply (passed_later k); [|done..|by eapply Hp].
  apply (Forall_elem _ _ files Hl). apply (list_elem_of_lookup_2 _ (i - from)). rewrite lookup_drop. by replace (from + (i - from))%nat with i by lia.
Qed.

Lemma base_levels_ok from levels k i ptrs : levels_ok (drop i levels) -> valid k -> (from <= i)%nat -> ptrs_ok from levels k ptrs ->
  exists ptrs', base_levels uc h k (drop i levels) (Z.of_nat i) ptrs = Ret (no_file k (drop i levels), ptrs') /\ ptrs_ok from levels k ptrs'.
Proof.
  remember (drop i levels) as rest eqn:Er. intros Hl Hk. revert i ptrs Er. induction Hl as [|files rest (Hh & Ho & Hlen) _ IH]; intros i ptrs Er Hi Hp; [by exists ptrs|].
  assert (levels !! i = Some files) as Hf by (by rewrite <- (Nat.add_0_r i), <- lookup_drop, <- Er).
  pose proof Hp as [El Hpass]. destruct (lookup_lt_is_Some_2 ptrs i) as [n Hn]; [apply lookup_lt_Some in Hf; lia|].
  cbn [base_levels]. unfold read_at. rewrite (proj2 (Z.leb_le _ _)), Nat2Z.id, Hn by lia. cbn [of_option]. rewrite res_bind_ret.
  destruct (base_level_loop files k n Hh Ho Hk Hlen) as (n' & -> & Hn'); [by eapply Hpass|]. rewrite res_bind_ret.
  unfold write_at. apply lookup_lt_Some in Hn as Hlt. rewrite (proj2 (Z.leb_le _ _)), (proj2 (Z.ltb_lt _ _)), Nat2Z.id by (unfold zlength; lia). cbn [andb]. rewrite res_bind_ret.
  assert (ptrs_ok from levels k (<[i := n']> ptrs)) as Hp'.
  { split; [by rewrite length_insert|]. intros j fs m Hj Hjf Hjm. destruct (decide (j = i)) as [->|Hne].
    - rewrite list_lookup_insert_eq in Hjm by done. injection Hjm as <-. rewrite Hf in Hjf. by injection Hjf as <-.
    - rewrite list_lookup_insert_ne in Hjm by done. by eapply Hpass. }
  cbn [no_file forallb]. destruct (existsb (in_file k) files); cbn [negb andb]; [by eexists|].
  destruct (IH (S i) (<[i := n']> ptrs)) as (ptrs' & E & Hp2); [|lia|done|].
  { apply (f_equal (drop 1)) in Er. rewrite drop_drop in Er. by replace (i + 1)%nat with (S i) in Er by lia. }
  replace (Z.of_nat i + 1) with (Z.of_nat (S i)) by lia. by exists ptrs'.
Qed.

(** No file of the levels below the output may hold the user key. *)
Definition is_base (v : Version) (level : Z) (k : bytes) : bool := no_file k (drop (Z.to_nat (level + 2)) (files_ v)).

Lemma IsBaseLevelForKey_ok v k c : 0 <= level_ c -> let from := Z.to_nat (level_ c + 2) in
  levels_ok (drop from (files_ v)) -> valid k -> ptrs_ok from (files_ v) k (level_ptrs_ c) ->
  exists ptrs, IsBaseLevelForKey uc h v k c = Ret (is_base v (level_ c) k, set_level_ptrs ptrs c) /\ ptrs_ok from (files_ v) k ptrs.
Proof.
  intros Hc from Hl Hk Hp. unfold IsBaseLevelForKey, zdrop. destruct (base_levels_ok from (files_ v) k from (level_ptrs_ c) Hl Hk) as (ptrs & E & Hp'); [done|done|].
  replace (Z.of_nat from) with (level_ c + 2) in E by lia. fold from. rewrite E, res_bind_ret. by exists ptrs.
Qed.

(** ** ShouldStopBefore *)
Definition grandparents_ok (c : Compaction) : Prop := Forall here (grandparents_ c) /\ zlength (grandparents_ c) < 2 ^ 63.

Lemma ShouldStopBefore_ok max_file_size key c : grandparents_ok c -> ival key -> 0 <= grandparent_index_ c <= zlength (grandparents_ c) ->
  exists b i n, ShouldStopBefore uc max_file_size h key c = Ret (b, set_output i true n c) /\ 0 <= i <= zlength (grandparents_ c).
Proof.
  intros [Hh Hlen] Hk Hi. unfold ShouldStopBefore.
  destruct (while_rel (stop_before_body uc h key) (fun (m : nat) c' => (exists i s n, c' = set_output i s n c /\ 0 <= i <= zlength (grandparents_ c) /\ Z.of_nat m = zlength (grandparents_ c) - i))
    (fun c' => exists i s n, c' = set_output i s n c /\ 0 <= i <= zlength (grandparents_ c)) (Z.to_nat (zlength (grandparents_ c) - grandparent_index_ c)) c) as (c' & -> & i & s & n & -> & Hi').
  - intros m c' (i & s & n & -> & Hi' & Hm). unfold stop_before_body. cbn [grandparent_index_ grandparents_ set_output].
    destruct (Z.ltb_spec i (zlength (grandparents_ c))); [|left; eexists; split; [done|]; by exists i, s, n].
    destruct (lookup_lt_is_Some_2 (grandparents_ c) (Z.to_nat i)) as [p Ep]; [unfold zlength in *; lia|]. rewrite Ep. cbn [of_option]. rewrite res_bind_ret.
    destruct (here_file uc valid h p) as (-> & _ & Hl); [by eapply Forall_lookup_1|]. rewrite res_bind_ret. unfold InternalKey_Encode.
    rewrite assert_true, !res_bind_ret by (apply ivalid_nonempty in Hl; by destruct (largest (file_in h p))).
    destruct (Compare_ok key (largest (file_in h p)) Hk Hl) as (z & -> & _). rewrite res_bind_ret. destruct (0 <? z); [|left; eexists; split; [done|]; by exists i, s, n].
    right. destruct m as [|m]; [lia|]. exists m. eexists. split; [done|]. split; [done|]. rewrite wrap_small by lia. exists (i + 1), s. eexists. split; [done|]. lia.
  - exists (grandparent_index_ c), (seen_key_ c), (overlapped_bytes_ c). split; [by destruct c|]. split; [done|]. lia.
  - lia.
  - rewrite res_bind_ret. cbn [overlapped_bytes_ set_output grandparent_index_]. destruct (_ <? n); eexists _, i, _; by split.
Qed.
End other_levels.

(** ** The drop rule *)
Section drop.
Context (uc : Comparator) (valid : bytes -> Prop) `{!ComparatorOk uc valid} (h : files_heap) (v : Version) (smallest : SequenceNumber).
Hypothesis Hsmallest : smallest < kMaxSequenceNumber.
Implicit Types (x y : ientry) (t : KeyTracker).

(** What the loop remembers of the entry before. *)
Definition tracks (prev : option ientry) t : Prop :=
  match prev with
  | Some y => has_current_user_key t = true /\ current_user_key t = ie_user y /\ last_sequence_for_key t = ie_seq y
  | None => has_current_user_key t = false
  end.

Lemma drop_key_ok prev t x c : 0 <= level_ c -> let from := Z.to_nat (level_ c + 2) in
  levels_ok uc valid h (drop from (files_ v)) -> (forall y, prev = Some y -> valid (ie_user y)) -> valid (ie_user x) -> seq_ok (ie_seq x) -> tracks prev t ->
  ptrs_ok uc h from (files_ v) (ie_user x) (level_ptrs_ c) ->
  exists t' ptrs, drop_key uc h v smallest (ie_entry x).1 t c = Ret (hidden smallest prev x || obsolete smallest (is_base uc h v (level_ c)) x, t', set_level_ptrs ptrs c) /\
    tracks (Some x) t' /\ ptrs_ok uc h from (files_ v) (ie_user x) ptrs.
Proof.
  intros Hc from Hl Hprev Hx Hs Ht Hp. unfold drop_key. cbn [ie_entry fst]. rewrite ParseInternalKey_ikey, res_bind_ret by done. cbn [DbFormat.user_key DbFormat.sequence DbFormat.type].
  assert (exists first, (if has_current_user_key t then let! z := Compare uc (ie_user x) (current_user_key t) in Ret (negb (z =? 0)) else Ret true) = Ret first /\
    first = match prev with Some y => negb (bool_decide (ie_user y = ie_user x)) | None => true end) as (first & -> & ->).
  { destruct prev as [y|]; [|by rewrite Ht; eexists]. destruct Ht as (-> & -> & _). destruct (Compare_tests uc valid (ie_user x) (ie_user y) Hx (Hprev y eq_refl)) as (z & -> & Hz).
    rewrite res_bind_ret. eexists. split; [done|]. f_equal. apply eq_true_iff_eq. rewrite bool_decide_eq_true. rewrite (cmp_eq _ _ _ _ Hz). by split. }
  rewrite res_bind_ret. cbn zeta. set (t1 := if match prev with Some y => _ | None => true end then _ else t).
  assert (has_current_user_key t1 = true /\ current_user_key t1 = ie_user x /\ (last_sequence_for_key t1 <=? smallest) = hidden smallest prev x) as (Eh & Ek & El).
  { unfold t1, hidden. destruct prev as [y|].
    - destruct Ht as (Hh & Hk & Hq). case_bool_decide as E; cbn [negb andb has_current_user_key current_user_key last_sequence_for_key]; rewrite ?Hh, ?Hk, ?Hq; [done|].
      split; [done|]. split; [done|]. apply Z.leb_gt. lia.
    - cbn [has_current_user_key current_user_key last_sequence_for_key]. split; [done|]. split; [done|]. apply Z.leb_gt. lia. }
  rewrite El. unfold obsolete. destruct (hidden smallest prev x); cbn [orb].
  { rewrite res_bind_ret. eexists _, (level_ptrs_ c). split; [by destruct c|]. by split. }
  case_bool_decide as Ety; cbn [andb]; [destruct (ie_seq x <=? smallest); cbn [andb]|].
  - destruct (IsBaseLevelForKey_ok uc valid h v (ie_user x) c Hc Hl Hx Hp) as (ptrs & -> & Hp'). rewrite res_bind_ret. eexists _, ptrs. split; [done|]. by split.
  - rewrite res_bind_ret. eexists _, (level_ptrs_ c). split; [by destruct c|]. by split.
  - rewrite res_bind_ret. eexists _, (level_ptrs_ c). split; [by destruct c|]. by split.
Qed.
End drop.

(** ** Reliable storage *)

(** What the tables that are written rely on: nothing fails, a file that is
    closed holds what was written, and a file that is [good] is a usable
    table.  A file keeps the name that it was created with. *)
Class DbStorageOk (E W G J : Type) `{!Env E W G} `{!WritableFile W} `{!ReliableFile W} `{!DbEnv E W} `{!Iterator J} `{!TableCacheIterators E J}
    (dbname : bytes) (good : bytes -> Prop) : Type := {
  wf_name : W -> bytes;
  st_ok : E -> Prop;
  st_file : bytes -> bytes -> E -> Prop;
  wf_Append_name : forall data f, wf_name (wf_Append data f).2 = wf_name f;
  wf_Flush_name : forall f, wf_name (wf_Flush f).2 = wf_name f;
  env_New_ok : forall name e, st_ok e -> exists f e', env_NewWritableFile name e = (Status_OK, f, e') /\ wf_contents f = [] /\ wf_name f = name /\ st_ok e' /\
    forall n b, n <> name -> st_file n b e -> st_file n b e';
  env_Sync_ok : forall f, exists f', env_Sync f = (Status_OK, f') /\ wf_contents f' = wf_contents f /\ wf_name f' = wf_name f;
  env_Close_ok : forall f e, st_ok e -> exists e', env_Close f e = (Status_OK, e') /\ st_ok e' /\ st_file (wf_name f) (wf_contents f) e' /\
    forall n b, n <> wf_name f -> st_file n b e -> st_file n b e';
  tc_usable : forall n name b e, 0 < n < 2 ^ 64 -> TableFileName dbname n = Ret name -> st_ok e -> st_file name b e -> good b ->
    exists j e', tc_NewIterator new_ReadOptions n (zlength b) e = Ret (j, e') /\ it_status j = Ret Status_OK /\ st_ok e' /\ forall n b, st_file n b e -> st_file n b e';
}.

Lemma TableFileName_number db n m name : 0 < n < 2 ^ 64 -> 0 < m < 2 ^ 64 -> TableFileName db n = Ret name -> TableFileName db m = Ret name -> n = m.
Proof.
  intros Hn Hm En Em. assert (forall k, 0 < k < 2 ^ 64 -> names (TableFileName db k) db k kTableFile) as Hk.
  { intros k Hk. apply MakeFileName_names; [done|cbn; lia|]. rewrite ParseFileName_number; [reflexivity|lia|intros ch tl [= <- _]; intros [H _]; by apply H]. }
  destruct (Hk n Hn) as (b & Eb & Hb). destruct (Hk m Hm) as (b' & Eb' & Hb'). rewrite En in Eb. rewrite Em in Eb'. injection Eb as ->. injection Eb' as E.
  apply app_inv_head in E. injection E as <-. congruence.
Qed.

(** ** The outputs of a compaction *)
Section outputs.
Context (uc : Comparator) (valid : bytes -> Prop) `{!ComparatorOk uc valid}.
Abbreviation icmp := (InternalKeyComparator uc).
Abbreviation ival := (ivalid valid).
Variables (paranoid : bool) (bsize interval : Z) (comp : CompressionType) (policy : option FilterPolicy) (cost : Z).
Abbreviation opt := (MkOptions icmp paranoid bsize interval comp policy).
Hypothesis Hopt : options_ok ival same_user_key cost opt.

Abbreviation holds_table := (TableCache.holds_table uc valid policy cost).
Definition usable_table (contents : bytes) : Prop := exists es, holds_table contents es.

Context {E W G J : Type} `{!Env E W G} `{!WritableFile W} `{!ReliableFile W} `{!SequentialFile G} `{!DbEnv E W} `{!Iterator J} `{!TableCacheIterators E J} `{!TableCacheEvict E} `{!NewArray}.
Variables (dbname comparator_name : bytes) (max_file_size : Z).
Context `{!DbStorageOk E W G J dbname usable_table}.
Implicit Types (c : CompactionState W) (d : DBImpl E W) (o : Output) (es cur : list entry) (b : Rep W).

(** An output that is finished, with its entries. *)
Record written (env : E) o es : Prop := {
  wr_stored : exists name contents, TableFileName dbname (out_number o) = Ret name /\ out_file_size o = Some (zlength contents) /\
    st_file (good := usable_table) name contents env /\ holds_table contents es;
  wr_smallest : head es.*1 = Some (out_smallest o);
  wr_largest : list.last es.*1 = Some (out_largest o);
}.

(** The output that is being written. *)
Record writing b o cur : Prop := {
  wg_named : TableFileName dbname (out_number o) = Ret (wf_name (good := usable_table) (file b));
  wg_ready : exists ws rest idx, tb_ready ival same_user_key cost opt b ws rest idx /\ table_entries ws ++ rest = cur;
  wg_smallest : cur <> [] -> head cur.*1 = Some (out_smallest o);
  wg_largest : cur <> [] -> list.last cur.*1 = Some (out_largest o);
}.

Record outputs_ok (tables : list (list entry)) cur c (n : Z) (pending0 pending : gset Z) (env : E) : Prop := {
  oo_outputs : exists fin, Forall2 (written env) fin tables /\
    match builder c with
    | None => outputs c = fin /\ cur = []
    | Some b => exists o, outputs c = fin ++ [o] /\ writing b o cur /\ cur <> []
    end;
  oo_numbers : base.NoDup (out_number <$> outputs c) /\ Forall (fun o => 0 < out_number o < n) (outputs c);
  oo_pending : pending = list_to_set (out_number <$> outputs c) ∪ pending0;
  oo_env : st_ok (good := usable_table) env;
}.

Lemma written_kept env env' o es : (forall name contents, TableFileName dbname (out_number o) = Ret name -> st_file (good := usable_table) name contents env -> st_file (good := usable_table) name contents env') ->
  written env o es -> written env' o es.
Proof. intros Hst [(name & contents & En & Esz & Hf & Ht) Hs Hl]. split; [|done..]. exists name, contents. split; [done|]. split; [done|]. split; [by apply Hst|done]. Qed.

Abbreviation stored := (st_file (good := usable_table)).
Abbreviation name_of := (wf_name (good := usable_table)).

Lemma current_output_last fin o c : outputs c = fin ++ [o] -> current_output c = Ret o.
Proof. intros Eo. unfold current_output. by rewrite Eo, last_snoc. Qed.

Lemma update_output_last f fin o c : outputs c = fin ++ [o] -> update_output f c = Ret (set_outputs (fin ++ [f o]) c).
Proof. intros Eo. unfold update_output. by rewrite (current_output_last fin o c Eo), res_bind_ret, Eo, removelast_last. Qed.

(** A builder whose table is not empty gives a usable table. *)
Lemma finish_builder b o cur (env : E) : st_ok (good := usable_table) env -> writing b o cur -> cur <> [] -> cost * zlength cur < 2 ^ 29 ->
  exists s r f' env', tb_Finish b = Ret (s, r) /\ ok s = true /\ TableBuilder.closed r = true /\ (0 <? NumEntries b) = true /\ FileSize r = zlength (wf_contents (file r)) /\
    env_Sync (file r) = (Status_OK, f') /\ env_Close f' env = (Status_OK, env') /\ st_ok (good := usable_table) env' /\ stored (name_of (file b)) (wf_contents (file r)) env' /\
    (forall n contents, n <> name_of (file b) -> stored n contents env -> stored n contents env') /\ holds_table (wf_contents (file r)) cur.
Proof.
  intros Henv [Hname (ws & rest & idx & Hr & Ecur) _ _] Hne Hcost. destruct Hopt as (Hint & Hval & Hc0 & Hpol).
  destruct (tb_Finish_holds ival same_user_key cost opt Hint Hval) with (r := b) (ws := ws) (cur := rest) (idx := idx) as (s & r & ws' & E1 & Hs & Ete & Htf & Hsz); try done.
  { intros p Ep. by destruct (Hpol p Ep) as (? & ? & _). }
  { by rewrite Ecur. }
  { intros p Ep. by destruct (Hpol p Ep) as (_ & _ & ?). }
  assert (name_of (file r) = name_of (file b)) as Enm.
  { apply (tb_Finish_file (fun f => name_of f = name_of (file b))) in E1; [done| | |done]; intros; by rewrite ?wf_Append_name, ?wf_Flush_name. }
  destruct (env_Sync_ok (good := usable_table) (file r)) as (f' & Esync & Ec' & En'). destruct (env_Close_ok (good := usable_table) f' env Henv) as (env' & Eclose & Henv' & Hst & Hkeep).
  exists s, r, f', env'. split; [done|]. split; [done|]. split; [by eapply tb_Finish_closed|]. split.
  { unfold NumEntries. destruct Hr as [Ht _ _]. rewrite (ta_num _ _ _ _ _ _ _ _ Ht), Ecur. pose proof (ta_size _ _ _ _ _ _ _ _ Ht) as Hsize. rewrite Ecur in Hsize.
    pose proof (entries_cost_ge cur). rewrite wrap_small by (pose proof (zlength_nonneg cur); lia). apply Z.ltb_lt. destruct cur; [done|]. rewrite zlength_cons. pose proof (zlength_nonneg cur). lia. }
  split; [done|]. split; [done|]. split; [done|]. split; [done|]. rewrite En', Enm, Ec' in *. split; [done|]. split; [done|]. exists ws'. split; [done|]. by rewrite Ete.
Qed.

(** Outputs with other numbers are in other files. *)
Lemma other_outputs_kept fin tables o (n : Z) (env env' : E) name : Forall2 (written env) fin tables -> base.NoDup (out_number <$> fin ++ [o]) ->
  Forall (fun o => 0 < out_number o < n) (fin ++ [o]) -> n <= 2 ^ 64 -> TableFileName dbname (out_number o) = Ret name ->
  (forall m contents, m <> name -> stored m contents env -> stored m contents env') -> Forall2 (written env') fin tables.
Proof.
  intros Hw Hd Hn Hmax Hname Hkeep. rewrite fmap_app in Hd. apply list.NoDup_app in Hd as (_ & Hd & _). apply Forall_app in Hn as [Hn Ho]. apply Forall_cons_1 in Ho as [Ho _].
  induction Hw as [|q es fin tables Hq _ IH]; [constructor|]. apply Forall_cons_1 in Hn as [Hqn Hn]. constructor; [|apply IH; [intros x Hx; apply Hd; by right|done]].
  eapply written_kept; [|exact Hq]. intros m contents Hm. apply Hkeep. intros ->. apply (Hd (out_number q)); [left|].
  rewrite (TableFileName_number dbname (out_number q) (out_number o) name); [left|lia|lia|done|done].
Qed.

Section finish.
Context {I : Type} `{!Iterator I}.
Implicit Types (input : I).

Lemma FinishCompactionOutputFile_ok input tables cur c n pending0 pending (env : E) b : it_status input = Ret Status_OK ->
  outputs_ok tables cur c n pending0 pending env -> builder c = Some b -> cost * zlength cur < 2 ^ 29 -> n <= 2 ^ 64 ->
  exists c' env', FinishCompactionOutputFile input c env = Ret (Status_OK, c', env') /\ outputs_ok (tables ++ [cur]) [] c' n pending0 pending env' /\
    builder c' = None /\ compaction c' = compaction c /\ smallest_snapshot c' = smallest_snapshot c.
Proof.
  intros Hst [(fin & Hfin & Hb) [Hd Hn] Hp Henv] Eb Hcost Hmax. rewrite Eb in Hb. destruct Hb as (o & Eo & Hw & Hne).
  destruct (finish_builder b o cur env Henv Hw Hne Hcost) as (s & r & f' & env' & E1 & Hs & Hcl & Hnum & Hsz & Esync & Eclose & Henv' & Hstored & Hkeep & Ht).
  rewrite Eo in Hd, Hn. assert (0 < out_number o < n) as Hon by (apply Forall_app in Hn as [_ Hn]; by apply Forall_cons_1 in Hn as [Hn _]).
  destruct (tc_usable (out_number o) _ _ _ ltac:(lia) (wg_named _ _ _ Hw) Henv' Hstored) as (j & env2 & Ej & Hj & Henv2 & Hkeep2); [by exists cur|].
  unfold FinishCompactionOutputFile. rewrite Eb. cbn [of_option]. rewrite res_bind_ret, (current_output_last fin o c Eo), res_bind_ret. cbn zeta.
  rewrite (proj2 (Z.eqb_neq _ _)) by lia. cbn [negb assert_]. rewrite res_bind_ret, Hst, !res_bind_ret. cbn [ok Status_OK]. change (ok Status_OK) with true. cbn iota.
  rewrite E1, res_bind_ret, (update_output_last _ fin o c Eo), res_bind_ret. cbn zeta. unfold delete_TableBuilder. rewrite Hcl. cbn [assert_]. rewrite res_bind_ret, Hs, Esync.
  change (ok Status_OK) with true. cbn iota. rewrite Eclose, Hnum. change (ok Status_OK && true) with true. cbn iota. rewrite Hsz, Ej, res_bind_ret, Hj, res_bind_ret.
  eexists _, env2. split; [done|]. split; [split|done].
  - eexists. cbn [outputs set_builder set_total_bytes set_outputs builder]. split; [|done]. apply Forall2_app.
    + eapply list.Forall2_impl; [eapply (other_outputs_kept fin tables o n env env'); [done|done|done|done|apply Hw|done]|]. intros q es. apply written_kept. intros m contents _. apply Hkeep2.
    + constructor; [|constructor]. split; cbn [out_number out_file_size out_smallest out_largest]; [|by apply (wg_smallest _ _ _ Hw)|by apply (wg_largest _ _ _ Hw)].
      eexists _, _. split; [apply Hw|]. split; [done|]. split; [by apply Hkeep2|done].
  - cbn [outputs set_builder set_total_bytes set_outputs]. rewrite fmap_app. rewrite fmap_app in Hd. split; [done|]. apply Forall_app in Hn as [Hn1 _]. apply Forall_app. split; [done|]. by constructor.
  - rewrite Hp, Eo. cbn [outputs set_builder set_total_bytes set_outputs]. by rewrite !fmap_app.
  - done.
Qed.

(** The database while the compaction runs. *)
Definition at_work d0 (n : Z) (pending : gset Z) (env : E) : DBImpl E W :=
  let s := versions_ d0 in
  set_pending_outputs pending (set_versions (set_vs_numbers n (vs_manifest_file_number s) (vs_last_sequence s) (vs_log_number s) (vs_prev_log_number s) s) (descriptor_log_ d0) env d0).

(** The output that the next entry goes to: [o], with the entries [cur]. *)
Record open_output (tables : list (list entry)) cur c o b (n : Z) (pending0 pending : gset Z) (env : E) : Prop := {
  op_outputs : exists fin, Forall2 (written env) fin tables /\ outputs c = fin ++ [o];
  op_builder : builder c = Some b;
  op_writing : writing b o cur;
  op_numbers : base.NoDup (out_number <$> outputs c) /\ Forall (fun o => 0 < out_number o < n) (outputs c);
  op_pending : pending = list_to_set (out_number <$> outputs c) ∪ pending0;
  op_env : st_ok (good := usable_table) env;
}.

Lemma OpenCompactionOutputFile_ok tables c d0 n pending0 pending (env : E) : outputs_ok tables [] c n pending0 pending env -> builder c = None -> 0 < n < 2 ^ 64 - 1 ->
  exists c' o b pending' env', OpenCompactionOutputFile dbname opt c (at_work d0 n pending env) = Ret (Status_OK, c', at_work d0 (n + 1) pending' env') /\
    open_output tables [] c' o b (n + 1) pending0 pending' env' /\ compaction c' = compaction c /\ smallest_snapshot c' = smallest_snapshot c.
Proof.
  intros [(fin & Hfin & Hb) [Hd Hn] Hp Henv] Eb Hmax. rewrite Eb in Hb. destruct Hb as [Eo _].
  unfold OpenCompactionOutputFile. rewrite Eb, bool_decide_true by done. cbn [assert_]. rewrite res_bind_ret.
  unfold at_work at 1. unfold NewFileNumber. cbn [versions_ set_pending_outputs set_versions vs_next_file_number set_vs_numbers vs_manifest_file_number vs_last_sequence vs_log_number vs_prev_log_number].
  assert (exists name, TableFileName dbname n = Ret name) as (name & Ename) by (unfold TableFileName; rewrite assert_true, res_bind_ret by lia; by eexists). rewrite Ename, res_bind_ret.
  match goal with |- context [env_NewWritableFile name ?x] => change x with env end. destruct (env_New_ok (good := usable_table) name env Henv) as (f & env' & Enew & Hf & Hname & Henv' & Hkeep). rewrite Enew. change (ok Status_OK) with true. cbn iota.
  destruct Hopt as (Hint & Hval & Hc0 & Hpol). destruct (new_TableBuilder_holds ival same_user_key cost opt Hint) with (f := f) as (r & Er & Hr); [|done|].
  { intros p Ep. by destruct (Hpol p Ep) as (? & ? & _). }
  rewrite Er, res_bind_ret. set (o := MkOutput n None [] []). rewrite wrap_small by lia.
  eexists _, o, r, ({[n]} ∪ pending), env'. split; [done|]. split; [|done]. rewrite Eo in Hn, Hd. split; cbn [outputs set_builder set_outputs builder]; [|done| | | |done].
  - exists fin. split; [|by rewrite Eo]. rewrite <- (app_nil_r tables) in *. clear -Hfin Hkeep Ename Hn Hmax. rewrite app_nil_r in *.
    induction Hfin as [|q es fin tables Hq _ IH]; [constructor|]. apply Forall_cons_1 in Hn as [Hqn Hn]. constructor; [|by apply IH].
    eapply written_kept; [|exact Hq]. intros m contents Hm. apply Hkeep. intros ->. assert (out_number q = n); [|lia]. eapply (TableFileName_number dbname _ _ name); [lia|lia|done|done].
  - split; [|exists [], [], []; by split|done..]. cbn [out_number o]. rewrite Ename. f_equal. symmetry. rewrite <- Hname.
    apply (new_TableBuilder_file (fun g => name_of g = name_of f) opt f r Er). done.
  - rewrite Eo, fmap_app. split.
    + apply list.NoDup_app. split; [done|]. split; [|by apply NoDup_singleton]. intros m (q & -> & Hq)%list_elem_of_fmap Hm%list_elem_of_singleton.
      pose proof (Forall_elem _ _ q Hn Hq) as Hq'. cbn in Hq', Hm. lia.
    + apply Forall_app. split; [eapply List.Forall_impl; [|exact Hn]; cbn; lia|]. constructor; [cbn; lia|constructor].
  - rewrite Hp, Eo, !fmap_app, list_to_set_app_L. cbn [fmap list_fmap list_to_set out_number o]. set_solver.
Qed.

Lemma open_or_current tables cur c d0 n pending0 pending (env : E) : outputs_ok tables cur c n pending0 pending env -> 0 < n < 2 ^ 64 - 1 ->
  exists c' o b n' pending' env', (match builder c with Some _ => Ret (Status_OK, c, at_work d0 n pending env) | None => OpenCompactionOutputFile dbname opt c (at_work d0 n pending env) end)
      = Ret (Status_OK, c', at_work d0 n' pending' env') /\
    open_output tables cur c' o b n' pending0 pending' env' /\ compaction c' = compaction c /\ smallest_snapshot c' = smallest_snapshot c /\ n <= n' <= n + 1.
Proof.
  intros Ho Hn. destruct (builder c) as [b|] eqn:Eb.
  - destruct Ho as [(fin & Hfin & Hb) Hd Hp Henv]. rewrite Eb in Hb. destruct Hb as (o & Eo & Hw & _). exists c, o, b, n, pending, env. split; [done|]. split; [|split; [done|]; split; [done|lia]].
    split; [by exists fin|done..].
  - assert (cur = []) as ->. { destruct Ho as [(fin & _ & Hb) _ _ _]. rewrite Eb in Hb. by destruct Hb. }
    destruct (OpenCompactionOutputFile_ok tables c d0 n pending0 pending env Ho Eb Hn) as (c' & o & b & pending' & env' & E1 & Hop & Ec & Es).
    exists c', o, b, (n + 1), pending', env'. split; [done|]. split; [done|]. split; [done|]. split; [done|lia].
Qed.

Lemma writing_entries b o cur : writing b o cur -> NumEntries b = zlength cur /\ entries_cost cur < 2 ^ 29.
Proof.
  intros [_ (ws & rest & idx & [Ht _ _] & <-) _ _]. unfold NumEntries. rewrite (ta_num _ _ _ _ _ _ _ _ Ht). pose proof (ta_size _ _ _ _ _ _ _ _ Ht) as Hsz.
  pose proof (entries_cost_ge (table_entries ws ++ rest)). pose proof (zlength_nonneg (table_entries ws ++ rest)). split; [|done]. apply wrap_small. lia.
Qed.

(** Adding an entry. *)
Lemma writing_add b o cur key value sm : writing b o cur -> entries_ok icmp ival (cur ++ [(key, value)]) -> bytes_ok value -> entries_cost (cur ++ [(key, value)]) < 2 ^ 29 ->
  sm = (if NumEntries b =? 0 then key else out_smallest o) ->
  exists b', tb_Add key value b = Ret b' /\ writing b' (MkOutput (out_number o) (out_file_size o) sm key) (cur ++ [(key, value)]).
Proof.
  intros Hw Hes Hv Hc ->. destruct (writing_entries b o cur Hw) as [En _]. rewrite En. destruct Hw as [Hname (ws & rest & idx & Hr & Ecur) Hsm Hlg].
  destruct Hopt as (Hint & Hval & Hc0 & Hpol). rewrite <- Ecur in Hes, Hc.
  destruct (tb_Add_holds ival same_user_key cost opt Hint) with (r := b) (ws := ws) (cur := rest) (idx := idx) (key := key) (value := value) as (b' & ws' & cur' & idx' & E1 & Hr' & Ete); try done.
  { intros p Ep. by destruct (Hpol p Ep) as (? & ? & _). }
  exists b'. split; [done|]. split; cbn [out_number out_smallest out_largest].
  - rewrite Hname. f_equal. symmetry. apply (tb_Add_file (fun f => name_of f = name_of (file b))) in E1; [done| | |done]; intros; by rewrite ?wf_Append_name, ?wf_Flush_name.
  - exists ws', cur', idx'. split; [done|]. by rewrite Ete, Ecur.
  - intros _. destruct cur as [|e cur]; [done|]. rewrite (proj2 (Z.eqb_neq _ _)); [by apply Hsm|]. rewrite zlength_cons. pose proof (zlength_nonneg cur). lia.
  - intros _. rewrite fmap_app. apply (last_snoc key).
Qed.

Lemma add_entry_ok input tables cur c d0 n pending0 pending (env : E) key value : it_status input = Ret Status_OK -> it_value input = Ret value ->
  outputs_ok tables cur c n pending0 pending env -> 0 < n < 2 ^ 64 - 1 -> entries_ok icmp ival (cur ++ [(key, value)]) -> bytes_ok value ->
  entries_cost (cur ++ [(key, value)]) < 2 ^ 29 -> cost * zlength (cur ++ [(key, value)]) < 2 ^ 29 ->
  exists tables' cur' c' n' pending' env', add_entry dbname opt input key c (at_work d0 n pending env) = Ret (Status_OK, c', at_work d0 n' pending' env') /\
    outputs_ok tables' cur' c' n' pending0 pending' env' /\ concat tables' ++ cur' = concat tables ++ cur ++ [(key, value)] /\
    compaction c' = compaction c /\ smallest_snapshot c' = smallest_snapshot c /\ n <= n' <= n + 1 /\ (zlength cur' <= zlength cur + 1).
Proof.
  intros Hst Hval Ho Hn Hes Hv Hec Hcost. unfold add_entry.
  destruct (open_or_current tables cur c d0 n pending0 pending env Ho Hn) as (c1 & o & b & n1 & pending1 & env1 & -> & [(fin & Hfin & Eo) Eb Hw Hnum Hpend Henv1] & Ec & Es & Hn1).
  rewrite res_bind_ret. change (negb (ok Status_OK)) with false. cbn iota. rewrite Eb. cbn [of_option]. rewrite res_bind_ret.
  set (o2 := MkOutput (out_number o) (out_file_size o) (if NumEntries b =? 0 then key else out_smallest o) key).
  assert ((let! c2 := (if NumEntries b =? 0 then update_output (fun q => MkOutput (out_number q) (out_file_size q) (InternalKey_DecodeFrom key) (out_largest q)) c1 else Ret c1) in
           update_output (fun q => MkOutput (out_number q) (out_file_size q) (out_smallest q) (InternalKey_DecodeFrom key)) c2) = Ret (set_outputs (fin ++ [o2]) c1)) as Eup.
  { unfold o2. destruct (NumEntries b =? 0).
    - rewrite (update_output_last _ fin o c1 Eo), res_bind_ret. by rewrite (update_output_last _ fin (MkOutput (out_number o) (out_file_size o) key (out_largest o))) by done.
    - rewrite res_bind_ret. by rewrite (update_output_last _ fin o c1 Eo). }
  match type of Eup with (let! c2 := ?x in _) = _ => destruct x as [c2| |] end; cbn [res_bind] in Eup |- *; [|done..]. rewrite Eup, res_bind_ret, Hval, res_bind_ret.
  destruct (writing_add b o cur key value _ Hw Hes Hv Hec eq_refl) as (b' & -> & Hw'). fold o2 in Hw'. rewrite res_bind_ret. cbn zeta.
  set (c3 := set_builder (Some b') (set_outputs (fin ++ [o2]) c1)).
  assert (outputs_ok tables (cur ++ [(key, value)]) c3 n1 pending0 pending1 env1) as Ho3.
  { rewrite Eo in Hnum, Hpend. split; cbn [c3 outputs set_builder set_outputs builder].
    - exists fin. split; [done|]. exists o2. split; [done|]. split; [done|]. by destruct cur.
    - rewrite fmap_app. rewrite fmap_app in Hnum. split; [apply Hnum|]. destruct Hnum as [_ Hnum]. apply Forall_app in Hnum as [H1 H2]. apply Forall_app. split; [done|].
      apply Forall_cons_1 in H2 as [H2 _]. constructor; [exact H2|constructor].
    - rewrite Hpend. by rewrite !fmap_app.
    - done. }
  destruct (_ <=? FileSize b').
  - change (env_ (at_work d0 n1 pending1 env1)) with env1.
    destruct (FinishCompactionOutputFile_ok input tables (cur ++ [(key, value)]) c3 n1 pending0 pending1 env1 b' Hst Ho3 eq_refl Hcost) as (c4 & env4 & -> & Ho4 & _ & Ec4 & Es4); [lia|].
    rewrite res_bind_ret. exists (tables ++ [cur ++ [(key, value)]]), [], c4, n1, pending1, env4. split; [done|]. split; [done|].
    split; [rewrite concat_app; cbn [concat]; by rewrite !app_nil_r|]. rewrite Ec4, Es4. split; [done|]. split; [done|]. split; [done|]. pose proof (zlength_nonneg cur). unfold zlength at 1. cbn. lia.
  - exists tables, (cur ++ [(key, value)]), c3, n1, pending1, env1. split; [done|]. split; [done|]. split; [done|]. split; [done|]. split; [done|]. split; [done|].
    rewrite zlength_app. unfold zlength at 2. cbn. lia.
Qed.
End finish.

(** ** The loop of a compaction *)
Section loop.
Context {I : Type} `{!Iterator I} `{!IteratorOk icmp ival I}.
Variables (h : files_heap) (v : Version) (pv : VersionPtr) (smallest : SequenceNumber) (x0 : Compaction) (d0 : DBImpl E W) (xs : list ientry) (pending0 : gset Z).
Hypothesis Hxs : ientries_ok uc valid xs.
Hypothesis Hvalues : Forall (fun x => bytes_ok (ie_value x)) xs.
Hypothesis Hcost : entries_cost (ie_entry <$> xs) < 2 ^ 29.
Hypothesis Hfilter : cost * zlength xs < 2 ^ 29.
Hypothesis Hsmallest : smallest < kMaxSequenceNumber.
Hypothesis Hlevel : 0 <= level_ x0.
Abbreviation from := (Z.to_nat (level_ x0 + 2)).
Hypothesis Hlevels : levels_ok uc valid h (drop from (files_ v)).
Hypothesis Hgrand : grandparents_ok uc valid h x0.
Hypothesis Hversion : input_version_ x0 = Some pv /\ vs_versions (versions_ d0) !! pv = Some v /\ vs_files (versions_ d0) = h.
Hypothesis Hcalm : shutting_down_ d0 = false /\ has_imm_ d0 = false.
Implicit Types (st : work_state (E := E) (W := W) (I := I)).

Abbreviation base := (is_base uc h v (level_ x0)).
Abbreviation kept i := (survivors smallest base None (take i xs)).

(** The compaction, with other positions in the grandparents and the levels. *)
Definition same_job (x : Compaction) : Prop := exists i (seen : bool) n ptrs, x = set_level_ptrs ptrs (set_output i seen n x0) /\ 0 <= i <= zlength (grandparents_ x0).

(** [i] entries are done. *)
Record working (i : nat) st : Prop := {
  wk_bound : (i <= length xs)%nat;
  wk_input : it_at icmp ival (ie_entry <$> xs) (pos_from i (length xs)) (input st);
  wk_status : work_status st = Status_OK;
  wk_tracks : tracks (prev_at None xs i) (tracker st);
  wk_job : same_job (compaction (compact st));
  wk_ptrs : forall j x, (i <= j)%nat -> xs !! j = Some x -> ptrs_ok uc h from (files_ v) (ie_user x) (level_ptrs_ (compaction (compact st)));
  wk_smallest : smallest_snapshot (compact st) = smallest;
  wk_outputs : exists tables cur n pending env, work_db st = at_work d0 n pending env /\ outputs_ok tables cur (compact st) n pending0 pending env /\
    concat tables ++ cur = ie_entry <$> kept i /\ 0 < n /\ n + (zlength xs - Z.of_nat i) < 2 ^ 64 - 1;
}.

Lemma same_job_grand x : same_job x -> grandparents_ok uc valid h x /\ 0 <= grandparent_index_ x <= zlength (grandparents_ x) /\ level_ x = level_ x0 /\ input_version_ x = input_version_ x0.
Proof. intros (i & b & n & ptrs & -> & Hi). split; [exact Hgrand|]. split; [exact Hi|done]. Qed.

Lemma same_job_output x i (seen : bool) n : same_job x -> 0 <= i <= zlength (grandparents_ x0) -> same_job (set_output i seen n x) /\ level_ptrs_ (set_output i seen n x) = level_ptrs_ x.
Proof. intros (? & ? & ? & ptrs & -> & _) Hi. split; [|done]. by exists i, seen, n, ptrs. Qed.

Lemma same_job_ptrs x ptrs : same_job x -> same_job (set_level_ptrs ptrs x) /\ level_ptrs_ (set_level_ptrs ptrs x) = ptrs.
Proof. intros (i & b & n & ptrs' & -> & Hi). split; [|done]. by exists i, b, n, ptrs. Qed.

Lemma input_at i st : working i st -> it_Valid (input st) = bool_decide (i < length xs)%nat /\ it_status (input st) = Ret Status_OK.
Proof.
  intros Hw. pose proof (wk_input _ _ Hw) as Hi. split; [|by eapply it_status_at]. rewrite (it_Valid_at _ _ _ _ _ Hi). apply bool_decide_ext. unfold pos_from.
  destruct (decide _); split; [done|by eexists|by intros [? ?]|lia].
Qed.

(** Entries that are kept are entries of the input. *)
Lemma kept_sublist i : ie_entry <$> kept i `sublist_of` ie_entry <$> xs.
Proof. apply fmap_sublist. etrans; [apply survivors_sublist|]. apply sublist_take. Qed.

(** An output that is big enough is finished before the entry. *)
Lemma stop_first input0 tables cur c n pending (env : E) (stop : bool) : it_status input0 = Ret Status_OK -> outputs_ok tables cur c n pending0 pending env -> n <= 2 ^ 64 ->
  cost * zlength cur < 2 ^ 29 ->
  exists tables' cur' c' env', (match builder c with
      | Some _ => if stop then FinishCompactionOutputFile (I := I) input0 c env else Ret (Status_OK, c, env)
      | None => Ret (Status_OK, c, env)
      end) = Ret (Status_OK, c', env') /\ outputs_ok tables' cur' c' n pending0 pending env' /\ concat tables' ++ cur' = concat tables ++ cur /\
    compaction c' = compaction c /\ smallest_snapshot c' = smallest_snapshot c.
Proof.
  intros Hst Ho Hn Hc. destruct (builder c) as [b|] eqn:Eb; [|by exists tables, cur, c, env]. destruct stop; [|by exists tables, cur, c, env].
  destruct (FinishCompactionOutputFile_ok input0 tables cur c n pending0 pending env b Hst Ho Eb Hc Hn) as (c' & env' & -> & Ho' & _ & Ec & Es).
  exists (tables ++ [cur]), [], c', env'. split; [done|]. split; [done|]. rewrite concat_app. cbn [concat]. by rewrite !app_nil_r.
Qed.

Abbreviation body := (work_body uc dbname comparator_name opt max_file_size).

(** The entries of the current output, with the next entry. *)
Lemma kept_next i x tables cur : xs !! i = Some x -> concat tables ++ cur = ie_entry <$> kept i -> hidden smallest (prev_at None xs i) x || obsolete smallest base x = false ->
  concat tables ++ cur ++ [ie_entry x] = ie_entry <$> kept (S i) /\ cur ++ [ie_entry x] `sublist_of` ie_entry <$> xs.
Proof.
  intros Hi Ek Hd. assert (concat tables ++ cur ++ [ie_entry x] = ie_entry <$> kept (S i)) as Ek'.
  { rewrite (survivors_take smallest base xs i x Hi), Hd, fmap_app, <- Ek. by rewrite <- app_assoc. }
  split; [done|]. etrans; [|apply (kept_sublist (S i))]. rewrite <- Ek'. by apply sublist_inserts_l.
Qed.

Lemma cur_fits i tables cur : concat tables ++ cur = ie_entry <$> kept i -> cost * zlength cur < 2 ^ 29.
Proof.
  intros Ek. destruct Hopt as (_ & _ & Hc0 & _). assert (zlength cur <= zlength xs); [|nia].
  pose proof (zlength_sublist _ _ (kept_sublist i)) as Hl. rewrite <- Ek, zlength_app in Hl. pose proof (zlength_nonneg (concat tables)). unfold zlength in *. rewrite length_fmap in Hl. lia.
Qed.

Lemma work_step i st : working i st -> (i < length xs)%nat -> exists st', body st = Ret (inl st') /\ working (S i) st'.
Proof.
  intros Hw Hi. destruct (input_at i st Hw) as [Hv Hs]. destruct (lookup_lt_is_Some_2 xs i Hi) as [x Ex].
  destruct Hw as [_ Hinput Hok Htr Hjob Hptrs Hsm (tables & cur & n & pending & env & Edb & Ho & Ek & Hn0 & Hn)].
  unfold pos_from in Hinput. rewrite decide_True in Hinput by done.
  destruct (it_entry_at _ _ _ _ _ Hinput) as (e & He & Hkey & Hval). rewrite list_lookup_fmap, Ex in He. injection He as <-.
  destruct (ie_ok uc valid xs i x Hxs Ex) as (Hvx & Hsx & Htx). destruct Hversion as (Epv & Ev & Eh). destruct Hcalm as [Hsd Himm].
  unfold work_body. rewrite Hv, Edb, bool_decide_true by done. change (shutting_down_ (at_work d0 n pending env)) with (shutting_down_ d0). rewrite Hsd. cbn [negb andb].
  unfold prioritize_imm. change (has_imm_ (at_work d0 n pending env)) with (has_imm_ d0). rewrite Himm, res_bind_ret. cbn zeta.
  change (vs_files (versions_ (at_work d0 n pending env))) with (vs_files (versions_ d0)). rewrite Eh, Hkey, res_bind_ret.
  destruct (same_job_grand _ Hjob) as (Hg & Hgi & Elev & Einp).
  destruct (ShouldStopBefore_ok uc valid h max_file_size (ie_entry x).1 _ Hg) as (stop & gi & ov & -> & Hgi'); [by eexists _, _; split; [|split]|done|]. rewrite res_bind_ret.
  destruct (same_job_output _ gi true ov Hjob) as [Hjob1 Ep1]; [destruct Hjob as (? & ? & ? & ? & Ej & _); rewrite Ej in Hgi'; exact Hgi'|].
  set (c1 := set_compaction _ (compact st)). change (env_ (at_work d0 n pending env)) with env.
  assert (outputs_ok tables cur c1 n pending0 pending env) as Ho1 by (destruct Ho as [H1 H2 H3 H4]; by split).
  destruct (stop_first (input st) tables cur c1 n pending env stop Hs Ho1) as (tables2 & cur2 & c2 & env2 & -> & Ho2 & Ek2 & Ec2 & Es2); [unfold zlength in *; lia|by eapply cur_fits|].
  rewrite res_bind_ret. change (negb (ok Status_OK)) with false. cbn iota. rewrite <- Ek2 in Ek.
  change (set_env env2 (at_work d0 n pending env)) with (at_work d0 n pending env2).
  unfold input_version. rewrite Ec2. change (compaction c1) with (set_output gi true ov (compaction (compact st))).
  change (input_version_ (set_output gi true ov (compaction (compact st)))) with (input_version_ (compaction (compact st))). rewrite Einp, Epv. cbn [of_option]. rewrite res_bind_ret.
  unfold version_at. change (vs_versions (versions_ (at_work d0 n pending env2))) with (vs_versions (versions_ d0)). rewrite Ev. cbn [of_option]. rewrite res_bind_ret.
  change (smallest_snapshot c2) with (smallest_snapshot c2). rewrite Es2. change (smallest_snapshot c1) with (smallest_snapshot (compact st)). rewrite Hsm.
  set (job := set_output gi true ov (compaction (compact st))) in *. assert (level_ job = level_ x0) as Elev1 by done.
  destruct (drop_key_ok uc valid h v smallest Hsmallest (prev_at None xs i) (tracker st) x job) as (t' & ptrs & -> & Htr' & Hptrs'); [lia|by rewrite Elev1| |done|done|done| |].
  { intros y Hy. destruct i as [|j]; [done|]. cbn in Hy. apply (ie_ok uc valid xs j y Hxs Hy). }
  { rewrite Elev1, Ep1. by apply (Hptrs i x). }
  rewrite res_bind_ret, Elev1 in *. destruct (same_job_ptrs job ptrs Hjob1) as [Hjob2 Ep2]. set (c3 := set_compaction (set_level_ptrs ptrs job) c2).
  assert (outputs_ok tables2 cur2 c3 n pending0 pending env2) as Ho3 by (destruct Ho2 as [H1 H2 H3 H4]; by split).
  assert (forall j y, (S i <= j)%nat -> xs !! j = Some y -> ptrs_ok uc h from (files_ v) (ie_user y) ptrs) as Hptrs3.
  { intros j y Hj Ey. destruct (ie_ok uc valid xs j y Hxs Ey) as (Hvy & _). apply (ptrs_ok_later uc valid h from (files_ v) (ie_user x)); [done..| |done].
    apply not_true_iff_false. rewrite (user_before_spec uc valid) by done. apply (ie_order uc valid xs i j x y Hxs Ex Ey). lia. }
  destruct (it_Next_at _ _ _ _ _ Hinput) as (i' & Enext & Hnext). rewrite Enext. unfold next_pos in Hnext. rewrite length_fmap in Hnext.
  destruct (hidden smallest (prev_at None xs i) x || obsolete smallest base x) eqn:Ed.
  - rewrite !res_bind_ret. change (negb (ok Status_OK)) with false. cbn iota. eexists. split; [done|]. split; cbn [input work_status tracker compact work_db]; [lia|done|done|by cbn [prev_at]; rewrite Ex|done|done| |].
    + change (smallest_snapshot c3) with (smallest_snapshot c2). by rewrite Es2.
    + exists tables2, cur2, n, pending, env2. split; [done|]. split; [done|]. split; [|split; [done|lia]]. by rewrite (survivors_take smallest base xs i x Ex), Ed, app_nil_r.
  - destruct (kept_next i x tables2 cur2 Ex Ek Ed) as [Ek' Hsub].
    destruct (add_entry_ok (input st) tables2 cur2 c3 d0 n pending0 pending env2 (ie_entry x).1 (ie_entry x).2) as (tables4 & cur4 & c4 & n4 & pending4 & env4 & -> & Ho4 & Ek4 & Ec4 & Es4 & Hn4 & _); try done.
    { unfold zlength in *. lia. }
    { rewrite <- surjective_pairing. eapply entries_ok_sublist; [exact Hsub|apply (io_sorted uc valid xs Hxs)]. }
    { exact (Forall_lookup_1 _ _ _ _ Hvalues Ex). }
    { rewrite <- surjective_pairing. pose proof (entries_cost_sublist _ _ Hsub). lia. }
    { rewrite <- surjective_pairing. rewrite app_assoc in Ek'. rewrite <- (app_nil_l (cur2 ++ _)). apply (cur_fits (S i) tables2). by rewrite <- app_assoc in Ek'. }
    rewrite res_bind_ret. change (negb (ok Status_OK)) with false. cbn iota. rewrite res_bind_ret. eexists. split; [done|].
    split; cbn [input work_status tracker compact work_db]; [lia|done|done|by cbn [prev_at]; rewrite Ex|by rewrite Ec4|by rewrite Ec4| |].
    + rewrite Es4. change (smallest_snapshot c3) with (smallest_snapshot c2). by rewrite Es2.
    + exists tables4, cur4, n4, pending4, env4. split; [done|]. split; [done|]. split; [by rewrite Ek4, <- surjective_pairing|]. split; lia.
Qed.

Lemma work_loop st : working 0 st -> exists st', while body st = Ret st' /\ working (length xs) st'.
Proof.
  intros Hw. apply (while_rel body (fun m st => exists i, m = (length xs - i)%nat /\ working i st) (working (length xs)) (length xs) st).
  - clear st Hw. intros m st (i & -> & Hw). pose proof (wk_bound _ _ Hw). destruct (decide (i = length xs)) as [->|Hne].
    + left. exists st. split; [|done]. destruct (input_at _ _ Hw) as [Hv _]. unfold work_body. by rewrite Hv, bool_decide_false by lia.
    + right. destruct (work_step i st Hw) as (st' & E1 & Hw'); [lia|]. exists (length xs - S i)%nat, st'. split; [lia|]. split; [done|]. by exists (S i).
  - exists O. split; [lia|done].
  - pose proof (io_short uc valid xs Hxs) as Hl. unfold zlength in Hl. lia.
Qed.

Lemma finish_work_ok st : working (length xs) st -> exists tables c' n pending env, finish_work st = Ret (Status_OK, c', at_work d0 n pending env) /\
  outputs_ok tables [] c' n pending0 pending env /\ concat tables = ie_entry <$> survivors smallest base None xs /\ builder c' = None /\ same_job (compaction c').
Proof.
  intros Hw. destruct (input_at _ _ Hw) as [_ Hs]. destruct Hw as [_ Hinput Hok Htr Hjob _ Hsm (tables & cur & n & pending & env & Edb & Ho & Ek & Hn0 & Hn)].
  destruct Hcalm as [Hsd _]. unfold finish_work. rewrite Edb, Hok. change (shutting_down_ (at_work d0 n pending env)) with (shutting_down_ d0). rewrite Hsd. cbn zeta.
  change (ok Status_OK && false) with false. cbn iota. change (env_ (at_work d0 n pending env)) with env. pose proof (cur_fits _ _ _ Ek) as Hfit.
  rewrite firstn_all in Ek.
  destruct (builder (compact st)) as [b|] eqn:Eb.
  - change (ok Status_OK) with true. cbn iota. destruct (FinishCompactionOutputFile_ok (input st) tables cur (compact st) n pending0 pending env b Hs Ho Eb Hfit) as (c' & env' & -> & Ho' & Eb' & Ec & _); [unfold zlength in *; lia|].
    rewrite !res_bind_ret. change (ok Status_OK) with true. cbn iota. rewrite Hs, res_bind_ret. exists (tables ++ [cur]), c', n, pending, env'. split; [done|]. split; [done|].
    rewrite concat_app. cbn [concat]. rewrite app_nil_r, Ek. split; [done|]. split; [done|]. by rewrite Ec.
  - rewrite res_bind_ret. change (ok Status_OK) with true. cbn iota. rewrite Hs, res_bind_ret. assert (cur = []) as ->.
    { destruct Ho as [(fin & _ & Hb) _ _ _]. rewrite Eb in Hb. by destruct Hb. }
    exists tables, (compact st), n, pending, env. rewrite app_nil_r in Ek. by split_and!.
Qed.
End loop.

(** ** A compaction *)
Section merge.
Context `{!IteratorOk icmp ival J} `{!TableCacheIteratorsOk E J uc valid}.
Variables (contents : FilePtr -> list ientry) (F : Z -> Z -> list entry -> Prop).

(** What a compaction relies on: [c] is a new state for a compaction of the
    version [v] at [pv], whose input files hold [xs], and nothing interferes. *)
Record compaction_ready (v : Version) (pv : VersionPtr) (xs : list ientry) c d : Prop := {
  cr_entries : ientries_ok uc valid xs;
  cr_values : Forall (fun x => bytes_ok (ie_value x)) xs;
  cr_cost : entries_cost (ie_entry <$> xs) < 2 ^ 29 /\ cost * zlength xs < 2 ^ 29;
  cr_smallest : smallest_snapshot c < kMaxSequenceNumber;
  cr_level : 0 <= level_ (compaction c);
  cr_levels : levels_ok uc valid (vs_files (versions_ d)) (drop (Z.to_nat (level_ (compaction c) + 2)) (files_ v));
  cr_grandparents : grandparents_ok uc valid (vs_files (versions_ d)) (compaction c) /\ 0 <= grandparent_index_ (compaction c) <= zlength (grandparents_ (compaction c));
  cr_version : input_version_ (compaction c) = Some pv /\ vs_versions (versions_ d) !! pv = Some v;
  cr_calm : shutting_down_ d = false /\ has_imm_ d = false;
  cr_new : outputs c = [] /\ builder c = None;
  cr_ptrs : level_ptrs_ (compaction c) = replicate (length (files_ v)) 0;
  cr_input0 : input_holds uc valid (vs_files (versions_ d)) contents F (level_ (compaction c)) (inputs0 (compaction c));
  cr_input1 : input_holds uc valid (vs_files (versions_ d)) contents F (level_ (compaction c) + 1) (inputs1 (compaction c));
  cr_inputs : xs ≡ₚ entries_of contents (inputs0 (compaction c) ++ inputs1 (compaction c));
  cr_serves : ti_serves F (env_ d);
  cr_storage : forall env, ti_serves F env -> st_ok (good := usable_table) env;
  cr_numbers : 0 < vs_next_file_number (versions_ d) /\ vs_next_file_number (versions_ d) + zlength xs < 2 ^ 64 - 1;
}.

Lemma merge_inputs_ok v pv xs c d : compaction_ready v pv xs c d ->
  let base := is_base uc (vs_files (versions_ d)) v (level_ (compaction c)) in
  exists tables imm c' n pending env, merge_inputs uc dbname comparator_name opt max_file_size c d = Ret (Status_OK, imm, c', at_work d n pending env) /\
    outputs_ok tables [] c' n (pending_outputs_ d) pending env /\ concat tables = ie_entry <$> survivors (smallest_snapshot c) base None xs /\ builder c' = None /\
    same_job (compaction c) (compaction c').
Proof.
  intros [Hxs Hvalues [Hcost Hfilter] Hsmall Hlev Hlevels [Hgrand Hgi] [Epv Ev] Hcalm [Eo Eb] Eptrs H0 H1 Hp Hserve Hstorage Hnum] base. set (h := vs_files (versions_ d)) in *.
  destruct (MakeInputIterator_at uc valid h paranoid contents F (compaction c) (env_ d) (ie_entry <$> xs) Hlev H0 H1 Hserve (io_sorted uc valid xs Hxs)) as (it & env & p & Eit & Hserve' & Hit).
  { by rewrite Hp. }
  unfold merge_inputs. fold h. cbn [TableBuilder.paranoid_checks]. rewrite Eit, res_bind_ret. cbn zeta.
  set (HI := InputIterator_Iterator uc h paranoid). set (HIok := InputIterator_ok uc valid h paranoid contents F).
  destruct (@it_SeekToFirst_at _ _ _ _ HI HIok _ _ _ Hit) as (it' & Efirst & Hit'). rewrite Efirst, res_bind_ret.
  set (st0 := MkWorkState it' Status_OK new_KeyTracker 0 c (set_env env d)).
  assert (@working _ HI HIok h v (smallest_snapshot c) (compaction c) d xs (pending_outputs_ d) 0 st0) as Hw.
  { split; cbn [st0 input work_status tracker compact work_db]; [lia| |done|done| | |done|].
    - replace (pos_from 0 (length xs)) with (first_pos (ie_entry <$> xs)); [done|]. unfold pos_from. destruct xs; [done|]. cbn. by rewrite decide_True by lia.
    - exists (grandparent_index_ (compaction c)), (seen_key_ (compaction c)), (overlapped_bytes_ (compaction c)), (level_ptrs_ (compaction c)). split; [by destruct (compaction c)|done].
    - intros j x _ _. rewrite Eptrs. split; [by rewrite length_replicate|]. intros i files m _ _ Hm. apply lookup_replicate in Hm as [-> _]. split; [pose proof (zlength_nonneg files); lia|lia].
    - exists [], [], (vs_next_file_number (versions_ d)), (pending_outputs_ d), env. split; [destruct d as [[] ]; reflexivity|]. split; [|split; [done|lia]].
      split; rewrite ?Eo, ?Eb; [by exists []|by repeat constructor|by cbn; rewrite union_empty_l_L|by apply Hstorage]. }
  destruct (@work_loop _ HI HIok h v pv (smallest_snapshot c) (compaction c) d xs (pending_outputs_ d) Hxs Hvalues Hcost Hfilter Hsmall Hlev Hlevels Hgrand (conj Epv (conj Ev eq_refl)) Hcalm st0 Hw)
    as (st' & -> & Hw'). rewrite res_bind_ret.
  destruct (@finish_work_ok _ HI HIok h v (smallest_snapshot c) (compaction c) d xs (pending_outputs_ d) Hfilter Hcalm st' Hw') as (tables & c' & n & pending & env' & -> & Ho & Ek & Eb' & Hjob).
  rewrite res_bind_ret. by exists tables, (imm_micros st'), c', n, pending, env'.
Qed.

(** Below the output: the levels from the second after the compaction's on. *)
Abbreviation deeper_files v c := (concat (drop (Z.to_nat (level_ (compaction c) + 2)) (files_ v))).

Lemma in_file_holds h p f x : h !! p = Some f -> file_holds uc valid f (contents p) -> x ∈ contents p -> in_file uc h (ie_user x) p = true.
Proof.
  intros Hp Hf Hx. destruct (file_holds_bounds uc valid f _ x Hf Hx) as [Hs Hl]. destruct (file_holds_ok uc valid f _ Hf) as [Vs Vl _].
  pose proof (entries_ie_ok uc valid _ x (fh_entries _ _ _ _ Hf) Hx) as Vx. assert (ival (ie_key x)) as Hk by (by apply ie_key_valid).
  unfold in_file, start_of, limit_of. rewrite (file_in_at h p f Hp). assert (user_of (ie_key x) = ie_user x) as <-.
  { unfold user_of, ie_key, ikey. pose proof (zlength_fixed64 (ie_tag x)) as H8. unfold zlength in H8. rewrite length_app.
    unfold ie_tag in H8. rewrite take_app_le by lia. apply take_ge. lia. }
  rewrite (user_of_mono uc valid (smallest f) (ie_key x)) by done. by rewrite (user_of_mono uc valid (ie_key x) (largest f)) by done.
Qed.

(** C13: The loop of a compaction ([merge_inputs]), on a new compaction of a
    well-formed version with which nothing interferes ([compaction_ready]: no
    shutdown, no memtable to flush, inputs below 512 MB) and on storage that
    does not fail, returns OK and writes tables that hold a part of its input,
    in order. Every read at or above the smallest snapshot sees the same before
    and after it, whatever is newer than the input and with the levels below the
    output as they are. *)
Theorem compaction_keeps_views v pv xs c d : compaction_ready v pv xs c d -> Forall (ptr_holds uc valid (vs_files (versions_ d)) contents F) (deeper_files v c) ->
  exists tables ys imm c' n pending env, merge_inputs uc dbname comparator_name opt max_file_size c d = Ret (Status_OK, imm, c', at_work d n pending env) /\
    Forall2 (written env) (outputs c') tables /\ builder c' = None /\ list_to_set (out_number <$> outputs c') ⊆ pending /\
    concat tables = ie_entry <$> ys /\ ys `sublist_of` xs /\
    forall sq news u value, smallest_snapshot c <= sq -> newer news xs ->
      alive sq (news ++ xs ++ entries_of contents (deeper_files v c)) u value <-> alive sq (news ++ ys ++ entries_of contents (deeper_files v c)) u value.
Proof.
  intros Hr Hdeep. destruct (merge_inputs_ok v pv xs c d Hr) as (tables & imm & c' & n & pending & env & E1 & [(fin & Hw & Hb) _ Hp _] & Ek & Eb & _). rewrite Eb in Hb. destruct Hb as [Eo _].
  eexists tables, _, imm, c', n, pending, env. split; [exact E1|]. rewrite Eo in *. split; [exact Hw|]. split; [exact Eb|]. split; [rewrite Hp; set_solver|]. split; [exact Ek|]. split; [apply survivors_sublist|].
  intros sq news u value Hsq Hnews. apply (survivors_views uc valid); [apply Hr|done|done|]. intros x (p & Hp1 & Hx)%entries_of_elem. unfold is_base, no_file.
  destruct (Forall_elem _ _ _ Hdeep Hp1) as (f & Hpf & Hf & _). apply elem_of_concat in Hp1 as (i & files & Hi & Hin).
  apply not_true_iff_false. rewrite forallb_forall. intros Hno. specialize (Hno files). rewrite <- list_elem_of_In in Hno. specialize (Hno (list_elem_of_lookup_2 _ _ _ Hi)).
  apply negb_true_iff, not_true_iff_false in Hno. apply Hno, existsb_exists. exists p. split; [by apply list_elem_of_In|]. by apply (in_file_holds _ p f).
Qed.
End merge.
End outputs.

(** ** Outputs that were not finished *)
Section unfinished.
Context {E W G J : Type} `{!Env E W G} `{!WritableFile W} `{!SequentialFile G} `{!DbEnv E W} `{!Iterator J} `{!TableCacheIterators E J} `{!TableCacheEvict E} `{!NewArray}.
Variables (user_comparator : Comparator) (dbname comparator_name : bytes) (opt : Options) (max_file_size : Z).

Definition unfinished (out : Output) : bool := bool_decide (out_file_size out = None).

Lemma add_output_sizes_unfinished l n : existsb unfinished l = true -> add_output_sizes l n = UB.
Proof.
  revert n. induction l as [|out l IH]; intros n; [done|]. cbn. unfold unfinished at 1. destruct (out_file_size out) as [sz|]; cbn; [apply IH|done].
Qed.

(** The sizes of the outputs are added up also when the compaction failed: if
    an output was opened and never finished, because the file could not be
    created or the database is closing, its size has no value yet, and
    [DoCompactionWork] reads it. *)
Theorem unfinished_output_read (c c' : CompactionState W) (d d' : DBImpl E W) n smallest s imm read0 read1 : let d1 := (now d).2 in
  NumLevelFiles (level_ (compaction c)) (versions_ d1) = Ret n -> 0 < n -> builder c = None -> choose_smallest d1 = Ret smallest ->
  merge_inputs user_comparator dbname comparator_name opt max_file_size (set_smallest_snapshot smallest c) d1 = Ret (s, imm, c', d') ->
  existsb unfinished (outputs c') = true ->
  add_sizes (vs_files (versions_ (now d').2)) (inputs0 (compaction c')) 0 = Ret read0 -> add_sizes (vs_files (versions_ (now d').2)) (inputs1 (compaction c')) read0 = Ret read1 ->
  DoCompactionWork user_comparator dbname comparator_name opt max_file_size c d = UB.
Proof.
  intros d1 Hn Hpos Hb Hs Hm Hout H0 H1. unfold DoCompactionWork. subst d1. destruct (now d) as [t d1]. cbn [snd] in *. rewrite Hn, res_bind_ret, (proj2 (Z.ltb_lt _ _) Hpos). cbn [assert_].
  rewrite res_bind_ret, bool_decide_true by done. cbn [assert_]. rewrite res_bind_ret, Hs, res_bind_ret, Hm, res_bind_ret. destruct (now d') as [t' d2]. cbn [snd] in *.
  rewrite H0, res_bind_ret, H1, res_bind_ret. by rewrite add_output_sizes_unfinished.
Qed.
End unfinished.
