(* ===== verification/DbStorage.v ===== *)
(** * LevelDB: a database over the table cache

    The table cache with its environment is an environment for the database,
    and on a reliable one it keeps the contracts that compactions rely on. *)
From S2P Require Import Prelude LdbBase Coding LogWriter Comparator DbFormat VersionEdit Arena Iterator Block Merger TwoLevel Format Filter FilterFacts TableBuilder Table TableBuild DbIterFacts TableRoundtrip Cache BlockCaches Version VersionFacts Filename VersionSet VersionSetFacts Compaction LevelIter TableCache DbImpl DbImplFacts.

(** ** The environment of the table cache, as that of the database *)
Section lifted.
Context {E W G R C : Type} `{!Env E W G} `{!DbEnv E W} `{!TableEnv E R} `{!RandomAccessFile R} `{!BlockCache C}.
Abbreviation TC := (TableCacheState E R C).

Definition on_env {A} (f : E -> A * E) (tc : TC) : A * TC := let '(a, env) := f (tc_env tc) in (a, set_tc_env env tc).

#[export] Instance table_cache_Env : Env TC W G := {|
  env_NewWritableFile name := on_env (env_NewWritableFile name);
  env_NewAppendableFile name := on_env (env_NewAppendableFile name);
  env_NewSequentialFile name := on_env (env_NewSequentialFile name);
  env_GetFileSize name tc := env_GetFileSize name (tc_env tc);
  env_ReadFileToString name tc := env_ReadFileToString name (tc_env tc);
  env_WriteStringToFileSync data name := on_env (env_WriteStringToFileSync data name);
  env_RenameFile source target := on_env (env_RenameFile source target);
  env_DeleteFile name := on_env (env_DeleteFile name);
  env_Sync := env_Sync (E := E);
|}.

#[export] Instance table_cache_DbEnv : DbEnv TC W := {|
  env_Close f := on_env (env_Close f);
  env_NowMicros := on_env (env_NowMicros (W := W));
  env_GetChildren dir := on_env (env_GetChildren (W := W) dir);
|}.

#[export] Instance table_cache_Evict : TableCacheEvict TC := {| tc_Evict := Evict |}.
End lifted.

(** An environment on which nothing fails. *)
Class ReliableEnv (E W G R : Type) `{!Env E W G} `{!WritableFile W} `{!ReliableFile W} `{!DbEnv E W} `{!TableEnv E R} `{!RandomAccessFile R} `{!RandomReadableFile R}
    `{!TableEnvOk E R} : Type := {
  re_name : W -> bytes;
  re_Append : forall data f, re_name (wf_Append data f).2 = re_name f;
  re_Flush : forall f, re_name (wf_Flush f).2 = re_name f;
  re_New : forall name e, exists f e', env_NewWritableFile name e = (Status_OK, f, e') /\ wf_contents f = [] /\ re_name f = name /\
    forall n b, n <> name -> env_file n b e -> env_file n b e';
  re_Sync : forall f, exists f', env_Sync (E := E) f = (Status_OK, f') /\ wf_contents f' = wf_contents f /\ re_name f' = re_name f;
  re_Close : forall f e, exists e', env_Close f e = (Status_OK, e') /\ env_file (re_name f) (wf_contents f) e' /\
    forall n b, n <> re_name f -> env_file n b e -> env_file n b e';
}.

Section storage.
Context (uc : Comparator) (valid : bytes -> Prop) `{!ComparatorOk uc valid}.
Variables (dbname : bytes) (paranoid : bool) (bsize interval : Z) (comp : CompressionType) (policy : option FilterPolicy) (cost : Z).
Abbreviation opt := (MkOptions (InternalKeyComparator uc) paranoid bsize interval comp policy).
Hypothesis Hpolicy : forall p, policy = Some p -> FilterPolicyOk p (ivalid valid) same_user_key cost /\ bytes_ok (fp_Name p).
Context {E W G R C : Type} `{!Env E W G} `{!WritableFile W} `{!ReliableFile W} `{!SequentialFile G} `{!DbEnv E W} `{!TableEnv E R} `{!RandomAccessFile R} `{!RandomReadableFile R}
  `{!TableEnvOk E R} `{!ReliableEnv E W G R} `{!BlockCache C} `{!BlockCacheOk C}.
Abbreviation TC := (TableCacheState E R C).
Abbreviation served := (tables_served uc valid dbname paranoid bsize interval comp policy cost).
Abbreviation no_tables := (fun (_ _ : Z) (_ : list entry) => False).

(** Nothing but the cache itself is asked when no table is. *)
Lemma served_none F (tc : TC) : served F tc -> served no_tables tc.
Proof.
  intros [_ _ Hc Hb]. split; [by intros ? ? ? []|by intros ? ? ? ? ? []| |exact Hb]. eapply sharded_ok_impl; [|exact Hc]. intros k tf (es & Ht & _). exists es. split; [exact Ht|]. by intros ? ? ? _ _ [].
Qed.

Lemma served_env e (tc : TC) : served no_tables tc -> served no_tables (set_tc_env e tc).
Proof. intros [_ _ Hc Hb]. split; [by intros ? ? ? []|by intros ? ? ? ? ? []|exact Hc|exact Hb]. Qed.

#[export] Instance table_cache_storage :
  @DbStorageOk TC W G (EmptyIterator + TableIter R C) table_cache_Env _ _ table_cache_DbEnv _ (table_cache_Iterators dbname opt) dbname (usable_table uc valid policy cost).
Proof.
  refine (@Build_DbStorageOk TC W G (EmptyIterator + TableIter R C) table_cache_Env _ _ table_cache_DbEnv _ (table_cache_Iterators dbname opt) dbname (usable_table uc valid policy cost)
    (re_name (E := E)) (served no_tables) (fun n b tc => env_file n b (tc_env tc)) (re_Append (E := E)) (re_Flush (E := E)) _ (re_Sync (E := E)) _ _).
  - intros name tc Htc. cbn [env_NewWritableFile table_cache_Env]. unfold on_env. destruct (re_New name (tc_env tc)) as (f & e & -> & Hf & Hn & Hkeep).
    exists f, (set_tc_env e tc). split; [reflexivity|]. split; [exact Hf|]. split; [exact Hn|]. split; [by apply served_env|]. exact Hkeep.
  - intros f tc Htc. cbn [env_Close table_cache_DbEnv]. unfold on_env. destruct (re_Close f (tc_env tc)) as (e & -> & Hf & Hkeep).
    exists (set_tc_env e tc). split; [reflexivity|]. split; [by apply served_env|]. by split.
  - intros n name b tc Hn Ename Htc Hfile (es & Hes). cbn [tc_NewIterator table_cache_Iterators].
    destruct (new_iterator_ok uc valid dbname paranoid bsize interval comp policy cost Hpolicy no_tables n (zlength b) es new_ReadOptions tc Htc) as (i & tc' & es' & E1 & Hi & _ & Htc' & Hkeep).
    { split; [done|]. by exists name, b. }
    { done. }
    exists (inr i), tc'. split; [exact E1|]. split; [|by split].
    exact (@it_status_at _ _ _ _ _ (TableIter_ok uc valid paranoid bsize interval comp policy cost) _ _ _ Hi).
Defined.
End storage.

(** ** An environment in memory *)
Abbreviation MemEnv := (gmap bytes bytes) (only parsing).

Record NamedFile : Type := MkNamedFile {
  nf_name : bytes;
  nf_contents : bytes;
}.

#[export] Instance NamedFile_writable : WritableFile NamedFile := {
  wf_Append data f := (Status_OK, MkNamedFile (nf_name f) (nf_contents f ++ data));
  wf_Flush f := (Status_OK, f);
}.

#[export] Instance NamedFile_reliable : ReliableFile NamedFile.
Proof. by exists nf_contents. Defined.

Definition mem_create (name : bytes) (e : MemEnv) : Status * NamedFile * MemEnv := (Status_OK, MkNamedFile name [], <[name := []]> e).
Definition mem_append (name : bytes) (e : MemEnv) : Status * NamedFile * MemEnv := (Status_OK, MkNamedFile name (default [] (e !! name)), e).
Definition mem_open (name : bytes) (e : MemEnv) : Status * bytes * MemEnv :=
  match e !! name with Some b => (Status_OK, b, e) | None => (NotFound name, [], e) end.
Definition mem_rename (source target : bytes) (e : MemEnv) : Status * MemEnv :=
  match e !! source with Some b => (Status_OK, <[target := b]> (delete source e)) | None => (NotFound source, e) end.
Definition mem_delete (name : bytes) (e : MemEnv) : Status * MemEnv :=
  match e !! name with Some _ => (Status_OK, delete name e) | None => (NotFound name, e) end.
Definition mem_children (dir : bytes) (e : MemEnv) : list bytes :=
  omap (fun name => if starts_with name (dir ++ str "/") then Some (zdrop (zlength dir + 1) name) else None) (map_to_list e).*1.

#[export] Instance mem_Env : Env MemEnv NamedFile bytes := {|
  env_NewWritableFile := mem_create;
  env_NewAppendableFile := mem_append;
  env_NewSequentialFile := mem_open;
  env_GetFileSize name e := let '(s, b, _) := mem_open name e in (s, zlength b);
  env_ReadFileToString name e := let '(s, b, _) := mem_open name e in (s, b);
  env_WriteStringToFileSync data name e := (Status_OK, <[name := data]> e);
  env_RenameFile := mem_rename;
  env_DeleteFile := mem_delete;
  env_Sync f := (Status_OK, f);
|}.

#[export] Instance mem_DbEnv : DbEnv MemEnv NamedFile := {|
  env_Close f e := (Status_OK, <[nf_name f := nf_contents f]> e);
  env_NowMicros e := (0, e);
  env_GetChildren dir e := (mem_children dir e, e);
|}.

#[export] Instance mem_TableEnv : TableEnv MemEnv bytes := {| env_NewRandomAccessFile := mem_open |}.

#[export] Instance mem_TableEnv_ok : TableEnvOk MemEnv bytes.
Proof.
  refine {| env_file name b e := e !! name = Some b |}. intros name b e He. cbn [env_NewRandomAccessFile mem_TableEnv]. unfold mem_open. rewrite He. by exists b, e.
Defined.

#[export] Instance mem_reliable : ReliableEnv MemEnv NamedFile bytes bytes.
Proof.
  refine {| re_name := nf_name |}; [done|done| | |].
  - intros name e. eexists _, _. split; [reflexivity|]. split; [done|]. split; [done|]. intros n b Hn He.
    change (<[name := []]> e !! n = Some b). by rewrite lookup_insert_ne.
  - intros f. by exists f.
  - intros f e. eexists. split; [reflexivity|]. split; [exact (lookup_insert_eq e (nf_name f) (nf_contents f))|].
    intros n b Hn He. change (<[nf_name f := nf_contents f]> e !! n = Some b). by rewrite lookup_insert_ne.
Defined.

(** ** A compaction of level 1 of a small database *)
Abbreviation bytewise_options := (MkOptions (InternalKeyComparator BytewiseComparator) true 4096 16 kNoCompression None).

Lemma bytewise_options_ok : options_ok (ivalid bytes_ok) same_user_key 0 bytewise_options.
Proof. split; [done|]. split; [intros k (u & n & -> & Hu & Hn); apply Forall_app; split; [done|rewrite EncodeFixed64_le; apply le_bytes_ok]|]. split; [lia|done]. Qed.

(** The bytes of a table, as the builder writes it. *)
Definition table_bytes (es : list entry) : bytes := match build_table bytewise_options es ([] : bytes) with Ret (_, r) => file r | _ => [] end.

Abbreviation bytewise_table := (holds_table BytewiseComparator bytes_ok None 0).

Lemma table_bytes_hold es : entries_ok (InternalKeyComparator BytewiseComparator) (ivalid bytes_ok) es -> Forall (fun e => bytes_ok e.2) es -> entries_cost es < 2 ^ 29 ->
  bytewise_table (table_bytes es) es.
Proof.
  intros Hes Hv Hc. destruct bytewise_options_ok as (Hint & Hval & _).
  destruct (build_table_holds (F := bytes) (ivalid bytes_ok) same_user_key 0 bytewise_options Hint Hval) with (es := es) (f := [] : bytes) as (s & r & ws & E1 & _ & Ete & Htf & _); try done.
  unfold table_bytes. rewrite E1. by exists ws.
Qed.

(** The files 5 (level 1), 4 (level 2) and 3 (level 3). *)
Definition stored_contents (p : nat) : list ientry :=
  match p with
  | 0%nat => [MkIentry [97] 12 kTypeValue [12]; MkIentry [97] 8 kTypeValue [8]; MkIentry [98] 9 kTypeDeletion []; MkIentry [99] 7 kTypeDeletion []]
  | 1%nat => [MkIentry [97] 3 kTypeValue [3]; MkIentry [98] 2 kTypeValue [2]; MkIentry [100] 5 kTypeValue [5]]
  | _ => [MkIentry [99] 1 kTypeValue [1]]
  end.

Abbreviation stored_entries p := (ie_entry <$> stored_contents p).
Definition stored_number (p : nat) : Z := 5 - Z.of_nat p.
Definition stored_file (p : nat) : FileMetaData :=
  MkFileMetaData 1 100 (stored_number p) (zlength (table_bytes (stored_entries p)))
    (default [] (ie_key <$> head (stored_contents p))) (default [] (ie_key <$> list.last (stored_contents p))).

Definition stored_heap : gmap nat FileMetaData := {[ 0%nat := stored_file 0; 1%nat := stored_file 1; 2%nat := stored_file 2 ]}.
Definition stored_version : Version := set_version_files [[]; [0%nat]; [1%nat]; [2%nat]; []; []; []] new_Version.

Definition stored_name (n : Z) : bytes := match TableFileName (str "db") n with Ret name => name | _ => [] end.
Definition stored_env : MemEnv :=
  {[ stored_name 5 := table_bytes (stored_entries 0); stored_name 4 := table_bytes (stored_entries 1); stored_name 3 := table_bytes (stored_entries 2) ]}.

Definition stored_tables (n sz : Z) (es : list entry) : Prop := exists p, (p < 3)%nat /\ n = stored_number p /\ sz = zlength (table_bytes (stored_entries p)) /\ es = stored_entries p.

Lemma stored_contents_ok p : ientries_ok BytewiseComparator bytes_ok (stored_contents p).
Proof.
  assert (Forall (fun x => bytes_ok (ie_user x) /\ seq_ok (ie_seq x)) (stored_contents p)) as Hk.
  { destruct p as [|[|p]]; repeat (constructor; [split; [by apply bytes_ok_forallb|by split]|]); constructor. }
  split; [apply bytewise_ientries; [by destruct p as [|[|p]]|done]|exact Hk| |].
  - destruct p as [|[|p]]; by repeat (constructor; [done|]).
  - by destruct p as [|[|p]].
Qed.

Lemma stored_bytes_hold p : bytewise_table (table_bytes (stored_entries p)) (stored_entries p).
Proof.
  apply table_bytes_hold; [apply (io_sorted _ _ _ (stored_contents_ok p))| |by destruct p as [|[|p]]].
  destruct p as [|[|p]]; repeat (constructor; [by apply bytes_ok_forallb|]); constructor.
Qed.

Lemma stored_size p : 0 <= zlength (table_bytes (stored_entries p)) < 2 ^ 40.
Proof. split; [apply zlength_nonneg|]. destruct (stored_bytes_hold p) as (ws & Hlay & _). apply (tf_size _ _ _ _ _ _ _ Hlay). Qed.

Lemma stored_at p : (p < 3)%nat -> stored_heap !! p = Some (stored_file p).
Proof. intros Hp. destruct p as [|[|[|p]]]; [done..|lia]. Qed.

Lemma stored_holds p : (p < 3)%nat -> ptr_holds BytewiseComparator bytes_ok stored_heap stored_contents stored_tables p.
Proof.
  intros Hp. exists (stored_file p). split; [by apply stored_at|]. split; [|by exists p].
  split; [apply stored_contents_ok|destruct p as [|[|p]]; eexists; split; reflexivity|destruct p as [|[|p]]; eexists; split; reflexivity].
Qed.

Lemma stored_file_ok p : (p < 3)%nat -> VersionFacts.file_ok BytewiseComparator bytes_ok (stored_file p).
Proof. intros Hp. destruct (stored_holds p Hp) as (f & Ef & Hf & _). rewrite stored_at in Ef by done. injection Ef as <-. by eapply file_holds_ok. Qed.

Lemma stored_level p : (p < 3)%nat -> level_holds BytewiseComparator bytes_ok stored_heap stored_contents stored_tables [p] [stored_file p].
Proof.
  intros Hp. split.
  - split; [by constructor; [apply stored_at|constructor]|by constructor; [apply stored_file_ok|constructor]| |done].
    intros i j f g Hi Hj Hij. apply list_lookup_singleton_Some in Hi as [-> _], Hj as [-> _]. lia.
  - by constructor; [apply stored_holds|constructor].
  - constructor; [|constructor]. pose proof (stored_size p). cbn [number file_size stored_file]. unfold stored_number. split; lia.
  - intros x y f g Hx%list_elem_of_singleton Hy%list_elem_of_singleton _ _ _. by subst.
Qed.

Lemma stored_env_at p : (p < 3)%nat -> stored_env !! stored_name (stored_number p) = Some (table_bytes (stored_entries p)).
Proof.
  intros Hp. unfold stored_env. assert (stored_name 5 <> stored_name 4 /\ stored_name 5 <> stored_name 3 /\ stored_name 4 <> stored_name 3) as (H54 & H53 & H43) by done.
  destruct p as [|[|[|p]]]; [| | |lia]; change (stored_number _) with 5 || change (stored_number _) with 4 || change (stored_number _) with 3.
  - by rewrite lookup_insert_eq.
  - by rewrite lookup_insert_ne, lookup_insert_eq.
  - by rewrite !lookup_insert_ne, lookup_singleton_eq.
Qed.

Definition stored_vset : VersionSet := MkVersionSet stored_heap {[0%nat := stored_version]} [0%nat] (Some 0%nat) 10 2 12 6 0 (replicate 7 []).

(** The smallest snapshot is 10. *)
Definition stored_compaction : CompactionState NamedFile :=
  MkCompactionState (MkCompaction 1 2097152 (Some 0%nat) new_VersionEdit [0%nat] [1%nat] [2%nat] 0 false 0 (replicate 7 0)) 10 [] None 0.

Abbreviation MemCache := (TableCacheState MemEnv bytes (ShardedLRUCache Block)).
#[local] Instance sample_Iterators : TableCacheIterators MemCache (EmptyIterator + TableIter bytes (ShardedLRUCache Block)) := table_cache_Iterators (str "db") bytewise_options.

Definition stored_db (tc : MemCache) : DBImpl MemCache NamedFile :=
  MkDBImpl stored_vset None tc ∅ new_SnapshotList Status_OK (replicate 7 new_CompactionStats) None false false 6 None true.

Definition stored_input : list ientry :=
  [MkIentry [97] 12 kTypeValue [12]; MkIentry [97] 8 kTypeValue [8]; MkIentry [97] 3 kTypeValue [3]; MkIentry [98] 9 kTypeDeletion []; MkIentry [98] 2 kTypeValue [2];
   MkIentry [99] 7 kTypeDeletion []; MkIentry [100] 5 kTypeValue [5]].

Lemma stored_input_ok : ientries_ok BytewiseComparator bytes_ok stored_input.
Proof.
  assert (Forall (fun x => bytes_ok (ie_user x) /\ seq_ok (ie_seq x)) stored_input) as Hk.
  { repeat (constructor; [split; [by apply bytes_ok_forallb|by split]|]); constructor. }
  split; [by apply bytewise_ientries|exact Hk| |done]. by repeat (constructor; [done|]).
Qed.

Abbreviation sample_served := (tables_served BytewiseComparator bytes_ok (str "db") true 4096 16 kNoCompression None 0 (E := MemEnv) (R := bytes) (C := ShardedLRUCache Block)).

Lemma stored_unique n sz sz' es es' : stored_tables n sz es -> stored_tables n sz' es' -> es' = es.
Proof. intros (p & Hp & -> & _ & ->) (q & Hq & E1 & _ & ->). assert (q = p) as ->; [|done]. unfold stored_number in E1. lia. Qed.

Lemma stored_there n sz es (s : ShardedLRUCache (TableAndFile bytes)) : stored_tables n sz es ->
  stored_table BytewiseComparator bytes_ok (str "db") None 0 n sz es (MkTableCacheState (R := bytes) (C := ShardedLRUCache Block) stored_env s None).
Proof.
  intros (p & Hp & -> & -> & ->). split; [unfold stored_number; lia|]. exists (stored_name (stored_number p)), (table_bytes (stored_entries p)).
  split; [by destruct p as [|[|[|p]]]; [..|lia]|]. split; [exact (stored_env_at p Hp)|]. split; [done|apply stored_bytes_hold].
Qed.

Lemma stored_cache : exists tc : MemCache, new_TableCache stored_env None 990 = Ret tc /\ sample_served stored_tables tc.
Proof.
  destruct (new_TableCache_ok BytewiseComparator bytes_ok (str "db") true 4096 16 kNoCompression None 0 (R := bytes) (C := ShardedLRUCache Block) stored_tables stored_env 990)
    as (tc & E1 & _ & Htc); [lia|exact stored_unique|exact stored_there|by exists tc].
Qed.

Lemma no_policy : forall p, None = Some p -> FilterPolicyOk p (ivalid bytes_ok) same_user_key 0 /\ bytes_ok (fp_Name p).
Proof. done. Qed.

#[local] Instance sample_iterator_ok : @IteratorOk (InternalKeyComparator BytewiseComparator) (ivalid bytes_ok) _ (EmptyIterator + TableIter bytes (ShardedLRUCache Block)) _ :=
  table_cache_iterator_ok BytewiseComparator bytes_ok true 4096 16 kNoCompression None 0.
#[local] Instance sample_iterators_ok : @TableCacheIteratorsOk MemCache (EmptyIterator + TableIter bytes (ShardedLRUCache Block)) _ sample_Iterators BytewiseComparator bytes_ok _ sample_iterator_ok :=
  table_cache_iterators_ok BytewiseComparator bytes_ok (str "db") true 4096 16 kNoCompression None 0 no_policy.
#[local] Instance sample_storage :
  @DbStorageOk MemCache NamedFile bytes (EmptyIterator + TableIter bytes (ShardedLRUCache Block)) _ _ _ _ _ sample_Iterators (str "db") (usable_table BytewiseComparator bytes_ok None 0) :=
  table_cache_storage BytewiseComparator bytes_ok (str "db") true 4096 16 kNoCompression None 0 no_policy.

Lemma stored_here p : (p < 3)%nat -> file_here BytewiseComparator bytes_ok stored_heap p.
Proof.
  intros Hp. split; [apply elem_of_dom; eexists; by apply stored_at|]. rewrite (file_in_at stored_heap p (stored_file p)) by (by apply stored_at). by apply stored_file_ok.
Qed.

Abbreviation sample_ready := (compaction_ready BytewiseComparator bytes_ok None 0 (str "db") (Iterator0 := sum_Iterator) (TableCacheIterators0 := sample_Iterators)
  (DbStorageOk0 := sample_storage) (IteratorOk0 := sample_iterator_ok) (TableCacheIteratorsOk0 := sample_iterators_ok)).

Lemma stored_ready (tc : MemCache) : sample_served stored_tables tc ->
  sample_ready stored_contents stored_tables stored_version 0 stored_input stored_compaction (stored_db tc).
Proof.
  intros Htc. split.
  - exact stored_input_ok.
  - repeat (constructor; [by apply bytes_ok_forallb|]). constructor.
  - by split.
  - done.
  - done.
  - repeat (constructor; [split; [repeat (constructor; [apply stored_here; lia|]); constructor|split; [|done]]|]); [..|constructor].
    1: intros i j p q Hij Hi Hj; apply list_lookup_singleton_Some in Hi as [-> _], Hj as [-> _]; lia.
    all: by intros i j p q Hij Hi Hj.
  - split; [split; [repeat (constructor; [apply stored_here; lia|]); constructor|done]|done].
  - by split.
  - by split.
  - by split.
  - done.
  - split; [repeat (constructor; [apply stored_holds; lia|]); constructor|]. intros _. exists [stored_file 0]. apply stored_level. lia.
  - split; [repeat (constructor; [apply stored_holds; lia|]); constructor|]. intros _. exists [stored_file 1]. apply stored_level. lia.
  - cbn. do 2 apply perm_skip. etransitivity; [|apply perm_skip, perm_swap]. etransitivity; [apply perm_swap|]. apply perm_skip, perm_skip, perm_swap.
  - exact Htc.
  - intros env Henv. eapply served_none, Henv.
  - done.
Qed.

Abbreviation sample_merge := (merge_inputs (E := MemCache) (W := NamedFile) (G := bytes) (J := EmptyIterator + TableIter bytes (ShardedLRUCache Block)) (Iterator0 := sum_Iterator)
  (TableCacheIterators0 := sample_Iterators) BytewiseComparator (str "db") (str "leveldb.BytewiseComparator") bytewise_options 2097152).
Abbreviation sample_written := (written BytewiseComparator bytes_ok None 0 (Iterator0 := sum_Iterator) (TableCacheIterators0 := sample_Iterators) (DbStorageOk0 := sample_storage) (str "db")).

Lemma compaction_keeps_views_witness : exists (tc : MemCache) tables ys imm c' n pending env, new_TableCache stored_env None 990 = Ret tc /\
  sample_merge stored_compaction (stored_db tc) = Ret (Status_OK, imm, c', at_work (stored_db tc) n pending env) /\
  Forall2 (sample_written env) (outputs c') tables /\ concat tables = ie_entry <$> ys /\
  alive 10 (ys ++ stored_contents 2) [97] [8] /\ ~ alive 10 (ys ++ stored_contents 2) [99] [1].
Proof.
  destruct stored_cache as (tc & Etc & Htc).
  destruct (compaction_keeps_views BytewiseComparator bytes_ok true 4096 16 kNoCompression None 0 bytewise_options_ok
    (E := MemCache) (W := NamedFile) (G := bytes) (J := EmptyIterator + TableIter bytes (ShardedLRUCache Block)) (Iterator0 := sum_Iterator) (TableCacheIterators0 := sample_Iterators)
    (str "db") (str "leveldb.BytewiseComparator") 2097152 (DbStorageOk0 := sample_storage) (IteratorOk0 := sample_iterator_ok) (TableCacheIteratorsOk0 := sample_iterators_ok)
    stored_contents stored_tables stored_version 0 stored_input stored_compaction (stored_db tc) (stored_ready tc Htc)) as (tables & ys & imm & c' & n & pending & env & E1 & Hw & _ & _ & Ek & _ & Hv).
  { repeat (constructor; [apply stored_holds; lia|]). constructor. }
  exists tc, tables, ys, imm, c', n, pending, env. split; [exact Etc|]. split; [exact E1|]. split; [exact Hw|]. split; [exact Ek|].
  assert (newer [] stored_input) as Hn by (by intros x y ?%not_elem_of_nil).
  change (entries_of stored_contents _) with (stored_contents 2) in Hv. split.
  - apply (Hv 10 [] [97] [8]); [done|done|]. exists (MkIentry [97] 8 kTypeValue [8]). split; [right; left|]. do 4 (split; [done|]).
    intros y Hy Ey Hs. cbn in Hy. rewrite !elem_of_cons, elem_of_nil in Hy. by destruct_or? Hy; subst y.
  - intros Ha. apply (Hv 10 [] [99] [1]) in Ha; [|done|done]. destruct Ha as (x & Hx & Eu & _ & Ev & _ & Hmax).
    specialize (Hmax (MkIentry [99] 7 kTypeDeletion [])). cbn in Hx. rewrite !elem_of_cons, elem_of_nil in Hx. destruct_or? Hx; subst x; try done.
    exfalso. assert (ie_tag (MkIentry [99] 7 kTypeDeletion []) <= ie_tag (MkIentry [99] 1 kTypeValue [1])) as Hle; [apply Hmax; [|done|done]|by vm_compute in Hle].
    do 5 right. left.
Defined.

(** The file 5 is opened, found in the cache, evicted and opened again. *)
Definition stored_ops : list tc_op :=
  let k := ie_key (MkIentry [97] 10 kTypeValue []) in let sz := zlength (table_bytes (stored_entries 0)) in [TcGet 5 sz k; TcGet 5 sz k; TcEvict 5; TcGet 5 sz k; TcIterate 5 sz].

Lemma table_cache_transparent_witness : exists (tc tc' : MemCache) (rs : list (tc_result (R := bytes) (C := ShardedLRUCache Block))), new_TableCache stored_env None 990 = Ret tc /\
  tc_steps BytewiseComparator (str "db") true 4096 16 kNoCompression None new_ReadOptions stored_ops tc = Ret (rs, tc') /\ length rs = 5%nat /\
  forall s o, rs !! 3%nat = Some (TcGot s o) -> answers (ivalid bytes_ok) same_user_key bytewise_options (stored_entries 0) (ie_key (MkIentry [97] 10 kTypeValue [])) (s, o).
Proof.
  destruct (table_cache_transparent BytewiseComparator bytes_ok (str "db") true 4096 16 kNoCompression None 0 no_policy (R := bytes) (C := ShardedLRUCache Block)
    stored_tables stored_env 990 new_ReadOptions stored_ops) as (tc & rs & tc' & E1 & E2 & Hrs); [lia|intros n sz es s; apply stored_there|exact stored_unique| |].
  - assert (ivalid bytes_ok (ie_key (MkIentry [97] 10 kTypeValue []))) as Hk by (eexists [97], _; split; [reflexivity|]; split; [by apply bytes_ok_forallb|done]).
    assert (stored_tables 5 (zlength (table_bytes (stored_entries 0))) (stored_entries 0)) as Ht by (exists 0%nat; split; [lia|done]).
    do 2 (constructor; [split; [by eexists|done]|]). constructor; [done|]. constructor; [split; [by eexists|done]|]. constructor; [by eexists|constructor].
  - exists tc, tc', rs. split; [exact E1|]. split; [exact E2|]. split; [exact (eq_sym (Forall2_length Hrs))|]. intros s o Hr.
    destruct (Forall2_lookup_r _ _ _ _ _ Hrs Hr) as (op & Hop & Hok). injection Hop as <-. destruct Hok as (es & (p & Hp & Hn & _ & ->) & Ha).
    assert (p = 0%nat) as -> by (unfold stored_number in Hn; lia). exact Ha.
Defined.

(** ** A full disk: no file can be created *)
Record FullDisk : Type := MkFullDisk { fd_env : MemEnv }.

Definition no_space (name : bytes) : Status := IOError name.

#[local] Instance full_Env : Env FullDisk NamedFile bytes := {|
  env_NewWritableFile name e := (no_space name, MkNamedFile name [], e);
  env_NewAppendableFile name e := (no_space name, MkNamedFile name [], e);
  env_NewSequentialFile name e := let '(s, b, _) := mem_open name (fd_env e) in (s, b, e);
  env_GetFileSize name e := let '(s, b, _) := mem_open name (fd_env e) in (s, zlength b);
  env_ReadFileToString name e := let '(s, b, _) := mem_open name (fd_env e) in (s, b);
  env_WriteStringToFileSync data name e := (no_space name, e);
  env_RenameFile source target e := let '(s, m) := mem_rename source target (fd_env e) in (s, MkFullDisk m);
  env_DeleteFile name e := let '(s, m) := mem_delete name (fd_env e) in (s, MkFullDisk m);
  env_Sync f := (Status_OK, f);
|}.

#[local] Instance full_DbEnv : DbEnv FullDisk NamedFile := {|
  env_Close f e := (Status_OK, e);
  env_NowMicros e := (0, e);
  env_GetChildren dir e := (mem_children dir (fd_env e), e);
|}.

#[local] Instance full_TableEnv : TableEnv FullDisk bytes := {|
  env_NewRandomAccessFile name e := let '(s, b, m) := mem_open name (fd_env e) in (s, b, MkFullDisk m);
|}.

Abbreviation FullCache := (TableCacheState FullDisk bytes (ShardedLRUCache Block)).
#[local] Instance full_Iterators : TableCacheIterators FullCache (EmptyIterator + TableIter bytes (ShardedLRUCache Block)) := table_cache_Iterators (str "db") bytewise_options.

Definition full_db (tc : FullCache) : DBImpl FullCache NamedFile :=
  MkDBImpl stored_vset None tc ∅ new_SnapshotList Status_OK (replicate 7 new_CompactionStats) None false false 6 None true.

Lemma unfinished_output_read_witness : exists tc : FullCache, new_TableCache (MkFullDisk stored_env) None 990 = Ret tc /\
  DoCompactionWork (E := FullCache) (W := NamedFile) (G := bytes) (J := EmptyIterator + TableIter bytes (ShardedLRUCache Block)) (Iterator0 := sum_Iterator)
    (TableCacheIterators0 := full_Iterators) BytewiseComparator (str "db") (str "leveldb.BytewiseComparator") bytewise_options 2097152 stored_compaction (full_db tc) = UB.
Proof.
  eexists. split; [vm_compute; reflexivity|].
  eapply (unfinished_output_read (E := FullCache) (W := NamedFile) (G := bytes) (J := EmptyIterator + TableIter bytes (ShardedLRUCache Block)) (Iterator0 := sum_Iterator)
    (TableCacheIterators0 := full_Iterators)).
  - vm_compute. reflexivity.
  - done.
  - done.
  - vm_compute. reflexivity.
  - vm_compute. reflexivity.
  - vm_compute. reflexivity.
  - vm_compute. reflexivity.
  - vm_compute. reflexivity.
Defined.
