(* ===== verification/Snapshots.v ===== *)
(** * LevelDB's snapshots, proved

    The doubly linked list of snapshots is a list, oldest first; a compaction
    keeps what the oldest one sees. *)
From S2P Require Import Prelude LdbBase LogWriter DbFormat VersionSet DbImpl.

(** ** The ring as a list *)
Implicit Types (s : gmap nat SnapshotImpl) (l : list (nat * Z)) (ns : list nat).

Lemma snapshot_at_some s p y : s !! p = Some y -> snapshot_at s p = Ret y.
Proof. intros E. unfold snapshot_at, SnapshotList. by rewrite E. Qed.

Definition next_of s (p : nat) : option nat := snap_next <$> s !! p.
Definition prev_of s (p : nat) : option nat := snap_prev <$> s !! p.
Definition seq_of s (p : nat) : option Z := sequence_number <$> s !! p.

Definition edge s (a b : nat) : Prop := next_of s a = Some b /\ prev_of s b = Some a.

(** The nodes follow each other, from [a] on. *)
Fixpoint edges s (a : nat) ns : Prop :=
  match ns with
  | [] => True
  | b :: ns => edge s a b /\ edges s b ns
  end.

(** The snapshots, oldest first, with their sequence numbers. *)
Record snapshots_are s l : Prop := {
  sa_ring : edges s 0 (l.*1 ++ [0%nat]);
  sa_seqs : Forall (fun x => seq_of s x.1 = Some x.2) l;
  sa_nodup : base.NoDup (0%nat :: l.*1);
  sa_dom : forall p, p ∈ dom s -> p ∈ 0%nat :: l.*1;
  sa_sorted : Sorted.StronglySorted Z.le l.*2;
}.

Lemma edges_app s a ns b ns' : edges s a (ns ++ b :: ns') <-> edges s a (ns ++ [b]) /\ edges s b ns'.
Proof. revert a. induction ns as [|c ns IH]; intros a; cbn; [tauto|]. rewrite IH. tauto. Qed.

Lemma edges_frame s s' a ns z : (forall x, x ∈ a :: ns -> next_of s' x = next_of s x) -> (forall x, x ∈ ns ++ [z] -> prev_of s' x = prev_of s x) ->
  edges s a (ns ++ [z]) -> edges s' a (ns ++ [z]).
Proof.
  revert a. induction ns as [|b ns IH]; intros a Hn Hp; cbn.
  - intros [[H1 H2] _]. split; [|done]. unfold edge. by rewrite Hn, Hp by left.
  - intros [[H1 H2] H3]. split; [unfold edge; by rewrite Hn, Hp by left|]. apply IH; [intros x Hx; apply Hn; by right|intros x Hx; apply Hp; by right|done].
Qed.

(** The last node before [z]. *)
Lemma ring_last s l : snapshots_are s l -> exists ns a, 0%nat :: l.*1 = ns ++ [a] /\ edge s a 0%nat /\ (forall x, x ∈ l -> list.last l = Some x -> a = x.1) /\
  (l = [] -> a = 0%nat).
Proof.
  intros [Hr _ _ _ _]. destruct l as [|x l _] using rev_ind.
  - exists [], 0%nat. split; [done|]. split; [apply Hr|]. split; [by intros x ?%not_elem_of_nil|done].
  - exists (0%nat :: l.*1), x.1. rewrite fmap_app in *. cbn [fmap list_fmap] in *. split; [done|]. rewrite <- app_assoc in Hr. cbn [app] in Hr. apply edges_app in Hr as [_ [He _]].
    split; [exact He|]. split; [|intros E; by apply app_nil in E as [_ ?]]. intros y _. rewrite last_snoc. by intros [= ->].
Qed.

Lemma ring_first s l : snapshots_are s l -> next_of s 0 = Some (default 0%nat (head l.*1)).
Proof. intros [Hr _ _ _ _]. destruct l as [|x l]; apply Hr. Qed.

Lemma head_at s l : snapshots_are s l -> exists x, s !! 0%nat = Some x /\ snap_next x = default 0%nat (head l.*1).
Proof. intros Hs. pose proof (ring_first s l Hs) as E. unfold next_of in E. destruct (s !! 0%nat) as [x|]; [|done]. exists x. split; [done|]. by injection E. Qed.

Lemma snapshots_empty_ok s l : snapshots_are s l -> snapshots_empty s = Ret (bool_decide (l = [])).
Proof.
  intros Hs. destruct (head_at s l Hs) as (x & Ex & En). unfold snapshots_empty. rewrite (snapshot_at_some _ _ _ Ex). rewrite res_bind_ret, En. f_equal.
  destruct l as [|y l]; [done|]. rewrite bool_decide_false by done. apply Nat.eqb_neq. cbn. intros E. pose proof (sa_nodup _ _ Hs) as Hd. cbn in Hd.
  apply list.NoDup_cons in Hd as [Hd _]. apply Hd. rewrite E. left.
Qed.

Lemma oldest_ok s (x : nat * Z) l : snapshots_are s (x :: l) -> oldest s = Ret x.1.
Proof.
  intros Hs. unfold oldest. rewrite (snapshots_empty_ok _ _ Hs), res_bind_ret, bool_decide_false by done. cbn [negb assert_]. rewrite res_bind_ret.
  destruct (head_at _ _ Hs) as (y & Ey & En). rewrite (snapshot_at_some _ _ _ Ey). rewrite res_bind_ret, En. done.
Qed.

Lemma snapshot_seq s l (x : nat * Z) : snapshots_are s l -> x ∈ l -> exists y, snapshot_at s x.1 = Ret y /\ sequence_number y = x.2.
Proof.
  intros Hs Hx. pose proof (Forall_elem _ _ _ (sa_seqs _ _ Hs) Hx) as (y & Ey & E)%fmap_Some_1. rewrite (snapshot_at_some _ _ _ Ey).
  by exists y.
Qed.

(** ** Assignments to links *)
Lemma set_snap_next_ok s a b : is_Some (s !! a) -> exists s', set_snap_next a b s = Ret s' /\ dom s' = dom s /\
  (forall x, next_of s' x = if decide (x = a) then Some b else next_of s x) /\ (forall x, prev_of s' x = prev_of s x) /\ forall x, seq_of s' x = seq_of s x.
Proof.
  intros [y Hy]. unfold set_snap_next. rewrite (snapshot_at_some _ _ _ Hy). rewrite res_bind_ret. eexists. split; [done|]. unfold SnapshotList in *.
  split; [rewrite dom_insert_L; apply elem_of_dom_2 in Hy; set_solver|]. unfold next_of, prev_of, seq_of.
  split; [|split]; intros x; (destruct (decide (x = a)) as [->|Hx]; [rewrite lookup_insert_eq, ?Hy|rewrite lookup_insert_ne by done]; done).
Qed.

Lemma set_snap_prev_ok s a b : is_Some (s !! a) -> exists s', set_snap_prev a b s = Ret s' /\ dom s' = dom s /\
  (forall x, prev_of s' x = if decide (x = a) then Some b else prev_of s x) /\ (forall x, next_of s' x = next_of s x) /\ forall x, seq_of s' x = seq_of s x.
Proof.
  intros [y Hy]. unfold set_snap_prev. rewrite (snapshot_at_some _ _ _ Hy). rewrite res_bind_ret. eexists. split; [done|]. unfold SnapshotList in *.
  split; [rewrite dom_insert_L; apply elem_of_dom_2 in Hy; set_solver|]. unfold next_of, prev_of, seq_of.
  split; [|split]; intros x; (destruct (decide (x = a)) as [->|Hx]; [rewrite lookup_insert_eq, ?Hy|rewrite lookup_insert_ne by done]; done).
Qed.

Lemma edge_live s a b : edge s a b -> is_Some (s !! a) /\ is_Some (s !! b).
Proof. unfold edge, next_of, prev_of. destruct (s !! a), (s !! b); cbn; intros [? ?]; try done; by split. Qed.

Lemma new_SnapshotList_ok : snapshots_are new_SnapshotList [].
Proof.
  split; [by split|constructor|apply NoDup_singleton| |constructor]. intros p Hp. unfold new_SnapshotList in Hp. unfold SnapshotList in Hp; rewrite dom_singleton_L in Hp. apply elem_of_singleton in Hp as ->. left.
Qed.

(** ** New *)
Lemma New_snapshot_ok s l seq : snapshots_are s l -> Forall (fun x => x.2 <= seq) l ->
  exists p s', New_snapshot seq s = Ret (p, s') /\ snapshots_are s' (l ++ [(p, seq)]).
Proof.
  intros Hs Hle. destruct (ring_last s l Hs) as (ns & a & Ens & Hedge & Hlast & Hnil). destruct (edge_live _ _ _ Hedge) as [[xa Hxa] [x0 Hx0]].
  assert (snap_prev x0 = a) as Epa. { destruct Hedge as [_ E]. unfold prev_of in E. rewrite Hx0 in E. by injection E. }
  unfold New_snapshot, SnapshotList. rewrite (snapshots_empty_ok s l Hs), res_bind_ret.
  assert ((if bool_decide (l = []) then Ret true else let! p := newest_snapshot s in let! x := snapshot_at s p in Ret (sequence_number x <=? seq)) = Ret true) as ->.
  { case_bool_decide as El; [done|]. unfold newest_snapshot. rewrite (snapshots_empty_ok s l Hs), res_bind_ret, bool_decide_false by done. cbn [negb assert_]. rewrite res_bind_ret.
    rewrite (snapshot_at_some _ _ _ Hx0). rewrite !res_bind_ret, Epa. destruct (list.last l) as [y|] eqn:Ey; [|by apply last_None in Ey].
    assert (y ∈ l) as Hy by (rewrite last_lookup in Ey; by eapply list_elem_of_lookup_2). rewrite (Hlast y Hy eq_refl). destruct (snapshot_seq s l y Hs Hy) as (z & -> & Ez).
    rewrite res_bind_ret, Ez. f_equal. apply Z.leb_le. exact (Forall_elem _ _ _ Hle Hy). }
  rewrite res_bind_ret. cbn [assert_]. rewrite res_bind_ret. set (p := fresh (dom s)). assert (p ∉ dom s) as Hp by apply is_fresh.
  assert (p ∉ 0%nat :: l.*1) as Hpl.
  { intros Hin. apply Hp. rewrite elem_of_cons in Hin. destruct Hin as [->|(y & -> & Hy)%list_elem_of_fmap]; [by eapply elem_of_dom_2|].
    pose proof (Forall_elem _ _ _ (sa_seqs _ _ Hs) Hy) as (z & Ez & _)%fmap_Some_1. by eapply elem_of_dom_2. }
  rewrite (snapshot_at_some _ _ _ Hx0). rewrite res_bind_ret, Epa. set (s1 := <[p := MkSnapshotImpl a 0 seq]> s).
  assert (forall x, next_of s1 x = if decide (x = p) then Some 0%nat else next_of s x) as N1 by (intros x; unfold s1, next_of; destruct (decide (x = p)) as [->|]; by rewrite ?lookup_insert_eq, ?lookup_insert_ne by done).
  assert (forall x, prev_of s1 x = if decide (x = p) then Some a else prev_of s x) as P1 by (intros x; unfold s1, prev_of; destruct (decide (x = p)) as [->|]; by rewrite ?lookup_insert_eq, ?lookup_insert_ne by done).
  assert (forall x, seq_of s1 x = if decide (x = p) then Some seq else seq_of s x) as S1 by (intros x; unfold s1, seq_of; destruct (decide (x = p)) as [->|]; by rewrite ?lookup_insert_eq, ?lookup_insert_ne by done).
  assert (dom s1 = {[p]} ∪ dom s) as D1 by apply dom_insert_L.
  assert (forall x, x ∈ dom s -> x <> p) as Hne by (by intros x Hx ->). assert (a <> p) as Hap by (by eapply Hne, elem_of_dom_2).
  destruct (set_snap_next_ok s1 a p) as (s2 & -> & D2 & N2 & P2 & S2); [unfold s1; by rewrite lookup_insert_ne|]. rewrite res_bind_ret.
  destruct (set_snap_prev_ok s2 0 p) as (s3 & -> & D3 & P3 & N3 & S3); [apply elem_of_dom; rewrite D2, D1; apply elem_of_union_r; by eapply elem_of_dom_2|]. rewrite res_bind_ret.
  exists p, s3. split; [done|]. pose proof Hs as [Hr Hq Hd Hdom Hsort]. assert (0%nat <> p) as H0p by (apply Hne; by eapply elem_of_dom_2).
  assert (base.NoDup (ns ++ [a])) as Hd2 by by rewrite <- Ens. apply list.NoDup_app in Hd2 as (Hdn & Hda & _).
  split.
  - rewrite fmap_app. cbn [fmap list_fmap fst]. rewrite <- app_assoc. cbn [app]. rewrite edges_app. split.
    + (* up to the last node, and on to the new one *)
      destruct ns as [|b ns]; injection Ens as Eb El; [subst a; rewrite El in *; cbn|rewrite El, <- app_assoc; cbn [app]; rewrite <- Eb in *; clear Eb b; apply edges_app; split].
      * split; [|done]. split; [by rewrite N3, N2, decide_True|by rewrite P3, decide_False, P2, P1, decide_True].
      * rewrite El, <- app_assoc in Hr. cbn [app] in Hr. apply edges_app in Hr as [Hr _]. eapply edges_frame; [| |exact Hr].
        -- intros x Hx. rewrite N3, N2, decide_False by (intros ->; apply (Hda a Hx); left). rewrite N1, decide_False; [done|]. intros ->. apply Hpl. rewrite El. rewrite elem_of_cons, elem_of_app in *. tauto.
        -- intros x Hx. rewrite P3, decide_False, P2, P1, decide_False; [done| |].
           ++ intros ->. apply Hpl. rewrite El. by right.
           ++ intros ->. rewrite El in Hd. by apply list.NoDup_cons in Hd as [Hd _].
      * split; [|done]. split; [by rewrite N3, N2, decide_True|by rewrite P3, decide_False, P2, P1, decide_True].
    + split; [|done]. split; [by rewrite N3, N2, decide_False, N1, decide_True|by rewrite P3, decide_True].
  - apply Forall_app. split; [|constructor; [|constructor]; cbn; by rewrite S3, S2, S1, decide_True]. apply List.Forall_forall. intros x Hx%list_elem_of_In.
    rewrite S3, S2, S1, decide_False; [by apply (Forall_elem _ _ _ Hq)|]. intros E. apply Hpl. right. rewrite <- E. by apply list_elem_of_fmap_2.
  - rewrite fmap_app. apply (list.NoDup_app (0%nat :: l.*1) [p]). split; [done|]. split; [|apply NoDup_singleton]. intros x Hx Hxp%list_elem_of_singleton. by subst.
  - intros x. rewrite D3, D2, D1, elem_of_union, elem_of_singleton, fmap_app. intros [->|Hx%Hdom]; rewrite elem_of_cons, elem_of_app in *; cbn; [right; right; left|tauto].
  - rewrite fmap_app. apply sorting.StronglySorted_app. split; [|split; [done|by repeat constructor]]. intros x y (z & -> & Hz)%list_elem_of_fmap Hy%list_elem_of_singleton. subst y. exact (Forall_elem _ _ _ Hle Hz).
Qed.

(** ** Delete *)
Lemma edges_last s a ns z : edges s a (ns ++ [z]) -> exists ms b, a :: ns = ms ++ [b] /\ edge s b z.
Proof.
  revert a. induction ns as [|c ns IH]; intros a; cbn.
  - intros [He _]. by exists [], a.
  - intros [_ (ms & b & -> & He)%IH]. by exists (a :: ms), b.
Qed.

Lemma edge_node s a b : edge s a b -> exists x y, s !! a = Some x /\ snap_next x = b /\ s !! b = Some y /\ snap_prev y = a.
Proof. intros [(x & Ex & Eb)%fmap_Some_1 (y & Ey & Ea)%fmap_Some_1]. by exists x, y. Qed.

(** The links after a node is unlinked. *)
Lemma edges_unlinked s s' (p b c : nat) ns (l2 : list nat) ms : edges s 0 (ns ++ [p]) -> edges s c ms -> 0%nat :: ns = l2 ++ [b] ->
  (forall x, x <> p -> next_of s' x = if decide (x = b) then Some c else next_of s x) -> (forall x, x <> p -> prev_of s' x = if decide (x = c) then Some b else prev_of s x) ->
  p ∉ 0%nat :: ns -> c ∉ ns -> base.NoDup (0%nat :: ns) -> p <> c -> edges s' 0 (ns ++ [c]).
Proof.
  intros Hr _ Ens HN HP Hp Hc Hd Hpc. assert (b ∈ 0%nat :: ns) as Hb by (rewrite Ens; apply elem_of_app; right; left).
  assert (edge s' b c) as He by (split; [rewrite HN, decide_True by (done || by intros ->); done|by rewrite HP, decide_True by done]).
  destruct l2 as [|x l2]; injection Ens as E1 E2; [subst b; rewrite E2 in *; by split|]. subst ns x. rewrite <- app_assoc. cbn [app].
  apply edges_app. split; [|by split]. rewrite <- app_assoc in Hr. cbn [app] in Hr. apply edges_app in Hr as [Hr _].
  assert (b ∉ 0%nat :: l2) as Hbn. { change (0%nat :: l2 ++ [b]) with ((0%nat :: l2) ++ [b]) in Hd. apply list.NoDup_app in Hd as (_ & Hd & _). intros Hin. apply (Hd b Hin). left. }
  eapply edges_frame; [| |exact Hr].
  - intros x Hx. assert (x ∈ 0%nat :: l2 ++ [b]) by (rewrite elem_of_cons, elem_of_app in *; tauto). rewrite HN, decide_False; [done| |]; by intros ->.
  - intros x Hx. assert (x ∈ 0%nat :: l2 ++ [b]) by by right. rewrite HP, decide_False; [done| |]; by intros ->.
Qed.

Lemma Delete_snapshot_ok s l1 p seq l2 : snapshots_are s (l1 ++ (p, seq) :: l2) -> exists s', Delete_snapshot p s = Ret s' /\ snapshots_are s' (l1 ++ l2).
Proof.
  intros [Hr Hq Hd Hdom Hsort]. assert ((l1 ++ (p, seq) :: l2).*1 = l1.*1 ++ p :: l2.*1) as E1 by by rewrite fmap_app. rewrite E1 in Hr, Hd.
  rewrite <- app_assoc in Hr. cbn [app] in Hr. apply edges_app in Hr as [Hr1 Hr2]. destruct (edges_last _ _ _ _ Hr1) as (ms & b & Ems & Hbp).
  assert (exists c ns, l2.*1 ++ [0%nat] = c :: ns) as (c & ns & Ec) by (destruct (l2.*1); by eexists _, _). rewrite Ec in Hr2. cbn in Hr2. destruct Hr2 as [Hpc Hr2].
  destruct (edge_node _ _ _ Hbp) as (xb & xp & Hxb & _ & Hxp & Epb). destruct (edge_node _ _ _ Hpc) as (xp' & xc & Hxp' & Epc & Hxc & _).
  rewrite Hxp in Hxp'. injection Hxp' as <-.
  change (0%nat :: l1.*1 ++ p :: l2.*1) with ((0%nat :: l1.*1) ++ p :: l2.*1) in Hd. pose proof Hd as (Hd1 & Hdis & Hd2)%list.NoDup_app. apply list.NoDup_cons in Hd2 as [Hp2 Hd2].
  assert (p ∉ 0%nat :: l1.*1) as Hp1 by (intros Hin; apply (Hdis p Hin); left). assert (forall x, x ∈ 0%nat :: l1.*1 -> x ∉ l2.*1) as Hdis2 by (intros x Hx Hin; apply (Hdis x Hx); by right).
  assert (c ∈ l2.*1 ++ [0%nat]) as Hc by (rewrite Ec; left). assert (p <> c) as Hnpc.
  { intros <-. rewrite elem_of_app, list_elem_of_singleton in Hc. destruct Hc as [?| ->]; [done|]. apply Hp1. left. }
  assert (b ∈ 0%nat :: l1.*1) as Hb by (rewrite Ems; apply elem_of_app; right; left). assert (p <> b) as Hnpb by by intros ->.
  unfold Delete_snapshot, SnapshotList. rewrite (snapshot_at_some _ _ _ Hxp), res_bind_ret, Epb, Epc.
  destruct (set_snap_next_ok s b c) as (s1 & -> & D1 & N1 & P1 & S1); [by exists xb|]. rewrite res_bind_ret.
  assert (exists y, s1 !! p = Some y /\ snap_next y = c /\ snap_prev y = b) as (y & Ey & Eyc & Eyb).
  { pose proof (N1 p) as Hn. pose proof (P1 p) as Hpv. rewrite decide_False in Hn by done. unfold next_of, prev_of in Hn, Hpv. rewrite Hxp in Hn, Hpv. destruct (s1 !! p) as [y|]; [|done].
    exists y. cbn in Hn, Hpv. injection Hn as ->. injection Hpv as ->. done. }
  rewrite (snapshot_at_some _ _ _ Ey), res_bind_ret, Eyc, Eyb.
  destruct (set_snap_prev_ok s1 c b) as (s2 & -> & D2 & P2 & N2 & S2); [apply elem_of_dom; rewrite D1; by eapply elem_of_dom_2|]. rewrite res_bind_ret. eexists. split; [done|].
  assert (forall x, x <> p -> next_of (delete p s2) x = if decide (x = b) then Some c else next_of s x) as HN by (intros x Hx; unfold next_of at 1; rewrite lookup_delete_ne by done; by rewrite <- N1, <- N2).
  assert (forall x, x <> p -> prev_of (delete p s2) x = if decide (x = c) then Some b else prev_of s x) as HP by (intros x Hx; unfold prev_of at 1; rewrite lookup_delete_ne by done; by rewrite <- P1, <- P2).
  assert (forall x, x <> p -> seq_of (delete p s2) x = seq_of s x) as HS by (intros x Hx; unfold seq_of at 1; rewrite lookup_delete_ne by done; by rewrite <- S1, <- S2).
  split.
  - rewrite fmap_app, <- app_assoc, Ec. apply edges_app. split.
    + eapply (edges_unlinked s _ p b c (l1.*1)); try done. intros Hin. assert (c ∈ 0%nat :: l1.*1) as Hc1 by by right. rewrite elem_of_app, list_elem_of_singleton in Hc.
      destruct Hc as [Hc| ->]; [by apply (Hdis2 c)|]. by apply list.NoDup_cons in Hd1 as [? _].
    + destruct (l2.*1) as [|c' ms'] eqn:El2; injection Ec as <- <-; [done|]. eapply edges_frame; [| |exact Hr2].
      * intros x Hx. rewrite HN, decide_False; [done| |]; intros ->; [by apply (Hdis2 b)|done].
      * intros x Hx. rewrite elem_of_app, list_elem_of_singleton in Hx. apply list.NoDup_cons in Hd2 as [Hd2 _]. rewrite HP, decide_False; [done| |].
        -- intros ->. destruct Hx as [?| ->]; [done|]. apply (Hdis2 0%nat); [left|left].
        -- intros ->. destruct Hx as [?| ->]; [apply Hp2; by right|]. apply Hp1. left.
  - apply Forall_app in Hq as [Hq1 Hq2]. apply Forall_cons_1 in Hq2 as [_ Hq2]. apply Forall_app.
    split; apply List.Forall_forall; intros x Hx%list_elem_of_In; pose proof (list_elem_of_fmap_2 fst _ _ Hx) as Hx1; rewrite HS.
    + exact (Forall_elem _ _ _ Hq1 Hx).
    + intros E. apply Hp1. rewrite <- E. by right.
    + exact (Forall_elem _ _ _ Hq2 Hx).
    + intros E. apply Hp2. by rewrite <- E.
  - rewrite fmap_app. change (base.NoDup ((0%nat :: l1.*1) ++ l2.*1)). by apply list.NoDup_app.
  - intros x. rewrite dom_delete_L, D2, D1, elem_of_difference, elem_of_singleton, fmap_app. intros [Hx%Hdom Hnx]. rewrite E1 in Hx. rewrite elem_of_cons, elem_of_app, elem_of_cons in *. tauto.
  - rewrite fmap_app in Hsort |- *. cbn in Hsort. apply sorting.StronglySorted_app in Hsort as (Hs12 & Hs1 & Hs2). apply sorting.StronglySorted_app. inversion Hs2 as [|? ? Hs2' _]; subst.
    split; [|done]. intros x z Hx Hz. apply Hs12; [done|by right].
Qed.

(** ** A history of snapshots *)
Inductive SnapshotOp : Type :=
| TakeSnapshot
| DropSnapshot (i : nat)
| AdvanceSequence (n : Z).

(** What it means: the sequence numbers of the live snapshots, and the last one. *)
Definition snapshot_spec (op : SnapshotOp) (x : list Z * Z) : list Z * Z :=
  match op with
  | TakeSnapshot => (x.1 ++ [x.2], x.2)
  | DropSnapshot i => (delete i x.1, x.2)
  | AdvanceSequence n => (x.1, n)
  end.

Fixpoint snapshot_specs (ops : list SnapshotOp) (x : list Z * Z) : list Z * Z :=
  match ops with
  | [] => x
  | op :: ops => snapshot_specs ops (snapshot_spec op x)
  end.

(** Sequence numbers only grow. *)
Fixpoint advances (last : Z) (ops : list SnapshotOp) : Prop :=
  match ops with
  | [] => True
  | AdvanceSequence n :: ops => last <= n /\ advances n ops
  | _ :: ops => advances last ops
  end.

Section history.
Context {E W : Type}.
Implicit Types (d : DBImpl E W).

(** The program does it, on the snapshots its callers hold. *)
Definition snapshot_step (op : SnapshotOp) l d : res (list (nat * Z) * DBImpl E W) :=
  match op with
  | TakeSnapshot => let! '(p, d) := GetSnapshot d in Ret (l ++ [(p, vs_last_sequence (versions_ d))], d)
  | DropSnapshot i =>
      match l !! i with
      | Some x => let! d := ReleaseSnapshot x.1 d in Ret (delete i l, d)
      | None => Ret (l, d)
      end
  | AdvanceSequence n => let! s := VersionSet_SetLastSequence n (versions_ d) in Ret (l, set_versions s (descriptor_log_ d) (env_ d) d)
  end.

Fixpoint snapshot_steps (ops : list SnapshotOp) l d : res (list (nat * Z) * DBImpl E W) :=
  match ops with
  | [] => Ret (l, d)
  | op :: ops => let! '(l, d) := snapshot_step op l d in snapshot_steps ops l d
  end.

Definition snapshots_ok l d : Prop := snapshots_are (snapshots_ d) l /\ Forall (fun x => x.2 <= vs_last_sequence (versions_ d)) l.

Lemma snapshot_step_ok op l d : snapshots_ok l d -> match op with AdvanceSequence n => vs_last_sequence (versions_ d) <= n | _ => True end ->
  exists l' d', snapshot_step op l d = Ret (l', d') /\ snapshots_ok l' d' /\ (l'.*2, vs_last_sequence (versions_ d')) = snapshot_spec op (l.*2, vs_last_sequence (versions_ d)).
Proof.
  intros [Hs Hle] Hop. destruct op as [|i|n]; cbn.
  - unfold GetSnapshot. destruct (New_snapshot_ok _ l _ Hs Hle) as (p & s' & -> & Hs'). rewrite !res_bind_ret. eexists _, _. split; [done|]. split; [split; [exact Hs'|]|].
    + apply Forall_app. split; [exact Hle|]. constructor; [cbn; lia|constructor].
    + cbn. by rewrite fmap_app.
  - destruct (l !! i) as [[p n]|] eqn:Ei.
    + pose proof Hs as Hs'. rewrite <- (take_drop_middle _ _ _ Ei) in Hs'. destruct (Delete_snapshot_ok _ _ _ _ _ Hs') as (s' & Ed & Hd). unfold ReleaseSnapshot. cbn [fst].
      rewrite Ed, !res_bind_ret. eexists _, _. split; [done|]. split; [split|].
      * cbn. by rewrite delete_take_drop.
      * cbn. by apply Forall_delete.
      * cbn. f_equal. rewrite !delete_take_drop, fmap_app. by rewrite fmap_take, fmap_drop.
    + eexists _, _. split; [done|]. split; [by split|]. f_equal. apply lookup_ge_None_1 in Ei. rewrite delete_take_drop, take_ge, drop_ge, app_nil_r by (rewrite length_fmap; lia). done.
  - unfold VersionSet_SetLastSequence. rewrite (proj2 (Z.leb_le _ _) Hop). cbn [assert_]. rewrite !res_bind_ret. eexists _, _. split; [done|]. split; [split; [exact Hs|]|done].
    eapply list.Forall_impl; [exact Hle|]. cbn. lia.
Qed.

Lemma snapshot_steps_ok ops l d : snapshots_ok l d -> advances (vs_last_sequence (versions_ d)) ops ->
  exists l' d', snapshot_steps ops l d = Ret (l', d') /\ snapshots_ok l' d' /\ (l'.*2, vs_last_sequence (versions_ d')) = snapshot_specs ops (l.*2, vs_last_sequence (versions_ d)).
Proof.
  revert l d. induction ops as [|op ops IH]; intros l d Hok Hadv; cbn; [by eexists _, _|].
  destruct (snapshot_step_ok op l d Hok) as (l1 & d1 & -> & Hok1 & Eq1); [destruct op; cbn in Hadv; tauto|]. rewrite res_bind_ret, <- Eq1. apply IH; [done|].
  destruct op; cbn in Hadv, Eq1; injection Eq1 as _ ->; tauto.
Qed.

Lemma choose_smallest_ok l d : snapshots_ok l d -> choose_smallest d = Ret (default (vs_last_sequence (versions_ d)) (head l.*2)).
Proof.
  intros [Hs _]. unfold choose_smallest. rewrite (snapshots_empty_ok _ _ Hs), res_bind_ret. destruct l as [|x l]; [done|]. rewrite bool_decide_false by done.
  rewrite (oldest_ok _ _ _ Hs), res_bind_ret. destruct (snapshot_seq _ _ x Hs) as (y & -> & Ey); [left|]. by rewrite res_bind_ret, Ey.
Qed.

(** C19: Whatever snapshots are taken and released while the sequence number grows,
    no step fails, the ring of snapshots holds exactly the live ones in the
    order they were taken, and the number a compaction keeps entries for is the
    oldest live one, or the last sequence number when there is none: at most
    that of every live snapshot and at most the last one. *)
Theorem snapshots_history ops d : snapshots_ d = new_SnapshotList -> advances (vs_last_sequence (versions_ d)) ops ->
  exists l d' smallest, snapshot_steps ops [] d = Ret (l, d') /\
    (l.*2, vs_last_sequence (versions_ d')) = snapshot_specs ops ([], vs_last_sequence (versions_ d)) /\
    snapshots_are (snapshots_ d') l /\
    choose_smallest d' = Ret smallest /\ Forall (fun n => smallest <= n) (snapshot_specs ops ([], vs_last_sequence (versions_ d))).1 /\
    smallest <= vs_last_sequence (versions_ d') /\ (smallest ∈ l.*2 \/ l = [] /\ smallest = vs_last_sequence (versions_ d')).
Proof.
  intros E0 Hadv. destruct (snapshot_steps_ok ops [] d) as (l & d' & Er & Hok & Eq); [split; [rewrite E0; apply new_SnapshotList_ok|constructor]|done|].
  exists l, d', (default (vs_last_sequence (versions_ d')) (head l.*2)). split; [done|]. split; [done|]. split; [apply Hok|]. split; [by apply choose_smallest_ok|].
  cbn in Eq. rewrite <- Eq. cbn [fst]. destruct Hok as [Hs Hle]. destruct l as [|x l]; cbn; [split; [constructor|]; split; [lia|by right]|].
  pose proof (sa_sorted _ _ Hs) as Hsort. cbn in Hsort. inversion Hsort as [|? ? _ Hx]; subst. split; [by constructor; [lia|]|].
  split; [exact (Forall_elem _ _ x Hle ltac:(left))|left; left].
Qed.
End history.

Lemma snapshots_history_witness : exists l d' smallest,
  let d := MkDBImpl (E := unit) (W := unit) (MkVersionSet ∅ ∅ [] None 2 0 7 0 0 []) None tt ∅ new_SnapshotList Status_OK [] None false false 0 None false in
  snapshot_steps [TakeSnapshot; AdvanceSequence 9; TakeSnapshot; TakeSnapshot; DropSnapshot 0; AdvanceSequence 12] [] d = Ret (l, d') /\ l.*2 = [9; 9] /\
  choose_smallest d' = Ret smallest /\ smallest = 9.
Proof.
  destruct (snapshots_history [TakeSnapshot; AdvanceSequence 9; TakeSnapshot; TakeSnapshot; DropSnapshot 0; AdvanceSequence 12]
    (MkDBImpl (E := unit) (W := unit) (MkVersionSet ∅ ∅ [] None 2 0 7 0 0 []) None tt ∅ new_SnapshotList Status_OK [] None false false 0 None false))
    as (l & d' & smallest & E1 & E2 & _ & E3 & _ & _ & Hin); [done|cbn; lia|].
  exists l, d', smallest. split; [exact E1|]. injection E2 as El Ed. split; [exact El|]. split; [exact E3|]. rewrite El in Hin.
  destruct Hin as [Hin|[Hno _]]; [|rewrite Hno in El; discriminate El]. rewrite !elem_of_cons, elem_of_nil in Hin. tauto.
Defined.
